(* ===== verification/_CoqProject ===== *)
-Q . S2P
Prelude.v
Effects.v
Unicode.v
Double.v
Float16.v
Value.v
IsoCalendar.v
EcmaDate.v
NumberString.v
DateText.v
StringOps.v
KeyedCollection.v
ObjectStructure.v
ObjectModel.v
ObjectWorld.v
ArrayObject.v
Promise.v
Proxy.v
Sort.v
ArrayBuffer.v
BufferInvariant.v
BufferSafety.v
BufferBuiltins.v
TypedArray.v
TypedArraySafety.v
TypedArrayCopies.v
TypedArrayLoops.v
TypedArrayLoopSafety.v
BufferScript.v
BufferBytes.v
TypedArrayElements.v
TypedArraySearch.v
TypedArraySort.v
