(* ===== verification/Prelude.v ===== *)
(** * Verification of the Escargot JavaScript engine

    Escargot is an ECMAScript engine in C++.  Source text is parsed
    (src/src/parser) to bytecode (src/src/interpreter), which operates on values,
    strings and objects (src/src/runtime) that live in a garbage-collected heap;
    builtins (src/src/builtins) are native functions over the same runtime.  This
    development models the runtime core below the interpreter: the
    representation of values and strings, hidden classes, ordinary objects with
    their prototypes, arrays, proxies, array buffers with the typed arrays over them, the
    ordered collections behind Map and Set, promises, dates, and the calendar arithmetic
    of Temporal.  File names below are relative to src/src.

    ** Parts

    - [Prelude]: machine integers as [Z] with the wrap-around of their type
      ([wrapu], [wraps]), decimal numerals, a tactic that turns boolean
      comparisons into propositions ([Zbool]), and the [result] of operations: a value, a thrown exception or
      [Undefined], behaviour that C++ does not define (a read outside of a
      buffer, an exhausted loop).  Theorems that conclude [Ok] therefore also
      exclude such behaviour.
    - [Effects]: computations with state, exceptions and undefined behaviour, and
      their weakest preconditions; the parts with builtins that call back use it.
      A computation that is undefined has no outcome; only the two casts that can
      be undefined in scripts over array buffers have one, [UndefinedCast], at which
      a script ends.
    - [Unicode] (runtime/String.cpp, Escargot.h): character classes, the UTF-8
      decoder and encoder, surrogates, well-formedness.
    - [Double]: binary64 as 64-bit patterns; what the language gives, on which
      the number conversions and the day arithmetic rest.
    - [Float16] (util/Float16.h): half precision from and to binary64.
    - [Value] (runtime/Value.h, ValueInlines.h, Value.cpp, EncodedValue.h): NaN
      boxing, ToInt32, ToIndex, the equality algorithms, small integers.
    - [IsoCalendar] (util/ISO8601.cpp, runtime/TemporalObject.cpp): day numbers,
      packed dates, date arithmetic, balancing of times.
    - [EcmaDate] (runtime/DateObject.h, .cpp, builtins/BuiltinDate.cpp): the fields
      of a time value and back, dates with their cache of local fields, and their
      getters and setters.
    - [NumberString] (runtime/String.cpp, StringBuilder.cpp): printers and readers
      of integers and array indexes, the layout of the digits of a double.
    - [DateText] (runtime/DateObject.cpp): the formats of dates and the two parsers
      of Date.parse, on bytes.
    - [StringOps] (runtime/String.cpp, StringBuilder.h, parser/Lexer.h): searching,
      comparing, slicing, trimming, the string builder, replacement templates.
    - [KeyedCollection] (runtime/KeyedCollectionHashIndex.h, MapObject.cpp,
      SetObject.cpp): Map and Set.
    - [ObjectStructure] (runtime/ObjectStructure.h, .cpp and the two files of
      property names and descriptors): hidden classes.
    - [ObjectModel] (runtime/Object.h, Object.cpp): property descriptors and the
      own properties of ordinary objects.
    - [ObjectWorld] (runtime/Object.cpp): many objects, prototypes, [[Get]],
      [[Set]].
    - [ArrayObject] (runtime/ArrayObject.h, .cpp, util/Vector.h, TightVector.h):
      arrays with their fast mode, over [ObjectModel].
    - [Promise] (runtime/PromiseObject.h, .cpp, Job.cpp, JobQueue.h, .cpp,
      builtins/BuiltinPromise.cpp): promises, the functions that resolve them, and
      the queue of jobs.
    - [Proxy] (runtime/ProxyObject.h, .cpp): the internal methods of proxies, and
      the invariants that every object must keep.
    - [Sort] (util/Util.h, runtime/ArrayObject.cpp, Object.cpp,
      TypedArrayObject.cpp, builtins/BuiltinArray.cpp, BuiltinTypedArray.cpp): the
      merge sort, the sorts of arrays and other objects, and their comparators.
    - [ArrayBuffer] (runtime/BackingStore.h, .cpp, ArrayBuffer.h,
      ArrayBufferObject.cpp, SharedArrayBufferObject.cpp,
      builtins/BuiltinArrayBuffer.cpp, BuiltinSharedArrayBuffer.cpp,
      BuiltinDataView.cpp): blocks of memory with their lifetime, backing stores,
      buffers that change their store, views that observe them, and the builtins.
      [BufferInvariant] has the invariant of this state, [BufferSafety] the rules
      for its operations, and [BufferBuiltins] the builtins.
    - [TypedArray] (runtime/TypedArrayInlines.h, TypedArrayObject.cpp,
      DataViewObject.h, builtins/BuiltinTypedArray.cpp, BuiltinDataView.cpp): numbers
      as bytes, elements, and the builtins that copy them; [TypedArraySafety] and
      [TypedArrayCopies] show that they keep to their memory.
    - [TypedArrayLoops] (builtins/BuiltinTypedArray.cpp, BuiltinAtomics.cpp): the
      builtins that search, iterate with functions of the script, or turn bytes
      into hexadecimal digits and back, and the operations of Atomics on elements;
      [TypedArrayLoopSafety] shows that they keep to their memory.
    - [BufferScript]: scripts over array buffers, the collector, and what scripts
      see; [BufferBytes] and [TypedArrayElements]: the bytes in memory;
      [TypedArraySearch]: what the searches find; [TypedArraySort]: that [Sort]
      can rely on what it asks of typed arrays.

    ** How the parts interact

    A value is a 64-bit word; what a pointer leads to is read from a [heap], a
    finite map of addresses.  [ValueSpec.denote] gives the language value of a
    word, and the theorems on equality relate words to it.  [KeyedCollection] is
    stated over the class [CollectionKey]; its instance is the hash and
    SameValueZero of [Value].  [ObjectStructure] keeps structures in a store by
    number, because objects, inline caches and transition tables share them; it
    needs unique interned names with hashes that respect equality (class
    [NameSpace]) and provides the class [StructureLaws]: searching, adding,
    removing and replacing do to the ordered list of properties what they should,
    and change no other structure that somebody may still use ([evolves]).
    [ObjectModel] and [ObjectWorld] are proved against that class only; the
    claims are stated for the real store, whose instance is [store_laws].
    [Promise] has a world of its own: script code, which it calls and which calls
    it back, is any sequence of its operations (the relation [activity]), and the
    loop of jobs is a relation [turn] on worlds.
    [Proxy] takes targets by their interface, a record of internal methods, and
    gives one: a proxy can be the target of a proxy.
    [Sort] uses arrays by [ArrayObject] and other objects by what it calls of them;
    its comparators are computations that change the same state.
    A view caches the address and the length that it has in its buffer: a buffer
    observes its backing store and a view its buffer, and what changes a store
    tells its observers ([store_bufferUpdated]).  Builtins of array buffers run
    script code when they convert their arguments and construct their results; this code is
    any [script] over the same builtins, so the invariant of [BufferInvariant] is
    what holds at each of these points, and [steady] is what a builtin in progress
    still knows of the views it works on.

    ** What the theorems show

    - Encodings: UTF-8 decoding inverts encoding, decoding never leaves the
      buffer, and the printers and readers of integers are inverse to each other
      with exact overflow behaviour.
    - Values: ToInt32 is arithmetic modulo 2^32, ToIndex accepts exactly the
      integers up to 2^53-1, and the three equality algorithms on words are those
      of ECMA-262 on the values they denote.
    - Calendar: day numbers count days, balancing inverts them, and date addition
      is AddISODate, although the code computes in doubles.
    - Dates: the fields of every time value are those of ECMA-262, and back; the
      cache of local fields is never out of date; the setters are those of
      ECMA-262 in a zone of one offset, and examples show where the code goes
      wrong in a zone that changes its offset, and with numbers near the limits.
      What toISOString and toUTCString print in such a zone is read back as the
      same time.
    - Strings: the piecewise builder is concatenation, GetSubstitution follows the
      specification, searches find the first and the last occurrence.
    - Map and Set: under every sequence of operations, with callbacks that change
      the collection in between, the storage with its hash index behaves as the
      MapData list; iteration visits entries in order, and ends.
    - Hidden classes: whatever class represents a structure, it behaves as an
      ordered list of properties, as long as names of one key have one hash;
      transitions are shared and change no structure.
    - Ordinary objects: [[DefineOwnProperty]] is ValidateAndApplyPropertyDescriptor
      and [[Set]] is OrdinarySet; every sequence of operations keeps the world
      consistent and changes no object it does not name; searches along
      prototypes end, since no operation closes a cycle of ordinary objects.
    - Arrays: in fast mode and out of it an array is the exotic array object of
      ECMA-262; its buffer is used within its bounds and initialized.
    - Promises: in every world that script code and jobs can reach, a promise was
      settled at most once and each reaction was enqueued exactly once; jobs run
      first in, first out; no call goes wrong; Promise.all and its
      relatives call their target once, with all the values.
    - Proxies: no trap can make a proxy contradict what was observed of its target,
      apart from the reports on missing properties that a finding is about.
    - Array buffers: whatever scripts do, no access leaves a live block of memory,
      nothing is freed twice, no assertion fails, and casts are defined but for
      the two of [UndefinedCast]; what a view caches, and the elements and lengths
      that it shows, are what ECMA-262 computes from its buffer at each access, but
      for an incomplete element in byteLength and for DataViews over empty buffers;
      elements are converted as it says, for all types, and a write changes no other
      byte; copyWithin moves the bytes at once; indexOf and lastIndexOf find the
      first and the last strictly equal element, for values in the range of the
      type.  Half precision rounds to nearest, ties to even.
    - Sorting: the merge sort is the sort on lists, stays in its buffers and ends
      with any comparator, and with a consistent one gives the only list that is
      sorted and stable; so do the sorts of arrays and of objects with gaps and
      inherited indexes, with comparisons that succeed, are consistent on the
      values that are sorted and leave the object alone, and the default sort of
      typed arrays.

    ** Fuel

    Loops over lists are structural.  Fuel bounds walks whose end depends on the
    state: probing a hash index ends because a bucket is free (the load limit),
    walks along prototypes because chains are no longer than there are objects,
    the number loops because the operand shrinks; each has a theorem that the
    bound in its statement suffices.  Running out of fuel is [Undefined], so no
    theorem can hold by exhaustion.

    ** Not modelled

    The parser, the bytecode and its interpreter, functions and generators; the
    garbage collector (allocation succeeds, addresses are never reused);
    internationalization, WebAssembly, N-API, the debugger, the public interface
    and the shell, which are glue to other libraries or to the system; vendored
    code (yarr, libbf, double_conversion, rapidjson, robin_map).  Where modelled
    code calls such code it is a parameter: the shortest digits of a double, the
    hash of a string, getters and setters in native code, the offsets of a time
    zone.  Of ordinary objects the
    bookkeeping for indexed properties of prototypes and the overrides of other exotic
    objects are left out, of arrays the enumeration and
    the builtins (but for sorting), of typed arrays join, from and
    of, texts in Base64, defineOwnProperty and the enumeration of keys, of array
    buffers other agents that share a block, with the waiting and notifying of
    Atomics, and failing allocation, of promises the hooks, the functions of [finally], the iteration
    of the argument of [all], and jobs of other kinds.

    ** Plan

    The lists of waiters of Atomics, the iterating builtins of arrays, parsing and
    rounding in Temporal, the Base64 codec. *)
From Stdlib Require Import ZArith Lia Bool.
From stdpp Require Import base numbers list decidable.

(** * Machine integers *)

Declare Scope esc_scope.
Delimit Scope esc_scope with esc.
Open Scope Z_scope.

(** A conversion to an unsigned [w]-bit type. *)
Definition wrapu (w x : Z) : Z := x mod 2 ^ w.

(** A conversion to a signed [w]-bit two's complement type. *)
Definition wraps (w x : Z) : Z := (x + 2 ^ (w - 1)) mod 2 ^ w - 2 ^ (w - 1).

(** The ranges of the two families. *)
Definition in_u (w x : Z) : Prop := 0 <= x < 2 ^ w.
Definition in_s (w x : Z) : Prop := - 2 ^ (w - 1) <= x < 2 ^ (w - 1).

#[export] Instance in_u_dec w x : Decision (in_u w x).
Proof. unfold in_u. apply _. Defined.
#[export] Instance in_s_dec w x : Decision (in_s w x).
Proof. unfold in_s. apply _. Defined.

Abbreviation u8 := (wrapu 8).
Abbreviation u16 := (wrapu 16).
Abbreviation u32 := (wrapu 32).
Abbreviation u64 := (wrapu 64).
Abbreviation i8 := (wraps 8).
Abbreviation i32 := (wraps 32).
Abbreviation i64 := (wraps 64).
Abbreviation i128 := (wraps 128).

Lemma wrapu_range w x : 0 <= w -> in_u w (wrapu w x).
Proof. intros. unfold in_u, wrapu. apply Z.mod_pos_bound. lia. Qed.

Lemma wrapu_id w x : in_u w x -> wrapu w x = x.
Proof. unfold in_u, wrapu. intros. apply Z.mod_small. lia. Qed.

Lemma wrapu_mod_eq w x y : 0 <= w -> x mod 2 ^ w = y mod 2 ^ w <-> wrapu w x = wrapu w y.
Proof. reflexivity. Qed.

Lemma wrapu_add_mult w x k : wrapu w (x + k * 2 ^ w) = wrapu w x.
Proof.
  unfold wrapu. destruct (decide (0 <= w)).
  - apply Z.mod_add. lia.
  - rewrite (Z.pow_neg_r 2 w) by lia. now rewrite !Z.mod_0_r, Z.mul_0_r, Z.add_0_r.
Qed.

Lemma wraps_range w x : 0 < w -> in_s w (wraps w x).
Proof.
  intros. unfold in_s, wraps.
  assert (2 ^ w = 2 * 2 ^ (w - 1)) as E.
  { rewrite <- Z.pow_succ_r by lia. f_equal. lia. }
  pose proof (Z.mod_pos_bound (x + 2 ^ (w - 1)) (2 ^ w)). lia.
Qed.

Lemma wraps_id w x : 0 < w -> in_s w x -> wraps w x = x.
Proof.
  intros Hw [H1 H2]. unfold wraps.
  assert (2 ^ w = 2 * 2 ^ (w - 1)) as E.
  { rewrite <- Z.pow_succ_r by lia. f_equal. lia. }
  rewrite Z.mod_small by lia. lia.
Qed.

(** A signed value and its unsigned image are congruent. *)
Lemma wrapu_wraps w x : 0 < w -> wrapu w (wraps w x) = wrapu w x.
Proof.
  intros. unfold wrapu, wraps.
  rewrite Zminus_mod_idemp_l. f_equal. lia.
Qed.

Lemma wraps_wrapu w x : 0 < w -> wraps w (wrapu w x) = wraps w x.
Proof. intros. unfold wrapu, wraps. now rewrite Zplus_mod_idemp_l. Qed.

(** Two's complement representatives are unique. *)
Lemma wraps_unique w x y : 0 < w -> in_s w y -> (x - y) mod 2 ^ w = 0 -> wraps w x = y.
Proof.
  intros Hw Hy E.
  assert (0 < 2 ^ w) by lia.
  apply Z.mod_divide in E; [|lia]. destruct E as [k E].
  rewrite <- (wraps_wrapu w x), <- (wraps_id w y) by assumption.
  rewrite <- (wraps_wrapu w y) by assumption. f_equal.
  replace x with (y + k * 2 ^ w) by lia. apply wrapu_add_mult.
Qed.

(** * Bit masks as arithmetic *)

(** [x & (2^k - 1)]. *)
Lemma land_low_mask k m x : 0 <= k -> m = 2 ^ k - 1 -> Z.land x m = x mod 2 ^ k.
Proof.
  intros Hk ->. rewrite <- Z.land_ones by lia.
  f_equal. rewrite Z.ones_equiv. lia.
Qed.

(** [x & ~(2^k - 1)] in [w] bits. *)
Lemma land_high_mask w k m x :
  0 <= k <= w -> in_u w x -> m = 2 ^ w - 2 ^ k -> Z.land x m = x - x mod 2 ^ k.
Proof.
  intros Hk Hx ->.
  assert (2 ^ w - 2 ^ k = Z.shiftl (Z.ones (w - k)) k) as ->.
  { rewrite Z.shiftl_mul_pow2, Z.ones_equiv by lia.
    rewrite <- Z.sub_1_r, Z.mul_sub_distr_r, <- Z.pow_add_r by lia.
    f_equal; [f_equal|]; lia. }
  transitivity (Z.shiftl (Z.shiftr x k) k).
  - apply Z.bits_inj'. intros n Hn.
    rewrite Z.land_spec, !Z.shiftl_spec by lia.
    destruct (decide (k <= n)).
    + rewrite Z.shiftr_spec by lia. replace (n - k + k) with n by lia.
      destruct (decide (n < w)).
      * rewrite Z.ones_spec_low by lia. apply andb_true_r.
      * rewrite (Z.testbit_eqb x n) by lia.
        rewrite Z.div_small; [reflexivity|].
        unfold in_u in Hx. pose proof (Z.pow_le_mono_r 2 w n). lia.
    + rewrite !(Z.testbit_neg_r _ (n - k)) by lia. apply andb_false_r.
  - rewrite Z.shiftl_mul_pow2, Z.shiftr_div_pow2 by lia.
    pose proof (Z.div_mod x (2 ^ k)). lia.
Qed.

(** [hi | lo] when the two do not overlap. *)
Lemma lor_disjoint k hi lo :
  0 <= k -> 0 <= lo < 2 ^ k -> hi mod 2 ^ k = 0 -> Z.lor hi lo = hi + lo.
Proof.
  intros Hk Hlo Hhi.
  assert (Z.land hi lo = 0) as E.
  { apply Z.bits_inj'. intros n Hn. rewrite Z.land_spec, Z.bits_0.
    destruct (decide (n < k)).
    - rewrite <- (Z.mod_pow2_bits_low hi k n), Hhi, Z.bits_0 by lia. reflexivity.
    - rewrite (Z.testbit_eqb lo n), Z.div_small by
        (try pose proof (Z.pow_le_mono_r 2 k n); lia).
      apply andb_false_r. }
  rewrite <- Z.lxor_lor by assumption.
  symmetry. now apply Z.add_nocarry_lxor.
Qed.

(** * Exhaustive checks over a finite range *)

Fixpoint range_forallb (f : Z -> bool) (lo : Z) (n : nat) : bool :=
  match n with
  | O => true
  | S n' => f lo && range_forallb f (lo + 1) n'
  end.

Lemma range_forallb_spec f n lo :
  range_forallb f lo n = true -> forall x, lo <= x < lo + Z.of_nat n -> f x = true.
Proof.
  revert lo. induction n as [|n IH]; intros lo H x Hx; simpl in *; [lia|].
  apply andb_prop in H as [H1 H2].
  destruct (decide (x = lo)) as [->|]; [assumption|].
  apply (IH (lo + 1)); [assumption|lia].
Qed.

(** Every byte satisfies a boolean test that evaluates to [true] on all 256. *)
Lemma byte_forallb f :
  range_forallb f 0 256 = true -> forall x, in_u 8 x -> f x = true.
Proof. intros H x Hx. apply (range_forallb_spec f 256 0 H). unfold in_u in Hx. simpl in *. lia. Qed.

(** * Boolean comparisons *)

Lemma if_bool_decide_prop (P : Prop) `{Decision P} (b : bool) :
  (b = true <-> P) -> b = bool_decide P.
Proof. intros E. symmetry. destruct b; [apply bool_decide_eq_true_2|apply bool_decide_eq_false_2]; intuition congruence. Qed.

(** [Zbool] turns the boolean comparisons of a goal and its hypotheses into
    facts [lia] reads; [Zcase] splits a goal on the first conditional. *)
Ltac Zbool :=
  repeat match goal with
  | H : (_ && _)%bool = true |- _ => apply andb_prop in H as [? ?]
  | H : (_ || _)%bool = false |- _ => apply orb_false_elim in H as [? ?]
  | H : (_ =? _) = true |- _ => apply Z.eqb_eq in H
  | H : (_ =? _) = false |- _ => apply Z.eqb_neq in H
  | H : (_ <? _) = true |- _ => apply Z.ltb_lt in H
  | H : (_ <? _) = false |- _ => apply Z.ltb_ge in H
  | H : (_ <=? _) = true |- _ => apply Z.leb_le in H
  | H : (_ <=? _) = false |- _ => apply Z.leb_gt in H
  | H : negb _ = true |- _ => apply negb_true_iff in H
  | H : negb _ = false |- _ => apply negb_false_iff in H
  end.

Ltac Zcase :=
  match goal with
  | |- context [if ?b then _ else _] => let E := fresh "E" in destruct b eqn:E
  end; Zbool.

(** [div_bounds] introduces the quotient and remainder equations of every
    division of the goal. *)
Ltac div_fact x m :=
  lazymatch goal with
  | _ : x = m * (x / m) + x mod m |- _ => fail
  | _ => pose proof (Z.div_mod x m ltac:(lia)); pose proof (Z.mod_pos_bound x m ltac:(lia))
  end.
Ltac div_bounds :=
  repeat match goal with
  | |- context [?x mod ?m] => div_fact x m
  | |- context [?x / ?m] => div_fact x m
  end.


(** * Decimal numerals

    The reference the integer printers and readers are compared with: [dec n] is
    the canonical numeral of [n >= 0] as ASCII codes, [dec_value] the number a
    string of digits denotes. *)

Fixpoint dec_fuel (fuel : nat) (n : Z) (acc : list Z) : list Z :=
  match fuel with
  | O => acc
  | S fuel => let acc := (48 + n mod 10) :: acc in
              if n <? 10 then acc else dec_fuel fuel (n / 10) acc
  end.
Definition dec (n : Z) : list Z := dec_fuel (S (Z.to_nat (Z.log2 n))) n [].

Definition is_digit (c : Z) : bool := (48 <=? c) && (c <=? 57).
Definition dec_step (a c : Z) : Z := 10 * a + (c - 48).
Definition dec_value (s : list Z) : Z := fold_left dec_step s 0.

(** A numeral without a superfluous leading zero. *)
Definition canonical (s : list Z) : bool :=
  forallb is_digit s &&
  match s with [] => false | [_] => true | c :: _ => negb (c =? 48) end.

Lemma dec_fuel_acc f n acc : dec_fuel f n acc = dec_fuel f n [] ++ acc.
Proof.
  revert n acc. induction f as [|f IH]; intros n acc; simpl; [reflexivity|].
  destruct (n <? 10); [reflexivity|]. rewrite IH, (IH _ [_]), <- app_assoc. reflexivity.
Qed.

Lemma dec_fuel_enough f g n :
  0 <= n -> n < 10 ^ Z.of_nat f -> n < 10 ^ Z.of_nat g -> (0 < f)%nat -> (0 < g)%nat ->
  dec_fuel f n [] = dec_fuel g n [].
Proof.
  revert g n. induction f as [|f IH]; intros g n H0 Hf Hg Pf Pg; [lia|].
  destruct g as [|g]; [lia|]. simpl. destruct (n <? 10) eqn:E; Zbool; [reflexivity|].
  rewrite (dec_fuel_acc f), (dec_fuel_acc g). f_equal.
  rewrite Nat2Z.inj_succ, Z.pow_succ_r in Hf, Hg by lia.
  apply IH; [apply Z.div_pos; lia|apply Z.div_lt_upper_bound; lia..| |].
  - destruct f; [simpl in *; lia|lia].
  - destruct g; [simpl in *; lia|lia].
Qed.

Lemma dec_bound n : 0 <= n -> n < 10 ^ Z.of_nat (S (Z.to_nat (Z.log2 n))).
Proof.
  intros H. rewrite Nat2Z.inj_succ, Z2Nat.id by apply Z.log2_nonneg.
  destruct (decide (n = 0)) as [->|]; [reflexivity|].
  pose proof (Z.log2_spec n ltac:(lia)) as [_ E].
  pose proof (Z.log2_nonneg n).
  pose proof (Z.pow_le_mono_l 2 10 (Z.succ (Z.log2 n)) ltac:(lia)). lia.
Qed.

Lemma dec_small n : 0 <= n < 10 -> dec n = [48 + n].
Proof.
  intros H. unfold dec. simpl. rewrite Z.mod_small by lia.
  destruct (n <? 10) eqn:E; Zbool; [reflexivity|lia].
Qed.

Lemma dec_snoc n d : 0 < n -> 0 <= d < 10 -> dec (10 * n + d) = dec n ++ [48 + d].
Proof.
  intros Hn Hd. unfold dec.
  set (f := S (Z.to_nat (Z.log2 n))).
  rewrite (dec_fuel_enough _ (S f) (10 * n + d)).
  - cbn [dec_fuel]. destruct (10 * n + d <? 10) eqn:E; Zbool; [lia|].
    rewrite (Z.mul_comm 10 n), Z.div_add_l, Z.div_small, Z.add_0_r by lia.
    rewrite (Z.add_comm (n * 10)), Z.mod_add, Z.mod_small by lia. apply dec_fuel_acc.
  - lia.
  - apply dec_bound. lia.
  - pose proof (dec_bound n ltac:(lia)) as B. fold f in B.
    rewrite Nat2Z.inj_succ, Z.pow_succ_r by lia. lia.
  - lia.
  - lia.
Qed.

(** Induction over the digits of a number. *)
Lemma dec_ind (P : Z -> Prop) :
  (forall n, 0 <= n < 10 -> P n) ->
  (forall n d, 0 < n -> 0 <= d < 10 -> P n -> P (10 * n + d)) ->
  forall n, 0 <= n -> P n.
Proof.
  intros Hs Hd n Hn. revert n Hn. apply (Zlt_0_ind (fun n => P n)).
  intros n IH Hn. destruct (decide (n < 10)) as [|Hge]; [apply Hs; lia|].
  rewrite (Z.div_mod n 10) by lia. pose proof (Z.mod_pos_bound n 10).
  assert (1 <= n / 10 < n) by (split; [apply Z.div_le_lower_bound|apply Z.div_lt]; lia).
  apply Hd; [lia|lia|apply IH; lia].
Qed.

Lemma dec_value_app s t : dec_value (s ++ t) = fold_left dec_step t (dec_value s).
Proof. unfold dec_value. apply fold_left_app. Qed.

Lemma dec_value_dec n : 0 <= n -> dec_value (dec n) = n.
Proof.
  intros Hn0; pattern n; apply dec_ind; [intros m Hn|intros m d Hn Hd IH|exact Hn0]; clear Hn0.
  - rewrite dec_small by lia. unfold dec_value, dec_step. simpl. lia.
  - rewrite dec_snoc, dec_value_app, IH by lia. unfold dec_step. simpl. lia.
Qed.

Lemma is_digit_range c : is_digit c = true <-> 48 <= c <= 57.
Proof. unfold is_digit. rewrite andb_true_iff, !Z.leb_le. lia. Qed.

Lemma dec_digits n : 0 <= n -> forallb is_digit (dec n) = true.
Proof.
  intros Hn0; pattern n; apply dec_ind; [intros m Hn|intros m d Hn Hd IH|exact Hn0]; clear Hn0.
  - rewrite dec_small by lia. simpl. rewrite andb_true_r. apply is_digit_range. lia.
  - rewrite dec_snoc, forallb_app, IH by lia. simpl. rewrite andb_true_r. apply is_digit_range. lia.
Qed.

Lemma dec_head n : 0 < n -> exists c s, dec n = c :: s /\ 49 <= c <= 57.
Proof.
  intros Hn. assert (0 <= n) as H0 by lia. revert n H0 Hn.
  apply (dec_ind (fun n => 0 < n -> exists c s, dec n = c :: s /\ 49 <= c <= 57)).
  - intros n H Hn. rewrite dec_small by lia. exists (48 + n), []. split; [reflexivity|lia].
  - intros n d Hn Hd IH _. rewrite dec_snoc by lia. destruct (IH Hn) as (c & s & -> & Hc).
    exists c, (s ++ [48 + d]). split; [reflexivity|assumption].
Qed.

Lemma dec_canonical n : 0 <= n -> canonical (dec n) = true.
Proof.
  intros Hn. unfold canonical. rewrite dec_digits by assumption.
  destruct (decide (n = 0)) as [->|]; [reflexivity|].
  destruct (dec_head n ltac:(lia)) as (c & s & -> & Hc). destruct s; [reflexivity|].
  simpl. apply negb_true_iff, Z.eqb_neq. lia.
Qed.

Lemma dec_step_mono s a b : 0 <= a <= b -> forallb is_digit s = true ->
  a <= b -> a <= fold_left dec_step s b.
Proof.
  revert b. induction s as [|c s IH]; intros b Hb Hs Hab; simpl in *; [lia|].
  apply andb_prop in Hs as [Hc%is_digit_range Hs].
  apply IH; [unfold dec_step; lia|assumption|unfold dec_step; lia].
Qed.

Lemma dec_value_nonneg s : forallb is_digit s = true -> 0 <= dec_value s.
Proof. intros H. apply dec_step_mono; [lia|assumption|lia]. Qed.

(** The canonical numerals are exactly the numerals [dec] prints. *)
Lemma canonical_dec s : canonical s = true -> dec (dec_value s) = s.
Proof.
  unfold canonical. induction s as [|c s IH] using rev_ind; [discriminate|].
  intros [Hd Hh]%andb_prop. rewrite forallb_app in Hd. apply andb_prop in Hd as [Hs Hc].
  simpl in Hc. rewrite andb_true_r in Hc. apply is_digit_range in Hc.
  rewrite dec_value_app. simpl. unfold dec_step at 1.
  destruct s as [|c0 s].
  - change (dec_value []) with 0. simpl app. rewrite dec_small by lia. f_equal. lia.
  - simpl in Hh. assert (negb (c0 =? 48) = true) as H0.
    { destruct s; simpl in Hh; exact Hh. }
    apply negb_true_iff, Z.eqb_neq in H0.
    assert (0 < dec_value (c0 :: s)) as Hpos.
    { simpl in Hs. apply andb_prop in Hs as [Hc0%is_digit_range Hs].
      unfold dec_value. simpl. apply Z.lt_le_trans with (dec_step 0 c0); [unfold dec_step; lia|].
      apply dec_step_mono; [unfold dec_step; lia|assumption|lia]. }
    rewrite dec_snoc by lia. rewrite IH.
    + f_equal. f_equal. lia.
    + rewrite Hs. destruct s; [reflexivity|]. simpl. now apply negb_true_iff, Z.eqb_neq.
Qed.


(** * Array accesses and results

    [lookupZ] reads an array at an integer index; [None] is a read outside it. *)
Definition lookupZ {A} (l : list A) (i : Z) : option A :=
  if i <? 0 then None else l !! Z.to_nat i.

(** The outcome of code that can throw or leave the defined behaviour of the
    language (an out-of-bounds access, an undefined conversion). *)
Inductive exn := RangeError | TypeError.
Inductive result (A : Type) :=
  | Ok (a : A)
  | Throw (e : exn)
  | Undefined.
Arguments Ok {A} a.
Arguments Throw {A} e.
Arguments Undefined {A}.

#[export] Instance result_ret : MRet result := @Ok.
#[export] Instance result_bind : MBind result :=
  fun A B f r => match r with Ok a => f a | Throw e => Throw e | Undefined => Undefined end.

(** An access that must be in bounds. *)
Definition defined {A} (o : option A) : result A :=
  match o with Some a => Ok a | None => Undefined end.

Lemma lookupZ_lt {A} (l : list A) i : 0 <= i < Z.of_nat (length l) -> is_Some (lookupZ l i).
Proof.
  intros H. unfold lookupZ. destruct (i <? 0) eqn:E; Zbool; [lia|].
  apply lookup_lt_is_Some_2. lia.
Qed.
