(* ===== verification/Effects.v ===== *)
(** Computations of the engine: they change a state of everything, since script
    code may run in them, and return a value or throw; those that use memory or
    conversions may also leave the defined behaviour of C++. *)
From Stdlib Require Import ZArith.
From stdpp Require Import base tactics.
From S2P Require Import Prelude.

Module Effects.

(** What ends a computation early: an error of the engine or a value of a script
    that is thrown, or [UndefinedCast], which is no exception: the computation has
    come to a cast of a double that the target type cannot hold, whose result C++
    leaves undefined, and is followed no further. *)
Inductive Thrown := ThrownTypeError | ThrownRangeError | ThrownSyntaxError | ThrownValue (v : Z) | UndefinedCast.

(** The computations that are always defined. *)
Definition M (World A : Type) : Type := World -> World * (A + Thrown).
#[export] Instance M_ret World : MRet (M World) := fun A a w => (w, inl a).
#[export] Instance M_bind World : MBind (M World) := fun A B k m w =>
  match m w with (w', inl a) => k a w' | (w', inr e) => (w', inr e) end.
Definition throwTypeError {World A} : M World A := fun w => (w, inr ThrownTypeError).

(** The computations that may be undefined: then there is no outcome. *)
Definition MU (World A : Type) : Type := World -> option (World * (A + Thrown)).
#[export] Instance MU_ret World : MRet (MU World) := fun A a w => Some (w, inl a).
#[export] Instance MU_bind World : MBind (MU World) := fun A B k m w =>
  match m w with
  | Some (w', inl a) => k a w'
  | Some (w', inr e) => Some (w', inr e)
  | None => None
  end.
Definition run {World A} (m : M World A) : MU World A := fun w => Some (m w).
(** What must be defined. *)
Definition certain {World A} (o : option A) : MU World A := fun w =>
  match o with Some a => Some (w, inl a) | None => None end.
Definition throw {World A} (e : Thrown) : MU World A := fun w => Some (w, inr e).
(** A cast that need not be defined. *)
Definition cast {World A} (o : option A) : MU World A := match o with Some a => mret a | None => throw UndefinedCast end.
(** Reading and changing the state. *)
Definition gets {World A} (f : World -> A) : MU World A := fun w => Some (w, inl (f w)).
Definition modify {World} (f : World -> World) : MU World unit := fun w => Some (f w, inl tt).
(** A guard that throws. *)
Definition throw_if {World} (b : bool) (e : Thrown) : MU World unit := if b then throw e else mret tt.

End Effects.

(** * Reasoning about computations

    [wp m Q w]: from [w] the computation has an outcome, and [Q] holds of it. *)
Module WP.
Import Effects.

Section WP.
Context {World : Type}.

Definition wp {A} (m : MU World A) (Q : A + Thrown -> World -> Prop) (w : World) : Prop :=
  exists w' r, m w = Some (w', r) /\ Q r w'.

Lemma wp_mono {A} (m : MU World A) (Q Q' : A + Thrown -> World -> Prop) w :
  wp m Q w -> (forall r w', Q r w' -> Q' r w') -> wp m Q' w.
Proof. intros (w' & r & E & H) HQ. exists w', r. auto. Qed.
Lemma wp_ret {A} (a : A) Q w : Q (inl a) w -> wp (mret a) Q w.
Proof. intros H. now exists w, (inl a). Qed.
Lemma wp_throw {A} e (Q : A + Thrown -> World -> Prop) w : Q (inr e) w -> wp (throw e) Q w.
Proof. intros H. now exists w, (inr e). Qed.
Lemma wp_bind {A B} (m : MU World A) (k : A -> MU World B) Q w :
  wp m (fun r w' => match r with inl a => wp (k a) Q w' | inr e => Q (inr e) w' end) w -> wp (m ≫= k) Q w.
Proof.
  intros (w1 & [a|e] & E & H).
  - destruct H as (w2 & r & E2 & H). exists w2, r. split; [|done]. unfold mbind, MU_bind. now rewrite E.
  - exists w1, (inr e). split; [|done]. unfold mbind, MU_bind. now rewrite E.
Qed.
Lemma wp_gets {A} (f : World -> A) Q w : Q (inl (f w)) w -> wp (gets f) Q w.
Proof. intros H. now exists w, (inl (f w)). Qed.
Lemma wp_gets_id (Q : World + Thrown -> World -> Prop) w : Q (inl w) w -> wp (gets id) Q w.
Proof. apply (wp_gets id). Qed.
Lemma wp_modify (f : World -> World) Q w : Q (inl tt) (f w) -> wp (modify f) Q w.
Proof. intros H. now exists (f w), (inl tt). Qed.
Lemma wp_throw_if b e Q w : (b = true -> Q (inr e) w) -> (b = false -> Q (inl tt) w) -> wp (throw_if b e) Q w.
Proof. intros H1 H2. unfold throw_if. destruct b; [apply wp_throw|apply wp_ret]; auto. Qed.
Lemma wp_certain {A} (a : A) o Q w : o = Some a -> Q (inl a) w -> wp (certain o) Q w.
Proof. intros -> H. now exists w, (inl a). Qed.
Lemma wp_eq {A} (m : MU World A) Q w w' r : m w = Some (w', r) -> Q r w' -> wp m Q w.
Proof. intros E H. now exists w', r. Qed.
Lemma wp_if {A} (b : bool) (m1 m2 : MU World A) Q w :
  (b = true -> wp m1 Q w) -> (b = false -> wp m2 Q w) -> wp (if b then m1 else m2) Q w.
Proof. destruct b; auto. Qed.
End WP.

(** One step of a computation of the primitives. *)
Ltac wp_step :=
  first
    [ apply wp_bind
    | apply wp_ret
    | apply wp_throw
    | apply wp_gets
    | apply wp_modify
    | apply wp_throw_if; intros ?
    | apply wp_if; intros ? ];
  cbv beta iota zeta.

End WP.
