(* ===== verification/Unicode.v ===== *)
(** Text encodings of the engine (src/src/runtime/String.cpp and String.h):
    the ASCII character classes, the UTF-8 decoder and encoder, UTF-16 surrogate
    handling, well-formedness and hexadecimal digits.  A buffer of code units is
    a [list Z]; a read outside the buffer is [None]. *)
From Stdlib Require Import ZArith Lia Bool.
From stdpp Require Import base numbers list option decidable.
From S2P Require Import Prelude.

(** * Character classes *)
Module CharClass.

Definition isupper (ch : Z) : bool := (65 <=? ch) && (ch <=? 90).
Definition islower (ch : Z) : bool := (97 <=? ch) && (ch <=? 122).
Definition tolower (c : Z) : Z := if isupper c then c - 65 + 97 else c.
Definition toupper (c : Z) : Z := if islower c then c - 97 + 65 else c.
Definition isspace (c : Z) : bool :=
  (c =? 32) || (c =? 9) || (c =? 10) || (c =? 13) || (c =? 12) || (c =? 11).
Definition isdigit (ch : Z) : bool := (48 <=? ch) && (ch <=? 57).

(** The [char] versions: the argument is first truncated to a signed 8-bit
    [char] and then widened to the [char32_t] parameter of the function above. *)
Definition char_to_char32 (ch : Z) : Z := u32 (i8 ch).
Definition isASCIIDigit (ch : Z) : bool := isdigit (char_to_char32 ch).
Definition isASCIILower (ch : Z) : bool := islower (char_to_char32 ch).
Definition isASCIIUpper (ch : Z) : bool := isupper (char_to_char32 ch).
Definition toASCIILower (ch : Z) : Z := i8 (tolower (char_to_char32 ch)).
Definition toASCIIUpper (ch : Z) : Z := i8 (toupper (char_to_char32 ch)).
(** [isalpha] of the C library, in the C locale. *)
Definition isASCIIAlpha (ch : Z) : bool :=
  let c := i8 ch in ((65 <=? c) && (c <=? 90)) || ((97 <=? c) && (c <=? 122)).
Definition isASCIIAlphanumeric (ch : Z) : bool := isASCIIAlpha ch || isASCIIDigit ch.
Definition isASCIIWhitespace (ch : Z) : bool :=
  let c := i8 ch in (c =? 32) || (c =? 10) || (c =? 9) || (c =? 13) || (c =? 12).

Fixpoint isAllASCII8 (buf : list Z) : bool :=
  match buf with
  | [] => true
  | b :: l => if negb (Z.land b 0x80 =? 0) then false else isAllASCII8 l
  end.
Fixpoint isAllASCII16 (buf : list Z) : bool :=
  match buf with [] => true | b :: l => if 128 <=? b then false else isAllASCII16 l end.
Fixpoint isAllLatin1 (buf : list Z) : bool :=
  match buf with [] => true | b :: l => if 256 <=? b then false else isAllLatin1 l end.
Fixpoint isAllASCIIAlphanumeric (buf : list Z) : bool :=
  match buf with
  | [] => true
  | ch :: l => if (128 <=? ch) || negb (isASCIIAlphanumeric (i8 ch)) then false
               else isAllASCIIAlphanumeric l
  end.

Definition parseDigit (c radix : Z) : Z :=
  let digit :=
    if (48 <=? c) && (c <=? 57) then c - 48
    else if (65 <=? c) && (c <=? 90) then c - 65 + 10
    else if (97 <=? c) && (c <=? 122) then c - 97 + 10
    else -1 in
  if radix <=? digit then -1 else digit.

Definition charToHexCode (dec : Z) (useCapitals : bool) : Z * Z :=
  let dig1 := Z.shiftr (Z.land dec 0xF0) 4 in
  let dig2 := Z.land dec 0x0F in
  let dig1 := if dig1 <=? 9 then u8 (dig1 + 48) else dig1 in
  let dig1 := if (10 <=? dig1) && (dig1 <=? 15)
              then u8 (dig1 + ((if useCapitals then 65 else 97) - 10)) else dig1 in
  let dig2 := if dig2 <=? 9 then u8 (dig2 + 48) else dig2 in
  let dig2 := if (10 <=? dig2) && (dig2 <=? 15)
              then u8 (dig2 + ((if useCapitals then 65 else 97) - 10)) else dig2 in
  (dig1, dig2).

End CharClass.

(** * UTF-16 *)
Module Utf16.

Definition U16_IS_LEAD (c : Z) : bool := Z.land c 0xfffffc00 =? 0xd800.
Definition U16_IS_TRAIL (c : Z) : bool := Z.land c 0xfffffc00 =? 0xdc00.
Definition U16_SURROGATE_OFFSET : Z := Z.shiftl 0xd800 10 + 0xdc00 - 0x10000.
Definition U16_GET_SUPPLEMENTARY (lead trail : Z) : Z :=
  u32 (Z.shiftl lead 10 + trail - U16_SURROGATE_OFFSET).

(** [String::bufferAccessData]: the width flag and the code units. *)
Record StringBufferAccessData := mkData {
  has8BitContent : bool;
  buffer : list Z
}.
Definition data_length (d : StringBufferAccessData) : nat := length (buffer d).
Definition charAt (d : StringBufferAccessData) (idx : nat) : option Z := buffer d !! idx.

(** Every unit fits the width the flag announces. *)
Definition data_ok (d : StringBufferAccessData) : Prop :=
  Forall (in_u (if has8BitContent d then 8 else 16)) (buffer d).

Definition utf32ToUtf16 (i : Z) : list Z :=
  if i <=? 0xffff then
    if (0xd800 <=? i) && (i <=? 0xdfff) then [0xFFFD] else [Z.land i 0xffff]
  else if i <=? 0x10ffff then
    let i := i - 0x10000 in
    [u16 (Z.lor 0xd800 (Z.shiftr i 10)); u16 (Z.lor 0xdc00 (Z.land i 0x3ff))]
  else [0xFFFD].

Definition utf16EncodeCodePoint (cp : Z) : Z * Z :=
  if cp <? 0xFFFF then (u16 cp, 0)
  else
    let d := u32 (cp - 65536) in
    (u16 (d / 1024 + 0xD800), u16 (d mod 1024 + 0xDC00)).

(** One step of the well-formedness scan: the new position and the verdict. *)
Definition isWellFormed (utf16 : list Z) (pos : nat) : option (nat * bool) :=
  c0 ← utf16 !! pos;
  if (0xd800 <=? c0) && (c0 <=? 0xdbff) then
    if decide (pos + 1 < length utf16)%nat then
      c1 ← utf16 !! (pos + 1)%nat;
      if (0xdc00 <=? c1) && (c1 <=? 0xdfff) then Some ((pos + 2)%nat, true)
      else Some ((pos + 1)%nat, false)
    else Some ((pos + 1)%nat, false)
  else if (0xdc00 <=? c0) && (c0 <=? 0xdfff) then Some ((pos + 1)%nat, false)
  else Some ((pos + 1)%nat, true).

Fixpoint String_isWellFormed_loop (fuel : nat) (utf16 : list Z) (pos : nat) : option bool :=
  if decide (pos < length utf16)%nat then
    match fuel with
    | O => None
    | S fuel =>
        '(pos', ok) ← isWellFormed utf16 pos;
        if negb (ok : bool) then Some false else String_isWellFormed_loop fuel utf16 pos'
    end
  else Some true.
Definition String_isWellFormed (d : StringBufferAccessData) : option bool :=
  if has8BitContent d then Some true
  else String_isWellFormed_loop (length (buffer d)) (buffer d) 0.

Fixpoint toWellFormed_loop (fuel : nat) (utf16 : list Z) (pos : nat) (result : list Z)
  : option (list Z) :=
  if decide (pos < length utf16)%nat then
    match fuel with
    | O => None
    | S fuel =>
        '(pos', ok) ← isWellFormed utf16 pos;
        if (ok : bool)
        then toWellFormed_loop fuel utf16 pos' (result ++ take (pos' - pos) (drop pos utf16))
        else toWellFormed_loop fuel utf16 pos' (result ++ [0xfffd])
    end
  else Some result.
Definition toWellFormed (d : StringBufferAccessData) : option StringBufferAccessData :=
  wf ← String_isWellFormed d;
  if (wf : bool) then Some d
  else mkData false <$> toWellFormed_loop (length (buffer d)) (buffer d) 0 [].

Record CodePointAtResult := mkCodePoint {
  codePoint : Z;
  codeUnitCount : Z;
  isUnpairedSurrogate : bool
}.
Definition codePointAt (d : StringBufferAccessData) (position : nat) : option CodePointAtResult :=
  first ← charAt d position;
  if negb (U16_IS_LEAD first) && negb (U16_IS_TRAIL first) then Some (mkCodePoint first 1 false)
  else if U16_IS_TRAIL first || (position + 1 =? data_length d)%nat then
    Some (mkCodePoint first 1 true)
  else
    second ← charAt d (position + 1);
    if negb (U16_IS_TRAIL second) then Some (mkCodePoint first 1 true)
    else Some (mkCodePoint (U16_GET_SUPPLEMENTARY first second) 2 false).

Definition advanceStringIndex (d : StringBufferAccessData) (index : Z) (unicode : bool) : option Z :=
  if negb unicode then Some (u64 (index + 1))
  else if Z.of_nat (data_length d) <=? index + 1 then Some (u64 (index + 1))
  else cp ← codePointAt d (Z.to_nat index); Some (u64 (index + codeUnitCount cp)).

End Utf16.

(** * UTF-8 *)
Module Utf8.
Import Utf16.

Definition offsetsFromUTF8 : list Z :=
  [0x00000000; 0x00003080; 0x000E2080; 0x03C82080; 0xFA082080; 0x82082080].

(** What [readUTF8Sequence] leaves behind: the returned character, and the
    values of its three reference parameters. *)
Record utf8_read := mkRead {
  ru_char : Z;
  ru_valid : bool;
  ru_charlen : nat;
  ru_sequence : nat
}.

(** The length selection of [readUTF8Sequence]: [Some None] is the invalid
    case, [None] a read past the buffer. *)
Definition sequenceLength (buf : list Z) (sequence : nat) (remainingLength : Z) : option (option nat) :=
  sch ← buf !! sequence;
  if Z.land sch 0x80 =? 0 then Some (Some 1%nat)
  else if remainingLength <? 2 then Some None
  else
    ch2 ← buf !! (sequence + 1)%nat;
    if (Z.land sch 0xE0 =? 0xC0) && (Z.land ch2 0xC0 =? 0x80) then Some (Some 2%nat)
    else if remainingLength <? 3 then Some None
    else
      ch3 ← buf !! (sequence + 2)%nat;
      if (Z.land sch 0xF0 =? 0xE0) && (Z.land ch2 0xC0 =? 0x80) && (Z.land ch3 0xC0 =? 0x80)
      then Some (Some 3%nat)
      else if remainingLength <? 4 then Some None
      else
        ch4 ← buf !! (sequence + 3)%nat;
        if (Z.land sch 0xF8 =? 0xF0) && (Z.land ch2 0xC0 =? 0x80)
           && (Z.land ch3 0xC0 =? 0x80) && (Z.land ch4 0xC0 =? 0x80)
        then Some (Some 4%nat)
        else Some None.

(** The fall-through [switch (length)]: the accumulated character and the
    advanced pointer. *)
Fixpoint accumulate (buf : list Z) (length : nat) (ch : Z) (sequence : nat) : option (Z * nat) :=
  match length with
  | O => Some (ch, sequence)
  | S O => b ← buf !! sequence; Some (u32 (ch + b), S sequence)
  | S length' =>
      b ← buf !! sequence;
      accumulate buf length' (u32 (Z.shiftl (u32 (ch + b)) 6)) (S sequence)
  end.

Definition readUTF8Sequence (buf : list Z) (sequence charlen : nat) (remainingLength : Z)
  : option utf8_read :=
  len ← sequenceLength buf sequence remainingLength;
  match len with
  | None => Some (mkRead (u32 (-1)) false charlen (S sequence))
  | Some length =>
      '(ch, sequence') ← accumulate buf length 0 sequence;
      off ← offsetsFromUTF8 !! (length - 1)%nat;
      Some (mkRead (u32 (ch - off)) true length sequence')
  end.

(** One iteration of the decoding loop: the new pointer, the new [charlen] and
    the units appended to [str]. *)
Definition utf8_step (buf : list Z) (source charlen : nat) : option (nat * nat * list Z) :=
  c ← buf !! source;
  if c <? 0x80 then Some (S source, charlen, [c])
  else
    r ← readUTF8Sequence buf source charlen (Z.of_nat (length buf - source));
    let ch := ru_char r in
    let charlen := ru_charlen r in
    let source := ru_sequence r in
    if negb (ru_valid r) then Some (source, charlen, [0xFFFD])
    else if ch <=? 0xffff then
      if Z.land ch 0xfffff800 =? 0xd800
      then Some ((source - (charlen - 1))%nat, charlen, [0xFFFD])
      else Some (source, charlen, [u16 ch])
    else if u32 (ch - 0x10000) <=? 0xfffff then
      Some (source, charlen,
            [u16 (Z.shiftr ch 10 + 0xd7c0); u16 (Z.lor (Z.land ch 0x3ff) 0xdc00)])
    else Some ((source - (charlen - 1))%nat, charlen, [0xFFFD]).

Fixpoint utf8_loop (fuel : nat) (buf : list Z) (source charlen : nat) (str : list Z)
  : option (list Z) :=
  if decide (source < length buf)%nat then
    match fuel with
    | O => None
    | S fuel =>
        '(source', charlen', out) ← utf8_step buf source charlen;
        utf8_loop fuel buf source' charlen' (str ++ out)
    end
  else Some str.

(** The [charlen] local is uninitialised; it is only read after a valid
    sequence has set it, so any initial value gives the same run. *)
Definition utf8StringToUTF16StringNonGC (buf : list Z) : option (list Z) :=
  utf8_loop (length buf) buf 0 0 [].

(** The bytes [utf32ToUtf8] stores before the terminating NUL; the returned
    size is their number. *)
Definition utf32ToUtf8 (uc : Z) : list Z :=
  let enc3 uc := [u8 (0xe0 + uc / 2 ^ 12); u8 (0x80 + (uc / 2 ^ 6) mod 2 ^ 6); u8 (0x80 + uc mod 2 ^ 6)] in
  if uc <=? 0x7f then [u8 uc]
  else if uc <=? 0x7ff then [u8 (0xc0 + uc / 2 ^ 6); u8 (0x80 + uc mod 2 ^ 6)]
  else if uc <=? 0xffff then enc3 uc
  else if uc <=? 0x1fffff then
    [u8 (0xf0 + uc / 2 ^ 18); u8 (0x80 + (uc / 2 ^ 12) mod 2 ^ 12);
     u8 (0x80 + (uc / 2 ^ 6) mod 2 ^ 6); u8 (0x80 + uc mod 2 ^ 6)]
  else if uc <=? 0x3ffffff then
    [u8 (0xf8 + uc / 2 ^ 24); u8 (0x80 + (uc / 2 ^ 18) mod 2 ^ 18); u8 (0x80 + (uc / 2 ^ 12) mod 2 ^ 12);
     u8 (0x80 + (uc / 2 ^ 6) mod 2 ^ 6); u8 (0x80 + uc mod 2 ^ 6)]
  else if uc <=? 0x7fffffff then
    [u8 (0xfc + uc / 2 ^ 30); u8 (0x80 + (uc / 2 ^ 24) mod 2 ^ 24); u8 (0x80 + (uc / 2 ^ 18) mod 2 ^ 18);
     u8 (0x80 + (uc / 2 ^ 12) mod 2 ^ 12); u8 (0x80 + (uc / 2 ^ 6) mod 2 ^ 6); u8 (0x80 + uc mod 2 ^ 6)]
  else enc3 0xFFFD.

(** The body of the [toUTF8String] loop at index [i]: the last unit consumed
    and the bytes appended. *)
Definition toUTF8_step (d : StringBufferAccessData) (replaceInvalidUtf8 : bool) (i : nat)
  : option (nat * list Z) :=
  ch ← charAt d i;
  if ch <? 0x80 then Some (i, [ch])
  else if U16_IS_LEAD ch then
    if (i + 1 =? data_length d)%nat then
      Some (i, utf32ToUtf8 (if replaceInvalidUtf8 then 0xFFFD else ch))
    else
      c2 ← charAt d (i + 1);
      if U16_IS_TRAIL c2 then Some (S i, utf32ToUtf8 (U16_GET_SUPPLEMENTARY ch c2))
      else Some (i, utf32ToUtf8 (if replaceInvalidUtf8 then 0xFFFD else ch))
  else Some (i, utf32ToUtf8 (if replaceInvalidUtf8 && U16_IS_TRAIL ch then 0xFFFD else ch)).

Fixpoint toUTF8_loop (fuel : nat) (d : StringBufferAccessData) (replaceInvalidUtf8 : bool)
    (i : nat) (ret : list Z) : option (list Z) :=
  if decide (i < data_length d)%nat then
    match fuel with
    | O => None
    | S fuel =>
        '(i', bytes) ← toUTF8_step d replaceInvalidUtf8 i;
        toUTF8_loop fuel d replaceInvalidUtf8 (S i') (ret ++ bytes)
    end
  else Some ret.
Definition toUTF8String (d : StringBufferAccessData) (replaceInvalidUtf8 : bool) : option (list Z) :=
  toUTF8_loop (data_length d) d replaceInvalidUtf8 0 [].

(** [Latin1String::toUTF8StringData]. *)
Fixpoint Latin1_toUTF8StringData (s : list Z) : list Z :=
  match s with
  | [] => []
  | ch :: s => (if ch <? 0x80 then [ch] else utf32ToUtf8 ch) ++ Latin1_toUTF8StringData s
  end.

Example utf8_kana : utf8StringToUTF16StringNonGC [0x41; 0xE3; 0x81; 0x82; 0xF0; 0x9F; 0x98; 0x80; 0xC2]
  = Some [0x41; 0x3042; 0xD83D; 0xDE00; 0xFFFD].
Proof. vm_compute. reflexivity. Qed.
Example utf8_kana_back : toUTF8String (mkData false [0x41; 0x3042; 0xD83D; 0xDE00; 0xDE00]) true
  = Some [0x41; 0xE3; 0x81; 0x82; 0xF0; 0x9F; 0x98; 0x80; 0xEF; 0xBF; 0xBD].
Proof. vm_compute. reflexivity. Qed.
Example utf8_tag : utf8StringToUTF16StringNonGC (utf32ToUtf8 0x40000) = Some [0xFFFD; 0; 0xFFFD].
Proof. vm_compute. reflexivity. Qed.

End Utf8.

(** * Reference semantics and lemmas *)
Module Utf16Facts.
Import Utf16.

Definition is_lead (c : Z) : bool := (0xd800 <=? c) && (c <=? 0xdbff).
Definition is_trail (c : Z) : bool := (0xdc00 <=? c) && (c <=? 0xdfff).

(** A sequence of 16-bit units cut into its maximal pieces: surrogate pairs and
    single units.  Every traversal of the file follows this decomposition. *)
Inductive piece := Single (c : Z) | Pair (c0 c1 : Z).
Fixpoint pieces (s : list Z) : list piece :=
  match s with
  | [] => []
  | c0 :: s1 =>
      match s1 with
      | c1 :: s2 => if is_lead c0 && is_trail c1 then Pair c0 c1 :: pieces s2
                    else Single c0 :: pieces s1
      | [] => [Single c0]
      end
  end.
Definition piece_units (p : piece) : list Z :=
  match p with Single c => [c] | Pair c0 c1 => [c0; c1] end.
Definition piece_ok (p : piece) : bool :=
  match p with Single c => negb (is_lead c) && negb (is_trail c) | Pair _ _ => true end.
Definition piece_wf (p : piece) : list Z :=
  if piece_ok p then piece_units p else [0xFFFD].

(** Well-formed UTF-16: no unpaired surrogate. *)
Definition wf16 (s : list Z) : bool := forallb piece_ok (pieces s).

Lemma pieces_ind (P : list Z -> Prop) :
  P [] ->
  (forall c0 c1 s, is_lead c0 = true -> is_trail c1 = true -> P s -> P (c0 :: c1 :: s)) ->
  (forall c0 s, (forall c1 s', s = c1 :: s' -> is_lead c0 && is_trail c1 = false) -> P s -> P (c0 :: s)) ->
  forall s, P s.
Proof.
  intros Hnil Hpair Hone s. remember (length s) as n eqn:E. revert s E.
  induction n as [n IH] using lt_wf_ind. intros [|c0 [|c1 s]] E; [assumption| |].
  - apply Hone; [discriminate|assumption].
  - destruct (is_lead c0 && is_trail c1) eqn:Ep.
    + apply andb_prop in Ep as [??]. apply Hpair; [assumption..|].
      apply (IH (length s)); simpl in *; lia.
    + apply Hone; [intros ?? [= <- <-]; assumption|].
      apply (IH (length (c1 :: s))); simpl in *; lia.
Qed.

Lemma pieces_pair c0 c1 s :
  is_lead c0 = true -> is_trail c1 = true -> pieces (c0 :: c1 :: s) = Pair c0 c1 :: pieces s.
Proof. intros E1 E2. simpl. now rewrite E1, E2. Qed.

Lemma pieces_single c0 s :
  (forall c1 s', s = c1 :: s' -> is_lead c0 && is_trail c1 = false) ->
  pieces (c0 :: s) = Single c0 :: pieces s.
Proof. intros H. destruct s as [|c1 s']; [reflexivity|]. simpl. now rewrite (H c1 s' eq_refl). Qed.

Lemma pieces_units s : concat (map piece_units (pieces s)) = s.
Proof.
  induction s as [|c0 c1 s E1 E2 IH|c0 s H IH] using pieces_ind; [reflexivity| |].
  - rewrite pieces_pair by assumption. simpl. now rewrite IH.
  - rewrite pieces_single by assumption. simpl. now rewrite IH.
Qed.

Lemma lead_trail_excl c : is_lead c = true -> is_trail c = false.
Proof. unfold is_lead, is_trail. intros. Zbool. apply andb_false_intro1. lia. Qed.

(** The macro tests agree with the ranges on 16-bit (in fact 32-bit) units. *)
Lemma U16_IS_LEAD_spec c : in_u 32 c -> U16_IS_LEAD c = is_lead c.
Proof.
  intros H. unfold U16_IS_LEAD, is_lead.
  rewrite (land_high_mask 32 10) by (try assumption; lia). unfold in_u in H.
  pose proof (Z.div_mod c 1024). pose proof (Z.mod_pos_bound c 1024).
  change (2 ^ 10) with 1024. apply eq_true_iff_eq.
  rewrite andb_true_iff, Z.eqb_eq, !Z.leb_le. lia.
Qed.

Lemma U16_IS_TRAIL_spec c : in_u 32 c -> U16_IS_TRAIL c = is_trail c.
Proof.
  intros H. unfold U16_IS_TRAIL, is_trail.
  rewrite (land_high_mask 32 10) by (try assumption; lia). unfold in_u in H.
  pose proof (Z.div_mod c 1024). pose proof (Z.mod_pos_bound c 1024).
  change (2 ^ 10) with 1024. apply eq_true_iff_eq.
  rewrite andb_true_iff, Z.eqb_eq, !Z.leb_le. lia.
Qed.

(** The position-based scan sees exactly the next piece. *)
Lemma isWellFormed_pair s pos c0 c1 r :
  drop pos s = c0 :: c1 :: r -> is_lead c0 = true -> is_trail c1 = true ->
  isWellFormed s pos = Some ((pos + 2)%nat, true).
Proof.
  intros Hd E1 E2. unfold isWellFormed.
  assert (s !! pos = Some c0) as ->
    by (rewrite <- (Nat.add_0_r pos), <- lookup_drop, Hd; reflexivity).
  assert (s !! (pos + 1)%nat = Some c1) as Hc1
    by (rewrite <- lookup_drop, Hd; reflexivity).
  simpl. unfold is_lead, is_trail in *. rewrite E1, Hc1.
  rewrite decide_True by (apply lookup_lt_Some in Hc1; lia). simpl. now rewrite E2.
Qed.

Lemma isWellFormed_single s pos c0 r :
  drop pos s = c0 :: r ->
  (forall c1 s', r = c1 :: s' -> is_lead c0 && is_trail c1 = false) ->
  isWellFormed s pos = Some ((pos + 1)%nat, piece_ok (Single c0)).
Proof.
  intros Hd H. unfold isWellFormed.
  assert (s !! pos = Some c0) as Hc0
    by (rewrite <- (Nat.add_0_r pos), <- lookup_drop, Hd; reflexivity).
  rewrite Hc0. simpl. fold (is_lead c0) (is_trail c0).
  destruct (is_lead c0) eqn:E0; simpl.
  - destruct r as [|c1 r].
    + assert (length s <= pos + 1)%nat.
      { apply (f_equal length) in Hd. rewrite length_drop in Hd. simpl in Hd. lia. }
      rewrite decide_False by lia. reflexivity.
    + assert (s !! (pos + 1)%nat = Some c1) as Hc1
        by (rewrite <- lookup_drop, Hd; reflexivity).
      rewrite decide_True by (apply lookup_lt_Some in Hc1; lia). rewrite Hc1. simpl.
      specialize (H c1 r eq_refl). simpl in H. unfold is_trail in H. now rewrite H.
  - now destruct (is_trail c0).
Qed.

Lemma drop_lt {A} (s : list A) pos x r : drop pos s = x :: r -> (pos < length s)%nat.
Proof.
  intros H. apply (f_equal length) in H. rewrite length_drop in H. simpl in H. lia.
Qed.
Lemma drop_nil_ge {A} (s : list A) pos : drop pos s = [] -> ~ (pos < length s)%nat.
Proof. intros H. apply (f_equal length) in H. rewrite length_drop in H. simpl in H. lia. Qed.
Lemma drop_advance {A} (s : list A) pos k l r :
  drop pos s = l ++ r -> length l = k -> drop (pos + k) s = r.
Proof. intros H <-. rewrite <- drop_drop, H. apply drop_app_length. Qed.

Lemma String_isWellFormed_loop_spec s fuel pos r :
  drop pos s = r -> (length r <= fuel)%nat ->
  String_isWellFormed_loop fuel s pos = Some (wf16 r).
Proof.
  revert fuel pos. induction r as [|c0 c1 r E1 E2 IH|c0 r H IH] using pieces_ind; intros fuel pos Hd Hf.
  - apply drop_nil_ge in Hd. destruct fuel; simpl; rewrite decide_False by lia; reflexivity.
  - destruct fuel as [|fuel]; simpl in Hf; [lia|]. simpl.
    rewrite decide_True by (eapply drop_lt; eassumption).
    rewrite (isWellFormed_pair s pos c0 c1 r) by assumption. simpl.
    rewrite IH; [|apply (drop_advance s pos 2 [c0; c1] r Hd eq_refl)|lia].
    unfold wf16. now rewrite pieces_pair.
  - destruct fuel as [|fuel]; simpl in Hf; [lia|]. cbn [String_isWellFormed_loop].
    rewrite decide_True by (eapply drop_lt; eassumption).
    rewrite (isWellFormed_single s pos c0 r) by assumption. cbn [mbind option_bind].
    unfold wf16. rewrite pieces_single by assumption. cbn [forallb].
    destruct (piece_ok (Single c0)); cbn [negb andb]; [|reflexivity].
    apply IH; [apply (drop_advance s pos 1 [c0] r Hd eq_refl)|lia].
Qed.

Lemma toWellFormed_loop_spec s fuel pos r acc :
  drop pos s = r -> (length r <= fuel)%nat ->
  toWellFormed_loop fuel s pos acc = Some (acc ++ concat (map piece_wf (pieces r))).
Proof.
  revert fuel pos acc.
  induction r as [|c0 c1 r E1 E2 IH|c0 r H IH] using pieces_ind; intros fuel pos acc Hd Hf.
  - apply drop_nil_ge in Hd. destruct fuel; simpl; rewrite decide_False, app_nil_r by lia; reflexivity.
  - destruct fuel as [|fuel]; simpl in Hf; [lia|]. cbn [toWellFormed_loop].
    rewrite decide_True by (eapply drop_lt; eassumption).
    rewrite (isWellFormed_pair s pos c0 c1 r) by assumption. cbn [mbind option_bind].
    rewrite IH; [|apply (drop_advance s pos 2 [c0; c1] r Hd eq_refl)|lia].
    replace (pos + 2 - pos)%nat with 2%nat by lia.
    rewrite Hd, pieces_pair by assumption. simpl. now rewrite <- app_assoc.
  - destruct fuel as [|fuel]; simpl in Hf; [lia|]. cbn [toWellFormed_loop].
    rewrite decide_True by (eapply drop_lt; eassumption).
    rewrite (isWellFormed_single s pos c0 r) by assumption. cbn [mbind option_bind].
    rewrite pieces_single by assumption. cbn [map concat]. unfold piece_wf at 1.
    replace (pos + 1 - pos)%nat with 1%nat by lia. rewrite Hd.
    destruct (piece_ok (Single c0));
      rewrite (IH fuel (pos + 1)%nat); rewrite ?(drop_advance s pos 1 [c0] r Hd eq_refl); try lia; try reflexivity;
      cbn [take piece_units]; now rewrite <- app_assoc.
Qed.

End Utf16Facts.

Module Utf8Facts.
Import Utf16 Utf16Facts Utf8.

(** A piece that may appear in well-formed UTF-16. *)
Definition good_piece (p : piece) : Prop :=
  match p with
  | Single c => in_u 16 c /\ is_lead c = false /\ is_trail c = false
  | Pair c0 c1 => is_lead c0 = true /\ is_trail c1 = true
  end.
(** Unpaired surrogates replaced by U+FFFD. *)
Definition normal (p : piece) : piece := if piece_ok p then p else Single 0xFFFD.
(** The code point a piece denotes, and the surrogate arithmetic undone. *)
Definition piece_cp (p : piece) : Z :=
  match p with Single c => c | Pair c0 c1 => U16_GET_SUPPLEMENTARY c0 c1 end.

Lemma pieces_concat ps :
  Forall good_piece ps -> pieces (concat (map piece_units ps)) = ps.
Proof.
  induction 1 as [|[c|c0 c1] ps Hp _ IH]; [reflexivity| |]; simpl map; cbn [concat piece_units app].
  - destruct Hp as (_ & H1 & _). rewrite pieces_single; [now rewrite IH|].
    intros. now rewrite H1.
  - destruct Hp as [H0 H1]. rewrite pieces_pair by assumption. now rewrite IH.
Qed.

Lemma wf16_concat ps : Forall good_piece ps -> wf16 (concat (map piece_units ps)) = true.
Proof.
  intros H. unfold wf16. rewrite pieces_concat by assumption. apply forallb_forall.
  intros p Hp. rewrite Forall_forall in H. specialize (H p Hp).
  destruct p; simpl; [|reflexivity]. destruct H as (_ & -> & ->). reflexivity.
Qed.

Lemma normal_good s :
  Forall (in_u 16) s -> Forall good_piece (map normal (pieces s)).
Proof.
  induction s as [|c0 c1 s E1 E2 IH|c0 s H IH] using pieces_ind; intros Hs; [constructor| |].
  - rewrite pieces_pair by assumption. inversion_clear Hs as [|?? _ Hs']. inversion_clear Hs' as [|?? _ Hs''].
    constructor; [|now apply IH]. simpl. auto.
  - rewrite pieces_single by assumption. inversion_clear Hs as [|?? Hc Hs'].
    constructor; [|now apply IH]. unfold normal. simpl.
    destruct (is_lead c0) eqn:E1, (is_trail c0) eqn:E2; simpl; split_and!; first [assumption | reflexivity | unfold in_u; lia].
Qed.

Lemma normal_wf s : wf16 s = true -> map normal (pieces s) = pieces s.
Proof.
  unfold wf16. induction (pieces s) as [|p ps IH]; intros H; [reflexivity|].
  cbn [forallb map] in *. apply andb_prop in H as [H1 H2]. rewrite IH by assumption.
  unfold normal. now rewrite H1.
Qed.

Lemma piece_wf_normal ps : map piece_wf ps = map piece_units (map normal ps).
Proof. rewrite map_map. apply map_ext. intros p. unfold piece_wf, normal. now destruct (piece_ok p). Qed.

(** Supplementary code points and surrogate pairs are inverse. *)
Lemma supplementary_range c0 c1 :
  is_lead c0 = true -> is_trail c1 = true ->
  U16_GET_SUPPLEMENTARY c0 c1 = 0x10000 + (c0 - 0xd800) * 0x400 + (c1 - 0xdc00)
  /\ 0x10000 <= U16_GET_SUPPLEMENTARY c0 c1 <= 0x10ffff.
Proof.
  unfold is_lead, is_trail. intros. Zbool.
  unfold U16_GET_SUPPLEMENTARY, U16_SURROGATE_OFFSET, wrapu.
  rewrite !Z.shiftl_mul_pow2 by lia. rewrite Z.mod_small by lia. lia.
Qed.

Lemma utf32ToUtf16_pair cp :
  0x10000 <= cp <= 0x10ffff ->
  utf32ToUtf16 cp = [0xd800 + (cp - 0x10000) / 1024; 0xdc00 + (cp - 0x10000) mod 1024].
Proof.
  intros H. unfold utf32ToUtf16.
  destruct (cp <=? 0xffff) eqn:E; Zbool; [lia|]. clear E.
  destruct (cp <=? 0x10ffff) eqn:E; Zbool; [|lia]. clear E.
  rewrite (land_low_mask 10), Z.shiftr_div_pow2 by lia.
  change (2 ^ 10) with 1024.
  assert (0 <= (cp - 65536) / 1024 < 1024).
  { split; [apply Z.div_pos; lia|apply Z.div_lt_upper_bound; lia]. }
  pose proof (Z.mod_pos_bound (cp - 65536) 1024).
  rewrite !(lor_disjoint 10) by (try reflexivity; lia).
  now rewrite !wrapu_id by (unfold in_u; lia).
Qed.

Lemma utf32ToUtf16_piece p : good_piece p -> utf32ToUtf16 (piece_cp p) = piece_units p.
Proof.
  destruct p as [c|c0 c1]; simpl.
  - intros (Hc & H1 & H2). unfold utf32ToUtf16, is_lead, is_trail, in_u in *.
    destruct (c <=? 0xffff) eqn:E; Zbool; [|lia].
    destruct ((0xd800 <=? c) && (c <=? 0xdfff)) eqn:E2.
    + Zbool. destruct (c <=? 0xdbff) eqn:E3; Zbool.
      * replace (0xd800 <=? c) with true in H1 by (symmetry; apply Z.leb_le; lia). discriminate.
      * replace (0xdc00 <=? c) with true in H2 by (symmetry; apply Z.leb_le; lia).
        replace (c <=? 0xdfff) with true in H2 by (symmetry; apply Z.leb_le; lia). discriminate.
    + rewrite (land_low_mask 16), Z.mod_small by lia. reflexivity.
  - intros [H1 H2]. destruct (supplementary_range c0 c1 H1 H2) as [E R].
    rewrite utf32ToUtf16_pair by assumption. rewrite E.
    unfold is_lead, is_trail in *. Zbool.
    replace (0x10000 + (c0 - 0xd800) * 0x400 + (c1 - 0xdc00) - 0x10000)
      with ((c1 - 0xdc00) + (c0 - 0xd800) * 1024) by lia.
    rewrite Z.div_add, Z.mod_add, Z.div_small, Z.mod_small by lia.
    repeat f_equal; lia.
Qed.

(** ** The encoder against RFC 3629 *)

Definition utf8_ref (cp : Z) : list Z :=
  if cp <=? 0x7f then [cp]
  else if cp <=? 0x7ff then [0xc0 + cp / 64; 0x80 + cp mod 64]
  else if cp <=? 0xffff then [0xe0 + cp / 4096; 0x80 + (cp / 64) mod 64; 0x80 + cp mod 64]
  else [0xf0 + cp / 262144; 0x80 + (cp / 4096) mod 64; 0x80 + (cp / 64) mod 64; 0x80 + cp mod 64].

(** The range on which the second byte of the four-byte form is right. *)
Definition plane_ok (cp : Z) : bool := (cp <? 0x40000) || (0x100000 <=? cp).

Lemma u8_id x : 0 <= x < 256 -> u8 x = x.
Proof. intros. apply wrapu_id. unfold in_u. lia. Qed.

(** The second byte of the four-byte form. *)
Lemma second_byte_iff cp :
  0x10000 <= cp <= 0x10ffff ->
  u8 (0x80 + (cp / 4096) mod 4096) = 0x80 + (cp / 4096) mod 64 <-> plane_ok cp = true.
Proof.
  intros H. set (q := cp / 4096).
  assert (16 <= q < 272 /\ 4096 * q <= cp < 4096 * q + 4096) as [Hq Hc].
  { subst q. div_bounds. lia. }
  rewrite (Z.mod_small q 4096) by lia.
  assert (plane_ok cp = (q <? 64) || (256 <=? q)) as ->.
  { unfold plane_ok. apply eq_true_iff_eq.
    rewrite !orb_true_iff, !Z.ltb_lt, !Z.leb_le. lia. }
  assert (range_forallb (fun q => Bool.eqb (u8 (0x80 + q) =? 0x80 + q mod 64) ((q <? 64) || (256 <=? q)))
            16 256 = true) as R by (vm_compute; reflexivity).
  pose proof (range_forallb_spec _ _ _ R q ltac:(simpl; lia)) as E.
  apply eqb_prop in E. rewrite <- E, Z.eqb_eq. reflexivity.
Qed.

Lemma utf32ToUtf8_ref_iff cp :
  0 <= cp <= 0x10ffff -> utf32ToUtf8 cp = utf8_ref cp <-> plane_ok cp = true.
Proof.
  intros H. unfold utf32ToUtf8, utf8_ref.
  change (2 ^ 6) with 64. change (2 ^ 12) with 4096. change (2 ^ 18) with 262144.
  destruct (cp <=? 0x7f) eqn:E1; Zbool; [|destruct (cp <=? 0x7ff) eqn:E2; Zbool;
    [|destruct (cp <=? 0xffff) eqn:E3; Zbool; [|destruct (cp <=? 0x1fffff) eqn:E4; Zbool; [|lia]]]].
  1-3: assert (plane_ok cp = true) as -> by (unfold plane_ok; apply orb_true_intro; left; apply Z.ltb_lt; lia).
  1-3: split; [reflexivity|intros _]; div_bounds; rewrite !u8_id by lia; reflexivity.
  rewrite <- second_byte_iff by lia. clear E1 E2 E3 E4.
  assert (u8 (0xf0 + cp / 262144) = 0xf0 + cp / 262144) as -> by (apply u8_id; div_bounds; lia).
  rewrite (u8_id (128 + (cp / 64) mod 64)) by (div_bounds; lia).
  rewrite (u8_id (128 + cp mod 64)) by (div_bounds; lia).
  split; [intros [= E]; exact E|intros ->; reflexivity].
Qed.

(** ** The decoder on arbitrary bytes *)

Definition byte_is_cont (b : Z) : bool := Z.land b 0xC0 =? 0x80.

Lemma accumulate_spec buf n ch pos bs r :
  drop pos buf = bs ++ r -> length bs = n -> (0 < n)%nat ->
  accumulate buf n ch pos =
    Some (match bs with
          | [] => ch
          | b :: bs => fold_left (fun ch b => u32 (u32 (Z.shiftl ch 6) + b)) bs (u32 (ch + b))
          end, (pos + n)%nat).
Proof.
  revert ch pos bs. induction n as [|n IH]; intros ch pos bs Hd Hn H0; [lia|].
  destruct bs as [|b bs]; [simpl in Hn; lia|]. injection Hn as Hn.
  assert (buf !! pos = Some b) as Hb by (rewrite <- (Nat.add_0_r pos), <- lookup_drop, Hd; reflexivity).
  simpl. destruct n as [|n].
  - rewrite Hb. simpl. destruct bs; [|discriminate]. simpl. do 2 f_equal. lia.
  - rewrite Hb. cbn [mbind option_bind]. rewrite (IH _ (S pos) bs); [|
      replace (S pos) with (pos + 1)%nat by lia; exact (drop_advance buf pos 1 [b] (bs ++ r) Hd eq_refl)
      |assumption|lia].
    destruct bs as [|b' bs]; [discriminate|]. simpl. do 2 f_equal. lia.
Qed.

(** A sequence is accepted with a length the buffer has, or rejected. *)
Lemma sequenceLength_bound buf pos :
  (pos < length buf)%nat ->
  exists l, sequenceLength buf pos (Z.of_nat (length buf - pos)) = Some l /\
    match l with Some n => (1 <= n <= 4)%nat /\ (pos + n <= length buf)%nat | None => True end.
Proof.
  intros H. unfold sequenceLength.
  destruct (lookup_lt_is_Some_2 buf pos H) as [b1 ->]. cbn [mbind option_bind].
  repeat match goal with
  | |- exists l, Some ?x = Some l /\ _ => exists x; split; [reflexivity|]; auto; try lia
  | |- context [if ?b then _ else _] => let E := fresh "E" in destruct b eqn:E; Zbool
  | |- context [buf !! ?p] =>
      let b := fresh "b" in destruct (lookup_lt_is_Some_2 buf p ltac:(lia)) as [b ->]; cbn [mbind option_bind]
  end.
Qed.

Lemma u32_id x : 0 <= x < 2 ^ 32 -> u32 x = x.
Proof. intros. now apply wrapu_id. Qed.

Lemma utf8_step_total buf pos charlen :
  (pos < length buf)%nat ->
  exists pos' charlen' out, utf8_step buf pos charlen = Some (pos', charlen', out)
    /\ (pos < pos' <= length buf)%nat.
Proof.
  intros H. unfold utf8_step.
  destruct (lookup_lt_is_Some_2 buf pos H) as [c Hc]. rewrite Hc. cbn [mbind option_bind].
  destruct (c <? 0x80); [eauto with lia|].
  unfold readUTF8Sequence.
  destruct (sequenceLength_bound buf pos H) as (l & -> & Hl). cbn [mbind option_bind].
  destruct l as [n|]; simpl; [|eauto with lia].
  destruct Hl as [Hn Hp].
  rewrite (accumulate_spec buf n 0 pos (take n (drop pos buf)) (drop n (drop pos buf)))
    by (rewrite ?take_drop, ?length_take, ?length_drop; (reflexivity || lia)).
  cbn [mbind option_bind].
  assert (is_Some (offsetsFromUTF8 !! (n - 1)%nat)) as [off ->]
    by (apply lookup_lt_is_Some_2; simpl; lia).
  simpl. repeat Zcase; do 3 eexists; (split; [reflexivity|lia]).
Qed.

(** What an iteration appends is a piece of well-formed UTF-16. *)
Lemma utf8_step_good buf pos charlen pos' charlen' out :
  Forall (in_u 8) buf ->
  utf8_step buf pos charlen = Some (pos', charlen', out) ->
  exists p, good_piece p /\ out = piece_units p.
Proof.
  intros Hbuf. unfold utf8_step.
  destruct (buf !! pos) as [c|] eqn:Hc; [|discriminate]. cbn [mbind option_bind].
  assert (good_piece (Single 0xFFFD)) as Hrep by (simpl; split_and!; first [reflexivity|unfold in_u; lia]).
  destruct (c <? 0x80) eqn:E0; Zbool.
  { intros [= <- <- <-]. exists (Single c). split; [|reflexivity].
    apply (Forall_lookup_1 _ _ _ _ Hbuf) in Hc. unfold in_u in Hc. simpl. unfold is_lead, is_trail, in_u.
    split_and!; [lia..| |]; apply andb_false_intro1; apply Z.leb_gt; lia. }
  destruct (readUTF8Sequence _ _ _ _) as [r|] eqn:Hr; [|discriminate]. cbn [mbind option_bind].
  destruct (negb (ru_valid r)); [intros [= <- <- <-]; now exists (Single 0xFFFD)|].
  assert (in_u 32 (ru_char r)) as Hch.
  { unfold readUTF8Sequence in Hr. destruct (sequenceLength _ _ _) as [[l|]|]; [| |discriminate]; cbn [mbind option_bind] in Hr.
    - destruct (accumulate _ _ _ _) as [[ch s]|]; [|discriminate]. cbn [mbind option_bind] in Hr.
      destruct (offsetsFromUTF8 !! _) as [off|]; [|discriminate]. injection Hr as <-. simpl.
      apply wrapu_range. lia.
    - injection Hr as <-. simpl. apply wrapu_range. lia. }
  set (ch := ru_char r) in *.
  destruct (ch <=? 0xffff) eqn:E1; Zbool.
  - destruct (Z.land ch 0xfffff800 =? 0xd800) eqn:E2; intros [= <- <- <-];
      [now exists (Single 0xFFFD)|].
    exists (Single ch). unfold in_u in Hch. rewrite wrapu_id by (unfold in_u; lia). split; [|reflexivity].
    rewrite (land_high_mask 32 11) in E2 by (try assumption; lia). Zbool.
    pose proof (Z.div_mod ch (2 ^ 11)). pose proof (Z.mod_pos_bound ch (2 ^ 11)).
    simpl. unfold is_lead, is_trail, in_u. split_and!; [lia..| |]; apply andb_false_iff;
      rewrite !Z.leb_gt; lia.
  - destruct (u32 (ch - 0x10000) <=? 0xfffff) eqn:E2; intros [= <- <- <-]; [|now exists (Single 0xFFFD)].
    unfold in_u in Hch. Zbool. rewrite u32_id in E2 by lia.
    rewrite Z.shiftr_div_pow2 by lia. rewrite (land_low_mask 10) by lia.
    change (2 ^ 10) with 1024. pose proof (Z.mod_pos_bound ch 1024).
    rewrite Z.lor_comm, (lor_disjoint 10) by (try reflexivity; lia).
    assert (64 <= ch / 1024 < 1088) by (split; [apply Z.div_le_lower_bound|apply Z.div_lt_upper_bound]; lia).
    rewrite !wrapu_id by (unfold in_u; lia).
    eexists (Pair _ _). split; [|reflexivity]. simpl. unfold is_lead, is_trail.
    rewrite !andb_true_iff, !Z.leb_le. lia.
Qed.

Lemma utf8_loop_good buf fuel pos charlen ps :
  Forall (in_u 8) buf -> (length buf - pos <= fuel)%nat -> Forall good_piece ps ->
  exists ps', utf8_loop fuel buf pos charlen (concat (map piece_units ps))
                = Some (concat (map piece_units ps')) /\ Forall good_piece ps'.
Proof.
  intros Hbuf. revert pos charlen ps. induction fuel as [|fuel IH]; intros pos charlen ps Hf Hps; simpl.
  - rewrite decide_False by lia. eauto.
  - destruct (decide (pos < length buf)%nat) as [Hlt|]; [|eauto].
    destruct (utf8_step_total buf pos charlen Hlt) as (pos' & charlen' & out & E & Hp).
    rewrite E. cbn [mbind option_bind].
    destruct (utf8_step_good _ _ _ _ _ _ Hbuf E) as (p & Hgood & ->).
    destruct (IH pos' charlen' (ps ++ [p])) as (ps' & E' & Hps').
    + lia.
    + apply Forall_app. split; [assumption|]. now constructor.
    + exists ps'. split; [|assumption]. rewrite <- E'. f_equal.
      rewrite map_app, concat_app. simpl. now rewrite app_nil_r.
Qed.

(** ** Decoding what the reference encoder writes *)

Lemma cont_mask x : 0 <= x < 64 -> (Z.land (0x80 + x) 0xC0 =? 0x80) = true.
Proof. intros H. apply (range_forallb_spec (fun x => Z.land (0x80 + x) 0xC0 =? 0x80) 64 0); [reflexivity|simpl; lia]. Qed.

Lemma lead2_mask x :
  0 <= x < 32 -> (Z.land (0xc0 + x) 0x80 =? 0) = false /\ (Z.land (0xc0 + x) 0xE0 =? 0xC0) = true.
Proof.
  intros H.
  pose proof (range_forallb_spec (fun x => negb (Z.land (0xc0 + x) 0x80 =? 0) && (Z.land (0xc0 + x) 0xE0 =? 0xC0)) 32 0
    eq_refl x ltac:(simpl; lia)) as E.
  simpl in E. apply andb_prop in E as [E1 E2]. now apply negb_true_iff in E1.
Qed.

Lemma lead3_mask x :
  0 <= x < 16 -> (Z.land (0xe0 + x) 0x80 =? 0) = false /\ (Z.land (0xe0 + x) 0xE0 =? 0xC0) = false
  /\ (Z.land (0xe0 + x) 0xF0 =? 0xE0) = true.
Proof.
  intros H.
  pose proof (range_forallb_spec (fun x => negb (Z.land (0xe0 + x) 0x80 =? 0) && negb (Z.land (0xe0 + x) 0xE0 =? 0xC0)
     && (Z.land (0xe0 + x) 0xF0 =? 0xE0)) 16 0 eq_refl x ltac:(simpl; lia)) as E.
  simpl in E. rewrite !andb_true_iff, !negb_true_iff in E. tauto.
Qed.

Lemma lead4_mask x :
  0 <= x < 8 -> (Z.land (0xf0 + x) 0x80 =? 0) = false /\ (Z.land (0xf0 + x) 0xE0 =? 0xC0) = false
  /\ (Z.land (0xf0 + x) 0xF0 =? 0xE0) = false /\ (Z.land (0xf0 + x) 0xF8 =? 0xF0) = true.
Proof.
  intros H.
  pose proof (range_forallb_spec (fun x => negb (Z.land (0xf0 + x) 0x80 =? 0) && negb (Z.land (0xf0 + x) 0xE0 =? 0xC0)
     && negb (Z.land (0xf0 + x) 0xF0 =? 0xE0) && (Z.land (0xf0 + x) 0xF8 =? 0xF0)) 8 0 eq_refl x ltac:(simpl; lia)) as E.
  simpl in E. rewrite !andb_true_iff, !negb_true_iff in E. tauto.
Qed.

Lemma lookup_of_drop {A} (buf : list A) pos bs r i x :
  drop pos buf = bs ++ r -> bs !! i = Some x -> buf !! (pos + i)%nat = Some x.
Proof. intros Hd Hi. rewrite <- lookup_drop, Hd. now apply lookup_app_l_Some. Qed.

Lemma acc_step ch b :
  0 <= ch < 2 ^ 25 -> 0 <= b < 256 -> u32 (u32 (Z.shiftl ch 6) + b) = 64 * ch + b.
Proof.
  intros. rewrite Z.shiftl_mul_pow2 by lia. change (2 ^ 6) with 64.
  rewrite (u32_id (ch * 64)), u32_id by lia. lia.
Qed.

Lemma div_div_64 x m k : (m =? k * 64) && (0 <? k) = true -> x / m = x / k / 64.
Proof. intros. Zbool. subst m. rewrite Z.div_div by lia. reflexivity. Qed.

(** The length chosen for a reference encoding is its length. *)
Lemma sequenceLength_ref buf pos cp r :
  0x80 <= cp <= 0x10ffff -> drop pos buf = utf8_ref cp ++ r ->
  sequenceLength buf pos (Z.of_nat (length buf - pos)) = Some (Some (length (utf8_ref cp))).
Proof.
  intros H Hd.
  assert (Z.of_nat (length (utf8_ref cp)) <= Z.of_nat (length buf - pos)) as Hl.
  { rewrite <- length_drop, Hd, length_app. lia. }
  unfold sequenceLength. rewrite <- (Nat.add_0_r pos) at 1. revert Hd Hl. unfold utf8_ref.
  destruct (cp <=? 0x7f) eqn:E1; Zbool; [lia|]. destruct (cp <=? 0x7ff) eqn:E2; Zbool;
    [|destruct (cp <=? 0xffff) eqn:E3; Zbool]; intros Hd Hl; cbn [length] in Hl;
    assert (forall k, k <= Z.of_nat (length buf - pos) -> (Z.of_nat (length buf - pos) <? k) = false) as Hlt
      by (intros; apply Z.ltb_ge; lia);
    rewrite ?(lookup_of_drop _ _ _ _ 0 _ Hd eq_refl), ?(lookup_of_drop _ _ _ _ 1 _ Hd eq_refl); cbn [mbind option_bind].
  - destruct (lead2_mask (cp / 64)) as [-> ->]; [div_bounds; lia|].
    rewrite Hlt by lia. rewrite cont_mask by (div_bounds; lia). reflexivity.
  - destruct (lead3_mask (cp / 4096)) as (-> & -> & ->); [div_bounds; lia|].
    rewrite !Hlt by lia. cbn [andb].
    rewrite (lookup_of_drop _ _ _ _ 2 _ Hd eq_refl). cbn [mbind option_bind].
    rewrite !cont_mask by (div_bounds; lia). reflexivity.
  - destruct (lead4_mask (cp / 262144)) as (-> & -> & -> & ->); [div_bounds; lia|].
    rewrite !Hlt by lia. cbn [andb].
    rewrite (lookup_of_drop _ _ _ _ 2 _ Hd eq_refl). cbn [mbind option_bind].
    rewrite (lookup_of_drop _ _ _ _ 3 _ Hd eq_refl). cbn [mbind option_bind].
    rewrite !cont_mask by (div_bounds; lia). reflexivity.
Qed.

Lemma readUTF8Sequence_ref buf pos charlen cp r :
  0x80 <= cp <= 0x10ffff -> drop pos buf = utf8_ref cp ++ r ->
  readUTF8Sequence buf pos charlen (Z.of_nat (length buf - pos))
    = Some (mkRead cp true (length (utf8_ref cp)) (pos + length (utf8_ref cp))%nat).
Proof.
  intros H Hd. unfold readUTF8Sequence.
  rewrite (sequenceLength_ref buf pos cp r H Hd). cbn [mbind option_bind].
  rewrite (accumulate_spec buf _ 0 pos (utf8_ref cp) r Hd eq_refl)
    by (unfold utf8_ref; repeat Zcase; simpl; lia).
  cbn [mbind option_bind]. clear Hd. unfold utf8_ref.
  destruct (cp <=? 0x7f) eqn:E1; Zbool; [lia|].
  destruct (cp <=? 0x7ff) eqn:E2; Zbool; [|destruct (cp <=? 0xffff) eqn:E3; Zbool];
    simpl; rewrite ?Z.add_0_l; do 2 f_equal;
    rewrite ?(div_div_64 cp 262144 4096 eq_refl), ?(div_div_64 cp 4096 64 eq_refl); div_bounds.
  - rewrite (u32_id (192 + _)), (acc_step (192 + _)), u32_id by lia. lia.
  - rewrite (u32_id (224 + _)), (acc_step (224 + _)), (acc_step (64 * _ + _)), u32_id by lia. lia.
  - rewrite (u32_id (240 + _)), (acc_step (240 + _)), (acc_step (64 * _ + _)),
      (acc_step (64 * _ + _)), u32_id by lia. lia.
Qed.

Lemma utf8_step_ref buf pos charlen cp r :
  0 <= cp <= 0x10ffff -> is_lead cp = false -> is_trail cp = false ->
  drop pos buf = utf8_ref cp ++ r ->
  exists charlen', utf8_step buf pos charlen
    = Some ((pos + length (utf8_ref cp))%nat, charlen', utf32ToUtf16 cp).
Proof.
  intros H HL HT Hd. unfold utf8_step.
  destruct (decide (cp < 0x80)) as [Hs|Hs].
  - unfold utf8_ref in *. replace (cp <=? 0x7f) with true in * by (symmetry; apply Z.leb_le; lia).
    pose proof (lookup_of_drop _ _ _ _ 0 _ Hd eq_refl) as Hc. rewrite Nat.add_0_r in Hc. rewrite Hc. cbn [mbind option_bind].
    replace (cp <? 0x80) with true by (symmetry; apply Z.ltb_lt; lia).
    exists charlen. simpl. unfold utf32ToUtf16.
    replace (cp <=? 0xffff) with true by (symmetry; apply Z.leb_le; lia).
    replace (0xd800 <=? cp) with false by (symmetry; apply Z.leb_gt; lia). simpl.
    rewrite (land_low_mask 16), Z.mod_small by lia. do 3 f_equal. lia.
  - rewrite (readUTF8Sequence_ref buf pos charlen cp r) by (assumption || lia).
    destruct (buf !! pos) as [c|] eqn:Hc; cbn [mbind option_bind]; cycle 1.
    { apply lookup_ge_None_1 in Hc. apply (f_equal length) in Hd.
      rewrite length_drop, length_app in Hd. revert Hd. unfold utf8_ref. repeat Zcase; simpl; lia. }
    assert ((c <? 0x80) = false) as ->.
    { rewrite <- (Nat.add_0_r pos) in Hc. revert Hd Hc. unfold utf8_ref.
      destruct (cp <=? 0x7f) eqn:E1; Zbool; [lia|].
      destruct (cp <=? 0x7ff) eqn:E2; Zbool; [|destruct (cp <=? 0xffff) eqn:E3; Zbool]; intros Hd;
        rewrite (lookup_of_drop _ _ _ _ 0 _ Hd eq_refl); intros [= <-]; apply Z.ltb_ge; div_bounds; lia. }
    simpl. eexists. unfold utf32ToUtf16.
    destruct (cp <=? 0xffff) eqn:E1; Zbool.
    + assert (Z.land cp 0xfffff800 =? 0xd800 = ((0xd800 <=? cp) && (cp <=? 0xdfff))) as ->.
      { rewrite (land_high_mask 32 11) by (unfold in_u; lia).
        pose proof (Z.div_mod cp (2 ^ 11)). pose proof (Z.mod_pos_bound cp (2 ^ 11)).
        apply eq_true_iff_eq. rewrite andb_true_iff, Z.eqb_eq, !Z.leb_le. lia. }
      assert ((0xd800 <=? cp) && (cp <=? 0xdfff) = false) as ->.
      { unfold is_lead, is_trail in *. rewrite andb_false_iff, !Z.leb_gt in *. lia. }
      rewrite (land_low_mask 16) by lia. reflexivity.
    + rewrite u32_id by lia. replace (cp - 65536 <=? 1048575) with true by (symmetry; apply Z.leb_le; lia).
      replace (cp <=? 1114111) with true by (symmetry; apply Z.leb_le; lia).
      rewrite !(land_low_mask 10), !Z.shiftr_div_pow2 by lia. change (2 ^ 10) with 1024.
      replace (cp - 65536) with (cp + (-64) * 1024) by lia.
      rewrite Z.div_add, Z.mod_add by lia.
      rewrite Z.lor_comm, !(lor_disjoint 10) by (try reflexivity; div_bounds; lia).
      replace (55296 + (cp / 1024 + -64)) with (cp / 1024 + 55232) by lia. reflexivity.
Qed.

(** ** The loops of the encoder and the decoder *)

Lemma charAt_drop (d : StringBufferAccessData) i k bs r x :
  drop i (buffer d) = bs ++ r -> bs !! k = Some x -> charAt d (i + k) = Some x.
Proof. apply lookup_of_drop. Qed.

Lemma is_lead_range c : is_lead c = true -> 0xd800 <= c <= 0xdbff.
Proof. unfold is_lead. intros. Zbool. lia. Qed.
Lemma is_trail_range c : is_trail c = true -> 0xdc00 <= c <= 0xdfff.
Proof. unfold is_trail. intros. Zbool. lia. Qed.
Lemma in_u_16_32 c : in_u 16 c -> in_u 32 c.
Proof. unfold in_u. lia. Qed.

Lemma toUTF8_step_pair d replace i c0 c1 r :
  drop i (buffer d) = c0 :: c1 :: r -> is_lead c0 = true -> is_trail c1 = true ->
  toUTF8_step d replace i = Some (S i, utf32ToUtf8 (piece_cp (Pair c0 c1))).
Proof.
  intros Hd E0 E1. unfold toUTF8_step.
  pose proof (charAt_drop d i 0 [c0; c1] r c0 Hd eq_refl) as H0. rewrite Nat.add_0_r in H0.
  rewrite H0, (charAt_drop d i 1 [c0; c1] r c1 Hd eq_refl). cbn [mbind option_bind].
  pose proof (is_lead_range _ E0). pose proof (is_trail_range _ E1).
  destruct (c0 <? 128) eqn:E; Zbool; [lia|].
  rewrite U16_IS_LEAD_spec, E0, U16_IS_TRAIL_spec, E1 by (unfold in_u; lia).
  assert ((i + 1 =? data_length d)%nat = false) as ->; [|reflexivity].
  apply Nat.eqb_neq. unfold data_length. apply (f_equal length) in Hd.
  rewrite length_drop in Hd. simpl in Hd. lia.
Qed.

Lemma toUTF8_step_single d replace i c r :
  in_u 16 c -> Forall (in_u 16) r ->
  drop i (buffer d) = c :: r ->
  (forall c1 s', r = c1 :: s' -> is_lead c && is_trail c1 = false) ->
  toUTF8_step d replace i
    = Some (i, utf32ToUtf8 (piece_cp (if (replace : bool) then normal (Single c) else Single c))).
Proof.
  intros Hc Hr Hd H. unfold toUTF8_step.
  pose proof (charAt_drop d i 0 [c] r c Hd eq_refl) as H0. rewrite Nat.add_0_r in H0.
  rewrite H0. cbn [mbind option_bind].
  destruct (c <? 128) eqn:E; Zbool.
  { unfold normal, piece_ok. assert (is_lead c = false /\ is_trail c = false) as [-> ->]
      by (unfold is_lead, is_trail; split; apply andb_false_intro1; apply Z.leb_gt; lia).
    unfold in_u in Hc. do 2 f_equal. destruct replace; simpl; unfold utf32ToUtf8;
      (replace (c <=? 0x7f) with true by (symmetry; apply Z.leb_le; lia)); now rewrite u8_id by lia. }
  rewrite U16_IS_LEAD_spec, U16_IS_TRAIL_spec by auto using in_u_16_32.
  unfold normal, piece_ok. destruct (is_lead c) eqn:EL.
  - destruct (i + 1 =? data_length d)%nat eqn:El; [now destruct replace|].
    destruct r as [|c1 r].
    { exfalso. apply Nat.eqb_neq in El. apply (f_equal length) in Hd. rewrite length_drop in Hd.
      unfold data_length in El. simpl in Hd. lia. }
    rewrite (charAt_drop d i 1 [c; c1] r c1 Hd eq_refl). cbn [mbind option_bind].
    inversion_clear Hr as [|?? Hc1 _]. rewrite U16_IS_TRAIL_spec by auto using in_u_16_32.
    rewrite (H c1 r eq_refl : is_trail c1 = false). now destruct replace.
  - now destruct replace, (is_trail c).
Qed.

Lemma toUTF8_loop_spec d replace fuel i acc r :
  Forall (in_u 16) r -> drop i (buffer d) = r -> (length r <= fuel)%nat ->
  toUTF8_loop fuel d replace i acc =
    Some (acc ++ concat (map (fun p => utf32ToUtf8 (piece_cp (if (replace : bool) then normal p else p))) (pieces r))).
Proof.
  revert fuel i acc.
  induction r as [|c0 c1 r E0 E1 IH|c r H IH] using pieces_ind; intros fuel i acc Hr Hd Hf.
  - apply drop_nil_ge in Hd. destruct fuel; simpl; unfold data_length; rewrite decide_False, app_nil_r by lia; reflexivity.
  - destruct fuel as [|fuel]; simpl in Hf; [lia|]. cbn [toUTF8_loop]. unfold data_length.
    rewrite decide_True by (eapply drop_lt; eassumption).
    rewrite (toUTF8_step_pair d replace i c0 c1 r) by assumption. cbn [mbind option_bind].
    inversion_clear Hr as [|?? _ Hr']. inversion_clear Hr' as [|?? _ Hr''].
    rewrite IH; [|assumption| |lia].
    + rewrite pieces_pair by assumption. cbn [map concat]. rewrite <- app_assoc. now destruct replace.
    + replace (S (S i)) with (i + 2)%nat by lia. exact (drop_advance _ i 2 [c0; c1] r Hd eq_refl).
  - destruct fuel as [|fuel]; simpl in Hf; [lia|]. cbn [toUTF8_loop]. unfold data_length.
    rewrite decide_True by (eapply drop_lt; eassumption).
    inversion_clear Hr as [|?? Hc Hr'].
    rewrite (toUTF8_step_single d replace i c r) by assumption. cbn [mbind option_bind].
    rewrite IH; [|assumption| |lia].
    + rewrite pieces_single by assumption. cbn [map concat]. now rewrite <- app_assoc.
    + replace (S i) with (i + 1)%nat by lia. exact (drop_advance _ i 1 [c] r Hd eq_refl).
Qed.

(** Code points of good pieces are scalar values. *)
Lemma good_piece_cp p :
  good_piece p -> 0 <= piece_cp p <= 0x10ffff /\ is_lead (piece_cp p) = false /\ is_trail (piece_cp p) = false.
Proof.
  destruct p as [c|c0 c1]; simpl; unfold in_u.
  - intros (H & -> & ->). split; [lia|auto].
  - intros [H0 H1]. destruct (supplementary_range c0 c1 H0 H1) as [_ R]. split; [lia|].
    unfold is_lead, is_trail. split; apply andb_false_intro2; apply Z.leb_gt; lia.
Qed.

Lemma utf8_ref_nonempty cp : (0 < length (utf8_ref cp))%nat.
Proof. unfold utf8_ref. repeat Zcase; simpl; lia. Qed.

Lemma utf8_loop_decodes buf fuel pos charlen acc ps :
  Forall good_piece ps -> drop pos buf = concat (map (fun p => utf8_ref (piece_cp p)) ps) ->
  (length buf - pos <= fuel)%nat ->
  utf8_loop fuel buf pos charlen acc = Some (acc ++ concat (map piece_units ps)).
Proof.
  intros Hps. revert fuel pos charlen acc.
  induction Hps as [|p ps Hp _ IH]; intros fuel pos charlen acc Hd Hf; cbn [map concat] in *.
  - apply drop_nil_ge in Hd. destruct fuel; simpl; rewrite decide_False, app_nil_r by lia; reflexivity.
  - destruct (good_piece_cp p Hp) as (HR & HL & HT). pose proof (utf8_ref_nonempty (piece_cp p)) as Hne.
    destruct (utf8_step_ref buf pos charlen _ _ HR HL HT Hd) as [charlen' E].
    assert (pos < length buf)%nat.
    { pose proof (f_equal length Hd) as El. rewrite length_drop, length_app in El. lia. }
    destruct fuel as [|fuel]; [lia|]. cbn [utf8_loop].
    rewrite decide_True, E by lia. cbn [mbind option_bind].
    rewrite (IH fuel); [|exact (drop_advance _ pos _ _ _ Hd eq_refl)|lia].
    rewrite <- app_assoc. now rewrite utf32ToUtf16_piece by assumption.
Qed.

Lemma toWellFormed_buffer d :
  data_ok d ->
  exists d', toWellFormed d = Some d' /\ has8BitContent d' = has8BitContent d /\
    buffer d' = concat (map piece_units (map normal (pieces (buffer d)))).
Proof.
  intros Hok. unfold toWellFormed, String_isWellFormed.
  destruct (has8BitContent d) eqn:E8; cbn [mbind option_bind].
  - exists d. split_and!; [reflexivity|assumption|].
    rewrite normal_wf; [now rewrite pieces_units|].
    unfold data_ok in Hok. rewrite E8 in Hok. unfold wf16.
    induction Hok as [|c s Hc Hs IH]; [reflexivity|].
    unfold in_u in Hc. assert (is_lead c = false) as EL by (apply andb_false_intro1; apply Z.leb_gt; lia).
    assert (is_trail c = false) as ET by (apply andb_false_intro1; apply Z.leb_gt; lia).
    rewrite pieces_single by (intros; now rewrite EL). cbn [forallb piece_ok]. now rewrite EL, ET.
  - rewrite (String_isWellFormed_loop_spec _ _ 0 (buffer d)) by (rewrite ?drop_0; auto).
    cbn [mbind option_bind]. destruct (wf16 (buffer d)) eqn:W.
    + exists d. split_and!; [reflexivity|assumption|]. now rewrite normal_wf, pieces_units.
    + rewrite (toWellFormed_loop_spec _ _ 0 (buffer d)) by (rewrite ?drop_0; auto).
      cbn. eexists. split_and!; [reflexivity..|]. simpl. now rewrite piece_wf_normal.
Qed.

Lemma data_ok_16 d : data_ok d -> Forall (in_u 16) (buffer d).
Proof.
  unfold data_ok. destruct (has8BitContent d); [|auto]. intros H.
  revert H. apply Forall_impl. intros a. unfold in_u. lia.
Qed.

Lemma normal_length ps : length (concat (map piece_units (map normal ps))) = length (concat (map piece_units ps)).
Proof.
  induction ps as [|[c|c0 c1] ps IH]; [reflexivity| |]; cbn [map concat]; rewrite !length_app, IH; f_equal.
  unfold normal. now destruct (piece_ok _).
Qed.

(** Position by position, [normal] keeps a unit or replaces a surrogate. *)
Lemma normal_lookup ps i c :
  concat (map piece_units ps) !! i = Some c ->
  concat (map piece_units (map normal ps)) !! i = Some c \/
  (concat (map piece_units (map normal ps)) !! i = Some 0xFFFD /\ is_lead c || is_trail c = true).
Proof.
  revert i. induction ps as [|p ps IH]; intros i; cbn [map concat]; [discriminate|].
  destruct p as [c'|c0 c1]; [unfold normal at 1 3; simpl piece_ok|].
  - destruct (negb (is_lead c') && negb (is_trail c')) eqn:E; cbn [piece_units app];
      (destruct i as [|i]; [|exact (IH i)]); cbn; intros [= <-]; [now left|right].
    split; [reflexivity|]. now destruct (is_lead c'), (is_trail c').
  - cbn [normal piece_ok piece_units app].
    destruct i as [|[|i]]; [intros [= <-]; now left..|exact (IH i)].
Qed.

End Utf8Facts.

(** * Properties *)
Module UnicodeProps.
Import Utf16 Utf16Facts Utf8 Utf8Facts.

(** C35: encoding any engine string with invalid units replaced and decoding the
    bytes gives back the well-formed version of the string, whenever every code
    point lies in a plane the encoder handles (0-3 and 16); both directions
    terminate and read only inside their buffers.  On a well-formed string this
    is the identity. *)
Theorem utf8_roundtrip (d : StringBufferAccessData) :
  data_ok d ->
  Forall (fun p => plane_ok (piece_cp p) = true) (pieces (buffer d)) ->
  exists bytes d',
    toUTF8String d true = Some bytes /\ toWellFormed d = Some d' /\
    utf8StringToUTF16StringNonGC bytes = Some (buffer d') /\
    (String_isWellFormed d = Some true -> buffer d' = buffer d).
Proof.
  intros Hok Hpl. pose proof (data_ok_16 d Hok) as H16.
  destruct (toWellFormed_buffer d Hok) as (d' & Ed' & _ & Eb).
  pose proof (normal_good _ H16) as Hgood.
  eexists _, d'. split_and!; [|exact Ed'| |].
  - unfold toUTF8String. rewrite (toUTF8_loop_spec d true _ 0 [] (buffer d)); auto.
  - rewrite Eb. unfold utf8StringToUTF16StringNonGC. cbn [app].
    rewrite (utf8_loop_decodes _ _ 0 0 [] (map normal (pieces (buffer d)))); [reflexivity|assumption| |lia].
    rewrite drop_0, map_map. f_equal. clear -Hgood Hpl.
    revert Hgood Hpl. induction (pieces (buffer d)) as [|p ps IH]; intros Hg Hp; [reflexivity|].
    inversion_clear Hg as [|?? Hg1 Hg2]. inversion_clear Hp as [|?? Hp1 Hp2].
    cbn [map]. f_equal; [|now apply IH].
    apply utf32ToUtf8_ref_iff; [now apply good_piece_cp|].
    unfold normal. destruct (piece_ok p); [assumption|reflexivity].
  - intros W. unfold toWellFormed in Ed'. rewrite W in Ed'. now injection Ed' as <-.
Qed.
Lemma utf8_roundtrip_witness :
  exists bytes d',
    toUTF8String (mkData false [0x41; 0x3042; 0xDE00; 0xD83D; 0xDE00; 0xD800]) true = Some bytes /\
    toWellFormed (mkData false [0x41; 0x3042; 0xDE00; 0xD83D; 0xDE00; 0xD800]) = Some d' /\
    utf8StringToUTF16StringNonGC bytes = Some (buffer d') /\
    (String_isWellFormed (mkData false [0x41; 0x3042; 0xDE00; 0xD83D; 0xDE00; 0xD800]) = Some true ->
     buffer d' = [0x41; 0x3042; 0xDE00; 0xD83D; 0xDE00; 0xD800]).
Proof.
  apply (utf8_roundtrip (mkData false [0x41; 0x3042; 0xDE00; 0xD83D; 0xDE00; 0xD800])).
  - unfold data_ok. simpl. repeat constructor; unfold in_u; lia.
  - cbn. repeat constructor.
Defined.

(** The decoder is total on arbitrary bytes: it terminates, never reads
    outside the buffer, and what it produces is well-formed UTF-16. *)
Theorem utf8_decode_wellformed (buf : list Z) :
  Forall (in_u 8) buf ->
  exists s, utf8StringToUTF16StringNonGC buf = Some s /\ String_isWellFormed (mkData false s) = Some true.
Proof.
  intros H.
  destruct (utf8_loop_good buf (length buf) 0 0 [] H ltac:(lia) (Forall_nil_2 _)) as (ps & E & Hps).
  eexists. split; [exact E|]. unfold String_isWellFormed. cbn [has8BitContent buffer].
  rewrite (String_isWellFormed_loop_spec _ _ 0 (concat (map piece_units ps))) by (rewrite ?drop_0; auto).
  now rewrite wf16_concat.
Qed.
Lemma utf8_decode_wellformed_witness :
  exists s, utf8StringToUTF16StringNonGC [0xF0; 0x9F; 0xE3; 0xED; 0xA0; 0x80] = Some s
    /\ String_isWellFormed (mkData false s) = Some true.
Proof. apply (utf8_decode_wellformed [0xF0; 0x9F; 0xE3; 0xED; 0xA0; 0x80]). repeat constructor; unfold in_u; lia. Defined.

(** [toWellFormed] returns a well-formed string of the same length that
    keeps every unit except surrogates, which can only become U+FFFD, and
    returns its argument when that is already well formed. *)
Theorem toWellFormed_correct (d : StringBufferAccessData) :
  data_ok d ->
  exists d', toWellFormed d = Some d' /\ String_isWellFormed d' = Some true /\
    data_length d' = data_length d /\
    (String_isWellFormed d = Some true -> d' = d) /\
    (forall i c, charAt d i = Some c ->
       charAt d' i = Some c \/ (charAt d' i = Some 0xFFFD /\ 0xd800 <= c <= 0xdfff)).
Proof.
  intros Hok. destruct (toWellFormed_buffer d Hok) as (d' & E & E8 & Eb).
  pose proof (normal_good _ (data_ok_16 d Hok)) as Hgood.
  exists d'. split_and!; [assumption| | | |].
  - unfold String_isWellFormed. destruct (has8BitContent d'); [reflexivity|].
    rewrite (String_isWellFormed_loop_spec _ _ 0 (buffer d')) by (rewrite ?drop_0; auto).
    now rewrite Eb, wf16_concat.
  - unfold data_length. now rewrite Eb, normal_length, pieces_units.
  - intros W. unfold toWellFormed in E. rewrite W in E. now injection E.
  - intros i c Hc. unfold charAt in *. rewrite Eb. rewrite <- (pieces_units (buffer d)) in Hc.
    destruct (normal_lookup _ _ _ Hc) as [|[H1 H2]]; [now left|right]. split; [assumption|].
    apply orb_prop in H2 as [H2|H2]; [apply is_lead_range in H2|apply is_trail_range in H2]; lia.
Qed.
Lemma toWellFormed_correct_witness :
  exists d', toWellFormed (mkData false [0x61; 0xD800; 0x62]) = Some d' /\ String_isWellFormed d' = Some true /\
    data_length d' = data_length (mkData false [0x61; 0xD800; 0x62]) /\
    (String_isWellFormed (mkData false [0x61; 0xD800; 0x62]) = Some true -> d' = mkData false [0x61; 0xD800; 0x62]) /\
    (forall i c, charAt (mkData false [0x61; 0xD800; 0x62]) i = Some c ->
       charAt d' i = Some c \/ (charAt d' i = Some 0xFFFD /\ 0xd800 <= c <= 0xdfff)).
Proof.
  apply (toWellFormed_correct (mkData false [0x61; 0xD800; 0x62])).
  unfold data_ok. simpl. repeat constructor; unfold in_u; lia.
Defined.

(** On Unicode code points the encoder agrees with RFC 3629 exactly outside
    U+40000..U+FFFFF, where the second byte of the four-byte form is wrong. *)
Theorem utf32ToUtf8_rfc3629_iff (cp : Z) :
  0 <= cp <= 0x10ffff -> utf32ToUtf8 cp = utf8_ref cp <-> (cp < 0x40000 \/ 0x100000 <= cp).
Proof.
  intros H. rewrite utf32ToUtf8_ref_iff by assumption.
  unfold plane_ok. now rewrite orb_true_iff, Z.ltb_lt, Z.leb_le.
Qed.
Lemma utf32ToUtf8_rfc3629_iff_witness :
  utf32ToUtf8 0xE0001 = utf8_ref 0xE0001 <-> (0xE0001 < 0x40000 \/ 0x100000 <= 0xE0001).
Proof. apply (utf32ToUtf8_rfc3629_iff 0xE0001). lia. Defined.

(** [codePointAt] returns the scalar value of the pair starting at the
    position, or the unit itself, and [advanceStringIndex] in Unicode mode moves
    to the next piece boundary: iterating it from 0 visits exactly the
    boundaries of the decomposition of the string. *)
Theorem advanceStringIndex_pieces (s pre post : list Z) (p : piece) (ps : list piece) :
  Forall (in_u 16) s -> Z.of_nat (length s) < 2 ^ 53 ->
  s = pre ++ piece_units p ++ post -> pieces (piece_units p ++ post) = p :: ps ->
  codePointAt (mkData false s) (length pre)
    = Some (mkCodePoint (piece_cp p) (Z.of_nat (length (piece_units p))) (negb (piece_ok p))) /\
  advanceStringIndex (mkData false s) (Z.of_nat (length pre)) true
    = Some (Z.of_nat (length (pre ++ piece_units p))).
Proof.
  intros H16 Hlen Es Ep.
  assert (forall i x, (piece_units p ++ post) !! i = Some x -> charAt (mkData false s) (length pre + i) = Some x) as Hat.
  { intros i x Hi. unfold charAt. cbn. now rewrite Es, lookup_app_r, Nat.add_comm, Nat.add_sub by lia. }
  assert (codePointAt (mkData false s) (length pre)
    = Some (mkCodePoint (piece_cp p) (Z.of_nat (length (piece_units p))) (negb (piece_ok p)))) as E.
  { assert (Forall (in_u 16) (piece_units p ++ post)) as H16' by (rewrite Es in H16; now apply Forall_app in H16).
    unfold codePointAt. destruct p as [c|c0 c1]; cbn [piece_units app] in *.
    - pose proof (Hat 0%nat c eq_refl) as H0. rewrite Nat.add_0_r in H0. rewrite H0. cbn [mbind option_bind].
      inversion_clear H16' as [|?? Hc Hpost].
      rewrite U16_IS_LEAD_spec, !U16_IS_TRAIL_spec by auto using in_u_16_32. cbn [piece_ok piece_cp].
      destruct (is_lead c) eqn:EL; cbn [negb andb]; [|now destruct (is_trail c)].
      rewrite (lead_trail_excl c EL). cbn [orb].
      destruct (_ =? _)%nat eqn:El; [reflexivity|]. apply Nat.eqb_neq in El.
      destruct post as [|c1 post].
      { exfalso. apply El. unfold data_length. cbn. rewrite Es, length_app. simpl. lia. }
      rewrite (Hat 1%nat c1 eq_refl). cbn [mbind option_bind].
      inversion_clear Hpost as [|?? Hc1 _]. rewrite U16_IS_TRAIL_spec by auto using in_u_16_32.
      destruct (is_trail c1) eqn:ET; [|reflexivity]. exfalso.
      rewrite pieces_pair in Ep by assumption. discriminate.
    - assert (is_lead c0 = true /\ is_trail c1 = true) as [E0 E1].
      { cbn [pieces] in Ep. destruct (is_lead c0 && is_trail c1) eqn:E; [now apply andb_prop in E|].
        destruct post; cbn in Ep; congruence. }
      pose proof (Hat 0%nat c0 eq_refl) as H0. rewrite Nat.add_0_r in H0. rewrite H0. cbn [mbind option_bind].
      inversion_clear H16' as [|?? Hc0 Hr]. inversion_clear Hr as [|?? Hc1 _].
      rewrite U16_IS_LEAD_spec, E0, U16_IS_TRAIL_spec, (lead_trail_excl c0 E0) by auto using in_u_16_32.
      cbn [negb andb orb].
      assert ((length pre + 1 =? data_length (mkData false s))%nat = false) as ->.
      { apply Nat.eqb_neq. unfold data_length. cbn. rewrite Es, length_app. simpl. lia. }
      rewrite (Hat 1%nat c1 eq_refl). cbn [mbind option_bind].
      rewrite U16_IS_TRAIL_spec, E1 by auto using in_u_16_32. reflexivity. }
  split; [exact E|]. unfold advanceStringIndex. cbn [negb]. rewrite Nat2Z.id, E. cbn [mbind option_bind codeUnitCount].
  assert (Z.of_nat (length (pre ++ piece_units p)) = Z.of_nat (length pre) + Z.of_nat (length (piece_units p))) as ->
    by (rewrite length_app; lia).
  assert (Z.of_nat (length pre) + Z.of_nat (length (piece_units p)) <= Z.of_nat (length s))
    by (rewrite Es, !length_app; lia).
  assert (1 <= Z.of_nat (length (piece_units p)) <= 2) by (destruct p; simpl; lia).
  unfold data_length. cbn [buffer].
  destruct (_ <=? _) eqn:El; Zbool; rewrite wrapu_id by (unfold in_u; lia); f_equal; lia.
Qed.
Lemma advanceStringIndex_pieces_witness :
  codePointAt (mkData false [0x61; 0xD83D; 0xDE00; 0x62]) 1 = Some (mkCodePoint 0x1F600 2 false) /\
  advanceStringIndex (mkData false [0x61; 0xD83D; 0xDE00; 0x62]) 1 true = Some 3.
Proof.
  apply (advanceStringIndex_pieces [0x61; 0xD83D; 0xDE00; 0x62] [0x61] [0x62] (Pair 0xD83D 0xDE00) [Single 0x62]);
    [repeat constructor; unfold in_u; lia|simpl; lia|reflexivity|reflexivity].
Defined.

End UnicodeProps.
