(* ===== verification/Double.v ===== *)
(** IEEE 754 binary64 numbers as their 64-bit patterns, the way the engine
    stores and reinterprets them.  A finite double is an integer multiple of
    2^-1074; [scaled] is that integer, so comparisons, truncation and the
    correctly rounded operations are exact integer arithmetic.  These are the
    operations of the language the engine's numeric code uses ([double] in C++);
    they are shared by the value, date and Temporal components. *)
From Stdlib Require Import ZArith Lia Bool.
From stdpp Require Import base numbers list option decidable.
From S2P Require Import Prelude.

(** * Patterns *)

Definition INF : Z := 2047 * 2 ^ 52.
Definition NAN : Z := 0x7ff8000000000000.
Definition UNIT : Z := 2 ^ 1074.

Definition sign_bit (b : Z) : bool := 2 ^ 63 <=? b.
Definition mag (b : Z) : Z := b mod 2 ^ 63.
Definition is_nan (b : Z) : bool := INF <? mag b.
Definition is_inf (b : Z) : bool := mag b =? INF.
Definition is_finite (b : Z) : bool := mag b <? INF.
Definition is_zero (b : Z) : bool := mag b =? 0.

(** The magnitude of a positive pattern in units of 2^-1074. *)
Definition mag_scaled (p : Z) : Z :=
  let e := p / 2 ^ 52 in
  let f := p mod 2 ^ 52 in
  if e =? 0 then f else (2 ^ 52 + f) * 2 ^ (e - 1).
Definition scaled (b : Z) : Z :=
  if sign_bit b then - mag_scaled (mag b) else mag_scaled (mag b).

Definition neg (b : Z) : Z := if sign_bit b then b - 2 ^ 63 else b + 2 ^ 63.
Definition fabs (b : Z) : Z := mag b.

(** Comparisons: every one with a NaN is false. *)
Definition key (b : Z) : Z := if sign_bit b then - mag b else mag b.
Definition feq (a b : Z) : bool := negb (is_nan a) && negb (is_nan b) && (key a =? key b).
Definition flt (a b : Z) : bool := negb (is_nan a) && negb (is_nan b) && (key a <? key b).
Definition fle (a b : Z) : bool := negb (is_nan a) && negb (is_nan b) && (key a <=? key b).

(** * Correct rounding *)

(** [n / d] rounded to the nearest integer, ties to even. *)
Definition rne (n d : Z) : Z :=
  let '(q, r) := Z.div_eucl n d in
  if 2 * r <? d then q else if d <? 2 * r then q + 1 else if Z.even q then q else q + 1.

(** The positive pattern nearest to [x / d] units, ties to even, overflow to
    infinity; and the one nearest to the number [n / d]. *)
Definition round_q (x d : Z) : Z :=
  let k := Z.max 0 (Z.log2 (x / d) - 52) in
  Z.min (k * 2 ^ 52 + rne x (d * 2 ^ k)) INF.
Definition round_mag (n d : Z) : Z := round_q (n * UNIT) d.
Definition of_ratio (s : bool) (n d : Z) : Z := (if s then 2 ^ 63 else 0) + round_mag n d.

(** The double nearest to a rational with a signed numerator; [+0] when it is 0. *)
Definition of_rat (n d : Z) : Z := of_ratio (n <? 0) (Z.abs n) d.
Definition of_Z (n : Z) : Z := of_rat n 1.

(** A number of units, rounded. *)
Definition of_units (s : bool) (x : Z) : Z := (if s then 2 ^ 63 else 0) + round_q x 1.

Definition fadd (a b : Z) : Z :=
  if is_nan a || is_nan b then NAN
  else if is_inf a then (if is_inf b && negb (eqb (sign_bit a) (sign_bit b)) then NAN else a)
  else if is_inf b then b
  else if scaled a + scaled b =? 0 then (if sign_bit a && sign_bit b then 2 ^ 63 else 0)
  else let x := scaled a + scaled b in of_units (x <? 0) (Z.abs x).
Definition fsub (a b : Z) : Z := if is_nan b then NAN else fadd a (neg b).
Definition fmul (a b : Z) : Z :=
  let s := xorb (sign_bit a) (sign_bit b) in
  if is_nan a || is_nan b then NAN
  else if is_inf a || is_inf b then
    (if is_zero a || is_zero b then NAN else (if s then 2 ^ 63 else 0) + INF)
  else (if s then 2 ^ 63 else 0) + round_q (mag_scaled (mag a) * mag_scaled (mag b)) UNIT.
Definition fdiv (a b : Z) : Z :=
  let s := xorb (sign_bit a) (sign_bit b) in
  if is_nan a || is_nan b then NAN
  else if is_inf a then (if is_inf b then NAN else (if s then 2 ^ 63 else 0) + INF)
  else if is_inf b then (if s then 2 ^ 63 else 0)
  else if is_zero b then (if is_zero a then NAN else (if s then 2 ^ 63 else 0) + INF)
  else of_ratio s (mag_scaled (mag a)) (mag_scaled (mag b)).
(** [fmod], exact, with the sign of the dividend. *)
Definition ffmod (a b : Z) : Z :=
  if is_nan a || is_nan b || is_inf a || is_zero b then NAN
  else if is_inf b then a
  else of_units (sign_bit a) (mag_scaled (mag a) mod mag_scaled (mag b)).

(** Integer parts as integers, and as doubles. *)
Definition to_Z (b : Z) : Z := Z.quot (scaled b) UNIT.
Definition floor_Z (b : Z) : Z := scaled b / UNIT.
Definition ftrunc (b : Z) : Z :=
  if is_finite b then of_ratio (sign_bit b) (Z.abs (to_Z b)) 1 else b.
Definition ffloor (b : Z) : Z :=
  if is_finite b then of_ratio (sign_bit b) (Z.abs (floor_Z b)) 1 else b.

Example one_bits : of_Z 1 = 0x3ff0000000000000. Proof. vm_compute. reflexivity. Qed.
Example third_bits : fdiv (of_Z 1) (of_Z 3) = 0x3fd5555555555555. Proof. vm_compute. reflexivity. Qed.
Example tenth_sum : fadd (of_rat 1 10) (of_rat 2 10) = 0x3fd3333333333334. Proof. vm_compute. reflexivity. Qed.
Example mul_max : fmul 0x7fefffffffffffff (of_Z 2) = INF. Proof. vm_compute. reflexivity. Qed.
Example min_subnormal : scaled 1 = 1 /\ of_rat 1 UNIT = 1. Proof. vm_compute. auto. Qed.

(** * Rounding lemmas *)

Lemma UNIT_pos : 0 < UNIT.
Proof. reflexivity. Qed.
Lemma unit_eqb a b : (a * UNIT =? b * UNIT) = (a =? b).
Proof. apply eq_true_iff_eq. rewrite !Z.eqb_eq. pose proof UNIT_pos. split; [apply Z.mul_reg_r; lia|congruence]. Qed.
Lemma unit_ltb a b : (a * UNIT <? b * UNIT) = (a <? b).
Proof. apply eq_true_iff_eq. rewrite !Z.ltb_lt. symmetry. apply Z.mul_lt_mono_pos_r, UNIT_pos. Qed.

Lemma rne_unfold n d :
  rne n d = if 2 * (n mod d) <? d then n / d else if d <? 2 * (n mod d) then n / d + 1
            else if Z.even (n / d) then n / d else n / d + 1.
Proof. unfold rne, Z.div, Z.modulo. now destruct (Z.div_eucl n d). Qed.

Lemma rne_bound n d : 0 < d -> 2 * Z.abs (rne n d * d - n) <= d.
Proof.
  intros Hd. rewrite rne_unfold.
  pose proof (Z.div_mod n d ltac:(lia)). pose proof (Z.mod_pos_bound n d Hd).
  repeat Zcase; nia.
Qed.

Lemma rne_exact n d : 0 < d -> n mod d = 0 -> rne n d = n / d.
Proof. intros Hd H. rewrite rne_unfold, H. destruct (2 * 0 <? d) eqn:E; Zbool; [reflexivity|lia]. Qed.

Lemma rne_mono_bounds n d lo hi : 0 < d -> lo * d <= n <= hi * d -> lo <= rne n d <= hi.
Proof. intros Hd H. pose proof (rne_bound n d Hd). split; nia. Qed.

(** The scaled magnitude of a pattern [k * 2^52 + m] is [m * 2^k]. *)
Lemma mag_scaled_encode k m :
  (k = 0 /\ 0 <= m <= 2 ^ 53) \/ (0 <= k /\ 2 ^ 52 <= m <= 2 ^ 53) ->
  mag_scaled (k * 2 ^ 52 + m) = m * 2 ^ k.
Proof.
  intros H. unfold mag_scaled.
  destruct (decide (m < 2 ^ 52)) as [Hlt|Hge]; [|destruct (decide (m = 2 ^ 53)) as [->|]].
  - assert (k = 0) as -> by lia. rewrite Z.mul_0_l, Z.add_0_l, Z.div_small, Z.mod_small by lia.
    change (0 =? 0) with true. cbn [negb]. lia.
  - change (2 ^ 53) with (2 * 2 ^ 52). rewrite <- Z.mul_add_distr_r, Z.div_mul, Z.mod_mul by lia.
    destruct (k + 2 =? 0) eqn:E; Zbool; [lia|].
    replace (k + 2 - 1) with (k + 1) by lia. rewrite Z.pow_add_r by lia. lia.
  - replace (k * 2 ^ 52 + m) with ((m - 2 ^ 52) + (k + 1) * 2 ^ 52) by lia.
    rewrite Z.div_add, Z.mod_add, Z.div_small, Z.mod_small by lia.
    destruct (0 + (k + 1) =? 0) eqn:E; Zbool; [lia|].
    replace (0 + (k + 1) - 1) with k by lia. f_equal. lia.
Qed.

(** Every finite magnitude has such a form. *)
Lemma mag_encode p : 0 <= p ->
  exists k m, p = k * 2 ^ 52 + m /\ mag_scaled p = m * 2 ^ k /\
    ((k = 0 /\ 0 <= m < 2 ^ 53) \/ (0 < k /\ 2 ^ 52 <= m < 2 ^ 53)).
Proof.
  intros Hp. pose proof (Z.div_mod p (2 ^ 52) ltac:(lia)) as E.
  pose proof (Z.mod_pos_bound p (2 ^ 52) ltac:(lia)) as B.
  assert (0 <= p / 2 ^ 52) by (apply Z.div_pos; lia).
  destruct (decide (p / 2 ^ 52 <= 1)) as [Hs|Hb].
  - exists 0, p. assert (0 <= p < 2 ^ 53) as Hp' by lia.
    assert (p = 0 * 2 ^ 52 + p) as Ep by lia. split_and!; [exact Ep| |lia].
    rewrite Ep at 1. apply mag_scaled_encode. lia.
  - exists (p / 2 ^ 52 - 1), (2 ^ 52 + p mod 2 ^ 52).
    assert (p = (p / 2 ^ 52 - 1) * 2 ^ 52 + (2 ^ 52 + p mod 2 ^ 52)) as Ep by lia.
    split_and!; [exact Ep| |lia]. rewrite Ep at 1. apply mag_scaled_encode. lia.
Qed.

(** The rounded magnitude: what is encoded and how far it is. *)
Lemma round_mag_spec n d :
  0 <= n -> 0 < d -> round_mag n d < INF ->
  exists k m, round_mag n d = k * 2 ^ 52 + m /\ mag_scaled (round_mag n d) = m * 2 ^ k /\
    0 <= k /\ 0 <= m <= 2 ^ 53 /\
    2 * Z.abs (m * 2 ^ k * d - n * UNIT) <= d * 2 ^ k /\
    (k = 0 \/ 2 ^ 52 * 2 ^ k * d <= n * UNIT).
Proof.
  intros Hn Hd Hlt. unfold round_mag, round_q in *.
  set (x := n * UNIT) in *. set (k := Z.max 0 (Z.log2 (x / d) - 52)) in *.
  assert (0 <= x) as Hx by (unfold x, UNIT; lia).
  assert (0 <= k) as Hk by lia.
  assert (0 < 2 ^ k) as Hpk by lia.
  assert (0 < d * 2 ^ k) as Hdk by lia.
  rewrite Z.min_l in * by lia.
  exists k, (rne x (d * 2 ^ k)).
  pose proof (rne_bound x (d * 2 ^ k) Hdk) as Hb.
  assert (0 <= x / d) as Hq by (apply Z.div_pos; lia).
  assert (x < d * 2 ^ k * 2 ^ 53) as Hhi.
  { assert (x / d < 2 ^ (k + 53)) as Hl.
    { destruct (decide (x / d = 0)) as [->|]; [lia|].
      pose proof (Z.log2_spec (x / d) ltac:(lia)) as [_ L].
      eapply Z.lt_le_trans; [exact L|]. apply Z.pow_le_mono_r; lia. }
    rewrite Z.pow_add_r in Hl by lia.
    pose proof (Z.div_mod x d ltac:(lia)). pose proof (Z.mod_pos_bound x d Hd). nia. }
  assert (k = 0 \/ 2 ^ 52 * 2 ^ k * d <= x) as Hlo.
  { destruct (decide (k = 0)) as [|Hk0]; [now left|right].
    assert (x / d <> 0) as Hne by (intros E; apply Hk0; unfold k; rewrite E; reflexivity).
    pose proof (Z.log2_spec (x / d) ltac:(lia)) as [L _].
    assert (k = Z.log2 (x / d) - 52) as Ek by lia.
    replace (Z.log2 (x / d)) with (52 + k) in L by lia. rewrite Z.pow_add_r in L by lia.
    pose proof (Z.mul_div_le x d Hd). nia. }
  assert (0 <= rne x (d * 2 ^ k) <= 2 ^ 53) as Hm by (apply rne_mono_bounds; lia).
  assert (k = 0 \/ 2 ^ 52 <= rne x (d * 2 ^ k)) as Hm'.
  { destruct Hlo as [|Hlo]; [now left|right].
    apply (rne_mono_bounds x (d * 2 ^ k) (2 ^ 52) (2 ^ 53)); [assumption|]. nia. }
  split_and!; [reflexivity| |lia|lia|lia| |assumption].
  - apply mag_scaled_encode. lia.
  - rewrite <- Z.mul_assoc, (Z.mul_comm (2 ^ k)). exact Hb.
Qed.

(** Rounding a representable magnitude is the identity. *)
Lemma round_mag_exact n d k m :
  0 < d -> n * UNIT = d * (m * 2 ^ k) ->
  (k = 0 /\ 0 <= m < 2 ^ 53) \/ (0 < k /\ 2 ^ 52 <= m < 2 ^ 53) ->
  round_mag n d = Z.min (k * 2 ^ 52 + m) INF.
Proof.
  intros Hd E Hkm. unfold round_mag, round_q. rewrite E.
  replace (d * (m * 2 ^ k) / d) with (m * 2 ^ k) by (rewrite (Z.mul_comm d), Z.div_mul; lia).
  assert (Z.max 0 (Z.log2 (m * 2 ^ k) - 52) = k) as ->.
  { destruct Hkm as [[-> Hm]|[Hk Hm]].
    - rewrite Z.mul_1_r. destruct (decide (m = 0)) as [->|]; [reflexivity|].
      pose proof (proj1 (Z.log2_lt_pow2 m 53 ltac:(lia)) ltac:(lia)). lia.
    - rewrite Z.log2_mul_pow2 by lia.
      rewrite (Z.log2_unique m 52) by lia. lia. }
  replace (d * (m * 2 ^ k)) with (m * (d * 2 ^ k)) by lia.
  assert (0 <= k) by lia.
  assert (0 < d * 2 ^ k) by lia.
  rewrite rne_exact by (rewrite ?Z.mod_mul; lia). rewrite Z.div_mul by lia. reflexivity.
Qed.

Lemma mag_scaled_mono p q : 0 <= p < q -> mag_scaled p < mag_scaled q.
Proof.
  intros H. destruct (mag_encode p ltac:(lia)) as (k & m & -> & -> & Hp).
  destruct (mag_encode q ltac:(lia)) as (k' & m' & -> & -> & Hq).
  assert (0 < 2 ^ k) by lia. assert (0 < 2 ^ k') by lia.
  destruct (decide (k < k')) as [Hlt|]; [|destruct (decide (k = k')) as [->|]; nia].
  replace k' with (k + 1 + (k' - k - 1)) by lia. rewrite !Z.pow_add_r by lia.
  change (2 ^ 1) with 2. assert (1 <= 2 ^ (k' - k - 1)) by lia.
  assert (2 ^ 52 * (2 ^ k * 2 * 1) <= m' * (2 ^ k * 2 * 2 ^ (k' - k - 1))); [|nia].
  apply Z.mul_le_mono_nonneg; [lia|lia|lia|]. apply Z.mul_le_mono_nonneg_l; lia.
Qed.

Lemma mag_scaled_nonneg p : 0 <= p -> 0 <= mag_scaled p.
Proof.
  intros H. destruct (mag_encode p H) as (k & m & _ & -> & Hk). assert (0 < 2 ^ k) by lia. nia.
Qed.

Lemma mag_scaled_0 : mag_scaled 0 = 0.
Proof. reflexivity. Qed.

Lemma mag_scaled_inj p q : 0 <= p -> 0 <= q -> mag_scaled p = mag_scaled q -> p = q.
Proof.
  intros Hp Hq E. destruct (Z.lt_trichotomy p q) as [H|[H|H]]; [|assumption|].
  - pose proof (mag_scaled_mono p q). lia.
  - pose proof (mag_scaled_mono q p). lia.
Qed.

(** A finite magnitude is the rounding of its own value. *)
Lemma round_mag_id p : 0 <= p < INF -> round_mag (mag_scaled p) UNIT = p.
Proof.
  intros H. destruct (mag_encode p ltac:(lia)) as (k & m & Ep & Es & Hk).
  rewrite (round_mag_exact _ UNIT k m); [lia|unfold UNIT; lia|rewrite Es; lia|lia].
Qed.

Lemma round_mag_0 d : 0 < d -> round_mag 0 d = 0.
Proof. intros. rewrite (round_mag_exact 0 d 0 0); [reflexivity|lia|lia|lia]. Qed.

Lemma round_mag_range n d : 0 <= n -> 0 < d -> 0 <= round_mag n d <= INF.
Proof.
  intros Hn Hd. destruct (decide (round_mag n d < INF)) as [Hlt|].
  - destruct (round_mag_spec n d Hn Hd Hlt) as (k & m & E & _ & Hk & Hm & _). rewrite E in *. lia.
  - unfold round_mag, round_q in *. unfold INF in *. lia.
Qed.

(** ** Scaling a quotient, and the quotients of the operations *)

Lemma rne_scale n d c : 0 < c -> 0 < d -> rne (n * c) (d * c) = rne n d.
Proof.
  intros Hc Hd. rewrite !rne_unfold, Z.div_mul_cancel_r, Z.mul_mod_distr_r by lia.
  assert ((2 * (n mod d * c) <? d * c) = (2 * (n mod d) <? d)) as ->
    by (apply eq_true_iff_eq; rewrite !Z.ltb_lt; nia).
  assert ((d * c <? 2 * (n mod d * c)) = (d <? 2 * (n mod d))) as ->
    by (apply eq_true_iff_eq; rewrite !Z.ltb_lt; nia).
  reflexivity.
Qed.

Lemma round_q_scale x d c : 0 < c -> 0 < d -> round_q (x * c) (d * c) = round_q x d.
Proof.
  intros Hc Hd. unfold round_q. rewrite Z.div_mul_cancel_r by lia.
  set (k := Z.max 0 _). replace (d * c * 2 ^ k) with (d * 2 ^ k * c) by lia.
  rewrite rne_scale by lia. reflexivity.
Qed.

Lemma of_units_ratio s x : of_units s x = of_ratio s x UNIT.
Proof.
  unfold of_units, of_ratio, round_mag. f_equal. pose proof UNIT_pos.
  rewrite <- (round_q_scale x 1 UNIT) by lia. now rewrite Z.mul_1_l.
Qed.

Lemma of_units_rat x : of_units (x <? 0) (Z.abs x) = of_rat x UNIT.
Proof. apply of_units_ratio. Qed.

Lemma product_ratio (s : bool) p :
  (if s then 2 ^ 63 else 0) + round_q p UNIT = of_ratio s p (UNIT * UNIT).
Proof.
  unfold of_ratio, round_mag. f_equal. pose proof UNIT_pos. symmetry. apply round_q_scale; lia.
Qed.

(** ** Patterns with a sign *)

Lemma of_ratio_mag s n d : 0 <= n -> 0 < d -> mag (of_ratio s n d) = round_mag n d.
Proof.
  intros Hn Hd. pose proof (round_mag_range n d Hn Hd). unfold of_ratio, mag, INF in *.
  destruct s.
  - rewrite Z.add_comm. replace (2 ^ 63) with (1 * 2 ^ 63) at 1 by reflexivity.
    rewrite Z.mod_add by lia. apply Z.mod_small. lia.
  - apply Z.mod_small. lia.
Qed.

Lemma of_ratio_sign s n d : 0 <= n -> 0 < d -> sign_bit (of_ratio s n d) = s.
Proof.
  intros Hn Hd. pose proof (round_mag_range n d Hn Hd). unfold of_ratio, sign_bit, INF in *.
  destruct s; [apply Z.leb_le|apply Z.leb_gt]; lia.
Qed.

Lemma of_ratio_u64 s n d : 0 <= n -> 0 < d -> in_u 64 (of_ratio s n d).
Proof.
  intros Hn Hd. pose proof (round_mag_range n d Hn Hd). unfold of_ratio, in_u, INF in *. destruct s; lia.
Qed.

(** A signed value that is exactly representable. *)
Lemma of_rat_exact n d k m :
  0 < d -> Z.abs n * UNIT = d * (m * 2 ^ k) ->
  (k = 0 /\ 0 <= m < 2 ^ 53) \/ (0 < k < 2046 /\ 2 ^ 52 <= m < 2 ^ 53) ->
  is_finite (of_rat n d) = true /\ scaled (of_rat n d) * d = n * UNIT.
Proof.
  intros Hd E Hkm. unfold of_rat, is_finite, scaled.
  rewrite of_ratio_mag, of_ratio_sign by lia.
  rewrite (round_mag_exact _ d k m Hd E) by lia.
  rewrite Z.min_l by (unfold INF; lia). rewrite mag_scaled_encode by lia.
  split; [apply Z.ltb_lt; unfold INF; lia|].
  destruct (n <? 0) eqn:S; Zbool; lia.
Qed.

(** Integers up to 2^53 are exact. *)
Lemma int_encode n : 0 < n <= 2 ^ 53 ->
  exists k m, n * UNIT = m * 2 ^ k /\ 0 < k < 2046 /\ 2 ^ 52 <= m < 2 ^ 53.
Proof.
  intros H. pose proof (Z.log2_spec n ltac:(lia)) as [L1 L2].
  set (l := Z.log2 n) in *. assert (0 <= l) by apply Z.log2_nonneg.
  assert (l <= 53) by (apply Z.log2_le_pow2 in L1; [pose proof (Z.log2_le_mono n (2 ^ 53)); rewrite Z.log2_pow2 in *; lia|lia]).
  destruct (decide (l = 53)) as [E|].
  - exists 1075, (2 ^ 52). assert (n = 2 ^ 53) as -> by (rewrite E in L1; lia).
    split; [reflexivity|lia].
  - exists (1022 + l), (n * 2 ^ (52 - l)). split_and!; try lia.
    + unfold UNIT. rewrite <- Z.mul_assoc, <- Z.pow_add_r by lia. do 2 f_equal. lia.
    + replace 52 with (l + (52 - l)) at 1 by lia. rewrite Z.pow_add_r by lia. nia.
    + replace 53 with (Z.succ l + (52 - l)) by lia. rewrite Z.pow_add_r by lia. nia.
Qed.

Lemma of_Z_exact n : Z.abs n <= 2 ^ 53 -> is_finite (of_Z n) = true /\ scaled (of_Z n) = n * UNIT.
Proof.
  intros H. unfold of_Z. destruct (decide (n = 0)) as [->|].
  - split; vm_compute; reflexivity.
  - destruct (int_encode (Z.abs n) ltac:(lia)) as (k & m & E & Hk & Hm).
    destruct (of_rat_exact n 1 k m) as [F S]; [lia|rewrite E; lia|lia|].
    split; [assumption|]. lia.
Qed.

Lemma to_Z_of_Z n : Z.abs n <= 2 ^ 53 -> to_Z (of_Z n) = n.
Proof.
  intros H. unfold to_Z. rewrite (proj2 (of_Z_exact n H)). apply Z.quot_mul. unfold UNIT. lia.
Qed.

Lemma floor_Z_of_Z n : Z.abs n <= 2 ^ 53 -> floor_Z (of_Z n) = n.
Proof.
  intros H. unfold floor_Z. rewrite (proj2 (of_Z_exact n H)). apply Z.div_mul. unfold UNIT. lia.
Qed.

(** Comparison of patterns is comparison of values on finite doubles. *)
Lemma key_scaled a b : key a < key b -> scaled a < scaled b.
Proof.
  unfold key, scaled. intros H.
  assert (0 <= mag a) by (unfold mag; apply Z.mod_pos_bound; lia).
  assert (0 <= mag b) by (unfold mag; apply Z.mod_pos_bound; lia).
  pose proof (mag_scaled_nonneg (mag a)). pose proof (mag_scaled_nonneg (mag b)).
  destruct (sign_bit a), (sign_bit b).
  - pose proof (mag_scaled_mono (mag b) (mag a)). lia.
  - destruct (decide (0 < mag a)); [pose proof (mag_scaled_mono 0 (mag a))|pose proof (mag_scaled_mono 0 (mag b))];
      rewrite mag_scaled_0 in *; lia.
  - lia.
  - apply mag_scaled_mono. lia.
Qed.

Lemma key_scaled_eq a b : key a = key b <-> scaled a = scaled b.
Proof.
  assert (forall a b, key a = key b -> scaled a = scaled b) as Hfwd.
  { clear. intros a b. unfold key, scaled.
    assert (0 <= mag a) by (unfold mag; apply Z.mod_pos_bound; lia).
    assert (0 <= mag b) by (unfold mag; apply Z.mod_pos_bound; lia).
    destruct (sign_bit a), (sign_bit b); intros E.
    - f_equal. f_equal. lia.
    - assert (mag a = 0) as -> by lia. assert (mag b = 0) as -> by lia. reflexivity.
    - assert (mag a = 0) as -> by lia. assert (mag b = 0) as -> by lia. reflexivity.
    - now f_equal. }
  split; [apply Hfwd|]. intros E.
  destruct (Z.lt_trichotomy (key a) (key b)) as [H|[H|H]]; [|assumption|];
    apply key_scaled in H; lia.
Qed.

Lemma is_finite_nan b : is_finite b = true -> is_nan b = false.
Proof. unfold is_finite, is_nan. intros. Zbool. apply Z.ltb_ge. lia. Qed.

Lemma feq_scaled a b : is_finite a = true -> is_finite b = true -> feq a b = (scaled a =? scaled b).
Proof.
  intros Ha Hb. unfold feq. rewrite !is_finite_nan by assumption. cbn [negb andb].
  apply eq_true_iff_eq. rewrite !Z.eqb_eq. apply key_scaled_eq.
Qed.

Lemma flt_scaled a b : is_finite a = true -> is_finite b = true -> flt a b = (scaled a <? scaled b).
Proof.
  intros Ha Hb. unfold flt. rewrite !is_finite_nan by assumption. cbn [negb andb].
  apply eq_true_iff_eq. rewrite !Z.ltb_lt. split; [apply key_scaled|]. intros E.
  destruct (Z.lt_trichotomy (key a) (key b)) as [H|[H|H]]; [assumption| |].
  - apply key_scaled_eq in H. lia.
  - apply key_scaled in H. lia.
Qed.

(** ** The relative error of a rounded quotient *)
Lemma of_rat_error n d :
  0 < d -> is_finite (of_rat n d) = true ->
  2 * Z.abs (scaled (of_rat n d) * d - n * UNIT) * 2 ^ 52 <= Z.abs n * UNIT \/
  2 * Z.abs (scaled (of_rat n d) * d - n * UNIT) <= d.
Proof.
  intros Hd Hf. unfold of_rat, is_finite, scaled in *.
  rewrite of_ratio_mag in * by lia. rewrite of_ratio_sign by lia. apply Z.ltb_lt in Hf.
  destruct (round_mag_spec (Z.abs n) d ltac:(lia) Hd Hf) as (k & m & _ & -> & Hk & Hm & Herr & Hlo).
  assert (Z.abs ((if n <? 0 then - (m * 2 ^ k) else m * 2 ^ k) * d - n * UNIT)
    = Z.abs (m * 2 ^ k * d - Z.abs n * UNIT)) as ->.
  { destruct (n <? 0) eqn:S; Zbool; [rewrite (Z.abs_neq n)|rewrite (Z.abs_eq n)]; lia. }
  destruct Hlo as [->|Hlo]; [right; lia|left].
  assert (0 < 2 ^ k) by lia. nia.
Qed.

#[export] Hint Rewrite of_ratio_mag of_ratio_sign using lia : double.

(** ** Patterns from keys *)

Lemma pattern_split b : in_u 64 b -> b = (if sign_bit b then 2 ^ 63 else 0) + mag b.
Proof.
  unfold in_u, sign_bit, mag. intros H.
  destruct (2 ^ 63 <=? b) eqn:E; Zbool.
  - replace b with ((b - 2 ^ 63) + 1 * 2 ^ 63) at 2 by lia.
    rewrite Z.mod_add, Z.mod_small by lia. lia.
  - rewrite Z.mod_small by lia. lia.
Qed.

Lemma mag_range b : 0 <= mag b < 2 ^ 63.
Proof. apply Z.mod_pos_bound. lia. Qed.

Lemma key_inj a b :
  in_u 64 a -> in_u 64 b -> key a = key b -> sign_bit a = sign_bit b \/ key a <> 0 -> a = b.
Proof.
  intros Ha Hb E Hs. rewrite (pattern_split a Ha), (pattern_split b Hb).
  pose proof (mag_range a). pose proof (mag_range b). unfold key in *.
  destruct (sign_bit a), (sign_bit b); lia || (destruct Hs; [discriminate|lia]).
Qed.

Lemma of_Z_u64 n : in_u 64 (of_Z n).
Proof. apply of_ratio_u64; lia. Qed.

Lemma of_Z_finite n : Z.abs n <= 2 ^ 53 -> is_finite (of_Z n) = true.
Proof. intros. now apply of_Z_exact. Qed.

Lemma of_Z_sign n : sign_bit (of_Z n) = (n <? 0).
Proof. apply of_ratio_sign; lia. Qed.

Lemma feq_of_Z m n : Z.abs m <= 2 ^ 53 -> Z.abs n <= 2 ^ 53 -> feq (of_Z m) (of_Z n) = (m =? n).
Proof.
  intros Hm Hn. rewrite feq_scaled by auto using of_Z_finite.
  rewrite !(fun k H => proj2 (of_Z_exact k H)) by assumption.
  apply unit_eqb.
Qed.

Lemma feq_refl a : feq a a = negb (is_nan a).
Proof. unfold feq. rewrite Z.eqb_refl. now destruct (is_nan a). Qed.

(** An integral double is the conversion of its integer part, up to the sign
    of zero. *)
Lemma feq_of_Z_eq n d :
  Z.abs n <= 2 ^ 53 -> in_u 64 d -> feq (of_Z n) d = true -> n <> 0 \/ sign_bit d = false -> of_Z n = d.
Proof.
  intros Hn Hd E Hs. unfold feq in E. Zbool.
  apply key_inj; [apply of_Z_u64|assumption|assumption|].
  rewrite of_Z_sign. destruct (decide (n = 0)) as [->|].
  - left. destruct Hs as [?|E1]; [lia|now rewrite E1].
  - right. intros E0. pose proof (proj1 (key_scaled_eq (of_Z n) 0) ltac:(rewrite E0; reflexivity)) as E1.
    rewrite (proj2 (of_Z_exact n Hn)) in E1. change (scaled 0) with 0 in E1. unfold UNIT in E1. lia.
Qed.

Lemma to_Z_of_feq n d :
  Z.abs n <= 2 ^ 53 -> feq (of_Z n) d = true -> is_finite d = true -> to_Z d = n.
Proof.
  intros Hn E Hf. rewrite feq_scaled in E by auto using of_Z_finite. Zbool.
  unfold to_Z. rewrite <- E, (proj2 (of_Z_exact n Hn)). apply Z.quot_mul. unfold UNIT. lia.
Qed.

(** A double equal to a finite one is finite. *)
Lemma feq_finite a d : is_finite a = true -> feq a d = true -> is_finite d = true.
Proof.
  unfold is_finite, feq, key. intros Hf E. Zbool. apply Z.ltb_lt.
  pose proof (mag_range a). pose proof (mag_range d). destruct (sign_bit a), (sign_bit d); unfold INF in *; lia.
Qed.

(** ** Integer parts are exact *)

Lemma mag_scaled_big p : 0 <= p -> 2 ^ 53 * UNIT <= mag_scaled p -> mag_scaled p mod UNIT = 0.
Proof.
  intros Hp H. destruct (mag_encode p Hp) as (k & m & _ & Es & Hk). rewrite Es in *.
  destruct (decide (1074 <= k)) as [Hge|].
  - unfold UNIT. replace k with ((k - 1074) + 1074) by lia.
    rewrite Z.pow_add_r, Z.mul_assoc by lia. apply Z.mod_mul. lia.
  - exfalso. assert (0 < UNIT) by (unfold UNIT; lia).
    assert (2 ^ k <= UNIT) by (apply Z.pow_le_mono_r; lia). nia.
Qed.

Lemma round_mag_int p :
  0 <= p < INF ->
  round_mag (mag_scaled p / UNIT) 1 < INF /\
  mag_scaled (round_mag (mag_scaled p / UNIT) 1) = mag_scaled p / UNIT * UNIT.
Proof.
  intros Hp. assert (0 < UNIT) as HU by (unfold UNIT; lia).
  pose proof (mag_scaled_nonneg p ltac:(lia)) as Hs.
  set (t := mag_scaled p / UNIT). assert (0 <= t) by (apply Z.div_pos; lia).
  destruct (decide (t <= 2 ^ 53)) as [Hle|Hgt].
  - pose proof (of_Z_exact t ltac:(lia)) as [F S]. unfold of_Z, of_rat in *.
    replace (t <? 0) with false in * by (symmetry; apply Z.ltb_ge; lia).
    rewrite Z.abs_eq in * by lia. unfold is_finite, scaled in *.
    rewrite of_ratio_mag, of_ratio_sign in * by lia. Zbool. auto.
  - assert (mag_scaled p = t * UNIT) as E.
    { pose proof (Z.div_mod (mag_scaled p) UNIT ltac:(lia)) as Hdm. fold t in Hdm.
      assert (2 ^ 53 * UNIT <= mag_scaled p) as Hb
        by (pose proof (Z.mul_div_le (mag_scaled p) UNIT HU) as Hdl; fold t in Hdl; nia).
      pose proof (mag_scaled_big p ltac:(lia) Hb). lia. }
    destruct (mag_encode p ltac:(lia)) as (k & m & Ep & Es & Hk).
    rewrite (round_mag_exact t 1 k m), Z.min_l by lia. rewrite <- Ep. split; [lia|assumption].
Qed.

(** The double that carries the integer part of [d], with a chosen sign. *)
Lemma of_ratio_int s p :
  0 <= p < INF ->
  is_finite (of_ratio s (mag_scaled p / UNIT) 1) = true /\
  scaled (of_ratio s (mag_scaled p / UNIT) 1) = (if s then -1 else 1) * (mag_scaled p / UNIT) * UNIT.
Proof.
  intros Hp. pose proof (round_mag_int p Hp) as [F S].
  assert (0 < UNIT) by (unfold UNIT; lia).
  pose proof (mag_scaled_nonneg p ltac:(lia)).
  assert (0 <= mag_scaled p / UNIT) by (apply Z.div_pos; lia).
  unfold is_finite, scaled. rewrite of_ratio_mag, of_ratio_sign by lia.
  rewrite S. split; [now apply Z.ltb_lt|]. destruct s; lia.
Qed.

Lemma scaled_neg_iff d : is_finite d = true -> flt d 0 = (scaled d <? 0).
Proof. intros. rewrite flt_scaled by (assumption || reflexivity). reflexivity. Qed.

Lemma to_Z_abs d : to_Z d = (if sign_bit d then -1 else 1) * (mag_scaled (mag d) / UNIT).
Proof.
  assert (0 < UNIT) by (unfold UNIT; lia).
  pose proof (mag_scaled_nonneg (mag d) ltac:(apply mag_range)).
  unfold to_Z, scaled. destruct (sign_bit d); [rewrite Z.quot_opp_l by lia|];
    rewrite Z.quot_div_nonneg by lia; lia.
Qed.

Lemma fabs_facts d : mag (fabs d) = mag d /\ sign_bit (fabs d) = false.
Proof.
  unfold fabs. pose proof (mag_range d). split.
  - unfold mag at 1. now apply Z.mod_small.
  - apply Z.leb_gt. lia.
Qed.

(** Multiplying a finite double by 1 or -1 only sets the sign. *)
Lemma fmul_unit (s : bool) b :
  is_finite b = true -> sign_bit b = false ->
  is_finite (fmul (of_Z (if s then -1 else 1)) b) = true /\
  scaled (fmul (of_Z (if s then -1 else 1)) b) = (if s then -1 else 1) * scaled b /\
  in_u 64 (fmul (of_Z (if s then -1 else 1)) b).
Proof.
  intros Hf Hb. assert (0 < UNIT) as HU by (unfold UNIT; lia).
  assert (is_finite (of_Z (if s then -1 else 1)) = true) as F1 by (destruct s; reflexivity).
  unfold fmul. rewrite !is_finite_nan by assumption. rewrite Hb.
  assert (sign_bit (of_Z (if s then -1 else 1)) = s) as -> by (destruct s; reflexivity).
  unfold is_inf. unfold is_finite in Hf, F1. Zbool.
  replace (mag (of_Z (if s then -1 else 1)) =? INF) with false by (symmetry; apply Z.eqb_neq; lia).
  replace (mag b =? INF) with false by (symmetry; apply Z.eqb_neq; lia). cbn [orb]. rewrite product_ratio.
  assert (mag_scaled (mag (of_Z (if s then -1 else 1))) = UNIT) as -> by (destruct s; vm_compute; reflexivity).
  pose proof (mag_range b). destruct (mag_encode (mag b) ltac:(lia)) as (k & m & Ep & Es & Hk).
  assert (round_mag (UNIT * mag_scaled (mag b)) (UNIT * UNIT) = mag b) as ER.
  { rewrite (round_mag_exact _ _ k m); [lia|lia|rewrite Es; lia|lia]. }
  assert (0 <= UNIT * mag_scaled (mag b)) by (pose proof (mag_scaled_nonneg (mag b)); nia).
  unfold is_finite, scaled. rewrite of_ratio_mag, of_ratio_sign by nia.
  rewrite ER, Hb, xorb_false_r. split_and!; [now apply Z.ltb_lt| |apply of_ratio_u64; nia]. destruct s; lia.
Qed.

(** * Integers carried by doubles

    [represents d n]: the double [d] is finite and its value is the integer [n]
    (either zero represents 0).  The arithmetic of such doubles is exact below
    2^53. *)
Definition represents (d n : Z) : Prop := is_finite d = true /\ scaled d = n * UNIT.

Lemma rep_of_Z n : Z.abs n <= 2 ^ 53 -> represents (of_Z n) n.
Proof. apply of_Z_exact. Qed.

Lemma rep_to_Z d n : represents d n -> to_Z d = n.
Proof. intros [_ E]. unfold to_Z. rewrite E. apply Z.quot_mul. pose proof UNIT_pos. lia. Qed.

Lemma rep_floor_Z d n : represents d n -> floor_Z d = n.
Proof. intros [_ E]. unfold floor_Z. rewrite E. apply Z.div_mul. pose proof UNIT_pos. lia. Qed.

Lemma rep_ne_inf d n : represents d n -> is_inf d = false.
Proof. intros [F _]. unfold is_finite, is_inf in *. Zbool. apply Z.eqb_neq. lia. Qed.

Lemma rep_ne_nan d n : represents d n -> is_nan d = false.
Proof. intros [F _]. now apply is_finite_nan. Qed.

Lemma rep_mag d n : represents d n -> mag_scaled (mag d) = Z.abs n * UNIT.
Proof.
  intros [_ E]. unfold scaled in E. pose proof UNIT_pos.
  pose proof (mag_scaled_nonneg (mag d) ltac:(apply mag_range)). destruct (sign_bit d); nia.
Qed.

(** An exactly representable integer quotient. *)
Lemma rep_of_rat n a d :
  0 < d -> a = n * d -> Z.abs n <= 2 ^ 53 -> represents (of_rat a d) n.
Proof.
  intros Hd -> Hn. destruct (decide (n = 0)) as [->|Hn0].
  - unfold of_rat. rewrite Z.mul_0_l. change (0 <? 0) with false. change (Z.abs 0) with 0.
    unfold of_ratio. rewrite round_mag_0 by assumption. split; reflexivity.
  - destruct (int_encode (Z.abs n) ltac:(lia)) as (k & m & E & Hk & Hm).
    destruct (of_rat_exact (n * d) d k m) as [F S]; [assumption| |lia|].
    + rewrite Z.abs_mul, (Z.abs_eq d) by lia. rewrite <- E. lia.
    + split; [assumption|]. nia.
Qed.

Lemma neg_facts d : in_u 64 d -> mag (neg d) = mag d /\ sign_bit (neg d) = negb (sign_bit d).
Proof.
  unfold in_u. intros Hd. unfold neg, mag, sign_bit. destruct (2 ^ 63 <=? d) eqn:E; Zbool.
  - replace (d mod 2 ^ 63) with ((d - 2 ^ 63 + 1 * 2 ^ 63) mod 2 ^ 63) by (f_equal; lia).
    rewrite Z.mod_add by lia. split; [reflexivity|]. apply Z.leb_gt. lia.
  - rewrite <- (Z.mul_1_l (2 ^ 63)) at 1. rewrite Z.mod_add by lia. split; [reflexivity|]. apply Z.leb_le. lia.
Qed.

Lemma rep_neg d n : represents d n -> in_u 64 d -> represents (neg d) (- n).
Proof.
  intros [F E] Hd. destruct (neg_facts d Hd) as [Em Es].
  unfold represents, is_finite, scaled in *. rewrite Em, Es. split; [assumption|].
  destruct (sign_bit d); cbn [negb] in *; lia.
Qed.

Lemma rep_fadd a b m n :
  represents a m -> represents b n -> Z.abs (m + n) <= 2 ^ 53 -> represents (fadd a b) (m + n).
Proof.
  intros Ha Hb Hs. unfold fadd.
  rewrite (rep_ne_nan a m), (rep_ne_nan b n), (rep_ne_inf a m), (rep_ne_inf b n) by assumption. cbn [orb].
  destruct Ha as [_ Ea], Hb as [_ Eb]. rewrite Ea, Eb, <- Z.mul_add_distr_r. pose proof UNIT_pos.
  cbv zeta. rewrite of_units_rat.
  destruct (_ =? 0) eqn:E0; Zbool.
  - assert (m + n = 0) as -> by nia. destruct (_ && _); split; reflexivity.
  - apply rep_of_rat; lia.
Qed.

Lemma rep_fsub a b m n :
  represents a m -> represents b n -> in_u 64 b -> Z.abs (m - n) <= 2 ^ 53 -> represents (fsub a b) (m - n).
Proof.
  intros Ha Hb Hu Hs. unfold fsub. rewrite (rep_ne_nan b n) by assumption.
  apply rep_fadd; [assumption|now apply rep_neg|lia].
Qed.

Lemma rep_of_ratio s n a d :
  0 < d -> 0 <= n <= 2 ^ 53 -> a = n * d -> represents (of_ratio s a d) (if s then - n else n).
Proof.
  intros Hd Hn ->. assert (0 <= n * d) by nia.
  assert (round_mag (n * d) d < INF /\ mag_scaled (round_mag (n * d) d) = n * UNIT) as [F E].
  { pose proof (rep_of_rat n (n * d) d Hd eq_refl ltac:(lia)) as [F E]. unfold of_rat in *.
    replace (n * d <? 0) with false in * by (symmetry; apply Z.ltb_ge; lia).
    rewrite Z.abs_eq in * by lia. unfold is_finite, scaled in *.
    rewrite of_ratio_mag, of_ratio_sign in * by lia. Zbool. auto. }
  unfold represents, is_finite, scaled. rewrite of_ratio_mag, of_ratio_sign by lia.
  rewrite E. split; [now apply Z.ltb_lt|]. destruct s; lia.
Qed.

Lemma rep_sign d n : represents d n -> 0 < n -> sign_bit d = false.
Proof.
  intros [_ E] Hn. unfold scaled in E. destruct (sign_bit d); [|reflexivity].
  pose proof UNIT_pos. pose proof (mag_scaled_nonneg (mag d) ltac:(apply mag_range)). nia.
Qed.

Lemma rep_fmul a b m n :
  represents a m -> represents b n -> Z.abs (m * n) <= 2 ^ 53 -> represents (fmul a b) (m * n).
Proof.
  intros Ha Hb Hs. unfold fmul.
  rewrite (rep_ne_nan a m), (rep_ne_nan b n), (rep_ne_inf a m), (rep_ne_inf b n) by assumption. cbn [orb].
  rewrite product_ratio, (rep_mag a m), (rep_mag b n) by assumption. pose proof UNIT_pos.
  assert (0 <= Z.abs m * Z.abs n) by nia.
  pose proof (rep_of_ratio (xorb (sign_bit a) (sign_bit b)) (Z.abs m * Z.abs n)
    (Z.abs m * UNIT * (Z.abs n * UNIT)) (UNIT * UNIT) ltac:(nia) ltac:(rewrite <- Z.abs_mul in *; lia) ltac:(lia)) as R.
  destruct Ha as [_ Ea], Hb as [_ Eb]. unfold scaled in Ea, Eb.
  pose proof (mag_scaled_nonneg (mag a) ltac:(apply mag_range)).
  pose proof (mag_scaled_nonneg (mag b) ltac:(apply mag_range)).
  replace (m * n) with (if xorb (sign_bit a) (sign_bit b) then - (Z.abs m * Z.abs n) else Z.abs m * Z.abs n); [exact R|].
  destruct (sign_bit a), (sign_bit b); cbn [xorb].
  - assert (m <= 0) by nia. assert (n <= 0) by nia. rewrite !Z.abs_neq by assumption. lia.
  - assert (m <= 0) by nia. assert (0 <= n) by nia. rewrite Z.abs_neq, Z.abs_eq by assumption. lia.
  - assert (0 <= m) by nia. assert (n <= 0) by nia. rewrite Z.abs_eq, Z.abs_neq by assumption. lia.
  - assert (0 <= m) by nia. assert (0 <= n) by nia. rewrite !Z.abs_eq by assumption. lia.
Qed.

Lemma rep_flt a b m n : represents a m -> represents b n -> flt a b = (m <? n).
Proof. intros [Fa Ea] [Fb Eb]. now rewrite flt_scaled, Ea, Eb, unit_ltb. Qed.

Lemma rep_feq a b m n : represents a m -> represents b n -> feq a b = (m =? n).
Proof. intros [Fa Ea] [Fb Eb]. now rewrite feq_scaled, Ea, Eb, unit_eqb. Qed.

Lemma rep_fle a b m n : represents a m -> represents b n -> fle a b = (m <=? n).
Proof.
  intros Ha Hb. pose proof (rep_flt b a n m Hb Ha) as E. unfold flt in E. unfold fle.
  rewrite (rep_ne_nan a m), (rep_ne_nan b n) in * by assumption. cbn [negb andb] in *.
  now rewrite Z.leb_antisym, E, Z.leb_antisym.
Qed.

#[export] Hint Resolve rep_of_Z rep_fadd rep_fsub rep_fmul of_Z_u64 : represents.

Lemma rep_ffloor d :
  in_u 64 d -> is_finite d = true -> Z.abs (floor_Z d) <= 2 ^ 53 -> represents (ffloor d) (floor_Z d).
Proof.
  intros Hu F Hb. unfold ffloor. rewrite F.
  pose proof (rep_of_ratio (sign_bit d) (Z.abs (floor_Z d)) (Z.abs (floor_Z d)) 1 ltac:(lia) ltac:(lia) ltac:(lia)) as R.
  replace (floor_Z d) with (if sign_bit d then - Z.abs (floor_Z d) else Z.abs (floor_Z d)) at 2; [exact R|].
  pose proof UNIT_pos. pose proof (mag_scaled_nonneg (mag d) ltac:(apply mag_range)).
  unfold floor_Z, scaled. destruct (sign_bit d).
  - assert (- mag_scaled (mag d) / UNIT <= 0) by (apply Z.div_le_upper_bound; lia). lia.
  - assert (0 <= mag_scaled (mag d) / UNIT) by (apply Z.div_pos; lia). lia.
Qed.

Lemma fdiv_of_ratio a b m n :
  represents a m -> represents b n -> 0 < n ->
  fdiv a b = of_ratio (sign_bit a) (Z.abs m * UNIT) (n * UNIT).
Proof.
  intros Ha Hb Hn. unfold fdiv.
  rewrite (rep_ne_nan a m), (rep_ne_nan b n), (rep_ne_inf a m), (rep_ne_inf b n) by assumption. cbn [orb].
  rewrite (rep_mag a m), (rep_mag b n), (rep_sign b n), xorb_false_r by assumption.
  assert (is_zero b = false) as ->.
  { apply Z.eqb_neq. intros E. pose proof (rep_mag b n Hb) as Em. rewrite E, mag_scaled_0 in Em.
    pose proof UNIT_pos. nia. }
  now rewrite (Z.abs_eq n) by lia.
Qed.

(** A quotient below 2^2000 does not overflow. *)
Lemma round_mag_finite n d L :
  0 <= n -> 0 < d -> 0 <= L <= 2000 + 53 -> n * UNIT < d * 2 ^ L -> round_mag n d < INF.
Proof.
  intros Hn Hd HL Hx. unfold round_mag, round_q. set (x := n * UNIT) in *.
  assert (0 <= x) as Hx0 by (unfold x; pose proof UNIT_pos; nia).
  set (k := Z.max 0 (Z.log2 (x / d) - 52)).
  assert (0 <= x / d < 2 ^ L) as Hq by (split; [apply Z.div_pos|apply Z.div_lt_upper_bound]; lia).
  assert (x / d < 2 ^ (k + 53)) as Hl2.
  { destruct (decide (x / d = 0)) as [->|]; [lia|].
    pose proof (Z.log2_spec (x / d) ltac:(lia)) as [_ L2].
    eapply Z.lt_le_trans; [exact L2|]. apply Z.pow_le_mono_r; lia. }
  assert (0 <= k <= 2001) as Hk.
  { split; [lia|]. destruct (decide (x / d = 0)) as [E0|]; [unfold k; rewrite E0; reflexivity || (simpl; lia)|].
    pose proof (proj1 (Z.log2_lt_pow2 (x / d) L ltac:(lia)) ltac:(lia)). lia. }
  apply Z.le_lt_trans with (2001 * 2 ^ 52 + 2 ^ 53); [|reflexivity].
  apply Z.le_trans with (k * 2 ^ 52 + rne x (d * 2 ^ k)); [apply Z.le_min_l|].
  assert (rne x (d * 2 ^ k) <= 2 ^ 53); [|lia].
  apply (rne_mono_bounds x (d * 2 ^ k) 0 (2 ^ 53)); [lia|]. split; [lia|].
  rewrite Z.pow_add_r in Hl2 by lia.
  pose proof (Z.div_mod x d ltac:(lia)). pose proof (Z.mod_pos_bound x d ltac:(lia)). nia.
Qed.

(** The magnitude of a rounded quotient of integers stays strictly between the
    integers around the quotient. *)
Lemma quotient_between m n :
  0 <= m < 2 ^ 53 -> 0 < n <= 2 ^ 53 ->
  let S := mag_scaled (round_mag (m * UNIT) (n * UNIT)) in
  round_mag (m * UNIT) (n * UNIT) < INF /\
  (m mod n = 0 -> S = m / n * UNIT) /\
  (m mod n <> 0 -> m / n * UNIT < S < (m / n + 1) * UNIT).
Proof.
  intros Hm Hn S. pose proof UNIT_pos as HU.
  assert (2 ^ 60 <= UNIT) as HU60 by (apply Z.pow_le_mono_r; lia).
  pose proof (Z.div_mod m n ltac:(lia)) as Hdm. pose proof (Z.mod_pos_bound m n ltac:(lia)) as Hr.
  assert (0 <= m / n) as Hq0 by (apply Z.div_pos; lia).
  assert (m / n < 2 ^ 53) as Hq1 by (apply Z.div_lt_upper_bound; nia).
  assert (round_mag (m * UNIT) (n * UNIT) < INF) as HF.
  { apply (round_mag_finite _ _ (53 + 1074)); [nia|nia|lia|]. rewrite Z.pow_add_r by lia. fold UNIT. nia. }
  split_and!; [assumption| |].
  - intros E. pose proof (rep_of_ratio false (m / n) (m * UNIT) (n * UNIT) ltac:(nia) ltac:(lia) ltac:(nia)) as R.
    apply rep_mag in R. rewrite of_ratio_mag in R by nia. fold S in R. lia.
  - intros E. destruct (round_mag_spec (m * UNIT) (n * UNIT) ltac:(nia) ltac:(nia) HF)
      as (k & p & _ & ES & Hk & _ & Herr & Hlo). fold S in ES. rewrite <- ES in Herr.
    assert (0 < 2 ^ k) as Hpk by lia.
    assert (2 * Z.abs (S * n - m * UNIT) <= n * 2 ^ k) as Herr2.
    { replace (S * (n * UNIT) - m * UNIT * UNIT) with ((S * n - m * UNIT) * UNIT) in Herr by lia.
      rewrite Z.abs_mul, (Z.abs_eq UNIT) in Herr by lia. nia. }
    assert (n * 2 ^ k < 2 * UNIT) as Hnk.
    { destruct Hlo as [->|Hlo]; [lia|]. 
      assert (2 ^ 52 * (n * 2 ^ k) <= m * UNIT) by nia. nia. }
    clear Herr Hlo. nia.
Qed.

Lemma floor_Z_fdiv a b m n :
  represents a m -> represents b n -> Z.abs m < 2 ^ 53 -> 0 < n <= 2 ^ 53 ->
  is_finite (fdiv a b) = true /\ floor_Z (fdiv a b) = m / n.
Proof.
  intros Ha Hb Hm Hn. pose proof UNIT_pos as HU.
  rewrite (fdiv_of_ratio a b m n) by (assumption || lia).
  destruct (quotient_between (Z.abs m) n ltac:(lia) Hn) as (F & H0 & H1).
  unfold is_finite, floor_Z, scaled. rewrite of_ratio_mag, of_ratio_sign by nia.
  split; [now apply Z.ltb_lt|]. set (S := mag_scaled _) in *.
  pose proof (Z.div_mod (Z.abs m) n ltac:(lia)). pose proof (Z.mod_pos_bound (Z.abs m) n ltac:(lia)).
  assert (S / UNIT = Z.abs m / n) as EF.
  { destruct (decide (Z.abs m mod n = 0)) as [E|E].
    - rewrite H0 by assumption. apply Z.div_mul. lia.
    - specialize (H1 E). symmetry. apply (Z.div_unique_pos _ _ _ (S - Z.abs m / n * UNIT)); lia. }
  destruct (sign_bit a) eqn:Sa.
  - assert (m <= 0) as Hneg by (destruct (decide (0 < m)) as [Hp|]; [rewrite (rep_sign a m) in Sa by assumption; discriminate|lia]).
    rewrite Z.abs_neq in * by lia. destruct (decide ((- m) mod n = 0)) as [E|E].
    + rewrite H0 by assumption. rewrite <- Z.mul_opp_l, Z.div_mul by lia.
      assert (m / n = - (- m / n)) as -> by (rewrite <- Z.div_opp_l_z by lia; f_equal; lia). reflexivity.
    + specialize (H1 E).
      assert (m / n = - (- m / n) - 1) as -> by (rewrite <- Z.div_opp_l_nz by lia; f_equal; lia).
      symmetry. apply (Z.div_unique_pos _ _ _ ((- m / n + 1) * UNIT - S)); lia.
  - assert (0 <= m) as Hpos; [|now rewrite EF, Z.abs_eq by lia].
    destruct Ha as [_ Ea]. unfold scaled in Ea. rewrite Sa in Ea.
    pose proof (mag_scaled_nonneg (mag a) ltac:(apply mag_range)). nia.
Qed.

(** A quotient of integers cut towards zero. *)
Lemma to_Z_fdiv a b m n :
  represents a m -> represents b n -> Z.abs m < 2 ^ 53 -> 0 < n <= 2 ^ 53 ->
  is_finite (fdiv a b) = true /\ to_Z (fdiv a b) = Z.quot m n.
Proof.
  intros Ha Hb Hm Hn. pose proof UNIT_pos as HU.
  split; [now apply (floor_Z_fdiv a b m n)|]. rewrite (fdiv_of_ratio a b m n) by (assumption || lia).
  destruct (quotient_between (Z.abs m) n ltac:(lia) Hn) as (F & H0 & H1).
  rewrite to_Z_abs, of_ratio_mag, of_ratio_sign by nia. set (S := mag_scaled _) in *.
  assert (S / UNIT = Z.abs m / n) as ->.
  { destruct (decide (Z.abs m mod n = 0)) as [E|E].
    - rewrite H0 by assumption. apply Z.div_mul. lia.
    - specialize (H1 E). symmetry. apply (Z.div_unique_pos _ _ _ (S - Z.abs m / n * UNIT)); lia. }
  destruct (sign_bit a) eqn:Sa.
  - assert (m <= 0) as Hneg by (destruct (decide (0 < m)) as [Hp|]; [rewrite (rep_sign a m) in Sa by assumption; discriminate|lia]).
    rewrite Z.abs_neq by lia. rewrite <- (Z.opp_involutive m) at 2. rewrite Z.quot_opp_l, Z.quot_div_nonneg by lia. lia.
  - assert (0 <= m) as Hpos; [|rewrite Z.abs_eq, Z.quot_div_nonneg by lia; lia].
    destruct Ha as [_ Ea]. unfold scaled in Ea. rewrite Sa in Ea.
    pose proof (mag_scaled_nonneg (mag a) ltac:(apply mag_range)). nia.
Qed.

Lemma fdiv_u64 a b m n : represents a m -> represents b n -> 0 < n -> in_u 64 (fdiv a b).
Proof.
  intros Ha Hb Hn. rewrite (fdiv_of_ratio a b m n) by assumption. pose proof UNIT_pos. apply of_ratio_u64; nia.
Qed.

(** [floor(a / b)] on integers is the floored quotient. *)
Lemma rep_floor_div a b m n :
  represents a m -> represents b n -> Z.abs m < 2 ^ 53 -> 0 < n <= 2 ^ 53 ->
  represents (ffloor (fdiv a b)) (m / n).
Proof.
  intros Ha Hb Hm Hn. destruct (floor_Z_fdiv a b m n Ha Hb Hm Hn) as [F E].
  rewrite <- E. apply rep_ffloor; [apply (fdiv_u64 a b m n); assumption || lia|assumption|].
  rewrite E. pose proof (Z.div_mod m n ltac:(lia)). pose proof (Z.mod_pos_bound m n ltac:(lia)). nia.
Qed.

(** * Division by the mean Gregorian year

    Both calendars of the engine estimate a year as [floor(days / 365.2425)].
    The quotient is not an integer quotient, so the estimate is only known up to
    a relative error; the bound below is what the correction step needs. *)
Definition MEAN_YEAR : Z := of_rat 3652425 10000.

Lemma mean_year_scaled :
  sign_bit MEAN_YEAR = false /\ is_finite MEAN_YEAR = true /\
  Z.abs (10000 * scaled MEAN_YEAR - 3652425 * UNIT) * 2 ^ 30 <= UNIT.
Proof. vm_compute. intuition congruence. Qed.

Lemma small_product e eta U :
  Z.abs e <= 2 ^ 27 -> Z.abs eta * 2 ^ 30 <= U -> Z.abs (e * eta) * 8 <= U.
Proof.
  intros He Heta. rewrite Z.abs_mul.
  assert (Z.abs e * Z.abs eta <= 2 ^ 27 * Z.abs eta) by (apply Z.mul_le_mono_nonneg_r; lia). lia.
Qed.

(** An abstract form of the estimate: [v] approximates [m * U^2 / c]. *)
Lemma estimate_bounds_c U c v m e :
  0 < U -> 365 * U < c < 366 * U -> Z.abs (v * c - m * U * U) * 2 ^ 19 <= U * U ->
  e * U <= v < (e + 1) * U ->
  e * c * 2 ^ 19 <= (m * 2 ^ 19 + 1) * U /\ (m * 2 ^ 19 - 1) * U <= (e + 1) * c * 2 ^ 19.
Proof.
  intros HU Hcb Hv He.
  assert (e * U * c <= v * c) by (apply Z.mul_le_mono_nonneg_r; lia).
  assert (v * c <= (e + 1) * U * c) by (apply Z.mul_le_mono_nonneg_r; lia).
  split; apply (Z.mul_le_mono_pos_r _ _ U); lia.
Qed.

Lemma estimate_bounds U c v m e :
  2 ^ 100 <= U -> Z.abs (10000 * c - 3652425 * U) * 2 ^ 30 <= U ->
  Z.abs m <= 2 ^ 33 -> Z.abs (v * c - m * U * U) * 2 ^ 19 <= U * U ->
  e = v / U ->
  e * 3652425 <= 10000 * m + 1 /\ 10000 * m - 1 <= (e + 1) * 3652425.
Proof.
  intros HU Hc Hm Hv ->. set (e := v / U).
  assert (e * U <= v < (e + 1) * U) as He.
  { pose proof (Z.div_mod v U ltac:(lia)) as Hd. pose proof (Z.mod_pos_bound v U ltac:(lia)) as Hr.
    fold e in Hd. lia. }
  clearbody e. assert (365 * U < c < 366 * U) as Hcb by lia.
  destruct (estimate_bounds_c U c v m e) as [Hup Hlo]; [lia|assumption..|]. clear Hv He v.
  assert (e <= 2 ^ 26) as He1.
  { destruct (decide (e <= 2 ^ 26)); [assumption|exfalso].
    assert (2 ^ 26 * c <= e * c) by (apply Z.mul_le_mono_nonneg_r; lia).
    assert (m * U <= 2 ^ 33 * U) by (apply Z.mul_le_mono_nonneg_r; lia). lia. }
  assert (- 2 ^ 26 <= e + 1) as He2.
  { destruct (decide (- 2 ^ 26 <= e + 1)); [assumption|exfalso].
    assert ((e + 1) * c <= - 2 ^ 26 * c) by (apply Z.mul_le_mono_nonneg_r; lia).
    assert (- 2 ^ 33 * U <= m * U) by (apply Z.mul_le_mono_nonneg_r; lia). lia. }
  assert (exists eta, 10000 * c = 3652425 * U + eta /\ Z.abs eta * 2 ^ 30 <= U) as (eta & Ec & Heta)
    by (exists (10000 * c - 3652425 * U); lia).
  pose proof (small_product e eta U ltac:(lia) Heta) as P1.
  pose proof (small_product (e + 1) eta U ltac:(lia) Heta) as P2.
  assert (e * (10000 * c) = e * 3652425 * U + e * eta) as E1 by (rewrite Ec; lia).
  assert ((e + 1) * (10000 * c) = (e + 1) * 3652425 * U + (e + 1) * eta) as E2 by (rewrite Ec; lia).
  clear Ec Hc Hcb Heta.
  assert (e * 3652425 * U < (10000 * m + 2) * U) as F1 by lia.
  assert ((10000 * m - 2) * U < (e + 1) * 3652425 * U) as F2 by lia.
  apply Z.mul_lt_mono_pos_r in F1; [|lia]. apply Z.mul_lt_mono_pos_r in F2; [|lia]. lia.
Qed.

Lemma floor_Z_mean_year a m :
  represents a m -> Z.abs m <= 2 ^ 33 ->
  let e := floor_Z (fdiv a MEAN_YEAR) in
  in_u 64 (fdiv a MEAN_YEAR) /\ is_finite (fdiv a MEAN_YEAR) = true /\
  e * 3652425 <= 10000 * m + 1 /\ 10000 * m - 1 <= (e + 1) * 3652425.
Proof.
  intros Ha Hm e. destruct mean_year_scaled as (Sc & Fc & Hc).
  assert (fdiv a MEAN_YEAR = of_ratio (sign_bit a) (Z.abs m * UNIT) (scaled MEAN_YEAR)) as E.
  { unfold fdiv. rewrite (rep_ne_nan a m), (rep_ne_inf a m), (is_finite_nan _ Fc), Sc, xorb_false_r by assumption.
    change (is_inf MEAN_YEAR) with false. change (is_zero MEAN_YEAR) with false. cbn [orb].
    rewrite (rep_mag a m) by assumption. unfold scaled. now rewrite Sc. }
  unfold e. rewrite E. clear e E Fc Sc. set (c := scaled MEAN_YEAR) in *. clearbody c.
  assert (2 ^ 100 <= UNIT) as HU by (apply Z.pow_le_mono_r; lia).
  assert (365 * UNIT < c < 366 * UNIT) as Hcb by lia.
  assert (0 <= Z.abs m * UNIT) as Hn0 by nia.
  assert (Z.abs m * UNIT <= 2 ^ 33 * UNIT) as Hn1 by nia.
  assert (round_mag (Z.abs m * UNIT) c < INF) as HF.
  { apply (round_mag_finite _ _ (34 + 1074)); [assumption|lia|lia|]. rewrite Z.pow_add_r by lia. fold UNIT. nia. }
  destruct (round_mag_spec _ c Hn0 ltac:(lia) HF) as (k & p & _ & ES & Hk & _ & Herr & Hlo).
  rewrite <- ES in Herr. set (S := mag_scaled (round_mag (Z.abs m * UNIT) c)) in *.
  assert (Z.abs (S * c - Z.abs m * UNIT * UNIT) * 2 ^ 19 <= UNIT * UNIT) as Hb.
  { assert (c * 2 ^ k * 2 ^ 19 <= UNIT * UNIT); [|lia].
    destruct Hlo as [->|Hlo]; [rewrite Z.pow_0_r; nia|].
    assert (Z.abs m * UNIT * UNIT <= 2 ^ 33 * UNIT * UNIT) by nia. lia. }
  split; [apply of_ratio_u64; lia|].
  split; [unfold is_finite; rewrite of_ratio_mag by lia; now apply Z.ltb_lt|].
  apply (estimate_bounds UNIT c ((if sign_bit a then -1 else 1) * S) m); [assumption..| |].
  - destruct Ha as [_ Ea]. unfold scaled in Ea.
    pose proof (mag_scaled_nonneg (mag a) ltac:(apply mag_range)).
    destruct (sign_bit a).
    + assert (m <= 0) by nia. rewrite (Z.abs_neq m) in Hb by assumption. lia.
    + assert (0 <= m) by nia. rewrite (Z.abs_eq m) in Hb by assumption. lia.
  - unfold floor_Z, scaled. rewrite of_ratio_mag, of_ratio_sign by lia. fold S. f_equal. destruct (sign_bit a); lia.
Qed.

(** * Exact integer arithmetic on patterns

    [rep d n]: a 64-bit pattern carrying the integer [n].  The operations below
    are the ones the calendar code composes. *)
Definition rep (d n : Z) : Prop := represents d n /\ in_u 64 d.

Lemma neg_u64 d : in_u 64 d -> in_u 64 (neg d).
Proof. unfold in_u, neg, sign_bit. intros H. destruct (2 ^ 63 <=? d) eqn:E; Zbool; lia. Qed.

Lemma fadd_u64 a b : in_u 64 a -> in_u 64 b -> in_u 64 (fadd a b).
Proof.
  intros Ha Hb. unfold fadd. cbv zeta. rewrite of_units_rat.
  repeat Zcase; try assumption; try (unfold in_u, NAN; lia).
  apply of_ratio_u64; [lia|apply UNIT_pos].
Qed.

Lemma r_of_Z n : Z.abs n <= 2 ^ 53 -> rep (of_Z n) n.
Proof. split; [now apply rep_of_Z|apply of_Z_u64]. Qed.

Lemma r_add a b m n : rep a m -> rep b n -> Z.abs (m + n) <= 2 ^ 53 -> rep (fadd a b) (m + n).
Proof. intros [Ha Ua] [Hb Ub] H. split; [now apply rep_fadd|now apply fadd_u64]. Qed.

Lemma r_sub a b m n : rep a m -> rep b n -> Z.abs (m - n) <= 2 ^ 53 -> rep (fsub a b) (m - n).
Proof.
  intros [Ha Ua] [Hb Ub] H. split; [now apply rep_fsub|].
  unfold fsub. rewrite (rep_ne_nan b n) by assumption. now apply fadd_u64, neg_u64.
Qed.

Lemma r_mul a b m n : rep a m -> rep b n -> Z.abs (m * n) <= 2 ^ 53 -> rep (fmul a b) (m * n).
Proof.
  intros [Ha Ua] [Hb Ub] H. split; [now apply rep_fmul|]. unfold fmul.
  rewrite (rep_ne_nan a m), (rep_ne_nan b n), (rep_ne_inf a m), (rep_ne_inf b n) by assumption. cbn [orb].
  rewrite product_ratio. pose proof UNIT_pos.
  pose proof (mag_scaled_nonneg (mag a) ltac:(apply mag_range)).
  pose proof (mag_scaled_nonneg (mag b) ltac:(apply mag_range)). apply of_ratio_u64; nia.
Qed.

Lemma ffloor_u64 d : in_u 64 d -> in_u 64 (ffloor d).
Proof. intros H. unfold ffloor. destruct (is_finite d); [|assumption]. apply of_ratio_u64; lia. Qed.

Lemma r_floor_div a b m n :
  rep a m -> rep b n -> Z.abs m < 2 ^ 53 -> 0 < n <= 2 ^ 53 -> rep (ffloor (fdiv a b)) (m / n).
Proof.
  intros [Ha Ua] [Hb Ub] Hm Hn. split; [now apply rep_floor_div|].
  apply ffloor_u64. apply (fdiv_u64 a b m n); assumption || lia.
Qed.

Lemma r_floor a m : rep a m -> Z.abs m <= 2 ^ 53 -> rep (ffloor a) m.
Proof.
  intros [Ha Ua] Hm. split; [|now apply ffloor_u64].
  rewrite <- (rep_floor_Z a m Ha) at 1. apply rep_ffloor; [assumption|apply Ha|].
  now rewrite (rep_floor_Z a m Ha).
Qed.

Lemma r_to_Z d n : rep d n -> to_Z d = n.
Proof. intros [H _]. now apply rep_to_Z. Qed.
Lemma r_finite d n : rep d n -> is_finite d = true.
Proof. intros [[H _] _]. exact H. Qed.
Lemma r_flt a b m n : rep a m -> rep b n -> flt a b = (m <? n).
Proof. intros [Ha _] [Hb _]. now apply rep_flt. Qed.
Lemma r_fle a b m n : rep a m -> rep b n -> fle a b = (m <=? n).
Proof. intros [Ha _] [Hb _]. now apply rep_fle. Qed.
Lemma r_feq a b m n : rep a m -> rep b n -> feq a b = (m =? n).
Proof. intros [Ha _] [Hb _]. now apply rep_feq. Qed.

(** The mean-year estimate of a day count. *)
Lemma r_mean_year a m :
  rep a m -> Z.abs m <= 2 ^ 33 ->
  exists e, rep (ffloor (fdiv a MEAN_YEAR)) e /\
    e * 3652425 <= 10000 * m + 1 /\ 10000 * m - 1 <= (e + 1) * 3652425.
Proof.
  intros [Ha Ua] Hm. destruct (floor_Z_mean_year a m Ha Hm) as (U & F & E1 & E2).
  exists (floor_Z (fdiv a MEAN_YEAR)). split; [|auto].
  split; [apply rep_ffloor; [assumption..|lia]|now apply ffloor_u64].
Qed.

(** [rep] discharges a goal [rep (expression) ?n] by following the expression. *)
Ltac rep_solve :=
  match goal with
  | |- rep (fadd _ _) _ => eapply r_add; [rep_solve|rep_solve|]
  | |- rep (fsub _ _) _ => eapply r_sub; [rep_solve|rep_solve|]
  | |- rep (fmul _ _) _ => eapply r_mul; [rep_solve|rep_solve|]
  | |- rep (ffloor (fdiv _ _)) _ => eapply r_floor_div; [rep_solve|rep_solve|..]
  | |- rep (of_Z _) _ => apply r_of_Z
  | |- _ => eassumption
  end.

(** The C remainder of integers. *)
Lemma r_fmod a b m n :
  rep a m -> rep b n -> Z.abs m <= 2 ^ 53 -> 0 < n <= 2 ^ 53 -> rep (ffmod a b) (Z.rem m n).
Proof.
  intros [Ha Ua] [Hb Ub] Hm Hn. pose proof UNIT_pos as HU. unfold ffmod.
  assert (is_zero b = false) as ->.
  { apply Z.eqb_neq. intros E. pose proof (rep_mag b n Hb) as Em. rewrite E, mag_scaled_0 in Em. nia. }
  rewrite (rep_ne_nan a m), (rep_ne_nan b n), (rep_ne_inf a m), (rep_ne_inf b n) by assumption. cbn [orb].
  rewrite (rep_mag a m), (rep_mag b n), (Z.abs_eq n), Z.mul_mod_distr_r, of_units_ratio by (assumption || lia).
  pose proof (Z.mod_pos_bound (Z.abs m) n ltac:(lia)) as Hr.
  pose proof (rep_of_ratio (sign_bit a) (Z.abs m mod n) (Z.abs m mod n * UNIT) UNIT HU ltac:(lia) eq_refl) as R.
  split; [|apply of_ratio_u64; nia].
  replace (Z.rem m n) with (if sign_bit a then - (Z.abs m mod n) else Z.abs m mod n); [exact R|].
  destruct Ha as [_ Ea]. unfold scaled in Ea.
  pose proof (mag_scaled_nonneg (mag a) ltac:(apply mag_range)).
  rewrite <- (Z.rem_mod_nonneg (Z.abs m) n) by lia.
  destruct (sign_bit a).
  - assert (m <= 0) by nia. rewrite Z.abs_neq, Z.rem_opp_l by lia. lia.
  - assert (0 <= m) by nia. now rewrite Z.abs_eq by assumption.
Qed.
