(* ===== verification/Float16.v ===== *)
(** Half and single precision ([util/Float16.h]): the conversions between
    binary16 and binary64 that [Float16Array], [DataView] and [Math.f16round] use,
    with the conversions between [float] and [double] of the language, which
    [Float32Array] uses.  Patterns are integers, as in [Double]; a format has [p]
    bits of mantissa, and the theorems say that each conversion is the correctly
    rounded one, and exact where the target is wider. *)
From Stdlib Require Import ZArith Lia Bool.
From stdpp Require Import base numbers list option decidable.
From S2P Require Import Prelude Double.

(** * Formats *)
Module Formats.

(** The magnitude of a pattern in units of its format, and the pattern nearest to
    [x / d] units, ties to even. *)
Definition pattern_scaled (p b : Z) : Z :=
  let e := b / 2 ^ p in
  let f := b mod 2 ^ p in
  if e =? 0 then f else (2 ^ p + f) * 2 ^ (e - 1).
Definition round_to (p inf x d : Z) : Z :=
  let k := Z.max 0 (Z.log2 (x / d) - p) in
  Z.min (k * 2 ^ p + rne x (d * 2 ^ k)) inf.

(** [double] is the format with 52 bits. *)
Lemma double_pattern b : mag_scaled b = pattern_scaled 52 b.
Proof. reflexivity. Qed.
Lemma double_round x d : round_q x d = round_to 52 INF x d.
Proof. reflexivity. Qed.

Lemma pattern_encode p k m : 0 <= p ->
  (k = 0 /\ 0 <= m < 2 ^ (p + 1)) \/ (0 <= k /\ 2 ^ p <= m < 2 ^ (p + 1)) ->
  pattern_scaled p (k * 2 ^ p + m) = m * 2 ^ k.
Proof.
  intros Hp H. unfold pattern_scaled. assert (0 < 2 ^ p) by lia.
  rewrite Z.pow_add_r in H by lia. change (2 ^ 1) with 2 in H.
  destruct (decide (m < 2 ^ p)) as [Hlt|Hge].
  - assert (k = 0) as -> by lia. rewrite Z.mul_0_l, Z.add_0_l, Z.div_small, Z.mod_small by lia. cbn. lia.
  - replace (k * 2 ^ p + m) with ((m - 2 ^ p) + (k + 1) * 2 ^ p) by lia.
    rewrite Z.div_add, Z.mod_add, Z.div_small, Z.mod_small by lia.
    destruct (0 + (k + 1) =? 0) eqn:E; Zbool; [lia|].
    replace (0 + (k + 1) - 1) with k by lia. f_equal. lia.
Qed.

Lemma pattern_decode p b : 0 <= p -> 0 <= b ->
  exists k m, b = k * 2 ^ p + m /\ pattern_scaled p b = m * 2 ^ k /\
    ((k = 0 /\ 0 <= m < 2 ^ (p + 1)) \/ (0 < k /\ 2 ^ p <= m < 2 ^ (p + 1))).
Proof.
  intros Hp Hb. assert (0 < 2 ^ p) by lia. assert (E2 : 2 ^ (p + 1) = 2 * 2 ^ p) by (rewrite Z.pow_add_r by lia; lia).
  pose proof (Z.div_mod b (2 ^ p) ltac:(lia)) as E. pose proof (Z.mod_pos_bound b (2 ^ p) ltac:(lia)) as B.
  assert (0 <= b / 2 ^ p) by (apply Z.div_pos; lia).
  destruct (decide (b / 2 ^ p <= 1)) as [Hs|Hbig].
  - exists 0, b. assert (b = 0 * 2 ^ p + b) as Ep by lia. assert (0 <= b < 2 ^ (p + 1)) by nia. split_and!; [exact Ep| |lia].
    rewrite Ep at 1. apply pattern_encode; lia.
  - exists (b / 2 ^ p - 1), (2 ^ p + b mod 2 ^ p).
    assert (b = (b / 2 ^ p - 1) * 2 ^ p + (2 ^ p + b mod 2 ^ p)) as Ep by lia.
    split_and!; [exact Ep| |lia]. rewrite Ep at 1. apply pattern_encode; lia.
Qed.

(** What is representable is rounded to itself. *)
Lemma round_exact p inf d k m : 0 <= p -> 0 < d ->
  (k = 0 /\ 0 <= m < 2 ^ (p + 1)) \/ (0 < k /\ 2 ^ p <= m < 2 ^ (p + 1)) ->
  round_to p inf (m * 2 ^ k * d) d = Z.min (k * 2 ^ p + m) inf.
Proof.
  intros Hp Hd H. unfold round_to. rewrite Z.div_mul by lia. assert (0 < 2 ^ p) by lia.
  assert (Z.max 0 (Z.log2 (m * 2 ^ k) - p) = k) as ->.
  { destruct H as [[-> H]|[Hk H]].
    - rewrite Z.mul_1_r. destruct (decide (m = 0)) as [->|]; [cbn; lia|].
      pose proof (proj1 (Z.log2_lt_pow2 m (p + 1) ltac:(lia)) ltac:(lia)). lia.
    - rewrite Z.log2_mul_pow2 by lia. rewrite (Z.log2_unique m p); lia. }
  assert (0 <= k) by lia. assert (0 < d * 2 ^ k) by lia.
  replace (m * 2 ^ k * d) with (m * (d * 2 ^ k)) by lia.
  rewrite rne_exact by (rewrite ?Z.mod_mul; lia). now rewrite Z.div_mul by lia.
Qed.

Lemma round_id p inf d b : 0 <= p -> 0 < d -> 0 <= b <= inf -> round_to p inf (pattern_scaled p b * d) d = b.
Proof.
  intros Hp Hd Hb. destruct (pattern_decode p b Hp ltac:(lia)) as (k & m & E & -> & H).
  rewrite round_exact by done. lia.
Qed.

(** A number of few bits keeps its value, in every format that is wide enough. *)
Lemma round_value p e d q j : 0 <= p -> 0 < d -> 1 < e -> 0 <= q < 2 ^ (p + 1) -> 0 <= j -> q * 2 ^ j < 2 ^ (e + p - 1) ->
  let b := round_to p (e * 2 ^ p) (q * 2 ^ j * d) d in 0 <= b < e * 2 ^ p /\ pattern_scaled p b = q * 2 ^ j.
Proof.
  intros Hp Hd He Hq Hj Hmax b. assert (Hpp : 0 < 2 ^ p) by lia. assert (E2 : 2 ^ (p + 1) = 2 * 2 ^ p) by (rewrite Z.pow_add_r by lia; lia).
  destruct (decide (q * 2 ^ j < 2 ^ (p + 1))) as [Hs|Hbig].
  - assert (Hb : b = q * 2 ^ j).
    { unfold b. replace (q * 2 ^ j * d) with (q * 2 ^ j * 2 ^ 0 * d) by lia. rewrite (round_exact p _ d 0); [nia|done|done|left; split; [done|nia]]. }
    rewrite Hb. split; [nia|]. replace (q * 2 ^ j) with (0 * 2 ^ p + q * 2 ^ j) at 1 by lia.
    rewrite pattern_encode; [lia|done|]. left. split; [done|nia].
  - assert (Hq0 : 0 < q) by nia. pose proof (Z.log2_spec q Hq0) as Hl. pose proof (Z.log2_nonneg q).
    set (l := Z.log2 q) in *.
    assert (Hlp : l <= p).
    { pose proof (proj1 (Z.log2_lt_pow2 q (p + 1) Hq0) ltac:(lia)). unfold l. lia. }
    set (k := l + j - p). assert (Hk : 0 < k).
    { unfold k. destruct (decide (l + j <= p)); [|lia]. assert (q * 2 ^ j < 2 ^ (Z.succ l + j)) by (rewrite Z.pow_add_r by lia; nia).
      assert (2 ^ (Z.succ l + j) <= 2 ^ (p + 1)) by (apply Z.pow_le_mono_r; lia). lia. }
    set (m := q * 2 ^ (p - l)).
    assert (Em : m * 2 ^ k = q * 2 ^ j).
    { unfold m, k. rewrite <- Z.mul_assoc, <- Z.pow_add_r by lia. do 2 f_equal. lia. }
    assert (Hm : 2 ^ p <= m < 2 ^ (p + 1)).
    { unfold m. assert (2 ^ p = 2 ^ l * 2 ^ (p - l)) as -> by (rewrite <- Z.pow_add_r by lia; f_equal; lia).
      assert (2 ^ (p + 1) = 2 ^ Z.succ l * 2 ^ (p - l)) as -> by (rewrite <- Z.pow_add_r by lia; f_equal; lia).
      assert (0 < 2 ^ (p - l)) by lia. nia. }
    assert (Hke : k + 1 < e).
    { destruct (decide (k + 1 < e)); [done|]. exfalso.
      assert (2 ^ (e + p - 1) <= 2 ^ (k + p)) by (apply Z.pow_le_mono_r; lia).
      rewrite Z.pow_add_r in H0 by lia. nia. }
    assert (Hb : b = k * 2 ^ p + m).
    { unfold b. rewrite <- Em, (round_exact p _ d k m) by auto. nia. }
    rewrite Hb. split; [nia|]. rewrite pattern_encode; [done|done|right; split; [lia|done]].
Qed.

Lemma rne_at_least n d lo : 0 < d -> lo * d <= n -> lo <= rne n d.
Proof. intros Hd H. pose proof (rne_bound n d Hd). nia. Qed.

Lemma rne_nearest n d z : 0 < d -> Z.abs (rne n d * d - n) <= Z.abs (z * d - n).
Proof.
  intros Hd. pose proof (rne_bound n d Hd). destruct (decide (z = rne n d)) as [->|]; [lia|].
  assert (d <= Z.abs (z * d - rne n d * d)) by nia. lia.
Qed.
(** No pattern is nearer than the one that rounding gives. *)
Lemma round_nearest p inf x d b : 0 <= p -> 0 < d -> 0 <= x -> 0 <= b -> round_to p inf x d < inf ->
  Z.abs (pattern_scaled p (round_to p inf x d) * d - x) <= Z.abs (pattern_scaled p b * d - x).
Proof.
  intros Hp Hd Hx Hb Hlt. unfold round_to in *. set (k := Z.max 0 (Z.log2 (x / d) - p)) in *.
  assert (Hk : 0 <= k) by lia. assert (Hpk : 0 < 2 ^ k) by lia. assert (Hpp : 0 < 2 ^ p) by lia.
  assert (E2 : 2 ^ (p + 1) = 2 * 2 ^ p) by (rewrite Z.pow_add_r by lia; lia).
  assert (Hxd : 0 <= x / d) by (apply Z.div_pos; lia).
  pose proof (Z.div_mod x d ltac:(lia)) as Ex. pose proof (Z.mod_pos_bound x d Hd) as Bx.
  assert (Hhi : x < 2 ^ (p + 1) * (d * 2 ^ k)).
  { assert (x / d < 2 ^ (k + p + 1)).
    { destruct (decide (x / d = 0)) as [->|]; [lia|]. pose proof (Z.log2_spec (x / d) ltac:(lia)) as [_ L].
      eapply Z.lt_le_trans; [exact L|]. apply Z.pow_le_mono_r; lia. }
    replace (k + p + 1) with (p + 1 + k) in H by lia. rewrite (Z.pow_add_r 2 (p + 1) k) in H by lia. nia. }
  assert (Hlo : k = 0 \/ 2 ^ p * (d * 2 ^ k) <= x).
  { destruct (decide (k = 0)) as [|Hk0]; [now left|right]. assert (Ek : Z.log2 (x / d) = p + k) by lia.
    assert (x / d <> 0) by (intros E; rewrite E in Ek; change (Z.log2 0) with 0 in Ek; lia).
    pose proof (Z.log2_spec (x / d) ltac:(lia)) as [L _]. rewrite Ek, Z.pow_add_r in L by lia. nia. }
  set (m := rne x (d * 2 ^ k)) in *. assert (Hdk : 0 < d * 2 ^ k) by lia.
  assert (Hm : 0 <= m <= 2 ^ (p + 1)) by (apply rne_mono_bounds; lia).
  assert (Hm2 : k = 0 \/ 2 ^ p <= m) by (destruct Hlo; [now left|right; now apply rne_at_least]).
  rewrite Z.min_l in * by lia.
  assert (Em : pattern_scaled p (k * 2 ^ p + m) = m * 2 ^ k).
  { destruct (decide (m = 2 ^ (p + 1))) as [E|]; [|apply pattern_encode; lia].
    replace (k * 2 ^ p + m) with ((k + 1) * 2 ^ p + 2 ^ p) by lia. rewrite pattern_encode by lia.
    rewrite E, E2, Z.pow_add_r by lia. lia. }
  rewrite Em. replace (m * 2 ^ k * d) with (m * (d * 2 ^ k)) by lia.
  destruct (pattern_decode p b Hp Hb) as (k' & m' & _ & -> & H').
  destruct (decide (k <= k')) as [Hge|Hless].
  - replace (m' * 2 ^ k' * d) with (m' * 2 ^ (k' - k) * (d * 2 ^ k)); [now apply rne_nearest|].
    replace k' with (k' - k + k) at 2 by lia. rewrite (Z.pow_add_r 2 (k' - k) k) by lia. lia.
  - destruct Hlo as [|Hlo]; [lia|]. pose proof (rne_nearest x (d * 2 ^ k) (2 ^ p) Hdk) as H. fold m in H.
    assert (m' * 2 ^ k' * d <= 2 ^ p * (d * 2 ^ k)); [|lia].
    assert (2 ^ k = 2 ^ (k - k' - 1) * 2 * 2 ^ k') as ->.
    { change 2 with (2 ^ 1) at 3. rewrite <- !Z.pow_add_r by lia. f_equal. lia. }
    assert (1 <= 2 ^ (k - k' - 1)) by lia. assert (0 < 2 ^ k') by lia. assert (m' <= 2 * 2 ^ p) by lia.
    assert (m' * (2 ^ k' * d) <= 2 * 2 ^ p * (2 ^ k' * d)) by (apply Z.mul_le_mono_nonneg_r; nia).
    assert (2 * 2 ^ p * (2 ^ k' * d) * 1 <= 2 * 2 ^ p * (2 ^ k' * d) * 2 ^ (k - k' - 1)) by (apply Z.mul_le_mono_nonneg_l; nia).
    lia.
Qed.

Lemma rne_shift c x d : 0 < d -> Z.even c = true -> rne (c * d + x) d = c + rne x d.
Proof.
  intros Hd Hc. rewrite !rne_unfold. rewrite (Z.add_comm (c * d)), Z.div_add, Z.mod_add by lia.
  rewrite Z.even_add, Hc. destruct (Z.even (x / d)); cbn [Bool.eqb]; repeat Zcase; lia.
Qed.

(** The way the code rounds: add half of a unit but one, and one if the integer
    part is odd. *)
Lemma rne_by_adding n h : 0 < h -> rne n (2 * h) = (n + (h - 1) + (n / (2 * h)) mod 2) / (2 * h).
Proof.
  intros Hh. rewrite rne_unfold. pose proof (Z.div_mod n (2 * h) ltac:(lia)) as E.
  pose proof (Z.mod_pos_bound n (2 * h) ltac:(lia)) as B. set (q := n / (2 * h)) in *. set (r := n mod (2 * h)) in *.
  rewrite Zmod_even. destruct (Z.even q) eqn:Eq; repeat Zcase;
    match goal with |- ?Q = ?N / ?D => apply (Z.div_unique N D Q (N - D * Q)); [left|]; lia end.
Qed.

End Formats.

(** * Single precision, as the language has it *)
Module Single.
Import Formats.

Definition INF32 : Z := 255 * 2 ^ 23.
Definition NAN32 : Z := 0x7fc00000.
Definition UNIT32 : Z := 2 ^ 149.
Definition sign32 (b : Z) : bool := 2 ^ 31 <=? b.
Definition mag32 (b : Z) : Z := b mod 2 ^ 31.
Definition signed32 (s : bool) (b : Z) : Z := (if s then 2 ^ 31 else 0) + b.

(** [a * b] and [a - b] in [float]; a result that is not a number is [NAN32]. *)
Definition mul32 (a b : Z) : Z :=
  let s := xorb (sign32 a) (sign32 b) in
  if (INF32 <? mag32 a) || (INF32 <? mag32 b) then NAN32
  else if (mag32 a =? INF32) || (mag32 b =? INF32) then
    (if (mag32 a =? 0) || (mag32 b =? 0) then NAN32 else signed32 s INF32)
  else signed32 s (round_to 23 INF32 (pattern_scaled 23 (mag32 a) * pattern_scaled 23 (mag32 b)) UNIT32).
Definition scaled32 (b : Z) : Z := if sign32 b then - pattern_scaled 23 (mag32 b) else pattern_scaled 23 (mag32 b).
Definition sub32 (a b : Z) : Z :=
  if (INF32 <? mag32 a) || (INF32 <? mag32 b) then NAN32
  else if mag32 a =? INF32 then (if (mag32 b =? INF32) && Bool.eqb (sign32 a) (sign32 b) then NAN32 else a)
  else if mag32 b =? INF32 then signed32 (negb (sign32 b)) INF32
  else let x := scaled32 a - scaled32 b in
       if x =? 0 then signed32 (sign32 a && negb (sign32 b)) 0
       else signed32 (x <? 0) (round_to 23 INF32 (Z.abs x) 1).

(** The conversions between [float] and [double]. *)
Definition widen (b : Z) : Z :=
  if INF32 <? mag32 b then NAN
  else if mag32 b =? INF32 then (if sign32 b then 2 ^ 63 else 0) + INF
  else of_ratio (sign32 b) (pattern_scaled 23 (mag32 b)) UNIT32.
Definition narrow (d : Z) : Z :=
  if is_nan d then NAN32
  else if is_inf d then signed32 (sign_bit d) INF32
  else signed32 (sign_bit d) (round_to 23 INF32 (mag_scaled (mag d)) (2 ^ 925)).

Example narrow_tenth : narrow (of_rat 1 10) = 0x3dcccccd /\ widen 0x3dcccccd = 0x3fb99999a0000000.
Proof. vm_compute. auto. Qed.
Example narrow_limits : narrow (of_Z (2 ^ 128)) = INF32 /\ narrow 1 = 0 /\ widen 1 = of_rat 1 (2 ^ 149).
Proof. vm_compute. auto. Qed.

End Single.

(** * [util/Float16.h] *)
Module Half.
Import Formats Single.

Definition convertFloat16ToFloat32 (h : Z) : Z :=
  let w := u32 (Z.shiftl h 16) in
  let sign := Z.land w 0x80000000 in
  let two_w := u32 (w + w) in
  let exp_offset := Z.shiftl 0xE0 23 in
  let exp_scale := 0x7800000 in
  let normalized_value := mul32 (u32 (Z.shiftr two_w 4 + exp_offset)) exp_scale in
  let magic_mask := Z.shiftl 126 23 in
  let magic_bias := narrow (of_rat 1 2) in
  let denormalized_value := sub32 (Z.lor (Z.shiftr two_w 17) magic_mask) magic_bias in
  let denormalized_cutoff := Z.shiftl 1 27 in
  Z.lor sign (if two_w <? denormalized_cutoff then denormalized_value else normalized_value).
Definition convertFloat16ToFloat64 (h : Z) : Z := widen (convertFloat16ToFloat32 h).

Definition kFP64MantissaBits : Z := 52.
Definition kFP64ExponentBias : Z := 1023.
Definition kFP64SignMask : Z := Z.shiftl 1 (11 + kFP64MantissaBits).
Definition kFP64Infinity : Z := Z.shiftl 2047 kFP64MantissaBits.
Definition kFP16InfinityAndNaNInfimum : Z := Z.shiftl (kFP64ExponentBias + 16) kFP64MantissaBits.
Definition kFP16MinExponent : Z := kFP64ExponentBias - 14.
Definition kFP16DenormalThreshold : Z := Z.shiftl kFP16MinExponent kFP64MantissaBits.
Definition kFP16MantissaBits : Z := 10.
Definition kFP16qNaN : Z := 0x7e00.
Definition kFP16Infinity : Z := 0x7c00.
Definition kFP64To16RoundingAddend : Z := Z.shiftl 1 (kFP64MantissaBits - kFP16MantissaBits - 1) - 1.
Definition kFP64To16RebiasExponentAndRound : Z :=
  u64 (u64 (Z.shiftl (u64 (15 - kFP64ExponentBias)) kFP64MantissaBits) + kFP64To16RoundingAddend).
Definition kFP64To16DenormalMagic : Z :=
  Z.shiftl (kFP16MinExponent + (kFP64MantissaBits - kFP16MantissaBits)) kFP64MantissaBits.

Definition convertFloat64ToFloat16 (value : Z) : Z :=
  let in_ := value in
  let sign := Z.land in_ kFP64SignMask in
  let in_ := Z.lxor in_ sign in
  let out :=
    if kFP16InfinityAndNaNInfimum <=? in_ then (if kFP64Infinity <? in_ then kFP16qNaN else kFP16Infinity)
    else if in_ <? kFP16DenormalThreshold then
      let temp := fadd in_ kFP64To16DenormalMagic in
      u16 (u64 (temp - kFP64To16DenormalMagic))
    else
      let mant_odd := Z.land (Z.shiftr in_ (kFP64MantissaBits - kFP16MantissaBits)) 1 in
      let in_ := u64 (in_ + kFP64To16RebiasExponentAndRound) in
      let in_ := u64 (in_ + mant_odd) in
      u16 (Z.shiftr in_ (kFP64MantissaBits - kFP16MantissaBits)) in
  u16 (Z.lor out (Z.shiftr sign 48)).

Example half_of_values :
  convertFloat64ToFloat16 <$> [of_Z 1; of_rat 1 10; of_Z 65504; of_Z 65520; of_Z 65519; of_rat 1 (2 ^ 24); of_rat 1 (2 ^ 25);
    of_rat 3 (2 ^ 25); of_rat (-1) 3; NAN; INF; 2 ^ 63]
  = [0x3c00; 0x2e66; 0x7bff; 0x7c00; 0x7bff; 1; 0; 2; 0xb555; 0x7e00; 0x7c00; 0x8000].
Proof. vm_compute. reflexivity. Qed.
Example half_to_values :
  convertFloat16ToFloat64 <$> [0x3c00; 0x7bff; 1; 0x3ff; 0x400; 0xb555; 0x7c00; 0xfc00; 0x8000; 0x7e00]
  = [of_Z 1; of_Z 65504; of_rat 1 (2 ^ 24); of_rat 1023 (2 ^ 24); of_rat 1 (2 ^ 14); of_rat (-1365) (2 ^ 12); INF; 2 ^ 63 + INF; 2 ^ 63; NAN].
Proof. vm_compute. reflexivity. Qed.

(** ** What the conversions should be *)
Definition INF16 : Z := 31 * 2 ^ 10.
Definition mag16 (h : Z) : Z := h mod 2 ^ 15.
Definition sign16 (h : Z) : bool := 2 ^ 15 <=? h.
(** A half-precision number in the units of [double]. *)
Definition scaled16 (h : Z) : Z := pattern_scaled 10 (mag16 h) * 2 ^ 1050.
Definition half_round (d : Z) : Z :=
  (if sign_bit d then 2 ^ 15 else 0) + (if is_nan d then kFP16qNaN else round_to 10 INF16 (mag_scaled (mag d)) (2 ^ 1050)).

(** ** From [double] *)
Lemma clear_sign d : in_u 64 d ->
  Z.land d kFP64SignMask = (if sign_bit d then 2 ^ 63 else 0) /\ Z.lxor d (Z.land d kFP64SignMask) = mag d.
Proof.
  intros Hd. assert (E : Z.land d kFP64SignMask = d - d mod 2 ^ 63) by (apply (land_high_mask 64); [lia|done|reflexivity]).
  assert (Hs : d - d mod 2 ^ 63 = if sign_bit d then 2 ^ 63 else 0).
  { rewrite (pattern_split d Hd) at 1. fold (mag d). lia. }
  split; [now rewrite E|].
  transitivity (d - Z.land d kFP64SignMask); [|rewrite E; unfold mag; lia]. symmetry.
  rewrite Z.sub_nocarry_ldiff.
  - apply Z.bits_inj'. intros n Hn. rewrite Z.ldiff_spec, Z.lxor_spec, Z.land_spec. destruct (Z.testbit d n), (Z.testbit kFP64SignMask n); done.
  - apply Z.bits_inj'. intros n Hn. rewrite Z.ldiff_spec, Z.land_spec, Z.bits_0. destruct (Z.testbit d n), (Z.testbit kFP64SignMask n); done.
Qed.

(** The three ranges of a magnitude. *)
Lemma half_large m : kFP16InfinityAndNaNInfimum <= m <= INF -> round_to 10 INF16 (mag_scaled m) (2 ^ 1050) = kFP16Infinity.
Proof.
  intros Hm. unfold round_to.
  assert (Hx : 2 ^ 40 * 2 ^ 1050 <= mag_scaled m).
  { change (2 ^ 40 * 2 ^ 1050) with (mag_scaled kFP16InfinityAndNaNInfimum).
    destruct (decide (m = kFP16InfinityAndNaNInfimum)) as [->|]; [done|]. apply Z.lt_le_incl, mag_scaled_mono.
    assert (kFP16InfinityAndNaNInfimum = 1039 * 2 ^ 52) as EK by reflexivity. lia. }
  set (x := mag_scaled m) in *. clearbody x. assert (Hq : 2 ^ 40 <= x / 2 ^ 1050) by (apply Z.div_le_lower_bound; lia).
  pose proof (Z.log2_le_mono _ _ Hq) as Hl. rewrite Z.log2_pow2 in Hl by lia.
  set (l := Z.log2 (x / 2 ^ 1050)) in *. rewrite Z.max_r by lia.
  assert (Hr : 2 ^ 10 <= rne x (2 ^ 1050 * 2 ^ (l - 10))).
  { apply rne_at_least; [lia|].
    pose proof (Z.log2_spec (x / 2 ^ 1050) ltac:(lia)) as [H1 _]. fold l in H1.
    pose proof (Z.mul_div_le x (2 ^ 1050) ltac:(lia)).
    assert (2 ^ 10 * (2 ^ 1050 * 2 ^ (l - 10)) = 2 ^ 1050 * 2 ^ l) as ->; [|nia].
    rewrite Z.mul_assoc, (Z.mul_comm (2 ^ 10)), <- Z.mul_assoc, <- Z.pow_add_r by lia. do 2 f_equal. lia. }
  unfold INF16, kFP16Infinity. lia.
Qed.

Lemma half_normal m : kFP16DenormalThreshold <= m < kFP16InfinityAndNaNInfimum ->
  u16 (Z.shiftr (u64 (u64 (m + kFP64To16RebiasExponentAndRound) + Z.land (Z.shiftr m 42) 1)) 42) =
  round_to 10 INF16 (mag_scaled m) (2 ^ 1050).
Proof.
  assert (kFP16InfinityAndNaNInfimum = 1039 * 2 ^ 52) as -> by reflexivity.
  assert (kFP16DenormalThreshold = 1009 * 2 ^ 52) as -> by reflexivity.
  assert (kFP64To16RebiasExponentAndRound = 2 ^ 64 - 1008 * 2 ^ 52 + (2 ^ 41 - 1)) as -> by reflexivity.
  intros Hm. pose proof (Z.div_mod m (2 ^ 52) ltac:(lia)) as E. pose proof (Z.mod_pos_bound m (2 ^ 52) ltac:(lia)) as B.
  set (e := m / 2 ^ 52) in *. set (f := m mod 2 ^ 52) in *. assert (He : 1009 <= e <= 1038) by lia.
  assert (Hodd : Z.land (Z.shiftr m 42) 1 = (f / 2 ^ 42) mod 2).
  { rewrite (land_low_mask 1 1) by lia. rewrite Z.shiftr_div_pow2 by lia. change (2 ^ 1) with 2.
    replace m with (f + e * 2 ^ 10 * 2 ^ 42) by lia. rewrite Z.div_add by lia.
    replace (e * 2 ^ 10) with (e * 2 ^ 9 * 2) by lia. now rewrite Z.mod_add by lia. }
  pose proof (rne_by_adding f (2 ^ 41) ltac:(lia)) as Hr. change (2 * 2 ^ 41) with (2 ^ 42) in Hr.
  rewrite Hodd. pose proof (Z.mod_pos_bound (f / 2 ^ 42) 2 ltac:(lia)) as Bo. set (o := (f / 2 ^ 42) mod 2) in *.
  assert (Hu : u64 (u64 (m + (2 ^ 64 - 1008 * 2 ^ 52 + (2 ^ 41 - 1))) + o) = (e - 1008) * 2 ^ 52 + (f + (2 ^ 41 - 1) + o)).
  { assert (u64 (m + (2 ^ 64 - 1008 * 2 ^ 52 + (2 ^ 41 - 1))) = (e - 1008) * 2 ^ 52 + f + (2 ^ 41 - 1)) as ->.
    - replace (m + (2 ^ 64 - 1008 * 2 ^ 52 + (2 ^ 41 - 1))) with ((e - 1008) * 2 ^ 52 + f + (2 ^ 41 - 1) + 1 * 2 ^ 64) by lia.
      rewrite wrapu_add_mult. apply wrapu_id. unfold in_u. lia.
    - rewrite wrapu_id by (unfold in_u; lia). lia. }
  rewrite Hu, Z.shiftr_div_pow2 by lia.
  replace ((e - 1008) * 2 ^ 52 + (f + (2 ^ 41 - 1) + o)) with (f + (2 ^ 41 - 1) + o + (e - 1008) * 2 ^ 10 * 2 ^ 42) by lia.
  rewrite Z.div_add, <- Hr by lia.
  assert (Hr' : 0 <= rne f (2 ^ 42) <= 2 ^ 10) by (apply rne_mono_bounds; lia).
  rewrite wrapu_id by (unfold in_u; lia).
  assert (Em : mag_scaled m = (2 ^ 52 + f) * 2 ^ (e - 1)).
  { unfold mag_scaled. fold e f. destruct (e =? 0) eqn:E0; Zbool; [lia|done]. }
  assert (Ed : (2 ^ 52 + f) * 2 ^ (e - 1) = (2 ^ 52 + f) * 2 ^ (e - 1009) * 2 ^ 1008).
  { rewrite <- Z.mul_assoc, <- Z.pow_add_r by lia. do 2 f_equal. lia. }
  unfold round_to. rewrite Em.
  assert (Eq : (2 ^ 52 + f) * 2 ^ (e - 1) / 2 ^ 1050 = (2 ^ 52 + f) * 2 ^ (e - 1009) / 2 ^ 42).
  { rewrite Ed. change (2 ^ 1050) with (2 ^ 42 * 2 ^ 1008). now rewrite Z.div_mul_cancel_r by lia. }
  assert (El : Z.log2 ((2 ^ 52 + f) * 2 ^ (e - 1) / 2 ^ 1050) = e - 999).
  { rewrite Eq, <- Z.shiftr_div_pow2, Z.log2_shiftr by lia. rewrite Z.log2_mul_pow2 by lia.
    rewrite (Z.log2_unique (2 ^ 52 + f) 52) by lia. lia. }
  rewrite El, Z.max_r by lia. replace (e - 999 - 10) with (e - 1009) by lia.
  rewrite Ed. change (2 ^ 1050) with (2 ^ 42 * 2 ^ 1008).
  replace ((2 ^ 52 + f) * 2 ^ (e - 1009) * 2 ^ 1008) with ((2 ^ 52 + f) * (2 ^ (e - 1009) * 2 ^ 1008)) by lia.
  replace (2 ^ 42 * 2 ^ 1008 * 2 ^ (e - 1009)) with (2 ^ 42 * (2 ^ (e - 1009) * 2 ^ 1008)) by lia.
  rewrite rne_scale by lia. change (2 ^ 52) with (2 ^ 10 * 2 ^ 42) at 1. rewrite rne_shift by (lia || done).
  unfold INF16. lia.
Qed.

Lemma magic_facts : kFP64To16DenormalMagic = 1050 * 2 ^ 52 + 2 ^ 52 /\ scaled kFP64To16DenormalMagic = 2 ^ 52 * 2 ^ 1050 /\
  is_finite kFP64To16DenormalMagic = true.
Proof. vm_compute. auto. Qed.
Lemma half_subnormal m : 0 <= m < kFP16DenormalThreshold ->
  u16 (u64 (fadd m kFP64To16DenormalMagic - kFP64To16DenormalMagic)) = round_to 10 INF16 (mag_scaled m) (2 ^ 1050).
Proof.
  assert (kFP16DenormalThreshold = 1009 * 2 ^ 52) as -> by reflexivity. intros Hm.
  destruct magic_facts as (E1 & E2 & E3).
  assert (Hx : 0 <= mag_scaled m < 2 ^ 10 * 2 ^ 1050).
  { split; [apply mag_scaled_nonneg; lia|]. change (2 ^ 10 * 2 ^ 1050) with (mag_scaled (1009 * 2 ^ 52)). apply mag_scaled_mono. lia. }
  assert (Em : mag m = m) by (unfold mag; rewrite Z.mod_small; lia).
  assert (Es : sign_bit m = false) by (unfold sign_bit; apply Z.leb_gt; lia).
  assert (Ef : is_finite m = true) by (unfold is_finite, INF; rewrite Em; apply Z.ltb_lt; lia).
  assert (Esc : scaled m = mag_scaled m) by (unfold scaled; now rewrite Es, Em).
  set (x := mag_scaled m) in *. clearbody x.
  assert (Hinf : forall b, is_finite b = true -> is_inf b = false).
  { intros b. unfold is_finite, is_inf. intros H. Zbool. apply Z.eqb_neq. lia. }
  unfold fadd. rewrite (is_finite_nan m Ef), (is_finite_nan _ E3), (Hinf m Ef), (Hinf _ E3). cbn [orb].
  rewrite Esc, E2. rewrite (proj2 (Z.eqb_neq _ 0)) by lia. cbv zeta. rewrite (proj2 (Z.ltb_ge _ 0)) by lia. rewrite Z.abs_eq by lia.
  unfold of_units. rewrite E1. rewrite Z.add_0_l.
  assert (Hr : 0 <= rne x (2 ^ 1050) <= 2 ^ 10) by (apply rne_mono_bounds; lia).
  assert (Hq : round_q (x + 2 ^ 52 * 2 ^ 1050) 1 = 1050 * 2 ^ 52 + (2 ^ 52 + rne x (2 ^ 1050))).
  { unfold round_q. rewrite Z.div_1_r. rewrite (Z.log2_unique (x + 2 ^ 52 * 2 ^ 1050) 1102) by lia.
    change (Z.max 0 (1102 - 52)) with 1050. rewrite Z.mul_1_l, (Z.add_comm x), rne_shift by (lia || done). unfold INF. lia. }
  rewrite Hq. replace (1050 * 2 ^ 52 + (2 ^ 52 + rne x (2 ^ 1050)) - (1050 * 2 ^ 52 + 2 ^ 52)) with (rne x (2 ^ 1050)) by lia.
  rewrite !wrapu_id by (unfold in_u; rewrite ?wrapu_id; unfold in_u; lia).
  unfold round_to. assert (Hq2 : 0 <= x / 2 ^ 1050 < 2 ^ 10) by (split; [apply Z.div_pos; lia|apply Z.div_lt_upper_bound; lia]).
  assert (Hl : Z.log2 (x / 2 ^ 1050) < 10).
  { destruct (decide (x / 2 ^ 1050 = 0)) as [->|]; [done|]. apply Z.log2_lt_pow2; lia. }
  rewrite Z.max_l by lia. rewrite Z.mul_1_r. unfold INF16. lia.
Qed.

Lemma round16_range x : 0 <= x -> 0 <= round_to 10 INF16 x (2 ^ 1050) <= INF16.
Proof.
  intros Hx. unfold round_to. set (k := Z.max 0 _). assert (0 <= k) by lia. assert (0 < 2 ^ k) by lia.
  assert (0 <= rne x (2 ^ 1050 * 2 ^ k)) by (apply rne_at_least; lia). unfold INF16. lia.
Qed.

Lemma half_sign (s : bool) out : 0 <= out < 2 ^ 15 ->
  u16 (Z.lor out (Z.shiftr (if s then 2 ^ 63 else 0) 48)) = (if s then 2 ^ 15 else 0) + out.
Proof.
  intros H. destruct s.
  - change (Z.shiftr (2 ^ 63) 48) with (2 ^ 15). rewrite Z.lor_comm, (lor_disjoint 15) by (lia || done). apply wrapu_id. unfold in_u. lia.
  - change (Z.shiftr 0 48) with 0. rewrite Z.lor_0_r. rewrite wrapu_id by (unfold in_u; lia). lia.
Qed.

Lemma convertFloat64ToFloat16_round d : in_u 64 d -> convertFloat64ToFloat16 d = half_round d.
Proof.
  intros Hd. unfold convertFloat64ToFloat16. cbv zeta. destruct (clear_sign d Hd) as [Es Ex]. rewrite Ex, Es.
  pose proof (mag_range d) as Hm. unfold half_round.
  assert (HI : kFP64Infinity = INF) by reflexivity.
  destruct (kFP16InfinityAndNaNInfimum <=? mag d) eqn:E1; Zbool.
  - rewrite HI. fold (is_nan d). destruct (is_nan d) eqn:En; [now apply half_sign|].
    unfold is_nan in En. Zbool. rewrite half_large by lia. now apply half_sign.
  - assert (Hnan : is_nan d = false).
    { unfold is_nan. apply Z.ltb_ge. assert (kFP16InfinityAndNaNInfimum = 1039 * 2 ^ 52) by reflexivity. unfold INF. lia. }
    rewrite Hnan. pose proof (round16_range (mag_scaled (mag d)) ltac:(apply mag_scaled_nonneg; lia)) as Hr.
    assert (HI16 : INF16 = 31744) by reflexivity.
    destruct (mag d <? kFP16DenormalThreshold) eqn:E2; Zbool.
    + rewrite half_subnormal by lia. apply half_sign. lia.
    + change (kFP64MantissaBits - kFP16MantissaBits) with 42. rewrite half_normal by lia. apply half_sign. lia.
Qed.

(** ** To [double] *)
Lemma sub32_half m : 0 <= m < 2 ^ 10 -> exists r, sub32 (126 * 2 ^ 23 + m) (126 * 2 ^ 23) = r /\ 0 <= r < INF32 /\
  pattern_scaled 23 r = m * 2 ^ 125.
Proof.
  intros Hm. assert (HI : INF32 = 255 * 2 ^ 23) by reflexivity.
  assert (Hmag : forall b, 0 <= b < 2 ^ 31 -> mag32 b = b) by (intros; unfold mag32; now apply Z.mod_small).
  assert (Hsgn : forall b, b < 2 ^ 31 -> sign32 b = false) by (intros; unfold sign32; now apply Z.leb_gt).
  assert (Ea : pattern_scaled 23 (126 * 2 ^ 23 + m) = (2 ^ 23 + m) * 2 ^ 125).
  { replace (126 * 2 ^ 23 + m) with (125 * 2 ^ 23 + (2 ^ 23 + m)) by lia. apply pattern_encode; [done|right; lia]. }
  assert (Eb : pattern_scaled 23 (126 * 2 ^ 23) = 2 ^ 23 * 2 ^ 125) by reflexivity.
  unfold sub32, scaled32. rewrite !Hmag, !Hsgn, Ea, Eb by lia.
  rewrite !(proj2 (Z.ltb_ge INF32 _)), !(proj2 (Z.eqb_neq _ INF32)) by lia. cbn [orb andb].
  replace ((2 ^ 23 + m) * 2 ^ 125 - 2 ^ 23 * 2 ^ 125) with (m * 2 ^ 125) by lia. cbv zeta.
  destruct (m * 2 ^ 125 =? 0) eqn:E; Zbool.
  - exists 0. split; [done|]. split; [lia|]. rewrite E. reflexivity.
  - rewrite (proj2 (Z.ltb_ge _ 0)), Z.abs_eq by lia. eexists. split; [reflexivity|]. unfold signed32. rewrite Z.add_0_l.
    pose proof (round_value 23 255 1 m 125 ltac:(lia) ltac:(lia) ltac:(lia) ltac:(lia) ltac:(lia) ltac:(lia)) as H. cbv zeta in H.
    rewrite Z.mul_1_r in H. rewrite HI. exact H.
Qed.

Lemma mul32_scale m : 2 ^ 10 <= m < 2 ^ 15 -> exists r, mul32 (m * 2 ^ 13 + 224 * 2 ^ 23) 0x7800000 = r /\ 0 <= r < 2 ^ 31 /\
  (m < INF16 -> r < INF32 /\ pattern_scaled 23 r = pattern_scaled 10 m * 2 ^ 125) /\ (m = INF16 -> r = INF32) /\ (INF16 < m -> INF32 < r).
Proof.
  intros Hm. assert (HI : INF32 = 255 * 2 ^ 23) by reflexivity. assert (HI16 : INF16 = 31 * 2 ^ 10) by reflexivity.
  assert (Hmag : forall b, 0 <= b < 2 ^ 31 -> mag32 b = b) by (intros; unfold mag32; now apply Z.mod_small).
  assert (Hsgn : forall b, b < 2 ^ 31 -> sign32 b = false) by (intros; unfold sign32; now apply Z.leb_gt).
  unfold mul32. rewrite !Hmag, !Hsgn by lia. rewrite (proj2 (Z.ltb_ge INF32 0x7800000)), (proj2 (Z.eqb_neq 0x7800000 INF32)) by lia.
  rewrite orb_false_r. cbv zeta.
  destruct (INF32 <? m * 2 ^ 13 + 224 * 2 ^ 23) eqn:E1; Zbool.
  { exists NAN32. assert (NAN32 = 0x7fc00000) by reflexivity. split; [done|]. split; [lia|]. split_and!; lia. }
  destruct (m * 2 ^ 13 + 224 * 2 ^ 23 =? INF32) eqn:E2; Zbool.
  { rewrite (proj2 (Z.eqb_neq _ 0)) by lia. change (0x7800000 =? 0) with false. cbn [orb].
    exists INF32. split; [done|]. split; [lia|]. split_and!; lia. }
  cbn [orb]. eexists. split; [reflexivity|]. unfold signed32. cbn [xorb]. rewrite Z.add_0_l.
  pose proof (Z.div_mod m (2 ^ 10) ltac:(lia)) as Em. pose proof (Z.mod_pos_bound m (2 ^ 10) ltac:(lia)) as B.
  set (e := m / 2 ^ 10) in *. set (f := m mod 2 ^ 10) in *. assert (He : 1 <= e <= 30) by lia.
  assert (Ps : pattern_scaled 10 m = (2 ^ 10 + f) * 2 ^ (e - 1)).
  { unfold pattern_scaled. fold e f. rewrite (proj2 (Z.eqb_neq e 0)) by lia. done. }
  assert (Pa : pattern_scaled 23 (m * 2 ^ 13 + 224 * 2 ^ 23) = (2 ^ 10 + f) * 2 ^ 13 * 2 ^ (e + 223)).
  { replace (m * 2 ^ 13 + 224 * 2 ^ 23) with ((e + 223) * 2 ^ 23 + (2 ^ 10 + f) * 2 ^ 13) by lia. apply pattern_encode; [done|right; lia]. }
  assert (Pb : pattern_scaled 23 0x7800000 = 2 ^ 37) by reflexivity.
  rewrite Pa, Pb. assert (EU : UNIT32 = 2 ^ 149) by reflexivity.
  replace ((2 ^ 10 + f) * 2 ^ 13 * 2 ^ (e + 223) * 2 ^ 37) with ((2 ^ 10 + f) * 2 ^ (e + 124) * UNIT32).
  2:{ rewrite EU. transitivity ((2 ^ 10 + f) * (2 ^ (e + 124) * 2 ^ 149)); [lia|]. transitivity ((2 ^ 10 + f) * (2 ^ 13 * 2 ^ (e + 223) * 2 ^ 37)); [|lia].
      rewrite <- !Z.pow_add_r by lia. do 2 f_equal. lia. }
  assert (Hmax : (2 ^ 10 + f) * 2 ^ (e + 124) < 2 ^ (255 + 23 - 1)).
  { assert (2 ^ (e + 124) <= 2 ^ 154) by (apply Z.pow_le_mono_r; lia). assert (0 < 2 ^ (e + 124)) by lia.
    apply (Z.lt_le_trans _ (2 ^ 11 * 2 ^ 154)); [|vm_compute; discriminate]. nia. }
  pose proof (round_value 23 255 UNIT32 (2 ^ 10 + f) (e + 124) ltac:(lia) ltac:(done) ltac:(lia) ltac:(lia) ltac:(lia) Hmax) as H.
  cbv zeta in H. rewrite <- HI in H. destruct H as [H1 H2]. split; [lia|]. split_and!; [|lia|lia].
  intros _. split; [lia|]. rewrite H2, Ps, <- Z.mul_assoc, <- Z.pow_add_r by lia. do 2 f_equal. lia.
Qed.

Lemma to_single h : in_u 16 h -> exists r, convertFloat16ToFloat32 h = (if sign16 h then 2 ^ 31 else 0) + r /\ 0 <= r < 2 ^ 31 /\
  (mag16 h < INF16 -> r < INF32 /\ pattern_scaled 23 r = pattern_scaled 10 (mag16 h) * 2 ^ 125) /\
  (mag16 h = INF16 -> r = INF32) /\ (INF16 < mag16 h -> INF32 < r).
Proof.
  intros Hh. unfold in_u in Hh. unfold mag16. pose proof (Z.div_mod h (2 ^ 15) ltac:(lia)) as E.
  pose proof (Z.mod_pos_bound h (2 ^ 15) ltac:(lia)) as B. set (m := h mod 2 ^ 15) in *.
  assert (Hs : h = (if sign16 h then 2 ^ 15 else 0) + m).
  { unfold sign16. destruct (2 ^ 15 <=? h) eqn:El; Zbool; lia. }
  unfold convertFloat16ToFloat32. cbv zeta. rewrite (Z.shiftl_mul_pow2 h 16) by lia.
  rewrite (wrapu_id 32 (h * 2 ^ 16)) by (unfold in_u; lia).
  assert (Esign : Z.land (h * 2 ^ 16) 0x80000000 = if sign16 h then 2 ^ 31 else 0).
  { rewrite (land_high_mask 32 31) by (unfold in_u; lia). rewrite Hs at 1 2. clearbody m.
    destruct (sign16 h); [replace ((2 ^ 15 + m) * 2 ^ 16) with (m * 2 ^ 16 + 1 * 2 ^ 31) by lia; rewrite Z.mod_add by lia|];
      rewrite Z.mod_small; lia. }
  assert (E2 : u32 (h * 2 ^ 16 + h * 2 ^ 16) = m * 2 ^ 17).
  { unfold wrapu. replace (h * 2 ^ 16 + h * 2 ^ 16) with (m * 2 ^ 17 + (h / 2 ^ 15) * 2 ^ 32) by lia.
    rewrite Z.mod_add by lia. apply Z.mod_small. lia. }
  rewrite Esign, E2. rewrite !Z.shiftr_div_pow2 by lia.
  change (m * 2 ^ 17 / 2 ^ 4) with (m * (2 ^ 13 * 2 ^ 4) / 2 ^ 4). rewrite Z.mul_assoc, !Z.div_mul by lia.
  change (Z.shiftl 0xE0 23) with (224 * 2 ^ 23). change (Z.shiftl 126 23) with (126 * 2 ^ 23). change (Z.shiftl 1 27) with (2 ^ 27).
  rewrite (wrapu_id 32 (m * 2 ^ 13 + 224 * 2 ^ 23)) by (unfold in_u; lia).
  assert (Hb : narrow (of_rat 1 2) = 126 * 2 ^ 23) by (vm_compute; reflexivity). rewrite Hb.
  assert (Hlor : forall r, 0 <= r < 2 ^ 31 -> Z.lor (if sign16 h then 2 ^ 31 else 0) r = (if sign16 h then 2 ^ 31 else 0) + r).
  { intros r Hr. apply (lor_disjoint 31); [lia|done|]. now destruct (sign16 h). }
  assert (HI : INF32 = 255 * 2 ^ 23) by reflexivity. assert (HI16 : INF16 = 31 * 2 ^ 10) by reflexivity.
  destruct (m * 2 ^ 17 <? 2 ^ 27) eqn:Ec; Zbool.
  - rewrite Z.lor_comm, (Z.lor_comm m), (lor_disjoint 23 (126 * 2 ^ 23) m) by (lia || done).
    destruct (sub32_half m ltac:(lia)) as (r & -> & H1 & H2). rewrite Z.lor_comm, Hlor by lia. exists r. split; [done|].
    split; [lia|]. split_and!; [|lia|lia]. intros _. split; [lia|]. rewrite H2. f_equal. symmetry.
    replace m with (0 * 2 ^ 10 + m) at 1 by lia. rewrite pattern_encode; [lia|done|left; lia].
  - destruct (mul32_scale m ltac:(lia)) as (r & -> & H1 & H2). rewrite Hlor by lia. exists r. split; [done|]. split; [lia|exact H2].
Qed.

Lemma widen_value (s : bool) r : 0 <= r < INF32 ->
  let d := widen ((if s then 2 ^ 31 else 0) + r) in
  sign_bit d = s /\ is_finite d = true /\ mag_scaled (mag d) = pattern_scaled 23 r * 2 ^ 925.
Proof.
  intros Hr d. assert (HI : INF32 = 255 * 2 ^ 23) by reflexivity.
  assert (Em : mag32 ((if s then 2 ^ 31 else 0) + r) = r).
  { unfold mag32. destruct s; [rewrite Z.add_comm; replace (r + 2 ^ 31) with (r + 1 * 2 ^ 31) by lia; rewrite Z.mod_add by lia|]; apply Z.mod_small; lia. }
  assert (Es : sign32 ((if s then 2 ^ 31 else 0) + r) = s).
  { unfold sign32. destruct s; [apply Z.leb_le|apply Z.leb_gt]; lia. }
  assert (Hd : d = of_ratio s (pattern_scaled 23 r) UNIT32).
  { unfold d, widen. rewrite Em, Es, (proj2 (Z.ltb_ge INF32 r)), (proj2 (Z.eqb_neq r INF32)) by lia. done. }
  destruct (pattern_decode 23 r ltac:(lia) ltac:(lia)) as (k & m & E & Ep & Hk).
  assert (Hps : 0 <= pattern_scaled 23 r) by (rewrite Ep; nia).
  assert (HU : 0 < UNIT32) by done.
  rewrite Hd. unfold is_finite. rewrite of_ratio_sign, of_ratio_mag by done. split; [done|].
  assert (Erq : round_mag (pattern_scaled 23 r) UNIT32 = round_to 52 (2047 * 2 ^ 52) (m * 2 ^ (k + 925) * UNIT32) UNIT32).
  { unfold round_mag. rewrite double_round. unfold INF. f_equal. rewrite Ep, Z.pow_add_r by lia.
    assert (UNIT = 2 ^ 925 * UNIT32) as -> by reflexivity. lia. }
  assert (Hmax : m * 2 ^ (k + 925) < 2 ^ (2047 + 52 - 1)).
  { assert (2 ^ (k + 925) <= 2 ^ 1179) by (apply Z.pow_le_mono_r; lia). assert (0 < 2 ^ (k + 925)) by lia.
    apply (Z.lt_le_trans _ (2 ^ 24 * 2 ^ 1179)); [nia|]. rewrite <- Z.pow_add_r by lia. apply Z.pow_le_mono_r; lia. }
  pose proof (round_value 52 2047 UNIT32 m (k + 925) ltac:(lia) HU ltac:(lia) ltac:(lia) ltac:(lia) Hmax) as H. cbv zeta in H.
  rewrite <- Erq in H. destruct H as [H1 H2]. split; [apply Z.ltb_lt; unfold INF; lia|].
  rewrite double_pattern, H2, Ep, Z.pow_add_r by lia. lia.
Qed.

Lemma widen_u64 b : in_u 64 (widen b).
Proof.
  unfold widen. destruct (INF32 <? mag32 b); [split; [discriminate|reflexivity]|].
  destruct (mag32 b =? INF32); [destruct (sign32 b); (split; [discriminate|reflexivity])|].
  apply of_ratio_u64; [|done]. destruct (pattern_decode 23 (mag32 b)) as (k & m & _ & -> & Hk); [lia|apply Z.mod_pos_bound; lia|nia].
Qed.
Lemma to_double h : in_u 16 h ->
  let d := convertFloat16ToFloat64 h in
  (mag16 h < INF16 -> sign_bit d = sign16 h /\ is_finite d = true /\ mag_scaled (mag d) = scaled16 h) /\
  (mag16 h = INF16 -> d = (if sign16 h then 2 ^ 63 else 0) + INF) /\
  (INF16 < mag16 h -> is_nan d = true).
Proof.
  intros Hh d. unfold d, convertFloat16ToFloat64. destruct (to_single h Hh) as (r & -> & Hr & H1 & H2 & H3).
  assert (Em : mag32 ((if sign16 h then 2 ^ 31 else 0) + r) = r).
  { unfold mag32. destruct (sign16 h); [rewrite Z.add_comm; replace (r + 2 ^ 31) with (r + 1 * 2 ^ 31) by lia; rewrite Z.mod_add by lia|]; apply Z.mod_small; lia. }
  assert (Es : sign32 ((if sign16 h then 2 ^ 31 else 0) + r) = sign16 h).
  { unfold sign32. destruct (sign16 h); [apply Z.leb_le|apply Z.leb_gt]; lia. }
  split_and!.
  - intros Hm. destruct (H1 Hm) as [L V]. destruct (widen_value (sign16 h) r ltac:(lia)) as (W1 & W2 & W3). split_and!; [done|done|].
    rewrite W3, V. unfold scaled16. change (2 ^ 1050) with (2 ^ 125 * 2 ^ 925). lia.
  - intros Hm. unfold widen. rewrite Em, Es, (H2 Hm). done.
  - intros Hm. unfold widen. rewrite Em, (proj2 (Z.ltb_lt INF32 r)) by now apply H3. reflexivity.
Qed.

End Half.

(** * Properties *)
Module Float16Props.
Import Formats Single Half.

(** C32: converting a double to half precision gives the pattern that rounding to
    nearest, ties to even, gives, for every double: the infinity from 65520 on,
    subnormals and zeros below 2^-14, the quiet NaN for NaN; and no half-precision
    number is nearer than a finite result. *)
Theorem convertFloat64ToFloat16_nearest (d : Z) : in_u 64 d ->
  convertFloat64ToFloat16 d = half_round d /\
  (is_finite d = true -> mag16 (convertFloat64ToFloat16 d) < INF16 ->
   sign16 (convertFloat64ToFloat16 d) = sign_bit d /\
   forall h, in_u 16 h -> Z.abs (scaled16 (convertFloat64ToFloat16 d) - mag_scaled (mag d)) <= Z.abs (scaled16 h - mag_scaled (mag d))).
Proof.
  intros Hd. rewrite convertFloat64ToFloat16_round by done. split; [done|]. intros Hf.
  unfold half_round. rewrite (is_finite_nan d Hf). set (x := mag_scaled (mag d)).
  assert (Hx : 0 <= x) by (apply mag_scaled_nonneg, mag_range).
  pose proof (round16_range x Hx) as Hr. assert (HI : INF16 = 31 * 2 ^ 10) by reflexivity.
  assert (Em : mag16 ((if sign_bit d then 2 ^ 15 else 0) + round_to 10 INF16 x (2 ^ 1050)) = round_to 10 INF16 x (2 ^ 1050)).
  { unfold mag16. set (r := round_to 10 INF16 x (2 ^ 1050)) in *. clearbody r.
    destruct (sign_bit d); [replace (2 ^ 15 + r) with (r + 1 * 2 ^ 15) by lia; rewrite Z.mod_add by lia|]; apply Z.mod_small; lia. }
  unfold scaled16. rewrite Em. intros Hlt. split.
  - unfold sign16. destruct (sign_bit d); [apply Z.leb_le|apply Z.leb_gt]; lia.
  - intros h Hh. apply round_nearest; try lia. unfold mag16. apply Z.mod_pos_bound. lia.
Qed.
Lemma convertFloat64ToFloat16_nearest_witness :
  in_u 64 0xbfd5555555555555 /\ sign16 (convertFloat64ToFloat16 0xbfd5555555555555) = true.
Proof.
  assert (H : in_u 64 0xbfd5555555555555) by (split; [discriminate|reflexivity]). split; [exact H|].
  transitivity (sign_bit 0xbfd5555555555555); [|reflexivity].
  apply (convertFloat64ToFloat16_nearest 0xbfd5555555555555 H); vm_compute; reflexivity.
Defined.

(** C33: a half-precision number converts to the double of the same value and sign,
    infinities to infinities and NaNs to NaNs; and converting it back gives the
    same pattern, for all of them but NaNs. *)
Theorem convertFloat16_round_trip (h : Z) : in_u 16 h ->
  (mag16 h < INF16 -> is_finite (convertFloat16ToFloat64 h) = true /\
     scaled (convertFloat16ToFloat64 h) = (if sign16 h then - scaled16 h else scaled16 h)) /\
  (mag16 h = INF16 -> convertFloat16ToFloat64 h = (if sign16 h then 2 ^ 63 else 0) + INF) /\
  (INF16 < mag16 h -> is_nan (convertFloat16ToFloat64 h) = true) /\
  (mag16 h <= INF16 -> convertFloat64ToFloat16 (convertFloat16ToFloat64 h) = h).
Proof.
  intros Hh. destruct (to_double h Hh) as (H1 & H2 & H3). split_and!; [|exact H2|exact H3|].
  - intros Hm. destruct (H1 Hm) as (S & F & V). split; [done|]. unfold scaled. now rewrite S, V.
  - intros Hm. assert (HI : INF16 = 31 * 2 ^ 10) by reflexivity. unfold in_u in Hh.
    assert (Hs : h = (if sign16 h then 2 ^ 15 else 0) + mag16 h).
    { unfold mag16, sign16 in *. pose proof (Z.div_mod h (2 ^ 15) ltac:(lia)). pose proof (Z.mod_pos_bound h (2 ^ 15) ltac:(lia)).
      destruct (2 ^ 15 <=? h) eqn:El; Zbool; lia. }
    destruct (decide (mag16 h = INF16)) as [E|].
    + rewrite (H2 E), Hs, E. destruct (sign16 h); vm_compute; reflexivity.
    + destruct (H1 ltac:(lia)) as (S & F & V).
      assert (Hu : in_u 64 (convertFloat16ToFloat64 h)).
      { apply widen_u64. }
      rewrite convertFloat64ToFloat16_round by done. unfold half_round. rewrite (is_finite_nan _ F), S, V. unfold scaled16.
      rewrite round_id; [now symmetry|lia|lia|]. unfold mag16 in *. pose proof (Z.mod_pos_bound h (2 ^ 15)). lia.
Qed.
Lemma convertFloat16_round_trip_witness : convertFloat64ToFloat16 (convertFloat16ToFloat64 0x8001) = 0x8001.
Proof.
  apply (convertFloat16_round_trip 0x8001); [split; [discriminate|reflexivity]|vm_compute; discriminate].
Defined.

End Float16Props.
