(* ===== verification/Value.v ===== *)
(** ECMAScript values in their 64-bit representation (src/src/runtime/Value.h,
    ValueInlines.h, Value.cpp) and the heap encoding of them (EncodedValue.h):
    NaN boxing, the int32 and double forms of numbers, the conversions to
    integers and indexes, the three equality algorithms, and small-integer
    tagging.  A value is the 64-bit word itself; the heap maps an address to what
    the engine reads behind a pointer. *)
From Stdlib Require Import ZArith Lia Bool.
From stdpp Require Import base numbers list option decidable gmap.
From S2P Require Import Prelude Double.

(** * Words *)
Module Word.

Definition TagBitTypeOther : Z := 0x2.
Definition TagTypeShift : Z := 2.
Definition ValueFalse : Z := Z.lor TagBitTypeOther (Z.shiftl 0 TagTypeShift).
Definition ValueTrue : Z := Z.lor TagBitTypeOther (Z.shiftl 1 TagTypeShift).
Definition ValueNull : Z := Z.lor TagBitTypeOther (Z.shiftl 2 TagTypeShift).
Definition ValueUndefined : Z := Z.lor TagBitTypeOther (Z.shiftl 3 TagTypeShift).
Definition ValueLast : Z := ValueUndefined.
Definition ValueEmpty : Z := 0x0.
Definition DoubleEncodeOffset : Z := 0x1000000000000.
Definition DoubleInvalidBeginning : Z := 0xfffe000000000000.
Definition TagTypeNumber : Z := 0xffff000000000000.
Definition TagMask : Z := Z.lor TagTypeNumber TagBitTypeOther.

(** The constructors. *)
Definition Value_bool (b : bool) : Z := Z.lor TagBitTypeOther (Z.shiftl (Z.b2z b) TagTypeShift).
Definition Value_EncodeAsDouble (d : Z) : Z := u64 (d + DoubleEncodeOffset).
Definition Value_int (i : Z) : Z := Z.lor TagTypeNumber (u32 i).

(** The type tests. *)
Definition isInt32 (v : Z) : bool := Z.shiftr v 48 =? 0xffff.
Definition isNumber (v : Z) : bool := negb (Z.shiftr v 48 =? 0).
Definition isDouble (v : Z) : bool := isNumber v && negb (isInt32 v).
Definition isEmpty (v : Z) : bool := v =? ValueEmpty.
Definition isPointerValue (v : Z) : bool := Z.land v TagMask =? 0.
Definition isUndefined (v : Z) : bool := v =? ValueUndefined.
Definition isNull (v : Z) : bool := v =? ValueNull.
Definition isUndefinedOrNull (v : Z) : bool := isUndefined v || isNull v.
Definition isBoolean (v : Z) : bool := Z.lor v (Z.shiftl 1 TagTypeShift) =? ValueTrue.
Definition isTrue (v : Z) : bool := v =? ValueTrue.
Definition isFalse (v : Z) : bool := v =? ValueFalse.

(** The accessors. *)
Definition asInt32 (v : Z) : Z := i32 v.
Definition asBoolean (v : Z) : bool := v =? ValueTrue.
Definition asDouble (v : Z) : Z := u64 (v - DoubleEncodeOffset).
Definition isUInt32 (v : Z) : bool := isInt32 v && (0 <=? asInt32 v).
Definition asUInt32 (v : Z) : Z := u32 (asInt32 v).
Definition asNumber (v : Z) : Z := if isInt32 v then of_Z (asInt32 v) else asDouble v.

(** The integer constructors. *)
Definition Value_unsigned (i : Z) : Z :=
  let asInt32 := i32 i in
  if asInt32 <? 0 then Value_EncodeAsDouble (of_Z i) else Value_int asInt32.
Definition Value_long (i : Z) : Z :=
  let asInt32 := i32 i in
  if negb (asInt32 =? i) then Value_EncodeAsDouble (of_Z i) else Value_int asInt32.
Definition Value_unsigned_long (i : Z) : Z :=
  let asUInt32 := u32 i in
  if negb (asUInt32 =? i) then Value_EncodeAsDouble (of_Z i) else Value_unsigned asUInt32.

Section Cast.
(** [static_cast<int32_t>(d)] is undefined when the truncated value does not
    fit; [cvt] is whatever the compiled code produces then. *)
Variable cvt : Z -> Z.

Definition cast_int32 (d : Z) : Z :=
  if is_finite d && (- 2 ^ 31 <=? to_Z d) && (to_Z d <? 2 ^ 31) then to_Z d else cvt d.

(** [isInt32ConvertibleDouble(d, asInt32)]: the verdict and the integer. *)
Definition isInt32ConvertibleDouble (d : Z) : bool * Z :=
  let asInt32 := cast_int32 d in
  if negb (feq (of_Z asInt32) d) || ((asInt32 =? 0) && sign_bit d) then (false, asInt32)
  else (true, asInt32).

(** [Value(DoubleToIntConvertibleTestNeeds, d)]. *)
Definition Value_double (d : Z) : Z :=
  let '(ok, asInt32) := isInt32ConvertibleDouble d in
  if (ok : bool) then Value_int asInt32
  else if Z.land d DoubleInvalidBeginning =? DoubleInvalidBeginning then Value_EncodeAsDouble NAN
  else Value_EncodeAsDouble d.
End Cast.

(** [toInt32SlowCase] after [toNumber]. *)
Definition toInt32SlowCase (num : Z) : Z :=
  let bits := i64 num in
  let exp := Z.land (i32 (Z.shiftr bits 52)) 0x7ff - 0x3ff in
  if (exp <? 0) || (83 <? exp) then 0
  else
    let result :=
      if 52 <? exp then i32 (u64 (Z.shiftl (u64 bits) (exp - 52))) else i32 (Z.shiftr bits (52 - exp)) in
    let result :=
      if exp <? 32 then
        let missingOne := u32 (Z.shiftl 1 exp) in
        i32 (u32 (Z.land (u32 result) (u32 (missingOne - 1)) + missingOne))
      else result in
    if bits <? 0 then i32 (u32 (- u32 result)) else result.

Definition maximumLength : Z := of_Z (2 ^ 53 - 1).
Definition InvalidIndexValue : Z := 2 ^ 64 - 1.
Definition InvalidIndex32Value : Z := 2 ^ 32 - 1.

Section Conversions.
Variable cvt : Z -> Z.
(** [toNumberSlowCase]: strings, symbols, BigInts and objects. *)
Variable toNumberSlowCase : Z -> Z.

Definition toNumber (v : Z) : Z :=
  let n := Z.land v TagTypeNumber in
  if negb (n =? 0) then (if n =? TagTypeNumber then of_Z (asInt32 v) else asDouble v)
  else if isUndefined v then NAN
  else if isNull v then 0
  else if isBoolean v then (if asBoolean v then of_Z 1 else of_Z 0)
  else toNumberSlowCase v.

Definition toInt32 (v : Z) : Z :=
  if isInt32 v then asInt32 v else toInt32SlowCase (toNumber v).
Definition toUint32 (v : Z) : Z := u32 (toInt32 v).

Definition toInteger (v : Z) : Z :=
  if isInt32 v then of_Z (asInt32 v)
  else
    let d := toNumber v in
    if is_nan d || feq d 0 then 0
    else if feq d INF || feq d (neg INF) then d
    else fmul (if flt d 0 then of_Z (-1) else of_Z 1) (ffloor (fabs d)).

Definition isInteger (v : Z) : bool :=
  if isInt32 v then true
  else
    let d := toNumber v in
    if is_nan d || feq d INF || feq d (neg INF) then false
    else feq (ffloor (fabs d)) (fabs d).

Definition toLength (v : Z) : Z :=
  let len := toInteger v in
  if fle len 0 then 0
  else to_Z (if flt maximumLength len then maximumLength else len).

Definition toIndex (v : Z) : Z :=
  if isInt32 v && (0 <=? asInt32 v) then asInt32 v
  else if isUndefined v then 0
  else
    let integerIndex := toInteger v in
    let index := toLength (Value_double cvt integerIndex) in
    if flt integerIndex 0 || negb (feq integerIndex (of_Z index)) then InvalidIndexValue else index.

Definition toIndex32 (v : Z) : Z :=
  if isUInt32 v then asUInt32 v
  else
    let newLen := toUint32 v in
    if negb (feq (of_Z newLen) (toNumber v)) then InvalidIndex32Value else newLen.

Definition toCanonicalizeKeyedCollectionKey (v : Z) : Z :=
  if isDouble v && feq (asDouble v) 0 then Value_int 0 else v.
End Conversions.

Example box_pi : asDouble (Value_double (fun _ => -2^31) 0x400921fb54442d18) = 0x400921fb54442d18.
Proof. vm_compute. reflexivity. Qed.
Example toint_big : toInt32SlowCase (of_Z (2 ^ 53 - 2 ^ 31 + 5)) = -2147483643.
Proof. vm_compute. reflexivity. Qed.

End Word.

(** * Pointers and equality *)
Module Heap.
Import Word.

(** What the engine reads behind a non-null pointer: the tag of the pointer
    value and, for strings and BigInts, the contents that equality compares.
    [HNumber] is a [NumberInEncodedValue] cell, never visible as a value. *)
Inductive HeapCell :=
  | HString (s : list Z)
  | HSymbol
  | HBigInt (n : Z)
  | HObject
  | HNumber (v : Z).
Abbreviation heap := (gmap Z HeapCell).

Definition isString (h : heap) (v : Z) : bool :=
  isPointerValue v && match h !! v with Some (HString _) => true | _ => false end.
Definition isSymbol (h : heap) (v : Z) : bool :=
  isPointerValue v && match h !! v with Some HSymbol => true | _ => false end.
Definition isBigInt (h : heap) (v : Z) : bool :=
  isPointerValue v && match h !! v with Some (HBigInt _) => true | _ => false end.
Definition isObject (h : heap) (v : Z) : bool :=
  isPointerValue v && match h !! v with Some HObject => true | _ => false end.

(** [String::equals] and [BigInt::equals] on two pointers. *)
Definition String_equals (h : heap) (p q : Z) : bool :=
  match h !! p, h !! q with
  | Some (HString s), Some (HString t) => bool_decide (s = t)
  | _, _ => false
  end.
Definition BigInt_equals (h : heap) (p q : Z) : bool :=
  match h !! p, h !! q with
  | Some (HBigInt m), Some (HBigInt n) => m =? n
  | _, _ => false
  end.

(** The shared tail of the three comparisons: [val] is a pointer. *)
Definition pointerEquals (h : heap) (self val : Z) : bool :=
  if self =? val then true
  else if negb (isPointerValue self) then false
  else if isString h self then (if negb (isString h val) then false else String_equals h self val)
  else if isBigInt h self then (if negb (isBigInt h val) then false else BigInt_equals h self val)
  else false.

Definition equalsToSlowCase (h : heap) (self val : Z) : bool :=
  if negb (isPointerValue val) then
    if isNumber self && isNumber val then
      let a := asNumber self in
      let b := asNumber val in
      if is_nan a || is_nan b then false else feq a b
    else self =? val
  else pointerEquals h self val.

Definition equalsTo (h : heap) (self val : Z) : bool :=
  if self =? val then
    if isDouble self then negb (is_nan (asDouble self)) else true
  else if negb (eqb (isPointerValue self) (isPointerValue val)) then false
  else if isNumber self && isNumber val then feq (asNumber self) (asNumber val)
  else if isObject h self && isObject h val then false
  else equalsToSlowCase h self val.

Definition equalsToByTheSameValueAlgorithm (h : heap) (self val : Z) : bool :=
  if negb (isPointerValue val) then
    if isNumber self && isNumber val then
      let a := asNumber self in
      let b := asNumber val in
      if is_nan a || is_nan b then is_nan a && is_nan b
      else feq a b && eqb (sign_bit a) (sign_bit b)
    else self =? val
  else pointerEquals h self val.

Definition equalsToByTheSameValueZeroAlgorithmSlowCase (h : heap) (self val : Z) : bool :=
  if negb (isPointerValue val) then
    if isNumber self && isNumber val then
      let a := asNumber self in
      let b := asNumber val in
      if is_nan a || is_nan b then is_nan a && is_nan b else feq a b
    else self =? val
  else pointerEquals h self val.

Definition equalsToByTheSameValueZeroAlgorithm (h : heap) (self val : Z) : bool :=
  if isInt32 self && isInt32 val then asInt32 self =? asInt32 val
  else equalsToByTheSameValueZeroAlgorithmSlowCase h self val.

Definition toBooleanSlowCase (h : heap) (v : Z) : bool :=
  if isDouble v then
    let d := asDouble v in
    if is_nan d then false else if feq d 0 then false else true
  else if isUndefinedOrNull v then false
  else match h !! v with
       | Some (HString s) => negb (length s =? 0)%nat
       | Some (HBigInt n) => negb (n =? 0)
       | _ => true
       end.
Definition toBoolean (h : heap) (v : Z) : bool :=
  if isBoolean v then asBoolean v
  else if isInt32 v then negb (asInt32 v =? 0)
  else if isUndefinedOrNull v then false
  else if isObject h v then true
  else toBooleanSlowCase h v.

End Heap.

(** * Encoded values *)
Module Encoded.
Import Word Heap.

Definition kSmiTag : Z := 1.
Definition kSmiTagMask : Z := 1.
Definition kSmiShiftBits : Z := 1.

(** Payloads are [intptr_t]. *)
Definition HAS_SMI_TAG (payload : Z) : bool := Z.land payload kSmiTagMask =? kSmiTag.
Definition IntToSmi (value : Z) : Z := i32 (Z.lor (u64 (Z.shiftl (u64 value) kSmiShiftBits)) kSmiTag).
Definition SmiToInt (value : Z) : Z := i32 (Z.shiftr value kSmiShiftBits).
Definition IsValidSmi (value : Z) : bool := u64 (i64 (value + 0x40000000)) <? 0x80000000.

Definition readPointerIsNumberEncodedValue (h : heap) (p : Z) : bool :=
  match h !! p with Some (HNumber _) => true | _ => false end.

Definition isStoredInHeap (payload : Z) : bool :=
  if HAS_SMI_TAG payload then false else ValueLast <? u64 payload.

(** [toValue]; [None] is a read through a dangling pointer. *)
Definition toValue (shouldTreatEmptyAsUndefined : bool) (h : heap) (payload : Z) : option Z :=
  if HAS_SMI_TAG payload then Some (Value_int (SmiToInt payload))
  else if u64 payload <=? ValueLast then
    if shouldTreatEmptyAsUndefined && (payload =? ValueEmpty) then Some ValueUndefined
    else Some (u64 payload)
  else match h !! payload with
       | Some (HNumber v) => Some v
       | Some _ => Some (u64 payload)
       | None => None
       end.

Section Cast.
Variable cvt : Z -> Z.

(** The constructor from a [Value]; [p] is the address the allocator returns if
    a [NumberInEncodedValue] is needed. *)
Definition fromValueForCtor (h : heap) (p : Z) (from : Z) : heap * Z :=
  if isPointerValue from then (h, from)
  else if isInt32 from && IsValidSmi (asInt32 from) then (h, IntToSmi (asInt32 from))
  else if isNumber from then
    let '(ok, i) := isInt32ConvertibleDouble cvt (asNumber from) in
    if (ok : bool) && IsValidSmi i then (h, IntToSmi i) else (<[p := HNumber from]> h, p)
  else (h, i64 from).

(** [operator=]: an existing number cell is overwritten in place. *)
Definition assign (h : heap) (p : Z) (payload : Z) (from : Z) : heap * Z :=
  if isPointerValue from then (h, from)
  else if isInt32 from && IsValidSmi (asInt32 from) then (h, IntToSmi (asInt32 from))
  else if isNumber from then
    let '(ok, i) := isInt32ConvertibleDouble cvt (asNumber from) in
    let mutableFrom := if (ok : bool) then Value_int i else from in
    if negb (HAS_SMI_TAG payload) && (ValueLast <? u64 payload)
       && readPointerIsNumberEncodedValue h payload
    then (<[payload := HNumber mutableFrom]> h, payload)
    else (<[p := HNumber mutableFrom]> h, p)
  else (h, i64 from).
End Cast.

(** The comparisons of keyed-collection storage. *)
Definition Encoded_sameValueZero_Value (h : heap) (payload other : Z) : option bool :=
  if HAS_SMI_TAG payload && isInt32 other then Some (SmiToInt payload =? asInt32 other)
  else v ← toValue false h payload; Some (equalsToByTheSameValueZeroAlgorithm h v other).
Definition Encoded_sameValueZero (h : heap) (payload other : Z) : option bool :=
  if HAS_SMI_TAG payload && HAS_SMI_TAG other then Some (payload =? other)
  else v ← toValue false h payload; w ← toValue false h other;
       Some (equalsToByTheSameValueZeroAlgorithm h v w).

Example smi_max : IsValidSmi (2 ^ 30 - 1) = true /\ IsValidSmi (2 ^ 30) = false
  /\ SmiToInt (IntToSmi (- 2 ^ 30)) = - 2 ^ 30.
Proof. vm_compute. auto. Qed.

End Encoded.

(** * Lemmas on words *)
Module WordFacts.
Import Word.

Lemma shiftr48 v : in_u 64 v -> 0 <= Z.shiftr v 48 < 2 ^ 16.
Proof.
  unfold in_u. intros H. rewrite Z.shiftr_div_pow2 by lia.
  split; [apply Z.div_pos; lia|apply Z.div_lt_upper_bound; lia].
Qed.

Lemma isNumber_iff v : in_u 64 v -> isNumber v = true <-> 2 ^ 48 <= v.
Proof.
  intros H. unfold isNumber. rewrite negb_true_iff, Z.eqb_neq, Z.shiftr_div_pow2 by lia.
  unfold in_u in H. pose proof (Z.div_mod v (2 ^ 48)). pose proof (Z.mod_pos_bound v (2 ^ 48)).
  assert (0 <= v / 2 ^ 48) by (apply Z.div_pos; lia). lia.
Qed.

Lemma isInt32_iff v : in_u 64 v -> isInt32 v = true <-> TagTypeNumber <= v.
Proof.
  intros H. unfold isInt32. rewrite Z.eqb_eq, Z.shiftr_div_pow2 by lia.
  unfold in_u, TagTypeNumber in *. pose proof (Z.div_mod v (2 ^ 48)). pose proof (Z.mod_pos_bound v (2 ^ 48)).
  lia.
Qed.

Lemma isInt32_isNumber v : isInt32 v = true -> isNumber v = true.
Proof. unfold isInt32, isNumber. intros. Zbool. rewrite H. reflexivity. Qed.

Lemma isPointer_not_number v : in_u 64 v -> isPointerValue v = true -> isNumber v = false.
Proof.
  intros H Hp. unfold isPointerValue, TagMask in Hp. rewrite Z.land_lor_distr_r in Hp. Zbool.
  apply Z.lor_eq_0_iff in Hp as [Hp _]. unfold TagTypeNumber in Hp.
  rewrite (land_high_mask 64 48) in Hp by (try assumption; reflexivity || lia).
  destruct (isNumber v) eqn:E; [|reflexivity]. apply isNumber_iff in E; [|assumption].
  pose proof (Z.mod_pos_bound v (2 ^ 48)). lia.
Qed.

Lemma Value_int_eq i : Value_int i = TagTypeNumber + u32 i.
Proof.
  unfold Value_int. pose proof (wrapu_range 32 i ltac:(lia)) as H. unfold in_u in H.
  apply (lor_disjoint 48); [lia|lia|reflexivity].
Qed.

Lemma Value_int_u64 i : in_u 64 (Value_int i).
Proof.
  rewrite Value_int_eq. pose proof (wrapu_range 32 i ltac:(lia)) as H. unfold in_u, TagTypeNumber in *. lia.
Qed.

Lemma isInt32_Value_int i : isInt32 (Value_int i) = true.
Proof.
  apply isInt32_iff; [apply Value_int_u64|]. rewrite Value_int_eq.
  pose proof (wrapu_range 32 i ltac:(lia)) as H. unfold in_u in H. lia.
Qed.

Lemma asInt32_Value_int i : in_s 32 i -> asInt32 (Value_int i) = i.
Proof.
  intros H. unfold asInt32. apply wraps_unique; [lia|assumption|].
  rewrite Value_int_eq. unfold TagTypeNumber.
  replace (0xffff000000000000 + u32 i - i) with (u32 i - i + 0xffff0000 * 2 ^ 32) by lia.
  rewrite Z.mod_add by lia. unfold wrapu. rewrite Zminus_mod_idemp_l, Z.sub_diag. reflexivity.
Qed.

Lemma asInt32_range v : in_s 32 (asInt32 v).
Proof. apply wraps_range. lia. Qed.

Lemma int32_small i : in_s 32 i -> Z.abs i <= 2 ^ 53.
Proof. unfold in_s. lia. Qed.

Lemma asNumber_Value_int i : in_s 32 i -> asNumber (Value_int i) = of_Z i.
Proof. intros H. unfold asNumber. now rewrite isInt32_Value_int, asInt32_Value_int. Qed.

(** Doubles below the invalid range survive the encoding. *)
Lemma encode_double d :
  0 <= d < DoubleInvalidBeginning ->
  Value_EncodeAsDouble d = d + DoubleEncodeOffset /\ in_u 64 (Value_EncodeAsDouble d) /\
  isNumber (Value_EncodeAsDouble d) = true /\ isInt32 (Value_EncodeAsDouble d) = false /\
  asDouble (Value_EncodeAsDouble d) = d.
Proof.
  intros H. unfold Value_EncodeAsDouble, asDouble, DoubleInvalidBeginning, DoubleEncodeOffset in *.
  rewrite (wrapu_id 64 (d + _)), wrapu_id by (unfold in_u; lia).
  assert (in_u 64 (d + 0x1000000000000)) as Hu by (unfold in_u; lia).
  split_and!; [reflexivity|assumption|apply isNumber_iff; [assumption|lia]| |lia].
  destruct (isInt32 _) eqn:E; [|reflexivity]. apply isInt32_iff in E; [|assumption].
  unfold TagTypeNumber in E. lia.
Qed.

Lemma asDouble_u64 v : in_u 64 (asDouble v).
Proof. apply wrapu_range. lia. Qed.

Lemma asNumber_u64 v : in_u 64 (asNumber v).
Proof. unfold asNumber. destruct (isInt32 v); [apply of_Z_u64|apply asDouble_u64]. Qed.

(** The patterns the constructor filters out are NaNs. *)
Lemma invalid_beginning d :
  in_u 64 d -> (Z.land d DoubleInvalidBeginning =? DoubleInvalidBeginning) = (DoubleInvalidBeginning <=? d).
Proof.
  intros H. unfold DoubleInvalidBeginning. rewrite (land_high_mask 64 49) by (try assumption; reflexivity || lia).
  unfold in_u in H. pose proof (Z.div_mod d (2 ^ 49)). pose proof (Z.mod_pos_bound d (2 ^ 49)).
  apply eq_true_iff_eq. rewrite Z.eqb_eq, Z.leb_le. lia.
Qed.

Lemma invalid_is_nan d : in_u 64 d -> DoubleInvalidBeginning <= d -> is_nan d = true.
Proof.
  intros H Hd. unfold is_nan, mag. unfold in_u, DoubleInvalidBeginning in *. apply Z.ltb_lt.
  replace d with ((d - 2 ^ 63) + 1 * 2 ^ 63) by lia.
  rewrite Z.mod_add, Z.mod_small by lia. unfold INF. lia.
Qed.

Section Cast.
Context (cvt : Z -> Z) (cvt_int : forall d, in_s 32 (cvt d)).

Lemma cast_int32_range d : in_s 32 (cast_int32 cvt d).
Proof.
  unfold cast_int32. destruct (_ && _) eqn:E; [|apply cvt_int]. Zbool. unfold in_s. lia.
Qed.

(** The test succeeds exactly on the doubles that are int32 values. *)
Lemma convertible_spec d :
  in_u 64 d ->
  match isInt32ConvertibleDouble cvt d with
  | (true, i) => in_s 32 i /\ of_Z i = d
  | (false, _) => forall i, in_s 32 i -> of_Z i <> d
  end.
Proof.
  intros Hd. unfold isInt32ConvertibleDouble. pose proof (cast_int32_range d) as Hr.
  destruct (negb _ || _) eqn:E.
  - intros i Hi <-. unfold cast_int32 in E.
    rewrite of_Z_finite, to_Z_of_Z in E by now apply int32_small.
    assert ((- 2 ^ 31 <=? i) && (i <? 2 ^ 31) = true) as Eb
      by (unfold in_s in Hi; apply andb_true_intro; rewrite Z.leb_le, Z.ltb_lt; lia).
    rewrite andb_true_l, Eb in E. rewrite feq_of_Z, Z.eqb_refl, of_Z_sign in E by now apply int32_small.
    cbn [negb orb] in E. Zbool. lia.
  - Zbool. split; [assumption|]. apply feq_of_Z_eq; [now apply int32_small|assumption|assumption|].
    destruct (cast_int32 cvt d =? 0) eqn:E0; Zbool; [right|left; assumption].
    assumption.
Qed.

(** ** Boxing a double *)
Lemma Value_double_number d :
  in_u 64 d ->
  in_u 64 (Value_double cvt d) /\ isNumber (Value_double cvt d) = true /\
  asNumber (Value_double cvt d) = (if DoubleInvalidBeginning <=? d then NAN else d) /\
  (isInt32 (Value_double cvt d) = true <-> exists i, in_s 32 i /\ of_Z i = d).
Proof.
  intros Hd. unfold Value_double. pose proof (convertible_spec d Hd) as Hc.
  destruct (isInt32ConvertibleDouble cvt d) as [[|] i].
  - destruct Hc as [Hi <-]. rewrite asNumber_Value_int by assumption.
    split_and!; [apply Value_int_u64|apply isInt32_isNumber, isInt32_Value_int| |].
    + destruct (DoubleInvalidBeginning <=? of_Z i) eqn:E; [|reflexivity]. Zbool.
      apply invalid_is_nan in E; [|apply of_Z_u64].
      now rewrite is_finite_nan in E by auto using of_Z_finite, int32_small.
    + split; [eauto|intros _; apply isInt32_Value_int].
  - rewrite invalid_beginning by assumption.
    destruct (DoubleInvalidBeginning <=? d) eqn:E; Zbool.
    + split_and!; [vm_compute; split; congruence|reflexivity|reflexivity|].
      split; [discriminate|]. intros (i' & Hi & Ei). now apply Hc in Ei.
    + destruct (encode_double d) as (_ & H1 & H2 & H3 & H4); [unfold in_u in Hd; lia|].
      unfold asNumber. rewrite H3, H4. split_and!; [assumption..|reflexivity|].
      split; [discriminate|]. intros (i' & Hi & Ei). now apply Hc in Ei.
Qed.

End Cast.

End WordFacts.

(** * ToInt32 *)
Module ToInt32Facts.
Import Word WordFacts.

Definition expo (b : Z) : Z := mag b / 2 ^ 52.
Definition frac (b : Z) : Z := mag b mod 2 ^ 52.
Definition sgn (b : Z) : Z := if sign_bit b then 1 else 0.

Lemma expo_frac b : in_u 64 b ->
  b = sgn b * 2 ^ 63 + expo b * 2 ^ 52 + frac b /\ 0 <= expo b < 2048 /\ 0 <= frac b < 2 ^ 52.
Proof.
  intros H. pose proof (pattern_split b H) as E. pose proof (mag_range b) as Hm.
  unfold sgn, expo, frac. pose proof (Z.div_mod (mag b) (2 ^ 52)).
  pose proof (Z.mod_pos_bound (mag b) (2 ^ 52)).
  assert (0 <= mag b / 2 ^ 52 < 2048) by (split; [apply Z.div_pos|apply Z.div_lt_upper_bound]; lia).
  destruct (sign_bit b); lia.
Qed.

(** The signed word and the exponent field the code extracts. *)
Lemma bits_eq b : in_u 64 b -> i64 b = - sgn b * 2 ^ 63 + expo b * 2 ^ 52 + frac b.
Proof.
  intros H. destruct (expo_frac b H) as (E & He & Hf).
  apply wraps_unique; [lia| |].
  - unfold in_s. unfold sgn in *. destruct (sign_bit b); lia.
  - rewrite E at 1. unfold sgn. destruct (sign_bit b).
    + replace (_ - _) with (1 * 2 ^ 64) by lia. apply Z.mod_mul. lia.
    + replace (_ - _) with 0 by lia. reflexivity.
Qed.

Lemma exp_field b : in_u 64 b -> Z.land (i32 (Z.shiftr (i64 b) 52)) 0x7ff = expo b.
Proof.
  intros H. destruct (expo_frac b H) as (_ & He & Hf).
  rewrite (land_low_mask 11) by (reflexivity || lia).
  rewrite bits_eq, Z.shiftr_div_pow2 by (assumption || lia).
  replace (- sgn b * 2 ^ 63 + expo b * 2 ^ 52 + frac b)
    with (frac b + (expo b + - sgn b * 2 ^ 11) * 2 ^ 52) by lia.
  rewrite Z.div_add, Z.div_small, Z.add_0_l by lia.
  rewrite wraps_id by (unfold in_s, sgn; destruct (sign_bit b); lia).
  rewrite Z.mod_add, Z.mod_small by lia. reflexivity.
Qed.

Lemma bits_neg b : in_u 64 b -> (i64 b <? 0) = sign_bit b.
Proof.
  intros H. destruct (expo_frac b H) as (_ & He & Hf). rewrite bits_eq by assumption.
  unfold sgn. destruct (sign_bit b); [apply Z.ltb_lt|apply Z.ltb_ge]; lia.
Qed.

(** The integer part of a finite double of exponent at least 1023. *)
Lemma to_Z_big b :
  in_u 64 b -> 1023 <= expo b ->
  to_Z b = (if sign_bit b then -1 else 1) *
    (if 1075 <=? expo b then (2 ^ 52 + frac b) * 2 ^ (expo b - 1075)
     else (2 ^ 52 + frac b) / 2 ^ (1075 - expo b)).
Proof.
  intros H He. destruct (expo_frac b H) as (_ & He2 & Hf).
  assert (mag_scaled (mag b) = (2 ^ 52 + frac b) * 2 ^ (expo b - 1)) as Es.
  { unfold mag_scaled. fold (expo b) (frac b). destruct (expo b =? 0) eqn:E; Zbool; [lia|reflexivity]. }
  assert (mag_scaled (mag b) / UNIT = (if 1075 <=? expo b then (2 ^ 52 + frac b) * 2 ^ (expo b - 1075)
     else (2 ^ 52 + frac b) / 2 ^ (1075 - expo b))) as Eq.
  { rewrite Es. unfold UNIT. destruct (1075 <=? expo b) eqn:E; Zbool.
    - replace (expo b - 1) with ((expo b - 1075) + 1074) by lia.
      rewrite Z.pow_add_r, Z.mul_assoc by lia. apply Z.div_mul. lia.
    - replace 1074 with ((1075 - expo b) + (expo b - 1)) by lia.
      rewrite Z.pow_add_r by lia. apply Z.div_mul_cancel_r; lia. }
  rewrite <- Eq. unfold to_Z, scaled.
  pose proof (mag_scaled_nonneg (mag b) ltac:(apply mag_range)).
  assert (0 < UNIT) by (unfold UNIT; lia).
  destruct (sign_bit b); [rewrite Z.quot_opp_l by lia|]; rewrite Z.quot_div_nonneg by lia; lia.
Qed.

Lemma to_Z_small b : in_u 64 b -> expo b < 1023 -> to_Z b = 0.
Proof.
  intros H He. destruct (expo_frac b H) as (_ & He2 & Hf).
  assert (0 <= mag_scaled (mag b) < UNIT) as B.
  { split; [apply mag_scaled_nonneg, mag_range|].
    unfold mag_scaled. fold (expo b) (frac b). unfold UNIT. destruct (expo b =? 0) eqn:E; Zbool.
    - apply Z.lt_trans with (2 ^ 52); [lia|]. apply Z.pow_lt_mono_r; lia.
    - replace 1074 with (53 + 1021) by lia. rewrite Z.pow_add_r by lia.
      apply Z.mul_lt_mono_nonneg; [lia|lia|lia|apply Z.pow_lt_mono_r; lia] || 
      (apply Z.lt_le_trans with (2 ^ 53 * 2 ^ (expo b - 1)); [apply Z.mul_lt_mono_pos_r; lia|
        apply Z.mul_le_mono_nonneg_l; [lia|apply Z.pow_le_mono_r; lia]]). }
  unfold to_Z, scaled. destruct (sign_bit b); [rewrite Z.quot_opp_l by lia|]; rewrite Z.quot_small by lia; reflexivity.
Qed.

(** Congruence modulo 2^32 decides a conversion to int32. *)
Lemma i32_congr x y : x mod 2 ^ 32 = y mod 2 ^ 32 -> i32 x = i32 y.
Proof. intros E. rewrite <- (wraps_wrapu 32 x), <- (wraps_wrapu 32 y) by lia. unfold wrapu. now rewrite E. Qed.

Lemma i32_opp x y : x mod 2 ^ 32 = y mod 2 ^ 32 -> i32 (u32 (- u32 (i32 x))) = i32 (- y).
Proof.
  intros E. apply i32_congr. rewrite wrapu_wraps by lia. unfold wrapu.
  rewrite Zmod_mod. rewrite <- (Z.sub_0_l (x mod _)), Zminus_mod_idemp_r.
  rewrite <- (Z.sub_0_l y). rewrite (Zminus_mod 0 x), E, <- Zminus_mod. reflexivity.
Qed.

(** The 32 bits selected from the mantissa, before the sign is applied. *)
Definition selected (b : Z) : Z :=
  let bits := i64 b in
  let exp := expo b - 0x3ff in
  let result :=
    if 52 <? exp then i32 (u64 (Z.shiftl (u64 bits) (exp - 52))) else i32 (Z.shiftr bits (52 - exp)) in
  if exp <? 32 then
    let missingOne := u32 (Z.shiftl 1 exp) in
    i32 (u32 (Z.land (u32 result) (u32 (missingOne - 1)) + missingOne))
  else result.

Definition magnitude (b : Z) : Z :=
  if 1075 <=? expo b then (2 ^ 52 + frac b) * 2 ^ (expo b - 1075) else (2 ^ 52 + frac b) / 2 ^ (1075 - expo b).

Lemma u64_i64 b : in_u 64 b -> u64 (i64 b) = b.
Proof. intros. rewrite wrapu_wraps by lia. now apply wrapu_id. Qed.

(** The bits below the binary point are shifted out. *)
Lemma shifted_bits b t X :
  0 <= t <= 52 -> 0 <= frac b ->
  Z.shiftr (X * 2 ^ 52 + frac b) t = X * 2 ^ (52 - t) + frac b / 2 ^ t.
Proof.
  intros Ht Hf. rewrite Z.shiftr_div_pow2 by lia.
  replace (X * 2 ^ 52 + frac b) with (frac b + (X * 2 ^ (52 - t)) * 2 ^ t).
  - rewrite Z.div_add by lia. lia.
  - rewrite <- Z.mul_assoc, <- Z.pow_add_r by lia. replace (52 - t + t) with 52 by lia. lia.
Qed.

Lemma magnitude_small b t :
  in_u 64 b -> 1023 <= expo b -> t = 1075 - expo b -> 0 <= t ->
  magnitude b = 2 ^ (52 - t) + frac b / 2 ^ t.
Proof.
  intros H He -> Ht. destruct (expo_frac b H) as (_ & _ & Hf). unfold magnitude.
  destruct (1075 <=? expo b) eqn:E; Zbool.
  - assert (expo b = 1075) as -> by lia. cbn. rewrite Z.div_1_r. lia.
  - replace (2 ^ 52) with (2 ^ (52 - (1075 - expo b)) * 2 ^ (1075 - expo b)) at 1.
    + rewrite Z.div_add_l by lia. reflexivity.
    + rewrite <- Z.pow_add_r by lia. f_equal. lia.
Qed.

Lemma i32_of_multiple k x y : 32 <= k -> x mod 2 ^ 32 = (y * 2 ^ k + x) mod 2 ^ 32.
Proof.
  intros Hk. replace k with ((k - 32) + 32) by lia.
  rewrite Z.pow_add_r, Z.mul_assoc, Z.add_comm, Z.mod_add by lia. reflexivity.
Qed.

Lemma selected_spec b :
  in_u 64 b -> 1023 <= expo b <= 1106 -> selected b = i32 (magnitude b).
Proof.
  intros H He. destruct (expo_frac b H) as (E & _ & Hf).
  pose proof (bits_eq b H) as Eb. unfold selected. set (X := - sgn b * 2 ^ 11 + expo b).
  assert (i64 b = X * 2 ^ 52 + frac b) as EX by (rewrite Eb; unfold X; lia).
  destruct (expo b - 0x3ff <? 32) eqn:E32; Zbool.
  - destruct (52 <? expo b - 0x3ff) eqn:E52; Zbool; [lia|].
    set (t := 52 - (expo b - 0x3ff)).
    rewrite EX, (shifted_bits b t X) by (unfold t; lia).
    rewrite (magnitude_small b t) by (unfold t; assumption || lia).
    assert (52 - t = expo b - 0x3ff) as Et by (unfold t; lia). rewrite Et.
    set (e := expo b - 0x3ff) in *. assert (0 <= e < 32) by (unfold e; lia).
    assert (0 <= frac b / 2 ^ t < 2 ^ e) as Hfr.
    { split; [apply Z.div_pos; lia|]. apply Z.div_lt_upper_bound; [lia|].
      rewrite <- Z.pow_add_r by lia. replace (t + e) with 52 by lia. lia. }
    assert (1 <= 2 ^ e < 2 ^ 32) by (split; [lia|apply Z.pow_lt_mono_r; lia]).
    assert (2 * 2 ^ e <= 2 ^ 32) by (rewrite <- Z.pow_succ_r by lia; apply Z.pow_le_mono_r; lia).
    rewrite Z.shiftl_mul_pow2, Z.mul_1_l by lia.
    rewrite (wrapu_id 32 (2 ^ e)), (wrapu_id 32 (2 ^ e - 1)) by (unfold in_u; lia).
    rewrite (land_low_mask e) by lia. rewrite wrapu_wraps by lia.
    assert (forall z, u32 z mod 2 ^ e = z mod 2 ^ e) as Hmm.
    { intros z. unfold wrapu. replace 32 with (e + (32 - e)) by lia. rewrite Z.pow_add_r by lia.
      rewrite Z.rem_mul_r by lia. rewrite (Z.mul_comm (2 ^ e)), Z.mod_add by lia. apply Zmod_mod. }
    rewrite Hmm, (Z.add_comm (X * _)), Z.mod_add, Z.mod_small by lia.
    rewrite wrapu_id by (unfold in_u; lia). f_equal. lia.
  - destruct (52 <? expo b - 0x3ff) eqn:E52; Zbool.
    + rewrite u64_i64 by assumption. apply i32_congr.
      unfold magnitude. destruct (1075 <=? expo b) eqn:E3; Zbool; [|lia].
      replace (expo b - 1023 - 52) with (expo b - 1075) by lia.
      set (s := expo b - 1075). assert (0 < s < 32) by (unfold s; lia).
      rewrite Z.shiftl_mul_pow2 by lia. unfold wrapu.
      replace (2 ^ 64) with (2 ^ 32 * 2 ^ 32) by reflexivity.
      rewrite Z.rem_mul_r by lia. rewrite (Z.mul_comm (2 ^ 32)), Z.mod_add, Zmod_mod by lia.
      assert (b * 2 ^ s = ((sgn b * 2 ^ 11 + expo b) * 2 ^ s) * 2 ^ 52 + frac b * 2 ^ s) as ->
        by (rewrite E at 1; lia).
      replace ((2 ^ 52 + frac b) * 2 ^ s) with (2 ^ s * 2 ^ 52 + frac b * 2 ^ s) by lia.
      rewrite <- !i32_of_multiple by lia. reflexivity.
    + set (t := 52 - (expo b - 0x3ff)).
      rewrite EX, (shifted_bits b t X) by (unfold t; lia).
      rewrite (magnitude_small b t) by (unfold t; assumption || lia).
      apply i32_congr. rewrite <- (Z.mul_1_l (2 ^ (52 - t))) at 2.
      rewrite <- !i32_of_multiple by (unfold t; lia). reflexivity.
Qed.

(** The whole conversion in terms of the selected bits. *)
Lemma toInt32_unfold b :
  in_u 64 b ->
  toInt32SlowCase b =
    if (expo b - 0x3ff <? 0) || (83 <? expo b - 0x3ff) then 0
    else if i64 b <? 0 then i32 (u32 (- u32 (selected b))) else selected b.
Proof. intros H. unfold toInt32SlowCase. rewrite exp_field by assumption. reflexivity. Qed.

Lemma i32_zero x : x mod 2 ^ 32 = 0 -> i32 x = 0.
Proof. intros E. rewrite (i32_congr x 0) by (rewrite E; reflexivity). reflexivity. Qed.

Lemma toInt32SlowCase_spec b :
  in_u 64 b -> toInt32SlowCase b = if is_finite b then i32 (to_Z b) else 0.
Proof.
  intros H. rewrite toInt32_unfold by assumption. destruct (expo_frac b H) as (_ & He & Hf).
  assert (is_finite b = (expo b <? 2047)) as ->.
  { unfold is_finite, INF, expo. pose proof (mag_range b). apply eq_true_iff_eq. rewrite !Z.ltb_lt.
    pose proof (Z.div_mod (mag b) (2 ^ 52)). pose proof (Z.mod_pos_bound (mag b) (2 ^ 52)). lia. }
  destruct (expo b - 0x3ff <? 0) eqn:E1; Zbool; cbn [orb].
  { rewrite to_Z_small by (assumption || lia). now destruct (expo b <? 2047). }
  destruct (83 <? expo b - 0x3ff) eqn:E2; Zbool.
  - destruct (expo b <? 2047); [|reflexivity]. rewrite to_Z_big by (assumption || lia).
    destruct (1075 <=? expo b) eqn:E3; Zbool; [|lia]. symmetry. apply i32_zero.
    replace (expo b - 1075) with ((expo b - 1107) + 32) by lia.
    rewrite Z.pow_add_r, !Z.mul_assoc by lia. apply Z.mod_mul. lia.
  - replace (expo b <? 2047) with true by (symmetry; apply Z.ltb_lt; lia).
    rewrite bits_neg, selected_spec, to_Z_big by (assumption || lia). fold (magnitude b).
    destruct (sign_bit b).
    + rewrite (i32_opp _ (magnitude b)) by reflexivity. f_equal; lia.
    + f_equal; lia.
Qed.

End ToInt32Facts.

(** * Conversions of number values to integers and indexes *)
Module ConversionFacts.
Import Word WordFacts.

Section Conversions.
Context (cvt : Z -> Z) (cvt_int : forall d, in_s 32 (cvt d)) (toNumberSlowCase : Z -> Z).
Local Abbreviation toNumber := (toNumber toNumberSlowCase).
Local Abbreviation toInteger := (toInteger toNumberSlowCase).

(** [toNumber] of a number value is the number, by the same test on the tag. *)
Lemma toNumber_number v : in_u 64 v -> isNumber v = true -> toNumber v = asNumber v.
Proof.
  intros H Hn. unfold Word.toNumber, asNumber, TagTypeNumber.
  rewrite (land_high_mask 64 48) by (try assumption; reflexivity || lia).
  pose proof (proj1 (isNumber_iff v H) Hn) as Hv.
  pose proof (Z.div_mod v (2 ^ 48)). pose proof (Z.mod_pos_bound v (2 ^ 48)).
  destruct (v - v mod 2 ^ 48 =? 0) eqn:E; Zbool; [lia|]. cbn [negb].
  assert ((v - v mod 2 ^ 48 =? 0xffff000000000000) = isInt32 v) as ->; [|reflexivity].
  unfold isInt32. rewrite Z.shiftr_div_pow2 by lia. apply eq_true_iff_eq. rewrite !Z.eqb_eq. lia.
Qed.

(** The integer part, exactly, for every finite number. *)
Lemma toInteger_number v :
  in_u 64 v -> isNumber v = true -> is_finite (asNumber v) = true ->
  is_finite (toInteger v) = true /\ scaled (toInteger v) = to_Z (asNumber v) * UNIT /\ in_u 64 (toInteger v).
Proof.
  intros H Hn Hf. unfold Word.toInteger. rewrite toNumber_number by assumption.
  destruct (isInt32 v) eqn:E.
  - unfold asNumber. rewrite E.
    pose proof (of_Z_exact (asInt32 v) (int32_small _ (asInt32_range v))) as [F S].
    rewrite to_Z_of_Z by apply int32_small, asInt32_range. auto using of_Z_u64.
  - set (d := asNumber v) in *. rewrite is_finite_nan by assumption. cbn [orb].
    destruct (feq d 0) eqn:E0.
    { rewrite feq_scaled in E0 by (assumption || reflexivity). Zbool. unfold to_Z. rewrite E0.
      split_and!; [reflexivity|reflexivity|unfold in_u; lia]. }
    assert (forall i, is_finite i = false -> feq d i = false) as Hinf.
    { intros i Hi. destruct (feq d i) eqn:Ei; [|reflexivity]. apply feq_finite in Ei; congruence. }
    rewrite !Hinf by reflexivity. cbn [orb].
    pose proof (fabs_facts d) as [Em Es]. pose proof (mag_range d) as Hm.
    assert (0 <= mag d < INF) as Hmf by (unfold is_finite in Hf; Zbool; lia).
    assert (ffloor (fabs d) = of_ratio false (mag_scaled (mag d) / UNIT) 1) as ->.
    { unfold ffloor. unfold is_finite. rewrite Em. unfold is_finite in Hf. rewrite Hf, Es.
      f_equal. unfold floor_Z, scaled. rewrite Es, Em. apply Z.abs_eq, Z.div_pos; [|unfold UNIT; lia].
      apply mag_scaled_nonneg. lia. }
    destruct (of_ratio_int false (mag d) Hmf) as [F S].
    assert (flt d 0 = sign_bit d) as ->.
    { rewrite scaled_neg_iff by assumption. unfold scaled.
      destruct (sign_bit d) eqn:Sd.
      - apply Z.ltb_lt. assert (mag d <> 0) as Hz.
        { intros Hz. rewrite feq_scaled in E0 by (assumption || reflexivity). unfold scaled in E0.
          rewrite Sd, Hz in E0. Zbool. apply E0. reflexivity. }
        pose proof (mag_scaled_mono 0 (mag d) ltac:(lia)) as Hpos. rewrite mag_scaled_0 in Hpos. lia.
      - apply Z.ltb_ge. apply mag_scaled_nonneg. lia. }
    assert (0 <= mag_scaled (mag d) / UNIT) as Hq
      by (apply Z.div_pos; [apply mag_scaled_nonneg; lia|unfold UNIT; lia]).
    destruct (fmul_unit (sign_bit d) _ F (of_ratio_sign false _ 1 Hq ltac:(lia))) as (F2 & S2 & U2).
    assert (forall s : bool, (if s then of_Z (-1) else of_Z 1) = of_Z (if s then -1 else 1)) as ->
      by (intros []; exact eq_refl).
    split_and!; [assumption| |assumption]. rewrite S2, S, to_Z_abs. lia.
Qed.

Lemma to_Z_scaled d t : scaled d = t * UNIT -> to_Z d = t.
Proof. intros E. unfold to_Z. rewrite E. apply Z.quot_mul. unfold UNIT. lia. Qed.

(** A finite double that is already an integer goes through unchanged. *)
Lemma toLength_double d t :
  in_u 64 d -> is_finite d = true -> scaled d = t * UNIT ->
  toLength toNumberSlowCase (Value_double cvt d) = Z.max 0 (Z.min t (2 ^ 53 - 1)).
Proof.
  intros Hd Hf Hs. destruct (Value_double_number cvt cvt_int d Hd) as (Hu & Hn & Ea & _).
  assert ((DoubleInvalidBeginning <=? d) = false) as EI.
  { destruct (_ <=? _) eqn:E; [|reflexivity]. Zbool. apply invalid_is_nan in E; [|assumption].
    rewrite is_finite_nan in E by assumption. discriminate. }
  rewrite EI in Ea.
  destruct (toInteger_number _ Hu Hn) as (F & S & _); [now rewrite Ea|]. rewrite Ea, (to_Z_scaled d t Hs) in S.
  unfold toLength. set (len := toInteger _) in *.
  assert (fle len 0 = (t <=? 0)) as ->.
  { unfold fle. rewrite is_finite_nan by assumption. cbn [negb andb].
    pose proof (flt_scaled 0 len eq_refl F) as E. unfold flt in E. rewrite (is_finite_nan len) in E by assumption.
    change (is_nan 0) with false in E. cbn [negb andb] in E. rewrite S in E. change (scaled 0) with 0 in E.
    change (is_nan 0) with false. cbn [negb andb].
    change 0 with (0 * UNIT) in E at 2. rewrite unit_ltb in E. rewrite Z.leb_antisym, E, Z.leb_antisym. reflexivity. }
  destruct (t <=? 0) eqn:Et; Zbool; [lia|].
  unfold maximumLength. pose proof (of_Z_exact (2 ^ 53 - 1) ltac:(lia)) as [FM SM].
  rewrite flt_scaled, S, SM, unit_ltb by assumption.
  destruct (_ <? _) eqn:El; Zbool.
  - rewrite to_Z_of_Z by lia. lia.
  - rewrite (to_Z_scaled len t S). lia.
Qed.


(** The index conversion of a number value. *)
Lemma toIndex_number v :
  in_u 64 v -> isNumber v = true ->
  toIndex cvt toNumberSlowCase v =
    if is_nan (asNumber v) then 0
    else if is_finite (asNumber v) && (0 <=? to_Z (asNumber v)) && (to_Z (asNumber v) <=? 2 ^ 53 - 1)
    then to_Z (asNumber v) else InvalidIndexValue.
Proof.
  intros H Hn. unfold toIndex.
  assert (isUndefined v = false) as ->.
  { apply Z.eqb_neq. intros ->. discriminate. }
  destruct (isInt32 v && (0 <=? asInt32 v)) eqn:E1.
  - Zbool. unfold asNumber. rewrite H0. pose proof (int32_small _ (asInt32_range v)) as Hs.
    rewrite is_finite_nan, of_Z_finite, to_Z_of_Z by auto using of_Z_finite.
    pose proof (asInt32_range v) as Hr. unfold in_s in Hr.
    replace (0 <=? asInt32 v) with true by (symmetry; apply Z.leb_le; lia).
    replace (asInt32 v <=? 2 ^ 53 - 1) with true by (symmetry; apply Z.leb_le; lia). reflexivity.
  - destruct (is_finite (asNumber v)) eqn:Hf.
    + rewrite is_finite_nan by assumption. cbn [andb].
      destruct (toInteger_number v H Hn Hf) as (F & S & U). set (t := to_Z (asNumber v)) in *.
      rewrite (toLength_double _ t U F S).
      rewrite scaled_neg_iff, S by assumption.
      assert ((t * UNIT <? 0) = (t <? 0)) as -> by (rewrite <- (unit_ltb t 0); reflexivity).
      pose proof (of_Z_exact (Z.max 0 (Z.min t (2 ^ 53 - 1))) ltac:(lia)) as [F2 S2].
      rewrite feq_scaled, S, S2, unit_eqb by assumption.
      destruct (t <? 0) eqn:Et, (t =? Z.max 0 (Z.min t (2 ^ 53 - 1))) eqn:Em,
        (0 <=? t) eqn:El, (t <=? 2 ^ 53 - 1) eqn:Eh; Zbool; cbn [orb negb andb]; lia.
    + assert (isInt32 v = false) as Ei.
      { destruct (isInt32 v) eqn:Ei; [|reflexivity]. unfold asNumber in Hf. rewrite Ei in Hf.
        rewrite of_Z_finite in Hf by apply int32_small, asInt32_range. discriminate. }
      unfold Word.toInteger. rewrite toNumber_number, Ei by assumption. set (d := asNumber v) in *.
      destruct (is_nan d) eqn:En; cbn [orb].
      { rewrite (toLength_double 0 0) by (unfold in_u; reflexivity || lia). reflexivity. }
      cbn [andb]. pose proof (asNumber_u64 v) as Hu. fold d in Hu.
      assert (mag d = INF) as Em by (unfold is_nan, is_finite in *; Zbool; lia).
      assert (d = INF \/ d = 2 ^ 63 + INF) as Hd.
      { rewrite (pattern_split d Hu), Em. destruct (sign_bit d); [right|left]; reflexivity. }
      destruct Hd as [-> | ->]; [|reflexivity].
      change (feq INF 0) with false. change (feq INF INF || feq INF (neg INF)) with true. cbv iota.
      assert (toLength toNumberSlowCase (Value_double cvt INF) = 2 ^ 53 - 1) as ->; [|reflexivity].
      assert (Value_double cvt INF = Value_EncodeAsDouble INF) as ->.
      { unfold Value_double. pose proof (convertible_spec cvt cvt_int INF ltac:(unfold in_u; vm_compute; intuition congruence)) as Hc.
        destruct (isInt32ConvertibleDouble cvt INF) as [[|] i]; [|reflexivity]. destruct Hc as [Hi Hc].
        assert (is_finite INF = true) as Hx by (rewrite <- Hc; apply of_Z_finite, int32_small, Hi). discriminate. }
      vm_compute. reflexivity.
Qed.

End Conversions.
End ConversionFacts.

(** * The language values words denote, and equality on them *)
Module ValueSpec.
Import Word WordFacts Heap.

(** ECMAScript language values; objects and symbols are identified by address. *)
Inductive js :=
  | JUndefined
  | JNull
  | JBool (b : bool)
  | JNumber (d : Z)
  | JString (s : list Z)
  | JSymbol (p : Z)
  | JBigInt (n : Z)
  | JObject (p : Z).

Definition cell_js (p : Z) (c : HeapCell) : option js :=
  match c with
  | HString s => Some (JString s)
  | HSymbol => Some (JSymbol p)
  | HBigInt n => Some (JBigInt n)
  | HObject => Some (JObject p)
  | HNumber _ => None
  end.

Definition denote (h : heap) (v : Z) : option js :=
  if isNumber v then Some (JNumber (asNumber v))
  else if isPointerValue v then h !! v ≫= cell_js v
  else if v =? ValueFalse then Some (JBool false)
  else if v =? ValueTrue then Some (JBool true)
  else if v =? ValueNull then Some JNull
  else if v =? ValueUndefined then Some JUndefined
  else None.

(** IsStrictlyEqual, SameValue and SameValueZero of ECMA-262. *)
Definition number_sameValue (a b : Z) : bool := (is_nan a && is_nan b) || (a =? b).
Definition number_sameValueZero (a b : Z) : bool := (is_nan a && is_nan b) || feq a b.
Definition js_equal (on_numbers : Z -> Z -> bool) (x y : js) : bool :=
  match x, y with
  | JUndefined, JUndefined | JNull, JNull => true
  | JBool a, JBool b => eqb a b
  | JNumber a, JNumber b => on_numbers a b
  | JString s, JString t => bool_decide (s = t)
  | JSymbol p, JSymbol q => p =? q
  | JBigInt m, JBigInt n => m =? n
  | JObject p, JObject q => p =? q
  | _, _ => false
  end.
Definition js_strictEquals := js_equal feq.
Definition js_sameValue := js_equal number_sameValue.
Definition js_sameValueZero := js_equal number_sameValueZero.

(** The three shapes of a word that denotes something. *)
Inductive shape (h : heap) (v : Z) : js -> Prop :=
  | shape_number : isNumber v = true -> isPointerValue v = false -> shape h v (JNumber (asNumber v))
  | shape_pointer c x : isNumber v = false -> isPointerValue v = true -> h !! v = Some c ->
      cell_js v c = Some x -> shape h v x
  | shape_immediate x : isNumber v = false -> isPointerValue v = false ->
      (x, v) ∈ [(JBool false, ValueFalse); (JBool true, ValueTrue); (JNull, ValueNull); (JUndefined, ValueUndefined)] ->
      shape h v x.

Lemma denote_shape h v x : in_u 64 v -> denote h v = Some x -> shape h v x.
Proof.
  intros H. unfold denote. destruct (isNumber v) eqn:En.
  - intros [= <-]. constructor; [assumption|]. destruct (isPointerValue v) eqn:E; [|reflexivity].
    apply isPointer_not_number in E; congruence.
  - destruct (isPointerValue v) eqn:Ep.
    + destruct (h !! v) as [c|] eqn:Ec; [|discriminate]. cbn. intros Hx. eapply shape_pointer; eassumption.
    + intros Hx. apply shape_immediate; [assumption..|].
      repeat (case_match; Zbool; [simplify_eq; set_solver|]). discriminate.
Qed.

Lemma feq_not_nan a b : is_nan a || is_nan b = true -> feq a b = false.
Proof. unfold feq. destruct (is_nan a), (is_nan b); simpl; congruence. Qed.

(** [a == b && signbit(a) == signbit(b)] is equality of patterns. *)
Lemma feq_sign a b :
  in_u 64 a -> in_u 64 b -> is_nan a || is_nan b = false ->
  feq a b && eqb (sign_bit a) (sign_bit b) = (a =? b).
Proof.
  intros Ha Hb Hn. apply eq_true_iff_eq. rewrite andb_true_iff, Z.eqb_eq, eqb_true_iff. split.
  - intros [E Es]. unfold feq in E. Zbool. apply key_inj; auto.
  - intros ->. rewrite feq_refl. apply orb_false_elim in Hn as [-> _]. auto.
Qed.

(** The pointer comparison: identity, or equal string or BigInt contents. *)
Lemma pointerEquals_spec (on_numbers : Z -> Z -> bool) h v w x y :
  in_u 64 v -> in_u 64 w -> shape h v x -> shape h w y -> isPointerValue w = true ->
  pointerEquals h v w = js_equal on_numbers x y.
Proof.
  intros Hv Hw Sx Sy Hp. unfold pointerEquals.
  inversion Sy as [|c y' Hn _ Hc Hy|]; subst; [congruence| |congruence].
  destruct Sx as [Hnv Hpv|cv xv Hnv Hpv Hcv Hx|x Hnv Hpv Hx].
  - replace (v =? w) with false by (symmetry; apply Z.eqb_neq; congruence). rewrite Hpv. cbn.
    destruct c; simplify_eq/=; reflexivity.
  - rewrite Hpv. cbn [negb]. unfold isString, isBigInt, String_equals, BigInt_equals.
    rewrite Hpv, Hp, Hcv, Hc. cbn [andb].
    destruct (v =? w) eqn:E; Zbool.
    + subst w. rewrite Hcv in Hc. simplify_eq. destruct c; simplify_eq/=; symmetry;
        try apply Z.eqb_refl; now apply bool_decide_eq_true.
    + destruct cv, c; simplify_eq/=; try reflexivity; symmetry; now apply Z.eqb_neq.
  - replace (v =? w) with false by (symmetry; apply Z.eqb_neq; congruence). rewrite Hpv. cbn.
    destruct c; simplify_eq/=; set_unfold; destruct_or!; simplify_eq/=; reflexivity.
Qed.

(** Non-pointer operands: numbers by the given comparison, the rest by word. *)
Lemma immediateEquals_spec (on_numbers : Z -> Z -> bool) h v w x y :
  in_u 64 v -> in_u 64 w -> shape h v x -> shape h w y -> isPointerValue w = false ->
  js_equal on_numbers x y =
    if isNumber v && isNumber w then on_numbers (asNumber v) (asNumber w) else v =? w.
Proof.
  intros Hv Hw Sx Sy Hp.
  destruct Sy as [Hn _|c y' Hn Hp' Hc Hy|y Hn _ Hy]; [|congruence|];
    destruct Sx as [Hnv Hpv|cv xv Hnv Hpv Hcv Hx|x Hnv Hpv Hx]; rewrite Hn, Hnv; cbn [andb].
  - reflexivity.
  - replace (v =? w) with false by (symmetry; apply Z.eqb_neq; congruence).
    destruct cv; simplify_eq/=; reflexivity.
  - replace (v =? w) with false by (symmetry; apply Z.eqb_neq; congruence).
    set_unfold; destruct_or!; simplify_eq/=; reflexivity.
  - replace (v =? w) with false by (symmetry; apply Z.eqb_neq; congruence).
    set_unfold; destruct_or!; simplify_eq/=; reflexivity.
  - replace (v =? w) with false by (symmetry; apply Z.eqb_neq; congruence).
    destruct cv; set_unfold; destruct_or!; simplify_eq/=; reflexivity.
  - set_unfold; destruct_or!; simplify_eq/=; reflexivity.
Qed.

Section Spec.
Context (h : heap) (v w : Z) (x y : js).
Context (Hv : in_u 64 v) (Hw : in_u 64 w) (Dv : denote h v = Some x) (Dw : denote h w = Some y).

Lemma sameValue_spec : equalsToByTheSameValueAlgorithm h v w = js_sameValue x y.
Proof using All.
  pose proof (denote_shape _ _ _ Hv Dv) as Sx. pose proof (denote_shape _ _ _ Hw Dw) as Sy.
  unfold equalsToByTheSameValueAlgorithm, js_sameValue. destruct (isPointerValue w) eqn:Ep; cbn [negb].
  - now apply pointerEquals_spec.
  - rewrite (immediateEquals_spec number_sameValue h v w x y) by assumption.
    destruct (isNumber v && isNumber w); [|reflexivity]. unfold number_sameValue.
    destruct (is_nan (asNumber v) || is_nan (asNumber w)) eqn:En.
    + destruct (is_nan (asNumber v)) eqn:Ea, (is_nan (asNumber w)) eqn:Eb; try discriminate; cbn; [reflexivity|..];
        symmetry; apply Z.eqb_neq; congruence.
    + rewrite feq_sign by auto using asNumber_u64. apply orb_false_elim in En as [-> ->]. reflexivity.
Qed.

Lemma sameValueZeroSlow_spec : equalsToByTheSameValueZeroAlgorithmSlowCase h v w = js_sameValueZero x y.
Proof using All.
  pose proof (denote_shape _ _ _ Hv Dv) as Sx. pose proof (denote_shape _ _ _ Hw Dw) as Sy.
  unfold equalsToByTheSameValueZeroAlgorithmSlowCase, js_sameValueZero. destruct (isPointerValue w) eqn:Ep; cbn [negb].
  - now apply pointerEquals_spec.
  - rewrite (immediateEquals_spec number_sameValueZero h v w x y) by assumption.
    destruct (isNumber v && isNumber w); [|reflexivity]. unfold number_sameValueZero.
    destruct (is_nan (asNumber v) || is_nan (asNumber w)) eqn:En.
    + rewrite feq_not_nan by assumption. now rewrite orb_false_r.
    + apply orb_false_elim in En as [-> ->]. reflexivity.
Qed.

Lemma sameValueZero_spec : equalsToByTheSameValueZeroAlgorithm h v w = js_sameValueZero x y.
Proof using All.
  unfold equalsToByTheSameValueZeroAlgorithm. destruct (isInt32 v && isInt32 w) eqn:E; [|apply sameValueZeroSlow_spec].
  Zbool. unfold denote in Dv, Dw. rewrite !isInt32_isNumber in * by assumption.
  injection Dv as <-. injection Dw as <-. cbn. unfold asNumber, number_sameValueZero. rewrite H, H0.
  rewrite feq_of_Z by apply int32_small, asInt32_range.
  now rewrite (is_finite_nan (of_Z _)) by apply of_Z_finite, int32_small, asInt32_range.
Qed.

Lemma strictEquals_spec : equalsTo h v w = js_strictEquals x y.
Proof using All.
  pose proof (denote_shape _ _ _ Hv Dv) as Sx. pose proof (denote_shape _ _ _ Hw Dw) as Sy.
  unfold equalsTo, js_strictEquals. destruct (v =? w) eqn:E; Zbool.
  - subst w. rewrite Dv in Dw. injection Dw as <-.
    destruct (isPointerValue v) eqn:Ep.
    + assert (isDouble v = false) as -> by (unfold isDouble; now rewrite isPointer_not_number).
      rewrite <- (pointerEquals_spec feq h v v x x) by assumption. unfold pointerEquals. now rewrite Z.eqb_refl.
    + rewrite (immediateEquals_spec feq h v v x x), Z.eqb_refl by assumption.
      unfold isDouble, asNumber. destruct (isInt32 v) eqn:Ei; [|destruct (isNumber v); cbn; [now rewrite feq_refl|reflexivity]].
      rewrite isInt32_isNumber by assumption. cbn.
      rewrite feq_refl, is_finite_nan by apply of_Z_finite, int32_small, asInt32_range. reflexivity.
  - destruct (isPointerValue w) eqn:Epw, (isPointerValue v) eqn:Epv; cbn [eqb negb].
    + rewrite !isPointer_not_number by assumption. cbn [andb]. unfold equalsToSlowCase. rewrite Epw. cbn [negb].
      rewrite <- (pointerEquals_spec feq h v w x y) by assumption.
      destruct (isObject h v && isObject h w) eqn:Eo; [|reflexivity].
      Zbool. unfold isObject, pointerEquals, isString, isBigInt in *. Zbool.
      destruct (h !! v) as [[]|]; try discriminate. replace (v =? w) with false by (symmetry; now apply Z.eqb_neq).
      now rewrite Epv.
    + rewrite <- (pointerEquals_spec feq h v w x y) by assumption. unfold pointerEquals. rewrite Epv.
      now replace (v =? w) with false by (symmetry; now apply Z.eqb_neq).
    + rewrite (immediateEquals_spec feq h v w x y) by assumption.
      rewrite (isPointer_not_number v) by assumption. cbn [andb]. symmetry. now apply Z.eqb_neq.
    + rewrite (immediateEquals_spec feq h v w x y) by assumption.
      destruct (isNumber v && isNumber w) eqn:En; [reflexivity|].
      unfold isObject. rewrite Epv. cbn [andb]. unfold equalsToSlowCase. now rewrite Epw, En.
Qed.
End Spec.

End ValueSpec.

(** * Encoding values for the heap *)
Module EncodedFacts.
Import Word WordFacts Heap ValueSpec Encoded.

(** Addresses the allocator returns: non-null, 8-byte aligned, 48 bits. *)
Definition addr_ok (p : Z) : Prop := 14 < p < 2 ^ 48 /\ p mod 8 = 0.

(** Every allocated cell has such an address and number cells hold numbers. *)
Definition heap_ok (h : heap) : Prop :=
  map_Forall (fun p c => addr_ok p /\
    match c with HNumber v => in_u 64 v /\ isNumber v = true | _ => True end) h.

Lemma addr_facts p : addr_ok p ->
  in_u 64 p /\ isNumber p = false /\ isPointerValue p = true /\ HAS_SMI_TAG p = false /\ ValueLast <? u64 p = true.
Proof.
  intros [Hr Hm]. assert (in_u 64 p) as Hu by (unfold in_u; lia).
  assert (isNumber p = false) as Hn.
  { destruct (isNumber p) eqn:E; [|reflexivity]. apply isNumber_iff in E; [|assumption]. lia. }
  pose proof (Z.div_mod p 8 ltac:(lia)) as Hd.
  split_and!; [assumption|assumption| | |].
  - unfold isPointerValue, TagMask, TagTypeNumber, TagBitTypeOther. rewrite Z.land_lor_distr_r.
    rewrite (land_high_mask 64 48) by (try assumption; reflexivity || lia). rewrite Z.mod_small, Z.sub_diag by lia.
    apply Z.eqb_eq. rewrite Z.lor_0_l. apply Z.bits_inj'. intros i Hi. rewrite Z.land_spec, Z.bits_0.
    destruct (decide (i < 3)).
    + rewrite <- (Z.mod_pow2_bits_low p 3 i) by lia. change (2 ^ 3) with 8. now rewrite Hm, Z.bits_0.
    + rewrite (Z.bits_above_log2 2 i), andb_false_r by (change (Z.log2 2) with 1; lia). reflexivity.
  - unfold HAS_SMI_TAG, kSmiTagMask, kSmiTag. rewrite (land_low_mask 1) by (reflexivity || lia).
    apply Z.eqb_neq. change (2 ^ 1) with 2. assert (p mod 2 = 0); [|lia].
    replace p with ((p / 8 * 4) * 2) by lia. apply Z.mod_mul. lia.
  - rewrite wrapu_id by assumption. apply Z.ltb_lt. change ValueLast with 14. lia.
Qed.

Lemma IsValidSmi_spec i : in_s 32 i -> IsValidSmi i = (- 2 ^ 30 <=? i) && (i <? 2 ^ 30).
Proof.
  unfold in_s. intros H. unfold IsValidSmi. rewrite wraps_id by (unfold in_s; lia).
  apply eq_true_iff_eq. rewrite andb_true_iff, Z.leb_le, !Z.ltb_lt. unfold wrapu.
  destruct (decide (0 <= i + 0x40000000)).
  - rewrite Z.mod_small by lia. lia.
  - replace (i + 0x40000000) with ((i + 0x40000000 + 2 ^ 64) + -1 * 2 ^ 64) by lia.
    rewrite Z.mod_add, Z.mod_small by lia. lia.
Qed.

(** Small integers: the tag bit is set and untagging gives the integer back. *)
Lemma smi_roundtrip i :
  - 2 ^ 30 <= i < 2 ^ 30 -> IntToSmi i = 2 * i + 1 /\ HAS_SMI_TAG (IntToSmi i) = true /\ SmiToInt (IntToSmi i) = i.
Proof.
  intros H. assert (IntToSmi i = 2 * i + 1) as E.
  { unfold IntToSmi, kSmiShiftBits, kSmiTag. rewrite Z.shiftl_mul_pow2 by lia. change (2 ^ 1) with 2.
    rewrite (lor_disjoint 1); [|lia|lia|].
    - apply wraps_unique; [lia|unfold in_s; lia|]. unfold wrapu.
      replace ((i mod 2 ^ 64 * 2) mod 2 ^ 64) with ((2 * i) mod 2 ^ 64)
        by (rewrite Zmult_mod_idemp_l; f_equal; lia).
      replace (_ - _) with ((2 * i) mod 2 ^ 64 - 2 * i) by lia.
      pose proof (Z.div_mod (2 * i) (2 ^ 64)) as Hd.
      replace ((2 * i) mod 2 ^ 64 - 2 * i) with ((- (2 * i / 2 ^ 64) * 2 ^ 32) * 2 ^ 32) by lia.
      apply Z.mod_mul. lia.
    - unfold wrapu. rewrite (Z.mul_comm (i mod _)). change (2 ^ 1) with 2.
      replace (2 ^ 64) with (2 * 2 ^ 63) by reflexivity. rewrite Z.rem_mul_r by lia.
      rewrite (Z.mul_comm 2 (i mod _)), Z.mod_mul, Z.add_0_l by lia.
      rewrite Z.mul_comm. apply Z.mod_mul. lia. }
  split_and!; [assumption| |]; rewrite E.
  - unfold HAS_SMI_TAG, kSmiTagMask, kSmiTag. rewrite (land_low_mask 1) by (reflexivity || lia).
    change (2 ^ 1) with 2. replace (2 * i + 1) with (1 + i * 2) by lia. rewrite Z.mod_add by lia. reflexivity.
  - unfold SmiToInt, kSmiShiftBits. rewrite Z.shiftr_div_pow2 by lia. change (2 ^ 1) with 2.
    replace (2 * i + 1) with (1 + i * 2) by lia. rewrite Z.div_add by lia. change (1 / 2) with 0.
    rewrite Z.add_0_l. apply wraps_id; [lia|unfold in_s; lia].
Qed.

Lemma toValue_smi t h i : - 2 ^ 30 <= i < 2 ^ 30 -> toValue t h (IntToSmi i) = Some (Value_int i).
Proof. intros H. unfold toValue. destruct (smi_roundtrip i H) as (_ & -> & ->). reflexivity. Qed.

Lemma toValue_cell t h p c :
  addr_ok p -> h !! p = Some c -> toValue t h p = Some (match c with HNumber v => v | _ => p end).
Proof.
  intros Hp Hc. destruct (addr_facts p Hp) as (Hu & _ & _ & Hs & Hl). unfold toValue. rewrite Hs.
  destruct (u64 p <=? ValueLast) eqn:E; Zbool; [lia|]. rewrite Hc. destruct c; now rewrite ?wrapu_id.
Qed.

(** A value that is a pointer denotes through a cell that is not a number. *)
Lemma denote_pointer h v x :
  heap_ok h -> in_u 64 v -> denote h v = Some x -> isPointerValue v = true ->
  exists c, h !! v = Some c /\ addr_ok v /\ match c with HNumber _ => False | _ => True end.
Proof.
  intros Hh Hv D Hp. destruct (denote_shape h v x Hv D) as [|c x Hn _ Hc Hx|]; [congruence| |congruence].
  exists c. destruct (Hh v c Hc) as [Ha _]. split_and!; [assumption..|]. destruct c; (exact I || discriminate).
Qed.

Lemma denote_number h v : isNumber v = true -> denote h v = Some (JNumber (asNumber v)).
Proof. intros E. unfold denote. now rewrite E. Qed.

(** Changing only number cells does not change what words denote. *)
Lemma denote_frame h h' v x :
  in_u 64 v -> denote h v = Some x ->
  (forall q c, h !! q = Some c -> match c with HNumber _ => True | _ => h' !! q = Some c end) ->
  denote h' v = Some x.
Proof.
  intros Hv D Hf. revert D. unfold denote. destruct (isNumber v); [auto|].
  destruct (isPointerValue v); [|auto].
  destruct (h !! v) as [c|] eqn:Ec; [|discriminate]. cbn. intros Hx. specialize (Hf v c Ec).
  destruct c; try discriminate Hx; rewrite Hf; exact Hx.
Qed.

Section Cast.
Context (cvt : Z -> Z) (cvt_int : forall d, in_s 32 (cvt d)).

Lemma heap_ok_insert h p v : heap_ok h -> addr_ok p -> in_u 64 v -> isNumber v = true -> heap_ok (<[p := HNumber v]> h).
Proof. intros Hh Hp Hv Hn. apply map_Forall_insert_2; auto. Qed.

Lemma toValue_immediate t h v x :
  in_u 64 v -> denote h v = Some x -> isNumber v = false -> isPointerValue v = false ->
  toValue t h (i64 v) = Some v.
Proof.
  intros Hv D Hn Hp. destruct (denote_shape h v x Hv D) as [|c x ? ? Hc Hx|x _ _ Hx]; [congruence..|].
  set_unfold; destruct_or!; simplify_eq/=; now destruct t.
Qed.

(** The outcome both the constructor and the assignment have on numbers. *)
Lemma number_choice v :
  in_u 64 v -> isNumber v = true ->
  match isInt32ConvertibleDouble cvt (asNumber v) with
  | (true, i) => in_s 32 i /\ asNumber (Value_int i) = asNumber v
  | _ => True
  end.
Proof.
  intros Hv Hn. pose proof (convertible_spec cvt cvt_int _ (asNumber_u64 v)) as Hc.
  destruct (isInt32ConvertibleDouble cvt (asNumber v)) as [[|] i]; [|exact I].
  destruct Hc as [Hi E]. split; [assumption|]. now rewrite asNumber_Value_int.
Qed.

Lemma smi_of_int32 i : in_s 32 i -> IsValidSmi i = true -> - 2 ^ 30 <= i < 2 ^ 30.
Proof. intros H E. rewrite IsValidSmi_spec in E by assumption. Zbool. lia. Qed.

Lemma smi_int_denotes h v : isInt32 v = true -> denote h (Value_int (asInt32 v)) = denote h v.
Proof.
  intros E. rewrite !denote_number by auto using isInt32_isNumber, isInt32_Value_int.
  rewrite asNumber_Value_int by apply asInt32_range. unfold asNumber. now rewrite E.
Qed.

(** What both encodings guarantee: the payload reads back as a value that denotes
    the same, only the cells [touched] changed, and the heap stays valid. *)
Definition encodes (h h' : heap) (touched : Z -> Prop) (payload : Z) (x : js) : Prop :=
  heap_ok h' /\
  (exists v', toValue false h' payload = Some v' /\ in_u 64 v' /\ denote h' v' = Some x) /\
  (forall q, ~ touched q -> h' !! q = h !! q).

Lemma encodes_smi h i x :
  heap_ok h -> - 2 ^ 30 <= i < 2 ^ 30 -> denote h (Value_int i) = Some x ->
  encodes h h (fun _ => False) (IntToSmi i) x.
Proof.
  intros Hh Hi D. split_and!; [assumption| |reflexivity].
  exists (Value_int i). rewrite toValue_smi by assumption. auto using Value_int_u64.
Qed.

Lemma encodes_cell h p v x :
  heap_ok h -> addr_ok p -> in_u 64 v -> isNumber v = true -> x = JNumber (asNumber v) ->
  encodes h (<[p := HNumber v]> h) (fun q => q = p) p x.
Proof.
  intros Hh Hp Hv Hn ->. split_and!; [now apply heap_ok_insert| |].
  - exists v. rewrite (toValue_cell _ _ p (HNumber v)) by (assumption || apply lookup_insert_eq).
    split_and!; [reflexivity|assumption|now apply denote_number].
  - intros q Hq. apply lookup_insert_ne. congruence.
Qed.

Lemma encodes_weaken h h' (T T' : Z -> Prop) payload x :
  (forall q, T q -> T' q) -> encodes h h' T payload x -> encodes h h' T' payload x.
Proof. intros HT (H1 & H2 & H3). split_and!; [assumption..|]. intros q Hq. apply H3. auto. Qed.

Lemma encodes_nonnumber h v x :
  heap_ok h -> in_u 64 v -> denote h v = Some x -> isNumber v = false ->
  encodes h h (fun _ => False) (if isPointerValue v then v else i64 v) x.
Proof.
  intros Hh Hv D Hn. split_and!; [assumption| |reflexivity]. exists v. split_and!; [|assumption..].
  destruct (isPointerValue v) eqn:Ep; [|now apply toValue_immediate with x].
  destruct (denote_pointer h v x Hh Hv D Ep) as (c & Hc & Ha & Hnc).
  rewrite (toValue_cell _ _ _ c) by assumption. now destruct c.
Qed.

Lemma fromValue_encodes h p v x :
  heap_ok h -> addr_ok p -> in_u 64 v -> denote h v = Some x ->
  encodes h (fst (fromValueForCtor cvt h p v)) (fun q => q = p) (snd (fromValueForCtor cvt h p v)) x.
Proof.
  intros Hh Hp Hv D. unfold fromValueForCtor.
  destruct (isNumber v) eqn:Hn.
  - assert (isPointerValue v = false) as ->.
    { destruct (isPointerValue v) eqn:E; [apply isPointer_not_number in E; congruence|reflexivity]. }
    rewrite denote_number in D by assumption. injection D as <-.
    destruct (isInt32 v && IsValidSmi (asInt32 v)) eqn:E1; cbn [fst snd].
    + Zbool. eapply encodes_weaken; [|apply encodes_smi; [assumption|apply smi_of_int32; auto using asInt32_range|]]; [intros ? []|].
      rewrite smi_int_denotes by assumption. now apply denote_number.
    + pose proof (number_choice v Hv Hn) as Hc. destruct (isInt32ConvertibleDouble _ _) as [ok i].
      destruct (ok && IsValidSmi i) eqn:E2; cbn [fst snd].
      * Zbool. subst ok. destruct Hc as [Hi E].
        eapply encodes_weaken; [|apply encodes_smi; [assumption|now apply smi_of_int32|]]; [intros ? []|].
        rewrite <- E. apply denote_number, isInt32_isNumber, isInt32_Value_int.
      * now apply encodes_cell.
  - pose proof (encodes_nonnumber h v x Hh Hv D Hn) as He.
    assert (isInt32 v = false) as Ei by (destruct (isInt32 v) eqn:E; [apply isInt32_isNumber in E; congruence|reflexivity]).
    rewrite Ei. cbn [andb]. revert He.
    destruct (isPointerValue v); intros He; cbn [fst snd]; (eapply encodes_weaken; [|exact He]; intros ? []).
Qed.

Lemma assign_encodes h p payload v x :
  heap_ok h -> addr_ok p -> in_u 64 v -> denote h v = Some x ->
  (readPointerIsNumberEncodedValue h payload = true -> addr_ok payload) ->
  encodes h (fst (assign cvt h p payload v))
    (fun q => q = p \/ (q = payload /\ readPointerIsNumberEncodedValue h payload = true))
    (snd (assign cvt h p payload v)) x.
Proof.
  intros Hh Hp Hv D Hpay. unfold assign.
  destruct (isNumber v) eqn:Hn.
  - assert (isPointerValue v = false) as ->.
    { destruct (isPointerValue v) eqn:E; [apply isPointer_not_number in E; congruence|reflexivity]. }
    rewrite denote_number in D by assumption. injection D as <-.
    destruct (isInt32 v && IsValidSmi (asInt32 v)) eqn:E1; cbn [fst snd].
    + Zbool. eapply encodes_weaken; [|apply encodes_smi; [assumption|apply smi_of_int32; auto using asInt32_range|]]; [intros ? []|].
      rewrite smi_int_denotes by assumption. now apply denote_number.
    + pose proof (number_choice v Hv Hn) as Hc. destruct (isInt32ConvertibleDouble _ _) as [ok i].
      set (m := if ok then Value_int i else v).
      assert (in_u 64 m /\ isNumber m = true /\ asNumber m = asNumber v) as (Hm1 & Hm2 & Hm3).
      { unfold m. destruct ok; [|auto]. destruct Hc as [Hi E].
        split_and!; [apply Value_int_u64|apply isInt32_isNumber, isInt32_Value_int|assumption]. }
      destruct (_ && _ && _) eqn:E3; cbn [fst snd].
      * Zbool. eapply encodes_weaken; [|apply encodes_cell; try assumption; [auto|congruence]]. cbn. intros ? ->. auto.
      * eapply encodes_weaken; [|apply encodes_cell; try assumption; congruence]. cbn. auto.
  - pose proof (encodes_nonnumber h v x Hh Hv D Hn) as He.
    assert (isInt32 v = false) as Ei by (destruct (isInt32 v) eqn:E; [apply isInt32_isNumber in E; congruence|reflexivity]).
    rewrite Ei. cbn [andb]. revert He.
    destruct (isPointerValue v); intros He; cbn [fst snd]; (eapply encodes_weaken; [|exact He]; intros ? []).
Qed.

End Cast.
End EncodedFacts.

(** * Properties *)
Module ValueProps.
Import Word WordFacts Heap ValueSpec Encoded EncodedFacts ToInt32Facts ConversionFacts.

(** What x86-64 produces for an out-of-range conversion, for the witnesses. *)
Definition cvt_x86 (d : Z) : Z := - 2 ^ 31.

(** Boxing a double: the word is a number and never a pointer, it is
    tagged int32 exactly for the doubles that are 32-bit integers other than
    -0, and unboxing gives back the same pattern; only NaN patterns that would
    collide with the int32 tag are replaced, by the canonical NaN. *)
Theorem box_double_roundtrip (cvt : Z -> Z) (d : Z) :
  (forall d, in_s 32 (cvt d)) -> in_u 64 d ->
  let v := Value_double cvt d in
  in_u 64 v /\ isNumber v = true /\ isPointerValue v = false /\
  isUndefinedOrNull v = false /\
  (isInt32 v = true <-> exists i, in_s 32 i /\ of_Z i = d) /\
  (asNumber v = d \/ (is_nan d = true /\ asNumber v = NAN)) /\
  (is_nan d = false -> asNumber v = d).
Proof.
  intros Hc Hd v. destruct (Value_double_number cvt Hc d Hd) as (Hu & Hn & Ea & Hi). fold v in Hu, Hn, Ea, Hi.
  assert (DoubleInvalidBeginning <= d -> is_nan d = true) as Hnan by now apply invalid_is_nan.
  split_and!; [assumption|assumption| | |assumption| |].
  - destruct (isPointerValue v) eqn:E; [|reflexivity]. apply isPointer_not_number in E; congruence.
  - unfold isUndefinedOrNull, isUndefined, isNull. apply orb_false_iff.
    split; apply Z.eqb_neq; intros E; rewrite E in Hn; discriminate.
  - rewrite Ea. destruct (_ <=? d) eqn:E; Zbool; auto.
  - rewrite Ea. destruct (_ <=? d) eqn:E; Zbool; [|auto]. intros Hf. rewrite Hnan in Hf by assumption. discriminate.
Qed.
Lemma box_double_roundtrip_witness :
  let v := Value_double cvt_x86 0x400921fb54442d18 in
  in_u 64 v /\ isNumber v = true /\ isPointerValue v = false /\
  isUndefinedOrNull v = false /\
  (isInt32 v = true <-> exists i, in_s 32 i /\ of_Z i = 0x400921fb54442d18) /\
  (asNumber v = 0x400921fb54442d18 \/ (is_nan 0x400921fb54442d18 = true /\ asNumber v = NAN)) /\
  (is_nan 0x400921fb54442d18 = false -> asNumber v = 0x400921fb54442d18).
Proof.
  apply (box_double_roundtrip cvt_x86 0x400921fb54442d18);
    [intros; unfold in_s, cvt_x86; lia|unfold in_u; lia].
Defined.

(** C31: [toInt32SlowCase], which selects bits of the pattern, is ToInt32: the
    integer part of the double modulo 2^32 as a signed 32-bit integer, and 0 for
    NaN and the infinities. *)
Theorem toInt32SlowCase_correct (b : Z) :
  in_u 64 b ->
  toInt32SlowCase b = (if is_finite b then wraps 32 (to_Z b) else 0) /\
  in_s 32 (toInt32SlowCase b) /\
  (is_finite b = true -> (toInt32SlowCase b - to_Z b) mod 2 ^ 32 = 0).
Proof.
  intros H. rewrite toInt32SlowCase_spec by assumption. split_and!; [reflexivity| |].
  - destruct (is_finite b); [apply wraps_range; lia|unfold in_s; lia].
  - intros ->. pose proof (wrapu_wraps 32 (to_Z b) ltac:(lia)) as E. unfold wrapu in E.
    rewrite Zminus_mod, E, Z.sub_diag. reflexivity.
Qed.
Lemma toInt32SlowCase_correct_witness :
  toInt32SlowCase 0xc1f0000000100000 = (if is_finite 0xc1f0000000100000 then wraps 32 (to_Z 0xc1f0000000100000) else 0) /\
  in_s 32 (toInt32SlowCase 0xc1f0000000100000) /\
  (is_finite 0xc1f0000000100000 = true -> (toInt32SlowCase 0xc1f0000000100000 - to_Z 0xc1f0000000100000) mod 2 ^ 32 = 0).
Proof. apply (toInt32SlowCase_correct 0xc1f0000000100000). unfold in_u. lia. Defined.

(** C38: [toIndex] of a number is ToIndex: the integer part when it lies in
    0 .. 2^53 - 1, 0 for NaN, and the invalid index otherwise. *)
Theorem toIndex_correct (cvt toNumberSlowCase : Z -> Z) (v : Z) :
  (forall d, in_s 32 (cvt d)) -> in_u 64 v -> isNumber v = true ->
  toIndex cvt toNumberSlowCase v =
    if is_nan (asNumber v) then 0
    else if is_finite (asNumber v) && (0 <=? to_Z (asNumber v)) && (to_Z (asNumber v) <=? 2 ^ 53 - 1)
    then to_Z (asNumber v) else InvalidIndexValue.
Proof. intros. now apply toIndex_number. Qed.
Lemma toIndex_correct_witness :
  toIndex cvt_x86 (fun _ => NAN) (Value_double cvt_x86 0x400921fb54442d18) =
    if is_nan (asNumber (Value_double cvt_x86 0x400921fb54442d18)) then 0
    else if is_finite (asNumber (Value_double cvt_x86 0x400921fb54442d18))
      && (0 <=? to_Z (asNumber (Value_double cvt_x86 0x400921fb54442d18)))
      && (to_Z (asNumber (Value_double cvt_x86 0x400921fb54442d18)) <=? 2 ^ 53 - 1)
    then to_Z (asNumber (Value_double cvt_x86 0x400921fb54442d18)) else InvalidIndexValue.
Proof.
  apply (toIndex_correct cvt_x86 (fun _ => NAN) (Value_double cvt_x86 0x400921fb54442d18));
    [intros; unfold in_s, cvt_x86; lia|vm_compute; split; congruence|vm_compute; reflexivity].
Defined.

(** C16: the three equality algorithms on words compute IsStrictlyEqual,
    SameValue and SameValueZero of the language values the words denote, whatever
    representation (int32 or double) the numbers have. *)
Theorem equality_refines_spec (h : heap) (v w : Z) (x y : js) :
  in_u 64 v -> in_u 64 w -> denote h v = Some x -> denote h w = Some y ->
  equalsTo h v w = js_strictEquals x y /\
  equalsToByTheSameValueAlgorithm h v w = js_sameValue x y /\
  equalsToByTheSameValueZeroAlgorithm h v w = js_sameValueZero x y.
Proof.
  intros Hv Hw Dv Dw. split_and!.
  - now apply strictEquals_spec.
  - now apply sameValue_spec.
  - now apply sameValueZero_spec.
Qed.
Lemma equality_refines_spec_witness :
  let h : heap := <[64 := HString [97; 98]]> (<[128 := HString [97; 98]]> ∅) in
  equalsTo h 64 128 = js_strictEquals (JString [97; 98]) (JString [97; 98]) /\
  equalsToByTheSameValueAlgorithm h 64 128 = js_sameValue (JString [97; 98]) (JString [97; 98]) /\
  equalsToByTheSameValueZeroAlgorithm h 64 128 = js_sameValueZero (JString [97; 98]) (JString [97; 98]).
Proof.
  apply (equality_refines_spec (<[64 := HString [97; 98]]> (<[128 := HString [97; 98]]> ∅)) 64 128);
    [unfold in_u; lia|unfold in_u; lia|vm_compute; reflexivity|vm_compute; reflexivity].
Defined.

(** Storing a value in the heap encoding and reading it back gives a value
    that denotes the same language value; only the freshly allocated cell is
    written and the heap stays well formed. *)
Theorem encode_value_roundtrip (cvt : Z -> Z) (h : heap) (p v : Z) (x : js) :
  (forall d, in_s 32 (cvt d)) ->
  heap_ok h -> addr_ok p -> h !! p = None -> in_u 64 v -> denote h v = Some x ->
  let '(h', payload) := fromValueForCtor cvt h p v in
  heap_ok h' /\
  (exists v', toValue false h' payload = Some v' /\ denote h' v' = Some x) /\
  (forall q c, h !! q = Some c -> h' !! q = Some c).
Proof.
  intros Hc Hh Hp Hfresh Hv D.
  pose proof (fromValue_encodes cvt Hc h p v x Hh Hp Hv D) as (H1 & (v' & H2 & _ & H3) & H4).
  destruct (fromValueForCtor cvt h p v) as [h' payload]. cbn [fst snd] in *.
  split_and!; [assumption|eauto|]. intros q c Hq. rewrite H4; [assumption|congruence].
Qed.
Lemma encode_value_roundtrip_witness :
  let '(h', payload) := fromValueForCtor cvt_x86 ∅ 64 (Value_double cvt_x86 0x400921fb54442d18) in
  heap_ok h' /\
  (exists v', toValue false h' payload = Some v' /\ denote h' v' = Some (JNumber 0x400921fb54442d18)) /\
  (forall q c, (∅ : heap) !! q = Some c -> h' !! q = Some c).
Proof.
  apply (encode_value_roundtrip cvt_x86 ∅ 64 (Value_double cvt_x86 0x400921fb54442d18));
    [intros; unfold in_s, cvt_x86; lia|intros ? ? E; discriminate|split; [lia|reflexivity]
    |reflexivity|vm_compute; split; congruence|vm_compute; reflexivity].
Defined.

(** Assigning to an encoded slot makes it read back as the assigned value.
    A number cell the slot already owns is overwritten in place; no other cell
    that existed before changes, so every slot not sharing that cell keeps what
    it denotes. *)
Theorem assign_encoded_correct (cvt : Z -> Z) (h : heap) (p payload v : Z) (x : js) :
  (forall d, in_s 32 (cvt d)) ->
  heap_ok h -> addr_ok p -> h !! p = None -> in_u 64 v -> denote h v = Some x ->
  let '(h', payload') := assign cvt h p payload v in
  heap_ok h' /\
  (exists v', toValue false h' payload' = Some v' /\ denote h' v' = Some x) /\
  (forall q c, h !! q = Some c -> q <> payload \/ (forall n, c <> HNumber n) -> h' !! q = Some c) /\
  (forall w y, in_u 64 w -> denote h w = Some y -> denote h' w = Some y).
Proof.
  intros Hc Hh Hp Hfresh Hv D.
  assert (readPointerIsNumberEncodedValue h payload = true -> addr_ok payload) as Hpay.
  { unfold readPointerIsNumberEncodedValue. intros E. case_match; [|discriminate]. now apply (Hh _ _ H). }
  pose proof (assign_encodes cvt Hc h p payload v x Hh Hp Hv D Hpay) as (H1 & (v' & H2 & _ & H3) & H4).
  destruct (assign cvt h p payload v) as [h' payload']. cbn [fst snd] in *.
  assert (forall q c, h !! q = Some c -> q <> payload \/ (forall n, c <> HNumber n) -> h' !! q = Some c) as Hframe.
  { intros q c Hq Hne. rewrite H4; [assumption|]. intros [->|[-> E]]; [congruence|].
    unfold readPointerIsNumberEncodedValue in E. rewrite Hq in E.
    destruct Hne as [|Hne]; [congruence|]. destruct c; try discriminate. now eapply Hne. }
  split_and!; [assumption|eauto|assumption|].
  intros w y Hw Dw. apply (denote_frame h h' w y Hw Dw). intros q c Hq.
  destruct c; [..|exact I]; apply Hframe; auto.
Qed.
Lemma assign_encoded_correct_witness :
  let h : heap := <[64 := HNumber (Value_double cvt_x86 0x400921fb54442d18)]> ∅ in
  let '(h', payload') := assign cvt_x86 h 128 64 (Value_double cvt_x86 0x3fd5555555555555) in
  heap_ok h' /\
  (exists v', toValue false h' payload' = Some v' /\ denote h' v' = Some (JNumber 0x3fd5555555555555)) /\
  (forall q c, h !! q = Some c -> q <> 64 \/ (forall n, c <> HNumber n) -> h' !! q = Some c) /\
  (forall w y, in_u 64 w -> denote h w = Some y -> denote h' w = Some y).
Proof.
  apply (assign_encoded_correct cvt_x86 (<[64 := HNumber (Value_double cvt_x86 0x400921fb54442d18)]> ∅) 128 64
    (Value_double cvt_x86 0x3fd5555555555555));
    [intros; unfold in_s, cvt_x86; lia| |split; [lia|reflexivity]
    |reflexivity|vm_compute; split; congruence|vm_compute; reflexivity].
  apply map_Forall_insert_2; [|intros ? ? E; discriminate].
  split; [split; [lia|reflexivity]|]. vm_compute. intuition congruence.
Defined.

(** The constructor keeps a double that is an int32 value outside the small
    integer range in double form, where the assignment normalises it. *)
Example convertible_double_kept :
  let v := Value_EncodeAsDouble (of_Z (2 ^ 30)) in
  let '(h, payload) := fromValueForCtor cvt_x86 ∅ 64 v in
  let '(h', payload') := assign cvt_x86 ∅ 64 ValueUndefined v in
  isInt32ConvertibleDouble cvt_x86 (asNumber v) = (true, 2 ^ 30) /\
  toValue false h payload = Some v /\ isInt32 v = false /\
  toValue false h' payload' = Some (Value_int (2 ^ 30)).
Proof. vm_compute. auto. Qed.

End ValueProps.
