(* ===== verification/IsoCalendar.v ===== *)
(** The ISO 8601 calendar of Temporal (src/src/util/ISO8601.cpp and ISO8601.h,
    src/src/runtime/TemporalObject.cpp): leap years, day numbers, exact times,
    the packed date and time records, date arithmetic and the balancing of time
    components.  The code computes day numbers in doubles; so do the definitions
    here, and the lemmas show that the computation is exact. *)
From Stdlib Require Import ZArith Lia Bool.
From stdpp Require Import base numbers list option decidable.
From S2P Require Import Prelude Double.

(** * Data and operations *)
Module Iso.

Definition isLeapYear (year : Z) : bool :=
  if negb (Z.rem year 4 =? 0) then false
  else if Z.rem year 400 =? 0 then true
  else if Z.rem year 100 =? 0 then false
  else true.

Definition daysInMonths : list (list Z) :=
  [[31; 28; 31; 30; 31; 30; 31; 31; 30; 31; 30; 31];
   [31; 29; 31; 30; 31; 30; 31; 31; 30; 31; 30; 31]].
Definition daysInMonth (year month : Z) : option Z :=
  row ← lookupZ daysInMonths (Z.b2z (isLeapYear year)); lookupZ row (month - 1).
(** The one-argument overload: the longest length of the month. *)
Definition daysInMonth1 (month : Z) : option Z :=
  row ← lookupZ daysInMonths 1; lookupZ row (month - 1).

Definition maxYear : Z := 275760.
Definition minYear : Z := -271821.
Definition isYearWithinLimits (year : Z) : bool := fle (of_Z minYear) year && fle year (of_Z maxYear).

(** ** Day numbers *)
Definition daysFrom1970ToYear (year : Z) : Z :=
  let leapDaysBefore1971By4Rule := Z.quot 1970 4 in
  let excludedLeapDaysBefore1971By100Rule := Z.quot 1970 100 in
  let leapDaysBefore1971By400Rule := Z.quot 1970 400 in
  let yearMinusOne := fsub (of_Z year) (of_Z 1) in
  let yearsToAddBy4Rule := fsub (ffloor (fdiv yearMinusOne (of_Z 4))) (of_Z leapDaysBefore1971By4Rule) in
  let yearsToExcludeBy100Rule :=
    fsub (ffloor (fdiv yearMinusOne (of_Z 100))) (of_Z excludedLeapDaysBefore1971By100Rule) in
  let yearsToAddBy400Rule :=
    fsub (ffloor (fdiv yearMinusOne (of_Z 400))) (of_Z leapDaysBefore1971By400Rule) in
  fadd (fsub (fadd (fmul (of_Z 365) (fsub (of_Z year) (of_Z 1970))) yearsToAddBy4Rule)
             yearsToExcludeBy100Rule) yearsToAddBy400Rule.

Definition firstDayOfMonth : list (list Z) :=
  [[0; 31; 59; 90; 120; 151; 181; 212; 243; 273; 304; 334];
   [0; 31; 60; 91; 121; 152; 182; 213; 244; 274; 305; 335]].
Definition dayInYear (year month day : Z) : option Z :=
  row ← lookupZ firstDayOfMonth (Z.b2z (isLeapYear year));
  first ← lookupZ row month; Some (first + day - 1).

Definition dateToDaysFrom1970 (year month day : Z) : option Z :=
  let year := year + Z.quot month 12 in
  let month := Z.rem month 12 in
  let '(year, month) := if month <? 0 then (year - 1, month + 12) else (year, month) in
  let yearday := ffloor (daysFrom1970ToYear year) in
  diy ← dayInYear year month day;
  Some (fadd yearday (of_Z diy)).

(** ** Exact times *)
Definition nsPerMicrosecond : Z := 1000.
Definition nsPerMillisecond : Z := 1000000.
Definition nsPerSecond : Z := 1000000000.
Definition nsPerMinute : Z := nsPerSecond * 60.
Definition nsPerHour : Z := nsPerMinute * 60.
Definition nsPerDay : Z := nsPerHour * 24.
Definition dayRangeSeconds : Z := 8640000000000.
Definition minValue : Z := - dayRangeSeconds * nsPerSecond.
Definition maxValue : Z := dayRangeSeconds * nsPerSecond.

Definition fromISOPartsAndOffset
    (year month day hour minute second millisecond microsecond nanosecond offset : Z) : option Z :=
  days ← dateToDaysFrom1970 year (month - 1) day;
  let dateDays := to_Z days in
  let utcNanoseconds :=
    dateDays * nsPerDay + hour * nsPerHour + minute * nsPerMinute + second * nsPerSecond
    + millisecond * nsPerMillisecond + microsecond * nsPerMicrosecond + nanosecond in
  Some (i128 (utcNanoseconds - offset)).

Definition epochMilliseconds (epochNanoseconds : Z) : Z :=
  i64 (Z.quot epochNanoseconds nsPerMillisecond).
Definition floorEpochMilliseconds (epochNanoseconds : Z) : Z :=
  let div := Z.quot epochNanoseconds nsPerMillisecond in
  let rem := Z.rem epochNanoseconds nsPerMillisecond in
  i64 (if negb (rem =? 0) && (epochNanoseconds <? 0) then div - 1 else div).
Definition isValidEpochNanoseconds (s : Z) : bool :=
  negb ((s <? minValue) || (maxValue <? s)).

Definition isoDateTimeWithinLimits_ns (nanoseconds : Z) : bool :=
  if nanoseconds <=? minValue - nsPerDay then false
  else if maxValue + nsPerDay <=? nanoseconds then false
  else true.
(** The month and the day are [uint8_t] parameters. *)
Definition isDateTimeWithinLimits
    (year month day hour minute second millisecond microsecond nanosecond : Z) : option bool :=
  ns ← fromISOPartsAndOffset year (u8 month) (u8 day) hour minute second millisecond microsecond nanosecond 0;
  Some (isoDateTimeWithinLimits_ns ns).
Definition isoDateWithinLimits (year month day : Z) : option bool :=
  isDateTimeWithinLimits year month day 12 0 0 0 0 0.

(** ** The packed records *)
Record PlainDate := mkPlainDate { m_year : Z; m_month : Z; m_day : Z }.
(** The constructor stores into bit fields of 21, 5 and 6 bits. *)
Definition PlainDate_new (year month day : Z) : PlainDate :=
  mkPlainDate (wraps 21 year) (wraps 5 month) (wraps 6 day).
Definition pd_year (d : PlainDate) : Z := m_year d.
Definition pd_month (d : PlainDate) : Z := u8 (m_month d).
Definition pd_day (d : PlainDate) : Z := u8 (m_day d).

Definition PlainDate_compare (self other : PlainDate) : Z :=
  if pd_year other <? pd_year self then 1
  else if pd_year self <? pd_year other then -1
  else if pd_month other <? pd_month self then 1
  else if pd_month self <? pd_month other then -1
  else if pd_day other <? pd_day self then 1
  else if pd_day self <? pd_day other then -1
  else 0.

Record PlainTime := mkPlainTime
  { m_hour : Z; m_minute : Z; m_second : Z; m_millisecond : Z; m_microsecond : Z; m_nanosecond : Z }.
(** Three bytes and three 10-bit fields. *)
Definition PlainTime_new (hour minute second millisecond microsecond nanosecond : Z) : PlainTime :=
  mkPlainTime (u8 hour) (u8 minute) (u8 second)
    (wrapu 10 millisecond) (wrapu 10 microsecond) (wrapu 10 nanosecond).

Definition time_fields (t : PlainTime) : list Z :=
  [m_hour t; m_minute t; m_second t; m_millisecond t; m_microsecond t; m_nanosecond t].
Fixpoint compare_fields (a b : list Z) : Z :=
  match a, b with
  | x :: a, y :: b => if y <? x then 1 else if x <? y then -1 else compare_fields a b
  | _, _ => 0
  end.
Definition PlainTime_compare (self other : PlainTime) : Z :=
  compare_fields (time_fields self) (time_fields other).

Record PlainYearMonth := mkPlainYearMonth { ym_year : Z; ym_month : Z }.
Record PlainDateTime := mkPlainDateTime { plainDate : PlainDate; plainTime : PlainTime }.

Definition fromPlainDate (src : PlainDate) : option Z :=
  fromISOPartsAndOffset (pd_year src) (pd_month src) (pd_day src) 0 0 0 0 0 0 0.
Definition fromPlainDateTime (src : PlainDateTime) : option Z :=
  let d := plainDate src in
  let t := plainTime src in
  fromISOPartsAndOffset (pd_year d) (pd_month d) (pd_day d)
    (m_hour t) (m_minute t) (m_second t) (m_millisecond t) (m_microsecond t) (m_nanosecond t) 0.

Definition isValidTime (hour minute second millisecond microsecond nanosecond : Z) : bool :=
  if (hour <? 0) || (23 <? hour) then false
  else if (minute <? 0) || (59 <? minute) then false
  else if (second <? 0) || (59 <? second) then false
  else if (millisecond <? 0) || (999 <? millisecond) then false
  else if (microsecond <? 0) || (999 <? microsecond) then false
  else if (nanosecond <? 0) || (999 <? nanosecond) then false
  else true.

(** ** Durations: ten doubles, years down to nanoseconds *)
Definition Duration := list Z.
Definition dur (d : Duration) (i : nat) : Z := nth i d 0.
Definition Duration_of_ints (l : list Z) : Duration := map of_Z l.

(** Conversions of doubles to machine integers, undefined out of range. *)
Definition cast_range (lo hi d : Z) : result Z :=
  if is_finite d && (lo <=? to_Z d) && (to_Z d <=? hi) then Ok (to_Z d) else Undefined.
Definition cast_int : Z -> result Z := cast_range (- 2 ^ 31) (2 ^ 31 - 1).
Definition cast_unsigned : Z -> result Z := cast_range 0 (2 ^ 32 - 1).
Definition cast_uint8 : Z -> result Z := cast_range 0 255.

Definition daysInYear (year : Z) : Z := 365 + Z.b2z (isLeapYear year).

(** The search for the month: [for (; balancedMonth < 12; balancedMonth++)]. *)
Fixpoint balance_month (fuel : nat) (balancedYear balancedMonth daysUntilMonth dayInYear : Z)
  : result (Z * Z) :=
  if balancedMonth <? 12 then
    match fuel with
    | O => Undefined
    | S fuel =>
        monthDays ← defined (if negb (balancedMonth =? 2) then daysInMonth1 balancedMonth
                             else daysInMonth balancedYear balancedMonth);
        if dayInYear <=? u32 (daysUntilMonth + monthDays) then Ok (balancedMonth, daysUntilMonth)
        else balance_month fuel balancedYear (balancedMonth + 1) (u32 (daysUntilMonth + monthDays)) dayInYear
    end
  else Ok (balancedMonth, daysUntilMonth).

(** The year containing a day number: the estimate and its correction. *)
Definition balance_year (daysFrom1970 balancedYear : Z) : result (Z * Z) :=
  by_ ← cast_int balancedYear;
  let daysUntilYear := daysFrom1970ToYear by_ in
  if flt daysFrom1970 daysUntilYear then
    let balancedYear := fsub balancedYear (of_Z 1) in
    by_ ← cast_int balancedYear;
    Ok (balancedYear, fsub daysUntilYear (of_Z (daysInYear by_)))
  else
    let daysUntilFollowingYear := fadd daysUntilYear (of_Z (daysInYear by_)) in
    if fle daysUntilFollowingYear daysFrom1970
    then Ok (fadd balancedYear (of_Z 1), daysUntilFollowingYear)
    else Ok (balancedYear, daysUntilYear).

Definition balanceISODate (year month day : Z) (allowOutOfRange : bool) : result PlainDate :=
  if negb allowOutOfRange && negb (isYearWithinLimits year) then Throw RangeError
  else
    y ← cast_int year;
    m ← cast_int (fsub month (of_Z 1));
    first ← defined (dateToDaysFrom1970 y m 1);
    let daysFrom1970 := fsub (fadd day first) (of_Z 1) in
    let balancedYear := fadd (ffloor (fdiv daysFrom1970 MEAN_YEAR)) (of_Z 1970) in
    if negb allowOutOfRange && negb (isYearWithinLimits balancedYear) then Throw RangeError
    else
      '(balancedYear, daysUntilYear) ← balance_year daysFrom1970 balancedYear;
      dayInYear ← cast_unsigned (fadd (fsub daysFrom1970 daysUntilYear) (of_Z 1));
      by_ ← cast_int balancedYear;
      '(balancedMonth, daysUntilMonth) ← balance_month 11 by_ 1 0 dayInYear;
      year ← cast_int balancedYear;
      Ok (PlainDate_new year balancedMonth (u32 (dayInYear - daysUntilMonth))).

Definition balanceISOYearMonth (year month : Z) : result PlainYearMonth :=
  let year := fadd year (ffloor (fdiv (fsub month (of_Z 1)) (of_Z 12))) in
  let month := fadd (ffmod (fsub month (of_Z 1)) (of_Z 12)) (of_Z 1) in
  let month := if flt month (of_Z 1) then fadd month (of_Z 12) else month in
  y ← cast_int year; m ← cast_int month; Ok (mkPlainYearMonth y m).

Inductive TemporalOverflowOption := Constrain | Reject.

Definition regulateISODate (year month day : Z) (overflow : TemporalOverflowOption)
  : result (option PlainDate) :=
  match overflow with
  | Constrain =>
      let month := if flt month (of_Z 1) then of_Z 1 else month in
      let month := if flt (of_Z 12) month then of_Z 12 else month in
      y ← cast_int year; m ← cast_uint8 month;
      dim ← defined (daysInMonth y m);
      let day := if flt day (of_Z 1) then of_Z 1 else day in
      let day := if flt (of_Z dim) day then of_Z dim else day in
      mm ← cast_unsigned month; d ← cast_unsigned day;
      Ok (Some (PlainDate_new y mm d))
  | Reject =>
      y ← cast_int year; m ← cast_uint8 month; d ← cast_uint8 day;
      ok ← defined (isDateTimeWithinLimits y m d 12 0 0 0 0 0);
      if negb (ok : bool) then Ok None
      else mm ← cast_unsigned month; dd ← cast_unsigned day; Ok (Some (PlainDate_new y mm dd))
  end.

Definition isoDateAdd (plainDate : PlainDate) (duration : Duration)
    (overflow : TemporalOverflowOption) (allowOutOfRange : bool) : result PlainDate :=
  let years := fadd (of_Z (pd_year plainDate)) (dur duration 0) in
  let months := fadd (of_Z (pd_month plainDate)) (dur duration 1) in
  let days := of_Z (pd_day plainDate) in
  intermediate ← balanceISOYearMonth years months;
  intermediate1 ← regulateISODate (of_Z (ym_year intermediate)) (of_Z (ym_month intermediate)) days overflow;
  match intermediate1 with
  | None => Throw RangeError
  | Some i =>
      let d := fadd (fadd (of_Z (pd_day i)) (dur duration 3)) (fmul (of_Z 7) (dur duration 2)) in
      balancedDate ← balanceISODate (of_Z (pd_year i)) (of_Z (pd_month i)) d allowOutOfRange;
      Ok (PlainDate_new (pd_year balancedDate) (pd_month balancedDate) (pd_day balancedDate))
  end.

(** ** Balancing time components, on [w]-bit integers *)
Definition intFloor (x y : Z) : Z :=
  if 0 <? x then Z.quot x y
  else if negb (Z.rem x y =? 0) then Z.quot x y - 1 else Z.quot x y.
Definition nonNegativeModulo (x y : Z) : Z :=
  let result := Z.rem x y in
  if result =? 0 then 0 else if result <? 0 then result + y else result.

Definition balanceTime (w : Z) (hour minute second millisecond microsecond nanosecond : Z) : Duration :=
  let microsecond := wraps w (microsecond + intFloor nanosecond 1000) in
  let nanosecond := nonNegativeModulo nanosecond 1000 in
  let millisecond := wraps w (millisecond + intFloor microsecond 1000) in
  let microsecond := nonNegativeModulo microsecond 1000 in
  let second := wraps w (second + intFloor millisecond 1000) in
  let millisecond := nonNegativeModulo millisecond 1000 in
  let minute := wraps w (minute + intFloor second 60) in
  let second := nonNegativeModulo second 60 in
  let hour := wraps w (hour + intFloor minute 60) in
  let minute := nonNegativeModulo minute 60 in
  let days := intFloor hour 24 in
  let hour := nonNegativeModulo hour 24 in
  Duration_of_ints [0; 0; 0; i64 days; i64 hour; i64 minute; i64 second; i64 millisecond;
                    i64 microsecond; i64 nanosecond].

(** With [Reject] the day is only checked against the limits of the range. *)
Example reject_accepts_invalid :
  regulateISODate (of_Z 2021) (of_Z 2) (of_Z 31) Reject = Ok (Some (mkPlainDate 2021 2 31)).
Proof. vm_compute. reflexivity. Qed.

End Iso.

(** * The calendar in integers *)
Module IsoFacts.
Import Iso.

(** Days from 1970-01-01 to the first day of a year, as an integer. *)
Definition year_days (y : Z) : Z :=
  365 * (y - 1970) + ((y - 1) / 4 - 492) - ((y - 1) / 100 - 19) + ((y - 1) / 400 - 4).

(** Days before a month of the year, months counted from 1. *)
Definition month_days (y m : Z) : Z :=
  match dayInYear y (m - 1) 1 with Some n => n | None => 0 end.

Definition month_length (y m : Z) : Z := match daysInMonth y m with Some n => n | None => 0 end.

Definition valid_date (y m d : Z) : Prop := 1 <= m <= 12 /\ 1 <= d <= month_length y m.

(** The day number of a date: the specification [MakeDay] of the calendar. *)
Definition day_number (y m d : Z) : Z := year_days y + month_days y m + (d - 1).

Lemma leap_cases y :
  (isLeapYear y = true /\ y mod 4 = 0 /\ (y mod 100 <> 0 \/ y mod 400 = 0)) \/
  (isLeapYear y = false /\ (y mod 4 <> 0 \/ (y mod 100 = 0 /\ y mod 400 <> 0))).
Proof.
  unfold isLeapYear.
  assert (forall k, 0 < k -> (Z.rem y k =? 0) = (y mod k =? 0)) as E.
  { intros k Hk. apply eq_true_iff_eq. rewrite !Z.eqb_eq, Z.rem_divide, <- Z.mod_divide by lia. reflexivity. }
  rewrite !E by lia.
  destruct (y mod 4 =? 0) eqn:E4, (y mod 400 =? 0) eqn:E400, (y mod 100 =? 0) eqn:E100; Zbool; cbn [negb];
    [left|left|right|left|right..]; intuition lia.
Qed.

(** The length of a year is the difference of consecutive day counts. *)
Lemma year_days_succ y : year_days (y + 1) = year_days y + daysInYear y.
Proof.
  unfold year_days, daysInYear. replace (y + 1 - 1) with y by lia.
  assert (forall k, 0 < k -> y / k = (y - 1) / k + (if y mod k =? 0 then 1 else 0)) as Hdiv.
  { intros k Hk. destruct (y mod k =? 0) eqn:E; Zbool.
    - assert (y = k * (y / k)) as Ey by (pose proof (Z.div_mod y k); lia).
      assert (y / k - 1 = (y - 1) / k); [|lia]. apply (Z.div_unique_pos (y - 1) k _ (k - 1)); lia.
    - rewrite Z.add_0_r. apply (Z.div_unique_pos (y - 1) k _ (y mod k - 1)); pose proof (Z.div_mod y k); pose proof (Z.mod_pos_bound y k); lia. }
  rewrite !Hdiv by lia.
  destruct (leap_cases y) as [(-> & H4 & H)|(-> & H)];
    destruct (y mod 4 =? 0) eqn:E4, (y mod 400 =? 0) eqn:E400, (y mod 100 =? 0) eqn:E100; Zbool; cbn [Z.b2z];
    lia || (exfalso; pose proof (Z.div_mod y 4); pose proof (Z.div_mod y 100); pose proof (Z.div_mod y 400);
            pose proof (Z.mod_pos_bound y 4); pose proof (Z.mod_pos_bound y 100); lia).
Qed.

(** The double computation of the code is exact. *)
Lemma rep_daysFrom1970ToYear y : Z.abs y <= 2 ^ 32 -> rep (daysFrom1970ToYear y) (year_days y).
Proof.
  intros H. unfold daysFrom1970ToYear, year_days.
  change (Z.quot 1970 4) with 492. change (Z.quot 1970 100) with 19. change (Z.quot 1970 400) with 4.
  pose proof (Z.div_mod (y - 1) 4). pose proof (Z.mod_pos_bound (y - 1) 4).
  pose proof (Z.div_mod (y - 1) 100). pose proof (Z.mod_pos_bound (y - 1) 100).
  pose proof (Z.div_mod (y - 1) 400). pose proof (Z.mod_pos_bound (y - 1) 400).
  rep_solve; lia.
Qed.

(** ** Month tables *)

(** A property of a month of a common or a leap year, checked on the tables. *)
Lemma month_cases (P : Z -> Prop) m : 1 <= m <= 12 ->
  P 1 -> P 2 -> P 3 -> P 4 -> P 5 -> P 6 -> P 7 -> P 8 -> P 9 -> P 10 -> P 11 -> P 12 -> P m.
Proof.
  intros H **. assert (m = 1 \/ m = 2 \/ m = 3 \/ m = 4 \/ m = 5 \/ m = 6 \/ m = 7 \/ m = 8 \/ m = 9
    \/ m = 10 \/ m = 11 \/ m = 12) as Hm by lia.
  repeat destruct Hm as [->|Hm]; subst; assumption.
Qed.

Lemma daysInMonth_Some y m : 1 <= m <= 12 -> daysInMonth y m = Some (month_length y m).
Proof.
  intros H. unfold month_length. pattern m. apply month_cases; [assumption|..];
    unfold daysInMonth; destruct (isLeapYear y); reflexivity.
Qed.

Lemma month_length_range y m : 1 <= m <= 12 -> 28 <= month_length y m <= 31.
Proof.
  intros H. pattern m. apply month_cases; [assumption|..];
    unfold month_length, daysInMonth; destruct (isLeapYear y); split; vm_compute; congruence.
Qed.

Lemma month_days_1 y : month_days y 1 = 0.
Proof. unfold month_days, dayInYear. now destruct (isLeapYear y). Qed.

Lemma month_days_succ y m : 1 <= m <= 11 -> month_days y (m + 1) = month_days y m + month_length y m.
Proof.
  intros H. assert (1 <= m <= 12) as H12 by lia. revert H. pattern m. apply month_cases; [assumption|..];
    intros; first [lia | unfold month_days, month_length, daysInMonth, dayInYear; destruct (isLeapYear y); reflexivity].
Qed.

Lemma month_days_end y : month_days y 12 + month_length y 12 = daysInYear y.
Proof. unfold month_days, month_length, daysInMonth, dayInYear, daysInYear. now destruct (isLeapYear y). Qed.

(** Months are disjoint, ordered intervals of the year. *)
Lemma month_days_mono y m m' : 1 <= m < m' -> m' <= 12 -> month_days y m + month_length y m <= month_days y m'.
Proof.
  intros [H1 H2] H3. replace m' with (m + 1 + Z.of_nat (Z.to_nat (m' - m - 1))) in * by lia.
  revert H3. generalize (Z.to_nat (m' - m - 1)). clear H2 m'. intros n. induction n as [|n IH]; intros H3.
  - rewrite Z.add_0_r, month_days_succ by lia. lia.
  - replace (m + 1 + Z.of_nat (S n)) with (m + 1 + Z.of_nat n + 1) by lia.
    rewrite month_days_succ by lia. pose proof (month_length_range y (m + 1 + Z.of_nat n)). lia.
Qed.

Lemma month_days_range y m : 1 <= m <= 12 -> 0 <= month_days y m /\ month_days y m + month_length y m <= daysInYear y.
Proof.
  intros H. split.
  - destruct (decide (m = 1)) as [->|]; [now rewrite month_days_1|].
    pose proof (month_days_mono y 1 m). rewrite month_days_1 in *. pose proof (month_length_range y 1). lia.
  - pose proof (month_days_end y). destruct (decide (m = 12)) as [->|]; [lia|].
    pose proof (month_days_mono y m 12). pose proof (month_length_range y 12). lia.
Qed.

Lemma daysInYear_range y : 365 <= daysInYear y <= 366.
Proof. unfold daysInYear. destruct (isLeapYear y); cbn; lia. Qed.

Lemma year_days_mono y y' : y < y' -> year_days y + daysInYear y <= year_days y'.
Proof.
  intros H. replace y' with (y + 1 + Z.of_nat (Z.to_nat (y' - y - 1))) by lia.
  generalize (Z.to_nat (y' - y - 1)). clear H y'. intros n. induction n as [|n IH].
  - rewrite Z.add_0_r, year_days_succ. lia.
  - replace (y + 1 + Z.of_nat (S n)) with (y + 1 + Z.of_nat n + 1) by lia.
    rewrite year_days_succ. pose proof (daysInYear_range (y + 1 + Z.of_nat n)). lia.
Qed.

(** A valid date lies in its year, and its month in the year. *)
Lemma day_number_bounds y m d :
  valid_date y m d -> year_days y <= day_number y m d < year_days (y + 1).
Proof.
  intros [Hm Hd]. unfold day_number. rewrite year_days_succ. pose proof (month_days_range y m Hm). lia.
Qed.

(** Day numbers order dates lexicographically. *)
Definition date_lt (y m d y' m' d' : Z) : Prop :=
  y < y' \/ (y = y' /\ (m < m' \/ (m = m' /\ d < d'))).

Lemma day_number_lt y m d y' m' d' :
  valid_date y m d -> valid_date y' m' d' -> date_lt y m d y' m' d' ->
  day_number y m d < day_number y' m' d'.
Proof.
  intros V V' [H|(-> & [H|(-> & H)])].
  - pose proof (day_number_bounds y m d V). pose proof (day_number_bounds y' m' d' V').
    destruct (decide (y + 1 = y')) as [<-|]; [lia|].
    pose proof (year_days_mono (y + 1) y'). pose proof (daysInYear_range (y + 1)). lia.
  - destruct V as [? ?], V' as [? ?]. unfold day_number.
    pose proof (month_days_mono y' m m'). lia.
  - unfold day_number. lia.
Qed.

(** Consequently a day number determines its date. *)
Lemma day_number_inj y m d y' m' d' :
  valid_date y m d -> valid_date y' m' d' -> day_number y m d = day_number y' m' d' ->
  y = y' /\ m = m' /\ d = d'.
Proof.
  intros V V' E.
  destruct (Z.lt_trichotomy y y') as [H|[H|H]]; [pose proof (day_number_lt y m d y' m' d' V V'); unfold date_lt in *; lia| |
    pose proof (day_number_lt y' m' d' y m d V' V); unfold date_lt in *; lia].
  destruct (Z.lt_trichotomy m m') as [H2|[H2|H2]]; [pose proof (day_number_lt y m d y' m' d' V V'); unfold date_lt in *; lia| |
    pose proof (day_number_lt y' m' d' y m d V' V); unfold date_lt in *; lia].
  subst. unfold day_number in E. lia.
Qed.

(** ** The day number the code computes *)

Lemma dayInYear_month y m d : 1 <= m <= 12 -> dayInYear y (m - 1) d = Some (month_days y m + (d - 1)).
Proof.
  intros H.
  assert (exists row, lookupZ firstDayOfMonth (Z.b2z (isLeapYear y)) = Some row /\ is_Some (lookupZ row (m - 1)))
    as (row & Er & first & Ef).
  { pattern m. apply month_cases; [assumption|..]; destruct (isLeapYear y); eexists; split; try reflexivity; eexists; reflexivity. }
  unfold month_days, dayInYear. rewrite Er. cbn [mbind option_bind]. rewrite Ef. cbn [mbind option_bind].
  f_equal. lia.
Qed.

Lemma year_days_abs y : Z.abs y <= 2 ^ 32 -> Z.abs (year_days y) <= 2 ^ 42.
Proof.
  intros H. unfold year_days.
  pose proof (Z.div_mod (y - 1) 4). pose proof (Z.mod_pos_bound (y - 1) 4).
  pose proof (Z.div_mod (y - 1) 100). pose proof (Z.mod_pos_bound (y - 1) 100).
  pose proof (Z.div_mod (y - 1) 400). pose proof (Z.mod_pos_bound (y - 1) 400). lia.
Qed.

Lemma dateToDays_spec y m d :
  Z.abs y <= 2 ^ 32 -> 1 <= m <= 12 -> Z.abs d <= 2 ^ 32 ->
  exists r, dateToDaysFrom1970 y (m - 1) d = Some r /\ rep r (day_number y m d).
Proof.
  intros Hy Hm Hd. unfold dateToDaysFrom1970.
  rewrite Z.quot_small, Z.rem_small, Z.add_0_r by lia.
  destruct (m - 1 <? 0) eqn:E; Zbool; [lia|]. rewrite dayInYear_month by assumption. cbn [mbind option_bind].
  eexists. split; [reflexivity|]. unfold day_number.
  pose proof (year_days_abs y Hy). pose proof (month_days_range y m Hm). pose proof (daysInYear_range y).
  pose proof (month_length_range y m Hm).
  rewrite <- Z.add_assoc. apply r_add; [|apply r_of_Z; lia|lia].
  apply r_floor; [now apply rep_daysFrom1970ToYear|lia].
Qed.

(** ** Balancing a date *)

Lemma cast_range_rep lo hi d n : rep d n -> lo <= n <= hi -> cast_range lo hi d = Ok n.
Proof.
  intros R H. unfold cast_range. rewrite (r_finite d n R), (r_to_Z d n R).
  replace (lo <=? n) with true by (symmetry; apply Z.leb_le; lia).
  now replace (n <=? hi) with true by (symmetry; apply Z.leb_le; lia).
Qed.

Lemma cast_int_rep d n : rep d n -> - 2 ^ 31 <= n < 2 ^ 31 -> cast_int d = Ok n.
Proof. intros. apply cast_range_rep; [assumption|lia]. Qed.
Lemma cast_unsigned_rep d n : rep d n -> 0 <= n < 2 ^ 32 -> cast_unsigned d = Ok n.
Proof. intros. apply cast_range_rep; [assumption|lia]. Qed.
Lemma cast_uint8_rep d n : rep d n -> 0 <= n < 256 -> cast_uint8 d = Ok n.
Proof. intros. apply cast_range_rep; [assumption|lia]. Qed.

(** The estimate of the year is off by at most one. *)
Lemma estimate_year D e :
  e * 3652425 <= 10000 * D + 1 -> 10000 * D - 1 <= (e + 1) * 3652425 ->
  year_days (e + 1970 - 1) <= D < year_days (e + 1970 + 2).
Proof.
  intros H1 H2. unfold year_days.
  pose proof (Z.div_mod (e + 1970 - 1 - 1) 4). pose proof (Z.mod_pos_bound (e + 1970 - 1 - 1) 4).
  pose proof (Z.div_mod (e + 1970 - 1 - 1) 100). pose proof (Z.mod_pos_bound (e + 1970 - 1 - 1) 100).
  pose proof (Z.div_mod (e + 1970 - 1 - 1) 400). pose proof (Z.mod_pos_bound (e + 1970 - 1 - 1) 400).
  pose proof (Z.div_mod (e + 1970 + 2 - 1) 4). pose proof (Z.mod_pos_bound (e + 1970 + 2 - 1) 4).
  pose proof (Z.div_mod (e + 1970 + 2 - 1) 100). pose proof (Z.mod_pos_bound (e + 1970 + 2 - 1) 100).
  pose proof (Z.div_mod (e + 1970 + 2 - 1) 400). pose proof (Z.mod_pos_bound (e + 1970 + 2 - 1) 400).
  lia.
Qed.

Lemma balance_year_spec dd D est E :
  rep dd D -> rep est E -> Z.abs E <= 2 ^ 30 -> year_days (E - 1) <= D < year_days (E + 2) ->
  exists by_ Y until_, balance_year dd est = Ok (by_, until_) /\ rep by_ Y /\ rep until_ (year_days Y) /\
    year_days Y <= D < year_days (Y + 1) /\ Z.abs (Y - E) <= 1.
Proof.
  intros RD RE HE HD. unfold balance_year.
  assert (Z.abs (year_days E) <= 2 ^ 42) as HyE by (apply year_days_abs; lia).
  rewrite (cast_int_rep est E) by (assumption || lia). cbn [mbind result_bind].
  pose proof (rep_daysFrom1970ToYear E ltac:(lia)) as RY.
  rewrite (r_flt _ _ _ _ RD RY). pose proof (daysInYear_range E) as HdE. pose proof (daysInYear_range (E - 1)) as HdE1.
  assert (rep (fadd (daysFrom1970ToYear E) (of_Z (daysInYear E))) (year_days (E + 1))) as RY2.
  { rewrite year_days_succ. apply r_add; [assumption|apply r_of_Z; lia|lia]. }
  destruct (D <? year_days E) eqn:E1; Zbool.
  - assert (rep (fsub est (of_Z 1)) (E - 1)) as RE1 by (rep_solve; lia).
    rewrite (cast_int_rep _ (E - 1)) by (assumption || lia). cbn [mbind result_bind].
    pose proof (year_days_succ (E - 1)) as Es. replace (E - 1 + 1) with E in * by lia.
    eexists _, (E - 1), _. split_and!; [reflexivity|assumption| |lia| |lia].
    + replace (year_days (E - 1)) with (year_days E - daysInYear (E - 1)) by lia.
      apply r_sub; [assumption|apply r_of_Z; lia|lia].
    + replace (E - 1 + 1) with E by lia. lia.
  - rewrite (r_fle _ _ _ _ RY2 RD). destruct (_ <=? D) eqn:E2; Zbool.
    + eexists _, (E + 1), _. split_and!; [reflexivity| |assumption|lia| |lia].
      * rep_solve; lia.
      * replace (E + 1 + 1) with (E + 2) by lia. lia.
    + eexists _, E, _. split_and!; [reflexivity|assumption|assumption|lia|lia|lia].
Qed.

Lemma balance_month_spec fuel y m N :
  1 <= m <= 12 -> 12 - m <= Z.of_nat fuel -> month_days y m < N <= daysInYear y ->
  exists bm, balance_month fuel y m (month_days y m) N = Ok (bm, month_days y bm) /\
    1 <= bm <= 12 /\ month_days y bm < N <= month_days y bm + month_length y bm.
Proof.
  revert m. induction fuel as [|fuel IH]; intros m Hm Hf HN; cbn [balance_month].
  - destruct (m <? 12) eqn:E; Zbool; [lia|]. assert (m = 12) as -> by lia.
    exists 12. pose proof (month_days_end y). split_and!; [reflexivity|lia..].
  - destruct (m <? 12) eqn:E; Zbool.
    + assert ((if negb (m =? 2) then daysInMonth1 m else daysInMonth y m) = Some (month_length y m)) as ->.
      { destruct (m =? 2) eqn:E2; Zbool; cbn [negb]; [now apply daysInMonth_Some|].
        revert E2. pattern m. apply month_cases; [assumption|..]; intros; try congruence;
          unfold month_length, daysInMonth, daysInMonth1; destruct (isLeapYear y); reflexivity. }
      cbn [mbind result_bind defined].
      pose proof (month_days_range y m Hm). pose proof (month_length_range y m Hm). pose proof (daysInYear_range y).
      rewrite wrapu_id by (unfold in_u; lia).
      destruct (N <=? _) eqn:E3; Zbool.
      * exists m. split_and!; [reflexivity|lia..].
      * rewrite <- month_days_succ by lia. apply IH; [lia|lia|]. rewrite month_days_succ by lia. lia.
    + assert (m = 12) as -> by lia. exists 12. pose proof (month_days_end y). split_and!; [reflexivity|lia..].
Qed.

(** The fields of a packed date that fits. *)
Lemma PlainDate_new_fields y m d :
  Z.abs y < 2 ^ 20 -> 1 <= m <= 12 -> 1 <= d <= 31 ->
  pd_year (PlainDate_new y m d) = y /\ pd_month (PlainDate_new y m d) = m /\ pd_day (PlainDate_new y m d) = d.
Proof.
  intros. unfold pd_year, pd_month, pd_day, PlainDate_new. cbn.
  rewrite !wraps_id by (unfold in_s; lia). rewrite !wrapu_id by (unfold in_u; lia). auto.
Qed.

Definition date_is (p : PlainDate) (y m d : Z) : Prop := pd_year p = y /\ pd_month p = m /\ pd_day p = d.

Lemma rep_limits year y : rep year y -> isYearWithinLimits year = (minYear <=? y) && (y <=? maxYear).
Proof.
  intros R. unfold isYearWithinLimits.
  rewrite (r_fle _ _ _ _ (r_of_Z minYear ltac:(unfold minYear; lia)) R).
  now rewrite (r_fle _ _ _ _ R (r_of_Z maxYear ltac:(unfold maxYear; lia))).
Qed.

Lemma balanceISODate_spec year month day y m d allow :
  rep year y -> rep month m -> rep day d ->
  Z.abs y <= 400000 -> 1 <= m <= 12 -> Z.abs d <= 200000000 ->
  exists Y M D, valid_date Y M D /\ day_number Y M D = day_number y m 1 + (d - 1) /\
    (balanceISODate year month day allow = Throw RangeError \/
     exists p, balanceISODate year month day allow = Ok p /\ date_is p Y M D) /\
    (balanceISODate year month day allow = Throw RangeError ->
     allow = false /\ (y < minYear \/ maxYear < y \/ Y <= minYear \/ maxYear <= Y)).
Proof.
  intros Ry Rm Rd Hy Hm Hd. unfold balanceISODate.
  rewrite (rep_limits year y Ry).
  destruct (dateToDays_spec y m 1 ltac:(lia) Hm ltac:(lia)) as (first & Ef & Rf).
  set (DN := day_number y m 1 + (d - 1)) in *.
  assert (Z.abs (day_number y m 1) <= 150000000) as Hdn.
  { unfold day_number, year_days. pose proof (month_days_range y m Hm). pose proof (month_length_range y m Hm).
    pose proof (daysInYear_range y).
    pose proof (Z.div_mod (y - 1) 4). pose proof (Z.mod_pos_bound (y - 1) 4).
    pose proof (Z.div_mod (y - 1) 100). pose proof (Z.mod_pos_bound (y - 1) 100).
    pose proof (Z.div_mod (y - 1) 400). pose proof (Z.mod_pos_bound (y - 1) 400). lia. }
  assert (rep (fsub (fadd day first) (of_Z 1)) DN) as RD.
  { replace DN with (d + day_number y m 1 - 1) by (unfold DN; lia). rep_solve; lia. }
  set (dd := fsub (fadd day first) (of_Z 1)) in *.
  destruct (r_mean_year dd DN RD ltac:(unfold DN; lia)) as (e & Re & He1 & He2).
  assert (rep (fadd (ffloor (fdiv dd MEAN_YEAR)) (of_Z 1970)) (e + 1970)) as RE by (rep_solve; unfold DN in *; lia).
  set (est := fadd (ffloor (fdiv dd MEAN_YEAR)) (of_Z 1970)) in *.
  assert (Z.abs (e + 1970) <= 1000000) as HeE by (unfold DN in *; lia).
  destruct (balance_year_spec dd DN est (e + 1970) RD RE ltac:(lia)) as (by_ & Y & until_ & Eby & RY & RU & HY & HYE).
  { now apply estimate_year. }
  rewrite year_days_succ in HY. pose proof (daysInYear_range Y).
  destruct (balance_month_spec 11 Y 1 (DN - year_days Y + 1)) as (M & Em & HM & HMd).
  { lia. } { lia. } { rewrite month_days_1. lia. } rewrite month_days_1 in Em.
  pose proof (month_days_range Y M HM). pose proof (month_length_range Y M HM).
  set (D := DN - year_days Y + 1 - month_days Y M).
  assert (Z.abs Y < 2 ^ 20) as HYb by lia.
  exists Y, M, D. split_and!.
  - unfold valid_date, D. lia.
  - unfold day_number at 1, D. lia.
  - destruct (negb allow && negb ((minYear <=? y) && (y <=? maxYear))); [now left|].
    rewrite (cast_int_rep year y) by (assumption || lia). cbn [mbind result_bind].
    rewrite (cast_int_rep (fsub month (of_Z 1)) (m - 1)) by (rep_solve || lia; lia). cbn [mbind result_bind].
    rewrite Ef. cbn [defined mbind result_bind]. fold dd. fold est.
    destruct (negb allow && negb (isYearWithinLimits est)); [now left|right].
    rewrite Eby. cbn [mbind result_bind].
    rewrite (cast_unsigned_rep _ (DN - year_days Y + 1)) by (rep_solve || lia; lia). cbn [mbind result_bind].
    rewrite (cast_int_rep by_ Y) by (assumption || lia). cbn [mbind result_bind]. rewrite Em. cbn [mbind result_bind].
    eexists. split; [reflexivity|]. rewrite wrapu_id by (unfold in_u; lia). fold D.
    apply PlainDate_new_fields; [assumption|assumption|unfold D; lia].
  - destruct (negb allow && negb ((minYear <=? y) && (y <=? maxYear))) eqn:L1.
    { intros _. apply andb_prop in L1 as [La L1]. apply negb_true_iff, andb_false_iff in L1.
      rewrite !Z.leb_gt in L1. destruct allow; [discriminate|]. intuition lia. }
    rewrite (cast_int_rep year y) by (assumption || lia). cbn [mbind result_bind].
    rewrite (cast_int_rep (fsub month (of_Z 1)) (m - 1)) by (rep_solve || lia; lia). cbn [mbind result_bind].
    rewrite Ef. cbn [defined mbind result_bind]. fold dd. fold est.
    destruct (negb allow && negb (isYearWithinLimits est)) eqn:L2.
    { intros _. apply andb_prop in L2 as [La L2]. rewrite (rep_limits est _ RE) in L2.
      apply negb_true_iff, andb_false_iff in L2. rewrite !Z.leb_gt in L2.
      destruct allow; [discriminate|]. split; [reflexivity|]. lia. }
    rewrite Eby. cbn [mbind result_bind].
    rewrite (cast_unsigned_rep _ (DN - year_days Y + 1)) by (rep_solve || lia; lia). cbn [mbind result_bind].
    rewrite (cast_int_rep by_ Y) by (assumption || lia). cbn [mbind result_bind]. rewrite Em. discriminate.
Qed.

(** ** Time components *)

Lemma intFloor_div x y : 0 < y -> intFloor x y = x / y.
Proof.
  intros Hy. unfold intFloor. pose proof (Z.quot_rem x y ltac:(lia)) as E.
  destruct (0 <? x) eqn:E1; Zbool; [apply Z.quot_div_nonneg; lia|].
  assert (- y < Z.rem x y <= 0) as Hr.
  { pose proof (Z.rem_bound_pos (- x) y ltac:(lia) Hy) as Hb. rewrite Z.rem_opp_l in Hb by lia. lia. }
  destruct (Z.rem x y =? 0) eqn:E2; Zbool; cbn [negb].
  - apply (Z.div_unique_pos x y _ 0); lia.
  - apply (Z.div_unique_pos x y _ (Z.rem x y + y)); lia.
Qed.

Lemma nonNegativeModulo_mod x y : 0 < y -> nonNegativeModulo x y = x mod y.
Proof.
  intros Hy. unfold nonNegativeModulo. pose proof (Z.quot_rem x y ltac:(lia)) as E.
  assert (Z.abs (Z.rem x y) < y) as Hr by (pose proof (Z.rem_bound_abs x y); lia).
  destruct (Z.rem x y =? 0) eqn:E1; Zbool.
  - apply (Z.mod_unique_pos x y (Z.quot x y)); lia.
  - destruct (Z.rem x y <? 0) eqn:E2; Zbool.
    + apply (Z.mod_unique_pos x y (Z.quot x y - 1)); lia.
    + apply (Z.mod_unique_pos x y (Z.quot x y)); lia.
Qed.

Lemma carry_div a X k : 0 < k -> (a + k * X) / k = a / k + X.
Proof. intros. rewrite (Z.mul_comm k), Z.div_add by lia. reflexivity. Qed.
Lemma carry_mod a X k : 0 < k -> (a + k * X) mod k = a mod k.
Proof. intros. now rewrite (Z.mul_comm k), Z.mod_add by lia. Qed.

(** A carry step stays within a quarter of the range. *)
Lemma carry_bound B x c k : 2 <= B -> 60 <= k -> Z.abs x <= B -> Z.abs c <= 2 * B -> Z.abs (x + c / k) <= 2 * B.
Proof.
  intros HB Hk Hx Hc.
  assert (- B <= c / k) by (apply Z.div_le_lower_bound; nia).
  assert (c / k <= B) by (apply Z.div_le_upper_bound; nia). lia.
Qed.

Lemma wraps_quarter w B x : 4 <= w -> B = 2 ^ (w - 3) -> Z.abs x <= 2 * B -> wraps w x = x.
Proof.
  intros Hw -> Hx. apply wraps_id; [lia|]. unfold in_s.
  replace (w - 1) with (2 + (w - 3)) by lia. rewrite Z.pow_add_r by lia.
  assert (0 < 2 ^ (w - 3)) by lia. lia.
Qed.

(** Nanoseconds denoted by six components. *)
Definition total_ns (hour minute second millisecond microsecond nanosecond : Z) : Z :=
  nanosecond + 1000 * (microsecond + 1000 * (millisecond + 1000 * (second + 60 * (minute + 60 * hour)))).

Lemma balanceTime_spec w h m s ms us ns :
  64 <= w ->
  Forall (fun x => Z.abs x <= 2 ^ (w - 3)) [h; m; s; ms; us; ns] ->
  let T := total_ns h m s ms us ns in
  - 2 ^ 63 <= T / nsPerDay < 2 ^ 63 ->
  balanceTime w h m s ms us ns =
    Duration_of_ints [0; 0; 0; T / nsPerDay; (T / nsPerHour) mod 24; (T / nsPerMinute) mod 60;
                      (T / nsPerSecond) mod 60; (T / nsPerMillisecond) mod 1000;
                      (T / nsPerMicrosecond) mod 1000; T mod 1000].
Proof.
  intros Hw HF T HT.
  do 6 (let H := fresh "Hb" in apply Forall_cons_1 in HF as [H HF]). clear HF.
  set (B := 2 ^ (w - 3)) in *. assert (2 <= B) as HB by (apply (Z.pow_le_mono_r 2 1); lia).
  unfold balanceTime. rewrite !intFloor_div, !nonNegativeModulo_mod by lia.
  assert (Z.abs (us + ns / 1000) <= 2 * B) as B1 by (apply carry_bound; lia).
  rewrite (wraps_quarter w B (us + _)) by (reflexivity || assumption || lia). set (us' := us + ns / 1000) in *.
  assert (Z.abs (ms + us' / 1000) <= 2 * B) as B2 by (apply carry_bound; lia).
  rewrite (wraps_quarter w B (ms + _)) by (reflexivity || assumption || lia). set (ms' := ms + us' / 1000) in *.
  assert (Z.abs (s + ms' / 1000) <= 2 * B) as B3 by (apply carry_bound; lia).
  rewrite (wraps_quarter w B (s + _)) by (reflexivity || assumption || lia). set (s' := s + ms' / 1000) in *.
  assert (Z.abs (m + s' / 60) <= 2 * B) as B4 by (apply carry_bound; lia).
  rewrite (wraps_quarter w B (m + _)) by (reflexivity || assumption || lia). set (m' := m + s' / 60) in *.
  assert (Z.abs (h + m' / 60) <= 2 * B) as B5 by (apply carry_bound; lia).
  rewrite (wraps_quarter w B (h + _)) by (reflexivity || assumption || lia). set (h' := h + m' / 60) in *.
  clear B1 B2 B3 B4 B5.
  assert (T / 1000 = us' + 1000 * (ms + 1000 * (s + 60 * (m + 60 * h)))) as T1
    by (unfold T, total_ns; rewrite carry_div by lia; unfold us'; lia).
  assert (T / 1000000 = ms' + 1000 * (s + 60 * (m + 60 * h))) as T2
    by (change 1000000 with (1000 * 1000); rewrite <- Z.div_div, T1, carry_div by lia; unfold ms'; lia).
  assert (T / 1000000000 = s' + 60 * (m + 60 * h)) as T3
    by (change 1000000000 with (1000000 * 1000); rewrite <- Z.div_div, T2, carry_div by lia; unfold s'; lia).
  assert (T / nsPerMinute = m' + 60 * h) as T4
    by (change nsPerMinute with (1000000000 * 60); rewrite <- Z.div_div, T3, carry_div by lia; unfold m'; lia).
  assert (T / nsPerHour = h') as T5
    by (change nsPerHour with (nsPerMinute * 60); rewrite <- Z.div_div, T4, carry_div by (unfold nsPerMinute, nsPerSecond; lia); unfold h'; lia).
  assert (T / nsPerDay = h' / 24) as T6
    by (change nsPerDay with (nsPerHour * 24); rewrite <- Z.div_div, T5 by (unfold nsPerHour, nsPerMinute, nsPerSecond; lia); reflexivity).
  unfold nsPerSecond, nsPerMillisecond, nsPerMicrosecond. rewrite T6 in HT. rewrite T6, T5, T4, T3, T2, T1.
  rewrite !carry_mod by lia. unfold T at 1, total_ns. rewrite carry_mod by lia.
  repeat match goal with |- context [i64 (?a mod ?b)] =>
    rewrite (wraps_id 64 (a mod b)) by (unfold in_s; pose proof (Z.mod_pos_bound a b ltac:(lia)); lia) end.
  rewrite wraps_id by (unfold in_s; lia). reflexivity.
Qed.

(** ** Exact times *)

Lemma floorEpochMilliseconds_div ns :
  Z.abs ns <= 2 ^ 80 -> floorEpochMilliseconds ns = ns / nsPerMillisecond.
Proof.
  intros H. unfold floorEpochMilliseconds.
  pose proof (intFloor_div ns nsPerMillisecond ltac:(unfold nsPerMillisecond; lia)) as E. unfold intFloor in E.
  assert (Z.abs (ns / nsPerMillisecond) < 2 ^ 63) as Hb.
  { unfold nsPerMillisecond. assert (- 2 ^ 62 <= ns / 1000000) by (apply Z.div_le_lower_bound; lia).
    assert (ns / 1000000 <= 2 ^ 62) by (apply Z.div_le_upper_bound; lia). lia. }
  assert ((if negb (Z.rem ns nsPerMillisecond =? 0) && (ns <? 0) then Z.quot ns nsPerMillisecond - 1
           else Z.quot ns nsPerMillisecond) = ns / nsPerMillisecond) as ->; [|apply wraps_id; [lia|unfold in_s; lia]].
  rewrite <- E. destruct (0 <? ns) eqn:E1; Zbool.
  - replace (ns <? 0) with false by (symmetry; apply Z.ltb_ge; lia). now rewrite andb_false_r.
  - destruct (decide (ns = 0)) as [->|]; [reflexivity|].
    replace (ns <? 0) with true by (symmetry; apply Z.ltb_lt; lia). now rewrite andb_true_r.
Qed.

Lemma fromISOParts_spec y m d h mi s ms us ns off :
  Z.abs y <= 400000 -> valid_date y m d ->
  0 <= h < 24 -> 0 <= mi < 60 -> 0 <= s < 60 -> 0 <= ms < 1000 -> 0 <= us < 1000 -> 0 <= ns < 1000 ->
  Z.abs off <= nsPerDay ->
  fromISOPartsAndOffset y m d h mi s ms us ns off
    = Some (day_number y m d * nsPerDay + total_ns h mi s ms us ns - off).
Proof.
  intros Hy [Hm Hd] **. pose proof (month_length_range y m Hm).
  destruct (dateToDays_spec y m d ltac:(lia) Hm ltac:(lia)) as (r & Er & Rr).
  unfold fromISOPartsAndOffset. rewrite Er. cbn [mbind option_bind]. rewrite (r_to_Z _ _ Rr).
  assert (Z.abs (day_number y m d) <= 2 ^ 28) as Hdn.
  { unfold day_number, year_days. pose proof (month_days_range y m Hm). pose proof (daysInYear_range y).
    pose proof (Z.div_mod (y - 1) 4). pose proof (Z.mod_pos_bound (y - 1) 4).
    pose proof (Z.div_mod (y - 1) 100). pose proof (Z.mod_pos_bound (y - 1) 100).
    pose proof (Z.div_mod (y - 1) 400). pose proof (Z.mod_pos_bound (y - 1) 400). lia. }
  unfold nsPerDay, nsPerHour, nsPerMinute, nsPerSecond, nsPerMillisecond, nsPerMicrosecond, total_ns in *.
  f_equal. rewrite wraps_id; [lia|lia|unfold in_s; lia].
Qed.

(** ** Date arithmetic *)

Lemma balanceISOYearMonth_spec year month y m :
  rep year y -> rep month m -> Z.abs y <= 2 ^ 30 -> Z.abs m <= 2 ^ 30 ->
  balanceISOYearMonth year month = Ok (mkPlainYearMonth (y + (m - 1) / 12) ((m - 1) mod 12 + 1)).
Proof.
  intros Ry Rm Hy Hm. unfold balanceISOYearMonth.
  assert (rep (fsub month (of_Z 1)) (m - 1)) as Rm1 by (rep_solve; lia).
  pose proof (Z.div_mod (m - 1) 12) as Hd. pose proof (Z.mod_pos_bound (m - 1) 12) as Hr.
  assert (rep (fadd year (ffloor (fdiv (fsub month (of_Z 1)) (of_Z 12)))) (y + (m - 1) / 12)) as Ry2
    by (rep_solve; lia).
  assert (rep (ffmod (fsub month (of_Z 1)) (of_Z 12)) (Z.rem (m - 1) 12)) as Rf
    by (apply r_fmod; [assumption|apply r_of_Z; lia|lia|lia]).
  pose proof (Z.rem_bound_abs (m - 1) 12) as Hra.
  assert (rep (fadd (ffmod (fsub month (of_Z 1)) (of_Z 12)) (of_Z 1)) (Z.rem (m - 1) 12 + 1)) as Rg
    by (apply r_add; [assumption|apply r_of_Z; lia|lia]).
  cbv zeta. rewrite (r_flt _ _ _ _ Rg (r_of_Z 1 ltac:(lia))).
  rewrite (cast_int_rep _ _ Ry2) by lia. cbn [mbind result_bind].
  pose proof (nonNegativeModulo_mod (m - 1) 12 ltac:(lia)) as Hn. unfold nonNegativeModulo in Hn.
  destruct (Z.rem (m - 1) 12 + 1 <? 1) eqn:E; Zbool.
  - assert (rep (fadd (fadd (ffmod (fsub month (of_Z 1)) (of_Z 12)) (of_Z 1)) (of_Z 12)) (Z.rem (m - 1) 12 + 1 + 12)) as Rh
      by (apply r_add; [assumption|apply r_of_Z; lia|lia]).
    rewrite (cast_int_rep _ _ Rh) by lia. cbn [mbind result_bind]. do 2 f_equal.
    destruct (Z.rem (m - 1) 12 =? 0) eqn:E0 in Hn; destruct (Z.rem (m - 1) 12 <? 0) eqn:E1 in Hn; Zbool; lia.
  - rewrite (cast_int_rep _ _ Rg) by lia. cbn [mbind result_bind]. do 2 f_equal.
    destruct (Z.rem (m - 1) 12 =? 0) eqn:E0 in Hn; destruct (Z.rem (m - 1) 12 <? 0) eqn:E1 in Hn; Zbool; lia.
Qed.

Lemma regulate_constrain_spec y m day d :
  Z.abs y < 2 ^ 20 -> 1 <= m <= 12 -> rep day d -> Z.abs d <= 2 ^ 30 ->
  regulateISODate (of_Z y) (of_Z m) day Constrain
    = Ok (Some (PlainDate_new y m (Z.max 1 (Z.min d (month_length y m))))).
Proof.
  intros Hy Hm Rd Hd. unfold regulateISODate. pose proof (month_length_range y m Hm) as HL.
  rewrite (r_flt _ _ _ _ (r_of_Z m ltac:(lia)) (r_of_Z 1 ltac:(lia))).
  replace (m <? 1) with false by (symmetry; apply Z.ltb_ge; lia).
  rewrite (r_flt _ _ _ _ (r_of_Z 12 ltac:(lia)) (r_of_Z m ltac:(lia))).
  replace (12 <? m) with false by (symmetry; apply Z.ltb_ge; lia).
  rewrite (cast_int_rep _ y), (cast_uint8_rep _ m) by (lia || apply r_of_Z; lia). cbn [mbind result_bind].
  rewrite daysInMonth_Some by assumption. cbn [mbind result_bind defined].
  rewrite (r_flt _ _ _ _ Rd (r_of_Z 1 ltac:(lia))). set (dd := if d <? 1 then of_Z 1 else day).
  assert (rep dd (Z.max 1 d)) as Rdd.
  { unfold dd. destruct (d <? 1) eqn:E; Zbool; [rewrite Z.max_l by lia; apply r_of_Z; lia|now rewrite Z.max_r by lia]. }
  clearbody dd. rewrite (r_flt _ _ _ _ (r_of_Z (month_length y m) ltac:(lia)) Rdd).
  assert (rep (if month_length y m <? Z.max 1 d then of_Z (month_length y m) else dd)
              (Z.max 1 (Z.min d (month_length y m)))) as Re.
  { destruct (_ <? _) eqn:E; Zbool.
    - rewrite Z.min_r, Z.max_r by lia. apply r_of_Z. lia.
    - replace (Z.max 1 (Z.min d (month_length y m))) with (Z.max 1 d) by lia. exact Rdd. }
  rewrite (cast_unsigned_rep (of_Z m) m) by (lia || apply r_of_Z; lia). cbn [mbind result_bind].
  rewrite (cast_unsigned_rep _ _ Re) by lia. reflexivity.
Qed.

Lemma isoDateAdd_spec p y m d dur Y M W D allow :
  date_is p y m d -> valid_date y m d -> Z.abs y <= 300000 ->
  rep (Iso.dur dur 0) Y -> rep (Iso.dur dur 1) M -> rep (Iso.dur dur 2) W -> rep (Iso.dur dur 3) D ->
  Z.abs Y <= 50000 -> Z.abs M <= 500000 -> Z.abs W <= 10000000 -> Z.abs D <= 100000000 ->
  let y1 := y + Y + (m + M - 1) / 12 in
  let m1 := (m + M - 1) mod 12 + 1 in
  let d1 := Z.min d (month_length y1 m1) in
  exists Y' M' D', valid_date Y' M' D' /\ day_number Y' M' D' = day_number y1 m1 d1 + D + 7 * W /\
    ((allow = false /\ isoDateAdd p dur Constrain allow = Throw RangeError) \/
     exists p', isoDateAdd p dur Constrain allow = Ok p' /\ date_is p' Y' M' D').
Proof.
  intros (Hpy & Hpm & Hpd) [Hm Hd] Hy RY RM RW RD HY HM HW HD y1 m1 d1.
  pose proof (month_length_range y m Hm) as HL.
  pose proof (Z.div_mod (m + M - 1) 12) as Hdm. pose proof (Z.mod_pos_bound (m + M - 1) 12) as Hr.
  assert (1 <= m1 <= 12) as Hm1 by (unfold m1; lia).
  assert (Z.abs y1 <= 400000) as Hy1 by (unfold y1; lia).
  pose proof (month_length_range y1 m1 Hm1) as HL1.
  unfold isoDateAdd. rewrite Hpy, Hpm, Hpd.
  rewrite (balanceISOYearMonth_spec _ _ (y + Y) (m + M)) by (rep_solve || lia; lia). cbn [mbind result_bind ym_year ym_month].
  fold y1 m1. rewrite (regulate_constrain_spec y1 m1 (of_Z d) d) by (lia || (apply r_of_Z; lia)).
  cbn [mbind result_bind]. replace (Z.max 1 (Z.min d (month_length y1 m1))) with d1 by (unfold d1; lia).
  destruct (PlainDate_new_fields y1 m1 d1) as (F1 & F2 & F3); [lia|lia|unfold d1; lia|]. rewrite F1, F2, F3.
  assert (1 <= d1 <= 31) as Hd1 by (unfold d1; lia).
  destruct (balanceISODate_spec (of_Z y1) (of_Z m1) (fadd (fadd (of_Z d1) (Iso.dur dur 3)) (fmul (of_Z 7) (Iso.dur dur 2)))
    y1 m1 (d1 + D + 7 * W) allow) as (Y' & M' & D' & V & E & Hres & Hthrow);
    [apply r_of_Z; lia|apply r_of_Z; lia|rep_solve; lia|lia|lia|lia|].
  exists Y', M', D'. split_and!; [assumption|rewrite E; unfold day_number; lia|].
  destruct Hres as [Hres|(p' & Hp' & Hdate)].
  - left. destruct (Hthrow Hres) as [Ha _]. split; [assumption|]. now rewrite Hres.
  - right. rewrite Hp'. cbn [mbind result_bind]. eexists. split; [reflexivity|].
    destruct Hdate as (D1 & D2 & D3). rewrite D1, D2, D3.
    destruct V as [V1 V2]. pose proof (month_length_range Y' M' V1).
    assert (Z.abs Y' < 2 ^ 20) as HY'.
    { assert (pd_year p' = m_year p') as Hm_ by reflexivity.
      clear -D1 E HD HW Hd1 Hy1 Hm1 V1 V2. unfold day_number in E.
      pose proof (month_days_range y1 m1 Hm1). pose proof (month_days_range Y' M' V1).
      pose proof (daysInYear_range y1). pose proof (daysInYear_range Y').
      pose proof (month_length_range Y' M' V1). pose proof (month_length_range y1 m1 Hm1).
      unfold year_days in E.
      pose proof (Z.div_mod (y1 - 1) 4). pose proof (Z.mod_pos_bound (y1 - 1) 4).
      pose proof (Z.div_mod (y1 - 1) 100). pose proof (Z.mod_pos_bound (y1 - 1) 100).
      pose proof (Z.div_mod (y1 - 1) 400). pose proof (Z.mod_pos_bound (y1 - 1) 400).
      pose proof (Z.div_mod (Y' - 1) 4). pose proof (Z.mod_pos_bound (Y' - 1) 4).
      pose proof (Z.div_mod (Y' - 1) 100). pose proof (Z.mod_pos_bound (Y' - 1) 100).
      pose proof (Z.div_mod (Y' - 1) 400). pose proof (Z.mod_pos_bound (Y' - 1) 400). lia. }
    apply PlainDate_new_fields; [assumption|lia|lia].
Qed.

End IsoFacts.

(** * Properties *)
Module IsoProps.
Import Iso IsoFacts.

(** The calendar successor of a date, by the code's month lengths. *)
Definition next_date (y m d : Z) : Z * Z * Z :=
  if d <? month_length y m then (y, m, d + 1)
  else if m <? 12 then (y, m + 1, 1)
  else (y + 1, 1, 1).

(** The day number computed in doubles is an exact integer; 1970-01-01 is
    day 0 and the calendar successor of a date has the next number, so the
    numbers count the days of the proleptic Gregorian calendar. *)
Theorem dateToDays_counts (y m d : Z) :
  Z.abs y <= 400000 -> valid_date y m d ->
  (exists r0, dateToDaysFrom1970 1970 0 1 = Some r0 /\ rep r0 0) /\
  (let '(y', m', d') := next_date y m d in
   valid_date y' m' d' /\
   exists r r' n, dateToDaysFrom1970 y (m - 1) d = Some r /\ rep r n /\
     dateToDaysFrom1970 y' (m' - 1) d' = Some r' /\ rep r' (n + 1)).
Proof.
  intros Hy V. split.
  { destruct (dateToDays_spec 1970 1 1) as (r & E & R); [lia..|].
    assert (day_number 1970 1 1 = 0) as E0 by (vm_compute; reflexivity).
    rewrite E0 in R. exists r. exact (conj E R). }
  destruct V as [Hm Hd]. pose proof (month_length_range y m Hm) as HL.
  destruct (dateToDays_spec y m d) as (r & E & R); [lia..|].
  unfold next_date. destruct (d <? month_length y m) eqn:E1; Zbool; [|destruct (m <? 12) eqn:E2; Zbool].
  - split; [unfold valid_date; lia|]. destruct (dateToDays_spec y m (d + 1)) as (r' & E' & R'); [lia..|].
    exists r, r', (day_number y m d). split_and!; try assumption.
    replace (day_number y m d + 1) with (day_number y m (d + 1)) by (unfold day_number; lia). assumption.
  - pose proof (month_length_range y (m + 1)). split; [unfold valid_date; lia|].
    destruct (dateToDays_spec y (m + 1) 1) as (r' & E' & R'); [lia..|].
    exists r, r', (day_number y m d). split_and!; try assumption.
    replace (day_number y m d + 1) with (day_number y (m + 1) 1); [assumption|].
    unfold day_number. rewrite month_days_succ by lia. lia.
  - assert (m = 12) as -> by lia. pose proof (month_length_range (y + 1) 1). split; [unfold valid_date; lia|].
    destruct (dateToDays_spec (y + 1) 1 1) as (r' & E' & R'); [lia..|].
    exists r, r', (day_number y 12 d). split_and!; try assumption.
    replace (day_number y 12 d + 1) with (day_number (y + 1) 1 1); [assumption|].
    unfold day_number. rewrite year_days_succ, month_days_1. pose proof (month_days_end y). lia.
Qed.
Lemma dateToDays_counts_witness :
  (exists r0, dateToDaysFrom1970 1970 0 1 = Some r0 /\ rep r0 0) /\
  (let '(y', m', d') := next_date 2100 2 28 in
   valid_date y' m' d' /\
   exists r r' n, dateToDaysFrom1970 2100 (2 - 1) 28 = Some r /\ rep r n /\
     dateToDaysFrom1970 y' (m' - 1) d' = Some r' /\ rep r' (n + 1)).
Proof. apply (dateToDays_counts 2100 2 28); [lia|]. split; [lia|]. vm_compute. split; congruence. Defined.

(** C37: [balanceISODate] normalises a year up to 400000, a month and a number of
    days up to 200000000, of either sign, into the unique valid date with the same
    day number, or throws a RangeError.  That it does only with range checking on
    and a year, given or resulting, that is beyond the limits of the representable
    range or is the first or the last year in it: there the result of the checks
    depends on the day, which is not stated.  (The year is packed into 21 bits,
    and wraps for years far beyond.) *)
Theorem balanceISODate_correct (y m d : Z) (allowOutOfRange : bool) :
  Z.abs y <= 400000 -> 1 <= m <= 12 -> Z.abs d <= 200000000 ->
  exists Y M D, valid_date Y M D /\
    day_number Y M D = day_number y m 1 + (d - 1) /\
    (forall Y' M' D', valid_date Y' M' D' -> day_number Y' M' D' = day_number y m 1 + (d - 1) ->
       Y' = Y /\ M' = M /\ D' = D) /\
    (balanceISODate (of_Z y) (of_Z m) (of_Z d) allowOutOfRange = Throw RangeError \/
     exists p, balanceISODate (of_Z y) (of_Z m) (of_Z d) allowOutOfRange = Ok p /\ date_is p Y M D) /\
    (balanceISODate (of_Z y) (of_Z m) (of_Z d) allowOutOfRange = Throw RangeError ->
     allowOutOfRange = false /\ (y < minYear \/ maxYear < y \/ Y <= minYear \/ maxYear <= Y)).
Proof.
  intros Hy Hm Hd.
  destruct (balanceISODate_spec (of_Z y) (of_Z m) (of_Z d) y m d allowOutOfRange)
    as (Y & M & D & V & E & H1 & H2); [apply r_of_Z; lia..|lia|lia|lia|].
  exists Y, M, D. split_and!; [assumption|assumption| |assumption|assumption].
  intros Y' M' D' V' E'. apply day_number_inj; [assumption..|lia].
Qed.
Lemma balanceISODate_correct_witness :
  exists Y M D, valid_date Y M D /\
    day_number Y M D = day_number 2024 2 1 + (400 - 1) /\
    (forall Y' M' D', valid_date Y' M' D' -> day_number Y' M' D' = day_number 2024 2 1 + (400 - 1) ->
       Y' = Y /\ M' = M /\ D' = D) /\
    (balanceISODate (of_Z 2024) (of_Z 2) (of_Z 400) false = Throw RangeError \/
     exists p, balanceISODate (of_Z 2024) (of_Z 2) (of_Z 400) false = Ok p /\ date_is p Y M D) /\
    (balanceISODate (of_Z 2024) (of_Z 2) (of_Z 400) false = Throw RangeError ->
     false = false /\ (2024 < minYear \/ maxYear < 2024 \/ Y <= minYear \/ maxYear <= Y)).
Proof. apply (balanceISODate_correct 2024 2 400 false); lia. Defined.

(** Adding years, months, weeks and days to a date with the constrain
    option: the month arithmetic is a floored division, the day is clamped to
    the length of the new month, and weeks and days are added to the day number
    of the result. *)
Theorem isoDateAdd_correct (p : PlainDate) (dur : Duration) (y m d Y M W D : Z) (allowOutOfRange : bool) :
  date_is p y m d -> valid_date y m d -> Z.abs y <= 300000 ->
  rep (Iso.dur dur 0) Y -> rep (Iso.dur dur 1) M -> rep (Iso.dur dur 2) W -> rep (Iso.dur dur 3) D ->
  Z.abs Y <= 50000 -> Z.abs M <= 500000 -> Z.abs W <= 10000000 -> Z.abs D <= 100000000 ->
  let y1 := y + Y + (m + M - 1) / 12 in
  let m1 := (m + M - 1) mod 12 + 1 in
  let d1 := Z.min d (month_length y1 m1) in
  exists Y' M' D', valid_date Y' M' D' /\ day_number Y' M' D' = day_number y1 m1 d1 + D + 7 * W /\
    ((allowOutOfRange = false /\ isoDateAdd p dur Constrain allowOutOfRange = Throw RangeError) \/
     exists p', isoDateAdd p dur Constrain allowOutOfRange = Ok p' /\ date_is p' Y' M' D').
Proof. apply isoDateAdd_spec. Qed.
Lemma isoDateAdd_correct_witness :
  let p := PlainDate_new 2024 1 31 in
  let dur := Duration_of_ints [1; 13; 2; -3; 0; 0; 0; 0; 0; 0] in
  let y1 := 2024 + 1 + (1 + 13 - 1) / 12 in
  let m1 := (1 + 13 - 1) mod 12 + 1 in
  let d1 := Z.min 31 (month_length y1 m1) in
  exists Y' M' D', valid_date Y' M' D' /\ day_number Y' M' D' = day_number y1 m1 d1 + -3 + 7 * 2 /\
    ((true = false /\ isoDateAdd p dur Constrain true = Throw RangeError) \/
     exists p', isoDateAdd p dur Constrain true = Ok p' /\ date_is p' Y' M' D').
Proof.
  apply (isoDateAdd_correct (PlainDate_new 2024 1 31) (Duration_of_ints [1; 13; 2; -3; 0; 0; 0; 0; 0; 0])
    2024 1 31 1 13 2 (-3) true);
    try (apply r_of_Z; lia); try lia.
  - vm_compute. auto.
  - split; [lia|]. vm_compute. split; congruence.
Defined.

(** The order of the packed dates is the order of the exact times they
    stand for. *)
Theorem PlainDate_compare_exact (p q : PlainDate) (y m d y' m' d' : Z) :
  date_is p y m d -> date_is q y' m' d' -> valid_date y m d -> valid_date y' m' d' ->
  Z.abs y <= 400000 -> Z.abs y' <= 400000 ->
  exists t t', fromPlainDate p = Some t /\ fromPlainDate q = Some t' /\
    PlainDate_compare p q = Z.sgn (t - t').
Proof.
  intros (P1 & P2 & P3) (Q1 & Q2 & Q3) V V' Hy Hy'.
  unfold fromPlainDate, PlainDate_compare. rewrite P1, P2, P3, Q1, Q2, Q3.
  rewrite !fromISOParts_spec by (assumption || lia || (unfold nsPerDay, nsPerHour, nsPerMinute, nsPerSecond; lia)).
  eexists _, _. split_and!; [reflexivity..|].
  assert (forall a b, Z.sgn (a * nsPerDay + total_ns 0 0 0 0 0 0 - 0 - (b * nsPerDay + total_ns 0 0 0 0 0 0 - 0))
    = Z.sgn (a - b)) as ->.
  { intros a b. unfold nsPerDay, nsPerHour, nsPerMinute, nsPerSecond, total_ns. lia. }
  assert (forall a b c a' b' c', valid_date a b c -> valid_date a' b' c' -> date_lt a b c a' b' c' ->
    Z.sgn (day_number a b c - day_number a' b' c') = -1 /\ Z.sgn (day_number a' b' c' - day_number a b c) = 1) as Hs.
  { intros a b c a' b' c' Va Vb L. pose proof (day_number_lt _ _ _ _ _ _ Va Vb L). lia. }
  unfold date_lt in Hs.
  repeat match goal with |- context [?a <? ?b] => destruct (a <? b) eqn:?; Zbool end;
    try (symmetry; first [apply (Hs y m d y' m' d' V V'); lia | apply (Hs y' m' d' y m d V' V); lia]).
  assert (y = y') as -> by lia. assert (m = m') as -> by lia. assert (d = d') as -> by lia.
  now rewrite Z.sub_diag.
Qed.
Lemma PlainDate_compare_exact_witness :
  exists t t', fromPlainDate (PlainDate_new 2024 2 29) = Some t /\ fromPlainDate (PlainDate_new 2024 3 1) = Some t' /\
    PlainDate_compare (PlainDate_new 2024 2 29) (PlainDate_new 2024 3 1) = Z.sgn (t - t').
Proof.
  apply (PlainDate_compare_exact (PlainDate_new 2024 2 29) (PlainDate_new 2024 3 1) 2024 2 29 2024 3 1);
    try lia; try (vm_compute; auto; fail); (split; [lia|vm_compute; split; congruence]).
Defined.

(** Balancing time components, at 64 or 128 bits: days carry out of the
    total nanoseconds by floored division and every component is its remainder,
    for negative totals too, with no overflow on the way. *)
Theorem balanceTime_correct (w h m s ms us ns : Z) :
  64 <= w ->
  Forall (fun x => Z.abs x <= 2 ^ (w - 3)) [h; m; s; ms; us; ns] ->
  let T := total_ns h m s ms us ns in
  - 2 ^ 63 <= T / nsPerDay < 2 ^ 63 ->
  balanceTime w h m s ms us ns =
    Duration_of_ints [0; 0; 0; T / nsPerDay; (T / nsPerHour) mod 24; (T / nsPerMinute) mod 60;
                      (T / nsPerSecond) mod 60; (T / nsPerMillisecond) mod 1000;
                      (T / nsPerMicrosecond) mod 1000; T mod 1000].
Proof. apply balanceTime_spec. Qed.
Lemma balanceTime_correct_witness :
  let T := total_ns 0 0 0 0 0 (-1) in
  balanceTime 128 0 0 0 0 0 (-1) =
    Duration_of_ints [0; 0; 0; T / nsPerDay; (T / nsPerHour) mod 24; (T / nsPerMinute) mod 60;
                      (T / nsPerSecond) mod 60; (T / nsPerMillisecond) mod 1000;
                      (T / nsPerMicrosecond) mod 1000; T mod 1000].
Proof.
  apply (balanceTime_correct 128 0 0 0 0 0 (-1)); [lia|repeat constructor; simpl; lia|].
  vm_compute. split; congruence.
Defined.

End IsoProps.
