(* ===== verification/EcmaDate.v ===== *)
(** Dates ([runtime/DateObject.h], [runtime/DateObject.cpp], [builtins/BuiltinDate.cpp]):
    the fields of a time value and back, on machine integers and doubles as the
    code computes them; the date object with its cache of local fields; the
    getters, setters and constructors.  Time zones are a parameter.  The reference is the time arithmetic of ECMA-262. *)
From Stdlib Require Import ZArith Lia Bool.
From stdpp Require Import base numbers list option decidable relations.
From S2P Require Import Prelude Double IsoCalendar.

(** * Times and their fields *)
Module Dates.
Import Iso.

(** [1LL << 63] stands for NaN. *)
Definition TIME64NAN : Z := - 2 ^ 63.
Definition IS_VALID_TIME (t : Z) : bool := negb (t =? TIME64NAN).
Definition MaximumDatePrimitiveValue : Z := 8640000000000000.
Definition IS_IN_TIME_RANGE (t : Z) : bool :=
  (t <=? MaximumDatePrimitiveValue) && (- MaximumDatePrimitiveValue <=? t).

Definition DaysPerWeek : Z := 7.
Definition DaysPerYear : Z := 365.
Definition DaysPerLeapYear : Z := DaysPerYear + 1.
Definition MonthsPerYear : Z := 12.
Definition HoursPerDay : Z := 24.
Definition MinutesPerHour : Z := 60.
Definition SecondsPerMinute : Z := 60.
Definition SecondsPerHour : Z := SecondsPerMinute * MinutesPerHour.
Definition MsPerSecond : Z := 1000.
Definition MsPerMinute : Z := MsPerSecond * SecondsPerMinute.
Definition MsPerHour : Z := MsPerSecond * SecondsPerHour.
Definition MsPerDay : Z := MsPerHour * HoursPerDay.

(** Signed arithmetic that overflows is undefined. *)
Definition int (x : Z) : result Z := if bool_decide (in_s 32 x) then Ok x else Undefined.
Definition int64 (x : Z) : result Z := if bool_decide (in_s 64 x) then Ok x else Undefined.

Definition daysInYear (year : Z) : Z :=
  if negb (Z.rem year 4 =? 0) then DaysPerYear
  else if negb (Z.rem year 100 =? 0) then DaysPerLeapYear
  else if negb (Z.rem year 400 =? 0) then DaysPerYear
  else DaysPerLeapYear.

(** Before 1970 the quotients are doubles. *)
Definition daysFromYear (year : Z) : result Z :=
  y ← int (year - 1970);
  days ← int (365 * y);
  if 1970 <=? year then
    a ← int (days + Z.quot (year - 1969) 4);
    b ← int (a - Z.quot (year - 1901) 100);
    int (b + Z.quot (year - 1601) 400)
  else
    a ← int (year - 1969);
    b ← int (year - 1901);
    c ← int (year - 1601);
    cast_int
      (fadd (fsub (fadd (of_Z days) (ffloor (fdiv (of_Z a) (of_Z 4))))
                  (ffloor (fdiv (of_Z b) (of_Z 100))))
            (ffloor (fdiv (of_Z c) (of_Z 400)))).

Definition timeFromYear (year : Z) : result Z :=
  if 1000000 <? Z.abs (year - 1970) then Ok TIME64NAN
  else days ← daysFromYear year; int64 (MsPerDay * days).

Definition inLeapYear (year : Z) : bool := negb (daysInYear year - DaysPerYear =? 0).

Definition daysInMonth : list Z := [31; 28; 31; 30; 31; 30; 31; 31; 30; 31; 30; 31].
Fixpoint _firstDay (mon : nat) : Z :=
  match mon with
  | O => 0
  | S mon => _firstDay mon + nth mon daysInMonth 0
  end.
Definition LEAP : Z := 1.
Definition firstDayOfMonth : list (list Z) :=
  [_firstDay <$> seq 0 13;
   (_firstDay <$> seq 0 2) ++ ((fun mon => _firstDay mon + LEAP) <$> seq 2 11)].
Definition daysFromMonth (year month : Z) : result Z :=
  row ← defined (lookupZ firstDayOfMonth (Z.b2z (inLeapYear year)));
  defined (lookupZ row month).

Definition daysToMs (year month date : Z) : result Z :=
  t ← timeFromYear year;
  if t =? TIME64NAN then Ok TIME64NAN
  else
    days ← daysFromMonth year month;
    a ← int64 (t + days * MsPerDay);
    d ← int (date - 1);
    int64 (a + d * MsPerDay).

Definition timeinfoToMs (year mon day hour minute second millisecond : Z) : result Z :=
  daysMs ← daysToMs year mon day;
  if daysMs =? TIME64NAN then Ok TIME64NAN
  else
    a ← int64 (daysMs + hour * MsPerHour);
    b ← int64 (a + minute * MsPerMinute);
    s ← int64 (second * MsPerSecond);
    c ← int64 (b + s);
    int64 (c + millisecond).

(** [static_cast<int>(t / (double)MsPerDay)] *)
Definition daysFromTime (t : Z) : result Z :=
  t ← (if t <? 0 then int64 (t - (MsPerDay - 1)) else Ok t);
  cast_int (fdiv (of_Z t) (of_Z MsPerDay)).

Definition yearFromTime (t : Z) : result Z :=
  estimate ← cast_int (fadd (ffloor (fdiv (of_Z (Z.quot t MsPerDay)) MEAN_YEAR)) (of_Z 1970));
  yearAsMs ← daysToMs estimate 0 1;
  let estimate := if t <? yearAsMs then estimate - 1 else estimate in
  next ← int64 (yearAsMs + daysInYear estimate * MsPerDay);
  Ok (if next <=? t then estimate + 1 else estimate).

Record DateTimeInfo := mkDateTimeInfo {
  year : Z; month : Z; mday : Z; hour : Z; min : Z; sec : Z; millisec : Z; wday : Z; gmtoff : Z; isdst : Z
}.
Definition with_zone (i : DateTimeInfo) (gmtoff isdst : Z) : DateTimeInfo :=
  mkDateTimeInfo (year i) (month i) (mday i) (hour i) (min i) (sec i) (millisec i) (wday i) gmtoff isdst.

(** The first month that ends behind the day: [for (int i = 1; i <= 12; i++)]. *)
Fixpoint month_loop (row : list Z) (dayWithinYear i : Z) (n : nat) (month : Z) : result Z :=
  match n with
  | O => Ok month
  | S n =>
      first ← defined (lookupZ row i);
      if dayWithinYear <? first then Ok (i - 1) else month_loop row dayWithinYear (i + 1) n month
  end.

Definition computeTimeInfoFromEpoch (t : Z) (cachedLocal : DateTimeInfo) : result DateTimeInfo :=
  year ← yearFromTime t;
  days ← daysFromTime t;
  before ← daysFromYear year;
  let dayWithinYear := days - before in
  row ← defined (lookupZ firstDayOfMonth (Z.b2z (inLeapYear year)));
  month ← month_loop row dayWithinYear 1 12 (month cachedLocal);
  first ← defined (lookupZ row month);
  timeInDay ← int (t - days * MsPerDay);
  let weekday := Z.rem (days + 4) DaysPerWeek in
  Ok (mkDateTimeInfo year month (dayWithinYear + 1 - first)
        (Z.quot timeInDay MsPerHour)
        (Z.rem (Z.quot timeInDay MsPerMinute) MinutesPerHour)
        (Z.rem (Z.quot timeInDay MsPerSecond) SecondsPerMinute)
        (Z.rem timeInDay MsPerSecond)
        (if 0 <=? weekday then weekday else weekday + DaysPerWeek)
        (gmtoff cachedLocal) (isdst cachedLocal)).

Definition weekDay (t : Z) : result Z := days ← daysFromTime t; Ok (Z.rem (days + 4) DaysPerWeek).

(** ** Single fields *)

Definition monthNumberHelper : list Z := [31; 59; 90; 120; 151; 181; 212; 243; 273; 304; 334; 365].
(** A binary search; it may read before the table. *)
Fixpoint month_search (fuel : nat) (day l r : Z) : result Z :=
  match fuel with
  | O => Undefined
  | S fuel =>
      let m := l + Z.quot (r - l) 2 in
      here ← defined (lookupZ monthNumberHelper m);
      if here <? day then month_search fuel day (m + 1) r
      else
        previous ← defined (lookupZ monthNumberHelper (m - 1));
        if previous <? day then Ok (m + (if here =? day then 1 else 0))
        else month_search fuel day l (m - 1)
  end.
Definition monthFromTime (t : Z) : result Z :=
  year ← yearFromTime t;
  days ← daysFromTime t;
  before ← daysFromYear year;
  let day := days - before in
  if day <? 31 then Ok 0 else month_search 12 (day - Z.b2z (inLeapYear year)) 0 10.

Definition dateFromTime (t : Z) : result Z :=
  year ← yearFromTime t;
  days ← daysFromTime t;
  before ← daysFromYear year;
  let dayWithinYear := days - before in
  monthNumber ← monthFromTime t;
  if monthNumber =? 0 then Ok (dayWithinYear + 1)
  else if monthNumber =? 1 then
    first ← defined (lookupZ monthNumberHelper 0); Ok (dayWithinYear - (first - 1))
  else
    first ← defined (lookupZ monthNumberHelper (monthNumber - 1));
    Ok (dayWithinYear - (first - 1) - Z.b2z (inLeapYear year)).

Definition hourFromTime (t : Z) : Z :=
  if 0 <=? t then Z.rem (Z.quot t MsPerHour) HoursPerDay
  else
    let hours := Z.rem (Z.quot (t - (MsPerHour - 1)) MsPerHour) HoursPerDay in
    if hours =? 0 then 0 else HoursPerDay + hours.
Definition minFromTime (t : Z) : Z :=
  if 0 <=? t then Z.rem (Z.quot t MsPerMinute) MinutesPerHour
  else
    let minutes := Z.rem (Z.quot (t - (MsPerMinute - 1)) MsPerMinute) MinutesPerHour in
    if minutes =? 0 then 0 else MinutesPerHour + minutes.
(** Here the quotient is cut to an [int] before the remainder. *)
Definition secFromTime (t : Z) : Z :=
  if 0 <=? t then Z.rem (Z.quot t MsPerSecond) SecondsPerMinute
  else
    let seconds := Z.rem (i32 (Z.quot (t - (MsPerSecond - 1)) MsPerSecond)) SecondsPerMinute in
    if seconds =? 0 then 0 else SecondsPerMinute + seconds.
Definition msFromTime (t : Z) : Z :=
  let milliseconds := Z.rem t MsPerSecond in
  if 0 <=? milliseconds then milliseconds else MsPerSecond + milliseconds.

(** ** Time values of numbers *)

Definition timeClip (t : Z) : Z :=
  if flt (of_Z MaximumDatePrimitiveValue) (fabs t) then NAN else fadd (ftrunc t) (of_Z 0).
(** [toInteger] of a number in range. *)
Definition timeClipToTime64 (V : Z) : Z :=
  if is_inf V || is_nan V then TIME64NAN
  else if negb (fle V (of_Z MaximumDatePrimitiveValue) && fle (of_Z (- MaximumDatePrimitiveValue)) V) then TIME64NAN
  else to_Z V.

Definition equivalentYearForDST (year : Z) : Z :=
  let minYear := 2010 in
  let maxYear := 2037 in
  if maxYear <? year then year + Z.quot (minYear - year) 28 * 28
  else if year <? minYear then year + Z.quot (maxYear - year) 28 * 28
  else year.

End Dates.

(** * What the arithmetic computes *)
Module DateFacts.
Import Iso IsoFacts Dates.

Lemma int_ok x : - 2 ^ 31 <= x < 2 ^ 31 -> int x = Ok x.
Proof. intros H. unfold int. rewrite bool_decide_eq_true_2; [reflexivity|]. unfold in_s. lia. Qed.
Lemma int64_ok x : - 2 ^ 63 <= x < 2 ^ 63 -> int64 x = Ok x.
Proof. intros H. unfold int64. rewrite bool_decide_eq_true_2; [reflexivity|]. unfold in_s. lia. Qed.
(** Machine arithmetic that does not overflow. *)
Ltac ints :=
  repeat (first [rewrite int_ok by lia | rewrite int64_ok by lia]; cbn [mbind result_bind]).

Lemma daysInYear_iso y : Dates.daysInYear y = Iso.daysInYear y.
Proof.
  unfold Dates.daysInYear, Iso.daysInYear, isLeapYear, DaysPerYear, DaysPerLeapYear, DaysPerYear.
  destruct (Z.rem y 4 =? 0), (Z.rem y 100 =? 0), (Z.rem y 400 =? 0); reflexivity.
Qed.
Lemma inLeapYear_iso y : inLeapYear y = isLeapYear y.
Proof. unfold inLeapYear. rewrite daysInYear_iso. unfold Iso.daysInYear, DaysPerYear. now destruct (isLeapYear y). Qed.

(** Years that [timeFromYear] accepts. *)
Definition near (y : Z) : Prop := Z.abs (y - 1970) <= 1000000.

Lemma year_days_near y : near y -> Z.abs (year_days y) <= 366000000.
Proof.
  unfold near, year_days. intros H.
  pose proof (Z.div_mod (y - 1) 4). pose proof (Z.mod_pos_bound (y - 1) 4).
  pose proof (Z.div_mod (y - 1) 100). pose proof (Z.mod_pos_bound (y - 1) 100).
  pose proof (Z.div_mod (y - 1) 400). pose proof (Z.mod_pos_bound (y - 1) 400). lia.
Qed.

Lemma year_days_270000 y : Z.abs (y - 1970) <= 270000 -> Z.abs (year_days y) <= 98700000.
Proof.
  unfold year_days. intros H.
  pose proof (Z.div_mod (y - 1) 4). pose proof (Z.mod_pos_bound (y - 1) 4).
  pose proof (Z.div_mod (y - 1) 100). pose proof (Z.mod_pos_bound (y - 1) 100).
  pose proof (Z.div_mod (y - 1) 400). pose proof (Z.mod_pos_bound (y - 1) 400). lia.
Qed.

Lemma div_shift a b c k : 0 < k -> c = k * b -> (a - c) / k = a / k - b.
Proof. intros Hk ->. replace (a - k * b) with (a + (- b) * k) by lia. rewrite Z.div_add by lia. lia. Qed.

Lemma daysFromYear_ok y : near y -> daysFromYear y = Ok (year_days y).
Proof.
  intros Hy. pose proof (year_days_near y Hy) as Hb. unfold near in Hy. unfold daysFromYear.
  assert ((y - 1969) / 4 = (y - 1) / 4 - 492) as E1
    by (replace (y - 1969) with (y - 1 - 1968) by lia; apply div_shift; lia).
  assert ((y - 1901) / 100 = (y - 1) / 100 - 19) as E2
    by (replace (y - 1901) with (y - 1 - 1900) by lia; apply div_shift; lia).
  assert ((y - 1601) / 400 = (y - 1) / 400 - 4) as E3
    by (replace (y - 1601) with (y - 1 - 1600) by lia; apply div_shift; lia).
  assert (forall k n, 0 < k -> Z.abs n <= 1000400 -> - 1000400 <= n / k <= 1000400) as Hq
    by (intros k n Hk Hn; split; [apply Z.div_le_lower_bound|apply Z.div_le_upper_bound]; nia).
  pose proof (Hq 4 (y - 1969) ltac:(lia) ltac:(lia)). pose proof (Hq 100 (y - 1901) ltac:(lia) ltac:(lia)).
  pose proof (Hq 400 (y - 1601) ltac:(lia) ltac:(lia)).
  ints. assert (year_days y = 365 * (y - 1970) + (y - 1969) / 4 - (y - 1901) / 100 + (y - 1601) / 400) as Ey
    by (unfold year_days; lia).
  destruct (1970 <=? y) eqn:E; Zbool.
  - rewrite !Z.quot_div_nonneg by lia. ints. now rewrite Ey.
  - ints. apply cast_int_rep; [|lia]. rewrite Ey.
    assert (forall n, Z.abs n <= 2 ^ 40 -> rep (of_Z n) n) as Hr by (intros n Hn; apply r_of_Z; lia).
    apply r_add; [apply r_sub; [apply r_add; [apply Hr; lia|apply r_floor_div; [apply Hr; lia|apply Hr; lia|lia|lia]|lia]
      |apply r_floor_div; [apply Hr; lia|apply Hr; lia|lia|lia]|lia]|apply r_floor_div; [apply Hr; lia|apply Hr; lia|lia|lia]|lia].
Qed.

Lemma timeFromYear_ok y : near y -> timeFromYear y = Ok (MsPerDay * year_days y).
Proof.
  intros Hy. unfold timeFromYear. pose proof (year_days_near y Hy). unfold near in Hy.
  destruct (1000000 <? Z.abs (y - 1970)) eqn:E; Zbool; [lia|]. rewrite daysFromYear_ok by assumption. cbn [mbind result_bind].
  apply int64_ok. change MsPerDay with 86400000. lia.
Qed.
Lemma timeFromYear_far y : ~ near y -> timeFromYear y = Ok TIME64NAN.
Proof. unfold near, timeFromYear. intros Hy. destruct (1000000 <? Z.abs (y - 1970)) eqn:E; Zbool; [reflexivity|lia]. Qed.

(** Both tables of first days: this one has a column for the end of the year. *)
Lemma daysFromMonth_ok y m : 0 <= m < 12 -> daysFromMonth y m = Ok (month_days y (m + 1)).
Proof.
  intros H. unfold daysFromMonth. rewrite inLeapYear_iso. remember (m + 1) as m' eqn:Em.
  replace m with (m' - 1) by lia. assert (1 <= m' <= 12) as H12 by lia. clear Em H m. pattern m'.
  apply month_cases; [assumption|..]; unfold month_days, dayInYear; destruct (isLeapYear y); reflexivity.
Qed.

Lemma daysToMs_ok y m d : near y -> 0 <= m < 12 -> - 2 ^ 31 < d < 2 ^ 31 ->
  daysToMs y m d = Ok (MsPerDay * day_number y (m + 1) d).
Proof.
  intros Hy Hm Hd. unfold daysToMs. rewrite timeFromYear_ok by assumption. cbn [mbind result_bind].
  pose proof (year_days_near y Hy). pose proof (month_days_range y (m + 1) ltac:(lia)). pose proof (daysInYear_range y).
  pose proof (month_length_range y (m + 1) ltac:(lia)). change MsPerDay with 86400000. unfold TIME64NAN.
  destruct (86400000 * year_days y =? - 2 ^ 63) eqn:E; Zbool; [lia|].
  rewrite daysFromMonth_ok by assumption. cbn [mbind result_bind]. ints. f_equal. unfold day_number. lia.
Qed.
Lemma daysToMs_far y m d : ~ near y -> daysToMs y m d = Ok TIME64NAN.
Proof. intros Hy. unfold daysToMs. rewrite timeFromYear_far by assumption. reflexivity. Qed.

(** Time values and local times. *)
Definition in_range (t : Z) : Prop := Z.abs t <= MaximumDatePrimitiveValue + 2 * MsPerDay.

Lemma quot_floor t k : 0 < k -> Z.quot t k = t / k \/ (t < 0 /\ Z.quot t k = t / k + 1).
Proof.
  intros Hk. destruct (decide (0 <= t)); [left; apply Z.quot_div_nonneg; lia|].
  rewrite <- (Z.opp_involutive t) at 1 4. rewrite Z.quot_opp_l, Z.quot_div_nonneg by lia.
  pose proof (Z.div_mod t k). pose proof (Z.mod_pos_bound t k). pose proof (Z.div_mod (- t) k). pose proof (Z.mod_pos_bound (- t) k).
  assert (- t / k = - (t / k) \/ - t / k = - (t / k) - 1) as [E|E] by nia; [left; lia|right; lia].
Qed.
Lemma quot_below t k : 0 < k -> t < 0 -> Z.quot (t - (k - 1)) k = t / k.
Proof.
  intros Hk Ht. rewrite <- (Z.opp_involutive (t - (k - 1))). rewrite Z.quot_opp_l, Z.quot_div_nonneg by lia.
  pose proof (Z.div_mod t k). pose proof (Z.mod_pos_bound t k).
  assert (- (t - (k - 1)) / k = - (t / k)); [|lia]. symmetry. apply (Z.div_unique_pos _ _ _ (k - 1 - t mod k)); lia.
Qed.

Lemma daysFromTime_ok t : in_range t -> daysFromTime t = Ok (t / MsPerDay).
Proof.
  unfold in_range, daysFromTime. intros Ht. change MaximumDatePrimitiveValue with 8640000000000000 in Ht.
  change MsPerDay with 86400000 in *.
  assert (forall m, Z.abs m < 2 ^ 53 -> Z.abs (Z.quot m 86400000) <= 2 ^ 30 ->
    cast_int (fdiv (of_Z m) (of_Z 86400000)) = Ok (Z.quot m 86400000)) as Hcast.
  { intros m Hm Hq. destruct (to_Z_fdiv (of_Z m) (of_Z 86400000) m 86400000) as [F E];
      [apply rep_of_Z; lia|apply rep_of_Z; lia|assumption|lia|].
    unfold cast_int, cast_range. rewrite F, E. cbn [andb].
    destruct (- 2 ^ 31 <=? _) eqn:E1, (_ <=? 2 ^ 31 - 1) eqn:E2; Zbool; try lia. reflexivity. }
  assert (- 2 ^ 30 <= t / 86400000 <= 2 ^ 30) as Hb by (split; [apply Z.div_le_lower_bound|apply Z.div_le_upper_bound]; lia).
  destruct (t <? 0) eqn:E; Zbool.
  - rewrite int64_ok by lia. cbn [mbind result_bind].
    pose proof (quot_below t 86400000 ltac:(lia) E) as Eq. rewrite Hcast by lia. now rewrite Eq.
  - cbn [mbind result_bind]. rewrite Hcast, Z.quot_div_nonneg by (rewrite ?Z.quot_div_nonneg; lia). reflexivity.
Qed.


(** ** The year of a time *)
Lemma estimate_room D e :
  e * 3652425 <= 10000 * D + 1 -> 10000 * D - 1 <= (e + 1) * 3652425 ->
  year_days (e + 1970 - 1) + 300 <= D /\ D + 300 <= year_days (e + 1970 + 2).
Proof.
  intros H1 H2. unfold year_days.
  pose proof (Z.div_mod (e + 1970 - 1 - 1) 4). pose proof (Z.mod_pos_bound (e + 1970 - 1 - 1) 4).
  pose proof (Z.div_mod (e + 1970 - 1 - 1) 100). pose proof (Z.mod_pos_bound (e + 1970 - 1 - 1) 100).
  pose proof (Z.div_mod (e + 1970 - 1 - 1) 400). pose proof (Z.mod_pos_bound (e + 1970 - 1 - 1) 400).
  pose proof (Z.div_mod (e + 1970 + 2 - 1) 4). pose proof (Z.mod_pos_bound (e + 1970 + 2 - 1) 4).
  pose proof (Z.div_mod (e + 1970 + 2 - 1) 100). pose proof (Z.mod_pos_bound (e + 1970 + 2 - 1) 100).
  pose proof (Z.div_mod (e + 1970 + 2 - 1) 400). pose proof (Z.mod_pos_bound (e + 1970 + 2 - 1) 400).
  lia.
Qed.

Lemma in_range_days t : in_range t -> Z.abs (t / MsPerDay) <= 100000002.
Proof.
  unfold in_range. change MaximumDatePrimitiveValue with 8640000000000000. change MsPerDay with 86400000. intros H.
  assert (- 100000002 <= t / 86400000 <= 100000002); [|lia].
  split; [apply Z.div_le_lower_bound|apply Z.div_le_upper_bound]; lia.
Qed.

Lemma yearFromTime_ok t : in_range t ->
  exists y, yearFromTime t = Ok y /\ year_days y <= t / MsPerDay < year_days (y + 1) /\ Z.abs (y - 1970) <= 300000.
Proof.
  intros Ht. pose proof (in_range_days t Ht) as Hd. unfold yearFromTime.
  destruct (quot_floor t MsPerDay ltac:(reflexivity)) as [Hq|[Hneg Hq]].
  all: set (D := t / MsPerDay) in *; set (D' := Z.quot t MsPerDay) in *.
  all: destruct (r_mean_year (of_Z D') D' (r_of_Z D' ltac:(lia)) ltac:(lia)) as (e & Re & He1 & He2).
  all: pose proof (estimate_room D' e He1 He2) as Hroom; assert (Z.abs e <= 290000) as He by lia.
  all: rewrite (cast_int_rep _ (e + 1970)) by (first [apply r_add; [assumption|apply r_of_Z; lia|lia] | lia]);
    cbn [mbind result_bind].
  all: rewrite daysToMs_ok by (unfold near; lia); cbn [mbind result_bind]; rewrite daysInYear_iso.
  all: assert (day_number (e + 1970) (0 + 1) 1 = year_days (e + 1970)) as ->
    by (unfold day_number; change (0 + 1) with 1; rewrite month_days_1; lia).
  all: assert (t = MsPerDay * D + t mod MsPerDay /\ 0 <= t mod MsPerDay < MsPerDay) as [Et Hm]
    by (split; [now apply Z.div_mod|now apply Z.mod_pos_bound]); change MsPerDay with 86400000 in *.
  all: pose proof (year_days_near (e + 1970) ltac:(unfold near; lia)).
  all: pose proof (year_days_succ (e + 1970 - 1)) as Y1; pose proof (year_days_succ (e + 1970)) as Y2;
    replace (e + 1970 - 1 + 1) with (e + 1970) in Y1 by lia; pose proof (daysInYear_range (e + 1970 - 1));
    pose proof (daysInYear_range (e + 1970)).
  all: rewrite int64_ok by (destruct (t <? _); lia); cbn [mbind result_bind].
  all: destruct (t <? 86400000 * year_days (e + 1970)) eqn:E1; Zbool;
    match goal with |- context [if ?b then _ else _] => destruct b eqn:E2 end; Zbool; try lia.
  all: eexists; split; [reflexivity|].
  all: first [replace (e + 1970 - 1 + 1) with (e + 1970) by lia; lia | replace (e + 1970 + 1 + 1) with (e + 1970 + 2) by lia; lia | lia].
Qed.

(** ** The month *)
Definition month_start (y m : Z) : Z := if m =? 12 then Iso.daysInYear y else month_days y (m + 1).

Lemma firstDayOfMonth_row y : exists row, lookupZ Dates.firstDayOfMonth (Z.b2z (inLeapYear y)) = Some row /\
  forall m, 0 <= m <= 12 -> lookupZ row m = Some (month_start y m).
Proof.
  rewrite inLeapYear_iso. assert (forall m, 0 <= m <= 12 -> m + 1 = 13 \/ 1 <= m + 1 <= 12) as Hm by lia.
  unfold month_start, month_days, dayInYear, Iso.daysInYear.
  destruct (isLeapYear y); (eexists; split; [reflexivity|]); intros m H; destruct (Hm m H) as [E|E];
    first [replace m with 12 by lia; reflexivity | replace m with (m + 1 - 1) at 1 2 by lia; revert E; generalize (m + 1); intros k Hk].
  all: pattern k; apply month_cases; [assumption|..]; reflexivity.
Qed.

Lemma month_start_0 y : month_start y 0 = 0.
Proof. unfold month_start. change (0 =? 12) with false. cbn [Z.add]. apply month_days_1. Qed.
Lemma month_start_succ y m : 0 <= m < 12 -> month_start y (m + 1) = month_start y m + month_length y (m + 1).
Proof.
  intros H. unfold month_start. destruct (m =? 12) eqn:E1; Zbool; [lia|]. destruct (m + 1 =? 12) eqn:E2; Zbool.
  - rewrite E2. symmetry. apply month_days_end.
  - apply month_days_succ. lia.
Qed.

Lemma month_loop_ok row y d month0 n : (forall m, 0 <= m <= 12 -> lookupZ row m = Some (month_start y m)) ->
  0 <= d < Iso.daysInYear y -> forall i, 1 <= i -> i + Z.of_nat n = 13 -> month_start y (i - 1) <= d ->
  exists m, month_loop row d i n month0 = Ok m /\ 0 <= m < 12 /\ month_start y m <= d < month_start y (m + 1).
Proof.
  intros Hrow Hd. induction n as [|n IH]; intros i Hi Hn Hs.
  - replace (i - 1) with 12 in Hs by lia. unfold month_start in Hs. cbn in Hs. lia.
  - cbn [month_loop]. rewrite Hrow by lia. cbn [defined mbind result_bind]. destruct (d <? month_start y i) eqn:E; Zbool.
    + exists (i - 1). replace (i - 1 + 1) with i by lia. split; [reflexivity|]. lia.
    + destruct (IH (i + 1)) as (m & Em & Hm); [lia|lia|now replace (i + 1 - 1) with i by lia|]. now exists m.
Qed.

(** The fields of a time: the year, month and day of its day number, and the
    parts of the day. *)
Definition fields_of (t : Z) (i : DateTimeInfo) : Prop :=
  valid_date (year i) (month i + 1) (mday i) /\
  day_number (year i) (month i + 1) (mday i) = t / MsPerDay /\
  hour i = (t / MsPerHour) mod 24 /\ min i = (t / MsPerMinute) mod 60 /\ sec i = (t / MsPerSecond) mod 60 /\
  millisec i = t mod MsPerSecond /\ wday i = (t / MsPerDay + 4) mod 7.

Lemma day_parts t : let r := t mod MsPerDay in
  0 <= r < MsPerDay /\ t - t / MsPerDay * MsPerDay = r /\
  Z.quot r MsPerHour = (t / MsPerHour) mod 24 /\
  Z.rem (Z.quot r MsPerMinute) MinutesPerHour = (t / MsPerMinute) mod 60 /\
  Z.rem (Z.quot r MsPerSecond) SecondsPerMinute = (t / MsPerSecond) mod 60 /\ Z.rem r MsPerSecond = t mod MsPerSecond.
Proof.
  change MsPerDay with 86400000. change MsPerHour with 3600000. change MsPerMinute with 60000. change MsPerSecond with 1000.
  change MinutesPerHour with 60. change SecondsPerMinute with 60. cbv zeta.
  pose proof (Z.mod_pos_bound t 86400000 ltac:(lia)) as Hr. pose proof (Z.div_mod t 86400000 ltac:(lia)) as Et.
  split; [assumption|]. split; [lia|].
  assert (forall k n, 0 < k -> 0 < n -> 86400000 = k * n -> Z.quot (t mod 86400000) k = (t / k) mod n) as Hq.
  { intros k n Hk Hn E. rewrite Z.quot_div_nonneg, E, Z.rem_mul_r, Z.add_comm, Z.mul_comm, Z.div_add_l by lia.
    rewrite (Z.div_small (t mod k)) by (apply Z.mod_pos_bound; lia). lia. }
  assert (forall a k n, 0 < k -> 0 < n -> (a mod (k * n)) mod k = a mod k) as Hmm.
  { intros a k n Hk Hn. rewrite Z.rem_mul_r, (Z.mul_comm k), Z.mod_add, Z.mod_mod by lia. reflexivity. }
  rewrite (Hq 3600000 24), (Hq 60000 1440), (Hq 1000 86400) by lia.
  rewrite !Z.rem_mod_nonneg by (first [lia | apply Z.mod_pos_bound; lia]).
  change 1440 with (60 * 24). change 86400 with (60 * 1440). change 86400000 with (1000 * 86400). rewrite !Hmm by lia. auto.
Qed.

Lemma weekday_mod d : (if 0 <=? Z.rem (d + 4) DaysPerWeek then Z.rem (d + 4) DaysPerWeek else Z.rem (d + 4) DaysPerWeek + DaysPerWeek)
  = (d + 4) mod 7.
Proof.
  change DaysPerWeek with 7. pose proof (Z.quot_rem (d + 4) 7 ltac:(lia)). pose proof (Z.rem_bound_abs (d + 4) 7 ltac:(lia)).
  destruct (0 <=? Z.rem (d + 4) 7) eqn:E; Zbool.
  - apply (Z.mod_unique_pos _ _ (Z.quot (d + 4) 7)); lia.
  - apply (Z.mod_unique_pos _ _ (Z.quot (d + 4) 7 - 1)); lia.
Qed.

Lemma computeTimeInfo_ok t i0 : in_range t ->
  exists i, computeTimeInfoFromEpoch t i0 = Ok i /\ fields_of t i /\ Z.abs (year i - 1970) <= 300000 /\
    gmtoff i = gmtoff i0 /\ isdst i = isdst i0.
Proof.
  intros Ht. unfold computeTimeInfoFromEpoch. destruct (yearFromTime_ok t Ht) as (y & -> & Hy & Hy2). cbn [mbind result_bind].
  rewrite (daysFromTime_ok t Ht). cbn [mbind result_bind]. rewrite daysFromYear_ok by (unfold near; lia). cbn [mbind result_bind].
  destruct (firstDayOfMonth_row y) as (row & -> & Hrow). cbn [defined mbind result_bind].
  rewrite year_days_succ in Hy.
  destruct (month_loop_ok row y (t / MsPerDay - year_days y) (month i0) 12 Hrow ltac:(lia) 1) as (m & -> & Hm & Hms);
    [lia|lia|rewrite month_start_0; lia|]. cbn [mbind result_bind].
  rewrite Hrow by lia. cbn [defined mbind result_bind].
  destruct (day_parts t) as (Hr & Er & Eh & Emi & Es & Ems). rewrite Er.
  rewrite int_ok by (change MsPerDay with 86400000 in *; lia). cbn [mbind result_bind].
  rewrite Eh, Emi, Es, Ems, weekday_mod.
  eexists. split; [reflexivity|]. split; [|cbn; auto]. rewrite month_start_succ in Hms by lia.
  assert (month_start y m = month_days y (m + 1)) as Estart by (unfold month_start; destruct (m =? 12) eqn:E; Zbool; [lia|reflexivity]).
  unfold fields_of, valid_date, day_number. cbn [year month mday hour min sec millisec wday]. rewrite Estart in *.
  repeat split; lia.
Qed.

(** The fields determine the time. *)
Lemma fields_time t i : fields_of t i ->
  MsPerDay * day_number (year i) (month i + 1) (mday i) + hour i * MsPerHour + min i * MsPerMinute + sec i * MsPerSecond + millisec i = t.
Proof.
  intros (_ & Ed & -> & -> & -> & -> & _). rewrite Ed.
  change MsPerDay with 86400000. change MsPerHour with 3600000. change MsPerMinute with 60000. change MsPerSecond with 1000.
  assert (t / 86400000 = t / 3600000 / 24) as -> by (rewrite Z.div_div by lia; reflexivity).
  assert (t / 3600000 = t / 60000 / 60) as -> by (rewrite Z.div_div by lia; reflexivity).
  assert (t / 60000 = t / 1000 / 60) as -> by (rewrite Z.div_div by lia; reflexivity).
  pose proof (Z.div_mod t 1000). pose proof (Z.div_mod (t / 1000) 60). pose proof (Z.div_mod (t / 1000 / 60) 60).
  pose proof (Z.div_mod (t / 1000 / 60 / 60) 24). lia.
Qed.

Lemma fields_unique t i j : fields_of t i -> fields_of t j ->
  (year i, month i, mday i, hour i, min i, sec i, millisec i, wday i) = (year j, month j, mday j, hour j, min j, sec j, millisec j, wday j).
Proof.
  intros (V1 & D1 & -> & -> & -> & -> & ->) (V2 & D2 & -> & -> & -> & -> & ->).
  destruct (day_number_inj _ _ _ _ _ _ V1 V2 ltac:(congruence)) as (-> & E & ->). replace (month i) with (month j) by lia. reflexivity.
Qed.

Lemma timeinfoToMs_ok y m d h mi s ms : near y -> 0 <= m < 12 -> - 2 ^ 31 < d < 2 ^ 31 ->
  Z.abs h <= 2 ^ 31 -> Z.abs mi <= 2 ^ 31 -> Z.abs s <= 2 ^ 52 -> Z.abs ms <= 2 ^ 61 ->
  timeinfoToMs y m d h mi s ms =
    Ok (MsPerDay * day_number y (m + 1) d + h * MsPerHour + mi * MsPerMinute + s * MsPerSecond + ms).
Proof.
  intros Hy Hm Hd Hh Hmi Hs Hms. unfold timeinfoToMs. rewrite daysToMs_ok by assumption. cbn [mbind result_bind].
  pose proof (year_days_near y Hy). pose proof (month_days_range y (m + 1) ltac:(lia)). pose proof (daysInYear_range y).
  pose proof (month_length_range y (m + 1) ltac:(lia)).
  assert (Z.abs (day_number y (m + 1) d) <= 3000000000) as Hdn by (unfold day_number; lia).
  change MsPerDay with 86400000. change MsPerHour with 3600000. change MsPerMinute with 60000. change MsPerSecond with 1000.
  unfold TIME64NAN. destruct (86400000 * day_number y (m + 1) d =? - 2 ^ 63) eqn:E; Zbool; [lia|]. ints. reflexivity.
Qed.

(** Fields in their ranges are those of their time. *)
Definition proper_fields (y mo da h mi s ms : Z) : Prop :=
  valid_date y (mo + 1) da /\ 0 <= h < 24 /\ 0 <= mi < 60 /\ 0 <= s < 60 /\ 0 <= ms < 1000.
Definition time_of (y mo da h mi s ms : Z) : Z :=
  MsPerDay * day_number y (mo + 1) da + h * MsPerHour + mi * MsPerMinute + s * MsPerSecond + ms.

Lemma fields_of_time y mo da h mi s ms g dst : proper_fields y mo da h mi s ms ->
  let t := time_of y mo da h mi s ms in
  fields_of t (mkDateTimeInfo y mo da h mi s ms ((t / MsPerDay + 4) mod 7) g dst).
Proof.
  intros (Hd & Hh & Hmi & Hs & Hms) t. unfold fields_of. cbn. split; [assumption|].
  assert (t = 86400000 * day_number y (mo + 1) da + h * 3600000 + mi * 60000 + s * 1000 + ms) as Et by reflexivity.
  clearbody t. change MsPerDay with 86400000. change MsPerHour with 3600000. change MsPerMinute with 60000. change MsPerSecond with 1000.
  generalize dependent (day_number y (mo + 1) da). intros D Et.
  assert (t / 86400000 = D) as -> by (symmetry; apply (Z.div_unique_pos _ _ _ (h * 3600000 + mi * 60000 + s * 1000 + ms)); lia).
  assert (t / 3600000 = D * 24 + h) as -> by (symmetry; apply (Z.div_unique_pos _ _ _ (mi * 60000 + s * 1000 + ms)); lia).
  assert (t / 60000 = (D * 24 + h) * 60 + mi) as -> by (symmetry; apply (Z.div_unique_pos _ _ _ (s * 1000 + ms)); lia).
  assert (t / 1000 = ((D * 24 + h) * 60 + mi) * 60 + s) as -> by (symmetry; apply (Z.div_unique_pos _ _ _ ms); lia).
  rewrite !(Z.add_comm (_ * _)), !Z.mod_add, !Z.mod_small by lia. repeat split.
  apply (Z.mod_unique_pos _ _ (((D * 24 + h) * 60 + mi) * 60 + s)); lia.
Qed.

Lemma time_of_range y mo da h mi s ms : proper_fields y mo da h mi s ms -> Z.abs (y - 1970) <= 270000 ->
  in_range (time_of y mo da h mi s ms).
Proof.
  intros ((Hm & Hd) & ? & ? & ? & ?) Hy. pose proof (year_days_270000 y Hy).
  pose proof (month_days_range y (mo + 1) Hm). pose proof (daysInYear_range y). pose proof (month_length_range y (mo + 1) Hm).
  assert (Z.abs (day_number y (mo + 1) da) <= 98800000) as Hn by (unfold day_number; lia).
  unfold in_range, time_of, MaximumDatePrimitiveValue.
  change MsPerDay with 86400000. change MsPerHour with 3600000. change MsPerMinute with 60000. change MsPerSecond with 1000. lia.
Qed.

End DateFacts.

(** * Date objects *)
Module DateObjects.
Import Iso Dates.

(** The object, and the fields that the engine keeps for the getters of UTC:
    the time value that they were computed from. *)
Record DateObject := mkDate {
  m_primitiveValue : Z;
  m_cachedLocal : DateTimeInfo;
  m_isCacheDirty : bool;
  cachedUTC : option (Z * DateTimeInfo)
}.
Definition zero_info : DateTimeInfo := mkDateTimeInfo 0 0 0 0 0 0 0 0 0 0.
Definition new_date (utc : option (Z * DateTimeInfo)) : DateObject := mkDate TIME64NAN zero_info false utc.
Definition with_value (d : DateObject) (t : Z) : DateObject := mkDate t (m_cachedLocal d) (m_isCacheDirty d) (cachedUTC d).
Definition with_dirty (d : DateObject) : DateObject := mkDate (m_primitiveValue d) (m_cachedLocal d) true (cachedUTC d).
Definition with_utc (d : DateObject) (k : Z) (i : DateTimeInfo) : DateObject :=
  mkDate (m_primitiveValue d) (m_cachedLocal d) (m_isCacheDirty d) (Some (k, i)).

Section Zone.
(** The calendar of ICU set to a time: the offsets of its zone in milliseconds,
    and whether it reports a failure. *)
Context (zone_offset dst_offset : Z -> Z) (failure : Z -> bool).

(** The milliseconds from a year to the one with the same rules. *)
Definition msBetween (t : Z) : result Z :=
  realYear ← yearFromTime t;
  let equivalentYear := equivalentYearForDST realYear in
  if negb (realYear =? equivalentYear) then
    a ← timeFromYear equivalentYear; b ← timeFromYear realYear; int64 (a - b)
  else Ok 0.

Definition applyLocalTimezoneOffset (t : Z) : result Z :=
  a ← int64 (t - zone_offset t);
  if negb (IS_IN_TIME_RANGE a) then Ok TIME64NAN
  else
    msBetweenYears ← msBetween t;
    let t' := t + msBetweenYears in
    if failure t' then Ok TIME64NAN else int64 (t - (zone_offset t' + dst_offset t')).

Definition resolveLocalTimeInfo (primitiveValue : Z) (out : DateTimeInfo) : result DateTimeInfo :=
  msBetweenYears ← msBetween primitiveValue;
  let t := primitiveValue + msBetweenYears in
  let offset := zone_offset t + dst_offset t in
  let out := with_zone out (Z.quot (-1 * offset) MsPerMinute) (if dst_offset t =? 0 then 0 else 1) in
  computeTimeInfoFromEpoch (t + offset - msBetweenYears) out.

Definition setTimeValueAsNaN (d : DateObject) : DateObject := with_value d TIME64NAN.
Definition isValid (d : DateObject) : bool := IS_VALID_TIME (m_primitiveValue d).
Definition primitiveValue (d : DateObject) : Z := if isValid d then of_Z (m_primitiveValue d) else NAN.

Definition setTimeValue (d : DateObject) (t : Z) : DateObject :=
  let d := with_value d t in if IS_VALID_TIME t then with_dirty d else d.

Definition setTimeValue_fields (d : DateObject) (year month date hour minute second millisecond : Z) (convertToUTC : bool)
  : result DateObject :=
  yearComputed ← cast_int (fadd (of_Z year) (ffloor (fdiv (of_Z month) (of_Z MonthsPerYear))));
  let monthComputed := Z.rem month MonthsPerYear in
  let monthComputed := if monthComputed <? 0 then Z.rem (monthComputed + MonthsPerYear) MonthsPerYear else monthComputed in
  primitiveValue ← timeinfoToMs yearComputed monthComputed date hour minute second millisecond;
  primitiveValue ← (if convertToUTC then applyLocalTimezoneOffset primitiveValue else Ok primitiveValue);
  Ok (with_dirty
        (if IS_VALID_TIME primitiveValue && IS_IN_TIME_RANGE primitiveValue then with_value d primitiveValue
         else setTimeValueAsNaN d)).

Definition resolveCache (d : DateObject) : result DateObject :=
  if m_isCacheDirty d then
    i ← resolveLocalTimeInfo (m_primitiveValue d) (m_cachedLocal d);
    Ok (mkDate (m_primitiveValue d) i false (cachedUTC d))
  else Ok d.

(** The getters of local fields: [get##Name]. *)
Definition get_local (field : DateTimeInfo -> Z) (d : DateObject) : result (DateObject * Z) :=
  d ← resolveCache d; Ok (d, field (m_cachedLocal d)).
Definition getTimezoneOffset : DateObject -> result (DateObject * Z) := get_local gmtoff.

(** [getUTC##Name]: the local fields of the time shifted by the offset. *)
Definition get_UTC (field : DateTimeInfo -> Z) (d : DateObject) : result (DateObject * Z) :=
  '(d, offset) ← getTimezoneOffset d;
  primitiveValueUTC ← int64 (m_primitiveValue d + offset * MsPerMinute);
  let miss :=
    info ← resolveLocalTimeInfo primitiveValueUTC zero_info;
    '(primitiveValueUTC, info) ←
      (if negb (gmtoff info =? offset) then
         p ← int64 (m_primitiveValue d + gmtoff info * MsPerMinute);
         info ← resolveLocalTimeInfo p info;
         Ok (p, info)
       else Ok (primitiveValueUTC, info));
    Ok (with_utc d primitiveValueUTC info, field info) in
  match cachedUTC d with
  | Some (k, info) => if k =? primitiveValueUTC then Ok (d, field info) else miss
  | None => miss
  end.

(** ** The builtins *)

Definition isInValidRange (args : list Z) : bool :=
  forallb (fun x => negb (is_nan x)) args && forallb (fun x => negb (is_inf x)) args &&
  forallb (fun x => fle (fabs x) (of_Z (2 ^ 31 - 1))) (take 5 args) &&
  forallb (fun x => fle (fabs x) (of_Z (2 ^ 63 - 1))) (drop 5 args).

(** The arguments as the integer parameters of [setTimeValue]. *)
Definition cast_int64 : Z -> result Z := cast_range (- 2 ^ 63) (2 ^ 63 - 1).
Definition set_from_doubles (d : DateObject) (args : list Z) (convertToUTC : bool) : result DateObject :=
  if negb (isInValidRange args) then Ok (setTimeValueAsNaN d)
  else
    match args with
    | [year; month; date; hour; minute; second; millisecond] =>
        y ← cast_int year; mo ← cast_int month; da ← cast_int date; h ← cast_int hour; mi ← cast_int minute;
        s ← cast_int64 second; ms ← cast_int64 millisecond;
        setTimeValue_fields d y mo da h mi s ms convertToUTC
    | _ => Undefined
    end.

(** A conversion of an argument to a number: it may run script code, which may
    change the date. *)
Definition Conversion := DateObject -> result (DateObject * Z).

(** The arguments of the constructor and of Date.UTC over their defaults. *)
Fixpoint convert_arguments (d : DateObject) (argv : list Conversion) (args : list Z) : result (DateObject * list Z) :=
  match argv, args with
  | v :: argv, _ :: args =>
      '(d, x) ← v d; '(d, args) ← convert_arguments d argv args; Ok (d, x :: args)
  | _, _ => Ok (d, args)
  end.
(** [truncateDoubleToInt32Unchecked]: [cvt] is what the hardware gives for
    numbers that do not fit. *)
Definition truncateDoubleToInt32 (cvt : Z -> Z) (d : Z) : Z :=
  match cast_int d with Ok i => i | _ => cvt d end.

(** The constructor with one argument: a date, whose time goes through a double
    and back to an integer, or a number. *)
Definition dateConstructor_date (d other : DateObject) : result DateObject :=
  t ← cast_int64 (primitiveValue other); Ok (setTimeValue d t).
Definition dateConstructor_number (d : DateObject) (v : Conversion) : result DateObject :=
  '(d, V) ← v d; Ok (setTimeValue d (timeClipToTime64 V)).

Definition dateConstructor_fields (cvt : Z -> Z) (d : DateObject) (argv : list Conversion) : result DateObject :=
  '(d, args) ← convert_arguments d argv [of_Z 0; of_Z 0; of_Z 1; of_Z 0; of_Z 0; of_Z 0; of_Z 0];
  let year := nth 0 args NAN in
  let yearAsInt := truncateDoubleToInt32 cvt year in
  let year := if (0 <=? yearAsInt) && (yearAsInt <=? 99) then fadd year (of_Z 1900) else year in
  set_from_doubles d (year :: tail args) true.

Definition dateUTC (cvt : Z -> Z) (d : DateObject) (argv : list Conversion) : result (DateObject * Z) :=
  '(d, args) ← convert_arguments d argv [NAN; of_Z 0; of_Z 1; of_Z 0; of_Z 0; of_Z 0; of_Z 0];
  let year := nth 0 args NAN in
  let year :=
    if negb (is_nan year) then
      let yi := truncateDoubleToInt32 cvt year in
      if (0 <=? yi) && (yi <=? 99) then of_Z (yi + 1900) else year
    else year in
  d ← set_from_doubles d (year :: tail args) false;
  Ok (d, primitiveValue d).

Inductive DateSetterType := Time | Day.

(** The seven components that a setter starts from. *)
Definition read_fields (utc : bool) (d : DateObject) : result (DateObject * list Z) :=
  let get := if utc then get_UTC else get_local in
  '(d, y) ← get year d; '(d, mo) ← get month d; '(d, da) ← get mday d; '(d, h) ← get hour d;
  '(d, mi) ← get min d; '(d, s) ← get sec d; '(d, ms) ← get millisec d;
  Ok (d, of_Z <$> [y; mo; da; h; mi; s; ms]).

(** The components that a setter of [length] parameters replaces, with the
    index of the first one: those of the day end at the date, those of the time
    at the milliseconds. *)
Definition first_component (setterType : DateSetterType) (length : nat) : nat :=
  match setterType with Day => 3 - length | Time => 7 - length end.
Fixpoint convert_from (d : DateObject) (argv : list Conversion) (n i : nat) (fields : list Z) : result (DateObject * list Z) :=
  match n, argv with
  | S n, v :: argv => '(d, x) ← v d; convert_from d argv n (S i) (<[i := x]> fields)
  | _, _ => Ok (d, fields)
  end.

Definition dateSetHelper (setterType : DateSetterType) (length : nat) (utc : bool) (d : DateObject) (argv : list Conversion)
  : result (DateObject * Z) :=
  let original := primitiveValue d in
  '(d, original, isOriginalDateValid) ←
    (if match setterType with Day => (length =? 3)%nat | Time => false end && negb (isValid d) then
       let d := setTimeValue d (timeClipToTime64 (of_Z 0)) in
       '(d, offset) ← getTimezoneOffset d;
       let d := setTimeValue d (offset * MsPerMinute) in
       Ok (d, primitiveValue d, true)
     else Ok (d, original, isValid d));
  match argv with
  | [] => Ok (setTimeValueAsNaN d, NAN)
  | _ :: _ =>
      '(d, fields) ← (if (isOriginalDateValid : bool) then read_fields utc d else Ok (d, of_Z <$> [0; 0; 0; 0; 0; 0; 0]));
      '(d, fields) ← convert_from d argv length (first_component setterType length) fields;
      if is_nan original then Ok (d, NAN)
      else
        d ← set_from_doubles d fields (negb utc);
        Ok (d, primitiveValue d)
  end.

(** Annex B: a year of two digits is one of the twentieth century, and the year
    becomes an [int] without a test of its range. *)
Definition dateSetYear (d : DateObject) (argv : list Conversion) : result (DateObject * Z) :=
  d ← (if negb (isValid d) then
         let d := setTimeValue d (timeClipToTime64 (of_Z 0)) in
         '(d, offset) ← getTimezoneOffset d;
         Ok (setTimeValue d (offset * MsPerMinute))
       else Ok d);
  match argv with
  | [] => Ok (setTimeValueAsNaN d, NAN)
  | v :: _ =>
      '(d, mo) ← get_local month d; '(d, da) ← get_local mday d; '(d, h) ← get_local hour d;
      '(d, mi) ← get_local min d; '(d, s) ← get_local sec d; '(d, ms) ← get_local millisec d;
      '(d, y) ← v d;
      if is_nan y then Ok (setTimeValueAsNaN d, NAN)
      else
        let yAsInteger := if is_nan y || is_zero y then of_Z 0 else if is_inf y then y
                          else fmul (if flt y (of_Z 0) then of_Z (-1) else of_Z 1) (ffloor (fabs y)) in
        let yyyy := if fle (of_Z 0) yAsInteger && fle yAsInteger (of_Z 99) then fadd (of_Z 1900) yAsInteger else y in
        year ← cast_int yyyy;
        d ← setTimeValue_fields d year mo da h mi s ms true;
        Ok (d, primitiveValue d)
  end.

(** The getters of the prototype. *)
Definition dateGet (get : DateObject -> result (DateObject * Z)) (d : DateObject) : result (DateObject * Z) :=
  if negb (isValid d) then Ok (d, NAN) else '(d, x) ← get d; Ok (d, of_Z x).
Definition dateGetTime (d : DateObject) : Z := primitiveValue d.
Definition dateGetYear (d : DateObject) : result (DateObject * Z) :=
  if negb (isValid d) then Ok (d, NAN) else '(d, x) ← get_local year d; Ok (d, of_Z (x - 1900)).

Definition dateSetTime (d : DateObject) (argv : list Conversion) : result (DateObject * Z) :=
  match argv with
  | v :: _ => '(d, x) ← v d; let d := setTimeValue d (timeClipToTime64 x) in Ok (d, primitiveValue d)
  | [] => Ok (setTimeValueAsNaN d, NAN)
  end.

End Zone.
End DateObjects.

(** * Facts on date objects *)
Module DateObjectFacts.
Import Iso IsoFacts Dates DateFacts DateObjects.

(** The states of a date: NaN or a time value. *)
Definition time_value (t : Z) : Prop := t = TIME64NAN \/ Z.abs t <= MaximumDatePrimitiveValue.
Lemma time_value_valid t : time_value t -> IS_VALID_TIME t = true -> Z.abs t <= MaximumDatePrimitiveValue.
Proof. intros [->|H] Hv; [discriminate|assumption]. Qed.

Lemma equivalentYear_near y : near y -> near (equivalentYearForDST y).
Proof.
  unfold near, equivalentYearForDST. intros H.
  pose proof (Z.quot_rem (2010 - y) 28 ltac:(lia)). pose proof (Z.rem_bound_abs (2010 - y) 28 ltac:(lia)).
  pose proof (Z.quot_rem (2037 - y) 28 ltac:(lia)). pose proof (Z.rem_bound_abs (2037 - y) 28 ltac:(lia)).
  pose proof (Z.rem_sign_nz (2010 - y) 28). pose proof (Z.rem_sign_nz (2037 - y) 28).
  destruct (2037 <? y) eqn:E1; Zbool; [lia|]. destruct (y <? 2010) eqn:E2; Zbool; lia.
Qed.

Lemma msBetween_ok t : in_range t -> exists b, msBetween t = Ok b /\ Z.abs b <= 2 ^ 56.
Proof.
  intros Ht. unfold msBetween. destruct (yearFromTime_ok t Ht) as (y & -> & _ & Hy). cbn [mbind result_bind].
  destruct (negb (y =? equivalentYearForDST y)); [|exists 0; split; [reflexivity|lia]].
  assert (near y) as Hn by (unfold near; lia). pose proof (equivalentYear_near y Hn) as He.
  rewrite (timeFromYear_ok _ He), (timeFromYear_ok _ Hn). cbn [mbind result_bind].
  pose proof (year_days_near _ Hn). pose proof (year_days_near _ He). change MsPerDay with 86400000.
  rewrite int64_ok by lia. eexists. split; [reflexivity|]. lia.
Qed.

Section Zone.
Context (zone_offset dst_offset : Z -> Z) (failure : Z -> bool).
Context (offsets_small : forall t, Z.abs (zone_offset t + dst_offset t) <= MsPerDay).

(** The offset that the code takes for a time: that of the year with the same rules. *)
Definition offset_at (t : Z) : Z :=
  match msBetween t with Ok b => zone_offset (t + b) + dst_offset (t + b) | _ => 0 end.
Lemma offset_at_small t : Z.abs (offset_at t) <= MsPerDay.
Proof. unfold offset_at. destruct (msBetween t); [apply offsets_small|change MsPerDay with 86400000; lia..]. Qed.

(** The fields of a time in the zone. *)
Definition local_fields (t : Z) (i : DateTimeInfo) : Prop :=
  fields_of (t + offset_at t) i /\ gmtoff i = Z.quot (- offset_at t) MsPerMinute.

Lemma resolve_ok t out : Z.abs t <= MaximumDatePrimitiveValue + MsPerDay ->
  exists i, resolveLocalTimeInfo zone_offset dst_offset t out = Ok i /\ local_fields t i.
Proof.
  intros Ht. unfold resolveLocalTimeInfo, local_fields. pose proof (offset_at_small t) as Ho. unfold offset_at in *.
  destruct (msBetween_ok t) as (b & Eb & Hb); [unfold in_range; change MsPerDay with 86400000 in *; lia|].
  rewrite Eb in *. cbn [mbind result_bind].
  set (off := zone_offset (t + b) + dst_offset (t + b)) in *. replace (t + b + off - b) with (t + off) by lia.
  destruct (computeTimeInfo_ok (t + off) (with_zone out (Z.quot (-1 * off) MsPerMinute) (if dst_offset (t + b) =? 0 then 0 else 1)))
    as (i & -> & Hf & _ & Hg & _); [unfold in_range; lia|].
  exists i. split; [reflexivity|]. split; [assumption|]. rewrite Hg. now destruct off.
Qed.

(** The invariant: a time value, and cached fields that are those of it. *)
Definition cache_ok (d : DateObject) : Prop :=
  isValid d = true -> m_isCacheDirty d = false -> local_fields (m_primitiveValue d) (m_cachedLocal d).
Definition date_ok (d : DateObject) : Prop := time_value (m_primitiveValue d) /\ cache_ok d.

Lemma resolveCache_ok d : date_ok d -> isValid d = true ->
  exists d', resolveCache zone_offset dst_offset d = Ok d' /\ date_ok d' /\
    m_primitiveValue d' = m_primitiveValue d /\ m_isCacheDirty d' = false /\ cachedUTC d' = cachedUTC d.
Proof.
  intros [Ht Hc] Hv. unfold resolveCache. destruct (m_isCacheDirty d) eqn:E.
  - pose proof (time_value_valid _ Ht Hv). destruct (resolve_ok (m_primitiveValue d) (m_cachedLocal d)) as (i & -> & Hi);
      [change MsPerDay with 86400000; lia|]. cbn [mbind result_bind].
    eexists. split; [reflexivity|]. split; [|now cbn]. split; [assumption|]. intros _ _. exact Hi.
  - exists d. split; [reflexivity|]. split; [split; assumption|auto].
Qed.

Lemma get_local_ok f d : date_ok d -> isValid d = true ->
  exists d' i, get_local zone_offset dst_offset f d = Ok (d', f i) /\ date_ok d' /\ local_fields (m_primitiveValue d) i /\
    m_primitiveValue d' = m_primitiveValue d /\ cachedUTC d' = cachedUTC d.
Proof.
  intros Hd Hv. unfold get_local. destruct (resolveCache_ok d Hd Hv) as (d' & -> & Hd' & Ev & Ed & Eu). cbn [mbind result_bind].
  exists d', (m_cachedLocal d'). split; [reflexivity|]. split; [assumption|]. split; [|now split].
  rewrite <- Ev. apply Hd'; [|assumption]. unfold isValid in *. now rewrite Ev.
Qed.

Lemma gmtoff_small t i : local_fields t i -> Z.abs (gmtoff i) <= 1440.
Proof.
  intros [_ ->]. pose proof (offset_at_small t) as Ho. change MsPerDay with 86400000 in Ho. change MsPerMinute with 60000.
  pose proof (Z.quot_rem (- offset_at t) 60000 ltac:(lia)). pose proof (Z.rem_bound_abs (- offset_at t) 60000 ltac:(lia)).
  pose proof (Z.rem_sign_nz (- offset_at t) 60000). lia.
Qed.

Lemma get_UTC_ok f d : date_ok d -> isValid d = true ->
  exists d' x, get_UTC zone_offset dst_offset f d = Ok (d', x) /\ date_ok d' /\ m_primitiveValue d' = m_primitiveValue d.
Proof.
  intros Hd Hv. pose proof (time_value_valid _ (proj1 Hd) Hv) as Ht. change MaximumDatePrimitiveValue with 8640000000000000 in Ht.
  unfold get_UTC, getTimezoneOffset.
  destruct (get_local_ok gmtoff d Hd Hv) as (d' & i & -> & Hd' & Hi & Ev & _). cbn [mbind result_bind]. rewrite Ev.
  pose proof (gmtoff_small _ _ Hi) as Hg. change MsPerMinute with 60000. rewrite int64_ok by lia. cbn [mbind result_bind].
  match goal with |- context [match cachedUTC d' with _ => _ end] => idtac end.
  assert (forall p x, date_ok (with_utc d' p x)) as Hutc by (intros p x; split; apply Hd').
  assert (forall k, Z.abs k <= 8640000000000000 + 86400000 -> exists i, resolveLocalTimeInfo zone_offset dst_offset k zero_info = Ok i
    /\ local_fields k i) as Hres by (intros k Hk; apply resolve_ok; exact Hk).
  assert (exists d1 x,
    (info ← resolveLocalTimeInfo zone_offset dst_offset (m_primitiveValue d + gmtoff i * 60000) zero_info;
     '(p, info) ← (if negb (gmtoff info =? gmtoff i) then
         p ← int64 (m_primitiveValue d + gmtoff info * 60000);
         info ← resolveLocalTimeInfo zone_offset dst_offset p info; Ok (p, info)
       else Ok (m_primitiveValue d + gmtoff i * 60000, info));
     Ok (with_utc d' p info, f info)) = Ok (d1, x) /\ date_ok d1 /\ m_primitiveValue d1 = m_primitiveValue d) as (d1 & x & E & Hd1 & Ev1).
  { destruct (Hres (m_primitiveValue d + gmtoff i * 60000) ltac:(lia)) as (j & -> & Hj). cbn [mbind result_bind].
    pose proof (gmtoff_small _ _ Hj). destruct (negb (gmtoff j =? gmtoff i)).
    - rewrite int64_ok by lia. cbn [mbind result_bind].
      destruct (resolve_ok (m_primitiveValue d + gmtoff j * 60000) j) as (k & -> & Hk); [change MaximumDatePrimitiveValue with 8640000000000000;
        change MsPerDay with 86400000; lia|]. cbn [mbind result_bind]. eauto.
    - cbn [mbind result_bind]. eauto. }
  destruct (cachedUTC d') as [[k info]|]; [destruct (k =? _); [eauto 10|]|]; eauto.
Qed.

Lemma setTimeValue_ok d t : time_value t -> date_ok (setTimeValue d t).
Proof.
  intros Ht. unfold setTimeValue. destruct (IS_VALID_TIME t) eqn:E; (split; [exact Ht|]).
  - intros _ [=].
  - intros Hv. unfold isValid in Hv. cbn in Hv. congruence.
Qed.
Lemma setNaN_ok d : date_ok (setTimeValueAsNaN d).
Proof. split; [now left|]. intros [=]. Qed.

Lemma in_time_range t : IS_IN_TIME_RANGE t = true -> Z.abs t <= MaximumDatePrimitiveValue.
Proof. unfold IS_IN_TIME_RANGE. intros H. Zbool. lia. Qed.

Lemma set_fields_ok d y mo da h mi s ms c d' :
  setTimeValue_fields zone_offset dst_offset failure d y mo da h mi s ms c = Ok d' -> date_ok d'.
Proof.
  unfold setTimeValue_fields. destruct (cast_int _) as [yc| |]; cbn [mbind result_bind]; [|discriminate..].
  destruct (timeinfoToMs _ _ _ _ _ _ _) as [p| |]; cbn [mbind result_bind]; [|discriminate..].
  destruct (if c then _ else Ok p) as [q| |]; cbn [mbind result_bind]; [|discriminate..]. intros [= <-].
  destruct (IS_VALID_TIME q && IS_IN_TIME_RANGE q) eqn:E; (split; [|intros _ [=]]); [|now left].
  apply andb_prop in E as [_ E]. right. now apply in_time_range.
Qed.
Lemma set_doubles_ok d args c d' : set_from_doubles zone_offset dst_offset failure d args c = Ok d' -> date_ok d'.
Proof.
  unfold set_from_doubles. destruct (negb (isInValidRange args)); [intros [= <-]; apply setNaN_ok|].
  destruct args as [|y [|mo [|da [|h [|mi [|s [|ms [|? ?]]]]]]]]; try discriminate.
  destruct (cast_int y), (cast_int mo), (cast_int da), (cast_int h), (cast_int mi), (cast_int64 s), (cast_int64 ms);
    cbn [mbind result_bind]; try discriminate. apply set_fields_ok.
Qed.

(** Conversions run script code, which works on dates by the same operations. *)
Definition keeps_dates (v : Conversion) : Prop := forall d d' x, date_ok d -> v d = Ok (d', x) -> date_ok d'.

Lemma convert_from_ok argv : Forall keeps_dates argv -> forall n i d fields d' fields', date_ok d ->
  convert_from d argv n i fields = Ok (d', fields') -> date_ok d'.
Proof.
  induction 1 as [|v argv Hv _ IH]; intros n i d fields d' fields' Hd; [destruct n; now intros [= <- _]|].
  destruct n; cbn [convert_from]; [now intros [= <- _]|].
  destruct (v d) as [[d1 x]| |] eqn:E; cbn [mbind result_bind]; [|discriminate..]. apply IH. eapply Hv; eassumption.
Qed.

Lemma bind_Ok {A B} (m : result A) (k : A -> result B) b : (m ≫= k) = Ok b -> exists a, m = Ok a /\ k a = Ok b.
Proof. destruct m as [a| |]; [intros H; now exists a|discriminate..]. Qed.

Lemma get_keeps (utc : bool) f d d' x : date_ok d -> isValid d = true ->
  (if utc then get_UTC zone_offset dst_offset else get_local zone_offset dst_offset) f d = Ok (d', x) ->
  date_ok d' /\ isValid d' = true.
Proof.
  intros Hd Hv E. unfold isValid in *. destruct utc.
  - destruct (get_UTC_ok f d Hd Hv) as (d1 & y & E1 & H1 & Ev). rewrite E1 in E. injection E as <- _. now rewrite Ev.
  - destruct (get_local_ok f d Hd Hv) as (d1 & i & E1 & H1 & _ & Ev & _). rewrite E1 in E. injection E as <- _. now rewrite Ev.
Qed.

Lemma read_fields_keeps utc d d' fields : date_ok d -> isValid d = true ->
  read_fields zone_offset dst_offset utc d = Ok (d', fields) -> date_ok d'.
Proof.
  intros Hd Hv E. unfold read_fields in E.
  repeat (apply bind_Ok in E as ([? ?] & Eg & E); apply get_keeps in Eg as [? ?]; [|assumption..]).
  now injection E as <- _.
Qed.

Lemma clip_zero : timeClipToTime64 (of_Z 0) = 0.
Proof. vm_compute. reflexivity. Qed.

Lemma set_valid d t : Z.abs t <= MaximumDatePrimitiveValue -> isValid (setTimeValue d t) = true.
Proof.
  intros Ht. assert (IS_VALID_TIME t = true) as E
    by (unfold IS_VALID_TIME, TIME64NAN, MaximumDatePrimitiveValue in *; apply negb_true_iff, Z.eqb_neq; lia).
  unfold setTimeValue. rewrite E. exact E.
Qed.

(** An invalid date becomes the start of 1970 before the year is set. *)
Lemma reset_ok d : let z := setTimeValue d 0 in
  exists d1 offset, getTimezoneOffset zone_offset dst_offset z = Ok (d1, offset) /\
    date_ok (setTimeValue d1 (offset * MsPerMinute)) /\ isValid (setTimeValue d1 (offset * MsPerMinute)) = true.
Proof.
  intros z. assert (Z.abs 0 <= MaximumDatePrimitiveValue) as H0 by (unfold MaximumDatePrimitiveValue; lia).
  destruct (get_local_ok gmtoff z ltac:(apply setTimeValue_ok; now right) (set_valid d 0 H0)) as (d2 & i & E2 & Hd2 & Hi & _ & _).
  exists d2, (gmtoff i). split; [exact E2|]. pose proof (gmtoff_small _ _ Hi).
  assert (Z.abs (gmtoff i * MsPerMinute) <= MaximumDatePrimitiveValue)
    by (change MsPerMinute with 60000; unfold MaximumDatePrimitiveValue; lia).
  split; [apply setTimeValue_ok; now right|now apply set_valid].
Qed.

Lemma setHelper_keeps ty n utc d argv d' x : date_ok d -> Forall keeps_dates argv ->
  dateSetHelper zone_offset dst_offset failure ty n utc d argv = Ok (d', x) -> date_ok d'.
Proof.
  intros Hd Hargs E. unfold dateSetHelper in E. rewrite clip_zero in E.
  apply bind_Ok in E as ([[d1 original] ok] & E1 & E).
  assert (date_ok d1 /\ (ok = true -> isValid d1 = true)) as [Hd1 Hok].
  { destruct (match ty with Day => (n =? 3)%nat | Time => false end && negb (isValid d)); [|injection E1 as <- _ <-; auto].
    apply bind_Ok in E1 as ([d2 offset] & E2 & E1).
    destruct (reset_ok d) as (d3 & offset' & E3 & Hok & Hv). rewrite E3 in E2. injection E2 as <- <-.
    injection E1 as <- _ <-. auto. }
  clear E1. destruct argv as [|v argv]; [injection E as <- _; apply setNaN_ok|].
  apply bind_Ok in E as ([d2 f2] & E2 & E). apply bind_Ok in E as ([d3 f3] & E3 & E).
  assert (date_ok d2) as Hd2.
  { destruct ok; [eapply read_fields_keeps; [exact Hd1|now apply Hok|exact E2]|now injection E2 as <- _]. }
  apply (convert_from_ok _ Hargs) in E3 as Hd3; [|assumption].
  destruct (is_nan original); [now injection E as <- _|].
  apply bind_Ok in E as (d4 & E4 & E). injection E as <- _. now apply set_doubles_ok in E4.
Qed.

Lemma fle_scaled a b : is_finite a = true -> is_finite b = true -> fle a b = (scaled a <=? scaled b).
Proof.
  intros Ha Hb. pose proof (flt_scaled b a Hb Ha) as E. unfold flt in E. unfold fle.
  rewrite (is_finite_nan a Ha), (is_finite_nan b Hb) in *. cbn [negb andb] in *. now rewrite Z.leb_antisym, E, Z.leb_antisym.
Qed.
Lemma timeClip_value V : time_value (timeClipToTime64 V).
Proof.
  unfold timeClipToTime64. destruct (is_inf V || is_nan V) eqn:E; [now left|].
  destruct (negb _) eqn:E1; [now left|right]. apply negb_false_iff, andb_prop in E1 as [H1 H2].
  apply orb_false_elim in E as [Ei En]. assert (is_finite V = true) as Hf
    by (unfold is_finite, is_inf, is_nan in *; Zbool; apply Z.ltb_lt; lia).
  destruct (of_Z_exact MaximumDatePrimitiveValue) as [F1 S1]; [unfold MaximumDatePrimitiveValue; lia|].
  destruct (of_Z_exact (- MaximumDatePrimitiveValue)) as [F2 S2]; [unfold MaximumDatePrimitiveValue; lia|].
  rewrite fle_scaled, S1 in H1 by assumption. rewrite fle_scaled, S2 in H2 by assumption. Zbool.
  pose proof UNIT_pos as HU. unfold to_Z. pose proof (Z.quot_rem (scaled V) UNIT ltac:(lia)).
  pose proof (Z.rem_bound_abs (scaled V) UNIT ltac:(lia)). pose proof (Z.rem_sign_nz (scaled V) UNIT). nia.
Qed.

Lemma setTime_keeps d argv d' x : date_ok d -> Forall keeps_dates argv -> dateSetTime d argv = Ok (d', x) -> date_ok d'.
Proof.
  intros Hd Ha. destruct argv as [|v argv]; [intros [= <- _]; apply setNaN_ok|]. intros E. unfold dateSetTime in E.
  apply bind_Ok in E as ([d1 y] & E1 & E). injection E as <- _. apply setTimeValue_ok, timeClip_value.
Qed.

Lemma setYear_keeps d argv d' x : date_ok d -> Forall keeps_dates argv ->
  dateSetYear zone_offset dst_offset failure d argv = Ok (d', x) -> date_ok d'.
Proof.
  intros Hd Ha E. unfold dateSetYear in E. rewrite clip_zero in E. apply bind_Ok in E as (d1 & E1 & E).
  assert (date_ok d1 /\ isValid d1 = true) as [Hd1 Hv].
  { destruct (negb (isValid d)) eqn:Ev; [|injection E1 as <-; apply negb_false_iff in Ev; auto].
    apply bind_Ok in E1 as ([d2 offset] & E2 & E1). destruct (reset_ok d) as (d3 & o & E3 & Hok & Hv).
    rewrite E3 in E2. injection E2 as <- <-. injection E1 as <-. auto. }
  destruct argv as [|v argv]; [injection E as <- _; apply setNaN_ok|].
  repeat (apply bind_Ok in E as ([? ?] & Eg & E); apply (get_keeps false) in Eg as [? ?]; [|assumption..]).
  apply bind_Ok in E as ([dy y] & Ey & E). apply Forall_inv in Ha. eapply Ha in Ey; [|eassumption].
  destruct (is_nan y); [injection E as <- _; apply setNaN_ok|].
  apply bind_Ok in E as (yy & _ & E). apply bind_Ok in E as (dz & E3 & E). injection E as <- _.
  now apply set_fields_ok in E3.
Qed.

Lemma constructor_keeps cvt d argv d' : dateConstructor_fields zone_offset dst_offset failure cvt d argv = Ok d' -> date_ok d'.
Proof.
  unfold dateConstructor_fields. intros E. apply bind_Ok in E as ([d1 args] & _ & E). now apply set_doubles_ok in E.
Qed.

Lemma copy_value other t : time_value (m_primitiveValue other) -> cast_int64 (primitiveValue other) = Ok t -> time_value t.
Proof.
  assert (cast_int64 NAN = Undefined) as Hn by (vm_compute; reflexivity).
  unfold primitiveValue, isValid. intros Ht. destruct (IS_VALID_TIME (m_primitiveValue other)) eqn:E; [|rewrite Hn; discriminate].
  pose proof (time_value_valid _ Ht E) as Hr. unfold cast_int64, cast_range. rewrite to_Z_of_Z by (unfold MaximumDatePrimitiveValue in Hr; lia).
  destruct (_ && _); [|discriminate]. intros [= <-]. now right.
Qed.

(** What script code does with a date, one operation at a time. *)
Inductive date_step : DateObject -> DateObject -> Prop :=
  | step_get (utc : bool) f d d' x :
      dateGet ((if utc then get_UTC zone_offset dst_offset else get_local zone_offset dst_offset) f) d = Ok (d', x) -> date_step d d'
  | step_getYear d d' x : dateGetYear zone_offset dst_offset d = Ok (d', x) -> date_step d d'
  | step_set ty n utc argv d d' x : Forall keeps_dates argv ->
      dateSetHelper zone_offset dst_offset failure ty n utc d argv = Ok (d', x) -> date_step d d'
  | step_setYear argv d d' x : Forall keeps_dates argv ->
      dateSetYear zone_offset dst_offset failure d argv = Ok (d', x) -> date_step d d'
  | step_setTime argv d d' x : Forall keeps_dates argv -> dateSetTime d argv = Ok (d', x) -> date_step d d'
  | step_construct cvt argv d d' : dateConstructor_fields zone_offset dst_offset failure cvt d argv = Ok d' -> date_step d d'
  | step_number v d d' : dateConstructor_number d v = Ok d' -> date_step d d'
  | step_copy other d d' : time_value (m_primitiveValue other) -> dateConstructor_date d other = Ok d' -> date_step d d'
  (* A string that is read as the time [t] *)
  | step_string t d : time_value t -> date_step d (setTimeValue d t).

Lemma step_keeps d d' : date_step d d' -> date_ok d -> date_ok d'.
Proof.
  destruct 1 as [utc f d d' x E|d d' x E|ty n utc argv d d' x Ha E|argv d d' x Ha E|argv d d' x Ha E|cvt argv d d' E|v d d' E|other d d' Ho E|
    t d Ht]; intros Hd.
  - unfold dateGet in E. destruct (isValid d) eqn:Hv; cbn [negb] in E; [|now injection E as <- _].
    apply bind_Ok in E as ([d1 y] & Eg & E). injection E as <- _. eapply get_keeps; eassumption.
  - unfold dateGetYear in E. destruct (isValid d) eqn:Hv; cbn [negb] in E; [|now injection E as <- _].
    apply bind_Ok in E as ([d1 y] & Eg & E). injection E as <- _. eapply (get_keeps false); eassumption.
  - eapply setHelper_keeps; eassumption.
  - eapply setYear_keeps; eassumption.
  - eapply setTime_keeps; eassumption.
  - eapply constructor_keeps; eassumption.
  - unfold dateConstructor_number in E. apply bind_Ok in E as ([d1 y] & _ & E). injection E as <-. apply setTimeValue_ok, timeClip_value.
  - unfold dateConstructor_date in E. apply bind_Ok in E as (t & Et & E). injection E as <-. apply setTimeValue_ok.
    eapply copy_value; eassumption.
  - now apply setTimeValue_ok.
Qed.
Lemma steps_keep d d' : rtc date_step d d' -> date_ok d -> date_ok d'.
Proof. induction 1 as [|d d1 d' Hs _ IH]; [auto|]. intros Hd. apply IH. eapply step_keeps; eassumption. Qed.
Lemma new_ok utc : date_ok (new_date utc).
Proof. split; [now left|]. intros [=]. Qed.

End Zone.

(** ** Arguments that are integers *)
Definition number (z : Z) : Conversion := fun d => Ok (d, of_Z z).

Lemma number_keeps zone dst z : keeps_dates zone dst (number z).
Proof. intros d d' x Hd [= <- _]. exact Hd. Qed.

(** The components with the arguments in their places. *)
Fixpoint overwrite (n i : nat) (zs fields : list Z) : list Z :=
  match n, zs with
  | S n, z :: zs => overwrite n (S i) zs (<[i := z]> fields)
  | _, _ => fields
  end.
(** The places of a setter's parameters among year, month, day, hour, minute,
    second and millisecond: those of the day end at the day of the month, those
    of the time at the milliseconds. *)
Definition places (ty : DateSetterType) (n : nat) : list nat :=
  match ty with Day => drop (3 - n) [0; 1; 2]%nat | Time => drop (4 - n) [3; 4; 5; 6]%nat end.
Definition replace_fields (ty : DateSetterType) (n : nat) (zs fields : list Z) : list Z :=
  fold_left (fun l '(place, z) => <[place := z]> l) (zip (places ty n) zs) fields.
Lemma overwrite_places ty n zs fields : (1 <= n <= match ty with Day => 3 | Time => 4 end)%nat ->
  overwrite n (first_component ty n) zs fields = replace_fields ty n zs fields.
Proof.
  unfold replace_fields. intros H. destruct ty; cbn in H.
  - assert (n = 1 \/ n = 2 \/ n = 3 \/ n = 4)%nat as [->|[->|[->| ->]]] by lia;
      destruct zs as [|z1 [|z2 [|z3 [|z4 zs]]]]; reflexivity.
  - assert (n = 1 \/ n = 2 \/ n = 3)%nat as [->|[->| ->]] by lia; destruct zs as [|z1 [|z2 [|z3 zs]]]; reflexivity.
Qed.

Lemma convert_numbers d zs : forall n i fields,
  convert_from d (number <$> zs) n i (of_Z <$> fields) = Ok (d, of_Z <$> overwrite n i zs fields).
Proof.
  induction zs as [|z zs IH]; intros [|n] i fields; try reflexivity.
  rewrite fmap_cons. cbn [overwrite]. rewrite <- IH, list_fmap_insert. reflexivity.
Qed.

Lemma abs_of_Z z : Z.abs z <= 2 ^ 53 -> represents (fabs (of_Z z)) (Z.abs z).
Proof.
  intros Hz. destruct (rep_of_Z z Hz) as [F E]. pose proof (rep_mag (of_Z z) z (conj F E)) as Em.
  destruct (fabs_facts (of_Z z)) as [Ea Es]. split; [unfold is_finite in *; now rewrite Ea|].
  unfold scaled. now rewrite Es, Ea.
Qed.

Lemma max32_rep : represents (of_Z (2 ^ 31 - 1)) (2 ^ 31 - 1).
Proof. apply rep_of_Z. lia. Qed.
Lemma max64_rep : represents (of_Z (2 ^ 63 - 1)) (2 ^ 63).
Proof. split; vm_compute; reflexivity. Qed.

Lemma in_range_numbers zs : Forall (fun z => Z.abs z < 2 ^ 31) (take 5 zs) -> Forall (fun z => Z.abs z <= 2 ^ 52) (drop 5 zs) ->
  isInValidRange (of_Z <$> zs) = true.
Proof.
  intros H1 H2. unfold isInValidRange. rewrite <- fmap_take, <- fmap_drop.
  assert (Forall (fun z => Z.abs z <= 2 ^ 52) zs) as H.
  { rewrite <- (take_drop 5 zs). apply Forall_app. split; [|assumption]. eapply Forall_impl; [exact H1|]. cbv beta. lia. }
  assert (forall (P : Z -> bool) (Q : Z -> Prop) l, Forall Q l -> (forall z, Q z -> P (of_Z z) = true) -> forallb P (of_Z <$> l) = true)
    as Hall.
  { intros P Q l Hl HP. induction Hl as [|z l Hz _ IH]; [reflexivity|]. cbn. now rewrite HP. }
  repeat (apply andb_true_intro; split).
  - apply (Hall _ _ _ H). intros z Hz. now rewrite (rep_ne_nan _ z) by (apply rep_of_Z; lia).
  - apply (Hall _ _ _ H). intros z Hz. now rewrite (rep_ne_inf _ z) by (apply rep_of_Z; lia).
  - apply (Hall _ _ _ H1). intros z Hz. rewrite (rep_fle _ _ _ _ (abs_of_Z z ltac:(lia)) max32_rep). apply Z.leb_le. lia.
  - apply (Hall _ _ _ H2). intros z Hz. rewrite (rep_fle _ _ _ _ (abs_of_Z z ltac:(lia)) max64_rep). apply Z.leb_le. lia.
Qed.

Lemma cast_number lo hi z : lo <= z <= hi -> Z.abs z <= 2 ^ 53 -> cast_range lo hi (of_Z z) = Ok z.
Proof.
  intros H Hz. pose proof (r_of_Z z Hz) as R. unfold cast_range. rewrite (r_finite _ _ R), (r_to_Z _ _ R).
  rewrite (proj2 (Z.leb_le lo z)), (proj2 (Z.leb_le z hi)) by lia. reflexivity.
Qed.

Lemma set_integers zone dst fail d y mo da h mi s ms c :
  Forall (fun z => Z.abs z < 2 ^ 31) [y; mo; da; h; mi] -> Forall (fun z => Z.abs z <= 2 ^ 52) [s; ms] ->
  set_from_doubles zone dst fail d (of_Z <$> [y; mo; da; h; mi; s; ms]) c
    = setTimeValue_fields zone dst fail d y mo da h mi s ms c.
Proof.
  intros H1 H2. unfold set_from_doubles. rewrite in_range_numbers by assumption. cbn [negb].
  decompose_Forall_hyps.
  cbn [fmap list_fmap]. unfold cast_int64, cast_int.
  rewrite !cast_number by lia. reflexivity.
Qed.

(** ** A zone with one offset *)
Definition clip (t : Z) : Z := if IS_IN_TIME_RANGE t then t else TIME64NAN.

(** MakeDate(MakeDay(year, month, date), MakeTime(hour, minute, second, ms)), months from 0. *)
Definition make_date (y mo da h mi s ms : Z) : Z := time_of (y + mo / 12) (mo mod 12) da h mi s ms.

Definition int_sized (x : Z) : Prop := - 2 ^ 31 < x < 2 ^ 31.

Lemma month_computed mo : (if Z.rem mo MonthsPerYear <? 0 then Z.rem (Z.rem mo MonthsPerYear + MonthsPerYear) MonthsPerYear
  else Z.rem mo MonthsPerYear) = mo mod 12.
Proof.
  change MonthsPerYear with 12. pose proof (Z.quot_rem mo 12 ltac:(lia)). pose proof (Z.rem_bound_abs mo 12 ltac:(lia)).
  destruct (Z.rem mo 12 <? 0) eqn:E; Zbool.
  - rewrite (Z.rem_small (_ + 12)) by lia. apply (Z.mod_unique_pos _ _ (Z.quot mo 12 - 1)); lia.
  - apply (Z.mod_unique_pos _ _ (Z.quot mo 12)); lia.
Qed.

Lemma year_computed y mo : int_sized y -> int_sized mo -> near (y + mo / 12) ->
  cast_int (fadd (of_Z y) (ffloor (fdiv (of_Z mo) (of_Z MonthsPerYear)))) = Ok (y + mo / 12).
Proof.
  unfold int_sized, near. intros Hy Hm Hn. apply cast_int_rep; [|lia]. change MonthsPerYear with 12.
  apply r_add; [apply r_of_Z; lia| |lia]. apply r_floor_div; [apply r_of_Z; lia|apply r_of_Z; lia|lia|lia].
Qed.

Lemma make_date_bound y mo da h mi s ms : near (y + mo / 12) -> int_sized da -> int_sized h -> int_sized mi ->
  Z.abs s <= 2 ^ 52 -> Z.abs ms <= 2 ^ 52 -> Z.abs (make_date y mo da h mi s ms) <= 6 * 10 ^ 18.
Proof.
  unfold int_sized, make_date, time_of. intros Hy Hda Hh Hmi Hs Hms. pose proof (year_days_near _ Hy).
  pose proof (Z.mod_pos_bound mo 12 ltac:(lia)).
  pose proof (month_days_range (y + mo / 12) (mo mod 12 + 1) ltac:(lia)). pose proof (daysInYear_range (y + mo / 12)).
  pose proof (month_length_range (y + mo / 12) (mo mod 12 + 1) ltac:(lia)).
  assert (Z.abs (day_number (y + mo / 12) (mo mod 12 + 1) da) <= 3000000000) as Hdn by (unfold day_number; lia).
  change MsPerDay with 86400000. change MsPerHour with 3600000. change MsPerMinute with 60000. change MsPerSecond with 1000. lia.
Qed.

Lemma timeinfo_make y mo da h mi s ms :
  int_sized da -> int_sized h -> int_sized mi -> Z.abs s <= 2 ^ 52 -> Z.abs ms <= 2 ^ 52 -> near (y + mo / 12) ->
  timeinfoToMs (y + mo / 12) (mo mod 12) da h mi s ms = Ok (make_date y mo da h mi s ms).
Proof.
  intros Hda Hh Hmi Hs Hms Hn. pose proof (Z.mod_pos_bound mo 12 ltac:(lia)). unfold int_sized in *.
  rewrite timeinfoToMs_ok by (assumption || lia). reflexivity.
Qed.

(** The time that is stored. *)
Lemma stored_value d p :
  (if IS_VALID_TIME p && IS_IN_TIME_RANGE p then with_value d p else setTimeValueAsNaN d) = with_value d (clip p).
Proof.
  unfold clip. destruct (IS_IN_TIME_RANGE p) eqn:E; [|rewrite andb_false_r; reflexivity].
  apply in_time_range in E as Ep. assert (IS_VALID_TIME p = true) as ->; [|reflexivity].
  apply negb_true_iff, Z.eqb_neq. unfold TIME64NAN, MaximumDatePrimitiveValue in *. lia.
Qed.
Lemma clip_clip p : clip (clip p) = clip p.
Proof. unfold clip. destruct (IS_IN_TIME_RANGE p) eqn:E; [now rewrite E|reflexivity]. Qed.

(** The last steps of [setTimeValue], from the number of milliseconds. *)
Definition store (zone dst : Z -> Z) (fail : Z -> bool) (d : DateObject) (local : bool) (p : Z) : result DateObject :=
  primitiveValue ← (if local then applyLocalTimezoneOffset zone dst fail p else Ok p);
  Ok (with_dirty
        (if IS_VALID_TIME primitiveValue && IS_IN_TIME_RANGE primitiveValue then with_value d primitiveValue
         else setTimeValueAsNaN d)).

Lemma set_fields_store zone dst fail d y mo da h mi s ms local :
  int_sized y -> int_sized mo -> int_sized da -> int_sized h -> int_sized mi -> Z.abs s <= 2 ^ 52 -> Z.abs ms <= 2 ^ 52 ->
  near (y + mo / 12) ->
  setTimeValue_fields zone dst fail d y mo da h mi s ms local = store zone dst fail d local (make_date y mo da h mi s ms).
Proof.
  intros Hy Hmo Hda Hh Hmi Hs Hms Hn. unfold setTimeValue_fields. rewrite year_computed by assumption. cbn [mbind result_bind].
  rewrite month_computed, timeinfo_make by assumption. reflexivity.
Qed.

Lemma store_UTC zone dst fail d p : store zone dst fail d false p = Ok (with_dirty (with_value d (clip p))).
Proof. unfold store. cbn [mbind result_bind]. now rewrite stored_value. Qed.

(** Without a zone the arithmetic is that of ECMA-262. *)
Lemma set_fields_UTC zone dst fail d y mo da h mi s ms :
  int_sized y -> int_sized mo -> int_sized da -> int_sized h -> int_sized mi -> Z.abs s <= 2 ^ 52 -> Z.abs ms <= 2 ^ 52 ->
  near (y + mo / 12) ->
  setTimeValue_fields zone dst fail d y mo da h mi s ms false = Ok (with_dirty (with_value d (clip (make_date y mo da h mi s ms)))).
Proof. intros. rewrite set_fields_store by assumption. apply store_UTC. Qed.

Lemma set_fields_far zone dst fail d y mo da h mi s ms :
  int_sized y -> int_sized mo -> ~ near (y + mo / 12) -> - 2 ^ 31 <= y + mo / 12 < 2 ^ 31 ->
  setTimeValue_fields zone dst fail d y mo da h mi s ms false = Ok (with_dirty (setTimeValueAsNaN d)).
Proof.
  intros Hy Hmo Hf Hb. unfold setTimeValue_fields. rewrite (cast_int_rep _ (y + mo / 12)); [|unfold int_sized in *|lia].
  - cbn [mbind result_bind]. unfold timeinfoToMs. rewrite daysToMs_far by assumption. reflexivity.
  - change MonthsPerYear with 12. apply r_add; [apply r_of_Z; lia| |lia].
    apply r_floor_div; [apply r_of_Z; lia|apply r_of_Z; lia|lia|lia].
Qed.

Definition fixed_offset_ms (k : Z) : Z := k * MsPerMinute.
Definition fixed_zone (k t : Z) : Z := fixed_offset_ms k.
Definition no_dst (t : Z) : Z := 0.
Definition no_failure (t : Z) : bool := false.

Section FixedZone.
Context (k : Z) (k_small : Z.abs k <= 1440).
Notation off := (fixed_offset_ms k).
Notation zone := (fixed_zone k).
Notation dst := no_dst.
Notation fail := no_failure.

Lemma fixed_small t : Z.abs (zone t + dst t) <= MsPerDay.
Proof. unfold fixed_zone, no_dst, fixed_offset_ms. change MsPerMinute with 60000. change MsPerDay with 86400000. lia. Qed.

Lemma fixed_offset t : in_range t -> offset_at zone dst t = off.
Proof. intros Ht. unfold offset_at. destruct (msBetween_ok t Ht) as (b & -> & _). unfold fixed_zone, no_dst. lia. Qed.
Lemma fixed_fields t i : in_range t -> local_fields zone dst t i -> fields_of (t + off) i /\ gmtoff i = - k.
Proof.
  intros Ht [H1 H2]. rewrite fixed_offset in * by assumption. split; [assumption|]. rewrite H2. unfold fixed_offset_ms.
  rewrite <- Z.mul_opp_l. apply Z.quot_mul. discriminate.
Qed.

Lemma apply_fixed t : Z.abs t <= 6 * 10 ^ 18 -> applyLocalTimezoneOffset zone dst fail t = Ok (clip (t - off)).
Proof.
  intros Ht. unfold applyLocalTimezoneOffset, clip. change (zone t) with off.
  assert (Z.abs off <= 86400000) as Ho by (unfold fixed_offset_ms; change MsPerMinute with 60000; lia).
  rewrite int64_ok by lia. cbn [mbind result_bind]. destruct (IS_IN_TIME_RANGE (t - off)) eqn:E; [|reflexivity].
  apply in_time_range in E. cbn [negb].
  destruct (msBetween_ok t) as (b & -> & _); [unfold in_range; change MsPerDay with 86400000; lia|].
  cbn [mbind result_bind]. change (fail (t + b)) with false. cbn beta iota. change (zone (t + b) + dst (t + b)) with (off + 0). rewrite Z.add_0_r. apply int64_ok. lia.
Qed.

Lemma store_fixed d p (local : bool) : Z.abs p <= 6 * 10 ^ 18 ->
  store zone dst fail d local p = Ok (with_dirty (with_value d (clip (p - (if local then off else 0))))).
Proof.
  intros Hp. destruct local; [|rewrite Z.sub_0_r; apply store_UTC].
  unfold store. rewrite apply_fixed by assumption. cbn [mbind result_bind]. now rewrite stored_value, clip_clip.
Qed.

Lemma set_fields_fixed d y mo da h mi s ms (local : bool) :
  int_sized y -> int_sized mo -> int_sized da -> int_sized h -> int_sized mi -> Z.abs s <= 2 ^ 52 -> Z.abs ms <= 2 ^ 52 ->
  near (y + mo / 12) ->
  setTimeValue_fields zone dst fail d y mo da h mi s ms local
    = Ok (with_dirty (with_value d (clip (make_date y mo da h mi s ms - (if local then off else 0))))).
Proof. intros. rewrite set_fields_store by assumption. apply store_fixed. now apply make_date_bound. Qed.

(** The fields kept for the getters of UTC are the local fields of their time. *)
Definition utc_ok (d : DateObject) : Prop :=
  match cachedUTC d with
  | Some (t, i) => Z.abs t <= MaximumDatePrimitiveValue + MsPerDay -> fields_of (t + off) i
  | None => True
  end.

Lemma get_UTC_fixed f d : date_ok zone dst d -> utc_ok d -> isValid d = true ->
  exists d' i, get_UTC zone dst f d = Ok (d', f i) /\ date_ok zone dst d' /\ utc_ok d' /\ fields_of (m_primitiveValue d) i /\
    m_primitiveValue d' = m_primitiveValue d.
Proof.
  intros Hd Hu Hv. pose proof (time_value_valid _ (proj1 Hd) Hv) as Ht.
  assert (MaximumDatePrimitiveValue = 8640000000000000) as EM by reflexivity.
  assert (Z.abs off <= 86400000) as Ho by (unfold fixed_offset_ms; change MsPerMinute with 60000; lia).
  unfold get_UTC, getTimezoneOffset.
  destruct (get_local_ok zone dst fixed_small gmtoff d Hd Hv) as (d' & i & -> & Hd' & Hi & Ev & Eu). cbn [mbind result_bind]. rewrite Ev.
  apply fixed_fields in Hi as [_ Eg]; [|unfold in_range; change MsPerDay with 86400000; lia]. rewrite Eg.
  replace (m_primitiveValue d + - k * MsPerMinute) with (m_primitiveValue d - off) by (unfold fixed_offset_ms; lia).
  rewrite int64_ok by lia. cbn [mbind result_bind].
  destruct (resolve_ok zone dst fixed_small (m_primitiveValue d - off) zero_info) as (j & Ej & Hj); [change MsPerDay with 86400000; lia|].
  apply fixed_fields in Hj as [Hj Egj]; [|unfold in_range; change MsPerDay with 86400000; lia].
  replace (m_primitiveValue d - off + off) with (m_primitiveValue d) in Hj by lia.
  rewrite Ej. cbn [mbind result_bind]. rewrite Egj, Z.eqb_refl. cbn [negb mbind result_bind].
  assert (date_ok zone dst (with_utc d' (m_primitiveValue d - off) j) /\ utc_ok (with_utc d' (m_primitiveValue d - off) j)) as [Hw Huw].
  { split; [split; apply Hd'|]. unfold utc_ok. cbn. intros _. now replace (m_primitiveValue d - off + off) with (m_primitiveValue d) by lia. }
  unfold utc_ok in Hu. rewrite Eu. destruct (cachedUTC d) as [[p info]|] eqn:Ec; [destruct (p =? m_primitiveValue d - off) eqn:Ep; Zbool|].
  - exists d', info. split; [reflexivity|]. split; [assumption|]. unfold utc_ok. rewrite Eu. split; [assumption|].
    split; [|assumption]. rewrite Ep in Hu. replace (m_primitiveValue d - off + off) with (m_primitiveValue d) in Hu by lia.
    apply Hu. change MsPerDay with 86400000. lia.
  - exists (with_utc d' (m_primitiveValue d - off) j), j. auto.
  - exists (with_utc d' (m_primitiveValue d - off) j), j. auto.
Qed.

(** The getters of both kinds, in one lemma. *)
Notation field_getter utc := (if utc : bool then get_UTC zone dst else get_local zone dst).
Definition shown (utc : bool) (t : Z) : Z := t + (if utc then 0 else off).
Definition date_fine (d : DateObject) : Prop := date_ok zone dst d /\ utc_ok d /\ isValid d = true.

Lemma get_fixed (utc : bool) f d : date_fine d ->
  exists d' i, field_getter utc f d = Ok (d', f i) /\ date_fine d' /\ fields_of (shown utc (m_primitiveValue d)) i /\
    m_primitiveValue d' = m_primitiveValue d.
Proof.
  intros (Hd & Hu & Hv). unfold date_fine, isValid in *. destruct utc; unfold shown.
  - destruct (get_UTC_fixed f d Hd Hu Hv) as (d' & i & E & Hd' & Hu' & Hi & Ev). exists d', i. rewrite Z.add_0_r, Ev. auto.
  - destruct (get_local_ok zone dst fixed_small f d Hd Hv) as (d' & i & E & Hd' & Hi & Ev & Eu).
    pose proof (time_value_valid _ (proj1 Hd) Hv) as Ht.
    apply fixed_fields in Hi as [Hi _];
      [|unfold in_range; change MsPerDay with 86400000; unfold MaximumDatePrimitiveValue in *; lia].
    exists d', i. rewrite Ev. unfold utc_ok in *. rewrite Eu. auto.
Qed.

Definition field_list (i : DateTimeInfo) : list Z := [year i; month i; mday i; hour i; min i; sec i; millisec i].

Lemma fields_list_unique t i j : fields_of t i -> fields_of t j -> field_list i = field_list j.
Proof. intros Hi Hj. pose proof (fields_unique _ _ _ Hi Hj) as [=]. unfold field_list. congruence. Qed.

(** What a getter gives, from the fields of the time. *)
Definition date_fields : list (DateTimeInfo -> Z) := [year; month; mday; hour; min; sec; millisec; wday].
Definition date_at (t : Z) (d : DateObject) : Prop := date_fine d /\ m_primitiveValue d = t.
Lemma get_known (utc : bool) f d t i : In f date_fields -> date_at t d -> fields_of (shown utc t) i ->
  exists d', field_getter utc f d = Ok (d', f i) /\ date_at t d'.
Proof.
  intros Hf [Hd <-] Hi. destruct (get_fixed utc f d Hd) as (d' & j & E & Hd' & Hj & Ev). exists d'. split; [|now split].
  rewrite E. do 2 f_equal. pose proof (fields_unique _ _ _ Hi Hj) as [=].
  cbn in Hf. repeat (destruct Hf as [<-|Hf]; [congruence|]). contradiction.
Qed.

Lemma read_fields_fixed utc d i : date_fine d -> fields_of (shown utc (m_primitiveValue d)) i ->
  exists d', read_fields zone dst utc d = Ok (d', of_Z <$> field_list i) /\ date_fine d' /\ m_primitiveValue d' = m_primitiveValue d.
Proof.
  intros Hd Hi. unfold read_fields. assert (date_at (m_primitiveValue d) d) as H by now split.
  do 7 (match type of H with date_at _ ?e => match goal with |- context [_ ?f e ≫= _] =>
    destruct (get_known utc f e _ i ltac:(cbn; tauto) H Hi) as (? & -> & ?H) end end;
    cbn [mbind result_bind]; clear H; match goal with H' : date_at _ _ |- _ => rename H' into H end).
  eexists. split; [reflexivity|]. exact H.
Qed.

Lemma setHelper_fixed ty n utc d zs i y mo da h mi s ms : date_fine d -> zs <> [] ->
  fields_of (shown utc (m_primitiveValue d)) i ->
  overwrite n (first_component ty n) zs (field_list i) = [y; mo; da; h; mi; s; ms] ->
  Forall (fun z => Z.abs z < 2 ^ 31) [y; mo; da; h; mi] -> Forall (fun z => Z.abs z <= 2 ^ 52) [s; ms] -> near (y + mo / 12) ->
  exists d', dateSetHelper zone dst fail ty n utc d (number <$> zs) = Ok (d', primitiveValue d') /\ date_ok zone dst d' /\
    m_primitiveValue d' = clip (make_date y mo da h mi s ms - (if utc then 0 else off)).
Proof.
  intros Hd Hz Hi Eo H1 H2 Hn. pose proof Hd as (Hok & _ & Hv).
  destruct (read_fields_fixed utc d i Hd Hi) as (d1 & E1 & (_ & _ & Hv1) & Ev1).
  assert (is_nan (primitiveValue d) = false) as Hnan.
  { unfold primitiveValue. rewrite Hv. apply (rep_ne_nan _ (m_primitiveValue d)), rep_of_Z.
    pose proof (time_value_valid _ (proj1 Hok) Hv). unfold MaximumDatePrimitiveValue in *. lia. }
  unfold dateSetHelper. rewrite Hv. cbn [negb]. rewrite andb_false_r. cbn [mbind result_bind].
  destruct zs as [|z zs]; [congruence|]. change (number <$> z :: zs) with (number z :: (number <$> zs)) at 1. cbn beta iota.
  rewrite E1. cbn [mbind result_bind]. rewrite convert_numbers. cbn [mbind result_bind]. rewrite Eo, Hnan.
  rewrite set_integers by assumption. decompose_Forall_hyps.
  rewrite set_fields_fixed by (assumption || (unfold int_sized; lia)). cbn [mbind result_bind].
  eexists. split; [reflexivity|]. split.
  - eapply (set_fields_ok zone dst fail d1 y mo da h mi s ms (negb utc)). apply set_fields_fixed; (assumption || (unfold int_sized; lia)).
  - cbn. now destruct utc.
Qed.

End FixedZone.
End DateObjectFacts.

(** * The properties *)
Module DateProps.
Import Iso IsoFacts Dates DateFacts DateObjects DateObjectFacts.

(** C23: For every time value, and for the local times around it,
    computeTimeInfoFromEpoch, with its quotients of doubles, runs without
    overflow and without a read outside its tables, and gives the year, month,
    day, hour, minute, second, millisecond and weekday of ECMA-262: those of the
    day number and of the time within the day, and no others. *)
Theorem computeTimeInfo_correct t i0 : in_range t ->
  exists i, computeTimeInfoFromEpoch t i0 = Ok i /\ fields_of t i /\
    (forall j, fields_of t j -> field_list j = field_list i /\ wday j = wday i).
Proof.
  intros Ht. destruct (computeTimeInfo_ok t i0 Ht) as (i & E & Hi & _). exists i. split; [assumption|]. split; [assumption|].
  intros j Hj. pose proof (fields_unique _ _ _ Hj Hi) as [=]. split; [now apply (fields_list_unique t)|assumption].
Qed.
Lemma computeTimeInfo_correct_witness :
  in_range (-1) /\ exists i, computeTimeInfoFromEpoch (-1) zero_info = Ok i /\ field_list i = [1969; 11; 31; 23; 59; 59; 999].
Proof.
  assert (in_range (-1)) as H by (vm_compute; discriminate). split; [assumption|].
  destruct (computeTimeInfo_correct (-1) zero_info H) as (i & E & _). exists i. split; [assumption|].
  assert (computeTimeInfoFromEpoch (-1) zero_info = Ok (mkDateTimeInfo 1969 11 31 23 59 59 999 3 0 0)) as E' by (vm_compute; reflexivity).
  rewrite E' in E. injection E as <-. reflexivity.
Defined.

(** Fields and times are inverse to each other: the time of the fields of a
    time is that time, and the fields of the time of seven components in their
    ranges, in every year that a time value can have, are those components. *)
Theorem fields_roundtrip :
  (forall t i0, in_range t -> exists i, computeTimeInfoFromEpoch t i0 = Ok i /\
     timeinfoToMs (year i) (month i) (mday i) (hour i) (min i) (sec i) (millisec i) = Ok t) /\
  (forall y mo da h mi s ms i0, proper_fields y mo da h mi s ms -> Z.abs (y - 1970) <= 270000 ->
     exists t i, timeinfoToMs y mo da h mi s ms = Ok t /\ computeTimeInfoFromEpoch t i0 = Ok i /\
       field_list i = [y; mo; da; h; mi; s; ms]).
Proof.
  split.
  - intros t i0 Ht. destruct (computeTimeInfo_ok t i0 Ht) as (i & E & Hi & Hy & _). exists i. split; [assumption|].
    pose proof (fields_time t i Hi) as Et. destruct Hi as ((Hm & Hd) & _ & Eh & Emi & Es & Ems & _).
    pose proof (month_length_range (year i) (month i + 1) Hm).
    pose proof (Z.mod_pos_bound (t / MsPerHour) 24 ltac:(lia)). pose proof (Z.mod_pos_bound (t / MsPerMinute) 60 ltac:(lia)).
    pose proof (Z.mod_pos_bound (t / MsPerSecond) 60 ltac:(lia)). assert (0 <= t mod MsPerSecond < 1000) by (apply Z.mod_pos_bound; reflexivity).
    rewrite timeinfoToMs_ok by (unfold near; rewrite ?Eh, ?Emi, ?Es, ?Ems; lia). now rewrite Et.
  - intros y mo da h mi s ms i0 Hp Hy. pose proof (fields_of_time y mo da h mi s ms 0 0 Hp) as Hf. cbv zeta in Hf.
    pose proof Hp as ((Hm & Hd) & ? & ? & ? & ?). pose proof (month_length_range y (mo + 1) Hm).
    assert (timeinfoToMs y mo da h mi s ms = Ok (time_of y mo da h mi s ms)) as E
      by (rewrite timeinfoToMs_ok by (unfold near; lia); reflexivity).
    destruct (computeTimeInfo_ok (time_of y mo da h mi s ms) i0 ltac:(now apply time_of_range)) as (i & Ei & Hi & _).
    exists (time_of y mo da h mi s ms), i. split; [assumption|]. split; [assumption|].
    now rewrite (fields_list_unique _ _ _ Hi Hf).
Qed.
Lemma fields_roundtrip_witness :
  proper_fields 2024 1 29 12 30 15 250 /\
  exists t i, timeinfoToMs 2024 1 29 12 30 15 250 = Ok t /\ computeTimeInfoFromEpoch t zero_info = Ok i /\
    field_list i = [2024; 1; 29; 12; 30; 15; 250].
Proof.
  assert (proper_fields 2024 1 29 12 30 15 250) as H by (vm_compute; repeat split; discriminate). split; [assumption|].
  apply (proj2 fields_roundtrip); [assumption|vm_compute; discriminate].
Defined.

(** C21: A date is NaN or a time value within 8.64e15 ms of the epoch, and its
    getters give the local fields of that very time, whatever getters, setters
    and constructors ran on it before, in any order, also inside the conversions
    of the arguments of setters: the cache of local fields is never out of date.
    Zones are any whose offset is below a day.  The conversions keep dates so (they
    may run these operations), a date that is copied is one, and a string that a
    date is made of is read as NaN or a time value: that is so when the last resort
    of the parser, ICU, gives such times ([DateTextFacts.string_is_step]), which the
    program does not test. *)
Theorem dates_stay_valid zone dst fail utc d :
  (forall t, Z.abs (zone t + dst t) <= MsPerDay) -> rtc (date_step zone dst fail) (new_date utc) d ->
  time_value (m_primitiveValue d) /\
  (isValid d = true -> forall f, exists d' i,
     get_local zone dst f d = Ok (d', f i) /\ local_fields zone dst (m_primitiveValue d) i).
Proof.
  intros Hz Hs. apply steps_keep in Hs as Hd; [|assumption|apply new_ok]. split; [apply Hd|].
  intros Hv f. destruct (get_local_ok zone dst Hz f d Hd Hv) as (d' & i & E & _ & Hi & _). eauto.
Qed.
Lemma dates_stay_valid_witness :
  let d := setTimeValue (new_date None) 1000 in
  rtc (date_step (fixed_zone 540) no_dst no_failure) (new_date None) d /\ time_value (m_primitiveValue d).
Proof.
  intros d. assert (rtc (date_step (fixed_zone 540) no_dst no_failure) (new_date None) d) as H.
  { apply rtc_once, (step_setTime _ _ _ [number 1000] _ _ (of_Z 1000)).
    - apply List.Forall_cons; [|apply List.Forall_nil]. apply number_keeps.
    - vm_compute. reflexivity. }
  split; [exact H|]. eapply (dates_stay_valid (fixed_zone 540) no_dst no_failure None d); [|exact H].
  intros t. now apply fixed_small.
Defined.

(** The time that setTimeValue stores for a year and a month, a day, hours,
    minutes, seconds and milliseconds that are far from the limits of their
    types: MakeDate of them, clipped, in all years within a million of 1970, and
    NaN in years that are farther; no operation overflows. *)
Theorem setTimeValue_is_MakeDate zone dst fail d y mo da h mi s ms :
  int_sized y -> int_sized mo -> int_sized da -> int_sized h -> int_sized mi -> Z.abs s <= 2 ^ 52 -> Z.abs ms <= 2 ^ 52 ->
  - 2 ^ 31 <= y + mo / 12 < 2 ^ 31 ->
  setTimeValue_fields zone dst fail d y mo da h mi s ms false
    = Ok (with_dirty (with_value d (if bool_decide (near (y + mo / 12)) then clip (make_date y mo da h mi s ms) else TIME64NAN))).
Proof.
  intros Hy Hmo Hda Hh Hmi Hs Hms Hb. case_bool_decide as Hn.
  - now apply set_fields_UTC.
  - now apply set_fields_far.
Qed.
Lemma setTimeValue_is_MakeDate_witness :
  setTimeValue_fields no_dst no_dst no_failure (new_date None) 1970 (-1) 32 24 (-60) 1 1 false
    = Ok (with_dirty (with_value (new_date None)
        (if bool_decide (near (1970 + -1 / 12)) then clip (make_date 1970 (-1) 32 24 (-60) 1 1) else TIME64NAN))) /\
  clip (make_date 1970 (-1) 32 24 (-60) 1 1) = 82801001.
Proof.
  split; [|vm_compute; reflexivity].
  apply setTimeValue_is_MakeDate; vm_compute; first [reflexivity | discriminate | split; [reflexivity || discriminate|reflexivity]].
Defined.

(** C22: The setters of a valid date in a zone of one offset are those of
    ECMA-262 for integers of moderate size: the components that the setter's
    arguments replace are taken from the arguments, the others are those of the
    date in the zone (or in UTC), and the time stored and returned is MakeDate of
    them, back in UTC and clipped.  There is at least one argument, the components
    are below 2^31, seconds and milliseconds up to 2^52, and the year is within a
    million of 1970; beyond, numbers of minutes, hours or days are refused
    ([minutes_refused]).  [setFullYear] of an invalid date is not covered, nor are
    zones with summer time. *)
Theorem setters_follow_ecma k ty n utc d zs i y mo da h mi s ms :
  Z.abs k <= 1440 -> date_fine k d -> zs <> [] -> fields_of (shown k utc (m_primitiveValue d)) i ->
  (1 <= n <= match ty with Day => 3 | Time => 4 end)%nat ->
  replace_fields ty n zs (field_list i) = [y; mo; da; h; mi; s; ms] ->
  Forall (fun z => Z.abs z < 2 ^ 31) [y; mo; da; h; mi] -> Forall (fun z => Z.abs z <= 2 ^ 52) [s; ms] -> near (y + mo / 12) ->
  exists d', dateSetHelper (fixed_zone k) no_dst no_failure ty n utc d (number <$> zs) = Ok (d', primitiveValue d') /\
    m_primitiveValue d' = clip (make_date y mo da h mi s ms - (if utc then 0 else fixed_offset_ms k)).
Proof.
  intros Hk Hd Hz Hi Hlen Eo H1 H2 Hn. rewrite <- overwrite_places in Eo by assumption.
  destruct (setHelper_fixed k Hk ty n utc d zs i y mo da h mi s ms Hd Hz Hi Eo H1 H2 Hn) as (d' & E & _ & Ev). eauto.
Qed.
(** [setMonth(13)] on the start of 1970 in Korea. *)
Lemma setters_follow_ecma_witness :
  let d := setTimeValue (new_date None) 0 in
  exists d', dateSetHelper (fixed_zone 540) no_dst no_failure Day 2 false d (number <$> [13]) = Ok (d', primitiveValue d') /\
    m_primitiveValue d' = clip (make_date 1970 13 1 9 0 0 0 - (if false then 0 else fixed_offset_ms 540)).
Proof.
  intros d. apply (setters_follow_ecma 540 Day 2 false d [13] (mkDateTimeInfo 1970 0 1 9 0 0 0 4 0 0)).
  - vm_compute. discriminate.
  - split; [split; [right; vm_compute; discriminate|intros _ [=]]|now split].
  - discriminate.
  - vm_compute. repeat split; discriminate.
  - lia.
  - reflexivity.
  - repeat constructor.
  - repeat constructor; vm_compute; discriminate.
  - vm_compute. discriminate.
Defined.

(** ** Where the code and ECMA-262 part *)

(** [monthFromTime] reads before its table on every first day of February. *)
Example monthFromTime_reads_before_table : monthFromTime (31 * MsPerDay) = Undefined.
Proof. vm_compute. reflexivity. Qed.

(** [secFromTime] cuts the seconds to an [int]: wrong before December 1901. *)
Example secFromTime_wraps : secFromTime (- 2147483649000) = 67 /\ (- 2147483649000 / 1000) mod 60 = 51.
Proof. vm_compute. auto. Qed.

(** A number of minutes above 2^31 is refused although its date is valid. *)
Example minutes_refused :
  dateSetHelper no_dst no_dst no_failure Time 3 true (setTimeValue (new_date None) 0) [number 3000000000]
    = Ok (setTimeValueAsNaN (with_utc (mkDate 0 (mkDateTimeInfo 1970 0 1 0 0 0 0 4 0 0) false None) 0
            (mkDateTimeInfo 1970 0 1 0 0 0 0 4 0 0)), NAN) /\
  clip (make_date 1970 0 1 0 3000000000 0 0) = 180000000000000.
Proof. vm_compute. auto. Qed.

(** Large numbers of seconds pass the test of the range and overflow the
    product; the largest year and month overflow the year. *)
Example seconds_overflow :
  set_from_doubles no_dst no_dst no_failure (new_date None) (of_Z <$> [1970; 0; 1; 0; 0; 2 ^ 61; 0]) false = Undefined /\
  set_from_doubles no_dst no_dst no_failure (new_date None) (of_Z <$> [2 ^ 31 - 1; 12; 1; 0; 0; 0; 0]) false = Undefined.
Proof. vm_compute. auto. Qed.

(** [setYear] casts the year without a test. *)
Example setYear_overflows :
  dateSetYear no_dst no_dst no_failure (setTimeValue (new_date None) 0) [number 10000000000] = Undefined.
Proof. vm_compute. reflexivity. Qed.

(** The time that [setUTCFullYear] starts from, on an invalid date, is the local
    start of 1970: in UTC it is the last day of 1969, not the epoch. *)
Example setUTCFullYear_local_start :
  (('(d, offset) ← getTimezoneOffset (fixed_zone 540) no_dst (setTimeValue (new_date None) (timeClipToTime64 (of_Z 0)));
    Ok (m_primitiveValue (setTimeValue d (offset * MsPerMinute)))) : result Z)
    = Ok (make_date 1969 11 31 15 0 0 0).
Proof. vm_compute. reflexivity. Qed.

(** [new Date(new Date(NaN))] casts a NaN to an integer. *)
Example copy_of_invalid_date utc : dateConstructor_date (new_date utc) (new_date utc) = Undefined.
Proof. reflexivity. Qed.

(** A year out of range becomes the reserved number, which the zone overflows. *)
Example far_year_overflows :
  setTimeValue_fields (fixed_zone 540) no_dst no_failure (new_date None) 2000000 0 1 0 0 0 0 true = Undefined.
Proof. vm_compute. reflexivity. Qed.

(** A zone an hour before UTC that gains another hour in the spring of 2020. *)
Definition spring : Z := 1585443600000.
Definition hour_east (t : Z) : Z := MsPerHour.
Definition summer (t : Z) : Z := if spring <=? t then MsPerHour else 0.

(** The hours of UTC are wrong in the second hour of summer time. *)
Example UTC_hours_after_transition :
  (('(_, h) ← get_UTC hour_east summer hour (setTimeValue (new_date None) (spring + 5400000)); Ok h) : result Z) = Ok 3 /\
  ((spring + 5400000) / MsPerHour) mod 24 = 2.
Proof. vm_compute. auto. Qed.

(** The offset of a local time is taken at the same number of milliseconds in
    UTC: half an hour before the change it is already that of the summer. *)
Example local_time_before_transition :
  applyLocalTimezoneOffset hour_east summer no_failure (spring - 1800000 + MsPerHour) = Ok (spring - 1800000 - MsPerHour).
Proof. vm_compute. reflexivity. Qed.

End DateProps.
