(* ===== verification/NumberString.v ===== *)
(** Numbers as strings ([runtime/String.cpp], [runtime/StringBuilder.cpp]):
    the integer printers [fromInt32], [fromUint32] and the lazy digits of the
    string builder; the index readers behind every property access; and the
    layout [dtoa] gives to the digits of a double.  The reference is the
    canonical numeral [dec] of the prelude and Number::toString of ECMA-262. *)
From Stdlib Require Import ZArith Lia Bool.
From stdpp Require Import base numbers list option decidable.
From S2P Require Import Prelude Double.

(** * Printers and readers *)
Module Decimal.

(** A loop [while (v > 0) { *(--ptr) = '0' + v % 10; v /= 10; }] into the
    [space] bytes left in front of [ptr]. *)
Fixpoint itoa_loop (space : nat) (v : Z) (acc : list Z) : result (list Z) :=
  if 0 <? v then
    match space with
    | O => Undefined
    | S space => itoa_loop space (v / 10) (u8 (48 + v mod 10) :: acc)
    end
  else Ok acc.

(** [String::fromInt32]: [buffer[12]], whose last byte is the terminator. *)
Definition fromInt32 (v : Z) : result (list Z) :=
  if v =? 0 then Ok [48]
  else
    let negative := v <? 0 in
    let absVal := if negative then u32 (i64 (- v)) else u32 v in
    digits ← itoa_loop 11 absVal [];
    if negative then
      if (length digits <? 11)%nat then Ok (45 :: digits) else Undefined
    else Ok digits.

(** [String::fromUint32]: its loop stores ['0' + v], not ['0' + v % 10]. *)
Fixpoint utoa_loop (space : nat) (v : Z) (acc : list Z) : result (list Z) :=
  if 0 <? v then
    match space with
    | O => Undefined
    | S space => utoa_loop space (v / 10) (u8 (48 + v) :: acc)
    end
  else Ok acc.
Definition fromUint32 (v : Z) : result (list Z) :=
  if v =? 0 then Ok [48] else utoa_loop 11 v [].

Definition isUint32Only (num : Z) : bool := negb (Z.land num 0x80000000 =? 0).

(** [fromUint32(v, state)], without the caches of [fromInt32(v, state)]. *)
Definition fromUint32_state (v : Z) : result (list Z) :=
  if isUint32Only v then fromUint32 v else fromInt32 (i32 v).

(** [decimalDigitLengthOf]. *)
Fixpoint digit_count_loop (fuel : nat) (v digits : Z) : Z :=
  match fuel with
  | O => digits
  | S fuel => if 10 <=? v then digit_count_loop fuel (v / 10) (u8 (digits + 1)) else digits
  end.
Definition decimalDigitLengthOf (value : Z) : Z :=
  let v := if value <? 0 then u32 (i64 (- value)) else u32 value in
  u8 (digit_count_loop 32 v 1 + (if value <? 0 then 1 else 0)).

(** A store into a buffer; outside it the program has no behaviour. *)
Definition storeZ (buf : list Z) (i x : Z) : result (list Z) :=
  if (0 <=? i) && (i <? Z.of_nat (length buf)) then Ok (<[Z.to_nat i := x]> buf) else Undefined.

(** [writeInt32Digits]: the do-while loop, then the sign. *)
Fixpoint write_digits_loop (fuel : nat) (buf : list Z) (end_ v : Z) : result (list Z * Z) :=
  match fuel with
  | O => Undefined
  | S fuel =>
      let end_ := end_ - 1 in
      buf ← storeZ buf end_ (48 + v mod 10);
      let v := v / 10 in
      if negb (v =? 0) then write_digits_loop fuel buf end_ v else Ok (buf, end_)
  end.
Definition writeInt32Digits (buf : list Z) (pos len value : Z) : result (list Z) :=
  let neg := value <? 0 in
  let v := if neg then u32 (i64 (- value)) else u32 value in
  '(buf, end_) ← write_digits_loop 32 buf (pos + len) v;
  if neg then storeZ buf (end_ - 1) 45 else Ok buf.

(** [isIndexString]; [None] is the read of the first unit of an empty string. *)
Fixpoint all_digits (str : list Z) : bool :=
  match str with
  | [] => true
  | c :: str => if (c <? 48) || (57 <? c) then false else all_digits str
  end.
Definition isIndexString (str : list Z) : option bool :=
  c ← str !! 0%nat;
  if (length str =? 1)%nat then Some (negb ((c <? 48) || (57 <? c)))
  else if (c <? 49) || (57 <? c) then Some false
  else Some (all_digits (drop 1 str)).

(** [convertToIndexNumber] with the two limits it is called with. *)
Fixpoint index_loop (str : list Z) (maxLimit number : Z) : Z :=
  match str with
  | [] => number
  | c :: str =>
      if (c <? 48) || (57 <? c) then maxLimit
      else
        let cnum := c - 48 in
        if u64 (maxLimit - cnum) / 10 <? number then maxLimit
        else index_loop str maxLimit (u64 (number * 10 + cnum))
  end.
Definition convertToIndexNumber (str : list Z) (maxLimit : Z) : Z :=
  match str with
  | [] => maxLimit
  | first :: _ =>
      if (1 <? length str)%nat && (first =? 48) then maxLimit
      else index_loop str maxLimit 0
  end.

Definition InvalidIndexValue : Z := 2 ^ 64 - 1.
Definition InvalidIndex32Value : Z := 2 ^ 32 - 1.
Definition tryToUseAsIndex (str : list Z) : Z := convertToIndexNumber str InvalidIndexValue.
Definition tryToUseAsIndex32 (str : list Z) : Z := u32 (convertToIndexNumber str InvalidIndex32Value).

Example min_int : fromInt32 (- 2 ^ 31) = Ok [45; 50; 49; 52; 55; 52; 56; 51; 54; 52; 56].
Proof. vm_compute. reflexivity. Qed.
Example uint_bug : fromUint32 (2 ^ 31) <> Ok (dec (2 ^ 31)).
Proof. vm_compute. discriminate. Qed.
Example index_max : tryToUseAsIndex32 (dec 4294967294) = 4294967294
  /\ tryToUseAsIndex32 (dec 4294967296) = InvalidIndex32Value /\ tryToUseAsIndex32 [48; 49] = InvalidIndex32Value.
Proof. vm_compute. auto. Qed.

End Decimal.

(** * The layout of the digits of a double *)
Module Dtoa.

Definition zeros (n : Z) : list Z := repeat 48 (Z.to_nat n).
Definition EMIT_POSITIVE_EXPONENT_SIGN : Z := 1.
Definition EMIT_TRAILING_DECIMAL_POINT : Z := 2.
Definition EMIT_TRAILING_ZERO_AFTER_POINT : Z := 4.
Definition UNIQUE_ZERO : Z := 8.
Definition has_flag (flags f : Z) : bool := negb (Z.land flags f =? 0).

(** [CreateDecimalRepresentation], as the characters added to the builder. *)
Definition CreateDecimalRepresentation (flags : Z) (decimal_digits : list Z)
    (length decimal_point digits_after_point : Z) : list Z :=
  (if decimal_point <=? 0 then
     48 :: (if 0 <? digits_after_point then
              46 :: zeros (- decimal_point) ++ take (Z.to_nat length) decimal_digits
                 ++ zeros (digits_after_point - (- decimal_point) - length)
            else [])
   else if length <=? decimal_point then
     take (Z.to_nat length) decimal_digits ++ zeros (decimal_point - length)
       ++ (if 0 <? digits_after_point then 46 :: zeros digits_after_point else [])
   else
     take (Z.to_nat decimal_point) decimal_digits ++ 46
       :: take (Z.to_nat (length - decimal_point)) (drop (Z.to_nat decimal_point) decimal_digits)
       ++ zeros (digits_after_point - (length - decimal_point)))
  ++ (if digits_after_point =? 0 then
        (if has_flag flags EMIT_TRAILING_DECIMAL_POINT then [46] else [])
          ++ (if has_flag flags EMIT_TRAILING_ZERO_AFTER_POINT then [48] else [])
      else []).

(** [CreateExponentialRepresentation]; the exponent goes through a buffer of
    five characters. *)
Definition CreateExponentialRepresentation (flags : Z) (decimal_digits : list Z)
    (length exponent : Z) : result (list Z) :=
  d0 ← defined (decimal_digits !! 0%nat);
  let out := [d0] ++ (if negb (length =? 1)
                      then 46 :: take (Z.to_nat (length - 1)) (drop 1 decimal_digits) else [])
             ++ [101] in
  let '(out, exponent) :=
    if exponent <? 0 then (out ++ [45], - exponent)
    else (out ++ (if has_flag flags EMIT_POSITIVE_EXPONENT_SIGN then [43] else []), exponent) in
  if exponent =? 0 then Ok (out ++ [48])
  else
    digits ← Decimal.itoa_loop 5 exponent [];
    Ok (out ++ digits).

(** [dtoa]. The digit generation is [double_conversion]'s: [shortest] is the
    digit string and the position of the decimal point it returns. *)
Definition dtoa (shortest : Z -> list Z * Z) (number : Z) : result (list Z) :=
  if feq number 0 then Ok [48]
  else
    let flags := Z.lor UNIQUE_ZERO EMIT_POSITIVE_EXPONENT_SIGN in
    let sign := flt number 0 in
    let number := if sign then neg number else number in
    let '(decimal_rep, decimal_point) := shortest number in
    let decimal_rep_length := Z.of_nat (length decimal_rep) in
    let exponent := decimal_point - 1 in
    body ←
      (if (-6 <=? exponent) && (exponent <? 21)
       then Ok (CreateDecimalRepresentation flags decimal_rep decimal_rep_length decimal_point
                  (Z.max 0 (decimal_rep_length - decimal_point)))
       else CreateExponentialRepresentation flags decimal_rep decimal_rep_length exponent);
    Ok (if sign then 45 :: body else body).

End Dtoa.

(** * Lemmas *)
Module DecimalFacts.
Import Decimal.

(** The decimal representation of a signed integer. *)
Definition int_dec (v : Z) : list Z := if v <? 0 then 45 :: dec (- v) else dec v.

Lemma dec_div v : 10 <= v -> dec v = dec (v / 10) ++ [48 + v mod 10].
Proof.
  intros H. assert (0 < v / 10) by (apply Z.div_str_pos; lia).
  rewrite (Z.div_mod v 10) at 1 by lia. apply dec_snoc; [lia|]. apply Z.mod_pos_bound; lia.
Qed.

Lemma dec_length n k : 0 <= n < 10 ^ Z.of_nat k -> (0 < k)%nat -> (length (dec n) <= k)%nat.
Proof.
  intros [H0 H] Hk. revert k H Hk.
  pattern n; apply dec_ind; [|intros m d Hm Hd IH|exact H0]; clear n H0.
  - intros m Hm k _ Hk. rewrite dec_small by lia. simpl. lia.
  - intros k H Hk. rewrite dec_snoc, length_app by lia. simpl.
    destruct k as [|[|k]]; [lia|simpl in H; lia|].
    rewrite Nat2Z.inj_succ, Z.pow_succ_r in H by lia.
    specialize (IH (S k) ltac:(lia) ltac:(lia)). lia.
Qed.

Lemma digit_char d : 0 <= d < 10 -> u8 (48 + d) = 48 + d.
Proof. intros. apply wrapu_id. unfold in_u. lia. Qed.

Lemma itoa_loop_spec space v acc :
  0 <= v < 10 ^ Z.of_nat space ->
  itoa_loop space v acc = Ok ((if v =? 0 then [] else dec v) ++ acc).
Proof.
  revert v acc. induction space as [|space IH]; intros v acc H; simpl itoa_loop.
  - simpl in H. destruct (0 <? v) eqn:E; Zbool; [lia|].
    now replace v with 0 by lia.
  - destruct (0 <? v) eqn:E; Zbool; [|now replace v with 0 by lia].
    rewrite Nat2Z.inj_succ, Z.pow_succ_r in H by lia.
    pose proof (Z.mod_pos_bound v 10 ltac:(lia)).
    rewrite IH by (split; [apply Z.div_pos; lia|apply Z.div_lt_upper_bound; lia]).
    rewrite digit_char by lia.
    destruct (v =? 0) eqn:E0; Zbool; [lia|]. f_equal.
    destruct (decide (v < 10)).
    + rewrite Z.div_small, Z.mod_small, (dec_small v) by lia. reflexivity.
    + assert (0 < v / 10) by (apply Z.div_str_pos; lia).
      destruct (v / 10 =? 0) eqn:E1; Zbool; [lia|].
      rewrite (dec_div v) by lia. now rewrite <- app_assoc.
Qed.

(** The absolute value both printers compute. *)
Lemma abs_u32 v : in_s 32 v ->
  (if v <? 0 then u32 (i64 (- v)) else u32 v) = Z.abs v.
Proof.
  unfold in_s. intros H. destruct (v <? 0) eqn:E; Zbool.
  - rewrite wraps_id, wrapu_id by (unfold in_s, in_u; lia). lia.
  - rewrite wrapu_id by (unfold in_u; lia). lia.
Qed.

Lemma int_dec_abs v : int_dec v = (if v <? 0 then [45] else []) ++ dec (Z.abs v).
Proof.
  unfold int_dec. destruct (v <? 0) eqn:E; Zbool; simpl; repeat f_equal; lia.
Qed.

Lemma fromInt32_spec v : in_s 32 v -> fromInt32 v = Ok (int_dec v).
Proof.
  intros H. unfold fromInt32. rewrite abs_u32 by assumption. unfold in_s in H.
  destruct (v =? 0) eqn:E; Zbool; [now subst|].
  rewrite itoa_loop_spec by lia. cbn [mbind result_bind].
  destruct (Z.abs v =? 0) eqn:E0; Zbool; [lia|]. rewrite app_nil_r, int_dec_abs.
  destruct (v <? 0); [|reflexivity].
  pose proof (dec_length (Z.abs v) 10 ltac:(lia) ltac:(lia)) as L.
  destruct (length (dec (Z.abs v)) <? 11)%nat eqn:E1; [reflexivity|].
  apply Nat.ltb_ge in E1. lia.
Qed.

(** The unreduced digits of [fromUint32] agree with the numeral only while
    there is one digit. *)
Lemma utoa_loop_wrong space v acc :
  0 < v < 10 ^ Z.of_nat space ->
  exists p, utoa_loop space v acc = Ok (p ++ acc) /\ (p = dec v <-> v < 10).
Proof.
  revert v acc. induction space as [|space IH]; intros v acc H; simpl utoa_loop.
  - simpl in H. lia.
  - destruct (0 <? v) eqn:E; Zbool; [|lia].
    rewrite Nat2Z.inj_succ, Z.pow_succ_r in H by lia.
    destruct (decide (v < 10)) as [Hs|Hs].
    + exists [u8 (48 + v)]. rewrite Z.div_small, dec_small, digit_char by lia.
      split; [destruct space; reflexivity|tauto].
    + assert (0 < v / 10) by (apply Z.div_str_pos; lia).
      destruct (IH (v / 10) (u8 (48 + v) :: acc)) as (p & E1 & Hp).
      { split; [lia|]. apply Z.div_lt_upper_bound; lia. }
      exists (p ++ [u8 (48 + v)]). rewrite E1, <- app_assoc. split; [reflexivity|].
      rewrite (dec_div v) by lia. split; [|lia]. intros [Ep Ed]%app_inj_tail.
      apply Hp in Ep. pose proof (Z.div_mod v 10 ltac:(lia)).
      pose proof (Z.mod_pos_bound v 10 ltac:(lia)).
      rewrite wrapu_id in Ed by (unfold in_u; lia). lia.
Qed.

Lemma is_digit_neg c : ((c <? 48) || (57 <? c)) = negb (is_digit c).
Proof. unfold is_digit. rewrite negb_andb, <- !Z.ltb_antisym. reflexivity. Qed.

Lemma all_digits_spec str : all_digits str = forallb is_digit str.
Proof.
  induction str as [|c str IH]; simpl; [reflexivity|].
  rewrite is_digit_neg, IH. now destruct (is_digit c).
Qed.

Lemma index_loop_spec maxLimit str number :
  9 <= maxLimit < 2 ^ 64 -> 0 <= number <= maxLimit ->
  index_loop str maxLimit number =
    if forallb is_digit str then Z.min maxLimit (fold_left dec_step str number) else maxLimit.
Proof.
  intros HM. revert number. induction str as [|c str IH]; intros number Hn; simpl; [lia|].
  rewrite is_digit_neg. destruct (is_digit c) eqn:Ec; simpl; [|reflexivity].
  apply is_digit_range in Ec.
  rewrite (wrapu_id 64 (maxLimit - (c - 48))) by (unfold in_u; lia).
  assert (dec_step number c = number * 10 + (c - 48)) as Es by (unfold dec_step; lia).
  destruct ((maxLimit - (c - 48)) / 10 <? number) eqn:Eo; Zbool.
  - destruct (forallb is_digit str) eqn:Ed; [|reflexivity].
    assert (maxLimit < dec_step number c).
    { rewrite Es. pose proof (Z.div_mod (maxLimit - (c - 48)) 10 ltac:(lia)).
      pose proof (Z.mod_pos_bound (maxLimit - (c - 48)) 10 ltac:(lia)). lia. }
    assert (maxLimit <= fold_left dec_step str (dec_step number c))
      by (apply dec_step_mono; [lia|assumption|lia]). lia.
  - assert (number * 10 + (c - 48) <= maxLimit).
    { pose proof (Z.mul_div_le (maxLimit - (c - 48)) 10 ltac:(lia)). lia. }
    rewrite wrapu_id by (unfold in_u; lia). rewrite IH, Es by lia. reflexivity.
Qed.

Lemma convertToIndexNumber_spec maxLimit str :
  9 <= maxLimit < 2 ^ 64 ->
  convertToIndexNumber str maxLimit =
    if canonical str then Z.min maxLimit (dec_value str) else maxLimit.
Proof.
  intros HM. unfold convertToIndexNumber, canonical. destruct str as [|c str].
  - reflexivity.
  - rewrite index_loop_spec by lia. fold (dec_value (c :: str)).
    destruct str as [|c' str]; [cbn [length Nat.ltb Nat.leb andb]; now rewrite andb_true_r|].
    cbn [length Nat.ltb Nat.leb andb]. destruct (c =? 48); cbn [negb].
    + now rewrite andb_false_r.
    + now rewrite andb_true_r.
Qed.

Lemma isIndexString_cons c str : isIndexString (c :: str) = Some (canonical (c :: str)).
Proof.
  unfold isIndexString, canonical.
  cbn [lookup list_lookup mbind option_bind drop]. rewrite drop_0, all_digits_spec.
  rewrite is_digit_neg, negb_involutive.
  destruct str as [|c' str]; cbn [length Nat.eqb forallb]; [now rewrite !andb_true_r|].
  assert (((c <? 49) || (57 <? c)) = negb (is_digit c && negb (c =? 48))) as ->.
  { apply eq_true_iff_eq. unfold is_digit.
    rewrite orb_true_iff, negb_true_iff, !andb_false_iff, negb_false_iff, !Z.ltb_lt, Z.eqb_eq, !Z.leb_gt. lia. }
  destruct (is_digit c); cbn [andb negb]; [|reflexivity].
  destruct (c =? 48); cbn [negb]; [now rewrite andb_false_r|now rewrite andb_true_r].
Qed.


Lemma convertToIndexNumber_iff maxLimit str n :
  9 <= maxLimit < 2 ^ 64 -> 0 <= n < maxLimit ->
  convertToIndexNumber str maxLimit = n <-> str = dec n.
Proof.
  intros HM Hn. rewrite convertToIndexNumber_spec by assumption. split.
  - destruct (canonical str) eqn:E; [|lia]. intros H.
    rewrite <- (canonical_dec str E). f_equal. lia.
  - intros ->. rewrite dec_canonical, dec_value_dec by lia. lia.
Qed.

Lemma isUint32Only_spec v : in_u 32 v -> isUint32Only v = (2 ^ 31 <=? v).
Proof.
  unfold isUint32Only, in_u. intros H.
  rewrite (land_high_mask 32 31 0x80000000) by (unfold in_u; lia).
  destruct (2 ^ 31 <=? v) eqn:E; Zbool.
  - rewrite negb_true_iff, Z.eqb_neq. div_bounds. nia.
  - rewrite Z.mod_small, Z.sub_diag by lia. reflexivity.
Qed.

(** [decimalDigitLengthOf] and [writeInt32Digits]. *)
Lemma digit_count_loop_spec fuel v digits :
  0 <= v < 10 ^ (1 + Z.of_nat fuel) -> 0 <= digits -> digits + Z.of_nat fuel < 2 ^ 8 ->
  digit_count_loop fuel v digits = digits + Z.of_nat (length (dec v)) - 1.
Proof.
  revert v digits. induction fuel as [|fuel IH]; intros v digits Hv H0 Hd; simpl digit_count_loop.
  - simpl in Hv. rewrite dec_small by lia. simpl. lia.
  - destruct (10 <=? v) eqn:E; Zbool; [|rewrite dec_small by lia; simpl; lia].
    rewrite Nat2Z.inj_succ in Hv, Hd.
    replace (1 + Z.succ (Z.of_nat fuel)) with (Z.succ (1 + Z.of_nat fuel)) in Hv by lia.
    rewrite Z.pow_succ_r in Hv by lia.
    rewrite wrapu_id by (unfold in_u; lia). rewrite IH.
    + rewrite (dec_div v), length_app by lia. simpl. lia.
    + split; [apply Z.div_pos; lia|apply Z.div_lt_upper_bound; lia].
    + lia.
    + lia.
Qed.

Lemma int_dec_length v : in_s 32 v -> (length (int_dec v) <= 11)%nat.
Proof.
  unfold in_s. intros H. rewrite int_dec_abs, length_app.
  pose proof (dec_length (Z.abs v) 10 ltac:(lia) ltac:(lia)). destruct (v <? 0); simpl; lia.
Qed.

Lemma decimalDigitLengthOf_spec v : in_s 32 v ->
  decimalDigitLengthOf v = Z.of_nat (length (int_dec v)).
Proof.
  intros H. pose proof (int_dec_length v H) as L. rewrite int_dec_abs, length_app in *.
  unfold decimalDigitLengthOf. rewrite abs_u32 by assumption. unfold in_s in H.
  rewrite digit_count_loop_spec by lia.
  rewrite wrapu_id; [|unfold in_u]; destruct (v <? 0); simpl length in *; lia.
Qed.

(** [buf] with [data] stored at [pos]. *)
Definition blit (buf : list Z) (pos : nat) (data : list Z) : list Z :=
  take pos buf ++ data ++ drop (pos + length data) buf.

Lemma blit_length buf pos data : (pos + length data <= length buf)%nat ->
  length (blit buf pos data) = length buf.
Proof. intros H. unfold blit. rewrite !length_app, length_take, length_drop. lia. Qed.

Lemma blit_insert buf pos data x : (pos + length data < length buf)%nat ->
  blit (<[(pos + length data)%nat := x]> buf) pos data = blit buf pos (data ++ [x]).
Proof.
  intros H. unfold blit. rewrite take_insert_ge by lia. f_equal.
  rewrite <- app_assoc. f_equal. rewrite length_app. simpl.
  rewrite insert_take_drop, drop_app_length' by (rewrite ?length_take; lia).
  simpl. do 2 f_equal. lia.
Qed.

Lemma blit_insert_front buf pos data x : (S pos + length data <= length buf)%nat ->
  <[pos := x]> (blit buf (S pos) data) = blit buf pos (x :: data).
Proof.
  intros H. unfold blit. rewrite insert_app_l by (rewrite length_take; lia).
  rewrite insert_take_drop by (rewrite length_take; lia).
  rewrite take_take, Nat.min_l by lia.
  rewrite (drop_ge (take (S pos) buf)) by (rewrite length_take; lia).
  rewrite <- app_assoc. simpl. do 3 f_equal. simpl. do 1 f_equal. lia.
Qed.

Lemma blit_app buf pos a b : (pos + length a + length b <= length buf)%nat ->
  blit (blit buf pos a) (pos + length a) b = blit buf pos (a ++ b).
Proof.
  intros H. unfold blit. rewrite (app_assoc (take pos buf)), take_app_length'
    by (rewrite length_app, length_take; lia).
  rewrite <- !app_assoc. do 3 f_equal. rewrite length_app.
  rewrite app_assoc, drop_app, length_app, length_take.
  rewrite (drop_ge (take pos buf ++ a)) by (rewrite length_app, length_take; lia).
  simpl. rewrite drop_drop. f_equal. lia.
Qed.

Lemma storeZ_nat buf i x : (i < length buf)%nat ->
  storeZ buf (Z.of_nat i) x = Ok (<[i := x]> buf).
Proof.
  intros H. unfold storeZ. rewrite Nat2Z.id.
  destruct ((0 <=? Z.of_nat i) && (Z.of_nat i <? Z.of_nat (length buf))) eqn:E; [reflexivity|].
  apply andb_false_iff in E as [E|E]; Zbool; lia.
Qed.

Lemma write_digits_loop_spec n : 0 <= n -> forall fuel buf pos,
  n < 10 ^ Z.of_nat fuel -> (0 < fuel)%nat -> (pos + length (dec n) <= length buf)%nat ->
  write_digits_loop fuel buf (Z.of_nat (pos + length (dec n))) n
  = Ok (blit buf pos (dec n), Z.of_nat pos).
Proof.
  intros Hn0; pattern n; apply dec_ind; [intros m Hn|intros m d Hn Hd IH|exact Hn0]; clear n Hn0;
    intros [|fuel] buf pos Hf Pf L; try lia; cbn [write_digits_loop].
  - rewrite dec_small in * by lia. simpl length in *.
    replace (Z.of_nat (pos + 1) - 1) with (Z.of_nat pos) by lia.
    rewrite storeZ_nat by lia. cbn [mbind result_bind].
    rewrite Z.div_small, Z.mod_small by lia. cbn [Z.eqb negb].
    unfold blit. rewrite insert_take_drop by lia. simpl. now rewrite Nat.add_1_r.
  - rewrite dec_snoc, length_app in * by lia. simpl length in *.
    replace (Z.of_nat (pos + (length (dec m) + 1)) - 1) with (Z.of_nat (pos + length (dec m))) by lia.
    rewrite storeZ_nat by lia. cbn [mbind result_bind].
    rewrite (Z.mul_comm 10 m), Z.div_add_l, Z.div_small, Z.add_0_r by lia.
    rewrite (Z.add_comm (m * 10)), Z.mod_add, Z.mod_small by lia.
    destruct (m =? 0) eqn:E; Zbool; [lia|]. cbn [negb].
    rewrite Nat2Z.inj_succ, Z.pow_succ_r in Hf by lia.
    rewrite IH; [|lia|destruct fuel; [simpl in Hf; lia|lia]|rewrite length_insert; lia].
    now rewrite blit_insert by lia.
Qed.

(** The digits land exactly in the space [decimalDigitLengthOf] announced. *)
Lemma writeInt32Digits_spec buf pos v :
  in_s 32 v -> (pos + length (int_dec v) <= length buf)%nat ->
  writeInt32Digits buf (Z.of_nat pos) (decimalDigitLengthOf v) v = Ok (blit buf pos (int_dec v)).
Proof.
  intros H L. unfold writeInt32Digits.
  rewrite decimalDigitLengthOf_spec, abs_u32 by assumption. unfold in_s in H.
  rewrite <- Nat2Z.inj_add. rewrite int_dec_abs, length_app in *.
  destruct (v <? 0); simpl length in *.
  - replace (pos + (1 + length (dec (Z.abs v))))%nat with (S pos + length (dec (Z.abs v)))%nat by lia.
    rewrite write_digits_loop_spec by lia. cbn [mbind result_bind].
    replace (Z.of_nat (S pos) - 1) with (Z.of_nat pos) by lia.
    rewrite storeZ_nat by (rewrite blit_length; lia).
    now rewrite blit_insert_front by lia.
  - change (0 + length (dec (Z.abs v)))%nat with (length (dec (Z.abs v))).
    rewrite write_digits_loop_spec by lia. reflexivity.
Qed.

End DecimalFacts.

(** * Number::toString

    The layout of ECMA-262 6.1.6.1.20 for the digits [ds] of s and the position
    [n] of the decimal point: the value is 0.ds times 10 to the [n]. *)
Module NumberToString.
Import Dtoa.

Definition exponent_part (e : Z) : list Z :=
  101 :: (if e <? 0 then 45 else 43) :: dec (Z.abs e).
Definition number_to_string (ds : list Z) (n : Z) : list Z :=
  let k := Z.of_nat (length ds) in
  if (k <=? n) && (n <=? 21) then ds ++ zeros (n - k)
  else if (0 <? n) && (n <=? 21) then take (Z.to_nat n) ds ++ 46 :: drop (Z.to_nat n) ds
  else if (-6 <? n) && (n <=? 0) then 48 :: 46 :: zeros (- n) ++ ds
  else if k =? 1 then ds ++ exponent_part (n - 1)
  else take 1 ds ++ 46 :: drop 1 ds ++ exponent_part (n - 1).

Lemma zeros_nonpos n : n <= 0 -> zeros n = [].
Proof. intros. unfold zeros. now replace (Z.to_nat n) with 0%nat by lia. Qed.

Lemma take_all (l : list Z) n : n = Z.of_nat (length l) -> take (Z.to_nat n) l = l.
Proof. intros ->. rewrite Nat2Z.id. apply take_ge. lia. Qed.

Lemma CreateDecimalRepresentation_spec ds n :
  ds <> [] -> -6 < n <= 21 ->
  CreateDecimalRepresentation (Z.lor UNIQUE_ZERO EMIT_POSITIVE_EXPONENT_SIGN) ds
    (Z.of_nat (length ds)) n (Z.max 0 (Z.of_nat (length ds) - n)) = number_to_string ds n.
Proof.
  intros Hds Hn. assert (0 < Z.of_nat (length ds)) by (destruct ds; [congruence|simpl; lia]).
  unfold CreateDecimalRepresentation, number_to_string.
  set (k := Z.of_nat (length ds)) in *.
  change (has_flag _ EMIT_TRAILING_DECIMAL_POINT) with false.
  change (has_flag _ EMIT_TRAILING_ZERO_AFTER_POINT) with false. cbn [app].
  replace (if Z.max 0 (k - n) =? 0 then [] else []) with (@nil Z) by now destruct (_ =? 0).
  rewrite app_nil_r.
  destruct (n <=? 0) eqn:E1; Zbool.
  - rewrite Z.max_r by lia.
    destruct (0 <? k - n) eqn:E2; Zbool; [|lia].
    destruct ((k <=? n) && (n <=? 21)) eqn:E3; Zbool; [lia|].
    destruct ((0 <? n) && (n <=? 21)) eqn:E4; Zbool; [lia|].
    destruct ((-6 <? n) && true) eqn:E5; [|apply andb_false_iff in E5 as [E5|E5]; Zbool; [lia|discriminate]].
    rewrite take_all, (zeros_nonpos (k - n - - n - k)), app_nil_r by (subst k; lia). reflexivity.
  - destruct (k <=? n) eqn:E2; Zbool.
    + rewrite Z.max_l by lia. cbn [Z.ltb Z.compare]. rewrite app_nil_r, take_all by reflexivity.
      destruct (n <=? 21) eqn:E3; Zbool; [reflexivity|lia].
    + destruct (0 <? n) eqn:E4; Zbool; [|lia]. destruct (n <=? 21) eqn:E3; Zbool; [|lia].
      cbn [andb]. f_equal. f_equal. rewrite zeros_nonpos, app_nil_r by lia.
      apply take_ge. rewrite length_drop. lia.
Qed.

Lemma CreateExponentialRepresentation_spec ds n :
  ds <> [] -> n <= -6 \/ 21 < n -> -10000 <= n <= 10000 ->
  CreateExponentialRepresentation (Z.lor UNIQUE_ZERO EMIT_POSITIVE_EXPONENT_SIGN) ds
    (Z.of_nat (length ds)) (n - 1) = Ok (number_to_string ds n).
Proof.
  intros Hds Hn Hr. destruct ds as [|d ds]; [congruence|]. clear Hds.
  unfold CreateExponentialRepresentation, number_to_string.
  set (k := Z.of_nat (length (d :: ds))).
  cbn [lookup list_lookup defined mbind result_bind drop take].
  change (has_flag _ EMIT_POSITIVE_EXPONENT_SIGN) with true. cbn [app].
  assert (((k <=? n) && (n <=? 21)) = false) as ->
    by (apply andb_false_iff; rewrite !Z.leb_gt; unfold k; simpl length; lia).
  assert (((0 <? n) && (n <=? 21)) = false) as ->
    by (apply andb_false_iff; rewrite Z.ltb_ge, Z.leb_gt; lia).
  assert (((-6 <? n) && (n <=? 0)) = false) as ->
    by (apply andb_false_iff; rewrite Z.ltb_ge, Z.leb_gt; lia).
  unfold exponent_part.
  assert (forall e, 0 < e < 10 ^ Z.of_nat 5 -> Decimal.itoa_loop 5 e [] = Ok (dec e)) as Hi.
  { intros e He. rewrite DecimalFacts.itoa_loop_spec, app_nil_r by lia.
    destruct (e =? 0) eqn:E; Zbool; [lia|reflexivity]. }
  assert (take (Z.to_nat (k - 1)) ds = ds) as Ht by (apply take_ge; unfold k; simpl; lia).
  destruct (n - 1 <? 0) eqn:E; Zbool.
  - destruct (- (n - 1) =? 0) eqn:E0; Zbool; [lia|].
    rewrite Hi, Z.abs_neq by lia. cbn [mbind result_bind].
    destruct (k =? 1) eqn:E1; Zbool; cbn [negb app].
    + destruct ds; [reflexivity|unfold k in E1; simpl in E1; lia].
    + rewrite drop_0, Ht. now rewrite <- !app_assoc.
  - destruct (n - 1 =? 0) eqn:E0; Zbool; [lia|].
    rewrite Hi, Z.abs_eq by lia. cbn [mbind result_bind].
    destruct (k =? 1) eqn:E1; Zbool; cbn [negb app].
    + destruct ds; [reflexivity|unfold k in E1; simpl in E1; lia].
    + rewrite drop_0, Ht. now rewrite <- !app_assoc.
Qed.

Lemma is_finite_fabs d : is_finite d = true -> is_finite (fabs d) = true.
Proof. unfold is_finite. now rewrite (proj1 (fabs_facts d)). Qed.

(** The sign test of [dtoa]. *)
Lemma dtoa_sign d : in_u 64 d -> is_finite d = true -> feq d 0 = false ->
  flt d 0 = sign_bit d /\ (if sign_bit d then neg d else d) = fabs d /\ flt 0 (fabs d) = true.
Proof.
  intros Hd Hf. pose proof (is_finite_nan d Hf) as Hn.
  pose proof (is_finite_nan _ (is_finite_fabs d Hf)) as Hn'.
  pose proof (pattern_split d Hd) as Hp. pose proof (mag_range d) as Hm.
  destruct (fabs_facts d) as [F1 F2].
  unfold feq, flt. rewrite Hn, Hn'. change (is_nan 0) with false. cbn [negb andb].
  change (key 0) with 0. unfold key at 3. rewrite F1, F2. unfold key, neg, fabs.
  destruct (sign_bit d); intros E; Zbool; split_and!; try apply Z.ltb_lt; try apply Z.ltb_ge; lia.
Qed.

End NumberToString.

(** * Properties *)
Module NumberStringProps.
Import Decimal DecimalFacts Dtoa NumberToString.

(** C28: index strings and numbers correspond: an index below the limit is read
    from exactly one string, its canonical numeral, so "01", "1.0" and "" are
    never indices, and an index printed by [fromInt32] is read back. *)
Theorem index_string_roundtrip str n :
  (0 <= n < InvalidIndex32Value -> (tryToUseAsIndex32 str = n <-> str = dec n)) /\
  (0 <= n < InvalidIndexValue -> (tryToUseAsIndex str = n <-> str = dec n)) /\
  (0 <= n < 2 ^ 31 -> exists s, fromInt32 n = Ok s /\ tryToUseAsIndex32 s = n).
Proof.
  unfold tryToUseAsIndex32, tryToUseAsIndex, InvalidIndex32Value, InvalidIndexValue.
  assert (in_u 32 (convertToIndexNumber str (2 ^ 32 - 1))) as R.
  { rewrite convertToIndexNumber_spec by lia. unfold in_u.
    destruct (canonical str) eqn:E; [|lia].
    apply andb_prop in E as [E _]. pose proof (dec_value_nonneg str E). lia. }
  split_and!.
  - intros H. rewrite wrapu_id by assumption. apply convertToIndexNumber_iff; lia.
  - intros H. apply convertToIndexNumber_iff; lia.
  - intros H. exists (dec n). rewrite fromInt32_spec by (unfold in_s; lia). split.
    + unfold int_dec. destruct (n <? 0) eqn:E; Zbool; [lia|reflexivity].
    + assert (convertToIndexNumber (dec n) (2 ^ 32 - 1) = n) as ->
        by (apply convertToIndexNumber_iff; [lia|lia|reflexivity]).
      apply wrapu_id. unfold in_u. lia.
Qed.

Lemma index_string_roundtrip_witness :
  (tryToUseAsIndex32 [49; 48] = 10 <-> [49; 48] = dec 10) /\
  (tryToUseAsIndex [49; 48] = 10 <-> [49; 48] = dec 10) /\
  exists s, fromInt32 10 = Ok s /\ tryToUseAsIndex32 s = 10.
Proof.
  destruct (index_string_roundtrip [49; 48] 10) as (H1 & H2 & H3).
  split_and!; [apply H1|apply H2|apply H3]; unfold InvalidIndex32Value, InvalidIndexValue; lia.
Defined.

(** [isIndexString] accepts exactly the canonical numerals (with no limit
    on their value), and reads outside the string when it is empty. *)
Theorem isIndexString_correct str :
  isIndexString str = match str with [] => None | _ => Some (canonical str) end.
Proof. destruct str; [reflexivity|]. now rewrite isIndexString_cons. Qed.

(** The integer printers agree on every 32-bit integer: [fromInt32] and the
    digits the string builder writes lazily are both the decimal
    representation, inside the bounds of their buffers. *)
Theorem int32_printers_agree v buf pos :
  in_s 32 v -> (pos + length (int_dec v) <= length buf)%nat ->
  fromInt32 v = Ok (int_dec v) /\
  decimalDigitLengthOf v = Z.of_nat (length (int_dec v)) /\
  writeInt32Digits buf (Z.of_nat pos) (decimalDigitLengthOf v) v = Ok (blit buf pos (int_dec v)).
Proof.
  intros H L. split_and!.
  - now apply fromInt32_spec.
  - now apply decimalDigitLengthOf_spec.
  - now apply writeInt32Digits_spec.
Qed.

Lemma int32_printers_agree_witness :
  fromInt32 (-12) = Ok (int_dec (-12)) /\
  decimalDigitLengthOf (-12) = Z.of_nat (length (int_dec (-12))) /\
  writeInt32Digits [0; 0; 0; 0] (Z.of_nat 1) (decimalDigitLengthOf (-12)) (-12)
  = Ok (blit [0; 0; 0; 0] 1 (int_dec (-12))).
Proof. apply int32_printers_agree; [unfold in_s; lia|vm_compute; lia]. Defined.

(** [fromUint32] prints a number correctly exactly when it has one digit:
    its loop stores ['0' + v] instead of the last digit of [v]. The overload
    with a state takes the [int32] path below 2^31 and is right exactly there. *)
Theorem fromUint32_correct_iff v :
  in_u 32 v ->
  (fromUint32 v = Ok (dec v) <-> v < 10) /\
  (fromUint32_state v = Ok (dec v) <-> v < 2 ^ 31).
Proof.
  unfold in_u. intros H.
  assert (fromUint32 v = Ok (dec v) <-> v < 10) as H1.
  { unfold fromUint32. destruct (v =? 0) eqn:E; Zbool; [subst; split; [lia|reflexivity]|].
    destruct (utoa_loop_wrong 11 v [] ltac:(lia)) as (p & -> & Hp). rewrite app_nil_r, <- Hp.
    split; congruence. }
  split; [assumption|]. unfold fromUint32_state. rewrite isUint32Only_spec by assumption.
  destruct (2 ^ 31 <=? v) eqn:E; Zbool; [rewrite H1; lia|].
  rewrite wraps_id, fromInt32_spec by (unfold in_s; lia).
  unfold int_dec. destruct (v <? 0) eqn:E0; Zbool; [lia|]. tauto.
Qed.

Lemma fromUint32_correct_iff_witness :
  (fromUint32 (2 ^ 31) = Ok (dec (2 ^ 31)) <-> 2 ^ 31 < 10) /\
  (fromUint32_state (2 ^ 31) = Ok (dec (2 ^ 31)) <-> 2 ^ 31 < 2 ^ 31).
Proof. apply fromUint32_correct_iff. unfold in_u. lia. Defined.

(** For every finite double, [dtoa] lays out the digits the digit generator
    returns the way Number::toString prescribes: zero is "0", a negative number
    gets a sign, and the decimal and exponential forms change at 10^-7 and
    10^21. The result fits the 128-byte buffer. *)
Theorem dtoa_correct shortest number :
  in_u 64 number -> is_finite number = true ->
  (forall m, is_finite m = true -> flt 0 m = true ->
     fst (shortest m) <> [] /\ Z.of_nat (length (fst (shortest m))) <= 17 /\
     -400 <= snd (shortest m) <= 400) ->
  dtoa shortest number =
    Ok (if feq number 0 then [48]
        else let m := fabs number in
             (if sign_bit number then [45] else [])
             ++ number_to_string (fst (shortest m)) (snd (shortest m))).
Proof.
  intros Hu Hf Hs. unfold dtoa. destruct (feq number 0) eqn:Ez; [reflexivity|].
  destruct (dtoa_sign number Hu Hf Ez) as (Hsign & Hneg & Hpos).
  rewrite Hsign, Hneg.
  assert (is_finite (fabs number) = true) as Hfa by (now apply is_finite_fabs).
  destruct (Hs (fabs number) Hfa Hpos) as (Hne & Hlen & Hdp).
  destruct (shortest (fabs number)) as [ds dp]. cbn [fst snd] in *.
  destruct ((-6 <=? dp - 1) && (dp - 1 <? 21)) eqn:E.
  - apply andb_prop in E as [E1 E2]; Zbool.
    rewrite CreateDecimalRepresentation_spec by (assumption || lia).
    cbn [mbind result_bind]. now destruct (sign_bit number).
  - apply andb_false_iff in E.
    rewrite CreateExponentialRepresentation_spec.
    + cbn [mbind result_bind]. now destruct (sign_bit number).
    + assumption.
    + destruct E; Zbool; lia.
    + lia.
Qed.

Lemma dtoa_correct_witness :
  dtoa (fun _ => ([49; 53], 22)) (neg (of_Z (15 * 10 ^ 20))) =
    Ok (if feq (neg (of_Z (15 * 10 ^ 20))) 0 then [48]
        else let m := fabs (neg (of_Z (15 * 10 ^ 20))) in
             (if sign_bit (neg (of_Z (15 * 10 ^ 20))) then [45] else [])
             ++ number_to_string [49; 53] 22).
Proof.
  apply (dtoa_correct (fun _ => ([49; 53], 22))); [vm_compute; intuition congruence|vm_compute; reflexivity|].
  intros m _ _. split_and!; simpl; [discriminate|lia..].
Defined.

End NumberStringProps.
