(* ===== verification/DateText.v ===== *)
(** Dates as strings ([runtime/DateObject.cpp]): the formats of [toISOString],
    [toUTCString], [toDateString] and [toTimeString], and the two parsers behind
    [Date.parse].  Strings are lists of bytes; a pointer into a C string is the
    rest of it, whose end is the terminator. *)
From Stdlib Require Import ZArith Lia Bool String Ascii.
From stdpp Require Import base numbers list option decidable.
From S2P Require Import Prelude Unicode Double IsoCalendar EcmaDate NumberString.

(** * What the code uses of the C library *)
Module CText.
Import CharClass.

(** [strtol] to the base 10: spaces, a sign, digits; no digits, no progress. *)
Fixpoint skip_spaces (s : list Z) : list Z :=
  match s with
  | c :: r => if isspace c then skip_spaces r else s
  | [] => []
  end.
Fixpoint digit_span (s : list Z) : list Z * list Z :=
  match s with
  | c :: r => if is_digit c then let '(ds, rest) := digit_span r in (c :: ds, rest) else ([], s)
  | [] => ([], [])
  end.
Definition LONG_MIN : Z := - 2 ^ 63.
Definition LONG_MAX : Z := 2 ^ 63 - 1.
Definition sign_span (s : list Z) : bool * list Z :=
  match s with
  | c :: r => if c =? 45 then (true, r) else if c =? 43 then (false, r) else (false, s)
  | [] => (false, [])
  end.
Definition strtol (s : list Z) : Z * list Z :=
  let '(negative, digits) := sign_span (skip_spaces s) in
  match digit_span digits with
  | ([], _) => (0, s)
  | (ds, rest) => (Z.max LONG_MIN (Z.min LONG_MAX (if negative : bool then - dec_value ds else dec_value ds)), rest)
  end.

(** [*p], [p - q] and [p[k]]. *)
Definition peek (p : list Z) : Z := match p with c :: _ => c | [] => 0 end.
Definition distance (q p : list Z) : Z := Z.of_nat (length p) - Z.of_nat (length q).
Definition char_at (p : list Z) (k : nat) : result Z :=
  if (k =? length p)%nat then Ok 0 else defined (p !! k).

(** [%0wd] and [%+0wd] of [snprintf]. *)
Definition zero_padded (w : nat) (n : Z) : list Z := repeat 48 (w - length (dec n)) ++ dec n.
Definition format_0d (w : nat) (n : Z) : list Z :=
  if n <? 0 then 45 :: zero_padded (w - 1) (- n) else zero_padded w n.
Definition format_plus_0d (w : nat) (n : Z) : list Z :=
  (if n <? 0 then 45 else 43) :: zero_padded (w - 1) (Z.abs n).
(** The length that it returns is used for the string: what does not fit would
    be read behind the buffer. *)
Definition snprintf (size : nat) (s : list Z) : result (list Z) :=
  if (length s <? size)%nat then Ok s else Undefined.

(** The comparison of a prefix, without case, of [strncasecmp]. *)
Fixpoint has_prefix (name s : list Z) : bool :=
  match name, s with
  | [], _ => true
  | c :: name, x :: s => (tolower c =? tolower x) && has_prefix name s
  | _ :: _, [] => false
  end.
(** [strstr]: the position of the first occurrence. *)
Fixpoint is_prefix (needle s : list Z) : bool :=
  match needle, s with
  | [], _ => true
  | c :: needle, x :: s => (c =? x) && is_prefix needle s
  | _ :: _, [] => false
  end.
Fixpoint strstr (haystack needle : list Z) (position : Z) : option Z :=
  if is_prefix needle haystack then Some position
  else match haystack with [] => None | _ :: r => strstr r needle (position + 1) end.

End CText.

(** * The formats and the parsers *)
Module DateText.
Import CharClass Dates DateObjects CText.

Definition days : list (list Z) :=
  [[83; 117; 110]; [77; 111; 110]; [84; 117; 101]; [87; 101; 100]; [84; 104; 117]; [70; 114; 105]; [83; 97; 116]].
Definition months : list (list Z) :=
  [[74; 97; 110]; [70; 101; 98]; [77; 97; 114]; [65; 112; 114]; [77; 97; 121]; [74; 117; 110];
   [74; 117; 108]; [65; 117; 103]; [83; 101; 112]; [79; 99; 116]; [78; 111; 118]; [68; 101; 99]].
Definition invalidDate : list Z := [73; 110; 118; 97; 108; 105; 100; 32; 68; 97; 116; 101].

Definition known_zones : list (list Z * Z) :=
  [([85; 84], 0); ([71; 77; 84], 0); ([69; 83; 84], -300); ([69; 68; 84], -240); ([67; 83; 84], -360);
   ([67; 68; 84], -300); ([77; 83; 84], -420); ([77; 68; 84], -360); ([80; 83; 84], -480); ([80; 68; 84], -420)].

Definition haystack : list Z := List.concat (map (map tolower) months).
Definition findMonth (monthStr : list Z) : Z :=
  match monthStr with
  | a :: b :: c :: _ =>
      match strstr haystack (map (fun x => Z.lor x 32) [a; b; c]) 0 with
      | Some position => if Z.rem position 3 =? 0 then Z.quot position 3 else -1
      | None => -1
      end
  | _ => -1
  end.

Definition isASCIISpace (c : Z) : bool := (c =? 32) || ((9 <=? c) && (c <=? 13)).

Fixpoint skip_nested (nesting : Z) (s : list Z) : list Z :=
  match s with
  | [] => []
  | ch :: r =>
      if isASCIISpace ch then skip_nested nesting r
      else if ch =? 40 then skip_nested (nesting + 1) r
      else if (ch =? 41) && (0 <? nesting) then skip_nested (nesting - 1) r
      else if nesting =? 0 then s
      else skip_nested nesting r
  end.
Definition skipSpacesAndComments : list Z -> list Z := skip_nested 0.

(** The result, whether it is one, and where the number ends. *)
Definition parseInt (string : list Z) : bool * Z * list Z :=
  let '(longResult, stop) := strtol string in
  if (distance string stop =? 0) || (longResult <=? - 2 ^ 31) || (2 ^ 31 - 1 <=? longResult) then (false, 0, stop)
  else (true, longResult, stop).
Definition parseLong (string : list Z) : bool * Z * list Z :=
  let '(r, stop) := strtol string in
  (negb ((distance string stop =? 0) || (r =? LONG_MIN) || (r =? LONG_MAX)), r, stop).
(** The value of the first three characters only, with the end of all digits. *)
Fixpoint until_nul (s : list Z) : list Z :=
  match s with c :: r => if c =? 0 then [] else c :: until_nul r | [] => [] end.
Definition parseLong_3 (string : list Z) : result (bool * Z * list Z) :=
  let '(_, stop) := strtol string in
  a ← char_at string 0; b ← char_at string 1; c ← char_at string 2;
  let '(r, _) := strtol (until_nul [a; b; c]) in
  Ok (negb ((distance string stop =? 0) || (r =? LONG_MIN) || (r =? LONG_MAX)), r, stop).

(** ** The parser of ISO 8601 *)

(** Two digits: the pattern of every field but the year. *)
Definition two_digits (currentPosition : list Z) : option (Z * list Z) :=
  if negb (isASCIIDigit (peek currentPosition)) then None
  else
    let '(ok, r, post) := parseLong currentPosition in
    if negb ok then None else if negb (distance post currentPosition =? 2) then None else Some (r, post).

Definition parseES5DatePortion (currentPosition : list Z) (month day : Z) : option (list Z * Z * Z * Z) :=
  let minusFirst := peek currentPosition =? 45 in
  let '(ok, year, post) := parseInt currentPosition in
  if negb ok then None
  else if minusFirst && (year =? 0) then None
  else if negb (peek post =? 45) then Some (post, year, month, day)
  else
    '(month, post) ← two_digits (tail post);
    if negb (peek post =? 45) then Some (post, year, month, day)
    else '(day, post) ← two_digits (tail post); Some (post, year, month, day).

(** The offset of a zone: hours and minutes with a colon or without. *)
Definition parse_offset (currentPosition : list Z) : option (Z * Z * list Z) :=
  if negb (isASCIIDigit (peek currentPosition)) then None
  else
    let '(ok, tzHours, post) := parseLong currentPosition in
    if negb ok then None
    else if distance post currentPosition =? 4 then Some (Z.abs (Z.quot tzHours 100), Z.rem tzHours 100, post)
    else if distance post currentPosition =? 2 then
      if negb (peek post =? 58) then None
      else '(tzMinutes, post) ← two_digits (tail post); Some (Z.abs tzHours, tzMinutes, post)
    else None.

(** The seconds and their fraction, in milliseconds. *)
Definition parse_seconds (currentPosition : list Z) : result (option (Z * list Z)) :=
  if negb (peek currentPosition =? 58) then Ok (Some (0, currentPosition))
  else
    match two_digits (tail currentPosition) with
    | None => Ok None
    | Some (intSeconds, post) =>
        let milliSeconds := intSeconds * MsPerSecond in
        if negb (peek post =? 46) then Ok (Some (milliSeconds, post))
        else
          let currentPosition := tail post in
          if negb (isASCIIDigit (peek currentPosition)) then Ok None
          else
            '(ok, fracSeconds, post) ← parseLong_3 currentPosition;
            if negb ok then Ok None
            else
              let numFracDigits := Z.min (distance post currentPosition) 3 in
              milliSeconds ← cast_int64
                (fadd (of_Z milliSeconds) (fmul (of_Z fracSeconds) (of_Z (10 ^ (3 - numFracDigits)))));
              Ok (Some (milliSeconds, post))
    end.

(** The hours, minutes, milliseconds, seconds of the zone, whether there is
    one, and the end. *)
Definition parseES5TimePortion (currentPosition : list Z) : result (option (Z * Z * Z * Z * bool * list Z)) :=
  match two_digits currentPosition with
  | None => Ok None
  | Some (hours, post) =>
      if negb (peek post =? 58) then Ok None
      else
        match two_digits (tail post) with
        | None => Ok None
        | Some (minutes, post) =>
            seconds ← parse_seconds post;
            match seconds with
            | None => Ok None
            | Some (milliSeconds, p) =>
                if peek p =? 90 then Ok (Some (hours, minutes, milliSeconds, 0, true, tail p))
                else if (peek p =? 45) || (peek p =? 43) then
                  match parse_offset (tail p) with
                  | None => Ok None
                  | Some (tzHoursAbs, tzMinutes, post) =>
                      if 24 <? tzHoursAbs then Ok None
                      else if (tzMinutes <? 0) || (59 <? tzMinutes) then Ok None
                      else
                        let timeZoneSeconds := 60 * (tzMinutes + 60 * tzHoursAbs) in
                        Ok (Some (hours, minutes, milliSeconds,
                                  if peek p =? 45 then - timeZoneSeconds else timeZoneSeconds, true, post))
                  end
                else Ok (Some (hours, minutes, milliSeconds, 0, false, p))
            end
        end
  end.

Definition DaysPerMonth : list Z := [31; 29; 31; 30; 31; 30; 31; 31; 30; 31; 30; 31].

(** The checks of the fields at the end. *)
Definition fields_checked (year month day hours minutes milliSeconds : Z) : result bool :=
  if (month <? 1) || (12 <? month) then Ok false
  else
    limit ← defined (lookupZ DaysPerMonth (month - 1));
    Ok (negb ((day <? 1) || (limit <? day)) &&
        negb ((month =? 2) && (28 <? day) && negb (Dates.daysInYear year =? 366)) &&
        negb ((hours <? 0) || (24 <? hours)) &&
        negb ((hours =? 24) && (negb (minutes =? 0) || negb (milliSeconds =? 0))) &&
        negb ((minutes <? 0) || (59 <? minutes)) &&
        negb ((milliSeconds <? 0) || (MsPerMinute + MsPerSecond <=? milliSeconds))).

(** The time of the fields, where they are in their ranges. *)
Definition date_of_fields (year month day hours minutes milliSeconds timeZoneSeconds : Z) : result Z :=
  ok ← fields_checked year month day hours minutes milliSeconds;
  if negb ok then Ok TIME64NAN
  else
    let milliSeconds := if MsPerMinute <? milliSeconds then MsPerMinute else milliSeconds in
    t ← timeinfoToMs year (month - 1) day hours minutes (Z.quot milliSeconds MsPerSecond) (Z.rem milliSeconds MsPerSecond);
    int64 (t - timeZoneSeconds * MsPerSecond).

(** The time, and whether the string had a zone. *)
Definition parseStringToDate_2 (dateString : list Z) : result (Z * bool) :=
  match parseES5DatePortion dateString 1 1 with
  | None => Ok (TIME64NAN, true)
  | Some (currentPosition, year, month, day) =>
      portion ← (if peek currentPosition =? 84 then parseES5TimePortion (tail currentPosition)
                 else Ok (Some (0, 0, 0, 0, true, currentPosition)));
      match portion with
      | None => Ok (TIME64NAN, false)
      | Some (hours, minutes, milliSeconds, timeZoneSeconds, haveTZ, currentPosition) =>
          match skip_spaces currentPosition with
          | _ :: _ => Ok (TIME64NAN, haveTZ)
          | [] =>
              date ← date_of_fields year month day hours minutes milliSeconds timeZoneSeconds; Ok (date, haveTZ)
          end
      end
  end.

(** ** The parser of other formats *)

(** The words before the first number: the last one may be a month.  A word
    ends at a space or a comment. *)
Fixpoint words (fuel : nat) (wordStart dateString : list Z) (month : Z) : result (Z * list Z * list Z) :=
  match fuel with
  | O => Undefined
  | S fuel =>
      if (peek dateString =? 0) || isASCIIDigit (peek dateString) then Ok (month, wordStart, dateString)
      else if isASCIISpace (peek dateString) || (peek dateString =? 40) then
        let month := if 3 <=? distance dateString wordStart then findMonth wordStart else month in
        let dateString := skipSpacesAndComments dateString in
        words fuel dateString dateString month
      else words fuel wordStart (tail dateString) month
  end.

(** The three parts return nothing where they give up. *)
Fixpoint skip_month_name (s : list Z) : list Z :=
  match s with
  | c :: r => if (c =? 45) || (c =? 44) || isASCIISpace c then s else skip_month_name r
  | [] => []
  end.
Definition skip_if (c : Z) (s : list Z) : list Z := if peek s =? c then tail s else s.

(** The date: [YYYY/MM/DD], [MM/DD/YYYY], or a day with the name of a month. *)
Definition date_1_1 (day month : Z) (dateString newPosStr : list Z) : option (Z * Z * Z * list Z * list Z) :=
  if 31 <? day then
    if negb (peek dateString =? 47) then None
    else
      let dateString := tail dateString in
      if peek dateString =? 0 then None
      else if (day <=? - 2 ^ 31) || (2 ^ 31 - 1 <=? day) then None
      else
        let year := day in
        let '(ok, month, post) := parseLong dateString in
        if negb ok then None
        else
          let month := month - 1 in
          if negb (peek post =? 47) || (peek (tail post) =? 0) then None
          else
            let '(ok, day, post) := parseLong (tail post) in
            if negb ok then None else Some (day, month, year, post, post)
  else if (peek dateString =? 47) && (month =? -1) then
    let month := day - 1 in
    let '(ok, day, post) := parseLong (tail dateString) in
    if negb ok then None
    else if (day <? 1) || (31 <? day) then None
    else
      let dateString := skip_if 47 post in
      if peek dateString =? 0 then None else Some (day, month, 0, dateString, post)
  else
    let dateString := skip_if 44 (skipSpacesAndComments (skip_if 45 dateString)) in
    if month =? -1 then
      let month := findMonth dateString in
      if month =? -1 then None
      else
        let dateString := skip_month_name dateString in
        if peek dateString =? 0 then None else Some (day, month, 0, tail dateString, newPosStr)
    else Some (day, month, 0, dateString, newPosStr).

Definition parseStringToDate_1_1 (day month : Z) (dateString newPosStr : list Z)
  : option (Z * Z * Z * list Z * list Z) :=
  '(day, month, year, dateString, newPosStr) ← date_1_1 day month dateString newPosStr;
  if (month <? 0) || (11 <? month) then None
  else if (year <=? 0) && negb (peek dateString =? 0) then
    let '(ok, year, post) := parseInt dateString in
    if negb ok then None else Some (day, month, year, dateString, post)
  else Some (day, month, year, dateString, newPosStr).

(** [AM] and [PM] *)
Definition half_of_day (hour : Z) (dateString : list Z) : option (Z * list Z) :=
  if has_prefix [65; 77] dateString then
    if 12 <? hour then None else Some (if hour =? 12 then 0 else hour, skipSpacesAndComments (drop 2 dateString))
  else if has_prefix [80; 77] dateString then
    if 12 <? hour then None else Some (if negb (hour =? 12) then hour + 12 else hour, skipSpacesAndComments (drop 2 dateString))
  else Some (hour, dateString).

(** [:40 GMT] *)
Definition time_seconds (dateString : list Z) : option (Z * list Z) :=
  if peek dateString =? 58 then
    let '(ok, second, post) := parseLong (tail dateString) in
    if negb ok then None else if (second <? 0) || (59 <? second) then None else Some (second, post)
  else Some (0, dateString).

(** The time; its absence is no failure. *)
Definition parseStringToDate_1_2 (year : Z) (dateString newPosStr : list Z) : option (Z * Z * Z * Z * list Z * list Z) :=
  if peek newPosStr =? 0 then Some (year, 0, 0, 0, newPosStr, newPosStr)
  else
    let spaced := isASCIISpace (peek newPosStr) || (peek newPosStr =? 44) in
    if negb spaced && negb (peek newPosStr =? 58) then None
    else
      let year := if spaced then year else -1 in
      let dateString := if spaced then skipSpacesAndComments (tail newPosStr) else dateString in
      let '(_, hour, newPosStr) := parseLong dateString in
      if distance newPosStr dateString =? 0 then Some (year, hour, 0, 0, dateString, newPosStr)
      else
        let dateString := newPosStr in
        if (hour <? 0) || (23 <? hour) then None
        else if peek dateString =? 0 then None
        else if negb (peek dateString =? 58) then None
        else
          let '(ok, minute, newPosStr) := parseLong (tail dateString) in
          if negb ok then None
          else
            let dateString := newPosStr in
            if (minute <? 0) || (59 <? minute) then None
            else if negb (peek dateString =? 0) && negb (peek dateString =? 58) && negb (isASCIISpace (peek dateString)) then None
            else
              '(second, dateString) ← time_seconds dateString;
              '(hour, dateString) ← half_of_day hour (skipSpacesAndComments dateString);
              Some (year, hour, minute, second, dateString, newPosStr).

(** A year that is still missing: where [parseInt] fails, so does the parser. *)
Definition missing_year (due : bool) (year : Z) (dateString : list Z) : option (Z * list Z) :=
  if due && (year =? -1) then
    let '(ok, year, post) := parseInt dateString in
    if negb ok then None else Some (year, skipSpacesAndComments post)
  else Some (year, dateString).

(** [GMT+0900], [GMT+9], [GMT+09:00] *)
Definition zone_number (dateString : list Z) : result (option (Z * list Z)) :=
  let '(ok, o, post) := parseInt dateString in
  if negb ok then Ok None
  else if (o <? -9959) || (9959 <? o) then Ok None
  else
    let sgn := if o <? 0 then -1 else 1 in
    let o := Z.abs o in
    if negb (peek post =? 58) then
      Ok (Some (if 24 <=? o then (Z.quot o 100 * 60 + Z.rem o 100) * sgn else o * 60 * sgn, post))
    else
      let '(ok, o2, post) := parseInt (tail post) in
      if negb ok then Ok None
      else n ← int (o * 60 + o2); Ok (Some (n * sgn, post)).

Fixpoint zone_name (zones : list (list Z * Z)) (dateString : list Z) : option (Z * list Z) :=
  match zones with
  | [] => None
  | (tzName, tzOffset) :: zones =>
      if has_prefix tzName dateString then Some (tzOffset, drop (length tzName) dateString) else zone_name zones dateString
  end.

(** The year and the zone: year, whether there is a zone, its offset, the rest. *)
Definition parseStringToDate_1_3 (year : Z) (dateString : list Z) : result (option (Z * bool * Z * list Z)) :=
  match missing_year (isASCIIDigit (peek dateString)) year dateString with
  | None => Ok None
  | Some (year, dateString) =>
      zone ← (if peek dateString =? 0 then Ok (Some (false, 0, dateString))
              else
                let named := has_prefix [71; 77; 84] dateString || has_prefix [85; 84; 67] dateString in
                let dateString := if named then drop 3 dateString else dateString in
                if (peek dateString =? 43) || (peek dateString =? 45) then
                  z ← zone_number dateString;
                  Ok (match z with Some (offset, dateString) => Some (true, offset, dateString) | None => None end)
                else
                  match zone_name known_zones dateString with
                  | Some (offset, dateString) => Ok (Some (true, offset, dateString))
                  | None => Ok (Some (named, 0, dateString))
                  end);
      match zone with
      | None => Ok None
      | Some (haveTZ, offset, dateString) =>
          let dateString := skipSpacesAndComments dateString in
          Ok (match missing_year (negb (peek dateString =? 0)) year dateString with
              | None => None
              | Some (year, dateString) => Some (year, haveTZ, offset, dateString)
              end)
      end
  end.

(** The time, whether there is a zone, and its offset in minutes. *)
Definition parseStringToDate_1 (istr : list Z) : result (Z * bool * Z) :=
  let nan := Ok (TIME64NAN, false, 0) in
  let dateString := skipSpacesAndComments istr in
  '(month, wordStart, dateString) ← words (S (S (length istr))) istr dateString (-1);
  let month := if (month =? -1) && negb (distance dateString wordStart =? 0) then findMonth wordStart else month in
  let dateString := skipSpacesAndComments dateString in
  if peek dateString =? 0 then nan
  else
    let '(ok, day, newPosStr) := parseLong dateString in
    if negb ok then nan
    else if peek newPosStr =? 0 then nan
    else if day <? 0 then nan
    else
      match parseStringToDate_1_1 day month newPosStr newPosStr with
      | None => nan
      | Some (day, month, year, dateString, newPosStr) =>
          match parseStringToDate_1_2 year dateString newPosStr with
          | None => nan
          | Some (year, hour, minute, second, dateString, _) =>
              zone ← parseStringToDate_1_3 year dateString;
              match zone with
              | None => nan
              | Some (year, haveTZ, offset, dateString) =>
                  if negb (peek dateString =? 0) then nan
                  else
                    let year := if (0 <=? year) && (year <? 100) then
                                  if year <? 50 then year + 2000 else year + 1900 else year in
                    t ← timeinfoToMs year month (i32 day) hour minute second 0;
                    Ok (t, haveTZ, offset)
              end
          end
      end.

(** ** Both, and the formats *)
Section Zone.
Context (zone_offset dst_offset : Z -> Z) (failure : Z -> bool).
(** What ICU makes of other strings, and the names of the zone. *)
Context (icu_parse : list Z -> Z) (tzname : bool -> list Z).

Definition parseStringToDate (istr : list Z) : result Z :=
  let s := until_nul istr in
  '(t, haveTZ) ← parseStringToDate_2 s;
  primitiveValue ←
    (if IS_VALID_TIME t then
       if negb haveTZ then applyLocalTimezoneOffset zone_offset dst_offset failure t else Ok t
     else
       '(t, haveTZ, offset) ← parseStringToDate_1 s;
       if IS_VALID_TIME t then
         if negb haveTZ then applyLocalTimezoneOffset zone_offset dst_offset failure t
         else int64 (t - offset * MsPerMinute)
       else Ok t);
  Ok (if IS_VALID_TIME primitiveValue && IS_IN_TIME_RANGE primitiveValue then primitiveValue else icu_parse istr).

(** [new Date(string)], [Date.parse] *)
Definition setTimeValue_string (d : DateObject) (s : list Z) : result DateObject :=
  t ← parseStringToDate s; Ok (setTimeValue d t).
Definition dateParse (utc : option (Z * DateTimeInfo)) (s : list Z) : result Z :=
  d ← setTimeValue_string (new_date utc) s; Ok (primitiveValue d).

Notation UTC f d := (get_UTC zone_offset dst_offset f d).
Notation local f d := (get_local zone_offset dst_offset f d).

Definition iso_year (y : Z) : list Z := if (0 <=? y) && (y <=? 9999) then format_0d 4 y else format_plus_0d 7 y.
Definition iso_text (y mo da h mi s ms : Z) : list Z :=
  iso_year y ++ 45 :: format_0d 2 (mo + 1) ++ 45 ::
  format_0d 2 da ++ 84 :: format_0d 2 h ++ 58 :: format_0d 2 mi ++ 58 :: format_0d 2 s ++ 46 :: format_0d 3 ms ++ [90].
Definition toISOString (d : DateObject) : result (DateObject * list Z) :=
  if isValid d then
    '(d, y) ← UTC year d; '(d, mo) ← UTC month d; '(d, da) ← UTC mday d; '(d, h) ← UTC hour d;
    '(d, mi) ← UTC min d; '(d, s) ← UTC sec d; '(d, ms) ← UTC millisec d;
    text ← snprintf 64 (iso_text y mo da h mi s ms);
    Ok (d, text)
  else Throw RangeError.

Definition format_year (year : Z) : list Z := if year <? 0 then format_0d 5 year else format_0d 4 year.

Definition utc_text (day name : list Z) (y da h mi s : Z) : list Z :=
  day ++ 44 :: 32 :: format_0d 2 da ++ 32 :: name ++ 32 :: format_year y ++ 32 ::
  format_0d 2 h ++ 58 :: format_0d 2 mi ++ 58 :: format_0d 2 s ++ [32; 71; 77; 84].
Definition toUTCString (d : DateObject) : result (DateObject * list Z) :=
  if isValid d then
    '(d, y) ← UTC year d; '(d, wd) ← UTC wday d; '(d, da) ← UTC mday d; '(d, mo) ← UTC month d; '(d, h) ← UTC hour d;
    '(d, mi) ← UTC min d; '(d, s) ← UTC sec d;
    day ← defined (lookupZ days wd); name ← defined (lookupZ months mo);
    text ← snprintf 64 (utc_text day name y da h mi s);
    Ok (d, text)
  else Ok (d, invalidDate).

(** The cache is filled before the date is known to be valid. *)
Definition toDateString (d : DateObject) : result (DateObject * list Z) :=
  d ← resolveCache zone_offset dst_offset d;
  if isValid d then
    '(d, y) ← local year d; '(d, wd) ← local wday d; '(d, mo) ← local month d; '(d, da) ← local mday d;
    day ← defined (lookupZ days wd); name ← defined (lookupZ months mo);
    text ← snprintf 32 (day ++ 32 :: name ++ 32 :: format_0d 2 da ++ 32 :: format_year y);
    Ok (d, text)
  else Ok (d, invalidDate).

(** The minutes of the offset go through a quotient of doubles. *)
Definition toTimeString (d : DateObject) : result (DateObject * list Z) :=
  d ← resolveCache zone_offset dst_offset d;
  if isValid d then
    '(d, offset) ← getTimezoneOffset zone_offset dst_offset d;
    let tzOffsetAsMin := - offset in
    let tzOffsetHour := Z.quot tzOffsetAsMin MinutesPerHour in
    tzOffsetMin ← Iso.cast_int
      (fmul (fsub (fdiv (of_Z tzOffsetAsMin) (of_Z MinutesPerHour)) (of_Z tzOffsetHour)) (of_Z 60));
    let tzOffsetHour := tzOffsetHour * 100 in
    let timeZoneName := tzname (negb (isdst (m_cachedLocal d) =? 0)) in
    '(d, h) ← local hour d; '(d, mi) ← local min d; '(d, s) ← local sec d;
    text ← snprintf 256
      (format_0d 2 h ++ 58 :: format_0d 2 mi ++ 58 :: format_0d 2 s ++ [32; 71; 77; 84] ++
       (if tzOffsetAsMin <? 0 then 45 else 43) :: format_0d 4 (Z.abs (tzOffsetHour + tzOffsetMin)) ++
       [32; 40] ++ timeZoneName ++ [41]);
    Ok (d, text)
  else Ok (d, invalidDate).

Definition toFullString (d : DateObject) : result (DateObject * list Z) :=
  if isValid d then
    '(d, date) ← toDateString d; '(d, time) ← toTimeString d; Ok (d, date ++ 32 :: time)
  else Ok (d, invalidDate).

End Zone.
End DateText.

(** * What the formats and the parsers do *)
Module DateTextFacts.
Import CharClass DecimalFacts Iso IsoFacts Dates DateFacts DateObjects DateObjectFacts CText DateText.

(** ** Numbers *)

Lemma digit_facts c : is_digit c = true ->
  isspace c = false /\ isASCIIDigit c = true /\ c =? 45 = false /\ c =? 43 = false /\ c =? 0 = false /\ isASCIISpace c = false.
Proof.
  intros H. apply is_digit_range in H.
  assert (c = 48 \/ c = 49 \/ c = 50 \/ c = 51 \/ c = 52 \/ c = 53 \/ c = 54 \/ c = 55 \/ c = 56 \/ c = 57) as Hc by lia.
  repeat (destruct Hc as [->|Hc]; [repeat split; vm_compute; reflexivity|]). subst. repeat split; vm_compute; reflexivity.
Qed.

Lemma digit_span_app ds rest : forallb is_digit ds = true -> is_digit (peek rest) = false -> digit_span (ds ++ rest) = (ds, rest).
Proof.
  intros Hd Hr. induction ds as [|c ds IH].
  - cbn. destruct rest as [|c rest]; [reflexivity|]. cbn in *. now rewrite Hr.
  - cbn in Hd. apply andb_prop in Hd as [Hc Hd]. cbn. rewrite Hc, (IH Hd). reflexivity.
Qed.

(** A number as [strtol] reads it: a sign, digits, the end of the digits. *)
Lemma strtol_digits ds rest : ds <> [] -> forallb is_digit ds = true -> is_digit (peek rest) = false -> dec_value ds < 2 ^ 63 ->
  strtol (ds ++ rest) = (dec_value ds, rest).
Proof.
  intros Hn Hd Hr Hv. pose proof (dec_value_nonneg ds Hd) as H0. unfold strtol.
  destruct ds as [|c ds]; [congruence|]. assert (is_digit c = true) as Hc by (cbn in Hd; now apply andb_prop in Hd).
  destruct (digit_facts c Hc) as (E1 & _ & E2 & E3 & _). cbn [app skip_spaces]. rewrite E1. cbn [sign_span]. rewrite E2, E3.
  change (c :: ds ++ rest) with ((c :: ds) ++ rest). rewrite digit_span_app by assumption. unfold LONG_MIN, LONG_MAX. f_equal. lia.
Qed.
Lemma strtol_signed (negative : bool) ds rest : ds <> [] -> forallb is_digit ds = true -> is_digit (peek rest) = false ->
  dec_value ds < 2 ^ 63 ->
  strtol ((if negative then 45 else 43) :: ds ++ rest) = (if negative then - dec_value ds else dec_value ds, rest).
Proof.
  intros Hn Hd Hr Hv. pose proof (dec_value_nonneg ds Hd) as H0. unfold strtol.
  destruct negative; (destruct ds as [|c ds]; [congruence|]); cbn [skip_spaces sign_span];
    (replace (isspace _) with false by reflexivity); cbn [sign_span];
    cbn [Z.eqb Pos.eqb]; rewrite digit_span_app by assumption; unfold LONG_MIN, LONG_MAX; f_equal; lia.
Qed.

Lemma zeros_value k ds : dec_value (repeat 48 k ++ ds) = dec_value ds.
Proof. induction k as [|k IH]; [reflexivity|]. exact IH. Qed.

Lemma zero_padded_facts w n : 0 <= n < 10 ^ Z.of_nat w -> (0 < w)%nat ->
  length (zero_padded w n) = w /\ forallb is_digit (zero_padded w n) = true /\ dec_value (zero_padded w n) = n.
Proof.
  intros Hn Hw. unfold zero_padded. pose proof (dec_length n w Hn Hw). split; [|split].
  - rewrite length_app, repeat_length. lia.
  - rewrite forallb_app, dec_digits by lia. rewrite andb_true_r. apply forallb_forall. intros x Hx.
    apply repeat_spec in Hx. now subst.
  - rewrite zeros_value. apply dec_value_dec. lia.
Qed.
Lemma format_0d_nonneg w n : 0 <= n -> format_0d w n = zero_padded w n.
Proof. intros H. unfold format_0d. replace (n <? 0) with false by (symmetry; apply Z.ltb_ge; lia). reflexivity. Qed.

Lemma parseLong_padded w n rest : 0 <= n < 10 ^ Z.of_nat w -> (0 < w)%nat -> n < 2 ^ 62 -> is_digit (peek rest) = false ->
  parseLong (format_0d w n ++ rest) = (true, n, rest) /\ distance rest (format_0d w n ++ rest) = Z.of_nat w /\
  isASCIIDigit (peek (format_0d w n ++ rest)) = true.
Proof.
  intros Hn Hw Hb Hr. rewrite format_0d_nonneg by lia. destruct (zero_padded_facts w n Hn Hw) as (El & Ed & Ev).
  assert (zero_padded w n <> []) as Hne by (intros E; rewrite E in El; cbn in El; lia).
  assert (distance rest (zero_padded w n ++ rest) = Z.of_nat w) as Edist
    by (unfold distance; rewrite length_app, El; lia).
  split; [|split; [assumption|]].
  - unfold parseLong. rewrite strtol_digits by (try assumption; lia). rewrite Ev.
    assert (distance (zero_padded w n ++ rest) rest =? 0 = false) as -> by (unfold distance in *; apply Z.eqb_neq; lia).
    assert (n =? LONG_MIN = false) as -> by (unfold LONG_MIN; apply Z.eqb_neq; lia).
    assert (n =? LONG_MAX = false) as -> by (unfold LONG_MAX; apply Z.eqb_neq; lia). reflexivity.
  - destruct (zero_padded w n) as [|c l]; [congruence|]. cbn in Ed. apply andb_prop in Ed as [Hc _].
    now destruct (digit_facts c Hc) as (_ & E & _).
Qed.

Lemma two_digits_format n rest : 0 <= n < 100 -> is_digit (peek rest) = false -> two_digits (format_0d 2 n ++ rest) = Some (n, rest).
Proof.
  intros Hn Hr. destruct (parseLong_padded 2 n rest ltac:(cbn; lia) ltac:(lia) ltac:(lia) Hr) as (E & Ed & Ei).
  unfold two_digits. rewrite Ei, E, Ed. reflexivity.
Qed.

(** A signed number with at least two digits, as years are printed. *)
Lemma zero_padded_any w n : 0 <= n -> zero_padded w n <> [] /\ forallb is_digit (zero_padded w n) = true /\ dec_value (zero_padded w n) = n.
Proof.
  intros Hn. unfold zero_padded. split; [|split].
  - intros E. apply app_eq_nil in E as [_ E]. destruct (decide (n = 0)) as [->|Hn0]; [discriminate|].
    destruct (dec_head n ltac:(lia)) as (c & l & E' & _). congruence.
  - rewrite forallb_app, dec_digits by lia. rewrite andb_true_r. apply forallb_forall. intros x Hx.
    apply repeat_spec in Hx. now subst.
  - rewrite zeros_value. apply dec_value_dec. lia.
Qed.
Lemma strtol_year (y : Z) (plus : bool) w rest : Z.abs y < 2 ^ 31 - 1 -> is_digit (peek rest) = false ->
  let text := (if y <? 0 then [45] else if plus then [43] else []) ++ zero_padded w (Z.abs y) in
  parseInt (text ++ rest) = (true, y, rest) /\ (peek (text ++ rest) =? 45) = (y <? 0) /\ peek (text ++ rest) =? 0 = false.
Proof.
  intros Hb Hr. destruct (zero_padded_any w (Z.abs y) ltac:(lia)) as (Hne & Ed & Ev).
  cbv zeta. rewrite <- app_assoc. set (text := zero_padded w (Z.abs y)) in *.
  assert (forall sign, strtol (sign ++ text ++ rest) = (y, rest) -> parseInt (sign ++ text ++ rest) = (true, y, rest)) as Hp.
  { intros sign E. unfold parseInt. rewrite E.
    assert (distance (sign ++ text ++ rest) rest =? 0 = false) as ->
      by (unfold distance; rewrite !length_app; destruct text; [congruence|]; cbn [length]; apply Z.eqb_neq; lia).
    assert (y <=? - 2 ^ 31 = false) as -> by (apply Z.leb_gt; lia).
    assert (2 ^ 31 - 1 <=? y = false) as -> by (apply Z.leb_gt; lia). reflexivity. }
  destruct (y <? 0) eqn:E0; Zbool.
  - split; [|split; reflexivity]. apply Hp. cbn [app]. rewrite (strtol_signed true) by (try assumption; lia).
    rewrite Ev. f_equal. lia.
  - destruct plus.
    + split; [|split; reflexivity]. apply Hp. cbn [app]. rewrite (strtol_signed false) by (try assumption; lia).
      rewrite Ev. f_equal. lia.
    + split; [apply Hp; cbn [app]; rewrite strtol_digits by (try assumption; lia); f_equal; lia|].
      destruct text as [|c l]; [congruence|]. cbn in Ed. apply andb_prop in Ed as [Hc _].
      destruct (digit_facts c Hc) as (_ & _ & E1 & _ & E2 & _). now split.
Qed.

Lemma iso_year_parse y rest : Z.abs y < 1000000 -> is_digit (peek rest) = false ->
  parseInt (iso_year y ++ rest) = (true, y, rest) /\ (peek (iso_year y ++ rest) =? 45) = (y <? 0).
Proof.
  intros Hy Hr. unfold iso_year. destruct ((0 <=? y) && (y <=? 9999)) eqn:E; Zbool.
  - rewrite format_0d_nonneg by lia. destruct (strtol_year y false 4 rest ltac:(lia) Hr) as (E1 & E2 & _).
    replace (y <? 0) with false in * by (symmetry; apply Z.ltb_ge; lia). rewrite Z.abs_eq in * by lia. now split.
  - destruct (strtol_year y true 6 rest ltac:(lia) Hr) as (E1 & E2 & _).
    assert (format_plus_0d 7 y = (if y <? 0 then [45] else [43]) ++ zero_padded 6 (Z.abs y)) as ->
      by (unfold format_plus_0d; now destruct (y <? 0)). now split.
Qed.

Lemma iso_date_parse y mo da rest : Z.abs y < 1000000 -> 0 <= mo < 12 -> 0 <= da < 100 -> is_digit (peek rest) = false ->
  parseES5DatePortion (iso_year y ++ 45 :: format_0d 2 (mo + 1) ++ 45 :: format_0d 2 da ++ rest) 1 1 = Some (rest, y, mo + 1, da).
Proof.
  intros Hy Hmo Hda Hr. unfold parseES5DatePortion.
  destruct (iso_year_parse y (45 :: format_0d 2 (mo + 1) ++ 45 :: format_0d 2 da ++ rest) Hy eq_refl) as [-> ->].
  cbn [negb]. assert ((y <? 0) && (y =? 0) = false) as -> by (destruct (y =? 0) eqn:E; Zbool; [subst; reflexivity|apply andb_false_r]).
  cbn [peek Z.eqb Pos.eqb negb tail].
  rewrite two_digits_format by (reflexivity || lia). cbn [mbind option_bind peek Z.eqb Pos.eqb negb tail].
  rewrite two_digits_format by (assumption || lia). reflexivity.
Qed.

Lemma parseLong_3_format ms rest : 0 <= ms < 1000 -> is_digit (peek rest) = false ->
  parseLong_3 (format_0d 3 ms ++ rest) = Ok (true, ms, rest).
Proof.
  intros Hms Hr. rewrite format_0d_nonneg by lia. destruct (zero_padded_facts 3 ms ltac:(cbn; lia) ltac:(lia)) as (El & Ed & Ev).
  unfold parseLong_3. rewrite strtol_digits by (try assumption; try lia; intros E; rewrite E in El; discriminate).
  destruct (zero_padded 3 ms) as [|a [|b [|c [|? ?]]]]; try discriminate. clear El.
  assert (is_digit a = true /\ is_digit b = true /\ is_digit c = true) as (Ha & Hb & Hc)
    by (cbn in Ed; repeat (apply andb_prop in Ed as [? Ed]); auto).
  destruct (digit_facts a Ha) as (_ & _ & _ & _ & Za & _), (digit_facts b Hb) as (_ & _ & _ & _ & Zb & _),
    (digit_facts c Hc) as (_ & _ & _ & _ & Zc & _).
  cbn [char_at length app Nat.eqb lookup list_lookup defined mbind result_bind].
  unfold char_at. cbn [length app Nat.eqb lookup list_lookup defined mbind result_bind].
  assert (until_nul [a; b; c] = [a; b; c]) as -> by (cbn; now rewrite Za, Zb, Zc).
  pose proof (strtol_digits [a; b; c] [] ltac:(discriminate) Ed eq_refl ltac:(lia)) as E. cbn [app] in E. rewrite E, Ev.
  assert (distance (a :: b :: c :: rest) rest =? 0 = false) as -> by (unfold distance; cbn [length]; apply Z.eqb_neq; lia).
  assert (ms =? LONG_MIN = false) as -> by (unfold LONG_MIN; apply Z.eqb_neq; lia).
  assert (ms =? LONG_MAX = false) as -> by (unfold LONG_MAX; apply Z.eqb_neq; lia). reflexivity.
Qed.

Lemma parse_seconds_format s ms rest : 0 <= s < 60 -> 0 <= ms < 1000 -> is_digit (peek rest) = false ->
  parse_seconds (58 :: format_0d 2 s ++ 46 :: format_0d 3 ms ++ rest) = Ok (Some (s * 1000 + ms, rest)).
Proof.
  intros Hs Hms Hr. unfold parse_seconds. cbn [peek Z.eqb Pos.eqb negb tail]. rewrite two_digits_format by (reflexivity || lia).
  cbn [peek Z.eqb Pos.eqb negb tail].
  destruct (parseLong_padded 3 ms rest ltac:(cbn; lia) ltac:(lia) ltac:(lia) Hr) as (_ & Ed & Ei). rewrite Ei. cbn [negb].
  rewrite parseLong_3_format by assumption. cbn [mbind result_bind negb]. rewrite Ed. change MsPerSecond with 1000.
  assert (rep (fadd (of_Z (s * 1000)) (fmul (of_Z ms) (of_Z 1))) (s * 1000 + ms)) as R.
  { apply r_add; [apply r_of_Z; lia| |lia]. rewrite <- (Z.mul_1_r ms) at 2. apply r_mul; [apply r_of_Z; lia|apply r_of_Z; lia|lia]. }
  change (10 ^ (3 - Z.min (Z.of_nat 3) 3)) with 1. unfold cast_int64, cast_range. rewrite (r_finite _ _ R), (r_to_Z _ _ R).
  rewrite (proj2 (Z.leb_le _ _)), (proj2 (Z.leb_le _ _)) by lia. reflexivity.
Qed.

Lemma month_limit y m : 1 <= m <= 12 ->
  exists limit, lookupZ DaysPerMonth (m - 1) = Some limit /\ month_length y m <= limit /\
    (m =? 2 = true -> isLeapYear y = false -> month_length y m = 28).
Proof.
  intros H. pattern m. apply month_cases; [assumption|..]; unfold month_length, Iso.daysInMonth; destruct (isLeapYear y);
    (eexists; split; [reflexivity|split; [vm_compute; discriminate|intros H2 H3; first [discriminate | reflexivity]]]).
Qed.

Lemma fields_checked_proper y mo da h mi s ms : proper_fields y mo da h mi s ms ->
  fields_checked y (mo + 1) da h mi (s * 1000 + ms) = Ok true.
Proof.
  intros ((Hm & Hd) & Hh & Hmi & Hs & Hms). unfold fields_checked. change (MsPerMinute + MsPerSecond) with 61000.
  assert ((mo + 1 <? 1) || (12 <? mo + 1) = false) as -> by (apply orb_false_intro; apply Z.ltb_ge; lia).
  assert (exists limit, lookupZ DaysPerMonth (mo + 1 - 1) = Some limit /\ da <= limit /\
    (mo + 1 =? 2) && (28 <? da) && negb (Dates.daysInYear y =? 366) = false) as (limit & -> & Hl & ->).
  { destruct (month_limit y (mo + 1) Hm) as (limit & E & Hl & H28). exists limit. split; [assumption|]. split; [lia|].
    rewrite daysInYear_iso. unfold Iso.daysInYear. destruct (isLeapYear y); [apply andb_false_r|].
    destruct (mo + 1 =? 2); [|reflexivity]. rewrite H28 in Hd by reflexivity.
    assert (28 <? da = false) as -> by (apply Z.ltb_ge; lia). reflexivity. }
  cbn [defined mbind result_bind].
  assert ((da <? 1) || (limit <? da) = false) as -> by (apply orb_false_intro; apply Z.ltb_ge; lia).
  assert ((h <? 0) || (24 <? h) = false) as -> by (apply orb_false_intro; apply Z.ltb_ge; lia).
  assert (h =? 24 = false) as -> by (apply Z.eqb_neq; lia).
  assert ((mi <? 0) || (59 <? mi) = false) as -> by (apply orb_false_intro; apply Z.ltb_ge; lia).
  assert ((s * 1000 + ms <? 0) || (61000 <=? s * 1000 + ms) = false) as ->
    by (apply orb_false_intro; [apply Z.ltb_ge|apply Z.leb_gt]; lia). reflexivity.
Qed.

Lemma seconds_split s ms : 0 <= s < 60 -> 0 <= ms < 1000 ->
  MsPerMinute <? s * 1000 + ms = false /\ Z.quot (s * 1000 + ms) MsPerSecond = s /\ Z.rem (s * 1000 + ms) MsPerSecond = ms.
Proof.
  intros Hs Hms. change MsPerMinute with 60000. change MsPerSecond with 1000. split; [apply Z.ltb_ge; lia|]. split.
  - rewrite Z.quot_div_nonneg by lia. symmetry. apply (Z.div_unique_pos _ _ _ ms); lia.
  - rewrite Z.rem_mod_nonneg by lia. symmetry. apply (Z.mod_unique_pos _ _ s); lia.
Qed.
Lemma time_of_ok y mo da h mi s ms : proper_fields y mo da h mi s ms -> near y ->
  timeinfoToMs y mo da h mi s ms = Ok (time_of y mo da h mi s ms) /\ Z.abs (time_of y mo da h mi s ms) <= 6 * 10 ^ 18.
Proof.
  intros ((Hm & Hd) & Hh & Hmi & Hs & Hms) Hn. pose proof (month_length_range y (mo + 1) Hm). split.
  - rewrite timeinfoToMs_ok by (try assumption; lia). reflexivity.
  - pose proof (make_date_bound y mo da h mi s ms) as Hb. unfold make_date in Hb.
    replace (mo / 12) with 0 in Hb by (symmetry; apply Z.div_small; lia). rewrite Z.add_0_r, Z.mod_small in Hb by lia.
    apply Hb; try assumption; unfold int_sized; lia.
Qed.

Lemma iso_time_parse h mi s ms : 0 <= h < 24 -> 0 <= mi < 60 -> 0 <= s < 60 -> 0 <= ms < 1000 ->
  parseES5TimePortion (format_0d 2 h ++ 58 :: format_0d 2 mi ++ 58 :: format_0d 2 s ++ 46 :: format_0d 3 ms ++ [90])
    = Ok (Some (h, mi, s * 1000 + ms, 0, true, [])).
Proof.
  intros Hh Hmi Hs Hms. unfold parseES5TimePortion.
  rewrite two_digits_format by (reflexivity || lia). cbn [peek Z.eqb Pos.eqb negb tail].
  rewrite two_digits_format by (reflexivity || lia). rewrite parse_seconds_format by (reflexivity || lia). reflexivity.
Qed.

Lemma date_of_fields_ok y mo da h mi s ms : proper_fields y mo da h mi s ms -> near y ->
  date_of_fields y (mo + 1) da h mi (s * 1000 + ms) 0 = Ok (time_of y mo da h mi s ms).
Proof.
  intros Hp Hn. destruct (time_of_ok _ _ _ _ _ _ _ Hp Hn) as [Et Hb]. pose proof Hp as (_ & _ & _ & Hs & Hms).
  unfold date_of_fields. rewrite fields_checked_proper by assumption. cbn [mbind result_bind negb].
  destruct (seconds_split s ms Hs Hms) as (-> & -> & ->). rewrite Z.add_simpl_r, Et. cbn [mbind result_bind].
  rewrite Z.mul_0_l, Z.sub_0_r. apply int64_ok. lia.
Qed.

(** The printed fields of a time are read back as that time, in UTC. *)
Lemma iso_text_parse y mo da h mi s ms : proper_fields y mo da h mi s ms -> near y -> Z.abs y < 1000000 ->
  parseStringToDate_2 (iso_text y mo da h mi s ms) = Ok (time_of y mo da h mi s ms, true).
Proof.
  intros Hp Hn Hy. pose proof Hp as ((Hm & Hd) & Hh & Hmi & Hs & Hms). pose proof (month_length_range y (mo + 1) Hm) as Hl.
  unfold parseStringToDate_2, iso_text. rewrite iso_date_parse by (reflexivity || lia). cbn [peek Z.eqb Pos.eqb tail].
  rewrite iso_time_parse by assumption. cbn [mbind result_bind skip_spaces].
  rewrite date_of_fields_ok by assumption. reflexivity.
Qed.

(** ** The text of [toUTCString], read by the other parser *)

Lemma format_year_parse y rest : Z.abs y < 2 ^ 31 - 1 -> is_digit (peek rest) = false ->
  parseInt (format_year y ++ rest) = (true, y, rest) /\ peek (format_year y ++ rest) =? 0 = false.
Proof.
  intros Hy Hr. unfold format_year. destruct (strtol_year y false 4 rest Hy Hr) as (E1 & _ & E2).
  destruct (y <? 0) eqn:E; unfold format_0d; rewrite E; rewrite ?E in E1, E2; Zbool.
  - replace (- y) with (Z.abs y) by lia. split; [exact E1|reflexivity].
  - rewrite Z.abs_eq in E1, E2 by lia. split; [exact E1|exact (proj2 (Z.eqb_neq _ _) E2)].
Qed.

Lemma skip_none s : isASCIISpace (peek s) = false -> peek s =? 40 = false -> peek s =? 41 = false -> skipSpacesAndComments s = s.
Proof.
  unfold skipSpacesAndComments. destruct s as [|c s]; [reflexivity|]. cbn. intros -> -> ->. reflexivity.
Qed.
Lemma skip_digit s : is_digit (peek s) = true -> skipSpacesAndComments s = s.
Proof.
  intros H. destruct (digit_facts _ H) as (_ & _ & _ & _ & _ & E). apply is_digit_range in H.
  apply skip_none; [assumption|apply Z.eqb_neq; lia..].
Qed.
Lemma peek_format w n rest : 0 <= n < 10 ^ Z.of_nat w -> (0 < w)%nat -> is_digit (peek (format_0d w n ++ rest)) = true.
Proof.
  intros Hn Hw. rewrite format_0d_nonneg by lia. destruct (zero_padded_any w n ltac:(lia)) as (Hne & Ed & _).
  destruct (zero_padded w n) as [|c l]; [congruence|]. cbn in *. now apply andb_prop in Ed as [-> _].
Qed.

Lemma lookupZ_in {A} (l : list A) i x : lookupZ l i = Some x -> In x l.
Proof. unfold lookupZ. destruct (i <? 0); [discriminate|]. intros H. now apply list_elem_of_In, (list_elem_of_lookup_2 _ (Z.to_nat i)). Qed.

(** Letters are none of the characters that the parser looks for. *)
Definition letter (c : Z) : bool :=
  negb (c =? 0) && negb (isASCIIDigit c) && negb (is_digit c) && negb (isASCIISpace c) && negb (isspace c) &&
  negb (c =? 40) && negb (c =? 41) && negb (c =? 43) && negb (c =? 44) && negb (c =? 45) && negb (c =? 47).
Definition letters_but (month : Z) (name : list Z) : Prop :=
  exists a b c, name = [a; b; c] /\ letter a = true /\ letter b = true /\ letter c = true /\
    forall rest, findMonth (a :: b :: c :: rest) = month.

Lemma day_letters wd day : lookupZ days wd = Some day -> letters_but (-1) day.
Proof.
  intros Hw. apply lookupZ_in in Hw. unfold days in Hw. cbn [In] in Hw.
  repeat (destruct Hw as [<-|Hw]; [do 3 eexists; split; [reflexivity|]; repeat (split; [reflexivity|]); intros; reflexivity|]).
  contradiction.
Qed.
Lemma month_letters mo name : lookupZ months mo = Some name -> letters_but mo name.
Proof.
  unfold lookupZ. destruct (mo <? 0) eqn:E; [discriminate|]. Zbool. intros H.
  assert (Z.to_nat mo < 12)%nat as Hm by (apply lookup_lt_Some in H; exact H).
  assert (mo = Z.of_nat (Z.to_nat mo)) as -> by lia. revert H Hm. generalize (Z.to_nat mo). clear E mo. intros n H Hm.
  do 12 (destruct n as [|n]; [injection H as <-; do 3 eexists; split; [reflexivity|]; repeat (split; [reflexivity|]); intros; reflexivity|]).
  lia.
Qed.

Ltac letter_facts H := unfold letter in H; rewrite !andb_true_iff, !negb_true_iff in H;
  destruct H as ((((((((((? & ?) & ?) & ?) & ?) & ?) & ?) & ?) & ?) & ?) & ?).

Ltac by_facts := repeat match goal with E : ?x = false |- context [?x] => rewrite E end.

Lemma words_letter fuel wordStart c s month : letter c = true ->
  words (S fuel) wordStart (c :: s) month = words fuel wordStart s month.
Proof. intros H. letter_facts H. cbn [words peek tail]. by_facts. reflexivity. Qed.
Lemma skip_letter c s : letter c = true -> skipSpacesAndComments (c :: s) = c :: s.
Proof. intros H. letter_facts H. now apply skip_none. Qed.
Lemma skip_space s : skipSpacesAndComments (32 :: s) = skipSpacesAndComments s.
Proof. reflexivity. Qed.

(** The name of the day is no month. *)
Lemma words_day day rest fuel : letters_but (-1) day -> is_digit (peek rest) = true ->
  let s := day ++ 44 :: 32 :: rest in
  parseES5DatePortion s 1 1 = None /\ skipSpacesAndComments s = s /\ words (6 + fuel) s s (-1) = Ok (-1, rest, rest).
Proof.
  intros (a & b & c & -> & Ha & Hb & Hc & Hf) Hr. destruct (digit_facts _ Hr) as (_ & Hd & _ & _ & Hz & _).
  pose proof (skip_digit rest Hr) as Hs. cbv zeta. cbn [app]. split; [|split; [now apply skip_letter|]].
  - letter_facts Ha. unfold parseES5DatePortion, parseInt, strtol. cbn [skip_spaces]. by_facts. cbn [sign_span]. by_facts.
    cbn [digit_span]. by_facts. unfold distance. rewrite Z.sub_diag. reflexivity.
  - cbn [Nat.add]. rewrite !words_letter by assumption.
    change (words (S (S (S fuel))) ?w (44 :: 32 :: rest) (-1)) with (words (S (S fuel)) w (32 :: rest) (-1)).
    set (w := a :: b :: c :: 44 :: 32 :: rest).
    assert (words (S (S fuel)) w (32 :: rest) (-1)
      = words (S fuel) (skipSpacesAndComments (32 :: rest)) (skipSpacesAndComments (32 :: rest))
          (if 3 <=? distance (32 :: rest) w then findMonth w else -1)) as -> by reflexivity.
    rewrite skip_space, Hs. assert (3 <=? distance (32 :: rest) w = true) as ->
      by (unfold w, distance; cbn [length]; apply Z.leb_le; lia).
    unfold w. rewrite Hf. cbn [words]. rewrite Hd, orb_true_r. reflexivity.
Qed.

(** The day and the name of a month, as in [01 Jan 1970]. *)
Lemma utc_date_parse da mo name y rest : letters_but mo name -> 0 <= mo < 12 -> 1 <= da <= 31 -> Z.abs y < 2 ^ 31 - 1 ->
  is_digit (peek rest) = false ->
  forall newPosStr, exists dateString,
  parseStringToDate_1_1 da (-1) (32 :: name ++ 32 :: format_year y ++ rest) newPosStr = Some (da, mo, y, dateString, rest).
Proof.
  intros (a & b & c & -> & Ha & Hb & Hc & Hf) Hmo Hda Hy Hr newPosStr. eexists.
  destruct (format_year_parse y rest Hy Hr) as [Ey Ez]. unfold parseStringToDate_1_1, date_1_1.
  assert (31 <? da = false) as -> by (apply Z.ltb_ge; lia).
  unfold skip_if. cbn [peek Z.eqb Pos.eqb andb app]. rewrite skip_space, skip_letter by assumption.
  cbn [peek]. assert (a =? 44 = false) as -> by (letter_facts Ha; assumption). rewrite Hf.
  assert (mo =? -1 = false) as -> by (apply Z.eqb_neq; lia).
  assert (skip_month_name (a :: b :: c :: 32 :: format_year y ++ rest) = 32 :: format_year y ++ rest) as ->.
  { letter_facts Ha. letter_facts Hb. letter_facts Hc. cbn [skip_month_name]. by_facts. reflexivity. }
  cbn [peek Z.eqb Pos.eqb tail mbind option_bind].
  assert ((mo <? 0) || (11 <? mo) = false) as -> by (apply orb_false_intro; apply Z.ltb_ge; lia).
  rewrite Ez, Ey. reflexivity.
Qed.

Lemma utc_time_parse y h mi s rest dateString : 0 <= h < 24 -> 0 <= mi < 60 -> 0 <= s < 60 -> is_digit (peek rest) = false ->
  exists newPosStr,
  parseStringToDate_1_2 y dateString (32 :: format_0d 2 h ++ 58 :: format_0d 2 mi ++ 58 :: format_0d 2 s ++ rest)
    = '(hour, rest) ← half_of_day h (skipSpacesAndComments rest); Some (y, hour, mi, s, rest, newPosStr).
Proof.
  intros Hh Hmi Hs Hr. eexists. unfold parseStringToDate_1_2. cbn [peek Z.eqb Pos.eqb tail].
  replace (isASCIISpace 32) with true by reflexivity. cbn [orb negb andb].
  rewrite skip_digit by (apply peek_format; cbn; lia).
  destruct (parseLong_padded 2 h (58 :: format_0d 2 mi ++ 58 :: format_0d 2 s ++ rest) ltac:(cbn; lia) ltac:(lia) ltac:(lia) eq_refl)
    as (-> & -> & _).
  assert ((h <? 0) || (23 <? h) = false) as -> by (apply orb_false_intro; apply Z.ltb_ge; lia).
  cbn [Z.of_nat Pos.of_succ_nat Pos.succ Z.eqb peek Pos.eqb negb tail].
  destruct (parseLong_padded 2 mi (58 :: format_0d 2 s ++ rest) ltac:(cbn; lia) ltac:(lia) ltac:(lia) eq_refl) as (-> & _ & _).
  assert ((mi <? 0) || (59 <? mi) = false) as -> by (apply orb_false_intro; apply Z.ltb_ge; lia).
  cbn [negb peek Z.eqb Pos.eqb andb]. unfold time_seconds. cbn [negb peek Z.eqb Pos.eqb tail].
  destruct (parseLong_padded 2 s rest ltac:(cbn; lia) ltac:(lia) ltac:(lia) Hr) as (-> & _ & _).
  assert ((s <? 0) || (59 <? s) = false) as -> by (apply orb_false_intro; apply Z.ltb_ge; lia). reflexivity.
Qed.

Lemma utc_text_parse wd day mo name y da h mi s :
  lookupZ days wd = Some day -> lookupZ months mo = Some name -> proper_fields y mo da h mi s 0 ->
  near y -> ~ 0 <= y < 100 ->
  parseStringToDate_2 (utc_text day name y da h mi s) = Ok (TIME64NAN, true) /\
  parseStringToDate_1 (utc_text day name y da h mi s) = Ok (time_of y mo da h mi s 0, true, 0).
Proof.
  intros Hday Hname Hp Hn H100. apply day_letters in Hday. apply month_letters in Hname.
  destruct (time_of_ok _ _ _ _ _ _ _ Hp Hn) as [Et _].
  pose proof Hp as ((Hm & Hd) & Hh & Hmi & Hs & _). pose proof (month_length_range y (mo + 1) Hm) as Hl.
  unfold utc_text. set (tail_ := 32 :: name ++ _).
  pose proof (peek_format 2 da tail_ ltac:(cbn; lia) ltac:(lia)) as Hpeek.
  pose proof (words_day day (format_0d 2 da ++ tail_)) as Hw. cbv zeta in Hw.
  set (text := day ++ 44 :: 32 :: format_0d 2 da ++ tail_) in *.
  destruct (Hw (length text - 4)%nat Hday Hpeek) as (E1 & E2 & E3).
  assert (S (S (length text)) = (6 + (length text - 4))%nat) as El
    by (unfold text; destruct Hday as (a & b & c & -> & _); rewrite !length_app; cbn [length]; lia).
  split; [unfold parseStringToDate_2; now rewrite E1|]. unfold parseStringToDate_1. rewrite E2, El.
  rewrite E3. cbn [mbind result_bind]. unfold distance at 1. rewrite Z.sub_diag. cbn [Z.eqb Pos.eqb negb andb].
  rewrite skip_digit by assumption. destruct (digit_facts _ Hpeek) as (_ & _ & _ & _ & -> & _).
  destruct (parseLong_padded 2 da tail_ ltac:(cbn; lia) ltac:(lia) ltac:(lia) eq_refl) as (-> & _ & _).
  cbn [negb]. unfold tail_ at 1. cbn [peek Z.eqb Pos.eqb]. assert (da <? 0 = false) as -> by (apply Z.ltb_ge; lia).
  destruct (utc_date_parse da mo name y (32 :: format_0d 2 h ++ 58 :: format_0d 2 mi ++ 58 :: format_0d 2 s ++ [32; 71; 77; 84])
    Hname ltac:(lia) ltac:(lia) ltac:(unfold near in Hn; lia) eq_refl tail_) as (dateString & Ed).
  fold tail_ in Ed. rewrite Ed. destruct (utc_time_parse y h mi s [32; 71; 77; 84] dateString Hh Hmi Hs eq_refl) as (? & ->).
  change (half_of_day h (skipSpacesAndComments [32; 71; 77; 84])) with (Some (h, [71; 77; 84])). cbn [mbind option_bind].
  change (parseStringToDate_1_3 y [71; 77; 84]) with (Ok (Some (y, true, 0, @nil Z))).
  cbn [mbind result_bind peek Z.eqb Pos.eqb negb].
  assert ((0 <=? y) && (y <? 100) = false) as -> by (destruct (0 <=? y) eqn:E, (y <? 100) eqn:E'; Zbool; try reflexivity; lia).
  assert (i32 da = da) as -> by (apply wraps_id; unfold in_s; lia). rewrite Et. reflexivity.
Qed.

(** ** Texts without a zero byte *)
Definition no_nul (s : list Z) : bool := forallb (fun c => negb (c =? 0)) s.
Lemma until_nul_id s : no_nul s = true -> until_nul s = s.
Proof.
  induction s as [|c s IH]; intros H; [reflexivity|]. cbn in H. apply andb_prop in H as [Hc Hs]. cbn.
  apply negb_true_iff in Hc. now rewrite Hc, (IH Hs).
Qed.
Lemma no_nul_app a b : no_nul (a ++ b) = no_nul a && no_nul b.
Proof. apply forallb_app. Qed.
Lemma no_nul_cons c s : no_nul (c :: s) = negb (c =? 0) && no_nul s.
Proof. reflexivity. Qed.
Lemma no_nul_digits s : forallb is_digit s = true -> no_nul s = true.
Proof.
  induction s as [|c s IH]; intros H; [reflexivity|]. cbn in *. apply andb_prop in H as [Hc Hs].
  destruct (digit_facts c Hc) as (_ & _ & _ & _ & -> & _). exact (IH Hs).
Qed.
Lemma no_nul_padded w n : 0 <= n < 10 ^ Z.of_nat w -> (0 < w)%nat -> no_nul (zero_padded w n) = true.
Proof. intros Hn Hw. apply no_nul_digits. now apply zero_padded_facts. Qed.
Lemma no_nul_format w n : 0 <= n < 10 ^ Z.of_nat w -> (0 < w)%nat -> no_nul (format_0d w n) = true.
Proof. intros Hn Hw. rewrite format_0d_nonneg by lia. now apply no_nul_padded. Qed.
Lemma no_nul_iso_year y : Z.abs y < 1000000 -> no_nul (iso_year y) = true.
Proof.
  intros Hy. unfold iso_year. destruct ((0 <=? y) && (y <=? 9999)) eqn:E; Zbool; [apply no_nul_format; cbn; lia|].
  unfold format_plus_0d. cbn [no_nul forallb]. rewrite (no_nul_padded 6) by (cbn; lia). now destruct (y <? 0).
Qed.

(** ** The formats in a zone with one offset *)

Lemma format_length w n : 0 <= n < 10 ^ Z.of_nat w -> (0 < w)%nat -> length (format_0d w n) = w.
Proof. intros Hn Hw. rewrite format_0d_nonneg by lia. now apply zero_padded_facts. Qed.
Lemma iso_year_length y : Z.abs y < 1000000 -> (length (iso_year y) <= 7)%nat.
Proof.
  intros Hy. unfold iso_year. destruct ((0 <=? y) && (y <=? 9999)) eqn:E; Zbool.
  - rewrite format_length by (cbn; lia). lia.
  - cbn [format_plus_0d length Nat.sub]. destruct (zero_padded_facts 6 (Z.abs y) ltac:(cbn; lia) ltac:(lia)) as [-> _]. lia.
Qed.

(** The fields of a time, as components in their ranges. *)
Lemma fields_proper t i : fields_of t i -> proper_fields (year i) (month i) (mday i) (hour i) (min i) (sec i) (millisec i).
Proof.
  intros (Hd & _ & -> & -> & -> & -> & _). split; [assumption|].
  pose proof (Z.mod_pos_bound (t / MsPerHour) 24 ltac:(lia)). pose proof (Z.mod_pos_bound (t / MsPerMinute) 60 ltac:(lia)).
  pose proof (Z.mod_pos_bound (t / MsPerSecond) 60 ltac:(lia)). pose proof (Z.mod_pos_bound t MsPerSecond ltac:(reflexivity)).
  change MsPerSecond with 1000 in *. auto.
Qed.
Lemma fields_year t i : in_range t -> fields_of t i -> Z.abs (year i - 1970) <= 300000.
Proof.
  intros Ht Hi. destruct (computeTimeInfo_ok t zero_info Ht) as (j & _ & Hj & Hy & _).
  pose proof (fields_unique _ _ _ Hi Hj) as [=]. congruence.
Qed.

Lemma iso_text_no_nul y mo da h mi s ms : proper_fields y mo da h mi s ms -> Z.abs y < 1000000 ->
  no_nul (iso_text y mo da h mi s ms) = true.
Proof.
  intros ((Hm & Hd) & Hh & Hmi & Hs & Hms) Hy. pose proof (month_length_range y (mo + 1) Hm).
  unfold iso_text. rewrite no_nul_app, no_nul_iso_year by assumption.
  repeat (rewrite ?no_nul_cons, no_nul_app, no_nul_format by (cbn; lia)). reflexivity.
Qed.
Lemma range_valid t : Z.abs t <= MaximumDatePrimitiveValue -> IS_VALID_TIME t = true.
Proof. intros H. unfold IS_VALID_TIME, TIME64NAN, MaximumDatePrimitiveValue in *. apply negb_true_iff, Z.eqb_neq. lia. Qed.
Lemma seconds_in_range t : Z.abs t <= MaximumDatePrimitiveValue -> Z.abs (t - t mod 1000) <= MaximumDatePrimitiveValue.
Proof. unfold MaximumDatePrimitiveValue. intros H. pose proof (Z.div_mod t 1000). pose proof (Z.mod_pos_bound t 1000). lia. Qed.
Lemma in_time_range_iff t : Z.abs t <= MaximumDatePrimitiveValue -> IS_IN_TIME_RANGE t = true.
Proof. intros H. unfold IS_IN_TIME_RANGE. apply andb_true_intro. split; apply Z.leb_le; lia. Qed.

Section FixedZone.
Context (k : Z) (k_small : Z.abs k <= 1440).
Notation zone := (fixed_zone k).
Notation dst := no_dst.

Lemma known_fields d t : date_at k t d -> exists i, fields_of t i /\ Z.abs (year i - 1970) <= 300000 /\
  proper_fields (year i) (month i) (mday i) (hour i) (min i) (sec i) (millisec i) /\ in_range t.
Proof.
  intros [(Hd & _ & Hv) Et]. pose proof (time_value_valid _ (proj1 Hd) Hv) as Ht. rewrite Et in Ht.
  assert (in_range t) as Hr by (unfold in_range; change MsPerDay with 86400000; lia).
  destruct (computeTimeInfo_ok t zero_info Hr) as (i & _ & Hi & Hy & _). exists i. split; [assumption|]. split; [assumption|].
  split; [now apply (fields_proper t)|assumption].
Qed.

Ltac known Hi H := repeat
  match type of H with date_at _ _ ?e => match goal with |- context [get_UTC _ _ ?f e] =>
    let Hn := fresh "Hn" in
    destruct (get_known k k_small true f e _ _ ltac:(cbn; tauto) H Hi) as (? & -> & Hn);
    cbn [mbind result_bind]; clear H; rename Hn into H end end.

Lemma toISOString_fixed d t i : date_at k t d -> fields_of t i ->
  exists d', toISOString zone dst d = Ok (d', iso_text (year i) (month i) (mday i) (hour i) (min i) (sec i) (millisec i)) /\
    date_at k t d'.
Proof.
  intros H Hi. destruct (known_fields d t H) as (j & Hj & Hy & Hp & _).
  pose proof (fields_unique _ _ _ Hi Hj) as [= E1 E2 E3 E4 E5 E6 E7 _].
  assert (isValid d = true) as Hv by apply H. unfold toISOString. rewrite Hv.
  assert (fields_of (shown k true t) i) as Hs by (unfold shown; now rewrite Z.add_0_r).
  known Hs H. rewrite <- E1, <- E2, <- E3, <- E4, <- E5, <- E6, <- E7 in Hp. destruct Hp as ((Hm & Hd) & Hh & Hmi & Hsec & Hms).
  pose proof (month_length_range (year i) (month i + 1) Hm).
  unfold snprintf. match goal with |- context [(length ?x <? 64)%nat] => assert (length x <? 64 = true)%nat as -> end.
  { apply Nat.ltb_lt. unfold iso_text. pose proof (iso_year_length (year i) ltac:(lia)).
    rewrite length_app. cbn [length]. repeat (rewrite length_app, format_length by (cbn; lia); cbn [length]). lia. }
  cbn [mbind result_bind]. eauto.
Qed.

Lemma lookupZ_some {A} (l : list A) j : 0 <= j < Z.of_nat (length l) -> exists x, lookupZ l j = Some x.
Proof. intros H. exact (lookupZ_lt l j H). Qed.

Lemma letters_length m name : letters_but m name -> length name = 3%nat.
Proof. intros (a & b & c & -> & _). reflexivity. Qed.
Lemma letters_no_nul m name : letters_but m name -> no_nul name = true.
Proof.
  intros (a & b & c & -> & Ha & Hb & Hc & _). letter_facts Ha. letter_facts Hb. letter_facts Hc. rewrite !no_nul_cons. by_facts. reflexivity.
Qed.
Lemma format_year_facts y : Z.abs y < 1000000 -> (length (format_year y) <= 7)%nat /\ no_nul (format_year y) = true.
Proof.
  intros Hy. assert (forall w n, (w <= 6)%nat -> 0 <= n < 1000000 -> (length (zero_padded w n) <= 6)%nat /\ no_nul (zero_padded w n) = true) as H.
  { intros w n Hw Hn. split; [|apply no_nul_digits, zero_padded_any; lia]. unfold zero_padded. rewrite length_app, repeat_length.
    pose proof (dec_length n 6 ltac:(cbn; lia) ltac:(lia)). lia. }
  unfold format_year, format_0d. destruct (y <? 0) eqn:E; Zbool.
  - destruct (H 4%nat (- y)) as [H1 H2]; [lia..|]. cbn [Nat.sub length]. split; [lia|]. now rewrite no_nul_cons.
  - destruct (H 4%nat y) as [H1 H2]; [lia..|]. split; [lia|assumption].
Qed.

Lemma toUTCString_fixed d t i : date_at k t d -> fields_of t i ->
  exists d' day name, lookupZ days (wday i) = Some day /\ lookupZ months (month i) = Some name /\
    toUTCString zone dst d = Ok (d', utc_text day name (year i) (mday i) (hour i) (min i) (sec i)) /\ date_at k t d'.
Proof.
  intros H Hi. destruct (known_fields d t H) as (j & Hj & Hy & _ & _).
  pose proof (fields_unique _ _ _ Hi Hj) as [= E1 _ _ _ _ _ _ _]. rewrite <- E1 in Hy.
  pose proof (fields_proper t i Hi) as ((Hm & Hd) & Hh & Hmi & Hsec & _). pose proof (month_length_range (year i) (month i + 1) Hm).
  assert (0 <= wday i < 7) as Hwd by (destruct Hi as (_ & _ & _ & _ & _ & _ & ->); apply Z.mod_pos_bound; lia).
  destruct (lookupZ_some days (wday i)) as [day Eday]; [exact Hwd|].
  destruct (lookupZ_some months (month i)) as [name Ename]; [cbn; lia|].
  assert (isValid d = true) as Hv by apply H. unfold toUTCString. rewrite Hv.
  assert (fields_of (shown k true t) i) as Hs by (unfold shown; now rewrite Z.add_0_r).
  known Hs H. rewrite Eday, Ename. cbn [defined mbind result_bind]. unfold snprintf.
  assert (length (utc_text day name (year i) (mday i) (hour i) (min i) (sec i)) <? 64 = true)%nat as ->.
  { apply Nat.ltb_lt. unfold utc_text. destruct (format_year_facts (year i) ltac:(lia)) as [Hl _].
    rewrite length_app, (letters_length _ _ (day_letters _ _ Eday)). cbn [length].
    rewrite length_app, format_length by (cbn; lia). cbn [length]. rewrite length_app, (letters_length _ _ (month_letters _ _ Ename)).
    cbn [length]. rewrite length_app. cbn [length].
    repeat (rewrite length_app, format_length by (cbn; lia); cbn [length]). lia. }
  cbn [mbind result_bind]. eauto 10.
Qed.

Lemma utc_text_no_nul wd day mo name y da h mi s : lookupZ days wd = Some day -> lookupZ months mo = Some name ->
  Z.abs y < 1000000 -> 0 <= da < 100 -> 0 <= h < 100 -> 0 <= mi < 100 -> 0 <= s < 100 ->
  no_nul (utc_text day name y da h mi s) = true.
Proof.
  intros Hday Hname Hy Hda Hh Hmi Hs. apply day_letters, letters_no_nul in Hday. apply month_letters, letters_no_nul in Hname.
  destruct (format_year_facts y Hy) as [_ Ey]. unfold utc_text.
  repeat rewrite ?no_nul_app, ?no_nul_cons, ?Hday, ?Hname, ?Ey. rewrite !no_nul_format by (cbn; lia). reflexivity.
Qed.

End FixedZone.

(** The constructor from a string is a step of a date if the last resort of the
    parser gives times in range. *)
Lemma string_is_step zone dst fail icu d s d' : (forall s, time_value (icu s)) ->
  setTimeValue_string zone dst fail icu d s = Ok d' -> date_step zone dst fail d d'.
Proof.
  intros Hicu E. unfold setTimeValue_string in E. apply bind_Ok in E as (t & Et & E). injection E as <-. apply step_string.
  unfold parseStringToDate in Et. apply bind_Ok in Et as ([t2 z2] & _ & Et). apply bind_Ok in Et as (v & _ & Et). injection Et as <-.
  destruct (IS_VALID_TIME v && IS_IN_TIME_RANGE v) eqn:Ev; [|apply Hicu]. apply andb_true_iff in Ev as [_ Ev]. right. now apply in_time_range.
Qed.
End DateTextFacts.

(** * The properties *)
Module DateTextProps.
Import Iso IsoFacts Dates DateFacts DateObjects DateObjectFacts CText DateText DateTextFacts.

(** C24: In a zone of one offset, what [toISOString] prints of a valid date is read
    back by [Date.parse] as the very time of the date, for every time value, with
    years of four digits and with signed years of six; an invalid date has no such
    string but a RangeError.  (Next to a change of the offset the UTC getters, which
    [toISOString] prints, are wrong: [DateProps.UTC_hours_after_transition].) *)
Theorem iso_string_roundtrip k icu d : Z.abs k <= 1440 -> (isValid d = true -> date_fine k d) ->
  if isValid d then
    exists d' s, toISOString (fixed_zone k) no_dst d = Ok (d', s) /\ m_primitiveValue d' = m_primitiveValue d /\
      parseStringToDate (fixed_zone k) no_dst no_failure icu s = Ok (m_primitiveValue d)
  else toISOString (fixed_zone k) no_dst d = Throw RangeError.
Proof.
  intros Hk Hd. destruct (isValid d) eqn:Hv; [|unfold toISOString; now rewrite Hv]. specialize (Hd eq_refl).
  destruct (known_fields k d (m_primitiveValue d)) as (i & Hi & Hy & Hp & Hr); [now split|].
  destruct (toISOString_fixed k Hk d (m_primitiveValue d) i) as (d' & E & Hd'); [now split|assumption|].
  exists d'. eexists. split; [exact E|]. split; [apply Hd'|]. pose proof (fields_time _ _ Hi) as Et.
  unfold parseStringToDate. rewrite until_nul_id by now apply iso_text_no_nul; [|lia].
  rewrite iso_text_parse by (assumption || (unfold near; lia) || lia). unfold time_of. rewrite Et. cbn [mbind result_bind negb].
  pose proof Hv as Hv2. unfold isValid in Hv2. rewrite Hv2. cbn [mbind result_bind]. rewrite Hv2. pose proof (time_value_valid _ (proj1 (proj1 Hd)) Hv) as Ht.
  rewrite in_time_range_iff by assumption. reflexivity.
Qed.

Lemma date_fine_set k t : Z.abs t <= MaximumDatePrimitiveValue -> date_fine k (setTimeValue (new_date None) t).
Proof.
  intros Ht. split; [apply setTimeValue_ok; now right|]. split; [|now apply set_valid].
  unfold utc_ok, setTimeValue. rewrite range_valid by assumption. exact I.
Qed.
Lemma iso_string_roundtrip_witness :
  exists d' s, toISOString (fixed_zone 540) no_dst (setTimeValue (new_date None) (-1)) = Ok (d', s) /\ m_primitiveValue d' = -1 /\
    parseStringToDate (fixed_zone 540) no_dst no_failure (fun _ => 0) s = Ok (-1).
Proof.
  apply (iso_string_roundtrip 540 (fun _ => 0) (setTimeValue (new_date None) (-1))); [vm_compute; discriminate|].
  intros _. apply date_fine_set. vm_compute. discriminate.
Defined.

(** C25: In a zone of one offset, what [toUTCString] prints of a valid date is read
    back by [Date.parse], through its second parser, as the time of the date
    without its milliseconds, in all years but those from 0 to 99, which are read as
    years of 1950 to 2049. *)
Theorem utc_string_roundtrip k icu d i : Z.abs k <= 1440 -> date_fine k d -> fields_of (m_primitiveValue d) i ->
  ~ 0 <= year i < 100 ->
  exists d' s, toUTCString (fixed_zone k) no_dst d = Ok (d', s) /\ m_primitiveValue d' = m_primitiveValue d /\
    parseStringToDate (fixed_zone k) no_dst no_failure icu s = Ok (m_primitiveValue d - m_primitiveValue d mod 1000).
Proof.
  intros Hk Hd Hi H100. set (t := m_primitiveValue d) in *. assert (date_at k t d) as Hat by now split.
  destruct (toUTCString_fixed k Hk d t i Hat Hi) as (d' & day & name & Eday & Ename & E & Hd').
  exists d'. eexists. split; [exact E|]. split; [apply Hd'|].
  destruct (known_fields k d t Hat) as (j & Hj & Hy & _ & _).
  pose proof (fields_unique _ _ _ Hi Hj) as [= E1 _ _ _ _ _ _ _]. rewrite <- E1 in Hy. clear E1.
  pose proof (fields_proper t i Hi) as ((Hm & Hda) & Hh & Hmi & Hsec & Hms). pose proof (month_length_range (year i) (month i + 1) Hm).
  assert (proper_fields (year i) (month i) (mday i) (hour i) (min i) (sec i) 0) as Hp by (unfold proper_fields, valid_date; lia).
  destruct (utc_text_parse _ _ _ _ (year i) (mday i) (hour i) (min i) (sec i) Eday Ename Hp ltac:(unfold near; lia) H100) as [P2 P1].
  assert (time_of (year i) (month i) (mday i) (hour i) (min i) (sec i) 0 = t - t mod 1000) as Et.
  { pose proof (fields_time t i Hi) as Et. destruct Hi as (_ & _ & _ & _ & _ & Ems & _). rewrite Ems in Et.
    unfold time_of. change MsPerSecond with 1000 in *. lia. }
  rewrite Et in P1. assert (Z.abs t <= MaximumDatePrimitiveValue) as Ht by (apply time_value_valid; [apply Hd|apply Hd]).
  assert (Z.abs (t - t mod 1000) <= MaximumDatePrimitiveValue) as Ht' by now apply seconds_in_range.
  unfold parseStringToDate. rewrite until_nul_id by (eapply utc_text_no_nul; (eassumption || lia)).
  rewrite P2. cbn [mbind result_bind]. change (IS_VALID_TIME TIME64NAN) with false. cbn beta iota.
  rewrite P1. cbn [mbind result_bind]. rewrite (range_valid _ Ht'). cbn [negb]. rewrite Z.mul_0_l, Z.sub_0_r, int64_ok
    by (unfold MaximumDatePrimitiveValue in Ht'; lia).
  cbn [mbind result_bind]. rewrite (range_valid _ Ht'), in_time_range_iff by assumption. reflexivity.
Qed.

Lemma utc_string_roundtrip_witness :
  exists d' s, toUTCString (fixed_zone 540) no_dst (setTimeValue (new_date None) 1500) = Ok (d', s) /\ m_primitiveValue d' = 1500 /\
    parseStringToDate (fixed_zone 540) no_dst no_failure (fun _ => 0) s = Ok 1000.
Proof.
  apply (utc_string_roundtrip 540 (fun _ => 0) (setTimeValue (new_date None) 1500) (mkDateTimeInfo 1970 0 1 0 0 1 500 4 0 0)).
  - vm_compute. discriminate.
  - apply date_fine_set. vm_compute. discriminate.
  - vm_compute. repeat split; discriminate.
  - cbn [year]. lia.
Defined.

(** ** Where the code and ECMA-262 part *)
Definition bytes (s : string) : list Z := map (fun c => Z.of_nat (nat_of_ascii c)) (list_ascii_of_string s).
Definition parse (s : string) : result Z := parseStringToDate no_dst no_dst no_failure (fun _ => TIME64NAN) (bytes s).

(** A year below 100 that [toUTCString] printed is read as one near 2000. *)
Example year_50_is_1950 : parse "Sat, 01 Jan 0050 00:00:00 GMT" = Ok (make_date 1950 0 1 0 0 0 0).
Proof. vm_compute. reflexivity. Qed.

(** A fraction of one digit at the end of the string: the third character is
    behind the terminator. *)
Example fraction_reads_behind_end : parse "1970-01-01T00:00:00.1" = Undefined.
Proof. vm_compute. reflexivity. Qed.

(** A year that is out of range, with a zone: the reserved number overflows. *)
Example far_year_with_zone : parse "+2000000-01-01T00:00:00+01:00" = Undefined.
Proof. vm_compute. reflexivity. Qed.

(** The minutes of a zone are limited to an [int] only. *)
Example zone_minutes_overflow : parse "1 Jan 1970 00:00 GMT+9959:2147483646" = Undefined.
Proof. vm_compute. reflexivity. Qed.

(** The day is a [long] that becomes an [int]. *)
Example day_is_cut : parse "1970/1/4294967297" = parse "1970/1/1" /\ parse "1970/1/1" = Ok 0.
Proof. vm_compute. auto. Qed.

(** An offset below 24 minutes is read as hours. *)
Example small_offset_is_hours : parse "Thu Jan 01 1970 00:15:00 GMT+0015" = Ok (- 53100000).
Proof. vm_compute. reflexivity. Qed.

(** The minutes of the offset are lost in the quotient of doubles. *)
Example offset_minutes_rounded :
  (('(_, s) ← toTimeString (fixed_zone 320) no_dst (fun _ => bytes "X") (setTimeValue (new_date None) 0); Ok s) : result (list Z))
    = Ok (bytes "05:20:00 GMT+0519 (X)").
Proof. vm_compute. reflexivity. Qed.

(** A date that its fields made invalid overflows when it is printed. *)
Example invalid_date_overflows :
  (('(d) ← setTimeValue_fields no_dst no_dst no_failure (new_date None) 2000000 0 1 0 0 0 0 false;
    '(_, s) ← toDateString no_dst no_dst d; Ok s) : result (list Z)) = Undefined.
Proof. vm_compute. reflexivity. Qed.

End DateTextProps.
