(* ===== verification/StringOps.v ===== *)
(** Operations on strings of code units ([runtime/String.cpp],
    [runtime/StringBuilder.h], [runtime/StringBuilder.cpp], [parser/Lexer.h]):
    the white-space classes, searching and comparing, substrings and trimming,
    the piecewise string builder, and the substitution of replacement
    templates. *)
From Stdlib Require Import ZArith Lia Bool.
From stdpp Require Import base numbers list option decidable.
From S2P Require Import Prelude Unicode NumberString.

(** * White space and line terminators *)
Module WhiteSpace.

Definition LexerIsCharIdentStart : Z := Z.shiftl 1 0.
Definition LexerIsCharIdent : Z := Z.shiftl 1 1.
Definition LexerIsCharWhiteSpace : Z := Z.shiftl 1 2.
Definition LexerIsCharLineTerminator : Z := Z.shiftl 1 3.

Definition g_asciiRangeCharMap : list Z :=
  let id := Z.lor LexerIsCharIdentStart LexerIsCharIdent in
  let ws := LexerIsCharWhiteSpace in
  let lt := LexerIsCharLineTerminator in
  repeat 0 9 ++ [ws; lt; ws; ws; lt] ++ repeat 0 18 ++ [ws] ++ repeat 0 3 ++ [id] ++ repeat 0 11
  ++ repeat LexerIsCharIdent 10 ++ repeat 0 7 ++ repeat id 26 ++ [0; id; 0; 0; id; 0]
  ++ repeat id 26 ++ repeat 0 5.

Definition isWhiteSpaceSlowCase (ch : Z) : bool :=
  if ch <? 0x1680 then ch =? 0xA0
  else existsb (Z.eqb ch)
    [0x1680; 0x2000; 0x2001; 0x2002; 0x2003; 0x2004; 0x2005; 0x2006; 0x2007; 0x2008; 0x2009;
     0x200A; 0x202F; 0x205F; 0x3000; 0xFEFF].

Definition map_test (ch mask : Z) : bool :=
  match lookupZ g_asciiRangeCharMap ch with
  | Some v => negb (Z.land v mask =? 0)
  | None => false
  end.
Definition isWhiteSpace (ch : Z) : bool :=
  if ch <? 128 then map_test ch LexerIsCharWhiteSpace else isWhiteSpaceSlowCase ch.
Definition isLineTerminator (ch : Z) : bool :=
  if ch <? 128 then map_test ch LexerIsCharLineTerminator else (ch =? 0x2028) || (ch =? 0x2029).
Definition isWhiteSpaceOrLineTerminator (ch : Z) : bool :=
  if ch <? 128 then map_test ch (Z.lor LexerIsCharWhiteSpace LexerIsCharLineTerminator)
  else (ch =? 0x2028) || (ch =? 0x2029) || isWhiteSpaceSlowCase ch.

End WhiteSpace.

(** * Searching and comparing *)
Module Search.

Definition SIZE_MAX : Z := 2 ^ 64 - 1.

(** The inner loop: the units [pat] against [data] from [pos]; [None] is a read
    outside the buffer. *)
Fixpoint same_loop (data pat : list Z) (pos : Z) : option bool :=
  match pat with
  | [] => Some true
  | c :: pat => d ← lookupZ data pos; if d =? c then same_loop data pat (pos + 1) else Some false
  end.

(** The outer loop of [find]: [src0] is compared first. *)
Fixpoint find_loop (fuel : nat) (data : list Z) (src0 : Z) (rest : list Z) (limit pos : Z)
  : option Z :=
  if pos <=? limit then
    match fuel with
    | O => None
    | S fuel =>
        c ← lookupZ data pos;
        if c =? src0 then
          same ← same_loop data rest (pos + 1);
          if (same : bool) then Some pos else find_loop fuel data src0 rest limit (pos + 1)
        else find_loop fuel data src0 rest limit (pos + 1)
    end
  else Some SIZE_MAX.

Definition find (data str : list Z) (pos : Z) : option Z :=
  let size := Z.of_nat (length data) in
  let srcStrLen := Z.of_nat (length str) in
  match str with
  | [] => Some (if pos <=? size then pos else SIZE_MAX)
  | src0 :: rest =>
      if srcStrLen <=? size then find_loop (length data) data src0 rest (size - srcStrLen) pos
      else Some SIZE_MAX
  end.

(** The overload on [const char*]: the first byte is converted to [char32_t],
    the others are compared as promoted [char]s. *)
Definition find_chars (data str : list Z) (pos : Z) : option Z :=
  find data (match str with [] => [] | c :: rest => u32 (i8 c) :: map i8 rest end) pos.

(** The do-while loop of [rfind], from [pos] down to 0. *)
Fixpoint rfind_loop (data str : list Z) (pos : nat) : option Z :=
  same ← same_loop data str (Z.of_nat pos);
  if (same : bool) then Some (Z.of_nat pos)
  else match pos with O => Some SIZE_MAX | S pos => rfind_loop data str pos end.
Definition rfind (data str : list Z) (pos : Z) : option Z :=
  let srcStrLen := Z.of_nat (length str) in
  let size := Z.of_nat (length data) in
  if srcStrLen =? 0 then Some (if pos <=? size then pos else SIZE_MAX)
  else if srcStrLen <=? size then
    rfind_loop data str (Z.to_nat (if size - srcStrLen <? pos then size - srcStrLen else pos))
  else Some SIZE_MAX.

(** [stringCompare]: the position of the first difference below [lmin]. *)
Fixpoint common_loop (fuel : nat) (c1 c2 : list Z) (pos lmin : Z) : option Z :=
  match fuel with
  | O => Some pos
  | S fuel =>
      if pos <? lmin then
        a ← lookupZ c1 pos; b ← lookupZ c2 pos;
        if a =? b then common_loop fuel c1 c2 (pos + 1) lmin else Some pos
      else Some pos
  end.
Definition stringCompare (c1 c2 : list Z) : option Z :=
  let l1 := Z.of_nat (length c1) in
  let l2 := Z.of_nat (length c2) in
  let lmin := u32 (if l1 <? l2 then l1 else l2) in
  pos ← common_loop (length c1) c1 c2 0 lmin;
  if pos <? lmin then a ← lookupZ c1 pos; b ← lookupZ c2 pos; Some (if b <? a then 1 else -1)
  else if l1 =? l2 then Some 0
  else Some (if l2 <? l1 then 1 else -1).

End Search.

(** * Substrings and trimming *)
Module Slice.
Import Utf16 WhiteSpace.

Definition STRING_BUILDER_INLINE_STORAGE_DEFAULT : Z := 24.

(** [substring]: a view, or a copy of at most 24 units that is narrowed to
    8-bit storage when every unit fits. *)
Definition substring (d : StringBufferAccessData) (from to : nat) : option StringBufferAccessData :=
  if decide (to <= from)%nat then Some (mkData true [])
  else
    let len := (to - from)%nat in
    if decide (length (buffer d) < to)%nat then None
    else
      let units := take len (drop from (buffer d)) in
      if STRING_BUILDER_INLINE_STORAGE_DEFAULT <? Z.of_nat len then
        Some (mkData (has8BitContent d) units)
      else if has8BitContent d then Some (mkData true units)
      else Some (mkData (forallb (fun c => c <=? 255) units) units).

Inductive StringTrimWhere := TrimStart | TrimEnd | TrimBoth.

(** The two loops of [trim]. *)
Fixpoint trim_start (fuel : nat) (d : StringBufferAccessData) (s : Z) : option Z :=
  if s <? Z.of_nat (length (buffer d)) then
    match fuel with
    | O => None
    | S fuel =>
        c ← lookupZ (buffer d) s;
        if negb (isWhiteSpaceOrLineTerminator c) then Some s else trim_start fuel d (s + 1)
    end
  else Some s.
Fixpoint trim_end (fuel : nat) (d : StringBufferAccessData) (s e : Z) : option Z :=
  if s <=? e then
    match fuel with
    | O => None
    | S fuel =>
        c ← lookupZ (buffer d) e;
        if negb (isWhiteSpaceOrLineTerminator c) then Some e else trim_end fuel d s (e - 1)
    end
  else Some e.
Definition trim (d : StringBufferAccessData) (where_ : StringTrimWhere)
  : option StringBufferAccessData :=
  let stringLength := Z.of_nat (length (buffer d)) in
  s ← (match where_ with
       | TrimStart | TrimBoth => trim_start (length (buffer d)) d 0
       | TrimEnd => Some 0
       end);
  e ← (match where_ with
       | TrimEnd | TrimBoth => trim_end (length (buffer d)) d s (stringLength - 1)
       | TrimStart => Some (stringLength - 1)
       end);
  if (s =? 0) && (e =? stringLength - 1) then Some d
  else substring d (Z.to_nat s) (Z.to_nat (e + 1)).

End Slice.

(** * The string builder *)
Module Builder.
Import Utf16.

Definition STRING_MAXIMUM_LENGTH : Z := 1024 * 1024 * 512.

Inductive PieceType :=
  | Latin1StringPiece | UTF16StringStringPiece | UTF16StringStringButLatin1ContentPiece
  | StringPiece | ConstChar | Char | Int32Digits | Digits.

(** The union of a piece. *)
Inductive PieceValue :=
  | m_string (str : StringBufferAccessData)
  | m_raw (str : list Z) (* signed chars *)
  | m_ch (ch : Z)
  | m_int32Value (value : Z)
  | m_digitsOffset (offset : nat).

Record StringBuilderPiece := mkPiece {
  m_type : PieceType;
  m_start : nat;
  m_length : nat;
  m_value : PieceValue
}.

Record StringBuilder := mkBuilder {
  m_has8BitContent : bool;
  m_contentLength : Z;
  m_piecesInlineStorage : list StringBuilderPiece;
  m_pieces : list StringBuilderPiece;
  m_numberScratch : list Z
}.
Definition empty_builder : StringBuilder := mkBuilder true 0 [] [] [].

Section Ops.
(** The inline capacity, whether an execution state is passed (only then is
    the length limited), and the contents of a fresh buffer. *)
Context (InlineStorageSize : nat) (state : bool) (fresh : nat -> list Z).

Definition checkStringLengthLimit (b : StringBuilder) (extraLength : Z) : result unit :=
  if state && (STRING_MAXIMUM_LENGTH <? m_contentLength b + extraLength)
  then Throw RangeError else Ok tt.

(** [nextPieceSlot], the stores into the slot and the new content length. *)
Definition add_piece (b : StringBuilder) (has8 : bool) (p : StringBuilderPiece) : StringBuilder :=
  let len := m_contentLength b + Z.of_nat (m_length p) in
  if (length (m_piecesInlineStorage b) <? InlineStorageSize)%nat
  then mkBuilder has8 len (m_piecesInlineStorage b ++ [p]) (m_pieces b) (m_numberScratch b)
  else mkBuilder has8 len (m_piecesInlineStorage b) (m_pieces b ++ [p]) (m_numberScratch b).

Definition appendPiece_char (b : StringBuilder) (ch : Z) : result StringBuilder :=
  _ ← checkStringLengthLimit b 1;
  Ok (add_piece b (m_has8BitContent b && negb (255 <? ch)) (mkPiece Char 0 1 (m_ch ch))).

Definition appendPiece_string (b : StringBuilder) (str : StringBufferAccessData) (s e : nat)
  : result StringBuilder :=
  let pieceLen := (e - s)%nat in
  if (pieceLen =? 1)%nat then c ← defined (charAt str s); appendPiece_char b c
  else if (0 <? pieceLen)%nat then
    _ ← checkStringLengthLimit b (Z.of_nat pieceLen);
    if negb (has8BitContent str) then
      if existsb (fun c => 255 <? c) (take (e - s) (drop s (buffer str))) then
        Ok (add_piece b false (mkPiece UTF16StringStringPiece s pieceLen (m_string str)))
      else
        Ok (add_piece b (m_has8BitContent b)
              (mkPiece UTF16StringStringButLatin1ContentPiece s pieceLen (m_string str)))
    else Ok (add_piece b (m_has8BitContent b) (mkPiece Latin1StringPiece s pieceLen (m_string str)))
  else Ok b.

Definition appendPiece_const (b : StringBuilder) (str : list Z) : result StringBuilder :=
  let len := Z.of_nat (length str) in
  _ ← checkStringLengthLimit b len;
  let length := u16 len in
  if negb (length =? 0)
  then Ok (add_piece b (m_has8BitContent b) (mkPiece ConstChar 0 (Z.to_nat length) (m_raw str)))
  else Ok b.

Definition appendInt32Piece (b : StringBuilder) (value : Z) : result StringBuilder :=
  let len := Decimal.decimalDigitLengthOf value in
  _ ← checkStringLengthLimit b len;
  Ok (add_piece b (m_has8BitContent b) (mkPiece Int32Digits 0 (Z.to_nat len) (m_int32Value value))).

(** [digits] is the result of [dtoa]. *)
Definition appendDigitsPiece (b : StringBuilder) (digits : list Z) : result StringBuilder :=
  _ ← checkStringLengthLimit b (Z.of_nat (length digits));
  let offset := length (m_numberScratch b) in
  let b := mkBuilder (m_has8BitContent b) (m_contentLength b) (m_piecesInlineStorage b)
             (m_pieces b) (m_numberScratch b ++ digits) in
  let len := u16 (Z.of_nat (length digits)) in
  Ok (add_piece b (m_has8BitContent b) (mkPiece Digits 0 (Z.to_nat len) (m_digitsOffset offset))).

Definition appendChar32 (b : StringBuilder) (ch : Z) : result StringBuilder :=
  match utf32ToUtf16 ch with
  | [c] => appendPiece_char b c
  | [c; c2] => b ← appendPiece_char b c; appendPiece_char b c2
  | _ => Undefined
  end.

(** A copy into the buffer, narrowing to 8-bit units when it is 8-bit; outside
    either buffer the program has no behaviour. *)
Definition copy_units (has8 : bool) (buf : list Z) (at_ : nat) (data : list Z) (start len : nat)
  : result (list Z) :=
  if decide (start + len <= length data /\ at_ + len <= length buf)%nat then
    let units := take len (drop start data) in
    Ok (DecimalFacts.blit buf at_ (if has8 then map u8 units else map u16 units))
  else Undefined.

(** [processPiece], for both buffer types: the buffer and the new length. *)
Definition processPiece (has8 : bool) (scratch : list Z) (buf : list Z) (currentLength : nat)
    (piece : StringBuilderPiece) : result (list Z * nat) :=
  let l := m_length piece in
  match m_type piece, m_value piece with
  | Char, m_ch ch =>
      buf ← copy_units has8 buf currentLength [ch] 0 1; Ok (buf, (currentLength + 1)%nat)
  | ConstChar, m_raw data =>
      buf ← copy_units has8 buf currentLength data 0 l; Ok (buf, (currentLength + l)%nat)
  | Int32Digits, m_int32Value v =>
      buf ← Decimal.writeInt32Digits buf (Z.of_nat currentLength) (Z.of_nat l) v;
      Ok (buf, (currentLength + l)%nat)
  | Digits, m_digitsOffset off =>
      buf ← copy_units has8 buf currentLength scratch off l; Ok (buf, (currentLength + l)%nat)
  | StringPiece, m_string str =>
      let l := length (buffer str) in
      buf ← copy_units has8 buf currentLength (buffer str) 0 l; Ok (buf, (currentLength + l)%nat)
  | (Latin1StringPiece | UTF16StringStringPiece | UTF16StringStringButLatin1ContentPiece),
      m_string str =>
      buf ← copy_units has8 buf currentLength (buffer str) (m_start piece) l;
      Ok (buf, (currentLength + l)%nat)
  | _, _ => Undefined
  end.

Fixpoint process_all (has8 : bool) (scratch buf : list Z) (currentLength : nat)
    (ps : list StringBuilderPiece) : result (list Z * nat) :=
  match ps with
  | [] => Ok (buf, currentLength)
  | p :: ps =>
      '(buf, currentLength) ← processPiece has8 scratch buf currentLength p;
      process_all has8 scratch buf currentLength ps
  end.

(** [finalizeBase]; the builder is cleared by its caller. *)
Definition finalize (b : StringBuilder) : result StringBufferAccessData :=
  if m_contentLength b =? 0 then Ok (mkData true [])
  else if state && (STRING_MAXIMUM_LENGTH <? m_contentLength b) then Throw RangeError
  else
    let ret := fresh (Z.to_nat (m_contentLength b)) in
    '(ret, currentLength) ← process_all (m_has8BitContent b) (m_numberScratch b) ret 0
                               (m_piecesInlineStorage b);
    '(ret, currentLength) ← process_all (m_has8BitContent b) (m_numberScratch b) ret currentLength
                               (m_pieces b);
    Ok (mkData (m_has8BitContent b) ret).

(** The appends a client makes. *)
Inductive AppendOp :=
  | appendChar16 (ch : Z)
  | appendCodePoint (ch : Z)
  | appendString (str : StringBufferAccessData)
  | appendSubString (str : StringBufferAccessData) (s e : nat)
  | appendConst (str : list Z)
  | appendInt32 (value : Z)
  | appendNumber (digits : list Z).

Definition append (b : StringBuilder) (op : AppendOp) : result StringBuilder :=
  match op with
  | appendChar16 ch => appendPiece_char b ch
  | appendCodePoint ch => appendChar32 b ch
  | appendString str => appendPiece_string b str 0 (length (buffer str))
  | appendSubString str s e => appendPiece_string b str s e
  | appendConst str => appendPiece_const b str
  | appendInt32 value => appendInt32Piece b value
  | appendNumber digits => appendDigitsPiece b digits
  end.

Fixpoint append_all (b : StringBuilder) (ops : list AppendOp) : result StringBuilder :=
  match ops with
  | [] => Ok b
  | op :: ops => b ← append b op; append_all b ops
  end.
End Ops.

Example build : (b ← append_all 2 true empty_builder
    [appendChar16 0x61; appendInt32 (-7); appendString (mkData true [0x62; 0x63]); appendCodePoint 0x1F600];
    finalize true (fun n => repeat 0 n) b) = Ok (mkData false [0x61; 0x2D; 0x37; 0x62; 0x63; 0xD83D; 0xDE00]).
Proof. vm_compute. reflexivity. Qed.

End Builder.

(** * Lemmas on searching and slicing *)
Module StringFacts.
Import Utf16 WhiteSpace Search Slice.

(** The reference for searching: [str] is the slice of [data] at [i]. *)
Definition occurs (str data : list Z) (i : nat) : Prop :=
  (i + length str <= length data)%nat /\ take (length str) (drop i data) = str.
#[export] Instance occurs_dec str data i : Decision (occurs str data i).
Proof. unfold occurs. apply _. Defined.

Lemma lookupZ_nat {A} (l : list A) (i : nat) : lookupZ l (Z.of_nat i) = l !! i.
Proof. unfold lookupZ. destruct (Z.of_nat i <? 0) eqn:E; Zbool; [lia|]. now rewrite Nat2Z.id. Qed.

Lemma take_drop_cons (data : list Z) p n d :
  data !! p = Some d -> take (S n) (drop p data) = d :: take n (drop (S p) data).
Proof. intros H. now rewrite (drop_S data d p H). Qed.

Lemma same_loop_spec data pat p :
  (p + length pat <= length data)%nat ->
  same_loop data pat (Z.of_nat p) = Some (bool_decide (take (length pat) (drop p data) = pat)).
Proof.
  revert p. induction pat as [|c pat IH]; intros p L; cbn [same_loop length].
  - now rewrite take_0, bool_decide_eq_true_2.
  - cbn [length] in L.
    rewrite lookupZ_nat. destruct (lookup_lt_is_Some_2 data p ltac:(lia)) as [d Hd].
    rewrite Hd, (take_drop_cons _ _ _ _ Hd). cbn [mbind option_bind].
    destruct (d =? c) eqn:E; Zbool.
    + subst. replace (Z.of_nat p + 1) with (Z.of_nat (S p)) by lia. rewrite IH by lia.
      f_equal. apply bool_decide_ext. split; [now intros ->|now intros [= ->]].
    + rewrite bool_decide_eq_false_2; [reflexivity|now intros [= -> _]].
Qed.

Lemma occurs_cons c pat data i d :
  (i + length (c :: pat) <= length data)%nat -> data !! i = Some d ->
  occurs (c :: pat) data i <-> d = c /\ take (length pat) (drop (S i) data) = pat.
Proof.
  intros L Hd. unfold occurs. cbn [length]. rewrite (take_drop_cons _ _ _ _ Hd). split.
  - intros [_ [= -> ->]]. now split.
  - intros [-> ->]. split; [exact L|reflexivity].
Qed.

(** The result of a forward search from [p]. *)
Definition first_occurrence (str data : list Z) (p : nat) (r : Z) : Prop :=
  (r = SIZE_MAX /\ forall i, (p <= i)%nat -> ~ occurs str data i) \/
  (exists i, r = Z.of_nat i /\ (p <= i)%nat /\ occurs str data i /\
     forall j, (p <= j < i)%nat -> ~ occurs str data j).
(** The result of a backward search from [p]. *)
Definition last_occurrence (str data : list Z) (p : nat) (r : Z) : Prop :=
  (r = SIZE_MAX /\ forall i, (i <= p)%nat -> ~ occurs str data i) \/
  (exists i, r = Z.of_nat i /\ (i <= p)%nat /\ occurs str data i /\
     forall j, (i < j <= p)%nat -> ~ occurs str data j).

Lemma first_occurrence_step str data p r :
  ~ occurs str data p -> first_occurrence str data (S p) r -> first_occurrence str data p r.
Proof.
  intros Hn [[-> H]|(i & -> & Hi & Ho & H)]; [left|right].
  - split; [reflexivity|]. intros i Hi. destruct (decide (i = p)) as [->|]; [assumption|apply H; lia].
  - exists i. split_and!; [reflexivity|lia|assumption|].
    intros j Hj. destruct (decide (j = p)) as [->|]; [assumption|apply H; lia].
Qed.

Lemma find_loop_spec fuel data src0 rest p limit :
  limit = Z.of_nat (length data) - Z.of_nat (length (src0 :: rest)) ->
  0 <= limit -> limit < Z.of_nat p + Z.of_nat fuel ->
  exists r, find_loop fuel data src0 rest limit (Z.of_nat p) = Some r /\
            first_occurrence (src0 :: rest) data p r.
Proof.
  intros -> H0. cbn [length] in *. revert p. induction fuel as [|fuel IH]; intros p Hf; cbn [find_loop];
    (destruct (Z.of_nat p <=? _) eqn:E; Zbool;
     [|exists SIZE_MAX; split; [reflexivity|left; split; [reflexivity|]];
       intros i Hi [L _]; cbn [length] in L; lia]).
  { lia. }
  rewrite lookupZ_nat. destruct (lookup_lt_is_Some_2 data p ltac:(lia)) as [d Hd].
  rewrite Hd. cbn [mbind option_bind].
  pose proof (occurs_cons src0 rest data p d ltac:(simpl; lia) Hd) as Ho.
  replace (Z.of_nat p + 1) with (Z.of_nat (S p)) by lia.
  destruct (IH (S p) ltac:(lia)) as (r & Er & Hr).
  destruct (d =? src0) eqn:Ec; Zbool.
  - subst d. rewrite same_loop_spec by lia. cbn [mbind option_bind].
    case_bool_decide as Hm.
    + exists (Z.of_nat p). split; [reflexivity|right]. exists p.
      split_and!; [reflexivity|lia|now apply Ho|intros; lia].
    + exists r. split; [assumption|]. apply first_occurrence_step; [|assumption].
      rewrite Ho. now intros [_ ?].
  - exists r. split; [assumption|]. apply first_occurrence_step; [|assumption].
    rewrite Ho. now intros [? _].
Qed.

Lemma last_occurrence_step str data p r :
  ~ occurs str data (S p) -> last_occurrence str data p r -> last_occurrence str data (S p) r.
Proof.
  intros Hn [[-> H]|(i & -> & Hi & Ho & H)]; [left|right].
  - split; [reflexivity|]. intros i Hi. destruct (decide (i = S p)) as [->|]; [assumption|apply H; lia].
  - exists i. split_and!; [reflexivity|lia|assumption|].
    intros j Hj. destruct (decide (j = S p)) as [->|]; [assumption|apply H; lia].
Qed.

Lemma rfind_loop_spec data str p :
  (p + length str <= length data)%nat ->
  exists r, rfind_loop data str p = Some r /\ last_occurrence str data p r.
Proof.
  induction p as [|p IH]; intros L; cbn [rfind_loop];
    rewrite same_loop_spec by lia; cbn [mbind option_bind]; case_bool_decide as Hm.
  - exists 0. split; [reflexivity|right; exists 0%nat].
    split_and!; [reflexivity|lia|now split|intros; lia].
  - exists SIZE_MAX. split; [reflexivity|left; split; [reflexivity|]].
    intros i Hi [_ Ho]. now replace i with 0%nat in Ho by lia.
  - exists (Z.of_nat (S p)). split; [reflexivity|right; exists (S p)].
    split_and!; [reflexivity|lia|now split|intros; lia].
  - destruct IH as (r & Er & Hr); [lia|]. exists r. split; [assumption|].
    apply last_occurrence_step; [|assumption]. now intros [_ ?].
Qed.

(** The order of ECMA-262 IsLessThan on code units. *)
Fixpoint lex_compare (a b : list Z) : Z :=
  match a, b with
  | [], [] => 0
  | [], _ :: _ => -1
  | _ :: _, [] => 1
  | x :: a, y :: b => if x =? y then lex_compare a b else if y <? x then 1 else -1
  end.

Lemma common_loop_spec fuel c1 c2 p :
  (length c1 < p + fuel \/ length c1 = p + fuel)%nat -> (p <= length c1)%nat -> (p <= length c2)%nat ->
  take p c1 = take p c2 ->
  let lmin := Z.of_nat (length c1 `min` length c2) in
  exists q : nat, common_loop fuel c1 c2 (Z.of_nat p) lmin = Some (Z.of_nat q) /\
    (q <= length c1)%nat /\ (q <= length c2)%nat /\ take q c1 = take q c2 /\
    (q = length c1 `min` length c2 \/ exists a b, c1 !! q = Some a /\ c2 !! q = Some b /\ a <> b)%nat.
Proof.
  cbn zeta. revert p. induction fuel as [|fuel IH]; intros p Hf H1 H2 Ht; cbn [common_loop].
  - exists p. split_and!; [reflexivity|lia|lia|assumption|left; lia].
  - destruct (Z.of_nat p <? _) eqn:E; Zbool.
    + rewrite !lookupZ_nat.
      destruct (lookup_lt_is_Some_2 c1 p ltac:(lia)) as [a Ha].
      destruct (lookup_lt_is_Some_2 c2 p ltac:(lia)) as [b Hb].
      rewrite Ha, Hb. cbn [mbind option_bind].
      destruct (a =? b) eqn:Eab; Zbool.
      * subst b. replace (Z.of_nat p + 1) with (Z.of_nat (S p)) by lia.
        apply IH; [lia|lia|lia|].
        now rewrite (take_S_r _ _ _ Ha), (take_S_r _ _ _ Hb), Ht.
      * exists p. split_and!; [reflexivity|lia|lia|assumption|right; now exists a, b].
    + exists p. split_and!; [reflexivity|lia|lia|assumption|left; lia].
Qed.

Lemma lex_compare_app l a b : lex_compare (l ++ a) (l ++ b) = lex_compare a b.
Proof. induction l as [|x l IH]; simpl; [reflexivity|]. now rewrite Z.eqb_refl. Qed.

Lemma lex_compare_refl a : lex_compare a a = 0.
Proof. induction a as [|x a IH]; simpl; [reflexivity|]. now rewrite Z.eqb_refl. Qed.

Lemma lex_compare_eq a b : lex_compare a b = 0 -> a = b.
Proof.
  revert b. induction a as [|x a IH]; intros [|y b]; simpl; try discriminate; [reflexivity|].
  destruct (x =? y) eqn:E; Zbool; [intros H; f_equal; [assumption|now apply IH]|].
  destruct (y <? x); discriminate.
Qed.

Lemma lex_compare_antisym a b : lex_compare b a = - lex_compare a b.
Proof.
  revert b. induction a as [|x a IH]; intros [|y b]; simpl; try reflexivity.
  rewrite Z.eqb_sym. destruct (x =? y) eqn:E; Zbool; [apply IH|].
  destruct (x <? y) eqn:E1, (y <? x) eqn:E2; Zbool; lia.
Qed.

Lemma stringCompare_spec c1 c2 :
  Z.of_nat (length c1) < 2 ^ 32 -> Z.of_nat (length c2) < 2 ^ 32 ->
  stringCompare c1 c2 = Some (lex_compare c1 c2).
Proof.
  intros L1 L2. unfold stringCompare.
  assert (u32 (if Z.of_nat (length c1) <? Z.of_nat (length c2) then Z.of_nat (length c1)
               else Z.of_nat (length c2)) = Z.of_nat (length c1 `min` length c2)) as ->.
  { destruct (_ <? _) eqn:E; Zbool; rewrite wrapu_id by (unfold in_u; lia); lia. }
  destruct (common_loop_spec (length c1) c1 c2 0) as (q & Eq & Q1 & Q2 & Qt & Qd);
    [right; lia|lia|lia|reflexivity|]. change (Z.of_nat 0) with 0 in Eq. rewrite Eq. cbn [mbind option_bind]. rewrite !lookupZ_nat.
  assert (lex_compare c1 c2 = lex_compare (drop q c1) (drop q c2)) as ->.
  { rewrite <- (take_drop q c1) at 1. rewrite <- (take_drop q c2) at 1.
    now rewrite Qt, lex_compare_app. }
  destruct Qd as [->|(a & b & Ha & Hb & Hne)].
  - destruct (_ <? _) eqn:E at 1; Zbool; [lia|]. clear E.
    destruct (Z.of_nat (length c1) =? Z.of_nat (length c2)) eqn:E; Zbool.
    + rewrite !drop_ge by lia. reflexivity.
    + destruct (Z.of_nat (length c2) <? Z.of_nat (length c1)) eqn:E1; Zbool.
      * rewrite (drop_ge c2) by lia. pose proof (length_drop c1 (length c1 `min` length c2)).
        destruct (drop _ c1); simpl in *; [lia|reflexivity].
      * rewrite (drop_ge c1) by lia. pose proof (length_drop c2 (length c1 `min` length c2)).
        destruct (drop _ c2); simpl in *; [lia|reflexivity].
  - apply lookup_lt_Some in Ha as L3. apply lookup_lt_Some in Hb as L4.
    destruct (_ <? _) eqn:E at 1; Zbool; [|lia]. rewrite Ha, Hb. cbn [mbind option_bind].
    rewrite (drop_S _ _ _ Ha), (drop_S _ _ _ Hb). simpl.
    destruct (a =? b) eqn:Eab; Zbool; [congruence|reflexivity].
Qed.

(** ECMA-262 WhiteSpace and LineTerminator code points. *)
Definition ecma_white_space : list Z :=
  [9; 10; 11; 12; 13; 32; 0xA0; 0x1680; 0x2000; 0x2001; 0x2002; 0x2003; 0x2004; 0x2005; 0x2006;
   0x2007; 0x2008; 0x2009; 0x200A; 0x2028; 0x2029; 0x202F; 0x205F; 0x3000; 0xFEFF].
Definition ecma_white (c : Z) : bool := existsb (Z.eqb c) ecma_white_space.

Lemma existsb_eqb_false c l : Forall (fun x => x < c) l -> existsb (Z.eqb c) l = false.
Proof.
  induction 1 as [|x l H _ IH]; simpl; [reflexivity|]. rewrite IH, orb_false_r.
  apply Z.eqb_neq. lia.
Qed.

Lemma isWhiteSpaceOrLineTerminator_spec c :
  in_u 16 c -> isWhiteSpaceOrLineTerminator c = ecma_white c.
Proof.
  intros H. unfold in_u in H. unfold isWhiteSpaceOrLineTerminator.
  destruct (c <? 128) eqn:E; Zbool.
  - assert (range_forallb (fun c => Bool.eqb (map_test c (Z.lor LexerIsCharWhiteSpace LexerIsCharLineTerminator))
      (ecma_white c)) 0 128 = true) as R by (vm_compute; reflexivity).
    apply eqb_prop. apply (range_forallb_spec _ 128 0 R). simpl. lia.
  - unfold ecma_white, isWhiteSpaceSlowCase, ecma_white_space.
    change [9; 10; 11; 12; 13; 32; 0xA0; 0x1680; 0x2000; 0x2001; 0x2002; 0x2003; 0x2004; 0x2005; 0x2006;
      0x2007; 0x2008; 0x2009; 0x200A; 0x2028; 0x2029; 0x202F; 0x205F; 0x3000; 0xFEFF]
      with ([9; 10; 11; 12; 13; 32] ++ 0xA0 :: [0x1680; 0x2000; 0x2001; 0x2002; 0x2003; 0x2004; 0x2005;
      0x2006; 0x2007; 0x2008; 0x2009; 0x200A; 0x2028; 0x2029; 0x202F; 0x205F; 0x3000; 0xFEFF]).
    rewrite existsb_app, (existsb_eqb_false c [9; 10; 11; 12; 13; 32]) by (repeat constructor; lia).
    destruct (c <? 0x1680) eqn:E1; Zbool; simpl.
    + repeat match goal with
      | |- context [c =? ?n] => lazymatch n with 0xA0 => fail | _ => 
          replace (c =? n) with false by (symmetry; apply Z.eqb_neq; lia) end
      end. now rewrite !orb_false_r.
    + replace (c =? 0xA0) with false by (symmetry; apply Z.eqb_neq; lia). simpl.
      destruct (c =? 0x2028), (c =? 0x2029); simpl; rewrite ?orb_true_r; reflexivity.
Qed.

(** ECMA-262 TrimString. *)
Fixpoint strip (l : list Z) : list Z :=
  match l with [] => [] | c :: l' => if ecma_white c then strip l' else l end.
Definition strip_end (l : list Z) : list Z := rev (strip (rev l)).
Definition trim_string (where_ : StringTrimWhere) (l : list Z) : list Z :=
  match where_ with
  | TrimStart => strip l
  | TrimEnd => strip_end l
  | TrimBoth => strip_end (strip l)
  end.

Lemma strip_end_snoc l c : strip_end (l ++ [c]) = if ecma_white c then strip_end l else l ++ [c].
Proof.
  unfold strip_end. rewrite rev_app_distr. simpl.
  destruct (ecma_white c); [reflexivity|]. simpl. now rewrite rev_involutive.
Qed.

Lemma trim_start_spec d fuel s :
  Forall (in_u 16) (buffer d) -> (length (buffer d) <= s + fuel)%nat -> (s <= length (buffer d))%nat ->
  exists s' : nat, trim_start fuel d (Z.of_nat s) = Some (Z.of_nat s') /\
    (s <= s' <= length (buffer d))%nat /\ drop s' (buffer d) = strip (drop s (buffer d)).
Proof.
  intros Hu. revert s. induction fuel as [|fuel IH]; intros s Hf Hs; cbn [trim_start];
    (destruct (Z.of_nat s <? _) eqn:E; Zbool;
     [|exists s; rewrite drop_ge by lia; split_and!; [reflexivity|lia|lia|reflexivity]]).
  { lia. }
  rewrite lookupZ_nat. destruct (lookup_lt_is_Some_2 (buffer d) s ltac:(lia)) as [c Hc].
  rewrite Hc. cbn [mbind option_bind].
  rewrite isWhiteSpaceOrLineTerminator_spec by (eapply Forall_lookup_1; eassumption).
  rewrite (drop_S _ _ _ Hc). cbn [strip]. destruct (ecma_white c); cbn [negb].
  - replace (Z.of_nat s + 1) with (Z.of_nat (S s)) by lia.
    destruct (IH (S s)) as (s' & Es & Hs' & Hd); [lia|lia|]. exists s'. split_and!; [assumption|lia|lia|assumption].
  - exists s. split_and!; [reflexivity|lia|lia|now apply drop_S].
Qed.

Lemma trim_end_spec d s n fuel :
  Forall (in_u 16) (buffer d) -> (s <= n <= length (buffer d))%nat -> (n <= s + fuel)%nat ->
  exists m : nat, trim_end fuel d (Z.of_nat s) (Z.of_nat n - 1) = Some (Z.of_nat m - 1) /\
    (s <= m <= n)%nat /\ drop s (take m (buffer d)) = strip_end (drop s (take n (buffer d))).
Proof.
  intros Hu. revert n. induction fuel as [|fuel IH]; intros n Hn Hf; cbn [trim_end];
    (destruct (Z.of_nat s <=? _) eqn:E; Zbool;
     [|exists n; rewrite drop_ge by (rewrite length_take; lia); split_and!; [reflexivity|lia|lia|reflexivity]]).
  { lia. }
  destruct n as [|n]; [lia|]. replace (Z.of_nat (S n) - 1) with (Z.of_nat n) by lia.
  rewrite lookupZ_nat. destruct (lookup_lt_is_Some_2 (buffer d) n ltac:(lia)) as [c Hc].
  rewrite Hc. cbn [mbind option_bind].
  rewrite isWhiteSpaceOrLineTerminator_spec by (eapply Forall_lookup_1; eassumption).
  rewrite (take_S_r _ _ _ Hc), drop_app_le, strip_end_snoc by (rewrite length_take; lia).
  destruct (ecma_white c); cbn [negb].
  - destruct (IH n) as (m & Em & Hm & Hd); [lia|lia|]. exists m. split_and!; [assumption|lia|lia|assumption].
  - exists (S n). split_and!; [f_equal; lia|lia|lia|].
    now rewrite (take_S_r _ _ _ Hc), drop_app_le by (rewrite length_take; lia).
Qed.

(** [substring] is the slice, and narrows the storage only when it can. *)
Lemma substring_spec d from to :
  data_ok d -> (from <= to <= length (buffer d))%nat ->
  exists d', substring d from to = Some d' /\ data_ok d' /\
             buffer d' = take (to - from) (drop from (buffer d)).
Proof.
  intros Hok H. unfold substring. case_decide.
  - exists (mkData true []). replace (to - from)%nat with 0%nat by lia.
    split_and!; [reflexivity|constructor|reflexivity].
  - case_decide; [lia|].
    assert (Forall (in_u (if has8BitContent d then 8 else 16)) (take (to - from) (drop from (buffer d)))) as F
      by now apply Forall_take, Forall_drop.
    destruct (_ <? _); [|destruct (has8BitContent d) eqn:E8]; eexists; (split; [reflexivity|]);
      (split; [|reflexivity]); unfold data_ok; simpl; rewrite ?E8; try assumption.
    destruct (forallb _ _) eqn:Eb; [|assumption].
    rewrite forallb_forall in Eb. apply Forall_forall. intros x Hx.
    specialize (Eb x Hx); Zbool. rewrite Forall_forall in F. specialize (F x Hx).
    unfold in_u in *. lia.
Qed.

Lemma trim_spec d w : data_ok d ->
  exists d', trim d w = Some d' /\ data_ok d' /\ buffer d' = trim_string w (buffer d).
Proof.
  intros Hok. pose proof (Utf8Facts.data_ok_16 d Hok) as Hu. unfold trim. set (L := length (buffer d)).
  assert (exists s : nat, (match w with TrimStart | TrimBoth => trim_start L d 0 | TrimEnd => Some 0 end)
      = Some (Z.of_nat s) /\ (s <= L)%nat /\
      drop s (buffer d) = match w with TrimEnd => buffer d | _ => strip (buffer d) end) as (s & -> & Hs & Ds).
  { destruct w; [| |].
    2: { exists 0%nat. split_and!; [reflexivity|lia|reflexivity]. }
    all: destruct (trim_start_spec d L 0 Hu) as (s & Es & Hs & Ds); [lia|lia|];
      exists s; split_and!; [assumption|lia|assumption]. }
  cbn [mbind option_bind].
  assert (exists m : nat, (match w with TrimEnd | TrimBoth => trim_end L d (Z.of_nat s) (Z.of_nat L - 1)
      | TrimStart => Some (Z.of_nat L - 1) end) = Some (Z.of_nat m - 1) /\ (s <= m <= L)%nat /\
      drop s (take m (buffer d)) = trim_string w (buffer d)) as (m & -> & Hm & Dm).
  { destruct w.
    1: { exists L. split_and!; [reflexivity|lia|lia|]. unfold L. rewrite take_ge by lia. exact Ds. }
    all: destruct (trim_end_spec d s L L Hu) as (m & Em & Hm & Dm); [lia|lia|];
      exists m; split_and!; [assumption|lia|lia|]; unfold L in Dm; rewrite Dm, take_ge, Ds by lia; reflexivity. }
  cbn [mbind option_bind].
  destruct ((Z.of_nat s =? 0) && (Z.of_nat m - 1 =? Z.of_nat L - 1)) eqn:E.
  - apply andb_prop in E as [E1 E2]; Zbool. exists d. split_and!; [reflexivity|assumption|].
    rewrite <- Dm. replace s with 0%nat by lia. replace m with L by lia. unfold L. now rewrite take_ge.
  - replace (Z.to_nat (Z.of_nat m - 1 + 1)) with m by lia. rewrite Nat2Z.id.
    destruct (substring_spec d s m Hok ltac:(lia)) as (d' & -> & Hok' & Hb).
    exists d'. split_and!; [reflexivity|assumption|]. rewrite Hb, <- Dm. symmetry.
    replace m with (s + (m - s))%nat at 1 by lia. now rewrite firstn_skipn_comm.
Qed.

End StringFacts.

(** * The builder refines concatenation *)
Module BuilderFacts.
Import Utf16 Builder DecimalFacts.

(** What an append adds, and when the operation is well formed: strings within
    their storage, and [char] data in ASCII and below the 16-bit piece length. *)
Definition op_text (op : AppendOp) : list Z :=
  match op with
  | appendChar16 ch => [ch]
  | appendCodePoint ch => utf32ToUtf16 ch
  | appendString str => buffer str
  | appendSubString str s e => take (e - s) (drop s (buffer str))
  | appendConst str => str
  | appendInt32 v => int_dec v
  | appendNumber digits => digits
  end.
Definition ascii (s : list Z) : Prop := Forall (in_u 7) s /\ Z.of_nat (length s) < 2 ^ 16.
Definition op_ok (op : AppendOp) : Prop :=
  match op with
  | appendChar16 ch => in_u 16 ch
  | appendCodePoint ch => in_u 32 ch
  | appendString str => data_ok str
  | appendSubString str s e => data_ok str /\ (s <= e <= length (buffer str))%nat
  | appendConst str => ascii str
  | appendInt32 v => in_s 32 v
  | appendNumber digits => ascii digits
  end.

(** The text a piece stands for. *)
Definition piece_text (scratch : list Z) (p : StringBuilderPiece) : list Z :=
  match m_value p with
  | m_ch c => [c]
  | m_raw s => take (m_length p) s
  | m_int32Value v => int_dec v
  | m_digitsOffset off => take (m_length p) (drop off scratch)
  | m_string str => take (m_length p) (drop (m_start p) (buffer str))
  end.
Definition piece_ok (scratch : list Z) (p : StringBuilderPiece) : Prop :=
  match m_type p, m_value p with
  | Char, m_ch c => in_u 16 c
  | ConstChar, m_raw s => Forall (in_u 7) s /\ (m_length p <= length s)%nat
  | Int32Digits, m_int32Value v => in_s 32 v
  | Digits, m_digitsOffset off => (off + m_length p <= length scratch)%nat
  | (Latin1StringPiece | UTF16StringStringPiece | UTF16StringStringButLatin1ContentPiece), m_string str =>
      (m_start p + m_length p <= length (buffer str))%nat
  | _, _ => False
  end /\ m_length p = length (piece_text scratch p).

Definition latin1 (s : list Z) : bool := forallb (fun c => c <=? 255) s.

Definition builder_ok (N : nat) (b : StringBuilder) (s : list Z) : Prop :=
  let ps := m_piecesInlineStorage b ++ m_pieces b in
  Forall (piece_ok (m_numberScratch b)) ps /\
  ((length (m_piecesInlineStorage b) < N)%nat -> m_pieces b = []) /\
  concat (map (piece_text (m_numberScratch b)) ps) = s /\
  m_contentLength b = Z.of_nat (length s) /\
  m_has8BitContent b = latin1 s /\ Forall (in_u 16) s.

Lemma wrap_units (has8 : bool) s :
  Forall (in_u (if has8 then 8 else 16)) s -> (if has8 then map u8 s else map u16 s) = s.
Proof.
  intros H. destruct has8; induction H as [|x s Hx _ IH]; simpl; [reflexivity| |reflexivity|];
    now rewrite IH, wrapu_id.
Qed.

Lemma latin1_units s (has8 : bool) :
  (has8 = true -> latin1 s = true) -> Forall (in_u 16) s -> Forall (in_u (if has8 then 8 else 16)) s.
Proof.
  destruct has8; [|tauto]. intros E H. specialize (E eq_refl). unfold latin1 in E.
  rewrite forallb_forall in E. rewrite Forall_forall in *. intros x Hx.
  specialize (H x Hx). specialize (E x Hx). Zbool. unfold in_u in *. lia.
Qed.

Lemma copy_units_spec (has8 : bool) buf at_ data start len text :
  text = take len (drop start data) -> (start + len <= length data)%nat ->
  (at_ + len <= length buf)%nat -> Forall (in_u (if has8 then 8 else 16)) text ->
  copy_units has8 buf at_ data start len = Ok (blit buf at_ text).
Proof.
  intros -> L1 L2 F. unfold copy_units. case_decide; [|lia]. now rewrite wrap_units.
Qed.

Lemma processPiece_spec (has8 : bool) scratch buf at_ p :
  piece_ok scratch p -> (at_ + m_length p <= length buf)%nat ->
  Forall (in_u (if has8 then 8 else 16)) (piece_text scratch p) ->
  processPiece has8 scratch buf at_ p
  = Ok (blit buf at_ (piece_text scratch p), (at_ + m_length p)%nat).
Proof.
  intros [Hp Hl] L F. unfold processPiece, piece_ok, piece_text in *. destruct p as [ty st l v].
  cbn [m_type m_start m_length m_value] in *.
  destruct ty, v; try contradiction;
    try (rewrite (copy_units_spec _ _ _ _ _ _ _ eq_refl) by (assumption || lia); reflexivity).
  - simpl in Hl. subst l. rewrite (copy_units_spec _ _ _ [ch] 0 1 [ch] eq_refl) by (assumption || simpl; lia).
    reflexivity.
  - subst l. rewrite <- decimalDigitLengthOf_spec, writeInt32Digits_spec by assumption. reflexivity.
Qed.

Lemma blit_nil buf at_ : blit buf at_ [] = buf.
Proof. unfold blit. simpl. now rewrite Nat.add_0_r, take_drop. Qed.

Lemma process_all_spec (has8 : bool) scratch ps : Forall (piece_ok scratch) ps ->
  forall buf at_, let text := concat (map (piece_text scratch) ps) in
  (at_ + length text <= length buf)%nat -> Forall (in_u (if has8 then 8 else 16)) text ->
  process_all has8 scratch buf at_ ps = Ok (blit buf at_ text, (at_ + length text)%nat).
Proof.
  induction 1 as [|p ps Hp _ IH]; intros buf at_ text L F; unfold text in *; cbn [process_all map concat] in *.
  - simpl. now rewrite blit_nil, Nat.add_0_r.
  - rewrite length_app in *. apply Forall_app in F as [F1 F2].
    pose proof (proj2 Hp) as Hl.
    rewrite processPiece_spec by (assumption || lia). cbn [mbind result_bind]. rewrite Hl.
    rewrite IH by (rewrite ?blit_length; assumption || lia).
    rewrite blit_app by lia. f_equal. f_equal. lia.
Qed.

(** Growing the scratch area keeps the pieces. *)
Lemma piece_scratch_app scratch more p : piece_ok scratch p ->
  piece_ok (scratch ++ more) p /\ piece_text (scratch ++ more) p = piece_text scratch p.
Proof.
  intros [Hp Hl].
  assert (piece_text (scratch ++ more) p = piece_text scratch p) as E.
  { unfold piece_text, piece_ok in *. destruct p as [ty st l v]; cbn [m_type m_start m_length m_value] in *.
    destruct ty, v; try contradiction; try reflexivity.
    rewrite drop_app_le, take_app_le by (rewrite ?length_drop; lia). reflexivity. }
  split; [|assumption]. split; [|congruence].
  unfold piece_ok in *. destruct p as [ty st l v]; cbn [m_type m_start m_length m_value] in *.
  destruct ty, v; try contradiction; try assumption. rewrite length_app. lia.
Qed.

Lemma latin1_app s t : latin1 (s ++ t) = latin1 s && latin1 t.
Proof. apply forallb_app. Qed.

(** Adding a well-formed piece appends its text. *)
Lemma add_piece_ok N b s has8 p :
  builder_ok N b s -> piece_ok (m_numberScratch b) p -> Forall (in_u 16) (piece_text (m_numberScratch b) p) ->
  has8 = latin1 s && latin1 (piece_text (m_numberScratch b) p) ->
  builder_ok N (add_piece N b has8 p) (s ++ piece_text (m_numberScratch b) p).
Proof.
  intros (Hf & Hi & Hc & Hlen & H8 & Hu) Hp Hpu ->. destruct b as [h8 len inl ps scr].
  cbn [m_has8BitContent m_contentLength m_piecesInlineStorage m_pieces m_numberScratch] in *.
  assert (forall l, concat (map (piece_text scr) (l ++ [p])) = concat (map (piece_text scr) l) ++ piece_text scr p) as Ec.
  { intros l. rewrite map_app, concat_app. simpl. now rewrite app_nil_r. }
  unfold add_piece, builder_ok.
  cbn [m_has8BitContent m_contentLength m_piecesInlineStorage m_pieces m_numberScratch].
  destruct (length inl <? N)%nat eqn:E;
    cbn [m_has8BitContent m_contentLength m_piecesInlineStorage m_pieces m_numberScratch].
  - apply Nat.ltb_lt in E. specialize (Hi E). subst ps. rewrite app_nil_r in *.
    split_and!; [|intros _; reflexivity|now rewrite Ec, Hc| |now rewrite latin1_app|now apply Forall_app].
    + apply Forall_app. split; [assumption|now constructor].
    + rewrite length_app, <- (proj2 Hp). lia.
  - apply Nat.ltb_ge in E. rewrite app_assoc.
    split_and!; [|intros; lia|now rewrite Ec, Hc| |now rewrite latin1_app|now apply Forall_app].
    + apply Forall_app. split; [assumption|now constructor].
    + rewrite length_app, <- (proj2 Hp). lia.
Qed.

Lemma utf32ToUtf16_units ch : in_u 32 ch ->
  (exists c, utf32ToUtf16 ch = [c] /\ in_u 16 c) \/
  (exists c c2, utf32ToUtf16 ch = [c; c2] /\ in_u 16 c /\ in_u 16 c2).
Proof.
  unfold in_u. intros H. unfold utf32ToUtf16. repeat Zcase.
  - left. eexists. split; [reflexivity|lia].
  - left. eexists. split; [reflexivity|]. rewrite (land_low_mask 16) by lia. apply Z.mod_pos_bound. lia.
  - right. eexists _, _. split; [reflexivity|]. split; apply wrapu_range; lia.
  - left. eexists. split; [reflexivity|lia].
Qed.

(** An append of [text]: a RangeError exactly when the limit applies and the
    new length exceeds it, otherwise a builder of the longer text. *)
Definition appends (N : nat) (state : bool) (s text : list Z) (r : result StringBuilder) : Prop :=
  if state && (STRING_MAXIMUM_LENGTH <? Z.of_nat (length (s ++ text))) then r = Throw RangeError
  else exists b', r = Ok b' /\ builder_ok N b' (s ++ text).

Lemma check_add N state b s len has8 p :
  builder_ok N b s -> piece_ok (m_numberScratch b) p ->
  let text := piece_text (m_numberScratch b) p in
  len = Z.of_nat (length text) -> Forall (in_u 16) text -> has8 = latin1 s && latin1 text ->
  appends N state s text
    (_ ← checkStringLengthLimit state b len; Ok (add_piece N b has8 p)).
Proof.
  intros Hb Hp text -> Hu H8. unfold text in *. clear text. unfold appends, checkStringLengthLimit.
  pose proof Hb as (_ & _ & _ & -> & _). rewrite length_app, Nat2Z.inj_add.
  destruct (state && _); [reflexivity|]. eexists. split; [reflexivity|]. now apply add_piece_ok.
Qed.

Lemma char_ok N state b s c : builder_ok N b s -> in_u 16 c ->
  appends N state s [c] (appendPiece_char N state b c).
Proof.
  intros Hb Hc. unfold appendPiece_char.
  apply (check_add N state b s 1 _ (mkPiece Char 0 1 (m_ch c)) Hb); [split; [assumption|reflexivity]|reflexivity| |].
  - now constructor.
  - destruct Hb as (_ & _ & _ & _ & -> & _). simpl. rewrite andb_true_r. f_equal.
    rewrite Z.ltb_antisym. now rewrite negb_involutive.
Qed.

Lemma latin1_8 s : Forall (in_u 8) s -> latin1 s = true.
Proof.
  intros H. unfold latin1. apply forallb_forall. rewrite Forall_forall in H. intros x Hx.
  specialize (H x Hx). unfold in_u in H. apply Z.leb_le. lia.
Qed.

Lemma latin1_exists l : latin1 l = negb (existsb (fun c => 255 <? c) l).
Proof.
  induction l as [|c l IH]; simpl; [reflexivity|]. rewrite IH, negb_orb. f_equal.
  now rewrite Z.leb_antisym.
Qed.

Definition within (state : bool) (s : list Z) : Prop :=
  state = true -> Z.of_nat (length s) <= STRING_MAXIMUM_LENGTH.

Lemma appends_nil N state b s : builder_ok N b s -> within state s -> appends N state s [] (Ok b).
Proof.
  intros Hb Hw. unfold appends. rewrite app_nil_r.
  destruct (state && _) eqn:E; [|now exists b].
  apply andb_prop in E as [E1 E2]; Zbool. specialize (Hw E1). lia.
Qed.

Lemma string_ok N state b s str f e :
  builder_ok N b s -> within state s -> data_ok str -> (f <= e <= length (buffer str))%nat ->
  appends N state s (take (e - f) (drop f (buffer str))) (appendPiece_string N state b str f e).
Proof.
  intros Hb Hw Hok H. unfold appendPiece_string.
  pose proof (Utf8Facts.data_ok_16 str Hok) as Hu.
  assert (length (take (e - f) (drop f (buffer str))) = (e - f)%nat) as Hlen
    by (rewrite length_take, length_drop; lia).
  destruct (e - f =? 1)%nat eqn:E1.
  - apply Nat.eqb_eq in E1. rewrite E1.
    destruct (lookup_lt_is_Some_2 (buffer str) f ltac:(lia)) as [c Hc].
    unfold charAt. rewrite Hc, (drop_S _ _ _ Hc). cbn [defined mbind result_bind].
    replace (take 1 (c :: drop (S f) (buffer str))) with [c] by reflexivity.
    apply char_ok; [assumption|]. eapply Forall_lookup_1; eassumption.
  - apply Nat.eqb_neq in E1. destruct (0 <? e - f)%nat eqn:E2.
    2: { apply Nat.ltb_ge in E2. replace (e - f)%nat with 0%nat by lia. now apply appends_nil. }
    set (text := take (e - f) (drop f (buffer str))) in *.
    assert (forall has8 ty, match ty with Latin1StringPiece | UTF16StringStringPiece
        | UTF16StringStringButLatin1ContentPiece => True | _ => False end ->
        has8 = latin1 s && latin1 text ->
        appends N state s text (_ ← checkStringLengthLimit state b (Z.of_nat (e - f));
           Ok (add_piece N b has8 (mkPiece ty f (e - f) (m_string str))))) as G.
    { intros has8 ty Hty H8.
      apply (check_add N state b s _ has8 (mkPiece ty f (e - f) (m_string str)) Hb); cbn; fold text.
      - split; [destruct ty; try contradiction; cbn; lia|]. unfold piece_text; cbn. fold text. now rewrite Hlen.
      - now rewrite Hlen.
      - apply Forall_take. now apply Forall_drop.
      - assumption. }
    pose proof Hb as (_ & _ & _ & _ & H8 & _).
    destruct (has8BitContent str) eqn:E8; cbn [negb].
    + apply G; [exact I|]. rewrite H8.
      rewrite (latin1_8 text), andb_true_r; [reflexivity|].
      unfold data_ok in Hok. rewrite E8 in Hok. apply Forall_take. now apply Forall_drop.
    + fold text. pose proof (latin1_exists text) as El.
      destruct (existsb _ text); (apply G; [exact I|]); rewrite El; cbn [negb].
      * now rewrite andb_false_r.
      * now rewrite andb_true_r.
Qed.

Lemma ascii_facts t : ascii t -> Forall (in_u 16) t /\ latin1 t = true /\ u16 (Z.of_nat (length t)) = Z.of_nat (length t).
Proof.
  intros [H L]. split_and!.
  - eapply Forall_impl; [|exact H]. unfold in_u. simpl. lia.
  - apply latin1_8. eapply Forall_impl; [|exact H]. unfold in_u. simpl. lia.
  - apply wrapu_id. unfold in_u. lia.
Qed.

Lemma const_ok N state b s t : builder_ok N b s -> within state s -> ascii t ->
  appends N state s t (appendPiece_const N state b t).
Proof.
  intros Hb Hw Ht. destruct (ascii_facts t Ht) as (Hu & H8 & Hl). unfold appendPiece_const. rewrite Hl.
  pose proof Hb as (_ & _ & _ & Hlen & Hb8 & _).
  destruct (Z.of_nat (length t) =? 0) eqn:E; Zbool; cbn [negb].
  - destruct t; [|simpl in E; lia]. pose proof (appends_nil N state b s Hb Hw) as A. unfold appends in *.
    unfold checkStringLengthLimit. rewrite Hlen, app_nil_r in *. simpl length. rewrite Z.add_0_r.
    destruct (state && _); [reflexivity|assumption].
  - rewrite Nat2Z.id.
    pose proof (check_add N state b s (Z.of_nat (length t)) (m_has8BitContent b)
      (mkPiece ConstChar 0 (length t) (m_raw t)) Hb) as G.
    unfold piece_text in G; cbn [m_value m_length] in G. rewrite take_ge in G by lia.
    apply G; [|reflexivity|assumption|now rewrite H8, andb_true_r].
    split; [split; [apply Ht|cbn; lia]|]. unfold piece_text; cbn. now rewrite take_ge.
Qed.

Lemma int_dec_ascii v : in_s 32 v -> Forall (in_u 7) (int_dec v).
Proof.
  intros H. rewrite int_dec_abs. apply Forall_app. split.
  - destruct (v <? 0); repeat constructor; lia.
  - pose proof (dec_digits (Z.abs v) ltac:(lia)) as D. rewrite forallb_forall in D.
    apply Forall_forall. intros x Hx. specialize (D x Hx). apply is_digit_range in D. unfold in_u. lia.
Qed.

Lemma int32_ok N state b s v : builder_ok N b s -> in_s 32 v ->
  appends N state s (int_dec v) (appendInt32Piece N state b v).
Proof.
  intros Hb Hv. unfold appendInt32Piece. rewrite decimalDigitLengthOf_spec, Nat2Z.id by assumption.
  destruct (ascii_facts (int_dec v)) as (Hu & H8 & _).
  { split; [now apply int_dec_ascii|]. pose proof (int_dec_length v Hv). lia. }
  apply (check_add N state b s _ _ (mkPiece Int32Digits 0 (length (int_dec v)) (m_int32Value v)) Hb);
    [split; [assumption|reflexivity]|reflexivity|assumption|].
  destruct Hb as (_ & _ & _ & _ & -> & _). unfold piece_text; cbn [m_value]. now rewrite H8, andb_true_r.
Qed.

Lemma builder_scratch N b s more : builder_ok N b s ->
  builder_ok N (mkBuilder (m_has8BitContent b) (m_contentLength b) (m_piecesInlineStorage b)
                 (m_pieces b) (m_numberScratch b ++ more)) s.
Proof.
  intros (Hf & Hi & Hc & Hrest). unfold builder_ok. cbn.
  assert (forall p, In p (m_piecesInlineStorage b ++ m_pieces b) ->
    piece_ok (m_numberScratch b ++ more) p /\
    piece_text (m_numberScratch b ++ more) p = piece_text (m_numberScratch b) p) as A.
  { intros p Hin. apply piece_scratch_app. rewrite Forall_forall in Hf. now apply Hf. }
  split_and!; try apply Hrest; [|assumption|].
  - apply Forall_forall. intros p Hin. now apply A.
  - rewrite <- Hc. f_equal. apply map_ext_in. intros p Hin. now apply A.
Qed.

Lemma digits_ok N state b s t : builder_ok N b s -> ascii t ->
  appends N state s t (appendDigitsPiece N state b t).
Proof.
  intros Hb Ht. destruct (ascii_facts t Ht) as (Hu & H8 & Hl).
  unfold appendDigitsPiece. rewrite Hl, Nat2Z.id.
  pose proof (builder_scratch N b s t Hb) as Hb'. set (b' := mkBuilder _ _ _ _ (_ ++ t)) in Hb' |- *.
  pose proof (check_add N state b' s (Z.of_nat (length t)) (m_has8BitContent b)
    (mkPiece Digits 0 (length t) (m_digitsOffset (length (m_numberScratch b)))) Hb') as G.
  unfold piece_ok, piece_text in G. cbn [m_type m_value m_start m_length m_numberScratch b'] in G.
  rewrite drop_app_length, take_ge in G by lia.
  apply G; [|reflexivity|assumption|].
  - split; [rewrite length_app; lia|reflexivity].
  - destruct Hb as (_ & _ & _ & _ & -> & _). now rewrite H8, andb_true_r.
Qed.

Lemma append_ok N state b s op : builder_ok N b s -> within state s -> op_ok op ->
  appends N state s (op_text op) (append N state b op).
Proof.
  intros Hb Hw Hop. destruct op; cbn [op_text append op_ok] in *.
  - now apply char_ok.
  - unfold appendChar32. destruct (utf32ToUtf16_units ch Hop) as [(c & -> & Hc)|(c & c2 & -> & Hc & Hc2)].
    + now apply char_ok.
    + pose proof (char_ok N state b s c Hb Hc) as A1. unfold appends in *.
      rewrite !length_app in *. cbn [length] in *.
      destruct (state && (_ <? Z.of_nat (length s + 1))) eqn:E1.
      * apply andb_prop in E1 as [E1 E2]; Zbool. rewrite A1. rewrite E1.
        destruct (_ <? _) eqn:E3 at 1; Zbool; [reflexivity|lia].
      * destruct A1 as (b1 & -> & Hb1). cbn [mbind result_bind].
        pose proof (char_ok N state b1 _ c2 Hb1 Hc2) as A2. unfold appends in A2.
        rewrite <- app_assoc, !length_app in A2. exact A2.
  - pose proof (string_ok N state b s str 0 (length (buffer str)) Hb Hw Hop ltac:(lia)) as A.
    rewrite Nat.sub_0_r, drop_0, take_ge in A by lia. exact A.
  - now apply string_ok.
  - now apply const_ok.
  - now apply int32_ok.
  - now apply digits_ok.
Qed.

End BuilderFacts.

(** * Replacement templates *)
Module Substitution.
Import Utf16 Builder.

Section GetSubstitution.
(** The world a property read may change, and the read of a named group:
    [Object::get] followed by [toString] of a capture that is not undefined. *)
Context (W : Type) (getNamed : list Z -> W -> result (option StringBufferAccessData * W)).
Context (N : nat) (matched str : StringBufferAccessData) (position : nat)
  (captures : list StringBufferAccessData) (namedCapture : bool)
  (replacement : StringBufferAccessData).

Definition is_decimal (c : Z) : bool := (48 <=? c) && (c <=? 57).

(** The choice between one and two digits: the capture and [twodigit]. *)
Definition capture_number (i : nat) (temp : Z) : result (Z * bool) :=
  let m := Z.of_nat (length captures) in
  let n := u64 (temp - 48 - 1) in
  if (i + 2 <? length (buffer replacement))%nat then
    temp1 ← defined (charAt replacement (i + 2));
    if is_decimal temp1 then
      let n2 := u64 (u64 (u64 (n + 1) * 10) + (temp1 - 48 - 1)) in
      if m <=? n2 then Ok (n, false) else Ok (n2, true)
    else Ok (n, false)
  else Ok (n, false).

(** The scan for [>] from [namedCaptureEnd]. *)
Fixpoint scan_gt (fuel : nat) (namedCaptureEnd : nat) : result (option nat) :=
  if (namedCaptureEnd <? length (buffer replacement))%nat then
    match fuel with
    | O => Undefined
    | S fuel =>
        c ← defined (charAt replacement namedCaptureEnd);
        if c =? 62 then Ok (Some namedCaptureEnd) else scan_gt fuel (S namedCaptureEnd)
    end
  else Ok None.

(** The body for a [$] at [i]: the builder, the last index consumed by the
    body before its [i++], and the world. *)
Definition dollar (i : nat) (temp : Z) (b : StringBuilder) (w : W)
  : result (StringBuilder * nat * W) :=
  let literal :=
    b ← appendPiece_char N true b 36;
    b ← appendPiece_char N true b temp;
    Ok (b, i, w) in
  let stringLength := length (buffer str) in
  let tailPos := (position + length (buffer matched))%nat in
  if temp =? 36 then b ← appendPiece_char N true b 36; Ok (b, i, w)
  else if temp =? 38 then
    b ← appendPiece_string N true b matched 0 (length (buffer matched)); Ok (b, i, w)
  else if temp =? 96 then b ← appendPiece_string N true b str 0 position; Ok (b, i, w)
  else if temp =? 39 then
    let tailPos := if (stringLength <=? tailPos)%nat then stringLength else tailPos in
    b ← appendPiece_string N true b str tailPos stringLength; Ok (b, i, w)
  else if is_decimal temp then
    '(n, twodigit) ← capture_number i temp;
    if n <? Z.of_nat (length captures) then
      capturesN ← defined (captures !! Z.to_nat n);
      b ← appendPiece_string N true b capturesN 0 (length (buffer capturesN));
      Ok (b, if (twodigit : bool) then S i else i, w)
    else literal
  else if (temp =? 60) && namedCapture then
    gt ← scan_gt (length (buffer replacement)) (i + 1);
    match gt with
    | Some namedCaptureEnd =>
        groupName ← defined (Slice.substring replacement (i + 2) namedCaptureEnd);
        '(capture, w) ← getNamed (buffer groupName) w;
        b ← (match capture with
             | Some s => appendPiece_string N true b s 0 (length (buffer s))
             | None => Ok b
             end);
        Ok (b, (namedCaptureEnd - 1)%nat, w)
    | None => literal
    end
  else literal.

Fixpoint subst_loop (fuel : nat) (i : nat) (b : StringBuilder) (w : W)
  : result (StringBuilder * W) :=
  if (i <? length (buffer replacement))%nat then
    match fuel with
    | O => Undefined
    | S fuel =>
        c ← defined (charAt replacement i);
        if (c =? 36) && (i + 1 <? length (buffer replacement))%nat then
          temp ← defined (charAt replacement (i + 1));
          '(b, i, w) ← dollar i temp b w;
          subst_loop fuel (S (S i)) b w
        else
          b ← appendPiece_char N true b c;
          subst_loop fuel (S i) b w
    end
  else Ok (b, w).

(** [twodigit] and [tailPos] are declared outside the loop; every iteration
    starts with [twodigit] false and recomputes the same [tailPos]. *)
Definition getSubstitution (fresh : nat -> list Z) (w : W)
  : result (StringBufferAccessData * W) :=
  '(b, w) ← subst_loop (length (buffer replacement)) 0 empty_builder w;
  s ← finalize true fresh b;
  Ok (s, w).
End GetSubstitution.

End Substitution.

(** * GetSubstitution of ECMA-262 *)
Module SubstitutionSpec.
Import Utf16.

(** The first replacement of a template: the units it takes and its text, or
    the group it reads. *)
Inductive ref := Text (t : list Z) | Group (name : list Z).

Section Spec.
Context {W : Type} (getNamed : list Z -> W -> result (option StringBufferAccessData * W)).
Context (matched str : list Z) (position : nat) (captures : list (list Z)) (namedCaptures : bool).

Fixpoint index_of (c : Z) (l : list Z) : option nat :=
  match l with
  | [] => None
  | x :: l => if x =? c then Some 0%nat else S <$> index_of c l
  end.

Definition digit_ref (d : Z) (r : list Z) : nat * ref :=
  let m := Z.of_nat (length captures) in
  let '(digitCount, index) :=
    match r with
    | d2 :: _ => if is_digit d2 && (10 * (d - 48) + (d2 - 48) <=? m)
                 then (2%nat, 10 * (d - 48) + (d2 - 48)) else (1%nat, d - 48)
    | [] => (1%nat, d - 48)
    end in
  match lookupZ captures (index - 1) with
  | Some capture => (S digitCount, Text capture)
  | None => (S digitCount, Text (take (S digitCount) (36 :: d :: r)))
  end.

Definition first_ref (template : list Z) : nat * ref :=
  match template with
  | [] => (0%nat, Text [])
  | c :: r =>
      if negb (c =? 36) then (1%nat, Text [c])
      else match r with
      | [] => (1%nat, Text [36])
      | t :: r =>
          if t =? 36 then (2%nat, Text [36])
          else if t =? 96 then (2%nat, Text (take position str))
          else if t =? 38 then (2%nat, Text matched)
          else if t =? 39 then
            (2%nat, Text (drop ((position + length matched) `min` length str) str))
          else if is_digit t then digit_ref t r
          else if t =? 60 then
            match index_of 62 r, namedCaptures with
            | Some k, true => ((3 + k)%nat, Group (take k r))
            | _, _ => (2%nat, Text [36; 60])
            end
          else (1%nat, Text [36])
      end
  end.

Definition ref_text (r : ref) (w : W) : result (list Z * W) :=
  match r with
  | Text t => Ok (t, w)
  | Group name =>
      '(capture, w) ← getNamed name w;
      Ok (match capture with Some s => buffer s | None => [] end, w)
  end.

Fixpoint substitute (fuel : nat) (template : list Z) (w : W) : result (list Z * W) :=
  match fuel, template with
  | _, [] => Ok ([], w)
  | O, _ => Undefined
  | S fuel, _ =>
      let '(n, r) := first_ref template in
      '(t, w) ← ref_text r w;
      '(rest, w) ← substitute fuel (drop n template) w;
      Ok (t ++ rest, w)
  end.
Definition GetSubstitution (template : list Z) (w : W) : result (list Z * W) :=
  substitute (length template) template w.
End Spec.

End SubstitutionSpec.

(** * The substitution loop follows the specification *)
Module SubstitutionFacts.
Import Utf16 Builder BuilderFacts StringFacts Substitution SubstitutionSpec.

Definition prepend {W} (t : list Z) (r : result (list Z * W)) : result (list Z * W) :=
  '(rest, w) ← r; Ok (t ++ rest, w).

Lemma prepend_app {W} a b (r : result (list Z * W)) : prepend (a ++ b) r = prepend a (prepend b r).
Proof. unfold prepend. destruct r as [[t w]| |]; cbn; [|reflexivity..]. now rewrite app_assoc. Qed.

(** The outcome of code that appends to a builder of [s] what [spec] yields. *)
Definition sim {W} (N : nat) (s : list Z) (code : result (StringBuilder * W)) (spec : result (list Z * W)) : Prop :=
  match spec with
  | Ok (t, w) =>
      if STRING_MAXIMUM_LENGTH <? Z.of_nat (length (s ++ t)) then code = Throw RangeError
      else exists b, code = Ok (b, w) /\ builder_ok N b (s ++ t)
  | Throw e => code = Throw e \/ code = Throw RangeError
  | Undefined => True
  end.

Lemma sim_bind {W} N s x r (k : StringBuilder -> result (StringBuilder * W)) spec :
  appends N true s x r ->
  (forall b, builder_ok N b (s ++ x) -> within true (s ++ x) -> sim N (s ++ x) (k b) spec) ->
  sim N s (b ← r; k b) (prepend x spec).
Proof.
  unfold appends, sim, prepend. cbn [andb]. intros Hr Hk.
  destruct (STRING_MAXIMUM_LENGTH <? Z.of_nat (length (s ++ x))) eqn:E; Zbool.
  - rewrite Hr. cbn [mbind result_bind]. destruct spec as [[t w]|e|]; cbn; [|now right|exact I].
    rewrite app_assoc, length_app.
    assert ((STRING_MAXIMUM_LENGTH <? Z.of_nat (length (s ++ x) + length t)) = true) as ->
      by (apply Z.ltb_lt; lia). reflexivity.
  - destruct Hr as (b & -> & Hb). cbn [mbind result_bind].
    specialize (Hk b Hb ltac:(intros _; exact E)).
    destruct spec as [[t w]|e|]; cbn in *; [|assumption|exact I]. now rewrite app_assoc.
Qed.

Section Spec.
Context {W : Type} (getNamed : list Z -> W -> result (option StringBufferAccessData * W)).
Context (matched str : list Z) (position : nat) (captures : list (list Z)) (namedCaptures : bool).
Notation first_ref := (first_ref matched str position captures namedCaptures).
Notation substitute := (substitute getNamed matched str position captures namedCaptures).
Notation GetSubstitution := (GetSubstitution getNamed matched str position captures namedCaptures).

Lemma first_ref_pos c r : (1 <= fst (first_ref (c :: r)))%nat.
Proof.
  unfold SubstitutionSpec.first_ref. destruct (negb (c =? 36)); [simpl; lia|].
  destruct r as [|t r]; [simpl; lia|].
  destruct (t =? 36); [simpl; lia|]. destruct (t =? 96); [simpl; lia|].
  destruct (t =? 38); [simpl; lia|]. destruct (t =? 39); [simpl; lia|].
  destruct (is_digit t).
  - unfold digit_ref. destruct (match r with [] => _ | _ => _ end) as [n idx].
    destruct (lookupZ captures _); simpl; lia.
  - destruct (t =? 60); [|simpl; lia].
    destruct (index_of 62 r), namedCaptures; simpl; lia.
Qed.

Lemma substitute_enough f g t w : (length t <= f)%nat -> (length t <= g)%nat ->
  substitute f t w = substitute g t w.
Proof.
  revert g t w. induction f as [|f IH]; intros g t w Hf Hg.
  - destruct t; [|simpl in Hf; lia]. now destruct g.
  - destruct t as [|c r]; [now destruct g|]. destruct g as [|g]; [simpl in Hg; lia|].
    cbn [SubstitutionSpec.substitute]. pose proof (first_ref_pos c r) as Hp.
    destruct (first_ref (c :: r)) as [n rf]. cbn [fst] in Hp.
    destruct (ref_text getNamed rf w) as [[tx w']| |]; cbn [mbind result_bind]; [|reflexivity..].
    rewrite (IH g); [reflexivity|..]; rewrite length_drop; simpl in *; lia.
Qed.

Lemma GetSubstitution_cons c r w :
  GetSubstitution (c :: r) w =
    let '(n, rf) := first_ref (c :: r) in
    '(t, w) ← ref_text getNamed rf w; prepend t (GetSubstitution (drop n (c :: r)) w).
Proof.
  unfold SubstitutionSpec.GetSubstitution at 1. cbn [length SubstitutionSpec.substitute].
  pose proof (first_ref_pos c r) as Hp. destruct (first_ref (c :: r)) as [n rf]. cbn [fst] in Hp.
  destruct (ref_text getNamed rf w) as [[tx w']| |]; cbn [mbind result_bind]; [|reflexivity..].
  unfold prepend, SubstitutionSpec.GetSubstitution.
  rewrite (substitute_enough _ (length (drop n (c :: r)))); [reflexivity|..];
    rewrite length_drop; simpl; lia.
Qed.

Lemma GetSubstitution_text c r w n t :
  first_ref (c :: r) = (n, Text t) ->
  GetSubstitution (c :: r) w = prepend t (GetSubstitution (drop n (c :: r)) w).
Proof. intros E. rewrite GetSubstitution_cons, E. reflexivity. Qed.

(** Only a property read can leave the defined behaviour. *)
Lemma GetSubstitution_defined t w :
  (forall name w, getNamed name w <> Undefined) -> GetSubstitution t w <> Undefined.
Proof.
  intros Hd. unfold SubstitutionSpec.GetSubstitution.
  assert (forall f t w, (length t <= f)%nat -> substitute f t w <> Undefined) as H; [|now apply H].
  clear t w. induction f as [|f IH]; intros t w L; [destruct t; [discriminate|simpl in L; lia]|].
  destruct t as [|c r]; [discriminate|]. cbn [SubstitutionSpec.substitute].
  pose proof (first_ref_pos c r) as Hp. destruct (first_ref (c :: r)) as [n rf]. cbn [fst] in Hp.
  assert (ref_text getNamed rf w <> Undefined) as Hr.
  { destruct rf as [tx|name]; cbn [ref_text]; [discriminate|].
    specialize (Hd name w). destruct (getNamed name w) as [[? ?]| |]; cbn; congruence. }
  destruct (ref_text getNamed rf w) as [[tx w']| |]; cbn [mbind result_bind]; [|discriminate|congruence].
  specialize (IH (drop n (c :: r)) w'). rewrite length_drop in IH. cbn [length] in L, IH.
  specialize (IH ltac:(lia)).
  destruct (substitute f (drop n (c :: r)) w') as [[? ?]| |]; cbn; congruence.
Qed.

(** A unit that is not [$] stands for itself. *)
Lemma GetSubstitution_plain c r w :
  c <> 36 -> GetSubstitution (c :: r) w = prepend [c] (GetSubstitution r w).
Proof.
  intros H. rewrite (GetSubstitution_text c r w 1 [c]); [reflexivity|].
  unfold SubstitutionSpec.first_ref. destruct (c =? 36) eqn:E; Zbool; [contradiction|reflexivity].
Qed.
End Spec.

Lemma scan_gt_spec replacement fuel e :
  (e <= length (buffer replacement))%nat -> (length (buffer replacement) <= e + fuel)%nat ->
  scan_gt replacement fuel e
  = Ok (Nat.add e <$> index_of 62 (drop e (buffer replacement))).
Proof.
  revert e. induction fuel as [|fuel IH]; intros e H1 H2; cbn [scan_gt];
    (destruct (e <? _)%nat eqn:E; [apply Nat.ltb_lt in E|apply Nat.ltb_ge in E; now rewrite drop_ge by lia]).
  { lia. }
  destruct (lookup_lt_is_Some_2 (buffer replacement) e E) as [c Hc].
  unfold charAt. rewrite Hc, (drop_S _ _ _ Hc). cbn [defined mbind result_bind index_of].
  destruct (c =? 62); [simpl; do 2 f_equal; lia|].
  rewrite IH by lia. destruct (index_of 62 _); simpl; [do 2 f_equal; lia|reflexivity].
Qed.

Lemma index_of_lt c l k : index_of c l = Some k -> (k < length l)%nat.
Proof.
  revert k. induction l as [|x l IH]; intros k; simpl; [discriminate|].
  destruct (x =? c); [intros [= <-]; lia|].
  destruct (index_of c l) as [j|]; simpl; [|discriminate].
  intros [= <-]. specialize (IH j eq_refl). lia.
Qed.

Section Loop.
Context {W : Type} (getNamed : list Z -> W -> result (option StringBufferAccessData * W)).
Context (N : nat) (matched str : StringBufferAccessData) (position : nat)
  (captures : list StringBufferAccessData) (namedCapture : bool) (replacement : StringBufferAccessData).
Hypothesis Hmatched : data_ok matched.
Hypothesis Hstr : data_ok str.
Hypothesis Hposition : (position <= length (buffer str))%nat.
Hypothesis Hcaptures : Forall data_ok captures.
Hypothesis Hcount : Z.of_nat (length captures) < 2 ^ 32.
Hypothesis Hrep : data_ok replacement.
Hypothesis Hget : forall name w s w', getNamed name w = Ok (Some s, w') -> data_ok s.

Notation loop := (subst_loop W getNamed N matched str position captures namedCapture replacement).
Notation dollar' := (dollar W getNamed N matched str position captures namedCapture replacement).
Notation first_ref' :=
  (first_ref (buffer matched) (buffer str) position (map buffer captures) namedCapture).
Notation spec :=
  (GetSubstitution getNamed (buffer matched) (buffer str) position (map buffer captures) namedCapture).
Notation rep := (buffer replacement).

(** What the rest of the loop is known to do. *)
Definition loop_ok (fuel : nat) : Prop :=
  forall i b w s, builder_ok N b s -> within true s -> (length rep <= i + fuel)%nat ->
    sim N s (loop fuel i b w) (spec (drop i rep) w).

(** A whole string appended. *)
Lemma sim_string s b d sp (k : StringBuilder -> result (StringBuilder * W)) :
  builder_ok N b s -> within true s -> data_ok d ->
  (forall b, builder_ok N b (s ++ buffer d) -> within true (s ++ buffer d) ->
     sim N (s ++ buffer d) (k b) sp) ->
  sim N s (b ← appendPiece_string N true b d 0 (length (buffer d)); k b)
    (prepend (buffer d) sp).
Proof.
  intros Hb Hw Hd Hk. apply sim_bind; [|assumption].
  pose proof (string_ok N true b s d 0 (length (buffer d)) Hb Hw Hd ltac:(lia)) as A.
  now rewrite Nat.sub_0_r, drop_0, take_ge in A by lia.
Qed.

(** The two units of an uninterpreted [$t]. *)
Lemma sim_literal s b t sp (k : StringBuilder -> result (StringBuilder * W)) :
  builder_ok N b s -> in_u 16 t ->
  (forall b, builder_ok N b (s ++ [36; t]) -> within true (s ++ [36; t]) ->
     sim N (s ++ [36; t]) (k b) sp) ->
  sim N s (b ← appendPiece_char N true b 36; b ← appendPiece_char N true b t; k b)
    (prepend [36; t] sp).
Proof.
  intros Hb Ht Hk. change [36; t] with ([36] ++ [t]) in *. rewrite prepend_app.
  apply sim_bind; [apply char_ok; [assumption|unfold in_u; lia]|]. intros b1 Hb1 _.
  apply sim_bind; [now apply char_ok|]. rewrite <- app_assoc. exact Hk.
Qed.

Lemma drop_cons_lookup i c r : drop i rep = c :: r ->
  charAt replacement i = Some c /\ drop (S i) rep = r /\ (i < length rep)%nat /\ in_u 16 c.
Proof.
  intros E. assert (charAt replacement i = Some c) as Hc.
  { unfold charAt. now rewrite <- (Nat.add_0_r i), <- lookup_drop, E. }
  pose proof (lookup_lt_Some _ _ _ Hc) as Hl.
  split_and!; [assumption| |assumption|].
  - unfold charAt in Hc. rewrite (drop_S _ _ _ Hc) in E. congruence.
  - eapply (Forall_lookup_1 (in_u 16)); [apply Utf8Facts.data_ok_16; eassumption|exact Hc].
Qed.

Lemma capture_index v : 1 <= v <= Z.of_nat (length captures) ->
  exists k cap, u64 (v - 1) = Z.of_nat k /\ captures !! k = Some cap /\ (k < length captures)%nat /\
    lookupZ (map buffer captures) (v - 1) = Some (buffer cap).
Proof.
  intros H. exists (Z.to_nat (v - 1)).
  destruct (lookup_lt_is_Some_2 captures (Z.to_nat (v - 1)) ltac:(lia)) as [cap Hc].
  exists cap. split_and!; [rewrite wrapu_id by (unfold in_u; lia); lia|assumption|lia|].
  unfold lookupZ. destruct (v - 1 <? 0) eqn:E; Zbool; [lia|]. change (map buffer captures) with (buffer <$> captures).
  now rewrite list_lookup_fmap, Hc.
Qed.

Lemma capture_none v : 0 <= v < 100 -> v = 0 \/ Z.of_nat (length captures) < v ->
  Z.of_nat (length captures) <= u64 (v - 1) /\ lookupZ (map buffer captures) (v - 1) = None.
Proof.
  intros H0 H. split.
  - destruct H as [->|H]; [change (u64 (0 - 1)) with (2 ^ 64 - 1); lia|].
    rewrite wrapu_id by (unfold in_u; lia). lia.
  - unfold lookupZ. destruct (v - 1 <? 0) eqn:E; Zbool; [reflexivity|].
    apply lookup_ge_None_2. rewrite length_map. lia.
Qed.

(** The digits of a [$n] or [$nn]: the capture both sides take, or the
    literal text both sides keep. *)
Definition digit_outcome (i : nat) (temp : Z) (r : list Z) : Prop :=
  (exists k (two : bool) cap, capture_number captures replacement i temp = Ok (Z.of_nat k, two) /\
     captures !! k = Some cap /\ (k < length captures)%nat /\
     digit_ref (map buffer captures) temp r = (if two then 3%nat else 2%nat, Text (buffer cap))) \/
  (exists n two, capture_number captures replacement i temp = Ok (n, two) /\
     Z.of_nat (length captures) <= n /\
     (digit_ref (map buffer captures) temp r = (2%nat, Text [36; temp]) \/
      exists d2 r', r = d2 :: r' /\ d2 <> 36 /\
        digit_ref (map buffer captures) temp r = (3%nat, Text [36; temp; d2]))).

Lemma one_digit i temp r : 48 <= temp <= 57 ->
  capture_number captures replacement i temp = Ok (u64 (temp - 48 - 1), false) ->
  digit_ref (map buffer captures) temp r =
    match lookupZ (map buffer captures) (temp - 48 - 1) with
    | Some c => (2%nat, Text c) | None => (2%nat, Text [36; temp]) end ->
  digit_outcome i temp r.
Proof.
  intros Ht Ec Ed.
  destruct (decide (1 <= temp - 48 <= Z.of_nat (length captures))) as [H|H].
  - left. destruct (capture_index _ H) as (k & cap & Ek & Hk & Hl & Hz).
    exists k, false, cap. rewrite Ec, Ek, Ed, Hz. auto.
  - right. destruct (capture_none (temp - 48)) as (Hn & Hz); [lia|lia|].
    eexists _, _. rewrite Ec. split; [reflexivity|]. split; [assumption|left]. now rewrite Ed, Hz.
Qed.

Lemma capture_number_spec i temp r : is_decimal temp = true -> drop (i + 2) rep = r ->
  digit_outcome i temp r.
Proof.
  unfold is_decimal. intros Ht Hr. apply andb_prop in Ht as [Ht1 Ht2]; Zbool.
  destruct r as [|d2 r'].
  - apply one_digit; [lia| |].
    + unfold capture_number. destruct (i + 2 <? length rep)%nat eqn:E; [|reflexivity].
      apply Nat.ltb_lt in E. assert (length (drop (i + 2) rep) = 0%nat) by now rewrite Hr.
      rewrite length_drop in *. lia.
    + unfold digit_ref. destruct (lookupZ _ _); reflexivity.
  - destruct (drop_cons_lookup _ _ _ Hr) as (Hc & _ & Hl & _).
    assert (capture_number captures replacement i temp =
      if is_digit d2 then
        let n2 := u64 (u64 (u64 (u64 (temp - 48 - 1) + 1) * 10) + (d2 - 48 - 1)) in
        if Z.of_nat (length captures) <=? n2 then Ok (u64 (temp - 48 - 1), false) else Ok (n2, true)
      else Ok (u64 (temp - 48 - 1), false)) as Ec.
    { unfold capture_number. apply Nat.ltb_lt in Hl. rewrite Hl, Hc. reflexivity. }
    destruct (is_digit d2) eqn:Ed.
    2: { apply one_digit; [lia|assumption|]. unfold digit_ref. rewrite Ed.
         cbn [andb]. destruct (lookupZ _ _); reflexivity. }
    apply is_digit_range in Ed as Hd.
    assert (u64 (u64 (u64 (u64 (temp - 48 - 1) + 1) * 10) + (d2 - 48 - 1))
      = u64 (10 * (temp - 48) + (d2 - 48) - 1)) as En.
    { assert (forall a b, u64 (u64 a + b) = u64 (a + b)) as A by (intros; apply Zplus_mod_idemp_l).
      assert (forall a b, u64 (u64 a * b) = u64 (a * b)) as M by (intros; apply Zmult_mod_idemp_l).
      rewrite (A _ 1), M, A. f_equal. lia. }
    cbv zeta in Ec. rewrite En in Ec. clear En.
    set (v := 10 * (temp - 48) + (d2 - 48)) in *.
    destruct (decide (1 <= v <= Z.of_nat (length captures))) as [H|H].
    + left. destruct (capture_index v H) as (k & cap & Ek & Hk & Hl' & Hz).
      exists k, true, cap. rewrite Ec, Ek. unfold digit_ref. rewrite length_map, Ed. fold v.
      destruct (v <=? _) eqn:Ev; Zbool; [|lia]. cbn [andb]. rewrite Hz.
      destruct (_ <=? Z.of_nat k) eqn:E2; Zbool; [lia|]. auto.
    + destruct (capture_none v) as (Hn & Hz); [lia|lia|].
      destruct (_ <=? u64 (v - 1)) eqn:E2 in Ec; Zbool; [|lia].
      destruct (decide (v = 0)) as [Hv|Hv].
      * right. eexists _, _. rewrite Ec. split; [reflexivity|].
        destruct (capture_none (temp - 48)) as (Hn' & _); [lia|lia|]. split; [exact Hn'|].
        right. exists d2, r'. split_and!; [reflexivity|lia|].
        unfold digit_ref. rewrite length_map, Ed. fold v.
        destruct (v <=? _) eqn:Ev; Zbool; [|lia]. cbn [andb]. rewrite Hz. reflexivity.
      * apply one_digit; [lia|assumption|]. unfold digit_ref. rewrite length_map, Ed. fold v.
        destruct (v <=? _) eqn:Ev; Zbool; [lia|]. cbn [andb].
        destruct (lookupZ _ _); reflexivity.
Qed.

(** What follows a [$] that is not interpreted. *)
Lemma first_ref_dollar t r :
  first_ref' (36 :: t :: r) =
    if t =? 36 then (2%nat, Text [36])
    else if t =? 96 then (2%nat, Text (take position (buffer str)))
    else if t =? 38 then (2%nat, Text (buffer matched))
    else if t =? 39 then (2%nat, Text (drop ((position + length (buffer matched)) `min` length (buffer str)) (buffer str)))
    else if is_digit t then digit_ref (map buffer captures) t r
    else if t =? 60 then
      match index_of 62 r, namedCapture with
      | Some k, true => ((3 + k)%nat, Group (take k r))
      | _, _ => (2%nat, Text [36; 60])
      end
    else (1%nat, Text [36]).
Proof. reflexivity. Qed.

Lemma rbind_assoc {A B C} (r : result A) (f : A -> result B) (g : B -> result C) :
  (r ≫= f) ≫= g = r ≫= (fun x => f x ≫= g).
Proof. now destruct r. Qed.

Lemma literal_sim fuel i temp r b w s :
  loop_ok fuel -> builder_ok N b s -> drop i rep = 36 :: temp :: r -> (length rep <= i + S fuel)%nat ->
  spec (36 :: temp :: r) w = prepend [36; temp] (spec r w) ->
  sim N s ('(b, i, w) ← (b ← appendPiece_char N true b 36;
                         b ← appendPiece_char N true b temp; Ok (b, i, w));
           loop fuel (S (S i)) b w) (spec (36 :: temp :: r) w).
Proof.
  intros Hl Hb Hi Hf E. rewrite E, rbind_assoc.
  destruct (drop_cons_lookup _ _ _ Hi) as (_ & Hi1 & _ & _).
  destruct (drop_cons_lookup _ _ _ Hi1) as (_ & Hi2 & _ & Ht).
  rewrite <- Hi2.
  assert (forall b1, ((b ← appendPiece_char N true b1 temp; Ok (b, i, w)) ≫=
      (fun '(b, i, w) => loop fuel (S (S i)) b w))
    = (b ← appendPiece_char N true b1 temp; loop fuel (S (S i)) b w)) as Ea
    by (intros; now rewrite rbind_assoc).
  eapply (eq_ind_r (fun c => sim N s c _)); [apply (sim_literal s b temp _ (fun b => loop fuel (S (S i)) b w) Hb Ht)|].
  - intros b2 Hb2 Hw2. apply Hl; [assumption|assumption|lia].
  - destruct (appendPiece_char N true b 36); cbn; [apply Ea|reflexivity..].
Qed.

Lemma dollar_digits fuel i temp r b w s :
  loop_ok fuel -> builder_ok N b s -> within true s ->
  drop i rep = 36 :: temp :: r -> (length rep <= i + S fuel)%nat -> is_decimal temp = true ->
  sim N s ('(b, i, w) ← ('(n, twodigit) ← capture_number captures replacement i temp;
             if n <? Z.of_nat (length captures) then
               capturesN ← defined (captures !! Z.to_nat n);
               b ← appendPiece_string N true b capturesN 0 (length (buffer capturesN));
               Ok (b, if (twodigit : bool) then S i else i, w)
             else (b ← appendPiece_char N true b 36; b ← appendPiece_char N true b temp; Ok (b, i, w)));
           loop fuel (S (S i)) b w) (spec (36 :: temp :: r) w).
Proof.
  intros Hl Hb Hw Hi Hf Hd.
  destruct (drop_cons_lookup _ _ _ Hi) as (_ & Hi1 & _ & _).
  destruct (drop_cons_lookup _ _ _ Hi1) as (_ & Hi2 & _ & Ht).
  assert (first_ref' (36 :: temp :: r) = digit_ref (map buffer captures) temp r) as Ef.
  { rewrite first_ref_dollar. assert (is_digit temp = true) as -> by exact Hd.
    unfold is_decimal in Hd. Zbool.
    repeat match goal with |- context [temp =? ?n] => replace (temp =? n) with false by (symmetry; apply Z.eqb_neq; lia) end.
    reflexivity. }
  rewrite rbind_assoc.
  destruct (capture_number_spec i temp r Hd) as
    [(k & two & cap & Ec & Hk & Hlk & Edr)|(n & two & Ec & Hn & Edr)].
  { replace (i + 2)%nat with (S (S i)) by lia. assumption. }
  - rewrite Ec. cbn [mbind result_bind].
    destruct (Z.of_nat k <? _) eqn:E; Zbool; [|lia].
    rewrite Nat2Z.id, Hk. cbn [defined mbind result_bind].
    rewrite (GetSubstitution_text _ _ _ _ _ _ _ _ w _ (buffer cap) (eq_trans Ef Edr)).
    rewrite rbind_assoc.
    apply (sim_string s b cap _ (fun b => loop fuel (S (S (if two then S i else i))) b w) Hb Hw).
    { eapply Forall_lookup_1; eassumption. }
    intros b1 Hb1 Hw1. rewrite <- Hi, drop_drop.
    replace (i + (if two then 3 else 2))%nat with (S (S (if two then S i else i))) by (destruct two; lia).
    apply Hl; [assumption|assumption|destruct two; lia].
  - rewrite Ec. cbn [mbind result_bind].
    destruct (n <? _) eqn:E; Zbool; [lia|].
    apply (literal_sim fuel i temp r b w s Hl Hb Hi Hf).
    destruct Edr as [Edr|(d2 & r' & -> & Hne & Edr)].
    + rewrite (GetSubstitution_text _ _ _ _ _ _ _ _ w _ _ (eq_trans Ef Edr)). reflexivity.
    + rewrite (GetSubstitution_text _ _ _ _ _ _ _ _ w _ _ (eq_trans Ef Edr)).
      rewrite (GetSubstitution_plain _ _ _ _ _ _ d2) by assumption.
      now rewrite <- prepend_app.
Qed.

Lemma dollar_group fuel i r k b w s :
  loop_ok fuel -> builder_ok N b s -> within true s ->
  drop i rep = 36 :: 60 :: r -> (length rep <= i + S fuel)%nat ->
  index_of 62 r = Some k -> namedCapture = true ->
  sim N s ('(b, i, w) ← (groupName ← defined (Slice.substring replacement (i + 2) (i + 2 + k));
             '(capture, w) ← getNamed (buffer groupName) w;
             b ← (match capture with
                  | Some s => appendPiece_string N true b s 0 (length (buffer s))
                  | None => Ok b
                  end);
             Ok (b, (i + 2 + k - 1)%nat, w));
           loop fuel (S (S i)) b w) (spec (36 :: 60 :: r) w).
Proof.
  intros Hl Hb Hw Hi Hf Hk Hn.
  destruct (drop_cons_lookup _ _ _ Hi) as (_ & Hi1 & Hli & _).
  destruct (drop_cons_lookup _ _ _ Hi1) as (_ & Hi2 & Hli1 & _).
  pose proof (index_of_lt _ _ _ Hk) as Hkl.
  assert (length r = (length rep - (i + 2))%nat) as Hr by (rewrite <- Hi2, length_drop; lia).
  destruct (substring_spec replacement (i + 2) (i + 2 + k) Hrep ltac:(lia)) as (g & Eg & _ & Hg).
  rewrite Eg. cbn [defined mbind result_bind].
  assert (buffer g = take k r) as ->.
  { rewrite Hg. replace (i + 2 + k - (i + 2))%nat with k by lia.
    replace (i + 2)%nat with (S (S i)) by lia. now rewrite Hi2. }
  rewrite GetSubstitution_cons.
  assert (first_ref' (36 :: 60 :: r) = ((3 + k)%nat, Group (take k r))) as ->.
  { rewrite first_ref_dollar. simpl Z.eqb. cbv iota. change (is_digit 60) with false. cbv iota.
    now rewrite Hk, Hn. }
  cbn [ref_text].
  destruct (getNamed (take k r) w) as [[[c|] w']|e|] eqn:Eg2; cbn [mbind result_bind]; [| |now left|exact I].
  - change (result_bind ?A ?B ?f ?r) with (r ≫= f).
    rewrite rbind_assoc.
    apply (sim_string s b c _ (fun b => loop fuel (S (S (i + 2 + k - 1))) b w') Hb Hw).
    { eapply Hget; eassumption. }
    intros b1 Hb1 Hw1. rewrite <- Hi, drop_drop.
    replace (i + (3 + k))%nat with (S (S (i + 2 + k - 1))) by lia.
    apply Hl; [assumption|assumption|lia].
  - assert (forall x : result (list Z * W), prepend [] x = x) as -> by (intros [[? ?]| |]; reflexivity).
    rewrite <- Hi, drop_drop.
    replace (i + (3 + k))%nat with (S (S (i + 2 + k - 1))) by lia.
    apply Hl; [assumption|assumption|lia].
Qed.

Lemma dollar_sim fuel i temp r b w s :
  loop_ok fuel -> builder_ok N b s -> within true s ->
  drop i rep = 36 :: temp :: r -> (length rep <= i + S fuel)%nat ->
  sim N s ('(b, i, w) ← dollar' i temp b w; loop fuel (S (S i)) b w) (spec (36 :: temp :: r) w).
Proof.
  intros Hl Hb Hw Hi Hf.
  destruct (drop_cons_lookup _ _ _ Hi) as (_ & Hi1 & Hli & _).
  destruct (drop_cons_lookup _ _ _ Hi1) as (_ & Hi2 & Hli1 & _).
  assert (forall b1 s1, builder_ok N b1 s1 -> within true s1 ->
    sim N s1 (loop fuel (S (S i)) b1 w) (spec (drop 2 (36 :: temp :: r)) w)) as Hnext.
  { intros b1 s1 Hb1 Hw1. change (drop 2 (36 :: temp :: r)) with (drop 0 r). rewrite drop_0, <- Hi2.
    apply Hl; [assumption|assumption|lia]. }
  assert (forall t, first_ref' (36 :: temp :: r) = (2%nat, Text t) ->
    spec (36 :: temp :: r) w = prepend t (spec (drop 2 (36 :: temp :: r)) w)) as Htext
    by (intros; now apply GetSubstitution_text).
  pose proof (first_ref_dollar temp r) as Ef. unfold dollar.
  destruct (temp =? 36) eqn:E1.
  { rewrite (Htext _ Ef), rbind_assoc. apply sim_bind; [apply char_ok; [assumption|unfold in_u; lia]|].
    intros; now apply Hnext. }
  destruct (temp =? 38) eqn:E2.
  { assert (temp =? 96 = false) as E3 by (Zbool; apply Z.eqb_neq; lia). rewrite E3 in Ef.
    rewrite (Htext _ Ef), rbind_assoc.
    apply (sim_string s b matched _ (fun b => loop fuel (S (S i)) b w) Hb Hw Hmatched).
    intros; now apply Hnext. }
  destruct (temp =? 96) eqn:E3.
  { rewrite (Htext _ Ef), rbind_assoc. apply sim_bind; [|intros; now apply Hnext].
    pose proof (string_ok N true b s str 0 position Hb Hw Hstr ltac:(lia)) as A.
    now rewrite Nat.sub_0_r, drop_0 in A. }
  destruct (temp =? 39) eqn:E4.
  { rewrite (Htext _ Ef), rbind_assoc. apply sim_bind; [|intros; now apply Hnext].
    set (tail := if (length (buffer str) <=? position + length (buffer matched))%nat then _ else _).
    assert (tail = (position + length (buffer matched)) `min` length (buffer str))%nat as ->
      by (unfold tail; destruct (Nat.leb_spec (length (buffer str)) (position + length (buffer matched))); lia).
    set (f := ((position + length (buffer matched)) `min` length (buffer str))%nat).
    pose proof (string_ok N true b s str f (length (buffer str)) Hb Hw Hstr ltac:(lia)) as A.
    now rewrite take_ge in A by (rewrite length_drop; lia). }
  destruct (is_decimal temp) eqn:E5.
  { now apply dollar_digits. }
  change (is_digit temp) with (is_decimal temp) in Ef. rewrite E5 in Ef.
  destruct (temp =? 60) eqn:E6; cbn [andb].
  2: { apply literal_sim; try assumption. rewrite (GetSubstitution_text _ _ _ _ _ _ _ _ w _ _ Ef).
       cbn [drop]. rewrite GetSubstitution_plain by (Zbool; assumption). now rewrite <- prepend_app. }
  Zbool. subst temp.
  assert (namedCapture = true \/ namedCapture = false) as [En|En] by (destruct namedCapture; auto).
  2: { match goal with |- context [if namedCapture then ?A else ?B] =>
         replace (if namedCapture then A else B) with B by now rewrite En end.
       apply literal_sim; try assumption.
       apply Htext. rewrite Ef, En. now destruct (index_of 62 r). }
  match goal with |- context [if namedCapture then ?A else ?B] =>
    replace (if namedCapture then A else B) with A by now rewrite En end.
  rewrite scan_gt_spec by lia. replace (i + 1)%nat with (S i) by lia. rewrite Hi1.
  cbn [index_of mbind result_bind]. change (60 =? 62) with false. cbv iota.
  destruct (index_of 62 r) as [k|] eqn:Ek; cbn [fmap option_fmap option_map mbind result_bind].
  - replace (S i + S k)%nat with (i + 2 + k)%nat by lia. now apply dollar_group.
  - apply literal_sim; try assumption. apply (Htext _ Ef).
Qed.

Lemma subst_loop_ok fuel : loop_ok fuel.
Proof.
  induction fuel as [|fuel IH]; intros i b w s Hb Hw Hf; cbn [subst_loop];
    (destruct (i <? length rep)%nat eqn:E;
     [apply Nat.ltb_lt in E|
      apply Nat.ltb_ge in E; rewrite drop_ge by lia; unfold sim; cbn; rewrite app_nil_r;
      destruct (_ <? _) eqn:E2; [Zbool; specialize (Hw eq_refl); lia|now exists b]]).
  { lia. }
  destruct (drop i rep) as [|c r] eqn:Hi.
  { assert (length (drop i rep) = 0%nat) as Hlen by now rewrite Hi. rewrite length_drop in Hlen. lia. }
  destruct (drop_cons_lookup _ _ _ Hi) as (Hc & Hi1 & _ & Hcu). rewrite Hc.
  cbn [defined mbind result_bind].
  assert (forall t, first_ref' (c :: r) = (1%nat, Text t) -> t = [c] ->
    sim N s (b ← appendPiece_char N true b c; loop fuel (S i) b w) (spec (c :: r) w)) as Hplain.
  { intros t Ef ->. rewrite (GetSubstitution_text _ _ _ _ _ _ _ _ w _ _ Ef).
    apply sim_bind; [now apply char_ok|]. intros b1 Hb1 Hw1.
    change (drop 1 (c :: r)) with (drop 0 r). rewrite drop_0, <- Hi1. apply IH; [assumption|assumption|lia]. }
  destruct (c =? 36) eqn:E36; cbn [andb].
  2: { apply (Hplain [c]); [|reflexivity]. unfold first_ref. now rewrite E36. }
  Zbool. subst c. destruct (i + 1 <? length rep)%nat eqn:E1.
  - apply Nat.ltb_lt in E1. destruct r as [|temp r].
    { assert (length (drop (S i) rep) = 0%nat) as Hlen by now rewrite Hi1. rewrite length_drop in Hlen. lia. }
    destruct (drop_cons_lookup _ _ _ Hi1) as (Ht & _).
    replace (i + 1)%nat with (S i) by lia. rewrite Ht. cbn [defined mbind result_bind].
    now apply dollar_sim.
  - apply Nat.ltb_ge in E1. destruct r as [|temp r].
    + now apply (Hplain [36]).
    + destruct (drop_cons_lookup _ _ _ Hi1) as (_ & _ & Hl & _). lia.
Qed.
End Loop.

End SubstitutionFacts.

(** * Properties *)
Module StringOpsProps.
Import Utf16 Search Slice Builder StringFacts BuilderFacts Substitution SubstitutionSpec SubstitutionFacts.

Lemma finalize_spec N state fresh b s :
  (forall n, length (fresh n) = n) -> builder_ok N b s -> within state s ->
  finalize state fresh b = Ok (mkData (latin1 s) s).
Proof.
  intros Hfr (Hf & _ & Hc & Hl & H8 & Hu) Hw. unfold finalize. rewrite Hl, H8.
  destruct (Z.of_nat (length s) =? 0) eqn:E; Zbool; [destruct s; [reflexivity|simpl in E; lia]|].
  destruct (state && _) eqn:E1; [apply andb_prop in E1 as [E1 E2]; Zbool; specialize (Hw E1); lia|].
  rewrite Nat2Z.id. rewrite map_app, concat_app in Hc. apply Forall_app in Hf as [Hf1 Hf2].
  set (t1 := concat _) in Hc. set (t2 := concat _) in Hc.
  assert (Forall (in_u (if latin1 s then 8 else 16)) (t1 ++ t2)) as Hr.
  { rewrite Hc. now apply latin1_units. }
  apply Forall_app in Hr as [Hr1 Hr2].
  assert (length s = length t1 + length t2)%nat as Hlen by (now rewrite <- Hc, length_app).
  rewrite (process_all_spec (latin1 s) (m_numberScratch b) _ Hf1 (fresh (length s)) 0);
    [|rewrite Hfr; fold t1; lia|assumption].
  fold t1. cbn [mbind result_bind].
  rewrite (process_all_spec (latin1 s) (m_numberScratch b) _ Hf2);
    [|fold t2; rewrite DecimalFacts.blit_length, Hfr; rewrite ?Hfr; lia|assumption].
  fold t2. cbn [mbind result_bind]. rewrite DecimalFacts.blit_app by (rewrite Hfr; lia).
  rewrite Hc. unfold DecimalFacts.blit. rewrite take_0, drop_ge by (rewrite Hfr; lia).
  now rewrite app_nil_r.
Qed.

Lemma empty_builder_ok N : builder_ok N empty_builder [].
Proof. unfold builder_ok, empty_builder. cbn. split_and!; auto. Qed.

Lemma append_all_ok N state ops b s :
  builder_ok N b s -> within state s -> Forall op_ok ops ->
  appends N state s (concat (map op_text ops)) (append_all N state b ops).
Proof.
  intros Hb Hw H. revert b s Hb Hw. induction H as [|op ops Hop _ IH]; intros b s Hb Hw; cbn [append_all map concat].
  - now apply (appends_nil N).
  - pose proof (append_ok N state b s op Hb Hw Hop) as A. unfold appends in A |- *.
    rewrite app_assoc.
    destruct (state && (STRING_MAXIMUM_LENGTH <? Z.of_nat (length (s ++ op_text op)))) eqn:E.
    + rewrite A. cbn [mbind result_bind]. apply andb_prop in E as [-> E]; Zbool.
      rewrite (length_app (s ++ op_text op)). cbn [andb].
      match goal with |- context [?x <? ?y] => assert ((x <? y) = true) as -> by (apply Z.ltb_lt; lia) end.
      reflexivity.
    + destruct A as (b' & -> & Hb'). cbn [mbind result_bind]. apply IH; [assumption|].
      intros ->. cbn [andb] in E. now Zbool.
Qed.

(** C36: a string builder is a concatenation: for any sequence of appends the
    finished string is the appended texts in order, stored in 8 bits exactly
    when every unit fits, and a RangeError is thrown exactly when a limit
    applies and the total length exceeds it, whatever the inline capacity and
    the initial contents of the buffer. *)
Theorem stringbuilder_refines_concat N state fresh ops :
  (forall n, length (fresh n) = n) -> Forall op_ok ops ->
  (b ← append_all N state empty_builder ops; finalize state fresh b) =
    let s := concat (map op_text ops) in
    if state && (STRING_MAXIMUM_LENGTH <? Z.of_nat (length s)) then Throw RangeError
    else Ok (mkData (latin1 s) s).
Proof.
  intros Hfr Hops. cbn zeta.
  pose proof (append_all_ok N state ops empty_builder [] (empty_builder_ok N)
    ltac:(intros _; unfold STRING_MAXIMUM_LENGTH; simpl; lia) Hops) as A.
  unfold appends in A. cbn [app] in A.
  destruct (state && _) eqn:E; [now rewrite A|]. destruct A as (b & -> & Hb). cbn [mbind result_bind].
  apply (finalize_spec N); [assumption|assumption|]. intros ->. cbn [andb] in E. now Zbool.
Qed.

Lemma stringbuilder_refines_concat_witness :
  (b ← append_all 1 true empty_builder [appendInt32 (-5); appendCodePoint 0x1F600; appendConst [65]];
   finalize true (fun n => repeat 7 n) b) =
    let s := concat (map op_text [appendInt32 (-5); appendCodePoint 0x1F600; appendConst [65]]) in
    if true && (STRING_MAXIMUM_LENGTH <? Z.of_nat (length s)) then Throw RangeError
    else Ok (mkData (latin1 s) s).
Proof.
  apply (stringbuilder_refines_concat 1 true (fun n => repeat 7 n)).
  - intros n. apply repeat_length.
  - repeat constructor; unfold op_ok, ascii, in_s, in_u; simpl; try lia.
Defined.

(** C39: [getSubstitution] computes GetSubstitution of ECMA-262 for every
    template: "$$", "$&", "$`", "$'", one- and two-digit captures with their
    fallback, named groups read in template order and every other "$" kept;
    an error of a group read stops it, and a result over the length limit is a
    RangeError. *)
Theorem getSubstitution_correct (W : Type) getNamed N fresh matched str position captures
    namedCapture replacement (w : W) :
  (forall n, length (fresh n) = n) ->
  data_ok matched -> data_ok str -> data_ok replacement -> Forall data_ok captures ->
  (position <= length (buffer str))%nat -> Z.of_nat (length captures) < 2 ^ 32 ->
  (forall name w s w', getNamed name w = Ok (Some s, w') -> data_ok s) ->
  (forall name w, getNamed name w <> Undefined) ->
  let code := getSubstitution W getNamed N matched str position captures namedCapture replacement fresh w in
  match GetSubstitution getNamed (buffer matched) (buffer str) position (map buffer captures)
          namedCapture (buffer replacement) w with
  | Ok (t, w') =>
      code = if STRING_MAXIMUM_LENGTH <? Z.of_nat (length t) then Throw RangeError
             else Ok (mkData (latin1 t) t, w')
  | Throw e => code = Throw e \/ code = Throw RangeError
  | Undefined => False
  end.
Proof.
  intros Hfr Hm Hs Hr Hc Hp Hn Hg Hd code.
  pose proof (subst_loop_ok getNamed N matched str position captures namedCapture replacement
    Hm Hs Hp Hc Hn Hr Hg (length (buffer replacement)) 0%nat empty_builder w [] (empty_builder_ok N)
    ltac:(intros _; unfold STRING_MAXIMUM_LENGTH; simpl; lia) ltac:(lia)) as S.
  unfold sim in S. rewrite drop_0 in S. unfold code, getSubstitution.
  pose proof (GetSubstitution_defined getNamed (buffer matched) (buffer str) position (map buffer captures)
    namedCapture (buffer replacement) w Hd) as Hdef.
  destruct (GetSubstitution _ _ _ _ _ _ _ _) as [[t w']|e|]; [|destruct S as [-> | ->]; auto|congruence].
  cbn [app] in S. destruct (STRING_MAXIMUM_LENGTH <? Z.of_nat (length t)) eqn:E; [now rewrite S|].
  destruct S as (b & -> & Hb). cbn [mbind result_bind].
  rewrite (finalize_spec N true fresh b t Hfr Hb); [reflexivity|]. intros _. now Zbool.
Qed.

Lemma getSubstitution_correct_witness :
  let get := fun (name : list Z) (w : nat) => Ok (Some (mkData true [122]), S w) in
  let code := getSubstitution nat get 2 (mkData true [98]) (mkData true [97; 98; 99]) 1
    [mkData true [120; 121]] true (mkData true [36; 49; 48; 36; 38; 36; 60; 113; 62; 36; 39])
    (fun n => repeat 0 n) 0%nat in
  match GetSubstitution get [98] [97; 98; 99] 1 [[120; 121]] true [36; 49; 48; 36; 38; 36; 60; 113; 62; 36; 39] 0%nat with
  | Ok (t, w') =>
      code = if STRING_MAXIMUM_LENGTH <? Z.of_nat (length t) then Throw RangeError
             else Ok (mkData (latin1 t) t, w')
  | Throw e => code = Throw e \/ code = Throw RangeError
  | Undefined => False
  end.
Proof.
  apply (getSubstitution_correct nat (fun name w => Ok (Some (mkData true [122]), S w)) 2 (fun n => repeat 0 n)
    (mkData true [98]) (mkData true [97; 98; 99]) 1 [mkData true [120; 121]] true
    (mkData true [36; 49; 48; 36; 38; 36; 60; 113; 62; 36; 39]) 0%nat);
    try (repeat constructor; unfold in_u; simpl; lia).
  - intros n. apply repeat_length.
  - intros name w s w' [= <- _]. repeat constructor; unfold in_u; lia.
  - discriminate.
Defined.

(** Trimming removes exactly the leading and trailing ECMA-262 white space
    and line terminators it is asked to, and keeps the string well formed. *)
Theorem trim_correct d where_ :
  data_ok d ->
  exists d', trim d where_ = Some d' /\ data_ok d' /\ buffer d' = trim_string where_ (buffer d).
Proof. apply trim_spec. Qed.

Lemma trim_correct_witness :
  exists d', trim (mkData false [0x3000; 0x20; 0x61; 0x20; 0xFEFF; 0x2028]) TrimBoth = Some d' /\ data_ok d' /\
    buffer d' = trim_string TrimBoth [0x3000; 0x20; 0x61; 0x20; 0xFEFF; 0x2028].
Proof. apply (trim_correct (mkData false _) TrimBoth). repeat constructor; unfold in_u; simpl; lia. Defined.

(** Searching forward finds the least position at or after [p] where the
    pattern occurs and searching backward the greatest at or before it, or
    [SIZE_MAX] when there is none; the [char] overload agrees on ASCII. *)
Theorem find_rfind_correct data str p :
  (exists r, find data str (Z.of_nat p) = Some r /\ first_occurrence str data p r) /\
  (str <> [] \/ (p <= length data)%nat ->
   exists r, rfind data str (Z.of_nat p) = Some r /\ last_occurrence str data p r) /\
  (Forall (in_u 7) str -> find_chars data str (Z.of_nat p) = find data str (Z.of_nat p)).
Proof.
  split_and!.
  - unfold find. destruct str as [|c rest].
    + destruct (Z.of_nat p <=? _) eqn:E; Zbool; eexists; (split; [reflexivity|]).
      * right. exists p. split_and!; [reflexivity|lia|split; [simpl; lia|reflexivity]|intros; lia].
      * left. split; [reflexivity|]. intros i Hi [L _]. simpl in L. lia.
    + destruct (_ <=? _) eqn:E; Zbool.
      * apply find_loop_spec; cbn [length] in *; lia.
      * eexists. split; [reflexivity|left; split; [reflexivity|]]. intros i _ [L _]. lia.
  - intros H. unfold rfind. destruct str as [|c rest].
    + destruct H as [H|H]; [congruence|]. change (Z.of_nat (length []) =? 0) with true. cbv iota.
      destruct (Z.of_nat p <=? _) eqn:E; Zbool; [|lia]. eexists. split; [reflexivity|].
      right. exists p. split_and!; [reflexivity|lia|split; [simpl; lia|reflexivity]|intros; lia].
    + clear H. set (str := c :: rest). destruct (Z.of_nat (length str) =? 0) eqn:E0; Zbool; [simpl in E0; lia|].
      destruct (_ <=? _) eqn:E; Zbool.
      2: { eexists. split; [reflexivity|left; split; [reflexivity|]]. intros i _ [L _]. lia. }
      set (q := Z.to_nat _).
      assert (q = p `min` (length data - length str))%nat as Hq
        by (unfold q; destruct (_ <? Z.of_nat p) eqn:E1; Zbool; lia).
      destruct (rfind_loop_spec data str q) as (r & Er & Hr); [lia|].
      exists r. split; [assumption|].
      destruct Hr as [[-> Hn]|(i & -> & Hi & Ho & Hn)]; [left|right].
      * split; [reflexivity|]. intros i Hi Ho. apply (Hn i); [destruct Ho; lia|assumption].
      * exists i. split_and!; [reflexivity|lia|assumption|]. intros j Hj Ho'.
        apply (Hn j); [destruct Ho'; lia|assumption].
  - intros H. unfold find_chars. f_equal.
    assert (forall l, Forall (in_u 7) l -> map i8 l = l) as M.
    { intros l. induction 1 as [|x l Hx _ IH]; simpl; [reflexivity|]. rewrite IH, wraps_id; [reflexivity|lia|].
      unfold in_s, in_u in *. lia. }
    destruct H as [|x l Hx Hl]; [reflexivity|]. rewrite (M l Hl). f_equal.
    unfold in_u in Hx. rewrite wraps_id, wrapu_id by (unfold in_s, in_u; lia). reflexivity.
Qed.

Lemma find_rfind_correct_witness :
  (exists r, rfind [97; 98; 97; 98] [97; 98] (Z.of_nat 3) = Some r /\ last_occurrence [97; 98] [97; 98; 97; 98] 3 r) /\
  find_chars [97; 98; 97; 98] [97; 98] (Z.of_nat 1) = find [97; 98; 97; 98] [97; 98] (Z.of_nat 1).
Proof.
  split.
  - apply (find_rfind_correct [97; 98; 97; 98] [97; 98] 3). left. discriminate.
  - apply (find_rfind_correct [97; 98; 97; 98] [97; 98] 1). repeat constructor; lia.
Defined.

(** [stringCompare] is the code unit order of IsLessThan, a total order. *)
Theorem stringCompare_total a b :
  Z.of_nat (length a) < 2 ^ 32 -> Z.of_nat (length b) < 2 ^ 32 ->
  stringCompare a b = Some (lex_compare a b) /\ stringCompare b a = Some (- lex_compare a b) /\
  (stringCompare a b = Some 0 <-> a = b).
Proof.
  intros Ha Hb. rewrite !stringCompare_spec by assumption. split_and!; [reflexivity| |].
  - f_equal. apply lex_compare_antisym.
  - split; [intros [= E]; now apply lex_compare_eq|intros ->; now rewrite lex_compare_refl].
Qed.

Lemma stringCompare_total_witness :
  stringCompare [97] [97; 98] = Some (lex_compare [97] [97; 98]) /\
  stringCompare [97; 98] [97] = Some (- lex_compare [97] [97; 98]) /\
  (stringCompare [97] [97; 98] = Some 0 <-> [97] = [97; 98]).
Proof. apply stringCompare_total; simpl; lia. Defined.

End StringOpsProps.
