(* ===== verification/KeyedCollection.v ===== *)
(** Map and Set ([runtime/KeyedCollectionHashIndex.h], [runtime/MapObject.cpp],
    [runtime/SetObject.cpp]): an insertion-ordered storage with tombstones, found
    by a linear scan while it is small and by an open-addressing hash index once
    it is not.  The reference is the MapData list of ECMA-262.  The operations
    are stated over an interface of keys, [CollectionKey]; its instance for the
    64-bit values of [Value] is the engine's hash and SameValueZero. *)
From Stdlib Require Import ZArith Lia Bool.
From stdpp Require Import base numbers list option decidable gmap.
From S2P Require Import Prelude Double Value.

(** * The interface of keys *)

Class CollectionKey (K : Type) := {
  valid : K -> Prop;
  identical : K -> K -> bool;
  sameValueZero : K -> K -> bool;
  isPointer : K -> bool;
  hashOf : K -> Z;
  canonical_key : K -> K;
  same_refl k : valid k -> sameValueZero k k = true;
  same_sym a b : valid a -> valid b -> sameValueZero a b = sameValueZero b a;
  same_trans a b c : valid a -> valid b -> valid c ->
    sameValueZero a b = true -> sameValueZero b c = true -> sameValueZero a c = true;
  identical_same a b : valid a -> valid b -> identical a b = true -> sameValueZero a b = true;
  same_hash a b : valid a -> valid b -> sameValueZero a b = true -> hashOf a = hashOf b;
  hash_range k : valid k -> 0 <= hashOf k;
  canonical_valid k : valid k -> valid (canonical_key k);
  canonical_same k : valid k -> sameValueZero (canonical_key k) k = true
}.

(** * The hash index *)
Module HashIndex.

Definition buildThreshold : Z := 16.

Record KeyedCollectionHashIndex := mkIndex {
  capacity : Z;
  occupied : Z;
  buckets : list Z
}.

Fixpoint grow (fuel : nat) (capacity liveCount : Z) : option Z :=
  if u64 (capacity * 5) <=? u64 (liveCount * 6) then
    match fuel with O => None | S fuel => grow fuel (u32 (Z.shiftl capacity 1)) liveCount end
  else Some capacity.
Definition create (liveCount : Z) : result KeyedCollectionHashIndex :=
  capacity ← defined (grow 32 16 liveCount);
  Ok (mkIndex capacity 0 (repeat 0 (Z.to_nat capacity))).

Definition needsRebuild (x : KeyedCollectionHashIndex) : bool :=
  u32 (capacity x * 5) <=? u32 (occupied x * 6).

(** The probe of [insert] for an empty bucket; a table without one loops. *)
Fixpoint probe_empty (fuel : nat) (buckets : list Z) (mask i : Z) : result Z :=
  b ← defined (lookupZ buckets i);
  if b =? 0 then Ok i
  else match fuel with
       | O => Undefined
       | S fuel => probe_empty fuel buckets mask (Z.land (u64 (i + 1)) mask)
       end.
(** [insert]; its assertion is part of its contract. *)
Definition insert (x : KeyedCollectionHashIndex) (hash storageIndex : Z)
  : result KeyedCollectionHashIndex :=
  if needsRebuild x then Undefined
  else
    let mask := u64 (u32 (capacity x - 1)) in
    i ← probe_empty (length (buckets x)) (buckets x) mask (Z.land hash mask);
    Ok (mkIndex (capacity x) (u32 (occupied x + 1))
          (<[Z.to_nat i := u32 (storageIndex + 1)]> (buckets x))).

End HashIndex.

(** * Finding and indexing keys

    The keys of a storage, [None] for a tombstone; the operations return the
    index, which a search may build. *)
Module Keys.
Import HashIndex.

Section Keys.
Context {K : Type} `{CollectionKey K}.

Notation keys := (list (option K)).

Fixpoint scan (ks : keys) (key : K) (i : nat) : option nat :=
  match ks with
  | [] => None
  | Some k :: ks =>
      if identical k key then Some i
      else if sameValueZero k key then Some i
      else scan ks key (S i)
  | None :: ks => scan ks key (S i)
  end.

Fixpoint build_loop (ks : keys) (i : nat) (index : KeyedCollectionHashIndex)
  : result KeyedCollectionHashIndex :=
  match ks with
  | [] => Ok index
  | Some k :: ks => index ← insert index (hashOf k) (Z.of_nat i); build_loop ks (S i) index
  | None :: ks => build_loop ks (S i) index
  end.
Definition live_count (ks : keys) : nat := length (filter is_Some ks).
Definition buildOrRebuildHashIndex (ks : keys) : result KeyedCollectionHashIndex :=
  index ← create (Z.of_nat (live_count ks));
  build_loop ks 0 index.

(** The probe of [findKeyIndex]. *)
Fixpoint probe_key (fuel : nat) (ks : keys) (key : K) (buckets : list Z) (mask i : Z)
  : result (option nat) :=
  b ← defined (lookupZ buckets i);
  if b =? 0 then Ok None
  else
    existingKey ← defined (lookupZ ks (b - 1));
    let next :=
      match fuel with
      | O => Undefined
      | S fuel => probe_key fuel ks key buckets mask (Z.land (u64 (i + 1)) mask)
      end in
    match existingKey with
    | Some k => if identical k key then Ok (Some (Z.to_nat (b - 1)))
                else if sameValueZero k key then Ok (Some (Z.to_nat (b - 1)))
                else next
    | None => next
    end.

(** [findKeyIndex]: the position, [*outHash] (0 when it is not written) and the
    index. *)
Definition findKeyIndex (ks : keys) (hashIndex : option KeyedCollectionHashIndex) (key : K)
  : result (option nat * Z * option KeyedCollectionHashIndex) :=
  let probe index :=
    let hash := hashOf key in
    let mask := u64 (u32 (capacity index - 1)) in
    r ← probe_key (length (buckets index)) ks key (buckets index) mask (Z.land hash mask);
    Ok (r, hash, Some index) in
  match hashIndex with
  | None =>
      let threshold := if negb (isPointer key) then 128 else buildThreshold in
      if threshold <=? Z.of_nat (length ks) then
        index ← buildOrRebuildHashIndex ks;
        probe index
      else
        match scan ks key 0 with
        | Some i => Ok (Some i, 0, None)
        | None => Ok (None, hashOf key, None)
        end
  | Some index => probe index
  end.

Definition addToHashIndex (ks : keys) (hashIndex : option KeyedCollectionHashIndex)
    (storageIndex : nat) (hash : Z) : result (option KeyedCollectionHashIndex) :=
  match hashIndex with
  | None => Ok None
  | Some index =>
      if needsRebuild index then index ← buildOrRebuildHashIndex ks; Ok (Some index)
      else
        hash ← (if hash =? 0 then
                  k ← defined (ks !! storageIndex); k ← defined k; Ok (hashOf k)
                else Ok hash);
        index ← insert index hash (Z.of_nat storageIndex);
        Ok (Some index)
  end.
End Keys.

End Keys.

(** * Map and Set objects *)
Module Collections.
Import HashIndex Keys.

Record MapObject (K V : Type) := mkMap {
  m_storage : list (option (K * V));
  m_hashIndex : option KeyedCollectionHashIndex
}.
Arguments mkMap {K V} _ _.
Arguments m_storage {K V} _.
Arguments m_hashIndex {K V} _.
Definition keys_of {K V} (s : list (option (K * V))) : list (option K) := map (option_map fst) s.
Definition empty_map {K V} : MapObject K V := mkMap [] None.

Inductive IteratorType := TypeKey | TypeValue | TypeKeyValue.
(** An iterator; [it_map] is false once it has been detached from its map. *)
Record Iterator := mkIterator { it_map : bool; m_iteratorIndex : nat; m_type : IteratorType }.
Inductive IterResult (K V : Type) := IKey (k : K) | IValue (v : V) | IEntry (k : K) (v : V).
Arguments IKey {K V} k.
Arguments IValue {K V} v.
Arguments IEntry {K V} k v.

Section Map.
Context {K V : Type} `{CollectionKey K}.
(** The undefined value. *)
Context (undefined : V).

Definition clear (m : MapObject K V) : MapObject K V :=
  mkMap (map (fun _ => None) (m_storage m)) None.

Definition map_find (m : MapObject K V) (key : K) : result (option nat * Z * MapObject K V) :=
  '(i, hash, index) ← findKeyIndex (keys_of (m_storage m)) (m_hashIndex m) key;
  Ok (i, hash, mkMap (m_storage m) index).

Definition deleteOperation (m : MapObject K V) (key : K) : result (bool * MapObject K V) :=
  '(i, _, m) ← map_find m key;
  match i with
  | None => Ok (false, m)
  | Some i => Ok (true, mkMap (<[i := None]> (m_storage m)) (m_hashIndex m))
  end.

(** The value of the entry at [i]. *)
Definition value_at (m : MapObject K V) (i : nat) : result V :=
  e ← defined (m_storage m !! i); '(_, v) ← defined e; Ok v.
Definition store_value (m : MapObject K V) (i : nat) (v : V) : result (MapObject K V) :=
  e ← defined (m_storage m !! i); '(k, _) ← defined e;
  Ok (mkMap (<[i := Some (k, v)]> (m_storage m)) (m_hashIndex m)).
(** [pushBack] followed by [addToHashIndex(m_storage.size() - 1, hash)]. *)
Definition push_entry (m : MapObject K V) (key : K) (v : V) (hash : Z) : result (MapObject K V) :=
  let storage := m_storage m ++ [Some (key, v)] in
  index ← addToHashIndex (keys_of storage) (m_hashIndex m) (length storage - 1) hash;
  Ok (mkMap storage index).

Definition get (m : MapObject K V) (key : K) : result (V * MapObject K V) :=
  '(i, _, m) ← map_find m key;
  match i with
  | None => Ok (undefined, m)
  | Some i => v ← value_at m i; Ok (v, m)
  end.

Definition has (m : MapObject K V) (key : K) : result (bool * MapObject K V) :=
  '(i, _, m) ← map_find m key;
  Ok (match i with None => false | Some _ => true end, m).

Definition set (m : MapObject K V) (key : K) (value : V) : result (MapObject K V) :=
  '(i, hash, m) ← map_find m key;
  match i with
  | Some i => store_value m i value
  | None => push_entry m (canonical_key key) value hash
  end.

Definition getOrInsert (m : MapObject K V) (key : K) (value : V) : result (V * MapObject K V) :=
  let key := canonical_key key in
  '(i, hash, m) ← map_find m key;
  match i with
  | Some i => v ← value_at m i; Ok (v, m)
  | None => m ← push_entry m key value hash; Ok (value, m)
  end.

(** [callback] is the call of the function object: it may change the map. *)
Definition getOrInsertComputed (m : MapObject K V) (key : K) (isCallable : bool)
    (callback : K -> MapObject K V -> result (V * MapObject K V)) : result (V * MapObject K V) :=
  if negb isCallable then Throw TypeError
  else
    let key := canonical_key key in
    '(i, _, m) ← map_find m key;
    match i with
    | Some i => v ← value_at m i; Ok (v, m)
    | None =>
        '(value, m) ← callback key m;
        '(i, newHash, m) ← map_find m key;
        match i with
        | Some i => m ← store_value m i value; Ok (value, m)
        | None => m ← push_entry m key value newHash; Ok (value, m)
        end
    end.

Fixpoint size_loop (s : list (option (K * V))) (siz : Z) : Z :=
  match s with
  | [] => siz
  | None :: s => size_loop s siz
  | Some _ :: s => size_loop s (siz + 1)
  end.
Definition size (m : MapObject K V) : Z := size_loop (m_storage m) 0.

(** [MapIteratorObject::advance]: the result, whether it is done, and the new
    iterator. *)
Fixpoint advance_loop (fuel : nat) (storage : list (option (K * V))) (ty : IteratorType) (index : nat)
  : result (option (IterResult K V) * Iterator) :=
  if (index <? length storage)%nat then
    match fuel with
    | O => Undefined
    | S fuel =>
        e ← defined (storage !! index);
        match e with
        | None => advance_loop fuel storage ty (S index)
        | Some (k, v) =>
            Ok (Some (match ty with TypeKey => IKey k | TypeValue => IValue v | TypeKeyValue => IEntry k v end),
                mkIterator true (S index) ty)
        end
    end
  else Ok (None, mkIterator false index ty).
Definition advance (m : MapObject K V) (it : Iterator) : result (option (IterResult K V) * Iterator) :=
  if negb (it_map it) then Ok (None, it)
  else advance_loop (length (m_storage m)) (m_storage m) (m_type it) (m_iteratorIndex it).
End Map.

Record SetObject (K : Type) := mkSet {
  s_storage : list (option K);
  s_hashIndex : option KeyedCollectionHashIndex
}.
Arguments mkSet {K} _ _.
Arguments s_storage {K} _.
Arguments s_hashIndex {K} _.

Section Set_.
Context {K : Type} `{CollectionKey K}.

Definition set_clear (s : SetObject K) : SetObject K :=
  mkSet (map (fun _ => None) (s_storage s)) None.
Definition set_delete (s : SetObject K) (key : K) : result (bool * SetObject K) :=
  '(i, _, index) ← findKeyIndex (s_storage s) (s_hashIndex s) key;
  match i with
  | None => Ok (false, mkSet (s_storage s) index)
  | Some i => Ok (true, mkSet (<[i := None]> (s_storage s)) index)
  end.
Definition set_add (s : SetObject K) (key : K) : result (SetObject K) :=
  '(i, hash, index) ← findKeyIndex (s_storage s) (s_hashIndex s) key;
  match i with
  | Some _ => Ok (mkSet (s_storage s) index)
  | None =>
      let storage := s_storage s ++ [Some (canonical_key key)] in
      index ← addToHashIndex storage index (length storage - 1) hash;
      Ok (mkSet storage index)
  end.
Definition set_has (s : SetObject K) (key : K) : result (bool * SetObject K) :=
  '(i, _, index) ← findKeyIndex (s_storage s) (s_hashIndex s) key;
  Ok (match i with None => false | Some _ => true end, mkSet (s_storage s) index).
Definition set_size (s : SetObject K) : Z := Z.of_nat (live_count (s_storage s)).
Definition createDenseArrayCopy (s : SetObject K) : list K := omap id (s_storage s).

(** [SetIteratorObject::advance]; [TypeKey] is not a kind of a set iterator. *)
Fixpoint set_advance_loop (fuel : nat) (storage : list (option K)) (ty : IteratorType) (index : nat)
  : result (option (IterResult K K) * Iterator) :=
  if (index <? length storage)%nat then
    match fuel with
    | O => Undefined
    | S fuel =>
        e ← defined (storage !! index);
        match e with
        | None => set_advance_loop fuel storage ty (S index)
        | Some e => Ok (Some (match ty with TypeKeyValue => IEntry e e | _ => IValue e end),
                        mkIterator true (S index) ty)
        end
    end
  else Ok (None, mkIterator false index ty).
Definition set_advance (s : SetObject K) (it : Iterator) : result (option (IterResult K K) * Iterator) :=
  if negb (it_map it) then Ok (None, it)
  else set_advance_loop (length (s_storage s)) (s_storage s) (m_type it) (m_iteratorIndex it).
End Set_.

End Collections.

(** * The hash of a value *)
Module ValueHash.
Import Word Heap.

(** [String::stringHash] and [String::hashValue] with its default bound. *)
Definition stringHash (s : list Z) : Z :=
  fold_left (fun hash c => u32 (Z.lxor hash c * 0x01000193)) s 0x811c9dc5.
Definition hashValue (s : list Z) : Z := stringHash (take (Nat.min 32 (length s)) s).

Definition keyedCollectionHashMix (u : Z) : Z :=
  let u := Z.lxor u (Z.shiftr u 33) in
  let u := u64 (u * 0xff51afd7ed558ccd) in
  Z.lxor u (Z.shiftr u 33).
Definition keyedCollectionPointerHash (p : Z) : Z := keyedCollectionHashMix p.

Definition keyedCollectionHash (h : heap) (v : Z) : Z :=
  if isInt32 v then
    let i32 := asInt32 v in
    if i32 =? 0 then 0 else keyedCollectionHashMix (of_Z i32)
  else if isNumber v then
    let d := asNumber v in
    if feq d 0 then 0
    else if is_nan d then Z.land 0x7ff8000000000000 0xffffffff
    else keyedCollectionHashMix d
  else if isPointerValue v then
    match h !! v with
    | Some (HString s) => Z.lxor (hashValue s) (u64 (Z.of_nat (length s) * 0x9e3779b9))
    | Some (HBigInt _) => 0x62696e74
    | _ => keyedCollectionPointerHash v
    end
  else if isUndefined v then 0x75646566
  else if isNull v then 0x6e756c6c
  else if asBoolean v then 0x74727565 else 0x66616c73.

(** [canonicalizeKeyedCollectionKey]. *)
Definition canonicalizeKeyedCollectionKey (key : Z) : Z :=
  if isNumber key && feq (asNumber key) 0 && sign_bit (asNumber key) then Value_int 0 else key.

Example hash_int_double : keyedCollectionHash ∅ (Value_int 5) = keyedCollectionHash ∅ (Value_EncodeAsDouble (of_Z 5)).
Proof. vm_compute. reflexivity. Qed.

End ValueHash.

(** * Values as keys *)
Module ValueKeys.
Import Word WordFacts Heap ValueSpec ValueHash.

(** The same hash on language values. *)
Definition js_hash (x : js) : Z :=
  match x with
  | JUndefined => 0x75646566
  | JNull => 0x6e756c6c
  | JBool b => if b then 0x74727565 else 0x66616c73
  | JNumber d => if feq d 0 then 0 else if is_nan d then 0 else keyedCollectionHashMix d
  | JString s => Z.lxor (hashValue s) (u64 (Z.of_nat (length s) * 0x9e3779b9))
  | JBigInt _ => 0x62696e74
  | JSymbol p | JObject p => keyedCollectionPointerHash p
  end.

Lemma hash_denote h v x : in_u 64 v -> denote h v = Some x -> keyedCollectionHash h v = js_hash x.
Proof.
  intros Hv Dv. unfold keyedCollectionHash.
  destruct (isInt32 v) eqn:Ei.
  { unfold denote in Dv. rewrite isInt32_isNumber in Dv by assumption. injection Dv as <-.
    cbn [js_hash]. unfold asNumber. rewrite Ei. pose proof (asInt32_range v) as Hr.
    change 0 with (of_Z 0) at 3. rewrite feq_of_Z by (try apply int32_small, Hr; lia).
    now rewrite is_finite_nan by apply of_Z_finite, int32_small, Hr. }
  destruct (denote_shape h v x Hv Dv) as [Hn Hp|c x Hn Hp Hc Hx|x Hn Hp Hx]; rewrite Hn.
  - reflexivity.
  - rewrite Hp, Hc. destruct c; cbn in Hx; simplify_eq; reflexivity.
  - rewrite Hp. repeat (apply elem_of_cons in Hx as [Hx|Hx]; [injection Hx as -> ->; reflexivity|]).
    now apply not_elem_of_nil in Hx.
Qed.

Lemma feq_sym a b : feq a b = feq b a.
Proof. unfold feq. rewrite Z.eqb_sym. destruct (negb (is_nan a)), (negb (is_nan b)); reflexivity. Qed.

Lemma number_sameValueZero_facts a b c :
  number_sameValueZero a a = true /\ number_sameValueZero a b = number_sameValueZero b a /\
  (number_sameValueZero a b = true -> number_sameValueZero b c = true -> number_sameValueZero a c = true).
Proof.
  unfold number_sameValueZero. split_and!.
  - rewrite feq_refl. now destruct (is_nan a).
  - now rewrite feq_sym, (andb_comm (is_nan a)).
  - unfold feq. destruct (is_nan a), (is_nan b), (is_nan c); cbn; try congruence.
    rewrite !Z.eqb_eq. congruence.
Qed.

Lemma js_same_refl x : js_sameValueZero x x = true.
Proof.
  destruct x; cbn; auto using Z.eqb_refl, eqb_reflx.
  - exact (proj1 (number_sameValueZero_facts d d d)).
  - now apply bool_decide_eq_true_2.
Qed.

Lemma js_same_sym x y : js_sameValueZero x y = js_sameValueZero y x.
Proof.
  destruct x, y; cbn; try reflexivity; try apply Z.eqb_sym.
  - now destruct b, b0.
  - exact (proj1 (proj2 (number_sameValueZero_facts d d0 d))).
  - now apply bool_decide_ext.
Qed.

Lemma js_same_trans x y z : js_sameValueZero x y = true -> js_sameValueZero y z = true -> js_sameValueZero x z = true.
Proof.
  destruct x, y; cbn; try discriminate; destruct z; cbn; try discriminate; try auto;
    try (rewrite !Z.eqb_eq; congruence).
  - rewrite !eqb_true_iff. congruence.
  - exact (proj2 (proj2 (number_sameValueZero_facts _ _ _))).
  - rewrite !bool_decide_eq_true. congruence.
Qed.

(** A number that is a key is a 64-bit pattern. *)
Definition js_ok (x : js) : Prop := match x with JNumber d => in_u 64 d | _ => True end.

Lemma js_same_hash x y : js_ok x -> js_ok y -> js_sameValueZero x y = true -> js_hash x = js_hash y.
Proof.
  destruct x, y; cbn; try discriminate; try reflexivity; intros Hx Hy;
    try (rewrite Z.eqb_eq; congruence).
  - rewrite eqb_true_iff. now intros ->.
  - unfold number_sameValueZero, feq.
    destruct (is_nan d) eqn:E1, (is_nan d0) eqn:E2; cbn; try discriminate; [reflexivity|].
    intros E. Zbool. change (is_nan 0) with false. cbn. change (key 0) with 0. rewrite <- E.
    destruct (key d =? 0) eqn:E0; Zbool; [reflexivity|].
    now rewrite (key_inj d d0) by auto.
  - rewrite bool_decide_eq_true. now intros ->.
Qed.

Lemma mix_nonneg u : 0 <= u -> 0 <= keyedCollectionHashMix u.
Proof.
  intros H. unfold keyedCollectionHashMix.
  set (a := u64 _). assert (0 <= a) by (apply wrapu_range; lia).
  rewrite Z.lxor_nonneg. split; intros; [apply Z.shiftr_nonneg|]; lia.
Qed.

Lemma stringHash_nonneg s : 0 <= stringHash s.
Proof.
  unfold stringHash. assert (forall a, 0 <= a -> 0 <= fold_left (fun hash c => u32 (Z.lxor hash c * 0x01000193)) s a) as G.
  { induction s as [|c s IH]; intros a Ha; cbn [fold_left]; [assumption|]. apply IH, wrapu_range. lia. }
  apply G. lia.
Qed.

Lemma denote_ok h v x : denote h v = Some x -> js_ok x.
Proof.
  unfold denote. destruct (isNumber v); [intros [= <-]; apply asNumber_u64|].
  destruct (isPointerValue v).
  - destruct (h !! v) as [c|]; [|discriminate]. destruct c; cbn; intros E; simplify_eq; exact I.
  - repeat case_match; intros E; simplify_eq; exact I.
Qed.

Lemma hash_nonneg h v : in_u 64 v -> 0 <= keyedCollectionHash h v.
Proof.
  intros Hv. unfold keyedCollectionHash. repeat case_match; try lia;
    try (apply mix_nonneg; first [apply of_Z_u64 | apply asNumber_u64 | apply Hv]; fail);
    try (rewrite Z.lxor_nonneg; split; intros; [apply wrapu_range; lia|apply stringHash_nonneg]).
  vm_compute. congruence.
Qed.

Lemma canonical_facts h v : in_u 64 v -> is_Some (denote h v) ->
  in_u 64 (canonicalizeKeyedCollectionKey v) /\
  exists x y, denote h (canonicalizeKeyedCollectionKey v) = Some x /\ denote h v = Some y /\ js_sameValueZero x y = true.
Proof.
  intros Hv [y Hy]. unfold canonicalizeKeyedCollectionKey.
  destruct (isNumber v && feq (asNumber v) 0 && sign_bit (asNumber v)) eqn:E.
  - split; [apply Value_int_u64|]. Zbool. exists (JNumber (of_Z 0)), y.
    unfold denote in *. rewrite H in Hy. injection Hy as <-.
    rewrite isInt32_isNumber by apply isInt32_Value_int. rewrite asNumber_Value_int by (unfold in_s; lia).
    split_and!; [reflexivity|now rewrite H|]. cbn. unfold number_sameValueZero.
    change (of_Z 0) with 0. rewrite feq_sym, H1. apply orb_true_r.
  - split; [assumption|]. exists y, y. split_and!; [assumption|assumption|apply js_same_refl].
Qed.

(** The engine's keys over a heap: 64-bit words that denote a value there. *)
Definition word_valid (h : heap) (v : Z) : Prop := in_u 64 v /\ is_Some (denote h v).

#[local] Obligation Tactic := idtac.
Program Definition value_key (h : heap) : CollectionKey Z := {|
  valid := word_valid h;
  identical := Z.eqb;
  sameValueZero := equalsToByTheSameValueZeroAlgorithm h;
  isPointer := isPointerValue;
  hashOf := keyedCollectionHash h;
  canonical_key := canonicalizeKeyedCollectionKey
|}.
Next Obligation. intros h k [Hk [x Dx]]. rewrite (sameValueZero_spec h k k x x) by assumption. apply js_same_refl. Qed.
Next Obligation.
  intros h a b [Ha [x Dx]] [Hb [y Dy]].
  rewrite (sameValueZero_spec h a b x y), (sameValueZero_spec h b a y x) by assumption. apply js_same_sym.
Qed.
Next Obligation.
  intros h a b c [Ha [x Dx]] [Hb [y Dy]] [Hc [z Dz]].
  rewrite (sameValueZero_spec h a b x y), (sameValueZero_spec h b c y z), (sameValueZero_spec h a c x z) by assumption.
  apply js_same_trans.
Qed.
Next Obligation.
  intros h a b [Ha [x Dx]] _ E. cbn in E. Zbool. subst b.
  rewrite (sameValueZero_spec h a a x x) by assumption. apply js_same_refl.
Qed.
Next Obligation.
  intros h a b [Ha [x Dx]] [Hb [y Dy]]. rewrite (sameValueZero_spec h a b x y) by assumption.
  rewrite (hash_denote h a x), (hash_denote h b y) by assumption.
  apply js_same_hash; eapply denote_ok; eassumption.
Qed.
Next Obligation. intros h k [Hk _]. now apply hash_nonneg. Qed.
Next Obligation. intros h k [Hk Dk]. destruct (canonical_facts h k Hk Dk) as (Hc & x & y & Dx & _). split; eauto. Qed.
Next Obligation.
  intros h k [Hk Dk]. destruct (canonical_facts h k Hk Dk) as (Hc & x & y & Dx & Dy & Hs).
  now rewrite (sameValueZero_spec h _ k x y).
Qed.

End ValueKeys.

(** * The probe sequence *)
Module ProbeFacts.
Import HashIndex Keys.

Lemma least_nat (P : nat -> Prop) `{forall n, Decision (P n)} n :
  P n -> exists m, (m <= n)%nat /\ P m /\ forall k, (k < m)%nat -> ~ P k.
Proof.
  induction n as [n IH] using lt_wf_ind. intros Hn.
  destruct (decide (Exists P (seq 0 n))) as [E|E].
  - apply Exists_exists in E as (k & Hk & Pk). apply elem_of_seq in Hk.
    destruct (IH k ltac:(lia) Pk) as (m & Hm & Pm & Hl). exists m. split_and!; [lia|assumption|assumption].
  - exists n. split_and!; [lia|assumption|]. intros k Hk Pk. apply E, Exists_exists.
    exists k. split; [apply elem_of_seq; lia|assumption].
Qed.

Definition nonzero (bs : list Z) : nat := length (filter (fun b => b <> 0) bs).

Lemma nonzero_le bs : (nonzero bs <= length bs)%nat.
Proof. apply length_filter. Qed.

Lemma nonzero_insert bs i b : bs !! i = Some 0 -> b <> 0 -> nonzero (<[i := b]> bs) = S (nonzero bs).
Proof.
  intros Hi Hb. unfold nonzero. rewrite insert_take_drop by (eapply lookup_lt_Some; eassumption).
  rewrite <- (take_drop_middle bs i 0 Hi) at 3.
  rewrite !filter_app, !filter_cons, !length_app.
  destruct (decide (b <> 0)); [|contradiction]. destruct (decide (0 <> 0)); [congruence|].
  simpl. lia.
Qed.

Lemma zero_exists bs : (nonzero bs < length bs)%nat -> exists z : nat, bs !! z = Some 0.
Proof.
  unfold nonzero. induction bs as [|b bs IH]; simpl; [lia|]. rewrite filter_cons.
  destruct (decide (b <> 0)) as [Hb|Hb]; simpl.
  - intros Hl. destruct IH as [z Hz]; [lia|]. now exists (S z).
  - intros _. exists 0%nat. simpl. f_equal. lia.
Qed.

Section Positions.
Context (k h : Z) (Hk : 0 <= k <= 31).

(** The [d]-th position probed. *)
Definition pos (d : nat) : Z := (h + Z.of_nat d) mod 2 ^ k.

Lemma pos_range d : 0 <= pos d < 2 ^ k.
Proof. unfold pos. apply Z.mod_pos_bound. lia. Qed.

Lemma start_pos : Z.land h (2 ^ k - 1) = pos 0.
Proof. unfold pos. rewrite (land_low_mask k) by lia. now rewrite Z.add_0_r. Qed.

Lemma next_pos d : Z.land (u64 (pos d + 1)) (2 ^ k - 1) = pos (S d).
Proof.
  pose proof (pos_range d) as Hr. pose proof (Z.pow_le_mono_r 2 k 31).
  rewrite wrapu_id by (unfold in_u; lia). rewrite (land_low_mask k) by lia.
  unfold pos. rewrite Zplus_mod_idemp_l. f_equal. lia.
Qed.

Lemma mask_eq : u64 (u32 (2 ^ k - 1)) = 2 ^ k - 1.
Proof.
  pose proof (Z.pow_le_mono_r 2 k 31). assert (0 < 2 ^ k) by lia.
  rewrite !wrapu_id; unfold in_u; try lia. rewrite wrapu_id; unfold in_u; lia.
Qed.

End Positions.

Section Probe.
Context (bs : list Z) (k h : Z) (Hk : 0 <= k <= 31) (Hlen : Z.of_nat (length bs) = 2 ^ k).
Notation pos := (pos k h).

Definition bucket_at (d : nat) : option Z := lookupZ bs (pos d).

Lemma bucket_at_some d : is_Some (bucket_at d).
Proof. apply lookupZ_lt. rewrite Hlen. now apply pos_range. Qed.

(** Every bucket is probed. *)
Lemma pos_onto (z : nat) : (z < length bs)%nat -> exists d : nat, Z.of_nat d < 2 ^ k /\ pos d = Z.of_nat z.
Proof.
  intros Hz. exists (Z.to_nat ((Z.of_nat z - h) mod 2 ^ k)).
  pose proof (Z.mod_pos_bound (Z.of_nat z - h) (2 ^ k) ltac:(lia)) as Hm.
  rewrite Z2Nat.id by lia. split; [lia|]. unfold ProbeFacts.pos. rewrite Z2Nat.id by lia.
  rewrite Zplus_mod_idemp_r. replace (h + (Z.of_nat z - h)) with (Z.of_nat z) by lia.
  apply Z.mod_small. lia.
Qed.

(** The first empty bucket of the sequence. *)
Lemma first_empty : (nonzero bs < length bs)%nat ->
  exists D : nat, Z.of_nat D < 2 ^ k /\ bucket_at D = Some 0 /\
    forall d, (d < D)%nat -> exists b, bucket_at d = Some b /\ b <> 0.
Proof.
  intros Hn. destruct (zero_exists bs Hn) as [z Hz].
  destruct (pos_onto z) as (d0 & Hd0 & Ed0); [eapply lookup_lt_Some; eassumption|].
  assert (bucket_at d0 = Some 0) as B0.
  { unfold bucket_at, lookupZ. rewrite Ed0. destruct (Z.of_nat z <? 0) eqn:E; Zbool; [lia|]. now rewrite Nat2Z.id. }
  destruct (least_nat (fun d => bucket_at d = Some 0) d0 B0) as (D & HD & BD & Hl).
  exists D. split_and!; [lia|assumption|]. intros d Hd. destruct (bucket_at_some d) as [b Hb].
  exists b. split; [assumption|]. intros ->. now apply (Hl d Hd).
Qed.

Lemma probe_empty_spec D : bucket_at D = Some 0 ->
  (forall d, (d < D)%nat -> exists b, bucket_at d = Some b /\ b <> 0) ->
  forall fuel d, (d <= D)%nat -> (D <= d + fuel)%nat ->
  probe_empty fuel bs (2 ^ k - 1) (pos d) = Ok (pos D).
Proof.
  intros HD Hl. induction fuel as [|fuel IH]; intros d H1 H2; cbn [probe_empty]; fold (bucket_at d).
  - replace d with D by lia. now rewrite HD.
  - destruct (decide (d = D)) as [->|Hne]; [now rewrite HD|].
    destruct (Hl d ltac:(lia)) as (b & -> & Hb). cbn [defined mbind result_bind].
    destruct (b =? 0) eqn:E; Zbool; [contradiction|]. rewrite next_pos by assumption. apply IH; lia.
Qed.

(** A bucket value found before any empty bucket. *)
Definition reachable (b : Z) : Prop :=
  exists d, bucket_at d = Some b /\ b <> 0 /\ forall d', (d' < d)%nat -> exists b', bucket_at d' = Some b' /\ b' <> 0.

Lemma reachable_before D b : bucket_at D = Some 0 -> reachable b -> exists d, (d < D)%nat /\ bucket_at d = Some b.
Proof.
  intros HD (d & Hd & Hb & Hl). exists d. split; [|assumption].
  destruct (decide (d < D)%nat); [assumption|].
  destruct (decide (d = D)) as [->|]; [congruence|].
  destruct (Hl D ltac:(lia)) as (b' & Hb' & Hne). congruence.
Qed.
End Probe.

(** Filling an empty bucket keeps what was reachable. *)
Lemma reachable_insert bs k h z b b' :
  0 <= k <= 31 -> bs !! z = Some 0 -> b' <> 0 -> b <> 0 ->
  reachable bs k h b -> reachable (<[z := b']> bs) k h b.
Proof.
  intros Hk Hz Hb' Hb (d & Hd & _ & Hl).
  assert (forall d b, bucket_at bs k h d = Some b -> b <> 0 ->
     exists c, bucket_at (<[z := b']> bs) k h d = Some c /\ c <> 0 /\ (pos k h d <> Z.of_nat z -> c = b)) as A.
  { intros d0 b0 H0 Hne. unfold bucket_at, lookupZ in *.
    destruct (pos k h d0 <? 0) eqn:E; Zbool; [discriminate|].
    destruct (decide (Z.to_nat (pos k h d0) = z)) as [Ez|Ez].
    - exists b'. subst z. rewrite list_lookup_insert_eq by (eapply lookup_lt_Some; eassumption).
      split_and!; [reflexivity|assumption|lia].
    - exists b0. rewrite list_lookup_insert_ne by congruence. auto. }
  exists d. split_and!; [|assumption|].
  - destruct (A d b Hd Hb) as (c & Hc & Hne & Ec). rewrite Hc, Ec; [reflexivity|].
    intros E. unfold bucket_at, lookupZ in Hd. rewrite E in Hd.
    destruct (Z.of_nat z <? 0); [discriminate|]. rewrite Nat2Z.id in Hd. congruence.
  - intros d' Hd'. destruct (Hl d' Hd') as (b0 & H0 & Hne).
    destruct (A d' b0 H0 Hne) as (c & Hc & Hcne & _). now exists c.
Qed.

End ProbeFacts.

(** * The index invariant *)
Module IndexFacts.
Import HashIndex Keys ProbeFacts.

Section Index.
Context {K : Type} `{CollectionKey K}.
Implicit Types (ks : list (option K)) (x : KeyedCollectionHashIndex).

(** The keys of a storage: valid and pairwise different. *)
Definition live ks (i : nat) (k : K) : Prop := ks !! i = Some (Some k).
Record keys_ok ks : Prop := {
  keys_valid i k : live ks i k -> valid k;
  keys_distinct i j k k' : live ks i k -> live ks j k' -> sameValueZero k k' = true -> i = j
}.

(** An index of [ks]: a power-of-two table of the announced load, whose buckets
    point into the storage and from which every live key is reachable. *)
Record index_ok ks x : Prop := {
  ix_cap : exists c, 4 <= c <= 29 /\ capacity x = 2 ^ c /\ Z.of_nat (length (buckets x)) = 2 ^ c /\
    forall i k, live ks i k -> reachable (buckets x) c (hashOf k) (Z.of_nat i + 1);
  ix_occ : occupied x = Z.of_nat (nonzero (buckets x));
  ix_load : occupied x * 6 <= capacity x * 5 + 5;
  ix_range i b : buckets x !! i = Some b -> 0 <= b <= Z.of_nat (length ks)
}.

Lemma index_room ks x : index_ok ks x -> (nonzero (buckets x) < length (buckets x))%nat.
Proof.
  intros [(c & Hc & Ec & Hl & _) Ho Hload _].
  pose proof (Z.pow_le_mono_r 2 4 c ltac:(lia) ltac:(lia)) as Hp. rewrite Ec in Hload. lia.
Qed.

Lemma needsRebuild_spec ks x : index_ok ks x ->
  needsRebuild x = (capacity x * 5 <=? occupied x * 6).
Proof.
  intros [(c & Hc & Ec & _) Ho Hload _].
  pose proof (Z.pow_le_mono_r 2 4 c ltac:(lia) ltac:(lia)).
  pose proof (Z.pow_le_mono_r 2 c 29 ltac:(lia) ltac:(lia)).
  unfold needsRebuild. rewrite Ec in *. now rewrite !wrapu_id by (unfold in_u; lia).
Qed.

Lemma live_snoc ks o i k : live (ks ++ [o]) i k -> live ks i k \/ (i = length ks /\ o = Some k).
Proof.
  unfold live. intros E. apply lookup_app_Some in E as [E|[Hi E]]; [now left|right].
  apply list_lookup_singleton_Some in E as [E ->]. split; [lia|reflexivity].
Qed.

Lemma live_lt ks i k : live ks i k -> (i < length ks)%nat.
Proof. apply lookup_lt_Some. Qed.

(** A bigger storage, or one with fewer live keys, is still indexed. *)
Lemma index_ok_weaken ks ks' x :
  index_ok ks x -> (length ks <= length ks')%nat -> (forall i k, live ks' i k -> live ks i k) ->
  index_ok ks' x.
Proof.
  intros [(c & Hc & Ec & Hl & Hr) Ho Hload Hrange] Hlen Hlive. constructor.
  - exists c. split_and!; auto; lia.
  - assumption.
  - assumption.
  - intros i b Hb. specialize (Hrange i b Hb). lia.
Qed.

Lemma insert_ok ks x k :
  index_ok ks x -> needsRebuild x = false -> Z.of_nat (length ks) < 2 ^ 28 ->
  exists x', insert x (hashOf k) (Z.of_nat (length ks)) = Ok x' /\
    index_ok (ks ++ [Some k]) x' /\ occupied x' = occupied x + 1 /\ capacity x' = capacity x.
Proof.
  intros Hx Hn Hlen. pose proof (needsRebuild_spec ks x Hx) as Hnr. pose proof (index_room ks x Hx) as Hroom.
  rewrite Hn in Hnr. symmetry in Hnr. Zbool.
  destruct Hx as [(c & Hc & Ec & Hl & Hr) Ho Hload Hrange].
  pose proof (Z.pow_le_mono_r 2 4 c ltac:(lia) ltac:(lia)) as P4.
  pose proof (Z.pow_le_mono_r 2 c 29 ltac:(lia) ltac:(lia)) as P29.
  destruct (first_empty (buckets x) c (hashOf k) ltac:(lia) Hl Hroom) as (D & HD & BD & Hbefore).
  unfold insert. rewrite Hn, Ec, mask_eq, (start_pos c) by lia.
  rewrite (probe_empty_spec (buckets x) c (hashOf k) ltac:(lia) D BD Hbefore) by lia.
  cbn [mbind result_bind]. eexists. split; [reflexivity|].
  pose proof (pos_range c (hashOf k) ltac:(lia) D) as HpD.
  assert (buckets x !! Z.to_nat (pos c (hashOf k) D) = Some 0) as Hz.
  { unfold bucket_at, lookupZ in BD. destruct (pos c (hashOf k) D <? 0) eqn:E; Zbool; [lia|assumption]. }
  rewrite !wrapu_id by (unfold in_u; lia).
  split; [|cbn; split; [lia|congruence]]. constructor; cbn [capacity occupied buckets].
  - exists c. split_and!; [lia|lia|congruence|now rewrite length_insert|].
    intros i k' Hi. apply live_snoc in Hi as [Hi|[-> [= <-]]].
    + apply reachable_insert; [lia|assumption|lia|lia|now apply Hr].
    + exists D. split_and!; [|lia|].
      * unfold bucket_at, lookupZ. destruct (pos c (hashOf k) D <? 0) eqn:E; Zbool; [lia|].
        apply list_lookup_insert_eq. lia.
      * intros d' Hd'. destruct (Hbefore d' Hd') as (b & Hb & Hne). exists b. split; [|assumption].
        unfold bucket_at, lookupZ in *. destruct (pos c (hashOf k) d' <? 0) eqn:E; Zbool; [discriminate|].
        rewrite list_lookup_insert_ne; [assumption|]. intros Heq. rewrite <- Heq, Hz in Hb. congruence.
  - rewrite nonzero_insert by (assumption || lia). lia.
  - lia.
  - intros i b Hb. rewrite length_app. cbn [length].
    apply list_lookup_insert_Some in Hb as [(_ & <- & _)|[_ Hb]]; [lia|].
    specialize (Hrange i b Hb). lia.
Qed.

Lemma grow_ok fuel c liveCount : 4 <= c <= 29 -> 0 <= liveCount <= 2 ^ 28 -> 29 - c <= Z.of_nat fuel ->
  exists c', 4 <= c' <= 29 /\ grow fuel (2 ^ c) liveCount = Some (2 ^ c') /\ liveCount * 6 < 2 ^ c' * 5.
Proof.
  revert c. induction fuel as [|fuel IH]; intros c Hc Hl Hf; cbn [grow];
    pose proof (Z.pow_le_mono_r 2 4 c ltac:(lia) ltac:(lia));
    pose proof (Z.pow_le_mono_r 2 c 29 ltac:(lia) ltac:(lia));
    rewrite !(wrapu_id 64) by (unfold in_u; lia);
    (destruct (_ <=? _) eqn:E; Zbool; [|exists c; split_and!; [lia|lia|reflexivity|lia]]).
  - assert (c = 29) by lia. subst. lia.
  - destruct (decide (c = 29)) as [->|]; [lia|].
    assert (u32 (Z.shiftl (2 ^ c) 1) = 2 ^ (c + 1)) as ->.
    { rewrite Z.shiftl_mul_pow2, <- Z.pow_add_r by lia. apply wrapu_id. unfold in_u.
      pose proof (Z.pow_le_mono_r 2 (c + 1) 29 ltac:(lia) ltac:(lia)). lia. }
    apply IH; lia.
Qed.

Lemma create_ok liveCount : 0 <= liveCount <= 2 ^ 28 ->
  exists x, create liveCount = Ok x /\ index_ok [] x /\ liveCount * 6 < capacity x * 5 /\ occupied x = 0.
Proof.
  intros Hl. destruct (grow_ok 32 4 liveCount ltac:(lia) Hl ltac:(lia)) as (c & Hc & E & Hload).
  unfold create. change (grow 32 16 liveCount) with (grow 32 (2 ^ 4) liveCount). rewrite E.
  cbn [defined mbind result_bind]. eexists. split; [reflexivity|].
  split; [|cbn; lia]. pose proof (Z.pow_le_mono_r 2 4 c ltac:(lia) ltac:(lia)).
  assert (forall n, nonzero (repeat 0 n) = 0%nat) as Hz.
  { induction n as [|n IH]; [reflexivity|]. unfold nonzero in *. simpl repeat.
    rewrite filter_cons, decide_False by lia. exact IH. }
  constructor; cbn [capacity occupied buckets].
  - exists c. split_and!; [lia|lia|reflexivity|rewrite repeat_length; lia|].
    intros i k Hi. apply live_lt in Hi. simpl in Hi. lia.
  - now rewrite Hz.
  - lia.
  - intros i b Hb. apply list_elem_of_lookup_2, list_elem_of_In, repeat_spec in Hb. subst. simpl. lia.
Qed.

Lemma live_count_cons o ks : live_count (o :: ks) = ((if o then 1 else 0) + live_count ks)%nat.
Proof. unfold live_count. rewrite filter_cons. destruct o; [rewrite decide_True by auto; reflexivity|].
  rewrite decide_False; [reflexivity|]. intros [? ?]; discriminate. Qed.

Lemma live_count_le ks : (live_count ks <= length ks)%nat.
Proof. apply length_filter. Qed.

Lemma build_loop_ok ks : forall pre x, index_ok pre x ->
  (occupied x + Z.of_nat (live_count ks)) * 6 < capacity x * 5 ->
  Z.of_nat (length pre + length ks) <= 2 ^ 28 ->
  exists x', build_loop ks (length pre) x = Ok x' /\ index_ok (pre ++ ks) x'.
Proof.
  induction ks as [|o ks IH]; intros pre x Hx Hload Hlen; cbn [build_loop].
  - rewrite app_nil_r. eauto.
  - rewrite live_count_cons in Hload. simpl length in Hlen. destruct o as [k|].
    + assert (needsRebuild x = false) as Hn by (rewrite (needsRebuild_spec _ _ Hx); apply Z.leb_gt; lia).
      destruct (insert_ok pre x k Hx Hn ltac:(lia)) as (x1 & -> & Hx1 & Ho & Hc).
      cbn [mbind result_bind].
      destruct (IH (pre ++ [Some k]) x1 Hx1) as (x2 & E & Hx2); rewrite ?length_app; simpl length; try lia.
      rewrite length_app in E. simpl length in E. rewrite Nat.add_1_r in E. rewrite <- app_assoc in Hx2. eauto.
    + assert (index_ok (pre ++ [None]) x) as Hx1.
      { apply (index_ok_weaken pre); [assumption|rewrite length_app; lia|].
        intros i k Hi. apply live_snoc in Hi as [Hi|[_ Hi]]; [assumption|discriminate]. }
      destruct (IH (pre ++ [None]) x Hx1) as (x2 & E & Hx2); rewrite ?length_app; simpl length; try lia.
      rewrite length_app in E. simpl length in E. rewrite Nat.add_1_r in E. rewrite <- app_assoc in Hx2. eauto.
Qed.

Lemma rebuild_ok ks : Z.of_nat (length ks) <= 2 ^ 28 ->
  exists x, buildOrRebuildHashIndex ks = Ok x /\ index_ok ks x.
Proof.
  intros Hlen. pose proof (live_count_le ks). unfold buildOrRebuildHashIndex.
  destruct (create_ok (Z.of_nat (live_count ks)) ltac:(lia)) as (x & -> & Hx & Hload & Ho).
  cbn [mbind result_bind].
  destruct (build_loop_ok ks [] x Hx) as (x' & E & Hx'); [rewrite Ho; lia|simpl; lia|eauto].
Qed.

(** The position of a key, by the order of the storage. *)
Fixpoint position ks (key : K) : option nat :=
  match ks with
  | [] => None
  | o :: ks =>
      if match o with Some k => sameValueZero k key | None => false end then Some 0%nat
      else S <$> position ks key
  end.

Lemma position_Some ks key i : position ks key = Some i ->
  exists k, live ks i k /\ sameValueZero k key = true.
Proof.
  revert i. induction ks as [|o ks IH]; intros i; simpl; [discriminate|].
  destruct o as [k|]; [destruct (sameValueZero k key) eqn:E|].
  - intros [= <-]. now exists k.
  - destruct (position ks key) as [j|]; [|discriminate]. intros [= <-]. apply (IH j eq_refl).
  - destruct (position ks key) as [j|]; [|discriminate]. intros [= <-]. apply (IH j eq_refl).
Qed.

Lemma position_None ks key i k : position ks key = None -> live ks i k -> sameValueZero k key = false.
Proof.
  revert i. induction ks as [|o ks IH]; intros i; simpl; [intros _ Hi; discriminate Hi|].
  destruct (match o with Some k => sameValueZero k key | None => false end) eqn:E; [discriminate|].
  destruct (position ks key) as [j|]; [discriminate|]. intros _ Hi. destruct i as [|i].
  - injection Hi as ->. assumption.
  - now apply (IH i).
Qed.

Lemma position_unique ks key i k : keys_ok ks -> valid key -> live ks i k -> sameValueZero k key = true ->
  position ks key = Some i.
Proof.
  intros Hks Hv Hi Hs. destruct (position ks key) as [j|] eqn:E.
  - apply position_Some in E as (k' & Hj & Hs'). f_equal.
    eapply keys_distinct; [eassumption|eassumption|eassumption|].
    pose proof (keys_valid _ Hks _ _ Hi). pose proof (keys_valid _ Hks _ _ Hj).
    apply (same_trans k' key k); try assumption. now rewrite same_sym.
  - pose proof (position_None _ _ _ _ E Hi). congruence.
Qed.

Lemma scan_spec ks key n : (forall i k, live ks i k -> valid k) -> valid key ->
  scan ks key n = Nat.add n <$> position ks key.
Proof.
  revert n. induction ks as [|o ks IH]; intros n Hv Hk; simpl; [reflexivity|].
  assert (forall i k, live ks i k -> valid k) as Hv' by (intros i k Hi; apply (Hv (S i) k Hi)).
  assert (scan ks key (S n) = Nat.add n <$> (S <$> position ks key)) as E.
  { rewrite IH by assumption. destruct (position ks key); simpl; [f_equal; lia|reflexivity]. }
  destruct o as [k|]; [|exact E].
  destruct (identical k key) eqn:Ei.
  - rewrite (identical_same k key); [simpl; f_equal; lia|apply (Hv 0%nat); reflexivity|assumption|assumption].
  - destruct (sameValueZero k key); [simpl; f_equal; lia|exact E].
Qed.

Lemma probe_key_ok ks x key : keys_ok ks -> index_ok ks x -> valid key ->
  probe_key (length (buckets x)) ks key (buckets x) (u64 (u32 (capacity x - 1)))
    (Z.land (hashOf key) (u64 (u32 (capacity x - 1)))) = Ok (position ks key).
Proof.
  intros Hks Hx Hv. pose proof (index_room ks x Hx) as Hroom.
  destruct Hx as [(c & Hc & Ec & Hl & Hr) _ _ Hrange].
  destruct (first_empty (buckets x) c (hashOf key) ltac:(lia) Hl Hroom) as (D & HD & BD & Hbefore).
  rewrite Ec, mask_eq, (start_pos c) by lia.
  (* what is known after [d] probes *)
  assert (forall fuel d, (d <= D)%nat -> (D <= d + fuel)%nat ->
    (forall i k d', live ks i k -> sameValueZero k key = true -> (d' < d)%nat ->
       bucket_at (buckets x) c (hashOf key) d' <> Some (Z.of_nat i + 1)) ->
    probe_key fuel ks key (buckets x) (2 ^ c - 1) (pos c (hashOf key) d) = Ok (position ks key)) as G.
  2: { apply G; [lia|lia|intros; lia]. }
  induction fuel as [|fuel IH]; intros d H1 H2 Hno; cbn [probe_key]; fold (bucket_at (buckets x) c (hashOf key) d);
    (destruct (decide (d = D)) as [->|Hne]; [rewrite BD; cbn [defined mbind result_bind]; f_equal; symmetry|]).
  1, 3: destruct (position ks key) as [i|] eqn:E; [exfalso|reflexivity];
    apply position_Some in E as (k & Hi & Hs); specialize (Hr i k Hi);
    rewrite (same_hash k key) in Hr by (try eassumption; eapply keys_valid; eassumption);
    destruct (reachable_before _ _ _ D _ BD Hr) as (d & Hd & Hb); now apply (Hno i k d Hi Hs).
  { lia. }
  destruct (Hbefore d ltac:(lia)) as (b & Hb & Hbne). rewrite Hb. cbn [defined mbind result_bind].
  destruct (b =? 0) eqn:E0; Zbool; [contradiction|].
  assert (0 <= b - 1 < Z.of_nat (length ks)) as Hrb.
  { unfold bucket_at, lookupZ in Hb. destruct (_ <? 0); [discriminate|]. specialize (Hrange _ _ Hb). lia. }
  destruct (lookupZ_lt ks (b - 1) Hrb) as [o Ho]. rewrite Ho. cbn [defined mbind result_bind].
  assert (ks !! Z.to_nat (b - 1) = Some o) as Ho'.
  { unfold lookupZ in Ho. destruct (b - 1 <? 0) eqn:E; Zbool; [lia|assumption]. }
  assert ((forall k, o = Some k -> sameValueZero k key = false) ->
    probe_key fuel ks key (buckets x) (2 ^ c - 1) (Z.land (u64 (pos c (hashOf key) d + 1)) (2 ^ c - 1))
    = Ok (position ks key)) as Hnext.
  { intros Hdiff. rewrite next_pos by lia. apply IH; [lia|lia|].
    intros i k d' Hi Hs Hd'. destruct (decide (d' = d)) as [->|]; [|apply (Hno i k); [assumption|assumption|lia]].
    rewrite Hb. intros [= Eb]. replace (Z.to_nat (b - 1)) with i in Ho' by lia.
    unfold live in Hi. rewrite Hi in Ho'. injection Ho' as <-. specialize (Hdiff k eq_refl). congruence. }
  destruct o as [k|]; [|apply Hnext; discriminate].
  destruct (sameValueZero k key) eqn:Es.
  - rewrite (position_unique ks key _ k Hks Hv Ho' Es). now destruct (identical k key).
  - destruct (identical k key) eqn:Ei.
    + rewrite (identical_same k key) in Es; [discriminate|eapply keys_valid; eassumption|assumption|assumption].
    + apply Hnext. intros ? [= <-]. assumption.
Qed.

(** The storage and its index, when there is one. *)
Definition store_ok ks (index : option KeyedCollectionHashIndex) : Prop :=
  keys_ok ks /\ forall x, index = Some x -> index_ok ks x.

(** [findKeyIndex] finds the position, keeps the invariant and, when the key is
    absent, leaves its hash. *)
Lemma findKeyIndex_ok ks index key :
  store_ok ks index -> Z.of_nat (length ks) <= 2 ^ 28 -> valid key ->
  exists hash index', findKeyIndex ks index key = Ok (position ks key, hash, index') /\
    store_ok ks index' /\ (position ks key = None -> hash = hashOf key).
Proof.
  intros [Hks Hix] Hlen Hv. unfold findKeyIndex. destruct index as [x|].
  - rewrite (probe_key_ok ks x key Hks (Hix x eq_refl) Hv). cbn [mbind result_bind].
    eexists _, _. split; [reflexivity|]. split; [now split|reflexivity].
  - destruct (_ <=? _) eqn:E.
    + destruct (rebuild_ok ks Hlen) as (x & -> & Hx). cbn [mbind result_bind].
      rewrite (probe_key_ok ks x key Hks Hx Hv). cbn [mbind result_bind].
      eexists _, _. split; [reflexivity|]. split; [|reflexivity]. split; [assumption|]. now intros ? [= <-].
    + rewrite scan_spec by (try assumption; intros; eapply keys_valid; eassumption).
      destruct (position ks key) as [i|]; cbn; eexists _, _; (split; [reflexivity|]); (split; [now split|]).
      * discriminate.
      * reflexivity.
Qed.

(** Appending an absent key. *)
Lemma keys_ok_snoc ks key : keys_ok ks -> valid key -> position ks key = None -> keys_ok (ks ++ [Some key]).
Proof.
  intros [Hv Hd] Hk Hp. constructor.
  - intros i k Hi. apply live_snoc in Hi as [Hi|[_ [= <-]]]; eauto.
  - intros i j k k' Hi Hj Hs.
    apply live_snoc in Hi as [Hi|[-> [= <-]]], Hj as [Hj|[-> [= <-]]]; [eauto| | |reflexivity].
    + rewrite (position_None _ _ _ _ Hp Hi) in Hs. discriminate.
    + rewrite same_sym, (position_None _ _ _ _ Hp Hj) in Hs by eauto. discriminate.
Qed.

Lemma position_same ks key key' : keys_ok ks -> valid key -> valid key' -> sameValueZero key' key = true ->
  position ks key' = position ks key.
Proof.
  intros Hks Hv Hv' Hs. destruct (position ks key) as [i|] eqn:E.
  - apply position_Some in E as (k & Hi & Hsk). apply (position_unique ks key' i k Hks Hv' Hi).
    pose proof (keys_valid _ Hks _ _ Hi). apply (same_trans k key key'); try assumption. now rewrite same_sym.
  - destruct (position ks key') as [i|] eqn:E'; [|reflexivity].
    apply position_Some in E' as (k & Hi & Hsk). pose proof (keys_valid _ Hks _ _ Hi).
    pose proof (position_None _ _ _ _ E Hi) as Hn.
    rewrite (same_trans k key' key) in Hn by assumption. discriminate.
Qed.

Lemma addToHashIndex_ok ks index key hash :
  store_ok ks index -> Z.of_nat (length ks) < 2 ^ 28 -> valid key -> position ks key = None ->
  hash = hashOf key ->
  exists index', addToHashIndex (ks ++ [Some key]) index (length ks) hash = Ok index' /\
    store_ok (ks ++ [Some key]) index'.
Proof.
  intros [Hks Hix] Hlen Hv Hp ->. pose proof (keys_ok_snoc ks key Hks Hv Hp) as Hks'.
  unfold addToHashIndex. destruct index as [x|].
  2: { eexists. split; [reflexivity|]. split; [assumption|discriminate]. }
  destruct (needsRebuild x) eqn:En.
  - destruct (rebuild_ok (ks ++ [Some key])) as (x' & -> & Hx'); [rewrite length_app; simpl; lia|].
    eexists. split; [reflexivity|]. split; [assumption|]. now intros ? [= <-].
  - rewrite (list_lookup_middle ks [] (Some key) (length ks) eq_refl).
    cbn [defined mbind result_bind]. replace (if hashOf key =? 0 then Ok (hashOf key) else Ok (hashOf key))
      with (Ok (hashOf key)) by now destruct (_ =? 0).
    cbn [mbind result_bind].
    destruct (insert_ok ks x key (Hix x eq_refl) En Hlen) as (x' & -> & Hx' & _).
    eexists. split; [reflexivity|]. split; [assumption|]. now intros ? [= <-].
Qed.

(** Deleting and clearing. *)
Lemma store_ok_sub ks ks' index :
  store_ok ks index -> length ks = length ks' -> (forall i k, live ks' i k -> live ks i k) -> store_ok ks' index.
Proof.
  intros [[Hv Hd] Hix] Hlen Hsub. split; [constructor; eauto|].
  intros x ->. apply (index_ok_weaken ks); [auto|lia|assumption].
Qed.
End Index.

End IndexFacts.

(** * MapData

    The reference: a list of entries, deleted ones kept as [None], searched from
    the front (ECMA-262 24.1.3). *)
Module MapSpec.
Import IndexFacts Collections.

Section Spec.
Context {K V : Type} `{CollectionKey K}.
Context (undefined : V).
Notation entries := (list (option (K * V))).

Definition find_entry (s : entries) (key : K) : option nat := position (keys_of s) key.
Definition spec_get (s : entries) (key : K) : V :=
  match find_entry s key with
  | Some i => match s !! i with Some (Some (_, v)) => v | _ => undefined end
  | None => undefined
  end.
Definition spec_has (s : entries) (key : K) : bool := if find_entry s key then true else false.
Definition spec_delete (s : entries) (key : K) : bool * entries :=
  match find_entry s key with
  | Some i => (true, <[i := None]> s)
  | None => (false, s)
  end.
Definition spec_set (s : entries) (key : K) (v : V) : entries :=
  match find_entry s key with
  | Some i => alter (option_map (fun e => (fst e, v))) i s
  | None => s ++ [Some (canonical_key key, v)]
  end.
Definition spec_getOrInsert (s : entries) (key : K) (v : V) : V * entries :=
  if spec_has s key then (spec_get s key, s) else (v, spec_set s key v).

(** Operations, the callback of the last one given by the operations it makes
    and the value it returns. *)
Inductive SimpleOp :=
  | OpSet (k : K) (v : V)
  | OpGet (k : K)
  | OpHas (k : K)
  | OpDelete (k : K)
  | OpClear
  | OpSize
  | OpGetOrInsert (k : K) (v : V).
Inductive MapOp :=
  | OpSimple (o : SimpleOp)
  | OpGetOrInsertComputed (k : K) (body : list SimpleOp) (v : V).
Inductive Output := OutNone | OutValue (v : V) | OutBool (b : bool) | OutSize (n : Z).

Definition op_valid (o : SimpleOp) : Prop :=
  match o with
  | OpSet k _ | OpGet k | OpHas k | OpDelete k | OpGetOrInsert k _ => valid k
  | OpClear | OpSize => True
  end.
Definition mapop_valid (o : MapOp) : Prop :=
  match o with
  | OpSimple o => op_valid o
  | OpGetOrInsertComputed k body _ => valid k /\ Forall op_valid body
  end.
Definition op_cost (o : MapOp) : nat :=
  match o with OpSimple _ => 1 | OpGetOrInsertComputed _ body _ => S (length body) end.

(** The engine. *)
Definition run_simple (m : MapObject K V) (o : SimpleOp) : result (Output * MapObject K V) :=
  match o with
  | OpSet k v => m ← set m k v; Ok (OutNone, m)
  | OpGet k => '(v, m) ← get undefined m k; Ok (OutValue v, m)
  | OpHas k => '(b, m) ← has m k; Ok (OutBool b, m)
  | OpDelete k => '(b, m) ← deleteOperation m k; Ok (OutBool b, m)
  | OpClear => Ok (OutNone, clear m)
  | OpSize => Ok (OutSize (size m), m)
  | OpGetOrInsert k v => '(v, m) ← getOrInsert m k v; Ok (OutValue v, m)
  end.
Fixpoint run_body (m : MapObject K V) (os : list SimpleOp) : result (MapObject K V) :=
  match os with
  | [] => Ok m
  | o :: os => '(_, m) ← run_simple m o; run_body m os
  end.
Definition run_op (m : MapObject K V) (o : MapOp) : result (Output * MapObject K V) :=
  match o with
  | OpSimple o => run_simple m o
  | OpGetOrInsertComputed k body v =>
      '(v, m) ← getOrInsertComputed m k true (fun _ m => m ← run_body m body; Ok (v, m));
      Ok (OutValue v, m)
  end.
Fixpoint run (m : MapObject K V) (os : list MapOp) : result (list Output * MapObject K V) :=
  match os with
  | [] => Ok ([], m)
  | o :: os => '(r, m) ← run_op m o; '(rs, m) ← run m os; Ok (r :: rs, m)
  end.

(** The reference. *)
Definition spec_simple (s : entries) (o : SimpleOp) : Output * entries :=
  match o with
  | OpSet k v => (OutNone, spec_set s k v)
  | OpGet k => (OutValue (spec_get s k), s)
  | OpHas k => (OutBool (spec_has s k), s)
  | OpDelete k => let '(b, s) := spec_delete s k in (OutBool b, s)
  | OpClear => (OutNone, map (fun _ => None) s)
  | OpSize => (OutSize (Z.of_nat (length (omap id s))), s)
  | OpGetOrInsert k v => let '(v, s) := spec_getOrInsert s k v in (OutValue v, s)
  end.
Definition spec_op (s : entries) (o : MapOp) : Output * entries :=
  match o with
  | OpSimple o => spec_simple s o
  | OpGetOrInsertComputed k body v =>
      if spec_has s k then (OutValue (spec_get s k), s)
      else (OutValue v, spec_set (fold_left (fun s o => snd (spec_simple s o)) body s) k v)
  end.
Fixpoint spec_run (s : entries) (os : list MapOp) : list Output * entries :=
  match os with
  | [] => ([], s)
  | o :: os => let '(r, s) := spec_op s o in let '(rs, s) := spec_run s os in (r :: rs, s)
  end.
End Spec.
End MapSpec.

(** * The map follows MapData *)
Module MapFacts.
Import HashIndex Keys IndexFacts Collections MapSpec.

Section Map.
Context {K V : Type} `{CollectionKey K}.
Context (undefined : V).
Implicit Types (s : list (option (K * V))) (m : MapObject K V).

(** The storage of a map is [s] and its index, if built, is sound. *)
Definition map_ok m s : Prop := m_storage m = s /\ store_ok (keys_of s) (m_hashIndex m).

Lemma keys_of_length s : length (keys_of s) = length s.
Proof. apply length_map. Qed.

Lemma keys_of_lookup s i : keys_of s !! i = option_map fst <$> s !! i.
Proof. apply list_lookup_fmap. Qed.

Lemma keys_of_insert s i o : keys_of (<[i := o]> s) = <[i := option_map fst o]> (keys_of s).
Proof. apply list_fmap_insert. Qed.

Lemma keys_of_snoc s k v : keys_of (s ++ [Some (k, v)]) = keys_of s ++ [Some k].
Proof. unfold keys_of. now rewrite map_app. Qed.

Lemma find_entry_Some s key i : find_entry s key = Some i ->
  exists k v, s !! i = Some (Some (k, v)) /\ sameValueZero k key = true.
Proof.
  intros E. apply position_Some in E as (k & Hi & Hs). unfold live in Hi. rewrite keys_of_lookup in Hi.
  destruct (s !! i) as [[[k' v]|]|]; cbn in Hi; simplify_eq. eauto.
Qed.

Lemma alter_entry s i k v v' : s !! i = Some (Some (k, v)) ->
  alter (option_map (fun e : K * V => (fst e, v'))) i s = <[i := Some (k, v')]> s.
Proof.
  intros Hi. apply list_eq. intros j. destruct (decide (i = j)) as [<-|Hne].
  - rewrite list_lookup_alter_eq, list_lookup_insert_eq by (eapply lookup_lt_Some; eassumption). now rewrite Hi.
  - now rewrite list_lookup_alter_ne, list_lookup_insert_ne.
Qed.

(** Replacing a value keeps the keys. *)
Lemma keys_of_store s i k v v' : s !! i = Some (Some (k, v)) -> keys_of (<[i := Some (k, v')]> s) = keys_of s.
Proof.
  intros Hi. rewrite keys_of_insert. cbn. apply list_insert_id. now rewrite keys_of_lookup, Hi.
Qed.

Lemma map_find_ok m s key : map_ok m s -> Z.of_nat (length s) <= 2 ^ 28 -> valid key ->
  exists hash m', map_find m key = Ok (find_entry s key, hash, m') /\ map_ok m' s /\
    (find_entry s key = None -> hash = hashOf key).
Proof.
  intros [<- Hok] Hlen Hv. unfold map_find.
  destruct (findKeyIndex_ok (keys_of (m_storage m)) (m_hashIndex m) key Hok) as (hash & index & -> & Hok' & Hh);
    [now rewrite keys_of_length|assumption|].
  cbn [mbind result_bind]. eexists _, _. split; [reflexivity|]. now split.
Qed.

Lemma store_value_ok m s i k v v' : map_ok m s -> s !! i = Some (Some (k, v)) ->
  exists m', store_value m i v' = Ok m' /\ map_ok m' (alter (option_map (fun e => (fst e, v'))) i s).
Proof.
  intros [<- Hok] Hi. unfold store_value. rewrite Hi. cbn [defined mbind result_bind].
  eexists. split; [reflexivity|]. split; cbn; [symmetry; now apply alter_entry with (v := v)|].
  now rewrite (alter_entry _ _ k v v' Hi), (keys_of_store _ _ _ _ _ Hi).
Qed.

Lemma push_entry_ok m s key key' v hash : map_ok m s -> Z.of_nat (length s) < 2 ^ 28 ->
  valid key -> valid key' -> sameValueZero key' key = true -> find_entry s key = None -> hash = hashOf key ->
  exists m', push_entry m key' v hash = Ok m' /\ map_ok m' (s ++ [Some (key', v)]).
Proof.
  intros [<- Hok] Hlen Hv Hv' Hs Hp ->. unfold push_entry. rewrite keys_of_snoc, length_app. simpl length.
  replace (length (m_storage m) + 1 - 1)%nat with (length (keys_of (m_storage m))) by (rewrite keys_of_length; lia).
  destruct (addToHashIndex_ok (keys_of (m_storage m)) (m_hashIndex m) key' (hashOf key) Hok)
    as (index & -> & Hok').
  - now rewrite keys_of_length.
  - assumption.
  - rewrite (position_same _ key key'); try assumption. apply Hok.
  - symmetry. now apply same_hash.
  - cbn [mbind result_bind]. eexists. split; [reflexivity|]. split; cbn; [reflexivity|]. now rewrite keys_of_snoc.
Qed.

(** Storing under a key that was searched for. *)
Lemma set_found_ok m s key v i : map_ok m s -> find_entry s key = Some i ->
  exists m', store_value m i v = Ok m' /\ map_ok m' (spec_set s key v).
Proof.
  intros Hm E. destruct (find_entry_Some _ _ _ E) as (k & v0 & Hi & _).
  unfold spec_set. rewrite E. now apply store_value_ok with (k := k) (v := v0).
Qed.

Lemma value_at_ok m s key i : map_ok m s -> find_entry s key = Some i ->
  value_at m i = Ok (spec_get undefined s key).
Proof.
  intros [<- _] E. destruct (find_entry_Some _ _ _ E) as (k & v0 & Hi & _).
  unfold value_at, spec_get. now rewrite E, Hi.
Qed.

Lemma set_ok m s key v : map_ok m s -> Z.of_nat (length s) < 2 ^ 28 -> valid key ->
  exists m', set m key v = Ok m' /\ map_ok m' (spec_set s key v).
Proof.
  intros Hm Hlen Hv. unfold set.
  destruct (map_find_ok m s key Hm ltac:(lia) Hv) as (hash & m1 & -> & Hm1 & Hh). cbn [mbind result_bind].
  destruct (find_entry s key) as [i|] eqn:E; [now apply set_found_ok|].
  unfold spec_set. rewrite E. apply (push_entry_ok m1 s key); auto using canonical_valid, canonical_same.
Qed.

Lemma find_canonical m s key : map_ok m s -> valid key -> find_entry s (canonical_key key) = find_entry s key.
Proof.
  intros [_ [Hk _]] Hv. apply position_same; auto using canonical_valid, canonical_same.
Qed.

Lemma spec_set_canonical m s key v : map_ok m s -> valid key ->
  find_entry s key = None -> spec_set s key v = s ++ [Some (canonical_key key, v)].
Proof. intros. unfold spec_set. now rewrite H2. Qed.

Lemma getOrInsert_ok m s key v : map_ok m s -> Z.of_nat (length s) < 2 ^ 28 -> valid key ->
  exists m', getOrInsert m key v = Ok (fst (spec_getOrInsert undefined s key v), m') /\
    map_ok m' (snd (spec_getOrInsert undefined s key v)).
Proof.
  intros Hm Hlen Hv. unfold getOrInsert. pose proof (canonical_valid key Hv) as Hcv.
  destruct (map_find_ok m s (canonical_key key) Hm ltac:(lia) Hcv) as (hash & m1 & -> & Hm1 & Hh).
  cbn [mbind result_bind]. rewrite (find_canonical m s key Hm Hv) in *.
  unfold spec_getOrInsert, spec_has. destruct (find_entry s key) as [i|] eqn:E.
  - rewrite (value_at_ok m1 s key i Hm1 E). cbn. eauto.
  - destruct (push_entry_ok m1 s key (canonical_key key) v hash) as (m2 & -> & Hm2);
      auto using canonical_same; [rewrite Hh by reflexivity; apply same_hash; auto using canonical_same|].
    cbn. eexists. split; [reflexivity|]. now rewrite (spec_set_canonical m s).
Qed.

Lemma delete_ok m s key : map_ok m s -> Z.of_nat (length s) <= 2 ^ 28 -> valid key ->
  exists m', deleteOperation m key = Ok (fst (spec_delete s key), m') /\ map_ok m' (snd (spec_delete s key)).
Proof.
  intros Hm Hlen Hv. unfold deleteOperation.
  destruct (map_find_ok m s key Hm Hlen Hv) as (hash & m1 & -> & Hm1 & _). cbn [mbind result_bind].
  unfold spec_delete. destruct (find_entry s key) as [i|]; cbn; [|eauto].
  eexists. split; [reflexivity|]. destruct Hm1 as [<- Hok]. split; cbn; [reflexivity|].
  apply (store_ok_sub (keys_of (m_storage m1))); [assumption|now rewrite !keys_of_length, length_insert|].
  intros j k. unfold live. rewrite keys_of_insert. cbn.
  intros [(_ & E & _)|[_ E]]%list_lookup_insert_Some; [discriminate|assumption].
Qed.

Lemma clear_ok m s : map_ok m s -> map_ok (clear m) (map (fun _ => None) s).
Proof.
  intros [<- _]. split; [reflexivity|]. cbn. split; [|discriminate].
  assert (forall i (k : K), ~ live (keys_of (map (fun _ => @None (K * V)) (m_storage m))) i k) as Hn.
  { intros i k. unfold live. rewrite keys_of_lookup.
    change (map (fun _ => @None (K * V)) (m_storage m)) with ((fun _ : option (K * V) => @None (K * V)) <$> m_storage m).
    rewrite list_lookup_fmap. now destruct (m_storage m !! i). }
  constructor; intros; exfalso; eapply Hn; eassumption.
Qed.

Lemma size_loop_spec s n : size_loop s n = n + Z.of_nat (length (omap id s)).
Proof.
  revert n. induction s as [|o s IH]; intros n; csimpl; [lia|]. destruct o; csimpl; rewrite IH; lia.
Qed.

Lemma spec_simple_length s o : (length s <= length (snd (spec_simple undefined s o)) <= S (length s))%nat.
Proof.
  assert (forall k v, length s <= length (spec_set s k v) <= S (length s))%nat as Hset.
  { intros k v. unfold spec_set. destruct (find_entry s k); rewrite ?length_alter, ?length_app; simpl; lia. }
  destruct o; cbn; try lia; try apply Hset.
  - unfold spec_delete. destruct (find_entry s k); cbn; rewrite ?length_insert; lia.
  - rewrite length_map. lia.
  - unfold spec_getOrInsert. destruct (spec_has s k); cbn; [lia|apply Hset].
Qed.

Lemma run_simple_ok m s o : map_ok m s -> Z.of_nat (length s) < 2 ^ 28 -> op_valid o ->
  exists m', run_simple undefined m o = Ok (fst (spec_simple undefined s o), m') /\
    map_ok m' (snd (spec_simple undefined s o)).
Proof.
  intros Hm Hlen Hv. destruct o as [k v|k|k|k| | |k v]; cbn [run_simple spec_simple op_valid fst snd] in *.
  - destruct (set_ok m s k v Hm Hlen Hv) as (m' & -> & Hm'). cbn. eauto.
  - unfold get. destruct (map_find_ok m s k Hm ltac:(lia) Hv) as (hash & m1 & -> & Hm1 & _). cbn [mbind result_bind].
    destruct (find_entry s k) as [i|] eqn:E.
    + rewrite (value_at_ok m1 s k i Hm1 E). cbn. eauto.
    + cbn. unfold spec_get. rewrite E. eauto.
  - unfold has. destruct (map_find_ok m s k Hm ltac:(lia) Hv) as (hash & m1 & -> & Hm1 & _). cbn.
    eexists. split; [reflexivity|assumption].
  - destruct (delete_ok m s k Hm ltac:(lia) Hv) as (m' & -> & Hm'). cbn.
    destruct (spec_delete s k). cbn in *. eauto.
  - eexists. split; [reflexivity|]. now apply clear_ok.
  - eexists. split; [|eassumption]. unfold size. rewrite (proj1 Hm), size_loop_spec. reflexivity.
  - destruct (getOrInsert_ok m s k v Hm Hlen Hv) as (m' & -> & Hm'). cbn.
    destruct (spec_getOrInsert undefined s k v). cbn in *. eauto.
Qed.

Lemma run_body_ok os : forall m s, map_ok m s -> Z.of_nat (length s + length os) <= 2 ^ 28 -> Forall op_valid os ->
  let s' := fold_left (fun s o => snd (spec_simple undefined s o)) os s in
  exists m', run_body undefined m os = Ok m' /\ map_ok m' s' /\ (length s' <= length s + length os)%nat.
Proof.
  induction os as [|o os IH]; intros m s Hm Hlen Hv; cbn [run_body fold_left length] in *.
  - exists m. split_and!; [reflexivity|assumption|lia].
  - inversion Hv; subst. destruct (run_simple_ok m s o Hm ltac:(lia)) as (m1 & -> & Hm1); [assumption|].
    cbn [mbind result_bind]. pose proof (spec_simple_length s o).
    destruct (IH m1 _ Hm1) as (m2 & -> & Hm2 & Hl2); [lia|assumption|].
    exists m2. split_and!; [reflexivity|assumption|lia].
Qed.

Lemma run_op_ok m s o : map_ok m s -> Z.of_nat (length s + op_cost o) <= 2 ^ 28 -> mapop_valid o ->
  exists m', run_op undefined m o = Ok (fst (spec_op undefined s o), m') /\
    map_ok m' (snd (spec_op undefined s o)) /\ (length (snd (spec_op undefined s o)) <= length s + op_cost o)%nat.
Proof.
  intros Hm Hlen Hv. destruct o as [o|k body v]; cbn [run_op spec_op mapop_valid op_cost] in *.
  - pose proof (spec_simple_length s o).
    destruct (run_simple_ok m s o Hm ltac:(lia) Hv) as (m' & -> & Hm'). exists m'. split_and!; [reflexivity|assumption|lia].
  - destruct Hv as [Hk Hb]. unfold getOrInsertComputed. cbn [negb].
    pose proof (canonical_valid k Hk) as Hck.
    destruct (map_find_ok m s (canonical_key k) Hm ltac:(lia) Hck) as (hash & m1 & -> & Hm1 & _).
    cbn [mbind result_bind]. rewrite (find_canonical m s k Hm Hk). unfold spec_has.
    destruct (find_entry s k) as [i|] eqn:E.
    { rewrite (value_at_ok m1 s k i Hm1 E). cbn. exists m1. split_and!; [reflexivity|assumption|lia]. }
    destruct (run_body_ok body m1 s Hm1 ltac:(lia) Hb) as (m2 & -> & Hm2 & Hl2). cbn [mbind result_bind fst snd].
    set (s' := fold_left _ body s) in *.
    destruct (map_find_ok m2 s' (canonical_key k) Hm2 ltac:(lia) Hck) as (hash2 & m3 & -> & Hm3 & Hh3).
    cbn [mbind result_bind]. rewrite (find_canonical m2 s' k Hm2 Hk) in *.
    assert (length (spec_set s' k v) <= length s + S (length body))%nat as Hl.
    { unfold spec_set. destruct (find_entry s' k); rewrite ?length_alter, ?length_app; simpl; lia. }
    destruct (find_entry s' k) as [i|] eqn:E'.
    + destruct (set_found_ok m3 s' k v i Hm3 E') as (m4 & -> & Hm4). cbn. eauto.
    + destruct (push_entry_ok m3 s' k (canonical_key k) v hash2) as (m4 & -> & Hm4);
        auto using canonical_same; [lia|rewrite Hh3 by reflexivity; apply same_hash; auto using canonical_same|].
      cbn. rewrite (spec_set_canonical m3 s') in * by assumption. eauto.
Qed.

Lemma run_ok os : forall m s, map_ok m s ->
  Z.of_nat (length s + sum_list_with op_cost os) <= 2 ^ 28 -> Forall mapop_valid os ->
  exists m', run undefined m os = Ok (fst (spec_run undefined s os), m') /\ map_ok m' (snd (spec_run undefined s os)).
Proof.
  induction os as [|o os IH]; intros m s Hm Hlen Hv; cbn [run spec_run sum_list_with] in *; [eauto|].
  inversion Hv; subst. destruct (run_op_ok m s o Hm ltac:(lia)) as (m1 & -> & Hm1 & Hl1); [assumption|].
  destruct (spec_op undefined s o) as [r s1]. cbn [fst snd] in *. cbn [mbind result_bind].
  destruct (IH m1 s1 Hm1) as (m2 & -> & Hm2); [lia|assumption|].
  destruct (spec_run undefined s1 os) as [rs s2]. cbn in *. eauto.
Qed.
End Map.

End MapFacts.

(** * Sets *)
Module SetFacts.
Import HashIndex Keys IndexFacts Collections.

Section Set_.
Context {K : Type} `{CollectionKey K}.
Implicit Types (e : list (option K)) (s : SetObject K).

(** The reference: a list of keys with deleted ones kept as [None]. *)
Inductive SetOp := SetAdd (k : K) | SetHas (k : K) | SetDelete (k : K) | SetClear | SetSize.
Definition setop_valid (o : SetOp) : Prop :=
  match o with SetAdd k | SetHas k | SetDelete k => valid k | SetClear | SetSize => True end.
Inductive SetOutput := SetNone | SetBool (b : bool) | SetNumber (n : Z).

Definition run_set (s : SetObject K) (o : SetOp) : result (SetOutput * SetObject K) :=
  match o with
  | SetAdd k => s ← set_add s k; Ok (SetNone, s)
  | SetHas k => '(b, s) ← set_has s k; Ok (SetBool b, s)
  | SetDelete k => '(b, s) ← set_delete s k; Ok (SetBool b, s)
  | SetClear => Ok (SetNone, set_clear s)
  | SetSize => Ok (SetNumber (set_size s), s)
  end.
Definition spec_setop e (o : SetOp) : SetOutput * list (option K) :=
  match o with
  | SetAdd k => (SetNone, if position e k then e else e ++ [Some (canonical_key k)])
  | SetHas k => (SetBool (if position e k then true else false), e)
  | SetDelete k => match position e k with Some i => (SetBool true, <[i := None]> e) | None => (SetBool false, e) end
  | SetClear => (SetNone, map (fun _ => None) e)
  | SetSize => (SetNumber (Z.of_nat (length (omap id e))), e)
  end.
Fixpoint run_sets (s : SetObject K) (os : list SetOp) : result (list SetOutput * SetObject K) :=
  match os with
  | [] => Ok ([], s)
  | o :: os => '(r, s) ← run_set s o; '(rs, s) ← run_sets s os; Ok (r :: rs, s)
  end.
Fixpoint spec_sets e (os : list SetOp) : list SetOutput * list (option K) :=
  match os with
  | [] => ([], e)
  | o :: os => let '(r, e) := spec_setop e o in let '(rs, e) := spec_sets e os in (r :: rs, e)
  end.

Definition set_ok s e : Prop := s_storage s = e /\ store_ok e (s_hashIndex s).

Lemma omap_id_count e : live_count e = length (omap id e).
Proof.
  induction e as [|o e IH]; [reflexivity|]. rewrite live_count_cons, IH. now destruct o.
Qed.

Lemma run_set_ok s e o : set_ok s e -> Z.of_nat (length e) < 2 ^ 28 -> setop_valid o ->
  exists s', run_set s o = Ok (fst (spec_setop e o), s') /\ set_ok s' (snd (spec_setop e o)) /\
    (length (snd (spec_setop e o)) <= S (length e))%nat.
Proof.
  intros [<- Hok] Hlen Hv.
  destruct o as [k|k|k| |]; cbn [run_set spec_setop setop_valid fst snd] in *.
  - unfold set_add. destruct (findKeyIndex_ok _ _ k Hok ltac:(lia) Hv) as (hash & index & -> & Hok' & Hh).
    cbn [mbind result_bind]. destruct (position (s_storage s) k) as [i|] eqn:E.
    + cbn. eexists. split_and!; [reflexivity|now split|lia].
    + rewrite length_app. simpl length.
      replace (length (s_storage s) + 1 - 1)%nat with (length (s_storage s)) by lia.
      destruct (addToHashIndex_ok (s_storage s) index (canonical_key k) hash Hok' Hlen) as (index' & -> & Hok2);
        [now apply canonical_valid|rewrite (position_same _ k); auto using canonical_valid, canonical_same; apply Hok
        |rewrite Hh by reflexivity; symmetry; apply same_hash; auto using canonical_valid, canonical_same|].
      cbn. eexists. split_and!; [reflexivity|now split|lia].
  - unfold set_has. destruct (findKeyIndex_ok _ _ k Hok ltac:(lia) Hv) as (hash & index & -> & Hok' & Hh).
    cbn. eexists. split_and!; [reflexivity|now split|lia].
  - unfold set_delete. destruct (findKeyIndex_ok _ _ k Hok ltac:(lia) Hv) as (hash & index & -> & Hok' & Hh).
    cbn [mbind result_bind]. destruct (position (s_storage s) k) as [i|]; cbn; eexists; (split; [reflexivity|]).
    + split; [|rewrite length_insert; lia]. split; [reflexivity|]. cbn.
      apply (store_ok_sub (s_storage s)); [assumption|now rewrite length_insert|].
      intros j k'. unfold live. intros [(_ & E & _)|[_ E]]%list_lookup_insert_Some; [discriminate|assumption].
    + split; [now split|lia].
  - eexists. split; [reflexivity|]. split; [|rewrite length_map; lia]. split; [reflexivity|]. cbn. split; [|discriminate].
    assert (forall i (k : K), ~ live (map (fun _ => @None K) (s_storage s)) i k) as Hn.
    { intros i k. unfold live.
      change (map (fun _ => @None K) (s_storage s)) with ((fun _ : option K => @None K) <$> s_storage s).
      rewrite list_lookup_fmap. now destruct (s_storage s !! i). }
    constructor; intros; exfalso; eapply Hn; eassumption.
  - eexists. split; [unfold set_size; now rewrite omap_id_count|]. split; [now split|lia].
Qed.

Lemma run_sets_ok os : forall s e, set_ok s e -> Z.of_nat (length e + length os) <= 2 ^ 28 ->
  Forall setop_valid os ->
  exists s', run_sets s os = Ok (fst (spec_sets e os), s') /\ set_ok s' (snd (spec_sets e os)).
Proof.
  induction os as [|o os IH]; intros s e Hs Hlen Hv; cbn [run_sets spec_sets length] in *; [eauto|].
  inversion Hv; subst. destruct (run_set_ok s e o Hs ltac:(lia)) as (s1 & -> & Hs1 & Hl1); [assumption|].
  destruct (spec_setop e o) as [r e1]. cbn [fst snd] in *. cbn [mbind result_bind].
  destruct (IH s1 e1 Hs1) as (s2 & -> & Hs2); [lia|assumption|].
  destruct (spec_sets e1 os) as [rs e2]. cbn in *. eauto.
Qed.
End Set_.

End SetFacts.

(** * Iteration *)
Module IterationFacts.
Import Collections.

Section Iteration.
Context {K V : Type}.
Implicit Types (s : list (option (K * V))).

Definition view (ty : IteratorType) (e : K * V) : IterResult K V :=
  match ty with TypeKey => IKey (fst e) | TypeValue => IValue (snd e) | TypeKeyValue => IEntry (fst e) (snd e) end.

(** The live entries from a position on, in storage order. *)
Definition remaining (ty : IteratorType) s (i : nat) : list (IterResult K V) :=
  omap (fmap (view ty)) (drop i s).

Lemma remaining_step ty s i o : s !! i = Some o ->
  remaining ty s i = (match o with Some e => [view ty e] | None => [] end) ++ remaining ty s (S i).
Proof. intros Hi. unfold remaining. rewrite (drop_S _ _ _ Hi). now destruct o. Qed.

(** One [advance] takes the first remaining entry, or detaches the iterator. *)
Lemma advance_loop_spec ty s fuel i : (length s <= i + fuel)%nat ->
  match remaining ty s i with
  | r :: rest => exists j, (i < j <= length s)%nat /\ remaining ty s j = rest /\
      advance_loop fuel s ty i = Ok (Some r, mkIterator true j ty)
  | [] => exists j, advance_loop fuel s ty i = Ok (None, mkIterator false j ty)
  end.
Proof.
  revert i. induction fuel as [|fuel IH]; intros i Hf; cbn [advance_loop];
    (destruct (i <? length s)%nat eqn:E; [apply Nat.ltb_lt in E|
      apply Nat.ltb_ge in E; unfold remaining; rewrite drop_ge by lia; cbn; eauto]).
  { lia. }
  destruct (lookup_lt_is_Some_2 s i E) as [o Ho]. rewrite (remaining_step ty s i o Ho), Ho.
  cbn [defined mbind result_bind]. destruct o as [[k v]|]; cbn [app].
  - exists (S i). split_and!; [lia|lia|reflexivity|]. now destruct ty.
  - specialize (IH (S i) ltac:(lia)). destruct (remaining ty s (S i)) as [|r rest]; [assumption|].
    destruct IH as (j & Hj & Hrest & Ea). exists j. split_and!; [lia|lia|assumption|assumption].
Qed.

(** Driving an iterator to its end over an unchanged map. *)
Fixpoint drain (fuel : nat) (m : MapObject K V) (it : Iterator) : result (list (IterResult K V) * Iterator) :=
  match fuel with
  | O => Undefined
  | S fuel =>
      '(r, it) ← advance m it;
      match r with
      | None => Ok ([], it)
      | Some r => '(rs, it) ← drain fuel m it; Ok (r :: rs, it)
      end
  end.

Lemma drain_spec m ty fuel i : (length (remaining ty (m_storage m) i) < fuel)%nat ->
  exists j, drain fuel m (mkIterator true i ty) = Ok (remaining ty (m_storage m) i, mkIterator false j ty).
Proof.
  revert i. induction fuel as [|fuel IH]; intros i Hf; [lia|]. cbn [drain]. unfold advance. cbn [it_map negb m_type m_iteratorIndex].
  pose proof (advance_loop_spec ty (m_storage m) (length (m_storage m)) i ltac:(lia)) as A.
  destruct (remaining ty (m_storage m) i) as [|r rest].
  - destruct A as [j ->]. cbn. eauto.
  - destruct A as (j & Hj & <- & ->). cbn [mbind result_bind].
    destruct (IH j) as [j' ->]; [simpl in Hf; lia|]. cbn. eauto.
Qed.
End Iteration.

(** A set iterator is a map iterator over pairs of equal components. *)
Lemma set_advance_map {K} (s : list (option K)) ty fuel i : ty <> TypeKey ->
  set_advance_loop fuel s ty i = advance_loop fuel (map (option_map (fun k => (k, k))) s) ty i.
Proof.
  intros Hty. revert i. induction fuel as [|fuel IH]; intros i; cbn [set_advance_loop advance_loop];
    rewrite length_map; destruct (i <? length s)%nat; try reflexivity.
  change (map (option_map (fun k : K => (k, k))) s) with ((option_map (fun k : K => (k, k))) <$> s) at 1.
  rewrite list_lookup_fmap. destruct (s !! i) as [[e|]|]; cbn [fmap option_fmap option_map defined mbind result_bind];
    [destruct ty; [congruence|reflexivity..]|apply IH|reflexivity].
Qed.

End IterationFacts.

(** * Properties *)
Module KeyedCollectionProps.
Import Word Heap ValueSpec ValueHash ValueKeys IndexFacts Collections MapSpec MapFacts SetFacts IterationFacts.

(** C9: a Map behaves as the MapData list of ECMA-262 under any sequence of
    operations, including a computed insertion whose callback changes the map:
    every result and the final entries agree, the hash index never loops, reads
    outside the storage or violates its load assertion, and it stays sound. The
    bound 2^28 keeps the 32-bit table sizes exact. *)
Theorem map_refines_MapData {K V : Type} `{CollectionKey K} (undefined : V) (ops : list (MapOp (K := K) (V := V))) :
  Forall mapop_valid ops -> Z.of_nat (sum_list_with op_cost ops) <= 2 ^ 28 ->
  exists m, run undefined empty_map ops = Ok (fst (spec_run undefined [] ops), m) /\
    m_storage m = snd (spec_run undefined [] ops) /\
    store_ok (keys_of (m_storage m)) (m_hashIndex m).
Proof.
  intros Hv Hn. assert (map_ok (K := K) (V := V) empty_map []) as H0.
  { split; [reflexivity|]. split; [|discriminate]. constructor; intros; discriminate. }
  destruct (run_ok undefined ops empty_map [] H0 Hn Hv) as (m & E & <- & Hok). eauto.
Qed.

Lemma map_refines_MapData_witness :
  let ops := [OpSimple (OpSet (Value_int 1) 10);
              OpGetOrInsertComputed (Value_EncodeAsDouble (2 ^ 63)) [OpSet (Value_int 0) 5; OpDelete (Value_int 1)] 7;
              OpSimple OpSize] in
  exists m, @run Z Z (value_key ∅) (-1) empty_map ops = Ok (fst (@spec_run Z Z (value_key ∅) (-1) [] ops), m) /\
    m_storage m = snd (@spec_run Z Z (value_key ∅) (-1) [] ops) /\
    @store_ok Z (value_key ∅) (keys_of (m_storage m)) (m_hashIndex m).
Proof.
  apply (@map_refines_MapData Z Z (value_key ∅)); [|simpl; lia].
  repeat (constructor; cbn); try apply Value_int_u64; try (eexists; vm_compute; reflexivity);
    try (vm_compute; congruence).
Defined.

(** A Set behaves as a list of distinct keys under any sequence of
    operations, with the same guarantees about its index. *)
Theorem set_refines_SetData {K : Type} `{CollectionKey K} (ops : list (SetOp (K := K))) :
  Forall setop_valid ops -> Z.of_nat (length ops) <= 2 ^ 28 ->
  exists s, run_sets (mkSet [] None) ops = Ok (fst (spec_sets [] ops), s) /\
    s_storage s = snd (spec_sets [] ops) /\ store_ok (s_storage s) (s_hashIndex s).
Proof.
  intros Hv Hn. assert (set_ok (K := K) (mkSet [] None) []) as H0.
  { split; [reflexivity|]. split; [|discriminate]. constructor; intros; discriminate. }
  destruct (run_sets_ok ops (mkSet [] None) [] H0 Hn Hv) as (s & E & <- & Hok). eauto.
Qed.

Lemma set_refines_SetData_witness :
  let ops := [SetAdd (Value_int 1); SetAdd (Value_EncodeAsDouble (of_Z 1)); SetSize] in
  exists s, @run_sets Z (value_key ∅) (mkSet [] None) ops = Ok (fst (@spec_sets Z (value_key ∅) [] ops), s) /\
    s_storage s = snd (@spec_sets Z (value_key ∅) [] ops) /\ @store_ok Z (value_key ∅) (s_storage s) (s_hashIndex s).
Proof.
  apply (@set_refines_SetData Z (value_key ∅)); [|simpl; lia].
  repeat (constructor; cbn); try apply Value_int_u64; try (eexists; vm_compute; reflexivity);
    try (vm_compute; congruence).
Defined.

(** The hash of a value depends only on its SameValueZero class: the int32
    and double forms of a number, both zeros, all NaNs, and equal strings and
    BigInts at different addresses hash alike, so a key is never missed. *)
Theorem hash_respects_SameValueZero (h : heap) (v w : Z) :
  word_valid h v -> word_valid h w ->
  equalsToByTheSameValueZeroAlgorithm h v w = true ->
  keyedCollectionHash h v = keyedCollectionHash h w /\
  equalsToByTheSameValueZeroAlgorithm h (canonicalizeKeyedCollectionKey v) w = true.
Proof.
  intros Hv Hw E. split; [exact (@same_hash Z (value_key h) v w Hv Hw E)|].
  apply (@same_trans Z (value_key h) _ v w); try assumption.
  - now apply (@canonical_valid Z (value_key h)).
  - now apply (@canonical_same Z (value_key h)).
Qed.

Lemma hash_respects_SameValueZero_witness :
  keyedCollectionHash ∅ (Value_EncodeAsDouble (2 ^ 63)) = keyedCollectionHash ∅ (Value_int 0) /\
  equalsToByTheSameValueZeroAlgorithm ∅ (canonicalizeKeyedCollectionKey (Value_EncodeAsDouble (2 ^ 63))) (Value_int 0) = true.
Proof.
  apply hash_respects_SameValueZero; [split|split|vm_compute; reflexivity];
    try apply Value_int_u64; try (eexists; vm_compute; reflexivity); try (vm_compute; intuition congruence).
Defined.

(** C40: an iterator visits exactly the live entries at and after its index, in
    insertion order, then detaches and stays finished; each step takes the first
    live entry of the storage as it is then, so entries added behind it are
    seen and deleted ones are not. *)
Theorem map_iteration_order {K V : Type} (m : MapObject K V) (ty : IteratorType) (i : nat) :
  (exists it, drain (S (length (m_storage m))) m (mkIterator true i ty)
     = Ok (remaining ty (m_storage m) i, it) /\ advance m it = Ok (None, it)) /\
  (forall e, remaining ty (m_storage m ++ [Some e]) i
     = remaining ty (m_storage m) i ++ (if decide (i <= length (m_storage m))%nat then [view ty e] else [])) /\
  size m = Z.of_nat (length (remaining ty (m_storage m) 0)).
Proof.
  split_and!.
  - destruct (drain_spec m ty (S (length (m_storage m))) i) as [j Hj].
    { unfold remaining. assert (forall (l : list (option (K * V))), length (omap (fmap (view ty)) l) <= length l)%nat as L.
      { induction l as [|[x|] l IH]; csimpl; lia. }
      specialize (L (drop i (m_storage m))). rewrite length_drop in L. lia. }
    exists (mkIterator false j ty). split; [assumption|reflexivity].
  - intros e. unfold remaining. case_decide.
    + now rewrite drop_app_le, omap_app by lia.
    + rewrite !drop_ge; [reflexivity| |]; rewrite ?length_app; simpl; lia.
  - unfold size. rewrite size_loop_spec. unfold remaining. rewrite drop_0.
    induction (m_storage m) as [|[x|] l IH]; csimpl; lia.
Qed.

End KeyedCollectionProps.
