(* ===== verification/ObjectStructure.v ===== *)
(** Hidden classes ([runtime/ObjectStructure.h], [runtime/ObjectStructure.cpp],
    [runtime/ObjectStructurePropertyName.h],
    [runtime/ObjectStructurePropertyDescriptor.h]): property names and
    descriptors packed in words, and the three representations of an object's
    layout - a vector with a search cache, a shared node of the transition tree
    and a vector with a hash table - that are exchanged for one another as
    properties come and go.  Structures live in a store, since objects, inline
    caches and transition tables share them.  The reference is the ordered list
    of properties; [StructureLaws] is the interface that objects are verified
    against. *)
From Stdlib Require Import ZArith Lia Bool.
From stdpp Require Import base numbers list option decidable gmap.
From S2P Require Import Prelude Double Value NumberString KeyedCollection.

(** * Property names

    A name is the pointer of a string or a symbol; a string that is interned
    (an [AtomicString]) is tagged with bit 0. *)
Module PropertyName.
Import Heap ValueHash Decimal.

Section PropertyName.
Context (h : heap).
(** What the character read past the end of an empty string makes
    [isIndexString] answer; nothing below depends on it. *)
Context (outside : bool).

Definition string_at (p : Z) : list Z :=
  match h !! p with Some (HString s) => s | _ => [] end.
Definition hasAtomicString (m_data : Z) : bool := negb (Z.land m_data 1 =? 0).
Definition hasSymbol (m_data : Z) : bool :=
  match h !! m_data with Some HSymbol => true | _ => false end.
Definition isSymbol (m_data : Z) : bool := if hasAtomicString m_data then false else hasSymbol m_data.
Definition isPlainString (m_data : Z) : bool :=
  if hasAtomicString m_data then true else negb (hasSymbol m_data).
Definition plainString (m_data : Z) : Z := if hasAtomicString m_data then m_data - 1 else m_data.
Definition asAtomicString (m_data : Z) : Z := m_data - 1.

Definition isIndexString (m_data : Z) : bool :=
  isPlainString m_data
  && match Decimal.isIndexString (string_at (plainString m_data)) with Some b => b | None => outside end.
Definition tryToUseAsIndexProperty (m_data : Z) : Z :=
  if isPlainString m_data then tryToUseAsIndex32 (string_at (plainString m_data)) else InvalidIndex32Value.

Definition hashValue (m_data : Z) : Z :=
  if hasAtomicString m_data then asAtomicString m_data
  else if hasSymbol m_data then m_data
  else ValueHash.hashValue (string_at m_data).

(** [operator==] on two names, and on a name and an [AtomicString]. *)
Definition equals (a b : Z) : bool :=
  let aa := hasAtomicString a in
  let ab := hasAtomicString b in
  if aa && ab then a =? b
  else
    let sa := negb aa && hasSymbol a in
    let sb := negb ab && hasSymbol b in
    if sa && sb then a =? b
    else if negb sa && negb sb then String_equals h (plainString a) (plainString b)
    else false.
Definition equals_atomic (a : Z) (b : Z) : bool :=
  if hasAtomicString a then asAtomicString a =? b
  else if negb (hasSymbol a) then String_equals h (plainString a) b
  else false.

(** The name a string stands for: [tag] is the interned string its type tag
    points to, [intern] the atomic string table. *)
Definition of_string (intern : list Z -> Z) (p : Z) (tag : option Z) : Z :=
  match tag with
  | Some q => q + 1
  | None =>
      match string_at p with
      | [] => intern [] + 1
      | c :: s =>
          let needsRemainNormalString :=
            ((c =? 46) || ((48 <=? c) && (c <=? 57))) && (16 <? length (c :: s))%nat in
          if needsRemainNormalString then p else intern (c :: s) + 1
      end
  end.

End PropertyName.
End PropertyName.

(** * Property descriptors of a structure

    A word: with bit 0 set it holds the attributes and the mode, otherwise it
    points to the record of a native accessor. *)
Module StructureDescriptor.

Definition WritablePresent : Z := Z.shiftl 1 1.
Definition EnumerablePresent : Z := Z.shiftl 1 2.
Definition ConfigurablePresent : Z := Z.shiftl 1 3.
Definition HasJSGetter : Z := Z.shiftl 1 4.
Definition HasJSSetter : Z := Z.shiftl 1 5.

(** The getter takes the receiver and the stored value; the setter gives its
    answer and the value to store. *)
Record NativeGetterSetterData := mkNative {
  m_presentAttributes : Z;
  m_actsLikeJSGetterSetter : bool;
  m_getter : Z -> Z -> Z;
  m_setter : Z -> Z -> Z -> bool * Z
}.
Definition new_native (isWritable isEnumerable isConfigurable : bool)
    (getter : Z -> Z -> Z) (setter : Z -> Z -> Z -> bool * Z) : NativeGetterSetterData :=
  let a := 0 in
  let a := if isWritable then Z.lor a WritablePresent else a in
  let a := if isEnumerable then Z.lor a EnumerablePresent else a in
  let a := if isConfigurable then Z.lor a ConfigurablePresent else a in
  mkNative a false getter setter.

Inductive Mode := PlainDataMode | HasJSGetterSetter | HasDataButHasNativeGetterSetter.

(** The enumerator that the masked word is cast to: 64 is none of them. *)
Definition mode_number (m : Mode) : Z :=
  match m with PlainDataMode => 0 | HasJSGetterSetter => 1 | HasDataButHasNativeGetterSetter => 2 end.

Definition DescriptorData (attribute : Z) (mode : Mode) : Z :=
  let has a := negb (Z.land attribute a =? 0) in
  let d := 1 in
  let d := Z.lor d (if has WritablePresent then 2 else 0) in
  let d := Z.lor d (if has EnumerablePresent then 4 else 0) in
  let d := Z.lor d (if has ConfigurablePresent then 8 else 0) in
  let d := Z.lor d (if has HasJSGetter then 16 else 0) in
  let d := Z.lor d (if has HasJSSetter then 32 else 0) in
  Z.lor d (if negb (mode_number mode =? 0) then 64 else 0).

Section Descriptor.
Context (natives : gmap Z NativeGetterSetterData).

Definition presentAttributes (m_data : Z) : Z :=
  if negb (Z.land m_data 1 =? 0) then m_data
  else match natives !! m_data with Some d => m_presentAttributes d | None => 0 end.
Definition presentAttribute (m_data a : Z) : bool := negb (Z.land (presentAttributes m_data) a =? 0).
Definition mode (m_data : Z) : Z :=
  if negb (Z.land m_data 1 =? 0) then Z.land m_data 64 else mode_number HasDataButHasNativeGetterSetter.

Definition isWritable (d : Z) : bool := presentAttribute d WritablePresent.
Definition isEnumerable (d : Z) : bool := presentAttribute d EnumerablePresent.
Definition isConfigurable (d : Z) : bool := presentAttribute d ConfigurablePresent.
Definition isDataProperty (d : Z) : bool := mode d <=? mode_number HasDataButHasNativeGetterSetter.
Definition isAccessorProperty (d : Z) : bool := negb (isDataProperty d).
Definition hasJSGetter (d : Z) : bool := presentAttribute d HasJSGetter.
Definition hasJSSetter (d : Z) : bool := presentAttribute d HasJSSetter.
Definition isPlainDataProperty (d : Z) : bool := mode d =? mode_number PlainDataMode.
Definition isNativeAccessorProperty (d : Z) : bool :=
  mode d =? mode_number HasDataButHasNativeGetterSetter.

(** The private constructor: the test of the mode compares the masked bit 64
    with the enumerator [HasJSGetterSetter]. *)
Definition make (attribute : Z) (m : Mode) : Z :=
  let d := DescriptorData attribute m in
  if (mode d =? mode_number HasJSGetterSetter) && negb (Z.land attribute HasJSSetter =? 0)
  then DescriptorData (Z.lor WritablePresent attribute) m else d.
Definition createDataDescriptor (attribute : Z) : Z := DescriptorData attribute PlainDataMode.
Definition createAccessorDescriptor (attribute : Z) : Z := make attribute HasJSGetterSetter.

End Descriptor.

Example accessor_not_writable :
  isWritable ∅ (createAccessorDescriptor (Z.lor HasJSGetter HasJSSetter)) = false.
Proof. reflexivity. Qed.

End StructureDescriptor.

(** * Structures *)
Module Structures.
Import Heap PropertyName StructureDescriptor.

Definition ACCESS_CACHE_BUILD_MIN_SIZE : nat := 512.
Definition TRANSITION_MODE_MAX_SIZE : nat := 36.
Definition TRANSITION_MAP_MIN_SIZE : nat := 32.
Definition NotFound16 : Z := 65535.

Record ObjectStructureItem := mkItem { m_propertyName : Z; m_descriptor : Z }.

Record TransitionItem := mkTransition {
  t_propertyName : Z;
  t_descriptor : Z;
  t_structure : nat
}.

(** The transition table is a vector with its capacity or, from the 33rd
    transition on, a hash table. *)
Inductive TransitionTable :=
  | TableVector (buffer : list TransitionItem) (capacity : Z)
  | TableMap (table : list TransitionItem).

(** [PropertyNameMap] is a hash table: two keys that the table takes for the
    same have the same hash and are equal. *)
Record PropertyNameMapWithCache := mkMap {
  entries : list (Z * nat);
  lastItem : Z * option nat
}.

Inductive Body :=
  | WithoutTransition (m_properties : option (list ObjectStructureItem))
      (m_lastFoundPropertyName : Z) (lastFoundPropertyIndex : Z)
  | WithTransition (m_properties : list ObjectStructureItem) (table : TransitionTable)
  | WithMap (m_properties : option (list ObjectStructureItem))
      (m_propertyNameMap : option PropertyNameMapWithCache).

Record ObjectStructure := mkStructure {
  m_hasIndexPropertyName : bool;
  m_hasSymbolPropertyName : bool;
  m_hasNonAtomicPropertyName : bool;
  m_hasEnumerableProperty : bool;
  m_isReferencedByInlineCache : bool;
  body : Body
}.

(** Structures are referred to by their place in the store. *)
Abbreviation Store := (list ObjectStructure).

Section Structures.
Context (h : heap) (outside : bool) (natives : gmap Z NativeGetterSetterData) (emptyName : Z).

Notation isSymbol := (PropertyName.isSymbol h).
Notation isIndexString := (PropertyName.isIndexString h outside).
Notation isEnumerable := (StructureDescriptor.isEnumerable natives).

Definition with_body (x : ObjectStructure) (b : Body) : ObjectStructure :=
  mkStructure (m_hasIndexPropertyName x) (m_hasSymbolPropertyName x) (m_hasNonAtomicPropertyName x)
    (m_hasEnumerableProperty x) (m_isReferencedByInlineCache x) b.

Definition alloc (s : Store) (x : ObjectStructure) : Store * nat := (s ++ [x], length s).

(** The constructor of [ObjectStructureWithoutTransition] primes the cache with
    the last property. *)
Definition new_WithoutTransition (ps : list ObjectStructureItem) (ix sy na en : bool) : ObjectStructure :=
  let '(n, i) := match last ps with
                 | Some p => (m_propertyName p, wrapu 16 (Z.of_nat (length ps) - 1))
                 | None => (emptyName, 0)
                 end in
  mkStructure ix sy na en false (WithoutTransition (Some ps) n i).
Definition new_WithTransition (ps : list ObjectStructureItem) (ix sy na en : bool) : ObjectStructure :=
  mkStructure ix sy na en false (WithTransition ps (TableVector [] 0)).
Definition new_WithMap (ps : list ObjectStructureItem) (m : option PropertyNameMapWithCache)
    (ix sy en : bool) : ObjectStructure :=
  mkStructure ix sy false en false (WithMap (Some ps) m).

(** [PropertyNameMapWithCache]: the empty map, [insert], [find] and
    [createPropertyNameMap]. *)
Definition new_map : PropertyNameMapWithCache := mkMap [] (emptyName, None).
Definition same_key (a b : Z) : bool := (hashValue h a =? hashValue h b) && equals h a b.
Fixpoint map_lookup (l : list (Z * nat)) (name : Z) : option nat :=
  match l with
  | [] => None
  | (n, i) :: l => if same_key n name then Some i else map_lookup l name
  end.
Definition map_insert (m : PropertyNameMapWithCache) (name : Z) (idx : nat) : PropertyNameMapWithCache :=
  mkMap (match map_lookup (entries m) name with
         | None => entries m ++ [(name, idx)]
         | Some _ => entries m
         end) (name, Some idx).
Definition map_find (m : PropertyNameMapWithCache) (name : Z) : PropertyNameMapWithCache * option nat :=
  if equals h name (lastItem m).1 then (m, (lastItem m).2)
  else
    let r := map_lookup (entries m) name in
    (mkMap (entries m) (name, r), r).
Fixpoint fill_map (from : list ObjectStructureItem) (i : nat) (m : PropertyNameMapWithCache)
  : PropertyNameMapWithCache :=
  match from with
  | [] => m
  | p :: from => fill_map from (S i) (map_insert m (m_propertyName p) i)
  end.
Definition createPropertyNameMap (from : list ObjectStructureItem) : PropertyNameMapWithCache :=
  fill_map from 0 new_map.

(** [ObjectStructure::create]. *)
Definition create (properties : list ObjectStructureItem) (preferTransition : bool) : ObjectStructure :=
  let hasSymbol := existsb (fun p => isSymbol (m_propertyName p)) properties in
  let hasIndexString := existsb (fun p => isIndexString (m_propertyName p)) properties in
  let hasNonAtomic := existsb (fun p => negb (hasAtomicString (m_propertyName p))) properties in
  let hasEnumerable := true in
  if negb (length properties <=? TRANSITION_MODE_MAX_SIZE)%nat
  then new_WithMap properties None hasIndexString hasSymbol hasEnumerable
  else if preferTransition
  then new_WithTransition properties hasIndexString hasSymbol hasNonAtomic hasEnumerable
  else new_WithoutTransition properties hasIndexString hasSymbol hasNonAtomic hasEnumerable.

(** The search that structures without a hash table share. *)
Fixpoint find_index (p : Z -> bool) (l : list ObjectStructureItem) (i : nat) : option nat :=
  match l with
  | [] => None
  | x :: l => if p (m_propertyName x) then Some i else find_index p l (S i)
  end.
Definition search (x : ObjectStructure) (l : list ObjectStructureItem) (name : Z) : option nat :=
  if hasAtomicString name then
    if negb (m_hasNonAtomicPropertyName x) then find_index (fun n => n =? name) l 0
    else let as_ := asAtomicString name in find_index (fun n => equals_atomic h n as_) l 0
  else if isSymbol name then
    if m_hasSymbolPropertyName x then find_index (fun n => equals h n name) l 0 else None
  else find_index (fun n => equals h n name) l 0.

(** [findProperty] of the three classes: the structure with its caches updated
    and the index found. *)
Definition find_WithoutTransition (x : ObjectStructure) (ps : option (list ObjectStructureItem))
    (n i : Z) (name : Z) : result (ObjectStructure * option nat) :=
  l ← defined ps;
  if negb (length l =? 0)%nat && equals h n name then
    if i =? NotFound16 then Ok (x, None)
    else _ ← defined (l !! Z.to_nat i); Ok (x, Some (Z.to_nat i))
  else
    let r := search x l name in
    let i := match r with Some i => wrapu 16 (Z.of_nat i) | None => NotFound16 end in
    Ok (with_body x (WithoutTransition ps name i), r).
Definition find_WithTransition (x : ObjectStructure) (l : list ObjectStructureItem) (name : Z)
  : result (ObjectStructure * option nat) := Ok (x, search x l name).
Definition find_WithMap (x : ObjectStructure) (ps : option (list ObjectStructureItem))
    (m : option PropertyNameMapWithCache) (name : Z) : result (ObjectStructure * option nat) :=
  l ← defined ps;
  let m := match m with Some m => m | None => createPropertyNameMap l end in
  let '(m, r) := map_find m name in
  Ok (with_body x (WithMap ps (Some m)), r).
Definition find_in (x : ObjectStructure) (name : Z) : result (ObjectStructure * option nat) :=
  match body x with
  | WithoutTransition ps n i => find_WithoutTransition x ps n i name
  | WithTransition l _ => find_WithTransition x l name
  | WithMap ps m => find_WithMap x ps m name
  end.
Definition findProperty (s : Store) (id : nat) (name : Z) : result (Store * option nat) :=
  x ← defined (s !! id);
  '(x', r) ← find_in x name;
  Ok (<[id := x']> s, r).

Definition properties_of (x : ObjectStructure) : option (list ObjectStructureItem) :=
  match body x with
  | WithoutTransition ps _ _ => ps
  | WithTransition l _ => Some l
  | WithMap ps _ => ps
  end.
Definition properties (s : Store) (id : nat) : result (list ObjectStructureItem) :=
  x ← defined (s !! id); defined (properties_of x).
Definition readProperty (s : Store) (id idx : nat) : result ObjectStructureItem :=
  l ← properties s id; defined (l !! idx).
Definition propertyCount (s : Store) (id : nat) : result nat :=
  l ← properties s id; Ok (length l).
Definition inTransitionMode (x : ObjectStructure) : bool :=
  match body x with WithTransition _ _ => true | _ => false end.

(** ** Adding a property *)

(** What is left of a structure whose vector and map move to its successor. *)
Definition stolen (x : ObjectStructure) : ObjectStructure :=
  match body x with
  | WithoutTransition _ n i => with_body x (WithoutTransition None n i)
  | WithMap _ _ => with_body x (WithMap None None)
  | WithTransition _ _ => x
  end.
Definition take_over (s : Store) (id : nat) (x : ObjectStructure) : Store :=
  if m_isReferencedByInlineCache x then s else <[id := stolen x]> s.

(** The flags of the structure that has the property too. *)
Definition added_flags (x : ObjectStructure) (name desc : Z) : bool * bool * bool * bool :=
  ((if m_hasIndexPropertyName x then true else isIndexString name),
   (if m_hasSymbolPropertyName x then true else isSymbol name),
   (if m_hasNonAtomicPropertyName x then true else negb (hasAtomicString name)),
   (if m_hasEnumerableProperty x then true else isEnumerable desc)).

Definition add_WithoutTransition (s : Store) (id : nat) (x : ObjectStructure)
    (ps : option (list ObjectStructureItem)) (name desc : Z) : result (Store * nat) :=
  l ← defined ps;
  let '(ix, sy, na, en) := added_flags x name desc in
  let l := l ++ [mkItem name desc] in
  Ok (alloc (take_over s id x) (if (ACCESS_CACHE_BUILD_MIN_SIZE <? length l)%nat
               then new_WithMap l None ix sy en
               else new_WithoutTransition l ix sy na en)).

Definition add_WithMap (s : Store) (id : nat) (x : ObjectStructure)
    (ps : option (list ObjectStructureItem)) (m : option PropertyNameMapWithCache)
    (name desc : Z) : result (Store * nat) :=
  l ← defined ps;
  let '(ix, sy, _, en) := added_flags x name desc in
  let l' := l ++ [mkItem name desc] in
  let m' := if m_isReferencedByInlineCache x then None
            else match m with Some m => Some (map_insert m name (length l)) | None => None end in
  Ok (alloc (take_over s id x) (new_WithMap l' m' ix sy en)).

(** The transition table.  The C++ hash table of transitions hashes the raw
    descriptor and the name; its keys are compared as the vector's are. *)
Definition same_transition (t : TransitionItem) (name desc : Z) : bool :=
  (t_descriptor t =? desc) && equals h (t_propertyName t) name.
Definition same_transition_key (t : TransitionItem) (name desc : Z) : bool :=
  (u64 (hashValue h (t_propertyName t) + t_descriptor t) =? u64 (hashValue h name + desc))
  && same_transition t name desc.
Definition find_transition (table : TransitionTable) (name desc : Z) : option nat :=
  match table with
  | TableMap l => t_structure <$> head (filter (fun t => same_transition_key t name desc = true) l)
  | TableVector l _ => t_structure <$> head (filter (fun t => same_transition t name desc = true) l)
  end.

Definition computeVectorAllocateSize (newSize : Z) : Z :=
  if newSize =? 0 then 1 else Z.shiftl 1 (Z.log2 newSize + 1).
Definition table_insert (l : list TransitionItem) (t : TransitionItem) : list TransitionItem :=
  match filter (fun t' => same_transition_key t' (t_propertyName t) (t_descriptor t) = true) l with
  | [] => l ++ [t]
  | _ => l
  end.
Definition add_transition (table : TransitionTable) (t : TransitionItem) : result TransitionTable :=
  match table with
  | TableMap l => Ok (TableMap (table_insert l t))
  | TableVector l capacity =>
      let size := Z.of_nat (length l) in
      if Z.of_nat TRANSITION_MAP_MIN_SIZE <? size + 1
      then Ok (TableMap (table_insert (fold_left table_insert l []) t))
      else
        let capacity :=
          if capacity <=? size + 1 then Z.min (computeVectorAllocateSize (size + 1)) 255 else capacity in
        if size <? capacity then Ok (TableVector (l ++ [t]) capacity) else Undefined
  end.

Definition add_WithTransition (s : Store) (id : nat) (x : ObjectStructure)
    (l : list ObjectStructureItem) (table : TransitionTable) (name desc : Z) : result (Store * nat) :=
  match find_transition table name desc with
  | Some j => Ok (s, j)
  | None =>
      let '(ix, sy, na, en) := added_flags x name desc in
      let nextSize := S (length l) in
      let l' := l ++ [mkItem name desc] in
      if (TRANSITION_MODE_MAX_SIZE <? nextSize)%nat || ix
      then Ok (alloc s (new_WithoutTransition l' ix sy na en))
      else
        let '(s, j) := alloc s (new_WithTransition l' ix sy na en) in
        table ← add_transition table (mkTransition name desc j);
        Ok (<[id := with_body x (WithTransition l table)]> s, j)
  end.

Definition addProperty (s : Store) (id : nat) (name desc : Z) : result (Store * nat) :=
  x ← defined (s !! id);
  match body x with
  | WithoutTransition ps _ _ => add_WithoutTransition s id x ps name desc
  | WithTransition l table => add_WithTransition s id x l table name desc
  | WithMap ps m => add_WithMap s id x ps m name desc
  end.

(** ** Removing a property and replacing a descriptor *)

Definition remove_at (pIndex : nat) (l : list ObjectStructureItem) : list ObjectStructureItem :=
  take pIndex l ++ drop (S pIndex) l.

(** The loop that recomputes the flags for the properties kept. *)
Definition flags_of (l : list ObjectStructureItem) : bool * bool * bool * bool :=
  fold_left (fun '(ix, sy, na, en) p =>
               (ix || isIndexString (m_propertyName p), sy || isSymbol (m_propertyName p),
                na || negb (hasAtomicString (m_propertyName p)), en || isEnumerable (m_descriptor p)))
    l (false, false, false, false).

Definition remove_WithoutTransition (s : Store) (id : nat) (x : ObjectStructure)
    (ps : option (list ObjectStructureItem)) (pIndex : nat) : result (Store * nat) :=
  l ← defined ps;
  if negb (pIndex <? length l)%nat then Undefined
  else
    let l' := remove_at pIndex l in
    let '(ix, sy, na, en) := flags_of l' in
    Ok (alloc (take_over s id x) (new_WithoutTransition l' ix sy na en)).
Definition remove_WithTransition (s : Store) (l : list ObjectStructureItem) (pIndex : nat) : result (Store * nat) :=
  if negb (pIndex <? length l)%nat then Undefined
  else
    let l' := remove_at pIndex l in
    let '(ix, sy, na, en) := flags_of l' in
    Ok (alloc s (new_WithoutTransition l' ix sy na en)).
Definition remove_WithMap (s : Store) (id : nat) (x : ObjectStructure)
    (ps : option (list ObjectStructureItem)) (pIndex : nat) : result (Store * nat) :=
  l ← defined ps;
  if negb (pIndex <? length l)%nat then Undefined
  else
    let l' := remove_at pIndex l in
    let '(ix, sy, na, en) := flags_of l' in
    Ok (alloc (take_over s id x)
          (if (ACCESS_CACHE_BUILD_MIN_SIZE <? length l')%nat
           then new_WithMap l' None ix sy en
           else new_WithoutTransition l' ix sy na en)).
Definition removeProperty (s : Store) (id pIndex : nat) : result (Store * nat) :=
  x ← defined (s !! id);
  match body x with
  | WithoutTransition ps _ _ => remove_WithoutTransition s id x ps pIndex
  | WithTransition l _ => remove_WithTransition s l pIndex
  | WithMap ps _ => remove_WithMap s id x ps pIndex
  end.

Definition replaced_enumerable (x : ObjectStructure) (newDesc : Z) : bool :=
  if m_hasEnumerableProperty x then true else isEnumerable newDesc.
Definition set_descriptor (l : list ObjectStructureItem) (idx : nat) (newDesc : Z)
  : result (list ObjectStructureItem) :=
  p ← defined (l !! idx);
  Ok (<[idx := mkItem (m_propertyName p) newDesc]> l).
Definition replace_WithoutTransition (s : Store) (id : nat) (x : ObjectStructure)
    (ps : option (list ObjectStructureItem)) (idx : nat) (newDesc : Z) : result (Store * nat) :=
  l ← defined ps;
  l' ← set_descriptor l idx newDesc;
  Ok (alloc (take_over s id x)
        (new_WithoutTransition l' (m_hasIndexPropertyName x) (m_hasSymbolPropertyName x)
           (m_hasNonAtomicPropertyName x) (replaced_enumerable x newDesc))).
Definition replace_WithTransition (s : Store) (x : ObjectStructure)
    (l : list ObjectStructureItem) (idx : nat) (newDesc : Z) : result (Store * nat) :=
  l' ← set_descriptor l idx newDesc;
  Ok (alloc s
        (new_WithoutTransition l' (m_hasIndexPropertyName x) (m_hasSymbolPropertyName x)
           (m_hasNonAtomicPropertyName x) (replaced_enumerable x newDesc))).
Definition replace_WithMap (s : Store) (id : nat) (x : ObjectStructure)
    (ps : option (list ObjectStructureItem)) (m : option PropertyNameMapWithCache)
    (idx : nat) (newDesc : Z) : result (Store * nat) :=
  l ← defined ps;
  l' ← set_descriptor l idx newDesc;
  Ok (alloc (take_over s id x)
        (new_WithMap l' (if m_isReferencedByInlineCache x then None else m)
           (m_hasIndexPropertyName x) (m_hasSymbolPropertyName x) (replaced_enumerable x newDesc))).
Definition replacePropertyDescriptor (s : Store) (id idx : nat) (newDesc : Z) : result (Store * nat) :=
  x ← defined (s !! id);
  match body x with
  | WithoutTransition ps _ _ => replace_WithoutTransition s id x ps idx newDesc
  | WithTransition l _ => replace_WithTransition s x l idx newDesc
  | WithMap ps m => replace_WithMap s id x ps m idx newDesc
  end.

Definition convertToNonTransitionStructure (s : Store) (id : nat) : result (Store * nat) :=
  x ← defined (s !! id);
  match body x with
  | WithTransition l _ =>
      Ok (alloc s (new_WithoutTransition l (m_hasIndexPropertyName x) (m_hasSymbolPropertyName x)
                     (m_hasNonAtomicPropertyName x) (m_hasEnumerableProperty x)))
  | _ => Ok (s, id)
  end.

Definition markReferencedByInlineCache (s : Store) (id : nat) : result Store :=
  x ← defined (s !! id);
  Ok (<[id := mkStructure (m_hasIndexPropertyName x) (m_hasSymbolPropertyName x)
                (m_hasNonAtomicPropertyName x) (m_hasEnumerableProperty x) true (body x)]> s).

(** [hasSamePropertiesTo] and [ObjectStructureHash]. *)
Fixpoint same_items (l k : list ObjectStructureItem) : bool :=
  match l, k with
  | [], [] => true
  | p :: l, q :: k =>
      if negb (equals h (m_propertyName p) (m_propertyName q)) || negb (m_descriptor p =? m_descriptor q)
      then false else same_items l k
  | _, _ => false
  end.
Definition hasSamePropertiesTo (l k : list ObjectStructureItem) : bool :=
  if (length l =? length k)%nat then same_items l k else false.
Definition ObjectStructureHash (l : list ObjectStructureItem) : Z :=
  fold_left (fun result p => u64 (result + hashValue h (m_propertyName p)))
    (take (Nat.min (length l) 6) l) (u64 (Z.of_nat (length l))).

End Structures.
End Structures.

(** * Names as property keys *)
Module Names.
Import Heap PropertyName.

(** The property key a name stands for. *)
Inductive Key := KString (s : list Z) | KSymbol (p : Z).
#[export] Instance Key_eq_dec : EqDecision Key.
Proof. solve_decision. Defined.

Definition key (h : heap) (m_data : Z) : option Key :=
  if hasAtomicString m_data
  then match h !! (m_data - 1) with Some (HString s) => Some (KString s) | _ => None end
  else match h !! m_data with
       | Some (HString s) => Some (KString s)
       | Some HSymbol => Some (KSymbol m_data)
       | _ => None
       end.

(** What the string table promises to structures about the names in use: they
    are strings and symbols, interned strings are unique, and names of one key
    have one hash.  The last is what the hash tables of structures rely on, and
    it fails of a string that is in use both as an interned name and as a plain
    one ([ObjectStructureProps.map_misses_equal_name]); [name_space] shows that it
    holds as long as no string is. *)
Class NameSpace (h : heap) (names : Z -> Prop) := {
  names_key n : names n -> is_Some (key h n);
  names_interned a b : names a -> names b -> hasAtomicString a = true -> hasAtomicString b = true ->
    key h a = key h b -> a = b;
  names_hash a b : names a -> names b -> key h a = key h b -> hashValue h a = hashValue h b
}.

Lemma name_space h (names : Z -> Prop) : (forall n, names n -> is_Some (key h n)) ->
  (forall a b, names a -> names b -> hasAtomicString a = true -> hasAtomicString b = true -> key h a = key h b -> a = b) ->
  (forall a b, names a -> names b -> key h a = key h b -> hasAtomicString a = hasAtomicString b) -> NameSpace h names.
Proof.
  intros Hk Hi Hf. split; [exact Hk|exact Hi|]. intros a b Ha Hb E. pose proof (Hf a b Ha Hb E) as F. pose proof (Hk a Ha) as Ka.
  unfold hashValue. rewrite <- F. destruct (hasAtomicString a) eqn:Ea; [now rewrite (Hi a b)|].
  unfold key in *. rewrite <- F, Ea in *. unfold hasSymbol, string_at, plainString in *.
  destruct (h !! a) as [[]|], (h !! b) as [[]|]; congruence || now destruct Ka.
Qed.

Lemma equals_atomic_equals h a b : hasAtomicString b = true ->
  equals_atomic h a (asAtomicString b) = equals h a b.
Proof.
  intros Eb. unfold equals_atomic, equals, asAtomicString.
  rewrite Eb. destruct (hasAtomicString a) eqn:Ea; cbn.
  - destruct (a =? b) eqn:F; Zbool; [subst; apply Z.eqb_refl|apply Z.eqb_neq; lia].
  - unfold plainString. rewrite Ea, Eb. now destruct (hasSymbol h a).
Qed.

Section Names.
Context (h : heap) (names : Z -> Prop) `{NameSpace h names}.

Lemma key_cases n : names n ->
  (exists s, h !! plainString n = Some (HString s) /\ key h n = Some (KString s) /\
     (hasAtomicString n = false -> hasSymbol h n = false)) \/
  (hasAtomicString n = false /\ hasSymbol h n = true /\ key h n = Some (KSymbol n)).
Proof.
  intros Hn. destruct (names_key n Hn) as [k Hk]. revert Hk. unfold key, plainString, hasSymbol.
  destruct (hasAtomicString n) eqn:E.
  - destruct (h !! (n - 1)) as [[]|]; try discriminate. intros _. left. eexists. now split_and!.
  - destruct (h !! n) as [[]|] eqn:En; try discriminate; intros _; [left; eexists|right]; now split_and!.
Qed.

Lemma bool_decide_false_iff {A} (a b : A) `{Decision (a = b)} : a <> b -> bool_decide (a = b) = false.
Proof. intros. now apply bool_decide_eq_false_2. Qed.

Lemma equals_key a b : names a -> names b -> equals h a b = bool_decide (key h a = key h b).
Proof.
  intros Ha Hb. unfold equals.
  destruct (hasAtomicString a && hasAtomicString b) eqn:E.
  - apply andb_true_iff in E as [Ea Eb]. destruct (a =? b) eqn:F; Zbool.
    + subst. symmetry. now apply bool_decide_eq_true_2.
    + symmetry. apply bool_decide_false_iff. intros K. now apply F, names_interned.
  - destruct (key_cases a Ha) as [(s & As & Ak & Au)|(Aa & As & Ak)];
      destruct (key_cases b Hb) as [(t & Bs & Bk & Bu)|(Ba & Bs & Bk)]; rewrite Ak, Bk.
    + assert (negb (hasAtomicString a) && hasSymbol h a = false) as ->
        by (destruct (hasAtomicString a); cbn; auto).
      assert (negb (hasAtomicString b) && hasSymbol h b = false) as ->
        by (destruct (hasAtomicString b); cbn; auto).
      cbn. unfold String_equals. rewrite As, Bs.
      destruct (decide (s = t)) as [->|N]; [now rewrite !bool_decide_eq_true_2|].
      rewrite !bool_decide_eq_false_2 by congruence. reflexivity.
    + assert (negb (hasAtomicString a) && hasSymbol h a = false) as ->
        by (destruct (hasAtomicString a); cbn; auto).
      rewrite Ba, Bs. cbn. now rewrite bool_decide_eq_false_2 by congruence.
    + assert (negb (hasAtomicString b) && hasSymbol h b = false) as ->
        by (destruct (hasAtomicString b); cbn; auto).
      rewrite Aa, As. cbn. now rewrite bool_decide_eq_false_2 by congruence.
    + rewrite Aa, As, Ba, Bs. cbn. destruct (a =? b) eqn:F; Zbool.
      * subst. now rewrite bool_decide_eq_true_2.
      * now rewrite bool_decide_eq_false_2 by congruence.
Qed.

Lemma equals_atomic_key a b : names a -> names b -> hasAtomicString b = true ->
  equals_atomic h a (asAtomicString b) = bool_decide (key h a = key h b).
Proof. intros Ha Hb Eb. rewrite <- (equals_key a b Ha Hb). now apply equals_atomic_equals. Qed.

Lemma same_key_spec a b : names a -> names b ->
  Structures.same_key h a b = bool_decide (key h a = key h b).
Proof.
  intros Ha Hb. unfold Structures.same_key. rewrite equals_key by assumption.
  case_bool_decide as K; [|apply andb_false_r].
  now rewrite (names_hash a b Ha Hb K), Z.eqb_refl.
Qed.

Lemma isSymbol_key n : names n -> isSymbol h n = match key h n with Some (KSymbol _) => true | _ => false end.
Proof.
  intros Hn. unfold isSymbol. destruct (key_cases n Hn) as [(s & _ & -> & Hs)|(-> & -> & ->)]; [|reflexivity].
  destruct (hasAtomicString n); auto.
Qed.

End Names.
End Names.

(** * What a store of structures promises

    The properties of a structure are an ordered list of keys with their
    descriptors.  An operation on a structure may consume it, unless it is
    shared (a node of the transition tree, or known to an inline cache); every
    other structure keeps its properties, and the result is a structure nobody
    else has, or a shared one. *)
Module StructureSpec.
Import Heap Names Structures.

Abbreviation View := (list (option Key * Z)).

Fixpoint position (v : View) (k : option Key) : option nat :=
  match v with
  | [] => None
  | p :: v => if decide (p.1 = k) then Some 0%nat else S <$> position v k
  end.
Definition view_of (h : heap) (l : list ObjectStructureItem) : View :=
  (fun p => (key h (m_propertyName p), m_descriptor p)) <$> l.

Lemma view_of_cons h p l :
  view_of h (p :: l) = (key h (m_propertyName p), m_descriptor p) :: view_of h l.
Proof. reflexivity. Qed.
Lemma position_cons p v k :
  position (p :: v) k = if decide (p.1 = k) then Some 0%nat else S <$> position v k.
Proof. reflexivity. Qed.

Lemma position_app v w k :
  position (v ++ w) k = match position v k with
                        | Some i => Some i
                        | None => Nat.add (length v) <$> position w k
                        end.
Proof.
  induction v as [|p v IH]; cbn; [now destruct (position w k)|].
  destruct (decide (p.1 = k)); [reflexivity|]. rewrite IH.
  destruct (position v k); cbn; [reflexivity|]. now destruct (position w k).
Qed.

Lemma property_position_Some v k i : position v k = Some i -> exists d, v !! i = Some (k, d).
Proof.
  revert i. induction v as [|[k' d] v IH]; cbn; intros i H; [discriminate|].
  destruct (decide (k' = k)) as [->|]; [injection H as <-; eauto|].
  destruct (position v k) as [j|]; cbn in *; [|discriminate]. injection H as <-. now apply IH.
Qed.

Lemma position_lt v k i : position v k = Some i -> (i < length v)%nat.
Proof. intros H. destruct (property_position_Some _ _ _ H) as [d L]. now apply lookup_lt_Some in L. Qed.

Lemma property_position_None v k : position v k = None <-> k ∉ v.*1.
Proof.
  induction v as [|p v IH]; cbn; [split; [intros _; apply not_elem_of_nil|reflexivity]|].
  rewrite not_elem_of_cons. destruct (decide (p.1 = k)) as [<-|N].
  - split; [discriminate|tauto].
  - destruct (position v k); cbn; split; try discriminate; intuition congruence.
Qed.

(** Changing a descriptor in place does not move a key. *)
Lemma position_update v i k d k' : v.*1 !! i = Some k -> position (<[i := (k, d)]> v) k' = position v k'.
Proof.
  revert i. induction v as [|[k0 d0] v IH]; intros [|i] H; cbn in *; try discriminate.
  - injection H as ->. reflexivity.
  - now rewrite IH.
Qed.

(** ** The interface *)

Class StructureOps (St : Type) := {
  st_find : St -> nat -> Z -> result (St * option nat);
  st_properties : St -> nat -> result (list ObjectStructureItem);
  st_hasIndex : St -> nat -> bool;
  st_add : St -> nat -> Z -> Z -> result (St * nat);
  st_remove : St -> nat -> nat -> result (St * nat);
  st_replace : St -> nat -> nat -> Z -> result (St * nat);
  st_convert : St -> nat -> result (St * nat);
  st_mark : St -> nat -> result St
}.

(** How the structures of a store relate to those after an operation on [i]. *)
Definition evolves {St} (view : St -> nat -> option View) (shared : St -> nat -> bool)
    (s : St) (i : nat) (s' : St) : Prop :=
  forall k v, view s k = Some v -> k <> i \/ shared s i = true ->
  view s' k = Some v /\ (shared s k = true -> shared s' k = true).

Definition result_of {St} (view : St -> nat -> option View) (shared : St -> nat -> bool)
    (s s' : St) (j : nat) (v : View) : Prop :=
  view s' j = Some v /\ (view s j = None \/ shared s' j = true).

Class StructureLaws (h : heap) (outside : bool) (names : Z -> Prop) (St : Type)
    `{StructureOps St} := {
  st_ok : St -> Prop;
  st_view : St -> nat -> option View;
  st_shared : St -> nat -> bool;
  st_distinct s i v : st_ok s -> st_view s i = Some v -> NoDup v.*1;
  st_find_ok s i v n : st_ok s -> st_view s i = Some v -> names n ->
    exists s', st_find s i n = Ok (s', position v (key h n)) /\ st_ok s' /\
    (forall k, st_view s' k = st_view s k /\ st_shared s' k = st_shared s k);
  st_properties_ok s i v : st_ok s -> st_view s i = Some v ->
    exists l, st_properties s i = Ok l /\ v = view_of h l /\
    Forall (fun p => names (m_propertyName p)) l /\
    (st_hasIndex s i = false ->
     Forall (fun p => PropertyName.isIndexString h outside (m_propertyName p) = false) l);
  st_add_ok s i v n d : st_ok s -> st_view s i = Some v -> names n -> position v (key h n) = None ->
    exists s' j, st_add s i n d = Ok (s', j) /\ st_ok s' /\
    evolves st_view st_shared s i s' /\
    result_of st_view st_shared s s' j (v ++ [(key h n, d)]);
  st_remove_ok s i v idx : st_ok s -> st_view s i = Some v -> (idx < length v)%nat ->
    exists s' j, st_remove s i idx = Ok (s', j) /\ st_ok s' /\
    evolves st_view st_shared s i s' /\
    result_of st_view st_shared s s' j (take idx v ++ drop (S idx) v);
  st_replace_ok s i v idx k d d' : st_ok s -> st_view s i = Some v -> v !! idx = Some (k, d) ->
    exists s' j, st_replace s i idx d' = Ok (s', j) /\ st_ok s' /\
    evolves st_view st_shared s i s' /\
    result_of st_view st_shared s s' j (<[idx := (k, d')]> v);
  st_convert_ok s i v : st_ok s -> st_view s i = Some v ->
    exists s' j, st_convert s i = Ok (s', j) /\ st_ok s' /\
    (forall k w, st_view s k = Some w -> st_view s' k = Some w /\ (st_shared s k = true -> st_shared s' k = true)) /\
    st_view s' j = Some v /\ (st_view s j = None \/ j = i);
  st_mark_ok s i v : st_ok s -> st_view s i = Some v ->
    exists s', st_mark s i = Ok s' /\ st_ok s' /\ st_shared s' i = true /\
    (forall k, st_view s' k = st_view s k /\ (st_shared s k = true -> st_shared s' k = true))
}.

End StructureSpec.

(** * The store implements the interface *)
Module StructureFacts.
Import Heap PropertyName Names Structures StructureSpec.

Section Facts.
Context (h : heap) (outside : bool) (natives : gmap Z StructureDescriptor.NativeGetterSetterData)
  (emptyName : Z) (names : Z -> Prop) `{NameSpace h names}.
Context (names_empty : names emptyName).

Notation vw := (view_of h).
Notation pos l n := (position (vw l) (key h n)).
Notation named := (Forall (fun p => names (m_propertyName p))).

Definition view (s : Store) (id : nat) : option View := vw <$> (s !! id ≫= properties_of).
Definition shared (s : Store) (id : nat) : bool :=
  match s !! id with Some x => inTransitionMode x || m_isReferencedByInlineCache x | None => false end.

(** ** The invariant *)

Definition flags_ok (x : ObjectStructure) (l : list ObjectStructureItem) : Prop :=
  (m_hasIndexPropertyName x = false ->
   Forall (fun p => isIndexString h outside (m_propertyName p) = false) l) /\
  (m_hasSymbolPropertyName x = false -> Forall (fun p => isSymbol h (m_propertyName p) = false) l) /\
  match body x with
  | WithMap _ _ => True
  | _ => m_hasNonAtomicPropertyName x = false -> Forall (fun p => hasAtomicString (m_propertyName p) = true) l
  end.

Definition cache_ok (l : list ObjectStructureItem) (n i : Z) : Prop :=
  names n /\ i = match pos l n with Some j => Z.of_nat j | None => NotFound16 end.

Definition map_ok (l : list ObjectStructureItem) (m : PropertyNameMapWithCache) : Prop :=
  Forall (fun e => names e.1) (entries m) /\
  (forall n, names n -> map_lookup h (entries m) n = pos l n) /\
  names (lastItem m).1 /\ (lastItem m).2 = pos l (lastItem m).1.

Definition tree_node (s : Store) (j : nat) (l : list ObjectStructureItem) : Prop :=
  exists y, s !! j = Some y /\ inTransitionMode y = true /\ properties_of y = Some l.
Definition transition_ok (s : Store) (l : list ObjectStructureItem) (t : TransitionItem) : Prop :=
  names (t_propertyName t) /\
  tree_node s (t_structure t) (l ++ [mkItem (t_propertyName t) (t_descriptor t)]).
Definition table_ok (s : Store) (l : list ObjectStructureItem) (table : TransitionTable) : Prop :=
  match table with
  | TableVector b _ => Forall (transition_ok s l) b
  | TableMap b => Forall (transition_ok s l) b
  end.

Definition body_ok (s : Store) (x : ObjectStructure) (l : list ObjectStructureItem) : Prop :=
  match body x with
  | WithoutTransition _ n i => (length l <= ACCESS_CACHE_BUILD_MIN_SIZE)%nat /\ (l = [] \/ cache_ok l n i)
  | WithTransition _ table => (length l <= TRANSITION_MODE_MAX_SIZE)%nat /\ table_ok s l table
  | WithMap _ m => match m with Some m => map_ok l m | None => True end
  end.

Record structure_ok (s : Store) (x : ObjectStructure) (l : list ObjectStructureItem) : Prop := {
  ok_named : named l;
  ok_distinct : NoDup (vw l).*1;
  ok_flags : flags_ok x l;
  ok_body : body_ok s x l
}.

Definition store_ok (s : Store) : Prop :=
  forall id x l, s !! id = Some x -> properties_of x = Some l -> structure_ok s x l.

(** ** Searching *)

Lemma view_of_app l k : vw (l ++ k) = vw l ++ vw k.
Proof. apply fmap_app. Qed.
Lemma view_length l : length (vw l) = length l.
Proof. apply length_fmap. Qed.

Lemma find_index_spec (f : Z -> bool) k l i :
  named l -> (forall n, names n -> n ∈ m_propertyName <$> l -> f n = bool_decide (key h n = k)) ->
  find_index f l i = Nat.add i <$> position (vw l) k.
Proof.
  revert i. induction l as [|p l IH]; intros i Hn Hf; [reflexivity|].
  rewrite view_of_cons, position_cons. cbn [find_index fst].
  apply Forall_cons in Hn as [Hp Hn]. rewrite Hf by (assumption || set_solver).
  rewrite IH by (assumption || (intros; apply Hf; [assumption|set_solver])).
  case_bool_decide as E; [rewrite decide_True by assumption; csimpl; now rewrite Nat.add_0_r|].
  rewrite decide_False by assumption. destruct (position (vw l) k); csimpl; [f_equal; lia|reflexivity].
Qed.

Lemma position_not_symbol l p :
  named l -> Forall (fun p => isSymbol h (m_propertyName p) = false) l ->
  position (vw l) (Some (KSymbol p)) = None.
Proof.
  intros Hn Hs. apply property_position_None. intros E. apply list_elem_of_fmap in E as [[k d] [E1 E2]].
  apply list_elem_of_fmap in E2 as [it [E2 E3]]. injection E2 as -> ->. cbn in E1.
  rewrite Forall_forall in Hn, Hs. specialize (Hs it E3). rewrite (isSymbol_key h names) in Hs by auto.
  now rewrite <- E1 in Hs.
Qed.

Lemma search_spec x l n :
  named l -> flags_ok x l -> match body x with WithMap _ _ => False | _ => True end -> names n ->
  search h x l n = pos l n.
Proof.
  intros Hl (_ & Hs & Ha) Hb Hn. unfold search.
  assert (forall k : option nat, Nat.add 0 <$> k = k) as Add0 by (now intros []).
  destruct (hasAtomicString n) eqn:En.
  - destruct (m_hasNonAtomicPropertyName x) eqn:Ex; cbn [negb].
    + rewrite (find_index_spec _ (key h n)); [apply Add0|assumption|].
      intros m Hm _. now apply (equals_atomic_key h names).
    + assert (Forall (fun p => hasAtomicString (m_propertyName p) = true) l) as Hat
        by (destruct (body x); intuition).
      rewrite (find_index_spec _ (key h n)); [apply Add0|assumption|].
      intros m Hm Em. apply list_elem_of_fmap in Em as [it [-> Em]].
      rewrite Forall_forall in Hat. specialize (Hat it Em). rewrite <- (equals_key h names) by assumption.
      unfold equals. now rewrite Hat, En.
  - assert (forall l', named l' -> find_index (fun m => equals h m n) l' 0 = pos l' n) as F.
    { intros l' Hl'. rewrite (find_index_spec _ (key h n)); [apply Add0|assumption|].
      intros m Hm _. now apply (equals_key h names). }
    destruct (isSymbol h n) eqn:Es; [|now apply F].
    destruct (m_hasSymbolPropertyName x) eqn:Ex; [now apply F|].
    rewrite (isSymbol_key h names) in Es by assumption.
    destruct (key h n) as [[]|] eqn:Ek; try discriminate.
    symmetry. apply position_not_symbol; auto.
Qed.

(** ** The map of a structure *)

Lemma view_of_snoc l n d : vw (l ++ [mkItem n d]) = vw l ++ [(key h n, d)].
Proof. apply view_of_app. Qed.

Lemma pos_snoc l n d k : position (vw (l ++ [mkItem n d])) k =
  match position (vw l) k with
  | Some i => Some i
  | None => if decide (key h n = k) then Some (length l) else None
  end.
Proof.
  rewrite view_of_snoc, position_app, view_length, position_cons. cbn [fst].
  destruct (position (vw l) k); [reflexivity|]. destruct (decide _); csimpl; [now rewrite Nat.add_0_r|reflexivity].
Qed.

Lemma map_lookup_app l n i name : Forall (fun e => names e.1) l -> names n -> names name ->
  map_lookup h (l ++ [(n, i)]) name =
  match map_lookup h l name with
  | Some j => Some j
  | None => if decide (key h n = key h name) then Some i else None
  end.
Proof.
  intros Hl Hn Hname. induction Hl as [|[m j] l Hm Hl IH]; cbn.
  - rewrite (same_key_spec h names) by assumption.
    case_bool_decide; [now rewrite decide_True|now rewrite decide_False].
  - now destruct (same_key h m name).
Qed.

Lemma map_insert_ok l m n d : map_ok l m -> names n -> pos l n = None ->
  map_ok (l ++ [mkItem n d]) (map_insert h m n (length l)).
Proof.
  intros (He & Hm & Hln & Hli) Hn Hp. unfold map_insert. rewrite (Hm n Hn), Hp. repeat split; cbn [entries lastItem fst snd].
  - apply Forall_app. split; [assumption|]. now repeat constructor.
  - intros name Hname. now rewrite map_lookup_app, Hm, pos_snoc by assumption.
  - assumption.
  - now rewrite pos_snoc, Hp, decide_True.
Qed.

Lemma fill_map_ok l2 l1 m : map_ok l1 m -> named l2 -> NoDup (vw (l1 ++ l2)).*1 ->
  map_ok (l1 ++ l2) (fill_map h l2 (length l1) m).
Proof.
  revert l1 m. induction l2 as [|[n d] l2 IH]; intros l1 m Hm Hn Hd; [now rewrite app_nil_r|].
  apply Forall_cons in Hn as [Hp Hn]. cbn [fill_map m_propertyName] in *.
  rewrite cons_middle, app_assoc in Hd |- *.
  replace (S (length l1)) with (length (l1 ++ [mkItem n d])) by (rewrite length_app; cbn; lia).
  apply IH; [|assumption|assumption]. apply map_insert_ok; [assumption|assumption|].
  apply property_position_None. rewrite !view_of_app, !fmap_app in Hd. apply NoDup_app in Hd as [Hd _].
  apply NoDup_app in Hd as (_ & Hd & _). intros E. apply (Hd _ E). cbn. now left.
Qed.

Lemma create_map_ok l : named l -> NoDup (vw l).*1 -> map_ok l (createPropertyNameMap h emptyName l).
Proof.
  intros Hn Hd. apply (fill_map_ok l [] (new_map emptyName)); [|assumption|assumption].
  repeat split; cbn; auto.
Qed.

Lemma property_map_find_ok l m n : map_ok l m -> names n ->
  exists m', map_find h m n = (m', pos l n) /\ map_ok l m'.
Proof.
  intros (He & Hm & Hln & Hli) Hn. unfold map_find. rewrite (equals_key h names) by assumption.
  case_bool_decide as E.
  - exists m. rewrite Hli, E. repeat split; assumption.
  - eexists. rewrite (Hm n Hn). repeat split; cbn; auto.
Qed.

(** ** Finding a property *)

Lemma cache_of_search l n : named l -> names n -> (length l <= ACCESS_CACHE_BUILD_MIN_SIZE)%nat ->
  cache_ok l n (match pos l n with Some i => wrapu 16 (Z.of_nat i) | None => NotFound16 end).
Proof.
  intros Hl Hn Hs. split; [assumption|]. destruct (pos l n) as [i|] eqn:E; [|reflexivity].
  apply position_lt in E. rewrite view_length in E. unfold ACCESS_CACHE_BUILD_MIN_SIZE in Hs.
  apply wrapu_id. unfold in_u. lia.
Qed.

(** What an operation on the caches of a structure leaves unchanged. *)
Definition same_structure (x x' : ObjectStructure) : Prop :=
  properties_of x' = properties_of x /\ inTransitionMode x' = inTransitionMode x /\
  m_isReferencedByInlineCache x' = m_isReferencedByInlineCache x /\
  m_hasIndexPropertyName x' = m_hasIndexPropertyName x.

Lemma find_in_ok s x l n : properties_of x = Some l -> structure_ok s x l -> names n ->
  exists x', find_in h emptyName x n = Ok (x', pos l n) /\ same_structure x x' /\ structure_ok s x' l.
Proof.
  intros Hp [Hl Hd Hf Hb] Hn. pose proof (search_spec x l n Hl Hf) as Hs.
  unfold find_in, find_WithoutTransition, find_WithTransition, find_WithMap, properties_of, flags_ok, body_ok in *.
  destruct (body x) as [ps c i|ps t|ps m] eqn:Eb.
  - subst ps. cbn. destruct Hb as [Hlen Hc].
    destruct (negb (length l =? 0)%nat && equals h c n) eqn:E.
    + apply andb_true_iff in E as [E1 E2].
      destruct Hc as [->|[Hcn Hci]]; [discriminate|]. rewrite (equals_key h names) in E2 by assumption.
      apply bool_decide_eq_true in E2. rewrite <- E2. exists x.
      assert (same_structure x x) as Hsame by (unfold same_structure; auto).
      assert (structure_ok s x l) as Hok.
      { split; [assumption..| |]; unfold flags_ok, body_ok; rewrite Eb; [assumption|]. split; [assumption|]. right. now split. }
      destruct (pos l c) as [j|] eqn:Ej.
      * destruct (property_position_Some _ _ _ Ej) as [d Hj]. unfold view_of in Hj. rewrite list_lookup_fmap in Hj.
        apply position_lt in Ej. rewrite view_length in Ej. unfold ACCESS_CACHE_BUILD_MIN_SIZE in Hlen.
        destruct (i =? NotFound16) eqn:F; Zbool; [unfold NotFound16 in F; lia|].
        rewrite Hci, Nat2Z.id. destruct (l !! j) eqn:Elj; [|discriminate]. cbn. auto.
      * destruct (i =? NotFound16) eqn:F; Zbool; [auto|contradiction].
    + eexists. rewrite Hs by auto. split; [reflexivity|]. split; [unfold same_structure; cbn; unfold properties_of, inTransitionMode; now rewrite Eb|].
      split; [assumption..|exact Hf|]. unfold body_ok. cbn. split; [assumption|]. right. now apply cache_of_search.
  - injection Hp as ->. exists x. rewrite Hs by auto. split; [reflexivity|].
    split; [unfold same_structure; auto|]. split; [assumption..| |]; unfold flags_ok, body_ok; now rewrite Eb.
  - subst ps. cbn. set (m' := match m with Some m => m | None => createPropertyNameMap h emptyName l end).
    assert (map_ok l m') as Hm' by (subst m'; destruct m; [assumption|now apply create_map_ok]).
    destruct (property_map_find_ok l m' n Hm' Hn) as (m'' & -> & Hm''). eexists. split; [reflexivity|].
    split; [unfold same_structure; cbn; unfold properties_of, inTransitionMode; now rewrite Eb|].
    split; [assumption..|exact Hf|exact Hm''].
Qed.

(** ** Stores *)

(** Nodes of the transition tree keep their properties. *)
Definition tree_le (s s' : Store) : Prop := forall j l, tree_node s j l -> tree_node s' j l.

Lemma structure_ok_mono s s' x l : tree_le s s' -> structure_ok s x l -> structure_ok s' x l.
Proof.
  intros Hle [Hl Hd Hf Hb]. split; [assumption..|]. unfold body_ok, table_ok in *.
  destruct (body x) as [| ? t |]; [assumption| |assumption]. destruct Hb as [Hlen Hb]. split; [assumption|].
  assert (forall b, Forall (transition_ok s l) b -> Forall (transition_ok s' l) b) as M.
  { intros b Hb'. eapply Forall_impl; [exact Hb'|]. intros t' [? ?]. split; [assumption|]. now apply Hle. }
  destruct t; now apply M.
Qed.

Lemma tree_le_app s x : tree_le s (s ++ [x]).
Proof. intros j l (y & E & T). exists y. split; [now apply lookup_app_l_Some|assumption]. Qed.

Lemma tree_le_insert s id x x' : s !! id = Some x ->
  (inTransitionMode x = true -> inTransitionMode x' = true /\ properties_of x' = properties_of x) ->
  tree_le s (<[id := x']> s).
Proof.
  intros Hx Hc j l (y & E & T & P). destruct (decide (j = id)) as [->|N].
  - rewrite Hx in E. injection E as <-. destruct (Hc T) as [T' P']. exists x'.
    rewrite list_lookup_insert_eq by (eapply lookup_lt_Some; eassumption). repeat split; congruence.
  - exists y. now rewrite list_lookup_insert_ne by congruence.
Qed.

Lemma store_insert s id x x' : store_ok s -> s !! id = Some x ->
  (inTransitionMode x = true -> inTransitionMode x' = true /\ properties_of x' = properties_of x) ->
  (forall l, properties_of x' = Some l -> structure_ok s x' l) ->
  store_ok (<[id := x']> s).
Proof.
  intros Hs Hx Hc Hok j y l Hj Hl. pose proof (tree_le_insert s id x x' Hx Hc) as Hle.
  destruct (decide (j = id)) as [->|N].
  - rewrite list_lookup_insert_eq in Hj by (eapply lookup_lt_Some; eassumption). injection Hj as <-.
    eapply structure_ok_mono; eauto.
  - rewrite list_lookup_insert_ne in Hj by congruence. eapply structure_ok_mono; [exact Hle|eauto].
Qed.

Lemma store_app s x l : store_ok s -> properties_of x = Some l -> structure_ok s x l -> store_ok (s ++ [x]).
Proof.
  intros Hs Hx Hok j y k Hj Hk. pose proof (tree_le_app s x) as Hle.
  apply lookup_app_Some in Hj as [Hj|[Hj1 Hj2]]; [eapply structure_ok_mono; [exact Hle|eauto]|].
  apply list_lookup_singleton_Some in Hj2 as [_ <-]. rewrite Hk in Hx. injection Hx as ->.
  eapply structure_ok_mono; eauto.
Qed.

Lemma view_insert_ne s id x' k : k <> id -> view (<[id := x']> s) k = view s k.
Proof. intros N. unfold view. now rewrite list_lookup_insert_ne by congruence. Qed.
Lemma shared_insert_ne s id x' k : k <> id -> shared (<[id := x']> s) k = shared s k.
Proof. intros N. unfold shared. now rewrite list_lookup_insert_ne by congruence. Qed.

Lemma view_Some s k v : view s k = Some v <->
  exists x l, s !! k = Some x /\ properties_of x = Some l /\ v = vw l.
Proof.
  unfold view. split.
  - destruct (s !! k) as [x|] eqn:E; cbn; [|discriminate].
    destruct (properties_of x) as [l|] eqn:El; cbn; [|discriminate]. intros [= <-]. eauto 6.
  - intros (x & l & -> & P & ->). cbn. now rewrite P.
Qed.

Lemma app_keeps s x k v : view s k = Some v -> view (s ++ [x]) k = Some v /\ shared (s ++ [x]) k = shared s k.
Proof.
  intros Hv. apply view_Some in Hv as (y & l & Hy & Hl & ->).
  assert ((s ++ [x]) !! k = Some y) as E by now apply lookup_app_l_Some.
  unfold shared. rewrite E, Hy. split; [|reflexivity]. apply view_Some. eauto.
Qed.

(** Allocating a structure that takes over from [id]. *)
Lemma take_over_length s id x : length (take_over s id x) = length s.
Proof. unfold take_over. destruct (m_isReferencedByInlineCache x); [reflexivity|apply length_insert]. Qed.

Lemma stolen_transition x : inTransitionMode x = true -> stolen x = x.
Proof. unfold stolen, inTransitionMode. now destruct (body x). Qed.

Lemma take_over_keeps s id x k v : s !! id = Some x -> view s k = Some v -> k <> id \/ shared s id = true ->
  view (take_over s id x) k = Some v /\ shared (take_over s id x) k = shared s k.
Proof.
  intros Hx Hk Hc. unfold take_over. destruct (m_isReferencedByInlineCache x) eqn:R; [auto|].
  destruct (decide (k = id)) as [->|N].
  - destruct Hc as [Hc|Hc]; [contradiction|]. unfold shared in Hc. rewrite Hx, R, orb_false_r in Hc.
    rewrite (stolen_transition x Hc), list_insert_id by assumption. auto.
  - rewrite view_insert_ne, shared_insert_ne by assumption. auto.
Qed.

Lemma take_over_ok s id x : store_ok s -> s !! id = Some x -> store_ok (take_over s id x) /\ tree_le s (take_over s id x).
Proof.
  intros Hs Hx. unfold take_over. destruct (m_isReferencedByInlineCache x) eqn:R; [split; [assumption|now intros ???]|].
  assert (inTransitionMode x = true -> inTransitionMode (stolen x) = true /\ properties_of (stolen x) = properties_of x)
    as Hc by (intros T; now rewrite (stolen_transition x T)).
  split; [|now apply (tree_le_insert s id x)]. apply (store_insert s id x); [assumption..|].
  intros l Hl. unfold stolen, properties_of in Hl. destruct (body x) eqn:Eb; cbn in Hl; try discriminate.
  assert (stolen x = x) as -> by (apply stolen_transition; unfold inTransitionMode; now rewrite Eb).
  apply (Hs id); [assumption|]. unfold properties_of. rewrite Eb in Hl |- *. exact Hl.
Qed.

Lemma take_over_alloc s id x new l : store_ok s -> s !! id = Some x ->
  properties_of new = Some l -> structure_ok s new l ->
  exists s' j, alloc (take_over s id x) new = (s', j) /\ store_ok s' /\
  evolves view shared s id s' /\ result_of view shared s s' j (vw l).
Proof.
  intros Hs Hx Hl Hok. destruct (take_over_ok s id x Hs Hx) as [Hs' Hle].
  eexists _, _. split; [reflexivity|]. split; [|split; [|split]].
  - apply (store_app _ _ l); [assumption..|]. exact (structure_ok_mono _ _ _ _ Hle Hok).
  - intros k v Hk Hc. destruct (take_over_keeps s id x k v Hx Hk Hc) as [Hk' Sk].
    destruct (app_keeps _ new k v Hk') as [Hk'' Sk']. rewrite Sk', Sk. auto.
  - apply view_Some. exists new, l. split; [now apply list_lookup_middle|auto].
  - left. unfold view. rewrite lookup_ge_None_2 by (rewrite take_over_length; lia). reflexivity.
Qed.

(** ** Making structures *)

Definition covers (ix sy na : bool) (l : list ObjectStructureItem) : Prop :=
  (ix = false -> Forall (fun p => isIndexString h outside (m_propertyName p) = false) l) /\
  (sy = false -> Forall (fun p => isSymbol h (m_propertyName p) = false) l) /\
  (na = false -> Forall (fun p => hasAtomicString (m_propertyName p) = true) l).

Lemma last_position l p : named l -> NoDup (vw l).*1 -> last l = Some p ->
  pos l (m_propertyName p) = Some (length l - 1)%nat.
Proof.
  intros Hn Hd Hl. destruct p as [n d]. apply last_Some in Hl as [l' ->]. cbn [m_propertyName].
  rewrite pos_snoc, decide_True by reflexivity. rewrite view_of_app, fmap_app in Hd.
  apply NoDup_app in Hd as (_ & Hd & _).
  destruct (pos l' n) as [i|] eqn:E.
  - exfalso. destruct (property_position_Some _ _ _ E) as [d' Hi]. apply (Hd (key h n)); [|cbn; now left].
    apply list_elem_of_fmap. exists (key h n, d'). split; [reflexivity|]. eapply list_elem_of_lookup_2, Hi.
  - f_equal. rewrite length_app. cbn. lia.
Qed.

Lemma new_WithoutTransition_ok s ps ix sy na en :
  named ps -> NoDup (vw ps).*1 -> (length ps <= ACCESS_CACHE_BUILD_MIN_SIZE)%nat -> covers ix sy na ps ->
  properties_of (new_WithoutTransition emptyName ps ix sy na en) = Some ps /\
  structure_ok s (new_WithoutTransition emptyName ps ix sy na en) ps.
Proof.
  intros Hn Hd Hlen (Hi & Hs & Ha). unfold new_WithoutTransition.
  destruct (last ps) as [p|] eqn:El; (split; [reflexivity|]); (split; [assumption..|now split_and!|]);
    unfold body_ok; cbn; split; try assumption.
  - right. assert (names (m_propertyName p)) as Hp.
    { rewrite Forall_forall in Hn. apply Hn. apply last_Some in El as [? ->]. apply elem_of_app. right. now left. }
    split; [assumption|]. rewrite (last_position _ _ Hn Hd El).
    assert (length ps <> 0%nat) by (destruct ps; [discriminate|cbn; lia]).
    unfold ACCESS_CACHE_BUILD_MIN_SIZE in Hlen. rewrite wrapu_id by (unfold in_u; lia). lia.
  - left. now apply last_None.
Qed.

Lemma new_WithTransition_ok s ps ix sy na en :
  named ps -> NoDup (vw ps).*1 -> (length ps <= TRANSITION_MODE_MAX_SIZE)%nat -> covers ix sy na ps ->
  properties_of (new_WithTransition ps ix sy na en) = Some ps /\
  structure_ok s (new_WithTransition ps ix sy na en) ps.
Proof.
  intros Hn Hd Hlen (Hi & Hs & Ha). split; [reflexivity|]. split; [assumption..|now split_and!|].
  unfold body_ok. cbn. auto.
Qed.

Lemma new_WithMap_ok s ps m ix sy na en :
  named ps -> NoDup (vw ps).*1 -> covers ix sy na ps ->
  match m with Some m => map_ok ps m | None => True end ->
  properties_of (new_WithMap ps m ix sy en) = Some ps /\ structure_ok s (new_WithMap ps m ix sy en) ps.
Proof.
  intros Hn Hd (Hi & Hs & Ha) Hm. split; [reflexivity|]. split; [assumption..|now split_and!|assumption].
Qed.

Lemma added_covers x l n d : flags_ok x l ->
  let '(ix, sy, na, en) := added_flags h outside natives x n d in
  covers ix sy (match body x with WithMap _ _ => true | _ => na end) (l ++ [mkItem n d]).
Proof.
  intros (Hi & Hs & Ha). unfold added_flags.
  assert (forall (f : ObjectStructureItem -> bool) (b0 b : bool),
    (b0 = false -> Forall (fun p => f p = false) l) -> (if b0 then true else f (mkItem n d)) = false ->
    Forall (fun p => f p = false) (l ++ [mkItem n d])) as G.
  { intros f b0 _ Hl Hf. destruct b0; [discriminate|]. apply Forall_app. split; [auto|]. now repeat constructor. }
  split_and!.
  - intros E. eapply (G (fun p => isIndexString h outside (m_propertyName p)) _ true Hi), E.
  - intros E. eapply (G (fun p => isSymbol h (m_propertyName p)) _ true Hs), E.
  - destruct (body x); try discriminate; intros E;
      (eapply Forall_impl; [eapply (G (fun p => negb (hasAtomicString (m_propertyName p))) _ true);
                            [|exact E]|intros p Hp; now apply negb_false_iff]);
      intros F; (eapply Forall_impl; [exact (Ha F)|]); intros p Hp; cbn; now apply negb_false_iff.
Qed.

Lemma flags_of_covers l : let '(ix, sy, na, en) := flags_of h outside natives l in covers ix sy na l.
Proof.
  unfold flags_of.
  assert (forall (acc : bool * bool * bool * bool) l1, let '(ix, sy, na, en) := acc in covers ix sy na l1 ->
    let '(ix, sy, na, en) := fold_left (fun '(ix, sy, na, en) p =>
       (ix || isIndexString h outside (m_propertyName p), sy || isSymbol h (m_propertyName p),
        na || negb (hasAtomicString (m_propertyName p)),
        en || StructureDescriptor.isEnumerable natives (m_descriptor p))) l acc in covers ix sy na (l1 ++ l)) as G.
  { induction l as [|p l IH]; intros [[[ix sy] na] en] l1; cbn [fold_left]; [now rewrite app_nil_r|].
    intros (Hi & Hs & Ha). rewrite cons_middle, app_assoc. refine (IH (_, _, _, _) (l1 ++ [p]) _). unfold covers.
    split_and!; intros E; apply orb_false_iff in E as [E1 E2]; apply Forall_app; (split; [auto|]);
      repeat constructor; now rewrite ?negb_false_iff in E2. }
  apply (G (false, false, false, false) []). now split_and!.
Qed.

(** ** Distinct keys *)

Lemma NoDup_snoc l n d : NoDup (vw l).*1 -> pos l n = None -> NoDup (vw (l ++ [mkItem n d])).*1.
Proof.
  intros Hd Hp. rewrite view_of_snoc, fmap_app. apply NoDup_app. split; [assumption|]. split.
  - intros k Hk E. cbn in E. apply list_elem_of_singleton in E as ->. now apply property_position_None in Hp.
  - apply NoDup_singleton.
Qed.

Lemma view_remove_at i l : vw (remove_at i l) = take i (vw l) ++ drop (S i) (vw l).
Proof. unfold remove_at, view_of. now rewrite fmap_app, <- fmap_take, <- fmap_drop. Qed.

Lemma remove_at_ok i l : named l -> NoDup (vw l).*1 -> named (remove_at i l) /\ NoDup (vw (remove_at i l)).*1.
Proof.
  intros Hn Hd. unfold remove_at. rewrite <- delete_take_drop. split; [now apply Forall_delete|].
  eapply sublist_NoDup; [exact Hd|]. apply fmap_sublist, fmap_sublist, sublist_delete.
Qed.

Lemma replace_ok i l p d : named l -> NoDup (vw l).*1 -> l !! i = Some p ->
  let l' := <[i := mkItem (m_propertyName p) d]> l in
  named l' /\ NoDup (vw l').*1 /\ vw l' = <[i := (key h (m_propertyName p), d)]> (vw l) /\
  (forall k, position (vw l') k = position (vw l) k) /\
  m_propertyName <$> l' = m_propertyName <$> l.
Proof.
  intros Hn Hd Hi l'.
  assert (vw l' = <[i := (key h (m_propertyName p), d)]> (vw l)) as Ev by (unfold l', view_of; now rewrite list_fmap_insert).
  assert ((vw l).*1 !! i = Some (key h (m_propertyName p))) as Ek by (unfold view_of; now rewrite !list_lookup_fmap, Hi).
  split_and!; try assumption.
  - apply Forall_insert; [assumption|]. rewrite Forall_forall in Hn. cbn. apply (Hn p). eapply list_elem_of_lookup_2, Hi.
  - rewrite Ev, list_fmap_insert. cbn [fst]. now rewrite list_insert_id.
  - intros k. rewrite Ev. now apply position_update.
  - unfold l'. rewrite list_fmap_insert. cbn [m_propertyName]. apply list_insert_id. now rewrite list_lookup_fmap, Hi.
Qed.

(** ** The operations *)

Lemma add_moving_ok s id x l n d new : store_ok s -> s !! id = Some x ->
  properties_of new = Some (l ++ [mkItem n d]) -> structure_ok s new (l ++ [mkItem n d]) ->
  exists s' j, Ok (alloc (take_over s id x) new) = Ok (s', j) /\ store_ok s' /\
  evolves view shared s id s' /\ result_of view shared s s' j (vw l ++ [(key h n, d)]).
Proof.
  intros Hs Hx Hp Hok. destruct (take_over_alloc s id x new _ Hs Hx Hp Hok) as (s' & j & -> & H').
  rewrite view_of_snoc in H'. eauto.
Qed.

Lemma add_WithoutTransition_ok s id x l c i n d : store_ok s -> s !! id = Some x ->
  body x = WithoutTransition (Some l) c i -> names n -> pos l n = None ->
  exists s' j, add_WithoutTransition h outside natives emptyName s id x (Some l) n d = Ok (s', j) /\ store_ok s' /\
  evolves view shared s id s' /\ result_of view shared s s' j (vw l ++ [(key h n, d)]).
Proof.
  intros Hs Hx Hb Hn Hp. assert (properties_of x = Some l) as Hl by (unfold properties_of; now rewrite Hb).
  destruct (Hs id x l Hx Hl) as [Hnm Hd Hf _]. pose proof (added_covers x l n d Hf) as Hc.
  unfold add_WithoutTransition. cbn [defined mbind result_bind].
  destruct (added_flags h outside natives x n d) as [[[ix sy] na] en]. rewrite Hb in Hc.
  assert (named (l ++ [mkItem n d])) as Hnm' by (apply Forall_app; split; [assumption|now repeat constructor]).
  pose proof (NoDup_snoc l n d Hd Hp) as Hd'.
  destruct (_ <? length _)%nat eqn:E.
  - destruct (new_WithMap_ok s _ None ix sy na en Hnm' Hd' Hc I). now apply add_moving_ok.
  - apply Nat.ltb_ge in E. destruct (new_WithoutTransition_ok s _ ix sy na en Hnm' Hd' E Hc). now apply add_moving_ok.
Qed.

Lemma add_WithMap_ok s id x l m n d : store_ok s -> s !! id = Some x ->
  body x = WithMap (Some l) m -> names n -> pos l n = None ->
  exists s' j, add_WithMap h outside natives s id x (Some l) m n d = Ok (s', j) /\ store_ok s' /\
  evolves view shared s id s' /\ result_of view shared s s' j (vw l ++ [(key h n, d)]).
Proof.
  intros Hs Hx Hb Hn Hp. assert (properties_of x = Some l) as Hl by (unfold properties_of; now rewrite Hb).
  destruct (Hs id x l Hx Hl) as [Hnm Hd Hf Hbo]. pose proof (added_covers x l n d Hf) as Hc.
  unfold add_WithMap. cbn [defined mbind result_bind]. unfold body_ok in Hbo.
  destruct (added_flags h outside natives x n d) as [[[ix sy] na] en]. rewrite Hb in Hc, Hbo.
  assert (named (l ++ [mkItem n d])) as Hnm' by (apply Forall_app; split; [assumption|now repeat constructor]).
  pose proof (NoDup_snoc l n d Hd Hp) as Hd'. apply add_moving_ok; [assumption..|reflexivity|].
  apply (new_WithMap_ok s _ _ ix sy true en Hnm' Hd' Hc).
  destruct (m_isReferencedByInlineCache x); [exact I|]. destruct m; [|exact I]. now apply map_insert_ok.
Qed.

Lemma Forall_filter_head {A} (P Q : A -> Prop) `{forall x, Decision (Q x)} l x :
  Forall P l -> head (filter Q l) = Some x -> P x /\ Q x.
Proof.
  intros HP Hh. assert (x ∈ filter Q l) as E by (destruct (filter Q l); [discriminate|injection Hh as ->; now left]).
  apply list_elem_of_filter in E as [? E]. rewrite Forall_forall in HP. auto.
Qed.

Lemma find_transition_ok s l table n d j : table_ok s l table -> names n ->
  find_transition h table n d = Some j ->
  exists n', key h n' = key h n /\ tree_node s j (l ++ [mkItem n' d]).
Proof.
  intros Ht Hn Hf.
  assert (exists t, t_structure t = j /\ transition_ok s l t /\ same_transition h t n d = true) as (t & <- & [Htn Htt] & Hst).
  { unfold find_transition in Hf. destruct table as [b c|b]; cbn in Ht;
      apply fmap_Some in Hf as (t & Hf & ->); exists t;
      (destruct (Forall_filter_head _ _ _ _ Ht Hf) as [? Hq]; split_and!; [reflexivity|assumption|]).
    - assumption.
    - unfold same_transition_key in Hq. now apply andb_true_iff in Hq as [_ Hq]. }
  unfold same_transition in Hst. apply andb_true_iff in Hst as [Hd He].
  rewrite (equals_key h names) in He by assumption. apply bool_decide_eq_true in He.
  apply Z.eqb_eq in Hd. rewrite Hd in Htt. exists (t_propertyName t). auto.
Qed.

Lemma table_insert_ok s l b t : Forall (transition_ok s l) b -> transition_ok s l t ->
  Forall (transition_ok s l) (table_insert h b t).
Proof.
  intros Hb Ht. unfold table_insert. destruct (filter _ b); [|assumption].
  apply Forall_app. split; [assumption|]. now apply Forall_singleton.
Qed.

Lemma add_transition_ok s l table t : table_ok s l table -> transition_ok s l t ->
  exists table', add_transition h table t = Ok table' /\ table_ok s l table'.
Proof.
  intros Hb Ht. destruct table as [b c|b]; cbn in *; [|eexists; split; [reflexivity|now apply table_insert_ok]].
  destruct (_ <? _) eqn:E; Zbool.
  - eexists. split; [reflexivity|]. apply table_insert_ok; [|assumption].
    assert (forall acc, Forall (transition_ok s l) acc -> Forall (transition_ok s l) (fold_left (table_insert h) b acc)) as G.
    { clear E. induction Hb as [|t' b Ht' Hb IH]; intros acc Hacc; cbn; [assumption|]. apply IH. now apply table_insert_ok. }
    apply G. constructor.
  - set (c' := if _ <=? _ then _ else _).
    assert (Z.of_nat (length b) < c') as Hc'.
    { subst c'. destruct (c <=? Z.of_nat (length b) + 1) eqn:F; Zbool; [|lia].
      unfold computeVectorAllocateSize, TRANSITION_MAP_MIN_SIZE in *.
      destruct (Z.of_nat (length b) + 1 =? 0) eqn:F'; Zbool; [lia|].
      rewrite Z.shiftl_1_l. pose proof (Z.log2_spec (Z.of_nat (length b) + 1) ltac:(lia)) as Hlog.
      rewrite <- (Z.add_1_r (Z.log2 _)) in Hlog. lia. }
    apply Z.ltb_lt in Hc'. rewrite Hc'. eexists. split; [reflexivity|].
    cbn. apply Forall_app. split; [assumption|]. now apply Forall_singleton.
Qed.

Lemma take_over_transition s id x : s !! id = Some x -> inTransitionMode x = true -> take_over s id x = s.
Proof.
  intros Hx T. unfold take_over. rewrite stolen_transition, list_insert_id by assumption.
  now destruct (m_isReferencedByInlineCache x).
Qed.

(** Updating the caches or the transitions of a structure. *)
Lemma insert_same_view s id x x' k : s !! id = Some x -> properties_of x' = properties_of x ->
  view (<[id := x']> s) k = view s k.
Proof.
  intros Hx Hp. destruct (decide (k = id)) as [->|N]; [|now apply view_insert_ne].
  unfold view. rewrite list_lookup_insert_eq by (eapply lookup_lt_Some; eassumption). rewrite Hx. cbn. now rewrite Hp.
Qed.
Lemma insert_shared s id x x' k : s !! id = Some x ->
  (inTransitionMode x || m_isReferencedByInlineCache x = true ->
   inTransitionMode x' || m_isReferencedByInlineCache x' = true) ->
  shared s k = true -> shared (<[id := x']> s) k = true.
Proof.
  intros Hx Hp Hk. destruct (decide (k = id)) as [->|N]; [|now rewrite shared_insert_ne].
  unfold shared in *. rewrite list_lookup_insert_eq by (eapply lookup_lt_Some; eassumption). rewrite Hx in Hk. auto.
Qed.

(** Adding a node to the transition tree, and the transition to it. *)
Lemma add_node_ok s id x l table n d new : store_ok s -> s !! id = Some x ->
  body x = WithTransition l table -> names n ->
  properties_of new = Some (l ++ [mkItem n d]) -> structure_ok s new (l ++ [mkItem n d]) ->
  inTransitionMode new = true ->
  exists s' j, ('(s, j) ← Ok (alloc s new);
                table ← add_transition h table (mkTransition n d j);
                Ok (<[id := with_body x (WithTransition l table)]> s, j)) = Ok (s', j) /\ store_ok s' /\
  evolves view shared s id s' /\ result_of view shared s s' j (vw l ++ [(key h n, d)]).
Proof.
  intros Hs Hx Hb Hn Hp' Hok Hnt.
  assert (properties_of x = Some l) as Hl by (unfold properties_of; now rewrite Hb).
  assert (inTransitionMode x = true) as Ht by (unfold inTransitionMode; now rewrite Hb).
  cbn [alloc mbind result_bind].
  pose proof (store_app s new _ Hs Hp' Hok) as Hs1.
  pose proof (structure_ok_mono s _ x l (tree_le_app s new) (Hs id x l Hx Hl)) as [Hnm Hd Hf Hbo1].
  set (s1 := s ++ [new]) in *.
  assert (s1 !! length s = Some new) as Hnew by now apply list_lookup_middle.
  assert (s1 !! id = Some x) as Hx1 by now apply lookup_app_l_Some.
  unfold body_ok in Hbo1. rewrite Hb in Hbo1. destruct Hbo1 as [Hlen Htab1].
  destruct (add_transition_ok s1 l table (mkTransition n d (length s)) Htab1) as (table' & -> & Htab').
  { split; [exact Hn|]. now exists new. }
  cbn [mbind result_bind]. set (x' := with_body x (WithTransition l table')).
  assert (properties_of x' = properties_of x) as Hpx by (rewrite Hl; reflexivity).
  eexists _, _. split; [reflexivity|]. split; [|split; [|split]].
  - apply (store_insert s1 id x x' Hs1 Hx1); [auto|]. intros k Hk. injection Hk as <-.
    split; [assumption..| |]; [|split; assumption]. unfold flags_ok in *. rewrite Hb in Hf. exact Hf.
  - intros k v Hk _. destruct (app_keeps s new k v Hk) as [Hk1 Sk1].
    rewrite (insert_same_view s1 id x x' k Hx1 Hpx). split; [assumption|].
    rewrite <- Sk1. apply (insert_shared s1 id x x' k Hx1). auto.
  - rewrite (insert_same_view s1 id x x' _ Hx1 Hpx). apply view_Some. exists new, (l ++ [mkItem n d]).
    now rewrite view_of_snoc.
  - right. apply (insert_shared s1 id x x' _ Hx1); [auto|]. unfold shared. now rewrite Hnew, Hnt.
Qed.

Lemma add_WithTransition_ok s id x l table n d : store_ok s -> s !! id = Some x ->
  body x = WithTransition l table -> names n -> pos l n = None ->
  exists s' j, add_WithTransition h outside natives emptyName s id x l table n d = Ok (s', j) /\ store_ok s' /\
  evolves view shared s id s' /\ result_of view shared s s' j (vw l ++ [(key h n, d)]).
Proof.
  intros Hs Hx Hb Hn Hp. assert (properties_of x = Some l) as Hl by (unfold properties_of; now rewrite Hb).
  assert (inTransitionMode x = true) as Ht by (unfold inTransitionMode; now rewrite Hb).
  pose proof (Hs id x l Hx Hl) as Hok. destruct Hok as [Hnm Hd Hf Hbo].
  pose proof (added_covers x l n d Hf) as Hc.
  unfold add_WithTransition. unfold body_ok in Hbo. rewrite Hb in Hc, Hbo. destruct Hbo as [Hlen Htab].
  destruct (find_transition h table n d) as [j|] eqn:Ef.
  - destruct (find_transition_ok _ _ _ _ _ _ Htab Hn Ef) as (n' & Hk & y & Hy & Hty & Hpy).
    exists s, j. split; [reflexivity|]. split; [assumption|]. split; [now intros k v Hv _|]. split.
    + apply view_Some. exists y, (l ++ [mkItem n' d]). rewrite view_of_snoc, Hk. auto.
    + right. unfold shared. now rewrite Hy, Hty.
  - destruct (added_flags h outside natives x n d) as [[[ix sy] na] en].
    assert (named (l ++ [mkItem n d])) as Hnm' by (apply Forall_app; split; [assumption|now apply Forall_singleton]).
    pose proof (NoDup_snoc l n d Hd Hp) as Hd'.
    assert (length (l ++ [mkItem n d]) = S (length l)) as Hlen' by (rewrite length_app; cbn; lia).
    destruct (_ || ix) eqn:E.
    + destruct (new_WithoutTransition_ok s _ ix sy na en Hnm' Hd'
                  ltac:(unfold ACCESS_CACHE_BUILD_MIN_SIZE, TRANSITION_MODE_MAX_SIZE in *; lia) Hc) as [Hp' Hok].
      pose proof (add_moving_ok s id x l n d _ Hs Hx Hp' Hok) as Hm.
      now rewrite (take_over_transition s id x Hx Ht) in Hm.
    + apply orb_false_iff in E as [E _]. apply Nat.ltb_ge in E.
      destruct (new_WithTransition_ok s (l ++ [mkItem n d]) ix sy na en Hnm' Hd' ltac:(lia) Hc) as [Hp' Hok].
      now apply (add_node_ok s id x l table n d).
Qed.

Lemma addProperty_ok s id v n d : store_ok s -> view s id = Some v -> names n -> position v (key h n) = None ->
  exists s' j, addProperty h outside natives emptyName s id n d = Ok (s', j) /\ store_ok s' /\
  evolves view shared s id s' /\ result_of view shared s s' j (v ++ [(key h n, d)]).
Proof.
  intros Hs Hv Hn Hp. apply view_Some in Hv as (x & l & Hx & Hl & ->).
  unfold addProperty. rewrite Hx. cbn [defined mbind result_bind]. unfold properties_of in Hl.
  destruct (body x) as [ps c i|ps t|ps m] eqn:Eb.
  - subst ps. now apply (add_WithoutTransition_ok s id x l c i).
  - injection Hl as ->. now apply add_WithTransition_ok.
  - subst ps. now apply add_WithMap_ok.
Qed.

Lemma removeProperty_ok s id v idx : store_ok s -> view s id = Some v -> (idx < length v)%nat ->
  exists s' j, removeProperty h outside natives emptyName s id idx = Ok (s', j) /\ store_ok s' /\
  evolves view shared s id s' /\ result_of view shared s s' j (take idx v ++ drop (S idx) v).
Proof.
  intros Hs Hv Hi. apply view_Some in Hv as (x & l & Hx & Hl & ->). rewrite view_length in Hi.
  destruct (Hs id x l Hx Hl) as [Hnm Hd Hf Hbo]. rewrite <- view_remove_at.
  unfold removeProperty, remove_WithoutTransition, remove_WithTransition, remove_WithMap.
  rewrite Hx. cbn [defined mbind result_bind]. apply Nat.ltb_lt in Hi.
  destruct (remove_at_ok idx l Hnm Hd) as [Hnm' Hd']. pose proof (flags_of_covers (remove_at idx l)) as Hc.
  destruct (flags_of h outside natives (remove_at idx l)) as [[[ix sy] na] en] eqn:Efl.
  assert (length (remove_at idx l) <= length l)%nat as Hlen
    by (unfold remove_at; rewrite length_app, length_take, length_drop; lia).
  assert (forall new, properties_of new = Some (remove_at idx l) -> structure_ok s new (remove_at idx l) ->
    exists s' j, Ok (alloc (take_over s id x) new) = Ok (s', j) /\ store_ok s' /\
    evolves view shared s id s' /\ result_of view shared s s' j (vw (remove_at idx l))) as G.
  { intros new Hp Hok. destruct (take_over_alloc s id x new _ Hs Hx Hp Hok) as (s' & j & -> & H'). eauto. }
  assert ((length (remove_at idx l) <= ACCESS_CACHE_BUILD_MIN_SIZE)%nat ->
    exists s' j, Ok (alloc (take_over s id x) (new_WithoutTransition emptyName (remove_at idx l) ix sy na en)) = Ok (s', j) /\
    store_ok s' /\ evolves view shared s id s' /\ result_of view shared s s' j (vw (remove_at idx l))) as W.
  { intros Hsz. destruct (new_WithoutTransition_ok s _ ix sy na en Hnm' Hd' Hsz Hc). now apply G. }
  assert (inTransitionMode x = true -> take_over s id x = s) as Ht by now apply take_over_transition.
  unfold properties_of, body_ok, inTransitionMode in *.
  destruct (body x) as [ps c i|ps t|ps m]; [subst ps|injection Hl as ->|subst ps];
    cbn [defined mbind result_bind]; rewrite Hi; cbn [negb]; rewrite Efl.
  - apply W. lia.
  - rewrite (Ht eq_refl) in W. apply W. unfold TRANSITION_MODE_MAX_SIZE, ACCESS_CACHE_BUILD_MIN_SIZE in *. lia.
  - destruct (_ <? length (remove_at _ _))%nat eqn:E.
    + destruct (new_WithMap_ok s _ None ix sy na en Hnm' Hd' Hc I). now apply G.
    + apply Nat.ltb_ge in E. now apply W.
Qed.

Lemma flags_ok_names x l l' : m_propertyName <$> l' = m_propertyName <$> l -> flags_ok x l -> flags_ok x l'.
Proof.
  intros E. assert (forall (f : Z -> bool) b, Forall (fun p => f (m_propertyName p) = b) l ->
    Forall (fun p => f (m_propertyName p) = b) l') as G.
  { intros f b Hf. rewrite <- (Forall_fmap m_propertyName (fun n => f n = b)) in Hf |- *. now rewrite E. }
  intros (Hi & Hsy & Ha). unfold flags_ok. split_and!; [auto|auto|destruct (body x); auto].
Qed.

Lemma replacePropertyDescriptor_ok s id v idx k d d' : store_ok s -> view s id = Some v -> v !! idx = Some (k, d) ->
  exists s' j, replacePropertyDescriptor natives emptyName s id idx d' = Ok (s', j) /\ store_ok s' /\
  evolves view shared s id s' /\ result_of view shared s s' j (<[idx := (k, d')]> v).
Proof.
  intros Hs Hv Hi. apply view_Some in Hv as (x & l & Hx & Hl & ->).
  unfold view_of in Hi. rewrite list_lookup_fmap in Hi. apply fmap_Some in Hi as (p & Hi & Ep).
  injection Ep as -> _. destruct (Hs id x l Hx Hl) as [Hnm Hd Hf Hbo].
  unfold replacePropertyDescriptor, replace_WithoutTransition, replace_WithTransition, replace_WithMap.
  rewrite Hx. cbn [defined mbind result_bind].
  assert (set_descriptor l idx d' = Ok (<[idx := mkItem (m_propertyName p) d']> l)) as Hset
    by (unfold set_descriptor; now rewrite Hi).
  destruct (replace_ok idx l p d' Hnm Hd Hi) as (Hnm' & Hd' & Ev & Hpos & Hnames).
  set (l' := <[idx := mkItem (m_propertyName p) d']> l) in *.
  pose proof (flags_ok_names x l l' Hnames Hf) as Hf'. rewrite <- Ev.
  set (en := replaced_enumerable natives x d').
  assert (forall new, properties_of new = Some l' -> structure_ok s new l' ->
    exists s' j, Ok (alloc (take_over s id x) new) = Ok (s', j) /\ store_ok s' /\
    evolves view shared s id s' /\ result_of view shared s s' j (vw l')) as G.
  { intros new Hp Hok. destruct (take_over_alloc s id x new _ Hs Hx Hp Hok) as (s' & j & -> & H'). eauto. }
  assert (length l' = length l) as Hlen by apply length_insert.
  assert (inTransitionMode x = true -> take_over s id x = s) as Ht by now apply take_over_transition.
  unfold properties_of, body_ok, flags_ok, inTransitionMode in *. destruct Hf' as (Hfi & Hfs & Hfa).
  destruct (body x) as [ps c i|ps t|ps m]; [subst ps|injection Hl as ->|subst ps];
    cbn [defined mbind result_bind]; rewrite Hset; cbn [mbind result_bind].
  - destruct (new_WithoutTransition_ok s l' (m_hasIndexPropertyName x) (m_hasSymbolPropertyName x)
      (m_hasNonAtomicPropertyName x) en Hnm' Hd' ltac:(lia) (conj Hfi (conj Hfs Hfa))). now apply G.
  - destruct (new_WithoutTransition_ok s l' (m_hasIndexPropertyName x) (m_hasSymbolPropertyName x)
      (m_hasNonAtomicPropertyName x) en Hnm' Hd'
      ltac:(unfold TRANSITION_MODE_MAX_SIZE, ACCESS_CACHE_BUILD_MIN_SIZE in *; lia) (conj Hfi (conj Hfs Hfa))).
    rewrite (Ht eq_refl) in G. now apply G.
  - apply G; [reflexivity|]. apply (new_WithMap_ok s l' _ _ _ true en Hnm' Hd').
    + split_and!; [assumption..|discriminate].
    + destruct (m_isReferencedByInlineCache x); [exact I|]. destruct m as [m|]; [|exact I].
      destruct Hbo as (He & Hm & Hn1 & Hn2). split_and!; try assumption; [|now rewrite Hpos].
      intros n Hn. now rewrite Hpos, Hm.
Qed.

Lemma findProperty_ok s id v n : store_ok s -> view s id = Some v -> names n ->
  exists s', findProperty h emptyName s id n = Ok (s', position v (key h n)) /\ store_ok s' /\
  (forall k, view s' k = view s k /\ shared s' k = shared s k).
Proof.
  intros Hs Hv Hn. apply view_Some in Hv as (x & l & Hx & Hl & ->).
  destruct (find_in_ok s x l n Hl (Hs id x l Hx Hl) Hn) as (x' & Hfind & (Hp & Ht & Hr & Hi) & Hok).
  unfold findProperty. rewrite Hx. cbn [defined mbind result_bind]. rewrite Hfind. cbn [mbind result_bind].
  eexists. split; [reflexivity|]. split.
  - apply (store_insert s id x x' Hs Hx); [intros; now rewrite Ht|]. intros k Hk. rewrite Hp, Hl in Hk. now injection Hk as <-.
  - intros k. split; [now apply (insert_same_view s id x)|]. destruct (decide (k = id)) as [->|N]; [|now apply shared_insert_ne].
    unfold shared. rewrite list_lookup_insert_eq, Hx by (eapply lookup_lt_Some; eassumption). now rewrite Ht, Hr.
Qed.

Definition hasIndexPropertyName (s : Store) (id : nat) : bool :=
  match s !! id with Some x => m_hasIndexPropertyName x | None => false end.

Lemma properties_ok s id v : store_ok s -> view s id = Some v ->
  exists l, properties s id = Ok l /\ v = vw l /\ named l /\
  (hasIndexPropertyName s id = false -> Forall (fun p => isIndexString h outside (m_propertyName p) = false) l).
Proof.
  intros Hs Hv. apply view_Some in Hv as (x & l & Hx & Hl & ->). destruct (Hs id x l Hx Hl) as [Hnm _ [Hf _] _].
  exists l. unfold properties, hasIndexPropertyName. rewrite Hx. cbn [defined mbind result_bind]. rewrite Hl. auto.
Qed.

Lemma convert_ok s id v : store_ok s -> view s id = Some v ->
  exists s' j, convertToNonTransitionStructure emptyName s id = Ok (s', j) /\ store_ok s' /\
  (forall k w, view s k = Some w -> view s' k = Some w /\ (shared s k = true -> shared s' k = true)) /\
  view s' j = Some v /\ (view s j = None \/ j = id).
Proof.
  intros Hs Hv. pose proof Hv as Hv0. apply view_Some in Hv as (x & l & Hx & Hl & ->).
  unfold convertToNonTransitionStructure. rewrite Hx. cbn [defined mbind result_bind].
  destruct (body x) as [ps c i|ps t|ps m] eqn:Eb; [exists s, id; auto 6| |exists s, id; auto 6].
  destruct (Hs id x l Hx Hl) as [Hnm Hd Hf Hbo]. unfold flags_ok, body_ok, properties_of in *. rewrite Eb in Hf, Hbo, Hl.
  injection Hl as ->. destruct Hbo as [Hlen _].
  destruct (new_WithoutTransition_ok s l (m_hasIndexPropertyName x) (m_hasSymbolPropertyName x)
    (m_hasNonAtomicPropertyName x) (m_hasEnumerableProperty x) Hnm Hd
    ltac:(unfold TRANSITION_MODE_MAX_SIZE, ACCESS_CACHE_BUILD_MIN_SIZE in *; lia) Hf) as [Hp Hok].
  eexists _, _. split; [reflexivity|]. split; [now apply (store_app s _ l)|]. split; [|split].
  - intros k w Hk. destruct (app_keeps s (new_WithoutTransition emptyName l (m_hasIndexPropertyName x)
      (m_hasSymbolPropertyName x) (m_hasNonAtomicPropertyName x) (m_hasEnumerableProperty x)) k w Hk) as [? E].
    now rewrite E.
  - apply view_Some. eexists _, l. split; [now apply list_lookup_middle|auto].
  - left. unfold view. now rewrite lookup_ge_None_2 by lia.
Qed.

Lemma mark_ok s id v : store_ok s -> view s id = Some v ->
  exists s', markReferencedByInlineCache s id = Ok s' /\ store_ok s' /\ shared s' id = true /\
  (forall k, view s' k = view s k /\ (shared s k = true -> shared s' k = true)).
Proof.
  intros Hs Hv. apply view_Some in Hv as (x & l & Hx & Hl & ->).
  unfold markReferencedByInlineCache. rewrite Hx. cbn [defined mbind result_bind].
  set (x' := mkStructure _ _ _ _ true (body x)). eexists. split; [reflexivity|]. split; [|split].
  - apply (store_insert s id x x' Hs Hx); [auto|]. intros k Hk.
    destruct (Hs id x k Hx Hk) as [? ? ? ?]. now constructor.
  - unfold shared. rewrite list_lookup_insert_eq by (eapply lookup_lt_Some; eassumption). apply orb_true_r.
  - intros k. split; [now apply (insert_same_view s id x)|]. apply (insert_shared s id x); [assumption|]. intros _. apply orb_true_r.
Qed.

Lemma structure_create_ok properties preferTransition : named properties -> NoDup (vw properties).*1 ->
  properties_of (create h outside emptyName properties preferTransition) = Some properties /\
  structure_ok [] (create h outside emptyName properties preferTransition) properties.
Proof.
  intros Hn Hd. unfold create.
  assert (forall f : ObjectStructureItem -> bool, existsb f properties = false -> Forall (fun p => f p = false) properties) as G.
  { clear. intros f. induction properties as [|p l IH]; intros E; constructor; cbn in E;
      apply orb_false_iff in E as [E1 E2]; auto. }
  set (sy := existsb (fun p => isSymbol h (m_propertyName p)) properties).
  set (ix := existsb (fun p => isIndexString h outside (m_propertyName p)) properties).
  set (na := existsb (fun p => negb (hasAtomicString (m_propertyName p))) properties).
  assert (covers ix sy na properties) as Hc.
  { split_and!; intros E; [exact (G _ E)|exact (G _ E)|].
    eapply Forall_impl; [exact (G _ E)|]. intros p Hp. now apply negb_false_iff. }
  destruct (length properties <=? TRANSITION_MODE_MAX_SIZE)%nat eqn:E; cbn [negb].
  - apply Nat.leb_le in E. destruct preferTransition; [now apply new_WithTransition_ok|].
    apply new_WithoutTransition_ok; try assumption. unfold TRANSITION_MODE_MAX_SIZE, ACCESS_CACHE_BUILD_MIN_SIZE in *. lia.
  - now apply (new_WithMap_ok [] properties None ix sy na true).
Qed.

Lemma store_singleton x l : properties_of x = Some l -> structure_ok [] x l -> store_ok [x] /\ view [x] 0 = Some (vw l).
Proof.
  intros Hp Hok. split; [apply (store_app [] x l); [|assumption..]; now intros ?????|].
  apply view_Some. exists x, l. auto.
Qed.

#[export] Instance store_ops : StructureOps Store := {
  st_find := findProperty h emptyName;
  st_properties := properties;
  st_hasIndex := hasIndexPropertyName;
  st_add := addProperty h outside natives emptyName;
  st_remove := removeProperty h outside natives emptyName;
  st_replace := replacePropertyDescriptor natives emptyName;
  st_convert := convertToNonTransitionStructure emptyName;
  st_mark := markReferencedByInlineCache
}.

#[export] Instance store_laws : StructureLaws h outside names Store.
Proof.
  refine {| st_ok := store_ok; st_view := view; st_shared := shared |}.
  - intros s i v Hs Hv. apply view_Some in Hv as (x & l & Hx & Hl & ->). now destruct (Hs i x l Hx Hl).
  - apply findProperty_ok.
  - apply properties_ok.
  - apply addProperty_ok.
  - apply removeProperty_ok.
  - apply replacePropertyDescriptor_ok.
  - apply convert_ok.
  - apply mark_ok.
Defined.

End Facts.
End StructureFacts.

(** * The structure of one object through its life *)
Module StructureMachine.
Import Heap Names Structures StructureSpec StructureFacts.

Inductive StructureOp :=
  | Find (n : Z)
  | Add (n d : Z)
  | Remove (idx : nat)
  | Replace (idx : nat) (d : Z)
  | Convert
  | Mark.

Section Machine.
Context {St : Type} `{StructureOps St}.

Definition step (c : St * nat) (o : StructureOp) : result (St * nat * option nat) :=
  let '(s, i) := c in
  match o with
  | Find n => '(s, r) ← st_find s i n; Ok (s, i, r)
  | Add n d => '(s, i) ← st_add s i n d; Ok (s, i, None)
  | Remove idx => '(s, i) ← st_remove s i idx; Ok (s, i, None)
  | Replace idx d => '(s, i) ← st_replace s i idx d; Ok (s, i, None)
  | Convert => '(s, i) ← st_convert s i; Ok (s, i, None)
  | Mark => s ← st_mark s i; Ok (s, i, None)
  end.
Fixpoint run (c : St * nat) (ops : list StructureOp) : result (St * nat * list (option nat)) :=
  match ops with
  | [] => Ok (c, [])
  | o :: ops => '(c, r) ← step c o; '(c, rs) ← run c ops; Ok (c, r :: rs)
  end.
End Machine.

(** The same operations on a list; [None] is an operation no caller makes. *)
Definition reference (h : heap) (v : View) (o : StructureOp) : option (View * option nat) :=
  match o with
  | Find n => Some (v, position v (key h n))
  | Add n d => match position v (key h n) with None => Some (v ++ [(key h n, d)], None) | Some _ => None end
  | Remove idx => if (idx <? length v)%nat then Some (take idx v ++ drop (S idx) v, None) else None
  | Replace idx d => match v !! idx with Some (k, _) => Some (<[idx := (k, d)]> v, None) | None => None end
  | Convert | Mark => Some (v, None)
  end.
Fixpoint reference_run (h : heap) (v : View) (ops : list StructureOp) : option (View * list (option nat)) :=
  match ops with
  | [] => Some (v, [])
  | o :: ops => '(v, r) ← reference h v o; '(v, rs) ← reference_run h v ops; Some (v, r :: rs)
  end.

Definition names_op (names : Z -> Prop) (o : StructureOp) : Prop :=
  match o with Find n | Add n _ => names n | _ => True end.

Section Refinement.
Context (h : heap) (outside : bool) (names : Z -> Prop) {St : Type} `{StructureLaws h outside names St}.

Lemma step_refines s i v o v' r : st_ok s -> st_view s i = Some v -> names_op names o ->
  reference h v o = Some (v', r) ->
  exists s' i', step (s, i) o = Ok (s', i', r) /\ st_ok s' /\ st_view s' i' = Some v'.
Proof.
  intros Hs Hv Hn Hr. destruct o as [n|n d|idx|idx d| |]; cbn [step reference names_op] in *.
  - injection Hr as <- <-. destruct (st_find_ok s i v n Hs Hv Hn) as (s' & -> & Hs' & Hk).
    exists s', i. now rewrite (proj1 (Hk i)).
  - destruct (position v (key h n)) eqn:E; [discriminate|]. injection Hr as <- <-.
    destruct (st_add_ok s i v n d Hs Hv Hn E) as (s' & j & -> & Hs' & _ & [Hj _]). now exists s', j.
  - destruct (idx <? length v)%nat eqn:E; [|discriminate]. injection Hr as <- <-. apply Nat.ltb_lt in E.
    destruct (st_remove_ok s i v idx Hs Hv E) as (s' & j & -> & Hs' & _ & [Hj _]). now exists s', j.
  - destruct (v !! idx) as [[k d0]|] eqn:E; [|discriminate]. injection Hr as <- <-.
    destruct (st_replace_ok s i v idx k d0 d Hs Hv E) as (s' & j & -> & Hs' & _ & [Hj _]). now exists s', j.
  - injection Hr as <- <-. destruct (st_convert_ok s i v Hs Hv) as (s' & j & -> & Hs' & _ & Hj & _). now exists s', j.
  - injection Hr as <- <-. destruct (st_mark_ok s i v Hs Hv) as (s' & -> & Hs' & _ & Hk).
    exists s', i. now rewrite (proj1 (Hk i)).
Qed.

Lemma run_refines s i v ops v' rs : st_ok s -> st_view s i = Some v -> Forall (names_op names) ops ->
  reference_run h v ops = Some (v', rs) ->
  exists s' i', run (s, i) ops = Ok (s', i', rs) /\ st_ok s' /\ st_view s' i' = Some v'.
Proof.
  revert s i v v' rs. induction ops as [|o ops IH]; intros s i v v' rs Hs Hv Hn Hr; cbn [run reference_run] in *.
  - injection Hr as <- <-. now exists s, i.
  - apply Forall_cons in Hn as [Hno Hn]. apply bind_Some in Hr as ([v1 r] & E & Hr).
    apply bind_Some in Hr as ([v2 rs'] & E' & Hr). injection Hr as <- <-.
    destruct (step_refines s i v o v1 r Hs Hv Hno E) as (s1 & i1 & -> & Hs1 & Hv1). cbn [mbind result_bind].
    destruct (IH s1 i1 v1 v2 rs' Hs1 Hv1 Hn E') as (s2 & i2 & -> & Hs2 & Hv2). now exists s2, i2.
Qed.
End Refinement.
End StructureMachine.

(** * Sharing of structures *)
Module SharingFacts.
Import Heap PropertyName Names Structures StructureSpec StructureFacts.

Section Sharing.
Context (h : heap) (outside : bool) (natives : gmap Z StructureDescriptor.NativeGetterSetterData)
  (emptyName : Z) (names : Z -> Prop) `{NameSpace h names}.

Notation is_same n d := (fun t => same_transition h t n d = true).
Notation is_same_key n d := (fun t => same_transition_key h t n d = true).

Lemma same_transition_key_spec t n d : names (t_propertyName t) -> names n ->
  same_transition_key h t n d = same_transition h t n d.
Proof.
  intros Ht Hn. unfold same_transition_key, same_transition. rewrite (equals_key h names) by assumption.
  destruct (t_descriptor t =? d) eqn:E; Zbool; [|now rewrite andb_false_r].
  case_bool_decide as K; [|now rewrite andb_false_r].
  now rewrite (names_hash _ _ Ht Hn K), E, Z.eqb_refl.
Qed.

Lemma same_transition_refl n d j : names n -> same_transition h (mkTransition n d j) n d = true.
Proof.
  intros Hn. unfold same_transition. cbn. rewrite (equals_key h names), bool_decide_eq_true_2 by auto.
  now rewrite Z.eqb_refl.
Qed.

(** The transitions of a table, in order of creation. *)
Definition transitions (table : TransitionTable) : list TransitionItem :=
  match table with TableVector b _ => b | TableMap b => b end.
Definition named_table (table : TransitionTable) : Prop :=
  Forall (fun t => names (t_propertyName t)) (transitions table).

Lemma filter_ext_in {A} (P Q : A -> Prop) `{forall x, Decision (P x)} `{forall x, Decision (Q x)} l :
  Forall (fun x => P x <-> Q x) l -> filter P l = filter Q l.
Proof.
  induction 1 as [|x l Hx Hl IH]; [reflexivity|]. rewrite !filter_cons, IH.
  destruct (decide (P x)), (decide (Q x)); tauto.
Qed.

Lemma find_transition_spec table n d : named_table table -> names n ->
  find_transition h table n d = t_structure <$> head (filter (is_same n d) (transitions table)).
Proof.
  intros Ht Hn. destruct table as [b c|b]; cbn; [reflexivity|]. do 2 f_equal. apply filter_ext_in.
  eapply Forall_impl; [exact Ht|]. intros t Hnt. cbn. now rewrite same_transition_key_spec.
Qed.

Lemma find_transition_key table n n' d : named_table table -> names n -> names n' -> key h n = key h n' ->
  find_transition h table n' d = find_transition h table n d.
Proof.
  intros Ht Hn Hn' Hk. rewrite !find_transition_spec by assumption. do 2 f_equal. apply filter_ext_in.
  eapply Forall_impl; [exact Ht|]. intros t Hnt. unfold same_transition.
  now rewrite !(equals_key h names), Hk by assumption.
Qed.

Lemma table_insert_In l t t' : t' ∈ table_insert h l t -> t' = t \/ t' ∈ l.
Proof.
  unfold table_insert. destruct (filter _ l); [|now right]. intros E. apply elem_of_app in E as [E|E]; [now right|].
  left. now apply list_elem_of_singleton in E.
Qed.

Lemma fold_insert_In b : forall acc t, t ∈ fold_left (table_insert h) b acc -> t ∈ b \/ t ∈ acc.
Proof.
  induction b as [|x b IH]; intros acc t E; cbn in E; [now right|].
  destruct (IH _ _ E) as [E'|E']; [left; now right|].
  destruct (table_insert_In _ _ _ E') as [->|E'']; [left; now left|now right].
Qed.

Lemma filter_nil {A} (P : A -> Prop) `{forall x, Decision (P x)} l : filter P l = [] <-> forall x, x ∈ l -> ~ P x.
Proof.
  split.
  - intros E x Hx HP. assert (x ∈ filter P l) as F by now apply list_elem_of_filter. rewrite E in F. now apply not_elem_of_nil in F.
  - intros E. destruct (filter P l) as [|x l'] eqn:F; [reflexivity|].
    assert (x ∈ filter P l) as G by (rewrite F; now left). apply list_elem_of_filter in G as [? G]. now apply E in G.
Qed.

(** A transition that was missing is found once it has been added. *)
Lemma add_transition_found table table' n d j : named_table table -> names n ->
  find_transition h table n d = None -> add_transition h table (mkTransition n d j) = Ok table' ->
  find_transition h table' n d = Some j.
Proof.
  intros Ht Hn Hf Ha. rewrite find_transition_spec in Hf by assumption.
  assert (forall t, t ∈ transitions table -> ~ same_transition h t n d = true) as Hnone.
  { apply (proj1 (filter_nil (is_same n d) _)). now destruct (filter _ (transitions table)). }
  assert (forall b, (forall t, t ∈ b -> t ∈ transitions table) -> filter (is_same_key n d) b = []) as Hb.
  { intros b Hsub. apply (proj2 (filter_nil (is_same_key n d) _)). intros t Hin. unfold same_transition_key. rewrite andb_true_iff.
    intros [_ E]. now apply (Hnone t (Hsub t Hin)). }
  assert (same_transition_key h (mkTransition n d j) n d = true) as Hself
    by (rewrite same_transition_key_spec by assumption; now apply same_transition_refl).
  assert (forall b, (forall t, t ∈ b -> t ∈ transitions table) ->
    find_transition h (TableMap (table_insert h b (mkTransition n d j))) n d = Some j) as G.
  { intros b Hsub. unfold table_insert. cbn [t_propertyName t_descriptor]. rewrite (Hb b Hsub). cbn [find_transition].
    rewrite filter_app, (Hb b Hsub), app_nil_l, filter_cons, decide_True by assumption. reflexivity. }
  destruct table as [b c|b]; cbn in Ha, Hnone, G.
  - destruct (_ <? _).
    + injection Ha as <-. apply G. intros t Hin. destruct (fold_insert_In _ _ _ Hin) as [|E]; [assumption|].
      now apply not_elem_of_nil in E.
    + destruct (_ <? _); [|discriminate]. injection Ha as <-. cbn [find_transition]. rewrite filter_app.
      rewrite (proj2 (filter_nil (is_same n d) _) Hnone), app_nil_l, filter_cons.
      rewrite decide_True by now apply same_transition_refl. reflexivity.
  - injection Ha as <-. now apply G.
Qed.

Lemma table_insert_named b t : Forall (fun t => names (t_propertyName t)) b -> names (t_propertyName t) ->
  Forall (fun t => names (t_propertyName t)) (table_insert h b t).
Proof.
  intros Hfb Ht. rewrite Forall_forall in *. intros t' Hin. destruct (table_insert_In _ _ _ Hin) as [->|]; auto.
Qed.

Lemma add_transition_named table table' t : named_table table -> names (t_propertyName t) ->
  add_transition h table t = Ok table' -> named_table table'.
Proof.
  intros Hnt Hn Et. unfold named_table in *. destruct table as [b c|b]; cbn in Et, Hnt.
  - destruct (_ <? _); [|destruct (_ <? _); [|discriminate]]; injection Et as <-; cbn.
    + apply table_insert_named; [|assumption]. rewrite Forall_forall in *. intros t' Hin.
      destruct (fold_insert_In _ _ _ Hin) as [E'|E']; [auto|now apply not_elem_of_nil in E'].
    + apply Forall_app. split; [assumption|now apply Forall_singleton].
  - injection Et as <-. now apply table_insert_named.
Qed.

Lemma table_ok_named s l table : table_ok names s l table -> named_table table.
Proof. unfold table_ok, named_table. destruct table; cbn; intros Hb; eapply Forall_impl; try exact Hb; now intros t [? _]. Qed.

(** Adding the same property again to the same node of the transition tree. *)
Lemma same_addition s id x l table n n' d s1 j :
  store_ok h outside names s -> s !! id = Some x -> body x = WithTransition l table ->
  names n -> names n' -> key h n = key h n' ->
  addProperty h outside natives emptyName s id n d = Ok (s1, j) ->
  (exists y, s1 !! j = Some y /\ inTransitionMode y = true) ->
  addProperty h outside natives emptyName s1 id n' d = Ok (s1, j).
Proof.
  intros Hs Hx Hb Hn Hn' Hk Ha (y & Hy & Hty).
  assert (properties_of x = Some l) as Hl by (unfold properties_of; now rewrite Hb).
  destruct (Hs id x l Hx Hl) as [_ _ _ Hbo]. unfold body_ok in Hbo. rewrite Hb in Hbo. destruct Hbo as [_ Htab].
  pose proof (table_ok_named s l table Htab) as Hnt.
  unfold addProperty in Ha. rewrite Hx in Ha. cbn [defined mbind result_bind] in Ha. rewrite Hb in Ha.
  unfold add_WithTransition in Ha. destruct (find_transition h table n d) as [i|] eqn:Ef.
  - injection Ha as <- <-. unfold addProperty. rewrite Hx. cbn [defined mbind result_bind]. rewrite Hb.
    unfold add_WithTransition. now rewrite (find_transition_key table n n' d Hnt Hn Hn' Hk), Ef.
  - destruct (added_flags h outside natives x n d) as [[[ix sy] na] en]. destruct (_ || ix) eqn:E.
    + injection Ha as <- <-. rewrite list_lookup_middle in Hy by reflexivity. injection Hy as <-.
      unfold new_WithoutTransition in Hty. now destruct (last _) in Hty.
    + cbn [alloc mbind result_bind] in Ha. destruct (add_transition h table _) as [table'| |] eqn:Et; try discriminate.
      cbn in Ha. injection Ha as <- <-. set (x' := with_body x (WithTransition l table')).
      unfold addProperty. rewrite list_lookup_insert_eq
        by (rewrite length_app; apply lookup_lt_Some in Hx; lia).
      cbn [defined mbind result_bind x' with_body body]. unfold add_WithTransition.
      pose proof (add_transition_named table table' (mkTransition n d (length s)) Hnt Hn Et) as Hnt'.
      rewrite (find_transition_key table' n n' d Hnt' Hn Hn' Hk).
      now rewrite (add_transition_found table table' n d _ Hnt Hn Ef Et).
Qed.

(** The result is a node of the tree unless the node is full or an index name is
    among its properties. *)
Lemma addition_in_tree s id x l table n d s1 j :
  store_ok h outside names s -> s !! id = Some x -> body x = WithTransition l table -> names n ->
  (length l < TRANSITION_MODE_MAX_SIZE)%nat -> m_hasIndexPropertyName x = false -> isIndexString h outside n = false ->
  addProperty h outside natives emptyName s id n d = Ok (s1, j) ->
  exists y, s1 !! j = Some y /\ inTransitionMode y = true.
Proof.
  intros Hs Hx Hb Hn Hlen Hix Hin Ha.
  assert (properties_of x = Some l) as Hl by (unfold properties_of; now rewrite Hb).
  destruct (Hs id x l Hx Hl) as [_ _ _ Hbo]. unfold body_ok in Hbo. rewrite Hb in Hbo. destruct Hbo as [_ Htab].
  pose proof (table_ok_named s l table Htab) as Hnt.
  unfold addProperty in Ha. rewrite Hx in Ha. cbn [defined mbind result_bind] in Ha. rewrite Hb in Ha.
  unfold add_WithTransition in Ha. destruct (find_transition h table n d) as [i|] eqn:Ef.
  - injection Ha as <- <-. rewrite find_transition_spec in Ef by assumption.
    destruct (filter _ (transitions table)) as [|t ts] eqn:Ft; [discriminate|]. injection Ef as <-.
    assert (t ∈ transitions table) as Ht by (eapply (list_elem_of_filter (is_same n d)); rewrite Ft; now left).
    assert (transition_ok names s l t) as [_ (y & Hy & Hm & _)] by (destruct table; cbn in *; rewrite Forall_forall in Htab; auto).
    now exists y.
  - unfold added_flags in Ha. rewrite Hix, Hin, (proj2 (Nat.ltb_ge _ _)) in Ha by lia. cbn [orb alloc mbind result_bind] in Ha.
    destruct (add_transition h table _) as [table'| |]; try discriminate. cbn in Ha. injection Ha as <- <-.
    assert (id < length s)%nat by now apply lookup_lt_Some in Hx.
    eexists. rewrite list_lookup_insert_ne, list_lookup_middle by lia. now split.
Qed.

End Sharing.
End SharingFacts.

(** * Properties *)
Module ObjectStructureProps.
Import Heap PropertyName Names Structures StructureSpec StructureFacts StructureMachine SharingFacts.

(** Two interned strings, a symbol and a plain string. *)
Definition sample_heap : heap :=
  list_to_map [(64, HString [97]); (128, HString [98]); (192, HSymbol); (256, HString (repeat 49 17))].
Definition sample_names (n : Z) : Prop := n ∈ [65; 129; 192; 256].

#[export] Instance sample_space : NameSpace sample_heap sample_names.
Proof.
  apply name_space.
  - intros n Hn. unfold sample_names in Hn. repeat (apply elem_of_cons in Hn as [->|Hn]; [vm_compute; eauto|]). set_solver.
  - intros a b Ha Hb. unfold sample_names in *.
    repeat (apply elem_of_cons in Ha as [->|Ha]; [repeat (apply elem_of_cons in Hb as [->|Hb]; [vm_compute; congruence|]); set_solver|]).
    set_solver.
  - intros a b Ha Hb. unfold sample_names in *.
    repeat (apply elem_of_cons in Ha as [->|Ha]; [repeat (apply elem_of_cons in Hb as [->|Hb]; [vm_compute; congruence|]); set_solver|]).
    set_solver.
Defined.

(** C8: A structure is an ordered list of properties with distinct keys.  From
    any list that [create] is given, whatever class it chooses and however the
    operations change the class (the transition tree, the 36 and 512 property
    limits, vectors taken over from structures no inline cache knows), every
    sequence of operations on names in use succeeds and answers what the list
    answers: searches find the index of the key, additions append, removals
    close the gap, replacements stay in place.  The names in use are assumed to
    have equal hashes where they stand for one key ([NameSpace]), as they do if no
    string is in use both as an interned and as a plain name ([name_space]); the
    program does not ensure that ([map_misses_equal_name]). *)
Theorem structures_refine_lists h outside natives emptyName names `{NameSpace h names}
    properties preferTransition ops v rs :
  names emptyName ->
  Forall (fun p => names (m_propertyName p)) properties -> NoDup (view_of h properties).*1 ->
  Forall (names_op names) ops -> reference_run h (view_of h properties) ops = Some (v, rs) ->
  exists s id l,
    run (H := store_ops h outside natives emptyName)
      ([create h outside emptyName properties preferTransition], 0%nat) ops = Ok (s, id, rs) /\
    Structures.properties s id = Ok l /\ view_of h l = v.
Proof.
  intros He Hn Hd Hops Hr.
  destruct (structure_create_ok h outside emptyName names properties preferTransition Hn Hd) as [Hp Hok].
  destruct (store_singleton h outside names _ _ Hp Hok) as [Hs Hv].
  destruct (run_refines (H := store_ops h outside natives emptyName)
              (H0 := store_laws h outside natives emptyName names He) h outside names
              _ 0%nat _ ops v rs Hs Hv Hops Hr) as (s & id & Hrun & Hs' & Hv').
  destruct (properties_ok h outside names s id v Hs' Hv') as (l & Hl & -> & _).
  now exists s, id, l.
Qed.

Lemma structures_refine_lists_witness :
  exists s id l,
    run (H := store_ops sample_heap false ∅ 65)
      ([create sample_heap false 65 [mkItem 129 15] true], 0%nat)
      [Add 65 15; Find 129; Add 192 7; Remove 0; Find 129; Add 129 9; Find 129] =
      Ok (s, id, [None; Some 0%nat; None; None; None; None; Some 2%nat]) /\
    Structures.properties s id = Ok l /\
    view_of sample_heap l = [(Some (KString [97]), 15); (Some (KSymbol 192), 7); (Some (KString [98]), 9)].
Proof.
  apply (structures_refine_lists sample_heap false ∅ 65 sample_names).
  - unfold sample_names. set_solver.
  - repeat constructor; unfold sample_names; cbn; set_solver.
  - apply NoDup_singleton.
  - unfold sample_names. repeat constructor; cbn; set_solver.
  - vm_compute. reflexivity.
Defined.

(** C27: Structures are shared soundly.  Adding a property to a node of the
    transition tree changes the properties of no structure, the node included.
    If the result is a node of the tree again, adding a property with the same key
    and descriptor to the first node gives this very structure: objects that
    receive the same properties in the same order have the same hidden class.  It
    is a node if the first one has less than 36 properties and the name of an index
    is not among them nor added; otherwise each addition gives a new structure.  As
    in C8, names in use of one key are assumed to have one hash. *)
Theorem transitions_are_shared h outside natives emptyName names `{NameSpace h names} s id x n n' d s1 j :
  store_ok h outside names s -> s !! id = Some x -> inTransitionMode x = true ->
  names n -> names n' -> key h n = key h n' ->
  (forall v, view h s id = Some v -> position v (key h n) = None) ->
  addProperty h outside natives emptyName s id n d = Ok (s1, j) ->
  (forall k v, view h s k = Some v -> view h s1 k = Some v) /\
  ((exists y, s1 !! j = Some y /\ inTransitionMode y = true) ->
   addProperty h outside natives emptyName s1 id n' d = Ok (s1, j)) /\
  ((forall l, properties_of x = Some l -> (length l < TRANSITION_MODE_MAX_SIZE)%nat) ->
   m_hasIndexPropertyName x = false -> isIndexString h outside n = false ->
   exists y, s1 !! j = Some y /\ inTransitionMode y = true).
Proof.
  intros Hs Hx Hm Hn Hn' Hk Hpos Ha. unfold inTransitionMode in Hm. destruct (body x) as [|l t|] eqn:Eb; try discriminate.
  assert (properties_of x = Some l) as Hl by (unfold properties_of; now rewrite Eb). split; [|split].
  - intros k v Hv. assert (view h s id = Some (view_of h l)) as Hid by (apply view_Some; now exists x, l).
    destruct (addProperty_ok h outside natives emptyName names s id _ n d Hs Hid Hn (Hpos _ Hid))
      as (s' & j' & E & _ & Hev & _).
    rewrite Ha in E. injection E as <- <-. apply (Hev k v Hv). right. unfold shared, inTransitionMode. now rewrite Hx, Eb.
  - now apply (same_addition h outside natives emptyName names s id x l t n n' d).
  - intros Hlen Hix Hin. apply (addition_in_tree h outside natives emptyName names s id x l t n d); auto.
Qed.

Lemma transitions_are_shared_witness :
  let s := [new_WithTransition [] false false false true] in
  exists s1, addProperty sample_heap false ∅ 65 s 0 65 15 = Ok (s1, 1%nat) /\
  (forall k v, view sample_heap s k = Some v -> view sample_heap s1 k = Some v) /\
  addProperty sample_heap false ∅ 65 s1 0 65 15 = Ok (s1, 1%nat).
Proof.
  intros s. eexists. split; [vm_compute; reflexivity|].
  destruct (transitions_are_shared sample_heap false ∅ 65 sample_names s 0
    (new_WithTransition [] false false false true) 65 65 15
    (default [] (fst <$> match addProperty sample_heap false ∅ 65 s 0 65 15 with Ok r => Some r | _ => None end)) 1) as (H1 & H2 & H3);
    try reflexivity.
  - apply (store_singleton sample_heap false sample_names _ []); [reflexivity|].
    apply (new_WithTransition_ok sample_heap false sample_names); [constructor|constructor|cbn; lia|].
    repeat split; constructor.
  - unfold sample_names. set_solver.
  - unfold sample_names. set_solver.
  - intros v Hv. injection Hv as <-. reflexivity.
  - split; [exact H1|]. apply H2, H3; [|reflexivity|reflexivity]. intros l [= <-]. apply Nat.ltb_lt. reflexivity.
Defined.

(** The hash tables of structures rely on names of one key having one
    hash, and nothing makes it so: [hashValue] hashes an interned name by its
    address and a plain one by its contents.  When an interned name is equal to
    a name in the structure but has not its hash, a structure that searches its
    list finds the property and one with a hash table does not (unless it was
    the last one added). *)
Theorem map_misses_equal_name h emptyName (l : list ObjectStructureItem) n p :
  hasAtomicString n = true -> (exists q, q ∈ l /\ equals h (m_propertyName q) n = true) ->
  (forall q, q ∈ l -> equals h (m_propertyName q) n = true -> hashValue h (m_propertyName q) <> hashValue h n) ->
  last l = Some p -> equals h n (m_propertyName p) = false ->
  (exists x i, find_in h emptyName (new_WithTransition l false false true true) n = Ok (x, Some i)) /\
  (exists x, find_in h emptyName (new_WithMap l None false false true) n = Ok (x, None)).
Proof.
  intros Ha (q & Hq & Eq) Hl Hp Hlast. split.
  { unfold find_in, find_WithTransition, search. cbn [new_WithTransition body m_hasNonAtomicPropertyName negb]. rewrite Ha.
    assert (forall i, exists j, find_index (fun m => equals_atomic h m (asAtomicString n)) l i = Some j) as G.
    { clear - Ha Hq Eq. induction Hq as [l|q' l Hq IH]; intros i; cbn.
      - rewrite equals_atomic_equals, Eq by assumption. eauto.
      - destruct (equals_atomic _ _ _); eauto. }
    destruct (G 0%nat) as [j ->]. eauto. }
  clear q Hq Eq. unfold find_in. cbn. unfold map_find.
  assert (forall l m i, last l = Some p -> (lastItem (fill_map h l i m)).1 = m_propertyName p) as G1.
  { clear. induction l as [|q l IH]; intros m i E; [discriminate|]. cbn.
    destruct l as [|q' l]; [injection E as ->; reflexivity|]. now apply IH. }
  unfold createPropertyNameMap. rewrite (G1 l _ _ Hp), Hlast.
  assert (forall l m i, (forall q, q ∈ l -> same_key h (m_propertyName q) n = false) ->
    map_lookup h (entries m) n = None -> map_lookup h (entries (fill_map h l i m)) n = None) as G2.
  { clear. induction l as [|q l IH]; intros m i Hq Hm; cbn; [assumption|]. apply IH; [intros; apply Hq; now right|].
    unfold map_insert. cbn. destruct (map_lookup h (entries m) (m_propertyName q)); [assumption|].
    assert (same_key h (m_propertyName q) n = false) as Eq by (apply Hq; now left).
    revert Hm. generalize (entries m). induction l0 as [|[k j] l0 IHl]; cbn; [now rewrite Eq|].
    destruct (same_key h k n); [discriminate|assumption]. }
  rewrite G2; [eexists; reflexivity| |reflexivity].
  intros q Hq. unfold same_key. destruct (equals h (m_propertyName q) n) eqn:E; [|apply andb_false_r].
  now rewrite (proj2 (Z.eqb_neq _ _) (Hl q Hq E)).
Qed.

Lemma map_misses_equal_name_witness :
  let h := <[320 := HString (repeat 49 17)]> sample_heap in
  (exists x i, find_in h 65 (new_WithTransition [mkItem 256 15; mkItem 129 15] false false true true) 321 = Ok (x, Some i)) /\
  (exists x, find_in h 65 (new_WithMap [mkItem 256 15; mkItem 129 15] None false false true) 321 = Ok (x, None)).
Proof.
  intros h. apply (map_misses_equal_name h 65 _ 321 (mkItem 129 15)); try reflexivity.
  - exists (mkItem 256 15). split; [now left|]. vm_compute. reflexivity.
  - intros q Hq. repeat (apply elem_of_cons in Hq as [->|Hq]; [vm_compute; congruence|]). now apply not_elem_of_nil in Hq.
Defined.

End ObjectStructureProps.
