(* ===== verification/ObjectModel.v ===== *)
(** Ordinary objects ([runtime/Object.h], [runtime/Object.cpp]): property
    descriptors, [[DefineOwnProperty]], [[GetOwnProperty]], [[Delete]],
    [[OwnPropertyKeys]] and [[PreventExtensions]] of one object over a store of
    hidden classes with the interface [StructureLaws] of [ObjectStructure].  The
    references are the property descriptor algorithms of ECMA-262 on a list of
    properties.  [ObjectWorld] has many objects and their prototypes. *)
From Stdlib Require Import ZArith Lia Bool.
From stdpp Require Import base numbers list option decidable gmap sorting.
From S2P Require Import Prelude Double Value NumberString KeyedCollection ObjectStructure.

(** * Property descriptors as operations take them *)
Module PropertyDescriptor.
Import Word Heap.

Definition WritablePresent : Z := Z.shiftl 1 1.
Definition EnumerablePresent : Z := Z.shiftl 1 2.
Definition ConfigurablePresent : Z := Z.shiftl 1 3.
Definition NonWritablePresent : Z := Z.shiftl 1 4.
Definition NonEnumerablePresent : Z := Z.shiftl 1 5.
Definition NonConfigurablePresent : Z := Z.shiftl 1 6.
Definition ValuePresent : Z := Z.shiftl 1 7.
Definition AllPresent : Z :=
  Z.lor WritablePresent (Z.lor EnumerablePresent (Z.lor ConfigurablePresent ValuePresent)).

(** A [JSGetterSetter]; an absent function is the empty value. *)
Record JSGetterSetter := mkGetterSetter { m_getter : Z; m_setter : Z }.
Definition hasGetter (x : JSGetterSetter) : bool := negb (isEmpty (m_getter x)).
Definition hasSetter (x : JSGetterSetter) : bool := negb (isEmpty (m_setter x)).
Definition getter (x : JSGetterSetter) : Z := m_getter x.
Definition setter (x : JSGetterSetter) : Z := m_setter x.

(** What a property slot and the union of a descriptor hold. *)
Inductive Slot :=
  | SlotValue (v : Z)
  | SlotGetterSetter (x : JSGetterSetter).
Definition slot_value (s : Slot) : Z := match s with SlotValue v => v | SlotGetterSetter _ => ValueUndefined end.
Definition slot_getterSetter (s : Slot) : JSGetterSetter :=
  match s with SlotGetterSetter x => x | SlotValue _ => mkGetterSetter ValueEmpty ValueEmpty end.

Record ObjectPropertyDescriptor := mkDescriptor {
  m_isDataProperty : bool;
  m_property : Z;
  m_union : Slot
}.

Definition bit (d : ObjectPropertyDescriptor) (a : Z) : bool := negb (Z.land (m_property d) a =? 0).
Definition either (d : ObjectPropertyDescriptor) (a b : Z) : bool :=
  negb (Z.lor (Z.land (m_property d) a) (Z.land (m_property d) b) =? 0).

(** The constructors for data, accessor and generic descriptors. *)
Definition of_value (v attribute : Z) : ObjectPropertyDescriptor :=
  mkDescriptor true (Z.lor attribute ValuePresent) (SlotValue v).
Definition of_getterSetter (x : JSGetterSetter) (attribute : Z) : ObjectPropertyDescriptor :=
  mkDescriptor false attribute (SlotGetterSetter x).

Definition value (d : ObjectPropertyDescriptor) : Z := slot_value (m_union d).
Definition getterSetter (d : ObjectPropertyDescriptor) : JSGetterSetter := slot_getterSetter (m_union d).
Definition isDataProperty (d : ObjectPropertyDescriptor) : bool := m_isDataProperty d.
Definition isWritablePresent (d : ObjectPropertyDescriptor) : bool := either d WritablePresent NonWritablePresent.
Definition isEnumerablePresent (d : ObjectPropertyDescriptor) : bool := either d EnumerablePresent NonEnumerablePresent.
Definition isConfigurablePresent (d : ObjectPropertyDescriptor) : bool :=
  either d ConfigurablePresent NonConfigurablePresent.
Definition isValuePresent (d : ObjectPropertyDescriptor) : bool := bit d ValuePresent.
Definition isWritable (d : ObjectPropertyDescriptor) : bool := bit d WritablePresent.
Definition isEnumerable (d : ObjectPropertyDescriptor) : bool := bit d EnumerablePresent.
Definition isConfigurable (d : ObjectPropertyDescriptor) : bool := bit d ConfigurablePresent.
Definition isDataDescriptor (d : ObjectPropertyDescriptor) : bool := isValuePresent d || isWritablePresent d.
Definition isAccessorDescriptor (d : ObjectPropertyDescriptor) : bool := negb (m_isDataProperty d).
Definition isGenericDescriptor (d : ObjectPropertyDescriptor) : bool :=
  negb (isDataDescriptor d) && negb (isAccessorDescriptor d).
Definition isDataWritableEnumerableConfigurable (d : ObjectPropertyDescriptor) : bool :=
  isDataProperty d && isValuePresent d && isWritable d && isEnumerable d && isConfigurable d.
Definition hasJSGetter (d : ObjectPropertyDescriptor) : bool := hasGetter (getterSetter d).
Definition hasJSSetter (d : ObjectPropertyDescriptor) : bool := hasSetter (getterSetter d).

Definition set_bits (d : ObjectPropertyDescriptor) (on off : Z) : ObjectPropertyDescriptor :=
  mkDescriptor (m_isDataProperty d) (Z.ldiff (Z.lor (m_property d) on) off) (m_union d).
Definition setEnumerable (d : ObjectPropertyDescriptor) (enumerable : bool) : ObjectPropertyDescriptor :=
  if enumerable then set_bits d EnumerablePresent NonEnumerablePresent
  else set_bits d NonEnumerablePresent EnumerablePresent.
Definition setConfigurable (d : ObjectPropertyDescriptor) (configurable : bool) : ObjectPropertyDescriptor :=
  if configurable then set_bits d ConfigurablePresent NonConfigurablePresent
  else set_bits d NonConfigurablePresent ConfigurablePresent.
Definition setWritable (d : ObjectPropertyDescriptor) (writable : bool) : ObjectPropertyDescriptor :=
  if writable then set_bits d WritablePresent NonWritablePresent
  else set_bits d NonWritablePresent WritablePresent.
Definition setValue (d : ObjectPropertyDescriptor) (v : Z) : ObjectPropertyDescriptor :=
  mkDescriptor (m_isDataProperty d) (Z.lor (m_property d) ValuePresent) (SlotValue v).
Definition setGetter (d : ObjectPropertyDescriptor) (g : Z) : ObjectPropertyDescriptor :=
  mkDescriptor (m_isDataProperty d) (m_property d) (SlotGetterSetter (mkGetterSetter g (setter (getterSetter d)))).
Definition setSetter (d : ObjectPropertyDescriptor) (s : Z) : ObjectPropertyDescriptor :=
  mkDescriptor (m_isDataProperty d) (m_property d) (SlotGetterSetter (mkGetterSetter (getter (getterSetter d)) s)).

(** The assertion that descriptors are made with. *)
Definition checkProperty (d : ObjectPropertyDescriptor) : bool :=
  if bit d WritablePresent && bit d NonWritablePresent then false
  else if bit d EnumerablePresent && bit d NonEnumerablePresent then false
  else if bit d ConfigurablePresent && bit d NonConfigurablePresent then false
  else if negb (m_isDataProperty d)
          && negb (Z.lor (Z.lor (Z.land (m_property d) WritablePresent) (Z.land (m_property d) NonWritablePresent))
                     (Z.land (m_property d) ValuePresent) =? 0) then false
  else true.

(** The constructor from an object.  [get] is the lookup of the six fields in
    the object, with its getters called; they are read in this order. *)
Inductive Field := FEnumerable | FConfigurable | FValue | FWritable | FGet | FSet.
Definition of_object (h : heap) (isCallable : Z -> bool) (get : Field -> option Z)
  : result ObjectPropertyDescriptor :=
  let d := mkDescriptor true 0 (SlotValue ValueEmpty) in
  let d := match get FEnumerable with Some v => setEnumerable d (toBoolean h v) | None => d end in
  let d := match get FConfigurable with Some v => setConfigurable d (toBoolean h v) | None => d end in
  let '(d, hasValue) := match get FValue with Some v => (setValue d v, true) | None => (d, false) end in
  let '(d, hasWritable) :=
    match get FWritable with Some v => (setWritable d (toBoolean h v), true) | None => (d, false) end in
  d ← match get FGet with
      | Some g =>
          if negb (isCallable g) && negb (isUndefined g) then Throw TypeError
          else Ok (mkDescriptor false (m_property d) (SlotGetterSetter (mkGetterSetter g ValueEmpty)))
      | None => Ok d
      end;
  d ← match get FSet with
      | Some s =>
          if negb (isCallable s) && negb (isUndefined s) then Throw TypeError
          else if m_isDataProperty d
          then Ok (mkDescriptor false (m_property d) (SlotGetterSetter (mkGetterSetter ValueEmpty s)))
          else Ok (setSetter d s)
      | None => Ok d
      end;
  if negb (m_isDataProperty d) && (hasWritable || hasValue) then Throw TypeError else Ok d.

(** To and from the descriptors of structures. *)
Definition toObjectStructurePropertyDescriptor (d : ObjectPropertyDescriptor) : Z :=
  if isDataProperty d then
    let f := if isWritable d then StructureDescriptor.WritablePresent else 0 in
    let f := if isConfigurable d then Z.lor f StructureDescriptor.ConfigurablePresent else f in
    let f := if isEnumerable d then Z.lor f StructureDescriptor.EnumerablePresent else f in
    StructureDescriptor.createDataDescriptor f
  else
    let f := 0 in
    let f := if isConfigurable d then Z.lor f StructureDescriptor.ConfigurablePresent else f in
    let f := if isEnumerable d then Z.lor f StructureDescriptor.EnumerablePresent else f in
    let f := if hasJSGetter d then Z.lor f StructureDescriptor.HasJSGetter else f in
    let f := if hasJSSetter d then Z.lor f StructureDescriptor.HasJSSetter else f in
    StructureDescriptor.createAccessorDescriptor f.

Definition fromObjectStructurePropertyDescriptor
    (natives : gmap Z StructureDescriptor.NativeGetterSetterData) (desc : Z) (v : Slot)
  : ObjectPropertyDescriptor :=
  let ret :=
    if StructureDescriptor.isDataProperty desc
    then setWritable (of_value (slot_value v) 0) (StructureDescriptor.isWritable natives desc)
    else of_getterSetter (slot_getterSetter v) 0 in
  let ret := setEnumerable ret (StructureDescriptor.isEnumerable natives desc) in
  setConfigurable ret (StructureDescriptor.isConfigurable natives desc).

(** [fromObjectPropertyDescriptor] creates an object with these data
    properties, in this order. *)
Definition fromObjectPropertyDescriptor (d : ObjectPropertyDescriptor) : list (Field * Z) :=
  (if negb (isAccessorDescriptor d) then
     (if isValuePresent d then [(FValue, value d)] else []) ++
     (if isWritablePresent d then [(FWritable, Value_bool (isWritable d))] else [])
   else
     (if hasJSGetter d then [(FGet, getter (getterSetter d))] else []) ++
     (if hasJSSetter d then [(FSet, setter (getterSetter d))] else [])) ++
  (if isEnumerablePresent d then [(FEnumerable, Value_bool (isEnumerable d))] else []) ++
  (if isConfigurablePresent d then [(FConfigurable, Value_bool (isConfigurable d))] else []).

Definition completePropertyDescriptor (d : ObjectPropertyDescriptor) : ObjectPropertyDescriptor :=
  let d :=
    if isGenericDescriptor d || isDataDescriptor d then
      let d := if negb (isValuePresent d) then setValue d ValueUndefined else d in
      if negb (isWritablePresent d) then setWritable d false else d
    else
      let d := if negb (hasJSGetter d) then setGetter d ValueUndefined else d in
      if negb (hasJSSetter d) then setSetter d ValueUndefined else d in
  let d := if negb (isEnumerablePresent d) then setEnumerable d false else d in
  if negb (isConfigurablePresent d) then setConfigurable d false else d.

End PropertyDescriptor.

(** * Objects *)
Module Objects.
Import Word Heap PropertyDescriptor StructureSpec Structures.

(** [m_prototype] is [None] for null; objects that override the internal
    methods (exotic objects) have [m_isOrdinary] false. *)
Record Object := mkObject {
  m_structure : nat;
  m_prototype : option Z;
  m_values : list Slot;
  m_isExtensible : bool;
  m_isOrdinary : bool
}.
Definition with_property (o : Object) (structure : nat) (values : list Slot) : Object :=
  mkObject structure (m_prototype o) values (m_isExtensible o) (m_isOrdinary o).

(** A name that is a small integer is spelled only when it is needed. *)
Inductive ObjectPropertyName := PUInt (uintValue : Z) | PName (m_name : Z).

(** [ObjectGetResult] of a property that exists. *)
Inductive GetPayload :=
  | GotValue (v : Z)
  | GotNative (data : StructureDescriptor.NativeGetterSetterData) (internalData : Z)
  | GotAccessor (x : JSGetterSetter).
Record ObjectGetResult := mkGetResult {
  g_payload : GetPayload;
  g_isWritable : bool;
  g_isEnumerable : bool;
  g_isConfigurable : bool
}.
Definition g_isDataProperty (r : ObjectGetResult) : bool :=
  match g_payload r with GotAccessor _ => false | _ => true end.

Section Objects.
Context {St : Type} `{StructureOps St}.
Context (h : heap) (natives : gmap Z StructureDescriptor.NativeGetterSetterData).
(** The name [String::fromUint32] makes for an integer, and the address that a
    new record of a native accessor is allocated at. *)
Context (uint_name : Z -> Z) (alloc_native : StructureDescriptor.NativeGetterSetterData -> Z).

Definition toObjectStructurePropertyName (P : ObjectPropertyName) : Z :=
  match P with PUInt i => uint_name i | PName n => n end.

Definition native_at (d : Z) : result StructureDescriptor.NativeGetterSetterData := defined (natives !! d).

Definition getOwnProperty (s : St) (o : Object) (P : ObjectPropertyName)
  : result (St * option ObjectGetResult) :=
  if match P with PUInt _ => negb (st_hasIndex s (m_structure o)) | PName _ => false end then Ok (s, None)
  else
    '(s, r) ← st_find s (m_structure o) (toObjectStructurePropertyName P);
    match r with
    | None => Ok (s, None)
    | Some idx =>
        l ← st_properties s (m_structure o);
        item ← defined (l !! idx);
        slot ← defined (m_values o !! idx);
        let desc := m_descriptor item in
        let has a := StructureDescriptor.presentAttribute natives desc a in
        payload ←
          (if StructureDescriptor.isDataProperty desc then
             if negb (StructureDescriptor.isNativeAccessorProperty desc) then Ok (GotValue (slot_value slot))
             else data ← native_at desc; Ok (GotNative data (slot_value slot))
           else Ok (GotAccessor (slot_getterSetter slot)));
        Ok (s, Some (mkGetResult payload
                       (StructureDescriptor.isDataProperty desc && has StructureDescriptor.WritablePresent)
                       (has StructureDescriptor.EnumerablePresent)
                       (has StructureDescriptor.ConfigurablePresent)))
    end.

(** ** Defining a property *)

Definition setOwnDataPropertyUtilForObjectInner (o : Object) (idx : nat) (desc : Z) (newValue receiver : Z)
  : result (Object * bool) :=
  old ← defined (m_values o !! idx);
  if StructureDescriptor.isPlainDataProperty desc
  then Ok (with_property o (m_structure o) (<[idx := SlotValue newValue]> (m_values o)), true)
  else
    data ← native_at desc;
    let '(ret, t) := StructureDescriptor.m_setter data receiver (slot_value old) newValue in
    Ok (with_property o (m_structure o) (<[idx := SlotValue t]> (m_values o)), ret).

Definition getOwnDataPropertyUtilForObject (desc : Z) (slot : Slot) (receiver : Z) : result Z :=
  if StructureDescriptor.isPlainDataProperty desc then Ok (slot_value slot)
  else data ← native_at desc; Ok (StructureDescriptor.m_getter data receiver (slot_value slot)).

(** The first rejections, for a property that is not configurable. *)
Definition rejects_attributes (current : Z) (desc : ObjectPropertyDescriptor) : bool :=
  negb (StructureDescriptor.isConfigurable natives current)
  && (isConfigurable desc
      || (isEnumerablePresent desc
          && negb (eqb (isEnumerable desc) (StructureDescriptor.isEnumerable natives current)))).

(** The validation by kinds: [None] rejects; otherwise whether the kind
    changes, and the descriptor to start from. *)
Definition validate (current : Z) (currentValue : Z) (slot : Slot) (desc newDesc : ObjectPropertyDescriptor)
  : option (bool * ObjectPropertyDescriptor) :=
  let configurable := StructureDescriptor.isConfigurable natives current in
  let writable := StructureDescriptor.isWritable natives current in
  if isGenericDescriptor desc then Some (false, newDesc)
  else if negb (eqb (StructureDescriptor.isDataProperty current) (isDataDescriptor desc)) then
    if negb configurable then None
    else
      let f := if configurable then ConfigurablePresent else NonConfigurablePresent in
      let f := Z.lor f (if StructureDescriptor.isEnumerable natives current
                        then EnumerablePresent else NonEnumerablePresent) in
      Some (true, if StructureDescriptor.isDataProperty current then of_getterSetter (getterSetter desc) f
                  else of_value (if isValuePresent desc then value desc else ValueUndefined) f)
  else if StructureDescriptor.isDataProperty current && isDataDescriptor desc then
    if negb configurable
       && ((negb writable && isWritable desc)
           || (negb writable && isValuePresent desc
               && negb (equalsToByTheSameValueAlgorithm h (value desc) currentValue)))
    then None else Some (false, newDesc)
  else
    let currgs := slot_getterSetter slot in
    if negb configurable
       && ((hasSetter (getterSetter desc)
            && negb (setter (getterSetter desc) =? (if hasSetter currgs then setter currgs else ValueUndefined)))
           || (hasGetter (getterSetter desc)
               && negb (getter (getterSetter desc) =? (if hasGetter currgs then getter currgs else ValueUndefined))))
    then None else Some (false, newDesc).

(** The fields of the request replace those of the new descriptor. *)
Definition merge_payload (desc newDesc : ObjectPropertyDescriptor) : ObjectPropertyDescriptor :=
  if isDataDescriptor newDesc then
    let n := if isValuePresent desc then setValue newDesc (value desc)
             else if negb (isValuePresent newDesc) then setValue newDesc ValueUndefined else newDesc in
    if isWritablePresent desc then setWritable n (isWritable desc) else n
  else if isAccessorDescriptor desc then
    let n := if hasJSGetter desc then setGetter newDesc (getter (getterSetter desc)) else newDesc in
    if hasJSSetter desc then setSetter n (setter (getterSetter desc)) else n
  else newDesc.
Definition merge_attributes (desc newDesc : ObjectPropertyDescriptor) : ObjectPropertyDescriptor :=
  let n := if isConfigurablePresent desc then setConfigurable newDesc (isConfigurable desc) else newDesc in
  if isEnumerablePresent desc then setEnumerable n (isEnumerable desc) else n.
Definition merge (desc newDesc : ObjectPropertyDescriptor) : ObjectPropertyDescriptor :=
  merge_attributes desc (merge_payload desc newDesc).

Definition attributes_change (current : Z) (newDesc : ObjectPropertyDescriptor) : bool :=
  if isDataDescriptor newDesc && isWritablePresent newDesc
     && negb (eqb (isWritable newDesc) (StructureDescriptor.isWritable natives current)) then true
  else if isEnumerablePresent newDesc
          && negb (eqb (isEnumerable newDesc) (StructureDescriptor.isEnumerable natives current)) then true
  else isConfigurablePresent newDesc
       && negb (eqb (isConfigurable newDesc) (StructureDescriptor.isConfigurable natives current)).

(** Writing the property back, with a new structure if its descriptor changed. *)
Definition commit (s : St) (o : Object) (self : Z) (idx : nat) (current : Z) (shouldDelete : bool)
    (desc newDesc : ObjectPropertyDescriptor) : result (St * Object * bool) :=
  let put o := with_property o (m_structure o) (<[idx := SlotGetterSetter (getterSetter newDesc)]> (m_values o)) in
  if negb shouldDelete then
    if isDataDescriptor newDesc then
      if isValuePresent desc then
        '(o, b) ← setOwnDataPropertyUtilForObjectInner o idx current (value newDesc) self; Ok (s, o, b)
      else Ok (s, o, true)
    else Ok (s, put o, true)
  else
    d ←
      (if isDataDescriptor newDesc && StructureDescriptor.isNativeAccessorProperty current then
         old ← native_at current;
         Ok (alloc_native (StructureDescriptor.new_native (isWritable newDesc) (isEnumerable newDesc)
               (isConfigurable newDesc) (StructureDescriptor.m_getter old) (StructureDescriptor.m_setter old)))
       else Ok (toObjectStructurePropertyDescriptor newDesc));
    '(s, j) ← st_replace s (m_structure o) idx d;
    let o := with_property o j (m_values o) in
    if isDataDescriptor newDesc then
      '(o, b) ← setOwnDataPropertyUtilForObjectInner o idx d (value newDesc) self; Ok (s, o, b)
    else Ok (s, put o, true).

Definition defineOwnPropertyMethod (s : St) (o : Object) (self : Z) (P : ObjectPropertyName)
    (desc : ObjectPropertyDescriptor) : result (St * Object * bool) :=
  let propertyName := toObjectStructurePropertyName P in
  '(s, r) ← st_find s (m_structure o) propertyName;
  match r with
  | None =>
      if negb (m_isExtensible o) then Ok (s, o, false)
      else
        '(s, j) ← st_add s (m_structure o) propertyName (toObjectStructurePropertyDescriptor desc);
        let v := if isDataProperty desc
                 then SlotValue (if isValuePresent desc then value desc else ValueUndefined)
                 else SlotGetterSetter (getterSetter desc) in
        Ok (s, with_property o j (m_values o ++ [v]), true)
  | Some idx =>
      l ← st_properties s (m_structure o);
      item ← defined (l !! idx);
      slot ← defined (m_values o !! idx);
      let current := m_descriptor item in
      if rejects_attributes current desc then Ok (s, o, false)
      else
        v ← (if StructureDescriptor.isNativeAccessorProperty current
             then v ← getOwnDataPropertyUtilForObject current slot self; Ok (SlotValue v)
             else Ok slot);
        let newDesc := fromObjectStructurePropertyDescriptor natives current v in
        currentValue ← (if StructureDescriptor.isDataProperty current
                        then getOwnDataPropertyUtilForObject current slot self else Ok ValueUndefined);
        match validate current currentValue slot desc newDesc with
        | None => Ok (s, o, false)
        | Some (shouldDelete, newDesc) =>
            let newDesc := merge desc newDesc in
            commit s o self idx current (shouldDelete || attributes_change current newDesc) desc newDesc
        end
  end.

(** ** Deleting a property and preventing extensions *)

Definition deleteOwnProperty (s : St) (o : Object) (P : ObjectPropertyName) : result (St * Object * bool) :=
  '(s, r) ← getOwnProperty s o P;
  match r with
  | Some r =>
      if g_isConfigurable r then
        '(s, i) ← st_find s (m_structure o) (toObjectStructurePropertyName P);
        idx ← defined i;
        '(s, j) ← st_remove s (m_structure o) idx;
        Ok (s, with_property o j (delete idx (m_values o)), true)
      else Ok (s, o, false)
  | None => Ok (s, o, true)
  end.

Definition markThisObjectDontNeedStructureTransitionTable (s : St) (o : Object) : result (St * Object) :=
  '(s, j) ← st_convert s (m_structure o); Ok (s, with_property o j (m_values o)).
Definition preventExtensions (s : St) (o : Object) : result (St * Object) :=
  '(s, o) ← markThisObjectDontNeedStructureTransitionTable s o;
  Ok (s, mkObject (m_structure o) (m_prototype o) (m_values o) false (m_isOrdinary o)).

(** ** Own keys, in the order of the specification *)

Inductive OwnKey :=
  | KeyOfIndex (v : Z)   (* a new string, the decimal numeral *)
  | KeyOfPointer (p : Z).

(** Insertion into [std::multiset]: after the elements that are not greater. *)
Fixpoint multiset_insert (x : Z) (l : list Z) : list Z :=
  match l with
  | [] => [x]
  | y :: l => if x <? y then x :: y :: l else y :: multiset_insert x l
  end.
Definition classify (acc : list Z * list Z * list Z) (item : ObjectStructureItem) : list Z * list Z * list Z :=
  let '(indexes, strings, symbols) := acc in
  let name := m_propertyName item in
  let indexProperty := PropertyName.tryToUseAsIndexProperty h name in
  if negb (indexProperty =? Decimal.InvalidIndex32Value)
  then (multiset_insert indexProperty indexes, strings, symbols)
  else if PropertyName.isSymbol h name then (indexes, strings, symbols ++ [name])
  else (indexes, strings ++ [PropertyName.plainString name], symbols).
Definition ownPropertyKeys (s : St) (o : Object) : result (list OwnKey) :=
  l ← st_properties s (m_structure o);
  let '(indexes, strings, symbols) := fold_left classify l ([], [], []) in
  Ok ((KeyOfIndex <$> indexes) ++ (KeyOfPointer <$> strings) ++ (KeyOfPointer <$> symbols)).

End Objects.
End Objects.

(** * Property descriptors in ECMA-262 *)
Module DescriptorSpec.
Import Word.

(** A Property Descriptor record, and a property. *)
Record Fields := mkFields {
  f_value : option Z;
  f_writable : option bool;
  f_get : option Z;
  f_set : option Z;
  f_enumerable : option bool;
  f_configurable : option bool
}.
Inductive Property :=
  | DataProperty (v : Z) (writable enumerable configurable : bool)
  | AccessorProperty (get set : Z) (enumerable configurable : bool).

Definition present {A} (o : option A) : bool := match o with Some _ => true | None => false end.
Definition IsAccessorDescriptor (D : Fields) : bool := present (f_get D) || present (f_set D).
Definition IsDataDescriptor (D : Fields) : bool := present (f_value D) || present (f_writable D).
Definition configurable (p : Property) : bool :=
  match p with DataProperty _ _ _ c | AccessorProperty _ _ _ c => c end.
Definition enumerable (p : Property) : bool :=
  match p with DataProperty _ _ e _ | AccessorProperty _ _ e _ => e end.

Section Spec.
Variable SameValue : Z -> Z -> bool.

Definition agrees (o : option Z) (v : Z) : bool := match o with Some x => SameValue x v | None => true end.

(** Steps 5a to 5e of ValidateAndApplyPropertyDescriptor, for a property that is
    not configurable. *)
Definition allowed (D : Fields) (current : Property) : bool :=
  negb (default false (f_configurable D)) &&
  match f_enumerable D with Some e => eqb e (enumerable current) | None => true end &&
  match current with
  | DataProperty v w _ _ =>
      negb (IsAccessorDescriptor D) && (w || (negb (default false (f_writable D)) && agrees (f_value D) v))
  | AccessorProperty g s _ _ => negb (IsDataDescriptor D) && agrees (f_get D) g && agrees (f_set D) s
  end.

(** Steps 2 and 6: a new property, and the change of one. *)
Definition create_property (D : Fields) : Property :=
  let e := default false (f_enumerable D) in
  let c := default false (f_configurable D) in
  if IsAccessorDescriptor D
  then AccessorProperty (default ValueUndefined (f_get D)) (default ValueUndefined (f_set D)) e c
  else DataProperty (default ValueUndefined (f_value D)) (default false (f_writable D)) e c.
Definition change_property (D : Fields) (current : Property) : Property :=
  let e := default (enumerable current) (f_enumerable D) in
  let c := default (configurable current) (f_configurable D) in
  match current with
  | DataProperty v w _ _ =>
      if IsAccessorDescriptor D
      then AccessorProperty (default ValueUndefined (f_get D)) (default ValueUndefined (f_set D)) e c
      else DataProperty (default v (f_value D)) (default w (f_writable D)) e c
  | AccessorProperty g s _ _ =>
      if IsDataDescriptor D
      then DataProperty (default ValueUndefined (f_value D)) (default false (f_writable D)) e c
      else AccessorProperty (default g (f_get D)) (default s (f_set D)) e c
  end.

(** ValidateAndApplyPropertyDescriptor: [None] is the answer false. *)
Definition ValidateAndApply (extensible : bool) (D : Fields) (current : option Property) : option Property :=
  match current with
  | None => if extensible then Some (create_property D) else None
  | Some p => if configurable p || allowed D p then Some (change_property D p) else None
  end.
End Spec.
End DescriptorSpec.

(** * The bits of a descriptor *)
Module DescriptorFacts.
Import Word Heap PropertyDescriptor DescriptorSpec.

Lemma land_bit p k : 0 <= k -> negb (Z.land p (Z.shiftl 1 k) =? 0) = Z.testbit p k.
Proof.
  intros Hk. rewrite Z.shiftl_1_l. apply eq_true_iff_eq. rewrite negb_true_iff, Z.eqb_neq. split.
  - intros N. destruct (Z.testbit p k) eqn:E; [reflexivity|]. exfalso. apply N. apply Z.bits_inj'. intros m Hm0.
    rewrite Z.land_spec, Z.bits_0. destruct (Z.eq_dec m k) as [->|Hm]; [now rewrite E|].
    rewrite Z.pow2_bits_false by lia. apply andb_false_r.
  - intros E N. assert (Z.testbit (Z.land p (2 ^ k)) k = false) as F by now rewrite N, Z.bits_0.
    rewrite Z.land_spec, E, Z.pow2_bits_true in F by assumption. discriminate.
Qed.

Lemma either_bit p i j : 0 <= i -> 0 <= j ->
  negb (Z.lor (Z.land p (Z.shiftl 1 i)) (Z.land p (Z.shiftl 1 j)) =? 0) = Z.testbit p i || Z.testbit p j.
Proof.
  intros Hi Hj. rewrite <- !land_bit by assumption. apply eq_true_iff_eq.
  rewrite orb_true_iff, !negb_true_iff, !Z.eqb_neq, Z.lor_eq_0_iff. destruct (Z.eq_dec (Z.land p (Z.shiftl 1 i)) 0); intuition.
Qed.

Lemma testbit_set p i j k : 0 <= i -> 0 <= j -> 0 <= k ->
  Z.testbit (Z.ldiff (Z.lor p (Z.shiftl 1 i)) (Z.shiftl 1 j)) k = (Z.testbit p k || (i =? k)) && negb (j =? k).
Proof.
  intros Hi Hj Hk. rewrite Z.ldiff_spec, Z.lor_spec, !Z.shiftl_1_l, !Z.pow2_bits_eqb by assumption. reflexivity.
Qed.
Lemma testbit_add p i k : 0 <= i -> 0 <= k -> Z.testbit (Z.lor p (Z.shiftl 1 i)) k = Z.testbit p k || (i =? k).
Proof. intros Hi Hk. now rewrite Z.lor_spec, Z.shiftl_1_l, Z.pow2_bits_eqb. Qed.

(** Questions about a descriptor as questions about the bits 1 to 7. *)
Ltac descriptor_bits :=
  unfold isDataDescriptor, isGenericDescriptor, isAccessorDescriptor, isDataProperty,
    isWritablePresent, isEnumerablePresent, isConfigurablePresent, isValuePresent,
    isWritable, isEnumerable, isConfigurable, setWritable, setEnumerable, setConfigurable, setValue, setGetter, setSetter,
    set_bits, bit, either, hasJSGetter, hasJSSetter, value, getterSetter in *;
  unfold WritablePresent, EnumerablePresent, ConfigurablePresent, NonWritablePresent, NonEnumerablePresent,
    NonConfigurablePresent, ValuePresent in *;
  cbn [m_property m_isDataProperty m_union slot_value slot_getterSetter m_getter m_setter getter setter] in *;
  rewrite ?either_bit, ?land_bit in * by lia.
Ltac descriptor_case b := destruct b; descriptor_bits; rewrite ?testbit_set, ?testbit_add by lia; cbn [Z.eqb Pos.eqb negb andb orb];
  rewrite ?orb_false_r, ?orb_true_r, ?andb_true_r, ?andb_false_r; reflexivity.

Section Setters.
Context (d : ObjectPropertyDescriptor) (b : bool) (v : Z).

Lemma setWritable_facts :
  isWritable (setWritable d b) = b /\ isWritablePresent (setWritable d b) = true /\
  isEnumerable (setWritable d b) = isEnumerable d /\ isEnumerablePresent (setWritable d b) = isEnumerablePresent d /\
  isConfigurable (setWritable d b) = isConfigurable d /\
  isConfigurablePresent (setWritable d b) = isConfigurablePresent d /\
  isValuePresent (setWritable d b) = isValuePresent d /\ m_union (setWritable d b) = m_union d /\
  m_isDataProperty (setWritable d b) = m_isDataProperty d.
Proof. split_and!; descriptor_case b. Qed.

Lemma setEnumerable_facts :
  isEnumerable (setEnumerable d b) = b /\ isEnumerablePresent (setEnumerable d b) = true /\
  isWritable (setEnumerable d b) = isWritable d /\ isWritablePresent (setEnumerable d b) = isWritablePresent d /\
  isConfigurable (setEnumerable d b) = isConfigurable d /\
  isConfigurablePresent (setEnumerable d b) = isConfigurablePresent d /\
  isValuePresent (setEnumerable d b) = isValuePresent d /\ m_union (setEnumerable d b) = m_union d /\
  m_isDataProperty (setEnumerable d b) = m_isDataProperty d.
Proof. split_and!; descriptor_case b. Qed.

Lemma setConfigurable_facts :
  isConfigurable (setConfigurable d b) = b /\ isConfigurablePresent (setConfigurable d b) = true /\
  isWritable (setConfigurable d b) = isWritable d /\ isWritablePresent (setConfigurable d b) = isWritablePresent d /\
  isEnumerable (setConfigurable d b) = isEnumerable d /\
  isEnumerablePresent (setConfigurable d b) = isEnumerablePresent d /\
  isValuePresent (setConfigurable d b) = isValuePresent d /\ m_union (setConfigurable d b) = m_union d /\
  m_isDataProperty (setConfigurable d b) = m_isDataProperty d.
Proof. split_and!; descriptor_case b. Qed.

Lemma setValue_facts :
  isValuePresent (setValue d v) = true /\
  isWritable (setValue d v) = isWritable d /\ isWritablePresent (setValue d v) = isWritablePresent d /\
  isEnumerable (setValue d v) = isEnumerable d /\ isEnumerablePresent (setValue d v) = isEnumerablePresent d /\
  isConfigurable (setValue d v) = isConfigurable d /\
  isConfigurablePresent (setValue d v) = isConfigurablePresent d.
Proof. split_and!; descriptor_case b. Qed.
End Setters.

End DescriptorFacts.

(** * What descriptors and slots stand for *)
Module Denotation.
Import Word WordFacts Heap ValueSpec PropertyDescriptor DescriptorSpec DescriptorFacts Objects.

Definition fields_of (d : ObjectPropertyDescriptor) : Fields :=
  mkFields (if isDataProperty d && isValuePresent d then Some (value d) else None)
    (if isWritablePresent d then Some (isWritable d) else None)
    (if negb (isDataProperty d) && hasJSGetter d then Some (getter (getterSetter d)) else None)
    (if negb (isDataProperty d) && hasJSSetter d then Some (setter (getterSetter d)) else None)
    (if isEnumerablePresent d then Some (isEnumerable d) else None)
    (if isConfigurablePresent d then Some (isConfigurable d) else None).

(** An absent function is the undefined value. *)
Definition get_of (x : JSGetterSetter) : Z := if hasGetter x then getter x else ValueUndefined.
Definition set_of (x : JSGetterSetter) : Z := if hasSetter x then setter x else ValueUndefined.

Definition property_of (natives : gmap Z StructureDescriptor.NativeGetterSetterData) (d : Z) (slot : Slot) : Property :=
  if StructureDescriptor.isDataProperty d
  then DataProperty (slot_value slot) (StructureDescriptor.isWritable natives d)
         (StructureDescriptor.isEnumerable natives d) (StructureDescriptor.isConfigurable natives d)
  else AccessorProperty (get_of (slot_getterSetter slot)) (set_of (slot_getterSetter slot))
         (StructureDescriptor.isEnumerable natives d) (StructureDescriptor.isConfigurable natives d).
Definition property_of_descriptor (n : ObjectPropertyDescriptor) : Property :=
  if isDataProperty n
  then DataProperty (value n) (isWritable n) (isEnumerable n) (isConfigurable n)
  else AccessorProperty (get_of (getterSetter n)) (set_of (getterSetter n)) (isEnumerable n) (isConfigurable n).

(** SameValue of the language values that words denote. *)
Definition SameValue (h : heap) (v w : Z) : bool :=
  match denote h v, denote h w with Some x, Some y => js_sameValue x y | _, _ => false end.

Definition value_ok (h : heap) (v : Z) : Prop := in_u 64 v /\ is_Some (denote h v).
Definition function_ok (h : heap) (v : Z) : Prop := v = ValueUndefined \/ (in_u 64 v /\ isObject h v = true).
Definition getterSetter_ok (h : heap) (x : JSGetterSetter) : Prop :=
  (hasGetter x = true -> function_ok h (getter x)) /\ (hasSetter x = true -> function_ok h (setter x)).

(** Descriptors as the engine makes them from objects and for its own use. *)
Definition descriptor_ok (h : heap) (d : ObjectPropertyDescriptor) : Prop :=
  match m_union d with
  | SlotValue v => m_isDataProperty d = true /\ (isValuePresent d = true -> value_ok h v)
  | SlotGetterSetter x =>
      m_isDataProperty d = false /\ hasGetter x || hasSetter x = true /\ getterSetter_ok h x /\
      isDataDescriptor d = false
  end.

(** A property that is no native accessor, with a slot of its kind. *)
Definition slot_ok (h : heap) (d : Z) (slot : Slot) : Prop :=
  Z.testbit d 0 = true /\
  match slot with
  | SlotValue v => StructureDescriptor.isDataProperty d = true /\ value_ok h v
  | SlotGetterSetter x => StructureDescriptor.isDataProperty d = false /\ getterSetter_ok h x
  end.

Lemma undefined_ok h : value_ok h ValueUndefined.
Proof. split; [unfold in_u; vm_compute; intuition congruence|]. eexists. reflexivity. Qed.

Lemma same_value h v w : value_ok h v -> value_ok h w -> equalsToByTheSameValueAlgorithm h v w = SameValue h v w.
Proof.
  intros [Hv [x Dx]] [Hw [y Dy]]. unfold SameValue. rewrite Dx, Dy. now apply sameValue_spec.
Qed.

Lemma denote_object h v : in_u 64 v -> isObject h v = true -> denote h v = Some (JObject v).
Proof.
  intros Hv Ho. unfold isObject in Ho. apply andb_true_iff in Ho as [Hp Hc]. unfold denote.
  rewrite (isPointer_not_number v Hv Hp), Hp. destruct (h !! v) as [[]|]; try discriminate. reflexivity.
Qed.

Lemma same_function h v w : function_ok h v -> function_ok h w -> (v =? w) = SameValue h v w.
Proof.
  assert (denote h ValueUndefined = Some JUndefined) as Du by reflexivity.
  assert (forall v, isObject h v = true -> v <> ValueUndefined) as N.
  { intros u Hu ->. unfold isObject in Hu. now apply andb_true_iff in Hu as [Hu _]. }
  intros Hv Hw. unfold SameValue. destruct Hv as [->|[Hv Ov]], Hw as [->|[Hw Ow]].
  - now rewrite Du, Z.eqb_refl.
  - rewrite Du, (denote_object h w) by assumption. cbn. apply Z.eqb_neq. intros E. now apply (N w).
  - rewrite Du, (denote_object h v) by assumption. cbn. apply Z.eqb_neq. now apply N.
  - now rewrite (denote_object h v), (denote_object h w) by assumption.
Qed.

Lemma function_of_ok h x : getterSetter_ok h x -> function_ok h (get_of x) /\ function_ok h (set_of x).
Proof.
  intros [Hg Hs]. unfold get_of, set_of. destruct (hasGetter x), (hasSetter x); split; auto; now left.
Qed.

(** A descriptor written to a structure and read back. *)
Lemma toObjectStructurePropertyDescriptor_spec natives n :
  let d := toObjectStructurePropertyDescriptor n in
  Z.testbit d 0 = true /\
  StructureDescriptor.isDataProperty d = isDataProperty n /\
  StructureDescriptor.isEnumerable natives d = isEnumerable n /\
  StructureDescriptor.isConfigurable natives d = isConfigurable n /\
  StructureDescriptor.isWritable natives d = isDataProperty n && isWritable n.
Proof.
  unfold toObjectStructurePropertyDescriptor. destruct (isDataProperty n).
  - destruct (isWritable n), (isConfigurable n), (isEnumerable n); repeat split.
  - destruct (isConfigurable n), (isEnumerable n), (hasJSGetter n), (hasJSSetter n); repeat split.
Qed.

Lemma property_of_new natives n slot :
  (if isDataProperty n then slot = SlotValue (value n) else slot = SlotGetterSetter (getterSetter n)) ->
  property_of natives (toObjectStructurePropertyDescriptor n) slot = property_of_descriptor n.
Proof.
  intros Hs. destruct (toObjectStructurePropertyDescriptor_spec natives n) as (_ & Hk & He & Hc & Hw).
  unfold property_of, property_of_descriptor. rewrite Hk, He, Hc, Hw.
  destruct (isDataProperty n); subst slot; reflexivity.
Qed.

Lemma tagged_plain d : Z.testbit d 0 = true -> StructureDescriptor.isDataProperty d = true ->
  StructureDescriptor.isPlainDataProperty d = true /\ StructureDescriptor.isNativeAccessorProperty d = false.
Proof.
  intros T. unfold StructureDescriptor.isPlainDataProperty, StructureDescriptor.isNativeAccessorProperty,
    StructureDescriptor.isDataProperty, StructureDescriptor.mode.
  pose proof (land_bit d 0 ltac:(lia)) as E0. change (Z.shiftl 1 0) with 1 in E0. rewrite E0, T. change 64 with (2 ^ 6).
  destruct (Z.testbit d 6) eqn:E.
  - assert (Z.land d (2 ^ 6) = 2 ^ 6) as ->.
    { apply Z.bits_inj'. intros k Hk. rewrite Z.land_spec, Z.pow2_bits_eqb by lia.
      destruct (6 =? k) eqn:F; [|apply andb_false_r]. apply Z.eqb_eq in F. subst. now rewrite E. }
    discriminate.
  - assert (Z.land d (2 ^ 6) = 0) as ->; [|split; reflexivity].
    apply Z.bits_inj'. intros k Hk. rewrite Z.land_spec, Z.pow2_bits_eqb, Z.bits_0 by lia.
    destruct (6 =? k) eqn:F; [|apply andb_false_r]. apply Z.eqb_eq in F. subst. now rewrite E.
Qed.

Lemma tagged_not_native d : Z.testbit d 0 = true -> StructureDescriptor.isNativeAccessorProperty d = false.
Proof.
  intros T. destruct (StructureDescriptor.isDataProperty d) eqn:E; [now apply tagged_plain|].
  unfold StructureDescriptor.isNativeAccessorProperty, StructureDescriptor.isDataProperty in *.
  apply Z.leb_gt in E. apply Z.eqb_neq. lia.
Qed.

End Denotation.

(** * Validation against the specification *)
Module DefineFacts.
Import Word Heap PropertyDescriptor DescriptorSpec DescriptorFacts Denotation Objects.

Section Define.
Context (h : heap) (natives : gmap Z StructureDescriptor.NativeGetterSetterData).

(** Conversions of kind and of attributes, on the descriptors of the code. *)
Lemma fromStructure_spec current slot : slot_ok h current slot ->
  let n := fromObjectStructurePropertyDescriptor natives current slot in
  isDataProperty n = StructureDescriptor.isDataProperty current /\
  m_union n = slot /\
  isValuePresent n = isDataProperty n /\ isWritablePresent n = isDataProperty n /\
  isWritable n = isDataProperty n && StructureDescriptor.isWritable natives current /\
  isEnumerablePresent n = true /\ isEnumerable n = StructureDescriptor.isEnumerable natives current /\
  isConfigurablePresent n = true /\ isConfigurable n = StructureDescriptor.isConfigurable natives current.
Proof.
  intros [_ Hk]. unfold fromObjectStructurePropertyDescriptor.
  set (e := StructureDescriptor.isEnumerable natives current). set (c := StructureDescriptor.isConfigurable natives current).
  set (w := StructureDescriptor.isWritable natives current).
  set (base := if StructureDescriptor.isDataProperty current then _ else _).
  destruct (setConfigurable_facts (setEnumerable base e) c) as (Hc1 & Hc2 & Hc3 & Hc4 & Hc5 & Hc6 & Hc7 & Hc8 & Hc9).
  destruct (setEnumerable_facts base e) as (He1 & He2 & He3 & He4 & He5 & He6 & He7 & He8 & He9).
  unfold isDataProperty. rewrite Hc1, Hc2, Hc3, Hc4, Hc5, Hc6, Hc7, Hc8, Hc9, ?He1, ?He2, ?He3, ?He4, ?He7, ?He8, ?He9.
  subst base. destruct slot as [v|x]; destruct Hk as [-> _].
  - destruct (setWritable_facts (of_value v 0) w) as (Hw1 & Hw2 & _ & _ & _ & _ & Hw7 & Hw8 & Hw9).
    cbn [slot_value]. rewrite Hw1, Hw2, Hw7, Hw8, Hw9. split_and!; reflexivity.
  - split_and!; reflexivity.
Qed.

Lemma of_value_facts v a :
  isWritable (of_value v (Z.lor a 0)) = isWritable (of_value v a).
Proof. now rewrite Z.lor_0_r. Qed.

Lemma isWritable_present d : isWritable d = true -> isWritablePresent d = true.
Proof. descriptor_bits. intros ->. reflexivity. Qed.
Lemma isConfigurable_present d : isConfigurable d = true -> isConfigurablePresent d = true.
Proof. descriptor_bits. intros ->. reflexivity. Qed.

(** The descriptor a change of kind starts from. *)
Definition kind_bits (c e : bool) : Z :=
  Z.lor (if c then ConfigurablePresent else NonConfigurablePresent) (if e then EnumerablePresent else NonEnumerablePresent).
Lemma kind_change_facts e (d : ObjectPropertyDescriptor) :
  m_property d = kind_bits true e \/ m_property d = Z.lor (kind_bits true e) ValuePresent ->
  isWritablePresent d = false /\ isWritable d = false /\
  isEnumerablePresent d = true /\ isEnumerable d = e /\ isConfigurablePresent d = true /\ isConfigurable d = true.
Proof. intros [E|E]; unfold kind_bits in E; descriptor_bits; rewrite E; destruct e; repeat split. Qed.

Definition merged_union (desc n : ObjectPropertyDescriptor) : Slot :=
  if isDataProperty n then SlotValue (if isValuePresent desc then value desc else if isValuePresent n then value n else ValueUndefined)
  else if isDataProperty desc then m_union n
  else SlotGetterSetter (mkGetterSetter
         (if hasJSGetter desc then getter (getterSetter desc) else getter (getterSetter n))
         (if hasJSSetter desc then setter (getterSetter desc) else setter (getterSetter n))).

(** Everything a descriptor answers, but its kind and union. *)
Definition same_attributes (d d' : ObjectPropertyDescriptor) : Prop :=
  isEnumerable d' = isEnumerable d /\ isEnumerablePresent d' = isEnumerablePresent d /\
  isConfigurable d' = isConfigurable d /\ isConfigurablePresent d' = isConfigurablePresent d.

Lemma merge_data desc n :
  isDataProperty n = true -> isDataDescriptor n = true ->
  (isValuePresent n = true -> m_union n = SlotValue (value n)) ->
  let m := merge_payload desc n in
  isDataProperty m = true /\ m_union m = merged_union desc n /\ isValuePresent m = true /\
  isWritable m = (if isWritablePresent desc then isWritable desc else isWritable n) /\
  isWritablePresent m = isWritablePresent n || isWritablePresent desc /\ same_attributes n m.
Proof.
  intros Ek Hk Hv m. unfold m, merge_payload, merged_union, same_attributes. rewrite Hk, Ek.
  set (n0 := if isValuePresent desc then _ else _).
  assert (isDataProperty n0 = true /\ isValuePresent n0 = true /\ m_union n0 = SlotValue
    (if isValuePresent desc then value desc else if isValuePresent n then value n else ValueUndefined) /\
    isWritable n0 = isWritable n /\ isWritablePresent n0 = isWritablePresent n /\ same_attributes n n0)
    as (K1 & K2 & K3 & K4 & K5 & K6 & K7 & K8 & K9).
  { subst n0. unfold same_attributes. destruct (isValuePresent desc).
    - destruct (setValue_facts n true (value desc)) as (-> & -> & -> & -> & -> & -> & ->). now split_and!.
    - destruct (isValuePresent n) eqn:Ev; cbn [negb]; [rewrite (Hv eq_refl); now split_and!|].
      destruct (setValue_facts n true ValueUndefined) as (-> & -> & -> & -> & -> & -> & ->). now split_and!. }
  destruct (isWritablePresent desc).
  - destruct (setWritable_facts n0 (isWritable desc)) as (-> & -> & -> & -> & -> & -> & -> & -> & E9).
    unfold isDataProperty in *. rewrite E9, orb_true_r. now split_and!.
  - rewrite orb_false_r. now split_and!.
Qed.

Lemma merge_accessor desc n :
  isDataProperty n = false -> isDataDescriptor n = false -> m_union n = SlotGetterSetter (getterSetter n) ->
  let m := merge_payload desc n in
  isDataProperty m = false /\ m_union m = merged_union desc n /\
  isDataDescriptor m = false /\ same_attributes n m.
Proof.
  intros Ek Hk Hu m. unfold m, merge_payload, merged_union, same_attributes. rewrite Hk, Ek.
  unfold isAccessorDescriptor, isDataProperty in *. destruct (m_isDataProperty desc) eqn:Ed; cbn [negb]; [now split_and!|].
  unfold hasJSGetter, hasJSSetter. destruct n as [k b [v|[g s]]]; [discriminate|]. cbn in Ek. subst k.
  destruct (hasGetter (getterSetter desc)), (hasSetter (getterSetter desc)); split_and!; try reflexivity; exact Hk.
Qed.

Lemma merge_attributes_spec desc n :
  let m := merge_attributes desc n in
  isDataProperty m = isDataProperty n /\ m_union m = m_union n /\ isValuePresent m = isValuePresent n /\
  isWritable m = isWritable n /\ isWritablePresent m = isWritablePresent n /\
  isEnumerable m = (if isEnumerablePresent desc then isEnumerable desc else isEnumerable n) /\
  isEnumerablePresent m = isEnumerablePresent n || isEnumerablePresent desc /\
  isConfigurable m = (if isConfigurablePresent desc then isConfigurable desc else isConfigurable n) /\
  isConfigurablePresent m = isConfigurablePresent n || isConfigurablePresent desc.
Proof.
  intros m. unfold m, merge_attributes.
  set (n2 := if isConfigurablePresent desc then setConfigurable n (isConfigurable desc) else n).
  assert (isDataProperty n2 = isDataProperty n /\ m_union n2 = m_union n /\ isValuePresent n2 = isValuePresent n /\
    isWritable n2 = isWritable n /\ isWritablePresent n2 = isWritablePresent n /\
    isEnumerable n2 = isEnumerable n /\ isEnumerablePresent n2 = isEnumerablePresent n /\
    isConfigurable n2 = (if isConfigurablePresent desc then isConfigurable desc else isConfigurable n) /\
    isConfigurablePresent n2 = isConfigurablePresent n || isConfigurablePresent desc)
    as (L1 & L2 & L3 & L4 & L5 & L6 & L7 & L8 & L9).
  { subst n2. unfold isDataProperty. destruct (isConfigurablePresent desc).
    - destruct (setConfigurable_facts n (isConfigurable desc)) as (-> & -> & -> & -> & -> & -> & -> & -> & ->).
      rewrite orb_true_r. now split_and!.
    - rewrite orb_false_r. now split_and!. }
  destruct (isEnumerablePresent desc).
  - destruct (setEnumerable_facts n2 (isEnumerable desc)) as (-> & -> & -> & -> & -> & -> & -> & -> & E9).
    unfold isDataProperty in *. rewrite E9, L1, L2, L3, L4, L5, L8, L9, !orb_true_r. now split_and!.
  - rewrite L1, L2, L3, L4, L5, L6, L7, L8, L9, !orb_false_r. now split_and!.
Qed.

(** What [commit] needs of the merged descriptor. *)
Record good (current : Z) (slot : Slot) (D : Fields) (desc : ObjectPropertyDescriptor) (k : bool)
    (m : ObjectPropertyDescriptor) : Prop := {
  good_property : property_of_descriptor m = change_property D (property_of natives current slot);
  good_union : match m_union m with
               | SlotValue v => isDataProperty m = true /\ value_ok h v
               | SlotGetterSetter x => isDataProperty m = false /\ getterSetter_ok h x
               end;
  good_data : isDataDescriptor m = isDataProperty m;
  good_same : k = false ->
    isDataProperty m = StructureDescriptor.isDataProperty current /\
    isEnumerablePresent m = true /\ isConfigurablePresent m = true /\
    (isDataProperty m = true -> isWritablePresent m = true /\ (isValuePresent desc = false -> m_union m = slot))
}.

Lemma fields_present {A} (b : bool) (x y : A) : default y (if b then Some x else None) = (if b then x else y).
Proof. now destruct b. Qed.

Lemma union_value m v : m_union m = SlotValue v -> value m = v.
Proof. intros E. unfold value. now rewrite E. Qed.
Lemma union_getterSetter m x : m_union m = SlotGetterSetter x -> getterSetter m = x.
Proof. intros E. unfold getterSetter. now rewrite E. Qed.

(** The value of a data request, and the functions of an accessor request. *)
Lemma data_request desc : descriptor_ok h desc -> isDataProperty desc = true ->
  (isValuePresent desc = true -> value_ok h (value desc)) /\ IsAccessorDescriptor (fields_of desc) = false /\
  IsDataDescriptor (fields_of desc) = isDataDescriptor desc.
Proof.
  unfold descriptor_ok, IsAccessorDescriptor, IsDataDescriptor, fields_of, isDataDescriptor, isDataProperty.
  intros Hd Ek. cbn. rewrite Ek in *. destruct (m_union desc) as [v|x] eqn:Eu; [|now destruct Hd].
  rewrite (union_value desc v Eu). cbn. split_and!; [apply Hd|reflexivity|].
  now destruct (isValuePresent desc), (isWritablePresent desc).
Qed.
Lemma accessor_request desc : descriptor_ok h desc -> isDataProperty desc = false ->
  m_union desc = SlotGetterSetter (getterSetter desc) /\ getterSetter_ok h (getterSetter desc) /\
  IsAccessorDescriptor (fields_of desc) = true /\ IsDataDescriptor (fields_of desc) = false /\
  isDataDescriptor desc = false /\ isWritablePresent desc = false /\ isValuePresent desc = false.
Proof.
  unfold descriptor_ok, IsAccessorDescriptor, IsDataDescriptor, fields_of, isDataDescriptor, hasJSGetter, hasJSSetter,
    isDataProperty.
  intros Hd Ek. rewrite Ek in *. cbn. destruct (m_union desc) as [v|x] eqn:Eu; [now destruct Hd|].
  rewrite (union_getterSetter desc x Eu). destruct Hd as (_ & Hx & Hok & Hdd). rewrite Hdd.
  apply orb_false_iff in Hdd as [-> ->]. split_and!; auto. now destruct (hasGetter x), (hasSetter x).
Qed.

Lemma good_same_data current slot desc : slot_ok h current slot -> descriptor_ok h desc ->
  StructureDescriptor.isDataProperty current = true -> isDataProperty desc = true ->
  good current slot (fields_of desc) desc false
    (merge desc (fromObjectStructurePropertyDescriptor natives current slot)).
Proof.
  intros Hs Hd Ek Ed. destruct (data_request desc Hd Ed) as (Hv & Hacc & _).
  destruct (fromStructure_spec current slot Hs) as (N1 & N2 & N3 & N4 & N5 & N6 & N7 & N8 & N9).
  set (n := fromObjectStructurePropertyDescriptor natives current slot) in *.
  destruct Hs as [_ Hs]. destruct slot as [v|x]; [destruct Hs as [_ Hsv]|destruct Hs; congruence].
  rewrite N1, Ek in N3, N4, N5. cbn [andb] in N5. unfold isDataDescriptor in *.
  destruct (merge_data desc n ltac:(congruence) ltac:(unfold isDataDescriptor; now rewrite N3)
              ltac:(intros; rewrite N2; unfold value; now rewrite N2)) as (M1 & M2 & M3 & M4 & M5 & M6 & M7 & M8 & M9).
  destruct (merge_attributes_spec desc (merge_payload desc n)) as (A1 & A2 & A3 & A4 & A5 & A6 & A7 & A8 & A9).
  assert (merged_union desc n = SlotValue (if isValuePresent desc then value desc else v)) as Hu.
  { unfold merged_union. rewrite N1, Ek, N3. unfold value at 2. now rewrite N2. }
  rewrite Hu in M2. split; unfold merge.
  - unfold property_of_descriptor, property_of, change_property, fields_of. rewrite A1, M1, Ek.
    unfold fields_of in Hacc. rewrite Hacc. cbn [f_value f_writable f_enumerable f_configurable enumerable configurable slot_value].
    rewrite (union_value _ _ (eq_trans A2 M2)), A4, M4, A6, M6, A8, M8, N5, N7, N9, !fields_present, Ed.
    cbn [andb]. now destruct (isValuePresent desc).
  - rewrite A2, M2, A1. split; [assumption|]. destruct (isValuePresent desc); auto.
  - unfold isDataDescriptor. now rewrite A1, M1, A3, M3.
  - intros _. rewrite A1, A7, M7, A9, M9, A5, M5, N4, N6, N8, M1, A2, M2. split_and!; try reflexivity; [congruence|].
    intros _. split; [reflexivity|]. now intros ->.
Qed.

Lemma good_same_accessor current slot desc : slot_ok h current slot -> descriptor_ok h desc ->
  StructureDescriptor.isDataProperty current = false -> isDataDescriptor desc = false ->
  good current slot (fields_of desc) desc false
    (merge desc (fromObjectStructurePropertyDescriptor natives current slot)).
Proof.
  intros Hs Hd Ek Ed.
  destruct (fromStructure_spec current slot Hs) as (N1 & N2 & N3 & N4 & N5 & N6 & N7 & N8 & N9).
  set (n := fromObjectStructurePropertyDescriptor natives current slot) in *.
  destruct Hs as [_ Hs]. destruct slot as [v|x]; [destruct Hs; congruence|destruct Hs as [_ Hsx]].
  rewrite N1, Ek in N3, N4, N5. cbn [andb] in N5.
  assert (isDataDescriptor n = false) as Nd by (unfold isDataDescriptor; now rewrite N3, N4).
  destruct (merge_accessor desc n ltac:(congruence) Nd ltac:(rewrite N2; unfold getterSetter; now rewrite N2))
    as (M1 & M2 & M3 & M6 & M7 & M8 & M9).
  destruct (merge_attributes_spec desc (merge_payload desc n)) as (A1 & A2 & A3 & A4 & A5 & A6 & A7 & A8 & A9).
  set (x' := mkGetterSetter (if negb (isDataProperty desc) && hasJSGetter desc then getter (getterSetter desc) else getter x)
               (if negb (isDataProperty desc) && hasJSSetter desc then setter (getterSetter desc) else setter x)).
  assert (merged_union desc n = SlotGetterSetter x') as Hu.
  { unfold merged_union, x'. rewrite N1, Ek. destruct (isDataProperty desc); [rewrite N2; now destruct x|].
    rewrite (union_getterSetter n x N2). reflexivity. }
  rewrite Hu in M2.
  assert (IsDataDescriptor (fields_of desc) = false) as Hnd.
  { unfold IsDataDescriptor, fields_of. cbn. apply orb_false_iff in Ed as [-> ->]. now rewrite andb_false_r. }
  assert (getterSetter_ok h x' /\ get_of x' = default (get_of x) (f_get (fields_of desc)) /\
          set_of x' = default (set_of x) (f_set (fields_of desc))) as (Hx' & Hg' & Hs').
  { unfold getterSetter_ok, get_of, set_of, x', fields_of. cbn [f_get f_set].
    destruct (isDataProperty desc) eqn:Edk; cbn [negb andb]; [now destruct x|].
    destruct (accessor_request desc Hd Edk) as (_ & [Hg Hss] & _). destruct Hsx as [Hxg Hxs].
    unfold hasJSGetter, hasJSSetter. destruct (hasGetter (getterSetter desc)) eqn:Eg, (hasSetter (getterSetter desc)) eqn:Es;
      unfold hasGetter, hasSetter, getter, setter in *; cbn [m_getter m_setter default]; rewrite ?Eg, ?Es; split_and!; auto. }
  split; unfold merge.
  - unfold property_of_descriptor, property_of, change_property. rewrite A1, M1, Ek, Hnd, A6, M6, A8, M8, N7, N9.
    rewrite (union_getterSetter _ _ (eq_trans A2 M2)), Hg', Hs'. unfold fields_of. cbn. now rewrite !fields_present.
  - rewrite A2, M2, A1. now split.
  - apply orb_false_iff in M3 as [M3 M4]. unfold isDataDescriptor. now rewrite A1, M1, A3, M3, A5, M4.
  - intros _. rewrite A1, A7, M7, A9, M9, N6, N8, M1. split_and!; try reflexivity; congruence.
Qed.

(** The change of kind: the property is configurable. *)
Lemma good_to_accessor current slot desc e : slot_ok h current slot -> descriptor_ok h desc ->
  StructureDescriptor.isDataProperty current = true -> isDataProperty desc = false ->
  StructureDescriptor.isConfigurable natives current = true ->
  e = StructureDescriptor.isEnumerable natives current ->
  good current slot (fields_of desc) desc true
    (merge desc (of_getterSetter (getterSetter desc) (kind_bits true e))).
Proof.
  intros Hs Hd Ek Ed Hc He.
  destruct (accessor_request desc Hd Ed) as (Hu & Hx & Hacc & _).
  set (n := of_getterSetter (getterSetter desc) (kind_bits true e)).
  destruct (kind_change_facts e n (or_introl eq_refl)) as (K1 & K2 & K3 & K4 & K5 & K6).
  assert (isDataDescriptor n = false) as Nd by (unfold isDataDescriptor; rewrite K1; unfold n; now destruct e).
  destruct (merge_accessor desc n eq_refl Nd eq_refl) as (M1 & M2 & M3 & M6 & M7 & M8 & M9).
  destruct (merge_attributes_spec desc (merge_payload desc n)) as (A1 & A2 & A3 & A4 & A5 & A6 & A7 & A8 & A9).
  assert (merged_union desc n = SlotGetterSetter (getterSetter desc)) as Hm.
  { unfold merged_union. change (isDataProperty n) with false. rewrite Ed.
    change (getterSetter n) with (getterSetter desc). clear.
    destruct (hasJSGetter desc), (hasJSSetter desc), (getterSetter desc); reflexivity. }
  rewrite Hm in M2. split; unfold merge.
  - unfold property_of_descriptor, property_of, change_property. rewrite A1, M1, Ek, Hacc, A6, M6, A8, M8, K4, K6.
    rewrite (union_getterSetter _ _ (eq_trans A2 M2)). unfold fields_of, get_of, set_of, hasJSGetter, hasJSSetter.
    cbn [f_get f_set f_enumerable f_configurable enumerable configurable].
    rewrite !fields_present, Ed, Hc, He. reflexivity.
  - rewrite A2, M2, A1. now split.
  - apply orb_false_iff in M3 as [M3 M4]. unfold isDataDescriptor. now rewrite A1, M1, A3, M3, A5, M4.
  - discriminate.
Qed.

Lemma good_to_data current slot desc e : slot_ok h current slot -> descriptor_ok h desc ->
  StructureDescriptor.isDataProperty current = false -> isDataDescriptor desc = true ->
  StructureDescriptor.isConfigurable natives current = true ->
  e = StructureDescriptor.isEnumerable natives current ->
  good current slot (fields_of desc) desc true
    (merge desc (of_value (if isValuePresent desc then value desc else ValueUndefined) (kind_bits true e))).
Proof.
  intros Hs Hd Ek Edd Hc He.
  assert (isDataProperty desc = true) as Ed.
  { destruct (isDataProperty desc) eqn:E; [reflexivity|]. destruct (accessor_request desc Hd E) as (_ & _ & _ & _ & F & _). congruence. }
  destruct (data_request desc Hd Ed) as (Hv & _ & Hdd). rewrite Edd in Hdd.
  set (v := if isValuePresent desc then value desc else ValueUndefined).
  set (n := of_value v (kind_bits true e)).
  destruct (kind_change_facts e n (or_intror eq_refl)) as (K1 & K2 & K3 & K4 & K5 & K6).
  assert (isValuePresent n = true) as Nv by (unfold n; now destruct e).
  destruct (merge_data desc n eq_refl ltac:(unfold isDataDescriptor; now rewrite Nv) ltac:(reflexivity))
    as (M1 & M2 & M3 & M4 & M5 & M6 & M7 & M8 & M9).
  destruct (merge_attributes_spec desc (merge_payload desc n)) as (A1 & A2 & A3 & A4 & A5 & A6 & A7 & A8 & A9).
  assert (merged_union desc n = SlotValue v) as Hm.
  { unfold merged_union. rewrite Nv. cbn. unfold v. unfold value at 2. cbn. now destruct (isValuePresent desc). }
  rewrite Hm in M2. split; unfold merge.
  - unfold property_of_descriptor, property_of, change_property. rewrite A1, M1, Ek, Hdd, A4, M4, A6, M6, A8, M8, K2, K4, K6.
    rewrite (union_value _ _ (eq_trans A2 M2)). unfold fields_of.
    cbn [f_value f_writable f_enumerable f_configurable enumerable configurable].
    rewrite !fields_present, Ed, Hc, He. unfold v. now destruct (isValuePresent desc).
  - rewrite A2, M2, A1. split; [assumption|]. unfold v. destruct (isValuePresent desc); [auto|apply undefined_ok].
  - unfold isDataDescriptor. now rewrite A1, M1, A3, M3.
  - discriminate.
Qed.

(** Rejections. *)
Lemma rejects_spec current slot desc :
  rejects_attributes natives current desc =
  negb (configurable (property_of natives current slot)) &&
  negb (negb (default false (f_configurable (fields_of desc))) &&
        match f_enumerable (fields_of desc) with
        | Some e => eqb e (enumerable (property_of natives current slot)) | None => true end).
Proof.
  assert (configurable (property_of natives current slot) = StructureDescriptor.isConfigurable natives current) as ->
    by (unfold property_of; now destruct (StructureDescriptor.isDataProperty current)).
  assert (enumerable (property_of natives current slot) = StructureDescriptor.isEnumerable natives current) as ->
    by (unfold property_of; now destruct (StructureDescriptor.isDataProperty current)).
  unfold rejects_attributes, fields_of. cbn. rewrite fields_present. f_equal. rewrite negb_andb, negb_involutive. f_equal.
  - destruct (isConfigurable desc) eqn:E; [now rewrite (isConfigurable_present desc E)|now destruct (isConfigurablePresent desc)].
  - now destruct (isEnumerablePresent desc).
Qed.

(** The third conjunct of [allowed]. *)
Definition kind_allowed (D : Fields) (current : Property) : bool :=
  match current with
  | DataProperty v w _ _ =>
      negb (IsAccessorDescriptor D) && (w || (negb (default false (f_writable D)) && agrees (SameValue h) (f_value D) v))
  | AccessorProperty g s _ _ =>
      negb (IsDataDescriptor D) && agrees (SameValue h) (f_get D) g && agrees (SameValue h) (f_set D) s
  end.

Lemma writable_field desc : default false (f_writable (fields_of desc)) = isWritable desc.
Proof.
  unfold fields_of. cbn. rewrite fields_present.
  destruct (isWritable desc) eqn:E; [now rewrite (isWritable_present desc E)|now destruct (isWritablePresent desc)].
Qed.

Lemma validate_spec current slot desc : slot_ok h current slot -> descriptor_ok h desc ->
  let p := property_of natives current slot in
  let n := fromObjectStructurePropertyDescriptor natives current slot in
  match validate h natives current (if StructureDescriptor.isDataProperty current then slot_value slot else ValueUndefined)
          slot desc n with
  | None => configurable p || kind_allowed (fields_of desc) p = false
  | Some (k, n0) => configurable p || kind_allowed (fields_of desc) p = true /\
                    good current slot (fields_of desc) desc k (merge desc n0)
  end.
Proof.
  intros Hs Hd p n. subst p n. unfold validate, isGenericDescriptor, isAccessorDescriptor, kind_allowed, property_of.
  change (m_isDataProperty desc) with (isDataProperty desc). rewrite negb_involutive.
  set (c := StructureDescriptor.isConfigurable natives current). set (w := StructureDescriptor.isWritable natives current).
  pose proof Hs as [_ Hslot].
  destruct (StructureDescriptor.isDataProperty current) eqn:Ek; cbn [configurable andb].
  - destruct slot as [v|x]; [destruct Hslot as [_ Hv]|destruct Hslot; congruence]. cbn [slot_value].
    destruct (isDataProperty desc) eqn:Ed; cbn [andb negb].
    + destruct (data_request desc Hd Ed) as (Hdv & -> & Hdd). rewrite writable_field. cbn [negb andb].
      pose proof (good_same_data current (SlotValue v) desc Hs Hd Ek Ed) as Hgood.
      destruct (isDataDescriptor desc) eqn:Edd; cbn [negb andb eqb].
      * replace (agrees (SameValue h) (f_value (fields_of desc)) v)
          with (negb (isValuePresent desc && negb (equalsToByTheSameValueAlgorithm h (value desc) v))).
        2: { unfold fields_of. cbn. rewrite Ed. cbn. destruct (isValuePresent desc); cbn; [|reflexivity].
             rewrite negb_involutive. apply same_value; auto. }
        destruct c, w, (isWritable desc); cbn; try (now split);
          destruct (isValuePresent desc && negb (equalsToByTheSameValueAlgorithm h (value desc) v)); cbn; try (now split); reflexivity.
      * split; [|assumption]. unfold isDataDescriptor in Edd. apply orb_false_iff in Edd as [Ev Ew].
        assert (isWritable desc = false) as -> by (destruct (isWritable desc) eqn:E; [apply isWritable_present in E; congruence|reflexivity]).
        unfold fields_of. cbn. rewrite Ev, andb_false_r. cbn. now destruct c, w.
    + destruct (accessor_request desc Hd Ed) as (_ & _ & -> & _ & -> & _). cbn [negb andb eqb].
      destruct c eqn:Ec; cbn [negb andb orb]; [|reflexivity].
      split; [reflexivity|]. now apply good_to_accessor.
  - destruct slot as [v|x]; [destruct Hslot; congruence|destruct Hslot as [_ Hx]]. cbn [slot_getterSetter].
    destruct (isDataDescriptor desc) eqn:Edd; cbn [negb andb eqb].
    + assert (isDataProperty desc = true) as Ed.
      { destruct (isDataProperty desc) eqn:E; [reflexivity|]. destruct (accessor_request desc Hd E) as (_ & _ & _ & _ & F & _). congruence. }
      destruct (data_request desc Hd Ed) as (_ & _ & Hdd). rewrite Hdd, Edd. cbn [negb andb].
      destruct c eqn:Ec; cbn [negb andb orb]; [|reflexivity]. split; [reflexivity|]. now apply good_to_data.
    + assert (IsDataDescriptor (fields_of desc) = false) as ->.
      { unfold IsDataDescriptor, fields_of. cbn. unfold isDataDescriptor in Edd. apply orb_false_iff in Edd as [-> ->]. now rewrite andb_false_r. }
      pose proof (good_same_accessor current (SlotGetterSetter x) desc Hs Hd Ek Edd) as Hgood. cbn [negb andb].
      destruct (isDataProperty desc) eqn:Ed; cbn [negb andb].
      * split; [|assumption]. unfold fields_of. cbn. rewrite Ed. cbn. apply orb_true_r.
      * destruct (accessor_request desc Hd Ed) as (_ & Hxd & _).
        destruct (function_of_ok h x Hx) as [Fg Fs].
        assert (forall (b : bool) f g, function_ok h g -> (b = true -> function_ok h f) ->
          agrees (SameValue h) (if b then Some f else None) g = negb (b && negb (f =? g))) as Ha.
        { intros b f g Hg Hf. destruct b; cbn; [|reflexivity]. rewrite negb_involutive. symmetry. now apply same_function; auto. }
        assert (agrees (SameValue h) (f_get (fields_of desc)) (get_of x) =
                negb (hasGetter (getterSetter desc) && negb (getter (getterSetter desc) =? get_of x))) as ->.
        { unfold fields_of. cbn [f_get]. rewrite Ed. cbn [negb andb]. apply Ha; [assumption|apply Hxd]. }
        assert (agrees (SameValue h) (f_set (fields_of desc)) (set_of x) =
                negb (hasSetter (getterSetter desc) && negb (setter (getterSetter desc) =? set_of x))) as ->.
        { unfold fields_of. cbn [f_set]. rewrite Ed. cbn [negb andb]. apply Ha; [assumption|apply Hxd]. }
        fold (get_of x) (set_of x).
        destruct c; cbn; [now split|].
        destruct (hasSetter (getterSetter desc) && negb (setter (getterSetter desc) =? set_of x)); cbn;
          [now rewrite andb_false_r|].
        destruct (hasGetter (getterSetter desc) && negb (getter (getterSetter desc) =? get_of x)); cbn; [reflexivity|now split].
Qed.

End Define.
End DefineFacts.

(** * Lists of properties *)
Module PropertyList.
Import Names StructureSpec.

Section PropertyList.
Context {A : Type}.
Implicit Types (l : list (option Names.Key * A)) (k : option Names.Key).

Fixpoint find_key l k : option A :=
  match l with
  | [] => None
  | p :: l => if decide (p.1 = k) then Some p.2 else find_key l k
  end.
Fixpoint put_key l k (a : A) : list (option Names.Key * A) :=
  match l with
  | [] => [(k, a)]
  | p :: l => if decide (p.1 = k) then (k, a) :: l else p :: put_key l k a
  end.
Fixpoint delete_key l k : list (option Names.Key * A) :=
  match l with
  | [] => []
  | p :: l => if decide (p.1 = k) then l else p :: delete_key l k
  end.
End PropertyList.

Section Zip.
Context {B A : Type} (f : Z -> B -> A).

(** The properties of an object: descriptors of its structure with its slots. *)
Definition combine (v : View) (slots : list B) : list (option Names.Key * A) :=
  zip_with (fun kd slot => (kd.1, f kd.2 slot)) v slots.

Lemma find_combine v slots k : length v = length slots ->
  find_key (combine v slots) k =
  match position v k with
  | Some i => match v !! i, slots !! i with Some (_, d), Some b => Some (f d b) | _, _ => None end
  | None => None
  end.
Proof.
  revert slots. induction v as [|[k' d] v IH]; intros [|b slots] E; try discriminate; [reflexivity|].
  cbn. injection E as E. destruct (decide (k' = k)); [reflexivity|].
  change (zip_with _ v slots) with (combine v slots). rewrite (IH slots E).
  now destruct (position v k).
Qed.

Lemma combine_keys v slots : length v = length slots -> (combine v slots).*1 = v.*1.
Proof.
  revert slots. induction v as [|kd v IH]; intros [|b slots] E; try discriminate; [reflexivity|].
  injection E as E. cbn. f_equal. now apply IH.
Qed.

Lemma put_combine v slots k a : length v = length slots ->
  put_key (combine v slots) k a =
  match position v k with
  | Some i => <[i := (k, a)]> (combine v slots)
  | None => combine v slots ++ [(k, a)]
  end.
Proof.
  revert slots. induction v as [|[k' d] v IH]; intros [|b slots] E; try discriminate; [reflexivity|].
  cbn. injection E as E. destruct (decide (k' = k)); [reflexivity|].
  change (zip_with _ v slots) with (combine v slots). rewrite (IH slots E).
  now destruct (position v k).
Qed.

Lemma delete_combine v slots k i : length v = length slots -> position v k = Some i ->
  delete_key (combine v slots) k = combine (delete i v) (delete i slots).
Proof.
  revert slots i. induction v as [|[k' d] v IH]; intros [|b slots] i E H; try discriminate.
  cbn in H |- *. injection E as E. destruct (decide (k' = k)); [now injection H as <-|].
  destruct (position v k) as [j|] eqn:Ej; [|discriminate]. injection H as <-.
  change (zip_with _ v slots) with (combine v slots). now rewrite (IH slots j E eq_refl).
Qed.

Lemma combine_insert v slots i k d b : v.*1 !! i = Some k ->
  length v = length slots ->
  combine (<[i := (k, d)]> v) (<[i := b]> slots) = <[i := (k, f d b)]> (combine v slots).
Proof.
  revert slots i. induction v as [|[k' d'] v IH]; intros [|b' slots] [|i] Hk E; try discriminate; cbn in *.
  - injection Hk as ->. reflexivity.
  - injection E as E. f_equal. change (zip_with _ ?v ?s) with (combine v s). now apply IH.
Qed.

Lemma combine_snoc v slots k d b : length v = length slots ->
  combine (v ++ [(k, d)]) (slots ++ [b]) = combine v slots ++ [(k, f d b)].
Proof. intros E. unfold combine. now rewrite zip_with_app by assumption. Qed.

Lemma combine_same v slots i k d b : v !! i = Some (k, d) -> slots !! i = Some b ->
  combine v slots !! i = Some (k, f d b).
Proof. intros Hv Hs. unfold combine. rewrite lookup_zip_with, Hv. cbn. now rewrite Hs. Qed.
End Zip.
End PropertyList.

(** * Operations on one object *)
Module ObjectFacts.
Import Word Heap PropertyDescriptor DescriptorSpec Denotation Objects Names StructureSpec Structures DefineFacts PropertyList.

Section Objects.
Context {St : Type} (h : heap) (outside : bool) (names : Z -> Prop) `{StructureLaws h outside names St}.
Context (natives : gmap Z StructureDescriptor.NativeGetterSetterData).
Context (uint_name : Z -> Z) (alloc_native : StructureDescriptor.NativeGetterSetterData -> Z).

(** The structure of the object is live, and its slots fit the descriptors. *)
Definition object_ok (s : St) (o : Object) : Prop :=
  exists v, st_view s (m_structure o) = Some v /\ Forall2 (fun kd slot => slot_ok h kd.2 slot) v (m_values o).
Definition object_properties (s : St) (o : Object) : option (list (option Names.Key * Property)) :=
  (fun v => combine (property_of natives) v (m_values o)) <$> st_view s (m_structure o).

(** What an operation on an object does to the store. *)
Definition same_views (s s' : St) : Prop :=
  forall k, st_view s' k = st_view s k /\ st_shared s' k = st_shared s k.
Definition advances (s : St) (o : Object) (s' : St) (o' : Object) : Prop :=
  evolves st_view st_shared s (m_structure o) s' /\
  (m_structure o' = m_structure o \/ st_view s (m_structure o') = None \/ st_shared s' (m_structure o') = true) /\
  m_prototype o' = m_prototype o /\ m_isOrdinary o' = m_isOrdinary o.

Lemma same_views_refl s : same_views s s.
Proof. now intros k. Qed.
Lemma advances_same s s' o o' : same_views s s' -> m_structure o' = m_structure o ->
  m_prototype o' = m_prototype o -> m_isOrdinary o' = m_isOrdinary o -> advances s o s' o'.
Proof.
  intros Hs E1 E2 E3. split_and!; auto. intros k v Hk _. destruct (Hs k) as [-> ->]. auto.
Qed.
Lemma advances_after s s1 o s' o' : same_views s s1 -> advances s1 o s' o' -> advances s o s' o'.
Proof.
  intros Hs (He & Hr & Hp). split; [|split; [|assumption]].
  - intros k v Hk Hc. destruct (Hs k) as [E1 E2], (Hs (m_structure o)) as [_ E3]. rewrite <- E1 in Hk. rewrite <- E3 in Hc.
    destruct (He k v Hk Hc) as [? F]. rewrite E2 in F. auto.
  - destruct (Hs (m_structure o')) as [E _]. now rewrite <- E.
Qed.

Lemma object_ok_same s s' o : same_views s s' -> object_ok s o -> object_ok s' o.
Proof. intros Hs (v & Hv & Hf). exists v. destruct (Hs (m_structure o)) as [-> _]. auto. Qed.
Lemma object_properties_same s s' o : same_views s s' -> object_properties s' o = object_properties s o.
Proof. intros Hs. unfold object_properties. destruct (Hs (m_structure o)) as [-> _]. reflexivity. Qed.

(** The property found: its descriptor in the structure and its slot. *)
Lemma found_property s o v n i : st_ok s -> st_view s (m_structure o) = Some v ->
  Forall2 (fun kd slot => slot_ok h kd.2 slot) v (m_values o) -> position v (Names.key h n) = Some i ->
  exists l d slot, st_properties s (m_structure o) = Ok l /\ m_descriptor <$> l !! i = Some d /\
    m_values o !! i = Some slot /\ v !! i = Some (Names.key h n, d) /\ slot_ok h d slot.
Proof.
  intros Hs Hv Hf Hp. destruct (st_properties_ok s (m_structure o) v Hs Hv) as (l & Hl & Ev & _).
  destruct (property_position_Some _ _ _ Hp) as [d Hd]. destruct (Forall2_lookup_l _ _ _ _ _ Hf Hd) as (slot & Hslot & Hok).
  exists l, d, slot. split_and!; try assumption. rewrite Ev in Hd. unfold view_of in Hd. rewrite list_lookup_fmap in Hd.
  destruct (l !! i) as [it|]; [|discriminate]. injection Hd as _ Hd. cbn. now rewrite Hd.
Qed.

Lemma property_at_found s o v n i d slot : st_view s (m_structure o) = Some v ->
  Forall2 (fun kd slot => slot_ok h kd.2 slot) v (m_values o) -> position v (Names.key h n) = Some i ->
  v !! i = Some (Names.key h n, d) -> m_values o !! i = Some slot ->
  find_key (combine (property_of natives) v (m_values o)) (Names.key h n) = Some (property_of natives d slot).
Proof.
  intros Hv Hf Hp Hd Hslot. rewrite find_combine by (eapply Forall2_length; eassumption). now rewrite Hp, Hd, Hslot.
Qed.

(** ** Defining *)

Notation pname P := (toObjectStructurePropertyName uint_name P).
Notation pkey P := (key h (pname P)).

(** What a definition does to the properties: the answer of the specification. *)
Definition defined_as (L : list (option Key * Property)) (k : option Key) (answer : option Property) (b : bool)
    (L' : list (option Key * Property)) : Prop :=
  match answer with
  | Some p => b = true /\ L' = put_key L k p
  | None => b = false /\ L' = L
  end.

Lemma object_view s o L : object_ok s o -> object_properties s o = Some L ->
  exists v, st_view s (m_structure o) = Some v /\ Forall2 (fun kd slot => slot_ok h kd.2 slot) v (m_values o) /\
  length v = length (m_values o) /\ L = combine (property_of natives) v (m_values o).
Proof.
  intros (v & Hv & Hf) HL. unfold object_properties in HL. rewrite Hv in HL. injection HL as <-.
  exists v. split_and!; auto. eapply Forall2_length, Hf.
Qed.

Lemma descriptor_slot desc :
  descriptor_ok h desc ->
  let slot := if isDataProperty desc then SlotValue (if isValuePresent desc then value desc else ValueUndefined)
              else SlotGetterSetter (getterSetter desc) in
  slot_ok h (toObjectStructurePropertyDescriptor desc) slot /\
  property_of natives (toObjectStructurePropertyDescriptor desc) slot = create_property (fields_of desc).
Proof.
  intros Hd slot. destruct (toObjectStructurePropertyDescriptor_spec natives desc) as (T & Hk & He & Hc & Hw).
  unfold slot_ok, property_of, create_property. rewrite Hk, He, Hc, Hw.
  assert (default false (f_enumerable (fields_of desc)) = isEnumerable desc) as ->.
  { unfold fields_of. cbn. rewrite fields_present. destruct (isEnumerablePresent desc) eqn:E; [reflexivity|].
    unfold isEnumerablePresent, isEnumerable, either, bit in *. symmetry. rewrite negb_false_iff in *.
    apply Z.eqb_eq, Z.lor_eq_0_iff in E as [-> _]. reflexivity. }
  assert (default false (f_configurable (fields_of desc)) = isConfigurable desc) as ->.
  { unfold fields_of. cbn. rewrite fields_present. destruct (isConfigurable desc) eqn:E;
      [now rewrite (isConfigurable_present desc E)|now destruct (isConfigurablePresent desc)]. }
  subst slot. destruct (isDataProperty desc) eqn:Ek.
  - destruct (data_request h desc Hd Ek) as (Hv & -> & _). rewrite writable_field. split.
    + split_and!; auto. destruct (isValuePresent desc); [auto|apply undefined_ok].
    + cbn [slot_value andb]. f_equal. unfold fields_of. cbn [f_value]. rewrite Ek. cbn [andb]. now rewrite fields_present.
  - destruct (accessor_request h desc Hd Ek) as (_ & Hx & -> & _). split; [now split_and!|].
    cbn [slot_getterSetter]. unfold fields_of, get_of, set_of, hasJSGetter, hasJSSetter. cbn [f_get f_set]. rewrite Ek. cbn [negb andb].
    now rewrite !fields_present.
Qed.

(** Adding the property to an extensible object. *)
Lemma define_new s o v P desc : st_ok s -> st_view s (m_structure o) = Some v ->
  Forall2 (fun kd slot => slot_ok h kd.2 slot) v (m_values o) -> names (pname P) -> descriptor_ok h desc ->
  position v (pkey P) = None ->
  let slot := if isDataProperty desc then SlotValue (if isValuePresent desc then value desc else ValueUndefined)
              else SlotGetterSetter (getterSetter desc) in
  exists s' j, st_add s (m_structure o) (pname P) (toObjectStructurePropertyDescriptor desc) = Ok (s', j) /\
    let o' := with_property o j (m_values o ++ [slot]) in
    st_ok s' /\ object_ok s' o' /\ advances s o s' o' /\
    object_properties s' o' = Some (put_key (combine (property_of natives) v (m_values o)) (pkey P) (create_property (fields_of desc))).
Proof.
  intros Hs Hv Hf Hn Hd Hp slot. destruct (descriptor_slot desc Hd) as [Hok Hprop]. fold slot in Hok, Hprop.
  destruct (st_add_ok s (m_structure o) v (pname P) (toObjectStructurePropertyDescriptor desc) Hs Hv Hn Hp)
    as (s' & j & E & Hs' & Hev & Hj & Hr).
  exists s', j. split; [assumption|]. pose proof (Forall2_length _ _ _ Hf) as Hlen. split_and!; try assumption.
  - exists (v ++ [(pkey P, toObjectStructurePropertyDescriptor desc)]). split; [exact Hj|].
    cbn. apply Forall2_app; [assumption|]. now constructor.
  - split; [assumption|]. cbn. split_and!; auto.
  - unfold object_properties. cbn. rewrite Hj. cbn. f_equal.
    rewrite (combine_snoc _ v (m_values o)), put_combine, Hp, Hprop by assumption. reflexivity.
Qed.

(** Writing a slot back under the descriptor [d] of its structure. *)
Lemma put_slot s o v i k d d' slot : st_view s (m_structure o) = Some (<[i := (k, d')]> v) ->
  Forall2 (fun kd slot => slot_ok h kd.2 slot) v (m_values o) -> v !! i = Some (k, d) -> position v k = Some i ->
  slot_ok h d' slot ->
  let o' := with_property o (m_structure o) (<[i := slot]> (m_values o)) in
  object_ok s o' /\
  object_properties s o' = Some (put_key (combine (property_of natives) v (m_values o)) k (property_of natives d' slot)).
Proof.
  intros Hv Hf Hi Hp Hok o'. pose proof (Forall2_length _ _ _ Hf) as Hlen. split.
  - exists (<[i := (k, d')]> v). split; [exact Hv|]. cbn. now apply Forall2_insert.
  - unfold object_properties. cbn. rewrite Hv. cbn. f_equal.
    rewrite combine_insert by (assumption || now rewrite list_lookup_fmap, Hi).
    now rewrite put_combine, Hp by assumption.
Qed.

Lemma unchanged_attributes current slot D desc m : good h natives current slot D desc false m ->
  attributes_change natives current m = false ->
  property_of natives current (m_union m) = property_of_descriptor m.
Proof.
  intros [_ Hu Hd Hs] Ha. destruct (Hs eq_refl) as (Ek & Ee & Ec & Hw). unfold attributes_change in Ha.
  rewrite Hd, Ee, Ec in Ha. cbn [andb] in Ha. unfold property_of, property_of_descriptor. rewrite <- Ek.
  destruct (isDataProperty m) eqn:E; cbn [andb] in Ha.
  - destruct (Hw eq_refl) as [Hwp _]. rewrite Hwp in Ha. cbn [andb] in Ha.
    destruct (eqb (isWritable m) _) eqn:E1; cbn [negb] in Ha; [|discriminate].
    destruct (eqb (isEnumerable m) _) eqn:E2; cbn [negb] in Ha; [|discriminate].
    apply negb_false_iff in Ha. apply eqb_prop in E1, E2, Ha. now rewrite <- E1, <- E2, <- Ha.
  - destruct (eqb (isEnumerable m) _) eqn:E2; cbn [negb] in Ha; [|discriminate].
    apply negb_false_iff in Ha. apply eqb_prop in E2, Ha. now rewrite <- E2, <- Ha.
Qed.

(** Storing a plain data value. *)
Lemma setOwnData_plain o i d v receiver : Z.testbit d 0 = true -> StructureDescriptor.isDataProperty d = true ->
  is_Some (m_values o !! i) ->
  setOwnDataPropertyUtilForObjectInner natives o i d v receiver =
  Ok (with_property o (m_structure o) (<[i := SlotValue v]> (m_values o)), true).
Proof.
  intros T Hk [old Ho]. unfold setOwnDataPropertyUtilForObjectInner. rewrite Ho. cbn.
  now rewrite (proj1 (tagged_plain d T Hk)).
Qed.

Lemma good_payload current slot D desc k m : good h natives current slot D desc k m ->
  m_union m = if isDataProperty m then SlotValue (value m) else SlotGetterSetter (getterSetter m).
Proof.
  intros [_ Hu _ _]. destruct (m_union m) as [v|x] eqn:E; destruct Hu as [-> _];
    [now rewrite (union_value m v E)|now rewrite (union_getterSetter m x E)].
Qed.

Lemma commit_same s o self v i k current slot D desc m : st_ok s -> st_view s (m_structure o) = Some v ->
  Forall2 (fun kd slot => slot_ok h kd.2 slot) v (m_values o) -> v !! i = Some (k, current) ->
  m_values o !! i = Some slot -> position v k = Some i -> good h natives current slot D desc false m ->
  attributes_change natives current m = false ->
  exists o', commit natives alloc_native s o self i current false desc m = Ok (s, o', true) /\
    object_ok s o' /\ advances s o s o' /\ m_isExtensible o' = m_isExtensible o /\
    object_properties s o' = Some (put_key (combine (property_of natives) v (m_values o)) k (property_of_descriptor m)).
Proof.
  intros Hs Hv Hf Hi Hslot Hp Hg Ha. pose proof (unchanged_attributes _ _ _ _ _ Hg Ha) as Hprop.
  pose proof (good_payload _ _ _ _ _ _ Hg) as Hu. destruct Hg as [_ Hok Hd Hsame].
  destruct (Hsame eq_refl) as (Ek & _ & _ & Hw).
  destruct (Forall2_lookup_l _ _ _ _ _ Hf Hi) as (slot0 & Hslot0 & Htag & _). cbn in Htag.
  assert (slot_ok h current (m_union m)) as Hok'.
  { split; [assumption|]. rewrite <- Ek. destruct (m_union m); destruct Hok; auto. }
  set (o' := with_property o (m_structure o) (<[i := m_union m]> (m_values o))).
  assert (st_view s (m_structure o) = Some (<[i := (k, current)]> v)) as Hv' by now rewrite list_insert_id.
  destruct (put_slot s o v i k current current (m_union m) Hv' Hf Hi Hp Hok') as [Ho' HL']. rewrite Hprop in HL'.
  assert (commit natives alloc_native s o self i current false desc m = Ok (s, o', true)) as Hc.
  { unfold commit. cbn [negb]. rewrite Hd. unfold o'. rewrite Hu. destruct (isDataProperty m) eqn:E; [|reflexivity].
    destruct (isValuePresent desc) eqn:Ev.
    - rewrite setOwnData_plain by (congruence || eauto). reflexivity.
    - rewrite <- Hu, (proj2 (Hw eq_refl) eq_refl), list_insert_id by assumption. now destruct o. }
  exists o'. split; [assumption|]. split_and!; try assumption; [|reflexivity].
  now apply advances_same; [apply same_views_refl| | |].
Qed.

Lemma commit_replace s o self v i k current slot D desc k0 m : st_ok s -> st_view s (m_structure o) = Some v ->
  Forall2 (fun kd slot => slot_ok h kd.2 slot) v (m_values o) -> v !! i = Some (k, current) ->
  m_values o !! i = Some slot -> position v k = Some i -> good h natives current slot D desc k0 m ->
  exists s' o', commit natives alloc_native s o self i current true desc m = Ok (s', o', true) /\
    st_ok s' /\ object_ok s' o' /\ advances s o s' o' /\ m_isExtensible o' = m_isExtensible o /\
    object_properties s' o' = Some (put_key (combine (property_of natives) v (m_values o)) k (property_of_descriptor m)).
Proof.
  intros Hs Hv Hf Hi Hslot Hp Hg. pose proof (good_payload _ _ _ _ _ _ Hg) as Hu. destruct Hg as [_ Hok Hd _].
  destruct (Forall2_lookup_l _ _ _ _ _ Hf Hi) as (slot0 & Hslot0 & Htag & _). cbn in Htag.
  destruct (toObjectStructurePropertyDescriptor_spec natives m) as (T & Hk & _).
  set (d := toObjectStructurePropertyDescriptor m) in *.
  destruct (st_replace_ok s (m_structure o) v i k current d Hs Hv Hi) as (s' & j & Er & Hs' & Hev & Hj & Hr).
  assert (slot_ok h d (m_union m)) as Hok'.
  { split; [assumption|]. rewrite Hk. destruct (m_union m); destruct Hok; auto. }
  set (oj := with_property o j (m_values o)).
  destruct (put_slot s' oj v i k current d (m_union m) Hj Hf Hi Hp Hok') as [Ho' HL'].
  assert (property_of natives d (m_union m) = property_of_descriptor m) as Hprop.
  { apply property_of_new. rewrite Hu. now destruct (isDataProperty m). }
  rewrite Hprop in HL'. cbn [oj m_structure m_values with_property] in Ho', HL'.
  set (o' := with_property oj j (<[i := m_union m]> (m_values o))).
  assert (commit natives alloc_native s o self i current true desc m = Ok (s', o', true)) as Hc.
  { unfold commit. cbn [negb]. rewrite (tagged_not_native current Htag), andb_false_r. cbn [mbind result_bind]. fold d.
    rewrite Er. cbn [mbind result_bind]. fold oj. rewrite Hd. unfold o'. rewrite Hu.
    destruct (isDataProperty m) eqn:E; [|reflexivity]. rewrite setOwnData_plain by (assumption || (cbn; eauto)). reflexivity. }
  exists s', o'. split; [assumption|]. split_and!; try assumption; [|reflexivity].
  split; [assumption|]. cbn. split_and!; auto.
Qed.

(** The definition of a property: the specification's answer. *)
Lemma define_ok s o self P desc L : st_ok s -> object_ok s o -> object_properties s o = Some L ->
  names (pname P) -> descriptor_ok h desc ->
  exists s' o' b, defineOwnPropertyMethod h natives uint_name alloc_native s o self P desc = Ok (s', o', b) /\
    st_ok s' /\ object_ok s' o' /\ advances s o s' o' /\ m_isExtensible o' = m_isExtensible o /\
    exists L', object_properties s' o' = Some L' /\
    defined_as L (pkey P)
      (ValidateAndApply (SameValue h) (m_isExtensible o) (fields_of desc) (find_key L (pkey P))) b L'.
Proof.
  intros Hs Ho HL Hn Hd. destruct (object_view s o L Ho HL) as (v & Hv & Hf & Hlen & ->).
  destruct (st_find_ok s (m_structure o) v (pname P) Hs Hv Hn) as (s1 & E1 & Hs1 & Hsame).
  assert (same_views s s1) as Hsv by exact Hsame.
  assert (st_view s1 (m_structure o) = Some v) as Hv1 by (destruct (Hsv (m_structure o)) as [-> _]; assumption).
  pose proof (object_ok_same s s1 o Hsv Ho) as Ho1.
  pose proof (advances_same s s1 o o Hsv eq_refl eq_refl eq_refl) as Hadv.
  assert (object_properties s1 o = Some (combine (property_of natives) v (m_values o))) as HL1
    by now rewrite (object_properties_same s s1 o Hsv).
  unfold defineOwnPropertyMethod. rewrite E1. cbn [mbind result_bind].
  destruct (position v (pkey P)) as [i|] eqn:Ep.
  2: { rewrite find_combine, Ep by assumption. cbn [ValidateAndApply].
       destruct (m_isExtensible o) eqn:Ex; cbn [negb].
       - destruct (define_new s1 o v P desc Hs1 Hv1 Hf Hn Hd Ep) as (s' & j & -> & Hs' & Ho' & Ha & HL').
         cbn [mbind result_bind]. eexists s', _, true. split; [reflexivity|]. split_and!; try assumption.
         + now apply (advances_after s s1).
         + eexists. split; [exact HL'|]. now split.
       - exists s1, o, false. split; [reflexivity|]. split_and!; auto. eexists. split; [exact HL1|]. now split. }
  destruct (found_property s1 o v (pname P) i Hs1 Hv1 Hf Ep) as (l & d & slot & El & Eit & Eslot & Ei & Hok).
  rewrite El. cbn [mbind result_bind]. destruct (l !! i) as [it|]; [|discriminate]. injection Eit as Eit.
  cbn [defined mbind result_bind]. rewrite Eslot. cbn [defined mbind result_bind]. rewrite Eit. clear Eit it.
  rewrite (property_at_found s1 o v (pname P) i d slot Hv1 Hf Ep Ei Eslot). cbn [ValidateAndApply].
  pose proof (rejects_spec natives d slot desc) as Hrej. pose proof (validate_spec h natives d slot desc Hok Hd) as Hval.
  cbv zeta in Hval.
  set (p := property_of natives d slot) in *. unfold allowed.
  set (AB := negb (default false (f_configurable (fields_of desc))) && _) in *.
  change (match p with DataProperty _ _ _ _ => _ | AccessorProperty _ _ _ _ => _ end) with (kind_allowed h (fields_of desc) p).
  assert (forall x, x = None -> exists s' o' b, Ok (s1, o, false) = Ok (s', o', b) /\ st_ok s' /\ object_ok s' o' /\
    advances s o s' o' /\ m_isExtensible o' = m_isExtensible o /\ exists L', object_properties s' o' = Some L' /\
    defined_as (combine (property_of natives) v (m_values o)) (pkey P) x b L') as Reject.
  { intros x ->. exists s1, o, false. split; [reflexivity|]. split_and!; auto. eexists. split; [exact HL1|]. now split. }
  destruct (rejects_attributes natives d desc).
  { symmetry in Hrej. apply andb_true_iff in Hrej as [Hc HAB]. apply negb_true_iff in Hc, HAB. rewrite Hc, HAB. now apply Reject. }
  rewrite (tagged_not_native d (proj1 Hok)). cbn [mbind result_bind].
  replace (if StructureDescriptor.isDataProperty d then getOwnDataPropertyUtilForObject natives d slot self else Ok ValueUndefined)
    with (Ok (if StructureDescriptor.isDataProperty d then slot_value slot else ValueUndefined)).
  2: { destruct (StructureDescriptor.isDataProperty d) eqn:Ek; [|reflexivity].
       unfold getOwnDataPropertyUtilForObject. now rewrite (proj1 (tagged_plain d (proj1 Hok) Ek)). }
  cbn [mbind result_bind].
  destruct (validate h natives d _ slot desc _) as [[k0 n0]|].
  2: { apply orb_false_iff in Hval as [-> ->]. rewrite andb_false_r. now apply Reject. }
  destruct Hval as [Hal Hg].
  assert (configurable p || (AB && kind_allowed h (fields_of desc) p) = true) as ->.
  { destruct (configurable p); [reflexivity|]. cbn in Hal, Hrej |- *. rewrite Hal, andb_true_r. now apply negb_false_iff. }
  pose proof (good_property _ _ _ _ _ _ _ _ Hg) as Hgp.
  destruct (k0 || attributes_change natives d (merge desc n0)) eqn:Ek.
  - destruct (commit_replace s1 o self v i (pkey P) d slot _ desc k0 _ Hs1 Hv1 Hf Ei Eslot Ep Hg)
      as (s' & o' & -> & Hs' & Ho' & Ha & Hx & HL').
    exists s', o', true. split; [reflexivity|]. split_and!; try assumption; [now apply (advances_after s s1)|].
    eexists. split; [exact HL'|]. rewrite Hgp. now split.
  - apply orb_false_iff in Ek as [-> Ea].
    destruct (commit_same s1 o self v i (pkey P) d slot _ desc _ Hs1 Hv1 Hf Ei Eslot Ep Hg Ea)
      as (o' & -> & Ho' & Ha & Hx & HL').
    exists s1, o', true. split; [reflexivity|]. split_and!; try assumption; [now apply (advances_after s s1)|].
    eexists. split; [exact HL'|]. rewrite Hgp. now split.
Qed.

(** ** Reading, deleting, preventing extensions *)

Definition got_as (r : option ObjectGetResult) (p : option Property) : Prop :=
  match p, r with
  | None, None => True
  | Some (DataProperty v w e c), Some r => r = mkGetResult (GotValue v) w e c
  | Some (AccessorProperty g s e c), Some r =>
      exists x, r = mkGetResult (GotAccessor x) false e c /\ get_of x = g /\ set_of x = s
  | _, _ => False
  end.

(** The names in use that stand for integers are their numerals. *)
Context (uint_names : forall i, 0 <= i -> names (uint_name i) -> key h (uint_name i) = Some (KString (dec i))).
Definition name_ok (P : ObjectPropertyName) : Prop :=
  names (pname P) /\ match P with PUInt i => 0 <= i | PName _ => True end.

Lemma isIndexString_key n s : key h n = Some (KString s) -> s <> [] ->
  PropertyName.isIndexString h outside n = canonical s.
Proof.
  unfold key, PropertyName.isIndexString, PropertyName.isPlainString, PropertyName.plainString, PropertyName.string_at,
    PropertyName.hasSymbol.
  intros Hk Hs. destruct s as [|c s]; [congruence|].
  destruct (PropertyName.hasAtomicString n).
  - destruct (h !! (n - 1)) as [[]|]; try discriminate. injection Hk as ->. now rewrite DecimalFacts.isIndexString_cons.
  - destruct (h !! n) as [[]|]; try discriminate. injection Hk as ->. cbn [negb andb]. now rewrite DecimalFacts.isIndexString_cons.
Qed.

(** The early exit for integers, when no name is an index string. *)
Lemma no_index_key s o v i : st_ok s -> st_view s (m_structure o) = Some v -> 0 <= i -> names (uint_name i) ->
  st_hasIndex s (m_structure o) = false -> position v (key h (uint_name i)) = None.
Proof.
  intros Hs Hv Hi Hname Hx. destruct (st_properties_ok s (m_structure o) v Hs Hv) as (l & _ & -> & _ & Hl). specialize (Hl Hx).
  apply property_position_None. intros E. rewrite uint_names in E by assumption.
  apply list_elem_of_fmap in E as [[k d] [E1 E2]]. apply list_elem_of_fmap in E2 as [it [E2 E3]].
  injection E2 as -> ->. cbn in E1. rewrite Forall_forall in Hl. specialize (Hl it E3).
  assert (dec i <> []) as Hne by (intros F; pose proof (dec_canonical i Hi) as Hc; now rewrite F in Hc).
  rewrite (isIndexString_key _ (dec i) (eq_sym E1) Hne) in Hl. now rewrite (dec_canonical i Hi) in Hl.
Qed.

Lemma getOwn_ok s o P L : st_ok s -> object_ok s o -> object_properties s o = Some L -> name_ok P ->
  exists s' r, getOwnProperty natives uint_name s o P = Ok (s', r) /\ st_ok s' /\ same_views s s' /\
    got_as r (find_key L (pkey P)).
Proof.
  intros Hs Ho HL [Hn HP]. destruct (object_view s o L Ho HL) as (v & Hv & Hf & Hlen & ->).
  rewrite find_combine by assumption. unfold getOwnProperty.
  destruct (match P with PUInt _ => negb (st_hasIndex s (m_structure o)) | PName _ => false end) eqn:E.
  - destruct P as [i|n]; [|discriminate]. apply negb_true_iff in E. exists s, None. cbn [toObjectStructurePropertyName].
    rewrite (no_index_key s o v i Hs Hv HP Hn E). split_and!; [reflexivity|assumption|apply same_views_refl|exact I].
  - destruct (st_find_ok s (m_structure o) v (pname P) Hs Hv Hn) as (s1 & -> & Hs1 & Hsv). cbn [mbind result_bind].
    assert (st_view s1 (m_structure o) = Some v) as Hv1 by (destruct (Hsv (m_structure o)) as [-> _]; assumption).
    destruct (position v (pkey P)) as [i|] eqn:Ep; [|exists s1, None; now split_and!].
    destruct (found_property s1 o v (pname P) i Hs1 Hv1 Hf Ep) as (l & d & slot & El & Eit & Eslot & Ei & [T Hok]).
    rewrite El, Ei, Eslot. cbn [mbind result_bind]. destruct (l !! i) as [it|]; [|discriminate]. injection Eit as Eit.
    cbn [defined mbind result_bind]. rewrite Eit, (tagged_not_native d T). cbn [negb].
    assert (property_of natives d slot = property_of natives d slot) as Hp by reflexivity. unfold property_of at 1 in Hp.
    exists s1. destruct (StructureDescriptor.isDataProperty d) eqn:Ek; cbn [mbind result_bind andb]; eexists;
      (split; [reflexivity|]); (split; [assumption|]); (split; [exact Hsv|]); rewrite <- Hp; [reflexivity|].
    eexists. split; [reflexivity|auto].
Qed.

Lemma object_delete_ok s o P L : st_ok s -> object_ok s o -> object_properties s o = Some L -> name_ok P ->
  exists s' o' b, deleteOwnProperty natives uint_name s o P = Ok (s', o', b) /\ st_ok s' /\ object_ok s' o' /\
    advances s o s' o' /\ m_isExtensible o' = m_isExtensible o /\
    exists L', object_properties s' o' = Some L' /\
    match find_key L (pkey P) with
    | Some p => b = configurable p /\ L' = (if configurable p then delete_key L (pkey P) else L)
    | None => b = true /\ L' = L
    end.
Proof.
  intros Hs Ho HL HP. destruct (getOwn_ok s o P L Hs Ho HL HP) as (s1 & r & Er & Hs1 & Hsv & Hr).
  unfold deleteOwnProperty. rewrite Er. cbn [mbind result_bind].
  assert (forall b : bool, exists (s' : St) (o' : Object) (b' : bool), Ok (s1, o, b) = Ok (s', o', b') /\ st_ok s' /\ object_ok s' o' /\ advances s o s' o' /\
    m_isExtensible o' = m_isExtensible o /\ exists L', object_properties s' o' = Some L' /\ b' = b /\ L' = L) as Same.
  { intros b. exists s1, o, b. rewrite (object_properties_same s s1 o Hsv).
    pose proof (object_ok_same s s1 o Hsv Ho). split_and!; auto; [now apply advances_same|]. exists L. now split_and!. }
  destruct (find_key L (pkey P)) as [p|] eqn:Ef; [|destruct r; [destruct Hr|apply Same]].
  destruct r as [r|]; [|destruct p; destruct Hr].
  assert (g_isConfigurable r = configurable p) as -> by (destruct p; cbn in Hr; [subst r|destruct Hr as (x & -> & _)]; reflexivity).
  destruct (configurable p) eqn:Ec; [|apply Same].
  destruct (object_view s o L Ho HL) as (v & Hv & Hf & Hlen & ->). rewrite find_combine in Ef by assumption.
  destruct (position v (pkey P)) as [i|] eqn:Ep; [|discriminate].
  assert (st_view s1 (m_structure o) = Some v) as Hv1 by (destruct (Hsv (m_structure o)) as [-> _]; assumption).
  destruct (st_find_ok s1 (m_structure o) v (pname P) Hs1 Hv1 (proj1 HP)) as (s2 & -> & Hs2 & Hsv2). cbn [mbind result_bind].
  rewrite Ep. cbn [defined mbind result_bind].
  assert (st_view s2 (m_structure o) = Some v) as Hv2 by (destruct (Hsv2 (m_structure o)) as [-> _]; assumption).
  destruct (st_remove_ok s2 (m_structure o) v i Hs2 Hv2 (position_lt _ _ _ Ep)) as (s' & j & -> & Hs' & Hev & Hj & Hres).
  cbn [mbind result_bind]. rewrite <- delete_take_drop in Hj.
  eexists s', _, true. split; [reflexivity|]. split_and!; [assumption| | |reflexivity|].
  - exists (delete i v). split; [exact Hj|]. cbn. now apply Forall2_delete.
  - apply (advances_after s s1); [assumption|]. apply (advances_after s1 s2); [exact Hsv2|].
    split; [assumption|]. cbn. split_and!; auto.
  - unfold object_properties. cbn. rewrite Hj. cbn. eexists. split; [reflexivity|]. split; [reflexivity|].
    symmetry. now apply delete_combine.
Qed.

Lemma preventExtensions_ok s o L : st_ok s -> object_ok s o -> object_properties s o = Some L ->
  exists s' o', preventExtensions s o = Ok (s', o') /\ st_ok s' /\ object_ok s' o' /\ advances s o s' o' /\
    m_isExtensible o' = false /\ object_properties s' o' = Some L.
Proof.
  intros Hs Ho HL. destruct (object_view s o L Ho HL) as (v & Hv & Hf & Hlen & ->).
  destruct (st_convert_ok s (m_structure o) v Hs Hv) as (s' & j & E & Hs' & Hk & Hj & Hr).
  unfold preventExtensions, markThisObjectDontNeedStructureTransitionTable. rewrite E. cbn [mbind result_bind].
  eexists s', _. split; [reflexivity|]. split_and!; [assumption| | |reflexivity|].
  - exists v. auto.
  - split; [|cbn; split_and!; [tauto|reflexivity|reflexivity]]. intros k w Hw _. now apply Hk.
  - unfold object_properties. cbn. rewrite Hj. reflexivity.
Qed.

End Objects.
End ObjectFacts.

(** * The order of own keys *)
Module KeyOrder.
Import Heap Names PropertyName StructureSpec Structures Objects Decimal DecimalFacts.

(** The array index a key is, as in OrdinaryOwnPropertyKeys. *)
Definition array_index (k : option Key) : option Z :=
  match k with
  | Some (KString s) => if canonical s && (dec_value s <? 2 ^ 32 - 1) then Some (dec_value s) else None
  | _ => None
  end.
Definition is_plain_string (k : option Key) : bool :=
  match k with Some (KString _) => match array_index k with None => true | Some _ => false end | _ => false end.
Definition is_symbol_key (k : option Key) : bool := match k with Some (KSymbol _) => true | _ => false end.
Definition own_key (h : heap) (x : OwnKey) : option Key :=
  match x with KeyOfIndex v => Some (KString (dec v)) | KeyOfPointer p => key h p end.

Lemma array_index_dec k i : array_index k = Some i -> k = Some (KString (dec i)).
Proof.
  unfold array_index. destruct k as [[s|]|]; try discriminate.
  destruct (canonical s && _) eqn:E; [|discriminate]. intros [= <-].
  apply andb_true_iff in E as [Ec _]. now rewrite (canonical_dec s Ec).
Qed.

Lemma tryToUseAsIndexProperty_key h n k : key h n = Some k ->
  tryToUseAsIndexProperty h n = default InvalidIndex32Value (array_index (Some k)) /\
  (array_index (Some k) <> None -> tryToUseAsIndexProperty h n <> InvalidIndex32Value).
Proof.
  unfold key, tryToUseAsIndexProperty, isPlainString, plainString, string_at, hasSymbol. intros Hk.
  assert (forall s, tryToUseAsIndex32 s = default InvalidIndex32Value (array_index (Some (KString s))) /\
    (array_index (Some (KString s)) <> None -> tryToUseAsIndex32 s <> InvalidIndex32Value)) as G.
  { intros s. unfold tryToUseAsIndex32, InvalidIndex32Value, array_index. rewrite convertToIndexNumber_spec by lia.
    destruct (canonical s) eqn:E; cbn [andb]; [|split; [reflexivity|congruence]].
    assert (0 <= dec_value s) by (apply dec_value_nonneg; unfold canonical in E; now apply andb_true_iff in E as [-> _]).
    destruct (dec_value s <? 2 ^ 32 - 1) eqn:F; Zbool.
    - rewrite Z.min_r, wrapu_id by (unfold in_u; lia). cbn. split; [reflexivity|lia].
    - rewrite Z.min_l, wrapu_id by (unfold in_u; lia). split; [reflexivity|congruence]. }
  destruct (hasAtomicString n).
  - destruct (h !! (n - 1)) as [[]|]; try discriminate. injection Hk as <-. apply G.
  - destruct (h !! n) as [[]|]; try discriminate; injection Hk as <-; [apply G|]. cbn. split; [reflexivity|congruence].
Qed.

Lemma multiset_insert_sorted x l : StronglySorted Z.lt l -> x ∉ l ->
  StronglySorted Z.lt (multiset_insert x l) /\ multiset_insert x l ≡ₚ x :: l.
Proof.
  intros Hs. induction Hs as [|y l Hs IH Hy]; intros Hx; cbn; [split; [repeat constructor|reflexivity]|].
  apply not_elem_of_cons in Hx as [Hxy Hx]. destruct (x <? y) eqn:E; Zbool.
  - split; [|reflexivity]. constructor; [now constructor|]. constructor; [assumption|].
    eapply Forall_impl; [exact Hy|]. cbn. lia.
  - destruct (IH Hx) as [IHs IHp]. split.
    + constructor; [assumption|]. rewrite IHp. constructor; [lia|assumption].
    + rewrite IHp. apply Permutation_swap.
Qed.

Lemma fold_insert_sorted xs : forall l, StronglySorted Z.lt l -> NoDup (xs ++ l) ->
  StronglySorted Z.lt (fold_left (fun l x => multiset_insert x l) xs l) /\
  fold_left (fun l x => multiset_insert x l) xs l ≡ₚ xs ++ l.
Proof.
  induction xs as [|x xs IH]; intros l Hs Hd; cbn; [auto|].
  apply NoDup_cons in Hd as [Hx Hd]. rewrite not_elem_of_app in Hx. destruct Hx as [Hx1 Hx2].
  destruct (multiset_insert_sorted x l Hs Hx2) as [Hs' Hp'].
  destruct (IH (multiset_insert x l) Hs') as [Hs2 Hp2].
  - rewrite Hp', <- Permutation_middle. constructor; [now rewrite not_elem_of_app|assumption].
  - split; [assumption|]. rewrite Hp2, Hp'. symmetry. apply Permutation_middle.
Qed.

Section Order.
Context (h : heap) (names : Z -> Prop) `{NameSpace h names}.

Lemma key_plainString n : names n -> isPlainString h n = true -> key h (plainString n) = key h n.
Proof.
  intros Hn Hp. unfold plainString. destruct (hasAtomicString n) eqn:E; [|reflexivity].
  unfold key at 2. rewrite E. unfold key.
  assert (hasAtomicString (n - 1) = false) as ->.
  { unfold hasAtomicString in *. rewrite negb_true_iff, Z.eqb_neq in E. apply negb_false_iff, Z.eqb_eq.
    change 1 with (Z.ones 1) in E at 1. change 1 with (Z.ones 1) at 2.
    rewrite Z.land_ones in * by lia. change (2 ^ 1) with 2 in *.
    pose proof (Z.mod_pos_bound n 2). rewrite Zminus_mod. replace (n mod 2) with 1 by lia. reflexivity. }
  destruct (names_key n Hn) as [k Hk]. unfold key in Hk. rewrite E in Hk. now destruct (h !! (n - 1)) as [[]|].
Qed.

Lemma isPlainString_key n s : key h n = Some (KString s) -> isPlainString h n = true.
Proof.
  unfold isPlainString, key, hasSymbol. destruct (hasAtomicString n); [reflexivity|]. now destruct (h !! n) as [[]|].
Qed.

Lemma fold_classify l : Forall (fun p => names (m_propertyName p)) l -> forall ix st sy,
  let ks := (fun p => key h (m_propertyName p)) <$> l in
  exists st' sy', fold_left (classify h) l (ix, st, sy) =
    (fold_left (fun l x => multiset_insert x l) (omap array_index ks) ix, st ++ st', sy ++ sy') /\
    (key h <$> st') = filter (fun k => is_plain_string k = true) ks /\
    (key h <$> sy') = filter (fun k => is_symbol_key k = true) ks.
Proof.
  induction 1 as [|[n d] l Hn Hl IH]; intros ix st sy ks; [exists [], []; now rewrite !app_nil_r|].
  cbn [fold_left classify m_propertyName] in *. unfold ks. rewrite fmap_cons. cbn [m_propertyName].
  destruct (names_key n Hn) as [k Hk]. destruct (tryToUseAsIndexProperty_key h n k Hk) as [Hi Hne].
  rewrite Hk, !filter_cons.
  destruct (tryToUseAsIndexProperty h n =? InvalidIndex32Value) eqn:E; Zbool; cbn [negb].
  - assert (array_index (Some k) = None) as Ha by (destruct (array_index (Some k)); [exfalso; now apply Hne|reflexivity]).
    cbn [omap list_omap]. rewrite Ha. rewrite (isSymbol_key h names n Hn), Hk. destruct k as [str|p].
    + destruct (IH ix (st ++ [plainString n]) sy) as (st' & sy' & -> & Hst & Hsy).
      exists (plainString n :: st'), sy'. rewrite <- app_assoc. split; [reflexivity|].
      rewrite fmap_cons, (key_plainString n Hn (isPlainString_key n str Hk)), Hk, Hst.
      rewrite decide_True by (cbn in Ha |- *; now rewrite Ha). rewrite decide_False by discriminate. now split.
    + destruct (IH ix st (sy ++ [n])) as (st' & sy' & -> & Hst & Hsy).
      exists st', (n :: sy'). rewrite <- app_assoc. split; [reflexivity|].
      rewrite decide_False by discriminate. rewrite decide_True by reflexivity. rewrite fmap_cons, Hk, Hsy. now split.
  - destruct (array_index (Some k)) as [i|] eqn:Ha; [|cbn in Hi; congruence]. cbn [default] in Hi. rewrite Hi.
    cbn [omap list_omap fold_left]. rewrite Ha. unfold id. destruct (IH (multiset_insert i ix) st sy) as (st' & sy' & -> & Hst & Hsy).
    exists st', sy'. split; [reflexivity|]. destruct k as [str|p]; [|discriminate].
    rewrite decide_False by (unfold is_plain_string; now rewrite Ha). rewrite decide_False by discriminate. now split.
Qed.

Lemma array_index_NoDup ks : NoDup ks -> NoDup (omap array_index ks).
Proof.
  induction 1 as [|k ks Hk Hd IH]; [constructor|]. cbn. destruct (array_index k) as [i|] eqn:E; [|assumption].
  constructor; [|assumption]. intros F. apply list_elem_of_omap in F as (k' & Hk' & E').
  apply array_index_dec in E, E'. congruence.
Qed.

Context (outside : bool) {St : Type} `{StructureLaws h outside names St}.

Lemma ownPropertyKeys_ok s o v : st_ok s -> st_view s (m_structure o) = Some v ->
  exists keys idx, ownPropertyKeys h s o = Ok keys /\
    StronglySorted Z.lt idx /\ idx ≡ₚ omap array_index v.*1 /\
    (own_key h <$> keys) = ((fun i => Some (KString (dec i))) <$> idx) ++
      filter (fun k => is_plain_string k = true) v.*1 ++ filter (fun k => is_symbol_key k = true) v.*1.
Proof.
  intros Hs Hv. destruct (st_properties_ok s (m_structure o) v Hs Hv) as (l & El & Ev & Hn & _).
  pose proof (st_distinct s (m_structure o) v Hs Hv) as Hd.
  assert (v.*1 = (fun p => key h (m_propertyName p)) <$> l) as Ek
    by (rewrite Ev; unfold view_of; rewrite <- list_fmap_compose; reflexivity).
  unfold ownPropertyKeys. rewrite El. cbn [mbind result_bind].
  destruct (fold_classify l Hn [] [] []) as (st & sy & -> & Hst & Hsy). rewrite <- Ek in *.
  destruct (fold_insert_sorted (omap array_index v.*1) [] (SSorted_nil _)) as [Hsort Hperm];
    [rewrite app_nil_r; now apply array_index_NoDup|].
  rewrite app_nil_r in Hperm. eexists _, _. split; [reflexivity|]. split; [exact Hsort|]. split; [exact Hperm|].
  rewrite !app_nil_l, !fmap_app, <- !list_fmap_compose, <- Hst, <- Hsy. reflexivity.
Qed.

End Order.
End KeyOrder.

(** * A small heap of names and objects *)
Module ObjectSample.
Import Word Heap ValueSpec Names Structures StructureFacts PropertyDescriptor Objects Denotation PropertyList ObjectFacts.

(** The strings a, b and 7, interned; a symbol; the string 12; three objects. *)
Definition world_heap : heap :=
  list_to_map [(64, HString [97]); (128, HString [98]); (192, HSymbol); (256, HString [49; 50]);
               (384, HString [55]); (1000, HObject); (1008, HObject); (1016, HObject)].
Definition world_names (n : Z) : Prop := n ∈ [65; 129; 192; 256; 385].
Definition world_uint_name (i : Z) : Z := if i =? 7 then 385 else if i =? 12 then 256 else 0.

#[export] Instance world_space : NameSpace world_heap world_names.
Proof.
  apply name_space.
  - intros n Hn. unfold world_names in Hn. repeat (apply elem_of_cons in Hn as [->|Hn]; [vm_compute; eauto|]). set_solver.
  - intros a b Ha Hb. unfold world_names in *.
    repeat (apply elem_of_cons in Ha as [->|Ha]; [repeat (apply elem_of_cons in Hb as [->|Hb]; [vm_compute; congruence|]); set_solver|]).
    set_solver.
  - intros a b Ha Hb. unfold world_names in *.
    repeat (apply elem_of_cons in Ha as [->|Ha]; [repeat (apply elem_of_cons in Hb as [->|Hb]; [vm_compute; congruence|]); set_solver|]).
    set_solver.
Defined.

Lemma world_uint_names i : 0 <= i -> world_names (world_uint_name i) ->
  key world_heap (world_uint_name i) = Some (KString (dec i)).
Proof.
  intros _. unfold world_uint_name. destruct (i =? 7) eqn:E; Zbool; [subst; reflexivity|].
  destruct (i =? 12) eqn:E'; Zbool; [subst; reflexivity|]. unfold world_names. set_solver.
Qed.

(** One structure: [a] is not writable, the index 7 and the symbol are. *)
Definition world_items : list ObjectStructureItem := [mkItem 65 1; mkItem 192 15; mkItem 385 15; mkItem 129 15; mkItem 256 15].
Definition world_store : Store := [create world_heap false 65 world_items true].
Definition world_object : Object := mkObject 0 None (repeat (SlotValue ValueTrue) 5) true true.

Lemma world_store_ok : store_ok world_heap false world_names world_store /\
  view world_heap world_store 0 = Some (StructureSpec.view_of world_heap world_items).
Proof.
  assert (Forall (fun p => world_names (m_propertyName p)) world_items) as Hn
    by (unfold world_names; repeat constructor; cbn; set_solver).
  assert (NoDup (StructureSpec.view_of world_heap world_items).*1) as Hd
    by (repeat constructor; vm_compute; set_solver).
  destruct (structure_create_ok world_heap false 65 world_names world_items true Hn Hd) as [Hp Hok].
  exact (store_singleton world_heap false world_names _ _ Hp Hok).
Qed.

Lemma world_value v : denote world_heap v <> None -> in_u 64 v -> value_ok world_heap v.
Proof. intros Hd Hv. split; [assumption|]. destruct (denote world_heap v) eqn:E; [eauto|congruence]. Qed.

Lemma world_empty : world_names 65.
Proof. unfold world_names. set_solver. Qed.

Lemma world_object_ok : exists v, view world_heap world_store (m_structure world_object) = Some v /\
  Forall2 (fun kd slot => slot_ok world_heap kd.2 slot) v (m_values world_object).
Proof.
  eexists. split; [apply world_store_ok|].
  repeat constructor; try reflexivity; try (unfold in_u; vm_compute; intuition congruence); eexists; reflexivity.
Qed.
Definition world_properties_of : list (option Key * DescriptorSpec.Property) :=
  combine (property_of ∅) (StructureSpec.view_of world_heap world_items) (m_values world_object).
Lemma world_properties : (fun v => combine (property_of ∅) v (m_values world_object)) <$>
  view world_heap world_store (m_structure world_object) = Some world_properties_of.
Proof. change (m_structure world_object) with 0%nat. now rewrite (proj2 world_store_ok). Qed.

End ObjectSample.

(** * What defining and listing own properties do *)
Module ObjectModelProps.
Import Word Heap Names PropertyName StructureSpec Structures StructureFacts PropertyDescriptor DescriptorSpec Objects
  Denotation PropertyList ObjectFacts KeyOrder ObjectSample.

Section Props.
Context (h : heap) (outside : bool) (natives : gmap Z StructureDescriptor.NativeGetterSetterData).
Context (emptyName : Z) (names : Z -> Prop) `{NameSpace h names} (named_empty : names emptyName).
Context (uint_name : Z -> Z) (alloc_native : StructureDescriptor.NativeGetterSetterData -> Z).

#[local] Instance object_ops : StructureOps Store := store_ops h outside natives emptyName.
#[local] Instance object_laws : StructureLaws h outside names Store :=
  store_laws h outside natives emptyName names named_empty.

(** C1: [[DefineOwnProperty]] of an ordinary object is
    ValidateAndApplyPropertyDescriptor of ECMA-262.  For an object whose
    properties are the list L, any name and any descriptor, with or without
    each field, of data, accessor or generic kind, the code ends, answers true
    exactly when the algorithm accepts, and then the list has the property the
    algorithm makes, at its place or at the end; a rejection leaves the list as
    it is.  The object still fits its structure. *)
Theorem defineOwnProperty_is_ValidateAndApply (s : Store) o self P desc L :
  store_ok h outside names s -> object_ok h outside names s o ->
  object_properties h outside names natives s o = Some L ->
  names (toObjectStructurePropertyName uint_name P) -> descriptor_ok h desc ->
  exists s' o' b L',
    defineOwnPropertyMethod h natives uint_name alloc_native s o self P desc = Ok (s', o', b) /\
    store_ok h outside names s' /\ object_ok h outside names s' o' /\ m_isExtensible o' = m_isExtensible o /\
    object_properties h outside names natives s' o' = Some L' /\
    let k := key h (toObjectStructurePropertyName uint_name P) in
    match ValidateAndApply (SameValue h) (m_isExtensible o) (fields_of desc) (find_key L k) with
    | Some p => b = true /\ L' = put_key L k p
    | None => b = false /\ L' = L
    end.
Proof.
  intros Hs Ho HL HP Hd.
  destruct (define_ok (H0 := object_laws) h outside names natives uint_name alloc_native s o self P desc L Hs Ho HL HP Hd)
    as (s' & o' & b & E & Hs' & Ho' & _ & Hx & L' & HL' & Hdef).
  exists s', o', b, L'. now split_and!.
Qed.

(** [[OwnPropertyKeys]] lists the keys of the properties as ECMA-262 orders
    them: the array indexes in ascending order, then the other strings and then
    the symbols, both in the order of creation. *)
Theorem own_keys_order (s : Store) o L :
  store_ok h outside names s -> object_ok h outside names s o ->
  object_properties h outside names natives s o = Some L ->
  exists keys idx, ownPropertyKeys h s o = Ok keys /\
    StronglySorted Z.lt idx /\ idx ≡ₚ omap array_index L.*1 /\
    (own_key h <$> keys) = ((fun i => Some (KString (dec i))) <$> idx) ++
      filter (fun k => is_plain_string k = true) L.*1 ++ filter (fun k => is_symbol_key k = true) L.*1.
Proof.
  intros Hs Ho HL. destruct (object_view (H0 := object_laws) h outside names natives s o L Ho HL) as (v & Hv & _ & Hlen & ->).
  rewrite combine_keys by assumption.
  exact (ownPropertyKeys_ok (H1 := object_laws) h names outside s o v Hs Hv).
Qed.

End Props.

(** Two definitions in the object of the sample: [a] is not writable, so a new
    value is refused; the symbol becomes an accessor in place. *)
Lemma defineOwnProperty_is_ValidateAndApply_witness :
  (exists s o, defineOwnPropertyMethod (H := store_ops world_heap false ∅ 65) world_heap ∅ world_uint_name (fun _ => 0)
     world_store world_object 1000 (PName 65) (of_value ValueFalse 0) = Ok (s, o, false)) /\
  (exists s o, defineOwnPropertyMethod (H := store_ops world_heap false ∅ 65) world_heap ∅ world_uint_name (fun _ => 0)
     world_store world_object 1000 (PName 192) (of_getterSetter (mkGetterSetter 1008 ValueUndefined) 0) = Ok (s, o, true) /\
     exists L, object_properties (H0 := object_laws world_heap false ∅ 65 world_names world_empty)
       world_heap false world_names ∅ s o = Some L /\
     L !! 1%nat = Some (Some (KSymbol 192), AccessorProperty 1008 ValueUndefined true true)).
Proof.
  assert (object_ok (H0 := object_laws world_heap false ∅ 65 world_names world_empty) world_heap false world_names
    world_store world_object) as Ho by exact world_object_ok.
  pose proof (proj1 world_store_ok) as Hs.
  split.
  - destruct (defineOwnProperty_is_ValidateAndApply world_heap false ∅ 65 world_names world_empty world_uint_name (fun _ => 0)
      world_store world_object 1000 (PName 65) (of_value ValueFalse 0) _ Hs Ho world_properties)
      as (s & o & b & L & E & _ & _ & _ & _ & Hdef);
      [unfold world_names; cbn; set_solver|split; [reflexivity|intros _; now apply world_value]|].
    vm_compute in Hdef. destruct Hdef as [-> _]. now exists s, o.
  - destruct (defineOwnProperty_is_ValidateAndApply world_heap false ∅ 65 world_names world_empty world_uint_name (fun _ => 0)
      world_store world_object 1000 (PName 192) (of_getterSetter (mkGetterSetter 1008 ValueUndefined) 0) _ Hs Ho world_properties)
      as (s & o & b & L & E & _ & _ & _ & HL & Hdef);
      [unfold world_names; cbn; set_solver| |].
    + split_and!; try reflexivity. split; intros _; [right; split; [unfold in_u; cbn; lia|reflexivity]|now left].
    + vm_compute in Hdef. destruct Hdef as [-> ->]. exists s, o. split; [exact E|]. eexists. split; [exact HL|reflexivity].
Defined.

Lemma own_keys_order_witness : exists keys idx,
  ownPropertyKeys (H := store_ops world_heap false ∅ 65) world_heap world_store world_object = Ok keys /\
  StronglySorted Z.lt idx /\ idx ≡ₚ [7; 12] /\
  (own_key world_heap <$> keys) = ((fun i => Some (KString (dec i))) <$> idx) ++
    [Some (KString [97]); Some (KString [98]); Some (KSymbol 192)].
Proof.
  exact (own_keys_order world_heap false ∅ 65 world_names world_empty
    world_store world_object _ (proj1 world_store_ok) world_object_ok world_properties).
Defined.

End ObjectModelProps.
