(* ===== verification/ObjectWorld.v ===== *)
(** Objects and their prototypes ([runtime/Object.cpp]): [[Get]], [[HasProperty]],
    [[Set]] and [[SetPrototypeOf]] over the objects of [ObjectModel], which share
    the hidden classes of one store.  The theorems say that no operation on one
    object changes another, although structures are shared and moved, that
    prototype chains stay free of cycles, so that walks along them end, and that
    [[Set]] is OrdinarySet of ECMA-262. *)
From Stdlib Require Import ZArith Lia Bool.
From stdpp Require Import base numbers list option decidable gmap sorting relations.
From S2P Require Import Prelude Double Value NumberString KeyedCollection ObjectStructure ObjectModel.

(** * Objects that refer to one another *)
Module Worlds.
Import Word Heap PropertyDescriptor StructureSpec Structures Objects.

Section Worlds.
Context {St : Type} `{StructureOps St}.
Context (h : heap) (natives : gmap Z StructureDescriptor.NativeGetterSetterData).
Context (uint_name : Z -> Z) (alloc_native : StructureDescriptor.NativeGetterSetterData -> Z).

(** Objects by address.  All have the methods of class [Object]. *)
Record World := mkWorld { w_store : St; w_objects : gmap Z Object }.
Definition object_at (w : World) (p : Z) : result Object := defined (w_objects w !! p).
Definition update (s : St) (p : Z) (o : Object) (w : World) : World := mkWorld s (<[p := o]> (w_objects w)).

Definition getOwnProperty_at (w : World) (p : Z) (P : ObjectPropertyName)
  : result (World * option ObjectGetResult) :=
  o ← object_at w p;
  '(s, r) ← getOwnProperty natives uint_name (w_store w) o P;
  Ok (mkWorld s (w_objects w), r).
Definition defineOwnProperty (w : World) (p : Z) (P : ObjectPropertyName) (desc : ObjectPropertyDescriptor)
  : result (World * bool) :=
  o ← object_at w p;
  '(s, o, b) ← defineOwnPropertyMethod h natives uint_name alloc_native (w_store w) o p P desc;
  Ok (update s p o w, b).
Definition deleteOwnProperty_at (w : World) (p : Z) (P : ObjectPropertyName) : result (World * bool) :=
  o ← object_at w p;
  '(s, o, b) ← deleteOwnProperty natives uint_name (w_store w) o P;
  Ok (update s p o w, b).
Definition preventExtensions_at (w : World) (p : Z) : result World :=
  o ← object_at w p;
  '(s, o) ← preventExtensions (w_store w) o;
  Ok (update s p o w).

(** [Object::get] and [Object::hasProperty]: up the prototype chain. *)
Fixpoint get (fuel : nat) (w : World) (p : Z) (P : ObjectPropertyName)
  : result (World * option ObjectGetResult) :=
  o ← object_at w p;
  '(w, desc) ← getOwnProperty_at w p P;
  match desc with
  | Some r => Ok (w, Some r)
  | None =>
      match m_prototype o, fuel with
      | None, _ => Ok (w, None)
      | Some q, S fuel => get fuel w q P
      | Some _, O => Undefined
      end
  end.
Definition hasProperty (fuel : nat) (w : World) (p : Z) (P : ObjectPropertyName) : result (World * bool) :=
  '(w, r) ← get fuel w p P; Ok (w, match r with Some _ => true | None => false end).

(** [Object::set]: done, or what remains is the call of a setter. *)
Inductive SetOutcome := SetDone (b : bool) | SetCall (setter receiver v : Z).

(** The part of [set] for a data descriptor: [this] is [p], [ownDesc] was found
    in it if [hasValue].  [set_receiver] defines the property in the receiver. *)
Definition set_receiver (w : World) (p : Z) (P : ObjectPropertyName) (v receiver : Z) (hasValue : bool)
  : result (World * SetOutcome) :=
  let put w attribute :=
    '(w, b) ← defineOwnProperty w receiver P (of_value v attribute); Ok (w, SetDone b) in
  if hasValue && (p =? receiver) then put w 0
  else
    '(w, existingDesc) ← getOwnProperty_at w receiver P;
    match existingDesc with
    | Some e =>
        if negb (g_isDataProperty e) then Ok (w, SetDone false)
        else if negb (g_isWritable e) then Ok (w, SetDone false)
        else put w 0
    | None => put w AllPresent
    end.
Definition set_data (w : World) (p : Z) (P : ObjectPropertyName) (v receiver : Z)
    (hasValue : bool) (ownDesc : ObjectGetResult) : result (World * SetOutcome) :=
  if negb (g_isWritable ownDesc) then Ok (w, SetDone false)
  else if negb (isObject h receiver) then Ok (w, SetDone false)
  else if match g_payload ownDesc with
          | GotNative data _ => StructureDescriptor.m_actsLikeJSGetterSetter data
          | _ => false
          end then
    o ← object_at w p;
    '(s, i) ← st_find (w_store w) (m_structure o) (toObjectStructurePropertyName uint_name P);
    idx ← defined i;
    l ← st_properties s (m_structure o);
    item ← defined (l !! idx);
    '(o, b) ← setOwnDataPropertyUtilForObjectInner natives o idx (m_descriptor item) v receiver;
    Ok (update s p o w, SetDone b)
  else set_receiver w p P v receiver hasValue.

Fixpoint set (fuel : nat) (w : World) (p : Z) (P : ObjectPropertyName) (v receiver : Z)
  : result (World * SetOutcome) :=
  o ← object_at w p;
  '(w, ownDesc) ← getOwnProperty_at w p P;
  match ownDesc with
  | None =>
      match m_prototype o, fuel with
      | Some parent, S fuel => set fuel w parent P v receiver
      | Some _, O => Undefined
      | None, _ => set_data w p P v receiver false (mkGetResult (GotValue ValueUndefined) true true true)
      end
  | Some r =>
      match g_payload r with
      | GotAccessor x =>
          let setter := if hasSetter x then setter x else ValueUndefined in
          if isUndefined setter then Ok (w, SetDone false) else Ok (w, SetCall setter receiver v)
      | _ => set_data w p P v receiver true r
      end
  end.

(** [Object::setPrototype]: the walk from the new prototype stops at null, at
    the object itself (a cycle) and at an exotic object. *)
Fixpoint reaches (fuel : nat) (w : World) (p : option Z) (self : Z) : result bool :=
  match p with
  | None => Ok false
  | Some q =>
      if q =? self then Ok true
      else
        o ← object_at w q;
        if negb (m_isOrdinary o) then Ok false
        else match fuel with
             | O => Undefined
             | S fuel => reaches fuel w (m_prototype o) self
             end
  end.
Definition setPrototype (fuel : nat) (w : World) (p : Z) (proto : option Z) : result (World * bool) :=
  o ← object_at w p;
  if bool_decide (proto = m_prototype o) then Ok (w, true)
  else if negb (m_isExtensible o) then Ok (w, false)
  else
    cycle ← reaches fuel w proto p;
    if (cycle : bool) then Ok (w, false)
    else Ok (update (w_store w) p (mkObject (m_structure o) proto (m_values o) (m_isExtensible o) (m_isOrdinary o)) w,
             true).

(** [new Object] with a prototype and a structure: the default one, or one that
    was kept for an object literal; its properties get the values given. *)
Definition new_object (w : World) (p : Z) (structure : nat) (values : list Slot) (proto : option Z) : World :=
  update (w_store w) p (mkObject structure proto values true true) w.
Definition markReferencedByInlineCache_at (w : World) (p : Z) : result World :=
  o ← object_at w p;
  s ← st_mark (w_store w) (m_structure o);
  Ok (mkWorld s (w_objects w)).

End Worlds.
End Worlds.

(** * Prototype chains *)
Module Chains.
Import Objects.

Abbreviation Objs := (gmap Z Object).

(** [p] is ordinary and inherits from [q]. *)
Definition inherits (m : Objs) (p q : Z) : Prop :=
  exists o, m !! p = Some o /\ m_isOrdinary o = true /\ m_prototype o = Some q.
Definition acyclic (m : Objs) : Prop := forall p, ~ tc (inherits m) p p.
Definition closed (m : Objs) : Prop :=
  forall p o q, m !! p = Some o -> m_prototype o = Some q -> is_Some (m !! q).

(** The chain of [p] ends in an object without prototype or an exotic one. *)
Inductive chain (m : Objs) : Z -> list Z -> Prop :=
  | chain_end p o : m !! p = Some o -> m_isOrdinary o = false \/ m_prototype o = None -> chain m p [p]
  | chain_next p o q l : m !! p = Some o -> m_isOrdinary o = true -> m_prototype o = Some q ->
      chain m q l -> chain m p (p :: l).

Lemma NoDup_size (m : Objs) l : NoDup l -> (forall x, x ∈ l -> is_Some (m !! x)) -> (length l <= size m)%nat.
Proof.
  intros Hd Hl. rewrite <- size_dom, <- (size_list_to_set (C := gset Z) l Hd).
  apply subseteq_size. intros x Hx. apply elem_of_dom, Hl. now apply elem_of_list_to_set in Hx.
Qed.

Lemma chain_from (m : Objs) : closed m -> acyclic m -> forall n p visited, is_Some (m !! p) -> NoDup visited ->
  (forall x, x ∈ visited -> is_Some (m !! x) /\ tc (inherits m) x p) -> (size m <= n + length visited)%nat ->
  exists l, chain m p l /\ (length l + length visited <= size m)%nat.
Proof.
  intros Hc Ha. induction n as [|n IH]; intros p visited [o Ho] Hd Hv Hn.
  all: assert (NoDup (p :: visited)) as Hd' by (constructor; [intros F; destruct (Ha p), (Hv p F) as [_ ?]; assumption|assumption]).
  all: assert (forall x, x ∈ p :: visited -> is_Some (m !! x)) as Hin
    by (intros x Hx; apply elem_of_cons in Hx as [->|Hx]; [eauto|now apply Hv]).
  all: pose proof (NoDup_size m _ Hd' Hin) as Hsize; cbn in Hsize.
  { lia. }
  destruct (m_isOrdinary o) eqn:Eo; [|exists [p]; split; [eapply chain_end; eauto|cbn; lia]].
  destruct (m_prototype o) as [q|] eqn:Ep; [|exists [p]; split; [eapply chain_end; eauto|cbn; lia]].
  assert (inherits m p q) as Hs by (exists o; auto).
  destruct (IH q (p :: visited)) as (l & Hl & Hlen); [eauto|assumption| |cbn; lia|].
  - intros x Hx. split; [now apply Hin|]. apply elem_of_cons in Hx as [->|Hx]; [now apply tc_once|].
    destruct (Hv x Hx) as [_ Ht]. eapply tc_r; eassumption.
  - exists (p :: l). split; [eapply chain_next; eauto|]. cbn in *. lia.
Qed.

(** Chains exist, and are no longer than there are objects. *)
Lemma chain_exists (m : Objs) p : closed m -> acyclic m -> is_Some (m !! p) ->
  exists l, chain m p l /\ (length l <= size m)%nat.
Proof.
  intros Hc Ha Hp. destruct (chain_from m Hc Ha (size m) p [] Hp) as (l & Hl & Hlen);
    [constructor|intros x Hx; now apply not_elem_of_nil in Hx|cbn; lia|].
  exists l. split; [assumption|]. cbn in Hlen. lia.
Qed.

(** Changing one prototype keeps chains free of cycles, if the object is not
    reached from the new prototype. *)
Lemma inherits_insert m p o proto structure values extensible ordinary :
  m !! p = Some o -> ordinary = m_isOrdinary o ->
  forall x y, inherits (<[p := mkObject structure proto values extensible ordinary]> m) x y ->
  (x <> p /\ inherits m x y) \/ (x = p /\ proto = Some y).
Proof.
  intros Ho -> x y (ox & Hx & Hord & Hp). destruct (decide (x = p)) as [->|N].
  - rewrite lookup_insert_eq in Hx. injection Hx as <-. now right.
  - rewrite lookup_insert_ne in Hx by congruence. left. split; [assumption|]. now exists ox.
Qed.

Lemma rtc_new_edge {A} (R R' : relation A) p q :
  (forall x y, R' x y -> R x y \/ (x = p /\ y = q)) ->
  forall x y, rtc R' x y -> rtc R x y \/ (rtc R x p /\ rtc R q y).
Proof.
  intros HR x y. induction 1 as [x|x y z Hxy Hyz IH]; [left; constructor|].
  destruct (HR x y Hxy) as [HR'|[-> ->]].
  - destruct IH as [IH|[IH1 IH2]]; [left; eapply rtc_l; eassumption|].
    right. split; [eapply rtc_l; eassumption|assumption].
  - right. split; [constructor|]. destruct IH as [IH|[_ IH]]; assumption.
Qed.

Lemma acyclic_new_edge {A} (R R' : relation A) p q :
  (forall x y, R' x y -> R x y \/ (x = p /\ y = q)) ->
  (forall x, ~ tc R x x) -> ~ rtc R q p -> forall x, ~ tc R' x x.
Proof.
  intros HR Ha Hn x Ht. assert (exists y, R' x y /\ rtc R' y x) as (y & Hxy & Hyx)
    by (inversion Ht; subst; [exists x; split; [assumption|constructor]|eexists; split; [eassumption|now apply tc_rtc]]).
  destruct (rtc_new_edge R R' p q HR y x Hyx) as [Hr|[Hr1 Hr2]], (HR x y Hxy) as [H1|[-> ->]].
  - apply (Ha x). eapply tc_rtc_r; [apply tc_once, H1|assumption].
  - now apply Hn.
  - apply Hn. eapply rtc_trans; [exact Hr2|]. eapply rtc_l; eassumption.
  - now apply Hn.
Qed.

Lemma acyclic_subrel m m' : (forall x y, inherits m' x y -> inherits m x y) -> acyclic m -> acyclic m'.
Proof.
  intros Hs Ha x Ht. apply (Ha x). revert Ht. generalize x at 2 4. intros y Ht.
  induction Ht; [now apply tc_once, Hs|eapply tc_l; eauto].
Qed.

End Chains.

(** * The invariant of a world *)
Module WorldFacts.
Import Word Heap Names PropertyDescriptor DescriptorSpec Denotation Objects Worlds StructureSpec Structures
  PropertyList ObjectFacts Chains.

Section WorldFacts.
Context {St : Type} (h : heap) (outside : bool) (names : Z -> Prop) `{StructureLaws h outside names St}.
Context (natives : gmap Z StructureDescriptor.NativeGetterSetterData).
Context (uint_name : Z -> Z) (alloc_native : StructureDescriptor.NativeGetterSetterData -> Z).
Context (uint_names : forall i, 0 <= i -> names (uint_name i) -> key h (uint_name i) = Some (KString (dec i))).

Notation pname P := (toObjectStructurePropertyName uint_name P).
Notation pkey P := (key h (pname P)).
Notation Properties := (list (option Key * Property)).
Notation World := (World (St := St)).

(** Every object fits its structure, objects of one structure know that it is
    shared, and prototypes are objects, without cycles of ordinary objects. *)
Record world_ok (w : World) : Prop := mkWorldOk {
  wo_store : st_ok (w_store w);
  wo_objects p o : w_objects w !! p = Some o -> object_ok h outside names (w_store w) o;
  wo_shared p q o o' : p <> q -> w_objects w !! p = Some o -> w_objects w !! q = Some o' ->
    m_structure o = m_structure o' -> st_shared (w_store w) (m_structure o) = true;
  wo_closed : closed (w_objects w);
  wo_acyclic : acyclic (w_objects w)
}.

(** The properties of the object at an address. *)
Definition properties_at (w : World) (p : Z) : option Properties :=
  o ← w_objects w !! p; object_properties h outside names natives (w_store w) o.

Lemma properties_at_object w p o : w_objects w !! p = Some o ->
  properties_at w p = object_properties h outside names natives (w_store w) o.
Proof. unfold properties_at. now intros ->. Qed.

Lemma object_has_properties s o : object_ok h outside names s o ->
  exists L, object_properties h outside names natives s o = Some L.
Proof. intros (v & Hv & _). unfold object_properties. rewrite Hv. cbn. eauto. Qed.

(** What an operation leaves alone: all objects but one. *)
Definition unchanged_but (p : option Z) (w w' : World) : Prop :=
  (forall q, Some q <> p -> properties_at w' q = properties_at w q) /\ dom (w_objects w) ⊆ dom (w_objects w').

Lemma unchanged_refl p w : unchanged_but p w w.
Proof. now split. Qed.
Lemma unchanged_trans p w1 w2 w3 : unchanged_but p w1 w2 -> unchanged_but p w2 w3 -> unchanged_but p w1 w3.
Proof. intros [H1 D1] [H2 D2]. split; [intros q Hq; now rewrite H2, H1|set_solver]. Qed.

(** The store moved on without a change to any view: searches. *)
Lemma same_world w s' : world_ok w -> st_ok s' -> same_views h outside names (w_store w) s' ->
  world_ok (mkWorld s' (w_objects w)) /\ unchanged_but None w (mkWorld s' (w_objects w)).
Proof.
  intros [Hs Ho Hsh Hc Ha] Hs' Hsv. split.
  - split; cbn; auto.
    + intros p o E. eapply object_ok_same; eauto.
    + intros p q o o' N E1 E2 E3. destruct (Hsv (m_structure o)) as [_ ->]. eauto.
  - split; [|done]. intros q _. unfold properties_at. cbn. destruct (w_objects w !! q) as [o|]; [|reflexivity]. cbn.
    now apply object_properties_same.
Qed.

(** Objects after an operation on the object [o] at [p], whose structure may
    have been changed, or replaced by a new or by a shared one. *)
Lemma updated_world w p o s' o' : world_ok w -> w_objects w !! p = Some o -> st_ok s' ->
  object_ok h outside names s' o' -> advances h outside names (w_store w) o s' o' ->
  world_ok (update s' p o' w) /\ unchanged_but (Some p) w (update s' p o' w).
Proof.
  intros [Hs Ho Hsh Hc Ha] Hp Hs' Ho' (He & Hr & Epr & Eord).
  assert (forall q oq, q <> p -> w_objects w !! q = Some oq -> exists v, st_view (w_store w) (m_structure oq) = Some v /\
    st_view s' (m_structure oq) = Some v /\
    (st_shared (w_store w) (m_structure oq) = true -> st_shared s' (m_structure oq) = true)) as Others.
  { intros q oq N Hq. destruct (Ho q oq Hq) as (v & Hv & _). exists v. split; [assumption|]. apply He; [assumption|].
    destruct (decide (m_structure oq = m_structure o)) as [E|E]; [right|now left]. rewrite <- E. eapply (Hsh q p); eauto. }
  assert (forall q oq, q <> p -> w_objects w !! q = Some oq -> m_structure o' = m_structure oq ->
    st_shared s' (m_structure oq) = true) as Shared.
  { intros q oq N Hq E. destruct (Others q oq N Hq) as (v & Hv & _ & Hk). destruct Hr as [Er|[Er|Er]]; [|congruence|congruence].
    apply Hk. eapply (Hsh q p); eauto; congruence. }
  split; [split; cbn|split].
  - assumption.
  - intros q oq Hq. destruct (decide (q = p)) as [->|N].
    + rewrite lookup_insert_eq in Hq. now injection Hq as <-.
    + rewrite lookup_insert_ne in Hq by congruence. destruct (Ho q oq Hq) as (v & Hv & Hf).
      destruct (Others q oq N Hq) as (v' & Hv' & Hv2 & _). exists v'. split; [assumption|]. congruence.
  - intros q1 q2 o1 o2 N H1 H2 E. destruct (decide (q1 = p)) as [->|N1], (decide (q2 = p)) as [->|N2];
      [congruence| | |].
    + rewrite lookup_insert_eq in H1. rewrite lookup_insert_ne in H2 by congruence. injection H1 as <-.
      rewrite E. eauto.
    + rewrite lookup_insert_eq in H2. rewrite lookup_insert_ne in H1 by congruence. injection H2 as <-. eauto.
    + rewrite lookup_insert_ne in H1, H2 by congruence. destruct (Others q1 o1 N1 H1) as (v & _ & _ & Hk). eauto.
  - intros q oq q' Hq Hpr. rewrite lookup_insert_is_Some. destruct (decide (p = q')); [now left|right; split; [assumption|]].
    destruct (decide (q = p)) as [->|N].
    + rewrite lookup_insert_eq in Hq. injection Hq as <-. rewrite Epr in Hpr. eauto.
    + rewrite lookup_insert_ne in Hq by congruence. eauto.
  - eapply acyclic_subrel; [|exact Ha]. intros x y (ox & Hx & Hord & Hpx). destruct (decide (x = p)) as [->|N].
    + rewrite lookup_insert_eq in Hx. injection Hx as <-. exists o. split_and!; congruence.
    + rewrite lookup_insert_ne in Hx by congruence. now exists ox.
  - intros q Hq. unfold properties_at, update. cbn. rewrite lookup_insert_ne by congruence.
    destruct (w_objects w !! q) as [oq|] eqn:E; [|reflexivity]. cbn.
    destruct (Others q oq ltac:(congruence) E) as (v & Hv & Hv' & _). unfold object_properties. now rewrite Hv, Hv'.
  - cbn. set_solver.
Qed.

(** ** Searches *)

(** Worlds that only searches tell apart. *)
Definition quiet (w w' : World) : Prop :=
  world_ok w' /\ w_objects w' = w_objects w /\ (forall q, properties_at w' q = properties_at w q).

Lemma quiet_refl w : world_ok w -> quiet w w.
Proof. now intros; split_and!. Qed.
Lemma quiet_trans w1 w2 w3 : quiet w1 w2 -> quiet w2 w3 -> quiet w1 w3.
Proof. intros (_ & E1 & P1) (H2 & E2 & P2). split_and!; [assumption|congruence|]. intros q. now rewrite P2, P1. Qed.
Lemma quiet_unchanged p w w' : quiet w w' -> unchanged_but p w w'.
Proof. intros (_ & E & P). split; [intros q _; apply P|now rewrite E]. Qed.

(** The property of key [k] of the object at [p]. *)
Definition own_property (w : World) (p : Z) (k : option Key) : option Property :=
  L ← properties_at w p; find_key L k.

Lemma quiet_own w w' p k : quiet w w' -> own_property w' p k = own_property w p k.
Proof. intros (_ & _ & P). unfold own_property. now rewrite P. Qed.

Lemma getOwnProperty_at_ok w p o P : world_ok w -> w_objects w !! p = Some o -> name_ok names uint_name P ->
  exists w' r, getOwnProperty_at natives uint_name w p P = Ok (w', r) /\ quiet w w' /\
    got_as r (own_property w p (pkey P)).
Proof.
  intros Hw Hp HP. pose proof (wo_objects w Hw p o Hp) as Ho. destruct (object_has_properties _ _ Ho) as [L HL].
  destruct (getOwn_ok h outside names natives uint_name uint_names _ o P L (wo_store w Hw) Ho HL HP)
    as (s' & r & E & Hs' & Hsv & Hr).
  unfold getOwnProperty_at, object_at. rewrite Hp. cbn [defined mbind result_bind]. rewrite E. cbn [mbind result_bind].
  destruct (same_world w s' Hw Hs' Hsv) as [Hw' [Hu _]].
  eexists _, r. split; [reflexivity|]. split; [split_and!; [assumption|reflexivity|]|].
  - intros q. now apply Hu.
  - unfold own_property. rewrite (properties_at_object w p o Hp), HL. exact Hr.
Qed.

(** The property found along a chain of objects. *)
Fixpoint found_along (w : World) (l : list Z) (k : option Key) : option Property :=
  match l with
  | [] => None
  | p :: l => match own_property w p k with Some x => Some x | None => found_along w l k end
  end.
Lemma quiet_found w w' l k : quiet w w' -> found_along w' l k = found_along w l k.
Proof. intros Hq. induction l as [|p l IH]; cbn; [reflexivity|]. now rewrite (quiet_own w w' p k Hq), IH. Qed.

Definition all_ordinary (m : Objs) : Prop := forall p o, m !! p = Some o -> m_isOrdinary o = true.

Lemma got_as_none r k : got_as r k -> (r = None <-> k = None).
Proof. destruct r, k as [[]|]; cbn; intuition (congruence || discriminate). Qed.

Lemma get_chain m p l : chain m p l -> forall fuel w P, w_objects w = m -> world_ok w -> all_ordinary m ->
  name_ok names uint_name P -> (length l <= S fuel)%nat ->
  exists w' r, get natives uint_name fuel w p P = Ok (w', r) /\ quiet w w' /\ got_as r (found_along w l (pkey P)).
Proof.
  induction 1 as [p o Ho Hend|p o q l Ho Hord Hpr Hl IH]; intros fuel w P <- Hw Hall HP Hf;
    destruct (getOwnProperty_at_ok w p o P Hw Ho HP) as (w1 & r & E & Hq & Hr); pose proof (got_as_none _ _ Hr) as Hnone.
  - assert (m_prototype o = None) as Hpr by (destruct Hend as [F|F]; [rewrite (Hall p o Ho) in F; discriminate|assumption]).
    assert (get natives uint_name fuel w p P = Ok (w1, r)) as Hget.
    { destruct fuel; cbn; unfold object_at; rewrite Ho; cbn [defined mbind result_bind]; rewrite E;
        cbn [mbind result_bind]; rewrite Hpr; now destruct r. }
    exists w1, r. split_and!; try assumption. cbn. now destruct (own_property w p (pkey P)).
  - destruct fuel as [|fuel]; [inversion Hl; subst; cbn in Hf; lia|]. cbn [length] in Hf.
    cbn [get found_along]. unfold object_at. rewrite Ho. cbn [defined mbind result_bind]. rewrite E. cbn [mbind result_bind].
    destruct r as [r|].
    + exists w1, (Some r). destruct (own_property w p (pkey P)); [now split_and!|]. destruct Hr.
    + rewrite Hpr. rewrite (proj1 Hnone eq_refl). destruct Hq as (Hw1 & Eo & Hp1).
      destruct (IH fuel w1 P) as (w2 & r2 & -> & Hq2 & Hr2); [assumption|assumption|assumption|assumption|lia|].
      assert (quiet w w1) as Hq by now split_and!. exists w2, r2. split; [reflexivity|].
      split; [eapply quiet_trans; eassumption|]. now rewrite <- (quiet_found w w1 l _ Hq).
Qed.

(** ** Prototypes *)

Lemma reaches_chain m p l : chain m p l -> forall fuel (w : World) self, w_objects w = m -> (length l <= fuel)%nat ->
  exists b, reaches fuel w (Some p) self = Ok b /\ (b = true <-> rtc (inherits m) p self).
Proof.
  induction 1 as [p o Ho Hend|p o q l Ho Hord Hpr Hl IH]; intros fuel w self <- Hf; cbn [length] in Hf;
    (destruct fuel as [|fuel]; [lia|]); cbn [reaches]; destruct (p =? self) eqn:E; Zbool.
  all: try (exists true; split; [reflexivity|]; subst; split; [constructor|reflexivity]).
  all: unfold object_at; rewrite Ho; cbn [defined mbind result_bind].
  - assert (~ rtc (inherits (w_objects w)) p self) as Hno.
    { intros F. apply rtc_inv in F as [F|(y & (o2 & F2 & Hord & Hpr) & _)]; [congruence|].
      rewrite Ho in F2. injection F2 as <-. destruct Hend; congruence. }
    exists false. split; [|now split]. destruct (m_isOrdinary o); cbn [negb]; [|reflexivity].
    destruct Hend as [F|E2]; [discriminate|rewrite E2]. destruct fuel; reflexivity.
  - rewrite Hord, Hpr. cbn [negb]. destruct (IH fuel w self eq_refl ltac:(lia)) as (b & -> & Hb).
    exists b. split; [reflexivity|]. rewrite Hb. split.
    + intros F. apply (rtc_l _ p q); [exists o; auto|assumption].
    + intros F. apply rtc_inv in F as [F|(y & (o2 & F2 & _ & Hp2) & F)]; [congruence|].
      rewrite Ho in F2. injection F2 as <-. now replace q with y by congruence.
Qed.

(** Replacing the prototype of an object. *)
Definition with_prototype (o : Object) (proto : option Z) : Object :=
  mkObject (m_structure o) proto (m_values o) (m_isExtensible o) (m_isOrdinary o).

Lemma prototype_world w p o proto : world_ok w -> w_objects w !! p = Some o ->
  (forall q, proto = Some q -> is_Some (w_objects w !! q) /\ ~ rtc (inherits (w_objects w)) q p) ->
  world_ok (update (w_store w) p (with_prototype o proto) w) /\
  unchanged_but None w (update (w_store w) p (with_prototype o proto) w).
Proof.
  intros [Hs Ho Hsh Hc Ha] Hp Hq.
  assert (forall q o', <[p := with_prototype o proto]> (w_objects w) !! q = Some o' ->
    exists o0, w_objects w !! q = Some o0 /\ m_structure o' = m_structure o0 /\ m_values o' = m_values o0 /\
      (m_prototype o' = m_prototype o0 \/ m_prototype o' = proto)) as Look.
  { intros q o' E. destruct (decide (q = p)) as [->|N].
    - rewrite lookup_insert_eq in E. injection E as <-. exists o. cbn. auto.
    - rewrite lookup_insert_ne in E by congruence. exists o'. auto. }
  split; [split; cbn|split; [|cbn; set_solver]].
  - assumption.
  - intros q o' E. destruct (Look q o' E) as (o0 & E0 & Es & Ev & _). destruct (Ho q o0 E0) as (v & Hv & Hf).
    exists v. now rewrite Es, Ev.
  - intros q1 q2 o1 o2 N E1 E2 E. destruct (Look q1 o1 E1) as (o1' & F1 & S1 & _), (Look q2 o2 E2) as (o2' & F2 & S2 & _).
    rewrite S1. apply (Hsh q1 q2 o1' o2'); congruence.
  - intros q o' q' E Hpr. rewrite lookup_insert_is_Some. destruct (decide (p = q')); [now left|right; split; [assumption|]].
    destruct (Look q o' E) as (o0 & E0 & _ & _ & [F|F]); [eapply Hc; [exact E0|congruence]|apply Hq; congruence].
  - destruct proto as [q|].
    + unfold acyclic. apply (acyclic_new_edge (inherits (w_objects w)) _ p q).
      * intros x y Hxy. destruct (inherits_insert (w_objects w) p o (Some q) (m_structure o) (m_values o)
          (m_isExtensible o) (m_isOrdinary o) Hp eq_refl x y Hxy) as [[_ F]|[-> F]]; [now left|right; split; congruence].
      * exact Ha.
      * now apply Hq.
    + eapply acyclic_subrel; [|exact Ha]. intros x y Hxy.
      destruct (inherits_insert (w_objects w) p o None (m_structure o) (m_values o)
          (m_isExtensible o) (m_isOrdinary o) Hp eq_refl x y Hxy) as [[_ F]|[_ F]]; [assumption|discriminate].
  - intros q _. unfold properties_at, update. cbn. destruct (decide (q = p)) as [->|N].
    + rewrite lookup_insert_eq, Hp. reflexivity.
    + now rewrite lookup_insert_ne by congruence.
Qed.

(** What [[SetPrototypeOf]] of an ordinary object does. *)
Definition prototype_set (w : World) (p : Z) (o : Object) (proto : option Z) (b : bool) (w' : World) : Prop :=
  (b = true <-> proto = m_prototype o \/
     (m_isExtensible o = true /\ forall q, proto = Some q -> ~ rtc (inherits (w_objects w)) q p)) /\
  w_objects w' = (if b then <[p := with_prototype o proto]> (w_objects w) else w_objects w).

Lemma setPrototype_ok fuel w p o proto : world_ok w -> w_objects w !! p = Some o ->
  (forall q, proto = Some q -> is_Some (w_objects w !! q)) -> (size (w_objects w) <= fuel)%nat ->
  exists w' b, setPrototype fuel w p proto = Ok (w', b) /\ world_ok w' /\ unchanged_but None w w' /\
    prototype_set w p o proto b w'.
Proof.
  intros Hw Hp Hdom Hf. unfold setPrototype, object_at. rewrite Hp. cbn [defined mbind result_bind].
  case_bool_decide as Esame.
  - exists w, true. split_and!; [reflexivity|assumption|apply unchanged_refl|]. split; [split; auto|].
    rewrite Esame, insert_id; [reflexivity|]. rewrite Hp. now destruct o.
  - destruct (m_isExtensible o) eqn:Ex; cbn [negb].
    2: { exists w, false. split_and!; [reflexivity|assumption|apply unchanged_refl|]. split; [|reflexivity].
         rewrite Ex. split; [discriminate|]. intros [?|[F _]]; [now destruct Esame|discriminate]. }
    assert (exists b, reaches fuel w proto p = Ok b /\
      (b = true <-> exists q, proto = Some q /\ rtc (inherits (w_objects w)) q p)) as (b & -> & Hb).
    { destruct proto as [q|].
      - destruct (chain_exists (w_objects w) q (wo_closed w Hw) (wo_acyclic w Hw) (Hdom q eq_refl)) as (l & Hl & Hlen).
        destruct (reaches_chain _ q l Hl fuel w p eq_refl ltac:(lia)) as (b & -> & Hb). exists b. split; [reflexivity|].
        rewrite Hb. split; [eauto|]. intros (q' & [= <-] & F). exact F.
      - exists false. split; [now destruct fuel|]. split; [discriminate|]. now intros (q & F & _). }
    cbn [mbind result_bind]. destruct b.
    + destruct (proj1 Hb eq_refl) as (q & -> & Hr). exists w, false.
      split_and!; [reflexivity|assumption|apply unchanged_refl|]. split; [|reflexivity].
      rewrite Ex. split; [discriminate|]. intros [?|[_ F]]; [now destruct Esame|]. now destruct (F q eq_refl).
    + assert (forall q, proto = Some q -> ~ rtc (inherits (w_objects w)) q p) as Hno
        by (intros q Eq F; now assert (false = true) by (apply Hb; eauto)).
      destruct (prototype_world w p o proto Hw Hp) as [Hw' Hu]; [auto|].
      fold (with_prototype o proto). unfold with_prototype in Hw', Hu. rewrite Ex in Hw', Hu.
      eexists _, true. split; [reflexivity|]. split_and!; try assumption.
      split; [rewrite Ex; split; auto|]. unfold with_prototype. now rewrite Ex.
Qed.

(** ** Own properties *)

Lemma changed_world w p o s' o' L' : world_ok w -> w_objects w !! p = Some o -> st_ok s' ->
  object_ok h outside names s' o' -> advances h outside names (w_store w) o s' o' ->
  object_properties h outside names natives s' o' = Some L' ->
  world_ok (update s' p o' w) /\ unchanged_but (Some p) w (update s' p o' w) /\
  properties_at (update s' p o' w) p = Some L'.
Proof.
  intros Hw Hp Hs' Ho' Ha HL'. destruct (updated_world w p o s' o' Hw Hp Hs' Ho' Ha) as [Hw' Hu].
  split_and!; try assumption. unfold properties_at, update. cbn. now rewrite lookup_insert_eq.
Qed.

Lemma defineOwnProperty_ok w p o L P desc : world_ok w -> w_objects w !! p = Some o -> properties_at w p = Some L ->
  names (pname P) -> descriptor_ok h desc ->
  exists w' b L', defineOwnProperty h natives uint_name alloc_native w p P desc = Ok (w', b) /\
    world_ok w' /\ unchanged_but (Some p) w w' /\ properties_at w' p = Some L' /\
    defined_as L (pkey P)
      (ValidateAndApply (SameValue h) (m_isExtensible o) (fields_of desc) (find_key L (pkey P))) b L'.
Proof.
  intros Hw Hp HL Hn Hd. rewrite (properties_at_object w p o Hp) in HL.
  destruct (define_ok h outside names natives uint_name alloc_native _ o p P desc L (wo_store w Hw)
    (wo_objects w Hw p o Hp) HL Hn Hd) as (s' & o' & b & E & Hs' & Ho' & Ha & _ & L' & HL' & Hdef).
  destruct (changed_world w p o s' o' L' Hw Hp Hs' Ho' Ha HL') as (Hw' & Hu & HL2).
  unfold defineOwnProperty, object_at. rewrite Hp. cbn [defined mbind result_bind]. rewrite E. cbn [mbind result_bind].
  now exists (update s' p o' w), b, L'.
Qed.

Lemma deleteOwnProperty_ok w p o L P : world_ok w -> w_objects w !! p = Some o -> properties_at w p = Some L ->
  name_ok names uint_name P ->
  exists w' b L', deleteOwnProperty_at natives uint_name w p P = Ok (w', b) /\
    world_ok w' /\ unchanged_but (Some p) w w' /\ properties_at w' p = Some L' /\
    match find_key L (pkey P) with
    | Some x => b = configurable x /\ L' = (if configurable x then delete_key L (pkey P) else L)
    | None => b = true /\ L' = L
    end.
Proof.
  intros Hw Hp HL HP. rewrite (properties_at_object w p o Hp) in HL.
  destruct (object_delete_ok h outside names natives uint_name uint_names _ o P L (wo_store w Hw)
    (wo_objects w Hw p o Hp) HL HP) as (s' & o' & b & E & Hs' & Ho' & Ha & _ & L' & HL' & Hdel).
  destruct (changed_world w p o s' o' L' Hw Hp Hs' Ho' Ha HL') as (Hw' & Hu & HL2).
  unfold deleteOwnProperty_at, object_at. rewrite Hp. cbn [defined mbind result_bind]. rewrite E. cbn [mbind result_bind].
  now exists (update s' p o' w), b, L'.
Qed.

Lemma preventExtensions_at_ok w p o L : world_ok w -> w_objects w !! p = Some o -> properties_at w p = Some L ->
  exists w', preventExtensions_at w p = Ok w' /\ world_ok w' /\ unchanged_but (Some p) w w' /\
    properties_at w' p = Some L /\ (m_isExtensible <$> w_objects w' !! p) = Some false.
Proof.
  intros Hw Hp HL. rewrite (properties_at_object w p o Hp) in HL.
  destruct (ObjectFacts.preventExtensions_ok h outside names natives _ o L (wo_store w Hw)
    (wo_objects w Hw p o Hp) HL) as (s' & o' & E & Hs' & Ho' & Ha & Hx & HL').
  destruct (changed_world w p o s' o' L Hw Hp Hs' Ho' Ha HL') as (Hw' & Hu & HL2).
  unfold preventExtensions_at, object_at. rewrite Hp. cbn [defined mbind result_bind]. rewrite E. cbn [mbind result_bind].
  exists (update s' p o' w). split_and!; try assumption; [reflexivity|]. cbn. rewrite lookup_insert_eq. cbn. now rewrite Hx.
Qed.

Lemma world_mark_ok w p o : world_ok w -> w_objects w !! p = Some o ->
  exists w', markReferencedByInlineCache_at w p = Ok w' /\ world_ok w' /\ unchanged_but None w w' /\
    w_objects w' = w_objects w /\ st_shared (w_store w') (m_structure o) = true.
Proof.
  intros Hw Hp. destruct (wo_objects w Hw p o Hp) as (v & Hv & Hf).
  destruct (st_mark_ok (w_store w) (m_structure o) v (wo_store w Hw) Hv) as (s' & E & Hs' & Hsh & Hk).
  unfold markReferencedByInlineCache_at, object_at. rewrite Hp. cbn [defined mbind result_bind]. rewrite E. cbn [mbind result_bind].
  eexists. split; [reflexivity|]. destruct Hw as [Hs Ho Hshared Hc Ha].
  split_and!; [split; cbn; auto| |reflexivity|assumption].
  - intros q oq Hq. destruct (Ho q oq Hq) as (w0 & Hw0 & Hf0). exists w0. destruct (Hk (m_structure oq)) as [-> _]. auto.
  - intros q1 q2 o1 o2 N E1 E2 E3. apply Hk. eauto.
  - split; [|done]. intros q _. unfold properties_at. cbn. destruct (w_objects w !! q) as [oq|]; [|reflexivity]. cbn.
    unfold object_properties. now destruct (Hk (m_structure oq)) as [-> _].
Qed.

(** A new object: its address is free, and its structure is fresh or shared. *)
Lemma new_object_ok w p structure values proto v : world_ok w -> w_objects w !! p = None ->
  st_view (w_store w) structure = Some v -> Forall2 (fun kd slot => slot_ok h kd.2 slot) v values ->
  (st_shared (w_store w) structure = true \/ forall q o, w_objects w !! q = Some o -> m_structure o <> structure) ->
  (forall q, proto = Some q -> is_Some (w_objects w !! q)) ->
  world_ok (new_object w p structure values proto) /\ unchanged_but (Some p) w (new_object w p structure values proto).
Proof.
  intros [Hs Ho Hsh Hc Ha] Hp Hv Hf Hfree Hproto.
  assert (forall q o, w_objects w !! q = Some o -> q <> p) as Np by congruence.
  split; [split; cbn|split; [|cbn; set_solver]].
  - assumption.
  - intros q o Hq. destruct (decide (q = p)) as [->|N];
      [rewrite lookup_insert_eq in Hq; injection Hq as <-; now exists v|].
    rewrite lookup_insert_ne in Hq by congruence. eauto.
  - intros q1 q2 o1 o2 N E1 E2 E. destruct (decide (q1 = p)) as [->|N1], (decide (q2 = p)) as [->|N2]; [congruence| | |].
    + rewrite lookup_insert_eq in E1. rewrite lookup_insert_ne in E2 by congruence. injection E1 as <-. cbn in *.
      destruct Hfree as [F|F]; [assumption|]. now destruct (F q2 o2 E2).
    + rewrite lookup_insert_eq in E2. rewrite lookup_insert_ne in E1 by congruence. injection E2 as <-. cbn in *.
      rewrite E. destruct Hfree as [F|F]; [assumption|]. now destruct (F q1 o1 E1).
    + rewrite lookup_insert_ne in E1, E2 by congruence. eauto.
  - intros q o q' Hq Hpr. rewrite lookup_insert_is_Some. destruct (decide (p = q')); [now left|right; split; [assumption|]].
    destruct (decide (q = p)) as [->|N]; [rewrite lookup_insert_eq in Hq; injection Hq as <-; now apply Hproto|].
    rewrite lookup_insert_ne in Hq by congruence. eauto.
  - intros x Hx. set (m' := <[p := _]> (w_objects w)) in Hx.
    assert (forall a b, inherits m' a b -> b <> p) as Hto.
    { intros a b (oa & Hoa & _ & Hb) ->. subst m'. destruct (decide (a = p)) as [->|N].
      - rewrite lookup_insert_eq in Hoa. injection Hoa as <-. cbn in Hb. destruct (Hproto p Hb). congruence.
      - rewrite lookup_insert_ne in Hoa by congruence. destruct (Hc a oa p Hoa Hb). congruence. }
    assert (forall a b, tc (inherits m') a b -> b <> p) as Hto' by (intros a b F; induction F; eauto).
    assert (forall a b, tc (inherits m') a b -> a <> p -> tc (inherits (w_objects w)) a b) as Hold.
    { intros a b F. induction F as [a b F|a b c F1 F2 IH]; intros N;
        (assert (inherits (w_objects w) a b) as Hab;
         [destruct F as (oa & Hoa & ?) || destruct F1 as (oa & Hoa & ?); subst m';
          rewrite lookup_insert_ne in Hoa by congruence; now exists oa|]); [now apply tc_once|eapply tc_l; eauto]. }
    apply (Ha x), Hold; [assumption|eauto].
  - intros q Hq. unfold properties_at, new_object, update. cbn. now rewrite lookup_insert_ne by congruence.
Qed.

(** ** [[Set]] *)

(** OrdinarySet of ECMA-262: from the property found along the chain and the
    receiver's own property, an answer, a call of a setter, or a definition in
    the receiver. *)
Inductive SetAction := Answer (b : bool) | CallSetter (s : Z) | Define (D : Fields).
Definition only_value (v : Z) : Fields := mkFields (Some v) None None None None None.
Definition data_fields (v : Z) : Fields := mkFields (Some v) (Some true) None None (Some true) (Some true).
Definition OrdinarySet (found : option Property) (v : Z) (receiver_is_object : bool) (own : option Property)
  : SetAction :=
  match found with
  | Some (AccessorProperty _ s _ _) => if isUndefined s then Answer false else CallSetter s
  | Some (DataProperty _ false _ _) => Answer false
  | _ =>
      if negb receiver_is_object then Answer false
      else match own with
           | None => Define (data_fields v)
           | Some (AccessorProperty _ _ _ _) => Answer false
           | Some (DataProperty _ false _ _) => Answer false
           | Some (DataProperty _ true _ _) => Define (only_value v)
           end
  end.

(** The outcome of [set], and the world after it. *)
Definition set_as (w : World) (receiver : Z) (k : option Key) (v : Z) (action : SetAction)
    (out : SetOutcome) (w' : World) : Prop :=
  match action with
  | Answer b => out = SetDone b /\ quiet w w'
  | CallSetter s => out = SetCall s receiver v /\ quiet w w'
  | Define D =>
      exists o L b L', w_objects w !! receiver = Some o /\ properties_at w receiver = Some L /\
        properties_at w' receiver = Some L' /\ out = SetDone b /\ world_ok w' /\ unchanged_but (Some receiver) w w' /\
        defined_as L k (ValidateAndApply (SameValue h) (m_isExtensible o) D (find_key L k)) b L'
  end.

Lemma set_as_quiet w w1 receiver k v action out w' : quiet w w1 -> set_as w1 receiver k v action out w' ->
  set_as w receiver k v action out w'.
Proof.
  intros Hq. destruct action as [b|s|D]; cbn.
  - intros [-> Hq']. split; [reflexivity|]. eapply quiet_trans; eassumption.
  - intros [-> Hq']. split; [reflexivity|]. eapply quiet_trans; eassumption.
  - intros (o & L & b & L' & Ho & HL & HL' & -> & Hw' & Hu & Hd). exists o, L, b, L'.
    destruct Hq as (Hw1 & Eo & HP). rewrite <- Eo, <- (HP receiver). split_and!; try assumption; [reflexivity|].
    eapply unchanged_trans; [|exact Hu]. apply quiet_unchanged. now split_and!.
Qed.

Lemma value_descriptor v : value_ok h v ->
  descriptor_ok h (of_value v 0) /\ fields_of (of_value v 0) = only_value v /\
  descriptor_ok h (of_value v AllPresent) /\ fields_of (of_value v AllPresent) = data_fields v.
Proof. intros Hv. repeat split; auto; now apply Hv. Qed.

Lemma set_receiver_put w o receiver P v attribute : world_ok w -> w_objects w !! receiver = Some o ->
  names (pname P) -> descriptor_ok h (of_value v attribute) ->
  exists w' out, ('(w', b) ← defineOwnProperty h natives uint_name alloc_native w receiver P (of_value v attribute);
                  Ok (w', SetDone b)) = Ok (w', out) /\
    set_as w receiver (pkey P) v (Define (fields_of (of_value v attribute))) out w'.
Proof.
  intros Hw Ho Hn Hd. destruct (object_has_properties _ _ (wo_objects w Hw receiver o Ho)) as [L HL].
  rewrite <- (properties_at_object w receiver o Ho) in HL.
  destruct (defineOwnProperty_ok w receiver o L P _ Hw Ho HL Hn Hd) as (w' & b & L' & -> & Hw' & Hu & HL' & Hdef).
  cbn [mbind result_bind]. exists w', (SetDone b). split; [reflexivity|]. now exists o, L, b, L'.
Qed.

Lemma set_receiver_ok w p receiver P v (hasValue : bool) found : world_ok w ->
  is_Some (w_objects w !! receiver) -> name_ok names uint_name P -> value_ok h v ->
  (found = None \/ exists x e c, found = Some (DataProperty x true e c)) ->
  (hasValue = true -> found = own_property w p (pkey P) /\ found <> None) ->
  exists w' out, set_receiver h natives uint_name alloc_native w p P v receiver hasValue = Ok (w', out) /\
    set_as w receiver (pkey P) v (OrdinarySet found v true (own_property w receiver (pkey P))) out w'.
Proof.
  intros Hw [o Ho] HP Hv Hfound Hown. destruct (value_descriptor v Hv) as (D0 & F0 & D1 & F1).
  assert (OrdinarySet found v true (own_property w receiver (pkey P)) =
    match own_property w receiver (pkey P) with
    | None => Define (data_fields v)
    | Some (AccessorProperty _ _ _ _) | Some (DataProperty _ false _ _) => Answer false
    | Some (DataProperty _ true _ _) => Define (only_value v)
    end) as -> by (destruct Hfound as [->|(x & e & c & ->)]; reflexivity).
  unfold set_receiver. destruct (hasValue && (p =? receiver)) eqn:E.
  - apply andb_true_iff in E as [E1 E2]. apply Z.eqb_eq in E2. subst p. destruct (Hown E1) as [<- Hne].
    destruct Hfound as [->|(x & e & c & ->)]; [congruence|]. rewrite <- F0. now apply (set_receiver_put w o); [..|apply HP|].
  - destruct (getOwnProperty_at_ok w receiver o P Hw Ho HP) as (w1 & r & -> & Hq & Hr). cbn [mbind result_bind].
    pose proof Hq as (Hw1 & Eo & _). rewrite <- Eo in Ho.
    destruct (own_property w receiver (pkey P)) as [[x [] e c|g s e c]|], r as [r|]; try (now destruct Hr); cbn in Hr.
    + subst r. cbn [g_isDataProperty g_payload g_isWritable negb]. rewrite <- F0. destruct (set_receiver_put w1 o receiver P v 0 Hw1 Ho (proj1 HP) D0) as (w' & out & E' & Hs).
      exists w', out. split; [exact E'|]. eapply set_as_quiet; eassumption.
    + subst r. cbn [g_isDataProperty g_payload g_isWritable negb]. exists w1, (SetDone false). split; [reflexivity|]. now split.
    + destruct Hr as (y & -> & _). cbn [g_isDataProperty g_payload g_isWritable negb]. exists w1, (SetDone false). split; [reflexivity|]. now split.
    + rewrite <- F1. destruct (set_receiver_put w1 o receiver P v AllPresent Hw1 Ho (proj1 HP) D1) as (w' & out & E' & Hs).
      exists w', out. split; [exact E'|]. eapply set_as_quiet; eassumption.
Qed.

(** The receiver is no object, or one of the world. *)
Definition receiver_ok (w : World) (receiver : Z) : Prop :=
  isObject h receiver = true -> is_Some (w_objects w !! receiver).

Lemma set_data_ok w p receiver P v (hasValue : bool) found ownDesc : world_ok w -> receiver_ok w receiver ->
  name_ok names uint_name P -> value_ok h v ->
  (exists x e c wr, ownDesc = mkGetResult (GotValue x) wr e c /\
     (found = Some (DataProperty x wr e c) \/ (found = None /\ wr = true))) ->
  (hasValue = true -> found = own_property w p (pkey P) /\ found <> None) ->
  exists w' out, set_data h natives uint_name alloc_native w p P v receiver hasValue ownDesc = Ok (w', out) /\
    set_as w receiver (pkey P) v (OrdinarySet found v (isObject h receiver) (own_property w receiver (pkey P))) out w'.
Proof.
  intros Hw Hrec HP Hv (x & e & c & wr & -> & Hfound) Hown. unfold set_data. cbn [g_isWritable g_payload].
  destruct wr; cbn [negb].
  2: { destruct Hfound as [->|[_ ?]]; [|discriminate]. exists w, (SetDone false). split; [reflexivity|].
       split; [reflexivity|now apply quiet_refl]. }
  destruct (isObject h receiver) eqn:Eobj; cbn [negb].
  - apply set_receiver_ok; auto. destruct Hfound as [->|[-> _]]; [right; eauto|now left].
  - exists w, (SetDone false). split; [reflexivity|].
    destruct Hfound as [->|[-> _]]; (split; [reflexivity|now apply quiet_refl]).
Qed.

(** The branch of [set] for a property that was found in [p]. *)
Lemma set_found_property_ok w p receiver P v r x : world_ok w -> receiver_ok w receiver -> name_ok names uint_name P ->
  value_ok h v -> own_property w p (pkey P) = Some x -> got_as (Some r) (Some x) ->
  exists w' out,
    match g_payload r with
    | GotAccessor y =>
        let setter := if hasSetter y then setter y else ValueUndefined in
        if isUndefined setter then Ok (w, SetDone false) else Ok (w, SetCall setter receiver v)
    | _ => set_data h natives uint_name alloc_native w p P v receiver true r
    end = Ok (w', out) /\
    set_as w receiver (pkey P) v (OrdinarySet (Some x) v (isObject h receiver) (own_property w receiver (pkey P))) out w'.
Proof.
  intros Hw Hrec HP Hv Hx Hr. destruct x as [a wr e c|g s e c]; cbn in Hr.
  - subst r. cbn [g_payload]. apply set_data_ok; auto.
    exists a, e, c, wr. auto.
  - destruct Hr as (y & -> & _ & Hs). cbn [g_payload OrdinarySet]. fold (set_of y). rewrite Hs.
    destruct (isUndefined s); eexists w, _; (split; [reflexivity|]); (split; [reflexivity|now apply quiet_refl]).
Qed.

Lemma set_chain m p l : chain m p l -> forall fuel w P v receiver, w_objects w = m -> world_ok w -> all_ordinary m ->
  receiver_ok w receiver -> name_ok names uint_name P -> value_ok h v -> (length l <= S fuel)%nat ->
  exists w' out, set h natives uint_name alloc_native fuel w p P v receiver = Ok (w', out) /\
    set_as w receiver (pkey P) v
      (OrdinarySet (found_along w l (pkey P)) v (isObject h receiver) (own_property w receiver (pkey P))) out w'.
Proof.
  intros Hc. induction Hc as [p o Ho Hend|p o q l Ho Hord Hpr Hl IH]; intros fuel w P v receiver <- Hw Hall Hrec HP Hv Hf;
    destruct (getOwnProperty_at_ok w p o P Hw Ho HP) as (w1 & r & E & Hq & Hr); pose proof (got_as_none _ _ Hr) as Hnone;
    pose proof Hq as (Hw1 & Eo & _); assert (receiver_ok w1 receiver) as Hrec1 by (unfold receiver_ok; now rewrite Eo);
    cbn [found_along]; rewrite <- (quiet_own w w1 receiver _ Hq).
  - assert (m_prototype o = None) as Hpr by (destruct Hend as [F|F]; [rewrite (Hall p o Ho) in F; discriminate|assumption]).
    assert (exists w' out,
      match r with
      | None => set_data h natives uint_name alloc_native w1 p P v receiver false (mkGetResult (GotValue ValueUndefined) true true true)
      | Some r =>
          match g_payload r with
          | GotAccessor y =>
              let setter := if hasSetter y then setter y else ValueUndefined in
              if isUndefined setter then Ok (w1, SetDone false) else Ok (w1, SetCall setter receiver v)
          | _ => set_data h natives uint_name alloc_native w1 p P v receiver true r
          end
      end = Ok (w', out) /\
      set_as w1 receiver (pkey P) v (OrdinarySet (own_property w p (pkey P)) v (isObject h receiver) (own_property w1 receiver (pkey P))) out w')
      as (w' & out & Eq & Hs).
    { destruct r as [r|], (own_property w p (pkey P)) as [x|] eqn:Ex; try (now destruct Hr); [|now destruct x|].
      - apply set_found_property_ok; auto. now rewrite (quiet_own w w1 p _ Hq).
      - apply set_data_ok; auto; [|discriminate]. exists ValueUndefined, true, true, true. auto. }
    exists w', out. split.
    + destruct fuel; cbn [set]; unfold object_at; rewrite Ho; cbn [defined mbind result_bind]; rewrite E;
        cbn [mbind result_bind]; rewrite Hpr; now destruct r.
    + eapply set_as_quiet; [exact Hq|]. now destruct (own_property w p (pkey P)).
  - destruct fuel as [|fuel]; [inversion Hl; subst; cbn in Hf; lia|]. cbn [length] in Hf.
    cbn [set]. unfold object_at. rewrite Ho. cbn [defined mbind result_bind]. rewrite E. cbn [mbind result_bind].
    destruct r as [r|].
    + destruct (own_property w p (pkey P)) as [x|] eqn:Ex; [|destruct Hr].
      destruct (set_found_property_ok w1 p receiver P v r x) as (w' & out & Eq & Hs); auto; [now rewrite (quiet_own w w1 p _ Hq)|].
      exists w', out. split; [exact Eq|]. eapply set_as_quiet; eassumption.
    + rewrite (proj1 Hnone eq_refl), Hpr. rewrite <- (quiet_found w w1 l _ Hq).
      destruct (IH fuel w1 P v receiver) as (w' & out & Eq & Hs); auto; [lia|].
      exists w', out. split; [exact Eq|]. eapply set_as_quiet; eassumption.
Qed.

(** ** Sequences of operations *)

(** One operation, with the object whose properties it may change. *)
Inductive step (w : World) : option Z -> World -> Prop :=
  | step_get fuel p P r w' : name_ok names uint_name P ->
      get natives uint_name fuel w p P = Ok (w', r) -> step w None w'
  | step_set fuel p P v receiver out w' : name_ok names uint_name P -> value_ok h v -> receiver_ok w receiver ->
      set h natives uint_name alloc_native fuel w p P v receiver = Ok (w', out) -> step w (Some receiver) w'
  | step_define p P desc b w' : names (pname P) -> descriptor_ok h desc ->
      defineOwnProperty h natives uint_name alloc_native w p P desc = Ok (w', b) -> step w (Some p) w'
  | step_delete p P b w' : name_ok names uint_name P ->
      deleteOwnProperty_at natives uint_name w p P = Ok (w', b) -> step w (Some p) w'
  | step_preventExtensions p w' : preventExtensions_at w p = Ok w' -> step w None w'
  | step_setPrototype p proto b w' : (forall q, proto = Some q -> is_Some (w_objects w !! q)) ->
      setPrototype (size (w_objects w)) w p proto = Ok (w', b) -> step w None w'
  | step_mark p w' : markReferencedByInlineCache_at w p = Ok w' -> step w None w'
  | step_new p structure values proto v : w_objects w !! p = None -> st_view (w_store w) structure = Some v ->
      Forall2 (fun kd slot => slot_ok h kd.2 slot) v values ->
      (st_shared (w_store w) structure = true \/ forall q o, w_objects w !! q = Some o -> m_structure o <> structure) ->
      (forall q, proto = Some q -> is_Some (w_objects w !! q)) ->
      step w (Some p) (new_object w p structure values proto).
Inductive run : World -> list (option Z) -> World -> Prop :=
  | run_nil w : run w [] w
  | run_cons w t w1 ts w2 : step w t w1 -> run w1 ts w2 -> run w (t :: ts) w2.

Lemma object_at_Ok (w : World) p o : object_at w p = Ok o -> w_objects w !! p = Some o.
Proof. unfold object_at. destruct (w_objects w !! p); [now intros [= ->]|discriminate]. Qed.

Lemma get_quiet fuel : forall w p P r w', world_ok w -> name_ok names uint_name P ->
  get natives uint_name fuel w p P = Ok (w', r) -> quiet w w'.
Proof.
  induction fuel as [|fuel IH]; intros w p P r w' Hw HP; cbn [get];
    (destruct (object_at w p) as [o|?|] eqn:Eo; cbn [mbind result_bind]; [|discriminate..]);
    apply object_at_Ok in Eo; destruct (getOwnProperty_at_ok w p o P Hw Eo HP) as (w1 & r1 & -> & Hq & _);
    cbn [mbind result_bind]; (destruct r1 as [r1|]; [now intros [= <- <-]|]);
    (destruct (m_prototype o) as [q|]; [|now intros [= <- <-]]); [discriminate|].
  intros E. eapply quiet_trans; [exact Hq|]. eapply IH; [apply Hq|exact HP|exact E].
Qed.

Lemma set_as_unchanged w receiver k v action out w' : set_as w receiver k v action out w' ->
  world_ok w' /\ unchanged_but (Some receiver) w w'.
Proof.
  destruct action as [b|s|D]; cbn.
  - intros [_ Hq]. split; [apply Hq|now apply quiet_unchanged].
  - intros [_ Hq]. split; [apply Hq|now apply quiet_unchanged].
  - intros (o & L & b & L' & _ & _ & _ & _ & Hw' & Hu & _). now split.
Qed.

Lemma set_unchanged fuel : forall w p P v receiver out w', world_ok w -> name_ok names uint_name P -> value_ok h v ->
  receiver_ok w receiver -> set h natives uint_name alloc_native fuel w p P v receiver = Ok (w', out) ->
  world_ok w' /\ unchanged_but (Some receiver) w w'.
Proof.
  induction fuel as [|fuel IH]; intros w p P v receiver out w' Hw HP Hv Hrec; cbn [set];
    (destruct (object_at w p) as [o|?|] eqn:Eo; cbn [mbind result_bind]; [|discriminate..]);
    apply object_at_Ok in Eo; destruct (getOwnProperty_at_ok w p o P Hw Eo HP) as (w1 & r & -> & Hq & Hr);
    pose proof Hq as (Hw1 & Eo1 & _); assert (receiver_ok w1 receiver) as Hrec1 by (unfold receiver_ok; now rewrite Eo1);
    cbn [mbind result_bind]; intros E;
    (enough (world_ok w' /\ unchanged_but (Some receiver) w1 w') as [Hw' Hu]
       by (split; [assumption|]; eapply unchanged_trans; [exact (quiet_unchanged _ _ _ Hq)|exact Hu]));
    (destruct r as [r|];
     [destruct (own_property w p (pkey P)) as [x|] eqn:Ex; [|destruct Hr];
      destruct (set_found_property_ok w1 p receiver P v r x) as (w2 & out2 & E2 & Hs); auto;
        [now rewrite (quiet_own w w1 p _ Hq)|];
      assert (Ok (w2, out2) = Ok (w', out)) as [= -> ->] by (etransitivity; [symmetry; exact E2|exact E]); eapply set_as_unchanged; exact Hs|]).
  all: destruct (m_prototype o) as [q|]; [try discriminate; now apply IH in E|].
  all: destruct (set_data_ok w1 p receiver P v false None (mkGetResult (GotValue ValueUndefined) true true true))
    as (w2 & out2 & E2 & Hs); auto; [exists ValueUndefined, true, true, true; auto|discriminate|].
  all: rewrite E2 in E; injection E as -> ->; eapply set_as_unchanged; exact Hs.
Qed.

Lemma unchanged_of_none p w w' : unchanged_but None w w' -> unchanged_but p w w'.
Proof. intros [Hp Hd]. split; [intros q _; now apply Hp|assumption]. Qed.

(** [get] and [set] aside, each operation goes through [object_at]. *)
Lemma step_unchanged w t w' : world_ok w -> step w t w' -> world_ok w' /\ unchanged_but t w w'.
Proof.
  intros Hw Hs. destruct Hs as [fuel p P r w' HP E|fuel p P v receiver out w' HP Hv Hrec E|p P desc b w' Hn Hd E|p P b w' HP E
    |p w' E|p proto b w' Hq E|p w' E|p structure values proto v Hp Hv Hf Hsh Hq].
  - pose proof (get_quiet fuel w p P r w' Hw HP E) as Hquiet. split; [apply Hquiet|now apply quiet_unchanged].
  - eapply set_unchanged; eassumption.
  - destruct (object_at w p) as [o|?|] eqn:Eo; [|unfold defineOwnProperty in E; now rewrite Eo in E..].
    apply object_at_Ok in Eo. destruct (object_has_properties _ _ (wo_objects w Hw p o Eo)) as [L HL].
    rewrite <- (properties_at_object w p o Eo) in HL.
    destruct (defineOwnProperty_ok w p o L P desc Hw Eo HL Hn Hd) as (w2 & b2 & L' & E2 & Hw' & Hu & _).
    rewrite E2 in E. injection E as -> ->. now split.
  - destruct (object_at w p) as [o|?|] eqn:Eo; [|unfold deleteOwnProperty_at in E; now rewrite Eo in E..].
    apply object_at_Ok in Eo. destruct (object_has_properties _ _ (wo_objects w Hw p o Eo)) as [L HL].
    rewrite <- (properties_at_object w p o Eo) in HL.
    destruct (deleteOwnProperty_ok w p o L P Hw Eo HL HP) as (w2 & b2 & L' & E2 & Hw' & Hu & _).
    rewrite E2 in E. injection E as -> ->. now split.
  - destruct (object_at w p) as [o|?|] eqn:Eo; [|unfold preventExtensions_at in E; now rewrite Eo in E..].
    apply object_at_Ok in Eo. destruct (object_has_properties _ _ (wo_objects w Hw p o Eo)) as [L HL].
    rewrite <- (properties_at_object w p o Eo) in HL.
    destruct (preventExtensions_at_ok w p o L Hw Eo HL) as (w2 & E2 & Hw' & [Hu Hdom] & HL' & _).
    rewrite E2 in E. injection E as ->. split; [assumption|]. split; [|assumption]. intros q _.
    destruct (decide (q = p)) as [->|N]; [congruence|apply Hu; congruence].
  - destruct (object_at w p) as [o|?|] eqn:Eo; [|unfold setPrototype in E; now rewrite Eo in E..].
    apply object_at_Ok in Eo.
    destruct (setPrototype_ok _ w p o proto Hw Eo Hq ltac:(reflexivity)) as (w2 & b2 & E2 & Hw' & Hu & _).
    rewrite E2 in E. injection E as -> ->. now split.
  - destruct (object_at w p) as [o|?|] eqn:Eo; [|unfold markReferencedByInlineCache_at in E; now rewrite Eo in E..].
    apply object_at_Ok in Eo. destruct (world_mark_ok w p o Hw Eo) as (w2 & E2 & Hw' & Hu & _).
    rewrite E2 in E. injection E as ->. now split.
  - now apply (new_object_ok w p structure values proto v).
Qed.

Lemma run_unchanged w ts w' : run w ts w' -> world_ok w ->
  world_ok w' /\ forall p, Some p ∉ ts -> properties_at w' p = properties_at w p.
Proof.
  induction 1 as [w|w t w1 ts w2 Hs Hr IH]; intros Hw; [auto|].
  destruct (step_unchanged w t w1 Hw Hs) as [Hw1 [Hu _]]. destruct (IH Hw1) as [Hw2 Hu2]. split; [assumption|].
  intros p Hp. apply not_elem_of_cons in Hp as [N Hp]. rewrite Hu2, Hu by assumption. reflexivity.
Qed.

End WorldFacts.
End WorldFacts.

(** * Isolation, the ends of chains, and assignment *)
Module ObjectWorldProps.
Import Word Heap Names PropertyName StructureSpec Structures StructureFacts PropertyDescriptor DescriptorSpec Objects
  Denotation PropertyList ObjectFacts Worlds Chains WorldFacts ObjectSample ObjectModelProps.

Section Props.
Context (h : heap) (outside : bool) (natives : gmap Z StructureDescriptor.NativeGetterSetterData).
Context (emptyName : Z) (names : Z -> Prop) `{NameSpace h names} (named_empty : names emptyName).
Context (uint_name : Z -> Z) (alloc_native : StructureDescriptor.NativeGetterSetterData -> Z).
Context (uint_names : forall i, 0 <= i -> names (uint_name i) -> key h (uint_name i) = Some (KString (dec i))).

#[local] Instance world_ops : StructureOps Store := store_ops h outside natives emptyName.
#[local] Instance world_laws : StructureLaws h outside names Store :=
  store_laws h outside natives emptyName names named_empty.

(** C7: Objects do not see each other's changes although they share hidden
    classes.  Every sequence of operations (definitions, deletions, assignments,
    prevented extensions, new prototypes, new objects in shared structures,
    inline caches that take note of a structure) from a consistent world leads to
    a consistent world: every object fits its structure, structures used by two
    objects are known to be shared, and prototype chains have no cycle of
    ordinary objects.  An object that no step names keeps its properties, with
    their values, attributes and order. *)
Theorem objects_are_isolated (w : World (St := Store)) targets w' :
  world_ok h outside names w ->
  run h outside names natives uint_name alloc_native w targets w' ->
  world_ok h outside names w' /\
  forall p, Some p ∉ targets ->
    properties_at h outside names natives w' p = properties_at h outside names natives w p.
Proof. intros Hw Hr. exact (run_unchanged h outside names natives uint_name alloc_native uint_names w targets w' Hr Hw). Qed.

(** C17: [[Get]] ends.  In a consistent world of ordinary objects the search up
    the prototypes of any object takes no more steps than there are objects, and
    answers the property of the first object of the chain that has the key, or
    that there is none; it changes nothing that can be observed. *)
Theorem get_ends (w : World (St := Store)) p P :
  world_ok h outside names w -> all_ordinary (w_objects w) -> is_Some (w_objects w !! p) ->
  name_ok names uint_name P ->
  exists l, chain (w_objects w) p l /\ forall fuel, (size (w_objects w) <= fuel)%nat ->
    exists w' r, get natives uint_name fuel w p P = Ok (w', r) /\ quiet h outside names natives w w' /\
      got_as r (found_along h outside names natives w l (key h (toObjectStructurePropertyName uint_name P))).
Proof.
  intros Hw Hall Hp HP.
  destruct (chain_exists (w_objects w) p (wo_closed _ _ _ w Hw) (wo_acyclic _ _ _ w Hw) Hp) as (l & Hl & Hlen).
  exists l. split; [assumption|]. intros fuel Hf.
  apply (get_chain h outside names natives uint_name uint_names (w_objects w) p l Hl); auto. lia.
Qed.

(** C15: [[Set]] is OrdinarySet of ECMA-262, with the shortcut for a property
    found in the receiver itself.  In a consistent world of ordinary objects it
    ends, and does what the specification says of the property found along the
    chain and of the receiver's own one: an answer, a call of the setter, or a
    definition in the receiver of the value alone or of a new data property. *)
Theorem set_is_OrdinarySet (w : World (St := Store)) p P v receiver :
  world_ok h outside names w -> all_ordinary (w_objects w) -> is_Some (w_objects w !! p) ->
  receiver_ok h w receiver -> name_ok names uint_name P -> value_ok h v ->
  let k := key h (toObjectStructurePropertyName uint_name P) in
  exists l, chain (w_objects w) p l /\ forall fuel, (size (w_objects w) <= fuel)%nat ->
    exists w' out, Worlds.set h natives uint_name alloc_native fuel w p P v receiver = Ok (w', out) /\
      set_as h outside names natives w receiver k v
        (OrdinarySet (found_along h outside names natives w l k) v (isObject h receiver)
           (own_property h outside names natives w receiver k)) out w'.
Proof.
  intros Hw Hall Hp Hrec HP Hv k.
  destruct (chain_exists (w_objects w) p (wo_closed _ _ _ w Hw) (wo_acyclic _ _ _ w Hw) Hp) as (l & Hl & Hlen).
  exists l. split; [assumption|]. intros fuel Hf.
  apply (set_chain h outside names natives uint_name alloc_native uint_names (w_objects w) p l Hl); auto. lia.
Qed.

End Props.
(** ** A sample: an object, and one that inherits from it and shares its structure
    until a property is deleted *)

Abbreviation sample_ops := (store_ops world_heap false ∅ 65).
Abbreviation sample_laws := (store_laws world_heap false ∅ 65 world_names world_empty).

Definition result_or {A} (d : A) (r : result A) : A := match r with Ok a => a | _ => d end.
Definition sample_start : World := mkWorld world_store {[1000 := world_object]}.
Definition sample_marked : World :=
  result_or sample_start (markReferencedByInlineCache_at (H := sample_ops) sample_start 1000).
Definition sample_two : World := new_object sample_marked 1008 0 (repeat (SlotValue ValueFalse) 5) (Some 1000).
Definition sample_deleted : World :=
  fst (result_or (sample_two, false) (deleteOwnProperty_at (H := sample_ops) ∅ world_uint_name sample_two 1008 (PName 129))).

Lemma sample_start_ok : world_ok (H0 := sample_laws) world_heap false world_names sample_start.
Proof.
  assert (forall p o, w_objects sample_start !! p = Some o -> p = 1000 /\ o = world_object) as Only
    by (intros p o E; cbn in E; now apply lookup_singleton_Some in E as [-> ->]).
  split.
  - exact (proj1 world_store_ok).
  - intros p o E. destruct (Only p o E) as [-> ->]. exact world_object_ok.
  - intros p q o o' N E1 E2. destruct (Only p o E1), (Only q o' E2). congruence.
  - intros p o q E Hq. destruct (Only p o E) as [-> ->]. discriminate.
  - intros p Ht. inversion Ht as [? ? (o & E & _ & Hq)|? ? ? (o & E & _ & Hq)]; subst;
      destruct (Only _ o E) as [_ ->]; discriminate.
Qed.

Lemma sample_run : run (H0 := sample_laws) world_heap false world_names ∅ world_uint_name (fun _ => 0)
  sample_start [None; Some 1008; Some 1008] sample_deleted.
Proof.
  destruct (world_mark_ok (H0 := sample_laws) world_heap false world_names ∅ sample_start 1000 world_object sample_start_ok eq_refl)
    as (w & E & Hw & _ & Eo & Hsh).
  assert (w = sample_marked) as -> by (unfold sample_marked; now rewrite E).
  apply run_cons with (w1 := sample_marked); [now apply step_mark with (p := 1000)|].
  apply run_cons with (w1 := sample_two);
    [|apply run_cons with (w1 := sample_deleted); [|constructor]].
  - destruct (wo_objects (H0 := sample_laws) _ _ _ _ Hw 1000 world_object) as (v & Hv & _); [now rewrite Eo|].
    eapply step_new.
    + now rewrite Eo.
    + vm_compute. reflexivity.
    + repeat constructor; try reflexivity; try (unfold in_u; vm_compute; intuition congruence); eexists; reflexivity.
    + left. exact Hsh.
    + intros q [= <-]. rewrite Eo. eexists. reflexivity.
  - apply step_delete with (P := PName 129) (b := true).
    + split; [unfold world_names; cbn; set_solver|exact I].
    + vm_compute. reflexivity.
Qed.

(** [b] was deleted in the second object; the first one, whose structure was
    shared with it, has all its properties. *)
Lemma objects_are_isolated_witness :
  world_ok (H0 := sample_laws) world_heap false world_names sample_deleted /\
  properties_at (H0 := sample_laws) world_heap false world_names ∅ sample_deleted 1000 = Some world_properties_of.
Proof.
  destruct (objects_are_isolated world_heap false ∅ 65 world_names world_empty world_uint_name (fun _ => 0)
    world_uint_names sample_start _ sample_deleted sample_start_ok sample_run) as [Hw Hp].
  split; [exact Hw|]. etransitivity; [apply Hp; set_solver|exact world_properties].
Defined.

Lemma sample_ordinary : all_ordinary (w_objects sample_deleted).
Proof.
  assert (w_objects sample_deleted = <[1008 := mkObject 1 (Some 1000) (repeat (SlotValue ValueFalse) 4) true true]>
    {[1000 := world_object]}) as -> by (vm_compute; reflexivity).
  intros p o E. destruct (decide (p = 1008)) as [->|N]; [rewrite lookup_insert_eq in E; now injection E as <-|].
  rewrite lookup_insert_ne in E by congruence. now apply lookup_singleton_Some in E as [_ <-].
Qed.

Lemma sample_deleted_ok : world_ok (H0 := sample_laws) world_heap false world_names sample_deleted.
Proof. exact (proj1 (run_unchanged _ _ _ _ _ _ world_uint_names _ _ _ sample_run sample_start_ok)). Qed.

(** [b] is found in the prototype. *)
Lemma get_ends_witness : exists l, chain (w_objects sample_deleted) 1008 l /\ exists w' r,
  get (H := sample_ops) ∅ world_uint_name 2 sample_deleted 1008 (PName 129) = Ok (w', r) /\
  r = Some (mkGetResult (GotValue ValueTrue) true true true).
Proof.
  destruct (get_ends world_heap false ∅ 65 world_names world_empty world_uint_name world_uint_names sample_deleted
    1008 (PName 129) sample_deleted_ok sample_ordinary) as (l & Hl & Hget); [vm_compute; eauto| |].
  - split; [unfold world_names; cbn; set_solver|exact I].
  - exists l. split; [exact Hl|]. destruct (Hget 2%nat) as (w' & r & E & _ & _); [vm_compute; lia|].
    exists w', r. split; [exact E|]. revert E. vm_compute. now intros [= <- <-].
Defined.

(** Assigning [b], which is found in the prototype, creates it in the receiver. *)
Lemma set_is_OrdinarySet_witness : exists l, chain (w_objects sample_deleted) 1008 l /\ exists w' out,
  Worlds.set (H := sample_ops) world_heap ∅ world_uint_name (fun _ => 0) 2 sample_deleted 1008 (PName 129) ValueNull 1008
    = Ok (w', out) /\ out = SetDone true.
Proof.
  destruct (set_is_OrdinarySet world_heap false ∅ 65 world_names world_empty world_uint_name (fun _ => 0) world_uint_names
    sample_deleted 1008 (PName 129) ValueNull 1008 sample_deleted_ok sample_ordinary) as (l & Hl & Hset).
  - vm_compute. eauto.
  - intros _. vm_compute. eauto.
  - split; [unfold world_names; cbn; set_solver|exact I].
  - apply world_value; [vm_compute; congruence|unfold in_u; vm_compute; intuition congruence].
  - exists l. split; [exact Hl|]. destruct (Hset 2%nat) as (w' & out & E & _); [vm_compute; lia|].
    exists w', out. split; [exact E|]. revert E. vm_compute. now intros [= <- <-].
Defined.

End ObjectWorldProps.
