(* ===== verification/ArrayObject.v ===== *)
(** Arrays ([runtime/ArrayObject.h], [runtime/ArrayObject.cpp]): an array keeps
    its elements in a buffer of its own, the fast mode, until something is asked
    of it that the buffer cannot express; then they become properties of the
    object.  The reference is the exotic array object of ECMA-262 with its
    ArraySetLength, in which there are no modes. *)
From Stdlib Require Import ZArith Lia Bool.
From stdpp Require Import base numbers list option decidable gmap sorting.
From S2P Require Import Prelude Double Value NumberString KeyedCollection ObjectStructure ObjectModel.

(** * Capacities of buffers ([util/Vector.h]) *)
Module Capacity.

(** An integer as the nearest [float], ties to even, as integer. *)
Definition round_float (x : Z) : Z :=
  let e := Z.log2 x - 23 in
  if e <=? 0 then x
  else
    let q := x / 2 ^ e in
    let r := x mod 2 ^ e in
    let up := (2 ^ (e - 1) <? r) || ((r =? 2 ^ (e - 1)) && Z.odd q) in
    (q + (if up then 1 else 0)) * 2 ^ e.

(** [glowFactor / 100.f] is 1.3 as a [float], 10905190 / 2^23; the product is
    rounded to a [float] and cut to an integer. *)
Definition WithPercent130 (newSize : Z) : Z := round_float (round_float newSize * 10905190) / 2 ^ 23.
Definition WithLog2 (newSize : Z) : Z := if newSize =? 0 then 0 else Z.shiftl 1 (Z.log2 newSize + 1).

End Capacity.

(** * Array objects *)
Module Arrays.
Import Word Heap PropertyName PropertyDescriptor StructureSpec Structures Objects Decimal Capacity.

Record RareData := mkRareData {
  m_arrayObjectFastModeBufferCapacity : Z;
  m_arrayObjectFastModeBufferExpandCount : Z;
  m_isArrayObjectLengthWritable : bool
}.
Definition new_RareData : RareData := mkRareData 0 0 true.

(** [m_fastModeData] is [None] for the dummy element, outside of fast mode;
    cells that were never written are [None]. *)
Record Array := mkArray {
  a_object : Object;
  m_arrayLength : Z;
  m_fastModeData : option (list (option Z));
  m_rareData : option RareData
}.
Definition with_object (a : Array) (o : Object) : Array :=
  mkArray o (m_arrayLength a) (m_fastModeData a) (m_rareData a).
Definition with_length (a : Array) (n : Z) : Array := mkArray (a_object a) n (m_fastModeData a) (m_rareData a).
Definition with_data (a : Array) (d : option (list (option Z))) : Array :=
  mkArray (a_object a) (m_arrayLength a) d (m_rareData a).
Definition with_rareData (a : Array) (r : RareData) : Array :=
  mkArray (a_object a) (m_arrayLength a) (m_fastModeData a) (Some r).

Definition isFastModeArray (a : Array) : bool := match m_fastModeData a with Some _ => true | None => false end.
Definition isLengthPropertyWritable (a : Array) : bool :=
  match m_rareData a with Some r => m_isArrayObjectLengthWritable r | None => true end.
Definition ensureRareData (a : Array) : RareData := default new_RareData (m_rareData a).
Definition setLengthNotWritable (a : Array) : Array :=
  let r := ensureRareData a in
  with_rareData a (mkRareData (m_arrayObjectFastModeBufferCapacity r) (m_arrayObjectFastModeBufferExpandCount r) false).

(** A read of a cell that the buffer does not have, or that was never written, is undefined. *)
Definition cell (d : list (option Z)) (i : Z) : result Z :=
  if i <? 0 then Undefined else c ← defined (d !! Z.to_nat i); defined c.

(** [resizeWithUninitializedValues]: a new buffer with the first cells copied;
    they must be there. *)
Definition resizeWithUninitializedValues (d : list (option Z)) (oldSize newSize : Z) : result (list (option Z)) :=
  if newSize =? 0 then Ok []
  else
    let n := Z.to_nat (Z.min oldSize newSize) in
    if (length d <? n)%nat then Undefined
    else Ok (take n d ++ replicate (Z.to_nat newSize - n) None).
(** [memset] of the cells from [oldLength] up to [newLength]: zero is the empty value. *)
Definition clear_cells (d : list (option Z)) (oldLength newLength : Z) : result (list (option Z)) :=
  if oldLength <? newLength then
    if (length d <? Z.to_nat newLength)%nat then Undefined
    else Ok (take (Z.to_nat oldLength) d ++ replicate (Z.to_nat (newLength - oldLength)) (Some ValueEmpty)
             ++ drop (Z.to_nat newLength) d)
  else Ok d.
(** [m_fastModeData[idx] = v] *)
Definition put_cell (d : list (option Z)) (idx v : Z) : result (list (option Z)) :=
  if (length d <=? Z.to_nat idx)%nat then Undefined else Ok (<[Z.to_nat idx := Some v]> d).

Definition ESCARGOT_ARRAY_NON_FASTMODE_MIN_SIZE : Z := 65536 * 16.
Definition ESCARGOT_ARRAY_NON_FASTMODE_START_MIN_GAP : Z := 1024.
Definition ESCARGOT_ARRAY_FASTMODE_EXACT_ALLOC_MAX_LENGTH : Z := 16.
Definition minExpandCountForUsingLog2Function : Z := 3.
Definition MAXIMUM_UINT_FOR_32BIT_PROPERTY_NAME : Z := Z.shiftr (2 ^ 32 - 1) 2.

(** The buffer for a new length in fast mode. *)
Definition resize_buffer (a : Array) (d : list (option Z)) (newLength : Z) (useFitStorage : bool) : result Array :=
  let oldLength := m_arrayLength a in
  let a := with_length a newLength in
  if useFitStorage || (oldLength =? 0) || (newLength <=? ESCARGOT_ARRAY_FASTMODE_EXACT_ALLOC_MAX_LENGTH) then
    d ← resizeWithUninitializedValues d oldLength newLength;
    d ← clear_cells d oldLength newLength;
    let a := with_data a (Some d) in
    Ok match m_rareData a with
       | Some r => with_rareData a (mkRareData 0 (m_arrayObjectFastModeBufferExpandCount r) (m_isArrayObjectLengthWritable r))
       | None => a
       end
  else
    let oldCapacity :=
      match m_rareData a with Some r => m_arrayObjectFastModeBufferCapacity r | None => oldLength end in
    let isAppendGrowth := newLength =? oldLength + 1 in
    let rd := ensureRareData a in
    if oldCapacity <? newLength then
      let newCapacity :=
        if isAppendGrowth || (minExpandCountForUsingLog2Function <=? m_arrayObjectFastModeBufferExpandCount rd)
        then WithLog2 newLength else WithPercent130 newLength in
      d ← resizeWithUninitializedValues d oldLength newCapacity;
      d ← clear_cells d oldLength newLength;
      let count := m_arrayObjectFastModeBufferExpandCount rd in
      Ok (with_rareData (with_data a (Some d))
            (mkRareData newCapacity (if count <? minExpandCountForUsingLog2Function then count + 1 else count)
               (m_isArrayObjectLengthWritable rd)))
    else
      d ← clear_cells d oldLength newLength;
      Ok (with_rareData (with_data a (Some d))
            (mkRareData oldCapacity (m_arrayObjectFastModeBufferExpandCount rd) (m_isArrayObjectLengthWritable rd))).

Section Arrays.
Context {St : Type} `{StructureOps St}.
Context (h : heap) (natives : gmap Z StructureDescriptor.NativeGetterSetterData).
Context (uint_name : Z -> Z) (alloc_native : StructureDescriptor.NativeGetterSetterData -> Z).
(** The interned name [length], and the conversion of strings and objects to
    numbers, which is taken not to change the array. *)
Context (length_name : Z) (toNumberSlowCase : Z -> Z).
(** The array itself, as the receiver of native accessors. *)
Context (self : Z).
(** What [nextIndexBackward] sees of the prototypes, from the first one on:
    whether they are ordinary, and the numbers their keys convert to; and the
    number that a string converts to, cut to an integer.  The cast of a NaN is
    whatever the compiled code gives. *)
Context (prototypes : list (bool * list Z)) (string_to_index : list Z -> Z).

Definition is_length_name (P : ObjectPropertyName) : bool :=
  match P with PUInt _ => false | PName n => equals_atomic h n (asAtomicString length_name) end.
Definition index_of (P : ObjectPropertyName) : Z :=
  match P with PUInt v => v | PName n => tryToUseAsIndexProperty h n end.
(** [ObjectPropertyName(state, v)] *)
Definition index_name (v : Z) : ObjectPropertyName :=
  if v <=? MAXIMUM_UINT_FOR_32BIT_PROPERTY_NAME then PUInt v else PName (uint_name v).

Definition object_define (s : St) (a : Array) (P : ObjectPropertyName) (desc : ObjectPropertyDescriptor)
  : result (St * Array * bool) :=
  '(s, o, b) ← defineOwnPropertyMethod h natives uint_name alloc_native s (a_object a) self P desc;
  Ok (s, with_object a o, b).

(** Elements become properties one after the other; their indexes are below the
    length, so [defineOwnProperty] of the array is that of the object. *)
Fixpoint define_elements (s : St) (a : Array) (d : list (option Z)) (i : Z) (n : nat) : result (St * Array) :=
  match n with
  | O => Ok (s, a)
  | S n =>
      v ← cell d i;
      if isEmpty v then define_elements s a d (i + 1) n
      else
        '(s, a, b) ← object_define s a (index_name i) (of_value v AllPresent);
        if (b : bool) then define_elements s a d (i + 1) n else Throw TypeError
  end.
Definition convertIntoNonFastMode (s : St) (a : Array) : result (St * Array) :=
  match m_fastModeData a with
  | None => Ok (s, a)
  | Some d =>
      '(s, o) ← markThisObjectDontNeedStructureTransitionTable s (a_object a);
      let a := with_data (with_object a o) None in
      define_elements s a d 0 (Z.to_nat (m_arrayLength a))
  end.

(** ** Shrinking an array that is not in fast mode *)

(** The greatest number below [cur] that a key of the object or of a prototype
    converts to, but not below [end_]; an exotic prototype ends the search. *)
Definition greatest_below (cur : Z) (indexes : list Z) (ret : Z) : Z :=
  fold_left (fun ret index => if index <? cur then Z.max index ret else ret) indexes ret.
Fixpoint next_in_prototypes (protos : list (bool * list Z)) (cur end_ ret : Z) : Z :=
  match protos with
  | [] => Z.min ret (cur - 1)
  | (ordinary, indexes) :: protos =>
      if negb ordinary then Z.max end_ (cur - 1)
      else next_in_prototypes protos cur end_ (greatest_below cur indexes ret)
  end.
(** The keys of the array's own structure; symbols are skipped. *)
Definition key_index (item : ObjectStructureItem) : option Z :=
  let n := m_propertyName item in
  if PropertyName.isSymbol h n then None
  else match h !! plainString n with Some (HString str) => Some (string_to_index str) | _ => None end.
(** The array's own enumeration starts with [length]. *)
Definition length_characters : list Z := [108; 101; 110; 103; 116; 104].
Definition nextIndexBackward (s : St) (a : Array) (cur end_ : Z) : result Z :=
  l ← st_properties s (m_structure (a_object a));
  Ok (next_in_prototypes prototypes cur end_
        (greatest_below cur (string_to_index length_characters :: omap key_index l) end_)).

Fixpoint shrink (fuel : nat) (s : St) (a : Array) (newLen oldLen : Z) : result (St * Array * bool) :=
  if newLen <? oldLen then
    match fuel with
    | O => Undefined
    | S fuel =>
        let oldLen := oldLen - 1 in
        '(s, r) ← getOwnProperty natives uint_name s (a_object a) (index_name oldLen);
        oldLen ← (match r with Some _ => Ok oldLen | None => nextIndexBackward s a oldLen (-1) end);
        if oldLen <? newLen then Ok (s, with_length a newLen, true)
        else
          '(s, o, b) ← deleteOwnProperty natives uint_name s (a_object a) (index_name oldLen);
          let a := with_object a o in
          if (b : bool) then shrink fuel s a newLen oldLen
          else Ok (s, with_length a (oldLen + 1), false)
    end
  else Ok (s, with_length a newLen, true).

Definition setArrayLength (fuel : nat) (s : St) (a : Array) (newLength : Z) (useFitStorage considerHole : bool)
  : result (St * Array * bool) :=
  if isFastModeArray a && (m_arrayLength a <? newLength) && negb (isLengthPropertyWritable a) then Ok (s, a, false)
  else
    '(s, a) ←
      (if isFastModeArray a && (ESCARGOT_ARRAY_NON_FASTMODE_MIN_SIZE <? newLength) && considerHole
          && (m_arrayLength a <? newLength)
          && ((ESCARGOT_ARRAY_NON_FASTMODE_START_MIN_GAP <? newLength - m_arrayLength a)
              || ((2 ^ 32 - 1) / 2 <=? newLength))
       then convertIntoNonFastMode s a else Ok (s, a));
    match m_fastModeData a with
    | Some d =>
        if m_arrayLength a =? newLength then Ok (s, a, true)
        else
          a ← resize_buffer a d newLength useFitStorage;
          '(s, a) ← (if isLengthPropertyWritable a then Ok (s, a) else convertIntoNonFastMode s a);
          Ok (s, a, true)
    | None => shrink fuel s a newLength (m_arrayLength a)
    end.

(** ** The internal methods *)

Definition getVirtualValue (a : Array) (P : ObjectPropertyName) : result (option ObjectGetResult) :=
  if is_length_name P
  then Ok (Some (mkGetResult (GotValue (Value_unsigned (m_arrayLength a))) (isLengthPropertyWritable a) false false))
  else
    match m_fastModeData a with
    | Some d =>
        let idx := index_of P in
        if negb (idx =? InvalidIndex32Value) && (idx <? m_arrayLength a) then
          v ← cell d idx;
          Ok (if isEmpty v then None else Some (mkGetResult (GotValue v) true true true))
        else Ok None
    | None => Ok None
    end.
Definition array_getOwnProperty (s : St) (a : Array) (P : ObjectPropertyName) : result (St * option ObjectGetResult) :=
  v ← getVirtualValue a P;
  match v with
  | Some r => Ok (s, Some r)
  | None => getOwnProperty natives uint_name s (a_object a) P
  end.

Definition isValuePresentAlone (d : ObjectPropertyDescriptor) : bool := m_property d =? ValuePresent.

(** [defineOwnProperty] for the name [length]. *)
Definition define_length (fuel : nat) (s : St) (a : Array) (desc : ObjectPropertyDescriptor)
  : result (St * Array * bool) :=
  newLen ←
    (if isValuePresent desc then
       let newLen := toUint32 toNumberSlowCase (value desc) in
       if negb (feq (of_Z newLen) (toNumber toNumberSlowCase (value desc))) then Throw RangeError else Ok newLen
     else Ok 0);
  let changes := isValuePresent desc && negb (m_arrayLength a =? newLen) in
  if negb (isLengthPropertyWritable a) && changes then Ok (s, a, false)
  else if isConfigurablePresent desc && isConfigurable desc then Ok (s, a, false)
  else if isEnumerablePresent desc && isEnumerable desc then Ok (s, a, false)
  else if isAccessorDescriptor desc then Ok (s, a, false)
  else if negb (isLengthPropertyWritable a) && isWritable desc then Ok (s, a, false)
  else
    let not_writable := isWritablePresent desc && negb (isWritable desc) in
    let finish (s : St) (a : Array) := Ok (s, if not_writable then setLengthNotWritable a else a, true) in
    if changes then
      if m_arrayLength a <? newLen then
        '(s, a, b) ← setArrayLength fuel s a newLen false true;
        if (b : bool) then finish s a else Ok (s, a, false)
      else setArrayLength fuel s (if not_writable then setLengthNotWritable a else a) newLen false true
    else finish s a.

(** The path of indexes that are properties of the object, and of other names. *)
Definition define_slow (fuel : nat) (s : St) (a : Array) (P : ObjectPropertyName) (idx : Z)
    (desc : ObjectPropertyDescriptor) : result (St * Array * bool) :=
  let oldLen := m_arrayLength a in
  if negb (idx =? InvalidIndex32Value) then
    if (oldLen <=? idx) && negb (isLengthPropertyWritable a) then Ok (s, a, false)
    else
      '(s, a, b) ← object_define s a P desc;
      if negb b then Ok (s, a, false)
      else if oldLen <=? idx then setArrayLength fuel s a (u32 (idx + 1)) false true
      else Ok (s, a, true)
  else object_define s a P desc.

(** The path of an index in fast mode; [false] goes on with [define_slow]. *)
Definition define_fast (fuel : nat) (s : St) (a : Array) (d : list (option Z)) (idx : Z)
    (desc : ObjectPropertyDescriptor) : result (St * Array * bool) :=
  let len := m_arrayLength a in
  old ← (if idx <? len then cell d idx else Ok ValueEmpty);
  if (if (idx <? len) && negb (isEmpty old)
      then negb (isValuePresentAlone desc || isDataWritableEnumerableConfigurable desc)
      else negb (isDataWritableEnumerableConfigurable desc))
     || negb (isValuePresent desc)
  then '(s, a) ← convertIntoNonFastMode s a; Ok (s, a, false)
  else if len <=? idx then
    if negb (m_isExtensible (a_object a)) then Ok (s, a, false)
    else
      '(s, a, b) ← setArrayLength fuel s a (u32 (idx + 1)) false true;
      match m_fastModeData a with
      | Some d => if (b : bool) then d ← put_cell d idx (value desc); Ok (s, with_data a (Some d), true) else Ok (s, a, false)
      | None => Ok (s, a, false)
      end
  else d ← put_cell d idx (value desc); Ok (s, with_data a (Some d), true).

Definition array_defineOwnProperty (fuel : nat) (s : St) (a : Array) (P : ObjectPropertyName)
    (desc : ObjectPropertyDescriptor) : result (St * Array * bool) :=
  if is_length_name P then define_length fuel s a desc
  else
    let idx := index_of P in
    match m_fastModeData a with
    | Some d =>
        if negb (idx =? InvalidIndex32Value) then
          '(s, a, done) ← define_fast fuel s a d idx desc;
          if (done : bool) then Ok (s, a, true) else define_slow fuel s a P idx desc
        else define_slow fuel s a P idx desc
    | None => define_slow fuel s a P idx desc
    end.

Definition array_deleteOwnProperty (s : St) (a : Array) (P : ObjectPropertyName) : result (St * Array * bool) :=
  let slow :=
    '(s, o, b) ← deleteOwnProperty natives uint_name s (a_object a) P; Ok (s, with_object a o, b) in
  if is_length_name P then Ok (s, a, false)
  else
    match m_fastModeData a with
    | Some d =>
        let idx := index_of P in
        if negb (idx =? InvalidIndex32Value) && (idx <? m_arrayLength a) then
          v ← cell d idx;
          if isEmpty v then Ok (s, a, true)
          else d ← put_cell d idx ValueEmpty; Ok (s, with_data a (Some d), true)
        else slow
    | None => slow
    end.

Definition array_preventExtensions (s : St) (a : Array) : result (St * Array) :=
  '(s, a) ← convertIntoNonFastMode s a;
  '(s, o) ← preventExtensions s (a_object a);
  Ok (s, with_object a o).

(** [setArrayLength(state, const Value&)], which [a.length = v] calls in fast mode. *)
Definition setArrayLength_value (fuel : nat) (s : St) (a : Array) (newLength : Z) : result (St * Array * bool) :=
  let isPrimitiveValue := negb (isObject h newLength) in
  let newLen := toUint32 toNumberSlowCase newLength in
  if negb (feq (of_Z newLen) (toNumber toNumberSlowCase newLength)) then Throw RangeError
  else if negb isPrimitiveValue && negb (isLengthPropertyWritable a) then Ok (s, a, false)
  else setArrayLength fuel s a newLen true true.

(** Appending several values; false asks the caller for the general path. *)
Fixpoint put_cells (d : list (option Z)) (i : Z) (values : list Z) : result (list (option Z)) :=
  match values with
  | [] => Ok d
  | v :: values => d ← put_cell d i v; put_cells d (i + 1) values
  end.
Definition pushIntoFastModeElements (fuel : nat) (s : St) (a : Array) (values : list Z) : result (St * Array * bool) :=
  let oldLength := m_arrayLength a in
  '(s, a, b) ← setArrayLength fuel s a (u32 (oldLength + Z.of_nat (length values))) false true;
  match m_fastModeData a with
  | Some d => if (b : bool) then d ← put_cells d oldLength values; Ok (s, with_data a (Some d), true) else Ok (s, a, false)
  | None => Ok (s, a, false)
  end.

End Arrays.
End Arrays.

(** * Exotic array objects of ECMA-262 *)
Module ArraySpec.
Import Word Names PropertyDescriptor DescriptorSpec PropertyList KeyOrder Arrays.

(** An array: the properties with array indexes as keys, the other properties in
    the order of creation, and the property [length]. *)
Record SpecArray := mkSpecArray {
  elements : gmap Z Property;
  named : list (option Key * Property);
  spec_length : Z;
  lengthWritable : bool;
  extensible : bool
}.
Definition length_property (A : SpecArray) : Property :=
  DataProperty (Value_unsigned (spec_length A)) (lengthWritable A) false false.
Definition with_elements (A : SpecArray) (e : gmap Z Property) : SpecArray :=
  mkSpecArray e (named A) (spec_length A) (lengthWritable A) (extensible A).
Definition with_named (A : SpecArray) (l : list (option Key * Property)) : SpecArray :=
  mkSpecArray (elements A) l (spec_length A) (lengthWritable A) (extensible A).
Definition with_spec_length (A : SpecArray) (n : Z) (writable : bool) : SpecArray :=
  mkSpecArray (elements A) (named A) n writable (extensible A).

Section Spec.
Variable SameValue : Z -> Z -> bool.
Variable toNumberSlowCase : Z -> Z.
Variable length_key : option Key.

Definition spec_get (A : SpecArray) (k : option Key) : option Property :=
  if decide (k = length_key) then Some (length_property A)
  else match array_index k with Some i => elements A !! i | None => find_key (named A) k end.
Definition spec_put (A : SpecArray) (k : option Key) (p : Property) : SpecArray :=
  match array_index k with
  | Some i => with_elements A (<[i := p]> (elements A))
  | None => with_named A (put_key (named A) k p)
  end.

(** OrdinaryDefineOwnProperty for a key other than [length]. *)
Definition OrdinaryDefine (A : SpecArray) (k : option Key) (D : Fields) : bool * SpecArray :=
  match ValidateAndApply SameValue (extensible A) D (spec_get A k) with
  | Some p => (true, spec_put A k p)
  | None => (false, A)
  end.
(** For [length]; [newLen] is the value of [D], if it has one. *)
Definition OrdinaryDefineLength (A : SpecArray) (D : Fields) (newLen : Z) : bool * SpecArray :=
  match ValidateAndApply SameValue (extensible A) D (Some (length_property A)) with
  | Some (DataProperty _ w _ _) => (true, with_spec_length A newLen w)
  | _ => (false, A)
  end.

(** Deleting the elements from the end down to [newLen] stops behind the last one
    that is not configurable. *)
Definition stops_at (A : SpecArray) (newLen stop : Z) : Prop :=
  newLen <= stop /\
  (forall i p, elements A !! i = Some p -> stop <= i -> configurable p = true) /\
  (stop = newLen \/ exists p, elements A !! (stop - 1) = Some p /\ configurable p = false).
Definition below (e : gmap Z Property) (n : Z) : gmap Z Property := filter (fun ip => ip.1 < n) e.

Definition not_writable (D : Fields) : bool := match f_writable D with Some false => true | _ => false end.

(** ArraySetLength: the answer and the array after it, or a RangeError. *)
Inductive ArraySetLength (A : SpecArray) (D : Fields) : result (bool * SpecArray) -> Prop :=
  | SetLength_no_value : f_value D = None ->
      ArraySetLength A D (Ok (OrdinaryDefineLength A D (spec_length A)))
  | SetLength_range v : f_value D = Some v ->
      feq (of_Z (toUint32 toNumberSlowCase v)) (toNumber toNumberSlowCase v) = false ->
      ArraySetLength A D (Throw RangeError)
  | SetLength_grow v newLen D' : f_value D = Some v -> newLen = toUint32 toNumberSlowCase v ->
      feq (of_Z newLen) (toNumber toNumberSlowCase v) = true ->
      D' = mkFields (Some (Value_unsigned newLen)) (f_writable D) (f_get D) (f_set D) (f_enumerable D) (f_configurable D) ->
      spec_length A <= newLen ->
      ArraySetLength A D (Ok (OrdinaryDefineLength A D' newLen))
  | SetLength_readonly v newLen : f_value D = Some v -> newLen = toUint32 toNumberSlowCase v ->
      feq (of_Z newLen) (toNumber toNumberSlowCase v) = true -> newLen < spec_length A -> lengthWritable A = false ->
      ArraySetLength A D (Ok (false, A))
  | SetLength_refused v newLen D' : f_value D = Some v -> newLen = toUint32 toNumberSlowCase v ->
      feq (of_Z newLen) (toNumber toNumberSlowCase v) = true -> newLen < spec_length A -> lengthWritable A = true ->
      D' = mkFields (Some (Value_unsigned newLen)) (if not_writable D then Some true else f_writable D)
             (f_get D) (f_set D) (f_enumerable D) (f_configurable D) ->
      (OrdinaryDefineLength A D' newLen).1 = false ->
      ArraySetLength A D (Ok (false, A))
  | SetLength_shrink v newLen D' stop : f_value D = Some v -> newLen = toUint32 toNumberSlowCase v ->
      feq (of_Z newLen) (toNumber toNumberSlowCase v) = true -> newLen < spec_length A -> lengthWritable A = true ->
      D' = mkFields (Some (Value_unsigned newLen)) (if not_writable D then Some true else f_writable D)
             (f_get D) (f_set D) (f_enumerable D) (f_configurable D) ->
      (OrdinaryDefineLength A D' newLen).1 = true -> stops_at A newLen stop ->
      ArraySetLength A D
        (Ok (stop =? newLen,
             with_spec_length (with_elements A (below (elements A) stop)) stop (negb (not_writable D)))).

(** [[DefineOwnProperty]] of an array. *)
Inductive ArrayDefine (A : SpecArray) (k : option Key) (D : Fields) : result (bool * SpecArray) -> Prop :=
  | Define_length r : k = length_key -> ArraySetLength A D r -> ArrayDefine A k D r
  | Define_beyond i : k <> length_key -> array_index k = Some i -> spec_length A <= i -> lengthWritable A = false ->
      ArrayDefine A k D (Ok (false, A))
  | Define_index i b A' : k <> length_key -> array_index k = Some i ->
      i < spec_length A \/ lengthWritable A = true -> OrdinaryDefine A k D = (b, A') ->
      ArrayDefine A k D
        (Ok (b, if b && (spec_length A <=? i) then with_spec_length A' (i + 1) (lengthWritable A') else A'))
  | Define_other : k <> length_key -> array_index k = None -> ArrayDefine A k D (Ok (OrdinaryDefine A k D)).

(** [[Delete]] of an array: the ordinary one. *)
Definition ArrayDelete (A : SpecArray) (k : option Key) : bool * SpecArray :=
  match spec_get A k with
  | None => (true, A)
  | Some p =>
      if configurable p then
        (true, match array_index k with
               | Some i => with_elements A (delete i (elements A))
               | None => with_named A (delete_key (named A) k)
               end)
      else (false, A)
  end.

End Spec.
End ArraySpec.

(** * Elements and other properties of an array *)
Module ElementFacts.
Import Word Names DescriptorSpec PropertyList KeyOrder Decimal DecimalFacts.

Definition plain (v : Z) : Property := DataProperty v true true true.

(** The elements among the properties of an object, and the rest. *)
Fixpoint elements_of_list (L : list (option Key * Property)) : gmap Z Property :=
  match L with
  | [] => ∅
  | kp :: L => match array_index kp.1 with Some i => <[i := kp.2]> (elements_of_list L) | None => elements_of_list L end
  end.
Definition named_of (L : list (option Key * Property)) : list (option Key * Property) :=
  filter (fun kp => array_index kp.1 = None) L.
(** The elements in a buffer from the index [i] on. *)
Fixpoint elements_of_data (i : Z) (d : list (option Z)) : gmap Z Property :=
  match d with
  | [] => ∅
  | Some v :: d => if isEmpty v then elements_of_data (i + 1) d else <[i := plain v]> (elements_of_data (i + 1) d)
  | None :: d => elements_of_data (i + 1) d
  end.

Lemma array_index_of_dec i : 0 <= i < 2 ^ 32 - 1 -> array_index (Some (KString (dec i))) = Some i.
Proof.
  intros Hi. unfold array_index. rewrite dec_canonical, dec_value_dec by lia. cbn [andb].
  now rewrite (proj2 (Z.ltb_lt _ _)) by lia.
Qed.
Lemma array_index_range k i : array_index k = Some i -> 0 <= i < 2 ^ 32 - 1.
Proof.
  unfold array_index. destruct k as [[s|]|]; try discriminate. destruct (canonical s && _) eqn:E; [|discriminate].
  intros [= <-]. apply andb_true_iff in E as [Ec El]. Zbool. split; [|assumption].
  apply dec_value_nonneg. unfold canonical in Ec. now apply andb_true_iff in Ec as [-> _].
Qed.
Lemma array_index_inj k k' i : array_index k = Some i -> array_index k' = Some i -> k = k'.
Proof. intros H1 H2. apply array_index_dec in H1, H2. congruence. Qed.

Lemma named_of_cons k p L :
  named_of ((k, p) :: L) = if decide (array_index k = None) then (k, p) :: named_of L else named_of L.
Proof. reflexivity. Qed.
Lemma elements_of_list_cons k p L : elements_of_list ((k, p) :: L) =
  match array_index k with Some i => <[i := p]> (elements_of_list L) | None => elements_of_list L end.
Proof. reflexivity. Qed.
#[local] Arguments named_of : simpl never.
#[local] Arguments elements_of_list : simpl never.

Lemma find_element L k i : array_index k = Some i -> find_key L k = elements_of_list L !! i.
Proof.
  intros Hk. induction L as [|[k' p] L IH]; [symmetry; apply lookup_empty|]. rewrite elements_of_list_cons. cbn.
  destruct (decide (k' = k)) as [->|N].
  - now rewrite Hk, lookup_insert_eq.
  - destruct (array_index k') as [j|] eqn:E; [|assumption]. rewrite lookup_insert_ne; [assumption|].
    intros Eij. apply N, (array_index_inj k' k i); congruence.
Qed.
Lemma find_named L k : array_index k = None -> find_key L k = find_key (named_of L) k.
Proof.
  intros Hk. induction L as [|[k' p] L IH]; [reflexivity|]. rewrite named_of_cons. cbn.
  destruct (decide (k' = k)) as [->|N].
  - rewrite decide_True by assumption. cbn. now rewrite decide_True.
  - destruct (decide (array_index k' = None)); [|assumption]. cbn. now rewrite decide_False.
Qed.

Lemma put_element L k i p : array_index k = Some i ->
  elements_of_list (put_key L k p) = <[i := p]> (elements_of_list L) /\ named_of (put_key L k p) = named_of L.
Proof.
  intros Hk. induction L as [|[k' q] L [IHe IHn]]; cbn.
  - rewrite elements_of_list_cons, named_of_cons, Hk. split; [reflexivity|]. now rewrite decide_False by congruence.
  - destruct (decide (k' = k)) as [->|N]; rewrite !elements_of_list_cons, !named_of_cons.
    + rewrite Hk, !decide_False by congruence. split; [now rewrite insert_insert_eq|reflexivity].
    + rewrite IHe, IHn. destruct (array_index k') as [j|] eqn:E; [|now split]. split; [|reflexivity].
      apply insert_insert_ne. intros Eij. apply N, (array_index_inj k' k i); congruence.
Qed.
Lemma put_named L k p : array_index k = None ->
  elements_of_list (put_key L k p) = elements_of_list L /\ named_of (put_key L k p) = put_key (named_of L) k p.
Proof.
  intros Hk. induction L as [|[k' q] L [IHe IHn]]; cbn.
  - rewrite elements_of_list_cons, named_of_cons, Hk. split; [reflexivity|]. now rewrite decide_True.
  - destruct (decide (k' = k)) as [->|N]; rewrite !elements_of_list_cons, !named_of_cons.
    + rewrite Hk, !decide_True by reflexivity. cbn. rewrite decide_True by reflexivity. now split.
    + rewrite IHe, IHn. split; [reflexivity|]. destruct (decide (array_index k' = None)); [|reflexivity].
      cbn. now rewrite decide_False.
Qed.

Lemma not_in_elements L k i : array_index k = Some i -> k ∉ L.*1 -> elements_of_list L !! i = None.
Proof.
  intros Hk Hn. induction L as [|[k' q] L IH]; [apply lookup_empty|]. cbn in Hn.
  apply not_elem_of_cons in Hn as [N Hn]. rewrite elements_of_list_cons.
  destruct (array_index k') as [j|] eqn:E; [|auto].
  rewrite lookup_insert_ne; [auto|]. intros Eij. apply N, (array_index_inj k k' i); congruence.
Qed.
Lemma delete_element L k i : array_index k = Some i -> NoDup L.*1 ->
  elements_of_list (delete_key L k) = delete i (elements_of_list L) /\ named_of (delete_key L k) = named_of L.
Proof.
  intros Hk. induction L as [|[k' q] L IH]; cbn; intros Hd; [split; [symmetry; apply delete_empty|reflexivity]|].
  apply NoDup_cons in Hd as [Hnot Hd]. destruct (IH Hd) as [IHe IHn].
  destruct (decide (k' = k)) as [->|N]; rewrite !elements_of_list_cons, !named_of_cons.
  - rewrite Hk, decide_False by congruence. split; [|reflexivity].
    rewrite delete_insert_id; [reflexivity|]. now apply (not_in_elements L k i).
  - rewrite IHe, IHn. destruct (array_index k') as [j|] eqn:E; [|now split]. split; [|reflexivity].
    rewrite delete_insert_ne; [reflexivity|]. intros Eij. apply N, (array_index_inj k' k i); congruence.
Qed.
Lemma delete_named L k : array_index k = None ->
  elements_of_list (delete_key L k) = elements_of_list L /\ named_of (delete_key L k) = delete_key (named_of L) k.
Proof.
  intros Hk. induction L as [|[k' q] L [IHe IHn]]; cbn; [now split|].
  destruct (decide (k' = k)) as [->|N]; rewrite !elements_of_list_cons, !named_of_cons.
  - rewrite Hk, decide_True by reflexivity. cbn. rewrite decide_True by reflexivity. now split.
  - rewrite IHe, IHn. split; [reflexivity|]. destruct (decide (array_index k' = None)); [|reflexivity].
    cbn. now rewrite decide_False.
Qed.

Lemma elements_of_data_lookup d : forall i j, i <= j -> elements_of_data i d !! j =
  match d !! Z.to_nat (j - i) with Some (Some v) => if isEmpty v then None else Some (plain v) | _ => None end.
Proof.
  induction d as [|c d IH]; intros i j Hj; cbn [elements_of_data]; [now rewrite lookup_empty|].
  destruct (decide (j = i)) as [->|N].
  - rewrite Z.sub_diag. change ((c :: d) !! Z.to_nat 0) with (Some c). assert (elements_of_data (i + 1) d !! i = None) as Hn.
    { clear. assert (forall d k, i < k -> elements_of_data k d !! i = None) as G; [|apply G; lia].
      induction d0 as [|c d0 IH]; intros k Hk; cbn [elements_of_data]; [apply lookup_empty|]. destruct c as [v|]; [|apply IH; lia].
      destruct (isEmpty v); [apply IH; lia|]. rewrite lookup_insert_ne by lia. apply IH. lia. }
    destruct c as [v|]; [|assumption]. destruct (isEmpty v); [assumption|]. now rewrite lookup_insert_eq.
  - replace (Z.to_nat (j - i)) with (S (Z.to_nat (j - (i + 1)))) by lia.
    change ((c :: d) !! S (Z.to_nat (j - (i + 1)))) with (d !! Z.to_nat (j - (i + 1))).
    destruct c as [v|]; [destruct (isEmpty v)|]; try (apply IH; lia).
    rewrite lookup_insert_ne by congruence. apply IH. lia.
Qed.
Lemma elements_of_data_before d : forall i j, j < i -> elements_of_data i d !! j = None.
Proof.
  induction d as [|c d IH]; intros i j Hj; cbn [elements_of_data]; [apply lookup_empty|]. destruct c as [v|]; [|apply IH; lia].
  destruct (isEmpty v); [apply IH; lia|]. rewrite lookup_insert_ne by lia. apply IH. lia.
Qed.

End ElementFacts.

(** * The buffer of the fast mode *)
Module BufferFacts.
Import Word Heap Denotation Arrays Capacity.

Lemma round_float_ge x : 0 < x -> (2 ^ 24 - 1) * x <= 2 ^ 24 * round_float x.
Proof.
  intros Hx. unfold round_float. destruct (Z.log2 x - 23 <=? 0) eqn:E; Zbool; [lia|].
  set (e := Z.log2 x - 23) in *. pose proof (Z.log2_spec x Hx) as [Hlo _].
  assert (2 ^ (e - 1) * 2 ^ 24 = 2 ^ Z.log2 x) as Hp by (rewrite <- Z.pow_add_r by lia; f_equal; lia).
  assert (2 ^ e = 2 * 2 ^ (e - 1)) as He by (rewrite <- Z.pow_succ_r by lia; f_equal; lia).
  pose proof (Z.div_mod x (2 ^ e) ltac:(lia)) as Hdm. pose proof (Z.mod_pos_bound x (2 ^ e) ltac:(lia)) as Hm.
  destruct (2 ^ (e - 1) <? x mod 2 ^ e) eqn:E1; cbn [orb]; Zbool; [lia|].
  destruct (_ && _); lia.
Qed.

Lemma WithPercent130_ge n : 0 < n -> n <= WithPercent130 n.
Proof.
  intros Hn. unfold WithPercent130. pose proof (round_float_ge n Hn) as H1.
  assert (0 < round_float n) as Hf by lia.
  pose proof (round_float_ge (round_float n * 10905190) ltac:(lia)) as H2.
  apply Z.div_le_lower_bound; [lia|]. lia.
Qed.
Lemma WithLog2_ge n : 0 < n -> n <= WithLog2 n.
Proof.
  intros Hn. unfold WithLog2. rewrite (proj2 (Z.eqb_neq n 0)) by lia. rewrite Z.shiftl_1_l.
  pose proof (Z.log2_spec n Hn). unfold Z.succ in *. lia.
Qed.

Lemma resize_ok d old new : 0 <= old <= Z.of_nat (length d) -> 0 <= new ->
  exists d', resizeWithUninitializedValues d old new = Ok d' /\ Z.of_nat (length d') = new /\
  forall i, 0 <= i < Z.min old new -> d' !! Z.to_nat i = d !! Z.to_nat i.
Proof.
  intros Ho Hn. unfold resizeWithUninitializedValues. destruct (new =? 0) eqn:E; Zbool.
  - exists []. split_and!; [reflexivity|now subst|lia].
  - destruct (length d <? Z.to_nat (Z.min old new))%nat eqn:F; [apply Nat.ltb_lt in F; lia|].
    eexists. split; [reflexivity|]. split; [rewrite length_app, length_take, length_replicate; lia|].
    intros i Hi. rewrite lookup_app_l by (rewrite length_take; lia). now rewrite lookup_take_lt by lia.
Qed.

Lemma clear_cells_ok d old new : 0 <= old -> 0 <= new <= Z.of_nat (length d) ->
  exists d', clear_cells d old new = Ok d' /\ length d' = length d /\
  forall i, 0 <= i < new -> d' !! Z.to_nat i = if i <? old then d !! Z.to_nat i else Some (Some ValueEmpty).
Proof.
  intros Ho Hn. unfold clear_cells. destruct (old <? new) eqn:E; Zbool.
  - destruct (length d <? Z.to_nat new)%nat eqn:F; [apply Nat.ltb_lt in F; lia|].
    eexists. split; [reflexivity|]. split; [rewrite !length_app, length_take, length_replicate, length_drop; lia|].
    intros i Hi. destruct (i <? old) eqn:G; Zbool.
    + rewrite lookup_app_l by (rewrite length_take; lia). now rewrite lookup_take_lt by lia.
    + rewrite lookup_app_r by (rewrite length_take; lia). rewrite lookup_app_l by (rewrite length_take, length_replicate; lia).
      rewrite lookup_replicate_2; [reflexivity|rewrite length_take; lia].
  - exists d. split_and!; [reflexivity..|]. intros i Hi. now rewrite (proj2 (Z.ltb_lt i old)) by lia.
Qed.

(** The first cells of the buffer are written, and it has the capacity noted. *)
Definition buffer_ok (h : heap) (a : Array) (d : list (option Z)) : Prop :=
  m_arrayLength a <= Z.of_nat (length d) /\
  (forall i, 0 <= i < m_arrayLength a -> exists v, d !! Z.to_nat i = Some (Some v) /\ (isEmpty v = true \/ value_ok h v)) /\
  match m_rareData a with Some r => m_arrayObjectFastModeBufferCapacity r <= Z.of_nat (length d) | None => True end.

Lemma resize_buffer_ok h a d n fit : 0 <= m_arrayLength a -> 0 <= n -> buffer_ok h a d ->
  exists a' d', resize_buffer a d n fit = Ok a' /\ m_fastModeData a' = Some d' /\ m_arrayLength a' = n /\
    a_object a' = a_object a /\ isLengthPropertyWritable a' = isLengthPropertyWritable a /\ buffer_ok h a' d' /\
    forall i, 0 <= i < n -> d' !! Z.to_nat i = if i <? m_arrayLength a then d !! Z.to_nat i else Some (Some ValueEmpty).
Proof.
  intros H0 Hn (Hlen & Hcells & Hcap).
  assert (forall d' : list (option Z), (forall i, 0 <= i < n -> d' !! Z.to_nat i = if i <? m_arrayLength a then d !! Z.to_nat i else Some (Some ValueEmpty)) ->
    forall i, 0 <= i < n -> exists v, d' !! Z.to_nat i = Some (Some v) /\ (isEmpty v = true \/ value_ok h v)) as Cells.
  { intros d' Hd' i Hi. rewrite (Hd' i Hi). destruct (i <? m_arrayLength a) eqn:E; Zbool; [apply Hcells; lia|].
    exists ValueEmpty. split; [reflexivity|now left]. }
  assert (forall c, n <= c -> exists d1 d2, resizeWithUninitializedValues d (m_arrayLength a) c = Ok d1 /\
    clear_cells d1 (m_arrayLength a) n = Ok d2 /\ Z.of_nat (length d2) = c /\
    forall i, 0 <= i < n -> d2 !! Z.to_nat i = if i <? m_arrayLength a then d !! Z.to_nat i else Some (Some ValueEmpty)) as Both.
  { intros c Hc. destruct (resize_ok d (m_arrayLength a) c ltac:(lia) ltac:(lia)) as (d1 & E1 & L1 & V1).
    destruct (clear_cells_ok d1 (m_arrayLength a) n H0 ltac:(lia)) as (d2 & E2 & L2 & V2).
    exists d1, d2. split_and!; [assumption..|lia|]. intros i Hi. rewrite (V2 i Hi).
    destruct (i <? m_arrayLength a) eqn:E; Zbool; [apply V1; lia|reflexivity]. }
  unfold resize_buffer. destruct (fit || (m_arrayLength a =? 0) || (n <=? ESCARGOT_ARRAY_FASTMODE_EXACT_ALLOC_MAX_LENGTH)) eqn:Efit.
  - destruct (Both n ltac:(lia)) as (d1 & d2 & -> & E2 & L2 & V2). cbn [mbind result_bind]. rewrite E2. cbn [mbind result_bind].
    exists (match m_rareData a with
            | Some r => with_rareData (with_data (with_length a n) (Some d2))
                (mkRareData 0 (m_arrayObjectFastModeBufferExpandCount r) (m_isArrayObjectLengthWritable r))
            | None => with_data (with_length a n) (Some d2)
            end), d2.
    unfold isLengthPropertyWritable, buffer_ok.
    destruct (m_rareData a) as [r|] eqn:Er; cbn; rewrite ?Er; (split_and!; try reflexivity; try lia; try exact V2; eauto; exact I).
  - apply orb_false_iff in Efit as [_ Efit]. Zbool. unfold ESCARGOT_ARRAY_FASTMODE_EXACT_ALLOC_MAX_LENGTH in Efit.
    change (m_rareData (with_length a n)) with (m_rareData a).
    change (ensureRareData (with_length a n)) with (ensureRareData a).
    set (cap := match m_rareData a with Some r => m_arrayObjectFastModeBufferCapacity r | None => m_arrayLength a end).
    assert (cap <= Z.of_nat (length d)) as Hcap' by (subst cap; destruct (m_rareData a); lia).
    assert (m_isArrayObjectLengthWritable (ensureRareData a) = isLengthPropertyWritable a) as Hwr
      by (unfold ensureRareData, isLengthPropertyWritable; now destruct (m_rareData a)).
    destruct (cap <? n) eqn:Ecap; Zbool.
    + set (c := if _ || _ then WithLog2 n else WithPercent130 n).
      assert (n <= c) as Hc by (subst c; destruct (_ || _); [apply WithLog2_ge|apply WithPercent130_ge]; lia).
      destruct (Both c Hc) as (d1 & d2 & -> & E2 & L2 & V2). cbn [mbind result_bind]. rewrite E2. cbn [mbind result_bind].
      eexists _, d2. split; [reflexivity|]. unfold buffer_ok. cbn. split_and!; try reflexivity; try lia; try exact V2; eauto.
    + destruct (clear_cells_ok d (m_arrayLength a) n H0 ltac:(lia)) as (d2 & -> & L2 & V2). cbn [mbind result_bind].
      eexists _, d2. split; [reflexivity|]. unfold buffer_ok. cbn. split_and!; try reflexivity; try lia; try exact V2; eauto.
Qed.

End BufferFacts.

(** * Arrays refine exotic array objects *)
Module ArrayFacts.
Import Word WordFacts Heap ValueSpec Names DescriptorFacts DefineFacts PropertyDescriptor DescriptorSpec Denotation Objects PropertyName StructureSpec Structures
  PropertyList ObjectFacts KeyOrder Decimal DecimalFacts Arrays ArraySpec ElementFacts BufferFacts.

Section ArrayFacts.
Context {St : Type} (h : heap) (outside : bool) (names : Z -> Prop) `{StructureLaws h outside names St} `{NameSpace h names}.
Context (natives : gmap Z StructureDescriptor.NativeGetterSetterData).
Context (uint_name : Z -> Z) (alloc_native : StructureDescriptor.NativeGetterSetterData -> Z).
Context (uint_names : forall i, 0 <= i -> names (uint_name i) -> key h (uint_name i) = Some (KString (dec i))).
(** The indexes below [N] have names; arrays are no longer than [N]. *)
Context (N : Z) (N_range : 0 <= N <= 2 ^ 32 - 1) (index_named : forall i, 0 <= i < N -> names (uint_name i)).
Context (length_name : Z) (length_named : names length_name) (length_atomic : hasAtomicString length_name = true)
  (length_spelled : key h length_name = Some (KString [108; 101; 110; 103; 116; 104])).
Context (toNumberSlowCase : Z -> Z) (self : Z).
(** The empty value is no address. *)
Context (null_free : h !! 0 = None).
Context (prototypes : list (bool * list Z)) (string_to_index : list Z -> Z)
  (string_to_index_dec : forall i, 0 <= i < 2 ^ 32 - 1 -> string_to_index (dec i) = i).

Notation pname P := (toObjectStructurePropertyName uint_name P).
Notation pkey P := (key h (pname P)).
Notation length_key := (key h length_name).
Notation object_properties := (object_properties h outside names natives).
Notation object_ok := (object_ok h outside names).

Definition P_ok (P : ObjectPropertyName) : Prop :=
  name_ok names uint_name P /\ match P with PUInt i => i <= MAXIMUM_UINT_FOR_32BIT_PROPERTY_NAME | PName _ => True end.

(** ** Names *)

Lemma max_uint : MAXIMUM_UINT_FOR_32BIT_PROPERTY_NAME = 2 ^ 30 - 1.
Proof. reflexivity. Qed.

Lemma length_key_index : array_index length_key = None.
Proof. now rewrite length_spelled. Qed.

Lemma uint_key P i : P = PUInt i -> P_ok P -> pkey P = Some (KString (dec i)) /\ 0 <= i < 2 ^ 32 - 1.
Proof.
  intros -> [[Hn Hi] Hm]. rewrite max_uint in Hm. cbn [toObjectStructurePropertyName] in *. split; [auto|lia].
Qed.

Lemma is_length_name_key P : P_ok P -> is_length_name h length_name P = bool_decide (pkey P = length_key).
Proof.
  intros HP. destruct P as [i|n]; cbn [is_length_name].
  - destruct (uint_key _ i eq_refl HP) as [-> Hi]. rewrite length_spelled. symmetry. apply bool_decide_eq_false_2.
    intros [= E]. pose proof (dec_canonical i ltac:(lia)) as Hc. rewrite E in Hc. discriminate.
  - destruct HP as [[Hn _] _]. cbn in Hn. apply (equals_atomic_key h names n length_name Hn length_named length_atomic).
Qed.

Lemma index_of_key P : P_ok P -> index_of h P = default InvalidIndex32Value (array_index (pkey P)) /\
  (array_index (pkey P) = None <-> index_of h P = InvalidIndex32Value).
Proof.
  intros HP. assert (index_of h P = default InvalidIndex32Value (array_index (pkey P))) as E.
  { destruct P as [i|n]; cbn [index_of].
    - destruct (uint_key _ i eq_refl HP) as [-> Hi]. now rewrite array_index_of_dec by lia.
    - destruct HP as [[Hn _] _]. cbn in Hn. destruct (names_key n Hn) as [k Hk]. cbn [toObjectStructurePropertyName].
      rewrite Hk. now destruct (tryToUseAsIndexProperty_key h n k Hk). }
  split; [exact E|]. rewrite E. destruct (array_index (pkey P)) as [i|] eqn:Ei; cbn; [|now split].
  apply array_index_range in Ei. unfold InvalidIndex32Value. split; [discriminate|lia].
Qed.

Lemma index_name_pname i : pname (index_name uint_name i) = uint_name i.
Proof. unfold index_name. now destruct (i <=? _). Qed.
Lemma index_name_key i : 0 <= i < N -> pkey (index_name uint_name i) = Some (KString (dec i)) /\
  array_index (pkey (index_name uint_name i)) = Some i /\ P_ok (index_name uint_name i).
Proof.
  intros Hi. rewrite index_name_pname. pose proof (index_named i Hi) as Hn.
  rewrite uint_names by (assumption || lia). split; [reflexivity|]. split; [apply array_index_of_dec; lia|].
  split; [split; [now rewrite index_name_pname|]|]; unfold index_name;
    destruct (i <=? MAXIMUM_UINT_FOR_32BIT_PROPERTY_NAME) eqn:E; Zbool; auto; lia.
Qed.

(** ** The relation to the specification *)

Definition elements_at (a : Array) (L : list (option Key * Property)) : gmap Z Property :=
  match m_fastModeData a with
  | Some d => elements_of_data 0 (take (Z.to_nat (m_arrayLength a)) d)
  | None => elements_of_list L
  end.
Definition abstraction (a : Array) (L : list (option Key * Property)) : SpecArray :=
  mkSpecArray (elements_at a L) (named_of L) (m_arrayLength a) (isLengthPropertyWritable a) (m_isExtensible (a_object a)).

(** Fast mode: no index is a property of the object.  Otherwise the length is
    above all of them. *)
Definition mode_ok (a : Array) (L : list (option Key * Property)) : Prop :=
  match m_fastModeData a with
  | Some d => buffer_ok h a d /\ elements_of_list L = ∅ /\ m_isExtensible (a_object a) = true
  | None => forall i p, elements_of_list L !! i = Some p -> i < m_arrayLength a
  end.
Definition represents (s : St) (a : Array) (A : SpecArray) : Prop :=
  st_ok s /\ object_ok s (a_object a) /\ 0 <= m_arrayLength a <= N /\
  exists L, object_properties s (a_object a) = Some L /\ find_key L length_key = None /\ NoDup L.*1 /\
    mode_ok a L /\ A = abstraction a L.

Lemma properties_distinct s o L : st_ok s -> object_ok s o -> object_properties s o = Some L -> NoDup L.*1.
Proof.
  intros Hs Ho HL. destruct (object_view h outside names natives s o L Ho HL) as (v & Hv & _ & Hlen & ->).
  rewrite combine_keys by assumption. exact (st_distinct s (m_structure o) v Hs Hv).
Qed.

Lemma data_lookup d n j : elements_of_data 0 (take (Z.to_nat n) d) !! j =
  if (0 <=? j) && (j <? n)
  then match d !! Z.to_nat j with Some (Some v) => if isEmpty v then None else Some (plain v) | _ => None end
  else None.
Proof.
  destruct (0 <=? j) eqn:E0; cbn [andb]; Zbool; [|now rewrite elements_of_data_before by lia].
  rewrite elements_of_data_lookup by lia. rewrite Z.sub_0_r. destruct (j <? n) eqn:E; Zbool.
  - now rewrite lookup_take_lt by lia.
  - now rewrite lookup_take_ge by lia.
Qed.

(** Elements are below the length in both modes. *)
Lemma elements_bound a L i p : 0 <= m_arrayLength a -> mode_ok a L -> elements_at a L !! i = Some p -> 0 <= i < m_arrayLength a.
Proof.
  unfold mode_ok, elements_at. destruct (m_fastModeData a) as [d|]; intros Hpos Hm Hi.
  - rewrite data_lookup in Hi. destruct ((0 <=? i) && (i <? m_arrayLength a)) eqn:E; [|discriminate].
    apply andb_true_iff in E as [E1 E2]. Zbool. lia.
  - split; [|eauto]. assert (exists k, array_index k = Some i) as [k Hk].
    { clear Hm. induction L as [|[k q] L IH]; [discriminate|]. rewrite elements_of_list_cons in Hi.
      destruct (array_index k) as [j|] eqn:E; [|auto]. destruct (decide (j = i)) as [->|Nj]; [eauto|].
      rewrite lookup_insert_ne in Hi by assumption. auto. }
    apply array_index_range in Hk. lia.
Qed.

(** Reading a property through the abstraction. *)
Lemma spec_get_slow a L k : m_fastModeData a = None -> find_key L length_key = None ->
  k <> length_key -> spec_get length_key (abstraction a L) k = find_key L k.
Proof.
  intros Hd Hlen Nk. unfold spec_get. rewrite decide_False by assumption. cbn. unfold elements_at. rewrite Hd.
  destruct (array_index k) as [i|] eqn:E; [now rewrite (find_element L k i)|now rewrite (find_named L k)].
Qed.
Lemma spec_get_named a L k : k <> length_key -> array_index k = None ->
  spec_get length_key (abstraction a L) k = find_key L k.
Proof.
  intros Nk E. unfold spec_get. rewrite decide_False by assumption. rewrite E. cbn. now rewrite (find_named L k).
Qed.

(** ** Definitions in the object *)

Lemma object_define_ok s a P desc L : st_ok s -> object_ok s (a_object a) -> object_properties s (a_object a) = Some L ->
  names (pname P) -> descriptor_ok h desc ->
  exists s' o' b L', object_define h natives uint_name alloc_native self s a P desc = Ok (s', with_object a o', b) /\
    st_ok s' /\ object_ok s' o' /\ m_isExtensible o' = m_isExtensible (a_object a) /\ object_properties s' o' = Some L' /\
    defined_as L (pkey P)
      (ValidateAndApply (SameValue h) (m_isExtensible (a_object a)) (fields_of desc) (find_key L (pkey P))) b L'.
Proof.
  intros Hs Ho HL Hn Hd.
  destruct (define_ok h outside names natives uint_name alloc_native s (a_object a) self P desc L Hs Ho HL Hn Hd)
    as (s' & o' & b & E & Hs' & Ho' & _ & Hx & L' & HL' & Hdef).
  exists s', o', b, L'. unfold object_define. rewrite E. now split_and!.
Qed.

(** ** Leaving the fast mode *)

Lemma data_value v : value_ok h v ->
  descriptor_ok h (of_value v AllPresent) /\ create_property (fields_of (of_value v AllPresent)) = plain v.
Proof. intros Hv. repeat split; auto; now apply Hv. Qed.

Lemma put_absent (L : list (option Key * Property)) k k' p : k <> k' -> find_key (put_key L k p) k' = find_key L k'.
Proof.
  intros N'. induction L as [|[k0 q] L IH]; cbn; [now rewrite decide_False|].
  destruct (decide (k0 = k)) as [->|]; cbn; [now rewrite !decide_False|].
  destruct (decide (k0 = k')); [reflexivity|exact IH].
Qed.

Lemma define_elements_ok d n : forall i s a L, st_ok s -> object_ok s (a_object a) ->
  object_properties s (a_object a) = Some L -> m_isExtensible (a_object a) = true -> 0 <= i -> i + Z.of_nat n <= N ->
  (forall j, i <= j < i + Z.of_nat n -> exists v, d !! Z.to_nat j = Some (Some v) /\ (isEmpty v = true \/ value_ok h v)) ->
  (forall j p, elements_of_list L !! j = Some p -> j < i) ->
  exists s' o' L', define_elements h natives uint_name alloc_native self s a d i n = Ok (s', with_object a o') /\
    st_ok s' /\ object_ok s' o' /\ object_properties s' o' = Some L' /\ m_isExtensible o' = true /\
    named_of L' = named_of L /\ find_key L' length_key = find_key L length_key /\
    elements_of_list L' = elements_of_data i (take n (drop (Z.to_nat i) d)) ∪ elements_of_list L.
Proof.
  induction n as [|n IH]; intros i s a L Hs Ho HL Hx Hi Hn Hcells Hold; cbn [define_elements].
  - exists s, (a_object a), L. split; [now destruct a|]. split_and!; try assumption; try reflexivity.
    symmetry. exact (left_id_L ∅ (∪) (elements_of_list L)).
  - destruct (Hcells i ltac:(lia)) as (v & Ev & Hv). unfold cell.
    rewrite (proj2 (Z.ltb_ge i 0)) by lia. rewrite Ev. cbn [defined mbind result_bind].
    assert (take (S n) (drop (Z.to_nat i) d) = Some v :: take n (drop (Z.to_nat (i + 1)) d)) as ->.
    { rewrite (drop_S _ _ _ Ev). cbn [take]. do 3 f_equal. lia. }
    cbn [elements_of_data]. destruct (isEmpty v) eqn:Eempty.
    + apply IH; auto; try lia. * intros j Hj. apply Hcells. lia. * intros j p Hj. specialize (Hold j p Hj). lia.
    + destruct Hv as [?|Hv]; [congruence|]. destruct (data_value v Hv) as [Hd Hc].
      destruct (index_name_key i ltac:(lia)) as (Hk & Hak & HP).
      destruct (object_define_ok s a (index_name uint_name i) (of_value v AllPresent) L Hs Ho HL (proj1 (proj1 HP)) Hd)
        as (s1 & o1 & b & L1 & -> & Hs1 & Ho1 & Hx1 & HL1 & Hdef). cbn [mbind result_bind].
      assert (find_key L (pkey (index_name uint_name i)) = None) as Hnone.
      { rewrite (find_element L _ i Hak). destruct (elements_of_list L !! i) eqn:E; [|reflexivity]. specialize (Hold _ _ E). lia. }
      rewrite Hnone, Hx in Hdef. cbn [ValidateAndApply] in Hdef. rewrite Hc in Hdef. destruct Hdef as [-> ->].
      destruct (put_element L _ i (plain v) Hak) as [Pe Pn].
      destruct (IH (i + 1) s1 (with_object a o1) (put_key L (pkey (index_name uint_name i)) (plain v)))
        as (s2 & o2 & L2 & E2 & Hs2 & Ho2 & HL2 & Hx2 & Hnm & Hlk & Hel); auto; try lia.
      * cbn. now rewrite Hx1.
      * intros j Hj. apply Hcells. lia.
      * intros j p Hj. rewrite Pe in Hj. destruct (decide (i = j)) as [->|Nj]; [lia|].
        rewrite lookup_insert_ne in Hj by assumption. specialize (Hold j p Hj). lia.
      * exists s2, o2, L2. split; [exact E2|]. rewrite Pn in Hnm. rewrite Pe in Hel.
        split_and!; try assumption.
        -- rewrite Hlk. apply put_absent. rewrite Hk, length_spelled. intros [= F].
           pose proof (dec_canonical i Hi) as Hcan. rewrite F in Hcan. discriminate.
        -- rewrite Hel. rewrite <- insert_union_r, insert_union_l; [reflexivity|].
           apply elements_of_data_before. lia.
Qed.

Lemma leave_fast_mode_ok s a A : represents s a A ->
  exists s' a', convertIntoNonFastMode h natives uint_name alloc_native self s a = Ok (s', a') /\
    represents s' a' A /\ m_fastModeData a' = None.
Proof.
  intros (Hs & Ho & Hlen & L & HL & Hnl & Hd & Hm & ->). unfold convertIntoNonFastMode.
  destruct (m_fastModeData a) as [d|] eqn:Ed.
  2: { exists s, a. split; [reflexivity|]. split; [|assumption]. split_and!; auto; try lia. now exists L. }
  unfold mode_ok in Hm. rewrite Ed in Hm. destruct Hm as ((Hbl & Hcells & _) & Hel & Hx).
  destruct (object_view h outside names natives s (a_object a) L Ho HL) as (v & Hv & Hf & _ & EL).
  destruct (st_convert_ok s (m_structure (a_object a)) v Hs Hv) as (s1 & j & E1 & Hs1 & _ & Hj & _).
  unfold markThisObjectDontNeedStructureTransitionTable. rewrite E1. cbn [mbind result_bind].
  set (o1 := with_property (a_object a) j (m_values (a_object a))).
  set (a1 := with_data (with_object a o1) None).
  assert (object_ok s1 o1) as Ho1 by (exists v; auto).
  assert (object_properties s1 o1 = Some L) as HL1 by (unfold ObjectFacts.object_properties; cbn; rewrite Hj; cbn; now rewrite EL).
  destruct (define_elements_ok d (Z.to_nat (m_arrayLength a)) 0 s1 a1 L Hs1 Ho1 HL1 Hx ltac:(lia) ltac:(lia))
    as (s2 & o2 & L2 & E2 & Hs2 & Ho2 & HL2 & Hx2 & Hnm & Hlk & He2).
  { intros i Hi. apply Hcells. lia. }
  { intros i p Hi. rewrite Hel in Hi. now rewrite lookup_empty in Hi. }
  change (m_arrayLength (with_data (with_object a o1) None)) with (m_arrayLength a).
  exists s2, (with_object a1 o2). split; [exact E2|]. split; [|reflexivity].
  rewrite Hel, (right_id_L ∅ (∪)) in He2. change (Z.to_nat 0) with 0%nat in He2. rewrite drop_0 in He2.
  split_and!; [assumption|assumption|cbn; lia..|]. exists L2. split_and!; [assumption|congruence|eauto using properties_distinct| |].
  - unfold mode_ok. cbn. intros i p Hi. rewrite He2, data_lookup in Hi.
    destruct ((0 <=? i) && (i <? m_arrayLength a)) eqn:E; [|discriminate]. apply andb_true_iff in E as [_ E]. now Zbool.
  - unfold abstraction, elements_at. cbn. rewrite Ed, He2, Hnm, Hx2, Hx. reflexivity.
Qed.

(** ** Changing the length *)

Lemma below_id (e : gmap Z Property) n : (forall i p, e !! i = Some p -> i < n) -> below e n = e.
Proof. intros He. apply map_filter_id. intros i p Hi. cbn. eauto. Qed.
Lemma below_lookup (e : gmap Z Property) n i : below e n !! i = if i <? n then e !! i else None.
Proof.
  unfold below. destruct (i <? n) eqn:E; Zbool.
  - destruct (e !! i) as [p|] eqn:F.
    + apply map_lookup_filter_Some. auto.
    + apply map_lookup_filter_None. now left.
  - apply map_lookup_filter_None. right. intros p _. cbn. lia.
Qed.

Definition resized (A : SpecArray) (n : Z) : SpecArray :=
  with_spec_length (with_elements A (below (elements A) n)) n (lengthWritable A).

Lemma resize_represents s a A d n fit : represents s a A -> m_fastModeData a = Some d -> 0 <= n <= N ->
  exists a' d', resize_buffer a d n fit = Ok a' /\ m_fastModeData a' = Some d' /\ represents s a' (resized A n).
Proof.
  intros (Hs & Ho & Hlen & L & HL & Hnl & Hd & Hm & ->) Ed Hn. unfold mode_ok in Hm. rewrite Ed in Hm.
  destruct Hm as (Hbuf & Hel & Hx).
  destruct (resize_buffer_ok h a d n fit ltac:(lia) ltac:(lia) Hbuf) as (a' & d' & E & Ed' & El & Eo & Ew & Hb' & Hv).
  exists a', d'. split; [assumption|]. split; [assumption|].
  split_and!; [assumption|now rewrite Eo|lia..|]. exists L. rewrite Eo. split_and!; try assumption.
  - unfold mode_ok. rewrite Ed', Eo. now split_and!.
  - unfold abstraction, resized, elements_at, with_spec_length, with_elements. cbn. rewrite Ed, Ed', El, Ew, Eo. f_equal.
    apply map_eq. intros j. rewrite below_lookup, !data_lookup.
    destruct (0 <=? j) eqn:E0; cbn [andb]; [|now destruct (j <? n)]. Zbool.
    destruct (j <? n) eqn:E1; [|reflexivity]. Zbool. rewrite (Hv j ltac:(lia)).
    destruct (j <? m_arrayLength a) eqn:E2; [reflexivity|]. reflexivity.
Qed.

(** The search for the next index to delete finds all that are there. *)
Lemma greatest_below_ge cur l : forall ret, ret <= greatest_below cur l ret /\
  (forall x, x ∈ l -> x < cur -> x <= greatest_below cur l ret).
Proof.
  unfold greatest_below. induction l as [|y l IH]; intros ret; cbn; [split; [lia|intros x Hx; now apply not_elem_of_nil in Hx]|].
  destruct (IH (if y <? cur then Z.max y ret else ret)) as [I1 I2]. split.
  - destruct (y <? cur); lia.
  - intros x Hx Hc. apply elem_of_cons in Hx as [->|Hx]; [|auto]. rewrite (proj2 (Z.ltb_lt y cur) Hc) in I1 |- *. lia.
Qed.
Lemma next_in_prototypes_ge protos cur end_ : forall ret, end_ <= ret -> end_ <= cur - 1 ->
  end_ <= next_in_prototypes protos cur end_ ret <= cur - 1 /\
  (forall x, x <= ret -> x < cur -> x <= next_in_prototypes protos cur end_ ret).
Proof.
  induction protos as [|[b l] protos IH]; intros ret Hr Hc; cbn; [split; [lia|intros; lia]|].
  destruct b; cbn; [|split; [lia|intros; lia]]. destruct (greatest_below_ge cur l ret) as [G _].
  destruct (IH (greatest_below cur l ret) ltac:(lia) Hc) as [I1 I2]. split; [assumption|]. intros x Hx. apply I2. lia.
Qed.

Lemma key_index_element item i : names (m_propertyName item) ->
  array_index (key h (m_propertyName item)) = Some i -> key_index h string_to_index item = Some i.
Proof.
  intros Hn Hi. unfold key_index. pose proof (array_index_range _ _ Hi) as Hr.
  pose proof (array_index_dec _ _ Hi) as Hk. rewrite (isSymbol_key h names _ Hn), Hk.
  destruct (key_cases h names (m_propertyName item) Hn) as [(str & -> & E & _)|(_ & _ & E)]; rewrite Hk in E; [|discriminate].
  injection E as <-. now rewrite string_to_index_dec.
Qed.

Lemma nextIndexBackward_ok s a L cur : st_ok s -> object_ok s (a_object a) -> object_properties s (a_object a) = Some L ->
  0 <= cur -> exists r, nextIndexBackward h prototypes string_to_index s a cur (-1) = Ok r /\ -1 <= r <= cur - 1 /\
    (forall i p, elements_of_list L !! i = Some p -> i < cur -> i <= r).
Proof.
  intros Hs Ho HL Hc. destruct (object_view h outside names natives s (a_object a) L Ho HL) as (v & Hv & _ & Hlen & ->).
  destruct (st_properties_ok s (m_structure (a_object a)) v Hs Hv) as (l & El & -> & Hn & _).
  unfold nextIndexBackward. rewrite El. cbn [mbind result_bind].
  set (own := string_to_index length_characters :: omap (key_index h string_to_index) l).
  destruct (greatest_below_ge cur own (-1)) as [G1 G2].
  destruct (next_in_prototypes_ge prototypes cur (-1) (greatest_below cur own (-1)) G1 ltac:(lia)) as [P1 P2].
  eexists. split; [reflexivity|]. split; [exact P1|]. intros i p Hi Hic. apply P2; [|assumption]. apply G2; [|assumption].
  assert (exists item, item ∈ l /\ array_index (key h (m_propertyName item)) = Some i) as (item & Hin & Hai).
  { assert (exists k, array_index k = Some i /\ k ∈ (combine (property_of natives) (view_of h l) (m_values (a_object a))).*1)
      as (k & Hk & Hin).
    { revert Hi. generalize (combine (property_of natives) (view_of h l) (m_values (a_object a))). clear.
      induction l as [|[k q] L IH]; intros Hi; [discriminate|]. rewrite elements_of_list_cons in Hi. cbn.
      destruct (array_index k) as [j|] eqn:E.
      - destruct (decide (j = i)) as [->|Nj]; [exists k; split; [assumption|now left]|].
        rewrite lookup_insert_ne in Hi by assumption. destruct (IH Hi) as (k' & ? & ?). exists k'. split; [assumption|now right].
      - destruct (IH Hi) as (k' & ? & ?). exists k'. split; [assumption|now right]. }
    rewrite combine_keys in Hin by assumption. apply list_elem_of_fmap in Hin as [kd [-> Hin]].
    apply list_elem_of_fmap in Hin as [item [-> Hin]]. eauto. }
  apply elem_of_cons. right. apply list_elem_of_omap. exists item. split; [assumption|].
  rewrite Forall_forall in Hn. now apply key_index_element; [apply Hn|].
Qed.

Lemma with_length_represents s a B n : represents s a B -> m_fastModeData a = None -> 0 <= n <= N ->
  (forall i p, elements B !! i = Some p -> i < n) ->
  represents s (with_length a n) (with_spec_length B n (lengthWritable B)).
Proof.
  intros (Hs & Ho & Hlen & L & HL & Hnl & Hd & Hm & ->) Ed Hn Hel.
  split_and!; [assumption|assumption|cbn; lia..|]. exists L. cbn. split_and!; try assumption.
  - unfold mode_ok. cbn. rewrite Ed. intros i p Hi. apply (Hel i p). cbn. unfold elements_at. now rewrite Ed.
  - unfold abstraction, elements_at, with_spec_length. cbn. now rewrite Ed.
Qed.

(** Deleting an index of an array that is not in fast mode. *)
Lemma delete_index_ok s a B i : represents s a B -> m_fastModeData a = None -> 0 <= i < N ->
  exists s' o' b, deleteOwnProperty natives uint_name s (a_object a) (index_name uint_name i) = Ok (s', o', b) /\
    m_arrayLength (with_object a o') = m_arrayLength a /\
    match elements B !! i with
    | Some p => b = configurable p /\
        represents s' (with_object a o') (if configurable p then with_elements B (delete i (elements B)) else B)
    | None => b = true /\ represents s' (with_object a o') B
    end.
Proof.
  intros (Hs & Ho & Hlen & L & HL & Hnl & Hd & Hm & ->) Ed Hi.
  destruct (index_name_key i Hi) as (Hk & Hak & HP).
  destruct (object_delete_ok h outside names natives uint_name uint_names s (a_object a) (index_name uint_name i) L Hs Ho HL (proj1 HP))
    as (s' & o' & b & E & Hs' & Ho' & _ & Hx & L' & HL' & Hdel).
  exists s', o', b. split; [assumption|]. split; [reflexivity|]. cbn. unfold elements_at. rewrite Ed.
  rewrite (find_element L _ i Hak) in Hdel. unfold mode_ok in Hm. rewrite Ed in Hm.
  assert (forall M, object_properties s' o' = Some M -> find_key M length_key = None -> NoDup M.*1 ->
    (forall j p, elements_of_list M !! j = Some p -> j < m_arrayLength a) ->
    forall B, B = mkSpecArray (elements_of_list M) (named_of M) (m_arrayLength a) (isLengthPropertyWritable a) (m_isExtensible (a_object a)) ->
    represents s' (with_object a o') B) as Rep.
  { intros M HM Hnl' Hd' Hb B ->. split_and!; try assumption; try (cbn; lia). exists M. split_and!; try assumption.
    - unfold mode_ok. cbn. now rewrite Ed.
    - unfold abstraction, elements_at. cbn. now rewrite Ed, Hx. }
  destruct (elements_of_list L !! i) as [p|] eqn:Ep.
  - destruct Hdel as [-> ->]. split; [reflexivity|]. destruct (configurable p) eqn:Ec.
    + destruct (delete_element L _ i Hak Hd) as [De Dn].
      assert (NoDup (delete_key L (pkey (index_name uint_name i))).*1) as Hd' by (eauto using properties_distinct).
      apply (Rep _ HL'); auto.
      * rewrite (find_named _ _ length_key_index), Dn, <- (find_named _ _ length_key_index). assumption.
      * intros j q Hj. rewrite De in Hj. apply lookup_delete_Some in Hj as [_ Hj]. eauto.
      * rewrite De, Dn. unfold with_elements. cbn. reflexivity.
    + apply (Rep _ HL'); auto. unfold abstraction, elements_at. now rewrite Ed.
  - destruct Hdel as [-> ->]. split; [reflexivity|]. apply (Rep _ HL'); auto. unfold abstraction, elements_at. now rewrite Ed.
Qed.

(** What is above the place the loop has reached was deleted. *)
Definition pruned (A : SpecArray) (old : Z) : SpecArray := with_elements A (below (elements A) old).

Lemma pruned_none A t old : t <= old -> (forall i p, elements A !! i = Some p -> i < old -> i < t) ->
  pruned A old = pruned A t.
Proof.
  intros Ht Hn. unfold pruned. f_equal. apply map_eq. intros i. rewrite !below_lookup.
  destruct (i <? old) eqn:E1, (i <? t) eqn:E2; Zbool; try reflexivity; try lia.
  destruct (elements A !! i) as [p|] eqn:E; [|reflexivity]. specialize (Hn i p E). lia.
Qed.
Lemma pruned_delete A t old : t < old -> (forall i p, elements A !! i = Some p -> i < old -> i <= t) ->
  with_elements (pruned A old) (delete t (elements (pruned A old))) = pruned A t.
Proof.
  intros Ht Hn. unfold pruned, with_elements. cbn. f_equal. apply map_eq. intros i.
  destruct (decide (i = t)) as [->|Nt].
  - rewrite lookup_delete_eq, below_lookup. now rewrite (proj2 (Z.ltb_ge t t)) by lia.
  - rewrite lookup_delete_ne, !below_lookup by congruence.
    destruct (i <? old) eqn:E1, (i <? t) eqn:E2; Zbool; try reflexivity; try lia.
    destruct (elements A !! i) as [p|] eqn:E; [|reflexivity]. specialize (Hn i p E). lia.
Qed.
Lemma pruned_end A n : with_spec_length (pruned A n) n (lengthWritable (pruned A n)) = resized A n.
Proof. reflexivity. Qed.

Lemma represents_same s s' a A : represents s a A -> st_ok s' -> same_views h outside names s s' -> represents s' a A.
Proof.
  intros (Hs & Ho & Hlen & L & HL & Hrest) Hs' Hsv. split; [assumption|]. split; [eapply object_ok_same; eauto|].
  split; [assumption|]. exists L. rewrite (object_properties_same h outside names natives s s' (a_object a) Hsv). now split.
Qed.

(** The loop ends at the new length. *)
Lemma shrink_end A newLen s a : represents s a (pruned A newLen) -> m_fastModeData a = None -> 0 <= newLen <= N ->
  (forall i p, elements A !! i = Some p -> newLen <= i -> configurable p = true) ->
  exists s' a' stop, Ok (s, with_length a newLen, true) = Ok (s', a', stop =? newLen) /\
    stops_at A newLen stop /\ represents s' a' (resized A stop) /\ m_fastModeData a' = None.
Proof.
  intros Hr Ed Hn Hc. exists s, (with_length a newLen), newLen. rewrite Z.eqb_refl. split; [reflexivity|].
  split; [split; [lia|split; [assumption|now left]]|]. split; [|assumption].
  rewrite <- pruned_end. apply with_length_represents; auto.
  intros i p Hi. cbn in Hi. rewrite below_lookup in Hi. destruct (i <? newLen) eqn:E; [now Zbool|discriminate].
Qed.

(** One round looks at the greatest element that is left. *)
Lemma shrink_next s a A old : represents s a (pruned A old) -> m_fastModeData a = None -> 0 < old <= N ->
  exists s' r t, getOwnProperty natives uint_name s (a_object a) (index_name uint_name (old - 1)) = Ok (s', r) /\
    (match r with Some _ => Ok (old - 1) | None => nextIndexBackward h prototypes string_to_index s' a (old - 1) (-1) end) = Ok t /\
    represents s' a (pruned A old) /\ -1 <= t <= old - 1 /\ (forall i p, elements A !! i = Some p -> i < old -> i <= t).
Proof.
  intros Hr Ed Hold. pose proof Hr as (Hs & Ho & Hlen & L & HL & Hnl & Hd & Hm & EA).
  assert (elements_of_list L = below (elements A) old) as EL.
  { apply (f_equal elements) in EA. cbn in EA. unfold elements_at in EA. rewrite Ed in EA. now rewrite EA. }
  destruct (index_name_key (old - 1) ltac:(lia)) as (_ & Hak & HP).
  destruct (getOwn_ok h outside names natives uint_name uint_names s (a_object a) _ L Hs Ho HL (proj1 HP))
    as (s1 & r & E & Hs1 & Hsv & Hg).
  pose proof (represents_same s s1 a _ Hr Hs1 Hsv) as Hr1.
  rewrite (find_element L _ _ Hak), EL, below_lookup in Hg. rewrite (proj2 (Z.ltb_lt (old - 1) old)) in Hg by lia.
  exists s1, r. destruct r as [r|].
  - exists (old - 1). split; [assumption|]. split; [reflexivity|]. split; [assumption|]. split; [lia|]. intros; lia.
  - assert (elements A !! (old - 1) = None) as Hnone by (destruct (elements A !! (old - 1)) as [[]|]; [destruct Hg|destruct Hg|reflexivity]).
    destruct (nextIndexBackward_ok s1 a L (old - 1) Hs1) as (t & E1 & Ht & Hall); [apply Hr1| |lia|].
    { rewrite (object_properties_same h outside names natives s s1 (a_object a) Hsv). assumption. }
    exists t. split; [assumption|]. split; [assumption|]. split; [assumption|]. split; [lia|]. intros i p Hi Hio. apply (Hall i p).
    + rewrite EL, below_lookup. now rewrite (proj2 (Z.ltb_lt i old)) by lia.
    + destruct (decide (i = old - 1)) as [->|]; [congruence|lia].
Qed.

Lemma shrink_ok A newLen fuel : forall s a old, represents s a (pruned A old) -> m_fastModeData a = None ->
  0 <= newLen <= old -> old <= N -> (forall i p, elements A !! i = Some p -> old <= i -> configurable p = true) ->
  (Z.to_nat (old - newLen) <= fuel)%nat ->
  exists s' a' stop, shrink h natives uint_name prototypes string_to_index fuel s a newLen old = Ok (s', a', stop =? newLen) /\
    stops_at A newLen stop /\ represents s' a' (resized A stop) /\ m_fastModeData a' = None.
Proof.
  induction fuel as [|fuel IH]; intros s a old Hr Ed Hn HN Hc Hf; cbn [shrink].
  all: destruct (newLen <? old) eqn:E; Zbool; [|assert (old = newLen) as -> by lia; now apply shrink_end].
  { lia. }
  destruct (shrink_next s a A old Hr Ed ltac:(lia)) as (s1 & r & t & -> & Et & Hr1 & Ht & Hbelow). cbn [mbind result_bind].
  rewrite Et. cbn [mbind result_bind].
  assert (forall i p, elements A !! i = Some p -> t < i -> configurable p = true) as Hc'.
  { intros i p Hi Hti. destruct (decide (i < old)); [specialize (Hbelow i p Hi ltac:(assumption)); lia|].
    apply (Hc i p); [assumption|lia]. }
  assert (forall n, t < n <= old -> pruned A old = pruned A n) as Hnone.
  { intros n Hnt. apply pruned_none; [lia|]. intros i p Hi Hio. specialize (Hbelow i p Hi Hio). lia. }
  destruct (t <? newLen) eqn:Etn; Zbool.
  - rewrite (Hnone newLen) in Hr1 by lia. apply shrink_end; auto; [lia|]. intros i p Hi Hge. apply (Hc' i p); [assumption|lia].
  - destruct (delete_index_ok s1 a (pruned A old) t Hr1 Ed ltac:(lia)) as (s2 & o2 & b & -> & Hlen2 & Hdel). cbn [mbind result_bind].
    assert (elements (pruned A old) !! t = elements A !! t) as Elt
      by (cbn; rewrite below_lookup; now rewrite (proj2 (Z.ltb_lt t old)) by lia).
    rewrite Elt in Hdel.
    assert (forall p, elements A !! t = Some p -> configurable p = true -> forall i q, elements A !! i = Some q -> t <= i -> configurable q = true) as Hc2.
    { intros p Ep Ec i q Hi Hti. destruct (decide (i = t)) as [->|]; [congruence|]. apply (Hc' i q); [assumption|lia]. }
    destruct (elements A !! t) as [p|] eqn:Ep; destruct Hdel as [-> Hr2]; [destruct (configurable p) eqn:Ec|].
    + rewrite (pruned_delete A t old) in Hr2 by (lia || assumption). apply IH; auto; [lia..| |lia]. now apply (Hc2 p).
    + exists s2, (with_length (with_object a o2) (t + 1)), (t + 1).
      rewrite (proj2 (Z.eqb_neq (t + 1) newLen)) by lia. split; [reflexivity|].
      split; [split; [lia|split]|split; [|assumption]].
      * intros i q Hi Hti. apply (Hc' i q); [assumption|lia].
      * right. exists p. now replace (t + 1 - 1) with t by lia.
      * rewrite (Hnone (t + 1)) in Hr2 by lia. rewrite <- pruned_end. apply with_length_represents; auto; [lia|].
        intros i q Hi. cbn in Hi. rewrite below_lookup in Hi. destruct (i <? t + 1) eqn:Ei; [now Zbool|discriminate].
    + rewrite (pruned_none A t old) in Hr2.
      * apply IH; auto; [lia..| |lia]. intros i q Hi Hti. destruct (decide (i = t)) as [->|]; [congruence|]. apply (Hc' i q); [assumption|lia].
      * lia.
      * intros i q Hi Hio. specialize (Hbelow i q Hi Hio). destruct (decide (i = t)) as [->|]; [congruence|lia].
Qed.

Lemma resized_id A n : (forall i p, elements A !! i = Some p -> i < n) -> resized A n = with_spec_length A n (lengthWritable A).
Proof. intros He. unfold resized, with_spec_length. cbn. now rewrite below_id. Qed.

Lemma represents_bound s a A : represents s a A -> spec_length A = m_arrayLength a /\ 0 <= spec_length A <= N /\
  lengthWritable A = isLengthPropertyWritable a /\ extensible A = m_isExtensible (a_object a) /\
  (forall i p, elements A !! i = Some p -> 0 <= i < spec_length A).
Proof.
  intros (Hs & Ho & Hlen & L & HL & Hnl & Hd & Hm & ->). cbn. split_and!; try lia; try reflexivity.
  intros i p Hi. exact (elements_bound a L i p (proj1 Hlen) Hm Hi).
Qed.
Lemma fast_elements s a A d : represents s a A -> m_fastModeData a = Some d -> extensible A = true /\
  forall i, 0 <= i < spec_length A -> exists v, d !! Z.to_nat i = Some (Some v) /\
    ((isEmpty v = true /\ elements A !! i = None) \/ (isEmpty v = false /\ value_ok h v /\ elements A !! i = Some (plain v))).
Proof.
  intros (Hs & Ho & Hlen & L & HL & Hnl & Hd & Hm & ->) Ed. unfold mode_ok in Hm. rewrite Ed in Hm.
  destruct Hm as ((_ & Hcells & _) & _ & Hx). cbn. split; [assumption|]. intros i Hi.
  destruct (Hcells i Hi) as (v & Ev & Hv). exists v. split; [assumption|]. unfold elements_at. rewrite Ed, data_lookup.
  rewrite (proj2 (Z.leb_le 0 i)), (proj2 (Z.ltb_lt i _)), Ev by lia. cbn. destruct (isEmpty v) eqn:E; [now left|right].
  split_and!; [reflexivity| |reflexivity]. destruct Hv as [?|Hv]; [congruence|assumption].
Qed.
Lemma fast_configurable s a A d i p : represents s a A -> m_fastModeData a = Some d -> elements A !! i = Some p ->
  exists v, p = plain v.
Proof.
  intros Hr Ed Hi. destruct (represents_bound s a A Hr) as (_ & _ & _ & _ & Hb). specialize (Hb i p Hi).
  destruct (proj2 (fast_elements s a A d Hr Ed) i Hb) as (v & _ & [[_ E]|(_ & _ & E)]); [congruence|].
  exists v. congruence.
Qed.

Notation setArrayLength := (setArrayLength h natives uint_name alloc_native self prototypes string_to_index).
Notation convertIntoNonFastMode := (convertIntoNonFastMode h natives uint_name alloc_native self).

Lemma resize_mode s a A d n fit : represents s a A -> m_fastModeData a = Some d -> 0 <= n <= N ->
  exists s' a', (a ← resize_buffer a d n fit;
     '(s, a) ← (if isLengthPropertyWritable a then Ok (s, a) else convertIntoNonFastMode s a);
     Ok (s, a, true)) = Ok (s', a', true) /\ represents s' a' (resized A n).
Proof.
  intros Hr Ed Hn. destruct (resize_represents s a A d n fit Hr Ed Hn) as (a1 & d1 & -> & Ed1 & Hr1). cbn [mbind result_bind].
  destruct (isLengthPropertyWritable a1).
  - now exists s, a1.
  - destruct (leave_fast_mode_ok s a1 _ Hr1) as (s2 & a2 & -> & Hr2 & _). now exists s2, a2.
Qed.

Lemma set_shrink fuel s a A n fit hole : represents s a A -> 0 <= n <= spec_length A ->
  (Z.to_nat (spec_length A - n) <= fuel)%nat ->
  exists s' a' stop, setArrayLength fuel s a n fit hole = Ok (s', a', stop =? n) /\ stops_at A n stop /\
    represents s' a' (resized A stop).
Proof.
  intros Hr Hn Hf. destruct (represents_bound s a A Hr) as (El & Hlen & Ew & Ex & Hb). unfold Arrays.setArrayLength.
  rewrite <- El. assert (spec_length A <? n = false) as E1 by (apply Z.ltb_ge; lia). rewrite E1, !andb_false_r. cbn [andb].
  destruct (m_fastModeData a) as [d|] eqn:Ed; cbn [mbind result_bind]; rewrite Ed.
  - assert (stops_at A n n) as Hstop.
    { split; [lia|]. split; [|now left]. intros i p Hi _. now destruct (fast_configurable s a A d i p Hr Ed Hi) as [v ->]. }
    rewrite <- El. destruct (spec_length A =? n) eqn:E; Zbool.
    + exists s, a, n. rewrite Z.eqb_refl. split_and!; try reflexivity; try assumption.
      rewrite resized_id by (intros i p Hi; specialize (Hb i p Hi); lia). subst n. unfold with_spec_length. now destruct A.
    + destruct (resize_mode s a A d n fit Hr Ed ltac:(lia)) as (s' & a' & E2 & Hr'). exists s', a', n. now rewrite Z.eqb_refl.
  - rewrite <- El. assert (represents s a (pruned A (spec_length A))) as Hr0.
    { unfold pruned. rewrite below_id by (intros i p Hi; now destruct (Hb i p Hi)). now destruct A. }
    destruct (shrink_ok A n fuel s a (spec_length A) Hr0 Ed Hn ltac:(lia)) as (s' & a' & stop & E & Hst & Hr' & _); auto.
    + intros i p Hi Hge. specialize (Hb i p Hi). lia.
    + now exists s', a', stop.
Qed.

Lemma set_slow_grow fuel s a n fit hole : m_fastModeData a = None -> m_arrayLength a <= n ->
  setArrayLength fuel s a n fit hole = Ok (s, with_length a n, true).
Proof.
  intros Ed Hn. unfold Arrays.setArrayLength, isFastModeArray. rewrite Ed. cbn [andb mbind result_bind]. rewrite Ed.
  destruct fuel; cbn [shrink]; now rewrite (proj2 (Z.ltb_ge n _)) by lia.
Qed.

Lemma set_grow fuel s a A n fit hole : represents s a A -> spec_length A < n <= N -> lengthWritable A = true ->
  exists s' a', setArrayLength fuel s a n fit hole = Ok (s', a', true) /\
    represents s' a' (with_spec_length A n (lengthWritable A)).
Proof.
  intros Hr Hn Hw. destruct (represents_bound s a A Hr) as (El & Hlen & Ew & Ex & Hb).
  assert (forall s1 a1, represents s1 a1 A -> m_fastModeData a1 = None -> exists s' a', shrink h natives uint_name prototypes string_to_index fuel s1 a1 n (m_arrayLength a1)
      = Ok (s', a', true) /\ represents s' a' (with_spec_length A n (lengthWritable A))) as Slow.
  { intros s1 a1 Hr1 Ed1. destruct (represents_bound s1 a1 A Hr1) as (El1 & _). exists s1, (with_length a1 n). split.
    - destruct fuel; cbn [shrink]; now rewrite (proj2 (Z.ltb_ge n _)) by lia.
    - apply with_length_represents; auto; [lia|]. intros i p Hi. specialize (Hb i p Hi). lia. }
  assert (isLengthPropertyWritable a = true) as Ewr by congruence.
  unfold Arrays.setArrayLength. rewrite Ewr. cbn [negb]. rewrite andb_false_r.
  destruct (isFastModeArray a && _ && _ && _ && _) eqn:Ec.
  - destruct (leave_fast_mode_ok s a A Hr) as (s1 & a1 & -> & Hr1 & Ed1). cbn [mbind result_bind]. rewrite Ed1. now apply Slow.
  - cbn [mbind result_bind]. destruct (m_fastModeData a) as [d|] eqn:Ed; [|now apply Slow].
    rewrite (proj2 (Z.eqb_neq (m_arrayLength a) n)) by lia.
    destruct (resize_mode s a A d n fit Hr Ed ltac:(lia)) as (s' & a' & E2 & Hr'). exists s', a'. split; [exact E2|].
    rewrite <- resized_id by (intros i p Hi; specialize (Hb i p Hi); lia). exact Hr'.
Qed.

Lemma set_refused fuel s a n fit hole : isFastModeArray a = true -> m_arrayLength a < n -> isLengthPropertyWritable a = false ->
  setArrayLength fuel s a n fit hole = Ok (s, a, false).
Proof.
  intros Ef Hn Hw. unfold Arrays.setArrayLength. rewrite Ef, Hw. cbn. now rewrite (proj2 (Z.ltb_lt _ _) Hn).
Qed.

(** ** Defining properties *)

Notation SameValue := (SameValue h).

Lemma spec_put_index A k i p : array_index k = Some i -> spec_put A k p = with_elements A (<[i := p]> (elements A)).
Proof. unfold spec_put. now intros ->. Qed.
Lemma spec_get_index A k i : k <> length_key -> array_index k = Some i -> spec_get length_key A k = elements A !! i.
Proof. intros Nk E. unfold spec_get. now rewrite decide_False, E. Qed.
Lemma with_spec_length_id A : with_spec_length A (spec_length A) (lengthWritable A) = A.
Proof. now destruct A. Qed.
Lemma with_length_id a o : with_length (with_object a o) (m_arrayLength a) = with_object a o.
Proof. reflexivity. Qed.

(** A definition in the object, of a name that is not kept in a buffer, with
    the length it gets afterwards. *)
Lemma object_define_represents s a A P desc : represents s a A -> P_ok P -> pkey P <> length_key -> descriptor_ok h desc ->
  m_fastModeData a = None \/ array_index (pkey P) = None ->
  exists s' a' b A', object_define h natives uint_name alloc_native self s a P desc = Ok (s', a', b) /\
    OrdinaryDefine SameValue length_key A (pkey P) (fields_of desc) = (b, A') /\
    m_fastModeData a' = m_fastModeData a /\ m_arrayLength a' = m_arrayLength a /\
    forall n, m_arrayLength a <= n <= N -> m_fastModeData a = None \/ n = m_arrayLength a ->
      (forall i, array_index (pkey P) = Some i -> b = true -> i < n) ->
      represents s' (with_length a' n) (with_spec_length A' n (lengthWritable A)).
Proof.
  intros (Hs & Ho & Hlen & L & HL & Hnl & Hd & Hm & ->) HP Nk Hdesc Hmode.
  destruct (object_define_ok s a P desc L Hs Ho HL (proj1 (proj1 HP)) Hdesc) as (s' & o' & b & L' & E & Hs' & Ho' & Hx & HL' & Hdef).
  assert (spec_get length_key (abstraction a L) (pkey P) = find_key L (pkey P)) as Hget
    by (destruct Hmode; auto using spec_get_slow, spec_get_named).
  unfold OrdinaryDefine. rewrite Hget. change (extensible (abstraction a L)) with (m_isExtensible (a_object a)).
  exists s', (with_object a o'), b, (if b then abstraction (with_object a o') L' else abstraction a L). split; [exact E|].
  assert (forall M n, object_properties s' o' = Some M -> m_arrayLength a <= n <= N -> m_fastModeData a = None \/ n = m_arrayLength a ->
    find_key M length_key = None -> mode_ok (with_length (with_object a o') n) M ->
    represents s' (with_length (with_object a o') n) (with_spec_length (abstraction (with_object a o') M) n (isLengthPropertyWritable a))) as Rep.
  { intros M n HM Hn Hfast Hnl' Hm'. split; [assumption|]. split; [assumption|]. split; [cbn; lia|]. exists M.
    split; [exact HM|]. split; [exact Hnl'|]. split; [eauto using properties_distinct|]. split; [exact Hm'|].
    unfold abstraction, with_spec_length, elements_at. cbn. destruct Hfast as [->| ->]; reflexivity. }
  assert (forall M n, elements_of_list M = elements_of_list L -> m_arrayLength a <= n -> m_fastModeData a = None \/ n = m_arrayLength a ->
    mode_ok (with_length (with_object a o') n) M) as Keep.
  { intros M n HM Hn Hfast. unfold mode_ok in *. cbn. rewrite HM, Hx.
    destruct (m_fastModeData a) as [d|]; [|intros i p Hip; specialize (Hm i p Hip); lia].
    destruct Hfast as [?| ->]; [discriminate|]. exact Hm. }
  destruct (ValidateAndApply SameValue (m_isExtensible (a_object a)) (fields_of desc) (find_key L (pkey P))) as [p|];
    destruct Hdef as [-> ->].
  - split; [|split; [reflexivity|split; [reflexivity|]]].
    + f_equal. destruct (array_index (pkey P)) as [i|] eqn:Ei.
      * rewrite (spec_put_index _ _ i) by assumption. destruct Hmode as [Ed|?]; [|discriminate].
        destruct (put_element L _ i p Ei) as [Pe Pn]. unfold abstraction, with_elements, elements_at. cbn. now rewrite Ed, Pe, Pn, Hx.
      * unfold spec_put. rewrite Ei. destruct (put_named L _ p Ei) as [Pe Pn].
        unfold abstraction, with_named, elements_at. cbn. rewrite Pe, Pn, Hx. reflexivity.
    + intros n Hn Hfast Hi. apply Rep; auto; [now rewrite put_absent|].
      destruct (array_index (pkey P)) as [i|] eqn:Ei; [|apply Keep; [now apply put_named|lia|assumption]].
      destruct Hmode as [Ed|?]; [|discriminate]. unfold mode_ok in *. cbn. rewrite Ed in *.
      rewrite (proj1 (put_element L _ i p Ei)). intros j q Hj. apply lookup_insert_Some in Hj as [[<- _]|[_ Hj]]; [auto|].
      specialize (Hm j q Hj). lia.
  - split; [reflexivity|]. split; [reflexivity|]. split; [reflexivity|]. intros n Hn Hfast _.
    replace (abstraction a L) with (abstraction (with_object a o') L) by (unfold abstraction, elements_at; cbn; now rewrite Hx).
    apply Rep; auto. apply Keep; [reflexivity|lia|assumption].
Qed.

Lemma OrdinaryDefine_keeps A k D b A' : OrdinaryDefine SameValue length_key A k D = (b, A') ->
  spec_length A' = spec_length A /\ lengthWritable A' = lengthWritable A /\ (b = false -> A' = A).
Proof.
  unfold OrdinaryDefine. destruct (ValidateAndApply _ _ _ _) as [p|]; intros [= <- <-]; [|now split_and!].
  unfold spec_put. destruct (array_index k); now split_and!.
Qed.

Notation define_slow := (define_slow h natives uint_name alloc_native self prototypes string_to_index).

(** The general path is the definition of the specification. *)
Lemma define_slow_ok fuel s a A P desc : represents s a A -> P_ok P -> pkey P <> length_key -> descriptor_ok h desc ->
  m_fastModeData a = None \/ array_index (pkey P) = None -> (forall i, array_index (pkey P) = Some i -> i < N) ->
  exists s' a' b A', define_slow fuel s a P (index_of h P) desc = Ok (s', a', b) /\ represents s' a' A' /\
    ArrayDefine SameValue toNumberSlowCase length_key A (pkey P) (fields_of desc) (Ok (b, A')).
Proof.
  intros Hr HP Nk Hd Hmode Hbound. destruct (represents_bound s a A Hr) as (El & Hlen & Ew & Ex & Hb).
  destruct (index_of_key P HP) as [Ei Enone]. unfold Arrays.define_slow.
  destruct (object_define_represents s a A P desc Hr HP Nk Hd Hmode) as (s' & a' & b & A' & Edef & Espec & Ed' & El' & Hr').
  destruct (OrdinaryDefine_keeps A _ _ b A' Espec) as (Es' & Ew' & Hf).
  assert (with_length a' (spec_length A) = a') as Hid by (rewrite El, <- El'; now destruct a').
  assert ((forall i, array_index (pkey P) = Some i -> b = true -> i < spec_length A) -> represents s' a' A') as Same.
  { intros Hi. specialize (Hr' (spec_length A) ltac:(lia) ltac:(lia) Hi).
    now rewrite Hid, <- Es', <- Ew', with_spec_length_id in Hr'. }
  destruct (array_index (pkey P)) as [i|] eqn:Ea.
  2: { rewrite (proj1 Enone eq_refl), Z.eqb_refl. cbn [negb]. exists s', a', b, A'. split; [assumption|].
    split; [now apply Same|]. rewrite <- Espec. now apply Define_other. }
  destruct Hmode as [Ed|?]; [|discriminate]. cbn in Ei. specialize (Hbound i eq_refl).
  pose proof (array_index_range _ _ Ea) as Hi. rewrite Ei.
  rewrite (proj2 (Z.eqb_neq i InvalidIndex32Value)) by (unfold InvalidIndex32Value; lia). cbn [negb].
  rewrite <- El, <- Ew. destruct ((spec_length A <=? i) && negb (lengthWritable A)) eqn:Ero.
  - apply andb_true_iff in Ero as [E1 E2]. Zbool.
    exists s, a, false, A. split; [reflexivity|]. split; [assumption|]. now apply (Define_beyond _ _ _ _ _ _ i).
  - assert (i < spec_length A \/ lengthWritable A = true) as Hor.
    { destruct (spec_length A <=? i) eqn:E1; Zbool; [right|left; lia]. cbn in Ero. now apply negb_false_iff in Ero. }
    pose proof (Define_index SameValue toNumberSlowCase length_key A (pkey P) (fields_of desc) i b A' Nk Ea Hor Espec) as Hspec.
    rewrite Edef. cbn [mbind result_bind]. destruct b; cbn [negb andb] in *.
    + destruct (spec_length A <=? i) eqn:E1; Zbool.
      * assert (u32 (i + 1) = i + 1) as -> by (apply wrapu_id; unfold in_u; lia). rewrite set_slow_grow by (congruence || lia).
        eexists _, _, _, _. split; [reflexivity|]. rewrite Ew' in Hspec. split; [|exact Hspec].
        apply Hr'; [lia|now left|]. intros j [= <-] _. lia.
      * exists s', a', true, A'. split; [reflexivity|]. split; [|exact Hspec]. apply Same. intros j [= <-] _. lia.
    + exists s', a', false, A'. split; [reflexivity|]. split; [|exact Hspec]. apply Same. discriminate.
Qed.

(** ** Defining an index in fast mode *)

Lemma value_not_empty v : value_ok h v -> isEmpty v = false.
Proof.
  intros [_ Hv]. destruct (isEmpty v) eqn:E; [|reflexivity]. unfold isEmpty in E. Zbool. subst v.
  unfold denote in Hv. change (isNumber ValueEmpty) with false in Hv. change (isPointerValue ValueEmpty) with true in Hv.
  change ValueEmpty with 0 in Hv. cbn in Hv. rewrite null_free in Hv. now destruct Hv.
Qed.

(** Writing a cell. *)
Lemma put_cell_represents s a A d i v : represents s a A -> m_fastModeData a = Some d -> 0 <= i < spec_length A ->
  isEmpty v = true \/ value_ok h v ->
  exists d', put_cell d i v = Ok d' /\ represents s (with_data a (Some d'))
    (with_elements A (if isEmpty v then delete i (elements A) else <[i := plain v]> (elements A))).
Proof.
  intros (Hs & Ho & Hlen & L & HL & Hnl & Hd & Hm & ->) Ed Hi Hv. unfold mode_ok in Hm. rewrite Ed in Hm. cbn in Hi.
  destruct Hm as ((Hl & Hcells & Hcap) & Hel & Hx). unfold put_cell.
  destruct (length d <=? Z.to_nat i)%nat eqn:E; [apply Nat.leb_le in E; lia|]. eexists. split; [reflexivity|].
  assert (forall j, 0 <= j -> (<[Z.to_nat i := Some v]> d) !! Z.to_nat j = if decide (i = j) then Some (Some v) else d !! Z.to_nat j) as Look.
  { intros j Hj. destruct (decide (i = j)) as [->|Nj]; [apply list_lookup_insert_eq; lia|apply list_lookup_insert_ne; lia]. }
  split; [assumption|]. split; [assumption|]. split; [assumption|]. exists L. split; [assumption|]. split; [assumption|].
  split; [assumption|]. split.
  - unfold mode_ok. cbn. split; [|now split]. unfold buffer_ok. cbn. rewrite length_insert. split; [assumption|]. split; [|assumption].
    intros j Hj. rewrite Look by lia. destruct (decide (i = j)); [eauto|now apply Hcells].
  - unfold abstraction, with_elements, elements_at. cbn. rewrite Ed. f_equal. apply map_eq. intros j. rewrite data_lookup.
    assert ((if isEmpty v then delete i (elements_of_data 0 (take (Z.to_nat (m_arrayLength a)) d))
             else <[i:=plain v]> (elements_of_data 0 (take (Z.to_nat (m_arrayLength a)) d))) !! j =
      if decide (i = j) then (if isEmpty v then None else Some (plain v))
      else elements_of_data 0 (take (Z.to_nat (m_arrayLength a)) d) !! j) as ->.
    { destruct (decide (i = j)) as [->|Nj], (isEmpty v);
        [apply lookup_delete_eq|apply lookup_insert_eq|now apply lookup_delete_ne|now apply lookup_insert_ne]. }
    rewrite data_lookup. destruct ((0 <=? j) && (j <? m_arrayLength a)) eqn:Ej.
    + apply andb_true_iff in Ej as [E1 E2]. Zbool. rewrite Look by lia. now destruct (decide (i = j)).
    + destruct (decide (i = j)) as [->|]; [|reflexivity].
      apply andb_false_iff in Ej as [E1|E1]; Zbool; lia.
Qed.

(** Requests that the buffer can express. *)
Lemma full_request desc : isDataWritableEnumerableConfigurable desc = true ->
  create_property (fields_of desc) = plain (value desc) /\ forall v, change_property (fields_of desc) (plain v) = plain (value desc).
Proof.
  unfold isDataWritableEnumerableConfigurable. rewrite !andb_true_iff. intros ((((Hk & Hv) & Hw) & He) & Hc).
  unfold create_property, change_property, IsAccessorDescriptor, fields_of. cbn. rewrite Hk, Hv. cbn.
  rewrite (isWritable_present _ Hw), (isConfigurable_present _ Hc), Hw, Hc.
  assert (isEnumerablePresent desc = true) as -> by (revert He; descriptor_bits; intros ->; reflexivity). now rewrite He.
Qed.
Lemma value_request desc : isValuePresentAlone desc = true -> descriptor_ok h desc -> forall v,
  change_property (fields_of desc) (plain v) = plain (value desc).
Proof.
  unfold isValuePresentAlone, descriptor_ok. intros E Hd v. Zbool. unfold change_property, IsAccessorDescriptor, fields_of,
    isDataProperty, isValuePresent, isWritablePresent, isEnumerablePresent, isConfigurablePresent, either, bit. rewrite E. cbn.
  destruct (m_union desc); destruct Hd as [-> Hd]; [reflexivity|]. destruct Hd as (_ & _ & Hd).
  unfold isDataDescriptor, isValuePresent, bit in Hd. rewrite E in Hd. discriminate.
Qed.

Notation define_fast := (define_fast h natives uint_name alloc_native self prototypes string_to_index).
Notation defines A k D := (ArrayDefine SameValue toNumberSlowCase length_key A k D).

(** The buffer answers, or nothing was decided: the elements are properties now,
    or the length may not change, or the array has grown in front of the
    definition. *)
Definition fast_outcome (s : St) (a : Array) (done : bool) (A : SpecArray) (k : option Key) (D : Fields) (i : Z) : Prop :=
  if done then exists A', represents s a A' /\ defines A k D (Ok (true, A'))
  else (represents s a A /\ m_fastModeData a = None)
    \/ (represents s a A /\ spec_length A <= i /\ lengthWritable A = false)
    \/ (m_fastModeData a = None /\ spec_length A <= i /\ lengthWritable A = true /\ extensible A = true /\
        represents s a (with_spec_length A (i + 1) (lengthWritable A))).

Lemma fast_convert s a A k D i : represents s a A ->
  exists s' a', ('(s, a) ← convertIntoNonFastMode s a; Ok (s, a, false)) = Ok (s', a', false) /\ fast_outcome s' a' false A k D i.
Proof.
  intros Hr. destruct (leave_fast_mode_ok s a A Hr) as (s' & a' & -> & Hr' & Ed'). exists s', a'. split; [reflexivity|]. now left.
Qed.

(** The cell of an index below the length, and what is written there. *)
Lemma fast_put s a A d P desc i : represents s a A -> m_fastModeData a = Some d -> pkey P <> length_key ->
  array_index (pkey P) = Some i -> 0 <= i < spec_length A -> value_ok h (value desc) ->
  ValidateAndApply SameValue (extensible A) (fields_of desc) (elements A !! i) = Some (plain (value desc)) ->
  exists s' a', (d ← put_cell d i (value desc); Ok (s, with_data a (Some d), true)) = Ok (s', a', true) /\
    fast_outcome s' a' true A (pkey P) (fields_of desc) i.
Proof.
  intros Hr Ed Nk Ea Hi Hv Hval.
  destruct (put_cell_represents s a A d i (value desc) Hr Ed Hi (or_intror Hv)) as (d' & -> & Hr').
  rewrite value_not_empty in Hr' by assumption. cbn [mbind result_bind]. exists s, (with_data a (Some d')). split; [reflexivity|].
  eexists. split; [exact Hr'|].
  pose proof (Define_index SameValue toNumberSlowCase length_key A (pkey P) (fields_of desc) i true
    (with_elements A (<[i:=plain (value desc)]> (elements A))) Nk Ea ltac:(lia)) as Hspec.
  rewrite (proj2 (Z.leb_gt (spec_length A) i)) in Hspec by lia. apply Hspec.
  unfold OrdinaryDefine. rewrite (spec_get_index A _ i), Hval by assumption. now rewrite (spec_put_index _ _ i).
Qed.

(** Growing by the index, and writing it. *)
Lemma fast_grow fuel s a A P desc i : represents s a A -> m_isExtensible (a_object a) = true -> isFastModeArray a = true ->
  pkey P <> length_key -> array_index (pkey P) = Some i -> spec_length A <= i < N -> value_ok h (value desc) ->
  isDataWritableEnumerableConfigurable desc = true ->
  exists s' a' done, ('(s, a, b) ← setArrayLength fuel s a (u32 (i + 1)) false true;
      match m_fastModeData a with
      | Some d => if (b : bool) then d ← put_cell d i (value desc); Ok (s, with_data a (Some d), true) else Ok (s, a, false)
      | None => Ok (s, a, false)
      end) = Ok (s', a', done) /\ fast_outcome s' a' done A (pkey P) (fields_of desc) i.
Proof.
  intros Hr Hx Hfast Nk Ea Hi Hv Hfull. destruct (represents_bound s a A Hr) as (El & Hlen & Ew & Ex & Hb).
  assert (u32 (i + 1) = i + 1) as -> by (apply wrapu_id; unfold in_u; lia).
  destruct (lengthWritable A) eqn:Ewr.
  2: { rewrite set_refused by (congruence || lia). cbn [mbind result_bind]. exists s, a, false.
    split; [now destruct (m_fastModeData a)|]. right. left. split; [assumption|]. split; [lia|assumption]. }
  destruct (set_grow fuel s a A (i + 1) false true Hr ltac:(lia) Ewr) as (s' & a' & -> & Hr'). cbn [mbind result_bind].
  destruct (m_fastModeData a') as [d|] eqn:Ed.
  - destruct (put_cell_represents s' a' _ d i (value desc) Hr' Ed) as (d' & -> & Hr2); [cbn; lia|now right|].
    rewrite value_not_empty in Hr2 by assumption. cbn [mbind result_bind]. exists s', (with_data a' (Some d')), true.
    split; [reflexivity|]. eexists. split; [exact Hr2|].
    pose proof (Define_index SameValue toNumberSlowCase length_key A (pkey P) (fields_of desc) i true
      (with_elements A (<[i:=plain (value desc)]> (elements A))) Nk Ea (or_intror Ewr)) as Hspec.
    rewrite (proj2 (Z.leb_le (spec_length A) i)) in Hspec by lia. apply Hspec.
    unfold OrdinaryDefine. rewrite (spec_get_index A _ i) by assumption.
    destruct (elements A !! i) as [p|] eqn:Ep; [specialize (Hb i p Ep); lia|]. rewrite Ex, Hx. cbn [ValidateAndApply].
    rewrite (proj1 (full_request desc Hfull)). now rewrite (spec_put_index _ _ i).
  - exists s', a', false. split; [reflexivity|]. right. right. rewrite Ex. rewrite Ewr in *. split_and!; auto; lia.
Qed.

Lemma define_fast_ok fuel s a A d P desc i : represents s a A -> m_fastModeData a = Some d -> pkey P <> length_key ->
  array_index (pkey P) = Some i -> i < N -> descriptor_ok h desc ->
  exists s' a' done, define_fast fuel s a d i desc = Ok (s', a', done) /\ fast_outcome s' a' done A (pkey P) (fields_of desc) i.
Proof.
  intros Hr Ed Nk Ea Hi Hd. destruct (represents_bound s a A Hr) as (El & Hlen & Ew & Ex & Hb).
  destruct (fast_elements s a A d Hr Ed) as [Hx Hcells]. pose proof (array_index_range _ _ Ea) as Hrange.
  unfold Arrays.define_fast. rewrite <- El.
  assert (isValuePresent desc = true -> (isValuePresentAlone desc = true \/ isDataWritableEnumerableConfigurable desc = true) -> value_ok h (value desc)) as Hval.
  { intros Hp Hor. assert (isDataProperty desc = true) as Hk.
    { destruct (isDataProperty desc) eqn:E; [reflexivity|].
      destruct (accessor_request h desc Hd E) as (_ & _ & _ & _ & _ & _ & F). congruence. }
    now apply (data_request h desc Hd Hk). }
  destruct (fast_convert s a A (pkey P) (fields_of desc) i Hr) as (sc & ac & Ec & Hc).
  destruct (i <? spec_length A) eqn:Eil; Zbool.
  - destruct (Hcells i ltac:(lia)) as (v & Ev & Hv). unfold cell. rewrite (proj2 (Z.ltb_ge i 0)), Ev by lia.
    cbn [defined mbind result_bind andb]. rewrite (proj2 (Z.leb_gt (spec_length A) i)) by lia.
    destruct (isValuePresent desc) eqn:Ep; [|rewrite orb_true_r; exists sc, ac, false; now split].
    cbn [negb]. rewrite orb_false_r. destruct Hv as [[Eempty Hel]|(Eempty & Hvok & Hel)]; rewrite Eempty; cbn [negb].
    + destruct (isDataWritableEnumerableConfigurable desc) eqn:Ef; cbn [negb]; [|exists sc, ac, false; now split].
      destruct (fast_put s a A d P desc i Hr Ed Nk Ea ltac:(lia) ltac:(auto)) as (s' & a' & E & Ho).
      { rewrite Hel, Hx. cbn. now rewrite (proj1 (full_request desc Ef)). }
      exists s', a', true. now split.
    + destruct (isValuePresentAlone desc || isDataWritableEnumerableConfigurable desc) eqn:Ef; cbn [negb];
        [|exists sc, ac, false; now split].
      apply orb_true_iff in Ef. destruct (fast_put s a A d P desc i Hr Ed Nk Ea ltac:(lia) ltac:(auto)) as (s' & a' & E & Ho).
      { rewrite Hel. cbn [ValidateAndApply plain configurable orb]. f_equal.
        destruct Ef as [Ef|Ef]; [now apply value_request|now apply full_request]. }
      exists s', a', true. now split.
  - cbn [andb mbind result_bind]. rewrite (proj2 (Z.leb_le (spec_length A) i)) by lia. 
    destruct (isDataWritableEnumerableConfigurable desc) eqn:Ef; cbn [negb orb]; [|exists sc, ac, false; now split].
    destruct (isValuePresent desc) eqn:Ep; cbn [negb]; [|exists sc, ac, false; now split].
    rewrite <- Ex, Hx. cbn [negb]. apply (fast_grow fuel s a A P desc i); auto; try lia; try congruence.
    unfold isFastModeArray. now rewrite Ed.
Qed.

(** ** Defining the length *)

Lemma length_value n : in_u 32 n -> isNumber (Value_unsigned n) = true /\ asNumber (Value_unsigned n) = of_Z n.
Proof.
  intros Hn. unfold Value_unsigned, in_u in *. destruct (Z.lt_ge_cases n (2 ^ 31)) as [Hlt|Hge].
  - assert (i32 n = n) as -> by (apply wraps_id; [lia|unfold in_s; lia]). rewrite (proj2 (Z.ltb_ge n 0)) by lia.
    split; [apply isInt32_isNumber, isInt32_Value_int|]. apply asNumber_Value_int. unfold in_s. lia.
  - assert (i32 n = n - 2 ^ 32) as ->.
    { apply wraps_unique; [lia|unfold in_s; lia|]. replace (n - (n - 2 ^ 32)) with (1 * 2 ^ 32) by lia. apply Z.mod_mul. lia. }
    rewrite (proj2 (Z.ltb_lt _ 0)) by lia.
    pose proof (of_Z_finite n ltac:(lia)) as Hf. pose proof (of_Z_u64 n) as Hu. pose proof (of_Z_sign n) as Hsg.
    rewrite (proj2 (Z.ltb_ge n 0)) in Hsg by lia.
    destruct (encode_double (of_Z n)) as (_ & _ & Hnum & Hint & Hd).
    { unfold DoubleInvalidBeginning. unfold is_finite, INF, mag, sign_bit in *. Zbool. unfold in_u in Hu. lia. }
    split; [assumption|]. unfold asNumber. now rewrite Hint.
Qed.

Lemma SameValue_length m n : in_u 32 m -> in_u 32 n -> SameValue (Value_unsigned m) (Value_unsigned n) = (m =? n).
Proof.
  intros Hm Hn. destruct (length_value m Hm) as [Nm Em]. destruct (length_value n Hn) as [Nn En]. unfold in_u in *.
  unfold Denotation.SameValue. rewrite !EncodedFacts.denote_number, Em, En by assumption.
  unfold js_sameValue, js_equal, number_sameValue. rewrite (is_finite_nan (of_Z m)) by (apply of_Z_finite; lia). cbn [andb orb].
  destruct (m =? n) eqn:E; Zbool; [subst; apply Z.eqb_refl|]. apply Z.eqb_neq. intros F.
  pose proof (feq_of_Z m n ltac:(lia) ltac:(lia)) as G. rewrite F, feq_refl in G.
  rewrite (is_finite_nan (of_Z n)) in G by (apply of_Z_finite; lia). cbn in G. symmetry in G. apply Z.eqb_eq in G. congruence.
Qed.

Notation not_writable_request desc := (isWritablePresent desc && negb (isWritable desc)).

(** OrdinaryDefineOwnProperty for [length], with another value and attribute
    put in the request. *)
Lemma define_length_spec A desc fv fw n : descriptor_ok h desc ->
  OrdinaryDefineLength SameValue A (mkFields fv fw (f_get (fields_of desc)) (f_set (fields_of desc))
    (f_enumerable (fields_of desc)) (f_configurable (fields_of desc))) n =
  if isConfigurablePresent desc && isConfigurable desc then (false, A)
  else if isEnumerablePresent desc && isEnumerable desc then (false, A)
  else if isAccessorDescriptor desc then (false, A)
  else if lengthWritable A || (negb (default false fw) && agrees SameValue fv (Value_unsigned (spec_length A)))
  then (true, with_spec_length A n (default (lengthWritable A) fw)) else (false, A).
Proof.
  intros Hd. unfold OrdinaryDefineLength, ValidateAndApply, length_property, allowed, change_property. cbn [configurable enumerable orb].
  assert (IsAccessorDescriptor (mkFields fv fw (f_get (fields_of desc)) (f_set (fields_of desc)) (f_enumerable (fields_of desc))
    (f_configurable (fields_of desc))) = isAccessorDescriptor desc) as ->.
  { change (IsAccessorDescriptor (fields_of desc) = isAccessorDescriptor desc). unfold isAccessorDescriptor.
    destruct (isDataProperty desc) eqn:E; unfold isDataProperty in E; rewrite E; cbn [negb].
    - now apply (data_request h desc Hd).
    - now apply (accessor_request h desc Hd). }
  cbn [f_value f_writable f_enumerable f_configurable fields_of].
  destruct (isConfigurablePresent desc), (isConfigurable desc); cbn [andb negb default from_option]; try reflexivity;
    (destruct (isEnumerablePresent desc), (isEnumerable desc); cbn [andb negb eqb]; try reflexivity);
    (destruct (isAccessorDescriptor desc); cbn [andb negb]; try reflexivity);
    destruct (lengthWritable A || _); reflexivity.
Qed.

Lemma freeze_represents s a A : represents s a A -> represents s (setLengthNotWritable a) (with_spec_length A (spec_length A) false).
Proof.
  intros (Hs & Ho & Hlen & L & HL & Hnl & Hd & Hm & ->). split; [assumption|]. split; [assumption|]. split; [assumption|].
  exists L. split; [assumption|]. split; [assumption|]. split; [assumption|]. split; [|reflexivity].
  unfold mode_ok, buffer_ok in *. cbn. destruct (m_fastModeData a) as [d|]; [|assumption].
  destruct Hm as ((Hl & Hc & Hcap) & Hel & Hx). split; [|now split]. split; [assumption|]. split; [assumption|].
  unfold ensureRareData. destruct (m_rareData a); [exact Hcap|]. cbn. lia.
Qed.

Definition finished (a : Array) (desc : ObjectPropertyDescriptor) : Array :=
  if not_writable_request desc then setLengthNotWritable a else a.
Lemma finished_represents s a A desc w : represents s a A ->
  w = (if not_writable_request desc then false else lengthWritable A) ->
  represents s (finished a desc) (with_spec_length A (spec_length A) w).
Proof.
  intros Hr ->. unfold finished. destruct (not_writable_request desc); [now apply freeze_represents|].
  now rewrite with_spec_length_id.
Qed.
Lemma requested_writable desc w : w || negb (isWritable desc) = true ->
  default w (f_writable (fields_of desc)) = if not_writable_request desc then false else w.
Proof.
  unfold fields_of. cbn. intros Hw. destruct (isWritable desc) eqn:E.
  - rewrite (isWritable_present desc E). cbn. rewrite orb_false_r in Hw. now rewrite Hw.
  - now destruct (isWritablePresent desc).
Qed.

(** A run of the code is one of the specification; it neither goes wrong nor
    runs out of fuel. *)
Definition outcome (x : result (St * Array * bool)) (spec : result (bool * SpecArray) -> Prop) : Prop :=
  match x with
  | Ok (s, a, b) => exists A', represents s a A' /\ spec (Ok (b, A'))
  | Throw e => spec (Throw e)
  | Undefined => False
  end.
Lemma outcome_mono x (P Q : result (bool * SpecArray) -> Prop) : (forall r, P r -> Q r) -> outcome x P -> outcome x Q.
Proof. intros HPQ. destruct x as [[[s a] b]|e|]; cbn; [intros (A' & Hr & HP); eauto|auto|auto]. Qed.

(** The request of a descriptor for [length], with the number of its value. *)
Definition length_request (desc : ObjectPropertyDescriptor) (fv : option Z) : Fields :=
  mkFields fv (f_writable (fields_of desc)) (f_get (fields_of desc)) (f_set (fields_of desc))
    (f_enumerable (fields_of desc)) (f_configurable (fields_of desc)).

(** The guards in front of a change of the length. *)
Definition guarded (s : St) (a : Array) (desc : ObjectPropertyDescriptor) (k : result (St * Array * bool)) : result (St * Array * bool) :=
  if isConfigurablePresent desc && isConfigurable desc then Ok (s, a, false)
  else if isEnumerablePresent desc && isEnumerable desc then Ok (s, a, false)
  else if isAccessorDescriptor desc then Ok (s, a, false)
  else if negb (isLengthPropertyWritable a) && isWritable desc then Ok (s, a, false)
  else k.

Lemma guarded_outcome s a A desc k (spec : result (bool * SpecArray) -> Prop) fv fw n : represents s a A -> descriptor_ok h desc ->
  (forall r, r = Ok (OrdinaryDefineLength SameValue A (mkFields fv fw (f_get (fields_of desc)) (f_set (fields_of desc))
    (f_enumerable (fields_of desc)) (f_configurable (fields_of desc))) n) -> r = Ok (false, A) -> spec r) ->
  (lengthWritable A = false -> isWritable desc = true -> spec (Ok (false, A))) ->
  (lengthWritable A || negb (isWritable desc) = true ->
   OrdinaryDefineLength SameValue A (mkFields fv fw (f_get (fields_of desc)) (f_set (fields_of desc))
    (f_enumerable (fields_of desc)) (f_configurable (fields_of desc))) n =
     (if lengthWritable A || (negb (default false fw) && agrees SameValue fv (Value_unsigned (spec_length A)))
      then (true, with_spec_length A n (default (lengthWritable A) fw)) else (false, A)) ->
   outcome k spec) ->
  outcome (guarded s a desc k) spec.
Proof.
  intros Hr Hd Hno Hro Hk. destruct (represents_bound s a A Hr) as (_ & _ & Ew & _).
  rewrite (define_length_spec A desc fv fw n Hd) in Hno, Hk. unfold guarded.
  destruct (isConfigurablePresent desc && isConfigurable desc); [exists A; auto|].
  destruct (isEnumerablePresent desc && isEnumerable desc); [exists A; auto|].
  destruct (isAccessorDescriptor desc); [exists A; auto|]. rewrite <- Ew.
  destruct (lengthWritable A), (isWritable desc); cbn in *; auto. exists A. auto.
Qed.

Lemma length_kept s a A desc fv : represents s a A -> descriptor_ok h desc ->
  agrees SameValue fv (Value_unsigned (spec_length A)) = true ->
  outcome (guarded s a desc (Ok (s, finished a desc, true)))
    (fun r => r = Ok (OrdinaryDefineLength SameValue A (length_request desc fv) (spec_length A))).
Proof.
  intros Hr Hd Hag. apply (guarded_outcome s a A desc _ _ fv (f_writable (fields_of desc)) (spec_length A) Hr Hd).
  - auto.
  - intros Hw Hwd. unfold length_request. rewrite define_length_spec by assumption. rewrite Hw, writable_field, Hwd. cbn.
    now destruct (isConfigurablePresent desc && isConfigurable desc), (isEnumerablePresent desc && isEnumerable desc), (isAccessorDescriptor desc).
  - intros Hor E. unfold length_request. rewrite E, writable_field, Hag, andb_true_r, Hor.
    eexists. split; [|reflexivity]. apply finished_represents; [assumption|]. now apply requested_writable.
Qed.

Lemma length_grown fuel s a A desc n : represents s a A -> descriptor_ok h desc -> spec_length A < n <= N ->
  outcome (if negb (isLengthPropertyWritable a) then Ok (s, a, false)
           else guarded s a desc ('(s, a, b) ← setArrayLength fuel s a n false true;
                                  if (b : bool) then Ok (s, finished a desc, true) else Ok (s, a, false)))
    (fun r => r = Ok (OrdinaryDefineLength SameValue A (length_request desc (Some (Value_unsigned n))) n)).
Proof.
  intros Hr Hd Hn. destruct (represents_bound s a A Hr) as (_ & Hlen & Ew & _). rewrite <- Ew.
  destruct (lengthWritable A) eqn:Ewr; cbn [negb].
  - apply (guarded_outcome s a A desc _ _ (Some (Value_unsigned n)) (f_writable (fields_of desc)) n Hr Hd); [auto|congruence|].
    intros Hor E. unfold length_request. rewrite Ewr in Hor, E. rewrite E. cbn [orb]. rewrite requested_writable by assumption.
    destruct (set_grow fuel s a A n false true Hr Hn Ewr) as (s' & a' & -> & Hr'). cbn [mbind result_bind].
    eexists. split; [apply (finished_represents _ _ _ desc _ Hr' eq_refl)|]. cbn. now rewrite Ewr.
  - exists A. split; [assumption|]. unfold length_request. rewrite define_length_spec by assumption. rewrite Ewr. cbn [orb agrees].
    rewrite SameValue_length, (proj2 (Z.eqb_neq n _)), andb_false_r by (unfold in_u; lia).
    now destruct (isConfigurablePresent desc && isConfigurable desc), (isEnumerablePresent desc && isEnumerable desc), (isAccessorDescriptor desc).
Qed.

Lemma not_writable_field desc : not_writable (fields_of desc) = not_writable_request desc.
Proof. unfold not_writable, fields_of. cbn. now destruct (isWritablePresent desc), (isWritable desc). Qed.

Lemma length_shrunk fuel s a A desc v n : represents s a A -> descriptor_ok h desc ->
  f_value (fields_of desc) = Some v -> n = toUint32 toNumberSlowCase v ->
  feq (of_Z n) (toNumber toNumberSlowCase v) = true -> 0 <= n < spec_length A -> (Z.to_nat (spec_length A - n) <= fuel)%nat ->
  outcome (if negb (isLengthPropertyWritable a) then Ok (s, a, false)
           else guarded s a desc (setArrayLength fuel s (finished a desc) n false true))
    (ArraySetLength SameValue toNumberSlowCase A (fields_of desc)).
Proof.
  intros Hr Hd Hv En Hfeq Hn Hf. destruct (represents_bound s a A Hr) as (_ & Hlen & Ew & _). rewrite <- Ew.
  destruct (lengthWritable A) eqn:Ewr; cbn [negb].
  2: { exists A. split; [assumption|]. apply (SetLength_readonly _ _ A _ v n); auto. lia. }
  apply (guarded_outcome s a A desc _ _ (Some (Value_unsigned n)) (if not_writable (fields_of desc) then Some true else f_writable (fields_of desc)) n Hr Hd).
  - intros r E ->. eapply (SetLength_refused _ _ A _ v n); eauto; [lia|]. injection E as E. exact (f_equal fst (eq_sym E)).
  - congruence.
  - intros _ E. rewrite Ewr in E. cbn [orb] in E.
    pose proof (finished_represents s a A desc _ Hr eq_refl) as Hr0. set (A0 := with_spec_length A _ _) in Hr0.
    destruct (set_shrink fuel s (finished a desc) A0 n false true Hr0 ltac:(cbn; lia) Hf) as (s' & a' & stop & -> & Hst & Hr').
    exists (resized A0 stop). split; [assumption|].
    assert (resized A0 stop = with_spec_length (with_elements A (below (elements A) stop)) stop (negb (not_writable (fields_of desc)))) as ->.
    { unfold resized, A0, with_spec_length, with_elements. cbn [spec_length lengthWritable elements named extensible].
      rewrite Ewr, not_writable_field. now destruct (not_writable_request desc). }
    refine (SetLength_shrink _ _ A _ v n _ stop Hv En Hfeq ltac:(lia) Ewr eq_refl _ Hst). exact (f_equal fst E).
Qed.

Notation define_length := (define_length h natives uint_name alloc_native toNumberSlowCase self prototypes string_to_index).

Lemma define_length_ok fuel s a A desc : represents s a A -> descriptor_ok h desc ->
  (isValuePresent desc = true -> toUint32 toNumberSlowCase (value desc) <= N) -> (Z.to_nat (spec_length A) <= fuel)%nat ->
  outcome (define_length fuel s a desc) (ArraySetLength SameValue toNumberSlowCase A (fields_of desc)).
Proof.
  intros Hr Hd Hbound Hf. destruct (represents_bound s a A Hr) as (El & Hlen & Ew & _). unfold Arrays.define_length.
  assert (forall fv, length_request desc fv = mkFields fv (f_writable (fields_of desc)) (f_get (fields_of desc)) (f_set (fields_of desc))
    (f_enumerable (fields_of desc)) (f_configurable (fields_of desc))) as Hreq by reflexivity.
  destruct (isValuePresent desc) eqn:Ep.
  - assert (isDataProperty desc = true) as Hk.
    { destruct (isDataProperty desc) eqn:E; [reflexivity|].
      destruct (accessor_request h desc Hd E) as (_ & _ & _ & _ & _ & _ & F). congruence. }
    assert (f_value (fields_of desc) = Some (value desc)) as Hfv by (unfold fields_of; cbn; now rewrite Hk, Ep).
    specialize (Hbound eq_refl). set (n := toUint32 toNumberSlowCase (value desc)) in *.
    assert (in_u 32 n) as Hn by (apply wrapu_range; lia).
    destruct (feq (of_Z n) (toNumber toNumberSlowCase (value desc))) eqn:Efeq; cbn [negb mbind result_bind andb];
      [|now apply (SetLength_range _ _ A _ (value desc))].
    rewrite <- El. destruct (spec_length A =? n) eqn:E; cbn [negb]; Zbool.
    + rewrite andb_false_r. cbn [andb].
      eapply outcome_mono; [|exact (length_kept s a A desc (Some (Value_unsigned n)) Hr Hd ltac:(cbn; rewrite E, SameValue_length, Z.eqb_refl; auto))].
      cbn beta. intros r ->. rewrite E. eapply (SetLength_grow _ _ A _ (value desc) n); eauto. lia.
    + rewrite andb_true_r. destruct (spec_length A <? n) eqn:Eg; Zbool.
      * eapply outcome_mono; [|exact (length_grown fuel s a A desc n Hr Hd ltac:(lia))].
        cbn beta. intros r ->. eapply (SetLength_grow _ _ A _ (value desc) n); eauto. lia.
      * unfold in_u in Hn. exact (length_shrunk fuel s a A desc (value desc) n Hr Hd Hfv eq_refl Efeq ltac:(lia) ltac:(lia)).
  - cbn [mbind result_bind andb]. rewrite andb_false_r.
    eapply outcome_mono; [|exact (length_kept s a A desc None Hr Hd eq_refl)]. cbn beta. intros r ->.
    assert (f_value (fields_of desc) = None) as Hfv by (unfold fields_of; cbn; now rewrite Ep, andb_false_r).
    assert (length_request desc None = fields_of desc) as -> by (unfold length_request; rewrite <- Hfv; reflexivity).
    now apply SetLength_no_value.
Qed.

(** ** The internal methods *)

Lemma slow_after_growth A k D i b A' : k <> length_key -> array_index k = Some i -> spec_length A <= i ->
  lengthWritable A = true -> extensible A = true -> elements A !! i = None ->
  defines (with_spec_length A (i + 1) (lengthWritable A)) k D (Ok (b, A')) -> defines A k D (Ok (b, A')).
Proof.
  intros Nk Ea Hi Hw Hx Hnone Hdef.
  inversion Hdef as [r F _|j _ Fj Fl Fw|j b' B _ Fj _ Fd E|_ Fn]; subst; [congruence| | |congruence];
    rewrite Ea in Fj; injection Fj as <-; cbn in *; [lia|].
  unfold OrdinaryDefine in Fd. rewrite (spec_get_index _ _ i) in Fd by assumption. cbn in Fd. rewrite Hnone, Hx in Fd. cbn in Fd.
  injection Fd as <- <-. rewrite (spec_put_index _ _ i) by assumption. cbn [andb].
  rewrite (proj2 (Z.leb_gt (i + 1) i)) by lia. cbn.
  pose proof (Define_index SameValue toNumberSlowCase length_key A k D i true
    (with_elements A (<[i:=create_property D]> (elements A))) Nk Ea (or_intror Hw)) as Hspec.
  rewrite (proj2 (Z.leb_le (spec_length A) i) Hi) in Hspec. apply Hspec.
  unfold OrdinaryDefine. rewrite (spec_get_index A _ i), Hnone, Hx by assumption. cbn. now rewrite (spec_put_index _ _ i).
Qed.

Definition request_ok (P : ObjectPropertyName) (desc : ObjectPropertyDescriptor) : Prop :=
  P_ok P /\ descriptor_ok h desc /\ (forall i, array_index (pkey P) = Some i -> i < N) /\
  (pkey P = length_key -> isValuePresent desc = true -> toUint32 toNumberSlowCase (value desc) <= N).

Lemma array_define_ok fuel s a A P desc : represents s a A -> request_ok P desc -> (Z.to_nat N <= fuel)%nat ->
  outcome (array_defineOwnProperty h natives uint_name alloc_native length_name toNumberSlowCase self prototypes string_to_index fuel s a P desc)
    (defines A (pkey P) (fields_of desc)).
Proof.
  intros Hr (HP & Hd & Hindex & Hlength) Hf. destruct (represents_bound s a A Hr) as (El & Hlen & Ew & Ex & Hb).
  unfold array_defineOwnProperty. rewrite is_length_name_key by assumption. case_bool_decide as Ek.
  { eapply outcome_mono; [|apply (define_length_ok fuel s a A desc Hr Hd (Hlength Ek)); lia].
    intros r. now apply Define_length. }
  assert (forall s a, represents s a A -> m_fastModeData a = None \/ array_index (pkey P) = None ->
    outcome (define_slow fuel s a P (index_of h P) desc) (defines A (pkey P) (fields_of desc))) as Slow.
  { intros s1 a1 Hr1 Hmode. destruct (define_slow_ok fuel s1 a1 A P desc Hr1 HP Ek Hd Hmode Hindex) as (s' & a' & b & A' & -> & Hr' & Hs).
    now exists A'. }
  destruct (m_fastModeData a) as [d|] eqn:Ed; [|auto].
  destruct (index_of_key P HP) as [Ei Enone]. destruct (array_index (pkey P)) as [i|] eqn:Ea.
  2: { rewrite (proj1 Enone eq_refl), Z.eqb_refl. cbn [negb]. rewrite <- (proj1 Enone eq_refl). auto. }
  pose proof (array_index_range _ _ Ea) as Hrange. cbn in Ei.
  rewrite Ei, (proj2 (Z.eqb_neq i InvalidIndex32Value)) by (unfold InvalidIndex32Value; lia). cbn [negb].
  destruct (define_fast_ok fuel s a A d P desc i Hr Ed Ek Ea (Hindex i eq_refl) Hd) as (s' & a' & done & -> & Ho).
  cbn [mbind result_bind]. destruct done; [exact Ho|]. rewrite <- Ei. destruct Ho as [[Hr' Ed']|[(Hr' & Hi & Hw)|(Ed' & Hi & Hw & Hx & Hr')]].
  - auto.
  - destruct (represents_bound s' a' A Hr') as (El' & _ & Ew' & _). unfold Arrays.define_slow.
    rewrite Ei, (proj2 (Z.eqb_neq i InvalidIndex32Value)) by (unfold InvalidIndex32Value; lia).
    rewrite <- El', <- Ew', Hw, (proj2 (Z.leb_le _ _) Hi). cbn. exists A. split; [assumption|].
    now apply (Define_beyond _ _ _ _ _ _ i).
  - destruct (define_slow_ok fuel s' a' _ P desc Hr' HP Ek Hd (or_introl Ed')) as (s2 & a2 & b & A2 & -> & Hr2 & Hs); [now rewrite Ea|].
    exists A2. split; [assumption|]. apply (slow_after_growth A (pkey P) _ i); auto.
    destruct (elements A !! i) as [p|] eqn:Ep; [specialize (Hb i p Ep); lia|reflexivity].
Qed.

(** An index that the buffer covers; a name that it does not. *)
Lemma buffer_index P i A : P_ok P -> array_index (pkey P) = Some i ->
  negb (index_of h P =? InvalidIndex32Value) && (index_of h P <? spec_length A) = (i <? spec_length A) /\ index_of h P = i.
Proof.
  intros HP Ea. destruct (index_of_key P HP) as [Ei _]. rewrite Ea in Ei. cbn in Ei. rewrite Ei.
  pose proof (array_index_range _ _ Ea). now rewrite (proj2 (Z.eqb_neq i InvalidIndex32Value)) by (unfold InvalidIndex32Value; lia).
Qed.
Lemma buffer_no_index P n : P_ok P -> array_index (pkey P) = None ->
  negb (index_of h P =? InvalidIndex32Value) && (index_of h P <? n) = false.
Proof. intros HP Ea. rewrite (proj1 (proj2 (index_of_key P HP)) Ea). reflexivity. Qed.

Lemma array_getOwn_ok s a A P : represents s a A -> P_ok P ->
  exists s' r, array_getOwnProperty h natives uint_name length_name s a P = Ok (s', r) /\ represents s' a A /\
    got_as r (spec_get length_key A (pkey P)).
Proof.
  intros Hr HP. destruct (represents_bound s a A Hr) as (El & Hlen & Ew & Ex & Hb).
  unfold array_getOwnProperty, getVirtualValue. rewrite is_length_name_key by assumption. case_bool_decide as Ek.
  { cbn [mbind result_bind]. eexists s, _. split; [reflexivity|]. split; [assumption|]. unfold spec_get. rewrite decide_True by assumption.
    cbn. now rewrite El, Ew. }
  pose proof Hr as (Hs & Ho & _ & L & HL & Hnl & Hdist & Hm & EA).
  destruct (getOwn_ok h outside names natives uint_name uint_names s (a_object a) P L Hs Ho HL (proj1 HP)) as (s1 & r & E1 & Hs1 & Hsv & Hg).
  pose proof (represents_same s s1 a A Hr Hs1 Hsv) as Hr1.
  assert (find_key L (pkey P) = spec_get length_key A (pkey P) -> exists s' r,
    getOwnProperty natives uint_name s (a_object a) P = Ok (s', r) /\ represents s' a A /\ got_as r (spec_get length_key A (pkey P))) as Base.
  { intros E. exists s1, r. split; [assumption|]. split; [assumption|]. now rewrite <- E. }
  destruct (m_fastModeData a) as [d|] eqn:Ed.
  2: { apply Base. subst A. symmetry. now apply spec_get_slow. }
  destruct (array_index (pkey P)) as [i|] eqn:Ea.
  2: { rewrite buffer_no_index by assumption. apply Base. subst A. symmetry. now apply spec_get_named. }
  pose proof (array_index_range _ _ Ea) as Hrange. rewrite <- El.
  destruct (buffer_index P i A HP Ea) as [-> ->]. rewrite (spec_get_index A _ i) in * by assumption.
  assert (find_key L (pkey P) = None) as Hnone.
  { rewrite (find_element L _ i Ea). unfold mode_ok in Hm. rewrite Ed in Hm. destruct Hm as (_ & -> & _). apply lookup_empty. }
  destruct (i <? spec_length A) eqn:E; Zbool.
  - destruct (proj2 (fast_elements s a A d Hr Ed) i ltac:(lia)) as (v & Ev & Hv). unfold cell.
    rewrite (proj2 (Z.ltb_ge i 0)), Ev by lia. cbn [defined mbind result_bind]. destruct Hv as [[-> Hel]|(-> & _ & Hel)].
    + apply Base. congruence.
    + eexists s, _. split; [reflexivity|]. split; [assumption|]. now rewrite Hel.
  - apply Base. rewrite Hnone. destruct (elements A !! i) as [p|] eqn:Ep; [|reflexivity]. specialize (Hb i p Ep). lia.
Qed.

(** The properties of the object are those of the array, but for the elements in a buffer. *)
Lemma spec_get_object a L k : mode_ok a L -> find_key L length_key = None -> k <> length_key ->
  m_fastModeData a = None \/ array_index k = None \/ spec_get length_key (abstraction a L) k = None ->
  spec_get length_key (abstraction a L) k = find_key L k.
Proof.
  intros Hm Hnl Nk Hor. destruct (m_fastModeData a) as [d|] eqn:Ed; [|now apply spec_get_slow].
  destruct (array_index k) as [i|] eqn:Ea; [|now apply spec_get_named].
  destruct Hor as [E|[E|E]]; [discriminate..|rewrite E]. rewrite (find_element L k i Ea). unfold mode_ok in Hm. rewrite Ed in Hm.
  destruct Hm as (_ & -> & _). now rewrite lookup_empty.
Qed.

Lemma replace_object s' a o' L' : st_ok s' -> object_ok s' o' -> m_isExtensible o' = m_isExtensible (a_object a) ->
  0 <= m_arrayLength a <= N -> object_properties s' o' = Some L' -> find_key L' length_key = None -> mode_ok a L' ->
  represents s' (with_object a o') (abstraction a L').
Proof.
  intros Hs Ho Hx Hlen HL Hnl Hm. split; [assumption|]. split; [assumption|]. split; [assumption|].
  exists L'. split; [assumption|]. split; [assumption|]. split; [eauto using properties_distinct|]. split.
  - unfold mode_ok in *. cbn. now rewrite Hx.
  - unfold abstraction, elements_at. cbn. now rewrite Hx.
Qed.

Lemma delete_absent (L : list (option Key * Property)) k k' : k <> k' -> find_key (delete_key L k) k' = find_key L k'.
Proof.
  intros N'. induction L as [|[k0 q] L IH]; cbn; [reflexivity|].
  destruct (decide (k0 = k)) as [->|]; cbn; [now rewrite decide_False|].
  destruct (decide (k0 = k')); [reflexivity|exact IH].
Qed.

Lemma delete_slow_ok s a A P : represents s a A -> P_ok P -> pkey P <> length_key ->
  m_fastModeData a = None \/ array_index (pkey P) = None \/ spec_get length_key A (pkey P) = None ->
  exists s' a' b A', ('(s, o, b) ← deleteOwnProperty natives uint_name s (a_object a) P; Ok (s, with_object a o, b)) = Ok (s', a', b) /\
    represents s' a' A' /\ ArrayDelete length_key A (pkey P) = (b, A').
Proof.
  intros (Hs & Ho & Hlen & L & HL & Hnl & Hd & Hm & ->) HP Nk Hor.
  destruct (object_delete_ok h outside names natives uint_name uint_names s (a_object a) P L Hs Ho HL (proj1 HP))
    as (s1 & o1 & b1 & -> & Hs1 & Ho1 & _ & Hx1 & L1 & HL1 & Hdel). cbn [mbind result_bind].
  unfold ArrayDelete. pose proof (spec_get_object a L _ Hm Hnl Nk Hor) as Hget. rewrite Hget. exists s1, (with_object a o1), b1.
  destruct (find_key L (pkey P)) as [p|] eqn:Ef.
  2: { destruct Hdel as [-> ->]. eexists. split; [reflexivity|]. split; [|reflexivity]. now apply replace_object. }
  destruct Hdel as [-> ->]. destruct (configurable p); (eexists; split; [reflexivity|]; split; [|reflexivity]); [|now apply replace_object].
  pose proof (delete_absent L (pkey P) length_key Nk) as Hnl'. rewrite Hnl in Hnl'.
  destruct (array_index (pkey P)) as [i|] eqn:Ea.
  - destruct (m_fastModeData a) as [d|] eqn:Ed; [destruct Hor as [F|[F|F]]; congruence|].
    destruct (delete_element L _ i Ea Hd) as [De Dn].
    replace (with_elements (abstraction a L) (delete i (elements (abstraction a L)))) with (abstraction a (delete_key L (pkey P)))
      by (unfold abstraction, with_elements, elements_at; cbn; now rewrite Ed, De, Dn).
    apply replace_object; auto. unfold mode_ok in *. rewrite Ed in *. intros j q Hj. rewrite De in Hj.
    apply lookup_delete_Some in Hj as [_ Hj]. eauto.
  - destruct (delete_named L _ Ea) as [De Dn].
    replace (with_named (abstraction a L) (delete_key (named (abstraction a L)) (pkey P))) with (abstraction a (delete_key L (pkey P)))
      by (unfold abstraction, with_named, elements_at; cbn; now rewrite De, Dn).
    apply replace_object; auto. unfold mode_ok in *. now rewrite De.
Qed.

Lemma array_delete_ok s a A P : represents s a A -> P_ok P ->
  exists s' a' b A', array_deleteOwnProperty h natives uint_name length_name s a P = Ok (s', a', b) /\ represents s' a' A' /\
    ArrayDelete length_key A (pkey P) = (b, A').
Proof.
  intros Hr HP. destruct (represents_bound s a A Hr) as (El & Hlen & Ew & Ex & Hb).
  unfold array_deleteOwnProperty. rewrite is_length_name_key by assumption. case_bool_decide as Ek.
  { exists s, a, false, A. split; [reflexivity|]. split; [assumption|]. unfold ArrayDelete, spec_get. now rewrite decide_True by assumption. }
  destruct (m_fastModeData a) as [d|] eqn:Ed; [|apply delete_slow_ok; auto].
  destruct (array_index (pkey P)) as [i|] eqn:Ea; [|rewrite buffer_no_index by assumption; apply delete_slow_ok; auto].
  pose proof (array_index_range _ _ Ea) as Hrange. rewrite <- El. destruct (buffer_index P i A HP Ea) as [-> ->].
  destruct (i <? spec_length A) eqn:E; Zbool.
  - destruct (proj2 (fast_elements s a A d Hr Ed) i ltac:(lia)) as (v & Ev & Hv). unfold cell.
    rewrite (proj2 (Z.ltb_ge i 0)), Ev by lia. cbn [defined mbind result_bind].
    unfold ArrayDelete. rewrite (spec_get_index A _ i), Ea by assumption. destruct Hv as [[-> Hel]|(-> & _ & Hel)]; rewrite Hel.
    + exists s, a, true, A. now split_and!.
    + destruct (put_cell_represents s a A d i ValueEmpty Hr Ed ltac:(lia) (or_introl eq_refl)) as (d' & -> & Hr').
      cbn [mbind result_bind]. eexists _, _, _, _. split; [reflexivity|]. split; [exact Hr'|reflexivity].
  - apply delete_slow_ok; auto. right. right. rewrite (spec_get_index A _ i) by assumption.
    destruct (elements A !! i) as [p|] eqn:Ep; [specialize (Hb i p Ep); lia|reflexivity].
Qed.

Definition not_extensible (A : SpecArray) : SpecArray :=
  mkSpecArray (elements A) (named A) (spec_length A) (lengthWritable A) false.
Lemma array_preventExtensions_ok s a A : represents s a A ->
  exists s' a', array_preventExtensions h natives uint_name alloc_native self s a = Ok (s', a') /\ represents s' a' (not_extensible A).
Proof.
  intros Hr. unfold array_preventExtensions.
  destruct (leave_fast_mode_ok s a A Hr) as (s1 & a1 & -> & (Hs & Ho & Hlen & L & HL & Hnl & Hd & Hm & ->) & Ed). cbn [mbind result_bind].
  destruct (preventExtensions_ok h outside names natives s1 (a_object a1) L Hs Ho HL) as (s2 & o2 & -> & Hs2 & Ho2 & _ & Hx2 & HL2).
  cbn [mbind result_bind]. exists s2, (with_object a1 o2). split; [reflexivity|].
  split; [assumption|]. split; [assumption|]. split; [assumption|]. exists L. split; [assumption|]. split; [assumption|].
  split; [assumption|]. unfold mode_ok, abstraction, not_extensible, elements_at in *. cbn. rewrite Ed, Hx2 in *. now split.
Qed.

(** ** Appending, and assigning the length *)

Fixpoint add_elements (i : Z) (values : list Z) (e : gmap Z Property) : gmap Z Property :=
  match values with
  | [] => e
  | v :: values => add_elements (i + 1) values (<[i := plain v]> e)
  end.

Lemma put_cells_ok s values : forall a A d i, represents s a A -> m_fastModeData a = Some d -> 0 <= i ->
  i + Z.of_nat (length values) <= spec_length A -> Forall (value_ok h) values ->
  exists d', put_cells d i values = Ok d' /\
    represents s (with_data a (Some d')) (with_elements A (add_elements i values (elements A))).
Proof.
  induction values as [|v values IH]; intros a A d i Hr Ed Hi Hlen Hv; cbn [put_cells add_elements].
  - exists d. split; [reflexivity|]. replace (with_data a (Some d)) with a by (destruct a; cbn in *; now rewrite Ed).
    now replace (with_elements A (elements A)) with A by now destruct A.
  - cbn [length] in Hlen. apply Forall_cons in Hv as [Hv Hvs].
    destruct (put_cell_represents s a A d i v Hr Ed ltac:(lia) (or_intror Hv)) as (d1 & -> & Hr1).
    rewrite value_not_empty in Hr1 by assumption. cbn [mbind result_bind].
    destruct (IH _ _ d1 (i + 1) Hr1 eq_refl ltac:(lia)) as (d2 & E2 & Hr2); [cbn; lia|assumption|]. exists d2. split; [exact E2|exact Hr2].
Qed.

(** The values are all appended, or none is: the length may not grow, or it has
    grown and the array left the fast mode. *)
Lemma push_ok fuel s a A values : represents s a A -> isFastModeArray a = true -> values <> [] -> Forall (value_ok h) values ->
  spec_length A + Z.of_nat (length values) <= N ->
  exists s' a' b, pushIntoFastModeElements h natives uint_name alloc_native self prototypes string_to_index fuel s a values = Ok (s', a', b) /\
  if b then represents s' a' (with_spec_length (with_elements A (add_elements (spec_length A) values (elements A)))
                     (spec_length A + Z.of_nat (length values)) (lengthWritable A))
  else (lengthWritable A = false /\ represents s' a' A)
    \/ (m_fastModeData a' = None /\ represents s' a' (with_spec_length A (spec_length A + Z.of_nat (length values)) (lengthWritable A))).
Proof.
  intros Hr Hfast Hne Hv Hn. destruct (represents_bound s a A Hr) as (El & Hlen & Ew & Ex & Hb). unfold pushIntoFastModeElements.
  rewrite <- El. set (n := spec_length A + Z.of_nat (length values)) in *.
  assert (spec_length A < n) as Hlt by (subst n; destruct values; [congruence|cbn [length]; lia]).
  assert (u32 n = n) as -> by (apply wrapu_id; unfold in_u; lia).
  destruct (lengthWritable A) eqn:Ewr.
  2: { rewrite set_refused by (congruence || lia). cbn [mbind result_bind]. exists s, a, false.
    split; [now destruct (m_fastModeData a)|]. now left. }
  destruct (set_grow fuel s a A n false true Hr ltac:(lia) Ewr) as (s1 & a1 & -> & Hr1). cbn [mbind result_bind]. rewrite Ewr in Hr1.
  destruct (m_fastModeData a1) as [d|] eqn:Ed.
  - destruct (put_cells_ok s1 values a1 _ d (spec_length A) Hr1 Ed ltac:(lia)) as (d2 & -> & Hr2); [cbn; lia|assumption|].
    cbn [mbind result_bind]. eexists s1, _, true. split; [reflexivity|]. exact Hr2.
  - exists s1, a1, false. split; [reflexivity|]. now right.
Qed.

(** [a.length = n] in fast mode does not ask whether the length is writable when
    the array shrinks. *)
Lemma assigned_length fuel s a A v n : represents s a A -> isFastModeArray a = true -> isObject h v = false ->
  toUint32 toNumberSlowCase v = n -> feq (of_Z n) (toNumber toNumberSlowCase v) = true -> 0 <= n < spec_length A ->
  exists s' a', setArrayLength_value h natives uint_name alloc_native toNumberSlowCase self prototypes string_to_index fuel s a v = Ok (s', a', true) /\
    represents s' a' (resized A n).
Proof.
  intros Hr Hfast Hp En Hfeq Hn. destruct (represents_bound s a A Hr) as (El & Hlen & Ew & Ex & Hb).
  unfold setArrayLength_value. rewrite En, Hfeq, Hp. cbn [negb andb]. unfold isFastModeArray in Hfast. unfold Arrays.setArrayLength.
  rewrite <- El, (proj2 (Z.ltb_ge (spec_length A) n)), !andb_false_r by lia. cbn [andb mbind result_bind].
  destruct (m_fastModeData a) as [d|] eqn:Ed; [|discriminate]. rewrite <- El, (proj2 (Z.eqb_neq (spec_length A) n)) by lia.
  exact (resize_mode s a A d n true Hr Ed ltac:(lia)).
Qed.

(** ** Any sequence of operations *)

Inductive Request :=
  | ReadProperty (P : ObjectPropertyName)
  | DefineProperty (P : ObjectPropertyName) (desc : ObjectPropertyDescriptor)
  | DeleteProperty (P : ObjectPropertyName)
  | PreventExtensions.
Inductive Answer :=
  | AnswerProperty (r : option ObjectGetResult)
  | AnswerBool (b : bool)
  | AnswerThrow (e : exn).

(** An exception comes before the first change. *)
Definition perform (fuel : nat) (s : St) (a : Array) (t : Request) : result (St * Array * Answer) :=
  match t with
  | ReadProperty P =>
      '(s, r) ← array_getOwnProperty h natives uint_name length_name s a P; Ok (s, a, AnswerProperty r)
  | DefineProperty P desc =>
      match array_defineOwnProperty h natives uint_name alloc_native length_name toNumberSlowCase self prototypes string_to_index fuel s a P desc with
      | Ok (s, a, b) => Ok (s, a, AnswerBool b)
      | Throw e => Ok (s, a, AnswerThrow e)
      | Undefined => Undefined
      end
  | DeleteProperty P =>
      '(s, a, b) ← array_deleteOwnProperty h natives uint_name length_name s a P; Ok (s, a, AnswerBool b)
  | PreventExtensions =>
      '(s, a) ← array_preventExtensions h natives uint_name alloc_native self s a; Ok (s, a, AnswerBool true)
  end.
Fixpoint perform_all (fuel : nat) (s : St) (a : Array) (ts : list Request) : result (St * Array * list Answer) :=
  match ts with
  | [] => Ok (s, a, [])
  | t :: ts =>
      '(s, a, x) ← perform fuel s a t;
      '(s, a, xs) ← perform_all fuel s a ts;
      Ok (s, a, x :: xs)
  end.

(** The same requests to the array of the specification. *)
Inductive SpecPerforms (A : SpecArray) : Request -> Answer -> SpecArray -> Prop :=
  | Spec_read P r : got_as r (spec_get length_key A (pkey P)) -> SpecPerforms A (ReadProperty P) (AnswerProperty r) A
  | Spec_define P desc b A' : defines A (pkey P) (fields_of desc) (Ok (b, A')) ->
      SpecPerforms A (DefineProperty P desc) (AnswerBool b) A'
  | Spec_throw P desc e : defines A (pkey P) (fields_of desc) (Throw e) -> SpecPerforms A (DefineProperty P desc) (AnswerThrow e) A
  | Spec_delete P b A' : ArrayDelete length_key A (pkey P) = (b, A') -> SpecPerforms A (DeleteProperty P) (AnswerBool b) A'
  | Spec_preventExtensions : SpecPerforms A PreventExtensions (AnswerBool true) (not_extensible A).
Inductive SpecPerformsAll : SpecArray -> list Request -> list Answer -> SpecArray -> Prop :=
  | Spec_nil A : SpecPerformsAll A [] [] A
  | Spec_cons A A1 A2 t ts x xs : SpecPerforms A t x A1 -> SpecPerformsAll A1 ts xs A2 -> SpecPerformsAll A (t :: ts) (x :: xs) A2.

Definition performable (t : Request) : Prop :=
  match t with
  | ReadProperty P | DeleteProperty P => P_ok P
  | DefineProperty P desc => request_ok P desc
  | PreventExtensions => True
  end.

Lemma perform_ok fuel s a A t : represents s a A -> performable t -> (Z.to_nat N <= fuel)%nat ->
  exists s' a' x A', perform fuel s a t = Ok (s', a', x) /\ represents s' a' A' /\ SpecPerforms A t x A'.
Proof.
  intros Hr Ht Hf. destruct t as [P|P desc|P|]; cbn [perform performable] in *.
  - destruct (array_getOwn_ok s a A P Hr Ht) as (s' & r & -> & Hr' & Hg). cbn. eexists _, _, _, _. split; [reflexivity|].
    split; [exact Hr'|]. now constructor.
  - pose proof (array_define_ok fuel s a A P desc Hr Ht Hf) as Ho.
    destruct (array_defineOwnProperty _ _ _ _ _ _ _ _ _ _ _ _ _ _) as [[[s' a'] b]|e|]; [| |destruct Ho].
    + destruct Ho as (A' & Hr' & Hs). eexists _, _, _, _. split; [reflexivity|]. split; [exact Hr'|]. now constructor.
    + eexists _, _, _, _. split; [reflexivity|]. split; [exact Hr|]. now constructor.
  - destruct (array_delete_ok s a A P Hr Ht) as (s' & a' & b & A' & -> & Hr' & Hs). cbn. eexists _, _, _, _. split; [reflexivity|].
    split; [exact Hr'|]. now constructor.
  - destruct (array_preventExtensions_ok s a A Hr) as (s' & a' & -> & Hr'). cbn. eexists _, _, _, _. split; [reflexivity|].
    split; [exact Hr'|]. constructor.
Qed.

Lemma perform_all_ok fuel ts : (Z.to_nat N <= fuel)%nat -> Forall performable ts -> forall s a A, represents s a A ->
  exists s' a' xs A', perform_all fuel s a ts = Ok (s', a', xs) /\ represents s' a' A' /\ SpecPerformsAll A ts xs A'.
Proof.
  intros Hf Hts. induction Hts as [|t ts Ht _ IH]; intros s a A Hr; cbn [perform_all].
  - eexists _, _, _, _. split; [reflexivity|]. split; [exact Hr|constructor].
  - destruct (perform_ok fuel s a A t Hr Ht Hf) as (s1 & a1 & x & A1 & -> & Hr1 & Hs1). cbn [mbind result_bind].
    destruct (IH s1 a1 A1 Hr1) as (s2 & a2 & xs & A2 & -> & Hr2 & Hs2). cbn [mbind result_bind].
    eexists _, _, _, _. split; [reflexivity|]. split; [exact Hr2|]. now apply (Spec_cons A A1).
Qed.

End ArrayFacts.
End ArrayFacts.

(** * A sample: the strings length, 0 to 3 and a, interned *)
Module ArraySample.
Import Word Heap ValueSpec Names Structures StructureFacts PropertyDescriptor Objects Denotation PropertyList ObjectFacts
  Decimal DecimalFacts Arrays ArraySpec ElementFacts BufferFacts ArrayFacts.

Definition array_heap : heap :=
  list_to_map [(64, HString [108; 101; 110; 103; 116; 104]); (128, HString [48]); (192, HString [49]); (256, HString [50]);
               (320, HString [51]); (384, HString [97]); (1008, HObject)].
Definition array_names (n : Z) : Prop := n ∈ [65; 129; 193; 257; 321; 385].
Definition array_uint_name (i : Z) : Z := if (0 <=? i) && (i <? 4) then 129 + 64 * i else 0.
Definition array_store : Store := [create array_heap false 65 [] true].

#[export] Instance array_space : NameSpace array_heap array_names.
Proof.
  apply name_space.
  - intros n Hn. unfold array_names in Hn. repeat (apply elem_of_cons in Hn as [->|Hn]; [vm_compute; eauto|]). set_solver.
  - intros a b Ha Hb. unfold array_names in *.
    repeat (apply elem_of_cons in Ha as [->|Ha]; [repeat (apply elem_of_cons in Hb as [->|Hb]; [vm_compute; congruence|]); set_solver|]).
    set_solver.
  - intros a b Ha Hb. unfold array_names in *.
    repeat (apply elem_of_cons in Ha as [->|Ha]; [repeat (apply elem_of_cons in Hb as [->|Hb]; [vm_compute; congruence|]); set_solver|]).
    set_solver.
Defined.

Lemma array_uint_names_in i : 0 <= i < 4 -> array_names (array_uint_name i).
Proof. intros Hi. assert (i = 0 \/ i = 1 \/ i = 2 \/ i = 3) as [E|[E|[E|E]]] by lia; subst i; vm_compute; set_solver. Qed.
Lemma array_uint_names i : 0 <= i -> array_names (array_uint_name i) -> key array_heap (array_uint_name i) = Some (KString (dec i)).
Proof.
  intros _. unfold array_uint_name. destruct ((0 <=? i) && (i <? 4)) eqn:E; [|unfold array_names; set_solver].
  apply andb_true_iff in E as [E1 E2]. Zbool. intros _.
  assert (i = 0 \/ i = 1 \/ i = 2 \/ i = 3) as [E|[E|[E|E]]] by lia; subst i; reflexivity.
Qed.
Lemma array_empty : array_names 65.
Proof. unfold array_names. set_solver. Qed.
Lemma array_store_ok : store_ok array_heap false array_names array_store /\ view array_heap array_store 0 = Some [].
Proof.
  destruct (structure_create_ok array_heap false 65 array_names [] true ltac:(constructor) ltac:(constructor)) as [Hp Hok].
  exact (store_singleton array_heap false array_names _ _ Hp Hok).
Qed.

(** The array [[true, , true]] in fast mode. *)
Definition array_sample : Array :=
  mkArray (mkObject 0 None [] true true) 3 (Some [Some ValueTrue; Some ValueEmpty; Some ValueTrue]) None.
Definition array_sample_spec : SpecArray := mkSpecArray (list_to_map [(0, plain ValueTrue); (2, plain ValueTrue)]) [] 3 true true.

End ArraySample.

(** * Properties *)
Module ArrayProps.
Import Word Heap Names PropertyName StructureSpec Structures StructureFacts PropertyDescriptor DescriptorSpec Objects
  Denotation PropertyList ObjectFacts KeyOrder Decimal DecimalFacts Arrays ArraySpec ElementFacts BufferFacts ArrayFacts ArraySample.

Section Props.
Context (h : heap) (outside : bool) (natives : gmap Z StructureDescriptor.NativeGetterSetterData).
Context (emptyName : Z) (names : Z -> Prop) `{NameSpace h names} (named_empty : names emptyName).
Context (uint_name : Z -> Z) (alloc_native : StructureDescriptor.NativeGetterSetterData -> Z).
Context (uint_names : forall i, 0 <= i -> names (uint_name i) -> key h (uint_name i) = Some (KString (dec i))).
Context (N : Z) (N_range : 0 <= N <= 2 ^ 32 - 1) (index_named : forall i, 0 <= i < N -> names (uint_name i)).
Context (length_name : Z) (length_named : names length_name) (length_atomic : hasAtomicString length_name = true)
  (length_spelled : key h length_name = Some (KString [108; 101; 110; 103; 116; 104])).
Context (toNumberSlowCase : Z -> Z) (self : Z) (null_free : h !! 0 = None).
Context (prototypes : list (bool * list Z)) (string_to_index : list Z -> Z)
  (string_to_index_dec : forall i, 0 <= i < 2 ^ 32 - 1 -> string_to_index (dec i) = i).

#[local] Instance array_ops : StructureOps Store := store_ops h outside natives emptyName.
#[local] Instance array_laws : StructureLaws h outside names Store :=
  store_laws h outside natives emptyName names named_empty.

(** C2: An array is the exotic array object of ECMA-262, whatever mode it is
    in.  For any sequence of [[GetOwnProperty]], [[DefineOwnProperty]],
    [[Delete]] and [[PreventExtensions]], with any names and descriptors, an
    array of the code gives the answers that the specification allows, RangeErrors
    of ArraySetLength among them, and stands for the array that the
    specification has after them: the elements kept in the buffer in fast mode
    and as properties otherwise, the other properties in their order, the length
    with its attribute, and the extensibility.  The code never reads or writes a
    cell that the buffer does not have or that was not initialized, and the
    loop that shortens an array ends within the length. *)
Theorem arrays_refine_exotic_arrays (s : Store) a A ts fuel :
  represents h outside names natives N length_name s a A ->
  Forall (performable h names uint_name N length_name toNumberSlowCase) ts -> (Z.to_nat N <= fuel)%nat ->
  exists s' a' answers A',
    perform_all h natives uint_name alloc_native length_name toNumberSlowCase self prototypes string_to_index fuel s a ts
      = Ok (s', a', answers) /\
    represents h outside names natives N length_name s' a' A' /\
    SpecPerformsAll h uint_name length_name toNumberSlowCase A ts answers A'.
Proof.
  intros Hr Hts Hf.
  exact (perform_all_ok (H0 := array_laws) h outside names natives uint_name alloc_native uint_names N N_range index_named
    length_name length_named length_atomic length_spelled toNumberSlowCase self null_free prototypes string_to_index
    string_to_index_dec fuel ts Hf Hts s a A Hr).
Qed.

(** [push] into an array in fast mode appends all the values in their
    order and makes the length that much greater, or writes nothing: then the
    length may not be changed and the array is as before, or the array has left
    the fast mode and only its length is the new one.  New cells of the buffer
    are initialized, and no value is written outside of it. *)
Theorem push_appends_all_or_none (s : Store) a A values fuel :
  represents h outside names natives N length_name s a A -> isFastModeArray a = true -> values <> [] ->
  Forall (value_ok h) values -> spec_length A + Z.of_nat (length values) <= N ->
  exists s' a' b,
    pushIntoFastModeElements h natives uint_name alloc_native self prototypes string_to_index fuel s a values = Ok (s', a', b) /\
    let n := spec_length A + Z.of_nat (length values) in
    if b then represents h outside names natives N length_name s' a'
                (with_spec_length (with_elements A (add_elements (spec_length A) values (elements A))) n (lengthWritable A))
    else (lengthWritable A = false /\ represents h outside names natives N length_name s' a' A)
      \/ (isFastModeArray a' = false /\
          represents h outside names natives N length_name s' a' (with_spec_length A n (lengthWritable A))).
Proof.
  intros Hr Hfast Hne Hv Hn.
  destruct (push_ok (H0 := array_laws) h outside names natives uint_name alloc_native uint_names N N_range index_named
    length_name length_spelled self null_free prototypes string_to_index fuel s a A values Hr Hfast Hne Hv Hn)
    as (s' & a' & b & E & Ho). exists s', a', b. split; [exact E|]. destruct b; [exact Ho|].
  destruct Ho as [Ho|[Ed Ho]]; [now left|right]. split; [|exact Ho]. unfold isFastModeArray. now rewrite Ed.
Qed.

End Props.
Lemma array_sample_represents :
  represents (H0 := array_laws array_heap false ∅ 65 array_names array_empty) array_heap false array_names ∅ 4 65
    array_store array_sample array_sample_spec.
Proof.
  split; [apply array_store_ok|]. split; [exists []; split; [apply array_store_ok|constructor]|]. split; [cbn; lia|].
  exists []. split; [|split; [reflexivity|split; [constructor|split; [|vm_compute; reflexivity]]]].
  - unfold object_properties. change (m_structure (a_object array_sample)) with 0%nat.
    pose proof (proj2 array_store_ok) as E. cbn [st_view array_laws store_laws]. now rewrite E.
  - split; [|now split]. split; [cbn; lia|]. split; [|exact I]. intros i Hi. cbn in Hi.
    assert (i = 0 \/ i = 1 \/ i = 2) as [E|[E|E]] by lia; subst i; eexists; (split; [reflexivity|]); vm_compute; intuition (eauto || congruence).
Qed.

(** The hole is read, the array grows in fast mode, an element becomes fixed, so
    that the length cannot become 0 but is 3 and fixed then. *)
Definition array_requests : list Request :=
  [ReadProperty (PUInt 1);
   DefineProperty (PUInt 3) (of_value ValueFalse AllPresent);
   DefineProperty (PUInt 2) (of_value ValueFalse NonConfigurablePresent);
   DefineProperty (PName 65) (of_value ValueUndefined 0);
   DefineProperty (PName 65) (of_value (Value_int 0) NonWritablePresent);
   ReadProperty (PName 65);
   DefineProperty (PUInt 3) (of_value ValueFalse AllPresent);
   DeleteProperty (PUInt 0);
   PreventExtensions].
Definition array_answers : list Answer :=
  [AnswerProperty None; AnswerBool true; AnswerBool true; AnswerThrow RangeError; AnswerBool false;
   AnswerProperty (Some (mkGetResult (GotValue (Value_int 3)) false false false)); AnswerBool false; AnswerBool true; AnswerBool true].

Lemma array_requests_performable :
  Forall (performable array_heap array_names array_uint_name 4 65 (fun _ => 0)) array_requests.
Proof.
  assert (forall v, v ∈ [ValueFalse; ValueUndefined; Value_int 0] -> value_ok array_heap v) as Hv.
  { intros v Hv. repeat (apply elem_of_cons in Hv as [->|Hv]; [split; [unfold in_u; vm_compute; intuition congruence|eexists; vm_compute; reflexivity]|]).
    now apply not_elem_of_nil in Hv. }
  assert (forall i, 0 <= i < 4 -> P_ok array_names array_uint_name (PUInt i)) as Hi.
  { intros i Hi. split; [split; [now apply array_uint_names_in|cbn; lia]|]. change MAXIMUM_UINT_FOR_32BIT_PROPERTY_NAME with (2 ^ 30 - 1). lia. }
  assert (P_ok array_names array_uint_name (PName 65)) as Hlen by (split; [split; [apply array_empty|exact I]|exact I]).
  assert (forall P v a, P = PName 65 \/ (exists i, P = PUInt i /\ 0 <= i < 4) -> v ∈ [ValueFalse; ValueUndefined; Value_int 0] ->
    (P = PName 65 -> toUint32 (fun _ => 0) v <= 4) ->
    request_ok array_heap array_names array_uint_name 4 65 (fun _ => 0) P (of_value v a)) as Hdef.
  { intros P v a HP Hin Hb. split; [|split; [split; [reflexivity|auto]|]].
    - destruct HP as [->|(i & -> & ?)]; auto.
    - destruct HP as [->|(i & -> & Hi4)].
      + split; [|auto]. intros j Hj. vm_compute in Hj. discriminate.
      + cbn [toObjectStructurePropertyName]. rewrite array_uint_names by (try apply array_uint_names_in; lia). split.
        * intros j Hj. rewrite array_index_of_dec in Hj by lia. injection Hj as <-. lia.
        * intros E. exfalso. revert E. assert (i = 0 \/ i = 1 \/ i = 2 \/ i = 3) as [F|[F|[F|F]]] by lia; subst i; vm_compute; congruence. }
  assert (forall i v a, 0 <= i < 4 -> v ∈ [ValueFalse; ValueUndefined; Value_int 0] ->
    request_ok array_heap array_names array_uint_name 4 65 (fun _ => 0) (PUInt i) (of_value v a)) as Hindex
    by (intros i v a Hi4 Hin; apply Hdef; [right; now exists i|assumption|discriminate]).
  assert (forall v a, v ∈ [ValueFalse; ValueUndefined; Value_int 0] -> toUint32 (fun _ => 0) v <= 4 ->
    request_ok array_heap array_names array_uint_name 4 65 (fun _ => 0) (PName 65) (of_value v a)) as Hlength
    by (intros v a Hin Hb; apply Hdef; [now left|assumption|now intros _]).
  unfold array_requests. repeat (apply Forall_cons; split); cbn [performable].
  all: first [exact I | apply Forall_nil_2 | exact Hlen | apply Hi; lia | apply Hindex; [lia|repeat constructor] | apply Hlength; [repeat constructor|vm_compute; congruence]].
Qed.

Lemma arrays_refine_exotic_arrays_witness : exists s a A,
  perform_all (H := array_ops array_heap false ∅ 65) array_heap ∅ array_uint_name (fun _ => 0) 65 (fun _ => 0) 1008 [] dec_value 4
    array_store array_sample array_requests = Ok (s, a, array_answers) /\
  m_fastModeData a = None /\
  SpecPerformsAll array_heap array_uint_name 65 (fun _ => 0) array_sample_spec array_requests array_answers A.
Proof.
  destruct (arrays_refine_exotic_arrays array_heap false ∅ 65 array_names array_empty array_uint_name (fun _ => 0) array_uint_names
    4 ltac:(lia) array_uint_names_in 65 array_empty eq_refl eq_refl (fun _ => 0) 1008 eq_refl [] dec_value
    (fun i H => dec_value_dec i (proj1 H)) array_store array_sample array_sample_spec array_requests 4
    array_sample_represents array_requests_performable ltac:(reflexivity))
    as (s & a & xs & A & E & _ & Hs).
  assert (match perform_all (H := array_ops array_heap false ∅ 65) array_heap ∅ array_uint_name (fun _ => 0) 65 (fun _ => 0) 1008 []
      dec_value 4 array_store array_sample array_requests with
    | Ok (_, a, xs) => m_fastModeData a = None /\ xs = array_answers
    | _ => False
    end) as F by (vm_compute; split; reflexivity).
  rewrite E in F. destruct F as [Hmode ->]. exists s, a, A. split; [exact E|]. split; [exact Hmode|exact Hs].
Defined.

Lemma push_appends_all_or_none_witness : exists s a,
  pushIntoFastModeElements (H := array_ops array_heap false ∅ 65) array_heap ∅ array_uint_name (fun _ => 0) 1008 [] dec_value 4
    array_store array_sample [ValueNull] = Ok (s, a, true) /\
  m_fastModeData a = Some [Some ValueTrue; Some ValueEmpty; Some ValueTrue; Some ValueNull] /\
  represents (H0 := array_laws array_heap false ∅ 65 array_names array_empty) array_heap false array_names ∅ 4 65 s a
    (with_spec_length (with_elements array_sample_spec (<[3 := plain ValueNull]> (elements array_sample_spec))) 4 true).
Proof.
  destruct (push_appends_all_or_none array_heap false ∅ 65 array_names array_empty array_uint_name (fun _ => 0) array_uint_names
    4 ltac:(lia) array_uint_names_in 65 eq_refl 1008 eq_refl [] dec_value array_store array_sample array_sample_spec [ValueNull] 4
    array_sample_represents eq_refl ltac:(discriminate))
    as (s & a & b & E & Ho); [|cbn; lia|].
  - repeat constructor; try (unfold in_u; vm_compute; intuition congruence). eexists. reflexivity.
  - assert (match pushIntoFastModeElements (H := array_ops array_heap false ∅ 65) array_heap ∅ array_uint_name (fun _ => 0) 1008 []
        dec_value 4 array_store array_sample [ValueNull] with
      | Ok (_, a, b) => m_fastModeData a = Some [Some ValueTrue; Some ValueEmpty; Some ValueTrue; Some ValueNull] /\ b = true
      | _ => False
      end) as F by (vm_compute; split; reflexivity).
    rewrite E in F. destruct F as [Hdata ->]. exists s, a. split; [exact E|]. split; [exact Hdata|exact Ho].
Defined.

(** The array with a length that is not writable: [a.length = 0] empties it, and
    the definition of the length as 0 is refused. *)
Example length_assignment_ignores_writable :
  let a := setLengthNotWritable array_sample in
  (exists s a', setArrayLength_value (H := array_ops array_heap false ∅ 65) array_heap ∅ array_uint_name (fun _ => 0) (fun _ => 0) 1008 []
     dec_value 4 array_store a (Value_int 0) = Ok (s, a', true) /\ m_arrayLength a' = 0) /\
  array_defineOwnProperty (H := array_ops array_heap false ∅ 65) array_heap ∅ array_uint_name (fun _ => 0) 65 (fun _ => 0) 1008 []
    dec_value 4 array_store a (PName 65) (of_value (Value_int 0) 0) = Ok (array_store, a, false).
Proof. split; [eexists _, _; split; vm_compute; reflexivity|vm_compute; reflexivity]. Qed.

End ArrayProps.
