(* ===== verification/Promise.v ===== *)
(** Promises and jobs ([runtime/PromiseObject.h], [PromiseObject.cpp], [Job.cpp],
    [JobQueue.h], [JobQueue.cpp]): promises with their reactions, the functions
    that resolve them, and the queue of jobs.  Script code is a parameter: any
    activity that is made of operations of the engine. *)
From Stdlib Require Import ZArith Lia Bool.
From stdpp Require Import base numbers list option decidable gmap.
From S2P Require Import Prelude Value.

(** * The state and the operations *)
Module Promises.
Import Word.

(** The cast pointers 1 and 2 stand for the handlers Identity and Thrower. *)
Inductive Handler := Identity | Thrower | Function (f : Z).
#[export] Instance Handler_eq_dec : EqDecision Handler.
Proof. solve_decision. Defined.

(** A null pointer is [None]. *)
Record Capability := mkCapability {
  m_promise : option Z;
  m_resolveFunction : option Z;
  m_rejectFunction : option Z
}.
#[export] Instance Capability_eq_dec : EqDecision Capability.
Proof. solve_decision. Defined.
Record PromiseReaction := mkReaction { m_capability : Capability; m_handler : Handler }.
#[export] Instance PromiseReaction_eq_dec : EqDecision PromiseReaction.
Proof. solve_decision. Defined.

Inductive PromiseState := Pending | FulFilled | Rejected.
#[export] Instance PromiseState_eq_dec : EqDecision PromiseState.
Proof. solve_decision. Defined.
Record PromiseObject := mkPromise {
  m_state : PromiseState;
  m_promiseResult : Z;
  m_fulfillReactions : list PromiseReaction;
  m_rejectReactions : list PromiseReaction
}.
Definition new_PromiseObject : PromiseObject := mkPromise Pending ValueUndefined [] [].

(** The built-in functions made here, with their slots; a function object is
    known by its address. *)
Inductive NativeFunction :=
  | ResolveFunction (promise alreadyResolved : Z)
  | RejectFunction (promise alreadyResolved : Z)
  | CapabilityExecutor (capability : Z)
  | AllResolveElement (alreadyCalled index values resolve remainingElements : Z)
  | AllSettledResolveElement (alreadyCalled index values resolve remainingElements : Z)
  | AllSettledRejectElement (alreadyCalled index values resolve remainingElements : Z)
  | AnyRejectElement (alreadyCalled index errors reject remainingElements : Z).

Inductive Job :=
  | PromiseReactionJob (relatedContext : Z) (reaction : PromiseReaction) (argument : Z)
  | PromiseResolveThenableJob (relatedContext promise thenable then_ : Z).
Definition relatedContext (j : Job) : Z :=
  match j with PromiseReactionJob c _ _ => c | PromiseResolveThenableJob c _ _ _ => c end.

Inductive PromiseRejectEvent := PromiseRejectWithNoHandler | PromiseHandlerAddedAfterReject.

(** What happened, for stating theorems; the code keeps no history.  A job is
    enqueued by a promise, or by the resolution with a thenable. *)
Inductive Event :=
  | Registered (promise : Z) (onFulfilled onRejected : PromiseReaction)
  | Settled (promise : Z) (state : PromiseState) (result : Z)
  | Enqueued (origin : option Z) (j : Job)
  | Executed (j : Job)
  | Reported (promise value : Z) (event : PromiseRejectEvent).

(** The part of the virtual machine that promises use: objects by address, the
    records that functions share ([alreadyResolved], [alreadyCalled], the
    capabilities under construction, the lists of values and the counters of
    elements), the queue, and the next free address. *)
Record World := mkWorld {
  w_promises : gmap Z PromiseObject;
  w_functions : gmap Z NativeFunction;
  w_resolved : gmap Z bool;
  w_called : gmap Z bool;
  w_capabilities : gmap Z (Z * Z);
  w_values : gmap Z (list Z);
  w_counters : gmap Z Z;
  m_jobs : list Job;
  w_next : Z;
  w_log : list Event
}.
Definition with_promises (w : World) (x : gmap Z PromiseObject) : World :=
  mkWorld x (w_functions w) (w_resolved w) (w_called w) (w_capabilities w) (w_values w) (w_counters w) (m_jobs w) (w_next w) (w_log w).
Definition with_functions (w : World) (x : gmap Z NativeFunction) : World :=
  mkWorld (w_promises w) x (w_resolved w) (w_called w) (w_capabilities w) (w_values w) (w_counters w) (m_jobs w) (w_next w) (w_log w).
Definition with_resolved (w : World) (x : gmap Z bool) : World :=
  mkWorld (w_promises w) (w_functions w) x (w_called w) (w_capabilities w) (w_values w) (w_counters w) (m_jobs w) (w_next w) (w_log w).
Definition with_called (w : World) (x : gmap Z bool) : World :=
  mkWorld (w_promises w) (w_functions w) (w_resolved w) x (w_capabilities w) (w_values w) (w_counters w) (m_jobs w) (w_next w) (w_log w).
Definition with_capabilities (w : World) (x : gmap Z (Z * Z)) : World :=
  mkWorld (w_promises w) (w_functions w) (w_resolved w) (w_called w) x (w_values w) (w_counters w) (m_jobs w) (w_next w) (w_log w).
Definition with_values (w : World) (x : gmap Z (list Z)) : World :=
  mkWorld (w_promises w) (w_functions w) (w_resolved w) (w_called w) (w_capabilities w) x (w_counters w) (m_jobs w) (w_next w) (w_log w).
Definition with_counters (w : World) (x : gmap Z Z) : World :=
  mkWorld (w_promises w) (w_functions w) (w_resolved w) (w_called w) (w_capabilities w) (w_values w) x (m_jobs w) (w_next w) (w_log w).
Definition with_jobs (w : World) (x : list Job) : World :=
  mkWorld (w_promises w) (w_functions w) (w_resolved w) (w_called w) (w_capabilities w) (w_values w) (w_counters w) x (w_next w) (w_log w).
Definition with_next (w : World) (x : Z) : World :=
  mkWorld (w_promises w) (w_functions w) (w_resolved w) (w_called w) (w_capabilities w) (w_values w) (w_counters w) (m_jobs w) x (w_log w).
Definition log (w : World) (e : Event) : World :=
  mkWorld (w_promises w) (w_functions w) (w_resolved w) (w_called w) (w_capabilities w) (w_values w) (w_counters w) (m_jobs w) (w_next w)
    (w_log w ++ [e]).

(** ** The queue *)

Definition enqueueJob (w : World) (origin : option Z) (j : Job) : World :=
  log (with_jobs w (m_jobs w ++ [j])) (Enqueued origin j).
Definition hasNextJob (w : World) : bool := match m_jobs w with [] => false | _ => true end.
Definition nextJob (w : World) : result (World * Job) :=
  match m_jobs w with
  | [] => Undefined
  | j :: jobs => Ok (log (with_jobs w jobs) (Executed j), j)
  end.
(** The loop erases at [i], and goes on with the same [i] then. *)
Fixpoint clear_from (context : Z) (fuel : nat) (jobs : list Job) (i : nat) : result (list Job) :=
  match fuel with
  | O => Undefined
  | S fuel =>
      if (i <? length jobs)%nat then
        j ← defined (jobs !! i);
        if relatedContext j =? context then clear_from context fuel (take i jobs ++ drop (S i) jobs) i
        else clear_from context fuel jobs (S i)
      else Ok jobs
  end.
Definition clearJobRelatedWithSpecificContext (w : World) (context : Z) : result World :=
  jobs ← clear_from context (S (length (m_jobs w))) (m_jobs w) 0; Ok (with_jobs w jobs).

(** ** Promises *)

Definition promise_at (w : World) (p : Z) : result PromiseObject := defined (w_promises w !! p).
Definition triggerPromiseReactions (w : World) (context p : Z) (reactions : list PromiseReaction) (value : Z) : World :=
  fold_left (fun w r => enqueueJob w (Some p) (PromiseReactionJob context r value)) reactions w.

Section Promises.
(** The context that runs, whether a callback for rejections is registered,
    which words are objects, and which of the objects that are not made here can
    be called. *)
Context (context : Z) (isPromiseRejectCallbackRegistered : bool) (isObject isCallableObject : Z -> bool).
(** A new error object, and a new array. *)
Context (createError : World -> Z) (createArrayFromList : World -> list Z -> Z).

Definition isCallable (w : World) (v : Z) : bool :=
  match w_functions w !! v with Some _ => true | None => isCallableObject v end.

Definition fulfill (w : World) (p value : Z) : result World :=
  o ← promise_at w p;
  let w := log (with_promises w (<[p := mkPromise FulFilled value (m_fulfillReactions o) (m_rejectReactions o)]> (w_promises w)))
             (Settled p FulFilled value) in
  let w := triggerPromiseReactions w context p (m_fulfillReactions o) value in
  Ok (with_promises w (<[p := mkPromise FulFilled value [] []]> (w_promises w))).
Definition reject (w : World) (p reason : Z) : result World :=
  o ← promise_at w p;
  let w := log (with_promises w (<[p := mkPromise Rejected reason (m_fulfillReactions o) (m_rejectReactions o)]> (w_promises w)))
             (Settled p Rejected reason) in
  let w := match m_rejectReactions o with
           | _ :: _ => triggerPromiseReactions w context p (m_rejectReactions o) reason
           | [] => if isPromiseRejectCallbackRegistered then log w (Reported p reason PromiseRejectWithNoHandler) else w
           end in
  Ok (with_promises w (<[p := mkPromise Rejected reason [] []]> (w_promises w))).

(** [then]: a value that cannot be called becomes Identity or Thrower. *)
Definition promise_then (w : World) (p onFulfilledValue onRejectedValue : Z) (resultCapability : option Capability)
  : result (World * option Z) :=
  let onFulfilled := if isCallable w onFulfilledValue then Function onFulfilledValue else Identity in
  let onRejected := if isCallable w onRejectedValue then Function onRejectedValue else Thrower in
  let capability := default (mkCapability None None None) resultCapability in
  let rf := mkReaction capability onFulfilled in
  let rr := mkReaction capability onRejected in
  o ← promise_at w p;
  let w := log w (Registered p rf rr) in
  let w :=
    match m_state o with
    | Pending => with_promises w (<[p := mkPromise Pending (m_promiseResult o) (m_fulfillReactions o ++ [rf]) (m_rejectReactions o ++ [rr])]> (w_promises w))
    | FulFilled => enqueueJob w (Some p) (PromiseReactionJob context rf (m_promiseResult o))
    | Rejected =>
        let w := enqueueJob w (Some p) (PromiseReactionJob context rr (m_promiseResult o)) in
        if isPromiseRejectCallbackRegistered then log w (Reported p (m_promiseResult o) PromiseHandlerAddedAfterReject) else w
    end in
  Ok (w, match resultCapability with Some c => m_promise c | None => None end).

Definition createResolvingFunctions (w : World) (p : Z) : World * Capability :=
  let alreadyResolved := w_next w in
  let resolve := w_next w + 1 in
  let reject := w_next w + 2 in
  let w := with_resolved w (<[alreadyResolved := false]> (w_resolved w)) in
  let w := with_functions w (<[reject := RejectFunction p alreadyResolved]>
                               (<[resolve := ResolveFunction p alreadyResolved]> (w_functions w))) in
  (with_next w (w_next w + 3), mkCapability (Some p) (Some resolve) (Some reject)).
(** [new PromiseObject] with its functions, as the constructor of promises and the
    fast path of [newPromiseCapability] make them. *)
Definition new_promise (w : World) : World * Capability :=
  let p := w_next w in
  createResolvingFunctions (with_next (with_promises w (<[p := new_PromiseObject]> (w_promises w))) (w_next w + 1)) p.

(** ** The functions *)

(** How a call ends. *)
Inductive Completion := Returned (v : Z) | Thrown (v : Z).
(** [Get(resolution, "then")], with the getters of script code. *)
Context (get_then : World -> Z -> World * Completion).

Definition promiseResolveFunctions (w : World) (p alreadyResolved resolution : Z) : result World :=
  already ← defined (w_resolved w !! alreadyResolved);
  if (already : bool) then Ok w
  else
    let w := with_resolved w (<[alreadyResolved := true]> (w_resolved w)) in
    if resolution =? p then reject w p (createError w)
    else if negb (isObject resolution) then fulfill w p resolution
    else
      let '(w, c) := get_then w resolution in
      match c with
      | Thrown reason => reject w p reason
      | Returned then_ =>
          if isCallable w then_
          then Ok (enqueueJob w None (PromiseResolveThenableJob context p resolution then_))
          else fulfill w p resolution
      end.
Definition promiseRejectFunctions (w : World) (p alreadyResolved reason : Z) : result World :=
  already ← defined (w_resolved w !! alreadyResolved);
  if (already : bool) then Ok w
  else reject (with_resolved w (<[alreadyResolved := true]> (w_resolved w))) p reason.

(** The executor given to a constructor that is not [Promise]. *)
Definition getCapabilitiesExecutorFunction (w : World) (capability resolve reject : Z) : result (World * Completion) :=
  '(r, j) ← defined (w_capabilities w !! capability);
  if negb (isUndefined r) || negb (isUndefined j) then Ok (w, Thrown (createError w))
  else Ok (with_capabilities w (<[capability := (resolve, reject)]> (w_capabilities w)), Returned ValueUndefined).

(** Calls: of script code, and of any function. *)
Context (script : World -> Z -> Z -> list Z -> World * Completion).

Definition argument (args : list Z) (i : nat) : Z := default ValueUndefined (args !! i).

(** The element functions of [Promise.all], [allSettled] and [any]: [entry] is
    what is stored for the element, [last] the value for the last one. *)
Definition element_function (call : World -> Z -> Z -> list Z -> result (World * Completion)) (w : World)
    (alreadyCalled index values target remainingElements entry : Z) (last : World -> list Z -> Z) : result (World * Completion) :=
  called ← defined (w_called w !! alreadyCalled);
  if (called : bool) then Ok (w, Returned ValueUndefined)
  else
    let w := with_called w (<[alreadyCalled := true]> (w_called w)) in
    l ← defined (w_values w !! values);
    n ← defined (w_counters w !! remainingElements);
    let index := asUInt32 index in
    if Z.of_nat (length l) <=? index then Undefined
    else
      let l := <[Z.to_nat index := entry]> l in
      let n := u64 (n - 1) in
      let w := with_counters (with_values w (<[values := l]> (w_values w))) (<[remainingElements := n]> (w_counters w)) in
      if n =? 0 then call w target ValueUndefined [last w l]
      else Ok (w, Returned ValueUndefined).

(** The object [{status, value}] or [{status, reason}] of [allSettled], and the
    AggregateError of [any]. *)
Context (settled_object : World -> bool -> Z -> Z) (aggregate_error : World -> list Z -> Z).

(** [Object::call].  A last element calls a function in turn; that is the only nesting. *)
Fixpoint call (fuel : nat) (w : World) (f this_ : Z) (args : list Z) : result (World * Completion) :=
  let arg := argument args 0 in
  match w_functions w !! f with
  | None => Ok (script w f this_ args)
  | Some (ResolveFunction p already) =>
      w ← promiseResolveFunctions w p already arg; Ok (w, Returned ValueUndefined)
  | Some (RejectFunction p already) =>
      w ← promiseRejectFunctions w p already arg; Ok (w, Returned ValueUndefined)
  | Some (CapabilityExecutor capability) => getCapabilitiesExecutorFunction w capability arg (argument args 1)
  | Some element =>
      match fuel with
      | O => Undefined
      | S fuel =>
          match element with
          | AllResolveElement called i values target remaining =>
              element_function (call fuel) w called i values target remaining arg createArrayFromList
          | AllSettledResolveElement called i values target remaining =>
              element_function (call fuel) w called i values target remaining (settled_object w true arg) createArrayFromList
          | AllSettledRejectElement called i values target remaining =>
              element_function (call fuel) w called i values target remaining (settled_object w false arg) createArrayFromList
          | AnyRejectElement called i errors target remaining =>
              element_function (call fuel) w called i errors target remaining arg aggregate_error
          | _ => Undefined
          end
      end
  end.

(** Calls of last elements nest at most as deep as there are functions that were
    not called yet. *)
Definition call_function (w : World) (f this_ : Z) (args : list Z) : result (World * Completion) :=
  call (S (size (w_called w))) w f this_ args.

(** ** Capabilities and elements under construction *)

(** The slow path of [newPromiseCapability]; [construct] makes the promise with the executor. *)
Definition new_capability (w : World) : World * (Z * Z) :=
  let capability := w_next w in
  let executor := w_next w + 1 in
  let w := with_capabilities w (<[capability := (ValueUndefined, ValueUndefined)]> (w_capabilities w)) in
  (with_next (with_functions w (<[executor := CapabilityExecutor capability]> (w_functions w))) (w_next w + 2), (capability, executor)).
Definition newPromiseCapability (is_Promise isConstructor : bool) (construct : World -> Z -> World * Completion) (w : World)
  : result (World * (Capability + Z)) :=
  if is_Promise then let '(w, c) := new_promise w in Ok (w, inl c)
  else if negb isConstructor then Ok (w, inr (createError w))
  else
    let '(w, (capability, executor)) := new_capability w in
    let '(w, x) := construct w executor in
    match x with
    | Thrown e => Ok (w, inr e)
    | Returned promise =>
        '(resolve, reject) ← defined (w_capabilities w !! capability);
        if negb (isCallable w resolve) || negb (isCallable w reject) then Ok (w, inr (createError w))
        else Ok (w, inl (mkCapability (Some promise) (Some resolve) (Some reject)))
    end.

(** The list of values and the counter that the elements of one call share. *)
Definition new_elements (w : World) : World * (Z * Z) :=
  let values := w_next w in
  let remaining := w_next w + 1 in
  (with_next (with_counters (with_values w (<[values := []]> (w_values w))) (<[remaining := 1]> (w_counters w))) (w_next w + 2),
   (values, remaining)).
Inductive ElementKind := All | AllSettled | AnyOf.
(** A round of the loop: a value is appended, script code gets the next promise,
    and then the functions of the element are made with its index, an [int64_t] or
    a [size_t]. *)
Definition append_value (w : World) (values : Z) : result World :=
  l ← defined (w_values w !! values); Ok (with_values w (<[values := l ++ [ValueUndefined]]> (w_values w))).
Definition index_value (kind : ElementKind) (index : Z) : Z :=
  match kind with AllSettled => Value_unsigned_long index | _ => Value_long index end.
Definition new_element (kind : ElementKind) (w : World) (index values remaining target : Z) : result (World * list Z) :=
  n ← defined (w_counters w !! remaining);
  let slot := index_value kind index in
  let called := w_next w in
  let f := w_next w + 1 in
  let g := w_next w + 2 in
  let fs := match kind with
            | All => [(f, AllResolveElement called slot values target remaining)]
            | AllSettled => [(f, AllSettledResolveElement called slot values target remaining);
                             (g, AllSettledRejectElement called slot values target remaining)]
            | AnyOf => [(f, AnyRejectElement called slot values target remaining)]
            end in
  let w := with_called w (<[called := false]> (w_called w)) in
  let w := with_functions w (list_to_map fs ∪ w_functions w) in
  let w := with_counters w (<[remaining := u64 (n + 1)]> (w_counters w)) in
  Ok (with_next w (w_next w + 3), fs.*1).
(** The end of the loop; for [any] the target stands for the exception that the
    caller passes to the reject function. *)
Definition end_elements (call : World -> Z -> Z -> list Z -> result (World * Completion)) (w : World)
    (values remaining target : Z) (last : World -> list Z -> Z) : result (World * Completion) :=
  l ← defined (w_values w !! values);
  n ← defined (w_counters w !! remaining);
  let n := u64 (n - 1) in
  let w := with_counters w (<[remaining := n]> (w_counters w)) in
  if n =? 0 then call w target ValueUndefined [last w l] else Ok (w, Returned ValueUndefined).

(** ** Jobs *)

(** A call of a pointer that must not be null. *)
Definition call_pointer (w : World) (f : option Z) (args : list Z) : result (World * Completion) :=
  f ← defined f; call_function w f ValueUndefined args.

Definition run_reaction (w : World) (r : PromiseReaction) (argument : Z) : result (World * Completion) :=
  let c := m_capability r in
  match m_handler r with
  | Identity => call_pointer w (m_resolveFunction c) [argument]
  | Thrower => call_pointer w (m_rejectFunction c) [argument]
  | Function f =>
      '(w, x) ← call_function w f ValueUndefined [argument];
      '(w, x) ←
        (match x, m_promise c with
         | Returned res, Some _ =>
             '(w, y) ← call_pointer w (m_resolveFunction c) [res];
             Ok (w, match y with Returned _ => x | Thrown _ => y end)
         | _, _ => Ok (w, x)
         end);
      match x with
      | Returned res => Ok (w, Returned res)
      | Thrown reason =>
          match m_rejectFunction c with
          | Some f => call_function w f ValueUndefined [reason]
          | None => Ok (w, Thrown reason)
          end
      end
  end.
Definition run_thenable (w : World) (p thenable then_ : Z) : result (World * Completion) :=
  let '(w, capability) := createResolvingFunctions w p in
  resolve ← defined (m_resolveFunction capability);
  reject ← defined (m_rejectFunction capability);
  '(w, x) ← call_function w then_ thenable [resolve; reject];
  match x with
  | Returned v => Ok (w, x)
  | Thrown reason => call_function w reject ValueUndefined [reason]
  end.
Definition run_job (w : World) (j : Job) : result (World * Completion) :=
  match j with
  | PromiseReactionJob _ r argument => run_reaction w r argument
  | PromiseResolveThenableJob _ p thenable then_ => run_thenable w p thenable then_
  end.
Definition executePendingJob (w : World) : result (World * Completion) :=
  '(w, j) ← nextJob w; run_job w j.

End Promises.

(** ** What can happen *)

Definition complete (c : Capability) : Prop := is_Some (m_resolveFunction c) /\ is_Some (m_rejectFunction c).

(** Everything that happens between two jobs, and inside of the calls of script
    code: any sequence of operations of the engine.  [await] registers without a
    capability, and then with handlers. *)
Section Activity.
Context (isObject isCallableObject : Z -> bool).

Inductive activity : World -> World -> Prop :=
  | act_none w : activity w w
  | act_trans w1 w2 w3 : activity w1 w2 -> activity w2 w3 -> activity w1 w3
  | act_new_promise w : activity w (new_promise w).1
  | act_new_capability w : activity w (new_capability w).1
  | act_new_elements w : activity w (new_elements w).1
  | act_append_value w values w' : append_value w values = Ok w' -> activity w w'
  | act_new_element kind w index values l remaining target w' fs :
      w_values w !! values = Some l -> 0 <= index < Z.of_nat (length l) -> index < 2 ^ 31 ->
      new_element kind w index values remaining target = Ok (w', fs) -> activity w w'
  | act_then context registered w p onFulfilled onRejected capability w' r :
      match capability with
      | Some c => complete c
      | None => isCallable isCallableObject w onFulfilled = true /\ isCallable isCallableObject w onRejected = true
      end ->
      promise_then context registered isCallableObject w p onFulfilled onRejected capability = Ok (w', r) -> activity w w'
  | act_call context registered createError createArrayFromList get_then script settled_object aggregate_error w f this_ args w' x :
      (forall w o, activity w (get_then w o).1) -> (forall w f this_ args, activity w (script w f this_ args).1) ->
      call_function context registered isObject isCallableObject createError createArrayFromList get_then script settled_object aggregate_error
        w f this_ args = Ok (w', x) -> activity w w'
  | act_end_elements context registered createError createArrayFromList get_then script settled_object aggregate_error
      w values remaining target last w' x :
      (forall w o, activity w (get_then w o).1) -> (forall w f this_ args, activity w (script w f this_ args).1) ->
      end_elements (call_function context registered isObject isCallableObject createError createArrayFromList get_then script settled_object aggregate_error)
        w values remaining target last = Ok (w', x) -> activity w w'.

(** One turn of the loop of jobs. *)
Inductive turn : World -> World -> Prop :=
  | turn_job context registered createError createArrayFromList get_then script settled_object aggregate_error w w' x :
      (forall w o, activity w (get_then w o).1) -> (forall w f this_ args, activity w (script w f this_ args).1) ->
      executePendingJob context registered isObject isCallableObject createError createArrayFromList get_then script
        settled_object aggregate_error w = Ok (w', x) -> turn w w'.

Definition initial_world : World := mkWorld ∅ ∅ ∅ ∅ ∅ ∅ ∅ [] 0 [].
Inductive reachable : World -> Prop :=
  | reach_initial : reachable initial_world
  | reach_activity w w' : reachable w -> activity w w' -> reachable w'
  | reach_turn w w' : reachable w -> turn w w' -> reachable w'.

End Activity.
End Promises.

(** * Histories *)
Module History.
Import Word Promises.

Definition registered (p : Z) (l : list Event) : list (PromiseReaction * PromiseReaction) :=
  omap (fun e => match e with Registered q a b => if q =? p then Some (a, b) else None | _ => None end) l.
Definition settled (p : Z) (l : list Event) : list (PromiseState * Z) :=
  omap (fun e => match e with Settled q s v => if q =? p then Some (s, v) else None | _ => None end) l.
Definition enqueued_by (p : Z) (l : list Event) : list Job :=
  omap (fun e => match e with Enqueued (Some q) j => if q =? p then Some j else None | _ => None end) l.
Definition enqueued (l : list Event) : list Job := omap (fun e => match e with Enqueued _ j => Some j | _ => None end) l.
Definition executed (l : list Event) : list Job := omap (fun e => match e with Executed j => Some j | _ => None end) l.

Lemma registered_app p l k : registered p (l ++ k) = registered p l ++ registered p k.
Proof. apply omap_app. Qed.
Lemma settled_app p l k : settled p (l ++ k) = settled p l ++ settled p k.
Proof. apply omap_app. Qed.
Lemma enqueued_by_app p l k : enqueued_by p (l ++ k) = enqueued_by p l ++ enqueued_by p k.
Proof. apply omap_app. Qed.
Lemma enqueued_app l k : enqueued (l ++ k) = enqueued l ++ enqueued k.
Proof. apply omap_app. Qed.
Lemma executed_app l k : executed (l ++ k) = executed l ++ executed k.
Proof. apply omap_app. Qed.

(** What a job of a reaction runs, and the reaction of a pair that a state picks. *)
Definition content (j : Job) : option (PromiseReaction * Z) :=
  match j with PromiseReactionJob _ r v => Some (r, v) | PromiseResolveThenableJob _ _ _ _ => None end.
Definition picked (s : PromiseState) (ab : PromiseReaction * PromiseReaction) : PromiseReaction :=
  match s with Rejected => ab.2 | _ => ab.1 end.

(** The history of a promise: while it is pending its lists are the reactions
    registered so far; then it has been settled once, and each of the reactions,
    registered before or after, has been enqueued once, in their order, with the
    result. *)
Definition promise_history (p : Z) (o : PromiseObject) (l : list Event) : Prop :=
  match m_state o with
  | Pending =>
      settled p l = [] /\ enqueued_by p l = [] /\
      m_fulfillReactions o = (registered p l).*1 /\ m_rejectReactions o = (registered p l).*2
  | s =>
      settled p l = [(s, m_promiseResult o)] /\ m_fulfillReactions o = [] /\ m_rejectReactions o = [] /\
      content <$> enqueued_by p l = (fun ab => Some (picked s ab, m_promiseResult o)) <$> registered p l
  end.

(** Events that do not concern a promise. *)
Definition silent (p : Z) (l : list Event) : Prop := registered p l = [] /\ settled p l = [] /\ enqueued_by p l = [].
Lemma silent_nil p : silent p [].
Proof. now split_and!. Qed.
Lemma silent_app p l k : silent p l -> silent p k -> silent p (l ++ k).
Proof.
  intros (A & B & C) (D & E & F). unfold silent. rewrite registered_app, settled_app, enqueued_by_app.
  now rewrite A, B, C, D, E, F.
Qed.
Lemma history_silent p o l k : silent p k -> promise_history p o l -> promise_history p o (l ++ k).
Proof.
  intros (A & B & C). unfold promise_history. rewrite registered_app, settled_app, enqueued_by_app, A, B, C, !app_nil_r. auto.
Qed.
Lemma silent_other p q e : match e with Registered x _ _ | Settled x _ _ | Enqueued (Some x) _ => x = q | _ => True end ->
  p <> q -> silent p [e].
Proof.
  intros He Hpq. unfold silent, registered, settled, enqueued_by. destruct e as [x a b|x s v|[x|] j|j|x v e]; cbn; try subst x;
    try (rewrite (proj2 (Z.eqb_neq q p)) by congruence); now split_and!.
Qed.

Definition enqueue_events (context p v : Z) (rs : list PromiseReaction) : list Event :=
  (fun r => Enqueued (Some p) (PromiseReactionJob context r v)) <$> rs.
Lemma trigger_spec context p v rs : forall w, triggerPromiseReactions w context p rs v =
  mkWorld (w_promises w) (w_functions w) (w_resolved w) (w_called w) (w_capabilities w) (w_values w) (w_counters w)
    (m_jobs w ++ ((fun r => PromiseReactionJob context r v) <$> rs)) (w_next w) (w_log w ++ enqueue_events context p v rs).
Proof.
  unfold triggerPromiseReactions, enqueue_events. induction rs as [|r rs IH]; intros w; cbn.
  - destruct w; cbn. now rewrite !app_nil_r.
  - rewrite IH. unfold enqueueJob, log, with_jobs. cbn. now rewrite <- !app_assoc.
Qed.

Lemma enqueue_events_facts context p v rs :
  (forall q, registered q (enqueue_events context p v rs) = []) /\ (forall q, settled q (enqueue_events context p v rs) = []) /\
  enqueued_by p (enqueue_events context p v rs) = (fun r => PromiseReactionJob context r v) <$> rs /\
  (forall q, q <> p -> enqueued_by q (enqueue_events context p v rs) = []) /\
  enqueued (enqueue_events context p v rs) = (fun r => PromiseReactionJob context r v) <$> rs /\
  executed (enqueue_events context p v rs) = [].
Proof.
  unfold enqueue_events, registered, settled, enqueued_by, enqueued, executed.
  induction rs as [|r rs (A & B & C & D & E & F)]; [now split_and!|]. split_and!; intros; cbn; auto.
  - rewrite Z.eqb_refl. f_equal. exact C.
  - rewrite (proj2 (Z.eqb_neq p q)) by congruence. now apply D.
  - f_equal. exact E.
Qed.

(** Registering one more reaction. *)
Lemma history_pending p o l rf rr : m_state o = Pending -> promise_history p o l ->
  promise_history p (mkPromise Pending (m_promiseResult o) (m_fulfillReactions o ++ [rf]) (m_rejectReactions o ++ [rr])) (l ++ [Registered p rf rr]).
Proof.
  unfold promise_history. intros -> (H1 & H2 & H3 & H4). cbn [m_state m_fulfillReactions m_rejectReactions].
  assert (registered p [Registered p rf rr] = [(rf, rr)]) as HR by (unfold registered; cbn; now rewrite Z.eqb_refl).
  rewrite settled_app, enqueued_by_app, registered_app, HR, H1, H2, H3, H4, !fmap_app. now split_and!.
Qed.
Lemma history_settled p o l rf rr context : m_state o <> Pending -> promise_history p o l ->
  promise_history p o
    (l ++ [Registered p rf rr; Enqueued (Some p) (PromiseReactionJob context (picked (m_state o) (rf, rr)) (m_promiseResult o))]).
Proof.
  intros Ns Hh. set (es := [_; _]).
  assert (registered p es = [(rf, rr)] /\ settled p es = [] /\
    enqueued_by p es = [PromiseReactionJob context (picked (m_state o) (rf, rr)) (m_promiseResult o)]) as (E1 & E2 & E3)
    by (unfold es, registered, settled, enqueued_by; cbn; rewrite Z.eqb_refl; now split_and!).
  unfold promise_history in *. rewrite settled_app, enqueued_by_app, registered_app, E1, E2, E3, !fmap_app, app_nil_r.
  destruct (m_state o); [congruence| |]; destruct Hh as (H1 & H2 & H3 & H4); rewrite H4; now split_and!.
Qed.

End History.

(** * The invariant of the engine *)
Module PromiseFacts.
Import Word Promises History.

Definition reaction_ok (r : PromiseReaction) : Prop :=
  complete (m_capability r) \/ (m_capability r = mkCapability None None None /\ exists f, m_handler r = Function f).

Definition function_ok (w : World) (g : NativeFunction) : Prop :=
  match g with
  | ResolveFunction p already | RejectFunction p already => is_Some (w_promises w !! p) /\ is_Some (w_resolved w !! already)
  | CapabilityExecutor c => is_Some (w_capabilities w !! c)
  | AllResolveElement called i values _ remaining | AllSettledResolveElement called i values _ remaining
  | AllSettledRejectElement called i values _ remaining | AnyRejectElement called i values _ remaining =>
      is_Some (w_called w !! called) /\ is_Some (w_counters w !! remaining) /\
      exists l, w_values w !! values = Some l /\ 0 <= asUInt32 i < Z.of_nat (length l)
  end.
Definition job_ok (w : World) (j : Job) : Prop :=
  match j with
  | PromiseReactionJob _ r _ => reaction_ok r
  | PromiseResolveThenableJob _ p _ _ => is_Some (w_promises w !! p)
  end.

(** Who may still resolve a promise: the functions whose record is false, and
    the jobs that will make new functions. *)
Definition live_records (owner : gmap Z Z) (m : gmap Z bool) : list Z :=
  omap (fun ab : Z * bool => if ab.2 then None else owner !! ab.1) (map_to_list m).
Definition thenable_of (j : Job) : option Z :=
  match j with PromiseResolveThenableJob _ p _ _ => Some p | PromiseReactionJob _ _ _ => None end.
Definition tokens (owner : gmap Z Z) (w : World) : list Z := live_records owner (w_resolved w) ++ omap thenable_of (m_jobs w).
Definition is_pending (w : World) (p : Z) : Prop := exists o, w_promises w !! p = Some o /\ m_state o = Pending.
Definition owns (owner : gmap Z Z) (w : World) : Prop :=
  forall f g, w_functions w !! f = Some g ->
    match g with ResolveFunction p already | RejectFunction p already => owner !! already = Some p | _ => True end.

(** [F] are the promises that a call which is under way is about to settle. *)
Record ok (F : list Z) (w : World) : Prop := {
  ok_fresh a : w_next w <= a ->
    w_promises w !! a = None /\ w_functions w !! a = None /\ w_resolved w !! a = None /\ w_called w !! a = None /\
    w_capabilities w !! a = None /\ w_values w !! a = None /\ w_counters w !! a = None;
  ok_functions f g : w_functions w !! f = Some g -> function_ok w g;
  ok_jobs : Forall (job_ok w) (m_jobs w);
  ok_promises p o : w_promises w !! p = Some o ->
    promise_history p o (w_log w) /\ Forall reaction_ok (m_fulfillReactions o) /\ Forall reaction_ok (m_rejectReactions o);
  ok_absent p : w_promises w !! p = None -> silent p (w_log w);
  ok_tokens : exists owner, owns owner w /\ NoDup (F ++ tokens owner w) /\ Forall (is_pending w) (F ++ tokens owner w);
  ok_queue : enqueued (w_log w) = executed (w_log w) ++ m_jobs w
}.

(** What every activity keeps: nothing disappears, lists do not become shorter,
    and jobs are added at the end. *)
Record evolves (w w' : World) : Prop := {
  ev_promises p : is_Some (w_promises w !! p) -> is_Some (w_promises w' !! p);
  ev_functions : w_functions w ⊆ w_functions w';
  ev_resolved a : is_Some (w_resolved w !! a) -> is_Some (w_resolved w' !! a);
  ev_called a : is_Some (w_called w !! a) -> is_Some (w_called w' !! a);
  ev_capabilities a : is_Some (w_capabilities w !! a) -> is_Some (w_capabilities w' !! a);
  ev_counters a : is_Some (w_counters w !! a) -> is_Some (w_counters w' !! a);
  ev_values a l : w_values w !! a = Some l -> exists l', w_values w' !! a = Some l' /\ (length l <= length l')%nat;
  ev_log : exists es, w_log w' = w_log w ++ es /\ m_jobs w' = m_jobs w ++ enqueued es /\ executed es = []
}.

Lemma evolves_refl w : evolves w w.
Proof. split; eauto. exists []. rewrite !app_nil_r. now split_and!. Qed.
Lemma evolves_trans w1 w2 w3 : evolves w1 w2 -> evolves w2 w3 -> evolves w1 w3.
Proof.
  intros [A1 B1 C1 D1 E1 F1 G1 (es1 & L1 & J1 & X1)] [A2 B2 C2 D2 E2 F2 G2 (es2 & L2 & J2 & X2)]. split; eauto.
  - etransitivity; eassumption.
  - intros a l Hl. destruct (G1 a l Hl) as (l1 & Hl1 & Hn1). destruct (G2 a l1 Hl1) as (l2 & Hl2 & Hn2). exists l2. split; [assumption|lia].
  - exists (es1 ++ es2). rewrite L2, L1, J2, J1, enqueued_app, executed_app, X1, X2, <- !app_assoc. now split_and!.
Qed.

Lemma function_ok_mono w w' g : evolves w w' -> function_ok w g -> function_ok w' g.
Proof.
  intros [A B C D E F G _]. destruct g; cbn; try (intros [H1 H2]; split; now auto); auto.
  all: intros (H1 & H2 & l & Hl & Hi); (split; [auto|split; [auto|]]);
    destruct (G _ l Hl) as (l' & Hl' & Hn); exists l'; split; [assumption|lia].
Qed.
Lemma job_ok_mono w w' j : evolves w w' -> job_ok w j -> job_ok w' j.
Proof. intros [A _ _ _ _ _ _ _]. destruct j; cbn; auto. Qed.

(** ** Tokens *)

Lemma live_insert owner m a p : m !! a = None ->
  live_records (<[a := p]> owner) (<[a := false]> m) ≡ₚ p :: live_records owner m.
Proof.
  intros Ha. unfold live_records. rewrite (map_to_list_insert m a false Ha). cbn. rewrite lookup_insert_eq. apply perm_skip.
  assert (forall l : list (Z * bool), (forall b, (a, b) ∉ l) ->
    omap (fun ab : Z * bool => if ab.2 then None else <[a := p]> owner !! ab.1) l =
    omap (fun ab : Z * bool => if ab.2 then None else owner !! ab.1) l) as E.
  { induction l as [|[x b] l IH]; intros Hl; [reflexivity|]. cbn. rewrite IH by (intros b' Hb; apply (Hl b'); now right).
    assert (a <> x) as N by (intros ->; apply (Hl b); now left). now rewrite (lookup_insert_ne owner a x p N). }
  rewrite E; [reflexivity|]. intros b Hb. apply elem_of_map_to_list in Hb. congruence.
Qed.
Lemma live_set owner m a p : m !! a = Some false -> owner !! a = Some p ->
  live_records owner m ≡ₚ p :: live_records owner (<[a := true]> m).
Proof.
  intros Ha Ho. rewrite <- (insert_delete_id m a false Ha) at 1. rewrite <- (insert_delete_eq m a true).
  unfold live_records. rewrite !map_to_list_insert by apply lookup_delete_eq. cbn. now rewrite Ho.
Qed.

(** ** Settling *)

Definition with_history (w : World) (p : Z) (o : PromiseObject) (jobs : list Job) (events : list Event) : World :=
  mkWorld (<[p := o]> (w_promises w)) (w_functions w) (w_resolved w) (w_called w) (w_capabilities w) (w_values w) (w_counters w)
    (m_jobs w ++ jobs) (w_next w) (w_log w ++ events).

Lemma with_history_evolves w p o jobs events : jobs = enqueued events -> executed events = [] -> is_Some (w_promises w !! p) ->
  evolves w (with_history w p o jobs events).
Proof.
  intros -> Hx Hp. split; cbn; eauto.
  - intros q Hq. destruct (decide (p = q)) as [->|N]; [rewrite lookup_insert_eq; eauto|now rewrite lookup_insert_ne].
Qed.

(** Adding events and jobs for one promise keeps the invariant, but for the
    history of that promise and the tokens. *)
Lemma with_history_ok F G w p o o' jobs events : ok F w -> w_promises w !! p = Some o ->
  jobs = enqueued events -> executed events = [] -> (forall q, q <> p -> silent q events) -> Forall (job_ok w) jobs ->
  omap thenable_of jobs = [] ->
  promise_history p o' (w_log w ++ events) -> Forall reaction_ok (m_fulfillReactions o') -> Forall reaction_ok (m_rejectReactions o') ->
  (forall owner, owns owner w -> NoDup (F ++ tokens owner w) -> Forall (is_pending w) (F ++ tokens owner w) ->
    NoDup (G ++ tokens owner w) /\ (forall q, q ∈ G ++ tokens owner w -> q ∈ F ++ tokens owner w) /\
    (p ∈ G ++ tokens owner w -> m_state o' = Pending)) ->
  ok G (with_history w p o' jobs events) /\ evolves w (with_history w p o' jobs events).
Proof.
  intros [A B C D E (owner & T1 & T2 & T3) Q] Ho Hj Hx Hs Hjobs Hth Hh H1 H2 Htok.
  assert (evolves w (with_history w p o' jobs events)) as Hev by (apply with_history_evolves; eauto).
  split; [|assumption]. split.
  - intros a Ha. cbn. specialize (A a Ha). rewrite lookup_insert_ne; [assumption|]. intros ->. destruct A as (A & _). congruence.
  - intros f g Hf. apply (function_ok_mono w); [assumption|]. now apply (B f).
  - cbn. apply Forall_app. split; [eapply Forall_impl; [exact C|]|eapply Forall_impl; [exact Hjobs|]]; intros j; now apply job_ok_mono.
  - cbn. intros q r Hq. destruct (decide (p = q)) as [->|N].
    + rewrite lookup_insert_eq in Hq. injection Hq as <-. now split_and!.
    + rewrite lookup_insert_ne in Hq by assumption. destruct (D q r Hq) as (D1 & D2 & D3). split_and!; auto.
      apply history_silent; auto.
  - cbn. intros q Hq. destruct (decide (p = q)) as [->|N]; [now rewrite lookup_insert_eq in Hq|].
    rewrite lookup_insert_ne in Hq by assumption. apply silent_app; auto.
  - destruct (Htok owner T1 T2 T3) as (N1 & N2 & N3). exists owner. unfold tokens in *. cbn. rewrite omap_app, Hth, app_nil_r.
    split; [exact T1|]. split; [assumption|]. apply Forall_forall. intros q Hq. unfold is_pending. cbn.
    destruct (decide (p = q)) as [->|N].
    + exists o'. rewrite lookup_insert_eq. split; [reflexivity|]. now apply N3.
    + rewrite lookup_insert_ne by assumption. rewrite Forall_forall in T3. now apply T3, N2.
  - cbn. rewrite enqueued_app, executed_app, Hx, app_nil_r, Q, Hj. now rewrite app_assoc.
Qed.

(** Settling a promise that a call holds. *)
Lemma settle_ok context F w p o s v extra : ok (p :: F) w -> w_promises w !! p = Some o -> s <> Pending ->
  (forall q, silent q extra) -> enqueued extra = [] -> executed extra = [] ->
  let rs := match s with Rejected => m_rejectReactions o | _ => m_fulfillReactions o end in
  let w' := with_history w p (mkPromise s v [] []) ((fun r => PromiseReactionJob context r v) <$> rs)
              (Settled p s v :: enqueue_events context p v rs ++ extra) in
  ok F w' /\ evolves w w'.
Proof.
  intros Hok Ho Hs Hextra He1 He2 rs w'. pose proof Hok as [_ _ _ D _ (owner & _ & T2 & T3) _].
  destruct (D p o Ho) as (Hh & Hr1 & Hr2).
  assert (m_state o = Pending) as Hp.
  { apply Forall_inv in T3. destruct T3 as (o2 & Ho2 & Hp). congruence. }
  unfold promise_history in Hh. rewrite Hp in Hh. destruct Hh as (Hh1 & Hh2 & Hh3 & Hh4).
  assert (Forall reaction_ok rs) as Hrs by (subst rs; destruct s; assumption).
  destruct (enqueue_events_facts context p v rs) as (E1 & E2 & E3 & E4 & E5 & E6).
  assert (omap thenable_of ((fun r => PromiseReactionJob context r v) <$> rs) = []) as Hth by (clear; induction rs; auto).
  unfold w'. apply (with_history_ok (p :: F) F w p o); auto.
  - change (enqueued (Settled p s v :: enqueue_events context p v rs ++ extra)) with (enqueued (enqueue_events context p v rs ++ extra)).
    now rewrite enqueued_app, E5, He1, app_nil_r.
  - change (executed (Settled p s v :: enqueue_events context p v rs ++ extra)) with (executed (enqueue_events context p v rs ++ extra)).
    now rewrite executed_app, E6, He2.
  - intros q Nq. apply (silent_app q [Settled p s v]); [now apply (silent_other q p)|]. apply silent_app; [|auto].
    split; [apply E1|]. split; [apply E2|now apply E4].
  - apply Forall_fmap. eapply Forall_impl; [exact Hrs|]. auto.
  - assert (settled p (Settled p s v :: enqueue_events context p v rs ++ extra) = [(s, v)]) as HS.
    { unfold settled. cbn. rewrite Z.eqb_refl. f_equal. fold (settled p (enqueue_events context p v rs ++ extra)).
      rewrite settled_app, E2. apply Hextra. }
    assert (registered p (Settled p s v :: enqueue_events context p v rs ++ extra) = []) as HR.
    { change (registered p (enqueue_events context p v rs ++ extra) = []). rewrite registered_app, E1. apply Hextra. }
    assert (enqueued_by p (Settled p s v :: enqueue_events context p v rs ++ extra) = (fun r => PromiseReactionJob context r v) <$> rs) as HE.
    { change (enqueued_by p (enqueue_events context p v rs ++ extra) = (fun r => PromiseReactionJob context r v) <$> rs).
      rewrite enqueued_by_app, E3. destruct (Hextra p) as (_ & _ & ->). apply app_nil_r. }
    assert ((content <$> enqueued_by p (w_log w ++ Settled p s v :: enqueue_events context p v rs ++ extra)) =
      (fun ab => Some (picked s ab, v)) <$> registered p (w_log w)) as HC.
    { rewrite enqueued_by_app, Hh2, HE. cbn [app]. rewrite <- list_fmap_compose. subst rs.
      destruct s; [congruence|rewrite Hh3|rewrite Hh4]; rewrite <- list_fmap_compose; reflexivity. }
    unfold promise_history. cbn [m_state m_promiseResult m_fulfillReactions m_rejectReactions].
    rewrite settled_app, registered_app, Hh1, HS, HR, app_nil_r, HC. destruct s; [congruence|now split_and!..].
  - intros ow O1 O2 O3. cbn [app] in *. apply NoDup_cons in O2 as [O2a O2b]. split; [assumption|]. split; [intros q Hq; now right|].
    intros Hin. contradiction.
Qed.

Lemma pending_held F w p : ok (p :: F) w -> exists o, w_promises w !! p = Some o /\ m_state o = Pending.
Proof. intros [_ _ _ _ _ (owner & _ & _ & T) _]. now apply Forall_inv in T. Qed.

Lemma fulfill_ok context F w p v : ok (p :: F) w -> exists w', fulfill context w p v = Ok w' /\ ok F w' /\ evolves w w'.
Proof.
  intros Hok. destruct (pending_held F w p Hok) as (o & Ho & _).
  pose proof (settle_ok context F w p o FulFilled v [] Hok Ho ltac:(discriminate) ltac:(intros q; now split_and!) eq_refl eq_refl) as Hs.
  eexists. split; [|exact Hs]. unfold fulfill, promise_at. rewrite Ho. cbn [defined mbind result_bind].
  rewrite trigger_spec. unfold with_history, with_promises, log. cbn. rewrite insert_insert_eq, app_nil_r, <- app_assoc. reflexivity.
Qed.

Lemma reject_ok context registered F w p v : ok (p :: F) w -> exists w', reject context registered w p v = Ok w' /\ ok F w' /\ evolves w w'.
Proof.
  intros Hok. destruct (pending_held F w p Hok) as (o & Ho & _).
  set (extra := match m_rejectReactions o with
                | [] => if registered then [Reported p v PromiseRejectWithNoHandler] else []
                | _ => [] end).
  assert ((forall q, silent q extra) /\ enqueued extra = [] /\ executed extra = []) as (E1 & E2 & E3)
    by (subst extra; destruct (m_rejectReactions o), registered; (split; [intros q; now split_and!|now split])).
  pose proof (settle_ok context F w p o Rejected v extra Hok Ho ltac:(discriminate) E1 E2 E3) as Hs.
  eexists. split; [|exact Hs]. unfold reject, promise_at. rewrite Ho. cbn [defined mbind result_bind]. unfold extra, with_history, with_promises, log.
  destruct (m_rejectReactions o) as [|r rs] eqn:Er.
  - destruct registered; cbn; rewrite insert_insert_eq, ?app_nil_r, <- ?app_assoc; reflexivity.
  - rewrite trigger_spec. cbn. rewrite insert_insert_eq, app_nil_r, <- app_assoc. reflexivity.
Qed.

(** ** The functions that resolve a promise *)

(** The record of a function is set: the call holds the promise now. *)
Lemma set_resolved_ok F w f p a : ok F w -> w_functions w !! f = Some (ResolveFunction p a) \/ w_functions w !! f = Some (RejectFunction p a) ->
  w_resolved w !! a = Some false ->
  ok (p :: F) (with_resolved w (<[a := true]> (w_resolved w))) /\ evolves w (with_resolved w (<[a := true]> (w_resolved w))).
Proof.
  intros [A B C D E (owner & T1 & T2 & T3) Q] Hf Ha.
  assert (evolves w (with_resolved w (<[a := true]> (w_resolved w)))) as Hev.
  { split; cbn; eauto; [|exists []; rewrite !app_nil_r; now split_and!].
    intros b Hb. destruct (decide (a = b)) as [->|]; [rewrite lookup_insert_eq; eauto|now rewrite lookup_insert_ne]. }
  split; [|assumption].
  assert (owner !! a = Some p) as Ho by (destruct Hf as [Hf|Hf]; exact (T1 f _ Hf)).
  split; cbn; auto.
  - intros b Hb. specialize (A b Hb). rewrite lookup_insert_ne; [assumption|]. intros ->. destruct A as (_ & _ & A & _). congruence.
  - intros g x Hg. apply (function_ok_mono w); [assumption|]. now apply (B g).
  - exists owner. split; [exact T1|]. unfold tokens in *. cbn.
    assert (F ++ live_records owner (w_resolved w) ++ omap thenable_of (m_jobs w) ≡ₚ
      p :: F ++ live_records owner (<[a := true]> (w_resolved w)) ++ omap thenable_of (m_jobs w)) as Hperm.
    { rewrite (live_set owner (w_resolved w) a p Ha Ho). cbn. symmetry. apply Permutation_middle. }
    split; [now rewrite Hperm in T2|]. now rewrite Hperm in T3.
Qed.

(** The resolution with a thenable hands the promise to a job. *)
Lemma enqueue_thenable_ok F w context p t f : ok (p :: F) w ->
  ok F (enqueueJob w None (PromiseResolveThenableJob context p t f)) /\
  evolves w (enqueueJob w None (PromiseResolveThenableJob context p t f)).
Proof.
  intros Hok. destruct (pending_held F w p Hok) as (o & Ho & Hp). destruct Hok as [A B C D E (owner & T1 & T2 & T3) Q].
  set (j := PromiseResolveThenableJob context p t f).
  assert (evolves w (enqueueJob w None j)) as Hev by (split; cbn; eauto; now exists [Enqueued None j]).
  assert (forall q, silent q [Enqueued None j]) as Hs by (intros q; now split_and!).
  split; [|assumption]. split; cbn; auto.
  - apply Forall_app. split; [exact C|]. repeat constructor. cbn. eauto.
  - intros q r Hq. destruct (D q r Hq) as (D1 & D2). split; [|exact D2]. now apply history_silent.
  - intros q Hq. apply silent_app; auto.
  - exists owner. split; [exact T1|]. unfold tokens in *. cbn. rewrite omap_app. cbn.
    assert (F ++ live_records owner (w_resolved w) ++ omap thenable_of (m_jobs w) ++ [p] ≡ₚ
      p :: F ++ live_records owner (w_resolved w) ++ omap thenable_of (m_jobs w)) as Hperm by (rewrite !app_assoc; symmetry; apply Permutation_cons_append).
    rewrite Hperm. split; assumption.
  - rewrite enqueued_app, executed_app, Q. cbn. now rewrite app_nil_r, app_assoc.
Qed.

(** New functions for a promise that is held. *)
Lemma createResolvingFunctions_ok F w p : ok (p :: F) w ->
  ok F (createResolvingFunctions w p).1 /\ evolves w (createResolvingFunctions w p).1 /\ complete (createResolvingFunctions w p).2.
Proof.
  intros Hok. destruct (pending_held F w p Hok) as (o & Ho & Hp). destruct Hok as [A B C D E (owner & T1 & T2 & T3) Q].
  assert (forall i, 0 <= i -> w_functions w !! (w_next w + i) = None /\ w_resolved w !! (w_next w + i) = None) as Hfresh
    by (intros i Hi; destruct (A (w_next w + i) ltac:(lia)) as (_ & ? & ? & _); auto).
  destruct (Hfresh 0 ltac:(lia)) as [_ Hr0]. rewrite Z.add_0_r in Hr0.
  assert (evolves w (createResolvingFunctions w p).1) as Hev.
  { split; cbn; eauto.
    - etransitivity; [apply insert_subseteq, (Hfresh 1); lia|]. apply insert_subseteq. rewrite lookup_insert_ne by lia. apply (Hfresh 2). lia.
    - intros a Ha. destruct (decide (w_next w = a)) as [->|]; [rewrite lookup_insert_eq; eauto|now rewrite lookup_insert_ne].
    - exists []. rewrite !app_nil_r. now split_and!. }
  split; [|split; [assumption|split; cbn; eauto]]. split; cbn; auto.
  - intros a Ha. destruct (A a ltac:(lia)) as (A1 & A2 & A3 & A4). rewrite !lookup_insert_ne by lia. now split_and!.
  - intros f g Hf. destruct (decide (w_next w + 2 = f)) as [<-|N2].
    { rewrite lookup_insert_eq in Hf. injection Hf as <-. cbn. rewrite lookup_insert_eq. eauto. }
    rewrite lookup_insert_ne in Hf by assumption. destruct (decide (w_next w + 1 = f)) as [<-|N1].
    { rewrite lookup_insert_eq in Hf. injection Hf as <-. cbn. rewrite lookup_insert_eq. eauto. }
    rewrite lookup_insert_ne in Hf by assumption. apply (function_ok_mono w); [assumption|]. now apply (B f).
  - exists (<[w_next w := p]> owner). split.
    + intros f g Hf. cbn in Hf. destruct (decide (w_next w + 2 = f)) as [<-|N2].
      { rewrite lookup_insert_eq in Hf. injection Hf as <-. apply lookup_insert_eq. }
      rewrite lookup_insert_ne in Hf by assumption. destruct (decide (w_next w + 1 = f)) as [<-|N1].
      { rewrite lookup_insert_eq in Hf. injection Hf as <-. apply lookup_insert_eq. }
      rewrite lookup_insert_ne in Hf by assumption. specialize (T1 f g Hf). pose proof (B f g Hf) as Bg.
      destruct g; auto; cbn in Bg; rewrite lookup_insert_ne; auto; intros <-; rewrite Hr0 in Bg; destruct Bg as [_ [? ?]]; discriminate.
    + unfold tokens in *. cbn. rewrite (live_insert owner (w_resolved w) (w_next w) p Hr0). cbn.
      rewrite <- Permutation_middle. split; [exact T2|exact T3].
Qed.

Lemma new_promise_ok F w : ok F w -> ok F (new_promise w).1 /\ evolves w (new_promise w).1 /\ complete (new_promise w).2.
Proof.
  intros [A B C D E (owner & T1 & T2 & T3) Q]. unfold new_promise. set (p := w_next w).
  set (w1 := with_next (with_promises w (<[p := new_PromiseObject]> (w_promises w))) (w_next w + 1)).
  assert (w_promises w !! p = None) as Hp by (apply (A p); subst p; lia).
  assert (evolves w w1) as Hev.
  { split; cbn; eauto; [|exists []; rewrite !app_nil_r; now split_and!].
    intros q Hq. destruct (decide (p = q)) as [->|]; [rewrite lookup_insert_eq; eauto|now rewrite lookup_insert_ne]. }
  assert (forall q, is_pending w q -> is_pending w1 q) as Hpend.
  { intros q (o & Ho & Hs). exists o. cbn. rewrite lookup_insert_ne by congruence. now split. }
  destruct (createResolvingFunctions_ok F w1 p) as (H1 & H2 & H3).
  { split; cbn; auto.
    - intros a Ha. destruct (A a ltac:(lia)) as (A1 & A2). rewrite lookup_insert_ne by (subst p; lia). now split.
    - intros f g Hf. apply (function_ok_mono w); [assumption|]. now apply (B f).
    - eapply Forall_impl; [exact C|]. intros j. now apply job_ok_mono.
    - intros q o Hq. destruct (decide (p = q)) as [<-|N].
      + rewrite lookup_insert_eq in Hq. injection Hq as <-. destruct (E p Hp) as (E1 & E2 & E3).
        unfold promise_history. cbn. rewrite E1, E2, E3. now split_and!.
      + rewrite lookup_insert_ne in Hq by assumption. auto.
    - intros q Hq. destruct (decide (p = q)) as [<-|N]; [now rewrite lookup_insert_eq in Hq|]. rewrite lookup_insert_ne in Hq by assumption. auto.
    - exists owner. split; [exact T1|]. unfold tokens in *. cbn [app w_resolved m_jobs w1 with_next with_promises]. split.
      + apply NoDup_cons. split; [|exact T2]. intros Hin. rewrite Forall_forall in T3. destruct (T3 p Hin) as (o & Ho & _). congruence.
      + apply Forall_cons. split; [|eapply Forall_impl; eauto]. exists new_PromiseObject. cbn. now rewrite lookup_insert_eq. }
  split; [assumption|]. split; [|assumption]. now apply (evolves_trans w w1).
Qed.

(** ** Registering reactions *)

Lemma then_reactions isC w a b capability :
  match capability with
  | Some c => complete c
  | None => isCallable isC w a = true /\ isCallable isC w b = true
  end ->
  let c := default (mkCapability None None None) capability in
  reaction_ok (mkReaction c (if isCallable isC w a then Function a else Identity)) /\
  reaction_ok (mkReaction c (if isCallable isC w b then Function b else Thrower)).
Proof.
  destruct capability as [c|]; cbn.
  - intros Hc. split; now left.
  - intros [-> ->]. split; right; cbn; eauto.
Qed.

Lemma promise_then_ok context callback isC F w p a b capability : ok F w ->
  match capability with
  | Some c => complete c
  | None => isCallable isC w a = true /\ isCallable isC w b = true
  end -> is_Some (w_promises w !! p) ->
  exists w' r, promise_then context callback isC w p a b capability = Ok (w', r) /\ ok F w' /\ evolves w w'.
Proof.
  intros Hok Hcap [o Ho]. destruct (then_reactions isC w a b capability Hcap) as [Hrf Hrr].
  unfold promise_then, promise_at. rewrite Ho. cbn [defined mbind result_bind].
  set (rf := mkReaction _ (if isCallable isC w a then _ else _)) in *. set (rr := mkReaction _ (if isCallable isC w b then _ else _)) in *.
  pose proof Hok as [_ _ _ D _ _ _]. destruct (D p o Ho) as (Hh & H1 & H2).
  assert (forall o' events jobs, jobs = enqueued events -> executed events = [] -> (forall q, q <> p -> silent q events) ->
    Forall (job_ok w) jobs -> omap thenable_of jobs = [] -> promise_history p o' (w_log w ++ events) ->
    Forall reaction_ok (m_fulfillReactions o') -> Forall reaction_ok (m_rejectReactions o') -> m_state o' = m_state o ->
    ok F (with_history w p o' jobs events) /\ evolves w (with_history w p o' jobs events)) as Step.
  { intros o' events jobs. intros. apply (with_history_ok F F w p o); auto. intros owner _ T2 T3. split; [assumption|]. split; [auto|].
    intros Hin. rewrite Forall_forall in T3. destruct (T3 p Hin) as (o2 & Ho2 & Hp2). congruence. }
  assert (forall q es, q <> p -> silent q es -> silent q (Registered p rf rr :: es)) as Hs
    by (intros q es N Hes; apply (silent_app q [_]); [now apply (silent_other q p)|assumption]).
  assert (forall q j es, q <> p -> silent q es -> silent q (Registered p rf rr :: Enqueued (Some p) j :: es)) as Hs2
    by (intros q j es N Hes; apply Hs; [assumption|]; apply (silent_app q [_]); [now apply (silent_other q p)|assumption]).
  destruct (m_state o) eqn:Es.
  - eexists _, _. split; [reflexivity|].
    pose proof (Step _ [Registered p rf rr] [] eq_refl eq_refl (fun q N => Hs q [] N (silent_nil q)) (Forall_nil_2 _) eq_refl
      (history_pending p o _ rf rr Es Hh)) as HS.
    unfold with_history in HS. rewrite app_nil_r in HS. apply HS; [apply Forall_app; split; [assumption|now apply Forall_singleton]..|reflexivity].
  - eexists _, _. split; [reflexivity|]. set (j := PromiseReactionJob context rf (m_promiseResult o)).
    pose proof (history_settled p o (w_log w) rf rr context ltac:(congruence) Hh) as Hh'. rewrite Es in Hh'.
    pose proof (Step o [Registered p rf rr; Enqueued (Some p) j] [j] eq_refl eq_refl (fun q N => Hs2 q j [] N (silent_nil q)) (proj2 (Forall_singleton (job_ok w) j) Hrf) eq_refl Hh' H1 H2 Es) as HS.
    unfold with_history in HS. rewrite insert_id in HS by assumption. unfold enqueueJob, log, with_jobs. cbn. now rewrite <- app_assoc.
  - eexists _, _. split; [reflexivity|]. set (j := PromiseReactionJob context rr (m_promiseResult o)).
    set (extra := if callback then [Reported p (m_promiseResult o) PromiseHandlerAddedAfterReject] else []).
    assert ((forall q, silent q extra) /\ enqueued extra = [] /\ executed extra = []) as (X1 & X2 & X3)
      by (subst extra; destruct callback; (split; [intros q; now split_and!|now split])).
    pose proof (history_silent p o _ extra (X1 p) (history_settled p o (w_log w) rf rr context ltac:(congruence) Hh)) as Hh'.
    rewrite Es, <- app_assoc in Hh'.
    pose proof (Step o (Registered p rf rr :: Enqueued (Some p) j :: extra) [j] ltac:(change ([j] = j :: enqueued extra); now rewrite X2)
      ltac:(exact X3) (fun q N => Hs2 q j extra N (X1 q)) (proj2 (Forall_singleton (job_ok w) j) Hrr) eq_refl Hh' H1 H2 Es) as HS.
    unfold with_history in HS. rewrite insert_id in HS by assumption. unfold enqueueJob, log, with_jobs, extra in *. cbn [app] in *.
    destruct callback; cbn; rewrite <- !app_assoc; exact HS.
Qed.

(** ** Calls *)

(** What an activity keeps, whatever calls are under way. *)
Definition keeps (w w' : World) : Prop := forall F, ok F w -> ok F w' /\ evolves w w'.
Lemma keeps_refl w : keeps w w.
Proof. intros F H. split; [assumption|apply evolves_refl]. Qed.
Lemma keeps_trans w1 w2 w3 : keeps w1 w2 -> keeps w2 w3 -> keeps w1 w3.
Proof.
  intros H1 H2 F Hok. destruct (H1 F Hok) as [Hok1 E1]. destruct (H2 F Hok1) as [Hok2 E2]. split; [assumption|].
  now apply (evolves_trans w1 w2).
Qed.

(** Changes of the parts that promises do not use. *)
Lemma other_parts_ok F w w' : ok F w -> w_promises w' = w_promises w -> w_resolved w' = w_resolved w -> m_jobs w' = m_jobs w ->
  w_log w' = w_log w -> evolves w w' ->
  (forall f g, w_functions w' !! f = Some g -> w_functions w !! f = Some g \/
     (function_ok w' g /\ match g with ResolveFunction _ _ | RejectFunction _ _ => False | _ => True end)) ->
  (forall a, w_next w' <= a -> w_next w <= a /\ w_functions w' !! a = None /\ w_called w' !! a = None /\ w_capabilities w' !! a = None /\
     w_values w' !! a = None /\ w_counters w' !! a = None) -> ok F w'.
Proof.
  intros [A B C D E (owner & T1 & T2 & T3) Q] Ep Er Ej El Hev Hf Ha. split.
  - intros a H. destruct (Ha a H) as (H1 & H2 & H3 & H4 & H5 & H6). destruct (A a H1) as (A1 & _ & A3 & _).
    rewrite Ep, Er. now split_and!.
  - intros f g Hg. destruct (Hf f g Hg) as [H|[H _]]; [|assumption]. apply (function_ok_mono w); [assumption|]. now apply (B f).
  - rewrite Ej. eapply Forall_impl; [exact C|]. intros j. now apply job_ok_mono.
  - intros p o. rewrite Ep, El. auto.
  - intros p. rewrite Ep, El. auto.
  - exists owner. unfold tokens. rewrite Er, Ej. split; [|split; [exact T2|]].
    + intros f g Hg. destruct (Hf f g Hg) as [H|[_ H]]; [exact (T1 f g H)|destruct g; tauto].
    + eapply Forall_impl; [exact T3|]. intros q (o & Ho & Hs). exists o. now rewrite Ep.
  - now rewrite El, Ej.
Qed.

Section Calls.
Context (context : Z) (callback : bool) (isObject isC : Z -> bool).
Context (createError : World -> Z) (createArray : World -> list Z -> Z).
Context (get_then : World -> Z -> World * Completion) (script : World -> Z -> Z -> list Z -> World * Completion).
Context (settled_object : World -> bool -> Z -> Z) (aggregate_error : World -> list Z -> Z).
Context (get_keeps : forall w o, keeps w (get_then w o).1) (script_keeps : forall w f t l, keeps w (script w f t l).1).

Notation resolve_functions := (promiseResolveFunctions context callback isObject isC createError get_then).
Notation reject_functions := (promiseRejectFunctions context callback).
Notation call := (call context callback isObject isC createError createArray get_then script settled_object aggregate_error).
Notation call_function := (call_function context callback isObject isC createError createArray get_then script settled_object aggregate_error).

Lemma promiseResolveFunctions_ok F w f p a v : ok F w -> w_functions w !! f = Some (ResolveFunction p a) ->
  exists w', resolve_functions w p a v = Ok w' /\ ok F w' /\ evolves w w'.
Proof.
  intros Hok Hf. destruct (ok_functions F w Hok f _ Hf) as [_ [b Hb]]. unfold promiseResolveFunctions. rewrite Hb. cbn [defined mbind result_bind].
  destruct b; [exists w; split; [reflexivity|]; split; [assumption|apply evolves_refl]|].
  destruct (set_resolved_ok F w f p a Hok (or_introl Hf) Hb) as [Hok1 Hev1]. set (w1 := with_resolved _ _) in *.
  assert (forall G w2 (r : result World), ok G w2 -> evolves w w2 -> (exists w', r = Ok w' /\ ok F w' /\ evolves w2 w') ->
    exists w', r = Ok w' /\ ok F w' /\ evolves w w') as Finish.
  { intros G w2 r _ H2 (w' & E & H3 & H4). exists w'. split; [assumption|]. split; [assumption|]. now apply (evolves_trans w w2). }
  destruct (v =? p); [apply (Finish _ _ _ Hok1 Hev1), reject_ok; assumption|].
  destruct (isObject v); cbn [negb]; [|apply (Finish _ _ _ Hok1 Hev1), fulfill_ok; assumption].
  destruct (get_keeps w1 v (p :: F) Hok1) as [Hok2 Hev2]. destruct (get_then w1 v) as [w2 x]. cbn [fst] in *.
  pose proof (evolves_trans w w1 w2 Hev1 Hev2) as Hev. destruct x as [t|e]; [|apply (Finish _ _ _ Hok2 Hev), reject_ok; assumption].
  destruct (isCallable isC w2 t); [|apply (Finish _ _ _ Hok2 Hev), fulfill_ok; assumption].
  apply (Finish _ _ _ Hok2 Hev). eexists. split; [reflexivity|]. now apply enqueue_thenable_ok.
Qed.

Lemma promiseRejectFunctions_ok F w f p a v : ok F w -> w_functions w !! f = Some (RejectFunction p a) ->
  exists w', reject_functions w p a v = Ok w' /\ ok F w' /\ evolves w w'.
Proof.
  intros Hok Hf. destruct (ok_functions F w Hok f _ Hf) as [_ [b Hb]]. unfold promiseRejectFunctions. rewrite Hb. cbn [defined mbind result_bind].
  destruct b; [exists w; split; [reflexivity|]; split; [assumption|apply evolves_refl]|].
  destruct (set_resolved_ok F w f p a Hok (or_intror Hf) Hb) as [Hok1 Hev1].
  destruct (reject_ok context callback F _ p v Hok1) as (w' & E & H3 & H4). exists w'. split; [assumption|]. split; [assumption|].
  now apply (evolves_trans w (with_resolved w (<[a := true]> (w_resolved w)))).
Qed.

Lemma executor_ok F w f c resolve reject : ok F w -> w_functions w !! f = Some (CapabilityExecutor c) ->
  exists w' x, getCapabilitiesExecutorFunction createError w c resolve reject = Ok (w', x) /\ ok F w' /\ evolves w w'.
Proof.
  intros Hok Hf. destruct (ok_functions F w Hok f _ Hf) as [[r j] Hc]. unfold getCapabilitiesExecutorFunction. rewrite Hc.
  cbn [defined mbind result_bind]. destruct (_ || _).
  { eexists _, _. split; [reflexivity|]. split; [assumption|apply evolves_refl]. }
  assert (evolves w (with_capabilities w (<[c := (resolve, reject)]> (w_capabilities w)))) as Hev.
  { split; cbn; eauto; [|exists []; rewrite !app_nil_r; now split_and!].
    intros b Hb. destruct (decide (c = b)) as [->|]; [rewrite lookup_insert_eq; eauto|now rewrite lookup_insert_ne]. }
  eexists _, _. split; [reflexivity|]. split; [|assumption]. apply (other_parts_ok F w); auto.
  intros a Ha. cbn in *. destruct (ok_fresh F w Hok a Ha) as (_ & H2 & _ & H4 & H5 & H6 & H7).
  rewrite lookup_insert_ne by (intros ->; congruence). now split_and!.
Qed.

(** How many element functions were not called yet. *)
Definition uncalled (w : World) : nat := size (filter (fun ab : Z * bool => ab.2 = false) (w_called w)).
Lemma uncalled_set (m : gmap Z bool) a : m !! a = Some false ->
  size (filter (fun ab : Z * bool => ab.2 = false) m) = S (size (filter (fun ab : Z * bool => ab.2 = false) (<[a := true]> m))).
Proof.
  intros Ha. rewrite <- (insert_delete_id m a false Ha) at 1. rewrite <- (insert_delete_eq m a true).
  rewrite map_filter_insert_True by reflexivity. rewrite map_filter_insert_False by discriminate.
  rewrite delete_delete_eq. rewrite map_size_insert_None; [reflexivity|].
  apply map_lookup_filter_None. left. apply lookup_delete_eq.
Qed.

Lemma element_ok fuel F w called i values target remaining entry last :
  (forall F w f t l, ok F w -> (uncalled w < fuel)%nat -> exists w' x, call fuel w f t l = Ok (w', x) /\ ok F w' /\ evolves w w') ->
  ok F w -> is_Some (w_called w !! called) -> is_Some (w_counters w !! remaining) ->
  (exists l, w_values w !! values = Some l /\ 0 <= asUInt32 i < Z.of_nat (length l)) -> (uncalled w < S fuel)%nat ->
  exists w' x, element_function (call fuel) w called i values target remaining entry last = Ok (w', x) /\ ok F w' /\ evolves w w'.
Proof.
  intros Hcall Hok [b Hb] [n Hn] (l & Hl & Hi) Hfuel. unfold element_function. rewrite Hb. cbn [defined mbind result_bind].
  destruct b; [exists w, (Returned ValueUndefined); split; [reflexivity|]; split; [assumption|apply evolves_refl]|].
  change (w_values (with_called _ _)) with (w_values w). change (w_counters (with_called _ _)) with (w_counters w).
  rewrite Hl, Hn. cbn [defined mbind result_bind]. rewrite (proj2 (Z.leb_gt _ _)) by lia.
  set (w1 := with_counters _ _).
  assert (evolves w w1) as Hev.
  { split; cbn; eauto; [| | |exists []; rewrite !app_nil_r; now split_and!].
    - intros a Ha. destruct (decide (called = a)) as [->|]; [rewrite lookup_insert_eq; eauto|now rewrite lookup_insert_ne].
    - intros a Ha. destruct (decide (remaining = a)) as [->|]; [rewrite lookup_insert_eq; eauto|now rewrite lookup_insert_ne].
    - intros a k Hk. destruct (decide (values = a)) as [->|].
      + rewrite lookup_insert_eq. eexists. split; [reflexivity|]. rewrite length_insert. assert (k = l) by congruence. subst. lia.
      + rewrite lookup_insert_ne by assumption. eauto. }
  assert (ok F w1) as Hok1.
  { apply (other_parts_ok F w); auto. intros a Ha. cbn in *. destruct (ok_fresh F w Hok a Ha) as (_ & H2 & _ & H4 & H5 & H6 & H7).
    rewrite !lookup_insert_ne by (intros ->; congruence). now split_and!. }
  destruct (u64 (n - 1) =? 0).
  - destruct (Hcall F w1 target ValueUndefined [last w1 (<[Z.to_nat (asUInt32 i) := entry]> l)] Hok1) as (w' & x & E & Hok' & Hev').
    { unfold uncalled in *. cbn. rewrite (uncalled_set (w_called w) called Hb) in Hfuel. lia. }
    exists w', x. split; [exact E|]. split; [assumption|]. now apply (evolves_trans w w1).
  - exists w1, (Returned ValueUndefined). now split_and!.
Qed.

Lemma call_ok fuel : forall F w f t l, ok F w -> (uncalled w < fuel)%nat ->
  exists w' x, call fuel w f t l = Ok (w', x) /\ ok F w' /\ evolves w w'.
Proof.
  induction fuel as [|fuel IH]; intros F w f t l Hok Hf; [lia|]. cbn [Promises.call].
  destruct (w_functions w !! f) as [g|] eqn:Eg.
  2: { destruct (script_keeps w f t l F Hok) as [H1 H2]. destruct (script w f t l) as [w' x]. now exists w', x. }
  pose proof (ok_functions F w Hok f g Eg) as Hg. destruct g; cbn in Hg.
  - destruct (promiseResolveFunctions_ok F w f _ _ (argument l 0) Hok Eg) as (w' & -> & H). cbn. eauto.
  - destruct (promiseRejectFunctions_ok F w f _ _ (argument l 0) Hok Eg) as (w' & -> & H). cbn. eauto.
  - exact (executor_ok F w f _ (argument l 0) (argument l 1) Hok Eg).
  - destruct Hg as (H1 & H2 & H3). now apply element_ok.
  - destruct Hg as (H1 & H2 & H3). now apply element_ok.
  - destruct Hg as (H1 & H2 & H3). now apply element_ok.
  - destruct Hg as (H1 & H2 & H3). now apply element_ok.
Qed.

Lemma call_function_ok F w f t l : ok F w -> exists w' x, call_function w f t l = Ok (w', x) /\ ok F w' /\ evolves w w'.
Proof.
  intros Hok. apply call_ok; [assumption|]. unfold uncalled. pose proof (map_filter_subseteq (fun ab : Z * bool => ab.2 = false) (w_called w)) as Hs.
  apply map_subseteq_size in Hs. lia.
Qed.

End Calls.

(** ** Capabilities and elements under construction *)

(** Parts of the world that only get new entries, all of them fresh. *)
Ltac evolve := split; cbn; eauto; try reflexivity; [.. | exists []; rewrite !app_nil_r; now split_and!].
Lemma is_Some_insert {A} (m : gmap Z A) a b x : is_Some (m !! b) -> is_Some (<[a := x]> m !! b).
Proof. intros H. destruct (decide (a = b)) as [->|]; [rewrite lookup_insert_eq; eauto|now rewrite lookup_insert_ne]. Qed.

Lemma new_capability_ok w : keeps w (new_capability w).1.
Proof.
  intros F Hok. pose proof (ok_fresh F w Hok) as A.
  assert (evolves w (new_capability w).1) as Hev.
  { evolve; [apply insert_subseteq; apply A; lia|intros; now apply is_Some_insert]. }
  split; [|assumption]. apply (other_parts_ok F w); auto.
  - cbn. intros f g Hf. apply lookup_insert_Some in Hf as [[<- <-]|[_ Hf]]; [right|now left]. split; [|exact I]. cbn. rewrite lookup_insert_eq. eauto.
  - cbn. intros a Ha. destruct (A a ltac:(lia)) as (_ & H2 & _ & H4 & H5 & H6 & H7). rewrite !lookup_insert_ne by lia. split_and!; auto. lia.
Qed.

Lemma new_elements_ok w : keeps w (new_elements w).1.
Proof.
  intros F Hok. pose proof (ok_fresh F w Hok) as A.
  assert (evolves w (new_elements w).1) as Hev.
  { evolve; [intros; now apply is_Some_insert|]. intros a l Hl. rewrite lookup_insert_ne; [eauto|].
    intros <-. destruct (A (w_next w) ltac:(lia)) as (_ & _ & _ & _ & _ & H6 & _). congruence. }
  split; [|assumption]. apply (other_parts_ok F w); auto.
  cbn. intros a Ha. destruct (A a ltac:(lia)) as (_ & H2 & _ & H4 & H5 & H6 & H7). rewrite !lookup_insert_ne by lia. split_and!; auto. lia.
Qed.

Lemma append_value_ok w values w' : append_value w values = Ok w' -> keeps w w'.
Proof.
  unfold append_value. intros E F Hok. destruct (w_values w !! values) as [l|] eqn:El; [|discriminate]. injection E as <-.
  set (w1 := with_values _ _). assert (evolves w w1) as Hev.
  { evolve. intros a k Hk. destruct (decide (values = a)) as [->|N].
    - rewrite lookup_insert_eq. eexists. split; [reflexivity|]. rewrite length_app. assert (k = l) by congruence. subst. lia.
    - rewrite lookup_insert_ne by assumption. eauto. }
  split; [|assumption]. apply (other_parts_ok F w); auto. cbn. intros a Ha.
  destruct (ok_fresh F w Hok a Ha) as (_ & H2 & _ & H4 & H5 & H6 & H7). rewrite lookup_insert_ne by (intros ->; congruence). now split_and!.
Qed.
Lemma asUInt32_index kind i : 0 <= i < 2 ^ 31 -> asUInt32 (index_value kind i) = i.
Proof.
  intros Hi. assert (i32 i = i) as E1 by (apply wraps_id; unfold in_s; lia). assert (u32 i = i) as E2 by (apply wrapu_id; unfold in_u; lia).
  assert (index_value kind i = Value_int i) as ->.
  { destruct kind; unfold index_value, Value_long, Value_unsigned_long, Value_unsigned; cbv zeta; rewrite ?E2, ?Z.eqb_refl; cbn [negb];
      rewrite ?E1, ?Z.eqb_refl; cbn [negb]; try reflexivity. now rewrite (proj2 (Z.ltb_ge i 0)) by lia. }
  unfold asUInt32. rewrite WordFacts.asInt32_Value_int by (unfold in_s; lia). exact E2.
Qed.

Lemma new_element_ok kind w index values l remaining target w' fs :
  w_values w !! values = Some l -> 0 <= index < Z.of_nat (length l) -> index < 2 ^ 31 ->
  new_element kind w index values remaining target = Ok (w', fs) -> keeps w w'.
Proof.
  unfold new_element. intros Hl Hi Hb E F Hok. pose proof (ok_fresh F w Hok) as A.
  destruct (w_counters w !! remaining) as [n|] eqn:En; [|discriminate]. cbn [defined mbind result_bind] in E. cbv zeta in E.
  set (new := match kind with All => _ | AllSettled => _ | AnyOf => _ end) in E. injection E as <- <-.
  assert (forall f g, (list_to_map new : gmap Z NativeFunction) !! f = Some g ->
    w_next w + 1 <= f < w_next w + 3 /\ exists i, i = index_value kind index /\ match g with
    | AllResolveElement c j v _ r | AllSettledResolveElement c j v _ r | AllSettledRejectElement c j v _ r | AnyRejectElement c j v _ r =>
        c = w_next w /\ j = i /\ v = values /\ r = remaining
    | _ => False end) as Hnew.
  { intros f g Hf. apply elem_of_list_to_map_2 in Hf. subst new. destruct kind; cbn in Hf;
      repeat (apply elem_of_cons in Hf as [Hf|Hf]; [injection Hf as -> ->; split; [lia|]; now eexists|]); now apply not_elem_of_nil in Hf. }
  assert (forall f, w_next w + 3 <= f -> (list_to_map new : gmap Z NativeFunction) !! f = None) as Hout.
  { intros f Hf. destruct (list_to_map new !! f) as [g|] eqn:Eg; [|reflexivity]. destruct (Hnew f g Eg). lia. }
  set (w1 := with_next _ _). assert (evolves w w1) as Hev.
  { evolve; [|intros; now apply is_Some_insert..].
    apply map_union_subseteq_r. apply map_disjoint_spec. intros f g g' H1 H2. destruct (Hnew f g H1) as [Hr _].
    destruct (A f ltac:(lia)) as (_ & A2 & _). congruence. }
  split; [|assumption]. apply (other_parts_ok F w); auto.
  - cbn. intros f g Hf. apply lookup_union_Some_raw in Hf as [Hf|[_ Hf]]; [|now left]. right.
    destruct (Hnew f g Hf) as (_ & i & -> & Hg). destruct g; try (destruct Hg; fail); destruct Hg as (-> & -> & -> & ->); (split; [|exact I]); cbn.
    all: rewrite !lookup_insert_eq, (asUInt32_index kind index) by lia; split_and!; eauto.
  - cbn. intros a Ha. destruct (A a ltac:(lia)) as (_ & H2 & _ & H4 & H5 & H6 & H7).
    assert (remaining <> a) by (intros ->; congruence).
    rewrite !lookup_insert_ne by (assumption || lia). rewrite lookup_union, (Hout a Ha), H2. split_and!; auto. lia.
Qed.

(** ** Activities *)

Lemma end_elements_ok context callback isObject isC createError createArray get_then script settled_object aggregate_error
    w values remaining target last w' x :
  (forall w o, keeps w (get_then w o).1) -> (forall w f t l, keeps w (script w f t l).1) ->
  end_elements (call_function context callback isObject isC createError createArray get_then script settled_object aggregate_error)
    w values remaining target last = Ok (w', x) -> keeps w w'.
Proof.
  unfold end_elements. intros Hg Hs E F Hok. destruct (w_values w !! values) as [l|] eqn:El; [|discriminate].
  destruct (w_counters w !! remaining) as [n|] eqn:En; [|discriminate]. cbn [defined mbind result_bind] in E. set (w1 := with_counters _ _) in E.
  assert (evolves w w1) as Hev by (evolve; intros; now apply is_Some_insert).
  assert (ok F w1) as Hok1.
  { apply (other_parts_ok F w); auto. intros a Ha. cbn in *. destruct (ok_fresh F w Hok a Ha) as (_ & H2 & _ & H4 & H5 & H6 & H7).
    rewrite !lookup_insert_ne by (intros ->; congruence). now split_and!. }
  destruct (u64 (n - 1) =? 0); [|now injection E as <- <-].
  destruct (call_function_ok context callback isObject isC createError createArray get_then script settled_object aggregate_error Hg Hs
    F w1 target ValueUndefined [last w1 l] Hok1) as (w2 & y & E2 & Hok2 & Hev2).
  rewrite E2 in E. injection E as <- <-. split; [assumption|]. now apply (evolves_trans w w1).
Qed.

Lemma activity_ok isObject isC w w' : activity isObject isC w w' -> keeps w w'.
Proof.
  induction 1 as [w|w1 w2 w3 _ IH1 _ IH2|w|w|w|w values w' E|kind w index values l remaining target w' fs Hl Hi Hb E|context callback w p a b capability w' r Hc E|
    context callback ce ca get script so ae w f t l w' x _ IHg _ IHs E|context callback ce ca get script so ae w values remaining target last w' x _ IHg _ IHs E].
  - apply keeps_refl.
  - now apply (keeps_trans w1 w2).
  - intros F Hok. destruct (new_promise_ok F w Hok) as (H1 & H2 & _). now split.
  - apply new_capability_ok.
  - apply new_elements_ok.
  - now apply (append_value_ok w values).
  - now apply (new_element_ok kind w index values l remaining target w' fs).
  - intros F Hok. assert (is_Some (w_promises w !! p)) as Hp.
    { unfold promise_then, promise_at in E. destruct (w_promises w !! p); [eauto|discriminate]. }
    destruct (promise_then_ok context callback isC F w p a b capability Hok Hc Hp) as (w1 & r1 & E1 & H1 & H2).
    rewrite E1 in E. injection E as <- <-. now split.
  - intros F Hok. destruct (call_function_ok context callback isObject isC ce ca get script so ae IHg IHs F w f t l Hok) as (w1 & y & E1 & H1 & H2).
    rewrite E1 in E. injection E as <- <-. now split.
  - now apply (end_elements_ok context callback isObject isC ce ca get script so ae w values remaining target last w' x).
Qed.

(** ** Jobs *)

Section Jobs.
Context (context : Z) (callback : bool) (isObject isC : Z -> bool).
Context (createError : World -> Z) (createArray : World -> list Z -> Z).
Context (get_then : World -> Z -> World * Completion) (script : World -> Z -> Z -> list Z -> World * Completion).
Context (settled_object : World -> bool -> Z -> Z) (aggregate_error : World -> list Z -> Z).
Context (get_keeps : forall w o, keeps w (get_then w o).1) (script_keeps : forall w f t l, keeps w (script w f t l).1).

Notation call_function := (call_function context callback isObject isC createError createArray get_then script settled_object aggregate_error).
Notation call_pointer := (call_pointer context callback isObject isC createError createArray get_then script settled_object aggregate_error).
Notation run_reaction := (run_reaction context callback isObject isC createError createArray get_then script settled_object aggregate_error).
Notation run_thenable := (run_thenable context callback isObject isC createError createArray get_then script settled_object aggregate_error).
Notation executePendingJob := (executePendingJob context callback isObject isC createError createArray get_then script settled_object aggregate_error).

(** A computation that ends without undefined behaviour and keeps the invariant. *)
Definition runs (F : list Z) (w : World) (m : result (World * Completion)) : Prop :=
  exists w' x, m = Ok (w', x) /\ ok F w' /\ evolves w w'.
Lemma runs_later F w w1 m : evolves w w1 -> runs F w1 m -> runs F w m.
Proof. intros H (w' & x & E & H1 & H2). exists w', x. split; [assumption|]. split; [assumption|]. now apply (evolves_trans w w1). Qed.
Lemma call_runs F w f t l : ok F w -> runs F w (call_function w f t l).
Proof. intros Hok. now apply call_function_ok. Qed.
Lemma pointer_runs F w f l : ok F w -> is_Some f -> runs F w (call_pointer w f l).
Proof. intros Hok [g ->]. now apply call_runs. Qed.

Lemma run_reaction_ok F w r v : ok F w -> reaction_ok r -> runs F w (run_reaction w r v).
Proof.
  intros Hok Hr. unfold Promises.run_reaction. destruct (m_handler r) as [| |f] eqn:Eh.
  - destruct Hr as [[Hr _]|[_ [g Hg]]]; [now apply pointer_runs|congruence].
  - destruct Hr as [[_ Hr]|[_ [g Hg]]]; [now apply pointer_runs|congruence].
  - destruct (call_runs F w f ValueUndefined [v] Hok) as (w1 & x & -> & Hok1 & Hev1). cbn [mbind result_bind].
    assert (forall w2 y, ok F w2 -> evolves w w2 -> runs F w match y with
      | Returned res => Ok (w2, Returned res)
      | Thrown reason => match m_rejectFunction (m_capability r) with
                         | Some f => call_function w2 f ValueUndefined [reason]
                         | None => Ok (w2, Thrown reason)
                         end
      end) as Finish.
    { intros w2 y Hok2 Hev2. destruct y as [res|reason]; [now exists w2, (Returned res)|].
      destruct (m_rejectFunction (m_capability r)) as [g|]; [|now exists w2, (Thrown reason)].
      apply (runs_later F w w2); [assumption|]. now apply call_runs. }
    destruct x as [res|reason]; [|exact (Finish w1 (Thrown reason) Hok1 Hev1)].
    destruct (m_promise (m_capability r)) as [q|] eqn:Eq; [|exact (Finish w1 (Returned res) Hok1 Hev1)].
    assert (is_Some (m_resolveFunction (m_capability r))) as Hres by (destruct Hr as [[Hr _]|[Hr _]]; [assumption|rewrite Hr in Eq; discriminate]).
    destruct (pointer_runs F w1 _ [res] Hok1 Hres) as (w2 & y & -> & Hok2 & Hev2). cbn [mbind result_bind].
    exact (Finish w2 (match y with Returned _ => Returned res | Thrown _ => y end) Hok2 (evolves_trans w w1 w2 Hev1 Hev2)).
Qed.

Lemma run_thenable_ok F w p t f : ok (p :: F) w -> runs F w (run_thenable w p t f).
Proof.
  intros Hok. unfold Promises.run_thenable. destruct (createResolvingFunctions_ok F w p Hok) as (Hok1 & Hev1 & [resolve Hc1] & [reject Hc2]).
  destruct (createResolvingFunctions w p) as [w1 c]. cbn [fst snd] in *. rewrite Hc1, Hc2. cbn [defined mbind result_bind].
  apply (runs_later F w w1); [assumption|].
  destruct (call_runs F w1 f t [resolve; reject] Hok1) as (w2 & x & -> & Hok2 & Hev2). cbn [mbind result_bind].
  destruct x as [v|reason]; [now exists w2, (Returned v)|]. apply (runs_later F w1 w2); [assumption|]. now apply call_runs.
Qed.

(** The next job leaves the queue, and the run of the job holds its promise. *)
Definition popped (w : World) (j : Job) (jobs : list Job) : World := log (with_jobs w jobs) (Executed j).
Lemma popped_ok w j jobs : ok [] w -> m_jobs w = j :: jobs ->
  ok (match thenable_of j with Some p => [p] | None => [] end) (popped w j jobs).
Proof.
  intros [A B C D E (owner & T1 & T2 & T3) Q] Ej. rewrite Ej in C. split; auto.
  - exact (Forall_inv_tail C).
  - cbn. intros p o Hp. destruct (D p o Hp) as (D1 & D2). split; [|exact D2]. apply history_silent; [now split_and!|assumption].
  - cbn. intros p Hp. apply silent_app; [auto|now split_and!].
  - exists owner. split; [exact T1|]. unfold tokens in *. cbn [m_jobs popped log with_jobs w_resolved]. rewrite Ej in T2, T3.
    destruct j as [c r v|c p t f]; cbn in *; [now split|]. rewrite <- Permutation_middle in T2, T3. now split.
  - cbn. rewrite enqueued_app, executed_app, Q, Ej. cbn. now rewrite app_nil_r, <- app_assoc.
Qed.

(** A turn of the loop runs the first job, adds jobs at the end, and never goes wrong. *)
Lemma executePendingJob_ok w j jobs : ok [] w -> m_jobs w = j :: jobs ->
  exists w' x, executePendingJob w = Ok (w', x) /\ ok [] w' /\ evolves (popped w j jobs) w'.
Proof.
  intros Hok Ej. unfold Promises.executePendingJob, nextJob. rewrite Ej. cbn [mbind result_bind].
  pose proof (popped_ok w j jobs Hok Ej) as Hp. pose proof (ok_jobs [] w Hok) as Hj. rewrite Ej in Hj. apply Forall_inv in Hj.
  destruct j as [c r v|c p t f]; cbn in *.
  - exact (run_reaction_ok [] (popped w (PromiseReactionJob c r v) jobs) r v Hp Hj).
  - exact (run_thenable_ok [] (popped w (PromiseResolveThenableJob c p t f) jobs) p t f Hp).
Qed.

End Jobs.

Lemma turn_ok isObject isC w w' : turn isObject isC w w' -> ok [] w ->
  exists j jobs, m_jobs w = j :: jobs /\ ok [] w' /\ evolves (popped w j jobs) w'.
Proof.
  intros Ht Hok. destruct Ht as [context callback ce ca get script so ae w w' x Hg Hs E].
  destruct (m_jobs w) as [|j jobs] eqn:Ej; [unfold executePendingJob, nextJob in E; rewrite Ej in E; discriminate|].
  destruct (executePendingJob_ok context callback isObject isC ce ca get script so ae
    (fun w o => activity_ok isObject isC _ _ (Hg w o)) (fun w f t l => activity_ok isObject isC _ _ (Hs w f t l)) w j jobs Hok Ej)
    as (w1 & y & E1 & H1 & H2).
  rewrite E1 in E. injection E as <- <-. now exists j, jobs.
Qed.

Lemma initial_ok : ok [] initial_world.
Proof.
  split.
  - intros a _. now split_and!.
  - intros f g H. now destruct (lookup_empty_Some f g H).
  - constructor.
  - intros p o H. now destruct (lookup_empty_Some p o H).
  - intros p _. apply silent_nil.
  - exists ∅. split; [intros f g H; now destruct (lookup_empty_Some f g H)|]. split; constructor.
  - reflexivity.
Qed.
Lemma reachable_ok isObject isC w : reachable isObject isC w -> ok [] w.
Proof.
  induction 1 as [|w w' _ IH Ha|w w' _ IH Ht].
  - apply initial_ok.
  - now apply (activity_ok isObject isC w w' Ha []).
  - destruct (turn_ok isObject isC w w' Ht IH) as (j & jobs & _ & H & _). exact H.
Qed.

(** ** What later worlds keep *)

Inductive later (isObject isC : Z -> bool) : World -> World -> Prop :=
  | later_now w : later isObject isC w w
  | later_activity w1 w2 w3 : later isObject isC w1 w2 -> activity isObject isC w2 w3 -> later isObject isC w1 w3
  | later_turn w1 w2 w3 : later isObject isC w1 w2 -> turn isObject isC w2 w3 -> later isObject isC w1 w3.

Lemma later_ok isObject isC w w' : later isObject isC w w' -> ok [] w ->
  ok [] w' /\ (exists es, w_log w' = w_log w ++ es) /\ (forall p, is_Some (w_promises w !! p) -> is_Some (w_promises w' !! p)).
Proof.
  induction 1 as [w|w1 w2 w3 _ IH Ha|w1 w2 w3 _ IH Ht]; intros Hok.
  - split; [assumption|]. split; [exists []; now rewrite app_nil_r|auto].
  - destruct (IH Hok) as (Hok2 & [es Hes] & Hp). destruct (activity_ok isObject isC w2 w3 Ha [] Hok2) as [Hok3 Hev].
    split; [assumption|]. destruct (ev_log w2 w3 Hev) as (fs & Hfs & _). split; [exists (es ++ fs); now rewrite Hfs, Hes, app_assoc|].
    intros p H. now apply (ev_promises w2 w3 Hev), Hp.
  - destruct (IH Hok) as (Hok2 & [es Hes] & Hp). destruct (turn_ok isObject isC w2 w3 Ht Hok2) as (j & jobs & _ & Hok3 & Hev).
    split; [assumption|]. destruct (ev_log _ w3 Hev) as (fs & Hfs & _).
    split; [exists (es ++ [Executed j] ++ fs); rewrite Hfs; cbn; now rewrite Hes, <- !app_assoc|].
    intros p H. apply (ev_promises _ w3 Hev). now apply Hp.
Qed.

Lemma settled_forever w w' p o : ok [] w -> ok [] w' -> (exists es, w_log w' = w_log w ++ es) ->
  w_promises w !! p = Some o -> is_Some (w_promises w' !! p) -> m_state o <> Pending ->
  exists o', w_promises w' !! p = Some o' /\ m_state o' = m_state o /\ m_promiseResult o' = m_promiseResult o.
Proof.
  intros H1 H2 [es Hes] Ho [o' Ho'] Hs. exists o'. split; [assumption|].
  destruct (ok_promises [] w H1 p o Ho) as [Hh _]. destruct (ok_promises [] w' H2 p o' Ho') as [Hh' _].
  assert (settled p (w_log w) = [(m_state o, m_promiseResult o)]) as E1 by (unfold promise_history in Hh; destruct (m_state o); [congruence|apply Hh..]).
  assert (settled p (w_log w') = [] \/ settled p (w_log w') = [(m_state o', m_promiseResult o')]) as E2
    by (unfold promise_history in Hh'; destruct (m_state o'); [left; apply Hh'|right; apply Hh'..]).
  rewrite Hes, settled_app, E1 in E2. cbn in E2. destruct E2 as [E2|E2]; [discriminate|]. now injection E2 as -> -> _.
Qed.

(** Some turns of the loop, with activities in between. *)
Inductive rounds (isObject isC : Z -> bool) : nat -> World -> World -> Prop :=
  | rounds_none w : rounds isObject isC 0 w w
  | rounds_activity n w1 w2 w3 : activity isObject isC w1 w2 -> rounds isObject isC n w2 w3 -> rounds isObject isC n w1 w3
  | rounds_turn n w1 w2 w3 : turn isObject isC w1 w2 -> rounds isObject isC n w2 w3 -> rounds isObject isC (S n) w1 w3.

Lemma rounds_fifo isObject isC n w w' : rounds isObject isC n w w' -> ok [] w -> (n <= length (m_jobs w))%nat ->
  executed (w_log w') = executed (w_log w) ++ take n (m_jobs w) /\ exists new, m_jobs w' = drop n (m_jobs w) ++ new.
Proof.
  induction 1 as [w|n w1 w2 w3 Ha _ IH|n w1 w2 w3 Ht _ IH]; intros Hok Hn.
  - rewrite take_0, app_nil_r, drop_0. split; [reflexivity|]. exists []. now rewrite app_nil_r.
  - destruct (activity_ok isObject isC w1 w2 Ha [] Hok) as [Hok2 Hev]. destruct (ev_log w1 w2 Hev) as (es & Hl & Hj & Hx).
    destruct (IH Hok2) as [E (new & N)]; [rewrite Hj, length_app; lia|].
    rewrite Hl, executed_app, Hx, app_nil_r, Hj, take_app_le in E by lia. split; [assumption|].
    rewrite Hj, drop_app_le in N by lia. exists (enqueued es ++ new). now rewrite N, <- app_assoc.
  - destruct (turn_ok isObject isC w1 w2 Ht Hok) as (j & jobs & Ej & Hok2 & Hev). destruct (ev_log _ w2 Hev) as (es & Hl & Hj & Hx).
    cbn in Hl, Hj. rewrite Ej in *. cbn [length] in Hn.
    destruct (IH Hok2) as [E (new & N)]; [rewrite Hj, length_app; lia|].
    rewrite Hl, !executed_app, Hx, app_nil_r, Hj, take_app_le in E by lia. cbn in E |- *. rewrite <- app_assoc in E. split; [exact E|].
    rewrite Hj, drop_app_le in N by lia. exists (enqueued es ++ new). now rewrite N, <- app_assoc.
Qed.

End PromiseFacts.

(** * The elements of [Promise.all] and the like *)
Module ElementFacts.
Import Word Promises History PromiseFacts.

Definition missing (l : list (option Z)) : nat := length (filter (fun x => x = None) l).

(** How far the loop that makes the elements is: between two rounds, in a round
    whose functions are not made yet, or over. *)
Inductive phase := Between | Appended | Over.
Definition running (ph : phase) : bool := match ph with Over => false | _ => true end.
Definition extra (ph : phase) : list Z := match ph with Appended => [ValueUndefined] | _ => [] end.

(** The records that the element functions of one call share: the flags of the
    elements, the list of values and the counter; [l] are the values given so far. *)
Record elements (w : World) (flags : list Z) (values remaining : Z) (l : list (option Z)) (ph : phase) : Prop := {
  el_length : length flags = length l;
  el_distinct : NoDup flags;
  el_called i a : flags !! i = Some a -> w_called w !! a = Some (match l !! i with Some (Some _) => true | _ => false end);
  el_values : w_values w !! values = Some ((default ValueUndefined <$> l) ++ extra ph);
  el_counter : w_counters w !! remaining = Some (Z.of_nat (missing l) + (if running ph then 1 else 0));
  el_bound : Z.of_nat (length l) <= 2 ^ 31
}.

Lemma missing_app l k : missing (l ++ k) = (missing l + missing k)%nat.
Proof. unfold missing. now rewrite filter_app, length_app. Qed.
Lemma missing_le l : (missing l <= length l)%nat.
Proof. apply length_filter. Qed.
Lemma missing_insert l i v : l !! i = Some None -> missing l = S (missing (<[i := Some v]> l)).
Proof.
  intros Hi. rewrite <- (take_drop_middle l i None Hi) at 1. rewrite insert_take_drop by (eapply lookup_lt_Some; eassumption).
  rewrite !missing_app. change (None :: drop (S i) l) with ([None] ++ drop (S i) l).
  change (Some v :: drop (S i) l) with ([Some v] ++ drop (S i) l). rewrite !missing_app.
  change (missing [None]) with 1%nat. change (missing [Some v]) with 0%nat. lia.
Qed.

Lemma elements_start w w' values remaining : new_elements w = (w', (values, remaining)) ->
  elements w' [] values remaining [] Between.
Proof.
  intros [= <- <- <-]. split; [reflexivity|apply NoDup_nil_2|discriminate|apply lookup_insert_eq|apply lookup_insert_eq|].
  cbn. lia.
Qed.
Lemma elements_append w w' flags values remaining l : elements w flags values remaining l Between ->
  append_value w values = Ok w' -> elements w' flags values remaining l Appended /\ w_next w' = w_next w.
Proof.
  intros [H1 H2 H3 H4 H5 H6] E. unfold append_value in E. rewrite H4 in E. injection E as <-. split; [|reflexivity].
  split; auto. cbn. rewrite lookup_insert_eq, app_nil_r. reflexivity.
Qed.

(** The second part of a round adds an element without a value. *)
Lemma elements_add kind w w' flags values remaining l target fs : Forall (fun a => a < w_next w) flags ->
  elements w flags values remaining l Appended -> Z.of_nat (length l) < 2 ^ 31 ->
  new_element kind w (Z.of_nat (length l)) values remaining target = Ok (w', fs) ->
  elements w' (flags ++ [w_next w]) values remaining (l ++ [None]) Between /\ Forall (fun a => a < w_next w') (flags ++ [w_next w]).
Proof.
  intros Hfl [H1 H2 H3 H4 H5 H6] Hb E. unfold new_element in E. rewrite H5 in E. cbn [defined mbind result_bind] in E.
  injection E as <- _. pose proof (missing_le l). split; [split|].
  - rewrite !length_app. cbn. lia.
  - apply NoDup_app. split; [assumption|]. split; [|apply NoDup_singleton]. intros a Ha Hin. apply list_elem_of_singleton in Hin. subst a.
    rewrite Forall_forall in Hfl. specialize (Hfl _ Ha). lia.
  - cbn. intros i a Hi. destruct (decide (w_next w = a)) as [<-|N].
    + rewrite lookup_insert_eq. f_equal. apply lookup_app_Some in Hi as [Hi|[Hi Hi2]].
      * apply list_elem_of_lookup_2 in Hi. rewrite Forall_forall in Hfl. specialize (Hfl _ Hi). lia.
      * rewrite lookup_app_r by lia. destruct (i - length l)%nat as [|k]; [reflexivity|]. now destruct k.
    + rewrite lookup_insert_ne by assumption. apply lookup_app_Some in Hi as [Hi|[_ Hi]].
      * pose proof (lookup_lt_Some _ _ _ Hi). rewrite lookup_app_l by lia. now apply H3.
      * destruct (i - length flags)%nat as [|k]; [cbn in Hi; congruence|now destruct k].
  - cbn. rewrite H4, fmap_app. cbn. now rewrite app_nil_r.
  - cbn. rewrite lookup_insert_eq, missing_app. change (missing [None]) with 1%nat. f_equal.
    cbn [running]. rewrite wrapu_id by (unfold in_u; lia). lia.
  - rewrite length_app. cbn. lia.
  - cbn. apply Forall_app. split; [|apply Forall_singleton; lia]. eapply Forall_impl; [exact Hfl|]. cbn. intros; lia.
Qed.

(** A call of an element function: the first one stores its value, and the one
    that stores the last value, after the loop, calls the target with all of them. *)
Definition fill (l : list (option Z)) (t : nat * Z) : list (option Z) :=
  match l !! t.1 with Some None => <[t.1 := Some t.2]> l | _ => l end.
Definition completes (l : list (option Z)) (t : nat * Z) (running : bool) : bool :=
  bool_decide (missing l <> 0%nat /\ missing (fill l t) = 0%nat) && negb running.

Lemma element_call kind w flags values remaining l ph i a v target :
  elements w flags values remaining l ph -> flags !! i = Some a ->
  exists w', elements w' flags values remaining (fill l (i, v)) ph /\ w_next w' = w_next w /\ forall call last,
    element_function call w a (index_value kind (Z.of_nat i)) values target remaining v last =
    if completes l (i, v) (running ph)
    then call w' target ValueUndefined [last w' (default ValueUndefined <$> fill l (i, v))]
    else Ok (w', Returned ValueUndefined).
Proof.
  intros Hel Hi. pose proof Hel as [H1 H2 H3 H4 H5 H6]. pose proof (lookup_lt_Some _ _ _ Hi) as Hlt. rewrite H1 in Hlt.
  destruct (lookup_lt_is_Some_2 l i Hlt) as [x Hx]. pose proof (H3 i a Hi) as Hc. unfold completes, fill. cbn [fst snd]. rewrite Hx in *.
  unfold element_function. rewrite Hc. destruct x as [y|].
  { exists w. split; [assumption|]. split; [reflexivity|]. rewrite bool_decide_eq_false_2 by tauto. reflexivity. }
  cbn [defined mbind result_bind].
  change (w_values (with_called _ _)) with (w_values w). change (w_counters (with_called _ _)) with (w_counters w).
  rewrite H4, H5. cbn [defined mbind result_bind]. cbv zeta. rewrite (asUInt32_index kind) by lia.
  rewrite length_app, length_fmap. rewrite (proj2 (Z.leb_gt _ _)) by lia.
  rewrite Nat2Z.id. pose proof (missing_insert l i v Hx) as Hm. pose proof (missing_le l).
  set (n := Z.of_nat (missing (<[i := Some v]> l)) + if running ph then 1 else 0).
  assert (u64 (Z.of_nat (missing l) + (if running ph then 1 else 0) - 1) = n) as -> by (subst n; rewrite wrapu_id; destruct ph; cbn; unfold in_u; lia).
  assert ((<[i := v]> ((default ValueUndefined <$> l) ++ extra ph)) = (default ValueUndefined <$> <[i := Some v]> l) ++ extra ph) as ->
    by (rewrite insert_app_l by (rewrite length_fmap; assumption); now rewrite list_fmap_insert).
  set (w' := with_counters _ _). exists w'. split; [split; cbn; auto|split; [reflexivity|intros call last]].
  - now rewrite length_insert.
  - intros j b Hj. destruct (decide (a = b)) as [->|N].
    + assert (i = j) as -> by (eapply NoDup_lookup; eauto). rewrite lookup_insert_eq. now rewrite list_lookup_insert_eq by assumption.
    + rewrite lookup_insert_ne by assumption. rewrite list_lookup_insert_ne by congruence. now apply H3.
  - now rewrite lookup_insert_eq.
  - now rewrite lookup_insert_eq.
  - now rewrite length_insert.
  - assert ((n =? 0) = bool_decide (missing l <> 0%nat /\ missing (<[i := Some v]> l) = 0%nat) && negb (running ph)) as ->.
    { subst n. destruct (running ph); cbn [negb]; [rewrite andb_false_r; apply Z.eqb_neq; lia|]. rewrite andb_true_r.
      destruct (Z.eqb_spec (Z.of_nat (missing (<[i := Some v]> l)) + 0) 0); symmetry;
        [apply bool_decide_eq_true_2|apply bool_decide_eq_false_2]; lia. }
    destruct ph; cbn [running negb extra]; rewrite ?andb_false_r, ?app_nil_r; reflexivity.
Qed.

(** Anything that leaves the records of one call alone. *)
Definition untouched (flags : list Z) (values remaining : Z) (w w' : World) : Prop :=
  (forall a, a ∈ flags -> w_called w' !! a = w_called w !! a) /\ w_values w' !! values = w_values w !! values /\
  w_counters w' !! remaining = w_counters w !! remaining /\ w_next w <= w_next w'.
Lemma untouched_elements flags values remaining w w' l ph : untouched flags values remaining w w' ->
  elements w flags values remaining l ph -> elements w' flags values remaining l ph.
Proof.
  intros (U1 & U2 & U3 & _) [H1 H2 H3 H4 H5 H6]. split; auto; [|congruence..].
  intros i a Hi. rewrite U1 by (eapply list_elem_of_lookup_2; eassumption). now apply H3.
Qed.

Lemma fill_missing l t : (missing (fill l t) <= missing l)%nat /\ (missing l = 0%nat -> fill l t = l).
Proof.
  unfold fill. destruct (l !! t.1) as [[y|]|] eqn:E; [now split| |now split]. rewrite (missing_insert l t.1 t.2 E). split; [lia|discriminate].
Qed.
Lemma length_fill l t : length (fill l t) = length l.
Proof. unfold fill. destruct (l !! t.1) as [[y|]|]; [reflexivity|apply length_insert|reflexivity]. Qed.
Lemma fill_app l k t : (t.1 < length l)%nat -> fill (l ++ k) t = fill l t ++ k.
Proof.
  intros H. unfold fill. rewrite lookup_app_l by assumption. destruct (l !! t.1) as [[y|]|]; [reflexivity| |reflexivity].
  now rewrite insert_app_l.
Qed.
Lemma fills_app ts k : forall l, Forall (fun t : nat * Z => (t.1 < length l)%nat) ts -> fold_left fill ts (l ++ k) = fold_left fill ts l ++ k.
Proof.
  induction ts as [|t ts IH]; intros l H; [reflexivity|]. inversion H as [|? ? Ht Hts]; subst. cbn. rewrite fill_app by assumption.
  apply IH. now rewrite length_fill.
Qed.

(** The values of [n] elements after the calls [ts], and the lists that the
    target gets then. *)
Definition given (n : nat) (ts : list (nat * Z)) : list (option Z) := fold_left fill ts (replicate n None).
Definition target_calls (l : list (option Z)) (running : bool) : list (list Z) :=
  if bool_decide (missing l = 0%nat) && negb running then [default ValueUndefined <$> l] else [].
Lemma given_snoc n ts t : given n (ts ++ [t]) = fill (given n ts) t.
Proof. unfold given. now rewrite fold_left_app. Qed.
Lemma given_more n ts : Forall (fun t : nat * Z => (t.1 < n)%nat) ts -> given (S n) ts = given n ts ++ [None].
Proof.
  intros H. unfold given. rewrite replicate_S_end. apply fills_app. now rewrite length_replicate.
Qed.
Lemma target_calls_fill l t running :
  target_calls (fill l t) running = if completes l t running then [default ValueUndefined <$> fill l t] else target_calls l running.
Proof.
  unfold target_calls, completes. destruct running; cbn [negb]; rewrite ?andb_false_r, ?andb_true_r; [reflexivity|].
  destruct (decide (missing l = 0%nat)) as [E|N].
  - rewrite (proj2 (fill_missing l t) E). repeat case_bool_decide; reflexivity || lia.
  - repeat case_bool_decide; reflexivity || lia.
Qed.

(** The end of the loop: without missing values the target is called at once. *)
Lemma elements_end w flags values remaining l target :
  elements w flags values remaining l Between -> exists w', elements w' flags values remaining l Over /\ w_next w' = w_next w /\
  forall call last, end_elements call w values remaining target last =
    if decide (missing l = 0%nat) then call w' target ValueUndefined [last w' (default ValueUndefined <$> l)]
    else Ok (w', Returned ValueUndefined).
Proof.
  intros [H1 H2 H3 H4 H5 H6]. unfold end_elements. rewrite H4, H5. cbn [defined mbind result_bind extra running]. rewrite app_nil_r.
  pose proof (missing_le l).
  assert (u64 (Z.of_nat (missing l) + 1 - 1) = Z.of_nat (missing l)) as -> by (rewrite wrapu_id by (unfold in_u; lia); lia).
  set (w' := with_counters _ _). exists w'. split; [split; cbn; auto; rewrite lookup_insert_eq; f_equal; lia|]. split; [reflexivity|].
  intros call last. destruct (Z.eqb_spec (Z.of_nat (missing l)) 0) as [E|E]; destruct (decide _); try lia; reflexivity.
Qed.

(** One use of [Promise.all] and the like: the loop over the elements, its end,
    and calls of the element functions at any time; [ts] are the calls so far,
    and [out] the lists that the target was called with. *)
Definition runs_to (m : (World -> Z -> Z -> list Z -> result (World * Completion)) -> (World -> list Z -> Z) -> result (World * Completion))
    (got : list (list Z)) (w' : World) : Prop :=
  got = [] /\ (forall call last, m call last = Ok (w', Returned ValueUndefined)).
Definition runs_target (target : Z)
    (m : (World -> Z -> Z -> list Z -> result (World * Completion)) -> (World -> list Z -> Z) -> result (World * Completion))
    (got : list (list Z)) (w' : World) : Prop :=
  exists arg, got = [arg] /\ forall call last, m call last = call w' target ValueUndefined [last w' arg].

Inductive session (kind : ElementKind) (values remaining target : Z)
    : World -> list Z -> list (nat * Z) -> phase -> list (list Z) -> Prop :=
  | session_start w w' : new_elements w = (w', (values, remaining)) -> session kind values remaining target w' [] [] Between []
  | session_other w w' flags ts ph out :
      session kind values remaining target w flags ts ph out -> untouched flags values remaining w w' ->
      session kind values remaining target w' flags ts ph out
  | session_append w w' flags ts out :
      session kind values remaining target w flags ts Between out -> append_value w values = Ok w' ->
      session kind values remaining target w' flags ts Appended out
  | session_element w w' flags ts out fs :
      session kind values remaining target w flags ts Appended out -> Z.of_nat (length flags) < 2 ^ 31 ->
      new_element kind w (Z.of_nat (length flags)) values remaining target = Ok (w', fs) ->
      session kind values remaining target w' (flags ++ [w_next w]) ts Between out
  | session_call w w' flags ts ph out got i a v :
      session kind values remaining target w flags ts ph out -> flags !! i = Some a ->
      (let m call last := element_function call w a (index_value kind (Z.of_nat i)) values target remaining v last in
       runs_to m got w' \/ runs_target target m got w') ->
      session kind values remaining target w' flags (ts ++ [(i, v)]) ph (out ++ got)
  | session_end w w' flags ts out got :
      session kind values remaining target w flags ts Between out ->
      (let m call last := end_elements call w values remaining target last in
       runs_to m got w' \/ runs_target target m got w') ->
      session kind values remaining target w' flags ts Over (out ++ got).

(** What a computation does is told apart by two callers. *)
Lemma runs_once target m got w' w1 out :
  runs_to m got w' \/ runs_target target m got w' ->
  (forall call last, m call last =
    match out with Some arg => call w1 target ValueUndefined [last w1 arg] | None => Ok (w1, Returned ValueUndefined) end) ->
  w' = w1 /\ got = match out with Some arg => [arg] | None => [] end.
Proof.
  intros [[-> H]|(arg & -> & H)] E.
  - specialize (E (fun _ _ _ _ => Undefined) (fun _ _ => 0)). rewrite H in E. destruct out; [discriminate|]. now injection E as ->.
  - specialize (E (fun w _ _ l => Ok (w, Returned (argument l 0))) (fun _ l => if decide (l = arg) then 1 else 0)).
    rewrite H in E. unfold argument in E. cbn in E. rewrite decide_True in E by reflexivity.
    destruct out as [l|]; [|discriminate]. injection E as <- E. destruct (decide (l = arg)) as [->|]; [now split|discriminate].
Qed.

(** What holds after any part of a session. *)
Record session_state (values remaining : Z) (w : World) (flags : list Z) (ts : list (nat * Z)) (ph : phase) (out : list (list Z)) : Prop := {
  ss_elements : elements w flags values remaining (given (length flags) ts) ph;
  ss_fresh : Forall (fun a => a < w_next w) flags;
  ss_indices : Forall (fun t : nat * Z => (t.1 < length flags)%nat) ts;
  ss_out : out = target_calls (given (length flags) ts) (running ph)
}.

Lemma session_call_state kind values remaining target w w' flags ts ph out got i a v :
  session_state values remaining w flags ts ph out -> flags !! i = Some a ->
  (let m call last := element_function call w a (index_value kind (Z.of_nat i)) values target remaining v last in
   runs_to m got w' \/ runs_target target m got w') ->
  session_state values remaining w' flags (ts ++ [(i, v)]) ph (out ++ got).
Proof.
  intros [H1 H2 H3 H4] Hi Hm. destruct (element_call kind w flags values remaining _ ph i a v target H1 Hi) as (w1 & H5 & Hn & E).
  destruct (runs_once target _ got w' w1
    (if completes (given (length flags) ts) (i, v) (running ph) then Some (default ValueUndefined <$> fill (given (length flags) ts) (i, v)) else None) Hm)
    as [-> ->]; [intros call last; rewrite E; now destruct (completes _ _ _)|].
  split; [now rewrite given_snoc|now rewrite Hn| |].
  - apply Forall_app. split; [assumption|]. apply Forall_singleton. exact (lookup_lt_Some _ _ _ Hi).
  - rewrite given_snoc, target_calls_fill, H4. destruct (completes _ _ _) eqn:Ec; [|now rewrite app_nil_r].
    unfold completes in Ec. apply andb_true_iff in Ec as [Ec _]. apply bool_decide_eq_true_1 in Ec.
    unfold target_calls. now rewrite bool_decide_eq_false_2 by (intros E0; exact (proj1 Ec E0)).
Qed.

Lemma session_elements kind values remaining target w flags ts ph out :
  session kind values remaining target w flags ts ph out -> session_state values remaining w flags ts ph out.
Proof.
  induction 1 as [w w' E|w w' flags ts ph out _ [H1 H2 H3 H4] U|w w' flags ts out _ [H1 H2 H3 H4] E|w w' flags ts out fs _ [H1 H2 H3 H4] Hb E|
    w w' flags ts ph out got i a v _ IH Hi Hm|w w' flags ts out got _ [H1 H2 H3 H4] Hm].
  - split; [now apply (elements_start w)|apply Forall_nil_2|apply Forall_nil_2|reflexivity].
  - split; [now apply (untouched_elements flags values remaining w)| |assumption..].
    destruct U as (_ & _ & _ & U). eapply Forall_impl; [exact H2|]. cbn. intros; lia.
  - destruct (elements_append w w' flags values remaining _ H1 E) as [H5 Hn]. split; [assumption|now rewrite Hn|assumption..].
  - pose proof (el_length _ _ _ _ _ _ H1) as Hl. rewrite Hl in Hb, E.
    destruct (elements_add kind w w' flags values remaining _ target fs H2 H1 Hb E) as [H5 H6].
    split; rewrite ?length_app, ?Nat.add_1_r, ?(given_more _ ts H3).
    + assumption.
    + assumption.
    + eapply Forall_impl; [exact H3|]. cbn. intros; lia.
    + rewrite H4. unfold target_calls. now rewrite !andb_false_r.
  - now apply (session_call_state kind values remaining target w w' flags ts ph out got i a v).
  - destruct (elements_end w flags values remaining _ target H1) as (w1 & H5 & Hn & E).
    destruct (runs_once target _ got w' w1
      (if decide (missing (given (length flags) ts) = 0%nat) then Some (default ValueUndefined <$> given (length flags) ts) else None) Hm)
      as [-> ->]; [intros call last; rewrite E; now destruct (decide _)|].
    split; [assumption|now rewrite Hn|assumption|]. rewrite H4. unfold target_calls. cbn [running negb].
    rewrite andb_false_r, andb_true_r. destruct (decide _) as [E0|N]; [now rewrite bool_decide_eq_true_2|now rewrite bool_decide_eq_false_2].
Qed.

End ElementFacts.

(** * The queue without the jobs of a context *)
Module QueueFacts.
Import Word Promises.

Lemma clear_from_spec context fuel : forall jobs i, (i <= length jobs)%nat -> (length jobs - i < fuel)%nat ->
  clear_from context fuel jobs i = Ok (take i jobs ++ filter (fun j => relatedContext j <> context) (drop i jobs)).
Proof.
  induction fuel as [|fuel IH]; intros jobs i Hi Hf; [lia|]. cbn [clear_from]. destruct (Nat.ltb_spec i (length jobs)) as [Hlt|Hge].
  - destruct (lookup_lt_is_Some_2 jobs i Hlt) as [j Hj]. rewrite Hj. cbn [defined mbind result_bind]. rewrite (drop_S jobs j i Hj).
    destruct (Z.eqb_spec (relatedContext j) context) as [E|N].
    + rewrite IH; [|rewrite length_app, length_take, length_drop; lia..]. rewrite filter_cons_False by (intros N; exact (N E)).
      now rewrite take_app_le, take_take, Nat.min_id, drop_app_length' by (rewrite length_take; lia).
    + rewrite IH by lia. rewrite filter_cons_True by assumption. rewrite (take_S_r jobs i j Hj). now rewrite <- app_assoc.
  - rewrite drop_ge, take_ge by lia. cbn. now rewrite app_nil_r.
Qed.
Lemma clear_spec w context : clearJobRelatedWithSpecificContext w context =
  Ok (with_jobs w (filter (fun j => relatedContext j <> context) (m_jobs w))).
Proof. unfold clearJobRelatedWithSpecificContext. rewrite clear_from_spec by lia. reflexivity. Qed.

End QueueFacts.

(** * The properties *)
Module PromiseProps.
Import Word Promises History PromiseFacts ElementFacts.

(** A small run for the examples: a promise with one reaction, whose resolve
    function is called, and a turn of the loop. *)
Module Sample.
Definition quiet (w : World) (_ _ : Z) (_ : list Z) : World * Completion := (w, Returned ValueUndefined).
Definition no_then (w : World) (_ : Z) : World * Completion := (w, Returned ValueUndefined).
Definition no_object (_ : Z) : bool := false.
Definition handler (f : Z) : bool := f =? 1000.
Definition zero1 (_ : World) : Z := 0.
Definition zero2 (_ : World) (_ : list Z) : Z := 0.
Definition zero3 (_ : World) (_ : bool) (_ : Z) : Z := 0.
Definition ended {A : Type} (w : World) (m : result (World * A)) : World := match m with Ok (w', _) => w' | _ => w end.

Definition made : World := (new_promise (new_promise initial_world).1).1.
Definition derived : Capability := (new_promise (new_promise initial_world).1).2.
Definition registered_once : World := ended made (promise_then 0 false handler made 0 1000 ValueUndefined (Some derived)).
Definition resolved : World :=
  ended registered_once (call_function 0 false no_object handler zero1 zero2 no_then quiet zero3 zero2 registered_once 2 ValueUndefined [Value_int 7]).
Definition turned : World :=
  ended resolved (executePendingJob 0 false no_object handler zero1 zero2 no_then quiet zero3 zero2 resolved).

Lemma registered_activity : activity no_object handler initial_world registered_once.
Proof.
  eapply act_trans; [apply act_new_promise|]. eapply act_trans; [apply act_new_promise|].
  unfold registered_once. destruct (promise_then 0 false handler made 0 1000 ValueUndefined (Some derived)) as [[w r]| |] eqn:E; [|apply act_none..].
  eapply act_then; [|exact E]. cbn. now split; eexists.
Qed.
Lemma resolved_activity : activity no_object handler registered_once resolved.
Proof.
  unfold resolved. destruct (call_function _ _ _ _ _ _ _ _ _ _ _ _ _ _) as [[w r]| |] eqn:E; [|apply act_none..].
  eapply act_call; [| |exact E]; intros; apply act_none.
Qed.
Lemma turned_turn : turn no_object handler resolved turned.
Proof.
  unfold turned. destruct (executePendingJob _ _ _ _ _ _ _ _ _ _ _) as [[w r]| |] eqn:E; [|vm_compute in E; discriminate..].
  eapply turn_job; [| |exact E]; intros; apply act_none.
Qed.
Lemma resolved_reachable : reachable no_object handler resolved.
Proof.
  eapply reach_activity; [|apply resolved_activity]. eapply reach_activity; [|apply registered_activity]. apply reach_initial.
Qed.
End Sample.

(** C5: in every world that script code and the job queue can reach, a promise
    that is not pending was settled exactly once, and every reaction registered on it, before or
    after, was enqueued exactly once, in the order of registration, on the side
    of the state and with the result; a pending promise was not settled and keeps its
    reactions in order.  Whatever happens later, state and result stay. *)
Theorem promises_settle_once isObject isC w w' p o :
  reachable isObject isC w -> later isObject isC w w' -> w_promises w !! p = Some o ->
  promise_history p o (w_log w) /\
  exists o', w_promises w' !! p = Some o' /\ promise_history p o' (w_log w') /\
    (m_state o <> Pending -> m_state o' = m_state o /\ m_promiseResult o' = m_promiseResult o).
Proof.
  intros Hr Hl Ho. pose proof (reachable_ok isObject isC w Hr) as Hok. split; [apply (ok_promises [] w Hok p o Ho)|].
  destruct (later_ok isObject isC w w' Hl Hok) as (Hok' & He & Hp). destruct (Hp p (ex_intro _ o Ho)) as [o' Ho'].
  exists o'. split; [assumption|]. split; [apply (ok_promises [] w' Hok' p o' Ho')|]. intros Hs.
  destruct (settled_forever w w' p o Hok Hok' He Ho (ex_intro _ o' Ho') Hs) as (o2 & E & H). rewrite Ho' in E. now injection E as <-.
Qed.

Lemma promises_settle_once_witness : exists o o',
  w_promises Sample.resolved !! 0 = Some o /\ m_state o = FulFilled /\
  w_promises Sample.turned !! 0 = Some o' /\ m_promiseResult o' = Value_int 7.
Proof.
  destruct (w_promises Sample.resolved !! 0) as [o|] eqn:E; [|vm_compute in E; discriminate].
  assert (m_state o = FulFilled /\ m_promiseResult o = Value_int 7) as [E1 E2] by (vm_compute in E; injection E as <-; now split).
  destruct (promises_settle_once Sample.no_object Sample.handler Sample.resolved Sample.turned 0 o Sample.resolved_reachable
    (later_turn _ _ _ _ _ (later_now _ _ _) Sample.turned_turn) E) as [_ (o' & E3 & _ & H)].
  exists o, o'. destruct (H ltac:(congruence)) as [_ H2]. split; [reflexivity|]. split; [exact E1|]. split; [exact E3|congruence].
Defined.

(** C34: jobs run in the order in which they were enqueued, and none is dropped or run
    twice: after [n] turns of the loop, with any activities in between,
    exactly the first [n] jobs of the queue have run, in order, and what was enqueued
    meanwhile stands behind the others. *)
Theorem jobs_run_in_order isObject isC n w w' :
  reachable isObject isC w -> rounds isObject isC n w w' -> (n <= length (m_jobs w))%nat ->
  executed (w_log w') = executed (w_log w) ++ take n (m_jobs w) /\ exists new, m_jobs w' = drop n (m_jobs w) ++ new.
Proof. intros Hr Hn. apply (rounds_fifo isObject isC n w w' Hn). now apply (reachable_ok isObject isC). Qed.

Lemma jobs_run_in_order_witness : executed (w_log Sample.turned) = m_jobs Sample.resolved.
Proof.
  destruct (jobs_run_in_order Sample.no_object Sample.handler 1 Sample.resolved Sample.turned Sample.resolved_reachable
    (rounds_turn _ _ _ _ _ _ Sample.turned_turn (rounds_none _ _ _)) ltac:(vm_compute; lia)) as [E _].
  rewrite E. vm_compute. reflexivity.
Defined.

(** C14: in every reachable world a call of any function, and a turn of the loop when a
    job is queued, ends, without a null function called or a missing record used,
    and in a reachable world, whatever activity script code makes. *)
Theorem jobs_never_go_wrong context registered isObject isC createError createArray get_then script settled_object aggregate_error w :
  (forall w o, activity isObject isC w (get_then w o).1) -> (forall w f t l, activity isObject isC w (script w f t l).1) ->
  reachable isObject isC w ->
  (forall f t l, exists w' x,
    call_function context registered isObject isC createError createArray get_then script settled_object aggregate_error w f t l = Ok (w', x) /\
    reachable isObject isC w') /\
  (hasNextJob w = true -> exists w' x,
    executePendingJob context registered isObject isC createError createArray get_then script settled_object aggregate_error w = Ok (w', x) /\
    reachable isObject isC w').
Proof.
  intros Hg Hs Hr. pose proof (reachable_ok isObject isC w Hr) as Hok.
  assert (forall w o, keeps w (get_then w o).1) as Kg by (intros; now apply (activity_ok isObject isC)).
  assert (forall w f t l, keeps w (script w f t l).1) as Ks by (intros; now apply (activity_ok isObject isC)). split.
  - intros f t l. destruct (call_function_ok context registered isObject isC createError createArray get_then script settled_object aggregate_error
      Kg Ks [] w f t l Hok) as (w' & x & E & _). exists w', x. split; [exact E|]. eapply reach_activity; [exact Hr|]. eapply act_call; eassumption.
  - unfold hasNextJob. destruct (m_jobs w) as [|j jobs] eqn:Ej; [discriminate|]. intros _.
    destruct (executePendingJob_ok context registered isObject isC createError createArray get_then script settled_object aggregate_error
      Kg Ks w j jobs Hok Ej) as (w' & x & E & _). exists w', x. split; [exact E|]. eapply reach_turn; [exact Hr|]. eapply turn_job; eassumption.
Qed.

Lemma jobs_never_go_wrong_witness : exists w' x,
  executePendingJob 0 false Sample.no_object Sample.handler Sample.zero1 Sample.zero2 Sample.no_then Sample.quiet Sample.zero3 Sample.zero2
    Sample.resolved = Ok (w', x) /\ reachable Sample.no_object Sample.handler w'.
Proof.
  refine (proj2 (jobs_never_go_wrong 0 false Sample.no_object Sample.handler Sample.zero1 Sample.zero2 Sample.no_then Sample.quiet
    Sample.zero3 Sample.zero2 Sample.resolved _ _ Sample.resolved_reachable) _); [intros; apply act_none|intros; apply act_none|].
  vm_compute. reflexivity.
Defined.

(** C10: the functions that [Promise.all], [allSettled] and [any] make for the elements
    of an iterable call the target exactly once, when the loop is over and every
    element has been given, with the first value given for each element, in
    the order of the iterable; before that, and ever after, the target is not called; and no
    call of an element function goes wrong. *)
Theorem elements_call_target_once kind values remaining target w flags ts ph out :
  session kind values remaining target w flags ts ph out ->
  out = (if bool_decide (missing (given (length flags) ts) = 0%nat) && negb (running ph)
         then [default ValueUndefined <$> given (length flags) ts] else []) /\
  w_values w !! values = Some ((default ValueUndefined <$> given (length flags) ts) ++ extra ph) /\
  (forall i a v, flags !! i = Some a -> exists w' got,
    let m call last := element_function call w a (index_value kind (Z.of_nat i)) values target remaining v last in
    runs_to m got w' \/ runs_target target m got w').
Proof.
  intros Hs. destruct (session_elements kind values remaining target w flags ts ph out Hs) as [H1 _ _ H4].
  split; [exact H4|]. split; [apply H1|]. intros i a v Hi.
  destruct (element_call kind w flags values remaining _ ph i a v target H1 Hi) as (w' & _ & _ & E).
  destruct (completes _ _ _).
  - eexists w', [_]. right. eexists. split; [reflexivity|exact E].
  - exists w', []. left. now split.
Qed.

Module Elements.
Definition ended0 (m : result (World * list Z)) : World := match m with Ok (w, _) => w | _ => initial_world end.
Definition returned (m : result (World * Completion)) : World := match m with Ok (w, _) => w | _ => initial_world end.
Definition start : World := (new_elements initial_world).1.
Definition appended (w : World) : World := match append_value w 0 with Ok w' => w' | _ => initial_world end.
Definition one : World := ended0 (new_element All (appended start) 0 0 1 77).
Definition two : World := ended0 (new_element All (appended one) 1 0 1 77).
Definition none (w : World) (_ _ : Z) (_ : list Z) : result (World * Completion) := Ok (w, Returned ValueUndefined).
Definition over : World := returned (end_elements none two 0 1 77 Sample.zero2).
Definition second : World := returned (element_function none over 5 (Value_int 1) 0 77 1 20 Sample.zero2).
Definition first : World := returned (element_function none second 2 (Value_int 0) 0 77 1 10 Sample.zero2).
Lemma run : session All 0 1 77 first [2; 5] [(1%nat, 20); (0%nat, 10)] Over [[10; 20]].
Proof.
  change [[10; 20]] with ((([] ++ []) ++ []) ++ [[10; 20]]). change [(1%nat, 20); (0%nat, 10)] with (([] ++ [(1%nat, 20)]) ++ [(0%nat, 10)]).
  eapply (session_call All 0 1 77 second first [2; 5] _ Over _ _ 0%nat 2 10);
    [|reflexivity|right; exists [10; 20]; split; [reflexivity|intros; vm_compute; reflexivity]].
  eapply (session_call All 0 1 77 over second [2; 5] _ Over _ _ 1%nat 5 20);
    [|reflexivity|left; split; [reflexivity|intros; vm_compute; reflexivity]].
  eapply (session_end All 0 1 77 two over); [|left; split; [reflexivity|intros; vm_compute; reflexivity]].
  change [2; 5] with (([] ++ [w_next (appended start)]) ++ [w_next (appended one)]).
  eapply session_element; [eapply (session_append _ _ _ _ one); [|vm_compute; reflexivity]|vm_compute; reflexivity|unfold two; vm_compute; reflexivity].
  eapply session_element; [eapply (session_append _ _ _ _ start); [|vm_compute; reflexivity]|vm_compute; reflexivity|unfold one; vm_compute; reflexivity].
  now apply (session_start All 0 1 77 initial_world).
Qed.
End Elements.

Lemma elements_call_target_once_witness : w_values Elements.first !! 0 = Some [10; 20].
Proof.
  destruct (elements_call_target_once All 0 1 77 Elements.first [2; 5] [(1%nat, 20); (0%nat, 10)] Over [[10; 20]] Elements.run)
    as (_ & E & _). rewrite E. vm_compute. reflexivity.
Defined.

End PromiseProps.
