(* ===== verification/Proxy.v ===== *)
(** Proxies ([runtime/ProxyObject.h], [runtime/ProxyObject.cpp]): the internal
    methods of a proxy over any target, with the traps of its handler as
    parameters, and the invariants of the essential internal methods of
    ECMA-262, which every object must keep: a proxy keeps them if its target does.
    The facts that the invariants speak of are those that were observed before:
    a property that is not configurable, an object that is not extensible. *)
From Stdlib Require Import ZArith Lia Bool.
From stdpp Require Import base numbers list option decidable gmap.
From S2P Require Import Prelude Effects Value ObjectStructure ObjectModel.

(** * Internal methods *)
Module Interface.
Import Effects Objects PropertyDescriptor.

(** The internal methods of an object. *)
Record InternalMethods (World : Type) := mkMethods {
  i_getOwnProperty : ObjectPropertyName -> M World (option ObjectGetResult);
  i_defineOwnProperty : ObjectPropertyName -> ObjectPropertyDescriptor -> M World bool;
  i_deleteOwnProperty : ObjectPropertyName -> M World bool;
  i_hasProperty : ObjectPropertyName -> M World bool;
  i_get : ObjectPropertyName -> Z -> M World (option ObjectGetResult);
  i_set : ObjectPropertyName -> Z -> Z -> M World bool;
  i_ownPropertyKeys : M World (list Z);
  i_isExtensible : M World bool;
  i_preventExtensions : M World bool;
  i_getPrototype : M World Z;
  i_setPrototype : Z -> M World bool
}.
#[global] Arguments mkMethods {World}.
#[global] Arguments i_getOwnProperty {World}.
#[global] Arguments i_defineOwnProperty {World}.
#[global] Arguments i_deleteOwnProperty {World}.
#[global] Arguments i_hasProperty {World}.
#[global] Arguments i_get {World}.
#[global] Arguments i_set {World}.
#[global] Arguments i_ownPropertyKeys {World}.
#[global] Arguments i_isExtensible {World}.
#[global] Arguments i_preventExtensions {World}.
#[global] Arguments i_getPrototype {World}.
#[global] Arguments i_setPrototype {World}.

End Interface.

(** * The methods of proxies *)
Module Proxies.
Import Word Heap Effects Interface Objects PropertyDescriptor.

(** A null pointer is [None]. *)
Record ProxyObject := mkProxy {
  m_isCallable : bool;
  m_isConstructible : bool;
  m_target : option Z;
  m_handler : option Z
}.

Inductive Trap :=
  | TrapDefineProperty | TrapDeleteProperty | TrapGetOwnPropertyDescriptor | TrapPreventExtensions | TrapHas | TrapOwnKeys
  | TrapIsExtensible | TrapSetPrototypeOf | TrapGetPrototypeOf | TrapGet | TrapSet | TrapApply | TrapConstruct.

Section Proxies.
Context {World : Type}.
(** What pointers lead to: types, and the contents of strings. *)
Context (h : heap).
(** The proxies of a state, the internal methods of the object at an address,
    and the calls that run script code: looking up a trap, calling a function,
    making one, reading a field of an object that describes a property. *)
Context (proxy_at : World -> Z -> ProxyObject) (methods : Z -> InternalMethods World).
Context (getMethod : Z -> Trap -> M World Z) (call : Z -> Z -> list Z -> M World Z) (construct : Z -> list Z -> Z -> M World Z).
Context (isCallable isConstructor : Z -> bool).
Context (get_field : Z -> Field -> M World (option Z)) (length : Z -> M World Z) (getIndexedProperty : Z -> Z -> M World Z).
Context (new_object : list (Field * Z) -> M World Z) (createArrayFromList : list Z -> M World Z).
Context (toPropertyKeyValue : ObjectPropertyName -> Z) (name_of : Z -> ObjectPropertyName).

(** [ObjectGetResult::value]. *)
Definition result_value (g : ObjectGetResult) (receiver : Z) : M World Z :=
  match g_payload g with
  | GotValue v => mret v
  | GotNative data internal => mret (StructureDescriptor.m_getter data receiver internal)
  | GotAccessor x => if hasGetter x && isCallable (getter x) then call (getter x) receiver [] else mret ValueUndefined
  end.

(** The constructor of a descriptor from an object. *)
Definition toPropertyDescriptor (obj : Z) : M World ObjectPropertyDescriptor :=
  let d := mkDescriptor true 0 (SlotValue ValueEmpty) in
  f ← get_field obj FEnumerable;
  let d := match f with Some v => setEnumerable d (toBoolean h v) | None => d end in
  f ← get_field obj FConfigurable;
  let d := match f with Some v => setConfigurable d (toBoolean h v) | None => d end in
  f ← get_field obj FValue;
  let '(d, hasValue) := match f with Some v => (setValue d v, true) | None => (d, false) end in
  f ← get_field obj FWritable;
  let '(d, hasWritable) := match f with Some v => (setWritable d (toBoolean h v), true) | None => (d, false) end in
  f ← get_field obj FGet;
  d ← match f with
      | Some g =>
          if negb (isCallable g) && negb (isUndefined g) then throwTypeError
          else mret (mkDescriptor false (m_property d) (SlotGetterSetter (mkGetterSetter g ValueEmpty)))
      | None => mret d
      end;
  f ← get_field obj FSet;
  d ← match f with
      | Some s =>
          if negb (isCallable s) && negb (isUndefined s) then throwTypeError
          else if m_isDataProperty d
          then mret (mkDescriptor false (m_property d) (SlotGetterSetter (mkGetterSetter ValueEmpty s)))
          else mret (setSetter d s)
      | None => mret d
      end;
  if negb (m_isDataProperty d) && (hasWritable || hasValue) then throwTypeError else mret d.

(** [Object::isCompatiblePropertyDescriptor]; [currentValue] is the value of a
    data property. *)
Definition data_value (g : ObjectGetResult) (receiver : Z) : Z :=
  match g_payload g with
  | GotValue v => v
  | GotNative data internal => StructureDescriptor.m_getter data receiver internal
  | GotAccessor _ => ValueUndefined
  end.
Definition g_getterSetter (g : ObjectGetResult) : JSGetterSetter :=
  match g_payload g with GotAccessor x => x | _ => mkGetterSetter ValueEmpty ValueEmpty end.
Definition isCompatiblePropertyDescriptor (extensible : bool) (desc : ObjectPropertyDescriptor) (current : option ObjectGetResult) : bool :=
  match current with
  | None => extensible
  | Some current =>
      if negb (g_isConfigurable current) && isConfigurable desc then false
      else if negb (g_isConfigurable current) && isEnumerablePresent desc && negb (eqb (isEnumerable desc) (g_isEnumerable current)) then false
      else if isGenericDescriptor desc then true
      else if negb (eqb (g_isDataProperty current) (isDataDescriptor desc)) then g_isConfigurable current
      else if g_isDataProperty current && isDataDescriptor desc then
        if negb (g_isConfigurable current) && negb (g_isWritable current) && isWritable desc then false
        else negb (negb (g_isConfigurable current) && negb (g_isWritable current) && isValuePresent desc
                   && negb (equalsToByTheSameValueAlgorithm h (value desc) (data_value current ValueUndefined)))
      else if negb (g_isDataProperty current) && isAccessorDescriptor desc && negb (g_isConfigurable current) then
        let currgs := g_getterSetter current in
        if hasSetter (getterSetter desc)
           && negb (setter (getterSetter desc) =? (if hasSetter currgs then setter currgs else ValueUndefined)) then false
        else negb (hasGetter (getterSetter desc)
                   && negb (getter (getterSetter desc) =? (if hasGetter currgs then getter currgs else ValueUndefined)))
      else true
  end.

(** What all the methods begin with: a revoked proxy throws; without a trap the
    method of the target is called. *)
Definition with_trap {A} (self : Z) (t : Trap) (without : Z -> M World A) (k : Z -> Z -> Z -> M World A) : M World A :=
  fun w =>
    match m_handler (proxy_at w self), m_target (proxy_at w self) with
    | Some handler, Some target =>
        (trap ← getMethod handler t; if isUndefined trap then without target else k handler target trap) w
    | _, _ => throwTypeError w
    end.
Definition call_trap (trap handler : Z) (args : list Z) : M World bool := v ← call trap handler args; mret (toBoolean h v).

Definition defineOwnProperty (self : Z) (P : ObjectPropertyName) (desc : ObjectPropertyDescriptor) : M World bool :=
  with_trap self TrapDefineProperty (fun target => i_defineOwnProperty (methods target) P desc) (fun handler target trap =>
    descObj ← new_object (fromObjectPropertyDescriptor desc);
    booleanTrapResult ← call_trap trap handler [target; toPropertyKeyValue P; descObj];
    if negb booleanTrapResult then mret false
    else
      targetDesc ← i_getOwnProperty (methods target) P;
      extensibleTarget ← i_isExtensible (methods target);
      let settingConfigFalse := isConfigurablePresent desc && negb (isConfigurable desc) in
      match targetDesc with
      | None => if negb extensibleTarget || settingConfigFalse then throwTypeError else mret true
      | Some g =>
          if negb (isCompatiblePropertyDescriptor extensibleTarget desc targetDesc) || (settingConfigFalse && g_isConfigurable g)
          then throwTypeError
          else if g_isDataProperty g && negb (g_isConfigurable g) && g_isWritable g && (isWritablePresent desc && negb (isWritable desc))
          then throwTypeError
          else mret true
      end).

(** The tests [targetDesc.value(state, target).isUndefined()] of [deleteOwnProperty]
    and [getOwnProperty]; a property that does not exist has the value undefined. *)
Definition value_isUndefined (targetDesc : option ObjectGetResult) (target : Z) : M World bool :=
  match targetDesc with
  | None => mret true
  | Some g => v ← result_value g target; mret (isUndefined v)
  end.
Definition config_of (targetDesc : option ObjectGetResult) : bool :=
  match targetDesc with Some g => g_isConfigurable g | None => false end.

Definition deleteOwnProperty (self : Z) (P : ObjectPropertyName) : M World bool :=
  with_trap self TrapDeleteProperty (fun target => i_deleteOwnProperty (methods target) P) (fun handler target trap =>
    booleanTrapResult ← call_trap trap handler [target; toPropertyKeyValue P];
    if negb booleanTrapResult then mret false
    else
      targetDesc ← i_getOwnProperty (methods target) P;
      undefined ← value_isUndefined targetDesc target;
      if (undefined : bool) then mret true
      else if negb (config_of targetDesc) then throwTypeError
      else
        extensible ← i_isExtensible (methods target);
        if negb extensible then throwTypeError else mret true).

Definition getOwnProperty (self : Z) (P : ObjectPropertyName) : M World (option ObjectGetResult) :=
  with_trap self TrapGetOwnPropertyDescriptor (fun target => i_getOwnProperty (methods target) P) (fun handler target trap =>
    trapResultObj ← call trap handler [target; toPropertyKeyValue P];
    if negb (isObject h trapResultObj) && negb (isUndefined trapResultObj) then throwTypeError
    else
      targetDesc ← i_getOwnProperty (methods target) P;
      if isUndefined trapResultObj then
        undefined ← value_isUndefined targetDesc target;
        if (undefined : bool) then mret None
        else if negb (config_of targetDesc) then throwTypeError
        else
          extensibleTarget ← i_isExtensible (methods target);
          if negb extensibleTarget then throwTypeError else mret None
      else
        resultDesc ← toPropertyDescriptor trapResultObj;
        let resultDesc := completePropertyDescriptor resultDesc in
        extensibleTarget ← i_isExtensible (methods target);
        if negb (isCompatiblePropertyDescriptor extensibleTarget resultDesc targetDesc) then throwTypeError
        else if negb (isConfigurable resultDesc)
                && match targetDesc with
                   | None => true
                   | Some g => g_isConfigurable g || (isWritablePresent resultDesc && negb (isWritable resultDesc) && g_isWritable g)
                   end
        then throwTypeError
        else if isDataDescriptor resultDesc
        then mret (Some (mkGetResult (GotValue (value resultDesc)) (isWritable resultDesc) (isEnumerable resultDesc) (isConfigurable resultDesc)))
        else mret (Some (mkGetResult (GotAccessor (getterSetter resultDesc)) false (isEnumerable resultDesc) (isConfigurable resultDesc)))).

Definition preventExtensions (self : Z) : M World bool :=
  with_trap self TrapPreventExtensions (fun target => i_preventExtensions (methods target)) (fun handler target trap =>
    booleanTrapResult ← call_trap trap handler [target];
    if (booleanTrapResult : bool) then
      targetIsExtensible ← i_isExtensible (methods target);
      if (targetIsExtensible : bool) then throwTypeError else mret true
    else mret false).

Definition hasProperty (self : Z) (P : ObjectPropertyName) : M World bool :=
  with_trap self TrapHas (fun target => i_hasProperty (methods target) P) (fun handler target trap =>
    booleanTrapResult ← call_trap trap handler [target; toPropertyKeyValue P];
    if (booleanTrapResult : bool) then mret true
    else
      targetDesc ← i_getOwnProperty (methods target) P;
      match targetDesc with
      | None => mret false
      | Some g =>
          if negb (g_isConfigurable g) then throwTypeError
          else
            extensibleTarget ← i_isExtensible (methods target);
            if negb extensibleTarget then throwTypeError else mret false
      end).

(** ** [[OwnPropertyKeys]] *)

Fixpoint listFromArrayLike (obj : Z) (n : nat) (index : Z) : M World (list Z) :=
  match n with
  | O => mret []
  | S n =>
      next ← getIndexedProperty obj index;
      if negb (isString h next || isSymbol h next) then throwTypeError
      else l ← listFromArrayLike obj n (index + 1); mret (next :: l)
  end.
(** [createListFromArrayLike] with strings and symbols as elements. *)
Definition createListFromArrayLike (obj : Z) : M World (list Z) :=
  if negb (isObject h obj) then throwTypeError
  else len ← length obj; listFromArrayLike obj (Z.to_nat len) 0.

Fixpoint has_duplicates (l : list Z) : bool :=
  match l with
  | [] => false
  | x :: l => existsb (equalsTo h x) l || has_duplicates l
  end.
(** The keys that are not configurable, and the others. *)
Fixpoint split_keys (target : Z) (keys : list Z) : M World (list Z * list Z) :=
  match keys with
  | [] => mret ([], [])
  | key :: keys =>
      desc ← i_getOwnProperty (methods target) (name_of key);
      '(targetConfigurableKeys, targetNonconfigurableKeys) ← split_keys target keys;
      match desc with
      | Some g => if negb (g_isConfigurable g) then mret (targetConfigurableKeys, key :: targetNonconfigurableKeys)
                  else mret (key :: targetConfigurableKeys, targetNonconfigurableKeys)
      | None => mret (key :: targetConfigurableKeys, targetNonconfigurableKeys)
      end
  end.
(** Erases a key from the list, and says whether it was there. *)
Fixpoint erase_key (key : Z) (uncheckedResultKeys : list Z) : list Z * bool :=
  match uncheckedResultKeys with
  | [] => ([], false)
  | x :: l =>
      let '(l', found) := erase_key key l in
      if equalsTo h x key then (l', true) else (x :: l', found)
  end.
Fixpoint erase_keys (keys uncheckedResultKeys : list Z) : option (list Z) :=
  match keys with
  | [] => Some uncheckedResultKeys
  | key :: keys =>
      let '(l, found) := erase_key key uncheckedResultKeys in
      if negb found then None else erase_keys keys l
  end.

Definition ownPropertyKeys (self : Z) : M World (list Z) :=
  with_trap self TrapOwnKeys (fun target => i_ownPropertyKeys (methods target)) (fun handler target trap =>
    trapResultArray ← call trap handler [target];
    trapResult ← createListFromArrayLike trapResultArray;
    if has_duplicates trapResult then throwTypeError
    else
      extensibleTarget ← i_isExtensible (methods target);
      targetKeys ← i_ownPropertyKeys (methods target);
      '(targetConfigurableKeys, targetNonconfigurableKeys) ← split_keys target targetKeys;
      if extensibleTarget && match targetNonconfigurableKeys with [] => true | _ => false end then mret trapResult
      else
        match erase_keys targetNonconfigurableKeys trapResult with
        | None => throwTypeError
        | Some uncheckedResultKeys =>
            if (extensibleTarget : bool) then mret trapResult
            else
              match erase_keys targetConfigurableKeys uncheckedResultKeys with
              | Some [] => mret trapResult
              | _ => throwTypeError
              end
        end).

(** ** The others *)

Definition isExtensible (self : Z) : M World bool :=
  with_trap self TrapIsExtensible (fun target => i_isExtensible (methods target)) (fun handler target trap =>
    booleanTrapResult ← call_trap trap handler [target];
    targetResult ← i_isExtensible (methods target);
    if negb (eqb targetResult booleanTrapResult) then throwTypeError else mret booleanTrapResult).

Definition setPrototype (self v : Z) : M World bool :=
  with_trap self TrapSetPrototypeOf (fun target => i_setPrototype (methods target) v) (fun handler target trap =>
    booleanTrapResult ← call_trap trap handler [target; v];
    if negb booleanTrapResult then mret booleanTrapResult
    else
      extensibleTarget ← i_isExtensible (methods target);
      if (extensibleTarget : bool) then mret booleanTrapResult
      else
        targetProto ← i_getPrototype (methods target);
        if booleanTrapResult && negb (v =? targetProto) then throwTypeError else mret booleanTrapResult).

Definition getPrototype (self : Z) : M World Z :=
  with_trap self TrapGetPrototypeOf (fun target => i_getPrototype (methods target)) (fun handler target trap =>
    handlerProto ← call trap handler [target];
    if negb (isObject h handlerProto) && negb (isNull handlerProto) then throwTypeError
    else
      extensibleTarget ← i_isExtensible (methods target);
      if (extensibleTarget : bool) then mret handlerProto
      else
        targetProto ← i_getPrototype (methods target);
        if negb (handlerProto =? targetProto) then throwTypeError else mret handlerProto).

(** The third argument of the trap is the proxy. *)
Definition get (self : Z) (P : ObjectPropertyName) (receiver : Z) : M World (option ObjectGetResult) :=
  with_trap self TrapGet (fun target => i_get (methods target) P receiver) (fun handler target trap =>
    trapResult ← call trap handler [target; toPropertyKeyValue P; self];
    targetDesc ← i_getOwnProperty (methods target) P;
    let accept := mret (Some (mkGetResult (GotValue trapResult) true true true)) in
    match targetDesc with
    | None => accept
    | Some g =>
        if g_isDataProperty g && negb (g_isConfigurable g) && negb (g_isWritable g) then
          v ← result_value g target;
          if negb (trapResult =? v) then throwTypeError else accept
        else if negb (g_isDataProperty g) && negb (g_isConfigurable g)
                && (negb (hasGetter (g_getterSetter g)) || isUndefined (getter (g_getterSetter g))) then
          if negb (isUndefined trapResult) then throwTypeError else accept
        else accept
    end).

Definition set (self : Z) (P : ObjectPropertyName) (v receiver : Z) : M World bool :=
  with_trap self TrapSet (fun target => i_set (methods target) P v receiver) (fun handler target trap =>
    booleanTrapResult ← call_trap trap handler [target; toPropertyKeyValue P; v; receiver];
    if negb booleanTrapResult then mret false
    else
      targetDesc ← i_getOwnProperty (methods target) P;
      match targetDesc with
      | None => mret true
      | Some g =>
          if g_isDataProperty g && negb (g_isConfigurable g) && negb (g_isWritable g) then
            d ← result_value g target;
            if negb (v =? d) then throwTypeError else mret true
          else if negb (g_isDataProperty g) && negb (g_isConfigurable g)
                  && (negb (hasSetter (g_getterSetter g)) || isUndefined (setter (g_getterSetter g)))
          then throwTypeError
          else mret true
      end).

(** [[Call]] and [[Construct]]. *)
Definition proxy_call (self receiver : Z) (args : list Z) : M World Z := fun w =>
  if negb (m_isCallable (proxy_at w self)) then throwTypeError w
  else
    with_trap self TrapApply (fun target => call target receiver args) (fun handler target trap =>
      argArray ← createArrayFromList args;
      call trap handler [target; receiver; argArray]) w.
Definition proxy_construct (self : Z) (args : list Z) (newTarget : Z) : M World Z :=
  with_trap self TrapConstruct (fun target => construct target args newTarget) (fun handler target trap =>
    argArray ← createArrayFromList args;
    newObj ← call trap handler [target; argArray; newTarget];
    if negb (isObject h newObj) then throwTypeError else mret newObj).

Definition proxy_methods (self : Z) : InternalMethods World :=
  mkMethods (getOwnProperty self) (defineOwnProperty self) (deleteOwnProperty self) (hasProperty self) (get self) (set self)
    (ownPropertyKeys self) (isExtensible self) (preventExtensions self) (getPrototype self) (setPrototype self).

(** [createProxy], and what a revocation function does to its proxy. *)
Definition createProxy (target handler : Z) : M World ProxyObject :=
  if negb (isObject h target) then throwTypeError
  else if negb (isObject h handler) then throwTypeError
  else mret (mkProxy (isCallable target) (isCallable target && isConstructor target) (Some target) (Some handler)).
Definition revoke (p : ProxyObject) : ProxyObject := mkProxy (m_isCallable p) (m_isConstructible p) None None.

End Proxies.
End Proxies.

(** * The invariants of the essential internal methods *)
Module EssentialInvariants.
Import Word Heap Effects Interface Objects PropertyDescriptor DescriptorSpec Denotation.

(** What stays of a property that is not configurable: whether it is enumerable,
    its value unless it is writable, its functions. *)
Inductive FixedProperty :=
  | FixedData (enumerable : bool) (value : option Z)
  | FixedAccessor (enumerable : bool) (get set : Z).
Inductive Fact (K : Type) :=
  | NotExtensible
  | HasPrototype (v : Z)
  | HasProperty (k : K) (F : FixedProperty)
  | Absent (k : K).
#[global] Arguments NotExtensible {K}.
#[global] Arguments HasPrototype {K}.
#[global] Arguments HasProperty {K}.
#[global] Arguments Absent {K}.

Section Invariants.
Context {World K : Type}.
(** SameValue; the key of a property name, and of a string or symbol. *)
Context (same : Z -> Z -> Prop) (key : ObjectPropertyName -> K) (key_of : Z -> K).

Definition matches (F G : FixedProperty) : Prop :=
  match F, G with
  | FixedData e None, FixedData e' _ => e = e'
  | FixedData e (Some v), FixedData e' (Some v') => e = e' /\ same v v'
  | FixedAccessor e g s, FixedAccessor e' g' s' => e = e' /\ g = g' /\ s = s'
  | _, _ => False
  end.
(** The property that a descriptor describes; [this] is the object it was found in. *)
Definition fixed_of (this : Z) (g : ObjectGetResult) : FixedProperty :=
  match g_payload g with
  | GotAccessor x => FixedAccessor (g_isEnumerable g) (get_of x) (set_of x)
  | _ => FixedData (g_isEnumerable g) (if g_isWritable g then None else Some (Proxies.data_value g this))
  end.
Definition describes (F : FixedProperty) (g : ObjectGetResult) : Prop :=
  g_isConfigurable g = false /\ forall this, matches F (fixed_of this g).

(** A definition that leaves the property as it is. *)
Definition leaves (F : FixedProperty) (D : Fields) : Prop :=
  f_configurable D <> Some true /\
  match F with
  | FixedData e v =>
      (forall b, f_enumerable D = Some b -> b = e) /\ f_get D = None /\ f_set D = None /\
      match v with
      | Some v => f_writable D <> Some true /\ forall x, f_value D = Some x -> same v x
      | None => True
      end
  | FixedAccessor e g s =>
      (forall b, f_enumerable D = Some b -> b = e) /\ f_value D = None /\ f_writable D = None /\
      (forall x, f_get D = Some x -> x = g) /\ (forall x, f_set D = Some x -> x = s)
  end.

(** The value of what [[Get]] found, unless a getter must be called for it. *)
Definition value_found (this : Z) (r : option ObjectGetResult) : option Z :=
  match r with
  | None => Some ValueUndefined
  | Some g =>
      match g_payload g with
      | GotAccessor x => if negb (hasGetter x) || isUndefined (getter x) then Some ValueUndefined else None
      | _ => Some (Proxies.data_value g this)
      end
  end.
Definition fixes_get (F : FixedProperty) (v : Z) : Prop :=
  match F with
  | FixedData _ (Some v') => same v' v
  | FixedAccessor _ g _ => g = ValueUndefined -> v = ValueUndefined
  | FixedData _ None => True
  end.
Definition fixes_set (F : FixedProperty) (v : Z) : Prop :=
  match F with
  | FixedData _ (Some v') => same v' v
  | FixedAccessor _ _ s => s <> ValueUndefined
  | FixedData _ None => True
  end.

(** [facts w f]: in the state [w] it was observed that [f].  The properties
    covered are those of [covered] where a property is said not to exist, and
    those of [covered'] elsewhere; all of them, for an object without defects. *)
Record keeps_invariants (m : InternalMethods World) (facts : World -> Fact K -> Prop) (covered covered' : FixedProperty -> Prop) : Prop := {
  inv_getOwnProperty P w w' r : i_getOwnProperty m P w = (w', inl r) ->
    (forall F, facts w (HasProperty (key P) F) -> match r with Some g => covered' F -> describes F g | None => ~ covered F end) /\
    (facts w (Absent (key P)) -> r = None) /\
    match r with
    | Some g => g_isConfigurable g = false -> exists F, (forall this, matches (fixed_of this g) F) /\ facts w' (HasProperty (key P) F)
    | None => (forall F, covered F) -> facts w NotExtensible -> facts w' (Absent (key P))
    end;
  inv_defineOwnProperty P D w w' : checkProperty D = true -> i_defineOwnProperty m P D w = (w', inl true) ->
    (forall F, facts w (HasProperty (key P) F) -> covered' F -> leaves F (fields_of D)) /\ ~ facts w (Absent (key P));
  inv_deleteOwnProperty P w w' : i_deleteOwnProperty m P w = (w', inl true) ->
    forall F, facts w (HasProperty (key P) F) -> ~ covered F;
  inv_hasProperty P w w' : i_hasProperty m P w = (w', inl false) ->
    forall F, facts w (HasProperty (key P) F) -> ~ covered' F;
  inv_get P receiver w w' r : i_get m P receiver w = (w', inl r) ->
    forall F v this, facts w (HasProperty (key P) F) -> covered' F -> value_found this r = Some v -> fixes_get F v;
  inv_set P v receiver w w' : i_set m P v receiver w = (w', inl true) ->
    forall F, facts w (HasProperty (key P) F) -> covered' F -> fixes_set F v;
  inv_ownPropertyKeys w w' l : i_ownPropertyKeys m w = (w', inl l) ->
    (forall k F, facts w (HasProperty k F) -> covered' F -> exists x, x ∈ l /\ key_of x = k) /\
    (forall x, x ∈ l -> ~ facts w (Absent (key_of x)));
  inv_isExtensible w w' b : i_isExtensible m w = (w', inl b) ->
    if b then ~ facts w NotExtensible else facts w' NotExtensible;
  inv_preventExtensions w w' : i_preventExtensions m w = (w', inl true) -> facts w' NotExtensible;
  inv_getPrototype w w' v : i_getPrototype m w = (w', inl v) ->
    (forall v', facts w (HasPrototype v') -> v' = v) /\ (facts w NotExtensible -> facts w' (HasPrototype v));
  inv_setPrototype v w w' : i_setPrototype m v w = (w', inl true) -> forall v', facts w (HasPrototype v') -> v' = v
}.

End Invariants.
End EssentialInvariants.

(** * Proxies keep the invariants *)
Module ProxyFacts.
Import Word Heap Effects Interface Objects PropertyDescriptor DescriptorSpec DescriptorFacts Denotation Proxies EssentialInvariants.

(** ** Descriptors *)

Lemma check_accessor d : checkProperty d = true -> m_isDataProperty d = false -> isDataDescriptor d = false.
Proof.
  unfold checkProperty. intros H Hd. destruct (_ && _); [discriminate|]. destruct (_ && _); [discriminate|].
  destruct (_ && _); [discriminate|]. rewrite Hd in H. cbn [negb andb] in H.
  destruct (Z.eqb_spec (Z.lor (Z.lor (Z.land (m_property d) WritablePresent) (Z.land (m_property d) NonWritablePresent))
    (Z.land (m_property d) ValuePresent)) 0) as [E|N]; [|discriminate].
  apply Z.lor_eq_0_iff in E as [E1 E2]. unfold isDataDescriptor, isValuePresent, isWritablePresent, bit, either. now rewrite E1, E2.
Qed.

(** The last part of a completion. *)
Lemma attributes_facts d :
  let d' := if negb (isEnumerablePresent d) then setEnumerable d false else d in
  let c := if negb (isConfigurablePresent d') then setConfigurable d' false else d' in
  isEnumerablePresent c = true /\ isDataDescriptor c = isDataDescriptor d /\
  (isValuePresent c = isValuePresent d /\ isWritablePresent c = isWritablePresent d) /\
  m_union c = m_union d /\ m_isDataProperty c = m_isDataProperty d.
Proof.
  intros d' c. assert (isEnumerablePresent d' = true /\ isDataDescriptor d' = isDataDescriptor d /\
    (isValuePresent d' = isValuePresent d /\ isWritablePresent d' = isWritablePresent d) /\
    m_union d' = m_union d /\ m_isDataProperty d' = m_isDataProperty d) as (A & B & [C C'] & D & E).
  { subst d'. destruct (isEnumerablePresent d) eqn:Ee; cbn [negb]; [now split_and!|].
    destruct (setEnumerable_facts d false) as (_ & A & _ & B & _ & _ & C & D & E). unfold isDataDescriptor. rewrite B, C. now split_and!. }
  rewrite <- B, <- C, <- C', <- D, <- E. subst c. destruct (isConfigurablePresent d') eqn:Ee; cbn [negb]; [now split_and!|].
  destruct (setConfigurable_facts d' false) as (_ & _ & _ & G & _ & H & I & J & K). unfold isDataDescriptor. rewrite G, H, I. now split_and!.
Qed.

Lemma complete_facts d : let c := completePropertyDescriptor d in
  isEnumerablePresent c = true /\ (isDataDescriptor c = true -> isValuePresent c = true /\ isWritablePresent c = true) /\
  (isDataDescriptor c = false -> isAccessorDescriptor c = true /\ hasJSGetter c = true /\ hasJSSetter c = true).
Proof.
  unfold completePropertyDescriptor. cbv zeta. set (d1 := if isGenericDescriptor d || isDataDescriptor d then _ else _).
  destruct (attributes_facts d1) as (A & B & [C C'] & D & E). split; [exact A|]. unfold isAccessorDescriptor, hasJSGetter, hasJSSetter, getterSetter.
  rewrite B, C, C', D, E. clear A B C C' D E. subst d1. destruct (isGenericDescriptor d || isDataDescriptor d) eqn:Eg.
  - set (d1 := if negb (isValuePresent d) then _ else _).
    assert (isValuePresent d1 = true) as Hv by (subst d1; destruct (isValuePresent d) eqn:Ev; [assumption|exact (proj1 (setValue_facts d true ValueUndefined))]).
    set (d2 := if negb (isWritablePresent d1) then _ else _).
    assert (isValuePresent d2 = true /\ isWritablePresent d2 = true) as [Hv2 Hw2].
    { subst d2. destruct (isWritablePresent d1) eqn:Ew; [now split|]. destruct (setWritable_facts d1 false) as (_ & H' & _ & _ & _ & _ & H & _). cbn [negb]. now rewrite H. }
    split; [auto|]. unfold isDataDescriptor. rewrite Hv2. discriminate.
  - apply orb_false_iff in Eg as [Eg Ed]. unfold isGenericDescriptor in Eg. rewrite Ed in Eg. cbn [negb andb] in Eg. apply negb_false_iff in Eg.
    unfold hasJSGetter, hasJSSetter. set (d1 := if negb (hasGetter (getterSetter d)) then _ else _).
    assert (isDataDescriptor d1 = false /\ m_isDataProperty d1 = m_isDataProperty d /\ hasGetter (getterSetter d1) = true) as (H1 & H2 & H3)
      by (subst d1; destruct (hasGetter (getterSetter d)) eqn:Eh; (split; [exact Ed|split; [reflexivity|first [exact Eh|reflexivity]]])).
    split; intros H; destruct (hasSetter (getterSetter d1)) eqn:Eh; cbn [negb] in H |- *; unfold isAccessorDescriptor in Eg; rewrite ?H2; try congruence.
    + change (isDataDescriptor (setSetter d1 ValueUndefined)) with (isDataDescriptor d1) in H. congruence.
    + now split_and!.
    + change (m_isDataProperty (setSetter d1 ValueUndefined)) with (m_isDataProperty d1). rewrite H2. now split_and!.
Qed.

(** ** Computations that return *)

Lemma bind_returns {World A B} (m : M World A) (k : A -> M World B) w w' b :
  (m ≫= k) w = (w', inl b) -> exists w1 a, m w = (w1, inl a) /\ k a w1 = (w', inl b).
Proof. unfold mbind, M_bind. destruct (m w) as [w1 [a|e]]; [|discriminate]. now exists w1, a. Qed.
Lemma ret_returns {World A} (a b : A) (w w' : World) : (mret a : M World A) w = (w', inl b) -> w' = w /\ b = a.
Proof. now intros [= -> ->]. Qed.

(** Takes a computation that returned apart, with the facts [Hk] on the states in between. *)
Ltac returns E := apply bind_returns in E; let w := fresh "w" in let a := fresh "a" in let E1 := fresh "E" in
  destruct E as (w & a & E1 & E).
Ltac returned E := apply ret_returns in E as [-> E]; first [subst | discriminate E | idtac].

Section Keep.
Context {World K : Type} (h : heap).
Context (proxy_at : World -> Z -> ProxyObject) (methods : Z -> InternalMethods World).
Context (getMethod : Z -> Trap -> M World Z) (call : Z -> Z -> list Z -> M World Z).
Context (isCallable : Z -> bool).
Context (get_field : Z -> Field -> M World (option Z)) (length : Z -> M World Z) (getIndexedProperty : Z -> Z -> M World Z).
Context (new_object : list (Field * Z) -> M World Z).
Context (toPropertyKeyValue : ObjectPropertyName -> Z) (name_of : Z -> ObjectPropertyName).

Context (same : Z -> Z -> Prop) (key : ObjectPropertyName -> K).
Context (facts : Z -> World -> Fact K -> Prop) (covered covered' : FixedProperty -> Prop).

(** SameValue is an equivalence that the engine decides; strings and symbols that
    are equal name the same property. *)
Context (same_equivalence : Equivalence same).
Context (same_decided : forall v w, equalsToByTheSameValueAlgorithm h v w = true -> same v w).
Context (same_key : forall v w, isString h v || isSymbol h v = true -> equalsTo h v w = true -> key (name_of v) = key (name_of w)).

(** What is observed stays, and a proxy keeps its target until it is revoked. *)
Definition later (w w' : World) : Prop :=
  (forall p f, facts p w f -> facts p w' f) /\
  (forall p, m_target (proxy_at w' p) = m_target (proxy_at w p) \/ m_target (proxy_at w' p) = None).
Definition goes_on {A} (m : M World A) : Prop := forall w, later w (m w).1.
Record engine_goes_on : Prop := {
  go_getMethod o t : goes_on (getMethod o t);
  go_call f this_ args : goes_on (call f this_ args);
  go_get_field o f : goes_on (get_field o f);
  go_length o : goes_on (length o);
  go_getIndexedProperty o i : goes_on (getIndexedProperty o i);
  go_new_object l : goes_on (new_object l);
  go_getOwnProperty t P : goes_on (i_getOwnProperty (methods t) P);
  go_defineOwnProperty t P D : goes_on (i_defineOwnProperty (methods t) P D);
  go_deleteOwnProperty t P : goes_on (i_deleteOwnProperty (methods t) P);
  go_hasProperty t P : goes_on (i_hasProperty (methods t) P);
  go_get t P r : goes_on (i_get (methods t) P r);
  go_set t P v r : goes_on (i_set (methods t) P v r);
  go_ownPropertyKeys t : goes_on (i_ownPropertyKeys (methods t));
  go_isExtensible t : goes_on (i_isExtensible (methods t));
  go_preventExtensions t : goes_on (i_preventExtensions (methods t));
  go_getPrototype t : goes_on (i_getPrototype (methods t));
  go_setPrototype t v : goes_on (i_setPrototype (methods t) v)
}.
Context (engine : engine_goes_on).
Context (facts_absent : forall p w k, facts p w (Absent k) -> facts p w NotExtensible).
Context (facts_prototype : forall p w v, facts p w (HasPrototype v) -> facts p w NotExtensible).

Lemma later_refl w : later w w.
Proof. split; auto. Qed.
Lemma later_trans w1 w2 w3 : later w1 w2 -> later w2 w3 -> later w1 w3.
Proof.
  intros [A B] [C D]. split; [auto|]. intros p. destruct (D p) as [->|E]; [apply B|now right].
Qed.

(** The facts about a proxy are those about its target. *)
Definition proxy_facts (self : Z) (w : World) (f : Fact K) : Prop :=
  match m_target (proxy_at w self) with Some t => facts t w f | None => True end.

Lemma goes_on_bind {A B} (m : M World A) (k : A -> M World B) : goes_on m -> (forall a, goes_on (k a)) -> goes_on (m ≫= k).
Proof.
  intros Hm Hk w. specialize (Hm w). unfold mbind, M_bind. destruct (m w) as [w1 [a|e]]; [|exact Hm].
  exact (later_trans w w1 _ Hm (Hk a w1)).
Qed.
Lemma goes_on_ret {A} (a : A) : goes_on (mret a).
Proof. intros w. apply later_refl. Qed.
Lemma goes_on_throw {A} : goes_on (throwTypeError (A := A)).
Proof. intros w. apply later_refl. Qed.
Lemma goes_on_step {A} (m : M World A) w w' r : goes_on m -> m w = (w', r) -> later w w'.
Proof. intros H E. specialize (H w). now rewrite E in H. Qed.

Lemma goes_on_value g r : goes_on (result_value call isCallable g r).
Proof. unfold result_value. destruct (g_payload g); [apply goes_on_ret..|]. destruct (_ && _); [apply engine|apply goes_on_ret]. Qed.
Lemma goes_on_undefined g t : goes_on (value_isUndefined call isCallable g t).
Proof. destruct g; [|apply goes_on_ret]. apply goes_on_bind; [apply goes_on_value|intros; apply goes_on_ret]. Qed.
Lemma goes_on_trap t o l : goes_on (call_trap h call t o l).
Proof. apply goes_on_bind; [apply engine|intros; apply goes_on_ret]. Qed.
Lemma goes_on_descriptor o : goes_on (toPropertyDescriptor h isCallable get_field o).
Proof.
  unfold toPropertyDescriptor.
  repeat first [ apply goes_on_bind; [apply (go_get_field engine)|intros ?] | apply goes_on_bind; [|intros ?] | case_match
               | apply goes_on_ret | apply goes_on_throw ].
Qed.

(** A method that returns: the target is there, and the trap was looked up. *)
Lemma with_trap_returns {A} self t (without : Z -> M World A) k w w' a :
  with_trap proxy_at getMethod self t without k w = (w', inl a) ->
  exists target handler trap w1, m_target (proxy_at w self) = Some target /\ later w w1 /\
    (without target w1 = (w', inl a) \/ k handler target trap w1 = (w', inl a)).
Proof.
  unfold with_trap. destruct (m_handler _) as [handler|]; [|discriminate]. destruct (m_target _) as [target|]; [|discriminate].
  intros E. returns E. exists target, handler, a0, w0. split; [reflexivity|].
  split; [now apply (goes_on_step _ _ _ _ (go_getMethod engine handler t) E0)|]. destruct (isUndefined a0); [now left|now right].
Qed.

(** The facts about the proxy, in states that come after [w]. *)
Lemma proxy_facts_at self w t f : m_target (proxy_at w self) = Some t -> proxy_facts self w f -> facts t w f.
Proof. unfold proxy_facts. now intros ->. Qed.
Lemma proxy_facts_later self w w' t f : m_target (proxy_at w self) = Some t -> later w w' -> facts t w' f -> proxy_facts self w' f.
Proof. unfold proxy_facts. intros E [_ H] Hf. destruct (H self) as [->| ->]; [now rewrite E|exact I]. Qed.

(** ** Descriptors and facts *)

Lemma fixed_cases g :
  (exists x, g_payload g = GotAccessor x /\ g_isDataProperty g = false /\
     forall this, fixed_of this g = FixedAccessor (g_isEnumerable g) (get_of x) (set_of x)) \/
  (g_isDataProperty g = true /\
     forall this, fixed_of this g = FixedData (g_isEnumerable g) (if g_isWritable g then None else Some (data_value g this))).
Proof. unfold fixed_of, g_isDataProperty. destruct (g_payload g) as [v|data i|x]; [now right|now right|left; now exists x]. Qed.

(** What a descriptor that is compatible with a property that is not
    configurable may say. *)
Lemma compatible_fixed ext D g : g_isConfigurable g = false -> isCompatiblePropertyDescriptor h ext D (Some g) = true ->
  isConfigurable D = false /\ (isEnumerablePresent D = true -> isEnumerable D = g_isEnumerable g) /\
  (isGenericDescriptor D = false -> isDataDescriptor D = g_isDataProperty g /\
    (g_isDataProperty g = true -> g_isWritable g = false ->
       isWritable D = false /\ (isValuePresent D = true -> same (value D) (data_value g ValueUndefined))) /\
    (forall x, g_payload g = GotAccessor x ->
       (hasSetter (getterSetter D) = true -> setter (getterSetter D) = set_of x) /\
       (hasGetter (getterSetter D) = true -> getter (getterSetter D) = get_of x))).
Proof.
  intros Hg. unfold isCompatiblePropertyDescriptor. rewrite Hg. cbn [negb andb]. destruct (isConfigurable D); [discriminate|].
  destruct (isEnumerablePresent D && negb (eqb (isEnumerable D) (g_isEnumerable g))) eqn:Ee; [discriminate|].
  intros H. split; [reflexivity|]. split.
  { intros He. rewrite He in Ee. now destruct (isEnumerable D), (g_isEnumerable g). }
  intros Hgen. rewrite Hgen in H. destruct (eqb (g_isDataProperty g) (isDataDescriptor D)) eqn:Ek; [|discriminate].
  apply eqb_prop in Ek. split; [now symmetry|]. cbn [negb] in H. unfold g_getterSetter in H.
  assert (isAccessorDescriptor D = true \/ isDataDescriptor D = true) as Hacc
    by (unfold isGenericDescriptor in Hgen; destruct (isDataDescriptor D), (isAccessorDescriptor D); auto).
  rewrite <- Ek in *. split.
  - intros Hd Hw. rewrite Hd, Hw in H. cbn [negb andb] in H. destruct (isWritable D); [discriminate|]. split; [reflexivity|].
    intros Hv. rewrite Hv in H. cbn [andb] in H. rewrite negb_involutive in H. now apply same_decided.
  - intros x Ex. assert (g_isDataProperty g = false) as Hd by (unfold g_isDataProperty; now rewrite Ex). rewrite Hd, Ex in *.
    destruct Hacc as [Hacc|Hacc]; [|discriminate]. rewrite Hacc in H. cbn [negb andb] in H. unfold set_of, get_of.
    destruct (hasSetter (getterSetter D)), (hasGetter (getterSetter D)); cbn [andb] in H; split; intros F; try discriminate F;
      repeat match type of H with context [?a =? ?b] => destruct (Z.eqb_spec a b); cbn [negb] in H end; first [discriminate H|assumption].
Qed.

Lemma same_trans' a b c : same a b -> same b c -> same a c.
Proof. intros. etransitivity; eassumption. Qed.

Lemma compatible_leaves F ext D g : describes same F g -> checkProperty D = true ->
  isCompatiblePropertyDescriptor h ext D (Some g) = true -> leaves same F (fields_of D).
Proof.
  intros [Hg Hm] Hc H. specialize (Hm ValueUndefined). destruct (compatible_fixed ext D g Hg H) as (H1 & H2 & H3). clear H.
  assert (m_isDataProperty D = false -> isDataDescriptor D = false) as Hwf by now apply check_accessor.
  unfold leaves, fields_of, isDataProperty in *. cbn [f_configurable f_enumerable f_get f_set f_value f_writable]. rewrite H1.
  split; [now destruct (isConfigurablePresent D)|].
  assert (forall b, (if isEnumerablePresent D then Some (isEnumerable D) else None) = Some b -> b = g_isEnumerable g) as He
    by (intros b; destruct (isEnumerablePresent D); [intros [= <-]; now apply H2|discriminate]).
  unfold isGenericDescriptor, isAccessorDescriptor, isDataDescriptor, hasJSGetter, hasJSSetter in *.
  destruct (fixed_cases g) as [(x & Ex & Ed & E)|[Ed E]]; rewrite E in Hm; rewrite Ed in H3; destruct F as [e [o|]|e a b]; try contradiction.
  - destruct Hm as (-> & -> & ->). split; [exact He|]. destruct (isValuePresent D || isWritablePresent D) eqn:Eo.
    + exfalso. destruct (H3 eq_refl) as [F _]. discriminate F.
    + apply orb_false_iff in Eo as [-> ->]. rewrite andb_false_r. split; [reflexivity|]. split; [reflexivity|].
      destruct (m_isDataProperty D); cbn [negb andb orb] in *; [split; discriminate|]. destruct (H3 eq_refl) as (_ & _ & H4).
      destruct (H4 x Ex) as [H5 H6].
      split; intros y; [destruct (hasGetter (getterSetter D))|destruct (hasSetter (getterSetter D))]; try discriminate; intros [= <-]; auto.
  - destruct (g_isWritable g) eqn:Ew; [contradiction|]. destruct Hm as [-> Hm]. split; [exact He|].
    destruct (m_isDataProperty D); cbn [negb andb] in *;
      [|exfalso; rewrite andb_false_r in H3; specialize (Hwf eq_refl); rewrite Hwf in H3; now destruct (H3 eq_refl)].
    split; [reflexivity|]. split; [reflexivity|]. rewrite andb_true_r in H3.
    destruct (isValuePresent D), (isWritablePresent D); cbn [orb negb] in *; try (split; discriminate);
      destruct (H3 eq_refl) as (_ & H4 & _); destruct (H4 eq_refl eq_refl) as [Hw H6]; rewrite ?Hw; (split; [discriminate|]); intros y [= <-];
      (eapply same_trans'; [exact Hm|]); symmetry; now apply H6.
  - assert (e = g_isEnumerable g) as -> by (destruct (g_isWritable g); cbn in Hm; tauto). split; [exact He|].
    destruct (m_isDataProperty D); cbn [negb andb] in *; [now split_and!|].
    exfalso. rewrite andb_false_r in H3. specialize (Hwf eq_refl). rewrite Hwf in H3. now destruct (H3 eq_refl).
Qed.

(** The result of [getOwnProperty] for a description by a trap. *)
Definition described (D : ObjectPropertyDescriptor) : ObjectGetResult :=
  if isDataDescriptor D then mkGetResult (GotValue (value D)) (isWritable D) (isEnumerable D) (isConfigurable D)
  else mkGetResult (GotAccessor (getterSetter D)) false (isEnumerable D) (isConfigurable D).

Lemma described_matches ext d g this : g_isConfigurable g = false -> let D := completePropertyDescriptor d in
  isCompatiblePropertyDescriptor h ext D (Some g) = true ->
  (forall F, matches same F (fixed_of ValueUndefined g) -> matches same F (fixed_of this (described D))) /\
  (isWritablePresent D && negb (isWritable D) && g_isWritable g = false ->
   forall F, matches same (fixed_of ValueUndefined g) F -> matches same (fixed_of this (described D)) F).
Proof.
  intros Hg D H. destruct (complete_facts d) as (C1 & C2 & C3). fold D in C1, C2, C3.
  destruct (compatible_fixed ext D g Hg H) as (H1 & H2 & H3). clear H. specialize (H2 C1).
  assert (isGenericDescriptor D = false) as Hgen.
  { unfold isGenericDescriptor. destruct (isDataDescriptor D); [reflexivity|]. now destruct (C3 eq_refl) as [-> _]. }
  specialize (H3 Hgen) as (H3 & H4 & H5). unfold described. destruct (isDataDescriptor D) eqn:Ed.
  - destruct (C2 eq_refl) as [Hv Hw]. rewrite Hw. destruct (fixed_cases g) as [(x & Ex & Eg & _)|[_ E]]; [congruence|]. rewrite E.
    unfold fixed_of. cbn [g_payload g_isWritable g_isEnumerable g_isConfigurable data_value]. rewrite H2. specialize (H4 (eq_sym H3)). split.
    + intros [e [v'|]|e a b] Hm; cbn in Hm |- *; [|destruct (isWritable D), (g_isWritable g); cbn in *; tauto|destruct Hm].
      destruct (g_isWritable g); [contradiction|]. destruct (H4 eq_refl) as [-> H6]. destruct Hm as [-> Hm]. split; [reflexivity|].
      eapply same_trans'; [exact Hm|]. symmetry. now apply H6.
    + intros Hc F. cbn [andb] in Hc. destruct (isWritable D) eqn:Ewd, (g_isWritable g) eqn:Ewg; cbn [negb andb] in Hc; try discriminate; cbn.
      * auto.
      * destruct (H4 eq_refl) as [F0 _]. discriminate F0.
      * destruct F as [e [v'|]|e a b]; [|tauto..]. intros [-> Hm]. split; [reflexivity|]. destruct (H4 eq_refl) as [_ H6].
        eapply same_trans'; [exact (H6 Hv)|exact Hm].
  - destruct (C3 eq_refl) as (_ & Hget & Hset). destruct (fixed_cases g) as [(x & Ex & _ & E)|[Eg _]]; [|congruence]. rewrite E.
    unfold fixed_of. cbn [g_payload g_isWritable g_isEnumerable g_isConfigurable]. destruct (H5 x Ex) as [H6 H7].
    unfold hasJSGetter, hasJSSetter in *. unfold get_of at 2 4. unfold set_of at 2 4. rewrite Hget, Hset, H2, (H6 Hset), (H7 Hget). now split.
Qed.

(** ** The methods *)

Notation key_of := (fun x => key (name_of x)).
Context (target_keeps : forall t, keeps_invariants same key key_of (methods t) (facts t) covered covered').
Notation pm self := (proxy_methods h proxy_at methods getMethod call isCallable get_field length getIndexedProperty new_object toPropertyKeyValue name_of self).

(** The value undefined is where the tests for a missing property go wrong. *)
Definition lasting (F : FixedProperty) : Prop := exists e v, F = FixedData e (Some v) /\ ~ same v ValueUndefined.
Definition proxy_covered (F : FixedProperty) : Prop := covered F /\ covered' F /\ lasting F.
Definition proxy_covered' (F : FixedProperty) : Prop := covered F /\ covered' F.

(** After the step [E], which [go] lets the engine make, facts are those of before. *)
Ltac step E go := let w := fresh "w" in let x := fresh "x" in let E1 := fresh "E" in let H := fresh "L" in
  apply bind_returns in E as (w & x & E1 & E);
  pose proof (goes_on_step _ _ _ _ go E1) as H;
  match goal with L0 : later _ ?u, L1 : later ?u w |- _ => pose proof (later_trans _ _ _ L0 L1); clear L1 end.

Lemma facts_kept w w' t f : later w w' -> facts t w f -> facts t w' f.
Proof. intros [H _]. apply H. Qed.

Lemma proxy_isExtensible self w w' b : i_isExtensible (pm self) w = (w', inl b) ->
  if b then ~ proxy_facts self w NotExtensible else proxy_facts self w' NotExtensible.
Proof.
  intros E. apply with_trap_returns in E as (t & hd & tr & w1 & Ht & L & E).
  assert (exists w2, later w w2 /\ i_isExtensible (methods t) w2 = (w', inl b)) as (w2 & L2 & E2).
  { destruct E as [E|E]; [now exists w1|]. step E (goes_on_trap tr hd [t]). exists w0. split; [assumption|].
    returns E. destruct (eqb a x) eqn:Eb; cbn [negb] in E; [|discriminate]. apply eqb_prop in Eb. subst a.
    apply ret_returns in E as [-> ->]. exact E1. }
  pose proof (inv_isExtensible _ _ _ _ _ _ _ (target_keeps t) w2 w' b E2) as H.
  pose proof (goes_on_step _ _ _ _ (go_isExtensible engine t) E2) as L3. destruct b.
  - intros Hf. apply H, (facts_kept w w2); [assumption|]. now apply (proxy_facts_at self).
  - apply (proxy_facts_later self w w' t); [assumption| |assumption]. now apply (later_trans w w2).
Qed.

Lemma proxy_preventExtensions self w w' : i_preventExtensions (pm self) w = (w', inl true) -> proxy_facts self w' NotExtensible.
Proof.
  intros E. apply with_trap_returns in E as (t & hd & tr & w1 & Ht & L & [E|E]).
  - pose proof (goes_on_step _ _ _ _ (go_preventExtensions engine t) E) as L3.
    apply (proxy_facts_later self w w' t); [assumption|now apply (later_trans w w1)|].
    exact (inv_preventExtensions _ _ _ _ _ _ _ (target_keeps t) w1 w' E).
  - step E (goes_on_trap tr hd [t]). destruct x; [|discriminate]. step E (go_isExtensible engine t).
    pose proof (inv_isExtensible _ _ _ _ _ _ _ (target_keeps t) w0 w2 x E1) as Hb.
    destruct x; [discriminate|]. apply ret_returns in E as [-> _]. now apply (proxy_facts_later self w w2 t).
Qed.

Lemma proxy_getPrototype self w w' v : i_getPrototype (pm self) w = (w', inl v) ->
  (forall v', proxy_facts self w (HasPrototype v') -> v' = v) /\ (proxy_facts self w NotExtensible -> proxy_facts self w' (HasPrototype v)).
Proof.
  intros E. apply with_trap_returns in E as (t & hd & tr & w1 & Ht & L & E).
  assert ((exists w2, later w w2 /\ i_getPrototype (methods t) w2 = (w', inl v)) \/ ~ facts t w NotExtensible) as [(w2 & L2 & E2)|N].
  { destruct E as [E|E]; [left; now exists w1|]. step E (go_call engine tr hd [t]).
    destruct (negb _ && negb _) in E; [discriminate|]. step E (go_isExtensible engine t).
    pose proof (inv_isExtensible _ _ _ _ _ _ _ (target_keeps t) w0 w2 x0 E1) as Hb. destruct x0.
    - right. intros Hf. apply Hb, (facts_kept w w0); assumption.
    - returns E. destruct (Z.eqb_spec x a) as [->|]; cbn [negb] in E; [|discriminate]. apply ret_returns in E as [-> ->]. left. now exists w2. }
  - destruct (inv_getPrototype _ _ _ _ _ _ _ (target_keeps t) w2 w' v E2) as [A B].
    pose proof (goes_on_step _ _ _ _ (go_getPrototype engine t) E2) as L3. split.
    + intros v' Hf. apply A, (facts_kept w w2); [assumption|]. now apply (proxy_facts_at self).
    + intros Hf. apply (proxy_facts_later self w w' t); [assumption|now apply (later_trans w w2)|]. apply B, (facts_kept w w2); [assumption|].
      now apply (proxy_facts_at self).
  - split; [intros v' Hf|intros Hf]; exfalso; apply N; [apply (facts_prototype t w v')|]; now apply (proxy_facts_at self).
Qed.

Lemma proxy_setPrototype self v w w' : i_setPrototype (pm self) v w = (w', inl true) ->
  forall v', proxy_facts self w (HasPrototype v') -> v' = v.
Proof.
  intros E v' Hf. apply with_trap_returns in E as (t & hd & tr & w1 & Ht & L & E). apply (proxy_facts_at self w t) in Hf; [|assumption].
  destruct E as [E|E].
  { apply (inv_setPrototype _ _ _ _ _ _ _ (target_keeps t) v w1 w' E). now apply (facts_kept w w1). }
  step E (goes_on_trap tr hd [t; v]). destruct x; [|discriminate]. step E (go_isExtensible engine t).
  pose proof (inv_isExtensible _ _ _ _ _ _ _ (target_keeps t) w0 w2 x E1) as Hb. destruct x.
  { exfalso. apply Hb, (facts_kept w w0); [assumption|]. now apply (facts_prototype t w v'). }
  step E (go_getPrototype engine t). destruct (inv_getPrototype _ _ _ _ _ _ _ (target_keeps t) w2 w3 x E2) as [A _].
  destruct (Z.eqb_spec v x) as [->|]; [|discriminate]. apply A, (facts_kept w w2); assumption.
Qed.

(** What the target says of a property, against the facts of before. *)
Lemma target_property t P w w1 w2 r : later w w1 -> i_getOwnProperty (methods t) P w1 = (w2, inl r) ->
  (forall F, facts t w (HasProperty (key P) F) -> match r with Some g => covered' F -> describes same F g | None => ~ covered F end) /\
  (facts t w (Absent (key P)) -> r = None).
Proof.
  intros L E. destruct (inv_getOwnProperty _ _ _ _ _ _ _ (target_keeps t) P w1 w2 r E) as (A & B & _).
  split; [intros F Hf; apply A|intros Hf; apply B]; now apply (facts_kept w w1).
Qed.
Lemma described_fixed F g : describes same F g -> g_isConfigurable g = false.
Proof. now intros [H _]. Qed.
Lemma value_is_data g this w w' v : result_value call isCallable g this w = (w', inl v) -> g_isDataProperty g = true ->
  w' = w /\ v = data_value g this.
Proof. unfold result_value, g_isDataProperty, data_value. destruct (g_payload g); [now intros [= <- <-]..|discriminate]. Qed.

Lemma proxy_hasProperty self P w w' : i_hasProperty (pm self) P w = (w', inl false) ->
  forall F, proxy_facts self w (HasProperty (key P) F) -> ~ proxy_covered' F.
Proof.
  intros E F Hf [Hc Hc']. apply with_trap_returns in E as (t & hd & tr & w1 & Ht & L & E). apply (proxy_facts_at self w t) in Hf; [|assumption].
  destruct E as [E|E].
  { apply (inv_hasProperty _ _ _ _ _ _ _ (target_keeps t) P w1 w' E F); [now apply (facts_kept w w1)|assumption]. }
  step E (goes_on_trap tr hd [t; toPropertyKeyValue P]). destruct x; [discriminate|]. step E (go_getOwnProperty engine t P).
  destruct (target_property t P w w0 w2 x ltac:(assumption) E1) as [A _]. specialize (A F Hf). destruct x as [g|]; [specialize (A Hc')|contradiction].
  rewrite (described_fixed F g A) in E. discriminate.
Qed.

Lemma fixes_equal F g this : describes same F g -> g_isDataProperty g = true -> g_isWritable g = false ->
  fixes_get same F (data_value g this) /\ fixes_set same F (data_value g this).
Proof.
  intros [_ Hm] Hd Hw. specialize (Hm this). destruct (fixed_cases g) as [(x & _ & F0 & _)|[_ E]]; [congruence|].
  rewrite E, Hw in Hm. destruct F as [e [v'|]|e a b]; cbn in *; tauto.
Qed.
Lemma fixes_writable F g v : describes same F g -> g_isDataProperty g && negb (g_isWritable g) = false ->
  (g_isDataProperty g = false -> negb (hasGetter (g_getterSetter g)) || isUndefined (getter (g_getterSetter g)) = true -> v = ValueUndefined) ->
  fixes_get same F v.
Proof.
  intros [_ Hm] Hd Hu. specialize (Hm ValueUndefined). destruct (fixed_cases g) as [(x & Ex & Ed & E)|[Ed E]]; rewrite E in Hm.
  - destruct F as [e [v'|]|e a b]; try contradiction. destruct Hm as (-> & -> & ->). cbn. intros Hg. apply (Hu Ed).
    unfold g_getterSetter, get_of in *. rewrite Ex. destruct (hasGetter x); [|reflexivity]. rewrite Hg. reflexivity.
  - rewrite Ed in Hd. cbn [andb] in Hd. apply negb_false_iff in Hd. rewrite Hd in Hm. destruct F as [e [v'|]|e a b]; try contradiction. exact I.
Qed.
Lemma fixes_set_writable F g v : describes same F g -> g_isDataProperty g && negb (g_isWritable g) = false ->
  (g_isDataProperty g = false -> negb (hasSetter (g_getterSetter g)) || isUndefined (setter (g_getterSetter g)) = false) ->
  fixes_set same F v.
Proof.
  intros [_ Hm] Hd Hu. specialize (Hm ValueUndefined). destruct (fixed_cases g) as [(x & Ex & Ed & E)|[Ed E]]; rewrite E in Hm.
  - destruct F as [e [v'|]|e a b]; try contradiction. destruct Hm as (-> & -> & ->). cbn. specialize (Hu Ed).
    unfold g_getterSetter, set_of in *. rewrite Ex in Hu. destruct (hasSetter x); [|discriminate]. intros Eq. rewrite Eq in Hu. discriminate Hu.
  - rewrite Ed in Hd. cbn [andb] in Hd. apply negb_false_iff in Hd. rewrite Hd in Hm. destruct F as [e [v'|]|e a b]; try contradiction. exact I.
Qed.

Lemma proxy_get self P receiver w w' r : i_get (pm self) P receiver w = (w', inl r) ->
  forall F v this, proxy_facts self w (HasProperty (key P) F) -> proxy_covered' F -> value_found this r = Some v -> fixes_get same F v.
Proof.
  intros E F v this Hf [Hc Hc'] Hv. apply with_trap_returns in E as (t & hd & tr & w1 & Ht & L & E). apply (proxy_facts_at self w t) in Hf; [|assumption].
  destruct E as [E|E].
  { apply (inv_get _ _ _ _ _ _ _ (target_keeps t) P receiver w1 w' r E F v this); [now apply (facts_kept w w1)|assumption..]. }
  step E (go_call engine tr hd [t; toPropertyKeyValue P; self]). step E (go_getOwnProperty engine t P).
  destruct (target_property t P w w0 w2 x0 ltac:(assumption) E1) as [A _]. specialize (A F Hf). destruct x0 as [g|]; [specialize (A Hc')|contradiction].
  pose proof (described_fixed F g A) as Hg. rewrite Hg in E. cbn [negb] in E. rewrite !andb_true_r in E.
  destruct (g_isDataProperty g && negb (g_isWritable g)) eqn:Ew.
  - apply andb_true_iff in Ew as [Ed Ew]. apply negb_true_iff in Ew. returns E. apply value_is_data in E2 as [-> ->]; [|assumption].
    destruct (Z.eqb_spec x (data_value g t)) as [->|]; [|discriminate]. apply ret_returns in E as [-> ->]. injection Hv as <-.
    now apply (fixes_equal F g t).
  - destruct (negb (g_isDataProperty g) && _) eqn:Ea.
    + destruct (isUndefined x) eqn:Eu; [|discriminate]. apply ret_returns in E as [-> ->]. injection Hv as <-.
      apply (fixes_writable F g); [assumption..|]. intros _ _. apply Z.eqb_eq in Eu. exact Eu.
    + apply ret_returns in E as [-> ->]. apply (fixes_writable F g); [assumption..|]. intros Ed Hu. now rewrite Ed, Hu in Ea.
Qed.

Lemma proxy_set self P v receiver w w' : i_set (pm self) P v receiver w = (w', inl true) ->
  forall F, proxy_facts self w (HasProperty (key P) F) -> proxy_covered' F -> fixes_set same F v.
Proof.
  intros E F Hf [Hc Hc']. apply with_trap_returns in E as (t & hd & tr & w1 & Ht & L & E). apply (proxy_facts_at self w t) in Hf; [|assumption].
  destruct E as [E|E].
  { apply (inv_set _ _ _ _ _ _ _ (target_keeps t) P v receiver w1 w' E F); [now apply (facts_kept w w1)|assumption]. }
  step E (goes_on_trap tr hd [t; toPropertyKeyValue P; v; receiver]). destruct x; [|discriminate]. step E (go_getOwnProperty engine t P).
  destruct (target_property t P w w0 w2 x ltac:(assumption) E1) as [A _]. specialize (A F Hf). destruct x as [g|]; [specialize (A Hc')|contradiction].
  pose proof (described_fixed F g A) as Hg. rewrite Hg in E. cbn [negb] in E. rewrite !andb_true_r in E.
  destruct (g_isDataProperty g && negb (g_isWritable g)) eqn:Ew.
  - apply andb_true_iff in Ew as [Ed Ew]. apply negb_true_iff in Ew. returns E. apply value_is_data in E2 as [-> ->]; [|assumption].
    destruct (Z.eqb_spec v (data_value g t)) as [->|]; [|discriminate]. now apply (fixes_equal F g t).
  - destruct (negb (g_isDataProperty g) && _) eqn:Ea; [discriminate|]. apply (fixes_set_writable F g); [assumption..|].
    intros Ed. now rewrite Ed in Ea.
Qed.

Lemma proxy_defineOwnProperty self P D w w' : checkProperty D = true -> i_defineOwnProperty (pm self) P D w = (w', inl true) ->
  (forall F, proxy_facts self w (HasProperty (key P) F) -> proxy_covered' F -> leaves same F (fields_of D)) /\
  ~ proxy_facts self w (Absent (key P)).
Proof.
  intros Hc E. apply with_trap_returns in E as (t & hd & tr & w1 & Ht & L & [E|E]).
  { destruct (inv_defineOwnProperty _ _ _ _ _ _ _ (target_keeps t) P D w1 w' Hc E) as [A B]. split.
    - intros F Hf [_ Hc']. apply A; [|assumption]. apply (facts_kept w w1); [assumption|]. now apply (proxy_facts_at self).
    - intros Hf. apply B, (facts_kept w w1); [assumption|]. now apply (proxy_facts_at self). }
  step E (go_new_object engine (fromObjectPropertyDescriptor D)). step E (goes_on_trap tr hd [t; toPropertyKeyValue P; x]).
  destruct x0; [|discriminate]. cbn [negb] in E. step E (go_getOwnProperty engine t P). step E (go_isExtensible engine t).
  destruct (target_property t P w w2 w3 x0 ltac:(assumption) E2) as [A B].
  pose proof (inv_isExtensible _ _ _ _ _ _ _ (target_keeps t) w3 w4 x1 E3) as Hb. split.
  - intros F Hf [Hcov Hcov']. apply (proxy_facts_at self w t) in Hf; [|assumption]. specialize (A F Hf).
    destruct x0 as [g|]; [specialize (A Hcov')|contradiction]. destruct (isCompatiblePropertyDescriptor h x1 D (Some g)) eqn:Ec; [|discriminate].
    now apply (compatible_leaves F x1 D g).
  - intros Hf. apply (proxy_facts_at self w t) in Hf; [|assumption]. rewrite (B Hf) in E. destruct x1; [|discriminate].
    apply Hb, (facts_kept w w3); [assumption|]. now apply (facts_absent t w (key P)).
Qed.

(** The test for undefined finds no lasting property missing. *)
Lemma lasting_defined F g t w w' : describes same F g -> lasting F ->
  value_isUndefined call isCallable (Some g) t w = (w', inl true) -> False.
Proof.
  intros [_ Hm] (e & v & -> & N) E. specialize (Hm t). destruct (fixed_cases g) as [(x & Ex & _ & Eg)|[Ed Eg]]; rewrite Eg in Hm; [contradiction|].
  apply bind_returns in E as (w1 & u & E1 & E). apply value_is_data in E1 as [-> ->]; [|assumption]. apply ret_returns in E as [-> Eu].
  destruct (g_isWritable g); [contradiction|]. destruct Hm as [_ Hm]. symmetry in Eu. apply Z.eqb_eq in Eu. now rewrite Eu in Hm.
Qed.
(** Where a trap says that a property does not exist, or that it was deleted. *)
Lemma gone_uncovered F t P w w0 w1 w2 r b : later w w0 -> i_getOwnProperty (methods t) P w0 = (w1, inl r) ->
  value_isUndefined call isCallable r t w1 = (w2, inl b) -> facts t w (HasProperty (key P) F) -> proxy_covered F ->
  b = false /\ config_of r = false.
Proof.
  intros L E0 E1 Hf (Hc & Hc' & Hl). destruct (target_property t P w w0 w1 r L E0) as [A _]. specialize (A F Hf). destruct r as [g|]; [specialize (A Hc')|contradiction].
  split; [|exact (described_fixed F g A)]. destruct b; [|reflexivity]. destruct (lasting_defined F g t w1 w2 A Hl E1).
Qed.

Lemma proxy_deleteOwnProperty self P w w' : i_deleteOwnProperty (pm self) P w = (w', inl true) ->
  forall F, proxy_facts self w (HasProperty (key P) F) -> ~ proxy_covered F.
Proof.
  intros E F Hf Hc. apply with_trap_returns in E as (t & hd & tr & w1 & Ht & L & [E|E]); apply (proxy_facts_at self w t) in Hf; try assumption.
  { apply (inv_deleteOwnProperty _ _ _ _ _ _ _ (target_keeps t) P w1 w' E F); [now apply (facts_kept w w1)|]. apply Hc. }
  step E (goes_on_trap tr hd [t; toPropertyKeyValue P]). destruct x; [|discriminate]. cbn [negb] in E.
  step E (go_getOwnProperty engine t P). step E (goes_on_undefined x t).
  destruct (gone_uncovered F t P w w0 w2 w3 x x0 ltac:(assumption) E1 E2 Hf Hc) as [-> Hg]. rewrite Hg in E. discriminate.
Qed.

Lemma not_all_covered : ~ forall F, proxy_covered F.
Proof. intros H. destruct (H (FixedData true None)) as (_ & _ & e & v & F & _). discriminate. Qed.
Lemma described_configurable D : g_isConfigurable (described D) = isConfigurable D.
Proof. unfold described. now destruct (isDataDescriptor D). Qed.

(** A description by a trap that was accepted. *)
Lemma description_accepted t P w w0 w1 w2 w3 r ext d (D := completePropertyDescriptor d) :
  later w w0 -> i_getOwnProperty (methods t) P w0 = (w1, inl r) -> later w1 w2 -> i_isExtensible (methods t) w2 = (w3, inl ext) ->
  isCompatiblePropertyDescriptor h ext D r = true ->
  negb (isConfigurable D) && match r with
    | None => true
    | Some g => g_isConfigurable g || (isWritablePresent D && negb (isWritable D) && g_isWritable g)
    end = false ->
  (forall F, facts t w (HasProperty (key P) F) -> proxy_covered' F -> describes same F (described D)) /\
  ~ facts t w (Absent (key P)) /\
  (isConfigurable D = false -> exists F, (forall this, matches same (fixed_of this (described D)) F) /\ facts t w3 (HasProperty (key P) F)).
Proof.
  intros L E0 L1 E2 Hc Hch. destruct (target_property t P w w0 w1 r L E0) as [A B].
  pose proof (later_trans w w0 w1 L (goes_on_step _ _ _ _ (go_getOwnProperty engine t P) E0)) as L01. split; [|split].
  - intros F Hf [Hcov Hcov']. specialize (A F Hf). destruct r as [g|]; [|contradiction]. destruct (A Hcov') as [Hg Hm]. split.
    + rewrite described_configurable. now destruct (compatible_fixed ext D g Hg Hc) as [-> _].
    + intros this. exact (proj1 (described_matches ext d g this Hg Hc) F (Hm ValueUndefined)).
  - intros Hf. rewrite (B Hf) in Hc. cbn in Hc. subst ext. apply (inv_isExtensible _ _ _ _ _ _ _ (target_keeps t) w2 w3 true E2).
    apply (facts_kept w w2); [now apply (later_trans w w1)|]. now apply (facts_absent t w (key P)).
  - intros HD. rewrite HD in Hch. destruct r as [g|]; [|discriminate]. cbn [negb andb] in Hch. apply orb_false_iff in Hch as [Hg Hch].
    destruct (inv_getOwnProperty _ _ _ _ _ _ _ (target_keeps t) P w0 w1 (Some g) E0) as (_ & _ & C). destruct (C Hg) as (F & Hm & Hf).
    exists F. split; [intros this; exact (proj2 (described_matches ext d g this Hg Hc) Hch F (Hm ValueUndefined))|].
    apply (facts_kept w1 w3); [|assumption]. apply (later_trans w1 w2); [assumption|]. exact (goes_on_step _ _ _ _ (go_isExtensible engine t) E2).
Qed.

Lemma proxy_getOwnProperty self P w w' r : i_getOwnProperty (pm self) P w = (w', inl r) ->
  (forall F, proxy_facts self w (HasProperty (key P) F) -> match r with Some g => proxy_covered' F -> describes same F g | None => ~ proxy_covered F end) /\
  (proxy_facts self w (Absent (key P)) -> r = None) /\
  match r with
  | Some g => g_isConfigurable g = false ->
      exists F, (forall this, matches same (fixed_of this g) F) /\ proxy_facts self w' (HasProperty (key P) F)
  | None => (forall F, proxy_covered F) -> proxy_facts self w NotExtensible -> proxy_facts self w' (Absent (key P))
  end.
Proof.
  intros E. apply with_trap_returns in E as (t & hd & tr & w1 & Ht & L & [E|E]).
  { pose proof (goes_on_step _ _ _ _ (go_getOwnProperty engine t P) E) as L1.
    destruct (target_property t P w w1 w' r L E) as [A B]. destruct (inv_getOwnProperty _ _ _ _ _ _ _ (target_keeps t) P w1 w' r E) as (_ & _ & C).
    split; [|split].
    - intros F Hf. specialize (A F (proxy_facts_at self w t _ Ht Hf)). destruct r; [intros [_ H]; auto|intros [H _]; auto].
    - intros Hf. now apply B, (proxy_facts_at self).
    - destruct r as [g|]; [|intros H; now destruct not_all_covered]. intros Hg. destruct (C Hg) as (F & Hm & Hf). exists F.
      split; [assumption|]. apply (proxy_facts_later self w w' t); [assumption|now apply (later_trans w w1)|assumption]. }
  step E (go_call engine tr hd [t; toPropertyKeyValue P]). destruct (negb _ && negb _) in E; [discriminate|].
  step E (go_getOwnProperty engine t P). destruct (isUndefined x).
  - step E (goes_on_undefined x0 t).
    assert (r = None /\ forall F, facts t w (HasProperty (key P) F) -> ~ proxy_covered F) as [-> HF].
    { split.
      - destruct x1; [now apply ret_returns in E as [-> ->]|]. destruct (negb _); [discriminate|]. returns E.
        destruct (negb a); [discriminate|]. now apply ret_returns in E as [-> ->].
      - intros F Hf Hc. destruct (gone_uncovered F t P w w0 w2 w3 x0 x1 ltac:(assumption) E1 E2 Hf Hc) as [-> Hg]. rewrite Hg in E. discriminate. }
    split; [intros F Hf; now apply HF, (proxy_facts_at self)|]. split; [reflexivity|]. intros Hall; now destruct not_all_covered.
  - step E (goes_on_descriptor x). step E (go_isExtensible engine t).
    destruct (isCompatiblePropertyDescriptor h x2 (completePropertyDescriptor x1) x0) eqn:Ec; [|discriminate]. cbn [negb] in E.
    destruct (negb (isConfigurable (completePropertyDescriptor x1)) && _) eqn:Ech; [discriminate|].
    assert (w' = w4 /\ r = Some (described (completePropertyDescriptor x1))) as [-> ->]
      by (unfold described; destruct (isDataDescriptor _); apply ret_returns in E as [-> ->]; now split).
    destruct (description_accepted t P w w0 w2 w3 w4 x0 x2 x1 ltac:(assumption) E1 (goes_on_step _ _ _ _ (goes_on_descriptor x) E2) E3 Ec Ech) as (A & B & C).
    split; [intros F Hf; now apply A, (proxy_facts_at self)|]. split; [intros Hf; destruct B; now apply (proxy_facts_at self)|].
    rewrite described_configurable. intros HD. destruct (C HD) as (F & Hm & Hf). exists F. split; [assumption|].
    now apply (proxy_facts_later self w w4 t).
Qed.

Lemma goes_on_list o n : forall i, goes_on (listFromArrayLike h getIndexedProperty o n i).
Proof.
  induction n as [|n IH]; intros i; [apply goes_on_ret|]. cbn [listFromArrayLike]. apply goes_on_bind; [apply engine|intros x].
  destruct (negb _); [apply goes_on_throw|]. apply goes_on_bind; [apply IH|intros; apply goes_on_ret].
Qed.
Lemma goes_on_array_like o : goes_on (createListFromArrayLike h length getIndexedProperty o).
Proof.
  unfold createListFromArrayLike. destruct (negb _); [apply goes_on_throw|]. apply goes_on_bind; [apply engine|intros; apply goes_on_list].
Qed.
Lemma list_of_keys o n : forall i w w' l, listFromArrayLike h getIndexedProperty o n i w = (w', inl l) ->
  forall x, x ∈ l -> isString h x || isSymbol h x = true.
Proof.
  induction n as [|n IH]; intros i w w' l E x Hx; cbn [listFromArrayLike] in E.
  - apply ret_returns in E as [_ ->]. now apply not_elem_of_nil in Hx.
  - returns E. destruct (isString h a || isSymbol h a) eqn:Ek; [|discriminate]. cbn [negb] in E. returns E.
    apply ret_returns in E as [_ ->]. apply elem_of_cons in Hx as [->|Hx]; [assumption|]. now apply (IH (i + 1) w0 w1 a0).
Qed.

Lemma goes_on_split t keys : goes_on (split_keys methods name_of t keys).
Proof.
  induction keys as [|k keys IH]; [apply goes_on_ret|]. cbn [split_keys]. apply goes_on_bind; [apply engine|intros r].
  apply goes_on_bind; [apply IH|intros [c n]]. destruct r as [g|]; [destruct (negb _)|]; apply goes_on_ret.
Qed.
(** Keys that the facts fix are found to be not configurable. *)
Lemma split_fixed t w keys : forall w1 w2 c n, later w w1 -> split_keys methods name_of t keys w1 = (w2, inl (c, n)) ->
  (forall x, x ∈ keys <-> x ∈ c \/ x ∈ n) /\
  (forall x F, x ∈ keys -> facts t w (HasProperty (key_of x) F) -> proxy_covered' F -> x ∈ n).
Proof.
  induction keys as [|k keys IH]; intros w1 w2 c n L E; cbn [split_keys] in E.
  - apply ret_returns in E as [_ [= -> ->]]. split; intros x; [|intros F Hx; now apply not_elem_of_nil in Hx].
    rewrite elem_of_nil. tauto.
  - step E (go_getOwnProperty engine t (name_of k)). returns E. destruct a as [c' n'].
    destruct (IH w0 w3 c' n' ltac:(assumption) E1) as [A B].
    destruct (target_property t (name_of k) w w1 w0 x L E0) as [C _].
    assert ((c = c' /\ n = k :: n') \/ (c = k :: c' /\ n = n' /\ forall F, facts t w (HasProperty (key_of k) F) -> ~ proxy_covered' F)) as Hcn.
    { destruct x as [g|].
      - destruct (g_isConfigurable g) eqn:Eg; cbn [negb] in E; apply ret_returns in E as [_ [= -> ->]]; [right|now left].
        split; [reflexivity|]. split; [reflexivity|]. intros F Hf [_ Hc]. destruct (C F Hf Hc) as [Hg _]. congruence.
      - apply ret_returns in E as [_ [= -> ->]]. right. split; [reflexivity|]. split; [reflexivity|]. intros F Hf [Hc _]. exact (C F Hf Hc). }
    split.
    + intros y. rewrite elem_of_cons, A. destruct Hcn as [[-> ->]|(-> & -> & _)]; rewrite elem_of_cons; tauto.
    + intros y F Hy Hf Hc. apply elem_of_cons in Hy as [->|Hy].
      * destruct Hcn as [[_ ->]|(_ & _ & N)]; [left|destruct (N F Hf Hc)].
      * specialize (B y F Hy Hf Hc). destruct Hcn as [[_ ->]|(_ & -> & _)]; [now right|assumption].
Qed.

Lemma erase_key_spec k l : forall l' b, erase_key h k l = (l', b) ->
  (b = true -> exists x, x ∈ l /\ equalsTo h x k = true) /\ (forall x, x ∈ l <-> x ∈ l' \/ (x ∈ l /\ equalsTo h x k = true)).
Proof.
  induction l as [|y l IH]; intros l' b E; cbn [erase_key] in E.
  - injection E as <- <-. split; [discriminate|]. intros x. rewrite elem_of_nil. tauto.
  - destruct (erase_key h k l) as [l0 b0] eqn:E0. destruct (IH l0 b0 eq_refl) as [A B]. destruct (equalsTo h y k) eqn:Ey; injection E as <- <-.
    + split; [intros _; exists y; split; [now left|assumption]|]. intros x. rewrite elem_of_cons, B. split; [|tauto].
      intros [->|[H|[H H']]]; tauto.
    + split; [intros H; destruct (A H) as (x & Hx & Hk); exists x; split; [now right|assumption]|].
      intros x. rewrite !elem_of_cons, B. tauto.
Qed.
Lemma erase_keys_spec keys : forall l l', erase_keys h keys l = Some l' ->
  (forall k, k ∈ keys -> exists x, x ∈ l /\ equalsTo h x k = true) /\
  (forall x, x ∈ l -> x ∈ l' \/ exists k, k ∈ keys /\ equalsTo h x k = true) /\ (forall x, x ∈ l' -> x ∈ l).
Proof.
  induction keys as [|k keys IH]; intros l l' E; cbn [erase_keys] in E.
  - injection E as <-. split; [intros k Hk; now apply not_elem_of_nil in Hk|]. split; auto.
  - destruct (erase_key h k l) as [l0 b] eqn:E0. destruct b; [|discriminate]. destruct (erase_key_spec k l l0 true E0) as [A B].
    destruct (IH l0 l' E) as (C & D & G). split; [|split].
    + intros k' Hk. apply elem_of_cons in Hk as [->|Hk]; [now apply A|]. destruct (C k' Hk) as (x & Hx & Hx'). exists x. split; [apply B; now left|assumption].
    + intros x Hx. apply B in Hx as [Hx|[_ Hx]]; [|right; exists k; split; [now left|assumption]].
      destruct (D x Hx) as [H|(k' & Hk & He)]; [now left|right; exists k'; split; [now right|assumption]].
    + intros x Hx. apply B. left. now apply G.
Qed.

Lemma proxy_ownPropertyKeys self w w' l : i_ownPropertyKeys (pm self) w = (w', inl l) ->
  (forall k F, proxy_facts self w (HasProperty k F) -> proxy_covered' F -> exists x, x ∈ l /\ key_of x = k) /\
  (forall x, x ∈ l -> ~ proxy_facts self w (Absent (key_of x))).
Proof.
  intros E. apply with_trap_returns in E as (t & hd & tr & w1 & Ht & L & [E|E]).
  { destruct (inv_ownPropertyKeys _ _ _ _ _ _ _ (target_keeps t) w1 w' l E) as [A B]. split.
    - intros k F Hf [_ Hc]. apply (A k F); [|assumption]. apply (facts_kept w w1); [assumption|]. now apply (proxy_facts_at self).
    - intros x Hx Hf. apply (B x Hx), (facts_kept w w1); [assumption|]. now apply (proxy_facts_at self). }
  step E (go_call engine tr hd [t]). step E (goes_on_array_like x). destruct (has_duplicates h x0); [discriminate|].
  step E (go_isExtensible engine t). step E (go_ownPropertyKeys engine t). returns E. destruct a as [c n].
  assert (forall y, y ∈ x0 -> isString h y || isSymbol h y = true) as Hkeys.
  { unfold createListFromArrayLike in E1. destruct (negb _); [discriminate|]. returns E1. now apply (list_of_keys x _ _ _ _ _ E1). }
  assert (l = x0 /\ (forall k, k ∈ n -> exists y, y ∈ x0 /\ equalsTo h y k = true) /\
    (x1 = false -> forall y, y ∈ x0 -> exists k, (k ∈ c \/ k ∈ n) /\ equalsTo h y k = true)) as (-> & Hn & Hc).
  { destruct (x1 && _) eqn:Ex.
    { apply andb_true_iff in Ex as [-> Ex]. apply ret_returns in E as [_ ->]. destruct n; [|discriminate].
      split; [reflexivity|]. split; [intros k Hk; now apply not_elem_of_nil in Hk|discriminate]. }
    destruct (erase_keys h n x0) as [u|] eqn:E5; [|discriminate]. destruct (erase_keys_spec n x0 u E5) as (A & B & _).
    destruct x1; [apply ret_returns in E as [_ ->]; now split_and!|].
    destruct (erase_keys h c u) as [u'|] eqn:E6; [|discriminate]. destruct u'; [|discriminate]. apply ret_returns in E as [_ ->].
    destruct (erase_keys_spec c u [] E6) as (_ & C & _). split; [reflexivity|]. split; [exact A|]. intros _ y Hy.
    destruct (B y Hy) as [Hy'|(k & Hk & He)]; [|exists k; tauto]. destruct (C y Hy') as [Hy2|(k & Hk & He)]; [now apply not_elem_of_nil in Hy2|].
    exists k. tauto. }
  destruct (inv_ownPropertyKeys _ _ _ _ _ _ _ (target_keeps t) _ _ _ E3) as [A B].
  destruct (split_fixed t w x2 _ _ _ _ ltac:(eassumption) E4) as [Hs Hsf]. split.
  - intros k F Hf HF. apply (proxy_facts_at self w t) in Hf; [|assumption].
    destruct (A k F) as (z & Hz & <-); [eapply facts_kept; eassumption|apply HF|].
    destruct (Hn z (Hsf z F Hz Hf HF)) as (y & Hy & He). exists y. split; [assumption|]. apply same_key; auto.
  - intros y Hy Hf. apply (proxy_facts_at self w t) in Hf; [|assumption].
    assert (x1 = false) as Hx.
    { destruct x1; [|reflexivity]. exfalso. apply (inv_isExtensible _ _ _ _ _ _ _ (target_keeps t) _ _ _ E2).
      eapply facts_kept; [|apply (facts_absent t w (key_of y)); exact Hf]. assumption. }
    destruct (Hc Hx y Hy) as (k & Hk & He). apply (B k).
    + now apply Hs.
    + rewrite <- (same_key y k (Hkeys y Hy) He). eapply facts_kept; eassumption.
Qed.

(** All of them. *)
Lemma proxy_keeps self : keeps_invariants same key key_of (pm self) (proxy_facts self) proxy_covered proxy_covered'.
Proof.
  split.
  - apply proxy_getOwnProperty.
  - apply proxy_defineOwnProperty.
  - apply proxy_deleteOwnProperty.
  - apply proxy_hasProperty.
  - apply proxy_get.
  - apply proxy_set.
  - apply proxy_ownPropertyKeys.
  - apply proxy_isExtensible.
  - apply proxy_preventExtensions.
  - apply proxy_getPrototype.
  - apply proxy_setPrototype.
Qed.

End Keep.

End ProxyFacts.

(** * The properties *)
Module ProxyProps.
Import Word Heap Effects Interface Objects PropertyDescriptor DescriptorSpec Denotation Proxies EssentialInvariants ProxyFacts.

(** An engine with one object, at every address, that is frozen and has one
    property, and a proxy for it whose traps all return 5. *)
Module Sample.
Definition key (P : ObjectPropertyName) : Z := match P with PUInt i => i | PName n => -1 - n end.
Definition name_of (_ : Z) : ObjectPropertyName := PUInt 0.
Definition property : ObjectGetResult := mkGetResult (GotValue (Value_int 5)) false true false.
Definition found_at (P : ObjectPropertyName) : option ObjectGetResult := if key P =? 0 then Some property else None.
Definition frozen : InternalMethods unit :=
  mkMethods (fun P => mret (found_at P)) (fun _ _ => mret false) (fun P => mret (negb (key P =? 0))) (fun P => mret (key P =? 0))
    (fun P _ => mret (found_at P)) (fun _ _ _ => mret false) (mret [1000]) (mret false) (mret true) (mret ValueNull) (fun v => mret (v =? ValueNull)).
Definition facts (_ : Z) (_ : unit) (f : Fact Z) : Prop :=
  match f with
  | NotExtensible => True
  | HasPrototype v => v = ValueNull
  | HasProperty k F => k = 0 /\ F = FixedData true (Some (Value_int 5))
  | Absent k => k <> 0
  end.
Definition same (v w : Z) : Prop := v = ValueUndefined <-> w = ValueUndefined.
Definition everything (_ : FixedProperty) : Prop := True.
Definition proxy (_ : unit) (_ : Z) : ProxyObject := mkProxy false false (Some 8) (Some 24).
Definition returns {A} (a : A) : M unit A := mret a.
Definition five : M unit Z := returns (Value_int 5).
Notation methods := (fun _ : Z => frozen).
Notation pm := (proxy_methods ∅ proxy methods (fun _ _ => five) (fun _ _ _ => five) (fun _ => false) (fun _ _ => returns None)
  (fun _ => returns 0) (fun _ _ => five) (fun _ => five) (fun _ => 0) name_of 16).

Lemma same_equivalence : Equivalence same.
Proof. split; unfold same; repeat intro; tauto. Qed.
Lemma same_decided v w : equalsToByTheSameValueAlgorithm ∅ v w = true -> same v w.
Proof.
  unfold equalsToByTheSameValueAlgorithm, same. destruct (isPointerValue w) eqn:Ep; cbn [negb].
  - unfold pointerEquals, isString, isBigInt. rewrite !lookup_empty, !andb_false_r.
    destruct (Z.eqb_spec v w) as [->|]; [tauto|]. destruct (negb (isPointerValue v)); discriminate.
  - intros H. destruct (isNumber v && isNumber w) eqn:En; [|Zbool; now subst].
    apply andb_true_iff in En as [Ev Ew]. split; intros ->; discriminate.
Qed.
Lemma frozen_keeps : keeps_invariants same key (fun x => key (name_of x)) frozen (facts 8) everything everything.
Proof.
  split; unfold mret, M_ret; cbn.
  - intros P w w' r [= <- <-]. unfold found_at. destruct (Z.eqb_spec (key P) 0) as [E|N]; split_and!; cbn; try tauto.
    + intros F [_ ->] _. split; [reflexivity|]. intros this. split; [reflexivity|]. unfold same. cbn. tauto.
    + intros _. exists (FixedData true (Some (Value_int 5))). split; [|now split]. intros this. split; [reflexivity|]. unfold same. cbn. tauto.
  - discriminate.
  - intros P w w' [= _ E] F [Hk _]. rewrite Hk in E. discriminate.
  - intros P w w' [= _ E] F [Hk _]. rewrite Hk in E. discriminate.
  - intros P receiver w w' r [= <- <-] F v this [Hk ->] _. unfold found_at. rewrite Hk. cbn. intros [= <-]. unfold same. tauto.
  - discriminate.
  - intros w w' l [= <- <-]. split; [intros k F [-> ->] _; exists 1000; split; [now left|reflexivity]|].
    intros x _ H. now apply H.
  - now intros w w' b [= <- <-].
  - auto.
  - intros w w' v [= <- <-]. now split.
  - intros v w w' [= _ E] v' ->. apply Z.eqb_eq in E. now subst.
Qed.
Lemma engine : engine_goes_on proxy methods (fun _ _ => five) (fun _ _ _ => five) (fun _ _ => returns None) (fun _ => returns 0)
  (fun _ _ => five) (fun _ => five) facts.
Proof. split; intros; intros []; split; auto. Qed.
End Sample.



(** Two objects whose methods do the same in a state. *)
Definition same_methods {World} (w : World) (m m' : InternalMethods World) : Prop :=
  (forall P, i_getOwnProperty m P w = i_getOwnProperty m' P w) /\
  (forall P D, i_defineOwnProperty m P D w = i_defineOwnProperty m' P D w) /\
  (forall P, i_deleteOwnProperty m P w = i_deleteOwnProperty m' P w) /\
  (forall P, i_hasProperty m P w = i_hasProperty m' P w) /\
  (forall P r, i_get m P r w = i_get m' P r w) /\
  (forall P v r, i_set m P v r w = i_set m' P v r w) /\
  i_ownPropertyKeys m w = i_ownPropertyKeys m' w /\ i_isExtensible m w = i_isExtensible m' w /\
  i_preventExtensions m w = i_preventExtensions m' w /\ i_getPrototype m w = i_getPrototype m' w /\
  (forall v, i_setPrototype m v w = i_setPrototype m' v w).
Definition revoked_methods (World : Type) : InternalMethods World :=
  mkMethods (fun _ => throwTypeError) (fun _ _ => throwTypeError) (fun _ => throwTypeError) (fun _ => throwTypeError) (fun _ _ => throwTypeError)
    (fun _ _ _ => throwTypeError) throwTypeError throwTypeError throwTypeError throwTypeError (fun _ => throwTypeError).

Lemma with_trap_absent {World A} (proxy_at : World -> Z -> ProxyObject) getMethod self t (without : Z -> M World A) k w handler target :
  m_handler (proxy_at w self) = Some handler -> m_target (proxy_at w self) = Some target ->
  getMethod handler t w = (w, inl ValueUndefined) -> with_trap proxy_at getMethod self t without k w = without target w.
Proof. intros E1 E2 E3. unfold with_trap, mbind, M_bind. now rewrite E1, E2, E3. Qed.
Lemma with_trap_revoked {World A} (proxy_at : World -> Z -> ProxyObject) getMethod self t (without : Z -> M World A) k w :
  m_handler (proxy_at w self) = None -> with_trap proxy_at getMethod self t without k w = throwTypeError w.
Proof. intros E. unfold with_trap. now rewrite E. Qed.

(** C26: a proxy whose handler has no traps does with every method what its target does, and
    a proxy that was revoked throws a TypeError from every method and changes nothing. *)
Theorem proxies_forward {World} h proxy_at (methods : Z -> InternalMethods World) getMethod call isCallable get_field length
    getIndexedProperty new_object toPropertyKeyValue name_of self w :
  let m := proxy_methods h proxy_at methods getMethod call isCallable get_field length getIndexedProperty new_object toPropertyKeyValue name_of self in
  (forall handler target, m_handler (proxy_at w self) = Some handler -> m_target (proxy_at w self) = Some target ->
     (forall t, getMethod handler t w = (w, inl ValueUndefined)) -> same_methods w m (methods target)) /\
  (forall p, proxy_at w self = revoke p -> same_methods w m (revoked_methods World)).
Proof.
  split.
  - intros handler target E1 E2 E3. unfold same_methods, proxy_methods. cbn.
    split_and!; intros; exact (with_trap_absent proxy_at getMethod self _ _ _ w handler target E1 E2 (E3 _)).
  - intros p E. assert (m_handler (proxy_at w self) = None) as Eh by now rewrite E.
    unfold same_methods, proxy_methods, revoked_methods. cbn.
    split_and!; intros; exact (with_trap_revoked proxy_at getMethod self _ _ _ w Eh).
Qed.

Lemma proxies_forward_witness : let m := proxy_methods ∅ Sample.proxy (fun _ => Sample.frozen) (fun _ _ => Sample.returns ValueUndefined)
    (fun _ _ _ => Sample.five) (fun _ => false) (fun _ _ => Sample.returns None) (fun _ => Sample.returns 0) (fun _ _ => Sample.five)
    (fun _ => Sample.five) (fun _ => 0) Sample.name_of 16 in
  i_get m (PUInt 0) 16 tt = (tt, inl (Some Sample.property)).
Proof.
  destruct (proj1 (proxies_forward ∅ Sample.proxy (fun _ => Sample.frozen) (fun _ _ => Sample.returns ValueUndefined)
    (fun _ _ _ => Sample.five) (fun _ => false) (fun _ _ => Sample.returns None) (fun _ => Sample.returns 0) (fun _ _ => Sample.five)
    (fun _ => Sample.five) (fun _ => 0) Sample.name_of 16 tt) 24 8 eq_refl eq_refl (fun _ => eq_refl)) as (_ & _ & _ & _ & H & _).
  cbv zeta. rewrite H. reflexivity.
Defined.

(** ** Where the code differs from the specification *)

(** The trap for [[Get]] gets the proxy in the place of the receiver. *)
Lemma get_trap_ignores_receiver {World} proxy_at (methods : Z -> InternalMethods World) getMethod call isCallable toPropertyKeyValue self P r r' w :
  (forall handler w1 trap, m_handler (proxy_at w self) = Some handler -> getMethod handler TrapGet w = (w1, inl trap) -> isUndefined trap = false) ->
  Proxies.get proxy_at methods getMethod call isCallable toPropertyKeyValue self P r w =
  Proxies.get proxy_at methods getMethod call isCallable toPropertyKeyValue self P r' w.
Proof.
  intros H. unfold Proxies.get, with_trap. destruct (m_handler (proxy_at w self)) as [handler|] eqn:Eh; [|reflexivity].
  destruct (m_target (proxy_at w self)); [|reflexivity]. unfold mbind, M_bind. destruct (getMethod handler TrapGet w) as [w1 [trap|e]] eqn:Eg; [|reflexivity].
  now rewrite (H handler w1 trap eq_refl Eg).
Qed.

(** A frozen property with the value undefined is reported as deleted, and as missing. *)
Definition undefined_frozen : InternalMethods unit :=
  mkMethods (fun _ => mret (Some (mkGetResult (GotValue ValueUndefined) false true false))) (fun _ _ => mret false) (fun _ => mret false)
    (fun _ => mret true) (fun _ _ => mret None) (fun _ _ _ => mret false) (mret [1000]) (mret false) (mret true) (mret ValueNull) (fun _ => mret false).
Lemma undefined_property_deleted : let m result := proxy_methods ∅ Sample.proxy (fun _ => undefined_frozen) (fun _ _ => Sample.five)
    (fun _ _ _ => Sample.returns result) (fun _ => false) (fun _ _ => Sample.returns None) (fun _ => Sample.returns 0) (fun _ _ => Sample.five)
    (fun _ => Sample.five) (fun _ => 0) Sample.name_of 16 in
  i_deleteOwnProperty (m ValueTrue) (PUInt 0) tt = (tt, inl true) /\ i_getOwnProperty (m ValueUndefined) (PUInt 0) tt = (tt, inl None).
Proof. vm_compute. split; reflexivity. Qed.
End ProxyProps.
