(* ===== verification/Sort.v ===== *)
(** Sorting ([util/Util.h], [runtime/ArrayObject.cpp], [runtime/Object.cpp],
    [runtime/TypedArrayObject.cpp], [builtins/BuiltinArray.cpp],
    [builtins/BuiltinTypedArray.cpp]): the merge sort over two buffers, the
    comparisons of the builtins, and the sorting of arrays and of other objects.
    The comparison may run script code, which throws, contradicts itself, or
    changes what is being sorted.  The reference is the same sort on lists. *)
From Stdlib Require Import ZArith Lia Bool.
From stdpp Require Import base numbers list option decidable gmap sorting.
From S2P Require Import Prelude Effects Double Value NumberString StringOps KeyedCollection ObjectStructure ObjectModel ArrayObject.

(** * Buffers of the heap *)
Module Memory.

Section Cells.
Context {A : Type}.
(** A buffer of the heap: a cell that was never written is [None].  Both
    accesses must be within the buffer. *)
Definition load (d : list (option A)) (i : Z) : option A :=
  if i <? 0 then None else d !! Z.to_nat i ≫= id.
Definition store (d : list (option A)) (i : Z) (v : A) : option (list (option A)) :=
  if (0 <=? i) && (i <? Z.of_nat (length d)) then Some (<[Z.to_nat i := Some v]> d) else None.
End Cells.

End Memory.

(** * The merge sort *)
Module MergeSort.
Import Effects Memory.

Section Code.
Context {World A : Type}.
(** The comparator: [None] is a return value of false, which ends the sort. *)
Context (c : A -> A -> M World (option bool)).

(** The loop of [merge]. *)
Fixpoint merge_loop (fuel : nat) (dst src : list (option A)) (left leftEnd right rightEnd dstIndex : Z)
  : MU World (list (option A) * bool) :=
  if dstIndex <? rightEnd then
    match fuel with
    | O => certain None
    | S fuel =>
        let from_right :=
          v ← certain (load src right);
          dst ← certain (store dst dstIndex v);
          merge_loop fuel dst src left leftEnd (u64 (right + 1)) rightEnd (u64 (dstIndex + 1)) in
        let from_left :=
          v ← certain (load src left);
          dst ← certain (store dst dstIndex v);
          merge_loop fuel dst src (u64 (left + 1)) leftEnd right rightEnd (u64 (dstIndex + 1)) in
        if right <? rightEnd then
          if leftEnd <=? left then from_right
          else
            r ← certain (load src right);
            l ← certain (load src left);
            result ← run (c r l);
            match result with
            | None => mret (dst, false)
            | Some lessOrEqual => if (lessOrEqual : bool) then from_right else from_left
            end
        else from_left
    end
  else mret (dst, true).

Definition merge (fuel : nat) (dst src : list (option A)) (srcIndex srcEnd width : Z) : MU World (list (option A) * bool) :=
  let left := srcIndex in
  let leftEnd := Z.min (u64 (left + width)) srcEnd in
  let right := leftEnd in
  let rightEnd := Z.min (u64 (right + width)) srcEnd in
  merge_loop fuel dst src left leftEnd right rightEnd left.

(** The inner loop of [mergeSort]: one pass over the source. *)
Fixpoint pass (fuel : nat) (dst src : list (option A)) (srcIndex nelems width : Z) : MU World (list (option A) * bool) :=
  if srcIndex <? nelems then
    match fuel with
    | O => certain None
    | S n =>
        '(dst, ok) ← merge fuel dst src srcIndex nelems width;
        if (ok : bool) then pass n dst src (u64 (srcIndex + u64 (2 * width))) nelems width else mret (dst, false)
    end
  else mret (dst, true).

(** The last loop. *)
Fixpoint copy_back (fuel : nat) (array src : list (option A)) (i nelems : Z) : MU World (list (option A)) :=
  if i <? nelems then
    match fuel with
    | O => certain None
    | S fuel =>
        v ← certain (load src i);
        array ← certain (store array i v);
        copy_back fuel array src (u64 (i + 1)) nelems
    end
  else mret array.

(** The outer loop; [in_scratch] tells that [src] is the scratch storage.  The
    result is the array after the sort. *)
Fixpoint passes (fuel outer : nat) (dst src : list (option A)) (in_scratch : bool) (width nelems : Z)
  : MU World (list (option A) * bool) :=
  if width <? nelems then
    match outer with
    | O => certain None
    | S outer =>
        '(dst, ok) ← pass fuel dst src 0 nelems width;
        if (ok : bool) then passes fuel outer src dst (negb in_scratch) (u64 (width * 2)) nelems
        else mret (if in_scratch then dst else src, false)
    end
  else if in_scratch then array ← copy_back fuel dst src 0 nelems; mret (array, true)
  else mret (src, true).

Definition mergeSort (array : list (option A)) (nelems : Z) (scratch : list (option A)) : MU World (list (option A) * bool) :=
  passes (Z.to_nat nelems) 64 scratch array false 1 nelems.

End Code.
End MergeSort.

(** * The reference: the merge sort on lists *)
Module SortSpec.
Import Effects.

Section Spec.
Context {World A : Type}.
Context (c : A -> A -> M World (option bool)).

(** The comparator decides whether the head of the right list comes first. *)
Fixpoint smerge (l : list A) : list A -> M World (option (list A)) :=
  match l with
  | [] => fun r => mret (Some r)
  | x :: l' =>
      fix go r :=
        match r with
        | [] => mret (Some l)
        | y :: r' =>
            b ← c y x;
            match b with
            | None => mret None
            | Some true => m ← go r'; mret (cons y <$> m)
            | Some false => m ← smerge l' r; mret (cons x <$> m)
            end
        end
  end.

Fixpoint spass (fuel width : nat) (l : list A) : M World (option (list A)) :=
  match l, fuel with
  | [], _ => mret (Some [])
  | _, O => mret (Some l)
  | _, S fuel =>
      m ← smerge (take width l) (take width (drop width l));
      match m with
      | None => mret None
      | Some m => rest ← spass fuel width (drop width (drop width l)); mret (app m <$> rest)
      end
  end.

Fixpoint ssort (fuel width : nat) (l : list A) : M World (option (list A)) :=
  if (width <? length l)%nat then
    match fuel with
    | O => mret (Some l)
    | S fuel =>
        m ← spass (length l) width l;
        match m with None => mret None | Some m => ssort fuel (width * 2) m end
    end
  else mret (Some l).
Definition sort_list (l : list A) : M World (option (list A)) := ssort 64 1 l.

End Spec.

(** The outcome of the code against that of the reference: the same changes of
    the state and the same exceptions; a list in the result has the cells [f]. *)
Definition outcome_ok {World A} (f : list A -> list (option A)) (n : nat) (s : World * (option (list A) + Thrown))
    (o : option (World * ((list (option A) * bool) + Thrown))) : Prop :=
  match s with
  | (w, inl (Some m)) => o = Some (w, inl (f m, true))
  | (w, inl None) => exists dst, length dst = n /\ o = Some (w, inl (dst, false))
  | (w, inr e) => o = Some (w, inr e)
  end.

End SortSpec.

(** * The code refines the reference *)
Module SortFacts.
Import Effects Memory MergeSort SortSpec.

Section Facts.
Context {World A : Type}.
Context (c : A -> A -> M World (option bool)).
Implicit Types (l m : list A) (dst : list (option A)) (w : World).

Lemma outcome_map (f : list A -> list (option A)) g n (k : M World (option (list A))) w o :
  outcome_ok (fun m => f (g m)) n (k w) o -> outcome_ok f n ((m ← k; mret (g <$> m)) w) o.
Proof. unfold outcome_ok, mbind, M_bind, mret, M_ret. now destruct (k w) as [w' [[m|]|e]]. Qed.

Lemma outcome_ext (f g : list A -> list (option A)) n (s : World * (option (list A) + Thrown)) o :
  (forall m, f m = g m) -> outcome_ok f n s o -> outcome_ok g n s o.
Proof. intros E. unfold outcome_ok. destruct s as [w' [[m|]|e]]; [|auto..]. now rewrite E. Qed.

(** The cells from [a] up to [b]. *)
Definition slice (a b : nat) l : list A := take (b - a) (drop a l).
Lemma slice_empty a b l : (b <= a)%nat -> slice a b l = [].
Proof. intros H. unfold slice. now replace (b - a)%nat with 0%nat by lia. Qed.
Lemma slice_cons a b l x : l !! a = Some x -> (a < b)%nat -> slice a b l = x :: slice (S a) b l.
Proof.
  intros Hx Hab. unfold slice. rewrite (drop_S l x a Hx). now replace (b - a)%nat with (S (b - S a)) by lia.
Qed.
Lemma slice_length a b l : (b <= length l)%nat -> length (slice a b l) = (b - a)%nat.
Proof. intros H. unfold slice. rewrite length_take, length_drop. lia. Qed.

Lemma load_some l (i : nat) x : l !! i = Some x -> load (Some <$> l) (Z.of_nat i) = Some x.
Proof.
  intros H. unfold load. destruct (Z.of_nat i <? 0) eqn:E; Zbool; [lia|].
  now rewrite Nat2Z.id, list_lookup_fmap, H.
Qed.
Lemma store_some dst (i : nat) (x : A) : (i < length dst)%nat -> store dst (Z.of_nat i) x = Some (<[i := Some x]> dst).
Proof.
  intros H. unfold store. destruct (0 <=? Z.of_nat i) eqn:E1, (Z.of_nat i <? Z.of_nat (length dst)) eqn:E2; Zbool; try lia.
  now rewrite Nat2Z.id.
Qed.
Lemma u64_succ (i : nat) : Z.of_nat i < 2 ^ 61 -> u64 (Z.of_nat i + 1) = Z.of_nat (S i).
Proof. intros H. rewrite wrapu_id by (unfold in_u; lia). lia. Qed.

Lemma insert_written dst (d e : nat) (v : option A) t : (d < e)%nat -> (d < length dst)%nat ->
  take (S d) (<[d := v]> dst) ++ t ++ drop e (<[d := v]> dst) = take d dst ++ (v :: t) ++ drop e dst.
Proof.
  intros Hd Hl. rewrite drop_insert_lt by lia.
  rewrite (take_S_r (<[d := v]> dst) d v) by now rewrite list_lookup_insert_eq.
  rewrite take_insert_ge by lia. now rewrite <- app_assoc.
Qed.

(** The cells after a merge that starts at [d] and ends at [e]. *)
Definition merged dst (d e : nat) m : list (option A) := take d dst ++ (Some <$> m) ++ drop e dst.

Lemma merged_step dst d e x m : (d < e)%nat -> (d < length dst)%nat ->
  merged (<[d := Some x]> dst) (S d) e m = merged dst d e (x :: m).
Proof. intros Hd Hl. unfold merged. cbn [fmap list_fmap]. now apply insert_written. Qed.

Lemma bind_certain {B C} (a : B) (k : B -> MU World C) w : (certain (Some a) ≫= k) w = k a w.
Proof. reflexivity. Qed.
Lemma bind_run {B C} (m : M World B) (k : B -> MU World C) w :
  (run m ≫= k) w = match m w with (w', inl a) => k a w' | (w', inr e) => Some (w', inr e) end.
Proof. reflexivity. Qed.
Lemma smerge_cons x l y r w : smerge c (x :: l) (y :: r) w =
  match c y x w with
  | (w', inl None) => (w', inl None)
  | (w', inl (Some true)) => (m ← smerge c (x :: l) r; mret (cons y <$> m)) w'
  | (w', inl (Some false)) => (m ← smerge c l (y :: r); mret (cons x <$> m)) w'
  | (w', inr e) => (w', inr e)
  end.
Proof. cbn. unfold mbind at 1, M_bind at 1. now destruct (c y x w) as [w' [[[]|]|e]]. Qed.
Lemma smerge_nil_r l : smerge c l [] = mret (Some l).
Proof. now destruct l. Qed.

Lemma merge_loop_ok l fuel : Z.of_nat (length l) < 2 ^ 61 ->
  forall (left leftEnd right rightEnd d : nat) dst w,
  (left <= leftEnd <= right)%nat -> (right <= rightEnd <= length l)%nat -> length dst = length l ->
  (d + leftEnd = left + right)%nat -> (rightEnd <= d + fuel)%nat ->
  outcome_ok (merged dst d rightEnd) (length l)
    (smerge c (slice left leftEnd l) (slice right rightEnd l) w)
    (merge_loop c fuel dst (Some <$> l) (Z.of_nat left) (Z.of_nat leftEnd) (Z.of_nat right) (Z.of_nat rightEnd) (Z.of_nat d) w).
Proof.
  intros Hn. induction fuel as [|fuel IH]; intros left leftEnd right rightEnd d dst w H1 H2 Hdst Hd Hf.
  all: cbn [merge_loop]; destruct (Z.of_nat d <? Z.of_nat rightEnd) eqn:E; Zbool; try lia.
  1, 3: rewrite !slice_empty by lia; cbn; rewrite <- (take_drop rightEnd dst) at 1;
    unfold merged; do 4 f_equal; now replace d with rightEnd by lia.
  assert (Z.of_nat left < 2 ^ 61 /\ Z.of_nat right < 2 ^ 61 /\ Z.of_nat d < 2 ^ 61) as (B1 & B2 & B3) by lia.
  rewrite !u64_succ by assumption.
  (* One step from either side. *)
  assert (forall x w, (left < leftEnd)%nat -> l !! left = Some x ->
    outcome_ok (fun m => merged dst d rightEnd (x :: m)) (length l)
      (smerge c (slice (S left) leftEnd l) (slice right rightEnd l) w)
      ((v ← certain (load (Some <$> l) (Z.of_nat left));
        dst ← certain (store dst (Z.of_nat d) v);
        merge_loop c fuel dst (Some <$> l) (Z.of_nat (S left)) (Z.of_nat leftEnd) (Z.of_nat right) (Z.of_nat rightEnd)
          (Z.of_nat (S d))) w)) as Hleft.
  { intros x w' Hl Hx. unfold mbind, MU_bind, certain. rewrite (load_some _ _ _ Hx), store_some by lia.
    eapply outcome_ext; [|apply IH; rewrite ?length_insert; lia]. intros m. now apply merged_step; lia. }
  assert (forall y w, (right < rightEnd)%nat -> l !! right = Some y ->
    outcome_ok (fun m => merged dst d rightEnd (y :: m)) (length l)
      (smerge c (slice left leftEnd l) (slice (S right) rightEnd l) w)
      ((v ← certain (load (Some <$> l) (Z.of_nat right));
        dst ← certain (store dst (Z.of_nat d) v);
        merge_loop c fuel dst (Some <$> l) (Z.of_nat left) (Z.of_nat leftEnd) (Z.of_nat (S right)) (Z.of_nat rightEnd)
          (Z.of_nat (S d))) w)) as Hright.
  { intros y w' Hl Hy. unfold mbind, MU_bind, certain. rewrite (load_some _ _ _ Hy), store_some by lia.
    eapply outcome_ext; [|apply IH; rewrite ?length_insert; lia]. intros m. now apply merged_step; lia. }
  destruct (Z.of_nat right <? Z.of_nat rightEnd) eqn:Er; Zbool.
  - destruct (lookup_lt_is_Some_2 l right ltac:(lia)) as [y Hy].
    rewrite (slice_cons _ rightEnd _ _ Hy) by lia.
    destruct (Z.of_nat leftEnd <=? Z.of_nat left) eqn:El; Zbool.
    + specialize (Hright y w ltac:(lia) Hy). rewrite (slice_empty left leftEnd) in * by lia. exact Hright.
    + destruct (lookup_lt_is_Some_2 l left ltac:(lia)) as [x Hx].
      rewrite (slice_cons left leftEnd _ _ Hx) in Hright |- * by lia.
      rewrite (load_some _ _ _ Hy), bind_certain, (load_some _ _ _ Hx), bind_certain, bind_run, smerge_cons.
      rewrite (load_some _ _ _ Hx) in Hleft. 
      destruct (c y x w) as [w' [[[]|]|e]]; [| |now exists dst|reflexivity]; apply outcome_map.
      * rewrite (load_some _ _ _ Hy) in Hright. apply Hright; [lia|assumption].
      * rewrite <- (slice_cons _ rightEnd _ _ Hy) by lia. apply Hleft; [lia|assumption].
  - destruct (lookup_lt_is_Some_2 l left ltac:(lia)) as [x Hx].
    specialize (Hleft x w ltac:(lia) Hx). rewrite (slice_empty right rightEnd) in * by lia.
    rewrite smerge_nil_r in *. rewrite (slice_cons left leftEnd _ _ Hx) by lia. exact Hleft.
Qed.

Lemma smerge_perm l : forall r w w' m, smerge c l r w = (w', inl (Some m)) -> m ≡ₚ l ++ r.
Proof.
  induction l as [|x l IHl]; intros r; [intros w w' m [= _ <-]; reflexivity|].
  induction r as [|y r IHr]; intros w w' m; [intros [= _ <-]; now rewrite app_nil_r|].
  rewrite smerge_cons. destruct (c y x w) as [w1 [[[]|]|e]]; [| |discriminate..]; unfold mbind, M_bind, mret, M_ret.
  - destruct (smerge c (x :: l) r w1) as [w2 [[m'|]|e]] eqn:E; [|discriminate..]. intros [= _ <-].
    rewrite (IHr _ _ _ E). apply Permutation_middle.
  - destruct (smerge c l (y :: r) w1) as [w2 [[m'|]|e]] eqn:E; [|discriminate..]. intros [= _ <-].
    now rewrite (IHl _ _ _ _ E).
Qed.

Lemma slice_take s k l : slice s (Nat.min (s + k) (length l)) l = take k (drop s l).
Proof.
  unfold slice. destruct (decide (s + k <= length l)%nat).
  - now replace (Nat.min (s + k) (length l) - s)%nat with k by lia.
  - rewrite !take_ge by (rewrite length_drop; lia). reflexivity.
Qed.
Lemma slice_take_2 s k l :
  slice (Nat.min (s + k) (length l)) (Nat.min (s + k + k) (length l)) l = take k (drop k (drop s l)).
Proof.
  rewrite drop_drop. destruct (decide (s + k <= length l)%nat).
  - rewrite (Nat.min_l (s + k)) by lia. apply slice_take.
  - rewrite slice_empty by lia. now rewrite drop_ge, take_nil by lia.
Qed.

Lemma merge_ok l fuel dst (s width : nat) w :
  Z.of_nat (length l) < 2 ^ 61 -> (s < length l)%nat -> (width < length l)%nat -> length dst = length l ->
  (length l <= s + fuel)%nat ->
  outcome_ok (merged dst s (Nat.min (s + width + width) (length l))) (length l)
    (smerge c (take width (drop s l)) (take width (drop width (drop s l))) w)
    (merge c fuel dst (Some <$> l) (Z.of_nat s) (Z.of_nat (length l)) (Z.of_nat width) w).
Proof.
  intros Hn Hs Hw Hd Hf. unfold merge. rewrite (wrapu_id 64 (Z.of_nat s + _)) by (unfold in_u; lia).
  replace (Z.min (Z.of_nat s + Z.of_nat width) (Z.of_nat (length l))) with (Z.of_nat (Nat.min (s + width) (length l))) by lia.
  rewrite wrapu_id by (unfold in_u; lia).
  replace (Z.min (Z.of_nat (Nat.min (s + width) (length l)) + Z.of_nat width) (Z.of_nat (length l)))
    with (Z.of_nat (Nat.min (s + width + width) (length l))) by lia.
  rewrite <- slice_take, <- slice_take_2. apply merge_loop_ok; lia.
Qed.

Lemma bind_outcome {B} (m : MU World (list (option A) * bool)) (k : list (option A) * bool -> MU World B) w :
  (m ≫= k) w = match m w with
               | Some (w', inl r) => k r w' | Some (w', inr e) => Some (w', inr e) | None => None end.
Proof. reflexivity. Qed.

Lemma merged_length dst d e m : (d <= e <= length dst)%nat -> length m = (e - d)%nat ->
  length (merged dst d e m) = length dst.
Proof. intros H Hm. unfold merged. rewrite !length_app, length_take, length_fmap, length_drop. lia. Qed.
Lemma merged_before dst d e m rest : (d <= e <= length dst)%nat -> length m = (e - d)%nat ->
  take e (merged dst d e m) ++ (Some <$> rest) = take d dst ++ (Some <$> m ++ rest).
Proof.
  intros H Hm. unfold merged. rewrite app_assoc, take_app_length'.
  - now rewrite fmap_app, app_assoc.
  - rewrite length_app, length_take, length_fmap. lia.
Qed.

Lemma spass_step k width l w : l <> [] ->
  spass c (S k) width l w =
  match smerge c (take width l) (take width (drop width l)) w with
  | (w', inl None) => (w', inl None)
  | (w', inl (Some m)) => (rest ← spass c k width (drop width (drop width l)); mret (app m <$> rest)) w'
  | (w', inr e) => (w', inr e)
  end.
Proof.
  destruct l as [|x l]; [congruence|]. intros _. cbn [spass]. unfold mbind at 1, M_bind at 1.
  now destruct (smerge c _ _ w) as [w' [[m|]|e]].
Qed.

Lemma pass_ok l fuel (width : nat) : Z.of_nat (length l) < 2 ^ 61 -> (0 < width < length l)%nat ->
  forall (s : nat) dst w k, length dst = length l -> (length l <= s + fuel)%nat -> (length l <= s + k)%nat ->
  outcome_ok (fun m => take s dst ++ (Some <$> m)) (length l)
    (spass c k width (drop s l) w)
    (pass c fuel dst (Some <$> l) (Z.of_nat s) (Z.of_nat (length l)) (Z.of_nat width) w).
Proof.
  intros Hn Hwd. induction fuel as [|fuel IH]; intros s dst w k Hd Hf Hk.
  all: cbn [pass]; destruct (Z.of_nat s <? Z.of_nat (length l)) eqn:E; Zbool; try lia.
  1, 3: rewrite drop_ge by lia; destruct k; cbn; now rewrite take_ge, app_nil_r by lia.
  destruct k as [|k]; [lia|].
  pose proof (merge_ok l (S fuel) dst s width w Hn ltac:(lia) ltac:(lia) Hd ltac:(lia)) as Hm.
  rewrite spass_step by (intros E'; apply (f_equal length) in E'; rewrite length_drop in E'; cbn in E'; lia).
  rewrite bind_outcome. destruct (smerge c _ _ w) as [w' [[m|]|e]] eqn:Es.
  - unfold outcome_ok in Hm. rewrite Hm. apply outcome_map. set (e := Nat.min (s + width + width) (length l)) in *.
    assert (length m = e - s)%nat as Hlm.
    { rewrite (Permutation_length (smerge_perm _ _ _ _ _ Es)), length_app, !length_take, !length_drop. lia. }
    rewrite (wrapu_id 64 (2 * _)), wrapu_id by (unfold in_u; lia).
    replace (drop width (drop width (drop s l))) with (drop (s + width + width)%nat l) by (rewrite !drop_drop; f_equal; lia).
    replace (Z.of_nat s + 2 * Z.of_nat width) with (Z.of_nat (s + width + width)) by lia.
    assert (length (merged dst s e m) = length l) as Hlen by (rewrite merged_length; lia).
    eapply outcome_ext; [|apply IH; lia]. intros rest. cbn beta.
    transitivity (take e (merged dst s e m) ++ (Some <$> rest)); [f_equal|apply merged_before; lia].
    destruct (decide (s + width + width <= length l)%nat); [f_equal; lia|rewrite !take_ge by lia; reflexivity].
  - destruct Hm as (dst' & Hl & ->). now exists dst'.
  - unfold outcome_ok in Hm. rewrite Hm. reflexivity.
Qed.

Lemma spass_perm k : forall width l w w' m, (0 < width)%nat -> spass c k width l w = (w', inl (Some m)) -> m ≡ₚ l.
Proof.
  induction k as [|k IH]; intros width l w w' m Hw.
  - destruct l; intros [= _ <-]; reflexivity.
  - destruct (decide (l = [])) as [->|Hne]; [intros [= _ <-]; reflexivity|].
    rewrite spass_step by assumption. destruct (smerge c _ _ w) as [w1 [[m1|]|e]] eqn:E; [|discriminate..].
    unfold mbind, M_bind, mret, M_ret. destruct (spass c k width _ w1) as [w2 [[m2|]|e]] eqn:E2; [|discriminate..].
    intros [= _ <-]. rewrite (IH _ _ _ _ _ Hw E2), (smerge_perm _ _ _ _ _ E), <- app_assoc, !take_drop. reflexivity.
Qed.

Lemma copy_back_ok l fuel : Z.of_nat (length l) < 2 ^ 61 -> forall (i : nat) dst w,
  length dst = length l -> (i <= length l)%nat -> (length l <= i + fuel)%nat -> take i dst = Some <$> take i l ->
  copy_back (World := World) fuel dst (Some <$> l) (Z.of_nat i) (Z.of_nat (length l)) w = Some (w, inl (Some <$> l)).
Proof.
  intros Hn. induction fuel as [|fuel IH]; intros i dst w Hd Hi Hf Ht.
  all: cbn [copy_back]; destruct (Z.of_nat i <? Z.of_nat (length l)) eqn:E; Zbool; try lia.
  1, 3: rewrite !take_ge in Ht by lia; now rewrite Ht.
  destruct (lookup_lt_is_Some_2 l i ltac:(lia)) as [x Hx].
  rewrite (load_some _ _ _ Hx), bind_certain, store_some, bind_certain by lia. rewrite u64_succ by lia.
  apply IH; rewrite ?length_insert; [lia..|].
  rewrite (take_S_r l i x Hx), (take_S_r _ i (Some x)) by (rewrite list_lookup_insert_eq; [reflexivity|lia]).
  rewrite take_insert_ge by lia. now rewrite Ht, fmap_app.
Qed.

Lemma ssort_step k width l w : (width < length l)%nat ->
  ssort c (S k) width l w =
  match spass c (length l) width l w with
  | (w', inl None) => (w', inl None)
  | (w', inl (Some m)) => ssort c k (width * 2) m w'
  | (w', inr e) => (w', inr e)
  end.
Proof.
  intros H. cbn [ssort]. destruct (width <? length l)%nat eqn:E; [|apply Nat.ltb_ge in E; lia].
  unfold mbind, M_bind. now destruct (spass c _ _ l w) as [w' [[m|]|e]].
Qed.
Lemma ssort_done k width l w : (length l <= width)%nat -> ssort c k width l w = (w, inl (Some l)).
Proof. intros H. destruct k; cbn [ssort]; destruct (width <? length l)%nat eqn:E; try (apply Nat.ltb_lt in E; lia); reflexivity. Qed.

Lemma passes_ok fuel n outer : Z.of_nat n < 2 ^ 61 -> (n <= fuel)%nat ->
  forall l dst in_scratch (width : nat) w, length l = n -> length dst = n -> (0 < width)%nat ->
  Z.of_nat n <= Z.of_nat width * 2 ^ Z.of_nat outer ->
  outcome_ok (fun m => Some <$> m) n (ssort c outer width l w)
    (passes c fuel outer dst (Some <$> l) in_scratch (Z.of_nat width) (Z.of_nat n) w).
Proof.
  intros Hn Hfu. induction outer as [|outer IH]; intros l dst b width w Hl Hd Hw Ho.
  all: cbn [passes]; destruct (Z.of_nat width <? Z.of_nat n) eqn:E; Zbool; try lia.
  1, 3: rewrite ssort_done by lia; destruct b; [|reflexivity]; subst n; unfold mbind, MU_bind;
    rewrite (copy_back_ok l fuel Hn 0 dst w Hd ltac:(lia) ltac:(lia) eq_refl : copy_back fuel dst _ 0 _ w = _); reflexivity.
  rewrite ssort_step by lia. rewrite bind_outcome.
  pose proof (pass_ok l fuel width ltac:(lia) ltac:(lia) 0 dst w (length l) ltac:(lia) ltac:(lia) ltac:(lia)) as Hp.
  rewrite drop_0, Hl in Hp. change (Z.of_nat 0) with 0 in Hp. rewrite Hl.
  destruct (spass c n width l w) as [w' [[m|]|e]] eqn:Es.
  - unfold outcome_ok in Hp. rewrite Hp. rewrite wrapu_id by (unfold in_u; lia).
    replace (Z.of_nat width * 2) with (Z.of_nat (width * 2)) by lia.
    pose proof (Permutation_length (spass_perm _ _ _ _ _ _ Hw Es)) as Hlm.
    apply IH; [lia|now rewrite length_fmap|lia|]. rewrite Nat2Z.inj_succ, Z.pow_succ_r in Ho by lia. lia.
  - destruct Hp as (dst' & Hl' & ->). eexists. split; [|reflexivity]. destruct b; [assumption|now rewrite length_fmap].
  - unfold outcome_ok in Hp. rewrite Hp. reflexivity.
Qed.

(** The code has an outcome, and it is that of the reference. *)
Lemma mergeSort_refines l scratch w : Z.of_nat (length l) < 2 ^ 61 -> length scratch = length l ->
  outcome_ok (fun m => Some <$> m) (length l) (sort_list c l w)
    (mergeSort c (Some <$> l) (Z.of_nat (length l)) scratch w).
Proof.
  intros Hn Hs. apply (passes_ok (Z.to_nat (Z.of_nat (length l))) (length l) 64 Hn ltac:(lia) l scratch false 1 w eq_refl Hs); [lia|].
  change (Z.of_nat 64) with 64. lia.
Qed.

Lemma ssort_perm k : forall width l w w' m, (0 < width)%nat -> ssort c k width l w = (w', inl (Some m)) -> m ≡ₚ l.
Proof.
  induction k as [|k IH]; intros width l w w' m Hw.
  - cbn [ssort]. destruct (width <? length l)%nat; intros [= _ <-]; reflexivity.
  - destruct (decide (width < length l)%nat); [|rewrite ssort_done by lia; intros [= _ <-]; reflexivity].
    rewrite ssort_step by assumption. destruct (spass c _ width l w) as [w1 [[m1|]|e]] eqn:E; [|discriminate..].
    intros E2. rewrite (IH (width * 2)%nat _ _ _ _ ltac:(lia) E2). now apply spass_perm in E.
Qed.
Lemma sort_list_perm l w w' m : sort_list c l w = (w', inl (Some m)) -> m ≡ₚ l.
Proof. apply ssort_perm. lia. Qed.

End Facts.
End SortFacts.

(** * Orders *)
Module SortOrder.

Section Order.
Context {A : Type}.

(** What a consistent comparator promises of "comes before": it is a strict
    order in which being tied is an equivalence. *)
Class StrictWeak (before : A -> A -> bool) : Prop := {
  before_asym x y : before x y = true -> before y x = false;
  before_split x y z : before x z = true -> before x y = true \/ before y z = true
}.

Definition not_after (before : A -> A -> bool) (x y : A) : Prop := before y x = false.
Definition tied (before : A -> A -> bool) (x y : A) : Prop := before x y = false /\ before y x = false.
#[export] Instance not_after_dec before x y : Decision (not_after before x y).
Proof. unfold not_after. apply _. Defined.
#[export] Instance tied_dec before x y : Decision (tied before x y).
Proof. unfold tied. apply _. Defined.

(** [m] is [l] sorted, with tied elements in the order in which they were. *)
Definition stably_sorted (before : A -> A -> bool) (l m : list A) : Prop :=
  m ≡ₚ l /\ StronglySorted (not_after before) m /\ forall p, filter (tied before p) m = filter (tied before p) l.

Section Facts.
Context (before : A -> A -> bool) `{StrictWeak before}.

Lemma not_after_trans x y z : not_after before x y -> not_after before y z -> not_after before x z.
Proof.
  unfold not_after. intros H1 H2. destruct (before z x) eqn:E; [|reflexivity].
  destruct (before_split z y x E); congruence.
Qed.
Lemma tied_refl x : tied before x x.
Proof. unfold tied. destruct (before x x) eqn:E; [|auto]. pose proof (before_asym x x E). congruence. Qed.
Lemma tied_before p x y : tied before p x -> tied before p y -> before x y = false.
Proof.
  intros [H1 H2] [H3 H4]. destruct (before x y) eqn:E; [|reflexivity]. destruct (before_split x p y E); congruence.
Qed.

(** No element of a sorted list is tied with [p] when its head comes after an
    element that is. *)
Lemma none_tied x y p l : before y x = true -> tied before p y -> StronglySorted (not_after before) (x :: l) ->
  filter (tied before p) (x :: l) = [].
Proof.
  intros Hyx Hy [_ Hl]%StronglySorted_inv.
  assert (forall z, not_after before x z -> ~ tied before p z) as Hn.
  { intros z Hz Hpz. destruct (before_split y z x Hyx) as [E|E]; [|unfold not_after in Hz; congruence].
    rewrite (tied_before p y z Hy Hpz) in E. discriminate. }
  rewrite filter_cons_False.
  - induction Hl as [|z l Hz _ IH]; [reflexivity|]. rewrite filter_cons_False; auto.
  - apply Hn. unfold not_after. apply tied_refl.
Qed.

Lemma merge_ties l : forall r p, StronglySorted (not_after before) l ->
  filter (tied before p) (list_merge (not_after before) l r) = filter (tied before p) l ++ filter (tied before p) r.
Proof.
  induction l as [|x l IHl]; intros r p Hs; [now destruct r|].
  induction r as [|y r IHr]; [cbn; now rewrite app_nil_r|].
  rewrite list_merge_cons. destruct (decide (not_after before x y)) as [E|E].
  - apply StronglySorted_inv in Hs as [Hs _]. rewrite !(filter_cons _ x), (IHl (y :: r) p Hs).
    now destruct (decide (tied before p x)).
  - apply not_false_iff_true in E. rewrite !(filter_cons _ y), IHr.
    destruct (decide (tied before p y)) as [Hy|]; [|reflexivity]. now rewrite (none_tied x y p l E Hy Hs).
Qed.

(** There is only one list that is stably sorted. *)
Lemma sorted_unique m : forall m', m ≡ₚ m' ->
  StronglySorted (not_after before) m -> StronglySorted (not_after before) m' ->
  (forall p, filter (tied before p) m = filter (tied before p) m') -> m = m'.
Proof.
  induction m as [|x m IH]; intros m' Hp Hs Hs' Ht; [now apply Permutation_nil in Hp|].
  destruct m' as [|x' m']; [symmetry in Hp; now apply Permutation_nil in Hp|].
  pose proof (StronglySorted_inv Hs) as [Hsm Hx]. pose proof (StronglySorted_inv Hs') as [Hsm' Hx'].
  rewrite Forall_forall in Hx, Hx'.
  assert (forall y, not_after before y y) as Hrefl by (intros y; apply tied_refl).
  assert (not_after before x x') as H1.
  { assert (x' ∈ x :: m) as [->|Hin]%elem_of_cons by (rewrite Hp; constructor); auto. }
  assert (not_after before x' x) as H2.
  { assert (x ∈ x' :: m') as [->|Hin]%elem_of_cons by (rewrite <- Hp; constructor); auto. }
  pose proof (Ht x) as E. rewrite !filter_cons_True in E by (try apply tied_refl; now split).
  injection E as <- E. f_equal. apply IH; [now apply Permutation_cons_inv in Hp|assumption..|].
  intros p. specialize (Ht p). rewrite !filter_cons in Ht. destruct (decide (tied before p x)); congruence.
Qed.

End Facts.

(** Merging keeps sorted whatever the comparator respects, on elements of [D]. *)
Lemma merge_sorted (D : A -> Prop) (before : A -> A -> bool) (le : A -> A -> Prop) l : Transitive le ->
  (forall x y, D x -> D y -> if before x y then le x y else le y x) ->
  forall r, Forall D l -> Forall D r -> StronglySorted le l -> StronglySorted le r ->
  StronglySorted le (list_merge (not_after before) l r).
Proof.
  intros Htr Hle. induction l as [|x l IHl]; intros r Dl Dr Hl Hr; [now destruct r|].
  induction r as [|y r IHr]; [exact Hl|]. rewrite list_merge_cons.
  pose proof (StronglySorted_inv Hl) as [Hl' Hx]. pose proof (StronglySorted_inv Hr) as [Hr' Hy].
  pose proof (Forall_inv Dl) as Dx. pose proof (Forall_inv Dr) as Dy.
  apply Forall_inv_tail in Dl as Dl'. apply Forall_inv_tail in Dr as Dr'.
  assert (forall a b s, le a b -> Forall (le b) s -> Forall (le a) s) as Hall
    by (intros a b s Hab Hb; apply (Forall_impl _ _ _ Hb); intros z Hz; etransitivity; eassumption).
  specialize (Hle y x Dy Dx). destruct (decide (not_after before x y)) as [E|E]; unfold not_after in E.
  - rewrite E in Hle. constructor; auto.
    rewrite (merge_Permutation (not_after before) l (y :: r)). apply Forall_app; split; [assumption|]. constructor; eauto.
  - apply not_false_iff_true in E. rewrite E in Hle. constructor; auto.
    rewrite (merge_Permutation (not_after before) (x :: l) r). apply Forall_app; split; [|assumption].
    constructor; eauto.
Qed.

End Order.
End SortOrder.

(** * Sorting with a comparator that only compares *)
Module PureSort.
Import Effects Memory MergeSort SortSpec SortFacts SortOrder.

Section Pure.
Context {World A : Type}.
Context (c : A -> A -> M World (option bool)) (before : A -> A -> bool).
(** On elements of [D] the comparator decides [before], in the states of [I],
    which it does not leave. *)
Context (D : A -> Prop) (I : World -> Prop).
Context (pure : forall a b w, D a -> D b -> I w -> exists w', c a b w = (w', inl (Some (before a b))) /\ I w').

Lemma smerge_pure l : forall r w, Forall D l -> Forall D r -> I w ->
  exists w', smerge c l r w = (w', inl (Some (list_merge (not_after before) l r))) /\ I w'.
Proof.
  induction l as [|x l IHl]; intros r w Hl Hr Hw; [exists w; now destruct r|].
  induction r as [|y r IHr] in w, Hr, Hw |- *; [now exists w|]. rewrite smerge_cons, list_merge_cons.
  pose proof (Forall_inv Hl) as Hx. pose proof (Forall_inv Hr) as Hy.
  apply Forall_inv_tail in Hl as Hl'. apply Forall_inv_tail in Hr as Hr'.
  destruct (pure y x w Hy Hx Hw) as (w1 & -> & Hw1).
  destruct (decide (not_after before x y)) as [E|E].
  - unfold not_after in E. rewrite E. unfold mbind, M_bind.
    destruct (IHl (y :: r) w1 Hl' Hr Hw1) as (w2 & -> & Hw2). now exists w2.
  - apply not_false_iff_true in E. rewrite E. unfold mbind, M_bind.
    destruct (IHr w1 Hr' Hw1) as (w2 & E2 & Hw2). exists w2. split; [|assumption]. now rewrite E2.
Qed.

(** A relation between lists and what they are after sorting, which holds of
    one element and which merging keeps, holds of the result. *)
Section Result.
Context (P : list A -> list A -> Prop).
Context (P_nil : P [] []) (P_one : forall x, P [x] [x]) (P_perm : forall l m, P l m -> m ≡ₚ l).
Context (P_merge : forall l r m n, P l m -> P r n -> P (l ++ r) (list_merge (not_after before) m n)).

(** Lists in blocks of [width] elements, which are related block by block. *)
Inductive blocks (width : nat) : list A -> list A -> Prop :=
  | blocks_nil : blocks width [] []
  | blocks_last l m : P l m -> (0 < length l <= width)%nat -> blocks width l m
  | blocks_cons a b l m : P a b -> length a = width -> blocks width l m -> blocks width (a ++ l) (b ++ m).

Lemma P_length l m : P l m -> length m = length l.
Proof. intros H. now apply Permutation_length, P_perm. Qed.
Lemma P_domain l m : P l m -> Forall D l -> Forall D m.
Proof. intros H. now rewrite (P_perm _ _ H). Qed.
Lemma blocks_length width l m : blocks width l m -> length m = length l.
Proof. induction 1 as [|l m H _|a b l m H _ _ IH]; [reflexivity|now apply P_length|]. rewrite !length_app, IH. f_equal. now apply P_length. Qed.

Lemma blocks_one l : blocks 1 l l.
Proof. induction l as [|x l IH]; [constructor|]. now apply (blocks_cons 1 [x] [x]). Qed.
Lemma blocks_whole width l m : (length l <= width)%nat -> blocks width l m -> P l m.
Proof.
  intros Hl Hb. destruct Hb as [|l m H _|a b l m H Ha Hb]; [assumption..|].
  rewrite length_app in Hl. apply blocks_length in Hb as Hm. destruct l; [|cbn in *; lia].
  destruct m; [|discriminate]. now rewrite !app_nil_r.
Qed.

Lemma spass_last k width l m w : (0 < width)%nat -> P l m -> (0 < length l <= width)%nat -> (length m <= k)%nat -> Forall D l -> I w ->
  exists w', spass c k width m w = (w', inl (Some m)) /\ I w'.
Proof.
  intros Hw H Hl Hk HD Hi. pose proof (P_length _ _ H) as Hm. destruct k as [|k]; [lia|].
  rewrite spass_step by (intros ->; cbn in *; lia).
  rewrite (drop_ge m width), drop_nil, (take_ge m), take_nil by lia.
  destruct (smerge_pure m [] w) as (w1 & -> & Hw1); [now apply (P_domain l)|constructor|assumption|]. exists w1. unfold mbind, M_bind.
  rewrite list_merge_nil_r. split; [|assumption]. destruct k; cbn; now rewrite app_nil_r.
Qed.

Lemma spass_blocks width : (0 < width)%nat -> forall k l m w, (length m <= k)%nat -> blocks width l m -> Forall D l -> I w ->
  exists m' w', spass c k width m w = (w', inl (Some m')) /\ blocks (width * 2) l m' /\ I w'.
Proof.
  intros Hw k. induction k as [k IH] using lt_wf_ind. intros l m w Hk Hb HD Hi.
  destruct Hb as [|l m H Hl|a b l m H Ha Hb].
  - exists [], w. split; [now destruct k|]. split; [constructor|assumption].
  - destruct (spass_last k width l m w) as (w1 & E1 & Hw1); [assumption..|]. exists m, w1. split; [assumption|].
    split; [apply blocks_last; [assumption|lia]|assumption].
  - pose proof (P_length _ _ H) as Hab. rewrite length_app in Hk. destruct k as [|k]; [lia|].
    apply Forall_app in HD as [HDa HD]. pose proof (P_domain _ _ H HDa) as HDb.
    rewrite spass_step by (intros E; apply (f_equal length) in E; rewrite length_app in E; cbn in E; lia).
    rewrite take_app_length', drop_app_length' by lia.
    destruct Hb as [|l m H2 Hl|a2 b2 l m H2 Ha2 Hb].
    + rewrite drop_nil, take_nil. destruct (smerge_pure b [] w HDb (Forall_nil_2 _) Hi) as (w1 & -> & Hw1). exists b, w1.
      unfold mbind, M_bind. rewrite list_merge_nil_r, !app_nil_r. split; [destruct k; cbn; now rewrite app_nil_r|].
      split; [apply blocks_last; [assumption|lia]|assumption].
    + pose proof (P_length _ _ H2). rewrite (take_ge m), (drop_ge m) by lia.
      destruct (smerge_pure b m w HDb (P_domain _ _ H2 HD) Hi) as (w1 & -> & Hw1). eexists _, w1. unfold mbind, M_bind.
      split; [destruct k; cbn; now rewrite app_nil_r|]. split; [apply blocks_last; [now apply P_merge|rewrite length_app; lia]|assumption].
    + pose proof (P_length _ _ H2). rewrite take_app_length', drop_app_length' by lia. rewrite length_app in Hk.
      apply Forall_app in HD as [HDa2 HD].
      destruct (smerge_pure b b2 w HDb (P_domain _ _ H2 HDa2) Hi) as (w1 & -> & Hw1).
      destruct (IH k ltac:(lia) l m w1 ltac:(lia) Hb HD Hw1) as (m' & w2 & E2 & Hb' & Hw2).
      exists (list_merge (not_after before) b b2 ++ m'), w2. unfold mbind, M_bind. rewrite E2. split; [reflexivity|].
      rewrite app_assoc. split; [|assumption]. apply blocks_cons; [now apply P_merge|rewrite length_app; lia|assumption].
Qed.

Lemma blocks_perm width l m : blocks width l m -> m ≡ₚ l.
Proof. induction 1 as [|l m H _|a b l m H _ _ IH]; [reflexivity|auto|]. rewrite IH. f_equiv. auto. Qed.
Lemma ssort_blocks k : forall width l m w, (0 < width)%nat -> Z.of_nat (length l) <= Z.of_nat width * 2 ^ Z.of_nat k ->
  blocks width l m -> Forall D l -> I w -> exists m' w', ssort c k width m w = (w', inl (Some m')) /\ P l m' /\ I w'.
Proof.
  induction k as [|k IH]; intros width l m w Hw Hl Hb HD Hi; pose proof (blocks_length _ _ _ Hb) as Hlm.
  - exists m, w. rewrite ssort_done by lia. split; [reflexivity|]. split; [apply (blocks_whole width); [lia|assumption]|assumption].
  - destruct (decide (width < length m)%nat).
    + rewrite ssort_step by assumption. destruct (spass_blocks width Hw (length m) l m w ltac:(lia) Hb HD Hi) as (m1 & w1 & -> & Hb' & Hw1).
      apply IH; try assumption; [lia|]. rewrite Nat2Z.inj_succ, Z.pow_succ_r in Hl by lia. lia.
    + exists m, w. rewrite ssort_done by lia. split; [reflexivity|]. split; [apply (blocks_whole width); [lia|assumption]|assumption].
Qed.

Lemma mergeSort_result l scratch w : Z.of_nat (length l) < 2 ^ 61 -> length scratch = length l -> Forall D l -> I w ->
  exists m w', mergeSort c (Some <$> l) (Z.of_nat (length l)) scratch w = Some (w', inl (Some <$> m, true)) /\ P l m /\ I w'.
Proof.
  intros Hn Hs HD Hi. pose proof (mergeSort_refines c l scratch w Hn Hs) as Ho.
  destruct (ssort_blocks 64 1 l l w ltac:(lia)) as (m & w' & E & HP & Hw'); [change (Z.of_nat 64) with 64; lia|apply blocks_one|assumption..|].
  exists m, w'. split; [|auto]. unfold sort_list in Ho. now rewrite E in Ho.
Qed.
End Result.

Lemma mergeSort_stable `{!StrictWeak before} (l : list A) (scratch : list (option A)) w :
  Z.of_nat (length l) < 2 ^ 61 -> length scratch = length l -> Forall D l -> I w ->
  exists m w', mergeSort c (Some <$> l) (Z.of_nat (length l)) scratch w = Some (w', inl (Some <$> m, true)) /\
    stably_sorted before l m /\ I w'.
Proof.
  apply mergeSort_result; unfold stably_sorted.
  - repeat constructor.
  - repeat constructor.
  - now intros l' m (Hp & _).
  - intros l' r m n (Hp1 & Hs1 & Ht1) (Hp2 & Hs2 & Ht2). split; [|split].
    + rewrite merge_Permutation. now f_equiv.
    + apply (merge_sorted (fun _ => True)); try assumption; [intros x y z; now apply not_after_trans| |now apply Forall_true..].
      intros x y _ _. unfold not_after. destruct (before x y) eqn:E; [now apply before_asym|reflexivity].
    + intros p. rewrite merge_ties, filter_app by assumption. now f_equal.
Qed.

Lemma mergeSort_sorted (le : A -> A -> Prop) `{!Transitive le} (l : list A) (scratch : list (option A)) w :
  (forall x y, D x -> D y -> if before x y then le x y else le y x) -> Forall D l -> I w ->
  Z.of_nat (length l) < 2 ^ 61 -> length scratch = length l ->
  exists m w', mergeSort c (Some <$> l) (Z.of_nat (length l)) scratch w = Some (w', inl (Some <$> m, true)) /\
    m ≡ₚ l /\ StronglySorted le m /\ I w'.
Proof.
  intros Hle HD Hi Hn Hs.
  destruct (mergeSort_result (fun l m => m ≡ₚ l /\ (Forall D l -> StronglySorted le m))) with (l := l) (scratch := scratch) (w := w)
    as (m & w' & E & (Hp & Hm) & Hw'); try assumption.
  - repeat constructor.
  - repeat constructor.
  - now intros l' m (Hp & _).
  - intros l' r m n (Hp1 & Hs1) (Hp2 & Hs2). split; [rewrite merge_Permutation; now f_equiv|].
    intros [D1 D2]%Forall_app. apply (merge_sorted D); auto; [now rewrite Hp1|now rewrite Hp2].
  - exists m, w'. auto.
Qed.

End Pure.

(** ** An order on some elements

    What decides consistently between the elements of [l] is there the same as
    a strict weak order. *)
Section Extension.
Context {A : Type} `{EqDecision A} (l : list A) (before : A -> A -> bool).
Record consistent_on : Prop := {
  on_asym x y : x ∈ l -> y ∈ l -> before x y = true -> before y x = false;
  on_split x y z : x ∈ l -> y ∈ l -> z ∈ l -> before x z = true -> before x y = true \/ before y z = true
}.
Definition extended (x y : A) : bool := if decide (x ∈ l) then if decide (y ∈ l) then before x y else true else false.
Lemma extended_on x y : x ∈ l -> y ∈ l -> extended x y = before x y.
Proof. intros Hx Hy. unfold extended. now rewrite !decide_True. Qed.
Lemma extended_weak : consistent_on -> StrictWeak extended.
Proof.
  intros [H1 H2]. split; unfold extended.
  - intros x y. repeat case_decide; auto; discriminate.
  - intros x y z. repeat case_decide; auto; try discriminate.
Qed.
(** The result does not depend on the order elsewhere. *)
Definition stably_sorted_on (m : list A) : Prop :=
  m ≡ₚ l /\ StronglySorted (not_after before) m /\ forall p, p ∈ l -> filter (tied before p) m = filter (tied before p) l.
Lemma sorted_ext (R S : A -> A -> Prop) (m : list A) : (forall x y, x ∈ m -> y ∈ m -> R x y -> S x y) -> StronglySorted R m -> StronglySorted S m.
Proof.
  induction m as [|x m IH]; intros HRS; [constructor|]. intros [Hs Hx]%StronglySorted_inv. constructor.
  - apply IH; [|assumption]. intros a b Ha Hb. apply HRS; now constructor.
  - rewrite Forall_forall in *. intros y Hy. apply HRS; [constructor|now constructor|auto].
Qed.
Lemma filter_ext (P Q : A -> Prop) `{forall x, Decision (P x), forall x, Decision (Q x)} (m : list A) :
  (forall x, x ∈ m -> P x <-> Q x) -> filter P m = filter Q m.
Proof.
  induction m as [|x m IH]; intros HPQ; [reflexivity|]. rewrite !filter_cons, IH by (intros y Hy; apply HPQ; now constructor).
  assert (P x <-> Q x) by (apply HPQ; constructor). repeat case_decide; tauto.
Qed.
Lemma extended_sorted m : stably_sorted extended l m -> stably_sorted_on m.
Proof.
  intros (Hp & Hs & Ht).
  assert (Hin : forall x, x ∈ m -> x ∈ l) by (intros x; now rewrite Hp). split; [assumption|]. split.
  - eapply sorted_ext; [|exact Hs]. intros x y Hx Hy. unfold not_after. now rewrite extended_on by auto.
  - intros p Hpl. specialize (Ht p).
    assert (E : forall k : list A, (forall x, x ∈ k -> x ∈ l) -> filter (tied extended p) k = filter (tied before p) k).
    { intros k Hk. apply filter_ext. intros x Hx. unfold tied. now rewrite !extended_on by auto. }
    now rewrite !E in Ht by auto.
Qed.
End Extension.
End PureSort.

(** * How often the comparator is called *)
Module SortCount.
Import Effects SortSpec SortFacts.

Section Count.
Context {World A : Type}.
Context (c : A -> A -> M World (option bool)) (calls : World -> nat).
Context (one_call : forall a b w, (calls (c a b w).1 <= S (calls w))%nat).

Lemma calls_bind {B C} (m : M World B) (k : B -> M World C) w n j :
  (calls (m w).1 <= n)%nat -> (forall a w', (m w).2 = inl a -> (calls w' <= n)%nat -> (calls (k a w').1 <= n + j)%nat) ->
  (calls ((m ≫= k) w).1 <= n + j)%nat.
Proof. intros H1 H2. unfold mbind, M_bind. destruct (m w) as [w' [a|e]]; cbn in *; [now apply H2|lia]. Qed.

Lemma smerge_calls l : forall r w, (calls (smerge c l r w).1 <= calls w + (length l + length r))%nat.
Proof.
  induction l as [|x l IHl]; intros r w; [cbn; lia|].
  induction r as [|y r IHr] in w |- *; [cbn; lia|]. rewrite smerge_cons.
  pose proof (one_call y x w) as H1. destruct (c y x w) as [w' [[[]|]|e]]; cbn [fst] in H1; [| |cbn; lia..].
  all: unfold mbind, M_bind, mret, M_ret.
  - specialize (IHr w'). destruct (smerge c (x :: l) r w') as [w2 [?|?]]; cbn in *; lia.
  - specialize (IHl (y :: r) w'). destruct (smerge c l (y :: r) w') as [w2 [?|?]]; cbn in *; lia.
Qed.

Lemma spass_calls k : forall width l w, (calls (spass c k width l w).1 <= calls w + length l)%nat.
Proof.
  induction k as [|k IH]; intros width l w; [destruct l; cbn; lia|].
  destruct (decide (l = [])) as [->|Hl]; [cbn; lia|]. rewrite spass_step by assumption.
  pose proof (smerge_calls (take width l) (take width (drop width l)) w) as H1.
  destruct (smerge c _ _ w) as [w' [[m|]|e]]; cbn [fst] in H1; rewrite !length_take, !length_drop in H1; [|cbn; lia..].
  specialize (IH width (drop width (drop width l)) w'). rewrite !length_drop in IH.
  unfold mbind, M_bind, mret, M_ret. destruct (spass c k _ _ w') as [w2 [?|?]]; cbn in *; lia.
Qed.

(** A pass for every doubling of the width. *)
Lemma ssort_calls j : forall k width l w, (0 < width)%nat -> (length l <= width * 2 ^ j)%nat -> (j <= k)%nat ->
  (calls (ssort c k width l w).1 <= calls w + length l * j)%nat.
Proof.
  induction j as [|j IH]; intros k width l w Hw Hl Hk; [rewrite ssort_done by (cbn in Hl; lia); cbn; lia|].
  destruct (decide (width < length l)%nat); [|rewrite ssort_done by lia; cbn; lia].
  destruct k as [|k]; [lia|]. rewrite ssort_step by assumption.
  pose proof (spass_calls (length l) width l w) as H1. destruct (spass c _ _ l w) as [w' [[m|]|e]] eqn:E; cbn [fst] in H1; [|cbn; lia..].
  apply spass_perm, Permutation_length in E; [|assumption].
  specialize (IH k (width * 2)%nat m w' ltac:(lia)). rewrite E in IH. cbn [Nat.pow] in Hl. lia.
Qed.

Lemma sort_list_calls l w : (Z.of_nat (length l) < 2 ^ 61) ->
  (calls (sort_list c l w).1 <= calls w + length l * Nat.log2_up (length l))%nat.
Proof.
  intros Hn. destruct (decide (length l <= 1)%nat); [unfold sort_list; rewrite ssort_done by lia; cbn; lia|].
  pose proof (Nat.log2_up_spec (length l) ltac:(lia)) as [H1 H2].
  apply ssort_calls; [lia|lia|].
  assert (Nat.log2_up (length l) <= 61)%nat; [|lia].
  apply Nat.log2_up_le_pow2; [lia|]. apply Nat2Z.inj_le. rewrite Nat2Z.inj_pow. cbn -[Z.pow]. lia.
Qed.

End Count.
End SortCount.

(** * The comparisons of the builtins *)
Module Comparisons.
Import Word Effects Search StringFacts SortOrder PureSort.

(** [operator<] of strings; the comparison always has a result
    ([StringFacts.stringCompare_spec]). *)
Definition string_less (a b : list Z) : bool :=
  match stringCompare a b with Some r => r <? 0 | None => false end.

Section Comparisons.
Context {World : Type}.
(** Conversions and calls, which may run script code; [BigInt::lessThanEqual]. *)
Context (call : Z -> Z -> list Z -> M World Z) (toNumber : Z -> M World Z) (toString : Z -> M World (list Z)).
Context (lessThanEqual : Z -> Z -> bool).

(** The comparator of [builtinArraySort] and [builtinArrayToSorted]. *)
Definition array_comparison (defaultSort : bool) (cmpfn a b : Z) : M World bool :=
  if isEmpty a && isUndefined b then mret false
  else if isUndefined a && isEmpty b then mret true
  else if isEmpty a || isUndefined a then mret false
  else if isEmpty b || isUndefined b then mret true
  else if defaultSort then
    vala ← toString a;
    valb ← toString b;
    mret (string_less vala valb)
  else
    ret ← call cmpfn ValueUndefined [a; b];
    d ← toNumber ret;
    mret (flt d (of_Z 0)).

(** The comparator of [builtinTypedArraySort] and [builtinTypedArrayToSorted];
    the elements are numbers or BigInts. *)
Definition typed_default (x y : Z) : bool :=
  if isNumber x then
    let xNum := asNumber x in
    let yNum := asNumber y in
    if is_nan xNum then false
    else if is_nan yNum then true
    else if feq xNum (of_Z 0) && feq xNum yNum then sign_bit xNum
    else fle xNum yNum
  else lessThanEqual x y.
Definition typed_comparison (defaultSort : bool) (cmpfn x y : Z) : M World bool :=
  if negb defaultSort then
    ret ← call cmpfn ValueUndefined [x; y];
    v ← toNumber ret;
    if is_nan v then mret false else mret (flt v (of_Z 0))
  else mret (typed_default x y).

(** ** What the comparators decide *)

(** Values by [less], then undefined, then holes. *)
Definition array_before (less : Z -> Z -> bool) (a b : Z) : bool :=
  if isEmpty a then false
  else if isUndefined a then isEmpty b
  else if isEmpty b || isUndefined b then true
  else less a b.

(** What is compared by [less]. *)
Definition compared (a : Z) : bool := negb (isEmpty a) && negb (isUndefined a).
Lemma empty_not_undefined a : isEmpty a = true -> isUndefined a = true -> False.
Proof. unfold isEmpty, isUndefined. intros E1 E2. Zbool. subst. vm_compute in E2. discriminate. Qed.
Lemma array_comparison_before (defaultSort : bool) cmpfn less (I : World -> Prop) a b w : I w ->
  (compared a = true -> compared b = true -> exists w',
    (if defaultSort then vala ← toString a; valb ← toString b; mret (string_less vala valb)
     else ret ← call cmpfn ValueUndefined [a; b]; d ← toNumber ret; mret (flt d (of_Z 0))) w = (w', inl (less a b)) /\ I w') ->
  exists w', array_comparison defaultSort cmpfn a b w = (w', inl (array_before less a b)) /\ I w'.
Proof.
  intros Hw Hl. unfold array_comparison, array_before, compared in *. pose proof (empty_not_undefined a) as Ha.
  destruct (isEmpty a) eqn:E1, (isUndefined a) eqn:E2; try (now exfalso; auto); cbn [andb orb negb] in *;
    destruct (isEmpty b) eqn:E3, (isUndefined b) eqn:E4; cbn [andb orb negb] in *; try (exists w; now split); destruct defaultSort; auto.
Qed.

Lemma filter_compared values x : x ∈ values -> compared x = true -> x ∈ List.filter compared values.
Proof. intros Hx E. apply list_elem_of_In, filter_In. split; [now apply list_elem_of_In|assumption]. Qed.
Lemma array_before_consistent less l : consistent_on (List.filter compared l) less -> consistent_on l (array_before less).
Proof.
  intros [H1 H2]. pose proof empty_not_undefined as Hn.
  assert (Hin : forall x, x ∈ l -> isEmpty x = false -> isUndefined x = false -> x ∈ List.filter compared l).
  { intros x Hx E1 E2. apply list_elem_of_In, filter_In. split; [now apply list_elem_of_In|]. unfold compared. now rewrite E1, E2. }
  split; unfold array_before.
  - intros x y Hx Hy. pose proof (Hin x Hx) as Ix. pose proof (Hin y Hy) as Iy.
    destruct (isEmpty x) eqn:E1, (isUndefined x) eqn:E2, (isEmpty y) eqn:E3, (isUndefined y) eqn:E4; cbn; auto; try discriminate;
      try (now exfalso; eauto).
  - intros x y z Hx Hy Hz. pose proof (Hin x Hx) as Ix. pose proof (Hin y Hy) as Iy. pose proof (Hin z Hz) as Iz.
    destruct (isEmpty x) eqn:E1, (isUndefined x) eqn:E2, (isEmpty y) eqn:E3, (isUndefined y) eqn:E4, (isEmpty z) eqn:E5,
      (isUndefined z) eqn:E6; cbn; auto.
Qed.

Lemma lex_compare_split y : forall x z, lex_compare x z < 0 -> lex_compare x y < 0 \/ lex_compare y z < 0.
Proof.
  induction y as [|b y IH]; intros [|a x] [|c z]; cbn; try lia.
  specialize (IH x z). destruct (a =? c) eqn:E1, (a =? b) eqn:E2, (b =? c) eqn:E3; Zbool; try lia; auto.
  all: destruct (c <? a) eqn:E4, (b <? a) eqn:E5, (c <? b) eqn:E6; Zbool; try lia; auto.
Qed.
Lemma weak_consistent {A} (less : A -> A -> bool) (l : list A) `{!StrictWeak less} : consistent_on l less.
Proof. split; intros; [now apply before_asym|now apply before_split]. Qed.
#[export] Instance string_weak (f : Z -> list Z) : StrictWeak (fun a b => lex_compare (f a) (f b) <? 0).
Proof.
  split.
  - intros x y E. rewrite lex_compare_antisym. Zbool. lia.
  - intros x y z E. Zbool. destruct (lex_compare_split (f y) (f x) (f z) E); [left|right]; lia.
Qed.

(** ** The order of numbers: -0 before +0, NaN last *)
Definition number_key (v : Z) : Z :=
  let d := asNumber v in if is_nan d then 2 ^ 66 else 2 * Double.key d + (if sign_bit d then 0 else 1).
Definition number_le (x y : Z) : Prop := number_key x <= number_key y.
#[export] Instance number_le_trans : Transitive number_le.
Proof. intros x y z. unfold number_le. lia. Qed.

Lemma key_range d : if sign_bit d then - 2 ^ 63 < Double.key d <= 0 else 0 <= Double.key d < 2 ^ 63.
Proof. unfold Double.key, mag. pose proof (Z.mod_pos_bound d (2 ^ 63)). destruct (sign_bit d); lia. Qed.

Lemma typed_default_le x y : isNumber x = true -> if typed_default x y then number_le x y else number_le y x.
Proof.
  intros Hx. unfold typed_default, number_le, number_key. rewrite Hx. set (a := asNumber x). set (b := asNumber y).
  pose proof (key_range a). pose proof (key_range b).
  destruct (is_nan a) eqn:Ea; [destruct (is_nan b), (sign_bit b); lia|].
  destruct (is_nan b) eqn:Eb; [destruct (sign_bit a); lia|].
  unfold feq, fle. change (of_Z 0) with 0. rewrite Ea, Eb. change (is_nan 0) with false. change (Double.key 0) with 0. cbn [negb andb].
  destruct (Double.key a =? 0) eqn:E1, (Double.key a =? Double.key b) eqn:E2, (Double.key a <=? Double.key b) eqn:E3; Zbool;
    cbn [andb]; destruct (sign_bit a) eqn:S1, (sign_bit b) eqn:S2; lia.
Qed.
(** BigInts are compared by what they stand for. *)
Definition big_le (big : Z -> Z) (x y : Z) : Prop := big x <= big y.
#[export] Instance big_le_trans big : Transitive (big_le big).
Proof. intros x y z. unfold big_le. lia. Qed.
Lemma typed_default_big big x y : isNumber x = false -> lessThanEqual x y = (big x <=? big y) ->
  if typed_default x y then big_le big x y else big_le big y x.
Proof. intros Hx E. unfold typed_default, big_le. rewrite Hx, E. destruct (big x <=? big y) eqn:E'; Zbool; lia. Qed.
End Comparisons.
End Comparisons.

(** * Sorting arrays and other objects *)
Module Sorting.
Import Word Heap Effects Memory MergeSort StructureSpec Objects Arrays.

(** The sort of a buffer of values with another one of its size. *)
Definition sort_values {World} (comp : Z -> Z -> M World bool) (values : list Z) : MU World (list Z) :=
  '(sorted, _) ← mergeSort (fun a b => result ← comp a b; mret (Some result)) (Some <$> values) (Z.of_nat (length values))
    (replicate (length values) None);
  certain (mapM id sorted).

Section ObjectSort.
Context {World : Type}.
(** The internal methods of the object at an address, for indexes as names.
    [hasProperty] of an index that it finds gives what reads the value. *)
Context (isObject : Z -> bool) (isOrdinary : World -> Z -> bool).
Context (hasProperty : Z -> Z -> M World (option (M World Z))) (get : Z -> Z -> M World Z).
Context (hasOwnProperty deleteOwnProperty : Z -> Z -> M World bool).
Context (setIndexedProperty : Z -> Z -> Z -> Z -> M World bool).
(** The keys that an enumeration passes, as numbers cut to integers. *)
Context (enumeration : Z -> M World (list Z)) (getPrototype : Z -> M World Z).

Definition setIndexedPropertyThrowsException (self property value : Z) : M World unit :=
  b ← setIndexedProperty self property value self;
  if (b : bool) then mret tt else throwTypeError.

Definition next_index (cur ret : Z) (keys : list Z) : Z :=
  fold_left (fun ret index =>
    if u64 index =? InvalidIndexValue then ret
    else if (cur <? index) && (index <? ret) then Z.min index ret else ret) keys ret.
Fixpoint nextIndexForward (fuel : nat) (ptr cur end_ ret : Z) : MU World Z :=
  if isObject ptr then
    match fuel with
    | O => certain None
    | S fuel =>
        ordinary ← run (fun w => (w, inl (isOrdinary w ptr)));
        if negb (ordinary : bool) then mret (Z.min end_ (cur + 1))
        else
          keys ← run (enumeration ptr);
          ptr ← run (getPrototype ptr);
          nextIndexForward fuel ptr cur end_ (next_index cur ret keys)
    end
  else mret (Z.max ret (cur + 1)).

(** The first loop of [Object::sort]; [n] counts the values. *)
Fixpoint select (protos fuel : nat) (self k length : Z) (selected : list Z) : MU World (list Z) :=
  if k <? length then
    match fuel with
    | O => certain None
    | S fuel =>
        hasResult ← run (hasProperty self k);
        match hasResult with
        | Some value =>
            v ← run value;
            select protos fuel self (k + 1) length (selected ++ [v])
        | None =>
            k ← nextIndexForward protos self k length length;
            select protos fuel self k length selected
        end
    end
  else mret selected.

Fixpoint write_back (self i : Z) (values : list Z) : M World unit :=
  match values with
  | [] => mret tt
  | v :: values => _ ← setIndexedPropertyThrowsException self i v; write_back self (i + 1) values
  end.

(** The last loop. *)
Fixpoint delete_rest (protos fuel : nat) (self i length : Z) : MU World unit :=
  if i <? length then
    match fuel with
    | O => certain None
    | S fuel =>
        b ← run (hasOwnProperty self i);
        if (b : bool) then
          _ ← run (deleteOwnProperty self i);
          delete_rest protos fuel self (i + 1) length
        else
          i ← nextIndexForward protos self i length length;
          delete_rest protos fuel self i length
    end
  else mret tt.

Definition Object_sort (protos : nat) (self length : Z) (comp : Z -> Z -> M World bool) : MU World unit :=
  selected ← select protos (Z.to_nat length) self 0 length [];
  let n := Z.of_nat (List.length selected) in
  selected ← (if n =? 0 then mret selected else sort_values comp selected);
  _ ← run (write_back self 0 selected);
  delete_rest protos (Z.to_nat length) self n length.

Fixpoint read_all (fuel : nat) (self i length : Z) (selected : list Z) : MU World (list Z) :=
  if i <? length then
    match fuel with
    | O => certain None
    | S fuel => v ← run (get self i); read_all fuel self (i + 1) length (selected ++ [v])
    end
  else mret selected.
Fixpoint fill (arr i : Z) (values : list Z) : M World unit :=
  match values with
  | [] => mret tt
  | v :: values => _ ← setIndexedProperty arr i v arr; fill arr (i + 1) values
  end.
Definition Object_toSorted (self target length : Z) (comp : Z -> Z -> M World bool) : MU World unit :=
  selected ← read_all (Z.to_nat length) self 0 length [];
  selected ← (if Z.of_nat (List.length selected) =? 0 then mret selected else sort_values comp selected);
  run (fill target 0 selected).

(** [TypedArrayObject::sort] and [toSorted]. *)
Definition TypedArray_sort (self length : Z) (comp : Z -> Z -> M World bool) : MU World unit :=
  if length =? 0 then mret tt
  else
    tempBuffer ← read_all (Z.to_nat length) self 0 length [];
    tempBuffer ← sort_values comp tempBuffer;
    run (fill self 0 tempBuffer).
Definition TypedArray_toSorted (self target length : Z) (comp : Z -> Z -> M World bool) : MU World unit :=
  if length =? 0 then mret tt
  else
    tempBuffer ← read_all (Z.to_nat length) self 0 length [];
    tempBuffer ← sort_values comp tempBuffer;
    run (fill target 0 tempBuffer).

(** ** Arrays in fast mode *)
Section ArraySort.
Context {St : Type} `{StructureOps St}.
Context (h : heap) (natives : gmap Z StructureDescriptor.NativeGetterSetterData).
Context (uint_name : Z -> Z) (alloc_native : StructureDescriptor.NativeGetterSetterData -> Z).
Context (prototypes : list (bool * list Z)) (string_to_index : list Z -> Z).
(** The arrays of a state by their address, with the store of structures. *)
Context (array_at : World -> Z -> St * Array) (put_array : World -> Z -> St * Array -> World).

(** A read of the array, and an operation on it; operations of the engine alone
    throw no other value than a TypeError. *)
Definition reading {B} (self : Z) (f : Array -> B) : MU World B := fun w => Some (w, inl (f (array_at w self).2)).
Definition on_array (self : Z) (f : St -> Array -> result (St * Array)) : MU World unit := fun w =>
  let '(s, a) := array_at w self in
  match f s a with
  | Ok sa => Some (put_array w self sa, inl tt)
  | Throw _ => Some (w, inr ThrownTypeError)
  | Undefined => None
  end.

(** [tempBuffer[i] = m_fastModeData[i]] for the indexes below the length. *)
Fixpoint read_cells (d : list (option Z)) (i : Z) (n : nat) : option (list Z) :=
  match n with
  | O => Some []
  | S n => v ← load d i; l ← read_cells d (i + 1) n; Some (v :: l)
  end.
Definition read_buffer (a : Array) (length : Z) : option (list Z) :=
  d ← m_fastModeData a; read_cells d 0 (Z.to_nat length).
(** [m_fastModeData[i] = tempBuffer[i]] *)
Definition write_buffer (s : St) (a : Array) (values : list Z) : result (St * Array) :=
  match m_fastModeData a with
  | Some d => d ← put_cells d 0 values; Ok (s, with_data a (Some d))
  | None => Undefined
  end.

(** The length that the comparator may have changed is restored; whether that
    succeeds is not asked. *)
Definition restore_length (fuel : nat) (self length : Z) (s : St) (a : Array) : result (St * Array) :=
  if negb (m_arrayLength a =? length) then
    '(s, a, _) ← Arrays.setArrayLength h natives uint_name alloc_native self prototypes string_to_index fuel s a (u32 length)
       false true;
    Ok (s, a)
  else Ok (s, a).

Definition Array_sort (fuel protos : nat) (self length : Z) (comp : Z -> Z -> M World bool) : MU World unit :=
  if length =? 0 then mret tt
  else
    fast ← reading self isFastModeArray;
    if (fast : bool) then
      tempBuffer ← reading self (fun a => read_buffer a length);
      tempBuffer ← certain tempBuffer;
      tempBuffer ← sort_values comp tempBuffer;
      _ ← on_array self (restore_length fuel self length);
      fast ← reading self isFastModeArray;
      if (fast : bool) then on_array self (fun s a => write_buffer s a tempBuffer)
      else run (write_back self 0 tempBuffer)
    else Object_sort protos self length comp.

Definition Array_toSorted (fuel protos : nat) (self target length : Z) (comp : Z -> Z -> M World bool) : MU World unit :=
  if length =? 0 then mret tt
  else
    fast ← reading self isFastModeArray;
    if (fast : bool) then
      tempBuffer ← reading self (fun a => read_buffer a length);
      tempBuffer ← certain tempBuffer;
      tempBuffer ← sort_values comp ((fun v => if isEmpty v then ValueUndefined else v) <$> tempBuffer);
      fast ← reading target isFastModeArray;
      if (fast : bool) then on_array target (fun s a => write_buffer s a tempBuffer)
      else run (fill target 0 tempBuffer)
    else Object_toSorted self target length comp.

End ArraySort.
End ObjectSort.
End Sorting.

(** * Facts on the sorts *)
Module SortingFacts.
Import Word Heap Effects Memory MergeSort SortSpec SortFacts SortOrder PureSort SortCount Comparisons StructureSpec Objects Arrays Sorting.

Section Values.
Context {World : Type}.

(** A comparator that always succeeds or throws. *)
Definition succeeds {A} (m : M World (option A)) : Prop := forall w w', m w <> (w', inl None).
Lemma succeeds_map {A} (g : A -> A) (m : M World (option A)) : succeeds m -> succeeds (r ← m; mret (g <$> r)).
Proof.
  intros H w w'. unfold mbind, M_bind, mret, M_ret. specialize (H w). destruct (m w) as [w1 [[a|]|e]]; [| |discriminate]; cbn; congruence.
Qed.

Section Comparator.
Context {A : Type} (c : A -> A -> M World (option bool)) (c_succeeds : forall a b, succeeds (c a b)).
Lemma smerge_succeeds l : forall r, succeeds (smerge c l r).
Proof.
  induction l as [|x l IHl]; intros r; [intros w w' [=]|]. induction r as [|y r IHr]; [intros w w' [=]|]. intros w w'.
  rewrite smerge_cons. pose proof (c_succeeds y x w) as Hc. destruct (c y x w) as [w1 [[[]|]|e]]; [| |now intros _; eapply Hc|discriminate].
  - now apply succeeds_map.
  - apply succeeds_map. apply IHl.
Qed.
Lemma spass_succeeds k : forall width l, succeeds (spass c k width l).
Proof.
  induction k as [|k IH]; intros width l w w'; [destruct l; intros [=]|].
  destruct (decide (l = [])) as [->|Hl]; [intros [=]|]. rewrite spass_step by assumption.
  pose proof (smerge_succeeds (take width l) (take width (drop width l)) w) as Hc.
  destruct (smerge c _ _ w) as [w1 [[m|]|e]]; [|now intros _; eapply Hc|discriminate]. apply succeeds_map, IH.
Qed.
Lemma ssort_succeeds k : forall width l, succeeds (ssort c k width l).
Proof.
  induction k as [|k IH]; intros width l w w'; [cbn [ssort]; destruct (width <? length l)%nat; intros [=]|].
  destruct (decide (width < length l)%nat); [|rewrite ssort_done by lia; intros [=]]. rewrite ssort_step by assumption.
  pose proof (spass_succeeds (length l) width l w) as Hc.
  destruct (spass c _ _ l w) as [w1 [[m|]|e]]; [|now intros _; eapply Hc|discriminate]. apply IH.
Qed.
End Comparator.

Lemma mapM_some (l : list Z) : mapM id (Some <$> l) = Some l.
Proof. induction l as [|x l IH]; [reflexivity|]. cbn. now rewrite IH. Qed.

(** Sorting values is defined: it ends with them in another order, or the
    comparator has thrown. *)
Definition comparator (comp : Z -> Z -> M World bool) (a b : Z) : M World (option bool) :=
  result ← comp a b; mret (Some result).
Lemma comparator_succeeds comp a b : succeeds (comparator comp a b).
Proof. intros w w'. unfold comparator, mbind, M_bind, mret, M_ret. destruct (comp a b w) as [w1 [?|?]]; discriminate. Qed.

Lemma sort_values_defined (comp : Z -> Z -> M World bool) (values : list Z) w : Z.of_nat (length values) < 2 ^ 61 ->
  match sort_list (comparator comp) values w with
  | (w', inl (Some m)) => sort_values comp values w = Some (w', inl m) /\ m ≡ₚ values
  | (w', inl None) => False
  | (w', inr e) => sort_values comp values w = Some (w', inr e)
  end.
Proof.
  intros Hn. pose proof (mergeSort_refines (comparator comp) values (replicate (length values) None) w Hn
    ltac:(apply length_replicate)) as Ho.
  pose proof (ssort_succeeds (comparator comp) (comparator_succeeds comp) 64 1 values w) as Hs.
  unfold sort_list in *. destruct (ssort _ 64 1 values w) as [w' [[m|]|e]] eqn:E; [|now eapply Hs|].
  - unfold outcome_ok in Ho. apply (ssort_perm (comparator comp)) in E; [|lia]. split; [|assumption].
    unfold sort_values, mbind at 1, MU_bind at 1. unfold comparator in Ho. rewrite Ho. unfold certain. now rewrite mapM_some.
  - unfold outcome_ok in Ho. unfold sort_values, mbind at 1, MU_bind at 1. unfold comparator in Ho. now rewrite Ho.
Qed.

(** The comparator decides [before] on the values, in the states of [I]. *)
Definition decides (comp : Z -> Z -> M World bool) (before : Z -> Z -> bool) (values : list Z) (I : World -> Prop) : Prop :=
  forall a b w, a ∈ values -> b ∈ values -> I w -> exists w', comp a b w = (w', inl (before a b)) /\ I w'.
Lemma decides_comparator comp before values I : decides comp before values I ->
  forall a b w, a ∈ values -> b ∈ values -> I w -> exists w', comparator comp a b w = (w', inl (Some (before a b))) /\ I w'.
Proof.
  intros Hc a b w Ha Hb Hw. destruct (Hc a b w Ha Hb Hw) as (w' & E & Hw'). exists w'. split; [|assumption].
  unfold comparator, mbind, M_bind. now rewrite E.
Qed.
Lemma all_elements (values : list Z) : Forall (fun v => v ∈ values) values.
Proof. now apply Forall_forall. Qed.

Lemma sort_values_pure (comp : Z -> Z -> M World bool) before (values : list Z) I w : decides comp before values I ->
  consistent_on values before -> Z.of_nat (length values) < 2 ^ 61 -> I w ->
  exists m w', sort_values comp values w = Some (w', inl m) /\ stably_sorted_on values before m /\ I w'.
Proof.
  intros Hc Hb Hn Hw. pose proof (extended_weak values before Hb) as Hweak.
  destruct (mergeSort_stable (comparator comp) (extended values before) (fun v => v ∈ values) I) with
    (l := values) (scratch := replicate (length values) (@None Z)) (w := w) as (m & w' & E & Hm & Hw'); auto using length_replicate, all_elements.
  - intros a b w' Ha Hb' Hi. rewrite extended_on by assumption. now apply (decides_comparator comp before values I).
  - exists m, w'. split; [|split; [now apply extended_sorted|assumption]].
    unfold sort_values, mbind at 1, MU_bind at 1. unfold comparator in E. rewrite E. unfold certain. now rewrite mapM_some.
Qed.

Lemma sort_values_by (comp : Z -> Z -> M World bool) before (le : Z -> Z -> Prop) `{!Transitive le} (values : list Z) I w :
  decides comp before values I -> (forall x y, x ∈ values -> y ∈ values -> if before x y then le x y else le y x) ->
  Z.of_nat (length values) < 2 ^ 61 -> I w ->
  exists m w', sort_values comp values w = Some (w', inl m) /\ m ≡ₚ values /\ StronglySorted le m /\ I w'.
Proof.
  intros Hc Hle Hn Hw.
  destruct (mergeSort_sorted (comparator comp) before (fun v => v ∈ values) I (decides_comparator _ _ _ _ Hc) le values
    (replicate (length values) None) w Hle) as (m & w' & E & Hm); auto using length_replicate, all_elements.
  exists m, w'. split; [|assumption]. unfold sort_values, mbind at 1, MU_bind at 1. unfold comparator in E. rewrite E.
  unfold certain. now rewrite mapM_some.
Qed.
End Values.

(** ** Ordinary objects *)

(** The values of the indexes from [k] up to [length], in their order. *)
Definition present (e : gmap Z Z) (k length : Z) : list Z := omap (fun i => e !! i) (seqZ k (length - k)).

Lemma seqZ_split k r n : k <= r <= n -> seqZ k (n - k) = seqZ k (r - k) ++ seqZ r (n - r).
Proof.
  intros H. replace (n - k) with (r - k + (n - r)) by lia. rewrite seqZ_app by lia. do 2 f_equal. lia.
Qed.
Lemma present_skip e k r n : k <= r <= n -> (forall j, k <= j < r -> e !! j = None) -> present e k n = present e r n.
Proof.
  intros H He. unfold present. rewrite (seqZ_split k r n), omap_app by lia.
  replace (omap _ (seqZ k (r - k))) with (@nil Z); [reflexivity|]. symmetry.
  assert (Forall (fun i => e !! i = None) (seqZ k (r - k))) as Hf
    by (apply Forall_forall; intros j Hj%elem_of_seqZ; apply He; lia).
  induction Hf as [|j l Hj _ IH]; [reflexivity|]. cbn. now rewrite Hj.
Qed.
Lemma present_cons e k n v : k < n -> e !! k = Some v -> present e k n = v :: present e (k + 1) n.
Proof.
  intros H He. unfold present. rewrite (seqZ_cons k) by lia. cbn. rewrite He. do 2 f_equal. f_equal; lia.
Qed.
Lemma present_end e k n : n <= k -> present e k n = [].
Proof. intros H. unfold present. now rewrite seqZ_nil by lia. Qed.
Lemma present_length e k n : k <= n -> Z.of_nat (length (present e k n)) <= n - k.
Proof.
  intros H. unfold present. generalize (length_seqZ k (n - k)). generalize (seqZ k (n - k)). intros l Hl.
  assert (length (omap (fun i => e !! i) l) <= length l)%nat; [|lia]. clear Hl.
  induction l as [|x l IH]; [reflexivity|]. cbn. destruct (e !! x); cbn; lia.
Qed.

Lemma next_index_spec cur keys : forall ret, cur < ret ->
  let r := next_index cur ret keys in
  cur < r <= ret /\ forall k, k ∈ keys -> 0 <= k < InvalidIndexValue -> cur < k -> r <= k.
Proof.
  unfold next_index. induction keys as [|x keys IH]; intros ret Hr; cbn [fold_left].
  - split; [lia|]. now intros k ?%not_elem_of_nil.
  - set (ret' := if u64 x =? InvalidIndexValue then ret else if (cur <? x) && (x <? ret) then Z.min x ret else ret).
    assert (cur < ret' <= ret /\ (0 <= x < InvalidIndexValue -> cur < x -> ret' <= x)) as (H1 & H2).
    { unfold ret'. destruct (u64 x =? InvalidIndexValue) eqn:E.
      - split; [lia|]. intros Hx. rewrite wrapu_id in E by (unfold in_u, InvalidIndexValue in *; lia). Zbool. lia.
      - destruct (cur <? x) eqn:E1, (x <? ret) eqn:E2; Zbool; cbn; lia. }
    destruct (IH ret' ltac:(lia)) as (H3 & H4). split; [lia|].
    intros k [->|Hk]%elem_of_cons Hk0 Hk1; [|now apply H4]. specialize (H2 Hk0 Hk1). lia.
Qed.

Section OrdinaryObject.
Context {World : Type}.
Context (isObject : Z -> bool) (isOrdinary : World -> Z -> bool).
Context (hasProperty : Z -> Z -> M World (option (M World Z))).
Context (hasOwnProperty deleteOwnProperty : Z -> Z -> M World bool).
Context (setIndexedProperty : Z -> Z -> Z -> Z -> M World bool).
Context (enumeration : Z -> M World (list Z)) (getPrototype : Z -> M World Z).

(** An object and its prototypes in a state: their keys that are indexes are
    what an enumeration passes. *)
Fixpoint prototype_chain (w : World) (ptr : Z) (chain : list (list Z)) : Prop :=
  match chain with
  | [] => isObject ptr = false
  | keys :: chain =>
      isObject ptr = true /\ isOrdinary w ptr = true /\ enumeration ptr w = (w, inl keys) /\
      exists next, getPrototype ptr w = (w, inl next) /\ prototype_chain w next chain
  end.

(** What the sort relies on in the states of [ok]: an ordinary object with
    ordinary prototypes, whose own properties with indexes are [elements], which
    can be set and deleted, and which inherits [inherited].  Setting an index
    defines it in the object. *)
Class OrdinaryElements (self : Z) (ok : World -> Prop) (elements : World -> gmap Z Z) (inherited : gmap Z Z) (protos : nat) : Prop := {
  has_chain w : ok w -> exists chain, chain <> [] /\ (length chain <= protos)%nat /\ prototype_chain w self chain /\
    forall k, is_Some ((elements w ∪ inherited) !! k) -> exists keys, keys ∈ chain /\ k ∈ keys;
  has_element w k : ok w -> hasProperty self k w = (w, inl ((fun v w => (w, inl v)) <$> (elements w ∪ inherited) !! k));
  has_own_element w k : ok w -> hasOwnProperty self k w = (w, inl (bool_decide (is_Some (elements w !! k))));
  set_element w k v : ok w -> exists w', setIndexedProperty self k v self w = (w', inl true) /\ elements w' = <[k := v]> (elements w) /\ ok w';
  delete_element w k : ok w -> exists w', deleteOwnProperty self k w = (w', inl true) /\ elements w' = delete k (elements w) /\ ok w'
}.

Context (self : Z) (ok : World -> Prop) (elements : World -> gmap Z Z) (inherited : gmap Z Z) (protos : nat)
  `{OrdinaryElements self ok elements inherited protos}.
Definition visible (w : World) : gmap Z Z := elements w ∪ inherited.

Lemma next_in_chain chain : forall fuel ptr k length ret w, (List.length chain <= fuel)%nat -> prototype_chain w ptr chain -> 0 <= k < ret ->
  exists r, nextIndexForward isObject isOrdinary enumeration getPrototype fuel ptr k length ret w = Some (w, inl r) /\
    k < r <= ret /\ forall keys j, keys ∈ chain -> j ∈ keys -> 0 <= j < InvalidIndexValue -> k < j -> r <= j.
Proof.
  induction chain as [|keys chain IH]; intros fuel ptr k length ret w Hf Hc Hk.
  - cbn in Hc. exists (Z.max ret (k + 1)). split; [destruct fuel; cbn [nextIndexForward]; now rewrite Hc|]. split; [lia|].
    now intros keys j ?%not_elem_of_nil.
  - destruct Hc as (Ho & Hord & Hkeys & next & Hnext & Hc). cbn in Hf. destruct fuel as [|fuel]; [lia|].
    cbn [nextIndexForward]. rewrite Ho. unfold mbind, MU_bind, run. rewrite Hord. cbn [negb]. rewrite Hkeys, Hnext.
    destruct (next_index_spec k keys ret ltac:(lia)) as (H1 & H2).
    destruct (IH fuel next k length (next_index k ret keys) w ltac:(lia) Hc ltac:(lia)) as (r & E & Hr & Hall).
    exists r. split; [exact E|]. split; [lia|]. intros keys' j [->|Hin]%elem_of_cons Hj Hj0 Hkj; [|now apply (Hall keys')].
    specialize (H2 j Hj Hj0 Hkj). lia.
Qed.
Lemma next_present k length w : ok w -> 0 <= k < length -> length <= 2 ^ 53 ->
  exists r, nextIndexForward isObject isOrdinary enumeration getPrototype protos self k length length w = Some (w, inl r) /\
    k < r <= length /\ forall j, k < j < r -> visible w !! j = None.
Proof.
  intros Hw Hk Hl. destruct (has_chain w Hw) as (chain & _ & Hlen & Hc & Hall).
  destruct (next_in_chain chain protos self k length length w Hlen Hc ltac:(lia)) as (r & E & Hr & Hmin).
  exists r. split; [exact E|]. split; [exact Hr|]. intros j Hj. destruct (visible w !! j) eqn:Ev; [|reflexivity].
  destruct (Hall j) as (keys & Hin & Hjk); [unfold visible in Ev; rewrite Ev; eauto|]. specialize (Hmin keys j Hin Hjk ltac:(unfold InvalidIndexValue; lia) ltac:(lia)). lia.
Qed.

Lemma select_present fuel : forall k length selected w, ok w ->
  0 <= k <= length -> length <= 2 ^ 53 -> length - k <= Z.of_nat fuel ->
  select isObject isOrdinary hasProperty enumeration getPrototype protos fuel self k length selected w
  = Some (w, inl (selected ++ present (visible w) k length)).
Proof.
  induction fuel as [|fuel IH]; intros k length selected w Hw Hk Hl Hf.
  all: cbn [select]; destruct (k <? length) eqn:E; Zbool; try lia.
  1, 3: now rewrite present_end, app_nil_r by lia.
  unfold mbind at 1, MU_bind at 1, run at 1. rewrite has_element by assumption. fold (visible w).
  destruct (visible w !! k) as [v|] eqn:Ev; cbn [fmap option_fmap option_map].
  - unfold mbind, MU_bind, run. rewrite IH by (assumption || lia). now rewrite (present_cons _ k _ v), <- app_assoc by (assumption || lia).
  - destruct (next_present k length w Hw ltac:(lia) Hl) as (r & E1 & Hr & Hnone).
    unfold mbind, MU_bind. rewrite E1, IH by (assumption || lia). rewrite (present_skip _ k r); [reflexivity|lia|].
    intros j Hj. destruct (decide (j = k)) as [->|]; [assumption|]. apply Hnone. lia.
Qed.

Lemma write_back_elements values : forall i w, ok w -> exists w', write_back setIndexedProperty self i values w = (w', inl tt) /\ ok w' /\
  forall j, elements w' !! j = if decide (i <= j < i + Z.of_nat (length values)) then values !! Z.to_nat (j - i) else elements w !! j.
Proof.
  induction values as [|v values IH]; intros i w Hw; cbn [write_back].
  - exists w. split; [reflexivity|]. split; [assumption|]. intros j. destruct (decide _) as [Hj|]; [cbn in Hj; lia|reflexivity].
  - destruct (set_element w i v Hw) as (w1 & E1 & H1 & Hw1). destruct (IH (i + 1) w1 Hw1) as (w2 & E2 & Hw2 & H2).
    exists w2. unfold mbind, M_bind, setIndexedPropertyThrowsException, mbind, M_bind, mret, M_ret. rewrite E1, E2. split; [reflexivity|].
    split; [assumption|]. intros j. rewrite H2, H1. cbn [length]. destruct (decide (j = i)) as [->|Hne].
    + rewrite lookup_insert_eq. repeat (destruct (decide _); try lia). now rewrite Z.sub_diag.
    + rewrite lookup_insert_ne by lia. repeat (destruct (decide _); try lia); [|reflexivity].
      now replace (Z.to_nat (j - i)) with (S (Z.to_nat (j - (i + 1)))) by lia.
Qed.

Lemma not_visible w j : visible w !! j = None -> elements w !! j = None.
Proof. unfold visible. rewrite lookup_union_None. tauto. Qed.
Lemma delete_rest_elements fuel : forall i length w, ok w ->
  0 <= i <= length -> length <= 2 ^ 53 -> length - i <= Z.of_nat fuel ->
  exists w', delete_rest isObject isOrdinary hasOwnProperty deleteOwnProperty enumeration getPrototype protos fuel self i length w
      = Some (w', inl tt) /\ ok w' /\
    forall j, elements w' !! j = if decide (i <= j < length) then None else elements w !! j.
Proof.
  induction fuel as [|fuel IH]; intros i length w Hw Hi Hl Hf.
  all: cbn [delete_rest]; destruct (i <? length) eqn:E; Zbool; try lia.
  1, 3: exists w; split; [reflexivity|]; split; [assumption|]; intros j; destruct (decide _); [lia|reflexivity].
  unfold mbind at 1, MU_bind at 1, run at 1. rewrite has_own_element by assumption. destruct (elements w !! i) as [v|] eqn:Ev.
  - rewrite bool_decide_eq_true_2 by eauto. destruct (delete_element w i Hw) as (w1 & E1 & H1 & Hw1).
    destruct (IH (i + 1) length w1) as (w2 & E2 & Hw2 & H2); [assumption|lia..|]. exists w2. unfold mbind, MU_bind, run. rewrite E1, E2.
    split; [reflexivity|]. split; [assumption|]. intros j. rewrite H2, H1. destruct (decide (j = i)) as [->|Hne].
    + rewrite lookup_delete_eq. repeat (destruct (decide _); try lia); reflexivity.
    + rewrite lookup_delete_ne by lia. repeat (destruct (decide _); try lia); reflexivity.
  - rewrite bool_decide_eq_false_2 by (intros [? ?]; discriminate).
    destruct (next_present i length w Hw ltac:(lia) Hl) as (r & E1 & Hr & Hnone).
    destruct (IH r length w) as (w2 & E2 & Hw2 & H2); [assumption|lia..|]. exists w2. unfold mbind, MU_bind. rewrite E1, E2.
    split; [reflexivity|]. split; [assumption|]. intros j. rewrite H2. repeat (destruct (decide _); try lia); try reflexivity.
    destruct (decide (j = i)) as [->|]; [assumption|]. apply not_visible, Hnone. lia.
Qed.

Lemma Object_sort_elements length comp before w : ok w -> 0 <= length <= 2 ^ 53 ->
  let values := present (visible w) 0 length in
  decides comp before values (fun w' => ok w' /\ elements w' = elements w) -> consistent_on values before ->
  exists w' m,
    Object_sort isObject isOrdinary hasProperty hasOwnProperty deleteOwnProperty setIndexedProperty enumeration getPrototype
      protos self length comp w = Some (w', inl tt) /\
    stably_sorted_on values before m /\ ok w' /\
    forall j, elements w' !! j = if decide (0 <= j < length) then m !! Z.to_nat j else elements w !! j.
Proof.
  intros Hw Hl values Hc Hb. unfold Object_sort. unfold mbind at 1, MU_bind at 1.
  rewrite select_present by (assumption || lia). cbn [app]. pose proof (present_length (visible w) 0 length ltac:(lia)) as Hn.
  fold values in Hn |- *.
  assert (exists m w0, (if Z.of_nat (List.length values) =? 0 then mret values else sort_values comp values) w = Some (w0, inl m) /\
    stably_sorted_on values before m /\ ok w0 /\ elements w0 = elements w) as (m & w0 & E & Hm & Hw0 & He0).
  { destruct (Z.of_nat (List.length values) =? 0) eqn:E0; Zbool.
    - exists values, w. split; [reflexivity|]. destruct values; [|cbn in *; lia]. split; [|now split].
      split; [constructor|split; [constructor|reflexivity]].
    - destruct (sort_values_pure comp before values _ w Hc Hb ltac:(lia) (conj Hw eq_refl)) as (m & w0 & E & Hm & Hw0 & He0).
      exists m, w0. auto. }
  unfold mbind, MU_bind. rewrite E. destruct (write_back_elements m 0 w0 Hw0) as (w1 & E1 & Hw1 & H1). unfold run. rewrite E1.
  pose proof (Permutation_length (proj1 Hm)) as Hlen.
  destruct (delete_rest_elements (Z.to_nat length) (Z.of_nat (List.length values)) length w1) as (w2 & E2 & Hw2 & H2); [assumption|lia..|].
  exists w2, m. split; [exact E2|]. split; [assumption|]. split; [assumption|]. intros j. rewrite H2, H1, Hlen, Z.sub_0_r, He0.
  repeat (destruct (decide _); try lia); try reflexivity. symmetry. apply lookup_ge_None_2. lia.
Qed.

End OrdinaryObject.

(** ** Arrays in fast mode *)
Lemma read_cells_prefix (pre l : list Z) (rest : list (option Z)) :
  read_cells ((Some <$> pre ++ l) ++ rest) (Z.of_nat (length pre)) (length l) = Some l.
Proof.
  revert pre. induction l as [|x l IH]; intros pre; [reflexivity|]. cbn [length read_cells].
  assert (((Some <$> pre ++ x :: l) ++ rest) !! length pre = Some (Some x)) as E.
  { rewrite lookup_app_l by (rewrite length_fmap, length_app; cbn; lia). rewrite list_lookup_fmap, list_lookup_middle; reflexivity. }
  unfold load. destruct (Z.of_nat (length pre) <? 0) eqn:E0; Zbool; [lia|]. rewrite Nat2Z.id, E. cbn.
  specialize (IH (pre ++ [x])). rewrite <- app_assoc, length_app in IH. cbn [length app] in IH.
  replace (Z.of_nat (length pre) + 1) with (Z.of_nat (length pre + 1)) by lia. rewrite IH. reflexivity.
Qed.
Lemma put_cells_prefix (values : list Z) : forall pre old rest, length old = length values ->
  put_cells (pre ++ old ++ rest) (Z.of_nat (length pre)) values = Ok (pre ++ (Some <$> values) ++ rest).
Proof.
  induction values as [|v values IH]; intros pre [|o old] rest Hl; try discriminate; [reflexivity|].
  cbn [put_cells]. unfold put_cell. rewrite Nat2Z.id.
  destruct (length (pre ++ (o :: old) ++ rest) <=? length pre)%nat eqn:E;
    [apply Nat.leb_le in E; rewrite length_app in E; cbn in E; lia|].
  unfold mbind, result_bind. rewrite insert_app_r_alt, Nat.sub_diag by lia. cbn [app insert list_insert].
  specialize (IH (pre ++ [Some v]) old rest ltac:(cbn in Hl; lia)). rewrite <- !app_assoc, length_app in IH. cbn [length app] in IH.
  replace (Z.of_nat (length pre) + 1) with (Z.of_nat (length pre + 1)) by lia. exact IH.
Qed.

Section FastArray.
Context {World St : Type} `{StructureOps St}.
Context (isObject : Z -> bool) (isOrdinary : World -> Z -> bool).
Context (hasProperty : Z -> Z -> M World (option (M World Z))) (hasOwnProperty deleteOwnProperty : Z -> Z -> M World bool).
Context (setIndexedProperty : Z -> Z -> Z -> Z -> M World bool).
Context (enumeration : Z -> M World (list Z)) (getPrototype : Z -> M World Z).
Context (h : heap) (natives : gmap Z StructureDescriptor.NativeGetterSetterData).
Context (uint_name : Z -> Z) (alloc_native : StructureDescriptor.NativeGetterSetterData -> Z).
Context (prototypes : list (bool * list Z)) (string_to_index : list Z -> Z).
Context (array_at : World -> Z -> St * Array) (put_array : World -> Z -> St * Array -> World).
Context (put_get : forall w self sa, array_at (put_array w self sa) self = sa).

Lemma Array_sort_fast fuel protos self comp before w a values rest :
  (array_at w self).2 = a -> m_fastModeData a = Some ((Some <$> values) ++ rest) -> m_arrayLength a = Z.of_nat (length values) ->
  Z.of_nat (length values) < 2 ^ 61 -> decides comp before values (fun w => (array_at w self).2 = a) -> consistent_on values before ->
  exists w' m,
    Array_sort isObject isOrdinary hasProperty hasOwnProperty deleteOwnProperty setIndexedProperty enumeration getPrototype
      h natives uint_name alloc_native prototypes string_to_index array_at put_array fuel protos self (m_arrayLength a) comp w
      = Some (w', inl tt) /\
    stably_sorted_on values before m /\
    (array_at w' self).2 = with_data a (Some ((Some <$> m) ++ rest)).
Proof.
  intros Ha Hd Hlen Hn Hc Hb. unfold Array_sort. rewrite Hlen. destruct (Z.of_nat (length values) =? 0) eqn:E; Zbool.
  - exists w, []. destruct values; [|cbn in *; lia]. split; [reflexivity|]. split; [repeat constructor|].
    rewrite Ha. destruct a. cbn in *. now rewrite Hd.
  - unfold mbind, MU_bind, reading. rewrite Ha. unfold isFastModeArray. rewrite Hd.
    assert (read_buffer (array_at w self).2 (Z.of_nat (length values)) = Some values) as ->.
    { unfold read_buffer. rewrite Ha, Hd, Nat2Z.id. apply (read_cells_prefix [] values rest). }
    cbn [certain]. destruct (sort_values_pure comp before values _ w Hc Hb Hn Ha) as (m & w1 & -> & Hm & Ha1).
    unfold on_array at 1. destruct (array_at w1 self) as [s1 a1]. cbn [snd] in Ha1. subst a1.
    unfold restore_length. rewrite Hlen, Z.eqb_refl. cbn [negb].
    rewrite put_get. cbn [snd]. rewrite Hd. unfold on_array. rewrite put_get. unfold write_buffer. rewrite Hd.
    pose proof (Permutation_length (proj1 Hm)) as Hlm.
    pose proof (put_cells_prefix m [] (Some <$> values) rest ltac:(now rewrite length_fmap)) as Ep.
    cbn [app length] in Ep. change (Z.of_nat 0) with 0 in Ep. rewrite Ep. cbn [mbind result_bind].
    eexists _, m. split; [reflexivity|]. split; [assumption|]. now rewrite put_get.
Qed.
End FastArray.

(** ** Typed arrays *)
Section TypedArray.
Context {World : Type}.
Context (get : Z -> Z -> M World Z) (setIndexedProperty : Z -> Z -> Z -> Z -> M World bool).

(** What the sort relies on in the states of [ok]: reads and writes of the elements,
    which are values of the type [T]; others may be converted when they are stored. *)
Class TypedElements (self : Z) (ok : World -> Prop) (T : Z -> Prop) (numbers : World -> list Z) : Prop := {
  of_type w : ok w -> Forall T (numbers w);
  get_number w (i : nat) v : ok w -> numbers w !! i = Some v -> get self (Z.of_nat i) w = (w, inl v);
  set_number w (i : nat) v : ok w -> T v -> (i < length (numbers w))%nat ->
    exists w' b, setIndexedProperty self (Z.of_nat i) v self w = (w', inl b) /\ ok w' /\ numbers w' = <[i := v]> (numbers w)
}.

Context (self : Z) (ok : World -> Prop) (T : Z -> Prop) (numbers : World -> list Z) `{TypedElements self ok T numbers}.

Lemma read_all_numbers w k : ok w -> forall i fuel selected, length (numbers w) = (i + k)%nat -> (k <= fuel)%nat ->
  read_all get fuel self (Z.of_nat i) (Z.of_nat (length (numbers w))) selected w = Some (w, inl (selected ++ drop i (numbers w))).
Proof.
  intros Hw. induction k as [|k IH]; intros i fuel selected Hl Hf.
  - destruct fuel; cbn [read_all]; destruct (_ <? _) eqn:E; Zbool; try lia; now rewrite drop_ge, app_nil_r by lia.
  - destruct fuel as [|fuel]; [lia|]. cbn [read_all]. destruct (_ <? _) eqn:E; Zbool; [|lia].
    destruct (lookup_lt_is_Some_2 (numbers w) i ltac:(lia)) as [v Hv]. unfold mbind, MU_bind, run.
    rewrite (get_number _ _ _ Hw Hv). replace (Z.of_nat i + 1) with (Z.of_nat (S i)) by lia.
    rewrite IH, (drop_S _ _ _ Hv), <- app_assoc by lia. reflexivity.
Qed.

Lemma fill_numbers values : forall (i : nat) w, ok w -> Forall T values -> (i + length values = length (numbers w))%nat ->
  exists w', fill setIndexedProperty self (Z.of_nat i) values w = (w', inl tt) /\ ok w' /\ numbers w' = take i (numbers w) ++ values.
Proof.
  induction values as [|v values IH]; intros i w Hw HT Hl; cbn [fill].
  - exists w. split; [reflexivity|]. split; [assumption|]. cbn in Hl. now rewrite take_ge, app_nil_r by lia.
  - cbn in Hl. destruct (set_number w i v Hw (Forall_inv HT) ltac:(lia)) as (w1 & b & E1 & Hw1 & H1).
    destruct (IH (S i) w1 Hw1 (Forall_inv_tail HT)) as (w2 & E2 & Hw2 & H2); [rewrite H1, length_insert; lia|]. exists w2.
    unfold mbind, M_bind. rewrite E1. replace (Z.of_nat i + 1) with (Z.of_nat (S i)) by lia. split; [assumption|]. split; [assumption|].
    rewrite H2, H1, (take_S_r _ i v) by (apply list_lookup_insert_eq; lia). now rewrite take_insert_ge, <- app_assoc by lia.
Qed.

Lemma TypedArray_sort_by comp lessThanEqual (le : Z -> Z -> Prop) `{!Transitive le} w : ok w ->
  (forall a b w, comp a b w = (w, inl (typed_default lessThanEqual a b))) ->
  (forall x y, x ∈ numbers w -> y ∈ numbers w -> if typed_default lessThanEqual x y then le x y else le y x) ->
  Z.of_nat (length (numbers w)) < 2 ^ 61 ->
  exists w', TypedArray_sort get setIndexedProperty self (Z.of_nat (length (numbers w))) comp w = Some (w', inl tt) /\ ok w' /\
    numbers w' ≡ₚ numbers w /\ StronglySorted le (numbers w').
Proof.
  intros Hw Hc Hle Hn. unfold TypedArray_sort. destruct (Z.of_nat (length (numbers w)) =? 0) eqn:E; Zbool.
  - exists w. split; [reflexivity|]. split; [assumption|]. split; [reflexivity|]. destruct (numbers w); [constructor|cbn in *; lia].
  - unfold mbind, MU_bind. rewrite Nat2Z.id.
    pose proof (read_all_numbers w (length (numbers w)) Hw 0 (length (numbers w)) [] ltac:(lia) ltac:(lia)) as Er.
    change (Z.of_nat 0) with 0 in Er. rewrite Er, drop_0. cbn [app].
    assert (Hd : decides comp (typed_default lessThanEqual) (numbers w) (fun u => u = w)).
    { intros a b w1 _ _ ->. exists w. now split. }
    destruct (sort_values_by comp _ le (numbers w) _ w Hd Hle Hn eq_refl) as (m & w1 & -> & Hp & Hs & ->).
    destruct (fill_numbers m 0 w Hw) as (w' & Ef & Hok & Hw'); [rewrite Hp; now apply of_type|now rewrite (Permutation_length Hp)|]. exists w'.
    change (Z.of_nat 0) with 0 in Ef. unfold run. rewrite Ef, Hw'. cbn [take app]. auto.
Qed.
End TypedArray.
End SortingFacts.

(** * Properties *)
Module SortProps.
Import Word Heap Effects Memory MergeSort SortSpec SortFacts SortOrder PureSort SortCount Comparisons StructureSpec Structures StructureFacts Objects
  StringFacts PropertyDescriptor Arrays ArraySample Sorting SortingFacts.

(** C18: The merge sort is safe with every comparator, one that contradicts itself,
    throws or gives up included: it never reads or writes outside of the two
    buffers, never reads a cell of the scratch storage that it has not written,
    and ends after at most [n * log2 n] comparisons (rounded up).  When it
    succeeds the array has the elements that it had, in some order. *)
Theorem merge_sort_is_safe {World A} (c : A -> A -> M World (option bool)) (calls : World -> nat)
    (l : list A) (scratch : list (option A)) w :
  (forall a b w, (calls (c a b w).1 <= S (calls w))%nat) -> Z.of_nat (length l) < 2 ^ 61 -> length scratch = length l ->
  exists w' r, mergeSort c (Some <$> l) (Z.of_nat (length l)) scratch w = Some (w', r) /\
    (calls w' <= calls w + length l * Nat.log2_up (length l))%nat /\
    match r with
    | inl (array, true) => exists m, array = Some <$> m /\ m ≡ₚ l
    | inl (array, false) => length array = length l
    | inr _ => True
    end.
Proof.
  intros Hc Hn Hs. pose proof (mergeSort_refines c l scratch w Hn Hs) as Ho.
  pose proof (sort_list_calls c calls Hc l w Hn) as Hcalls.
  destruct (sort_list c l w) as [w' [[m|]|e]] eqn:E; cbn [fst] in Hcalls; unfold outcome_ok in Ho.
  - exists w', (inl (Some <$> m, true)). split; [assumption|]. split; [assumption|]. exists m. split; [reflexivity|].
    now apply sort_list_perm in E.
  - destruct Ho as (dst & Hl & Ho). exists w', (inl (dst, false)). auto.
  - exists w', (inr e). auto.
Qed.

(** C19: With a comparator that decides a strict weak order the merge sort is
    correct and stable: the result is sorted, and elements that are tied keep
    their order.  There is only one such list. *)
Theorem merge_sort_is_stable {World A} (c : A -> A -> M World (option bool)) (before : A -> A -> bool)
    (l : list A) (scratch : list (option A)) w :
  StrictWeak before -> (forall a b w, c a b w = (w, inl (Some (before a b)))) ->
  Z.of_nat (length l) < 2 ^ 61 -> length scratch = length l ->
  exists m, mergeSort c (Some <$> l) (Z.of_nat (length l)) scratch w = Some (w, inl (Some <$> m, true)) /\
    stably_sorted before l m /\ forall m', stably_sorted before l m' -> m' = m.
Proof.
  intros Hb Hc Hn Hs. destruct (mergeSort_stable c before (fun _ => True) (fun w' => w' = w)) with (l := l) (scratch := scratch) (w := w)
    as (m & w' & E & Hm & ->); auto using Forall_true; [intros a b w' _ _ ->; now exists w|].
  exists m. split; [assumption|]. split; [assumption|]. destruct Hm as (Hp & Hso & Ht). intros m' (Hp' & Hso' & Ht').
  apply (sorted_unique before); [now rewrite Hp'|assumption..|]. intros p. now rewrite Ht, Ht'.
Qed.

Section Arrays.
Context {World St : Type} `{StructureOps St}.
Context (isObject : Z -> bool) (isOrdinary : World -> Z -> bool).
Context (hasProperty : Z -> Z -> M World (option (M World Z))) (hasOwnProperty deleteOwnProperty : Z -> Z -> M World bool).
Context (setIndexedProperty : Z -> Z -> Z -> Z -> M World bool).
Context (enumeration : Z -> M World (list Z)) (getPrototype : Z -> M World Z).
Context (h : heap) (natives : gmap Z StructureDescriptor.NativeGetterSetterData).
Context (uint_name : Z -> Z) (alloc_native : StructureDescriptor.NativeGetterSetterData -> Z).
Context (prototypes : list (bool * list Z)) (string_to_index : list Z -> Z).
Context (array_at : World -> Z -> St * Array) (put_array : World -> Z -> St * Array -> World).
Context (call : Z -> Z -> list Z -> M World Z) (toNumber : Z -> M World Z) (toString : Z -> M World (list Z)).

(** C20: Array.prototype.sort of an array in fast mode, with its default
    comparator or with a comparison function, sorts the elements stably by what
    that decides ([less]), with the undefined ones behind them and the holes at
    the end, and leaves everything else of the array as it was.  This holds as
    long as comparing two elements that are neither undefined nor holes succeeds
    (a Symbol has no string to compare, for one), is consistent on the elements
    of the array, and leaves this array alone; anything else it may change. *)
Theorem array_sort_is_correct fuel protos self defaultSort cmpfn less w a values rest :
  (forall w self sa, array_at (put_array w self sa) self = sa) ->
  (forall x y w, x ∈ List.filter compared values -> y ∈ List.filter compared values -> (array_at w self).2 = a -> exists w',
    (if (defaultSort : bool) then vala ← toString x; valb ← toString y; mret (string_less vala valb)
     else ret ← call cmpfn ValueUndefined [x; y]; d ← toNumber ret; mret (flt d (of_Z 0))) w = (w', inl (less x y)) /\
    (array_at w' self).2 = a) ->
  consistent_on (List.filter compared values) less ->
  (array_at w self).2 = a -> m_fastModeData a = Some ((Some <$> values) ++ rest) ->
  m_arrayLength a = Z.of_nat (length values) -> Z.of_nat (length values) < 2 ^ 61 ->
  exists w' m,
    Array_sort isObject isOrdinary hasProperty hasOwnProperty deleteOwnProperty setIndexedProperty enumeration getPrototype
      h natives uint_name alloc_native prototypes string_to_index array_at put_array fuel protos self (m_arrayLength a)
      (array_comparison call toNumber toString defaultSort cmpfn) w
      = Some (w', inl tt) /\
    stably_sorted_on values (array_before less) m /\
    (array_at w' self).2 = with_data a (Some ((Some <$> m) ++ rest)).
Proof.
  intros Hput Hless Hcons Ha Hd Hlen Hn. apply Array_sort_fast; auto using array_before_consistent.
  intros x y w' Hx Hy Hw. apply (array_comparison_before call toNumber toString defaultSort cmpfn less _ x y w' Hw).
  intros Ex Ey. apply Hless; [now apply filter_compared..|assumption].
Qed.
End Arrays.

(** C29: Sorting an object that is not an array in fast mode, which may have gaps
    and inherit indexes from its prototypes: the values found at the indexes below
    the length, its own and the inherited ones, are sorted to the front of the
    object, its own indexes behind them are deleted, and the others stay.  The
    loops skip gaps by the enumeration of the keys of the object and of its
    prototypes, and end within the length.  The object and its prototypes are
    ordinary, their properties are data properties that can be set and deleted,
    and the comparison succeeds, is consistent on the values found and leaves the
    elements alone. *)
Theorem object_sort_is_correct {World} isObject isOrdinary hasProperty hasOwnProperty deleteOwnProperty setIndexedProperty
    enumeration getPrototype self ok (elements : World -> gmap Z Z) inherited protos length comp before w :
  OrdinaryElements isObject isOrdinary hasProperty hasOwnProperty deleteOwnProperty setIndexedProperty enumeration getPrototype
    self ok elements inherited protos ->
  ok w -> 0 <= length <= 2 ^ 53 ->
  let values := present (elements w ∪ inherited) 0 length in
  decides comp before values (fun w' => ok w' /\ elements w' = elements w) -> consistent_on values before ->
  exists w' m,
    Object_sort isObject isOrdinary hasProperty hasOwnProperty deleteOwnProperty setIndexedProperty enumeration getPrototype
      protos self length comp w = Some (w', inl tt) /\
    stably_sorted_on values before m /\ ok w' /\
    forall j, elements w' !! j = if decide (0 <= j < length) then m !! Z.to_nat j else elements w !! j.
Proof. intros He. now apply Object_sort_elements. Qed.

(** C30: The default sort of a typed array is that of ECMA-262: by value, with -0
    before +0 and every NaN at the end, although the comparator is not a strict
    order; in an array of BigInts by the integers that they stand for.  The array
    holds values of its type [T], numbers or BigInts alone, whatever a write does to
    other values; the arrays of integers and of doubles that scripts make of
    [TypedArray] are such ([SortedArrays.reachable_arrays_sort]). *)
Theorem typed_array_sorts_numbers {World} get setIndexedProperty self ok T (numbers : World -> list Z) call toNumber lessThanEqual
    (bigints : bool) big cmpfn w :
  TypedElements get setIndexedProperty self ok T numbers -> ok w ->
  (forall v, T v -> isNumber v = negb bigints) ->
  (forall x y, bigints = true -> T x -> T y -> lessThanEqual x y = (big x <=? big y)) ->
  Z.of_nat (length (numbers w)) < 2 ^ 61 ->
  exists w', TypedArray_sort get setIndexedProperty self (Z.of_nat (length (numbers w)))
      (typed_comparison call toNumber lessThanEqual true cmpfn) w = Some (w', inl tt) /\ ok w' /\
    numbers w' ≡ₚ numbers w /\ StronglySorted (if bigints then big_le big else number_le) (numbers w').
Proof.
  intros He Hw HT Hle Hn. pose proof (proj1 (Forall_forall _ _) (of_type (self := self) get setIndexedProperty w Hw)) as Hty.
  assert (Transitive (if bigints then big_le big else number_le)) by (destruct bigints; apply _).
  apply (TypedArray_sort_by get setIndexedProperty self ok T numbers _ lessThanEqual); auto.
  intros x y Hx%Hty Hy%Hty. destruct bigints; [apply typed_default_big|apply typed_default_le]; auto.
Qed.

(** ** Samples *)

#[export] Instance ltb_weak : StrictWeak Z.ltb.
Proof. split; intros *; rewrite ?Z.ltb_lt, ?Z.ltb_ge; lia. Qed.

(** A comparator that claims of every element that it comes before every
    other, and counts its calls. *)
Definition contradicting (a b : Z) : M nat (option bool) := fun n => (S n, inl (Some true)).
Lemma merge_sort_is_safe_witness : exists w' r,
  mergeSort contradicting (Some <$> [1; 2; 3]) 3 [None; None; None] 0%nat = Some (w', r) /\ (w' <= 6)%nat /\
  match r with inl (array, true) => exists m, array = Some <$> m /\ m ≡ₚ [1; 2; 3] | inl (array, false) => length array = 3%nat | inr _ => True end.
Proof. apply (merge_sort_is_safe contradicting id [1; 2; 3] [None; None; None] 0%nat); [intros; cbn; lia|cbn; lia|reflexivity]. Defined.

Lemma merge_sort_is_stable_witness : exists m,
  mergeSort (fun a b w => (w, inl (Some (a <? b)))) (Some <$> [3; 1; 2]) 3 [None; None; None] tt = Some (tt, inl (Some <$> m, true)) /\
  stably_sorted Z.ltb [3; 1; 2] m /\ forall m', stably_sorted Z.ltb [3; 1; 2] m' -> m' = m.
Proof.
  apply (merge_sort_is_stable (fun a b w => (w, inl (Some (a <? b)))) Z.ltb [3; 1; 2] [None; None; None] tt);
    [apply ltb_weak|reflexivity|cbn; lia|reflexivity].
Defined.

(** The array [["a", undefined, , "0"]] with one unused cell, and its sort; the
    parts that only arrays outside of the fast mode use do nothing. *)
Definition sort_object : Object := mkObject 0 None [] true true.
Definition unsorted : Array :=
  mkArray sort_object 4 (Some [Some 384; Some ValueUndefined; Some ValueEmpty; Some 128; None]) None.
Definition text_of (v : Z) : list Z := if v =? 384 then [97] else [48].
Definition sort_array (comp : Z -> Z -> M (Store * Array) bool) (w : Store * Array) : option ((Store * Array) * (unit + Thrown)) :=
  Array_sort (H := store_ops array_heap false ∅ 65) (fun _ => false) (fun _ _ => true) (fun _ _ => mret None) (fun _ _ => mret false)
    (fun _ _ => mret false) (fun _ _ _ _ => mret true) (fun _ => mret []) (fun _ => mret ValueNull)
    array_heap ∅ array_uint_name (fun _ => 0) [] dec_value (fun w _ => w) (fun _ _ sa => sa) 4 1 1008 (m_arrayLength w.2) comp w.
Definition by_text : Z -> Z -> M (Store * Array) bool :=
  array_comparison (fun _ _ _ => mret ValueUndefined) (fun _ => mret 0) (fun v => mret (text_of v)) true ValueUndefined.

Lemma array_sort_is_correct_witness : exists w m,
  sort_array by_text (array_store, unsorted) = Some (w, inl tt) /\
  stably_sorted_on [384; ValueUndefined; ValueEmpty; 128] (array_before (fun a b => lex_compare (text_of a) (text_of b) <? 0)) m /\
  w.2 = with_data unsorted (Some ((Some <$> m) ++ [None])).
Proof.
  apply (array_sort_is_correct (H := store_ops array_heap false ∅ 65) (World := Store * Array)) with (a := unsorted);
    [reflexivity| |apply weak_consistent, string_weak|reflexivity..].
  intros a b w _ _ Hw. exists w. unfold mbind, M_bind, mret, M_ret, string_less.
  rewrite stringCompare_spec; [now split|..]; unfold text_of; destruct (_ =? _); cbn; lia.
Defined.
Example array_sort_result :
  sort_array by_text (array_store, unsorted)
  = Some ((array_store, with_data unsorted (Some [Some 128; Some 384; Some ValueUndefined; Some ValueEmpty; None])), inl tt).
Proof. vm_compute. reflexivity. Qed.

(** An object with the indexes 2, 5 and 100, as its state, and a prototype that
    has the index 4. *)
Definition sparse : gmap Z Z := list_to_map [(2, 30); (5, 10); (100, 7)].
Definition proto_elements : gmap Z Z := {[4 := 20]}.
Definition sparse_keys (ptr : Z) : M (gmap Z Z) (list Z) := fun w =>
  (w, inl (if ptr =? 8 then (map_to_list w).*1 else [4])).
Definition sparse_proto (ptr : Z) : M (gmap Z Z) Z := fun w => (w, inl (if ptr =? 8 then 16 else ValueNull)).
Definition sparse_object (v : Z) : bool := (v =? 8) || (v =? 16).
Definition sparse_has (_ k : Z) : M (gmap Z Z) (option (M (gmap Z Z) Z)) := fun w =>
  (w, inl ((fun v w => (w, inl v)) <$> (w ∪ proto_elements) !! k)).
Lemma sparse_elements : OrdinaryElements (World := gmap Z Z) sparse_object (fun _ _ => true) sparse_has
  (fun _ k w => (w, inl (bool_decide (is_Some (w !! k))))) (fun _ k w => (delete k w, inl true))
  (fun _ k v _ w => (<[k := v]> w, inl true)) sparse_keys sparse_proto 8 (fun _ => True) id proto_elements 2.
Proof.
  split; intros; try reflexivity; eauto. exists [(map_to_list w).*1; [4]]. split; [discriminate|]. split; [cbn; lia|]. split.
  - repeat (split; [reflexivity|]). exists 16. split; [reflexivity|]. repeat (split; [reflexivity|]). exists ValueNull. now split.
  - intros k [v [Hv|(_ & Hv)]%lookup_union_Some_raw].
    + eexists. split; [apply list_elem_of_here|]. apply list_elem_of_fmap. exists (k, v). split; [reflexivity|]. now apply elem_of_map_to_list.
    + exists [4]. unfold proto_elements in Hv. apply lookup_singleton_Some in Hv as [<- _]. split; [set_solver|constructor].
Qed.
Lemma object_sort_is_correct_witness : exists w m,
  Object_sort (World := gmap Z Z) sparse_object (fun _ _ => true) sparse_has
    (fun _ k w => (w, inl (bool_decide (is_Some (w !! k))))) (fun _ k w => (delete k w, inl true))
    (fun _ k v _ w => (<[k := v]> w, inl true)) sparse_keys sparse_proto
    2 8 10 (fun a b w => (w, inl (a <? b))) sparse = Some (w, inl tt) /\
  stably_sorted_on (present (sparse ∪ proto_elements) 0 10) Z.ltb m /\ True /\
  forall j, w !! j = if decide (0 <= j < 10) then m !! Z.to_nat j else sparse !! j.
Proof.
  apply (object_sort_is_correct _ _ _ _ _ _ _ _ 8 (fun _ => True) id proto_elements 2 10 (fun a b w => (w, inl (a <? b))) Z.ltb sparse
    sparse_elements); [done|lia|intros a b w _ _ Hw; now exists w|apply weak_consistent, ltb_weak].
Defined.
Example object_sort_result :
  map_to_list <$> (fst <$> Object_sort (World := gmap Z Z) sparse_object (fun _ _ => true) sparse_has
    (fun _ k w => (w, inl (bool_decide (is_Some (w !! k))))) (fun _ k w => (delete k w, inl true))
    (fun _ k v _ w => (<[k := v]> w, inl true)) sparse_keys sparse_proto
    2 8 10 (fun a b w => (w, inl (a <? b))) sparse)
  = Some (map_to_list (list_to_map [(0, 10); (1, 20); (2, 30); (100, 7)] : gmap Z Z)).
Proof. vm_compute. reflexivity. Qed.

(** The numbers 3, NaN, 0 and -0. *)
Definition unsorted_numbers : list Z := [Value_int 3; Value_EncodeAsDouble NAN; Value_int 0; Value_EncodeAsDouble (2 ^ 63)].
(** A write converts what is not a number to 0. *)
Definition put_number (_ i v _ : Z) : M (list Z) bool := fun w => (<[Z.to_nat i := if isNumber v then v else Value_int 0]> w, inl true).
Definition get_element (_ i : Z) : M (list Z) Z := fun w => (w, inl (default 0 (w !! Z.to_nat i))).
Definition all_numbers (w : list Z) : Prop := Forall (fun v => isNumber v = true) w.
Lemma list_elements : TypedElements (World := list Z) get_element put_number 8 all_numbers (fun v => isNumber v = true) id.
Proof.
  unfold all_numbers, id. split; intros; unfold get_element, put_number; rewrite ?Nat2Z.id; [assumption|now rewrite H0|].
  rewrite H0. eexists _, true. split; [reflexivity|]. split; [now apply Forall_insert|reflexivity].
Qed.
Lemma typed_array_sorts_numbers_witness : exists w,
  TypedArray_sort (World := list Z) get_element put_number
    8 4 (typed_comparison (fun _ _ _ => mret 0) (fun _ => mret 0) Z.leb true 0) unsorted_numbers = Some (w, inl tt) /\
  all_numbers w /\ w ≡ₚ unsorted_numbers /\ StronglySorted number_le w.
Proof.
  apply (typed_array_sorts_numbers _ _ 8 all_numbers _ id _ _ _ false id _ unsorted_numbers list_elements);
    [repeat constructor|auto|discriminate|reflexivity].
Defined.
Example typed_sort_result :
  TypedArray_sort (World := list Z) get_element put_number
    8 4 (typed_comparison (fun _ _ _ => mret 0) (fun _ => mret 0) Z.leb true 0) unsorted_numbers
  = Some ([Value_EncodeAsDouble (2 ^ 63); Value_int 0; Value_int 3; Value_EncodeAsDouble NAN], inl tt).
Proof. vm_compute. reflexivity. Qed.

(** A comparison function that runs [a.length = 0], makes the length of the
    array not writable, and returns 0. *)
Definition fixing_length (cmpfn this : Z) (args : list Z) : M (Store * Array) Z := fun '(s, a) =>
  let define := array_defineOwnProperty (H := store_ops array_heap false ∅ 65) array_heap ∅ array_uint_name (fun _ => 0) 65 (fun _ => 0)
    1008 [] dec_value 4 in
  match '(s, a, _) ← define s a (PName 65) (of_value (Value_int 0) 0);
        define s a (PName 65) (mkDescriptor true NonWritablePresent (SlotValue ValueEmpty)) with
  | Ok (s, a, _) => ((s, a), inl (Value_int 0))
  | _ => ((s, a), inr ThrownTypeError)
  end.

(** The length cannot be restored then, which is not noticed: the array stays
    in fast mode with its empty buffer, and the values are written behind its end. *)
Example sort_writes_outside_buffer :
  sort_array (array_comparison fixing_length (fun v => mret (asNumber v)) (fun _ => mret []) false 1008) (array_store, array_sample) = None /\
  let '((s, a), _) := fixing_length 1008 ValueUndefined [] (array_store, array_sample) in
  m_fastModeData a = Some [] /\
  restore_length (H := store_ops array_heap false ∅ 65) array_heap ∅ array_uint_name (fun _ => 0) [] dec_value 4 1008 3 s a = Ok (s, a).
Proof. vm_compute. repeat split; reflexivity. Qed.

End SortProps.
