(* ===== verification/ArrayBuffer.v ===== *)
(** Array buffers and their views ([runtime/BackingStore.h], [BackingStore.cpp],
    [runtime/ArrayBuffer.h], [runtime/ArrayBufferObject.h], [ArrayBufferObject.cpp],
    [runtime/SharedArrayBufferObject.cpp], [builtins/BuiltinArrayBuffer.cpp],
    [builtins/BuiltinSharedArrayBuffer.cpp]): blocks of memory, the stores that
    own them, the buffers over the stores, the views over the buffers, and the
    observers by which a view learns of the new address and length of its store.
    A view caches an address; the theorems are about that cache: it never leads
    outside of the memory of its buffer, and the lengths are those that ECMA-262
    computes from the buffer at each access. *)
From Stdlib Require Import ZArith Lia Bool.
From stdpp Require Import base numbers list option decidable gmap.
From S2P Require Import Prelude Effects Double Value.

(** * The state *)
Module Buffers.
Import Effects.

Inductive TypedArrayType :=
  | Int8 | Int16 | Int32 | Uint8 | Uint16 | Uint32 | Uint8Clamped
  | Float16 | Float32 | Float64 | BigInt64 | BigUint64.

(** [elementSizeTable], by the number of the type. *)
Definition typeNumber (t : TypedArrayType) : nat :=
  match t with
  | Int8 => 0 | Int16 => 1 | Int32 => 2 | Uint8 => 3 | Uint16 => 4 | Uint32 => 5 | Uint8Clamped => 6
  | Float16 => 7 | Float32 => 8 | Float64 => 9 | BigInt64 => 10 | BigUint64 => 11
  end%nat.
Definition elementSizeTable : list Z := [1; 2; 4; 1; 2; 4; 1; 2; 4; 8; 8; 8].
Definition type_elementSize (t : TypedArrayType) : Z := default 0 (elementSizeTable !! typeNumber t).

(** A block of memory that was allocated, as bytes.  An address is a block and an
    offset; a null pointer is [None]. *)
Record Block := mkBlock { cells : list Z; freed : bool }.
Definition Addr : Type := nat * Z.

Record NonSharedBackingStore := mkNonShared {
  n_data : option nat;
  n_byteLength : Z;
  n_maxByteLength : Z;
  n_isAllocatedByPlatform : bool;
  n_isResizable : bool;
  n_gcDisclaimAlive : bool
}.
(** Growable blocks carry their limit. *)
Record SharedDataBlockInfo := mkInfo {
  i_data : option nat;
  i_byteLength : Z;
  i_refCount : Z;
  i_growable : option Z
}.
Inductive StoreKind :=
  | NonShared (s : NonSharedBackingStore)
  | Shared (m_sharedDataBlockInfo : option nat).
(** The observers of a store are buffers, those of a buffer are views; an entry
    that was removed stays as an empty slot. *)
Record BackingStore := mkStore { kind : StoreKind; s_observers : list (option nat) }.

Record ArrayBuffer := mkBuffer {
  m_isResizable : bool;
  m_backingStore : option nat;
  b_observers : list (option nat);
  isShared : bool
}.

Inductive ViewKind := TypedArray (t : TypedArrayType) | DataView.
Record ArrayBufferView := mkView {
  v_kind : ViewKind;
  m_buffer : option nat;
  m_cachedRawBufferAddress : option Addr;
  m_byteLength : Z;
  m_byteOffset : Z;
  m_arrayLength : Z;
  m_originalByteLength : Z;
  m_originalByteOffset : Z;
  m_auto : bool;
  m_wasResetByInvalidByteLength : bool
}.

Record World := mkWorld {
  blocks : list Block;
  infos : list SharedDataBlockInfo;
  stores : list BackingStore;
  buffers : list ArrayBuffer;
  views : list ArrayBufferView
}.
Definition upd_blocks f w := mkWorld (f (blocks w)) (infos w) (stores w) (buffers w) (views w).
Definition upd_infos f w := mkWorld (blocks w) (f (infos w)) (stores w) (buffers w) (views w).
Definition upd_stores f w := mkWorld (blocks w) (infos w) (f (stores w)) (buffers w) (views w).
Definition upd_buffers f w := mkWorld (blocks w) (infos w) (stores w) (f (buffers w)) (views w).
Definition upd_views f w := mkWorld (blocks w) (infos w) (stores w) (buffers w) (f (views w)).

(** [elementSize]: overridden by typed arrays. *)
Definition elementSize (v : ArrayBufferView) : Z :=
  match v_kind v with TypedArray t => type_elementSize t | DataView => 1 end.

(** * Observers *)

(** [addObserver] takes the first empty slot. *)
Fixpoint addObserver (from : nat) (items : list (option nat)) : list (option nat) :=
  match items with
  | [] => [Some from]
  | None :: items => Some from :: items
  | Some x :: items => Some x :: addObserver from items
  end.
Fixpoint removeObserver (from : nat) (items : list (option nat)) : list (option nat) :=
  match items with
  | [] => []
  | Some x :: items => if decide (x = from) then None :: items else Some x :: removeObserver from items
  | None :: items => None :: removeObserver from items
  end.
(** The loop of [bufferUpdated]. *)
Definition notify (callback : nat -> World -> World) (items : list (option nat)) (w : World) : World :=
  fold_left (fun w item => match item with Some from => callback from w | None => w end) items w.

(** * Reading stores and buffers *)
Definition store_info (w : World) (s : BackingStore) : option SharedDataBlockInfo :=
  match kind s with Shared (Some i) => infos w !! i | _ => None end.
Definition store_data (w : World) (s : BackingStore) : option nat :=
  match kind s with NonShared n => n_data n | Shared _ => store_info w s ≫= i_data end.
Definition store_byteLength (w : World) (s : BackingStore) : Z :=
  match kind s with NonShared n => n_byteLength n | Shared _ => default 0 (i_byteLength <$> store_info w s) end.
Definition store_isResizable (w : World) (s : BackingStore) : bool :=
  match kind s with
  | NonShared n => n_isResizable n
  | Shared _ => match store_info w s ≫= i_growable with Some _ => true | None => false end
  end.
Definition store_maxByteLength (w : World) (s : BackingStore) : Z :=
  match kind s with NonShared n => n_maxByteLength n | Shared _ => default 0 (store_info w s ≫= i_growable) end.

Definition the_store (w : World) (b : nat) : option nat :=
  match buffers w !! b with Some x => m_backingStore x | None => None end.
Definition backingStore (w : World) (b : nat) : option BackingStore :=
  match the_store w b with Some s => stores w !! s | None => None end.
Definition data (w : World) (b : nat) : option nat := backingStore w b ≫= store_data w.
Definition byteLength (w : World) (b : nat) : Z := default 0 (store_byteLength w <$> backingStore w b).
Definition maxByteLength (w : World) (b : nat) : Z := default 0 (store_maxByteLength w <$> backingStore w b).
Definition isDetachedBuffer (w : World) (b : nat) : bool :=
  match the_store w b with Some _ => false | None => true end.
Definition isResizableArrayBuffer (w : World) (b : nat) : bool := default false (m_isResizable <$> buffers w !! b).


(** * Views *)

(** The five fields that a view updates. *)
Definition with_cache (v : ArrayBufferView) address byteLength byteOffset arrayLength wasReset : ArrayBufferView :=
  mkView (v_kind v) (m_buffer v) address byteLength byteOffset arrayLength
    (m_originalByteLength v) (m_originalByteOffset v) (m_auto v) wasReset.

(** [updateBufferCallback], with the override of DataView. *)
Definition updateBufferCallback (w : World) (self : ArrayBufferView) (bufferStartAddress : option nat) : ArrayBufferView :=
  let bufferStartAddress :=
    match v_kind self, m_buffer self with
    | DataView, Some b => if byteLength w b <? m_byteLength self then None else bufferStartAddress
    | _, _ => bufferStartAddress
    end in
  with_cache self ((fun a => (a, m_byteOffset self)) <$> bufferStartAddress)
    (m_byteLength self) (m_byteOffset self) (m_arrayLength self) (m_wasResetByInvalidByteLength self).

(** [arrayBufferObserver] on the view itself. *)
Definition observe (w : World) (self : ArrayBufferView) (newAddress : option nat) (newByteLength : Z) : ArrayBufferView :=
  let offset := m_originalByteOffset self in
  let end_ := u64 (offset + m_originalByteLength self) in
  let reset := if m_auto self then newByteLength <? offset else newByteLength <? end_ in
  let '(self, newAddress) :=
    if reset then (with_cache self (m_cachedRawBufferAddress self) 0 0 0 true, None)
    else if m_auto self then
      let byteLength :=
        if offset <? newByteLength then (newByteLength - offset) / elementSize self * elementSize self else 0 in
      (with_cache self (m_cachedRawBufferAddress self) byteLength offset (byteLength / elementSize self) false, newAddress)
    else if default false (isResizableArrayBuffer w <$> m_buffer self) && (end_ <=? newByteLength) then
      (with_cache self (m_cachedRawBufferAddress self) (m_originalByteLength self) offset
         (m_originalByteLength self / elementSize self) false, newAddress)
    else
      (with_cache self (m_cachedRawBufferAddress self) (m_byteLength self) (m_byteOffset self) (m_arrayLength self) false,
       newAddress) in
  let newAddress := if newByteLength =? 0 then None else newAddress in
  updateBufferCallback w self newAddress.

Definition arrayBufferObserver (newAddress : option nat) (newByteLength : Z) (from : nat) (w : World) : World :=
  upd_views (alter (fun self => observe w self newAddress newByteLength) from) w.

(** [bufferUpdated] of a buffer, which is also the observer of its store. *)
Definition backingStoreObserver (newAddress : option nat) (newByteLength : Z) (from : nat) (w : World) : World :=
  match buffers w !! from with
  | Some b => notify (arrayBufferObserver newAddress newByteLength) (b_observers b) w
  | None => w
  end.
(** [bufferUpdated] of a store. *)
Definition store_bufferUpdated (s : nat) (newAddress : option nat) (newByteLength : Z) (w : World) : World :=
  match stores w !! s with
  | Some x => notify (backingStoreObserver newAddress newByteLength) (s_observers x) w
  | None => w
  end.

Definition set_observers (f : list (option nat) -> list (option nat)) (x : BackingStore) : BackingStore :=
  mkStore (kind x) (f (s_observers x)).
Definition set_store (bs : option nat) (x : ArrayBuffer) : ArrayBuffer :=
  mkBuffer (m_isResizable x) bs (b_observers x) (isShared x).
Definition set_isResizable (r : bool) (x : ArrayBuffer) : ArrayBuffer :=
  mkBuffer r (m_backingStore x) (b_observers x) (isShared x).
Definition set_b_observers (f : list (option nat) -> list (option nat)) (x : ArrayBuffer) : ArrayBuffer :=
  mkBuffer (m_isResizable x) (m_backingStore x) (f (b_observers x)) (isShared x).

Definition updateBackingStore (b : nat) (bs : option nat) (w : World) : World :=
  let w :=
    match the_store w b with
    | Some old => upd_stores (alter (set_observers (removeObserver b)) old) w
    | None => w
    end in
  let w := upd_buffers (alter (set_store bs) b) w in
  match bs with
  | Some s =>
      let w := upd_stores (alter (set_observers (addObserver b)) s) w in
      let w := backingStoreObserver (data w b) (byteLength w b) b w in
      upd_buffers (alter (set_isResizable (default false (store_isResizable w <$> stores w !! s))) b) w
  | None => backingStoreObserver None 0 b w
  end.

Definition setBuffer (v : nat) (bo : option nat) (byteOffset byteLength arrayLength : Z) (isAuto : bool) (w : World) : World :=
  let w :=
    match m_buffer <$> views w !! v with
    | Some (Some old) => upd_buffers (alter (set_b_observers (removeObserver v)) old) w
    | _ => w
    end in
  let fresh (self : ArrayBufferView) :=
    mkView (v_kind self) bo (m_cachedRawBufferAddress self) byteLength byteOffset arrayLength byteLength byteOffset isAuto
      (m_wasResetByInvalidByteLength self) in
  let w := upd_views (alter fresh v) w in
  let address := match bo with Some b => data w b | None => None end in
  let w := upd_views (alter (fun self => updateBufferCallback w self address) v) w in
  match bo with
  | Some b => upd_buffers (alter (set_b_observers (addObserver v)) b) w
  | None => w
  end.

(** The constructor of a view. *)
Definition create_view (k : ViewKind) : MU World nat := fun w =>
  Some (upd_views (fun l => l ++ [mkView k None None 0 0 0 0 0 false false]) w, inl (length (views w))).

(** * Memory *)

(** An access must be within a block that is not freed; no byte can be accessed
    at any address. *)
Definition accessible (w : World) (a : Addr) (n : Z) : bool :=
  match blocks w !! a.1 with
  | Some blk => negb (freed blk) && (0 <=? a.2) && (a.2 + n <=? Z.of_nat (length (cells blk)))
  | None => false
  end.
Definition load_bytes (a : option Addr) (n : Z) : MU World (list Z) := fun w =>
  if n =? 0 then Some (w, inl [])
  else match a with
       | Some a =>
           if accessible w a n then
             Some (w, inl (take (Z.to_nat n) (drop (Z.to_nat a.2) (default [] (cells <$> blocks w !! a.1)))))
           else None
       | None => None
       end.
Definition write_cells (off : Z) (bytes : list Z) (blk : Block) : Block :=
  mkBlock (take (Z.to_nat off) (cells blk) ++ bytes ++ drop (Z.to_nat off + length bytes) (cells blk)) (freed blk).
Definition store_bytes (a : option Addr) (bytes : list Z) : MU World unit := fun w =>
  match bytes with
  | [] => Some (w, inl tt)
  | _ =>
      match a with
      | Some a =>
          if accessible w a (Z.of_nat (length bytes)) then
            Some (upd_blocks (alter (write_cells a.2 bytes) a.1) w, inl tt)
          else None
      | None => None
      end
  end.

(** [onMallocArrayBufferObjectDataBuffer] and its companions, as the default
    [PlatformRef] has them; whether [calloc] gives an address for no bytes is up
    to the C library. *)
Section Platform.
Variable null_when_empty : bool.

Definition onMalloc (n : Z) : MU World (option nat) := fun w =>
  if (n =? 0) && null_when_empty then Some (w, inl None)
  else Some (upd_blocks (fun l => l ++ [mkBlock (replicate (Z.to_nat n) 0) false]) w, inl (Some (length (blocks w)))).
Definition free_block (blk : Block) : Block := mkBlock (cells blk) true.
(** A block is freed once. *)
Definition onFree (d : option nat) : MU World unit := fun w =>
  match d with
  | None => Some (w, inl tt)
  | Some a =>
      match blocks w !! a with
      | Some blk => if freed blk then None else Some (upd_blocks (alter free_block a) w, inl tt)
      | None => None
      end
  end.
(** [realloc], then zeros where the block has grown. *)
Definition onRealloc (old : option nat) (oldSize newSize : Z) : MU World (option nat) :=
  bytes ← load_bytes ((fun a => (a, 0)) <$> old) (Z.min oldSize newSize);
  ptr ← onMalloc newSize;
  store_bytes ((fun a => (a, 0)) <$> ptr) bytes;;
  onFree old;;
  mret ptr.

(** * Stores *)
Definition new_store (k : StoreKind) : MU World nat := fun w =>
  Some (upd_stores (fun l => l ++ [mkStore k []]) w, inl (length (stores w))).
Definition set_kind (k : StoreKind) (x : BackingStore) : BackingStore := mkStore k (s_observers x).

Definition createDefaultNonSharedBackingStore (n : Z) : MU World nat :=
  d ← onMalloc n;
  new_store (NonShared (mkNonShared d n 0 true false true)).
Definition createDefaultResizableNonSharedBackingStore (n max : Z) : MU World nat :=
  d ← onMalloc max;
  new_store (NonShared (mkNonShared d n max true true true)).
(** Memory of the embedder, who gives a block and its size. *)
Definition createNonSharedBackingStore (d : option nat) (n : Z) : MU World nat :=
  new_store (NonShared (mkNonShared d n 0 false false true)).

Definition info_ref (i : nat) : MU World unit :=
  modify (upd_infos (alter (fun x => mkInfo (i_data x) (i_byteLength x) (i_refCount x + 1) (i_growable x)) i)).
Definition info_deref (i : nat) : MU World unit :=
  w ← gets id;
  x ← certain (infos w !! i);
  (if 0 <? i_refCount x then mret tt else certain None);;
  modify (upd_infos (alter (fun x => mkInfo (i_data x) (i_byteLength x) (i_refCount x - 1) (i_growable x)) i));;
  if i_refCount x =? 1 then
    onFree (i_data x);;
    modify (upd_infos (alter (fun x => mkInfo None 0 (i_refCount x) (i_growable x)) i))
  else mret tt.
Definition createSharedBackingStore (i : nat) : MU World nat :=
  info_ref i;;
  new_store (Shared (Some i)).
Definition new_info (d : option nat) (n : Z) (growable : option Z) : MU World nat := fun w =>
  Some (upd_infos (fun l => l ++ [mkInfo d n 0 growable]) w, inl (length (infos w))).
Definition createDefaultSharedBackingStore (n : Z) : MU World nat :=
  d ← onMalloc n;
  i ← new_info d n None;
  createSharedBackingStore i.
Definition createDefaultGrowableSharedBackingStore (n max : Z) : MU World nat :=
  d ← onMalloc max;
  i ← new_info d n (Some max);
  createSharedBackingStore i.

(** The finalizers of both kinds of stores. *)
Definition clearBackingStore (s : nat) : MU World unit :=
  w ← gets id;
  x ← certain (stores w !! s);
  match kind x with
  | NonShared n =>
      if n_gcDisclaimAlive n then
        onFree (n_data n);;
        modify (upd_stores (alter (set_kind (NonShared
          (mkNonShared (n_data n) (n_byteLength n) (n_maxByteLength n) (n_isAllocatedByPlatform n) (n_isResizable n) false))) s))
      else mret tt
  | Shared (Some i) =>
      info_deref i;;
      modify (upd_stores (alter (set_kind (Shared None)) s))
  | Shared None => mret tt
  end.

(** [resize] of both kinds; what is asserted must hold. *)
Definition resize (s : nat) (newByteLength : Z) : MU World unit :=
  w ← gets id;
  x ← certain (stores w !! s);
  (if store_isResizable w x && (newByteLength <=? store_maxByteLength w x) then mret tt else certain None);;
  match kind x with
  | NonShared n =>
      (if n_byteLength n <? newByteLength then
         store_bytes ((fun a => (a, n_byteLength n)) <$> n_data n) (replicate (Z.to_nat (newByteLength - n_byteLength n)) 0)
       else mret tt);;
      modify (upd_stores (alter (set_kind (NonShared
        (mkNonShared (n_data n) newByteLength (n_maxByteLength n) (n_isAllocatedByPlatform n) (n_isResizable n)
           (n_gcDisclaimAlive n)))) s));;
      modify (store_bufferUpdated s (n_data n) newByteLength)
  | Shared (Some i) =>
      modify (upd_infos (alter (fun x => mkInfo (i_data x) newByteLength (i_refCount x) (i_growable x)) i));;
      w ← gets id;
      x ← certain (stores w !! s);
      modify (store_bufferUpdated s (store_data w x) (store_byteLength w x))
  | Shared None => certain None
  end.

Definition reallocate (s : nat) (newByteLength : Z) : MU World unit :=
  w ← gets id;
  x ← certain (stores w !! s);
  match kind x with
  | NonShared n =>
      if n_byteLength n =? newByteLength then mret tt
      else
        d ← (if n_isAllocatedByPlatform n then onRealloc (n_data n) (n_byteLength n) newByteLength
             else onFree (n_data n);; onMalloc newByteLength);
        modify (upd_stores (alter (set_kind (NonShared
          (mkNonShared d newByteLength (n_maxByteLength n) true (n_isResizable n) (n_gcDisclaimAlive n)))) s));;
        modify (store_bufferUpdated s d newByteLength)
  | Shared _ => certain None
  end.

(** * Buffers *)
Definition maxArrayBufferSize : Z := 210000000.

Definition throwTypeErrorIfDetached (b : nat) : MU World unit :=
  w ← gets id; throw_if (isDetachedBuffer w b) ThrownTypeError.

(** The constructor of a buffer object. *)
Definition new_buffer (shared : bool) : MU World nat := fun w =>
  Some (upd_buffers (fun l => l ++ [mkBuffer false None [] shared]) w, inl (length (buffers w))).

Definition detachArrayBuffer (b : nat) : MU World unit := modify (updateBackingStore b None).
Definition attachBuffer (b s : nat) : MU World unit :=
  w ← gets id;
  x ← certain (stores w !! s);
  match kind x with NonShared _ => mret tt | Shared _ => certain None end;;
  detachArrayBuffer b;;
  modify (updateBackingStore b (Some s)).
Definition allocateBuffer (b : nat) (n : Z) : MU World unit :=
  detachArrayBuffer b;;
  s ← createDefaultNonSharedBackingStore n;
  modify (updateBackingStore b (Some s)).
Definition allocateResizableBuffer (b : nat) (n max : Z) : MU World unit :=
  detachArrayBuffer b;;
  s ← createDefaultResizableNonSharedBackingStore n max;
  modify (updateBackingStore b (Some s)).

(** The two constructors of shared buffers over new memory, and the one over the
    memory of another store. *)
Definition new_SharedArrayBufferObject (n : Z) (max : option Z) : MU World nat :=
  b ← new_buffer true;
  s ← match max with
      | None => createDefaultSharedBackingStore n
      | Some max => createDefaultGrowableSharedBackingStore n max
      end;
  modify (updateBackingStore b (Some s));;
  mret b.
Definition new_SharedArrayBufferObject_over (i : nat) : MU World nat :=
  b ← new_buffer true;
  s ← createSharedBackingStore i;
  modify (updateBackingStore b (Some s));;
  mret b.

(** [getPrototypeFromConstructor] can run a getter: [proto]. *)
Definition allocateArrayBuffer (proto : MU World unit) (n : Z) (max : option Z) (resizable : bool) : MU World nat :=
  proto;;
  throw_if (maxArrayBufferSize <=? n) ThrownRangeError;;
  b ← new_buffer false;
  match max with
  | Some maxLength =>
      throw_if (maxArrayBufferSize <=? maxLength) ThrownRangeError;;
      (if resizable then allocateResizableBuffer b n maxLength else allocateBuffer b n);;
      mret b
  | None => allocateBuffer b n;; mret b
  end.
Definition allocateExternalArrayBuffer (d : option nat) (n : Z) : MU World nat :=
  throw_if (maxArrayBufferSize <=? n) ThrownRangeError;;
  s ← createNonSharedBackingStore d n;
  b ← new_buffer false;
  modify (updateBackingStore b (Some s));;
  mret b.
Definition allocateSharedArrayBuffer (proto : MU World unit) (n : Z) (max : option Z) : MU World nat :=
  proto;;
  throw_if (maxArrayBufferSize <=? n) ThrownRangeError;;
  match max with
  | Some maxLength =>
      throw_if (maxArrayBufferSize <=? maxLength) ThrownRangeError;;
      new_SharedArrayBufferObject n (Some maxLength)
  | None => new_SharedArrayBufferObject n None
  end.

(** [fillData] from the address of another block. *)
Definition fillData (b : nat) (newData : option Addr) (n : Z) : MU World unit :=
  bytes ← load_bytes newData n;
  w ← gets id;
  store_bytes ((fun a => (a, 0)) <$> data w b) bytes.

(** [p + n] for a pointer. *)
Definition plus (d : option nat) (n : Z) : option Addr := (fun a => (a, n)) <$> d.

Definition cloneArrayBuffer (proto : MU World unit) (srcBuffer : nat) (srcByteOffset srcLength : Z) : MU World nat :=
  b ← allocateArrayBuffer proto srcLength None true;
  throwTypeErrorIfDetached srcBuffer;;
  w ← gets id;
  fillData b (plus (data w srcBuffer) srcByteOffset) srcLength;;
  mret b.

End Platform.

(** * Numbers of the builtins *)

(** [std::max] and [std::min] on doubles, and the conversion to [size_t], which
    is defined for the values it can hold. *)
Definition std_max (a b : Z) : Z := if flt a b then b else a.
Definition std_min (a b : Z) : Z := if flt b a then b else a.
Definition cast_size_t (d : Z) : option Z :=
  if is_finite d && (0 <=? to_Z d) && (to_Z d <? 2 ^ 64) then Some (to_Z d) else None.
Definition cast_int (d : Z) : option Z :=
  if is_finite d && (- 2 ^ 31 <=? to_Z d) && (to_Z d <? 2 ^ 31) then Some (to_Z d) else None.
(** [(r < 0) ? std::max(len + r, 0.0) : std::min(r, len)] *)
Definition relative (r len : Z) : Z := if flt r 0 then std_max (fadd len r) 0 else std_min r len.

(** * Builtins

    Arguments are computations: converting one can run script code. *)
Section Builtins.
Variable null_when_empty : bool.

(** [toIndex] with the check that follows it. *)
Definition checked_index (toIndex : MU World Z) : MU World Z :=
  i ← toIndex;
  throw_if (i =? Word.InvalidIndexValue) ThrownRangeError;;
  mret i.

(** [maxOption]: the property [maxByteLength] of the options, converted, unless it is
    undefined or there are no options. *)
Definition builtinArrayBufferConstructor (toIndex : MU World Z) (maxOption : MU World (option Z)) (proto : MU World unit)
  : MU World nat :=
  byteLength ← checked_index toIndex;
  max ← maxOption;
  throw_if match max with Some m => (m =? Word.InvalidIndexValue) || (m <? byteLength) | None => false end ThrownRangeError;;
  allocateArrayBuffer null_when_empty proto byteLength max true.

Definition builtinSharedArrayBufferConstructor (toIndex : MU World Z) (maxOption : MU World (option Z)) (proto : MU World unit)
  : MU World nat :=
  byteLength ← checked_index toIndex;
  max ← maxOption;
  throw_if match max with Some m => (m =? Word.InvalidIndexValue) || (m <? byteLength) | None => false end ThrownRangeError;;
  allocateSharedArrayBuffer null_when_empty proto byteLength max.

(** The receiver of a method: a number that is no buffer stands for another object. *)
Definition resolve_this (shared : bool) (this : nat) : MU World nat :=
  w ← gets id;
  match buffers w !! this with
  | Some x => throw_if (negb (Bool.eqb (isShared x) shared)) ThrownTypeError;; mret this
  | None => throw ThrownTypeError
  end.

Definition is_buffer (w : World) (b : nat) : bool := match buffers w !! b with Some _ => true | None => false end.

Definition builtinArrayBufferByteLengthGetter (this : nat) : MU World Z :=
  obj ← resolve_this false this;
  w ← gets id;
  mret (if isDetachedBuffer w obj then 0 else byteLength w obj).
Definition builtinArrayBufferMaxByteLengthGetter (this : nat) : MU World Z :=
  obj ← resolve_this false this;
  w ← gets id;
  mret (if isDetachedBuffer w obj then 0
        else if isResizableArrayBuffer w obj then maxByteLength w obj else byteLength w obj).
Definition builtinArrayBufferResizableGetter (this : nat) : MU World bool :=
  obj ← resolve_this false this;
  w ← gets id;
  mret (isResizableArrayBuffer w obj).
Definition builtinArrayBufferDetachedGetter (this : nat) : MU World bool :=
  obj ← resolve_this false this;
  w ← gets id;
  mret (isDetachedBuffer w obj).
Definition builtinSharedArrayBufferByteLengthGetter (this : nat) : MU World Z :=
  obj ← resolve_this true this;
  w ← gets id;
  mret (byteLength w obj).
Definition builtinSharedArrayBufferMaxByteLengthGetter (this : nat) : MU World Z :=
  obj ← resolve_this true this;
  w ← gets id;
  mret (if isResizableArrayBuffer w obj then maxByteLength w obj else byteLength w obj).
Definition builtinSharedArrayBufferGrowableGetter (this : nat) : MU World bool :=
  obj ← resolve_this true this;
  w ← gets id;
  mret (isResizableArrayBuffer w obj).

Definition builtinArrayBufferResize (toInteger : MU World Z) (this : nat) : MU World unit :=
  obj ← resolve_this false this;
  w ← gets id;
  throw_if (negb (isResizableArrayBuffer w obj)) ThrownTypeError;;
  newByteLength ← toInteger;
  throwTypeErrorIfDetached obj;;
  w ← gets id;
  throw_if (flt newByteLength 0 || flt (of_Z (maxByteLength w obj)) newByteLength) ThrownRangeError;;
  n ← certain (cast_size_t newByteLength);
  s ← certain (the_store w obj);
  resize s n.

Definition builtinSharedArrayBufferGrow (toInteger : MU World Z) (this : nat) : MU World unit :=
  obj ← resolve_this true this;
  w ← gets id;
  throw_if (negb (isResizableArrayBuffer w obj)) ThrownTypeError;;
  newByteLength ← toInteger;
  w ← gets id;
  throw_if (flt newByteLength (of_Z (byteLength w obj)) || flt (of_Z (maxByteLength w obj)) newByteLength) ThrownRangeError;;
  n ← certain (cast_size_t newByteLength);
  s ← certain (the_store w obj);
  resize s n.

(** The common part of the two transfers: the length of the new buffer. *)
Definition transfer_length (toIndex : option (MU World Z)) (obj : nat) : MU World Z :=
  throwTypeErrorIfDetached obj;;
  w ← gets id;
  match toIndex with
  | Some toIndex => checked_index toIndex
  | None => mret (byteLength w obj)
  end.
(** The common end: move the contents. *)
Definition transfer_contents (obj newValue : nat) (newByteLength : Z) : MU World nat :=
  w ← gets id;
  fillData newValue (plus (data w obj) 0) (Z.min newByteLength (byteLength w obj));;
  detachArrayBuffer obj;;
  mret newValue.

Definition builtinArrayBufferTransfer (toIndex : option (MU World Z)) (this : nat) : MU World nat :=
  obj ← resolve_this false this;
  newByteLength ← transfer_length toIndex obj;
  throwTypeErrorIfDetached obj;;
  w ← gets id;
  (if isResizableArrayBuffer w obj then throw_if (maxByteLength w obj <? newByteLength) ThrownRangeError else mret tt);;
  let maxLength := if isResizableArrayBuffer w obj then maxByteLength w obj else newByteLength in
  newValue ← allocateArrayBuffer null_when_empty (mret tt) newByteLength (Some maxLength) (isResizableArrayBuffer w obj);
  transfer_contents obj newValue newByteLength.

Definition builtinArrayBufferTransferToFixedLength (toIndex : option (MU World Z)) (this : nat) : MU World nat :=
  obj ← resolve_this false this;
  newByteLength ← transfer_length toIndex obj;
  newValue ← allocateArrayBuffer null_when_empty (mret tt) newByteLength (Some newByteLength) false;
  transfer_contents obj newValue newByteLength.

(** [slice]: [species] finds the constructor and calls it with the length. *)
Definition slice_range (toIntegerStart : MU World Z) (toIntegerEnd : option (MU World Z)) (len : Z) : MU World (Z * Z) :=
  relativeStart ← toIntegerStart;
  first ← certain (cast_size_t (relative relativeStart len));
  relativeEnd ← match toIntegerEnd with Some f => f | None => mret len end;
  let final_ := relative relativeEnd len in
  f ← certain (cast_int final_);
  mret (first, Z.max (i32 (f - i32 first)) 0).

Definition builtinArrayBufferSlice (toIntegerStart : MU World Z) (toIntegerEnd : option (MU World Z))
  (species : Z -> MU World nat) (this : nat) : MU World nat :=
  obj ← resolve_this false this;
  throwTypeErrorIfDetached obj;;
  w ← gets id;
  '(first, newLen) ← slice_range toIntegerStart toIntegerEnd (of_Z (byteLength w obj));
  newObject ← species newLen;
  w ← gets id;
  throw_if (negb (is_buffer w newObject)) ThrownTypeError;;
  throwTypeErrorIfDetached newObject;;
  throw_if (bool_decide (newObject = obj)) ThrownTypeError;;
  throw_if (byteLength w newObject <? newLen) ThrownTypeError;;
  throwTypeErrorIfDetached obj;;
  fillData newObject (plus (data w obj) first) newLen;;
  mret newObject.

Definition builtinSharedArrayBufferSlice (toIntegerStart : MU World Z) (toIntegerEnd : option (MU World Z))
  (species : Z -> MU World nat) (this : nat) : MU World nat :=
  obj ← resolve_this true this;
  w ← gets id;
  '(first, newLen) ← slice_range toIntegerStart toIntegerEnd (of_Z (byteLength w obj));
  newBuffer ← species newLen;
  newBuffer ← resolve_this true newBuffer;
  w ← gets id;
  throw_if (bool_decide (data w newBuffer = data w obj) || (byteLength w newBuffer <? newLen)) ThrownTypeError;;
  fillData newBuffer (plus (data w obj) first) newLen;;
  mret newBuffer.

(** * Constructors of views *)

(** [allocateTypedArray]: [None] is the call without a length. *)
Definition allocateTypedArray (t : TypedArrayType) (proto : MU World unit) (length : option Z) : MU World nat :=
  proto;;
  obj ← create_view (TypedArray t);
  match length with
  | None => modify (setBuffer obj None 0 0 0 false)
  | Some n =>
      let byteLength64 := u64 (n * type_elementSize t) in
      throw_if ((2 ^ 64 - 1 <? byteLength64) || (maxArrayBufferSize <=? byteLength64)) ThrownRangeError;;
      buffer ← allocateArrayBuffer null_when_empty (mret tt) byteLength64 None true;
      modify (setBuffer obj (Some buffer) 0 byteLength64 n false)
  end;;
  mret obj.

Definition initializeTypedArrayFromArrayBuffer (t : TypedArrayType) (obj buffer : nat) (byteOffset : MU World Z)
  (length : option (MU World Z)) : MU World unit :=
  let elementSize := type_elementSize t in
  offset ← byteOffset;
  throw_if ((offset =? Word.InvalidIndexValue) || negb (offset mod elementSize =? 0)) ThrownRangeError;;
  newLength ← match length with Some f => checked_index f | None => mret 0 end;
  throwTypeErrorIfDetached buffer;;
  w ← gets id;
  let bufferByteLength := byteLength w buffer in
  newByteLength ←
    match length with
    | None =>
        throw_if ((negb (bufferByteLength mod elementSize =? 0) && negb (isResizableArrayBuffer w buffer))
                  || (bufferByteLength <? offset)) ThrownRangeError;;
        mret (u64 (bufferByteLength - offset))
    | Some _ =>
        let newByteLength := u64 (newLength * elementSize) in
        throw_if ((bufferByteLength <? newByteLength) || (u64 (bufferByteLength - newByteLength) <? offset)) ThrownRangeError;;
        mret newByteLength
    end;
  modify (setBuffer obj (Some buffer) offset newByteLength (newByteLength / elementSize)
    match length with None => true | Some _ => false end).

(** The third argument of the constructor of DataView: absent, undefined, or
    something that is converted. *)
Inductive LengthArg := Absent | UndefinedArg | Given (toIndex : MU World Z).
Definition builtinDataViewConstructor (buffer : nat) (byteOffset : option (MU World Z)) (length : LengthArg)
  (proto : MU World unit) : MU World nat :=
  w ← gets id;
  throw_if (negb (is_buffer w buffer)) ThrownTypeError;;
  offset ← match byteOffset with Some f => checked_index f | None => mret 0 end;
  throwTypeErrorIfDetached buffer;;
  w ← gets id;
  let bufferByteLength := byteLength w buffer in
  throw_if (flt (of_Z bufferByteLength) (of_Z offset)) ThrownRangeError;;
  let bufferIsFixedLength := negb (isResizableArrayBuffer w buffer) in
  let too_long (n : Z) (bufferByteLength : Z) := flt (of_Z bufferByteLength) (fadd (of_Z offset) (of_Z n)) in
  viewByteLength ←
    match length with
    | Given f =>
        n ← checked_index f;
        throw_if (too_long n bufferByteLength) ThrownRangeError;;
        mret (Some n)
    | _ =>
        if bufferIsFixedLength then
          n ← certain (cast_size_t (fsub (of_Z bufferByteLength) (of_Z offset)));
          mret (Some n)
        else mret None
    end;
  proto;;
  O ← create_view DataView;
  throwTypeErrorIfDetached buffer;;
  w ← gets id;
  let bufferByteLength := byteLength w buffer in
  throw_if (flt (of_Z bufferByteLength) (of_Z offset)) ThrownRangeError;;
  throw_if match length, viewByteLength with Given _, Some n => too_long n bufferByteLength | _, _ => false end
    ThrownRangeError;;
  rest ← certain (cast_size_t (fsub (of_Z bufferByteLength) (of_Z offset)));
  modify (setBuffer O (Some buffer) offset (default rest viewByteLength) 0 match length with Absent => true | _ => false end);;
  mret O.

End Builtins.

End Buffers.

(** * Examples *)
Module BufferExamples.
Import Effects Buffers.

Definition empty : World := mkWorld [] [] [] [] [].
Definition state {A} (o : option (World * (A + Thrown))) : World := match o with Some (w, _) => w | None => empty end.
Definition outcome {A} (o : option (World * (A + Thrown))) : option (A + Thrown) := snd <$> o.
Definition ints (l : list (option Z)) := l.

(** A resizable buffer of three bytes, at most eight, and two views. *)
Definition start : World :=
  state ((b ← builtinArrayBufferConstructor false (mret 3) (mret (Some 8)) (mret tt);
          u ← allocateTypedArray false Uint16 (mret tt) None;
          initializeTypedArrayFromArrayBuffer Uint16 u b (mret 0) None;;
          d ← builtinDataViewConstructor b None UndefinedArg (mret tt);
          builtinDataViewConstructor b None Absent (mret tt)) empty).
Definition lengths (w : World) : list (Z * Z) := (fun v => (m_byteLength v, m_arrayLength v)) <$> views w.

Example start_lengths : lengths start = [(3, 1); (3, 0); (3, 0)].
Proof. vm_compute. reflexivity. Qed.
Example resized : lengths (state (builtinArrayBufferResize (mret (of_Z 7)) 0%nat start)) = [(6, 3); (3, 3); (7, 7)].
Proof. vm_compute. reflexivity. Qed.

End BufferExamples.
