(* ===== verification/BufferInvariant.v ===== *)
(** The invariant of array buffers and views: who observes whom, what the
    notifications do, and that each step of the operations of [ArrayBuffer] keeps
    the caches of the views within the memory of their buffers, no block with two
    owners, and, unless the embedder intervenes, the lengths of every view those
    that ECMA-262 computes from the buffer. *)
From Stdlib Require Import ZArith Lia Bool.
From stdpp Require Import base numbers list option decidable gmap.
From S2P Require Import Prelude Effects Double Value ArrayBuffer.

(** * Wiring: who observes whom *)
Module Wiring.
Import Effects Buffers.

(** The wiring of a world: the observers of each store, the store and the
    observers of each buffer, the buffer of each view. *)
Definition Wires : Type := list (list (option nat)) * list (option nat * list (option nat)) * list (option nat).
Definition wires (w : World) : Wires :=
  (s_observers <$> stores w, (fun b => (m_backingStore b, b_observers b)) <$> buffers w, m_buffer <$> views w).

Definition somes (l : list (option nat)) : list nat := omap id l.

(** An edge is known at both ends, once. *)
Record linked (up : nat -> option (list (option nat))) (down : nat -> option (option nat)) : Prop := {
  linked_once : forall u l, up u = Some l -> NoDup (somes l);
  linked_sym : forall u l d, up u = Some l -> d ∈ somes l <-> down d = Some (Some u);
  linked_up : forall d u, down d = Some (Some u) -> is_Some (up u)
}.
Definition wired (W : Wires) : Prop :=
  linked (fun s => W.1.1 !! s) (fun b => fst <$> W.1.2 !! b) /\
  linked (fun b => snd <$> W.1.2 !! b) (fun v => W.2 !! v).

Lemma elem_of_somes l x : x ∈ somes l <-> Some x ∈ l.
Proof.
  unfold somes. rewrite list_elem_of_omap. split; [|intros; exists (Some x); done].
  intros (y & H & E). cbn in E. now subst y.
Qed.

Lemma somes_add x l : somes (addObserver x l) ≡ₚ x :: somes l.
Proof.
  induction l as [|[y|] l IH]; cbn; [done| |done].
  change (y :: somes (addObserver x l) ≡ₚ x :: y :: somes l). rewrite IH. constructor.
Qed.

Lemma somes_remove x l : NoDup (somes l) ->
  NoDup (somes (removeObserver x l)) /\ forall y, y ∈ somes (removeObserver x l) <-> y ∈ somes l /\ y <> x.
Proof.
  induction l as [|[z|] l IH]; intros H; cbn in *.
  - split; [done|]. intros y. split; [by intros ?%elem_of_nil|by intros [?%elem_of_nil _]].
  - apply NoDup_cons in H as [H1 H2]. destruct (IH H2) as [I1 I2]. case_decide as E.
    + subst. cbn. split; [done|]. intros y. fold (somes l). rewrite elem_of_cons.
      split; [|intros [[->|] ?]; done]. intros Hy. split; [now right|]. intros ->. now apply H1.
    + cbn. fold (somes (removeObserver x l)) (somes l). split.
      * constructor; [|done]. rewrite I2. intros [? _]. now apply H1.
      * intros y. rewrite !elem_of_cons, I2. split; [intros [->|[]]; auto|intros [[->|] ?]; auto].
  - fold (somes (removeObserver x l)) (somes l). now apply IH.
Qed.

(** Connecting [d] to [u], and disconnecting it. *)
Lemma linked_connect up down u d l :
  linked up down -> up u = Some l -> down d = Some None ->
  linked (fun x => if decide (x = u) then Some (addObserver d l) else up x)
         (fun y => if decide (y = d) then Some (Some u) else down y).
Proof.
  intros [H1 H2 H3] Hu Hd. split.
  - intros x m. case_decide; [|apply H1]. intros [= <-]. subst.
    rewrite somes_add. constructor; [|now apply (H1 u)]. rewrite (H2 u l d Hu). congruence.
  - intros x m y. case_decide as E; [subst x; intros [= <-]|intros Hx].
    + rewrite somes_add, elem_of_cons. case_decide as E; [subst; split; auto|]. rewrite (H2 u l y Hu). intuition.
    + rewrite (H2 x m y Hx). case_decide; [|done]. subst. rewrite Hd. split; [done|]. intros [= ->]. congruence.
  - intros y x. case_decide as E; [intros [= <-]|intros Hy]; case_decide; eauto; congruence.
Qed.

Lemma linked_disconnect up down u d l :
  linked up down -> up u = Some l -> down d = Some (Some u) ->
  linked (fun x => if decide (x = u) then Some (removeObserver d l) else up x)
         (fun y => if decide (y = d) then Some None else down y).
Proof.
  intros [H1 H2 H3] Hu Hd. destruct (somes_remove d l (H1 u l Hu)) as [R1 R2]. split.
  - intros x m. case_decide; [|apply H1]. now intros [= <-].
  - intros x m y. case_decide as E; [subst x; intros [= <-]|intros Hx].
    + rewrite R2, (H2 u l y Hu). case_decide; [|intuition]. subst. split; [now intros []|done].
    + rewrite (H2 x m y Hx). case_decide; [|done]. subst. rewrite Hd. split; [intros [= ->]; congruence|done].
  - intros y x. case_decide as E; [done|intros Hy]. case_decide; [eauto|]. now apply (H3 y).
Qed.

Lemma linked_ext up down up' down' :
  (forall x, up x = up' x) -> (forall x, down x = down' x) -> linked up down -> linked up' down'.
Proof.
  intros E1 E2 [H1 H2 H3]. split.
  - intros u l. rewrite <- E1. apply H1.
  - intros u l d. rewrite <- E1, <- E2. apply H2.
  - intros d u. rewrite <- E1, <- E2. apply H3.
Qed.

(** New ends without edges. *)
Lemma linked_new_up up down n : linked up down -> up n = None ->
  linked (fun x => if decide (x = n) then Some [] else up x) down.
Proof.
  intros [H1 H2 H3] Hn. split.
  - intros u l. case_decide; [|apply H1]. intros [= <-]. constructor.
  - intros u l d. case_decide as E; [|apply H2]. subst. intros [= <-]. cbn. split; [by intros ?%elem_of_nil|].
    intros Hd. destruct (H3 d n Hd). congruence.
  - intros d u Hd. case_decide; [eauto|]. now apply (H3 d).
Qed.
Lemma linked_new_down up down n : linked up down -> down n = None ->
  linked up (fun y => if decide (y = n) then Some None else down y).
Proof.
  intros [H1 H2 H3] Hn. split; [done| |].
  - intros u l d Hu. rewrite (H2 u l d Hu). case_decide; [|done]. subst. rewrite Hn. done.
  - intros d u. case_decide; [done|]. apply H3.
Qed.

End Wiring.

(** * What notifications do *)
Module Notified.
Import Effects Buffers Wiring.

(** Everything but the views. *)
Definition same_rest (w w' : World) : Prop :=
  blocks w' = blocks w /\ infos w' = infos w /\ stores w' = stores w /\ buffers w' = buffers w.
#[export] Instance same_rest_refl : Reflexive same_rest.
Proof. now intros w. Qed.
#[export] Instance same_rest_trans : Transitive same_rest.
Proof. intros w1 w2 w3 (? & ? & ? & ?) (? & ? & ? & ?). repeat split; congruence. Qed.

Lemma the_store_rest w w' b : same_rest w w' -> the_store w' b = the_store w b.
Proof. intros (_ & _ & _ & E). unfold the_store. now rewrite E. Qed.
Lemma backingStore_rest w w' b : same_rest w w' -> backingStore w' b = backingStore w b.
Proof. intros H. unfold backingStore. rewrite (the_store_rest w w' b H). destruct H as (_ & _ & E & _). now rewrite E. Qed.
Lemma store_byteLength_rest w w' x : same_rest w w' -> store_byteLength w' x = store_byteLength w x.
Proof. intros (_ & E & _). unfold store_byteLength, store_info. now rewrite E. Qed.
Lemma store_data_rest w w' x : same_rest w w' -> store_data w' x = store_data w x.
Proof. intros (_ & E & _). unfold store_data, store_info. now rewrite E. Qed.
Lemma byteLength_rest w w' b : same_rest w w' -> byteLength w' b = byteLength w b.
Proof.
  intros H. unfold byteLength. rewrite (backingStore_rest w w' b H). destruct (backingStore w b); [|done].
  cbn. now rewrite (store_byteLength_rest w w').
Qed.
Lemma isResizable_rest w w' b : same_rest w w' -> isResizableArrayBuffer w' b = isResizableArrayBuffer w b.
Proof. intros (_ & _ & _ & E). unfold isResizableArrayBuffer. now rewrite E. Qed.

Lemma observe_rest w w' v a n : same_rest w w' -> observe w' v a n = observe w v a n.
Proof.
  intros H. assert (Hu : forall v a, updateBufferCallback w' v a = updateBufferCallback w v a).
  { intros v' a'. unfold updateBufferCallback. destruct (v_kind v'), (m_buffer v'); rewrite ?(byteLength_rest w w') by done; done. }
  assert (Hr : default false (isResizableArrayBuffer w' <$> m_buffer v) = default false (isResizableArrayBuffer w <$> m_buffer v)).
  { destruct (m_buffer v); cbn; [now apply isResizable_rest|done]. }
  unfold observe. rewrite Hr. repeat case_match; simplify_eq; apply Hu.
Qed.

Lemma observe_static w v a n :
  v_kind (observe w v a n) = v_kind v /\ m_buffer (observe w v a n) = m_buffer v /\
  m_originalByteLength (observe w v a n) = m_originalByteLength v /\
  m_originalByteOffset (observe w v a n) = m_originalByteOffset v /\ m_auto (observe w v a n) = m_auto v.
Proof. unfold observe. repeat case_match; simplify_eq; unfold updateBufferCallback; repeat case_match; done. Qed.

(** Observing a list of views, each once. *)
Definition observe_all (a : option nat) (n : Z) (l : list nat) (w : World) : World :=
  fold_left (fun w v => arrayBufferObserver a n v w) l w.

Lemma notify_somes (f : nat -> World -> World) items w :
  notify f items w = fold_left (fun w x => f x w) (somes items) w.
Proof. revert w. induction items as [|[x|] items IH]; intros w; cbn; [done|apply IH|apply IH]. Qed.

Lemma observe_all_spec a n l w : NoDup l ->
  same_rest w (observe_all a n l w) /\
  forall v, views (observe_all a n l w) !! v =
    if decide (v ∈ l) then (fun x => observe w x a n) <$> views w !! v else views w !! v.
Proof.
  revert w. induction l as [|x l IH]; intros w H; cbn.
  { split; [done|]. intros v. case_decide as E; [by apply elem_of_nil in E|done]. }
  apply NoDup_cons in H as [H1 H2]. fold (observe_all a n l (arrayBufferObserver a n x w)).
  assert (Hr : same_rest w (arrayBufferObserver a n x w)) by done.
  destruct (IH (arrayBufferObserver a n x w) H2) as [I1 I2]. split; [now transitivity (arrayBufferObserver a n x w)|].
  intros v. rewrite I2. cbn [arrayBufferObserver upd_views views].
  destruct (decide (v = x)) as [->|E].
  - rewrite decide_False by done. rewrite decide_True by now left. apply list_lookup_alter_eq.
  - rewrite list_lookup_alter_ne by done. assert (v ∈ x :: l <-> v ∈ l) as Hiff by (rewrite elem_of_cons; tauto).
    rewrite (decide_ext _ _ _ _ Hiff). case_decide; [|done].
    now destruct (views w !! v).
Qed.

(** The buffers of a store, and their views. *)
Definition views_of (w : World) (b : nat) : list nat :=
  match buffers w !! b with Some x => somes (b_observers x) | None => [] end.
Definition views_of_store (w : World) (x : BackingStore) : list nat := somes (s_observers x) ≫= views_of w.

Lemma backingStoreObserver_all a n b w : backingStoreObserver a n b w = observe_all a n (views_of w b) w.
Proof. unfold backingStoreObserver, views_of. destruct (buffers w !! b); [apply notify_somes|done]. Qed.

Lemma observe_all_buffers a n l w : buffers (observe_all a n l w) = buffers w.
Proof. unfold observe_all. revert w. induction l as [|v l IH]; intros w; [done|]. cbn. now rewrite IH. Qed.

Lemma observe_all_app a n l k w : observe_all a n (l ++ k) w = observe_all a n k (observe_all a n l w).
Proof. apply fold_left_app. Qed.

Lemma fold_backingStoreObserver a n l w :
  fold_left (fun w x => backingStoreObserver a n x w) l w = observe_all a n (l ≫= views_of w) w.
Proof.
  revert w. induction l as [|b l IH]; intros w; [done|]. cbn [fold_left]. rewrite IH.
  rewrite backingStoreObserver_all, bind_cons, observe_all_app. f_equal.
  clear IH. induction l as [|c l IH]; [done|]. rewrite !bind_cons, IH. f_equal.
  unfold views_of at 1. now rewrite observe_all_buffers.
Qed.

Lemma store_bufferUpdated_all s a n w x : stores w !! s = Some x ->
  store_bufferUpdated s a n w = observe_all a n (views_of_store w x) w.
Proof. intros E. unfold store_bufferUpdated. now rewrite E, notify_somes, fold_backingStoreObserver. Qed.

(** The store that a view leads to. *)
Definition store_of (w : World) (v : ArrayBufferView) : option nat :=
  match m_buffer v with Some b => the_store w b | None => None end.

Lemma wires_buffer w b x : buffers w !! b = Some x -> (wires w).1.2 !! b = Some (m_backingStore x, b_observers x).
Proof. intros E. unfold wires. cbn. now rewrite list_lookup_fmap, E. Qed.
Lemma wires_store w s x : stores w !! s = Some x -> (wires w).1.1 !! s = Some (s_observers x).
Proof. intros E. unfold wires. cbn. now rewrite list_lookup_fmap, E. Qed.
Lemma wires_view w v x : views w !! v = Some x -> (wires w).2 !! v = Some (m_buffer x).
Proof. intros E. unfold wires. cbn. now rewrite list_lookup_fmap, E. Qed.

Section Wired.
Context (w : World) (Hw : wired (wires w)).

Lemma views_of_once b : NoDup (views_of w b).
Proof.
  unfold views_of. destruct (buffers w !! b) as [x|] eqn:E; [|constructor].
  destruct Hw as [_ H]. apply (linked_once _ _ H b). now rewrite (wires_buffer w b x E).
Qed.
Lemma elem_of_views_of b v x : views w !! v = Some x -> v ∈ views_of w b <-> m_buffer x = Some b.
Proof.
  intros Ev. destruct Hw as [_ H]. unfold views_of. destruct (buffers w !! b) as [y|] eqn:E.
  - rewrite (linked_sym _ _ H b (b_observers y) v) by now rewrite (wires_buffer w b y E).
    rewrite (wires_view w v x Ev). split; congruence.
  - split; [by intros ?%elem_of_nil|]. intros Eb.
    destruct (linked_up _ _ H v b) as [l Hl]; [now rewrite (wires_view w v x Ev), Eb|].
    unfold wires in Hl. cbn in Hl. rewrite list_lookup_fmap, E in Hl. done.
Qed.
Lemma elem_of_store_observers s x b : stores w !! s = Some x -> b ∈ somes (s_observers x) <-> the_store w b = Some s.
Proof.
  intros Es. destruct Hw as [H _]. rewrite (linked_sym _ _ H s (s_observers x) b) by now apply wires_store.
  unfold the_store. destruct (buffers w !! b) as [y|] eqn:E.
  - rewrite (wires_buffer w b y E). cbn. split; congruence.
  - unfold wires. cbn. rewrite list_lookup_fmap, E. done.
Qed.
Lemma views_of_nonexistent b v : v ∈ views_of w b -> is_Some (views w !! v).
Proof.
  intros Hv. destruct Hw as [_ H]. unfold views_of in Hv. destruct (buffers w !! b) as [y|] eqn:E; [|by apply elem_of_nil in Hv].
  rewrite (linked_sym _ _ H b (b_observers y) v) in Hv by now rewrite (wires_buffer w b y E).
  unfold wires in Hv. cbn in Hv. rewrite list_lookup_fmap in Hv. destruct (views w !! v); [eauto|done].
Qed.
Lemma elem_of_views_of_store s x v y : stores w !! s = Some x -> views w !! v = Some y ->
  v ∈ views_of_store w x <-> store_of w y = Some s.
Proof.
  intros Es Ev. unfold views_of_store, store_of. rewrite list_elem_of_bind. split.
  - intros (b & Hb & Hv). apply (elem_of_views_of b v y Ev) in Hb. rewrite Hb. now apply (elem_of_store_observers s x b).
  - destruct (m_buffer y) as [b|] eqn:Eb; [|done]. intros H. exists b. split; [now apply (elem_of_views_of b v y Ev)|].
    now apply (elem_of_store_observers s x b).
Qed.
Lemma views_of_store_once s x : stores w !! s = Some x -> NoDup (views_of_store w x).
Proof.
  intros Es. unfold views_of_store.
  assert (H : NoDup (somes (s_observers x))).
  { destruct Hw as [H _]. apply (linked_once _ _ H s). now apply wires_store. }
  induction (somes (s_observers x)) as [|b l IH]; cbn; [constructor|]. apply NoDup_cons in H as [H1 H2].
  apply NoDup_app. split; [apply views_of_once|]. split; [|now apply IH].
  intros v Hv Hb. apply list_elem_of_bind in Hb as (c & Hc & Hin).
  destruct (views_of_nonexistent b v Hv) as [y Ey].
  apply (elem_of_views_of b v y Ey) in Hv. apply (elem_of_views_of c v y Ey) in Hc. congruence.
Qed.

(** After a store was updated, exactly its views have observed it. *)
Lemma store_bufferUpdated_spec s a n x : stores w !! s = Some x ->
  same_rest w (store_bufferUpdated s a n w) /\
  forall v, views (store_bufferUpdated s a n w) !! v =
    (fun y => if decide (store_of w y = Some s) then observe w y a n else y) <$> views w !! v.
Proof.
  intros Es. rewrite (store_bufferUpdated_all s a n w x Es).
  destruct (observe_all_spec a n (views_of_store w x) w (views_of_store_once s x Es)) as [H1 H2]. split; [done|].
  intros v. rewrite H2. destruct (views w !! v) as [y|] eqn:Ev.
  - cbn. pose proof (elem_of_views_of_store s x v y Es Ev). repeat case_decide; tauto.
  - now case_decide.
Qed.
Lemma backingStoreObserver_spec b a n :
  same_rest w (backingStoreObserver a n b w) /\
  forall v, views (backingStoreObserver a n b w) !! v =
    (fun y => if decide (m_buffer y = Some b) then observe w y a n else y) <$> views w !! v.
Proof.
  rewrite backingStoreObserver_all.
  destruct (observe_all_spec a n (views_of w b) w (views_of_once b)) as [H1 H2]. split; [done|].
  intros v. rewrite H2. destruct (views w !! v) as [y|] eqn:Ev.
  - cbn. pose proof (elem_of_views_of b v y Ev). repeat case_decide; tauto.
  - now case_decide.
Qed.
End Wired.

End Notified.

(** * The invariant *)
Module Invariant.
Import Effects Buffers Wiring Notified.

(** A pointer to at least [n] bytes that are not freed; no pointer is needed to
    none. *)
Definition holds (w : World) (d : option nat) (n : Z) : Prop :=
  match d with
  | Some a => exists blk, blocks w !! a = Some blk /\ freed blk = false /\ n <= Z.of_nat (length (cells blk))
  | None => n <= 0
  end.

Definition info_ok (w : World) (x : SharedDataBlockInfo) : Prop :=
  0 < i_refCount x /\ 0 <= i_byteLength x < maxArrayBufferSize /\
  match i_growable x with
  | Some max => i_byteLength x <= max < maxArrayBufferSize /\ holds w (i_data x) max
  | None => holds w (i_data x) (i_byteLength x)
  end.

Definition live (w : World) (k : StoreKind) : Prop :=
  match k with
  | NonShared n =>
      n_gcDisclaimAlive n = true /\ 0 <= n_byteLength n < maxArrayBufferSize /\
      (if n_isResizable n then n_byteLength n <= n_maxByteLength n < maxArrayBufferSize /\ holds w (n_data n) (n_maxByteLength n)
       else holds w (n_data n) (n_byteLength n))
  | Shared (Some i) => exists x, infos w !! i = Some x /\ info_ok w x
  | Shared None => False
  end.
Definition dead (k : StoreKind) : Prop :=
  match k with NonShared n => n_gcDisclaimAlive n = false | Shared (Some _) => False | Shared None => True end.

(** Who frees a block. *)
Definition owner (w : World) (o : nat + nat) (a : nat) : Prop :=
  match o with
  | inl s => exists x n, stores w !! s = Some x /\ kind x = NonShared n /\ n_gcDisclaimAlive n = true /\ n_data n = Some a
  | inr i => exists x, infos w !! i = Some x /\ 0 < i_refCount x /\ i_data x = Some a
  end.
Definition uses (i : nat) (x : BackingStore) : bool :=
  match kind x with Shared (Some j) => bool_decide (j = i) | _ => false end.
Definition users (w : World) (i : nat) : Z := Z.of_nat (length (List.filter (uses i) (stores w))).

(** The cache of a view over [L] bytes at [d]. *)
Record view_static (x : ArrayBufferView) : Prop := {
  vs_offset : 0 <= m_originalByteOffset x;
  vs_length : 0 <= m_originalByteLength x;
  vs_end : m_originalByteOffset x + m_originalByteLength x <= 2 ^ 52
}.
Record view_in (d : option nat) (L : Z) (x : ArrayBufferView) : Prop := {
  vi_offset : 0 <= m_byteOffset x <= 2 ^ 52;
  vi_length : 0 <= m_byteLength x;
  vi_elements : 0 <= m_arrayLength x /\ m_arrayLength x * elementSize x <= m_byteLength x;
  vi_fixed : m_auto x = false ->
    (m_byteLength x = 0 /\ m_byteOffset x = 0) \/
    (m_byteLength x = m_originalByteLength x /\ m_byteOffset x = m_originalByteOffset x);
  vi_address :
    match m_cachedRawBufferAddress x with
    | Some (a, o) => d = Some a /\ o = m_byteOffset x /\ m_byteOffset x + m_byteLength x <= L
    | None => m_byteLength x = 0
    end
}.
Definition view_ok (w : World) (x : ArrayBufferView) : Prop :=
  view_static x /\
  match m_buffer x with
  | Some b => view_in (data w b) (byteLength w b) x
  | None => m_cachedRawBufferAddress x = None /\ m_byteLength x = 0 /\ m_arrayLength x = 0 /\ m_byteOffset x = 0
  end.

(** What ECMA-262 computes from the buffer: the cached lengths of [x] are these. *)
Definition out_of_bounds (L : Z) (x : ArrayBufferView) : bool :=
  if m_auto x then L <? m_originalByteOffset x else L <? m_originalByteOffset x + m_originalByteLength x.
Definition is_typed (x : ArrayBufferView) : bool := match v_kind x with TypedArray _ => true | DataView => false end.
Record coherent (w : World) (b : nat) (x : ArrayBufferView) : Prop := {
  co_reset : m_wasResetByInvalidByteLength x = out_of_bounds (byteLength w b) x;
  co_out : out_of_bounds (byteLength w b) x = true -> m_byteOffset x = 0 /\ m_byteLength x = 0 /\ m_arrayLength x = 0 /\ m_cachedRawBufferAddress x = None;
  co_offset : out_of_bounds (byteLength w b) x = false -> m_byteOffset x = m_originalByteOffset x;
  co_length : out_of_bounds (byteLength w b) x = false ->
    if m_auto x
    then m_byteLength x / elementSize x = (byteLength w b - m_originalByteOffset x) / elementSize x
    else m_byteLength x = m_originalByteLength x;
  co_elements : is_typed x = true -> m_arrayLength x = m_byteLength x / elementSize x;
  co_whole : m_auto x = false -> m_originalByteLength x mod elementSize x = 0;
  co_fixed : m_auto x = true -> isResizableArrayBuffer w b = false -> isDetachedBuffer w b = false ->
    byteLength w b = m_originalByteOffset x + m_originalByteLength x /\ m_originalByteLength x mod elementSize x = 0;
  co_address : out_of_bounds (byteLength w b) x = false -> 0 < byteLength w b ->
    m_cachedRawBufferAddress x = plus (data w b) (m_originalByteOffset x);
  co_detached : isDetachedBuffer w b = true -> m_cachedRawBufferAddress x = None
}.

(** The invariant; [host] tells whether the embedder may intervene: share memory
    between agents, each of which has its own store over it, or reallocate it. *)
Record Core (host : bool) (w : World) : Prop := {
  c_wired : wired (wires w);
  c_live : forall s x, stores w !! s = Some x -> dead (kind x) \/ live w (kind x);
  c_used : forall b s, the_store w b = Some s -> exists x, stores w !! s = Some x /\ live w (kind x);
  c_owner : forall o1 o2 a, owner w o1 a -> owner w o2 a -> o1 = o2;
  c_block : forall o a, owner w o a -> is_Some (blocks w !! a);
  c_users : forall i x, infos w !! i = Some x -> users w i <= i_refCount x;
  c_alone : host = false -> forall s1 s2 x1 x2 i, stores w !! s1 = Some x1 -> stores w !! s2 = Some x2 ->
    kind x1 = Shared (Some i) -> kind x2 = Shared (Some i) -> s1 = s2
}.
Definition fine (host : bool) (w : World) (x : ArrayBufferView) : Prop :=
  view_ok w x /\ (host = false -> forall b, m_buffer x = Some b -> coherent w b x).
Definition Calm (host : bool) (w : World) : Prop :=
  Core host w /\ forall v x, views w !! v = Some x -> fine host w x.
(** A buffer remembers whether its store is resizable. *)
Definition flags (w : World) : Prop := forall b s x,
  the_store w b = Some s -> stores w !! s = Some x -> isResizableArrayBuffer w b = store_isResizable w x.
Definition Base (host : bool) (w : World) : Prop := Calm host w /\ flags w.
(** Shared buffers have a store, and stores are of the sort of their buffers. *)
Definition is_shared_kind (k : StoreKind) : bool := match k with Shared _ => true | NonShared _ => false end.
Definition sorted_buffer (w : World) (x : ArrayBuffer) : Prop :=
  (isShared x = true -> m_backingStore x <> None) /\
  (forall s, m_backingStore x = Some s -> exists y, stores w !! s = Some y /\ is_shared_kind (kind y) = isShared x).
Record Good (host : bool) (w : World) : Prop := {
  g_base : Base host w;
  g_shared : forall b x, buffers w !! b = Some x -> sorted_buffer w x
}.

(** What a view keeps until it observes the next update. *)
Record semi (host : bool) (x : ArrayBufferView) : Prop := {
  se_static : view_static x;
  se_elements : 0 <= m_arrayLength x /\ m_arrayLength x * elementSize x <= m_byteLength x;
  se_fixed : m_auto x = false ->
    (m_byteLength x = 0 /\ m_byteOffset x = 0) \/
    (m_byteLength x = m_originalByteLength x /\ m_byteOffset x = m_originalByteOffset x);
  se_whole : host = false -> m_auto x = false -> m_originalByteLength x mod elementSize x = 0
}.

(** * Observing keeps the cache right *)
Lemma elementSize_pos x : 0 < elementSize x.
Proof. unfold elementSize. now destruct (v_kind x) as [[]|]. Qed.

Lemma with_cache_elementSize v a n o l r : elementSize (with_cache v a n o l r) = elementSize v.
Proof. done. Qed.

Section Observe.
Context (w : World) (b : nat) (x : ArrayBufferView) (d : option nat) (L : Z).
Context (Hb : m_buffer x = Some b) (Hs : view_static x) (HL : byteLength w b = L) (HL0 : 0 <= L) (Hd : d = None -> L <= 0).

(** The result, with the override of DataView gone: a view is not longer than its
    buffer. *)
Lemma updateBufferCallback_fits y a :
  m_buffer y = Some b -> m_byteLength y <= L ->
  updateBufferCallback w y a =
  with_cache y (plus a (m_byteOffset y)) (m_byteLength y) (m_byteOffset y) (m_arrayLength y) (m_wasResetByInvalidByteLength y).
Proof.
  intros E H. unfold updateBufferCallback. rewrite E. destruct (v_kind y); [done|].
  rewrite HL. destruct (L <? m_byteLength y) eqn:E2; [Zbool; lia|done].
Qed.

Lemma original_end : u64 (m_originalByteOffset x + m_originalByteLength x) = m_originalByteOffset x + m_originalByteLength x.
Proof. destruct Hs. apply wrapu_id. unfold in_u. lia. Qed.

Context (Hfix : m_auto x = false ->
    (m_byteLength x = 0 /\ m_byteOffset x = 0) \/
    (m_byteLength x = m_originalByteLength x /\ m_byteOffset x = m_originalByteOffset x)).

(** The observer by cases. *)
Definition observed : ArrayBufferView :=
  let es := elementSize x in
  let address o := if L =? 0 then None else plus d o in
  if out_of_bounds L x then with_cache x None 0 0 0 true
  else
    let offset := m_originalByteOffset x in
    if m_auto x then
      with_cache x (address offset) ((L - offset) / es * es) offset ((L - offset) / es) false
    else if isResizableArrayBuffer w b then
      with_cache x (address offset) (m_originalByteLength x) offset (m_originalByteLength x / es) false
    else with_cache x (address (m_byteOffset x)) (m_byteLength x) (m_byteOffset x) (m_arrayLength x) false.

Lemma whole_elements n : 0 <= n -> 0 <= n / elementSize x * elementSize x <= n.
Proof.
  intros Hn. pose proof (elementSize_pos x). pose proof (Z.mul_div_le n (elementSize x) ltac:(lia)).
  pose proof (Z.div_pos n (elementSize x)). nia.
Qed.

Lemma observe_cases : observe w x d L = observed.
Proof.
  pose proof (elementSize_pos x) as He. destruct Hs as [S1 S2 S3].
  unfold observe, observed, out_of_bounds. rewrite original_end, Hb. cbn [fmap option_fmap option_map default].
  destruct (m_auto x) eqn:Ea.
  - destruct (L <? m_originalByteOffset x) eqn:E; Zbool.
    + assert (forall b0 : bool, (if b0 then None else None) = (None : option nat)) as -> by now destruct b0.
      now rewrite updateBufferCallback_fits by done.
    + assert ((if m_originalByteOffset x <? L then (L - m_originalByteOffset x) / elementSize x * elementSize x else 0)
              = (L - m_originalByteOffset x) / elementSize x * elementSize x) as ->.
      { destruct (_ <? L) eqn:E2; Zbool; [done|]. replace (L - m_originalByteOffset x) with 0 by lia. now rewrite Z.div_0_l by lia. }
      pose proof (whole_elements (L - m_originalByteOffset x) ltac:(lia)).
      rewrite updateBufferCallback_fits by (cbn; try done; lia). rewrite Z.div_mul by lia.
      now destruct (L =? 0).
  - destruct (L <? _) eqn:E; Zbool.
    + assert (forall b0 : bool, (if b0 then None else None) = (None : option nat)) as -> by now destruct b0.
      now rewrite updateBufferCallback_fits by done.
    + rewrite (proj2 (Z.leb_le _ _)) by lia. rewrite andb_true_r.
      destruct (isResizableArrayBuffer w b); cbn [id];
        rewrite updateBufferCallback_fits by (cbn; try done; destruct (Hfix eq_refl) as [[]|[]]; lia); now destruct (L =? 0).
Qed.

Lemma observe_view_in : 0 <= m_arrayLength x -> m_arrayLength x * elementSize x <= m_byteLength x ->
  view_in d L (observe w x d L).
Proof.
  intros A1 A2. rewrite observe_cases. unfold observed. pose proof (elementSize_pos x) as He. destruct Hs as [S1 S2 S3].
  assert (Haddr : forall o n, 0 <= o -> 0 <= n -> o + n <= L ->
    match (if L =? 0 then None else plus d o) with
    | Some (a, o') => d = Some a /\ o' = o /\ o + n <= L
    | None => n = 0
    end).
  { intros o n Ho Hn Hon. destruct (L =? 0) eqn:E; Zbool; [lia|]. destruct d as [a|]; cbn; [done|]. specialize (Hd eq_refl). lia. }
  destruct (out_of_bounds L x) eqn:E; unfold out_of_bounds in E; [|destruct (m_auto x) eqn:Ea].
  - split; cbn; auto; rewrite ?with_cache_elementSize; lia.
  - Zbool. pose proof (whole_elements (L - m_originalByteOffset x) ltac:(lia)).
    split; cbn; rewrite ?with_cache_elementSize; try lia; try (apply Haddr; lia); try congruence.
  - Zbool. pose proof (whole_elements (m_originalByteLength x) ltac:(lia)).
    destruct (isResizableArrayBuffer w b); split; cbn; rewrite ?with_cache_elementSize; try lia; try (apply Haddr; lia); auto.
Qed.

Lemma observe_static_ok : view_static (observe w x d L).
Proof. destruct (observe_static w x d L) as (_ & _ & E1 & E2 & _). destruct Hs. split; congruence. Qed.

Lemma observe_coherent :
  0 <= m_arrayLength x -> m_arrayLength x * elementSize x <= m_byteLength x -> data w b = d ->
  (m_auto x = false -> m_originalByteLength x mod elementSize x = 0) ->
  isResizableArrayBuffer w b = true \/ (isDetachedBuffer w b = true /\ L = 0) ->
  coherent w b (observe w x d L).
Proof.
  intros A1 A2 HD Hwhole Hres. rewrite observe_cases. unfold observed. pose proof (elementSize_pos x) as He. destruct Hs as [S1 S2 S3].
  assert (HQ : forall n, n / elementSize x * elementSize x / elementSize x = n / elementSize x) by (intros; apply Z.div_mul; lia).
  assert (Haddr : forall o, 0 < L -> (if L =? 0 then None else plus d o) = plus d o).
  { intros o H. destruct (L =? 0) eqn:E; [Zbool; lia|done]. }
  subst d. rewrite <- HL in *.
  assert (Hno : isResizableArrayBuffer w b = false -> isDetachedBuffer w b = false -> False) by (destruct Hres as [|[]]; congruence).
  assert (Hnull : forall o, isDetachedBuffer w b = true -> (if byteLength w b =? 0 then None else plus (data w b) o) = None).
  { intros o H. unfold isDetachedBuffer in H. unfold byteLength, backingStore. now destruct (the_store w b). }
  destruct (out_of_bounds (byteLength w b) x) eqn:E; [|destruct (m_auto x) eqn:Ea].
  - split; change (out_of_bounds (byteLength w b) (with_cache x None 0 0 0 true)) with (out_of_bounds (byteLength w b) x);
      cbn; rewrite ?with_cache_elementSize, ?E; auto; try discriminate; intros; exfalso; auto.
  - unfold out_of_bounds in E. rewrite Ea in E.
    split; rewrite ?with_cache_elementSize; unfold out_of_bounds; cbn; rewrite ?Ea, ?E; auto; try discriminate.
    intros; exfalso; auto.
  - unfold out_of_bounds in E. rewrite Ea in E. destruct (isResizableArrayBuffer w b) eqn:Er.
    + split; rewrite ?with_cache_elementSize; unfold out_of_bounds; cbn; rewrite ?Ea, ?E; auto; discriminate.
    + destruct Hres as [|[Hdet H0]]; [discriminate|]. Zbool.
      assert (m_originalByteLength x = 0 /\ m_originalByteOffset x = 0) as [Z1 Z2] by lia.
      assert (m_byteLength x = 0 /\ m_byteOffset x = 0) as [Z3 Z4] by (destruct (Hfix eq_refl) as [[]|[]]; lia).
      split; rewrite ?with_cache_elementSize; unfold out_of_bounds; cbn; rewrite ?Ea, ?Z1, ?Z2, ?Z3, ?Z4, ?H0; cbn; auto; try discriminate; try lia.
      intros _. rewrite Z.div_0_l by lia. rewrite Z3 in A2. nia.
Qed.

End Observe.
(** * Frames *)

(** Blocks keep their lengths, and are not freed. *)
Definition blocks_kept (w w' : World) : Prop := forall a blk, blocks w !! a = Some blk ->
  exists blk', blocks w' !! a = Some blk' /\ freed blk' = freed blk /\ length (cells blk') = length (cells blk).

Lemma holds_kept w w' d n : blocks_kept w w' -> holds w d n -> holds w' d n.
Proof.
  intros H. destruct d as [a|]; [|done]. cbn. intros (blk & E & F & L). destruct (H a blk E) as (blk' & E' & F' & L').
  exists blk'. rewrite F', L'. auto.
Qed.
Lemma info_ok_kept w w' x : blocks_kept w w' -> info_ok w x -> info_ok w' x.
Proof.
  intros H (I1 & I2 & I3). split; [done|]. split; [done|].
  destruct (i_growable x); [destruct I3 as [? I3]; split; [done|]|]; eapply holds_kept; eassumption.
Qed.
Lemma live_kept w w' k : blocks_kept w w' -> infos w' = infos w -> live w k -> live w' k.
Proof.
  intros H E. destruct k as [n|[i|]]; cbn; [|rewrite E|done].
  - intros (L1 & L2 & L3). split; [done|]. split; [done|].
    destruct (n_isResizable n); [destruct L3 as [? L3]; split; [done|]|]; eapply holds_kept; eassumption.
  - intros (x & Ex & Hx). exists x. split; [done|]. eapply info_ok_kept; eassumption.
Qed.

Lemma coherent_frame w w' b x :
  byteLength w' b = byteLength w b -> data w' b = data w b ->
  isResizableArrayBuffer w' b = isResizableArrayBuffer w b -> isDetachedBuffer w' b = isDetachedBuffer w b ->
  coherent w b x -> coherent w' b x.
Proof. intros E1 E2 E3 E4 []. split; rewrite ?E1, ?E2, ?E3, ?E4; done. Qed.

Lemma view_ok_frame w w' x :
  (forall b, m_buffer x = Some b -> byteLength w b <= byteLength w' b /\ data w' b = data w b) ->
  view_ok w x -> view_ok w' x.
Proof.
  intros H [S V]. split; [done|]. destruct (m_buffer x) as [b|]; [|done]. destruct (H b eq_refl) as [H1 H2].
  destruct V as [V1 V2 V3 V4 V5]. split; try done. rewrite H2. destruct (m_cachedRawBufferAddress x) as [[a o]|]; [|done].
  destruct V5 as (? & ? & ?). split_and!; [done|done|lia].
Qed.

Lemma same_rest_byteLength w w' : same_rest w w' -> forall b,
  byteLength w' b = byteLength w b /\ data w' b = data w b /\ isResizableArrayBuffer w' b = isResizableArrayBuffer w b /\
  isDetachedBuffer w' b = isDetachedBuffer w b.
Proof.
  intros H b. split; [now apply byteLength_rest|]. split; [|split; [now apply isResizable_rest|]].
  - unfold data. rewrite (backingStore_rest w w' b H). destruct (backingStore w b); cbn; [now apply store_data_rest|done].
  - unfold isDetachedBuffer. now rewrite (the_store_rest w w' b H).
Qed.

Lemma fine_frame host w w' x :
  (forall b, m_buffer x = Some b -> byteLength w' b = byteLength w b /\ data w' b = data w b /\
     isResizableArrayBuffer w' b = isResizableArrayBuffer w b /\ isDetachedBuffer w' b = isDetachedBuffer w b) ->
  fine host w x -> fine host w' x.
Proof.
  intros H [F1 F2]. split.
  - apply (view_ok_frame w); [|done]. intros b Hb. destruct (H b Hb) as (-> & -> & _). split; [lia|done].
  - intros Hh b Hb. destruct (H b Hb) as (? & ? & ? & ?). apply (coherent_frame w); auto.
Qed.

Lemma fine_semi host w b x : m_buffer x = Some b -> fine host w x -> semi host x.
Proof.
  intros Hb [[S V] C]. rewrite Hb in V. destruct V. split; try done. intros Hh. now destruct (C Hh b Hb).
Qed.

(** The memory of a buffer that has a store. *)
Lemma data_holds host w b : Core host w -> holds w (data w b) (byteLength w b) /\ 0 <= byteLength w b < maxArrayBufferSize.
Proof.
  intros C. unfold data, byteLength, backingStore. destruct (the_store w b) as [s|] eqn:E; [|done].
  destruct (c_used _ _ C b s E) as (x & -> & L). cbn. unfold store_data, store_byteLength, store_info.
  destruct (kind x) as [n|[i|]]; cbn in L; [| |done].
  - destruct L as (_ & L1 & L2). split; [|done]. destruct (n_isResizable n); [|done].
    destruct L2 as [L2 L3]. destruct (n_data n) as [a|]; cbn in *; [|lia]. destruct L3 as (blk & ? & ? & ?). exists blk. split_and!; auto; lia.
  - destruct L as (y & -> & L1 & L2 & L3). cbn. split; [|done]. destruct (i_growable y); [|done].
    destruct L3 as [L3 L4]. destruct (i_data y) as [a|]; cbn in *; [|lia]. destruct L4 as (blk & ? & ? & ?). exists blk. split_and!; auto; lia.
Qed.

Lemma observe_fine host w b x : Core host w -> m_buffer x = Some b -> semi host x ->
  (host = false -> isResizableArrayBuffer w b = true \/ isDetachedBuffer w b = true) ->
  fine host w (observe w x (data w b) (byteLength w b)).
Proof.
  intros C Hb [S1 [S2 S2'] S3 S4] Hres. destruct (data_holds host w b C) as [D1 D2].
  assert (Hd : data w b = None -> byteLength w b <= 0) by (intros E; rewrite E in D1; exact D1).
  destruct (observe_static w x (data w b) (byteLength w b)) as (_ & Eb & _).
  split; [split|].
  - now apply observe_static_ok.
  - rewrite Eb, Hb. eapply observe_view_in; eauto; lia.
  - intros Hh b' Hb'. rewrite Eb, Hb in Hb'. injection Hb' as <-. eapply observe_coherent; eauto; try lia.
    destruct (Hres Hh) as [|Hdet]; [now left|right]. split; [done|].
    unfold isDetachedBuffer in Hdet. unfold byteLength, backingStore. now destruct (the_store w b).
Qed.

Lemma core_rest host w w' : same_rest w w' -> wires w' = wires w -> Core host w -> Core host w'.
Proof.
  intros H Ew C. pose proof (the_store_rest w w') as Et. destruct H as (H1 & H2 & H3 & H4).
  assert (HL : forall k, live w k -> live w' k).
  { intros k. apply live_kept; [|done]. intros a blk Ea. exists blk. now rewrite H1. }
  destruct C. split.
  - now rewrite Ew.
  - intros s x. rewrite H3. intros E. destruct (c_live0 s x E); [now left|right; auto].
  - intros b s. rewrite Et, H3 by done. intros E. destruct (c_used0 b s E) as (x & ? & ?). eauto.
  - intros o1 o2 a X1 X2. apply (c_owner0 o1 o2 a); [destruct o1|destruct o2]; cbn in *; rewrite ?H2, ?H3 in *; done.
  - intros o a X. rewrite H1. apply (c_block0 o a). destruct o; cbn in *; rewrite ?H2, ?H3 in *; done.
  - intros i x. rewrite H2. unfold users. rewrite H3. apply c_users0.
  - intros Hh s1 s2 x1 x2 i. rewrite H3. now apply c_alone0.
Qed.

Lemma flags_rest w w' : same_rest w w' -> flags w -> flags w'.
Proof.
  intros H F b s x. rewrite (the_store_rest w w'), (isResizable_rest w w') by done. destruct H as (_ & H2 & H3 & _).
  rewrite H3. intros E1 E2. rewrite (F b s x E1 E2). unfold store_isResizable, store_info. now rewrite H2.
Qed.

Lemma wires_views w w' : same_rest w w' -> (forall v, m_buffer <$> views w' !! v = m_buffer <$> views w !! v) -> wires w' = wires w.
Proof.
  intros (_ & _ & H3 & H4) H. unfold wires. rewrite H3, H4. f_equal. apply list_eq. intros v. now rewrite !list_lookup_fmap.
Qed.

(** After the views of a buffer, or of a store, have observed it, all is well. *)
Section Refresh.
Context (host : bool) (w w' : World) (P : ArrayBufferView -> Prop) `{forall y, Decision (P y)} (d : option nat) (L : Z).
Context (HC : Core host w) (Hrest : same_rest w w')
  (Hspec : forall v, views w' !! v = (fun y => if decide (P y) then observe w y d L else y) <$> views w !! v).

Lemma refresh :
  (forall v y, views w !! v = Some y -> P y -> exists b, m_buffer y = Some b /\ data w b = d /\ byteLength w b = L /\
     (host = false -> isResizableArrayBuffer w b = true \/ isDetachedBuffer w b = true) /\ semi host y) ->
  (forall v y, views w !! v = Some y -> ~ P y -> fine host w y) ->
  Calm host w'.
Proof.
  intros H1 H2.
  assert (Ew : wires w' = wires w).
  { apply wires_views; [done|]. intros v. rewrite Hspec. destruct (views w !! v) as [y|]; [|done]. cbn.
    case_decide; [|done]. f_equal. apply (observe_static w y d L). }
  split; [now apply (core_rest host w)|].
  intros v x. rewrite Hspec. destruct (views w !! v) as [y|] eqn:Ev; [|done]. intros [= <-].
  apply (fine_frame host w); [intros b _; now apply same_rest_byteLength|].
  case_decide as HP; [|now apply (H2 v)].
  destruct (H1 v y Ev HP) as (b & Hb & <- & <- & Hr & Hs). now apply observe_fine.
Qed.
End Refresh.

Lemma refresh_buffer host w b : Core host w ->
  (host = false -> isResizableArrayBuffer w b = true \/ isDetachedBuffer w b = true) ->
  (forall v y, views w !! v = Some y -> m_buffer y = Some b -> semi host y) ->
  (forall v y, views w !! v = Some y -> m_buffer y <> Some b -> fine host w y) ->
  Calm host (backingStoreObserver (data w b) (byteLength w b) b w).
Proof.
  intros HC Hr H1 H2. destruct (backingStoreObserver_spec w (c_wired _ _ HC) b (data w b) (byteLength w b)) as [E1 E2].
  eapply refresh; [exact HC|exact E1|exact E2| |exact H2].
  intros v y Ev Hb. exists b. split_and!; auto. eapply H1; eassumption.
Qed.

(** A buffer without views has nobody to tell. *)
Lemma refresh_buffer_alone host w b : Core host w -> (forall v y, views w !! v = Some y -> m_buffer y <> Some b) ->
  (forall v y, views w !! v = Some y -> fine host w y) ->
  Calm host (backingStoreObserver (data w b) (byteLength w b) b w).
Proof.
  intros HC H1 H2. destruct (backingStoreObserver_spec w (c_wired _ _ HC) b (data w b) (byteLength w b)) as [E1 E2].
  eapply refresh; [exact HC|exact E1|exact E2| |eauto].
  intros v y Ev Hb. destruct (H1 v y Ev Hb).
Qed.

Lemma refresh_store host w s x : Core host w -> flags w -> stores w !! s = Some x ->
  (host = false -> store_isResizable w x = true) ->
  (forall v y, views w !! v = Some y -> store_of w y = Some s -> semi host y) ->
  (forall v y, views w !! v = Some y -> store_of w y <> Some s -> fine host w y) ->
  Base host (store_bufferUpdated s (store_data w x) (store_byteLength w x) w).
Proof.
  intros HC HF Es Hr H1 H2. destruct (store_bufferUpdated_spec w (c_wired _ _ HC) s (store_data w x) (store_byteLength w x) x Es) as [E1 E2].
  split; [|now apply (flags_rest w)].
  eapply refresh; [exact HC|exact E1|exact E2| |exact H2].
  intros v y Ev Hs. pose proof (H1 v y Ev Hs) as Hsemi. unfold store_of in Hs. destruct (m_buffer y) as [b|]; [|done].
  exists b. split; [done|]. unfold data, byteLength, backingStore. rewrite Hs, Es. split_and!; [done|done| |done].
  intros Hh. left. rewrite (HF b s x Hs Es). auto.
Qed.

(** The stores, buffers and views stay as they are; blocks are kept. *)
Lemma base_kept host w w' : Base host w -> blocks_kept w w' ->
  infos w' = infos w -> stores w' = stores w -> buffers w' = buffers w -> views w' = views w -> Base host w'.
Proof.
  intros [[[] Hv] HF] Hk Ei Es Eb Ev.
  assert (Ew : wires w' = wires w) by (unfold wires; congruence).
  assert (Ei' : forall x, store_info w' x = store_info w x) by (intros; unfold store_info; now rewrite Ei).
  assert (Et : forall b, the_store w' b = the_store w b) by (intros; unfold the_store; now rewrite Eb).
  assert (Hbd : forall b, byteLength w' b = byteLength w b /\ data w' b = data w b /\
     isResizableArrayBuffer w' b = isResizableArrayBuffer w b /\ isDetachedBuffer w' b = isDetachedBuffer w b).
  { intros b. unfold byteLength, data, isResizableArrayBuffer, isDetachedBuffer, backingStore. rewrite !Et, Eb, Es.
    destruct (the_store w b) as [s|]; cbn; [|done]. destruct (stores w !! s); cbn; [|done].
    unfold store_byteLength, store_data. now rewrite !Ei'. }
  split; [split; [split|]|].
  - now rewrite Ew.
  - intros s x. rewrite Es. intros H. destruct (c_live0 s x H); [now left|right]. eapply live_kept; eassumption.
  - intros b s. rewrite Et, Es. intros H. destruct (c_used0 b s H) as (x & E & Hx). exists x. split; [done|]. eapply live_kept; eassumption.
  - intros o1 o2 a X1 X2. apply (c_owner0 o1 o2 a); [destruct o1|destruct o2]; cbn in *; rewrite ?Ei, ?Es in *; done.
  - intros o a X. destruct (c_block0 o a) as [blk E]; [destruct o; cbn in *; rewrite ?Ei, ?Es in *; done|].
    destruct (Hk a blk E) as (blk' & -> & _). eauto.
  - intros i x. rewrite Ei. unfold users. rewrite Es. apply c_users0.
  - intros Hh s1 s2 x1 x2 i. rewrite Es. now apply c_alone0.
  - intros v x. rewrite Ev. intros H. apply (fine_frame host w); [|now apply (Hv v)]. intros b _. apply Hbd.
  - intros b s x. rewrite Et, Es. intros H E. destruct (Hbd b) as (_ & _ & -> & _). rewrite (HF b s x H E).
    unfold store_isResizable. now rewrite Ei'.
Qed.

End Invariant.

(** * The steps of the operations keep the invariant *)
Module Steps.
Import Effects Buffers Wiring Notified Invariant.

Lemma lookup_snoc_decide {A} (l : list A) x i : (l ++ [x]) !! i = if decide (i = length l) then Some x else l !! i.
Proof.
  case_decide as E.
  - subst. now apply list_lookup_middle.
  - destruct (decide (i < length l)%nat); [now apply lookup_app_l|].
    rewrite lookup_app_r by lia. rewrite (lookup_ge_None_2 l) by lia. destruct (i - length l)%nat eqn:E2; [lia|done].
Qed.
Lemma fmap_snoc_decide {A B} (f : A -> B) (l : list A) x i :
  (f <$> l ++ [x]) !! i = if decide (i = length l) then Some (f x) else (f <$> l) !! i.
Proof. rewrite fmap_app. change (f <$> [x]) with [f x]. now rewrite lookup_snoc_decide, length_fmap. Qed.
Lemma lookup_alter_decide {A} (f : A -> A) (l : list A) k i :
  alter f k l !! i = if decide (i = k) then f <$> l !! i else l !! i.
Proof. case_decide; [subst; apply list_lookup_alter_eq|now apply list_lookup_alter_ne]. Qed.

Section Host.
Context (host : bool).
Let Core := Core host.
Let Base := Base host.

(** ** New things *)
Lemma base_new_buffer w sh : Base w -> Base (upd_buffers (fun l => l ++ [mkBuffer false None [] sh]) w).
Proof.
  intros [[[] Hv] HF]. set (w' := upd_buffers _ w).
  assert (Eb : forall b, buffers w' !! b = if decide (b = length (buffers w)) then Some (mkBuffer false None [] sh) else buffers w !! b)
    by (intros; apply lookup_snoc_decide).
  assert (Et : forall b, the_store w' b = the_store w b).
  { intros b. unfold the_store. rewrite Eb. case_decide as E; [|done]. now rewrite (lookup_ge_None_2 (buffers w) b) by lia. }
  assert (Hbd : forall b, byteLength w' b = byteLength w b /\ data w' b = data w b /\ isDetachedBuffer w' b = isDetachedBuffer w b).
  { intros b. unfold byteLength, data, isDetachedBuffer, backingStore. rewrite Et. done. }
  assert (Er : forall b, isResizableArrayBuffer w' b = isResizableArrayBuffer w b).
  { intros b. unfold isResizableArrayBuffer. rewrite Eb. case_decide as E; [|done].
    now rewrite (lookup_ge_None_2 (buffers w) b) by lia. }
  split; [split; [split|]|].
  - destruct c_wired0 as [W1 W2]. split.
    + apply (linked_ext _ _ _ _ (fun _ => eq_refl)) with
        (2 := linked_new_down _ _ (length (buffers w)) W1 ltac:(cbn; rewrite list_lookup_fmap, lookup_ge_None_2 by lia; done)).
      intros b. unfold w', wires. cbn [fst snd stores buffers views upd_stores upd_buffers upd_views]. rewrite fmap_snoc_decide. now case_decide.
    + apply (linked_ext _ _ _ _) with (3 := linked_new_up _ _ (length (buffers w)) W2
        ltac:(cbn; rewrite list_lookup_fmap, lookup_ge_None_2 by lia; done)); [|done].
      intros b. unfold w', wires. cbn [fst snd stores buffers views upd_stores upd_buffers upd_views]. rewrite fmap_snoc_decide. now case_decide.
  - exact c_live0.
  - intros b s. rewrite Et. apply c_used0.
  - exact c_owner0.
  - exact c_block0.
  - exact c_users0.
  - exact c_alone0.
  - intros v x Ev. apply (fine_frame host w); [|now apply (Hv v)]. intros b _. destruct (Hbd b) as (? & ? & ?). now rewrite Er.
  - intros b s x. rewrite Et, Er. apply HF.
Qed.

Lemma base_new_view w k : Base w -> Base (upd_views (fun l => l ++ [mkView k None None 0 0 0 0 0 false false]) w).
Proof.
  intros [[C Hv] HF]. set (w' := upd_views _ w). destruct C. split; [split; [split; try done|]|exact HF].
  - destruct c_wired0 as [W1 W2]. split; [done|].
    apply (linked_ext _ _ _ _ (fun _ => eq_refl)) with
      (2 := linked_new_down _ _ (length (views w)) W2 ltac:(cbn; rewrite list_lookup_fmap, lookup_ge_None_2 by lia; done)).
    intros v. unfold w', wires. cbn [fst snd stores buffers views upd_stores upd_buffers upd_views]. rewrite fmap_snoc_decide. now case_decide.
  - intros v x. cbn. rewrite lookup_snoc_decide. case_decide; [|intros Ev; apply (fine_frame host w); [now intros|now apply (Hv v)]].
    intros [= <-]. split; [|now intros]. split; [split; cbn; lia|done].
Qed.

(** A new store: its block, or its share of one, belongs to nobody else. *)
Definition fresh_kind (w : World) (k : StoreKind) : Prop :=
  live w k /\
  match k with
  | NonShared n => forall a, n_data n = Some a -> forall o, ~ owner w o a
  | Shared (Some i) => exists x, infos w !! i = Some x /\ users w i < i_refCount x /\ (host = false -> users w i = 0)
  | Shared None => False
  end.
Lemma live_block w n a : live w (NonShared n) -> n_data n = Some a -> is_Some (blocks w !! a).
Proof.
  intros (_ & _ & L) D. assert (H : exists m, holds w (n_data n) m) by (destruct (n_isResizable n); [destruct L|]; eauto).
  rewrite D in H. destruct H as (m & blk & E & _). eauto.
Qed.
Lemma users_zero w i : users w i = 0 -> forall s x, stores w !! s = Some x -> kind x <> Shared (Some i).
Proof.
  unfold users. intros H s x E Hk. assert (In x (List.filter (uses i) (stores w))) as Hin.
  { apply filter_In. split; [apply list_elem_of_In; now apply (list_elem_of_lookup_2 _ s)|]. unfold uses. rewrite Hk. now apply bool_decide_eq_true. }
  destruct (List.filter (uses i) (stores w)); [done|]. cbn in H. lia.
Qed.

Lemma base_new_store w k : Base w -> fresh_kind w k -> Base (upd_stores (fun l => l ++ [mkStore k []]) w).
Proof.
  intros [[C Hv] HF] [Hlive Hfresh]. set (w' := upd_stores _ w). destruct C.
  assert (Es : forall s, stores w' !! s = if decide (s = length (stores w)) then Some (mkStore k []) else stores w !! s)
    by (intros; apply lookup_snoc_decide).
  assert (Hold : forall s x, stores w !! s = Some x -> stores w' !! s = Some x).
  { intros s x E. rewrite Es. case_decide; [|done]. apply lookup_lt_Some in E. lia. }
  assert (Ebs : forall b, backingStore w' b = backingStore w b).
  { intros b. unfold backingStore. change (the_store w' b) with (the_store w b). destruct (the_store w b) as [s|] eqn:E; [|done].
    destruct (c_used0 b s E) as (x & Ex & _). now rewrite (Hold s x Ex), Ex. }
  split; [split; [split|]|].
  - destruct c_wired0 as [W1 W2]. split; [|done].
    apply (linked_ext _ _ _ _) with (3 := linked_new_up _ _ (length (stores w)) W1
      ltac:(cbn; rewrite list_lookup_fmap, lookup_ge_None_2 by lia; done)); [|done].
    intros s. unfold w', wires. cbn [fst snd stores buffers views upd_stores upd_buffers upd_views]. rewrite fmap_snoc_decide. now case_decide.
  - intros s x. rewrite Es. case_decide; [intros [= <-]; now right|apply c_live0].
  - intros b s E. destruct (c_used0 b s E) as (x & Ex & L). exists x. split; [now apply Hold|done].
  - assert (Hown : forall o a, owner w' o a -> owner w o a \/
       (o = inl (length (stores w)) /\ exists n, k = NonShared n /\ n_data n = Some a)).
    { intros [s|i] a; [|now left]. intros (x & n & E & Ek & Ha & Hd). rewrite Es in E. case_decide as E1.
      - subst. injection E as <-. right. split; [done|]. exists n. done.
      - left. exists x, n. done. }
    intros o1 o2 a H1 H2. destruct (Hown o1 a H1) as [O1|[-> (n1 & -> & E1)]], (Hown o2 a H2) as [O2|[-> (n2 & E & E2)]]; try done.
    + now apply (c_owner0 o1 o2 a).
    + subst k. destruct (Hfresh a E2 o1 O1).
    + destruct (Hfresh a E1 o2 O2).
  - intros [s|i] a H; [|now apply (c_block0 (inr i) a)]. destruct H as (x & n & E & Kx & A & D). rewrite Es in E. case_decide.
    + injection E as <-. cbn in Kx. subst k. apply (live_block w n a); [done|done].
    + apply (c_block0 (inl s) a). now exists x, n.
  - intros i x Ei. specialize (c_users0 i x Ei). unfold users in *. cbn. rewrite List.filter_app, length_app. cbn.
    destruct (uses i (mkStore k [])) eqn:E; [|cbn; lia]. unfold uses in E. cbn in E. destruct k as [|[j|]]; try done.
    apply bool_decide_eq_true in E as ->. destruct Hfresh as (y & Ey & Hu & _). unfold users in Hu. cbn in *. simplify_eq. lia.
  - intros Hh s1 s2 x1 x2 i. rewrite !Es.
    assert (Hnot : forall s x, stores w !! s = Some x -> kind x = Shared (Some i) -> k = Shared (Some i) -> False).
    { intros s x E Ek ->. destruct Hfresh as (y & _ & _ & Hz). now apply (users_zero w i (Hz Hh) s x). }
    destruct (decide (s1 = length (stores w))) as [->|], (decide (s2 = length (stores w))) as [->|]; [done| | |].
    + intros [= <-] E2 K1 K2. exfalso. eauto.
    + intros E1 [= <-] K1 K2. exfalso. eauto.
    + now apply c_alone0.
  - intros v x Ev. apply (fine_frame host w); [|now apply (Hv v)]. intros b _. unfold byteLength, data. rewrite !Ebs. done.
  - intros b s x E. destruct (c_used0 b s E) as (y & Ey & L). rewrite (Hold s y Ey). intros [= <-]. now apply (HF b s).
Qed.

(** ** Rewiring: the kinds of the stores and all memory stay *)
Definition same_kinds (w w' : World) : Prop :=
  blocks w' = blocks w /\ infos w' = infos w /\ kind <$> stores w' = kind <$> stores w.

Lemma same_kinds_lookup w w' s x' : same_kinds w w' -> stores w' !! s = Some x' ->
  exists x, stores w !! s = Some x /\ kind x' = kind x /\ store_isResizable w' x' = store_isResizable w x /\
    store_byteLength w' x' = store_byteLength w x /\ store_data w' x' = store_data w x.
Proof.
  intros (_ & Ei & Ek) E. assert (E2 : (kind <$> stores w') !! s = Some (kind x')) by now rewrite list_lookup_fmap, E.
  rewrite Ek, list_lookup_fmap in E2. destruct (stores w !! s) as [x|]; [|done]. injection E2 as E2. exists x.
  unfold store_isResizable, store_byteLength, store_data, store_info. now rewrite Ei, E2.
Qed.
Lemma same_kinds_sym w w' : same_kinds w w' -> same_kinds w' w.
Proof. now intros (? & ? & ?). Qed.
Lemma same_kinds_trans w1 w2 w3 : same_kinds w1 w2 -> same_kinds w2 w3 -> same_kinds w1 w3.
Proof. intros (? & ? & ?) (? & ? & ?). repeat split; congruence. Qed.
Lemma same_kinds_live w w' k : same_kinds w w' -> live w k -> live w' k.
Proof. intros (Eb & Ei & _). apply live_kept; [|done]. intros a blk E. exists blk. rewrite Eb. auto. Qed.

Definition uses_kind (i : nat) (k : StoreKind) : bool :=
  match k with Shared (Some j) => bool_decide (j = i) | _ => false end.
Lemma users_kinds w i : users w i = Z.of_nat (length (List.filter (uses_kind i) (kind <$> stores w))).
Proof.
  unfold users. f_equal. induction (stores w) as [|x l IH]; [done|]. cbn.
  change (uses_kind i (kind x)) with (uses i x). destruct (uses i x); cbn; now rewrite IH.
Qed.

Lemma core_rewired w w' : Core w -> same_kinds w w' -> wired (wires w') ->
  (forall b s, the_store w' b = Some s -> exists x, stores w !! s = Some x /\ live w (kind x)) ->
  Core w'.
Proof.
  intros [] Hk Hw Hs. pose proof Hk as (Eb & Ei & Ek). split; [done| | | | | |].
  - intros s x E. destruct (same_kinds_lookup w w' s x Hk E) as (y & Ey & -> & _).
    destruct (c_live0 s y Ey); [now left|right]. now apply (same_kinds_live w).
  - intros b s E. destruct (Hs b s E) as (x & Ex & L).
    destruct (stores w' !! s) as [x'|] eqn:E'.
    + destruct (same_kinds_lookup w w' s x' Hk E') as (y & Ey & E1 & _). exists x'. split; [done|]. rewrite E1.
      apply (same_kinds_live w); [done|]. congruence.
    + assert (E2 : (kind <$> stores w) !! s = Some (kind x)) by now rewrite list_lookup_fmap, Ex.
      rewrite <- Ek, list_lookup_fmap, E' in E2. done.
  - assert (Ho : forall o a, owner w' o a -> owner w o a).
    { intros [s|i] a; cbn; [|now rewrite Ei]. intros (x & n & E & E1 & E2).
      destruct (same_kinds_lookup w w' s x Hk E) as (y & Ey & E3 & _). exists y, n. split; [done|]. split; [congruence|done]. }
    intros o1 o2 a H1 H2. apply (c_owner0 o1 o2 a); auto.
  - intros [s|i] a H; rewrite Eb; [|apply (c_block0 (inr i) a); cbn in *; now rewrite Ei in H].
    destruct H as (x & n & E & E1 & E2). destruct (same_kinds_lookup w w' s x Hk E) as (y & Ey & E3 & _).
    apply (c_block0 (inl s) a). exists y, n. split; [done|]. split; [congruence|done].
  - intros i x. rewrite Ei, users_kinds, Ek, <- users_kinds. apply c_users0.
  - intros Hh s1 s2 x1 x2 i E1 E2 K1 K2.
    destruct (same_kinds_lookup w w' s1 x1 Hk E1) as (y1 & Ey1 & F1 & _), (same_kinds_lookup w w' s2 x2 Hk E2) as (y2 & Ey2 & F2 & _).
    apply (c_alone0 Hh s1 s2 y1 y2 i); congruence.
Qed.

(** What a buffer shows depends on its store only. *)
Lemma same_buffer w w' b : same_kinds w w' -> the_store w' b = the_store w b ->
  isResizableArrayBuffer w' b = isResizableArrayBuffer w b ->
  byteLength w' b = byteLength w b /\ data w' b = data w b /\
  isResizableArrayBuffer w' b = isResizableArrayBuffer w b /\ isDetachedBuffer w' b = isDetachedBuffer w b.
Proof.
  intros Hk Et Er. unfold byteLength, data, isDetachedBuffer, backingStore. rewrite Et.
  destruct (the_store w b) as [s|]; [|done]. destruct (stores w' !! s) as [x'|] eqn:E'.
  - destruct (same_kinds_lookup w w' s x' Hk E') as (y & -> & _ & _ & E1 & E2). cbn. now rewrite E1, E2.
  - destruct (stores w !! s) as [x|] eqn:E; [|done].
    destruct (same_kinds_lookup w' w s x (same_kinds_sym _ _ Hk) E) as (y & ? & _). congruence.
Qed.

Lemma alter_kind f s (l : list BackingStore) : (forall x, kind (f x) = kind x) -> kind <$> alter f s l = kind <$> l.
Proof.
  intros H. apply list_eq. intros i. rewrite !list_lookup_fmap, lookup_alter_decide. case_decide; [|done].
  destruct (l !! i); cbn; [now rewrite H|done].
Qed.

(** The first half of [updateBackingStore]: the buffer leaves its store. *)
Definition leave (b : nat) (w : World) : World :=
  upd_buffers (alter (set_store None) b)
    match the_store w b with
    | Some old => upd_stores (alter (set_observers (removeObserver b)) old) w
    | None => w
    end.
Definition join (b s : nat) (w : World) : World :=
  upd_stores (alter (set_observers (addObserver b)) s) (upd_buffers (alter (set_store (Some s)) b) w).

Lemma buffers_set_store b bs w c :
  the_store (upd_buffers (alter (set_store bs) b) w) c =
    (if decide (c = b) then match buffers w !! b with Some _ => bs | None => None end else the_store w c).
Proof.
  unfold the_store. cbn. rewrite lookup_alter_decide. destruct (decide (c = b)) as [->|]; [|done]. now destruct (buffers w !! b).
Qed.
Lemma resizable_set_store b bs w c :
  isResizableArrayBuffer (upd_buffers (alter (set_store bs) b) w) c = isResizableArrayBuffer w c.
Proof.
  unfold isResizableArrayBuffer. cbn. rewrite lookup_alter_decide. case_decide; [|done]. now destruct (buffers w !! c).
Qed.

Lemma the_store_wire w b : the_store w b = match (wires w).1.2 !! b with Some p => p.1 | None => None end.
Proof. unfold the_store, wires. cbn. rewrite list_lookup_fmap. now destruct (buffers w !! b). Qed.

Lemma leave_spec w b : Core w -> Core (leave b w) /\ same_kinds w (leave b w) /\ views (leave b w) = views w /\
  (forall c, the_store (leave b w) c = if decide (c = b) then None else the_store w c) /\
  (forall c, isResizableArrayBuffer (leave b w) c = isResizableArrayBuffer w c).
Proof.
  intros C.
  assert (Hk : same_kinds w (leave b w)).
  { unfold leave. destruct (the_store w b); [|done]. split; [done|]. split; [done|]. now apply alter_kind. }
  assert (Et : forall c, the_store (leave b w) c = if decide (c = b) then None else the_store w c).
  { intros c. unfold leave. rewrite buffers_set_store. destruct (decide (c = b)); [now destruct (buffers _ !! b)|].
    now destruct (the_store w b). }
  assert (Er : forall c, isResizableArrayBuffer (leave b w) c = isResizableArrayBuffer w c).
  { intros c. unfold leave. rewrite resizable_set_store. now destruct (the_store w b). }
  split_and!; [|done| |done|done].
  2:{ unfold leave. now destruct (the_store w b). }
  apply (core_rewired w); [done|done| |].
  - destruct (c_wired _ _ C) as [W1 W2].
    assert (Hsnd : forall w0, (forall c, b_observers <$> buffers w0 !! c = b_observers <$> buffers w !! c) -> views w0 = views w ->
      linked (fun b => snd <$> (wires w0).1.2 !! b) (fun v => (wires w0).2 !! v)).
    { intros w0 H Hv. apply (linked_ext _ _ _ _) with (3 := W2); intros i; unfold wires; cbn; rewrite ?Hv; [|done].
      rewrite !list_lookup_fmap. specialize (H i). destruct (buffers w0 !! i), (buffers w !! i); cbn in *; congruence. }
    split.
    + unfold leave. destruct (the_store w b) as [old|] eqn:Eo.
      * assert (Hb : exists y, buffers w !! b = Some y /\ m_backingStore y = Some old).
        { unfold the_store in Eo. destruct (buffers w !! b); [eauto|done]. }
        destruct Hb as (y & Ey & Eold). destruct (c_used _ _ C b old Eo) as (x & Ex & _).
        apply (linked_ext _ _ _ _) with (3 := linked_disconnect _ _ old b (s_observers x) W1
          ltac:(now apply wires_store) ltac:(cbv beta; now rewrite (wires_buffer w b y Ey), <- Eold)).
        -- intros s. unfold wires. cbn. rewrite !list_lookup_fmap, lookup_alter_decide. case_decide; [|done]. subst. now rewrite Ex.
        -- intros c. unfold wires. cbn. rewrite !list_lookup_fmap, lookup_alter_decide. case_decide; [|done]. subst. now rewrite Ey.
      * apply (linked_ext _ _ _ _) with (3 := W1); [done|]. intros c. unfold wires. cbn. rewrite !list_lookup_fmap, lookup_alter_decide.
        case_decide as E; [|done]. subst. unfold the_store in Eo. destruct (buffers w !! b) as [y|]; cbn; [now rewrite Eo|done].
    + apply Hsnd; [|unfold leave; now destruct (the_store w b)]. intros c.
      assert (buffers (leave b w) = alter (set_store None) b (buffers w)) as -> by (unfold leave; now destruct (the_store w b)).
      rewrite lookup_alter_decide. case_decide; [|done]. now destruct (buffers w !! c).
  - intros c s. rewrite Et. case_decide; [done|]. intros E. destruct (c_used _ _ C c s E) as (x & Ex & L). now exists x.
Qed.

Lemma updateBackingStore_None b w : updateBackingStore b None w = backingStoreObserver None 0 b (leave b w).
Proof. unfold updateBackingStore, leave. now destruct (the_store w b). Qed.
Lemma updateBackingStore_Some b s w : the_store w b = None ->
  updateBackingStore b (Some s) w =
  let w1 := join b s w in
  let w2 := backingStoreObserver (data w1 b) (byteLength w1 b) b w1 in
  upd_buffers (alter (set_isResizable (default false (store_isResizable w2 <$> stores w2 !! s))) b) w2.
Proof. intros E. unfold updateBackingStore. rewrite E. done. Qed.

Lemma flags_kinds w w' : flags w -> same_kinds w w' ->
  (forall b s, the_store w' b = Some s -> the_store w b = Some s) ->
  (forall b, isResizableArrayBuffer w' b = isResizableArrayBuffer w b) -> flags w'.
Proof.
  intros F Hk Hs Hr b s x Hb Es. destruct (same_kinds_lookup w w' s x Hk Es) as (y & Ey & _ & -> & _).
  rewrite Hr. apply (F b s); auto.
Qed.

Lemma base_detach w b : Base w -> Base (updateBackingStore b None w).
Proof.
  intros [[C Hv] HF]. rewrite updateBackingStore_None. destruct (leave_spec w b C) as (C' & Hk & Ev & Et & Er).
  assert (Ed : data (leave b w) b = None /\ byteLength (leave b w) b = 0).
  { unfold data, byteLength, backingStore. rewrite Et, decide_True by done. done. }
  destruct Ed as [E1 E2].
  split.
  - rewrite <- E1, <- E2. apply refresh_buffer; [done| | |].
    + intros _. right. unfold isDetachedBuffer. now rewrite Et, decide_True.
    + intros v y. rewrite Ev. intros E Hb. eapply fine_semi; [exact Hb|now apply (Hv v)].
    + intros v y. rewrite Ev. intros E Hb. apply (fine_frame host w); [|now apply (Hv v)].
      intros c Hc. apply same_buffer; auto. rewrite Et. case_decide; [congruence|done].
  - apply (flags_rest (leave b w)); [apply (backingStoreObserver_spec _ (c_wired _ _ C'))|].
    apply (flags_kinds w); auto. intros c s. rewrite Et. now case_decide.
Qed.

Lemma detach_buffers w b : Base w -> buffers (updateBackingStore b None w) = alter (set_store None) b (buffers w) /\
  same_kinds w (updateBackingStore b None w).
Proof.
  intros [[C _] _]. rewrite updateBackingStore_None. destruct (leave_spec w b C) as (C' & Hk & _).
  destruct (backingStoreObserver_spec (leave b w) (c_wired _ _ C') b None 0) as [(R1 & R2 & R3 & R4) _].
  split.
  - rewrite R4. unfold leave. now destruct (the_store w b).
  - apply (same_kinds_trans _ (leave b w)); [done|]. split_and!; congruence.
Qed.

Lemma join_spec w b s x y : Core w -> buffers w !! b = Some y -> m_backingStore y = None ->
  stores w !! s = Some x -> live w (kind x) ->
  Core (join b s w) /\ same_kinds w (join b s w) /\ views (join b s w) = views w /\
  (forall c, the_store (join b s w) c = if decide (c = b) then Some s else the_store w c) /\
  (forall c, isResizableArrayBuffer (join b s w) c = isResizableArrayBuffer w c).
Proof.
  intros C Ey Eno Ex Hlive.
  assert (Hk : same_kinds w (join b s w)).
  { split; [done|]. split; [done|]. unfold join. cbn. now apply alter_kind. }
  assert (Et : forall c, the_store (join b s w) c = if decide (c = b) then Some s else the_store w c).
  { intros c. change (the_store (join b s w) c) with (the_store (upd_buffers (alter (set_store (Some s)) b) w) c).
    rewrite buffers_set_store, Ey. done. }
  split_and!; [|done|done|done|].
  2:{ intros c. change (isResizableArrayBuffer (join b s w) c) with (isResizableArrayBuffer (upd_buffers (alter (set_store (Some s)) b) w) c).
      apply resizable_set_store. }
  apply (core_rewired w); [done|done| |].
  - destruct (c_wired _ _ C) as [W1 W2]. split.
    + apply (linked_ext _ _ _ _) with (3 := linked_connect _ _ s b (s_observers x) W1
        ltac:(now apply wires_store) ltac:(cbv beta; now rewrite (wires_buffer w b y Ey), <- Eno)).
      * intros u. unfold wires. cbn. rewrite !list_lookup_fmap, lookup_alter_decide. case_decide; [|done]. subst. now rewrite Ex.
      * intros c. unfold wires. cbn. rewrite !list_lookup_fmap, lookup_alter_decide. case_decide; [|done]. subst. now rewrite Ey.
    + apply (linked_ext _ _ _ _) with (3 := W2); [|done]. intros c. unfold wires. cbn.
      rewrite !list_lookup_fmap, lookup_alter_decide. case_decide; [|done]. now destruct (buffers w !! c).
  - intros c u. rewrite Et. case_decide; [intros [= <-]; eauto|apply (c_used _ _ C)].
Qed.

(** The flag of one buffer changes. *)
Lemma calm_set_flag w b r : Calm host w -> (host = false -> forall v y, views w !! v = Some y -> m_buffer y <> Some b) ->
  Calm host (upd_buffers (alter (set_isResizable r) b) w).
Proof.
  intros [C Hv] Hno. set (w' := upd_buffers _ w).
  assert (Et : forall c, the_store w' c = the_store w c).
  { intros c. unfold the_store. cbn. rewrite lookup_alter_decide. case_decide; [|done]. now destruct (buffers w !! c). }
  assert (Ew : wires w' = wires w).
  { unfold wires. cbn. f_equal. f_equal. apply list_eq. intros c. rewrite !list_lookup_fmap, lookup_alter_decide.
    case_decide; [|done]. now destruct (buffers w !! c). }
  split.
  - apply (core_rewired w); [done|done|now rewrite Ew; apply C|]. intros c s. rewrite Et. apply (c_used _ _ C).
  - intros v x E. destruct (Hv v x E) as [F1 F2]. split.
    + apply (view_ok_frame w); [|done]. intros c _. unfold byteLength, data, backingStore. rewrite !Et. split; [|done].
      change (stores w') with (stores w). change (store_byteLength w') with (store_byteLength w). lia.
    + intros Hh c Hc. apply (coherent_frame w); auto.
      * unfold byteLength, backingStore. now rewrite Et.
      * unfold data, backingStore. now rewrite Et.
      * unfold isResizableArrayBuffer. cbn. rewrite lookup_alter_decide. case_decide; [|done]. subst c. now destruct (Hno Hh v x E).
      * unfold isDetachedBuffer. now rewrite Et.
Qed.

Lemma base_attach w b s x y : Base w -> buffers w !! b = Some y -> m_backingStore y = None ->
  stores w !! s = Some x -> live w (kind x) ->
  (host = false -> forall v z, views w !! v = Some z -> m_buffer z <> Some b) ->
  Base (updateBackingStore b (Some s) w) /\ same_kinds w (updateBackingStore b (Some s) w) /\
  buffers (updateBackingStore b (Some s) w) =
    alter (set_isResizable (store_isResizable w x)) b (alter (set_store (Some s)) b (buffers w)) /\
  (forall v z', views (updateBackingStore b (Some s) w) !! v = Some z' -> exists z, views w !! v = Some z /\ m_buffer z' = m_buffer z).
Proof.
  intros [[C Hv] HF] Ey Eno Ex Hlive Hno.
  assert (Est : the_store w b = None) by (unfold the_store; now rewrite Ey).
  rewrite (updateBackingStore_Some b s w Est). cbv zeta.
  destruct (join_spec w b s x y C Ey Eno Ex Hlive) as (C1 & Hk & Ev & Et & Er).
  set (w1 := join b s w) in *. set (w2 := backingStoreObserver (data w1 b) (byteLength w1 b) b w1).
  destruct (backingStoreObserver_spec w1 (c_wired _ _ C1) b (data w1 b) (byteLength w1 b)) as [R Hspec]. fold w2 in R, Hspec.
  assert (Hfine : forall v z, views w1 !! v = Some z -> m_buffer z <> Some b -> fine host w1 z).
  { intros v z. rewrite Ev. intros E Hb. apply (fine_frame host w); [|now apply (Hv v)].
    intros c Hc. apply same_buffer; auto. rewrite Et. case_decide; [congruence|done]. }
  assert (Hcalm : Calm host w2).
  { destruct host eqn:Eh.
    - apply refresh_buffer; [done|done| |exact Hfine]. intros v z. rewrite Ev. intros E Hb.
      apply (fine_semi _ w b); [done|]. now apply (Hv v).
    - apply refresh_buffer_alone; [done| |].
      + intros v z. rewrite Ev. now apply Hno.
      + intros v z E. apply (Hfine v z E). rewrite Ev in E. now apply (Hno eq_refl v z). }
  assert (Hk2 : same_kinds w w2).
  { apply (same_kinds_trans _ w1); [done|]. destruct R as (? & ? & ? & ?). split_and!; congruence. }
  destruct R as (R1 & R2 & R3 & R4).
  assert (Eflag : default false (store_isResizable w2 <$> stores w2 !! s) = store_isResizable w x).
  { destruct (stores w2 !! s) as [x2|] eqn:E2.
    - destruct (same_kinds_lookup w w2 s x2 Hk2 E2) as (x0 & Ex0 & _ & E3 & _). cbn. rewrite E3. congruence.
    - assert (E3 : (kind <$> stores w) !! s = Some (kind x)) by now rewrite list_lookup_fmap, Ex.
      destruct Hk2 as (_ & _ & Hk2). rewrite <- Hk2, list_lookup_fmap, E2 in E3. done. }
  rewrite Eflag. set (w3 := upd_buffers (alter (set_isResizable (store_isResizable w x)) b) w2).
  assert (Hviews : forall v z', views w2 !! v = Some z' -> exists z, views w !! v = Some z /\ m_buffer z' = m_buffer z).
  { intros v z'. rewrite Hspec, Ev. destruct (views w !! v) as [z|]; [|done]. intros [= <-]. exists z. split; [done|].
    case_decide; [apply observe_static|done]. }
  split_and!; [|exact Hk2|cbn; now rewrite R4|exact Hviews].
  split.
  - apply calm_set_flag; [done|]. intros Hh v z' E. destruct (Hviews v z' E) as (z & Ez & ->). now apply (Hno Hh v).
  - assert (Et3 : forall c, the_store w3 c = if decide (c = b) then Some s else the_store w c).
    { intros c. rewrite <- Et. unfold the_store. change (buffers w3) with (alter (set_isResizable (store_isResizable w x)) b (buffers w2)).
      rewrite lookup_alter_decide, R4. case_decide; [|done]. now destruct (buffers w1 !! c). }
    intros c u x3 Ec Eu. destruct (same_kinds_lookup w w3 u x3 Hk2 Eu) as (x0 & Ex0 & _ & -> & _).
    rewrite Et3 in Ec. unfold isResizableArrayBuffer. cbn. rewrite lookup_alter_decide, R4.
    destruct (decide (c = b)) as [->|Hc].
    + injection Ec as <-. unfold w1, join. cbn. rewrite lookup_alter_decide, decide_True, Ey by done. cbn. congruence.
    + unfold w1, join. cbn. rewrite lookup_alter_decide, decide_False by done. now apply (HF c u).
Qed.

(** A view gets its buffer. *)
Definition connected (w : World) (x : ArrayBufferView) (b : nat) (off len alen : Z) (auto : bool) : ArrayBufferView :=
  mkView (v_kind x) (Some b) (plus (data w b) off) len off alen len off auto (m_wasResetByInvalidByteLength x).

(** What the constructors check. *)
Record fits (w : World) (x : ArrayBufferView) (b : nat) (off len alen : Z) (auto : bool) : Prop := {
  f_offset : 0 <= off;
  f_length : 0 <= len;
  f_end : off + len <= byteLength w b;
  f_elements : alen = 0 \/ alen = len / elementSize x;
  f_typed : is_typed x = true -> alen = len / elementSize x;
  f_whole : auto = false \/ isResizableArrayBuffer w b = false -> len mod elementSize x = 0;
  f_auto : auto = true -> len = byteLength w b - off
}.

Lemma setBuffer_fresh w v x b off len alen auto :
  views w !! v = Some x -> m_buffer x = None -> len <= byteLength w b ->
  setBuffer v (Some b) off len alen auto w =
  upd_buffers (alter (set_b_observers (addObserver v)) b) (upd_views (alter (fun _ => connected w x b off len alen auto) v) w).
Proof.
  intros Ev Eno Hlen. unfold setBuffer. rewrite Ev. cbn [fmap option_fmap option_map]. rewrite Eno. cbv zeta. f_equal.
  unfold upd_views. cbn [views blocks infos stores buffers]. f_equal. apply list_eq. intros u.
  rewrite !lookup_alter_decide. case_decide; [|done]. subst u. rewrite Ev. cbn. f_equal.
  unfold updateBufferCallback. cbn.
  assert (forall w', buffers w' = buffers w -> stores w' = stores w -> infos w' = infos w -> byteLength w' b = byteLength w b /\ data w' b = data w b) as Hsame.
  { intros w' E1 E2 E3. unfold byteLength, data, backingStore, the_store. rewrite E1, E2.
    destruct (buffers w !! b) as [y|]; [|done]. destruct (m_backingStore y) as [s|]; [|done]. destruct (stores w !! s) as [z|]; [|done].
    cbn. unfold store_byteLength, store_data, store_info. now rewrite E3. }
  match goal with |- context [byteLength ?w' b] => destruct (Hsame w') as [H1 H2]; [done..|] end.
  rewrite H1, H2. unfold connected, with_cache, plus. cbn. destruct (v_kind x); [done|].
  destruct (byteLength w b <? len) eqn:E; [Zbool; lia|done].
Qed.

Lemma base_setBuffer w v x b y off len alen auto : Base w ->
  views w !! v = Some x -> m_buffer x = None -> m_wasResetByInvalidByteLength x = false -> buffers w !! b = Some y ->
  fits w x b off len alen auto -> Base (setBuffer v (Some b) off len alen auto w).
Proof.
  intros [[C Hv] HF] Ev Eno Ereset Ey [F1 F2 F3 F4 F4' F5 F6].
  rewrite (setBuffer_fresh w v x b off len alen auto Ev Eno) by lia.
  set (x' := connected w x b off len alen auto).
  set (w' := upd_buffers _ _).
  assert (Hk : same_kinds w w') by done.
  assert (Et : forall c, the_store w' c = the_store w c).
  { intros c. unfold the_store. cbn. rewrite lookup_alter_decide. case_decide; [|done]. now destruct (buffers w !! c). }
  assert (Er : forall c, isResizableArrayBuffer w' c = isResizableArrayBuffer w c).
  { intros c. unfold isResizableArrayBuffer. cbn. rewrite lookup_alter_decide. case_decide; [|done]. now destruct (buffers w !! c). }
  assert (Hbuf : forall c, byteLength w' c = byteLength w c /\ data w' c = data w c /\
    isResizableArrayBuffer w' c = isResizableArrayBuffer w c /\ isDetachedBuffer w' c = isDetachedBuffer w c)
    by (intros; now apply same_buffer).
  destruct (data_holds host w b C) as [Hd HL]. unfold maxArrayBufferSize in HL.
  pose proof (elementSize_pos x) as He.
  split; [split|].
  - apply (core_rewired w); [done|done| |].
    + destruct (c_wired _ _ C) as [W1 W2]. split.
      * apply (linked_ext _ _ _ _) with (3 := W1); [done|]. intros c. unfold wires. cbn.
        rewrite !list_lookup_fmap, lookup_alter_decide. case_decide; [|done]. now destruct (buffers w !! c).
      * apply (linked_ext _ _ _ _) with (3 := linked_connect _ _ b v (b_observers y) W2
          ltac:(cbv beta; now rewrite (wires_buffer w b y Ey)) ltac:(cbv beta; now rewrite (wires_view w v x Ev), Eno)).
        -- intros c. unfold wires. cbn. rewrite !list_lookup_fmap, lookup_alter_decide. case_decide; [|done]. subst. now rewrite Ey.
        -- intros u. unfold wires. cbn. rewrite !list_lookup_fmap, lookup_alter_decide. case_decide; [|done]. subst. now rewrite Ev.
    + intros c s. rewrite Et. apply (c_used _ _ C).
  - intros u z. cbn. rewrite lookup_alter_decide. destruct (decide (u = v)) as [->|Hu].
    2:{ intros E. apply (fine_frame host w); [intros c _; apply Hbuf|now apply (Hv u)]. }
    rewrite Ev. intros [= <-]. apply (fine_frame host w); [intros c _; apply Hbuf|].
    assert (Hes : elementSize x' = elementSize x) by done.
    pose proof (Z.mul_div_le len (elementSize x) ltac:(lia)). pose proof (Z.div_pos len (elementSize x) F2 ltac:(lia)).
    split; [split|].
    + split; cbn; lia.
    + cbn. split; rewrite ?Hes; cbn; [lia|lia|destruct F4 as [->| ->]; nia|intros _; now right|].
      unfold plus. destruct (data w b) as [a|]; cbn in *; [done|lia].
    + intros Hh c [= <-].
      assert (Ho : out_of_bounds (byteLength w b) x' = false).
      { unfold out_of_bounds. cbn. destruct auto; apply Z.ltb_ge; lia. }
      split; rewrite ?Ho, ?Hes; cbn; try done.
      * intros _. destruct auto; [|done]. now rewrite (F6 eq_refl).
      * intros ->. now apply F5; left.
      * intros -> Hres _. split; [rewrite (F6 eq_refl); lia|now apply F5; right].
      * unfold isDetachedBuffer, data, backingStore. now destruct (the_store w b).
  - apply (flags_kinds w); auto. intros c s. now rewrite Et.
Qed.

(** A view without a buffer. *)
Lemma base_setBuffer_None w v x : Base w -> views w !! v = Some x -> m_buffer x = None ->
  Base (setBuffer v None 0 0 0 false w).
Proof.
  intros [[C Hv] HF] Ev Eno. unfold setBuffer. rewrite Ev. cbn [fmap option_fmap option_map]. rewrite Eno. cbv zeta.
  set (w' := upd_views _ (upd_views _ w)).
  assert (Hspec : forall u, views w' !! u = if decide (u = v) then Some (mkView (v_kind x) None None 0 0 0 0 0 false (m_wasResetByInvalidByteLength x)) else views w !! u).
  { intros u. cbn. rewrite !lookup_alter_decide. case_decide; [|done]. subst u. rewrite Ev. cbn. f_equal.
    unfold updateBufferCallback. cbn. now destruct (v_kind x). }
  assert (Ew : wires w' = wires w).
  { unfold wires. cbn [stores buffers]. f_equal. apply list_eq. intros u. rewrite !list_lookup_fmap, Hspec.
    case_decide; [|done]. subst u. rewrite Ev. cbn. now rewrite Eno. }
  split; [split|].
  - now apply (core_rest host w).
  - intros u z. rewrite Hspec. case_decide.
    + intros [= <-]. split; [|now intros]. split; [split; cbn; lia|done].
    + intros E. apply (fine_frame host w); [now intros|now apply (Hv u)].
  - exact HF.
Qed.

(** ** Stores change *)
Lemma core_change w w' : Core w -> wires w' = wires w ->
  (forall s x, stores w' !! s = Some x -> dead (kind x) \/ live w' (kind x)) ->
  (forall b s, the_store w b = Some s -> exists x, stores w' !! s = Some x /\ live w' (kind x)) ->
  (forall o1 o2 a, owner w' o1 a -> owner w' o2 a -> o1 = o2) ->
  (forall o a, owner w' o a -> is_Some (blocks w' !! a)) ->
  (forall i x, infos w' !! i = Some x -> users w' i <= i_refCount x) ->
  (forall s x i, stores w' !! s = Some x -> kind x = Shared (Some i) ->
     exists y, stores w !! s = Some y /\ kind y = Shared (Some i)) ->
  Core w'.
Proof.
  intros [] Ew H1 H2 H3 H3' H4 H5. split; [now rewrite Ew|done| |done|done|done|].
  - intros b s. rewrite the_store_wire, Ew, <- the_store_wire. apply H2.
  - intros Hh s1 s2 x1 x2 i E1 E2 K1 K2. destruct (H5 s1 x1 i E1 K1) as (y1 & F1 & G1), (H5 s2 x2 i E2 K2) as (y2 & F2 & G2).
    now apply (c_alone0 Hh s1 s2 y1 y2 i).
Qed.

Lemma wires_set_kind w s k f : wires (upd_stores (alter (set_kind k) s) (upd_infos f w)) = wires w.
Proof.
  unfold wires. cbn. f_equal. f_equal. apply list_eq. intros u. rewrite !list_lookup_fmap, lookup_alter_decide.
  case_decide; [|done]. now destruct (stores w !! u).
Qed.
Lemma set_kind_lookup w s x k u : stores w !! s = Some x ->
  stores (upd_stores (alter (set_kind k) s) w) !! u = if decide (u = s) then Some (set_kind k x) else stores w !! u.
Proof. intros E. cbn. rewrite lookup_alter_decide. case_decide; [subst; now rewrite E|done]. Qed.

Lemma filter_alter_le (P : BackingStore -> bool) (f : BackingStore -> BackingStore) s l :
  (forall x, l !! s = Some x -> P (f x) = true -> P x = true) ->
  (length (List.filter P (alter f s l)) <= length (List.filter P l))%nat.
Proof.
  revert s. induction l as [|y l IH]; intros s H; [done|]. destruct s as [|s]; cbn.
  - specialize (H y eq_refl). destruct (P (f y)) eqn:E1, (P y) eqn:E2; cbn; lia.
  - specialize (IH s H). change (list_alter f s l) with (alter f s l). destruct (P y); cbn; lia.
Qed.
Lemma filter_alter_lt (P : BackingStore -> bool) (f : BackingStore -> BackingStore) s l x :
  l !! s = Some x -> P x = true -> P (f x) = false ->
  (length (List.filter P (alter f s l)) < length (List.filter P l))%nat.
Proof.
  revert s. induction l as [|y l IH]; intros s H Hx Hf; [done|]. destruct s as [|s]; cbn in *.
  - injection H as ->. rewrite Hx, Hf. cbn. lia.
  - specialize (IH s H Hx Hf). change (list_alter f s l) with (alter f s l). destruct (P y); cbn; lia.
Qed.

(** Buffers of other stores do not change. *)
Lemma other_buffer w w' s b : wires w' = wires w -> infos w' = infos w ->
  (forall u, u <> s -> stores w' !! u = stores w !! u) -> the_store w b <> Some s ->
  byteLength w' b = byteLength w b /\ data w' b = data w b /\ isDetachedBuffer w' b = isDetachedBuffer w b.
Proof.
  intros Ew Ei Es Hb. assert (Et : the_store w' b = the_store w b) by now rewrite !the_store_wire, Ew.
  unfold byteLength, data, isDetachedBuffer, backingStore. rewrite Et. destruct (the_store w b) as [u|]; [|done].
  rewrite Es by congruence. destruct (stores w !! u) as [x|]; [|done]. cbn. unfold store_byteLength, store_data, store_info. now rewrite Ei.
Qed.

(** The length and the address of a store change, and its views are told. *)
Lemma base_update_nonshared w s x n d len : Base w -> stores w !! s = Some x -> kind x = NonShared n ->
  (host = false -> n_isResizable n = true) ->
  (forall n', n' = mkNonShared d len (n_maxByteLength n) (n_isAllocatedByPlatform n) (n_isResizable n) (n_gcDisclaimAlive n) \/
     n' = mkNonShared d len (n_maxByteLength n) true (n_isResizable n) (n_gcDisclaimAlive n) ->
   live w (NonShared n') ->
   (forall a, d = Some a -> forall o, owner w o a -> o = inl s) ->
   Base (store_bufferUpdated s d len (upd_stores (alter (set_kind (NonShared n')) s) w))).
Proof.
  intros [[C Hv] HF] Es Ek Hres n' Hn' Hlive Hown. set (w' := upd_stores _ w).
  assert (Hd' : n_data n' = d /\ n_byteLength n' = len /\ n_isResizable n' = n_isResizable n) by (destruct Hn' as [-> | ->]; done).
  destruct Hd' as (D1 & D2 & D3).
  assert (Ew : wires w' = wires w) by apply (wires_set_kind w s (NonShared n') id).
  assert (El : forall u, stores w' !! u = if decide (u = s) then Some (set_kind (NonShared n') x) else stores w !! u)
    by (intros; now apply set_kind_lookup).
  assert (Hother : forall u, u <> s -> stores w' !! u = stores w !! u) by (intros; rewrite El; now case_decide).
  assert (Hlive' : forall k, live w k -> live w' k) by (intros k; apply live_kept; [intros a blk Ea; eauto|done]).
  assert (Ho' : forall o a, owner w' o a -> (o = inl s /\ d = Some a) \/ owner w o a).
  { intros [u|i] a; [|now right]. intros (z & m & Ez & Kz & Az & Dz). rewrite El in Ez.
    case_decide as E1; [left; injection Ez as <-; cbn in Kz; injection Kz as <-; split; congruence|right; now exists z, m]. }
  assert (C' : Core w').
  { apply (core_change w); [done|done| | | | | |].
    - intros u z. rewrite El. case_decide; [intros [= <-]; right; now apply Hlive'|].
      intros E. destruct (c_live _ _ C u z E); [now left|right; auto].
    - intros b u E. destruct (c_used _ _ C b u E) as (z & Ez & L). rewrite El. case_decide; [exists (set_kind (NonShared n') x)|exists z]; auto.
    - assert (Ho : forall o a, owner w' o a -> (o = inl s /\ d = Some a) \/ (o <> inl s /\ owner w o a)).
      { intros [u|i] a; [|right; split; [done|assumption]]. intros (z & m & Ez & Kz & Az & Dz). rewrite El in Ez.
        case_decide as E1.
        - left. injection Ez as <-. cbn in Kz. injection Kz as <-. split; congruence.
        - right. split; [congruence|]. now exists z, m. }
      intros o1 o2 a O1 O2. destruct (Ho o1 a O1) as [[-> E1]|[N1 P1]], (Ho o2 a O2) as [[-> E2]|[N2 P2]]; [done| | |].
      + now rewrite (Hown a E1 o2 P2).
      + now rewrite (Hown a E2 o1 P1).
      + now apply (c_owner _ _ C o1 o2 a).
    - intros o a O. destruct (Ho' o a O) as [[-> E]|P]; [|now apply (c_block _ _ C o a)].
      apply (live_block w n'); congruence.
    - intros i z Ei. specialize (c_users _ _ C i z Ei). unfold users.
      pose proof (filter_alter_le (uses i) (set_kind (NonShared n')) s (stores w) ltac:(done)). cbn. lia.
    - intros u z i. rewrite El. case_decide; [intros [= <-]; done|eauto]. }
  assert (Er : forall b, isResizableArrayBuffer w' b = isResizableArrayBuffer w b) by done.
  assert (HF' : flags w').
  { intros b u z Eb. rewrite El. rewrite Er. change (the_store w' b) with (the_store w b) in Eb. case_decide as E1.
    - intros [= <-]. subst u. rewrite (HF b s x Eb Es). unfold store_isResizable. cbn. now rewrite Ek, D3.
    - intros Ez. now apply (HF b u). }
  assert (Es' : stores w' !! s = Some (set_kind (NonShared n') x)) by (rewrite El; now case_decide).
  pose proof (refresh_store host w' s (set_kind (NonShared n') x) C' HF' Es') as HR.
  unfold store_data, store_byteLength in HR. cbn [kind set_kind] in HR. rewrite D1, D2 in HR. apply HR.
  - intros Hh. unfold store_isResizable. cbn. rewrite D3. auto.
  - intros v y Ev Hs. unfold store_of in Hs. destruct (m_buffer y) as [b|] eqn:Eb; [|done].
    apply (fine_semi host w b); [done|]. now apply (Hv v).
  - intros v y Ev Hs. apply (fine_frame host w); [|now apply (Hv v)]. intros b Hb. unfold store_of in Hs. rewrite Hb in Hs.
    destruct (other_buffer w w' s b Ew eq_refl Hother Hs) as (-> & -> & ->). done.
Qed.

(** A change that no buffer in use can see. *)
Lemma base_unseen w w' : Base w -> Core w' -> wires w' = wires w -> buffers w' = buffers w -> views w' = views w ->
  (forall b s x, the_store w b = Some s -> stores w !! s = Some x -> stores w' !! s = Some x /\
     store_byteLength w' x = store_byteLength w x /\ store_data w' x = store_data w x /\
     store_isResizable w' x = store_isResizable w x) -> Base w'.
Proof.
  intros [[C Hv] HF] C' Ew Eb Ev H.
  assert (Et : forall b, the_store w' b = the_store w b) by (intros; now rewrite !the_store_wire, Ew).
  split; [split; [done|]|].
  - intros v x. rewrite Ev. intros E. apply (fine_frame host w); [|now apply (Hv v)]. intros b _.
    unfold byteLength, data, isDetachedBuffer, isResizableArrayBuffer, backingStore. rewrite Et, Eb.
    destruct (the_store w b) as [s|] eqn:Es; [|done]. destruct (c_used _ _ C b s Es) as (y & Ey & _).
    destruct (H b s y Es Ey) as (-> & H1 & H2 & _). rewrite Ey. cbn. now rewrite H1, H2.
  - intros b s x. rewrite Et. intros Es Ex. destruct (c_used _ _ C b s Es) as (y & Ey & _).
    destruct (H b s y Es Ey) as (E & _ & _ & H3). assert (x = y) as -> by congruence.
    unfold isResizableArrayBuffer. rewrite Eb, H3. now apply (HF b s).
Qed.

Lemma live_owner w s x a : stores w !! s = Some x -> live w (kind x) -> store_data w x = Some a -> exists o, owner w o a.
Proof.
  intros Es L. unfold store_data, store_info. destruct (kind x) as [n|[i|]] eqn:Ek; cbn in L; [| |done].
  - intros Ed. exists (inl s). exists x, n. destruct L as [L _]. done.
  - destruct L as (y & Ey & L & _). rewrite Ey. cbn. intros Ed. exists (inr i). exists y. done.
Qed.

(** Freeing a block that nobody owns. *)
Lemma base_free w a : Base w -> (forall o, ~ owner w o a) -> Base (upd_blocks (alter free_block a) w).
Proof.
  intros HB Hno. destruct HB as [[C Hv] HF] eqn:EB. set (w' := upd_blocks _ w).
  assert (Hh : forall d n, (forall b, d = Some b -> b <> a) -> holds w d n -> holds w' d n).
  { intros [b|] n Hb; [|done]. cbn. intros (blk & E1 & E2 & E3). exists blk. rewrite lookup_alter_decide.
    case_decide; [now destruct (Hb b)|done]. }
  assert (Hlive : forall s x, stores w !! s = Some x -> live w (kind x) -> live w' (kind x)).
  { intros s x Es L. pose proof (live_owner w s x) as Ho. unfold store_data, store_info in Ho.
    destruct (kind x) as [n|[i|]] eqn:Ek; cbn in L |- *; [| |done].
    - assert (Hb : forall b, n_data n = Some b -> b <> a).
      { intros b Eb ->. destruct (Ho a Es L Eb) as [o Hown]. now apply (Hno o). }
      destruct L as (L1 & L2 & L3). split; [done|]. split; [done|].
      destruct (n_isResizable n); [destruct L3; split; [done|]|]; now apply Hh.
    - destruct L as (y & Ey & Hy). rewrite Ey in Ho. exists y. split; [done|]. cbn in Ho.
      assert (Hb : forall b, i_data y = Some b -> b <> a).
      { intros b Eb ->. destruct (Ho a Es ltac:(cbn; eauto) Eb) as [o Hown]. now apply (Hno o). }
      destruct Hy as (L1 & L2 & L3). split; [done|]. split; [done|]. destruct (i_growable y); [destruct L3; split; [done|]|]; now apply Hh. }
  apply (base_unseen w); [exact HB| |done|done|done|done].
  apply (core_change w); [done|done| | |apply C| |apply C|eauto].
  - intros s x Es. destruct (c_live _ _ C s x Es); [now left|right]. now apply (Hlive s).
  - intros b s Es. destruct (c_used _ _ C b s Es) as (x & Ex & L). exists x. split; [done|]. now apply (Hlive s).
  - intros o b O. cbn. rewrite lookup_alter_decide. destruct (c_block _ _ C o b O) as [blk E]. rewrite E. case_decide; cbn; eauto.
Qed.

(** A store that no buffer uses is cleared. *)
Lemma base_clear_nonshared w s x n : Base w -> stores w !! s = Some x -> kind x = NonShared n ->
  (forall b, the_store w b <> Some s) ->
  let k := NonShared (mkNonShared (n_data n) (n_byteLength n) (n_maxByteLength n) (n_isAllocatedByPlatform n) (n_isResizable n) false) in
  let w' := upd_stores (alter (set_kind k) s) w in
  Base w' /\ (n_gcDisclaimAlive n = true -> forall a, n_data n = Some a -> forall o, ~ owner w' o a).
Proof.
  intros HB Es Ek Hun k w'. destruct HB as [[C Hv] HF] eqn:EB.
  assert (Ew : wires w' = wires w) by apply (wires_set_kind w s k id).
  assert (El : forall u, stores w' !! u = if decide (u = s) then Some (set_kind k x) else stores w !! u)
    by (intros; now apply set_kind_lookup).
  assert (Hlive : forall q, live w q -> live w' q) by (intros q; apply live_kept; [intros a blk Ea; eauto|done]).
  assert (Ho : forall o a, owner w' o a -> o <> inl s /\ owner w o a).
  { intros [u|i] a; [|now split]. intros (z & m & Ez & Kz & Az & Dz). rewrite El in Ez. case_decide.
    - injection Ez as <-. cbn in Kz. unfold k in Kz. injection Kz as <-. done.
    - split; [congruence|]. now exists z, m. }
  split.
  - apply (base_unseen w); [exact HB| |done|done|done|].
    + apply (core_change w); [done|done| | | | | |].
      * intros u z. rewrite El. case_decide; [intros [= <-]; now left|]. intros E.
        destruct (c_live _ _ C u z E); [now left|right; auto].
      * intros b u E. destruct (c_used _ _ C b u E) as (z & Ez & L). exists z. rewrite El. case_decide; [subst; now destruct (Hun b)|auto].
      * intros o1 o2 a O1 O2. apply (c_owner _ _ C o1 o2 a); [apply (Ho o1)|apply (Ho o2)]; done.
      * intros o a O. apply (c_block _ _ C o a). now apply Ho.
      * intros i z Ei. specialize (c_users _ _ C i z Ei). unfold users.
        pose proof (filter_alter_le (uses i) (set_kind k) s (stores w) ltac:(done)). cbn. lia.
      * intros u z i. rewrite El. case_decide; [intros [= <-]; done|eauto].
    + intros b u z Eb Ez. rewrite El. case_decide; [subst; now destruct (Hun b)|done].
  - intros Ha a Ed o Hown. destruct (Ho o a Hown) as [N P].
    apply N. apply (c_owner _ _ C o (inl s) a P). exists x, n. done.
Qed.

(** ** Shared memory *)
Lemma users_two w i s1 s2 x1 x2 : s1 <> s2 -> stores w !! s1 = Some x1 -> stores w !! s2 = Some x2 ->
  uses i x1 = true -> uses i x2 = true -> 2 <= users w i.
Proof.
  intros Hne E1 E2 U1 U2. unfold users.
  set (k := set_kind (Shared None)).
  pose proof (filter_alter_lt (uses i) k s1 (stores w) x1 E1 U1 ltac:(done)) as L1.
  assert (E2' : alter k s1 (stores w) !! s2 = Some x2) by (rewrite list_lookup_alter_ne; done).
  pose proof (filter_alter_lt (uses i) k s2 (alter k s1 (stores w)) x2 E2' U2 ltac:(done)) as L2. lia.
Qed.

Definition release (i : nat) (w : World) : World :=
  upd_infos (alter (fun x => mkInfo (i_data x) (i_byteLength x) (i_refCount x - 1) (i_growable x)) i) w.
Lemma release_lookup i w y j : infos w !! i = Some y ->
  infos (release i w) !! j =
    if decide (j = i) then Some (mkInfo (i_data y) (i_byteLength y) (i_refCount y - 1) (i_growable y)) else infos w !! j.
Proof. intros E. cbn. rewrite lookup_alter_decide. case_decide; [subst; now rewrite E|done]. Qed.

Lemma base_clear_shared w s x i y : Base w -> stores w !! s = Some x -> kind x = Shared (Some i) ->
  infos w !! i = Some y -> (forall b, the_store w b <> Some s) ->
  let w' := upd_stores (alter (set_kind (Shared None)) s) (release i w) in
  Base w' /\ (i_refCount y = 1 -> forall a, i_data y = Some a -> 0 < i_refCount y -> forall o, ~ owner w' o a).
Proof.
  intros HB Es Ek Ei Hun w'. destruct HB as [[C Hv] HF] eqn:EB.
  assert (Ew : wires w' = wires w) by apply wires_set_kind.
  assert (El : forall u, stores w' !! u = if decide (u = s) then Some (set_kind (Shared None) x) else stores w !! u)
    by (intros; now apply (set_kind_lookup (release i w))).
  assert (EI : forall j, infos w' !! j = if decide (j = i) then Some (mkInfo (i_data y) (i_byteLength y) (i_refCount y - 1) (i_growable y)) else infos w !! j)
    by (intros; now apply release_lookup).
  assert (Hux : uses i x = true) by (unfold uses; rewrite Ek; now apply bool_decide_eq_true).
  pose proof (c_users _ _ C i y Ei) as Hcount.
  assert (Hlive : forall u z, u <> s -> stores w !! u = Some z -> live w (kind z) -> live w' (kind z)).
  { intros u z Hu Ez L. destruct (kind z) as [n|[j|]] eqn:Kz; cbn in L |- *; [exact L| |done].
    destruct L as (q & Eq & Q1 & Q2 & Q3). rewrite EI. case_decide as Ej; [|now exists q]. subst j.
    assert (q = y) as -> by congruence. eexists. split; [reflexivity|]. split; [|done]. cbn.
    assert (uses i z = true) by (unfold uses; rewrite Kz; now apply bool_decide_eq_true).
    pose proof (users_two w i u s z x Hu Ez Es ltac:(done) Hux). lia. }
  assert (Ho : forall o a, owner w' o a -> owner w o a /\ (o = inr i -> 1 < i_refCount y)).
  { intros [u|j] a.
    - intros (z & m & Ez & Kz & Az & Dz). rewrite El in Ez. case_decide; [injection Ez as <-; done|].
      split; [now exists z, m|done].
    - intros (z & Ez & Az & Dz). rewrite EI in Ez. case_decide.
      + injection Ez as <-. cbn in *. subst j. split; [exists y; split_and!; [done|lia|done]|lia].
      + split; [now exists z|congruence]. }
  split.
  - apply (base_unseen w); [exact HB| |done|done|done|].
    + apply (core_change w); [done|done| | | | | |].
      * intros u z. rewrite El. case_decide; [intros [= <-]; now left|]. intros E.
        destruct (c_live _ _ C u z E); [now left|right]. now apply (Hlive u).
      * intros b u E. destruct (c_used _ _ C b u E) as (z & Ez & L). exists z. rewrite El.
        case_decide; [subst; now destruct (Hun b)|]. split; [done|]. now apply (Hlive u).
      * intros o1 o2 a O1 O2. apply (c_owner _ _ C o1 o2 a); [apply (Ho o1)|apply (Ho o2)]; done.
      * intros o a O. apply (c_block _ _ C o a). now apply Ho.
      * intros j z. rewrite EI. unfold users. cbn. case_decide as Ej.
        -- intros [= <-]. cbn. subst j. unfold users in Hcount.
           pose proof (filter_alter_lt (uses i) (set_kind (Shared None)) s (stores w) x Es Hux ltac:(done)). lia.
        -- intros Ez. specialize (c_users _ _ C j z Ez). unfold users.
           pose proof (filter_alter_le (uses j) (set_kind (Shared None)) s (stores w) ltac:(done)). lia.
      * intros u z j. rewrite El. case_decide; [intros [= <-]; done|eauto].
    + intros b u z Eb Ez. rewrite El. case_decide; [subst; now destruct (Hun b)|]. split; [done|].
      unfold store_byteLength, store_data, store_isResizable, store_info. destruct (kind z) as [m|[j|]]; [done| |done].
      rewrite EI. case_decide; [|done]. subst j. now rewrite Ei.
  - intros E1 a Ed Hpos o Hown. destruct (Ho o a Hown) as [P N].
    assert (o = inr i) as -> by (apply (c_owner _ _ C o (inr i) a P); now exists y). specialize (N eq_refl). lia.
Qed.

(** The memory of a released block is forgotten. *)
Lemma base_forget w i y : Base w -> infos w !! i = Some y -> i_refCount y = 0 ->
  Base (upd_infos (alter (fun x => mkInfo None 0 (i_refCount x) (i_growable x)) i) w).
Proof.
  intros HB Ei E0. destruct HB as [[C Hv] HF] eqn:EB. set (w' := upd_infos _ w).
  assert (EI : forall j, infos w' !! j = if decide (j = i) then Some (mkInfo None 0 0 (i_growable y)) else infos w !! j).
  { intros j. cbn. rewrite lookup_alter_decide. case_decide; [subst j; rewrite Ei; cbn; now rewrite E0|done]. }
  assert (Hnot : forall x, live w (kind x) -> kind x <> Shared (Some i)).
  { intros x L K. rewrite K in L. destruct L as (z & Ez & P & _). assert (z = y) by congruence. subst z. lia. }
  assert (Hlive : forall x, live w (kind x) -> live w' (kind x)).
  { intros x L. pose proof (Hnot x L) as N. destruct (kind x) as [n|[j|]]; cbn in L |- *; [exact L| |done].
    destruct L as (z & Ez & Hz). exists z. rewrite EI. case_decide; [congruence|]. now split. }
  apply (base_unseen w); [exact HB| |done|done|done|].
  - apply (core_change w); [done|done| | | | | |eauto].
    + intros s x E. destruct (c_live _ _ C s x E); [now left|right; auto].
    + intros b s E. destruct (c_used _ _ C b s E) as (x & Ex & L). exists x. split; [done|auto].
    + assert (Ho : forall o a, owner w' o a -> owner w o a).
      { intros [u|j] a; [done|]. intros (z & Ez & P & D). rewrite EI in Ez. case_decide; [injection Ez as <-; done|]. now exists z. }
      intros o1 o2 a O1 O2. apply (c_owner _ _ C o1 o2 a); auto.
    + intros [u|j] a O; [now apply (c_block _ _ C (inl u) a)|]. destruct O as (z & Ez & P & D). rewrite EI in Ez.
      case_decide; [injection Ez as <-; done|]. apply (c_block _ _ C (inr j) a). now exists z.
    + intros j z. rewrite EI. change (users w' j) with (users w j). case_decide; [intros [= <-]; subst; cbn; pose proof (c_users _ _ C i y Ei); lia|apply (c_users _ _ C)].
  - intros b s x Eb Ex. destruct (c_used _ _ C b s Eb) as (x' & Ex' & L). assert (x' = x) as -> by congruence.
    pose proof (Hnot x L) as N. split; [done|]. unfold store_byteLength, store_data, store_isResizable, store_info.
    destruct (kind x) as [m|[j|]]; [done| |done]. rewrite EI. case_decide; [congruence|done].
Qed.

(** A growable block grows: for the views of this agent and of the others. *)
Lemma base_grow w s x i y max len : Base w -> stores w !! s = Some x -> kind x = Shared (Some i) ->
  infos w !! i = Some y -> i_growable y = Some max -> live w (kind x) ->
  i_byteLength y <= len <= max ->
  let w' := upd_infos (alter (fun x => mkInfo (i_data x) len (i_refCount x) (i_growable x)) i) w in
  Base (store_bufferUpdated s (store_data w' x) (store_byteLength w' x) w').
Proof.
  intros HB Es Ek Ei Eg Hl Hlen w'. destruct HB as [[C Hv] HF] eqn:EB.
  assert (EI : forall j, infos w' !! j = if decide (j = i) then Some (mkInfo (i_data y) len (i_refCount y) (Some max)) else infos w !! j).
  { intros j. cbn. rewrite lookup_alter_decide. case_decide; [subst j; rewrite Ei; cbn; now rewrite Eg|done]. }
  assert (Hmax : max < maxArrayBufferSize).
  { rewrite Ek in Hl. destruct Hl as (z & Ez & _ & _ & L). assert (z = y) as -> by congruence. rewrite Eg in L. lia. }
  assert (Hlive : forall k, live w k -> live w' k).
  { intros [n|[j|]] L; cbn in L |- *; [exact L| |done]. destruct L as (z & Ez & L1 & L2 & L3). rewrite EI.
    case_decide; [|now exists z]. subst j. assert (z = y) as -> by congruence. rewrite Eg in L3.
    eexists. split; [reflexivity|]. split; [done|]. cbn. split; [lia|]. split; [lia|apply L3]. }
  assert (Hbuf : forall z, store_data w' z = store_data w z /\ store_isResizable w' z = store_isResizable w z /\
    store_byteLength w z <= store_byteLength w' z /\ (kind z <> Shared (Some i) -> store_byteLength w' z = store_byteLength w z)).
  { intros z. unfold store_data, store_isResizable, store_byteLength, store_info. destruct (kind z) as [m|[j|]]; [split_and!; try done; lia| |split_and!; try done; lia].
    rewrite EI. case_decide; [|split_and!; try done; lia]. subst j. rewrite Ei. cbn. rewrite Eg. split_and!; [done|done|lia|done]. }
  assert (C' : Core w').
  { apply (core_change w); [done|done| | | | | |eauto].
    - intros u z E. destruct (c_live _ _ C u z E); [now left|right; auto].
    - intros b u E. destruct (c_used _ _ C b u E) as (z & Ez & L). exists z. split; [done|auto].
    - assert (Ho : forall o a, owner w' o a -> owner w o a).
      { intros [u|j] a; [done|]. intros (z & Ez & P & D). rewrite EI in Ez. case_decide; [injection Ez as <-; subst j; now exists y|now exists z]. }
      intros o1 o2 a O1 O2. apply (c_owner _ _ C o1 o2 a); auto.
    - intros [u|j] a O; [now apply (c_block _ _ C (inl u) a)|]. destruct O as (z & Ez & P & D). rewrite EI in Ez.
      case_decide; [injection Ez as <-; subst j; apply (c_block _ _ C (inr i) a); now exists y|apply (c_block _ _ C (inr j) a); now exists z].
    - intros j z. rewrite EI. change (users w' j) with (users w j). case_decide; [intros [= <-]; subst; cbn; apply (c_users _ _ C i y Ei)|apply (c_users _ _ C)]. }
  assert (HF' : flags w').
  { intros b u z Eb Ez. destruct (Hbuf z) as (_ & -> & _). now apply (HF b u). }
  apply refresh_store; [done|done|done| | |].
  - intros _. destruct (Hbuf x) as (_ & -> & _). unfold store_isResizable, store_info. rewrite Ek, Ei. cbn. now rewrite Eg.
  - intros v z Ev Hs. unfold store_of in Hs. destruct (m_buffer z) as [b|] eqn:Eb; [|done].
    apply (fine_semi host w b); [done|]. now apply (Hv v).
  - intros v z Ev Hs. destruct (Hv v z Ev) as [F1 F2]. split.
    + apply (view_ok_frame w); [|done]. intros b _. unfold byteLength, data, backingStore.
      change (the_store w' b) with (the_store w b). change (stores w') with (stores w).
      destruct (the_store w b) as [u|]; [|done]. destruct (stores w !! u) as [q|]; [|done]. cbn.
      destruct (Hbuf q) as (-> & _ & ? & _). done.
    + intros Hh b Hb. unfold store_of in Hs. rewrite Hb in Hs. change (the_store w' b) with (the_store w b) in Hs.
      apply (coherent_frame w); [| |done|done|now apply F2].
      * unfold byteLength, backingStore. change (the_store w' b) with (the_store w b). change (stores w') with (stores w).
        destruct (the_store w b) as [u|] eqn:Eu; [|done]. destruct (stores w !! u) as [q|] eqn:Eq; [|done]. cbn.
        apply (Hbuf q). intros Kq. apply Hs. f_equal. now apply (c_alone _ _ C Hh u s q x i).
      * unfold data, backingStore. change (the_store w' b) with (the_store w b). change (stores w') with (stores w).
        destruct (the_store w b) as [u|]; [|done]. destruct (stores w !! u) as [q|]; [|done]. cbn. apply (Hbuf q).
Qed.

(** ** New memory *)
Lemma base_new_block w blk : Base w -> Base (upd_blocks (fun l => l ++ [blk]) w).
Proof.
  intros H. apply (base_kept host w); try done. intros a b E. exists b. cbn. split; [|done].
  rewrite lookup_snoc_decide. case_decide; [apply lookup_lt_Some in E; lia|done].
Qed.
Lemma block_unowned w a : Base w -> blocks w !! a = None -> forall o, ~ owner w o a.
Proof. intros [[C _] _] Ha o H. destruct (c_block _ _ C o a H). congruence. Qed.

Lemma base_new_info w d n g : Base w -> Base (upd_infos (fun l => l ++ [mkInfo d n 0 g]) w).
Proof.
  intros HB. destruct HB as [[C Hv] HF] eqn:EB. set (w' := upd_infos _ w).
  assert (EI : forall j, infos w' !! j = if decide (j = length (infos w)) then Some (mkInfo d n 0 g) else infos w !! j)
    by (intros; apply lookup_snoc_decide).
  assert (Hold : forall j z, infos w !! j = Some z -> infos w' !! j = Some z).
  { intros j z E. rewrite EI. case_decide; [apply lookup_lt_Some in E; lia|done]. }
  assert (Hlive : forall k, live w k -> live w' k).
  { intros [m|[j|]] L; cbn in L |- *; [exact L| |done]. destruct L as (z & Ez & Hz). exists z. split; [now apply Hold|done]. }
  assert (Hin : forall j s x, stores w !! s = Some x -> kind x = Shared (Some j) -> is_Some (infos w !! j)).
  { intros j s x E K. destruct (c_live _ _ C s x E) as [D|L]; rewrite K in *; [done|]. destruct L as (z & -> & _). eauto. }
  assert (Ho : forall o a, owner w' o a -> owner w o a).
  { intros [u|j] a; [done|]. intros (z & Ez & P & D). rewrite EI in Ez. case_decide; [injection Ez as <-; done|now exists z]. }
  apply (base_unseen w); [exact HB| |done|done|done|].
  - apply (core_change w); [done|done| | | | | |eauto].
    + intros s x E. destruct (c_live _ _ C s x E); [now left|right; auto].
    + intros b s E. destruct (c_used _ _ C b s E) as (x & Ex & L). exists x. auto.
    + intros o1 o2 a O1 O2. apply (c_owner _ _ C o1 o2 a); auto.
    + intros o a O. now apply (c_block _ _ C o a), Ho.
    + intros j z. rewrite EI. case_decide as E; [|apply (c_users _ _ C)]. intros [= <-]. cbn. subst j.
      unfold users. cbn. destruct (List.filter (uses (length (infos w))) (stores w)) as [|x l] eqn:Ef; [done|].
      assert (Hx : In x (List.filter (uses (length (infos w))) (stores w))) by (rewrite Ef; now left).
      apply filter_In in Hx as [Hx Hu]. apply list_elem_of_In, list_elem_of_lookup_1 in Hx as [s Hs].
      unfold uses in Hu. destruct (kind x) as [|[j|]] eqn:K; try done. apply bool_decide_eq_true in Hu. subst j.
      destruct (Hin _ s x Hs K) as [z Ez]. apply lookup_lt_Some in Ez. lia.
  - intros b s x Eb Ex. split; [done|]. unfold store_byteLength, store_data, store_isResizable, store_info.
    destruct (kind x) as [m|[j|]] eqn:K; [done| |done]. destruct (Hin j s x Ex K) as [z Ez]. rewrite Ez, (Hold j z Ez). done.
Qed.

Definition retain (i : nat) (w : World) : World :=
  upd_infos (alter (fun x => mkInfo (i_data x) (i_byteLength x) (i_refCount x + 1) (i_growable x)) i) w.
Lemma retain_lookup i w y j : infos w !! i = Some y ->
  infos (retain i w) !! j =
    if decide (j = i) then Some (mkInfo (i_data y) (i_byteLength y) (i_refCount y + 1) (i_growable y)) else infos w !! j.
Proof. intros E. cbn. rewrite lookup_alter_decide. case_decide; [subst; now rewrite E|done]. Qed.

Lemma base_retain w i y : Base w -> infos w !! i = Some y ->
  (0 < i_refCount y \/ (i_refCount y = 0 /\ forall a, i_data y = Some a -> is_Some (blocks w !! a) /\ forall o, ~ owner w o a)) ->
  Base (retain i w).
Proof.
  intros HB Ei Hy. destruct HB as [[C Hv] HF] eqn:EB. set (w' := retain i w).
  assert (EI : forall j, infos w' !! j = if decide (j = i) then Some (mkInfo (i_data y) (i_byteLength y) (i_refCount y + 1) (i_growable y)) else infos w !! j)
    by (intros; now apply retain_lookup).
  assert (Hlive : forall k, live w k -> live w' k).
  { intros [m|[j|]] L; cbn in L |- *; [exact L| |done]. destruct L as (z & Ez & L1 & L2 & L3). rewrite EI.
    case_decide; [|now exists z]. subst j. assert (z = y) as -> by congruence. eexists. split; [reflexivity|]. split; [cbn; lia|done]. }
  assert (Ho : forall o a, owner w' o a -> owner w o a \/ (o = inr i /\ i_refCount y = 0 /\ i_data y = Some a)).
  { intros [u|j] a; [now left|]. intros (z & Ez & P & D). rewrite EI in Ez. case_decide; [|left; now exists z].
    injection Ez as <-. cbn in *. subst j. destruct Hy as [Hy|[Hy _]]; [left; now exists y|right; done]. }
  assert (Hno : forall o a, i_refCount y = 0 -> i_data y = Some a -> owner w o a -> False).
  { intros o a E0 D O. destruct Hy as [Hy|[_ Hy]]; [lia|]. now apply (proj2 (Hy a D) o). }
  apply (base_unseen w); [exact HB| |done|done|done|].
  - apply (core_change w); [done|done| | | | | |eauto].
    + intros s x E. destruct (c_live _ _ C s x E); [now left|right; auto].
    + intros b s E. destruct (c_used _ _ C b s E) as (x & Ex & L). exists x. auto.
    + intros o1 o2 a O1 O2. destruct (Ho o1 a O1) as [P1|(-> & Z1 & D1)], (Ho o2 a O2) as [P2|(-> & Z2 & D2)]; [| | |done].
      * now apply (c_owner _ _ C o1 o2 a).
      * now destruct (Hno o1 a Z2 D2 P1).
      * now destruct (Hno o2 a Z1 D1 P2).
    + intros o a O. destruct (Ho o a O) as [P|(-> & Z1 & D1)]; [now apply (c_block _ _ C o a)|].
      destruct Hy as [Hy|[_ Hy]]; [lia|]. now apply Hy.
    + intros j z. rewrite EI. change (users w' j) with (users w j). case_decide; [|apply (c_users _ _ C)].
      intros [= <-]. subst j. cbn. pose proof (c_users _ _ C i y Ei). lia.
  - intros b s x Eb Ex. split; [done|]. unfold store_byteLength, store_data, store_isResizable, store_info.
    destruct (kind x) as [m|[j|]]; [done| |done]. rewrite EI. case_decide; [|done]. subst j. now rewrite Ei.
Qed.

End Host.
End Steps.

