(* ===== verification/BufferSafety.v ===== *)
(** The rules of the weakest preconditions for the operations of [ArrayBuffer]:
    each keeps the invariant of [BufferInvariant], stays within the defined
    behaviour of C++ and loses no object ([evolves]); and what a builtin in
    progress still knows of its views after it ran script code ([steady]). *)
From Stdlib Require Import ZArith Lia Bool.
From stdpp Require Import base numbers list option decidable gmap.
From S2P Require Import Prelude Effects Double Float16 Value ArrayBuffer BufferInvariant.

(** * Relative indexes *)
Module RelativeFacts.
Import Buffers.

(** What [toInteger] returns: an integer or an infinity. *)
Definition integral (d : Z) : Prop := in_u 64 d /\ (is_inf d = true \/ exists z, represents d z).
(** The index that ECMA-262 computes. *)
Definition clamp (z L : Z) : Z := if z <? 0 then Z.max (L + z) 0 else Z.min z L.
Definition relative_index (r L : Z) : Z :=
  if is_inf r then (if sign_bit r then 0 else L) else clamp (to_Z r) L.

Lemma rep_cast_size_t d n : represents d n -> 0 <= n < 2 ^ 64 -> cast_size_t d = Some n.
Proof.
  intros H Hn. unfold cast_size_t. rewrite (rep_to_Z d n H). destruct H as [-> _].
  now rewrite (proj2 (Z.leb_le 0 n)), (proj2 (Z.ltb_lt _ _)) by lia.
Qed.
Lemma rep_cast_int d n : represents d n -> - 2 ^ 31 <= n < 2 ^ 31 -> cast_int d = Some n.
Proof.
  intros H Hn. unfold cast_int. rewrite (rep_to_Z d n H). destruct H as [-> _].
  now rewrite (proj2 (Z.leb_le _ n)), (proj2 (Z.ltb_lt n _)) by lia.
Qed.
Lemma rep_zero : represents 0 0.
Proof. exact (rep_of_Z 0 ltac:(lia)). Qed.

Lemma round_mag_positive n : 0 < n -> 0 < round_mag n UNIT.
Proof.
  intros Hn. pose proof UNIT_pos. pose proof (round_mag_range n UNIT ltac:(lia) ltac:(lia)) as [H0 _].
  destruct (decide (round_mag n UNIT < INF)) as [Hlt|]; [|unfold INF in *; lia].
  destruct (round_mag_spec n UNIT ltac:(lia) ltac:(lia) Hlt) as (k & m & E & _ & Hk & Hm & Herr & Hlo).
  destruct (decide (round_mag n UNIT = 0)) as [E0|]; [|lia]. exfalso. rewrite E0 in E.
  assert (0 < 2 ^ 52) by lia. assert (k = 0 /\ m = 0) as [-> ->] by nia.
  nia.
Qed.

(** A sum below zero is below zero, however it is rounded. *)
Lemma fadd_negative a b m n : represents a m -> represents b n -> m + n < 0 -> flt (fadd a b) 0 = true.
Proof.
  intros Ha Hb Hs. pose proof UNIT_pos. unfold fadd.
  rewrite (rep_ne_nan a m), (rep_ne_nan b n), (rep_ne_inf a m), (rep_ne_inf b n) by assumption. cbn [orb].
  destruct Ha as [_ Ea], Hb as [_ Eb]. rewrite Ea, Eb, <- Z.mul_add_distr_r. cbv zeta.
  rewrite (proj2 (Z.eqb_neq _ 0)) by nia. rewrite of_units_ratio. set (x := (m + n) * UNIT).
  assert (Hx : x < 0) by (unfold x; nia). rewrite (proj2 (Z.ltb_lt x 0)) by lia. rewrite Z.abs_neq by lia.
  pose proof (round_mag_range (- x) UNIT ltac:(lia) ltac:(lia)). pose proof (round_mag_positive (- x) ltac:(lia)).
  unfold flt, is_nan, key. rewrite of_ratio_mag, of_ratio_sign by lia. change (mag 0) with 0. change (sign_bit 0) with false.
  rewrite (proj2 (Z.ltb_ge INF (round_mag (- x) UNIT))), (proj2 (Z.ltb_ge INF 0)) by (unfold INF in *; lia).
  cbn [negb andb]. apply Z.ltb_lt. lia.
Qed.

(** A sum of at least 2^53 is not below that, however it is rounded. *)
Lemma fadd_large a b m n k : represents a m -> represents b n -> 2 ^ 53 <= m + n -> 0 <= k < 2 ^ 53 -> flt (of_Z k) (fadd a b) = true.
Proof.
  intros Ha Hb Hs Hk. pose proof UNIT_pos. unfold fadd.
  rewrite (rep_ne_nan a m), (rep_ne_nan b n), (rep_ne_inf a m), (rep_ne_inf b n) by assumption. cbn [orb].
  destruct Ha as [_ Ea], Hb as [_ Eb]. rewrite Ea, Eb, <- Z.mul_add_distr_r. cbv zeta.
  rewrite (proj2 (Z.eqb_neq _ 0)) by nia. rewrite (proj2 (Z.ltb_ge _ 0)), Z.abs_eq by nia. rewrite of_units_ratio.
  pose proof (rep_flt (of_Z k) (of_Z (2 ^ 53)) k (2 ^ 53) (rep_of_Z k ltac:(lia)) (rep_of_Z (2 ^ 53) ltac:(lia))) as Hlt.
  rewrite (proj2 (Z.ltb_lt k _)) in Hlt by lia. unfold flt in *. Zbool.
  assert (Hp : 0 <= (m + n) * UNIT) by nia. pose proof (round_mag_range ((m + n) * UNIT) UNIT Hp ltac:(lia)) as [R0 R1].
  unfold is_nan, key in *. rewrite of_ratio_mag, of_ratio_sign by lia.
  rewrite (of_Z_sign (2 ^ 53)) in *. change (2 ^ 53 <? 0) with false in *. cbv iota in *.
  enough (Hle : mag (of_Z (2 ^ 53)) <= round_mag ((m + n) * UNIT) UNIT).
  { rewrite !(proj2 (Z.ltb_ge INF _)) by lia. cbn [negb andb]. apply Z.ltb_lt. lia. }
  destruct (decide (round_mag ((m + n) * UNIT) UNIT < INF)) as [Hfin|]; [|assert (mag (of_Z (2 ^ 53)) <= INF) by (vm_compute; discriminate); lia].
  pose proof (mag_range (of_Z (2 ^ 53))) as Hm. pose proof (mag_scaled_mono (round_mag ((m + n) * UNIT) UNIT) (mag (of_Z (2 ^ 53)))) as Hmono.
  assert (Es : mag_scaled (mag (of_Z (2 ^ 53))) = 2 ^ 53 * UNIT) by (vm_compute; reflexivity).
  unfold round_mag in *. rewrite Formats.double_round in *.
  pose proof (Formats.round_nearest 52 INF ((m + n) * UNIT * UNIT) UNIT (mag (of_Z (2 ^ 53))) ltac:(lia) ltac:(lia) ltac:(nia) ltac:(lia) Hfin) as Hn.
  set (r := Formats.round_to 52 INF _ UNIT) in *. rewrite <- (Formats.double_pattern r), <- (Formats.double_pattern (mag (of_Z (2 ^ 53)))) in Hn. rewrite Es in Hn, Hmono. clearbody r.
  destruct (decide (r < mag (of_Z (2 ^ 53)))) as [Hbad|]; [|lia]. specialize (Hmono ltac:(lia)). exfalso.
  assert (2 ^ 53 * UNIT * UNIT <= (m + n) * UNIT * UNIT) by nia. nia.
Qed.
Lemma sum_bounded a b m n k : represents a m -> represents b n -> 0 <= k < 2 ^ 53 -> 0 <= m -> 0 <= n ->
  flt (of_Z k) (fadd a b) = false -> m + n <= k.
Proof.
  intros Ha Hb Hk Hm Hn H. destruct (decide (m + n < 2 ^ 53)).
  - rewrite (rep_flt _ _ k (m + n) (rep_of_Z k ltac:(lia)) (rep_fadd a b m n Ha Hb ltac:(lia))) in H. Zbool. lia.
  - rewrite (fadd_large a b m n k Ha Hb ltac:(lia) Hk) in H. done.
Qed.

Lemma relative_spec r len L : integral r -> represents len L -> 0 <= L <= 2 ^ 32 ->
  represents (relative r len) (relative_index r L) /\ 0 <= relative_index r L <= L.
Proof.
  intros [_ Hr] Hlen HL. unfold relative, relative_index. destruct (is_inf r) eqn:Ei.
  - assert (Hn : is_nan r = false) by (unfold is_inf, is_nan in *; Zbool; apply Z.ltb_ge; lia).
    assert (Hm : mag r = INF) by (unfold is_inf in Ei; now Zbool).
    assert (Hinf : 0 < INF) by done.
    assert (Hs : flt r 0 = sign_bit r).
    { unfold flt. rewrite Hn. change (is_nan 0) with false. unfold key at 1. change (key 0) with 0. cbn [negb andb].
      destruct (sign_bit r); [apply Z.ltb_lt|apply Z.ltb_ge]; lia. }
    rewrite Hs. destruct (sign_bit r) eqn:Es.
    + assert (Ef : fadd len r = r).
      { unfold fadd. rewrite (rep_ne_nan len L Hlen), Hn, (rep_ne_inf len L Hlen), Ei. done. }
      unfold std_max. rewrite Ef, Hs. split; [apply rep_zero|lia].
    + assert (El : flt len r = true).
      { unfold flt. rewrite (rep_ne_nan len L Hlen), Hn. cbn [negb andb]. apply Z.ltb_lt.
        destruct Hlen as [F _]. unfold is_finite in F. Zbool. unfold key. rewrite Es. destruct (sign_bit len); pose proof (mag_range len); lia. }
      unfold std_min. rewrite El. split; [done|lia].
  - destruct Hr as [|[z Hz]]; [congruence|]. rewrite (rep_to_Z r z Hz). unfold clamp.
    rewrite (rep_flt r 0 z 0 Hz rep_zero). destruct (z <? 0) eqn:Ez; Zbool.
    + unfold std_max. destruct (decide (L + z < 0)) as [Hneg|].
      * rewrite (fadd_negative len r L z Hlen Hz Hneg), Z.max_r by lia. split; [apply rep_zero|lia].
      * pose proof (rep_fadd len r L z Hlen Hz ltac:(lia)) as Hs. rewrite (rep_flt _ 0 _ 0 Hs rep_zero).
        rewrite (proj2 (Z.ltb_ge _ 0)), Z.max_l by lia. split; [done|lia].
    + unfold std_min. rewrite (rep_flt len r L z Hlen Hz). destruct (L <? z) eqn:E; Zbool; [rewrite Z.min_r by lia|rewrite Z.min_l by lia];
        (split; [done|lia]).
Qed.

End RelativeFacts.

(** * Specifications of the operations *)
Module BufferSpecs.
Import Effects WP Buffers Wiring Notified Invariant Steps.

(** What does not change of the objects that are there. *)
Definition views_kept (w w' : World) : Prop := forall v x, views w !! v = Some x ->
  exists x', views w' !! v = Some x' /\ v_kind x' = v_kind x /\
    match m_buffer x with
    | None => x' = x
    | Some b => m_buffer x' = Some b /\ m_originalByteLength x' = m_originalByteLength x /\
        m_originalByteOffset x' = m_originalByteOffset x /\ m_auto x' = m_auto x
    end.
Definition lengths_kept (w w' : World) : Prop := forall a blk, blocks w !! a = Some blk ->
  exists blk', blocks w' !! a = Some blk' /\ length (cells blk') = length (cells blk).
(** A buffer that has its memory has had it before, and as much of it unless it is
    resizable. *)
Definition memory_kept (w w' : World) : Prop := forall b, is_Some (buffers w !! b) -> isDetachedBuffer w' b = false ->
  data w' b = data w b /\ isDetachedBuffer w b = false /\
  (isResizableArrayBuffer w b = false -> byteLength w' b = byteLength w b).
Record evolves (w w' : World) : Prop := {
  ev_buffers : forall b x, buffers w !! b = Some x ->
    exists x', buffers w' !! b = Some x' /\ isShared x' = isShared x /\ m_isResizable x' = m_isResizable x;
  ev_views : views_kept w w';
  ev_blocks : lengths_kept w w';
  ev_memory : memory_kept w w'
}.
Lemma views_kept_eq w w' : views w' = views w -> views_kept w w'.
Proof. intros H v x E. rewrite H. exists x. split; [done|]. split; [done|]. now destruct (m_buffer x). Qed.
Lemma blocks_kept_lengths w w' : blocks_kept w w' -> lengths_kept w w'.
Proof. intros H a blk E. destruct (H a blk E) as (blk' & ? & _ & ?). eauto. Qed.
Lemma buffers_evolve_refl w : evolves w w.
Proof. split; [eauto|now apply views_kept_eq|intros a blk E; eauto|done]. Qed.
Lemma buffers_evolve_trans w1 w2 w3 : evolves w1 w2 -> evolves w2 w3 -> evolves w1 w3.
Proof.
  intros [B1 V1 L1 M1] [B2 V2 L2 M2]. split.
  - intros b x E. destruct (B1 b x E) as (x1 & E1 & S1 & R1), (B2 b x1 E1) as (x2 & E2 & S2 & R2). exists x2. split_and!; congruence.
  - intros v x E. destruct (V1 v x E) as (x1 & E1 & K1 & H1), (V2 v x1 E1) as (x2 & E2 & K2 & H2). exists x2.
    split; [done|]. split; [congruence|]. destruct (m_buffer x) as [b|] eqn:Eb.
    + destruct H1 as (N1 & O1 & P1 & A1). rewrite N1 in H2. destruct H2 as (N2 & O2 & P2 & A2). split_and!; congruence.
    + subst x1. now rewrite Eb in H2.
  - intros a blk E. destruct (L1 a blk E) as (blk1 & E1 & H1), (L2 a blk1 E1) as (blk2 & E2 & H2). exists blk2. split; congruence.
  - intros b [x E] D. destruct (B1 b x E) as (x1 & E1 & _ & R). destruct (M2 b ltac:(eauto) D) as (H1 & D1 & F1).
    destruct (M1 b ltac:(eauto) D1) as (H2 & D2 & F2). split_and!; [congruence|done|]. unfold isResizableArrayBuffer in *.
    rewrite E1, E in *. cbn in *. intros Hr. rewrite F1, F2 by congruence. done.
Qed.

(** The memory of each buffer is as it was. *)
Definition steady (w w' : World) : Prop := forall b, is_Some (buffers w !! b) ->
  data w' b = data w b /\ isDetachedBuffer w' b = isDetachedBuffer w b /\ byteLength w' b = byteLength w b.
Lemma steady_trans w1 w2 w3 : (forall b, is_Some (buffers w1 !! b) -> is_Some (buffers w2 !! b)) ->
  steady w1 w2 -> steady w2 w3 -> steady w1 w3.
Proof.
  intros Hb H1 H2 b Hs. destruct (H1 b Hs) as (E1 & E2 & E3), (H2 b (Hb b Hs)) as (F1 & F2 & F3). split_and!; congruence.
Qed.
Lemma steady_memory w w' : steady w w' -> memory_kept w w'.
Proof. intros H b Hb. destruct (H b Hb) as (-> & E & ->). rewrite E. done. Qed.

(** Nothing happens to the buffers and the views. *)
Record quiet (w w' : World) : Prop := {
  q_buffers : buffers w' = buffers w;
  q_views : views w' = views w;
  q_blocks : blocks_kept w w';
  q_stores : forall s x, stores w !! s = Some x -> stores w' !! s = Some x;
  q_infos : forall i x, infos w !! i = Some x ->
    exists x', infos w' !! i = Some x' /\ i_data x' = i_data x /\ i_byteLength x' = i_byteLength x
}.
Lemma quiet_world_refl w : quiet w w.
Proof. split; try done; [intros a blk E; eauto|eauto]. Qed.
Lemma quiet_world_trans w1 w2 w3 : quiet w1 w2 -> quiet w2 w3 -> quiet w1 w3.
Proof.
  intros [B1 V1 K1 S1 I1] [B2 V2 K2 S2 I2]. split; [congruence|congruence| |auto|].
  - intros a blk E. destruct (K1 a blk E) as (b1 & E1 & F1 & L1), (K2 a b1 E1) as (b2 & E2 & F2 & L2). exists b2. split_and!; congruence.
  - intros i x E. destruct (I1 i x E) as (x1 & E1 & H1 & L1), (I2 i x1 E1) as (x2 & E2 & H2 & L2). exists x2. split_and!; congruence.
Qed.

(** Stores that are in use keep their data. *)
Lemma used_data host w w' b : Core host w -> the_store w' b = the_store w b ->
  (forall s x, stores w !! s = Some x -> exists x', stores w' !! s = Some x' /\ kind x' = kind x) ->
  (forall i x, infos w !! i = Some x ->
     exists x', infos w' !! i = Some x' /\ i_data x' = i_data x /\ i_byteLength x' = i_byteLength x) ->
  data w' b = data w b /\ isDetachedBuffer w' b = isDetachedBuffer w b /\ byteLength w' b = byteLength w b.
Proof.
  intros C Et Hs Hi. unfold data, isDetachedBuffer, byteLength, backingStore. rewrite Et. destruct (the_store w b) as [s|] eqn:E; [|done].
  destruct (c_used _ _ C b s E) as (x & Ex & L). destruct (Hs s x Ex) as (x' & Ex' & K). rewrite Ex, Ex'. cbn.
  unfold store_data, store_byteLength, store_info. rewrite K. destruct (kind x) as [n|[i|]]; [done| |done].
  destruct L as (y & Ey & _). destruct (Hi i y Ey) as (y' & -> & E2 & E3). rewrite Ey. cbn. now rewrite E2, E3.
Qed.

Lemma quiet_evolves host w w' : Core host w -> quiet w w' -> evolves w w'.
Proof.
  intros C [Eb Ev Ek Es Ei]. split.
  - rewrite Eb. eauto.
  - now apply views_kept_eq.
  - now apply blocks_kept_lengths.
  - intros b _ D. destruct (used_data host w w' b C) as (H1 & H2 & H3); [unfold the_store; now rewrite Eb|eauto|done|]. now rewrite H1, <- H2.
Qed.

Section Host.
Context (host null_when_empty : bool).
Let Base := Base host.
Let Good := Good host.

Lemma sorted_kept w w' x : (forall s y, stores w !! s = Some y -> exists y', stores w' !! s = Some y' /\ is_shared_kind (kind y') = is_shared_kind (kind y)) ->
  sorted_buffer w x -> sorted_buffer w' x.
Proof.
  intros H [S1 S2]. split; [done|]. intros s E. destruct (S2 s E) as (y & E1 & E2). destruct (H s y E1) as (y' & E3 & E4).
  exists y'. split; congruence.
Qed.
Lemma good_quiet w w' : Good w -> Base w' -> quiet w w' -> Good w'.
Proof.
  intros [_ Hs] HB [Eb _ _ Es _]. split; [done|]. intros b x. rewrite Eb. intros E.
  apply (sorted_kept w); [|now apply (Hs b)]. intros s y Ey. exists y. auto.
Qed.

(** ** Blocks and stores *)
Lemma onMalloc_spec w n : Base w -> 0 <= n -> exists w' d,
  onMalloc null_when_empty n w = Some (w', inl d) /\ Base w' /\ quiet w w' /\ infos w' = infos w /\ stores w' = stores w /\
  holds w' d n /\ (forall a, d = Some a -> blocks w !! a = None /\ is_Some (blocks w' !! a) /\ forall o, ~ owner w' o a) /\
  (forall a, d = Some a -> exists blk, blocks w' !! a = Some blk /\ cells blk = replicate (Z.to_nat n) 0 /\ freed blk = false).
Proof.
  intros HB Hn. unfold onMalloc. destruct ((n =? 0) && null_when_empty) eqn:E.
  - apply andb_true_iff in E as [E _]. Zbool. exists w, None. split_and!; try done; [apply quiet_world_refl|cbn; lia].
  - set (blk := mkBlock (replicate (Z.to_nat n) 0) false). eexists _, (Some (length (blocks w))). split; [reflexivity|].
    assert (Hnone : blocks w !! length (blocks w) = None) by (apply lookup_ge_None_2; lia).
    assert (Hq : quiet w (upd_blocks (fun l => l ++ [blk]) w)).
    { split; try done; [|eauto]. intros a b Ea. exists b. split; [|done]. cbn. rewrite lookup_snoc_decide.
      case_decide; [apply lookup_lt_Some in Ea; lia|done]. }
    assert (Hsome : blocks (upd_blocks (fun l => l ++ [blk]) w) !! length (blocks w) = Some blk).
    { cbn. rewrite lookup_snoc_decide. now case_decide. }
    split_and!; try done.
    + now apply base_new_block.
    + exists blk. split; [done|]. split; [done|]. cbn. rewrite length_replicate. lia.
    + intros a [= <-]. split_and!; [done|eauto|]. intros o O. apply (block_unowned host w (length (blocks w)) HB Hnone o).
      now destruct o.
    + intros a [= <-]. eauto.
Qed.

(** A store was made: nobody uses it yet. *)
Definition made (w w' : World) (s : nat) (P : BackingStore -> Prop) : Prop :=
  Base w' /\ quiet w w' /\ exists x, stores w' !! s = Some x /\ live w' (kind x) /\ P x.

Lemma new_store_made w w1 k P : quiet w w1 -> Base w1 -> fresh_kind host w1 k -> P (mkStore k []) ->
  exists w' s, new_store k w1 = Some (w', inl s) /\ made w w' s P.
Proof.
  intros Hq HB Hf HP. eexists _, _. split; [reflexivity|]. split; [now apply base_new_store|].
  assert (Hl : forall u x, stores w1 !! u = Some x -> (stores w1 ++ [mkStore k []]) !! u = Some x).
  { intros u x E. rewrite lookup_snoc_decide. case_decide; [apply lookup_lt_Some in E; lia|done]. }
  split.
  - apply (quiet_world_trans w w1); [done|]. split; [done|done|intros a b Ea; eauto|exact Hl|eauto].
  - exists (mkStore k []). split; [cbn; rewrite lookup_snoc_decide; now case_decide|]. split; [|done].
    destruct Hf as [L _]. revert L. apply live_kept; [intros a b E; eauto|done].
Qed.

Lemma createDefaultNonSharedBackingStore_spec w n : Base w -> 0 <= n < maxArrayBufferSize -> exists w' s,
  createDefaultNonSharedBackingStore null_when_empty n w = Some (w', inl s) /\
  made w w' s (fun x => store_isResizable w' x = false /\ store_byteLength w' x = n /\ is_shared_kind (kind x) = false).
Proof.
  intros HB Hn. destruct (onMalloc_spec w n HB ltac:(lia)) as (w1 & d & E & HB1 & Hq & Ei & Es & Hd & Hno & _).
  destruct (new_store_made w w1 (NonShared (mkNonShared d n 0 true false true)) (fun x => kind x = NonShared (mkNonShared d n 0 true false true)) Hq HB1) as (w' & s & E' & M); [|done|].
  - split; [done|]. intros a Ea. now apply Hno.
  - exists w', s. unfold createDefaultNonSharedBackingStore, mbind, MU_bind. rewrite E. split; [done|].
    destruct M as (M1 & M2 & x & M3 & M4 & M5). split; [done|]. split; [done|]. exists x. split_and!; [done|done| | |now rewrite M5];
      unfold store_isResizable, store_byteLength; now rewrite M5.
Qed.

Lemma createDefaultResizableNonSharedBackingStore_spec w n max : Base w -> 0 <= n <= max -> max < maxArrayBufferSize -> exists w' s,
  createDefaultResizableNonSharedBackingStore null_when_empty n max w = Some (w', inl s) /\
  made w w' s (fun x => store_isResizable w' x = true /\ store_byteLength w' x = n /\ is_shared_kind (kind x) = false).
Proof.
  intros HB Hn Hmax. destruct (onMalloc_spec w max HB ltac:(lia)) as (w1 & d & E & HB1 & Hq & Ei & Es & Hd & Hno & _).
  destruct (new_store_made w w1 (NonShared (mkNonShared d n max true true true)) (fun x => kind x = NonShared (mkNonShared d n max true true true)) Hq HB1) as (w' & s & E' & M); [|done|].
  - split; [cbn; split_and!; [done|lia|lia|lia|lia|done]|]. intros a Ea. now apply Hno.
  - exists w', s. unfold createDefaultResizableNonSharedBackingStore, mbind, MU_bind. rewrite E. split; [done|].
    destruct M as (M1 & M2 & x & M3 & M4 & M5). split; [done|]. split; [done|]. exists x. split_and!; [done|done| | |now rewrite M5];
      unfold store_isResizable, store_byteLength; now rewrite M5.
Qed.

Lemma createSharedBackingStore_spec w i y : Base w -> infos w !! i = Some y ->
  (0 < i_refCount y \/ (i_refCount y = 0 /\ forall a, i_data y = Some a -> is_Some (blocks w !! a) /\ forall o, ~ owner w o a)) ->
  info_ok w (mkInfo (i_data y) (i_byteLength y) (i_refCount y + 1) (i_growable y)) ->
  (host = false -> users w i = 0) ->
  exists w' s, createSharedBackingStore i w = Some (w', inl s) /\
  made w w' s (fun x => kind x = Shared (Some i) /\
     store_byteLength w' x = i_byteLength y /\ store_isResizable w' x = match i_growable y with Some _ => true | None => false end).
Proof.
  intros HB Ei Hr Hok Hal. pose proof (base_retain host w i y HB Ei Hr) as HB1.
  assert (Hq1 : quiet w (retain i w)).
  { split; try done; [intros a b Ea; eauto|]. intros j z Ez. rewrite (retain_lookup i w y j Ei). case_decide; [|eauto].
    subst j. eexists. split; [reflexivity|]. cbn. split; congruence. }
  assert (EI : infos (retain i w) !! i = Some (mkInfo (i_data y) (i_byteLength y) (i_refCount y + 1) (i_growable y))).
  { rewrite (retain_lookup i w y i Ei). now case_decide. }
  destruct (new_store_made w (retain i w) (Shared (Some i)) (fun x => kind x = Shared (Some i)) Hq1 HB1) as (w' & s & E & M); [|done|].
  - split.
    + eexists. split; [exact EI|]. destruct Hok as (O1 & O2 & O3). now split.
    + eexists. split; [exact EI|]. cbn. change (users (retain i w) i) with (users w i). destruct HB as [[C _] _].
      pose proof (c_users _ _ C i y Ei). split; [lia|done].
  - exists w', s. split.
    { unfold createSharedBackingStore, info_ref, mbind, MU_bind, modify. exact E. }
    destruct M as (M1 & M2 & x & M3 & M4 & M5). split; [done|]. split; [done|]. exists x. split_and!; [done|done|done| |];
      unfold store_isResizable, store_byteLength, store_info; rewrite M5.
    + unfold new_store in E. injection E as <- <-. cbn [infos upd_stores]. now rewrite EI.
    + unfold new_store in E. injection E as <- <-. cbn [infos upd_stores]. now rewrite EI.
Qed.

Definition shared_size (n : Z) (max : option Z) : Z := default n max.
Lemma createShared_new_spec w n max :
  Base w -> 0 <= n <= shared_size n max -> shared_size n max < maxArrayBufferSize -> exists w' s,
  match max with
  | None => createDefaultSharedBackingStore null_when_empty n
  | Some max => createDefaultGrowableSharedBackingStore null_when_empty n max
  end w = Some (w', inl s) /\
  made w w' s (fun x => (exists i, kind x = Shared (Some i)) /\ store_byteLength w' x = n /\
    store_isResizable w' x = match max with Some _ => true | None => false end).
Proof.
  intros HB Hn Hmax.
  destruct (onMalloc_spec w (shared_size n max) HB ltac:(lia)) as (w1 & d & E & HB1 & Hq & Ei & Es & Hd & Hno & _).
  set (y := mkInfo d n 0 max). set (w2 := upd_infos (fun l => l ++ [y]) w1).
  assert (HB2 : Base w2) by now apply base_new_info.
  assert (EI : infos w2 !! length (infos w1) = Some y) by (cbn; rewrite lookup_snoc_decide; now case_decide).
  assert (Hown : forall o a, owner w2 o a -> owner w1 o a).
  { intros [u|j] a; [done|]. cbn. intros (z & Ez & P & D). rewrite lookup_snoc_decide in Ez.
    case_decide; [injection Ez as <-; cbn in P; lia|now exists z]. }
  assert (Hu : users w2 (length (infos w1)) = 0).
  { destruct HB2 as [[C _] _]. pose proof (c_users _ _ C _ _ EI) as H. cbn in H. unfold users in *. lia. }
  destruct (createSharedBackingStore_spec w2 (length (infos w1)) y HB2 EI) as (w' & s & E' & M).
  - right. split; [done|]. intros a Ea. destruct (Hno a Ea) as (_ & H1 & H2). split; [exact H1|].
    intros o O. now apply (H2 o), Hown.
  - unfold info_ok, y. cbn. destruct max as [m|]; cbn in *; split_and!; try lia; exact Hd.
  - done.
  - exists w', s. split.
    { destruct max as [m|]; unfold createDefaultSharedBackingStore, createDefaultGrowableSharedBackingStore, new_info, mbind, MU_bind;
        cbn [shared_size default from_option id] in E; rewrite E; exact E'. }
    destruct M as (M1 & M2 & x & M3 & M4 & M5 & M6 & M7). split; [done|].
    split; [apply (quiet_world_trans w w1); [done|]; apply (quiet_world_trans w1 w2); [|done]; split; try done; [intros a b Ea; eauto|]; intros j z Ez; exists z; split; [|done];
      cbn; rewrite lookup_snoc_decide; case_decide; [apply lookup_lt_Some in Ez; lia|done]|].
    exists x. split_and!; [done|done|eauto|done|done].
Qed.

(** ** Buffers over new stores *)
Lemma observed_views w w1 w' (P : ArrayBufferView -> Prop) `{forall y, Decision (P y)} d L :
  (forall y, P y -> m_buffer y <> None) ->
  (forall v, views w' !! v = (fun y => if decide (P y) then observe w1 y d L else y) <$> views w !! v) ->
  views_kept w w'.
Proof.
  intros HP Hs v x E. rewrite Hs, E. cbn. eexists. split; [reflexivity|]. case_decide as D.
  - destruct (observe_static w1 x d L) as (-> & -> & -> & -> & ->). split; [done|]. specialize (HP x D). now destruct (m_buffer x).
  - split; [done|]. now destruct (m_buffer x).
Qed.

(** A buffer that has no store and no views gets a new store. *)
Lemma attach_made w w1 b s y (P : BackingStore -> Prop) : made w w1 s P -> buffers w !! b = Some y -> m_backingStore y = None ->
  (host = false -> forall v z, views w !! v = Some z -> m_buffer z <> Some b) ->
  exists x, let w' := updateBackingStore b (Some s) w1 in
  Base w' /\ P x /\ stores w1 !! s = Some x /\ same_kinds w1 w' /\
  buffers w' = alter (set_isResizable (store_isResizable w1 x)) b (alter (set_store (Some s)) b (buffers w)) /\
  views_kept w w'.
Proof.
  intros (HB & [Qb Qv _ Qs _] & x & Ex & Lx & Px) Ey Eno Hno. exists x. cbv zeta.
  rewrite <- Qb in Ey. rewrite <- Qv in Hno.
  destruct (base_attach host w1 b s x y HB Ey Eno Ex Lx Hno) as (H1 & H2 & H3 & _).
  split_and!; try done; [now rewrite H3, Qb|].
  assert (Hvk : views_kept w1 (updateBackingStore b (Some s) w1)); [|intros v z; rewrite <- Qv; apply Hvk].
  destruct HB as [[C Hv] HF].
  rewrite (updateBackingStore_Some b s w1) by (unfold the_store; now rewrite Ey). cbv zeta.
  destruct (join_spec host w1 b s x y C Ey Eno Ex Lx) as (C1 & _ & Ev & _).
  pose proof (proj2 (backingStoreObserver_spec _ (c_wired _ _ C1) b (data (join b s w1) b) (byteLength (join b s w1) b))) as Hspec.
  rewrite Ev in Hspec. eapply observed_views; [|exact Hspec]. congruence.
Qed.

Lemma new_buffer_evolves w sh : Base w -> evolves w (upd_buffers (fun l => l ++ [mkBuffer false None [] sh]) w).
Proof.
  intros [[C _] _].
  assert (Eb : forall b x, buffers w !! b = Some x -> buffers (upd_buffers (fun l => l ++ [mkBuffer false None [] sh]) w) !! b = Some x).
  { intros b x E. cbn. rewrite lookup_snoc_decide. case_decide; [apply lookup_lt_Some in E; lia|done]. }
  split; [|now apply views_kept_eq|intros a blk E; eauto|].
  - intros b x E. exists x. split; [now apply Eb|done].
  - intros b [x E] D. destruct (used_data host w (upd_buffers (fun l => l ++ [mkBuffer false None [] sh]) w) b C) as (H1 & H2 & H3);
      [unfold the_store; now rewrite (Eb b x E), E|cbn; eauto|cbn; eauto|]. now rewrite H1, <- H2.
Qed.

Lemma new_buffer_no_views w b x v z : Base w -> buffers w !! b = None -> views w !! v = Some z -> m_buffer z = Some x -> x <> b.
Proof.
  intros [[C _] _] Hb Ev Ez ->. destruct (c_wired _ _ C) as [_ W].
  destruct (linked_up _ _ W v b) as [l Hl]; [now rewrite (wires_view w v z Ev), Ez|].
  unfold wires in Hl. cbn in Hl. rewrite list_lookup_fmap, Hb in Hl. done.
Qed.

(** From a world with a new buffer [b] that has no store: attach a store that is
    made. *)
Definition attached (w0 w' : World) (b : nat) (sh r : bool) (len : Z) : Prop :=
  Base w' /\ evolves w0 w' /\
  (forall c x, buffers w' !! c = Some x -> c <> b -> buffers w0 !! c = Some x) /\
  (exists s y z, buffers w' !! b = Some y /\ m_backingStore y = Some s /\ isShared y = sh /\ m_isResizable y = r /\
     stores w' !! s = Some z /\ is_shared_kind (kind z) = sh) /\
  byteLength w' b = len /\ isDetachedBuffer w' b = false /\ buffers w0 !! b = None /\ steady w0 w' /\
  (forall s x, stores w0 !! s = Some x -> exists x', stores w' !! s = Some x' /\ kind x' = kind x).

Lemma attached_good w0 w' b sh r len : Good w0 -> attached w0 w' b sh r len -> Good w'.
Proof.
  intros [_ Hs] (HB & _ & Hold & (s & y & z & Ey & Es & <- & _ & Ez & Hk) & _ & _ & _ & _ & Hst). split; [done|].
  intros c x Ec. destruct (decide (c = b)) as [->|Hc].
  - assert (x = y) as -> by congruence. split; [congruence|]. intros u Eu. exists z. split; congruence.
  - apply (sorted_kept w0); [|apply (Hs c), (Hold c x Ec Hc)]. intros u q Eq. destruct (Hst u q Eq) as (q' & E1 & E2).
    exists q'. split; congruence.
Qed.

Lemma attach_new w0 w1 w2 sh s r len : Base w0 ->
  w1 = upd_buffers (fun l => l ++ [mkBuffer false None [] sh]) w0 ->
  made w1 w2 s (fun x => store_isResizable w2 x = r /\ store_byteLength w2 x = len /\ is_shared_kind (kind x) = sh) ->
  attached w0 (updateBackingStore (length (buffers w0)) (Some s) w2) (length (buffers w0)) sh r len.
Proof.
  intros HB0 -> M. set (b := length (buffers w0)) in *. set (w1 := upd_buffers _ w0) in *.
  assert (Hnone : buffers w0 !! b = None) by (apply lookup_ge_None_2; unfold b; lia).
  assert (Ey : buffers w1 !! b = Some (mkBuffer false None [] sh)) by (cbn; rewrite lookup_snoc_decide; now case_decide).
  destruct (attach_made w1 w2 b s _ _ M Ey eq_refl) as (x & H1 & (R & Lx & Kx) & Ex & Hk & H3 & H4).
  { intros _ v z E Ez. exact (new_buffer_no_views w0 b b v z HB0 Hnone E Ez eq_refl). }
  set (w' := updateBackingStore b (Some s) w2) in *.
  assert (Eb : forall c, buffers w' !! c = if decide (c = b) then Some (mkBuffer r (Some s) [] sh) else buffers w0 !! c).
  { intros c. rewrite H3, !lookup_alter_decide. case_decide; [subst c; rewrite Ey; cbn; now rewrite R|].
    cbn. rewrite lookup_snoc_decide. now case_decide. }
  assert (Hst : forall u q, stores w0 !! u = Some q -> exists q', stores w' !! u = Some q' /\ kind q' = kind q).
  { intros u q E. destruct M as (_ & [_ _ _ Qs _] & _). specialize (Qs u q E).
    destruct (same_kinds_lookup w' w2 u q (same_kinds_sym _ _ Hk) Qs) as (q' & E1 & E2 & _). eauto. }
  assert (Hs : exists z, stores w' !! s = Some z /\ kind z = kind x /\ store_byteLength w' z = len).
  { destruct (same_kinds_lookup w' w2 s x (same_kinds_sym _ _ Hk) Ex) as (z & E1 & E2 & _ & E3 & _). exists z. split_and!; congruence. }
  destruct Hs as (z & Ez & Kz & Lz).
  assert (Et : the_store w' b = Some s) by (unfold the_store; rewrite Eb; now case_decide).
  assert (Hst0 : steady w0 w').
  { destruct M as (_ & [_ _ _ _ Qi] & _), Hk as (_ & Ki & _). intros c [q E].
    apply (used_data host w0 w' c); [apply HB0| |exact Hst|rewrite Ki; exact Qi].
    unfold the_store. rewrite Eb. case_decide; [congruence|done]. }
  split_and!.
  - exact H1.
  - destruct M as (_ & [_ _ Qk Qs Qi] & _). destruct Hk as (Kb & Ki & _). split.
    + intros c q E. exists q. split; [|done]. rewrite Eb. case_decide; [congruence|done].
    + exact H4.
    + intros a blk E. destruct (Qk a blk E) as (blk' & E' & _ & L'). exists blk'. rewrite Kb. done.
    + now apply steady_memory.
  - intros c q. rewrite Eb. now case_decide.
  - exists s, (mkBuffer r (Some s) [] sh), z. split_and!; try done; [rewrite Eb; now case_decide|congruence].
  - unfold byteLength, backingStore. now rewrite Et, Ez.
  - unfold isDetachedBuffer. now rewrite Et.
  - done.
  - exact Hst0.
  - exact Hst.
Qed.

Lemma detach_fresh w b f sh : buffers w !! b = Some (mkBuffer f None [] sh) -> updateBackingStore b None w = w.
Proof.
  intros E. unfold updateBackingStore, the_store. rewrite E. cbn.
  assert (Ea : alter (set_store None) b (buffers w) = buffers w).
  { apply list_eq. intros i. rewrite lookup_alter_decide. case_decide; [subst; now rewrite E|done]. }
  unfold upd_buffers. rewrite Ea. unfold backingStoreObserver. cbn. rewrite E. now destruct w.
Qed.

(** What every computation of a builtin establishes. *)
Definition post {A} (w0 : World) (P : A -> World -> Prop) (r : A + Thrown) (w : World) : Prop :=
  Good w /\ evolves w0 w /\ match r with inl a => P a w | inr _ => True end.
Lemma post_throw {A} w0 (P : A -> World -> Prop) e w : Good w -> evolves w0 w -> post w0 P (inr e) w.
Proof. now split. Qed.

(** A new object without a store, which nobody sees since its constructor throws. *)
Lemma good_new_buffer w : Good w -> Good (upd_buffers (fun l => l ++ [mkBuffer false None [] false]) w).
Proof.
  intros [HB Hs]. split; [now apply base_new_buffer|]. intros b x. cbn. rewrite lookup_snoc_decide.
  case_decide; [intros [= <-]; done|]. intros E. apply (sorted_kept w); [eauto|now apply (Hs b)].
Qed.

(** A new buffer: its length, and that it was not there before and the others are
    as they were. *)
Definition new_at (w : World) (len : Z) (sh r : bool) (b : nat) (w' : World) : Prop :=
  buffers w !! b = None /\ byteLength w' b = len /\ isDetachedBuffer w' b = false /\
  exists y, buffers w' !! b = Some y /\ isShared y = sh /\ m_isResizable y = r /\ steady w w'.

Lemma attached_new_at w w' b sh r len : attached w w' b sh r len -> new_at w len sh r b w'.
Proof. intros (_ & _ & _ & (s & y & z & E1 & _ & E2 & E3 & _) & H1 & H2 & H3 & H4 & _). split_and!; try done. eauto. Qed.

(** The two ways to give a new buffer its store, as computations. *)
Lemma allocate_new w f r len :
  Good w ->
  (forall w1, w1 = upd_buffers (fun l => l ++ [mkBuffer false None [] false]) w -> Base w1 -> exists w2 s, f w1 = Some (w2, inl s) /\
     made w1 w2 s (fun x => store_isResizable w2 x = r /\ store_byteLength w2 x = len /\ is_shared_kind (kind x) = false)) ->
  wp (b ← new_buffer false;
      (detachArrayBuffer b;; s ← f; modify (updateBackingStore b (Some s)));;
      mret b)
    (post w (new_at w len false r)) w.
Proof.
  intros HG Hf. set (w1 := upd_buffers (fun l => l ++ [mkBuffer false None [] false]) w).
  assert (HB1 : Base w1) by (apply base_new_buffer; apply HG).
  destruct (Hf w1 eq_refl HB1) as (w2 & s & E & M).
  assert (Efresh : updateBackingStore (length (buffers w)) None w1 = w1).
  { apply (detach_fresh w1 _ false false). cbn. rewrite lookup_snoc_decide. now case_decide. }
  apply (wp_eq _ _ _ (updateBackingStore (length (buffers w)) (Some s) w2) (inl (length (buffers w)))).
  - unfold new_buffer, detachArrayBuffer, modify, mbind, MU_bind. fold w1. rewrite Efresh, E. done.
  - assert (HA : attached w (updateBackingStore (length (buffers w)) (Some s) w2) (length (buffers w)) false r len).
    { apply (attach_new w w1 w2 false s r len); [apply HG|done|]. exact M. }
    split; [now apply (attached_good w _ _ _ _ _ HG HA)|]. split; [apply HA|now apply attached_new_at].
Qed.

(** From every good world the computation is defined, ends in a good world and
    loses nothing; what it returns is in [P]. *)
Definition safe {A} (P : A -> Prop) (m : MU World A) : Prop := forall w, Good w -> wp m (post w (fun a _ => P a)) w.
(** The results of [toInteger] and [toIndex]. *)
Definition not_nan (d : Z) : Prop := is_nan d = false.
Definition is_index (i : Z) : Prop := 0 <= i < 2 ^ 53 \/ i = Word.InvalidIndexValue.
Definition any {A} (_ : A) : Prop := True.

Lemma post_weaken {A} w0 w1 (P Q : A -> World -> Prop) r w :
  evolves w0 w1 -> (forall a, P a w -> Q a w) -> post w1 P r w -> post w0 Q r w.
Proof. intros He HPQ (H1 & H2 & H3). split; [done|]. split; [now apply (buffers_evolve_trans w0 w1)|]. destruct r; auto. Qed.

Lemma allocateArrayBuffer_spec w0 proto n max rz w :
  safe any proto -> Good w -> evolves w0 w -> 0 <= n -> match max with Some m => n <= m | None => True end ->
  wp (allocateArrayBuffer null_when_empty proto n max rz)
     (post w0 (fun b w' => exists w1, evolves w w1 /\ new_at w1 n false match max with Some _ => rz | None => false end b w')) w.
Proof.
  intros Hproto HG He Hn Hmax. unfold allocateArrayBuffer. apply wp_bind. eapply wp_mono; [now apply Hproto|].
  intros [[]|e] w1 (HG1 & He1 & _); [|split; [done|]; split; [now apply (buffers_evolve_trans w0 w)|done]].
  assert (He01 : evolves w0 w1) by now apply (buffers_evolve_trans w0 w).
  apply wp_bind, wp_throw_if; intros Hlt; [now apply post_throw|]. Zbool.
  assert (Hfix : forall f r, (forall w2, w2 = upd_buffers (fun l => l ++ [mkBuffer false None [] false]) w1 -> Base w2 -> exists w3 s, f w2 = Some (w3, inl s) /\
     made w2 w3 s (fun x => store_isResizable w3 x = r /\ store_byteLength w3 x = n /\ is_shared_kind (kind x) = false)) ->
     wp (b ← new_buffer false; (detachArrayBuffer b;; s ← f; modify (updateBackingStore b (Some s)));; mret b)
       (post w0 (fun b w' => exists w1, evolves w w1 /\ new_at w1 n false r b w')) w1).
  { intros f r Hf. eapply wp_mono; [apply (allocate_new w1 f r n HG1 Hf)|]. intros rr w'. apply post_weaken; [done|].
    intros b H. exists w1. done. }
  destruct max as [m|].
  - unfold new_buffer at 1. apply wp_bind. eapply wp_eq; [reflexivity|]. cbv beta iota.
    apply wp_bind, wp_throw_if; intros Hm; Zbool.
    { apply post_throw; [now apply good_new_buffer|]. apply (buffers_evolve_trans w0 w1); [done|apply new_buffer_evolves, HG1]. }
    destruct rz.
    + specialize (Hfix (createDefaultResizableNonSharedBackingStore null_when_empty n m) true).
      unfold new_buffer in Hfix. destruct Hfix as (w' & r & E & H).
      { intros w2 _ HB2. apply createDefaultResizableNonSharedBackingStore_spec; auto; lia. }
      exists w', r. split; [exact E|exact H].
    + specialize (Hfix (createDefaultNonSharedBackingStore null_when_empty n) false).
      unfold new_buffer in Hfix. destruct Hfix as (w' & r & E & H).
      { intros w2 _ HB2. apply createDefaultNonSharedBackingStore_spec; auto; lia. }
      exists w', r. split; [exact E|exact H].
  - apply (Hfix (createDefaultNonSharedBackingStore null_when_empty n) false).
    intros w2 _ HB2. apply createDefaultNonSharedBackingStore_spec; auto; lia.
Qed.

(** ** Detaching *)
Lemma detach_post w0 w b y : Good w -> evolves w0 w -> buffers w !! b = Some y -> isShared y = false ->
  Good (updateBackingStore b None w) /\ evolves w0 (updateBackingStore b None w).
Proof.
  intros [HB Hs] He Ey Hsh. destruct (detach_buffers host w b HB) as [Eb Hk]. set (w' := updateBackingStore b None w) in *.
  assert (Hst : forall s x, stores w !! s = Some x -> exists x', stores w' !! s = Some x' /\ kind x' = kind x).
  { intros s x E. destruct (same_kinds_lookup w' w s x (same_kinds_sym _ _ Hk) E) as (x' & E1 & E2 & _). eauto. }
  split; [split|].
  - now apply base_detach.
  - intros c x. rewrite Eb, lookup_alter_decide. case_decide as E.
    + subst c. rewrite Ey. intros [= <-]. split; cbn; [congruence|done].
    + intros Ec. apply (sorted_kept w); [|now apply (Hs c)]. intros s z Ez. destruct (Hst s z Ez) as (z' & E4 & E5).
      exists z'. split; congruence.
  - apply (buffers_evolve_trans w0 w); [done|]. destruct HB as [[C Hv] HF].
    destruct Hk as (Kb & Ki & Ks). split.
    + intros c x. rewrite Eb, lookup_alter_decide. intros E. case_decide; [|eauto]. rewrite E. cbn. eauto.
    + unfold w'. rewrite updateBackingStore_None. destruct (leave_spec host w b C) as (C1 & _ & Ev & _).
      pose proof (proj2 (backingStoreObserver_spec _ (c_wired _ _ C1) b None 0)) as Hspec.
      rewrite Ev in Hspec. eapply observed_views; [|exact Hspec]. congruence.
    + intros a blk E. exists blk. now rewrite Kb.
    + intros c [x Ex] D. assert (Hc : c <> b).
      { intros ->. unfold isDetachedBuffer, the_store in D. rewrite Eb, lookup_alter_decide, Ey in D. case_decide; done. }
      destruct (used_data host w w' c C) as (D1 & D2 & D3); [|exact Hst|rewrite Ki; eauto|now rewrite D1, <- D2].
      unfold the_store. rewrite Eb, lookup_alter_decide. case_decide; done.
Qed.

(** ** Contents *)
Lemma load_bytes_ok w a off n : holds w a (off + n) -> 0 <= off -> 0 <= n -> exists bytes,
  load_bytes (plus a off) n w = Some (w, inl bytes) /\ Z.of_nat (length bytes) = n.
Proof.
  intros H Ho Hn. unfold load_bytes. destruct (n =? 0) eqn:E; Zbool; [exists []; split; [done|cbn; lia]|].
  destruct a as [a|]; cbn in *; [|lia]. destruct H as (blk & E1 & E2 & E3). unfold accessible. cbn. rewrite E1. cbn. rewrite E2.
  rewrite (proj2 (Z.leb_le 0 off)), (proj2 (Z.leb_le _ _)) by lia. cbn.
  eexists. split; [reflexivity|]. rewrite length_take, length_drop. lia.
Qed.

Lemma store_bytes_ok w a off bytes : holds w a (off + Z.of_nat (length bytes)) -> 0 <= off -> exists w',
  store_bytes (plus a off) bytes w = Some (w', inl tt) /\ blocks_kept w w' /\
  infos w' = infos w /\ stores w' = stores w /\ buffers w' = buffers w /\ views w' = views w.
Proof.
  intros H Ho. unfold store_bytes. destruct bytes as [|byte bytes]; [exists w; split_and!; try done; intros a0 b E; eauto|].
  destruct a as [a|]; cbn [holds] in H; [|cbn [length] in H; lia]. destruct H as (blk & E1 & E2 & E3). unfold accessible. cbn [plus fmap option_fmap option_map fst snd].
  rewrite E1. cbn. rewrite E2. rewrite (proj2 (Z.leb_le 0 off)), (proj2 (Z.leb_le _ _)) by (cbn [length] in *; lia). cbn.
  eexists. split; [reflexivity|]. split; [|done]. intros c b E. cbn. rewrite lookup_alter_decide. case_decide; [|eauto].
  subst c. assert (b = blk) as -> by congruence. rewrite E1. cbn. eexists. split; [reflexivity|]. split; [done|].
  unfold write_cells. cbn [cells]. rewrite !length_app, length_take, length_drop. cbn [length] in *. lia.
Qed.

Lemma good_kept w w' : Good w -> blocks_kept w w' -> infos w' = infos w -> stores w' = stores w ->
  buffers w' = buffers w -> views w' = views w -> Good w' /\ evolves w w'.
Proof.
  intros HG Hk Ei Es Eb Ev. assert (Q : quiet w w') by (split; rewrite ?Ei, ?Es; eauto).
  split; [|apply (quiet_evolves host); [apply HG|done]].
  apply (good_quiet w); [done| |done]. apply (base_kept host w); auto. apply HG.
Qed.

(** Copying into a buffer from memory that is there. *)
Lemma fillData_spec w0 b newData off n w : Good w -> evolves w0 w -> holds w newData (off + n) -> 0 <= off -> 0 <= n -> n <= byteLength w b ->
  wp (fillData b (plus newData off) n)
    (fun r w' => Good w' /\ evolves w0 w' /\ evolves w w' /\ r = inl tt /\ buffers w' = buffers w /\ stores w' = stores w /\ infos w' = infos w) w.
Proof.
  intros HG He Hd Ho Hn Hlen. unfold fillData. apply wp_bind. destruct (load_bytes_ok w newData off n Hd Ho Hn) as (bytes & E & Hb).
  eapply wp_eq; [exact E|]. cbv beta iota. apply wp_bind, wp_gets_id. cbv beta iota.
  destruct (data_holds host w b) as [Hh _]; [apply HG|].
  destruct (store_bytes_ok w (data w b) 0 bytes) as (w' & E' & K & Ei & Es & Eb & Ev); [|lia|].
  { rewrite Hb. destruct (data w b) as [a|]; cbn in *; [destruct Hh as (blk & ? & ? & ?); exists blk; split_and!; try done; lia|lia]. }
  eapply wp_eq; [exact E'|]. destruct (good_kept w w' HG K Ei Es Eb Ev) as [HG' He']. split_and!; try done. now apply (buffers_evolve_trans w0 w).
Qed.

(** What a buffer held before is still there if it was not detached. *)
Lemma memory_remains w w' b n : Good w' -> evolves w w' -> is_Some (buffers w !! b) -> isDetachedBuffer w' b = false ->
  holds w (data w b) n -> holds w' (data w' b) n.
Proof.
  intros [[[C _] _] _] [_ _ L M] Hb D Hh. destruct (M b Hb D) as (E & _). rewrite E.
  destruct (data_holds host w' b C) as [Hh' _]. rewrite E in Hh'. destruct (data w b) as [a|]; [|done]. cbn in *.
  destruct Hh as (blk & E1 & _ & E3), Hh' as (blk' & E1' & E2' & _). exists blk'. split_and!; try done.
  destruct (L a blk E1) as (blk2 & E4 & E5). assert (blk2 = blk') as -> by congruence. lia.
Qed.

(** ** Guards *)
Lemma resolve_this_spec {A} w0 (k : nat -> MU World A) P sh this w : Good w -> evolves w0 w ->
  (forall y, buffers w !! this = Some y -> isShared y = sh -> wp (k this) (post w0 P) w) ->
  wp (obj ← resolve_this sh this; k obj) (post w0 P) w.
Proof.
  intros HG He H. apply wp_bind. unfold resolve_this. apply wp_bind, wp_gets_id. cbv beta iota.
  destruct (buffers w !! this) as [y|] eqn:E.
  - apply wp_bind, wp_throw_if; intros Hs.
    + now apply post_throw.
    + apply wp_ret. apply (H y); [done|]. destruct (isShared y), sh; done.
  - now apply wp_throw, post_throw.
Qed.
Lemma throwTypeErrorIfDetached_spec {A} w0 (k : MU World A) P b w : Good w -> evolves w0 w ->
  (isDetachedBuffer w b = false -> wp k (post w0 P) w) -> wp (throwTypeErrorIfDetached b;; k) (post w0 P) w.
Proof.
  intros HG He H. apply wp_bind. unfold throwTypeErrorIfDetached. apply wp_bind, wp_gets_id. cbv beta iota.
  apply wp_throw_if; intros Hd; [now apply post_throw|auto].
Qed.
Lemma throw_if_spec {A} w0 (k : MU World A) P (c : bool) e w : Good w -> evolves w0 w ->
  (c = false -> wp k (post w0 P) w) -> wp (throw_if c e;; k) (post w0 P) w.
Proof. intros HG He H. apply wp_bind, wp_throw_if; intros Hd; [now apply post_throw|auto]. Qed.
Lemma safe_bind {A B} w0 (R : A -> Prop) (m : MU World A) (k : A -> MU World B) P w : safe R m -> Good w -> evolves w0 w ->
  (forall a w', R a -> Good w' -> evolves w w' -> evolves w0 w' -> wp (k a) (post w0 P) w') ->
  wp (a ← m; k a) (post w0 P) w.
Proof.
  intros Hm HG He Hk. apply wp_bind. eapply wp_mono; [now apply Hm|]. intros [a|e] w' (HG' & He' & HR).
  - apply Hk; [done|done|done|]. now apply (buffers_evolve_trans w0 w).
  - apply post_throw; [done|]. now apply (buffers_evolve_trans w0 w).
Qed.
Lemma safe_checked_index m : safe is_index m -> safe (fun i => 0 <= i < 2 ^ 53) (checked_index m).
Proof.
  intros Hm w HG. unfold checked_index. apply (safe_bind w is_index); [done|done|apply buffers_evolve_refl|].
  intros i w' Hi HG' He' _. apply throw_if_spec; [done|done|]. intros E. Zbool. apply wp_ret.
  split; [done|]. split; [done|]. now destruct Hi.
Qed.

Lemma cast_size_t_between d m : not_nan d -> flt d 0 = false -> flt (of_Z m) d = false -> 0 <= m <= 2 ^ 53 ->
  exists n, cast_size_t d = Some n /\ 0 <= n <= m.
Proof.
  intros Hn H1 H2 Hm. unfold not_nan in Hn. destruct (of_Z_exact m ltac:(lia)) as [F E].
  assert (Hfin : is_finite d = true).
  { unfold flt in H2. rewrite (is_finite_nan (of_Z m)), Hn in H2 by done. cbn in H2. Zbool.
    unfold flt in H1. rewrite Hn in H1. change (key 0) with 0 in H1. change (is_nan 0) with false in H1. cbn [negb andb] in H1. Zbool.
    unfold is_finite in *. apply Z.ltb_lt in F. apply Z.ltb_lt. unfold key in *. pose proof (mag_range (of_Z m)).
    destruct (sign_bit d), (sign_bit (of_Z m)); lia. }
  rewrite flt_scaled in H1, H2 by done. rewrite E in H2. change (scaled 0) with 0 in H1. Zbool.
  pose proof UNIT_pos. unfold cast_size_t. rewrite Hfin.
  assert (Hq : 0 <= to_Z d <= m).
  { unfold to_Z. rewrite Z.quot_div_nonneg by lia. split; [apply Z.div_pos; lia|]. apply Z.div_le_upper_bound; lia. }
  rewrite (proj2 (Z.leb_le _ _)), (proj2 (Z.ltb_lt _ _)) by lia. eauto.
Qed.

(** ** Resizing *)

(** The store [s] changed to [w1] and its views were told. *)
Lemma updated_good w w1 s d len : Good w -> Base (store_bufferUpdated s d len w1) -> wires w1 = wires w ->
  buffers w1 = buffers w -> views w1 = views w -> is_Some (stores w1 !! s) -> lengths_kept w w1 ->
  (forall u x, stores w !! u = Some x -> exists x', stores w1 !! u = Some x' /\ is_shared_kind (kind x') = is_shared_kind (kind x)) ->
  (forall u x, stores w !! u = Some x -> exists x', stores w1 !! u = Some x' /\ store_data w1 x' = store_data w x /\
     (store_isResizable w x = false -> store_byteLength w1 x' = store_byteLength w x)) ->
  Good (store_bufferUpdated s d len w1) /\ evolves w (store_bufferUpdated s d len w1) /\
  same_rest w1 (store_bufferUpdated s d len w1).
Proof.
  intros [HB Hs] HB' Ew Eb Ev [x Ex] HL Hsh Hd.
  assert (Hwired : wired (wires w1)) by (rewrite Ew; apply HB).
  destruct (store_bufferUpdated_spec w1 Hwired s d len x Ex) as [R Hspec]. set (w' := store_bufferUpdated s d len w1) in *.
  pose proof R as (R1 & R2 & R3 & R4). split; [split|split; [split|done]].
  - exact HB'.
  - intros b y. rewrite R4, Eb. intros E. apply (sorted_kept w); [|now apply (Hs b)]. now rewrite R3.
  - rewrite R4, Eb. eauto.
  - rewrite Ev in Hspec. eapply observed_views; [|exact Hspec]. intros y Hy E. unfold store_of in Hy. now rewrite E in Hy.
  - intros a blk E. rewrite R1. apply HL, E.
  - intros b _ D. assert (Et : the_store w' b = the_store w b) by (unfold the_store; now rewrite R4, Eb).
    unfold isDetachedBuffer, isResizableArrayBuffer in *. rewrite Et in D.
    unfold data, byteLength, backingStore. rewrite Et, R3. destruct (the_store w b) as [u|] eqn:Eu; [|done].
    destruct HB as [[C _] HF]. destruct (c_used _ _ C b u Eu) as (z & Ez & _). destruct (Hd u z Ez) as (z' & -> & E2 & E3). rewrite Ez. cbn.
    rewrite (store_data_rest w1 w' z' R), (store_byteLength_rest w1 w' z' R). split_and!; [exact E2|done|].
    pose proof (HF b u z Eu Ez) as Hf. unfold isResizableArrayBuffer in Hf. rewrite Hf. exact E3.
Qed.

Lemma resize_nonshared_post w0 w s x n0 n : Good w -> evolves w0 w -> stores w !! s = Some x -> kind x = NonShared n0 ->
  live w (kind x) -> n_isResizable n0 = true -> 0 <= n <= n_maxByteLength n0 ->
  wp (resize s n) (post w0 (fun _ w' => buffers w' = buffers w /\ exists x', stores w' !! s = Some x' /\ store_byteLength w' x' = n)) w.
Proof.
  intros HG He Es Ek Hl Hr Hn. rewrite Ek in Hl. destruct Hl as (L1 & L2 & L3). rewrite Hr in L3. destruct L3 as [L3 L4].
  unfold resize. apply wp_bind, wp_gets_id. apply wp_bind. eapply wp_certain; [exact Es|]. cbv beta iota.
  assert (Hguard : store_isResizable w x && (n <=? store_maxByteLength w x) = true).
  { unfold store_isResizable, store_maxByteLength. rewrite Ek, Hr, (proj2 (Z.leb_le n _)) by lia. done. }
  rewrite Hguard, Ek. apply wp_bind, wp_ret. cbv beta iota.
  assert (Hzero : exists w1, (if n_byteLength n0 <? n
     then store_bytes (plus (n_data n0) (n_byteLength n0)) (replicate (Z.to_nat (n - n_byteLength n0)) 0) else mret tt) w = Some (w1, inl tt) /\
     blocks_kept w w1 /\ infos w1 = infos w /\ stores w1 = stores w /\ buffers w1 = buffers w /\ views w1 = views w).
  { destruct (n_byteLength n0 <? n) eqn:E; Zbool; [|exists w; split_and!; try done; intros a blk Ea; eauto].
    apply store_bytes_ok; [|lia]. rewrite length_replicate.
    destruct (n_data n0) as [a|]; cbn in *; [destruct L4 as (blk & ? & ? & ?); exists blk; split_and!; try done; lia|lia]. }
  destruct Hzero as (w1 & E1 & Kb & Ei & Est & Eb & Ev). apply wp_bind. eapply wp_eq; [exact E1|]. cbv beta iota.
  apply wp_bind, wp_modify, wp_modify. cbv beta iota.
  destruct (good_kept w w1 HG Kb Ei Est Eb Ev) as [HG1 He1].
  set (n' := mkNonShared (n_data n0) n (n_maxByteLength n0) (n_isAllocatedByPlatform n0) (n_isResizable n0) (n_gcDisclaimAlive n0)).
  assert (Es1 : stores w1 !! s = Some x) by now rewrite Est.
  assert (Hlive : live w1 (NonShared n')).
  { cbn. rewrite Hr. split_and!; [done|lia|lia|lia|lia|]. now apply (holds_kept w w1). }
  assert (HB' : Base (store_bufferUpdated s (n_data n0) n (upd_stores (alter (set_kind (NonShared n')) s) w1))).
  { apply (base_update_nonshared host w1 s x n0 (n_data n0) n); [apply HG1|done|done|done|now left|done|].
    intros a Ea o O. destruct HG1 as [[[C _] _] _]. apply (c_owner _ _ C o (inl s) a O). exists x, n0. done. }
  set (w2 := upd_stores (alter (set_kind (NonShared n')) s) w1) in *.
  assert (El : forall u, stores w2 !! u = if decide (u = s) then Some (set_kind (NonShared n') x) else stores w1 !! u)
    by (intros; now apply set_kind_lookup).
  destruct (updated_good w1 w2 s (n_data n0) n HG1 HB') as (HG' & He' & R).
  - apply (wires_set_kind w1 s (NonShared n') id).
  - done.
  - done.
  - rewrite El. case_decide; eauto.
  - intros a blk Ea. eauto.
  - intros u z Ez. rewrite El. case_decide; [|eauto]. subst u. exists (set_kind (NonShared n') x). split; [done|].
    assert (z = x) as -> by congruence. now rewrite Ek.
  - intros u z Ez. rewrite El. case_decide; [|eauto]. subst u. exists (set_kind (NonShared n') x). split; [done|].
    assert (z = x) as -> by congruence. unfold store_data, store_isResizable. cbn. rewrite Ek. split; [done|]. now rewrite Hr.
  - split; [done|]. split; [apply (buffers_evolve_trans w0 w1); [now apply (buffers_evolve_trans w0 w)|done]|].
    pose proof R as (R1 & R2 & R3 & R4). split; [rewrite R4; exact Eb|]. exists (set_kind (NonShared n') x). rewrite R3, El.
    split; [now case_decide|done].
Qed.

Lemma resize_shared_post w0 w s x i y max n : Good w -> evolves w0 w -> stores w !! s = Some x -> kind x = Shared (Some i) ->
  live w (kind x) -> infos w !! i = Some y -> i_growable y = Some max -> i_byteLength y <= n <= max ->
  wp (resize s n) (post w0 (fun _ w' => buffers w' = buffers w /\ exists x', stores w' !! s = Some x' /\ store_byteLength w' x' = n)) w.
Proof.
  intros HG He Es Ek Hl Ei Eg Hn.
  unfold resize. apply wp_bind, wp_gets_id. apply wp_bind. eapply wp_certain; [exact Es|]. cbv beta iota.
  assert (Einfo : store_info w x = Some y) by (unfold store_info; now rewrite Ek).
  unfold store_isResizable, store_maxByteLength. rewrite Ek, Einfo. cbn [mbind option_bind]. rewrite Eg. cbn [default andb].
  cbn [from_option id]. rewrite (proj2 (Z.leb_le n max)) by lia. apply wp_bind, wp_ret. cbv beta iota.
  set (w1 := upd_infos (alter (fun x => mkInfo (i_data x) n (i_refCount x) (i_growable x)) i) w).
  apply wp_bind, wp_modify. cbv beta iota. fold w1. apply wp_bind, wp_gets_id. apply wp_bind. eapply wp_certain; [exact Es|]. cbv beta iota.
  apply wp_modify. cbv beta iota.
  pose proof (base_grow host w s x i y max n ltac:(apply HG) Es Ek Ei Eg Hl Hn) as HB'. cbv zeta in HB'. fold w1 in HB'.
  assert (EI : forall j, infos w1 !! j = if decide (j = i) then Some (mkInfo (i_data y) n (i_refCount y) (Some max)) else infos w !! j).
  { intros j. cbn. rewrite lookup_alter_decide. case_decide; [subst j; rewrite Ei; cbn; now rewrite Eg|done]. }
  destruct (updated_good w w1 s (store_data w1 x) (store_byteLength w1 x) HG HB') as (HG' & He' & R); try done.
  - intros a blk Ea. now exists blk.
  - intros u z Ez. now exists z.
  - intros u z Ez. exists z. split; [done|]. unfold store_data, store_isResizable, store_byteLength, store_info.
    destruct (kind z) as [m|[j|]]; [done| |done]. rewrite EI. case_decide; [|done]. subst j. rewrite Ei. cbn. now rewrite Eg.
  - split; [done|]. split; [now apply (buffers_evolve_trans w0 w)|]. pose proof R as (R1 & R2 & R3 & R4). split; [exact R4|].
    exists x. rewrite R3. split; [done|]. rewrite (store_byteLength_rest w1 _ x R).
    unfold store_byteLength, store_info. rewrite Ek, EI. now case_decide.
Qed.

Lemma resize_post w0 w b y n : Good w -> evolves w0 w -> buffers w !! b = Some y -> m_isResizable y = true ->
  isDetachedBuffer w b = false -> 0 <= n <= maxByteLength w b -> (isShared y = true -> byteLength w b <= n) ->
  exists s, the_store w b = Some s /\ wp (resize s n) (post w0 (fun _ w' => byteLength w' b = n)) w.
Proof.
  intros HG He Ey Hr Hd Hn Hsh. unfold isDetachedBuffer in Hd. destruct (the_store w b) as [s|] eqn:Es; [|done]. exists s. split; [done|].
  pose proof HG as [[[C _] HF] Hs]. destruct (c_used _ _ C b s Es) as (x & Ex & L).
  assert (Hrs : store_isResizable w x = true).
  { rewrite <- (HF b s x Es Ex). unfold isResizableArrayBuffer. now rewrite Ey. }
  assert (Hfin : forall w', (buffers w' = buffers w /\ exists x', stores w' !! s = Some x' /\ store_byteLength w' x' = n) -> byteLength w' b = n).
  { intros w' (Eb & x' & E1 & E2). unfold byteLength, backingStore, the_store in *. rewrite Eb. destruct (buffers w !! b); [|done].
    rewrite Es, E1. done. }
  unfold maxByteLength, byteLength, backingStore in *. rewrite Es, Ex in *. cbn [fmap option_fmap option_map default from_option id] in *.
  destruct (kind x) as [n0|[i|]] eqn:Ek; [| |done].
  - unfold store_isResizable in Hrs. unfold store_maxByteLength in Hn. rewrite Ek in Hrs, Hn.
    eapply wp_mono; [eapply (resize_nonshared_post w0 w s x n0 n); eauto; now rewrite Ek|].
    intros r w'. apply post_weaken; [apply buffers_evolve_refl|auto].
  - pose proof L as (y0 & Ey0 & _). unfold store_isResizable, store_maxByteLength, store_byteLength, store_info in *. rewrite Ek in *.
    rewrite Ey0 in *. cbn in Hrs, Hn, Hsh. destruct (i_growable y0) as [max|] eqn:Eg; [|done]. cbn in Hn.
    eapply wp_mono; [eapply (resize_shared_post w0 w s x i y0 max n); eauto; [now rewrite Ek|]|].
    + split; [|lia]. apply Hsh. destruct (Hs b y Ey) as [_ S2]. unfold the_store in Es. rewrite Ey in Es.
      destruct (S2 s Es) as (z & Ez & <-). assert (z = x) as -> by congruence. now rewrite Ek.
    + intros r w'. apply post_weaken; [apply buffers_evolve_refl|auto].
Qed.

End Host.
End BufferSpecs.
