(* ===== verification/BufferBuiltins.v ===== *)
(** Each builtin of [ArrayBuffer] is safe: from every good world it stays within
    the defined behaviour of C++ and ends in a good world, whatever the
    conversions of its arguments do in between. *)
From Stdlib Require Import ZArith Lia Bool.
From stdpp Require Import base numbers list option decidable gmap.
From S2P Require Import Prelude Effects Double Value ArrayBuffer BufferInvariant BufferSafety.

Module BufferBuiltins.
Import Effects WP Buffers Wiring Notified Invariant Steps RelativeFacts BufferSpecs.

Section Host.
Context (host null_when_empty : bool).
Let Base := Base host.
Let Good := Good host.
Let Core := Core host.
Let safe {A} := @safe host A.
Let post {A} := @post host A.

Lemma post_ret {A} w0 (P : A -> World -> Prop) a w : Good w -> evolves w0 w -> P a w -> wp (mret a) (post w0 P) w.
Proof. intros. apply wp_ret. now split. Qed.
Lemma wp_post_weaken {A} w0 w1 (P Q : A -> World -> Prop) m w :
  evolves w0 w1 -> (forall a w', P a w' -> Q a w') -> wp m (post w1 P) w -> wp m (post w0 Q) w.
Proof. intros He HPQ H. eapply wp_mono; [exact H|]. intros r w'. apply (post_weaken host); auto. Qed.

(** ** Scripts *)
Lemma safe_ret {A} (P : A -> Prop) a : P a -> safe P (mret a).
Proof. intros H w HG. now apply post_ret; [|apply buffers_evolve_refl|]. Qed.
Lemma safe_throw {A} (P : A -> Prop) e : safe P (throw e).
Proof. intros w HG. apply wp_throw, (post_throw host); [done|apply buffers_evolve_refl]. Qed.
Lemma safe_gets {A} (P : A -> Prop) f : (forall w, P (f w)) -> safe P (gets f).
Proof. intros H w HG. apply wp_gets. split; [done|]. split; [apply buffers_evolve_refl|apply H]. Qed.
Lemma safe_seq {A B} (P : A -> Prop) (Q : B -> Prop) m k :
  safe P m -> (forall a, P a -> safe Q (k a)) -> safe Q (a ← m; k a).
Proof.
  intros Hm Hk w HG. apply (safe_bind host w P); [done|done|apply buffers_evolve_refl|]. intros a w' Ha HG' He _.
  eapply wp_post_weaken; [exact He| |now apply Hk]. auto.
Qed.
Lemma safe_weaken {A} (P Q : A -> Prop) m : (forall a, P a -> Q a) -> safe P m -> safe Q m.
Proof. intros HPQ H w HG. eapply wp_post_weaken; [apply buffers_evolve_refl| |now apply H]. cbn. auto. Qed.

(** ** Getters *)
Lemma safe_resolve {A} (P : A -> Prop) sh this k :
  (forall w y, Good w -> buffers w !! this = Some y -> isShared y = sh -> wp (k this) (post w (fun a _ => P a)) w) ->
  safe P (obj ← resolve_this sh this; k obj).
Proof. intros H w HG. apply (resolve_this_spec host); [done|apply buffers_evolve_refl|]. intros y Ey Es. now apply (H w y). Qed.
Lemma wp_observe {A} w0 (P : A -> World -> Prop) (f : World -> A) w : Good w -> evolves w0 w -> P (f w) w ->
  wp (w ← gets id; mret (f w)) (post w0 P) w.
Proof. intros. apply wp_bind, wp_gets_id. now apply post_ret. Qed.
Ltac getter := apply safe_resolve; intros w y HG Ey Es; apply wp_observe; [done|apply buffers_evolve_refl|done].
Lemma safe_getters this :
  safe any (builtinArrayBufferByteLengthGetter this) /\ safe any (builtinArrayBufferMaxByteLengthGetter this) /\
  safe any (builtinArrayBufferResizableGetter this) /\ safe any (builtinArrayBufferDetachedGetter this) /\
  safe any (builtinSharedArrayBufferByteLengthGetter this) /\ safe any (builtinSharedArrayBufferMaxByteLengthGetter this) /\
  safe any (builtinSharedArrayBufferGrowableGetter this).
Proof. split_and!; getter. Qed.

(** ** Resizing *)
Lemma store_lengths w s x : Core w -> stores w !! s = Some x -> live w (kind x) -> store_isResizable w x = true ->
  0 <= store_byteLength w x <= store_maxByteLength w x /\ store_maxByteLength w x < maxArrayBufferSize.
Proof.
  intros C E L. unfold store_isResizable, store_byteLength, store_maxByteLength, store_info.
  destruct (kind x) as [n|[i|]]; cbn in L; [| |done].
  - destruct L as (_ & L & L'). intros Hr. rewrite Hr in L'. lia.
  - destruct L as (y & -> & _ & L & L'). cbn. destruct (i_growable y) as [max|]; [|done]. cbn. lia.
Qed.
Lemma max_length w b y s : Good w -> buffers w !! b = Some y -> m_isResizable y = true -> the_store w b = Some s ->
  0 <= byteLength w b <= maxByteLength w b /\ maxByteLength w b < maxArrayBufferSize.
Proof.
  intros [[[C _] HF] _] Ey Hr Es. destruct (c_used _ _ C b s Es) as (x & Ex & L).
  unfold byteLength, maxByteLength, backingStore. rewrite Es, Ex. cbn. apply (store_lengths w s); [done|done|done|].
  rewrite <- (HF b s x Es Ex). unfold isResizableArrayBuffer. now rewrite Ey.
Qed.

Lemma evolves_buffer w w' b y : evolves w w' -> buffers w !! b = Some y ->
  exists y', buffers w' !! b = Some y' /\ isShared y' = isShared y /\ m_isResizable y' = m_isResizable y.
Proof. intros [H _ _ _]. apply H. Qed.
Lemma shared_has_store w b y : Good w -> buffers w !! b = Some y -> isShared y = true -> exists s, the_store w b = Some s.
Proof.
  intros [_ Hs] Ey Esh. destruct (Hs b y Ey) as [H _]. specialize (H Esh). unfold the_store. rewrite Ey.
  destruct (m_backingStore y); [eauto|done].
Qed.
Lemma not_detached w b : isDetachedBuffer w b = false -> exists s, the_store w b = Some s.
Proof. unfold isDetachedBuffer. destruct (the_store w b); [eauto|done]. Qed.

Lemma resizing w0 w b y (lo : Z) newByteLength :
  Good w -> evolves w0 w -> buffers w !! b = Some y -> m_isResizable y = true -> isDetachedBuffer w b = false ->
  not_nan newByteLength -> 0 <= lo <= maxByteLength w b -> (isShared y = true -> lo = byteLength w b) ->
  flt newByteLength (of_Z lo) || flt (of_Z (maxByteLength w b)) newByteLength = false ->
  wp (n ← certain (cast_size_t newByteLength); s ← certain (the_store w b); resize s n)
     (post w0 (fun _ w' => cast_size_t newByteLength = Some (byteLength w' b) /\ lo <= byteLength w' b <= maxByteLength w b)) w.
Proof.
  intros HG He Ey Hr Hd Hn Hlo Hsh Hf. apply orb_false_iff in Hf as [H1 H2].
  destruct (not_detached w b Hd) as [s Es]. destruct (max_length w b y s HG Ey Hr Es) as [Hl Hmax]. unfold maxArrayBufferSize in Hmax.
  assert (H0 : flt newByteLength 0 = false).
  { destruct (of_Z_exact lo ltac:(lia)) as [F E]. unfold not_nan in Hn. unfold flt in *. rewrite Hn, (is_finite_nan (of_Z lo) F) in H1.
    rewrite Hn. change (is_nan 0) with false. cbn [negb andb] in *. Zbool. apply Z.ltb_ge.
    enough (key 0 <= key (of_Z lo)) by lia. change (key 0) with 0.
    pose proof (of_Z_sign lo) as Es'. rewrite (proj2 (Z.ltb_ge lo 0)) in Es' by lia. unfold key. rewrite Es'. apply mag_range. }
  destruct (cast_size_t_between newByteLength (maxByteLength w b) Hn H0 H2 ltac:(lia)) as (n & En & Hn').
  assert (Hge : lo <= n).
  { unfold cast_size_t in En. destruct (is_finite newByteLength) eqn:F; [|done]. cbn in En.
    destruct (of_Z_exact lo ltac:(lia)) as [Fl El].
    rewrite flt_scaled in H1 by done. rewrite El in H1. Zbool.
    destruct ((0 <=? to_Z newByteLength) && (to_Z newByteLength <? 2 ^ 64)); [|done]. injection En as <-.
    unfold to_Z. pose proof UNIT_pos. rewrite Z.quot_div_nonneg by nia. apply Z.div_le_lower_bound; lia. }
  apply wp_bind. eapply wp_certain; [exact En|]. cbv beta iota.
  destruct (resize_post host w0 w b y n HG He Ey Hr Hd ltac:(lia)) as (s' & Es' & Hwp).
  { intros Hs. rewrite <- (Hsh Hs). exact Hge. }
  apply wp_bind. eapply wp_certain; [exact Es'|]. cbv beta iota.
  eapply wp_post_weaken; [apply buffers_evolve_refl| |exact Hwp]. cbv beta. intros _ w' <-. split; [exact En|lia].
Qed.

Lemma safe_resize toInteger this : safe not_nan toInteger -> safe any (builtinArrayBufferResize toInteger this).
Proof.
  intros Hm. apply safe_resolve. intros w y HG Ey Esh. apply wp_bind, wp_gets_id. cbv beta iota.
  apply (throw_if_spec host); [done|apply buffers_evolve_refl|]. intros Hr. apply negb_false_iff in Hr.
  apply (safe_bind host w not_nan); [done|done|apply buffers_evolve_refl|]. intros d w1 Hd HG1 He1 _.
  apply (throwTypeErrorIfDetached_spec host); [done|done|]. intros Hdet. apply wp_bind, wp_gets_id. cbv beta iota.
  apply (throw_if_spec host); [done|done|]. intros Hf.
  destruct (evolves_buffer w w1 this y He1 Ey) as (y1 & Ey1 & S1 & R1).
  unfold isResizableArrayBuffer in Hr. rewrite Ey in Hr. cbn in Hr.
  destruct (not_detached w1 this Hdet) as [s Es].
  destruct (max_length w1 this y1 s HG1 Ey1 ltac:(congruence) Es) as [Hl _].
  eapply wp_post_weaken; [apply buffers_evolve_refl| |eapply (resizing w w1 this y1 0 d)]; try done; [congruence|lia|congruence].
Qed.

Lemma safe_grow toInteger this : safe not_nan toInteger -> safe any (builtinSharedArrayBufferGrow toInteger this).
Proof.
  intros Hm. apply safe_resolve. intros w y HG Ey Esh. apply wp_bind, wp_gets_id. cbv beta iota.
  apply (throw_if_spec host); [done|apply buffers_evolve_refl|]. intros Hr. apply negb_false_iff in Hr.
  apply (safe_bind host w not_nan); [done|done|apply buffers_evolve_refl|]. intros d w1 Hd HG1 He1 _.
  apply wp_bind, wp_gets_id. cbv beta iota. apply (throw_if_spec host); [done|done|]. intros Hf.
  destruct (evolves_buffer w w1 this y He1 Ey) as (y1 & Ey1 & S1 & R1).
  unfold isResizableArrayBuffer in Hr. rewrite Ey in Hr. cbn in Hr.
  destruct (shared_has_store w1 this y1 HG1 Ey1 ltac:(congruence)) as [s Es].
  destruct (max_length w1 this y1 s HG1 Ey1 ltac:(congruence) Es) as [Hl _].
  eapply wp_post_weaken; [apply buffers_evolve_refl| |eapply (resizing w w1 this y1 (byteLength w1 this) d)]; try done; [congruence|].
  unfold isDetachedBuffer. now rewrite Es.
Qed.

(** ** Constructors *)
Lemma checked_index_spec {A} w0 (k : Z -> MU World A) P m w : safe is_index m -> Good w -> evolves w0 w ->
  (forall i w', 0 <= i < 2 ^ 53 -> Good w' -> evolves w w' -> evolves w0 w' -> wp (k i) (post w0 P) w') ->
  wp (i ← checked_index m; k i) (post w0 P) w.
Proof.
  intros Hm HG He Hk. apply (safe_bind host w0 (fun i => 0 <= i < 2 ^ 53)); [now apply safe_checked_index|done|done|].
  intros i w' Hi HG' He1 He2. now apply Hk.
Qed.
Definition max_ok (m : option Z) : Prop := match m with Some n => is_index n | None => True end.

Lemma safe_allocateArrayBuffer proto n max rz : safe any proto -> 0 <= n -> match max with Some m => n <= m | None => True end ->
  safe any (allocateArrayBuffer null_when_empty proto n max rz).
Proof.
  intros Hp Hn Hm w HG. eapply wp_post_weaken; [apply buffers_evolve_refl| |now apply (allocateArrayBuffer_spec host); [|done|apply buffers_evolve_refl| |]].
  done.
Qed.
Lemma max_guard n m : 0 <= n -> match m with Some m => (m =? Word.InvalidIndexValue) || (m <? n) | None => false end = false ->
  match m with Some m => n <= m | None => True end.
Proof. intros Hn. destruct m as [m|]; [|done]. intros H. apply orb_false_iff in H as [_ H]. Zbool. exact H. Qed.

Lemma safe_ArrayBufferConstructor toIndex maxOption proto :
  safe is_index toIndex -> safe max_ok maxOption -> safe any proto ->
  safe any (builtinArrayBufferConstructor null_when_empty toIndex maxOption proto).
Proof.
  intros H1 H2 H3 w HG. apply checked_index_spec; [done|done|apply buffers_evolve_refl|]. intros n w1 Hn HG1 He1 _.
  apply (safe_bind host w max_ok); [done|done|done|]. intros m w2 Hm HG2 He2 He02.
  apply (throw_if_spec host); [done|done|]. intros Hg. apply max_guard in Hg; [|lia].
  eapply wp_post_weaken; [exact He02| |now apply safe_allocateArrayBuffer; [|lia| |]]. done.
Qed.

Lemma allocateShared_spec w n max : Good w -> 0 <= n <= shared_size n max -> shared_size n max < maxArrayBufferSize ->
  wp (new_SharedArrayBufferObject null_when_empty n max) (post w (new_at w n true match max with Some _ => true | None => false end)) w.
Proof.
  intros HG Hn Hmax. set (w1 := upd_buffers (fun l => l ++ [mkBuffer false None [] true]) w).
  assert (HB1 : Base w1) by (apply base_new_buffer; apply HG).
  destruct (createShared_new_spec host null_when_empty w1 n max HB1 Hn Hmax) as (w2 & s & E & M1 & M2 & x & M3 & M4 & (i & M5) & M6 & M7).
  assert (HA : attached host w (updateBackingStore (length (buffers w)) (Some s) w2) (length (buffers w)) true
    match max with Some _ => true | None => false end n).
  { apply (attach_new host w w1 w2 true s _ n); [apply HG|done|]. split; [exact M1|]. split; [exact M2|]. exists x.
    split_and!; try done. now rewrite M5. }
  apply (wp_eq _ _ _ (updateBackingStore (length (buffers w)) (Some s) w2) (inl (length (buffers w)))).
  - unfold new_SharedArrayBufferObject, new_buffer, modify, mbind, MU_bind. fold w1. now rewrite E.
  - split; [now apply (attached_good host w _ _ _ _ _ HG HA)|]. split; [apply HA|now apply (attached_new_at host)].
Qed.

Lemma safe_SharedArrayBufferConstructor toIndex maxOption proto :
  safe is_index toIndex -> safe max_ok maxOption -> safe any proto ->
  safe any (builtinSharedArrayBufferConstructor null_when_empty toIndex maxOption proto).
Proof.
  intros H1 H2 H3 w HG. apply checked_index_spec; [done|done|apply buffers_evolve_refl|]. intros n w1 Hn HG1 He1 _.
  apply (safe_bind host w max_ok); [done|done|done|]. intros m w2 Hm HG2 He2 He02.
  apply (throw_if_spec host); [done|done|]. intros Hg. apply max_guard in Hg; [|lia].
  unfold allocateSharedArrayBuffer. apply (safe_bind host w any); [done|done|done|]. intros [] w3 _ HG3 He3 He03.
  apply (throw_if_spec host); [done|done|]. intros Hlt. Zbool. destruct m as [m|].
  - apply (throw_if_spec host); [done|done|]. intros Hlt'. Zbool.
    eapply wp_post_weaken; [exact He03| |apply (allocateShared_spec w3 n (Some m)); [done|cbn; lia..]]. done.
  - eapply wp_post_weaken; [exact He03| |apply (allocateShared_spec w3 n None); [done|cbn; lia..]]. done.
Qed.

(** ** Transfers *)
Lemma transfer_length_spec {A} w0 (k : Z -> MU World A) P toIndex obj w :
  match toIndex with Some m => safe is_index m | None => True end -> Good w -> evolves w0 w ->
  (forall n w', 0 <= n -> Good w' -> evolves w w' -> evolves w0 w' -> wp (k n) (post w0 P) w') ->
  wp (n ← transfer_length toIndex obj; k n) (post w0 P) w.
Proof.
  intros Hm HG He Hk. unfold transfer_length. apply (safe_bind host w0 (fun n => 0 <= n)); [|done|done|intros; now apply Hk].
  clear w HG He Hk. intros w HG. apply (throwTypeErrorIfDetached_spec host); [done|apply buffers_evolve_refl|]. intros _.
  apply wp_bind, wp_gets_id. cbv beta iota. destruct toIndex as [m|].
  - eapply wp_post_weaken; [apply buffers_evolve_refl| |now apply (safe_checked_index host)]. cbn. lia.
  - apply post_ret; [done|apply buffers_evolve_refl|]. destruct (data_holds host w obj) as [_ H]; [apply HG|lia].
Qed.

Lemma transfer_contents_spec w0 obj newValue n y w : Good w -> evolves w0 w -> buffers w !! obj = Some y -> isShared y = false ->
  0 <= n -> byteLength w newValue = n -> wp (transfer_contents obj newValue n) (post w0 (fun _ _ => True)) w.
Proof.
  intros HG He Ey Hs Hn Hlen. unfold transfer_contents. apply wp_bind, wp_gets_id. cbv beta iota.
  destruct (data_holds host w obj) as [Hh Hl]; [apply HG|]. apply wp_bind.
  eapply wp_mono; [apply (fillData_spec host w0 newValue (data w obj) 0 (Z.min n (byteLength w obj)) w HG He)|].
  - revert Hh. rewrite Z.add_0_l. destruct (data w obj); cbn; [|lia]. intros (blk & ? & ? & ?). exists blk. split_and!; try done; lia.
  - lia.
  - lia.
  - lia.
  - intros r w' (HG' & He' & _ & -> & Eb & _). cbv beta iota. apply wp_bind, wp_modify. cbv beta iota.
    destruct (detach_post host w0 w' obj y HG' He') as [HG2 He2]; [now rewrite Eb|done|]. now apply post_ret.
Qed.

Lemma safe_transfer_end w0 obj n max rz y w : Good w -> evolves w0 w -> buffers w !! obj = Some y -> isShared y = false ->
  0 <= n <= max ->
  wp (newValue ← allocateArrayBuffer null_when_empty (mret tt) n (Some max) rz; transfer_contents obj newValue n)
     (post w0 (fun _ _ => True)) w.
Proof.
  intros HG He Ey Hs Hn. apply wp_bind.
  eapply wp_mono; [apply (allocateArrayBuffer_spec host null_when_empty w (mret tt) n (Some max) rz w);
    [now apply safe_ret|done|apply buffers_evolve_refl|lia|lia]|].
  intros [b|e] w' (HG' & He' & H); [|now apply (post_throw host); [|apply (buffers_evolve_trans w0 w)]].
  destruct H as (w1 & _ & (_ & Hl & _)). destruct (evolves_buffer w w' obj y He' Ey) as (y' & Ey' & Hs' & _).
  apply (transfer_contents_spec w0 obj b n y'); try done; [now apply (buffers_evolve_trans w0 w)|congruence|lia].
Qed.

Lemma safe_transfer toIndex this : match toIndex with Some m => safe is_index m | None => True end ->
  safe any (builtinArrayBufferTransfer null_when_empty toIndex this).
Proof.
  intros Hm. apply safe_resolve. intros w y HG Ey Hs.
  apply transfer_length_spec; [done|done|apply buffers_evolve_refl|]. intros n w1 Hn HG1 He1 _.
  apply (throwTypeErrorIfDetached_spec host); [done|done|]. intros Hd. apply wp_bind, wp_gets_id. cbv beta iota zeta.
  destruct (evolves_buffer w w1 this y He1 Ey) as (y1 & Ey1 & Hs1 & _).
  destruct (isResizableArrayBuffer w1 this).
  - apply (throw_if_spec host); [done|done|]. intros Hlt. Zbool.
    eapply (safe_transfer_end w this n _ true y1); try done; try lia; congruence.
  - apply wp_bind, wp_ret. cbv beta iota. eapply (safe_transfer_end w this n _ false y1); try done; try lia; congruence.
Qed.
Lemma safe_transferToFixedLength toIndex this : match toIndex with Some m => safe is_index m | None => True end ->
  safe any (builtinArrayBufferTransferToFixedLength null_when_empty toIndex this).
Proof.
  intros Hm. apply safe_resolve. intros w y HG Ey Hs.
  apply transfer_length_spec; [done|done|apply buffers_evolve_refl|]. intros n w1 Hn HG1 He1 _.
  destruct (evolves_buffer w w1 this y He1 Ey) as (y1 & Ey1 & Hs1 & _).
  eapply (safe_transfer_end w this n _ false y1); try done; try lia; congruence.
Qed.

(** ** Slices *)
Definition integral_end (m : option (MU World Z)) : Prop := match m with Some m => safe integral m | None => True end.
Lemma slice_range_spec {A} w0 (k : Z * Z -> MU World A) P start stop L w :
  safe integral start -> integral_end stop -> 0 <= L < maxArrayBufferSize -> Good w -> evolves w0 w ->
  (forall first newLen w', 0 <= first -> 0 <= newLen -> first + newLen <= L -> Good w' -> evolves w w' -> evolves w0 w' ->
     wp (k (first, newLen)) (post w0 P) w') ->
  wp (p ← slice_range start stop (of_Z L); k p) (post w0 P) w.
Proof.
  intros Hs He HL HG Hev Hk. unfold maxArrayBufferSize in HL. pose proof (rep_of_Z L ltac:(lia)) as RL.
  unfold slice_range. apply (safe_bind host w0 (fun p => 0 <= p.1 /\ 0 <= p.2 /\ p.1 + p.2 <= L)); [|done|done|].
  2:{ intros [f l] w' (H1 & H2 & H3). now apply Hk. }
  clear w HG Hev Hk. intros w HG. apply (safe_bind host w integral); [done|done|apply buffers_evolve_refl|]. intros r w1 Hr HG1 He1 _.
  destruct (relative_spec r (of_Z L) L Hr RL ltac:(lia)) as [R1 B1]. set (f := relative_index r L) in *.
  apply wp_bind. eapply wp_certain; [apply (rep_cast_size_t _ f); [done|lia]|]. cbv beta iota.
  apply (safe_bind host w integral); [|done|done|].
  { destruct stop as [m|]; [done|]. apply safe_ret. split; [apply of_Z_u64|right]. now exists L. }
  intros r2 w2 Hr2 HG2 He2 He02. cbv zeta.
  destruct (relative_spec r2 (of_Z L) L Hr2 RL ltac:(lia)) as [R2 B2]. set (g := relative_index r2 L) in *.
  apply wp_bind. eapply wp_certain; [apply (rep_cast_int _ g); [done|lia]|]. cbv beta iota.
  apply post_ret; [done|done|]. cbn [fst snd]. rewrite (wraps_id 32 f), wraps_id by (unfold in_s; lia). lia.
Qed.

Lemma covered w w' b n : Good w -> Good w' -> evolves w w' -> is_Some (buffers w !! b) -> isDetachedBuffer w' b = false ->
  n <= byteLength w b -> holds w' (data w' b) n.
Proof.
  intros HG HG' He Hb Hd Hn. apply (memory_remains host w w'); try done. destruct (data_holds host w b) as [H _]; [apply HG|].
  destruct (data w b); cbn in *; [|lia]. destruct H as (blk & ? & ? & ?). exists blk. split_and!; try done; lia.
Qed.

Lemma safe_slice start stop species this : safe integral start -> integral_end stop ->
  (forall n, 0 <= n -> safe any (species n)) -> safe any (builtinArrayBufferSlice start stop species this).
Proof.
  intros Hs He Hsp. apply safe_resolve. intros w y HG Ey Esh.
  apply (throwTypeErrorIfDetached_spec host); [done|apply buffers_evolve_refl|]. intros Hd. apply wp_bind, wp_gets_id. cbv beta iota.
  destruct (data_holds host w this) as [_ HL]; [apply HG|].
  apply slice_range_spec with (L := byteLength w this); try done; [apply buffers_evolve_refl|]. intros f n w1 Hf Hn Hfn HG1 _ He1.
  apply (safe_bind host w any); [now apply Hsp|done|done|]. intros b w2 _ HG2 _ He2.
  apply wp_bind, wp_gets_id. cbv beta iota.
  apply (throw_if_spec host); [done|done|]. intros Hb.
  apply (throwTypeErrorIfDetached_spec host); [done|done|]. intros Hdb.
  apply (throw_if_spec host); [done|done|]. intros Hne.
  apply (throw_if_spec host); [done|done|]. intros Hlen. Zbool.
  apply (throwTypeErrorIfDetached_spec host); [done|done|]. intros Hdo.
  apply wp_bind. eapply wp_mono.
  - apply (fillData_spec host w b (data w2 this) f n w2 HG2 He2); [|lia..]. apply (covered w); done.
  - intros r w3 (HG3 & He3 & _ & -> & _). cbv beta iota. now apply post_ret.
Qed.

Lemma safe_shared_slice start stop species this : safe integral start -> integral_end stop ->
  (forall n, 0 <= n -> safe any (species n)) -> safe any (builtinSharedArrayBufferSlice start stop species this).
Proof.
  intros Hs He Hsp. apply safe_resolve. intros w y HG Ey Esh. apply wp_bind, wp_gets_id. cbv beta iota.
  destruct (data_holds host w this) as [_ HL]; [apply HG|].
  apply slice_range_spec with (L := byteLength w this); try done; [apply buffers_evolve_refl|]. intros f n w1 Hf Hn Hfn HG1 _ He1.
  apply (safe_bind host w any); [now apply Hsp|done|done|]. intros b w2 _ HG2 _ He2.
  apply (resolve_this_spec host); [done|done|]. intros yb Eyb Esb. apply wp_bind, wp_gets_id. cbv beta iota.
  apply (throw_if_spec host); [done|done|]. intros Hne. apply orb_false_iff in Hne as [_ Hlen]. Zbool.
  destruct (evolves_buffer w w2 this y He2 Ey) as (y2 & Ey2 & Es2 & _).
  destruct (shared_has_store w2 this y2 HG2 Ey2 ltac:(congruence)) as [s Es].
  apply wp_bind. eapply wp_mono.
  - apply (fillData_spec host w b (data w2 this) f n w2 HG2 He2); [|lia..]. apply (covered w); try done.
    unfold isDetachedBuffer. now rewrite Es.
  - intros r w3 (HG3 & He3 & _ & -> & _). cbv beta iota. now apply post_ret.
Qed.

(** ** New views *)
Definition fresh_view (k : ViewKind) : ArrayBufferView := mkView k None None 0 0 0 0 0 false false.
Definition with_view (k : ViewKind) (w : World) : World := upd_views (fun l => l ++ [fresh_view k]) w.

Lemma good_views w w' : Good w -> Base w' -> buffers w' = buffers w -> stores w' = stores w -> Good w'.
Proof.
  intros [_ Hs] HB Eb Es. split; [done|]. intros b x. rewrite Eb. intros E. apply (sorted_kept w); [rewrite Es; eauto|now apply (Hs b)].
Qed.
Lemma new_view_good w k : Good w -> Good (with_view k w) /\ evolves w (with_view k w) /\
  views w !! length (views w) = None /\ views (with_view k w) !! length (views w) = Some (fresh_view k).
Proof.
  intros HG. assert (Hnone : views w !! length (views w) = None) by (apply lookup_ge_None_2; lia).
  split_and!; [|split|done|].
  - apply (good_views w); [done| |done|done]. apply base_new_view. apply HG.
  - eauto.
  - intros v x E. exists x. split; [|split; [done|now destruct (m_buffer x)]]. cbn. rewrite lookup_snoc_decide.
    case_decide; [apply lookup_lt_Some in E; lia|done].
  - intros a blk E. eauto.
  - done.
  - cbn. rewrite lookup_snoc_decide. now case_decide.
Qed.
Lemma setBuffer_nothing w v k : views w !! v = Some (fresh_view k) -> setBuffer v None 0 0 0 false w = w.
Proof.
  intros E. unfold setBuffer. rewrite E. cbn [fmap option_fmap option_map m_buffer fresh_view]. unfold upd_views. destruct w as [bl inf st bu vi].
  cbn in *. f_equal. apply list_eq. intros i. rewrite !lookup_alter_decide. case_decide; [|done]. subst. rewrite E. cbn. now destruct k.
Qed.
Lemma fresh_stays w w' v k : evolves w w' -> views w !! v = Some (fresh_view k) -> views w' !! v = Some (fresh_view k).
Proof. intros [_ V _ _] E. destruct (V v _ E) as (x' & E' & _ & H). cbn in H. congruence. Qed.

Lemma setBuffer_post w0 w v k b y off len alen auto : Good w -> evolves w0 w -> views w0 !! v = None ->
  views w !! v = Some (fresh_view k) -> buffers w !! b = Some y -> fits w (fresh_view k) b off len alen auto ->
  let w' := setBuffer v (Some b) off len alen auto w in
  Good w' /\ evolves w0 w' /\ (exists x, views w' !! v = Some x /\ v_kind x = k /\ m_buffer x = Some b).
Proof.
  intros HG He Hno Ev Ey Hf w'. pose proof HG as [HB Hs].
  assert (HB' : Base w') by (now apply (base_setBuffer host w v (fresh_view k) b y)).
  unfold w' in *. rewrite (setBuffer_fresh w v (fresh_view k) b off len alen auto Ev eq_refl) in * by (destruct Hf; lia).
  clear w'. set (w' := upd_buffers _ _) in *.
  assert (Eb : forall c, buffers w' !! c = (fun z => if decide (c = b) then set_b_observers (addObserver v) z else z) <$> buffers w !! c).
  { intros c. cbn. rewrite lookup_alter_decide. case_decide; [done|]. now destruct (buffers w !! c). }
  assert (Et : forall c, the_store w' c = the_store w c).
  { intros c. unfold the_store. rewrite Eb. destruct (buffers w !! c); [|done]. cbn. now case_decide. }
  split_and!.
  - split; [done|]. intros c x. rewrite Eb. destruct (buffers w !! c) as [z|] eqn:Ez; [|done]. intros [= <-]. apply (sorted_kept w); [eauto|].
    destruct (Hs c z Ez) as [S1 S2]. now case_decide.
  - destruct He as [E1 E2 E3 E4]. split.
    + intros c x Ex. destruct (E1 c x Ex) as (x1 & Ex1 & ? & ?). rewrite Eb, Ex1. cbn. eexists. split; [reflexivity|]. now case_decide.
    + intros u x Ex. destruct (E2 u x Ex) as (x1 & Ex1 & ?). exists x1. split; [|done]. cbn. rewrite lookup_alter_decide, decide_False by congruence. done.
    + exact E3.
    + intros c Hc D. specialize (E4 c Hc). unfold isDetachedBuffer, data, byteLength, backingStore in *. rewrite Et in *. now apply E4.
  - eexists. split; [cbn; rewrite lookup_alter_decide, decide_True by done; rewrite Ev; reflexivity|done].
Qed.

(** The constructors of typed arrays without and with a length. *)
Lemma allocate_bare_spec w0 t proto w : safe any proto -> Good w -> evolves w0 w ->
  wp (allocateTypedArray null_when_empty t proto None)
    (post w0 (fun v w' => exists w1, evolves w0 w1 /\ evolves w w1 /\ views w1 !! v = None /\ evolves w1 w' /\ views w' !! v = Some (fresh_view (TypedArray t)))) w.
Proof.
  intros Hp HG He. unfold allocateTypedArray. apply (safe_bind host w0 any); [done|done|done|]. intros [] w1 _ HG1 He1 He01.
  destruct (new_view_good w1 (TypedArray t) HG1) as (HG2 & He2 & Hnone & Hv).
  unfold create_view. apply wp_bind. eapply wp_eq; [reflexivity|]. cbv beta iota. fold (fresh_view (TypedArray t)). fold (with_view (TypedArray t) w1).
  apply wp_bind, wp_modify. cbv beta iota. rewrite (setBuffer_nothing _ _ (TypedArray t)) by done.
  apply post_ret; [done|now apply (buffers_evolve_trans w0 w1)|]. exists w1. split_and!; try done.
Qed.

Lemma fits_new w k b n alen : Good w -> byteLength w b = n -> 0 <= alen -> n = alen * elementSize (fresh_view k) -> fits w (fresh_view k) b 0 n alen false.
Proof.
  intros HG Hn Ha En. destruct (data_holds host w b) as [_ HL]; [apply HG|]. pose proof (elementSize_pos (fresh_view k)) as Hp.
  assert (Hd : alen = n / elementSize (fresh_view k)) by (rewrite En, Z.div_mul; lia).
  split; try lia; try (intros; exact Hd); try done. intros _. rewrite En. apply Z.mod_mul. lia.
Qed.
Lemma typeSize t : 1 <= type_elementSize t <= 8.
Proof. destruct t; vm_compute; split; discriminate. Qed.

(** A new buffer of [n] elements for a view. *)
Definition connected_view (t : TypedArrayType) (v : nat) (w : World) : Prop :=
  exists x b, views w !! v = Some x /\ v_kind x = TypedArray t /\ m_buffer x = Some b.
Lemma connect_new_spec w0 v t n w : Good w -> evolves w0 w -> views w0 !! v = None ->
  views w !! v = Some (fresh_view (TypedArray t)) -> 0 <= n -> n * type_elementSize t < 2 ^ 64 ->
  wp (buffer ← allocateArrayBuffer null_when_empty (mret tt) (u64 (n * type_elementSize t)) None true;
      modify (setBuffer v (Some buffer) 0 (u64 (n * type_elementSize t)) n false))
    (post w0 (fun _ => connected_view t v)) w.
Proof.
  intros HG He Hno Ev Hn Hlt. pose proof (typeSize t) as Hs. rewrite wrapu_id by (unfold in_u; nia).
  apply wp_bind. eapply wp_mono.
  - apply (allocateArrayBuffer_spec host null_when_empty w (mret tt) (n * type_elementSize t) None true w);
      [now apply safe_ret|done|apply buffers_evolve_refl|nia|done].
  - intros [b|e] w' (HG' & He' & H); [|now apply (post_throw host); [|apply (buffers_evolve_trans w0 w)]].
    destruct H as (w1 & _ & (_ & Hl & _ & y & Ey & _)). apply wp_modify.
    destruct (setBuffer_post w0 w' v (TypedArray t) b y 0 (n * type_elementSize t) n false) as (HG2 & He2 & x & Hx); try done.
    + now apply (buffers_evolve_trans w0 w).
    + now apply (fresh_stays w).
    + now apply fits_new.
    + split; [done|]. split; [done|]. exists x, b. done.
Qed.

Lemma safe_allocateTypedArray t proto n : safe any proto -> 0 <= n < 2 ^ 53 -> safe any (allocateTypedArray null_when_empty t proto (Some n)).
Proof.
  intros Hp Hn w HG. unfold allocateTypedArray. apply (safe_bind host w any); [done|done|apply buffers_evolve_refl|]. intros [] w1 _ HG1 He1 _.
  destruct (new_view_good w1 (TypedArray t) HG1) as (HG2 & He2 & Hnone & Hv).
  unfold create_view. apply wp_bind. eapply wp_eq; [reflexivity|]. cbv beta iota. fold (fresh_view (TypedArray t)). fold (with_view (TypedArray t) w1).
  pose proof (typeSize t) as Hs. cbv zeta. apply wp_bind, wp_bind, wp_throw_if; intros _.
  { apply (post_throw host); [done|]. now apply (buffers_evolve_trans w w1). }
  eapply wp_mono; [apply (connect_new_spec w1 (length (views w1)) t n); try done; try lia; nia|].
  intros [[]|e] w' (HG' & He' & _); [apply post_ret; try done|apply (post_throw host); try done]; now apply (buffers_evolve_trans w w1).
Qed.

(** A typed array over a buffer that is there. *)
Lemma over_buffer_spec w0 t v b off (len : option (MU World Z)) w : Good w -> evolves w0 w -> views w0 !! v = None ->
  views w !! v = Some (fresh_view (TypedArray t)) -> is_Some (buffers w !! b) -> safe is_index off ->
  match len with Some f => safe is_index f | None => True end ->
  wp (initializeTypedArrayFromArrayBuffer t v b off len) (post w0 (fun _ => connected_view t v)) w.
Proof.
  intros HG He Hno Ev [y Ey] Hoff Hlen. pose proof (typeSize t) as Hs. unfold initializeTypedArrayFromArrayBuffer. cbv zeta.
  apply (safe_bind host w0 is_index); [done|done|done|]. intros o w1 Ho HG1 He1 He01.
  apply (throw_if_spec host); [done|done|]. intros Hg. apply orb_false_iff in Hg as [Hg1 Hg2]. Zbool.
  assert (Ho' : 0 <= o < 2 ^ 53) by (destruct Ho; [done|congruence]). clear Ho Hg1.
  apply (safe_bind host w0 (fun n => 0 <= n < 2 ^ 53)); [|done|done|].
  { destruct len as [f|]; [now apply (safe_checked_index host)|apply safe_ret; lia]. }
  intros n w2 Hn HG2 He2 He02.
  apply (throwTypeErrorIfDetached_spec host); [done|done|]. intros Hd. apply wp_bind, wp_gets_id. cbv beta iota.
  destruct (data_holds host w2 b) as [_ HL]; [apply HG2|]. unfold maxArrayBufferSize in HL.
  assert (Ev2 : views w2 !! v = Some (fresh_view (TypedArray t))) by (apply (fresh_stays w1); [done|now apply (fresh_stays w)]).
  destruct (evolves_buffer w w1 b y He1 Ey) as (y1 & Ey1 & _). destruct (evolves_buffer w1 w2 b y1 He2 Ey1) as (y2 & Ey2 & _).
  assert (Hend : forall newByteLength auto, fits w2 (fresh_view (TypedArray t)) b o newByteLength (newByteLength / type_elementSize t) auto ->
    wp (modify (setBuffer v (Some b) o newByteLength (newByteLength / type_elementSize t) auto)) (post w0 (fun _ => connected_view t v)) w2).
  { intros nb auto Hf. apply wp_modify. destruct (setBuffer_post w0 w2 v (TypedArray t) b y2 o nb (nb / type_elementSize t) auto) as (HG3 & He3 & x & Hx); try done.
    split; [done|]. split; [done|]. exists x, b. done. }
  apply wp_bind. destruct len as [f|].
  - apply wp_bind, wp_throw_if; intros Hc; [now apply (post_throw host)|]. apply orb_false_iff in Hc as [C1 C2]. Zbool.
    rewrite (wrapu_id 64 (n * type_elementSize t)) in * by (unfold in_u; nia). rewrite wrapu_id in C2 by (unfold in_u; lia).
    apply wp_ret. apply Hend. split; try lia; try (now right); [done|].
    intros _. apply Z.mod_mul. change (elementSize (fresh_view (TypedArray t))) with (type_elementSize t). lia.
  - apply wp_bind, wp_throw_if; intros Hc; [now apply (post_throw host)|]. apply orb_false_iff in Hc as [C1 C2]. Zbool.
    rewrite wrapu_id by (unfold in_u; lia). apply wp_ret. apply Hend. split; try lia; try (now right); [done|].
    intros [|Hr]; [done|]. rewrite Hr in C1. cbn [negb] in C1. rewrite andb_true_r in C1. apply negb_false_iff in C1. Zbool.
    change (elementSize (fresh_view (TypedArray t))) with (type_elementSize t).
    rewrite Zminus_mod, C1, Hg2, Z.sub_0_r, Z.mod_0_l; lia.
Qed.

(** ** The constructor of DataView *)
Definition length_ok (length : LengthArg) : Prop := match length with Given f => safe is_index f | _ => True end.
Lemma cast_difference a b : 0 <= b <= a -> a < 2 ^ 53 -> cast_size_t (fsub (of_Z a) (of_Z b)) = Some (a - b).
Proof. intros H1 H2. apply rep_cast_size_t; [|lia]. apply rep_fsub; [apply rep_of_Z; lia|apply rep_of_Z; lia|apply of_Z_u64|lia]. Qed.

Lemma safe_DataViewConstructor b off length proto :
  match off with Some f => safe is_index f | None => True end -> length_ok length -> safe any proto ->
  safe any (builtinDataViewConstructor b off length proto).
Proof.
  intros Hoff Hlen Hp w HG. unfold builtinDataViewConstructor. apply wp_bind, wp_gets_id. cbv beta iota.
  apply (throw_if_spec host); [done|apply buffers_evolve_refl|]. intros Hb. unfold is_buffer in Hb. destruct (buffers w !! b) as [y|] eqn:Ey; [|done].
  apply (safe_bind host w (fun n => 0 <= n < 2 ^ 53)); [|done|apply buffers_evolve_refl|].
  { destruct off as [f|]; [now apply (safe_checked_index host)|apply safe_ret; lia]. }
  intros o w1 Ho HG1 He1 _. apply (throwTypeErrorIfDetached_spec host); [done|done|]. intros Hd1. apply wp_bind, wp_gets_id. cbv beta iota zeta.
  destruct (data_holds host w1 b) as [_ HL1]; [apply HG1|]. unfold maxArrayBufferSize in HL1. set (L1 := byteLength w1 b) in *.
  apply (throw_if_spec host); [done|done|]. intros Ho1.
  rewrite (rep_flt _ _ L1 o) in Ho1 by (apply rep_of_Z; lia). Zbool.
  apply (safe_bind host w (fun v => match length, v with
    | Given _, Some n => 0 <= n < 2 ^ 53
    | Given _, None => False
    | _, Some n => 0 <= n /\ isResizableArrayBuffer w1 b = false /\ n = L1 - o
    | _, None => isResizableArrayBuffer w1 b = true end)); [|done|done|].
  { intros u HGu. destruct length as [| |f]; [..|].
    1,2: destruct (isResizableArrayBuffer w1 b); cbn [negb]; [now apply safe_ret|]; apply wp_bind; (eapply wp_certain; [apply cast_difference; lia|]);
      cbv beta iota; apply safe_ret; [lia|done].
    apply checked_index_spec; [done|done|apply buffers_evolve_refl|]. intros n u1 Hn HGu1 Heu1 _.
    apply (throw_if_spec host); [done|done|]. intros _. now apply post_ret. }
  intros vbl w2 Hv HG2 He2 He02.
  apply (safe_bind host w any); [done|done|done|]. intros [] w3 _ HG3 He3 He03.
  destruct (new_view_good w3 DataView HG3) as (HG4 & He4 & Hnone & Hview).
  unfold create_view. apply wp_bind. eapply wp_eq; [reflexivity|]. cbv beta iota. fold (fresh_view DataView). fold (with_view DataView w3).
  assert (He04 : evolves w (with_view DataView w3)) by now apply (buffers_evolve_trans w w3).
  apply (throwTypeErrorIfDetached_spec host); [done|done|]. intros Hd4. apply wp_bind, wp_gets_id. cbv beta iota zeta.
  set (w4 := with_view DataView w3) in *. destruct (data_holds host w4 b) as [_ HL4]; [apply HG4|]. unfold maxArrayBufferSize in HL4.
  set (L4 := byteLength w4 b) in *.
  apply (throw_if_spec host); [done|done|]. intros Ho4. rewrite (rep_flt _ _ L4 o) in Ho4 by (apply rep_of_Z; lia). Zbool.
  apply (throw_if_spec host); [done|done|]. intros Hlong.
  apply wp_bind. eapply wp_certain; [apply cast_difference; lia|]. cbv beta iota. apply wp_bind, wp_modify. cbv beta iota.
  destruct (evolves_buffer w1 w4 b) with (y := default y (buffers w1 !! b)) as (y4 & Ey4 & _).
  { apply (buffers_evolve_trans w1 w3); [now apply (buffers_evolve_trans w1 w2)|done]. }
  { destruct (evolves_buffer w w1 b y He1 Ey) as (y1 & -> & _). done. }
  assert (Hfits : fits w4 (fresh_view DataView) b o (default (L4 - o) vbl) 0 match length with Absent => true | _ => false end).
  { pose proof (eq_refl : elementSize (fresh_view DataView) = 1) as H1.
    assert (Hvb : 0 <= default (L4 - o) vbl /\ o + default (L4 - o) vbl <= L4 /\
      (match length with Given _ => False | _ => True end -> default (L4 - o) vbl = L4 - o)).
    { assert (He14 : evolves w1 w4) by (apply (buffers_evolve_trans w1 w3); [now apply (buffers_evolve_trans w1 w2)|done]).
      destruct He14 as [_ _ _ Hmem]. destruct (Hmem b) as (_ & _ & Hfix); [destruct (evolves_buffer w w1 b y He1 Ey) as (y1 & -> & _); eauto|done|].
      destruct length as [| |f], vbl as [n|]; try done; cbn in *; try lia.
      1,2: destruct Hv as (V1 & V2 & V3); assert (L4 = L1) by (now apply Hfix); lia.
      pose proof (sum_bounded _ _ o n L4 (rep_of_Z o ltac:(lia)) (rep_of_Z n ltac:(lia)) ltac:(lia) ltac:(lia) ltac:(lia) Hlong). lia. }
    split; rewrite ?H1, ?Z.mod_1_r, ?Z.div_1_r; try lia; try (now left); try done. destruct length; try done. intros _. now apply Hvb. }
  destruct (setBuffer_post w w4 (Datatypes.length (views w3)) DataView b y4 o (default (L4 - o) vbl) 0 match length with Absent => true | _ => false end) as (HG5 & He5 & _); try done.
  - apply eq_None_not_Some. intros [x Ex]. destruct He03 as [_ V _ _]. destruct (V _ x Ex) as (x' & Ex' & _). congruence.
  - now apply post_ret.
Qed.

End Host.
End BufferBuiltins.
