(* ===== verification/TypedArray.v ===== *)
(** Typed arrays and DataViews ([runtime/TypedArrayInlines.h],
    [runtime/TypedArrayObject.h], [TypedArrayObject.cpp], [runtime/DataViewObject.h],
    [builtins/BuiltinTypedArray.cpp], [builtins/BuiltinDataView.cpp], the element
    access of [ArrayBufferObject.cpp] and [SharedArrayBufferObject.cpp]): the
    conversion of numbers to bytes and back, the access to elements through the
    cached address of a view or through its buffer, and the builtins that copy
    elements. *)
From Stdlib Require Import ZArith Lia Bool.
From stdpp Require Import base numbers list option decidable gmap.
From S2P Require Import Prelude Effects Double Float16 Value ArrayBuffer.

Module TypedArrays.
Import Effects Buffers Single Half.

(** * Numbers and bytes *)

(** What an element holds. *)
Inductive Numeric := Number (d : Z) | BigInt (n : Z).
(** A primitive value: an int32, a double, a BigInt, or another one with what
    [toNumber] and [toBigInt] make of it. *)
Inductive Primitive :=
  | Int32Value (i : Z)
  | DoubleValue (d : Z)
  | BigIntValue (n : Z)
  | OtherValue (number bigint : Z + Thrown).
Definition lift {A} (r : A + Thrown) : MU World A := match r with inl a => mret a | inr e => throw e end.
Definition toNumber (p : Primitive) : Z + Thrown :=
  match p with
  | Int32Value i => inl (of_Z i)
  | DoubleValue d => inl d
  | BigIntValue _ => inr ThrownTypeError
  | OtherValue number _ => number
  end.
Definition toBigInt (p : Primitive) : Z + Thrown :=
  match p with
  | Int32Value _ | DoubleValue _ => inr ThrownTypeError
  | BigIntValue n => inl n
  | OtherValue _ bigint => bigint
  end.

(** The integer types: a conversion to one, and the check that [static_cast] from
    a double is defined. *)
Definition wrap (signed : bool) (w x : Z) : Z := if signed then wraps w x else wrapu w x.
Definition holds_int (signed : bool) (w x : Z) : bool :=
  if signed then (- 2 ^ (w - 1) <=? x) && (x <? 2 ^ (w - 1)) else (0 <=? x) && (x <? 2 ^ w).
Definition cast_integral (signed : bool) (w d : Z) : option Z :=
  if is_finite d && holds_int signed w (to_Z d) then Some (to_Z d) else None.

(** The bytes of a pattern, least significant first. *)
Fixpoint le_bytes (n : nat) (x : Z) : list Z :=
  match n with O => [] | S n => x mod 256 :: le_bytes n (x / 256) end.
Definition le_value (bytes : list Z) : Z := foldr (fun byte acc => byte + 256 * acc) 0 bytes.

Section Conversions.
(** [static_cast] of a double that does not fit ([cvt], as in [Value]), and
    [BigInt::toUint64], which the library for big integers computes. *)
Variable cvt : Z -> Z.
Variable toUint64 : Z -> Z.

(** A [Value] from a double. *)
Definition number_value (d : Z) : Primitive :=
  let '(ok, i) := Word.isInt32ConvertibleDouble cvt d in
  if (ok : bool) then Int32Value i
  else DoubleValue (if Z.land d Word.DoubleInvalidBeginning =? Word.DoubleInvalidBeginning then NAN else d).
Definition numeric_value (x : Numeric) : Primitive :=
  match x with Number d => number_value d | BigInt n => BigIntValue n end.

(** [IntegralTypedArrayAdapter::toNative], the result as an integer.  The number
    that a string or a boolean stands for may not fit the type. *)
Definition toNativeFromDouble (signed : bool) (w d : Z) : Z :=
  let result := Word.cast_int32 cvt d in
  let result :=
    if negb (feq (of_Z result) d) then Word.toInt32 Word.asNumber (Word.Value_EncodeAsDouble d) else result in
  wrap signed w result.
Definition integral_toNative (signed : bool) (w : Z) (p : Primitive) : MU World Z :=
  match p with
  | Int32Value i => mret (wrap signed w i)
  | DoubleValue d => mret (toNativeFromDouble signed w d)
  | _ =>
      number ← lift (toNumber p);
      if is_nan number then mret 0 else cast (cast_integral signed w number)
  end.
(** [Uint8ClampedAdaptor]; [lrint] rounds to nearest, ties to even. *)
Definition clamped_from_int32 (i : Z) : Z := if i <? 0 then 0 else if 255 <? i then 255 else i.
Definition clamped_from_double (d : Z) : Z :=
  if is_nan d then 0 else if flt d 0 then 0 else if flt (of_Z 255) d then 255 else u8 (rne (scaled d) UNIT).
Definition clamped_toNative (p : Primitive) : MU World Z :=
  match p with
  | Int32Value i => mret (clamped_from_int32 i)
  | DoubleValue d => mret (clamped_from_double d)
  | _ => number ← lift (toNumber p); mret (clamped_from_double number)
  end.
(** [FloatTypedArrayAdaptor] for [float] and [double], and [Float16TypedArrayAdaptor]. *)
Definition float_toNative (of_double : Z -> Z) (p : Primitive) : MU World Z :=
  number ← lift (toNumber p); mret (of_double number).
Definition bigint_toNative (p : Primitive) : MU World Z :=
  n ← lift (toBigInt p); mret (toUint64 n).

(** [numberToRawBytes]: the pattern of the native value, and its bytes. *)
Definition toNative (t : TypedArrayType) (p : Primitive) : MU World Z :=
  match t with
  | Int8 => integral_toNative true 8 p
  | Uint8 => integral_toNative false 8 p
  | Uint8Clamped => clamped_toNative p
  | Int16 => integral_toNative true 16 p
  | Uint16 => integral_toNative false 16 p
  | Int32 => integral_toNative true 32 p
  | Uint32 => integral_toNative false 32 p
  | Float16 => float_toNative convertFloat64ToFloat16 p
  | Float32 => float_toNative narrow p
  | Float64 => float_toNative id p
  | BigInt64 | BigUint64 => bigint_toNative p
  end.
Definition numberToRawBytes (t : TypedArrayType) (p : Primitive) : MU World (list Z) :=
  native ← toNative t p;
  mret (le_bytes (Z.to_nat (type_elementSize t)) native).

(** [rawBytesToNumber]; patterns that are no number of the engine become NaN. *)
Definition number_of_pattern (d : Z) : Numeric :=
  Number (if Z.land d Word.DoubleInvalidBeginning =? Word.DoubleInvalidBeginning then NAN else d).
Definition rawBytesToNumber (t : TypedArrayType) (bytes : list Z) : Numeric :=
  let x := le_value bytes in
  match t with
  | Int8 => Number (of_Z (wraps 8 x))
  | Uint8 | Uint8Clamped => Number (of_Z x)
  | Int16 => Number (of_Z (wraps 16 x))
  | Uint16 => Number (of_Z x)
  | Int32 => Number (of_Z (wraps 32 x))
  | Uint32 => Number (of_Z x)
  | Float16 => number_of_pattern (convertFloat16ToFloat64 x)
  | Float32 => number_of_pattern (widen x)
  | Float64 => number_of_pattern x
  | BigInt64 => BigInt (wraps 64 x)
  | BigUint64 => BigInt x
  end.

(** * Access through the buffer *)

(** What an assertion says must hold. *)
Definition require (b : bool) : MU World unit := if b then mret tt else certain None.

(** The checks of the two kinds of buffers. *)
Definition check_access (b : nat) (byteindex elemSize : Z) : MU World unit :=
  w ← gets id;
  y ← certain (buffers w !! b);
  if isShared y then require ((0 <? byteLength w b) && (u64 (byteindex + elemSize) <=? byteLength w b))
  else
    throw_if (isDetachedBuffer w b) ThrownTypeError;;
    throw_if (byteLength w b <? u64 (byteindex + elemSize)) ThrownRangeError.
Definition ordered (isLittleEndian : bool) (bytes : list Z) : list Z := if isLittleEndian then bytes else rev bytes.
Definition getValueFromBuffer (b : nat) (byteindex : Z) (t : TypedArrayType) (isLittleEndian : bool) : MU World Numeric :=
  check_access b byteindex (type_elementSize t);;
  w ← gets id;
  bytes ← load_bytes (plus (data w b) byteindex) (type_elementSize t);
  mret (rawBytesToNumber t (ordered isLittleEndian bytes)).
Definition setValueInBuffer (b : nat) (byteindex : Z) (t : TypedArrayType) (p : Primitive) (isLittleEndian : bool) : MU World unit :=
  check_access b byteindex (type_elementSize t);;
  w ← gets id;
  rawBytes ← numberToRawBytes t p;
  store_bytes (plus (data w b) byteindex) (ordered isLittleEndian rawBytes).

(** * Typed arrays *)
Definition arrayLength (w : World) (v : nat) : Z := default 0 (m_arrayLength <$> views w !! v).
Definition view_byteLength (w : World) (v : nat) : Z := default 0 (m_byteLength <$> views w !! v).
Definition view_byteOffset (w : World) (v : nat) : Z := default 0 (m_byteOffset <$> views w !! v).
Definition rawBuffer (w : World) (v : nat) : option Addr := views w !! v ≫= m_cachedRawBufferAddress.
Definition wasResetByInvalidByteLength (w : World) (v : nat) : bool :=
  default false (m_wasResetByInvalidByteLength <$> views w !! v).
(** [p + n] where [p] is an address. *)
Definition advance (a : option Addr) (n : Z) : option Addr := (fun a => (a.1, a.2 + n)) <$> a.

(** The receiver of a method: a number that is no typed array stands for another
    object, and so does a typed array that its constructor has not returned. *)
Definition resolve_typed (this : nat) : MU World (TypedArrayType * nat) :=
  w ← gets id;
  match views w !! this with
  | Some (mkView (TypedArray t) (Some b) _ _ _ _ _ _ _ _) => mret (t, b)
  | _ => throw ThrownTypeError
  end.
Definition validateTypedArray (this : nat) (checkDetachedError : bool) : MU World (TypedArrayType * nat) :=
  '(t, b) ← resolve_typed this;
  (if checkDetachedError then throwTypeErrorIfDetached b else mret tt);;
  w ← gets id;
  throw_if (wasResetByInvalidByteLength w this) ThrownTypeError;;
  mret (t, b).

(** Access through the cached address. *)
Definition getDirectValueFromBuffer (v : nat) (t : TypedArrayType) (byteindex : Z) : MU World Numeric :=
  w ← gets id;
  require ((0 <? view_byteLength w v) && (byteindex + type_elementSize t <=? view_byteLength w v));;
  require (match rawBuffer w v with Some _ => true | None => false end);;
  bytes ← load_bytes (advance (rawBuffer w v) byteindex) (type_elementSize t);
  mret (rawBytesToNumber t bytes).
Definition setDirectValueInBuffer (v : nat) (t : TypedArrayType) (byteindex : Z) (p : Primitive) : MU World unit :=
  w ← gets id;
  native ← toNative t p;
  require ((0 <? view_byteLength w v) && (byteindex + type_elementSize t <=? view_byteLength w v));;
  store_bytes (advance (rawBuffer w v) byteindex) (le_bytes (Z.to_nat (type_elementSize t)) native).

(** Indexes of a canonical numeric string, and where the element is. *)
Definition MinusZeroIndex : Z := 2 ^ 52.
Definition invalid_index (w : World) (v : nat) (index : Z) : bool :=
  negb (Word.isInteger Word.asNumber (Word.Value_double cvt index)) || feq index MinusZeroIndex ||
  flt index 0 || fle (of_Z (arrayLength w v)) index.
Definition indexed_position (w : World) (v : nat) (t : TypedArrayType) (index : Z) : option Z :=
  cast_size_t (fadd (fmul index (of_Z (type_elementSize t))) (of_Z (view_byteOffset w v))).
Definition integerIndexedElementGet (v : nat) (t : TypedArrayType) (b : nat) (index : Z) : MU World (option Numeric) :=
  w ← gets id;
  if isDetachedBuffer w b || invalid_index w v index then mret None
  else
    indexedPosition ← certain (indexed_position w v t index);
    x ← getValueFromBuffer b indexedPosition t true;
    mret (Some x).

(** A value to store: a primitive, or an object whose conversions run script. *)
Inductive ElementArg :=
  | PrimitiveArg (p : Primitive)
  | ObjectArg (to_number to_bigint : MU World Z).
Definition arg_toNumber (x : ElementArg) : MU World Z :=
  match x with PrimitiveArg p => lift (toNumber p) | ObjectArg f _ => f end.
Definition arg_toBigInt (x : ElementArg) : MU World Z :=
  match x with PrimitiveArg p => lift (toBigInt p) | ObjectArg _ f => f end.
Definition isBigIntArray (t : TypedArrayType) : bool := match t with BigInt64 | BigUint64 => true | _ => false end.
Definition to_element (t : TypedArrayType) (value : ElementArg) : MU World Primitive :=
  if isBigIntArray t then n ← arg_toBigInt value; mret (BigIntValue n)
  else d ← arg_toNumber value; mret (number_value d).

Definition integerIndexedElementSet (v : nat) (t : TypedArrayType) (b : nat) (index : Z) (value : ElementArg) : MU World bool :=
  numValue ← to_element t value;
  w ← gets id;
  if isDetachedBuffer w b then mret true
  else if invalid_index w v index then mret false
  else
    indexedPosition ← certain (indexed_position w v t index);
    setValueInBuffer b indexedPosition t numValue true;;
    mret true.

(** [getIndexedPropertyValue] and [setIndexedProperty], where the receiver is the
    array; [property] is an index of 32 bits. *)
Definition getIndexedPropertyValue (v : nat) (property : Z) : MU World (option Numeric) :=
  '(t, b) ← resolve_typed v;
  w ← gets id;
  if property <? arrayLength w v then
    if isDetachedBuffer w b then mret None
    else x ← getDirectValueFromBuffer v t (property * type_elementSize t); mret (Some x)
  else integerIndexedElementGet v t b (of_Z property).
Definition setIndexedProperty (v : nat) (property : Z) (value : ElementArg) : MU World bool :=
  '(t, b) ← resolve_typed v;
  w ← gets id;
  match value with
  | PrimitiveArg p =>
      if (property <? arrayLength w v) && negb (isDetachedBuffer w b) then
        setDirectValueInBuffer v t (property * type_elementSize t) p;;
        mret true
      else integerIndexedElementSet v t b (of_Z property) value;; mret true
  | _ => integerIndexedElementSet v t b (of_Z property) value;; mret true
  end.
Definition setIndexedPropertyThrowsException (v : nat) (property : Z) (value : ElementArg) : MU World unit :=
  ok ← setIndexedProperty v property value;
  throw_if (negb ok) ThrownTypeError.

(** [get], [set] and [deleteOwnProperty] with a key that is a number. *)
Definition get_numeric (v : nat) (index : Z) : MU World (option Numeric) :=
  '(t, b) ← resolve_typed v;
  integerIndexedElementGet v t b index.
Definition set_numeric (v : nat) (index : Z) (value : ElementArg) : MU World bool :=
  '(t, b) ← resolve_typed v;
  integerIndexedElementSet v t b index value;;
  mret true.
Definition deleteOwnProperty_numeric (v : nat) (index : Z) : MU World bool :=
  '(t, b) ← resolve_typed v;
  w ← gets id;
  mret (isDetachedBuffer w b || invalid_index w v index).

(** The getters. *)
Definition typed_getter (f : World -> nat -> Z) (this : nat) : MU World Z :=
  '(t, b) ← resolve_typed this;
  w ← gets id;
  mret (if isDetachedBuffer w b then 0 else f w this).
Definition builtinTypedArrayByteLengthGetter : nat -> MU World Z := typed_getter view_byteLength.
Definition builtinTypedArrayByteOffsetGetter : nat -> MU World Z := typed_getter view_byteOffset.
Definition builtinTypedArrayLengthGetter : nat -> MU World Z := typed_getter arrayLength.

(** * DataViews *)
Definition resolve_DataView (this : nat) : MU World nat :=
  w ← gets id;
  match views w !! this with
  | Some (mkView DataView _ _ _ _ _ _ _ _ _) => mret this
  | _ => throw ThrownTypeError
  end.
Definition DataView_throwTypeErrorIfDetached (v : nat) : MU World unit :=
  w ← gets id;
  throw_if (match rawBuffer w v with Some _ => false | None => true end) ThrownTypeError.
Definition view_buffer (w : World) (v : nat) : option nat := views w !! v ≫= m_buffer.
Definition DataView_getter (f : World -> nat -> Z) (this : nat) : MU World Z :=
  v ← resolve_DataView this;
  w ← gets id;
  throw_if (match view_buffer w v with Some _ => false | None => true end) ThrownTypeError;;
  DataView_throwTypeErrorIfDetached v;;
  w ← gets id;
  mret (f w v).
Definition builtinDataViewByteLengthGetter : nat -> MU World Z := DataView_getter view_byteLength.
Definition builtinDataViewByteOffsetGetter : nat -> MU World Z := DataView_getter view_byteOffset.

(** The position of an access, after its checks. *)
Definition view_access (v : nat) (numberIndex : Z) (t : TypedArrayType) : MU World (nat * Z) :=
  w ← gets id;
  throw_if (flt (of_Z (view_byteLength w v)) (fadd (of_Z numberIndex) (of_Z (type_elementSize t)))) ThrownRangeError;;
  bufferIndex ← certain (cast_size_t (fadd (of_Z numberIndex) (of_Z (view_byteOffset w v))));
  b ← certain (view_buffer w v);
  mret (b, bufferIndex).
Definition getViewValue (this : nat) (toIndex : MU World Z) (isLittleEndian : bool) (t : TypedArrayType) : MU World Numeric :=
  v ← resolve_DataView this;
  numberIndex ← checked_index toIndex;
  DataView_throwTypeErrorIfDetached v;;
  '(b, bufferIndex) ← view_access v numberIndex t;
  getValueFromBuffer b bufferIndex t isLittleEndian.
Definition setViewValue (this : nat) (toIndex : MU World Z) (toNumeric : MU World Numeric) (isLittleEndian : bool)
  (t : TypedArrayType) : MU World unit :=
  v ← resolve_DataView this;
  numberIndex ← checked_index toIndex;
  numericValue ← toNumeric;
  DataView_throwTypeErrorIfDetached v;;
  '(b, bufferIndex) ← view_access v numberIndex t;
  setValueInBuffer b bufferIndex t (numeric_value numericValue) isLittleEndian.

(** [undefined]. *)
Definition undefined_value : Primitive := OtherValue (inl NAN) (inr ThrownTypeError).

(** * Constructors of typed arrays *)
Section Builtins.
Variable null_when_empty : bool.

(** [while (k < n)], counting up. *)
Fixpoint for_from (n : nat) (k : Z) (body : Z -> MU World unit) : MU World unit :=
  match n with O => mret tt | S n => body k;; for_from n (k + 1) body end.

Definition initializeTypedArrayFromTypedArray (t : TypedArrayType) (obj srcArray : nat) : MU World unit :=
  '(srcType, srcData) ← resolve_typed srcArray;
  throwTypeErrorIfDetached srcData;;
  validateTypedArray srcArray true;;
  w ← gets id;
  let elementLength := arrayLength w srcArray in
  let srcByteOffset := view_byteOffset w srcArray in
  let byteLength := u64 (type_elementSize t * elementLength) in
  data ←
    (if (typeNumber t =? typeNumber srcType)%nat then cloneArrayBuffer null_when_empty (mret tt) srcData srcByteOffset byteLength
     else
       data ← allocateArrayBuffer null_when_empty (mret tt) byteLength None true;
       throwTypeErrorIfDetached srcData;;
       for_from (Z.to_nat elementLength) 0 (fun i =>
         value ← getValueFromBuffer srcData (srcByteOffset + i * type_elementSize srcType) srcType true;
         setValueInBuffer data (i * type_elementSize t) t (numeric_value value) true);;
       mret data);
  modify (setBuffer obj (Some data) 0 byteLength elementLength false).

(** The buffer of a new array of [len] elements. *)
Definition allocate_elements (t : TypedArrayType) (obj : nat) (len : Z) : MU World unit :=
  let byteLength := u64 (len * type_elementSize t) in
  buffer ← allocateArrayBuffer null_when_empty (mret tt) byteLength None true;
  modify (setBuffer obj (Some buffer) 0 byteLength len false).
Definition initializeTypedArrayFromList (t : TypedArrayType) (obj : nat) (values : list ElementArg) : MU World unit :=
  allocate_elements t obj (Z.of_nat (length values));;
  for_from (length values) 0 (fun k =>
    value ← certain (values !! Z.to_nat k);
    setIndexedPropertyThrowsException obj k value).
Definition initializeTypedArrayFromArrayLike (t : TypedArrayType) (obj : nat) (length : MU World Z)
  (element : Z -> MU World ElementArg) : MU World unit :=
  len ← length;
  allocate_elements t obj len;;
  for_from (Z.to_nat len) 0 (fun k =>
    value ← element k;
    setIndexedPropertyThrowsException obj k value).

(** The first argument of the constructor and what belongs to it. *)
Inductive FirstArgument :=
  | NoArgument
  | NonObject (toIndex : MU World Z)
  | TypedArrayArgument (srcArray : nat)
  | ArrayBufferArgument (buffer : nat) (byteOffset : MU World Z) (length : option (MU World Z))
  | IterableArgument (iterableToList : MU World (list ElementArg))
  | ArrayLikeArgument (length : MU World Z) (element : Z -> MU World ElementArg).
Definition builtinTypedArrayConstructor (t : TypedArrayType) (proto : MU World unit) (firstArg : FirstArgument) : MU World nat :=
  match firstArg with
  | NoArgument => allocateTypedArray null_when_empty t proto (Some 0)
  | NonObject toIndex =>
      elemlen ← checked_index toIndex;
      allocateTypedArray null_when_empty t proto (Some elemlen)
  | _ =>
      obj ← allocateTypedArray null_when_empty t proto None;
      match firstArg with
      | TypedArrayArgument srcArray => initializeTypedArrayFromTypedArray t obj srcArray
      | ArrayBufferArgument buffer byteOffset length =>
          w ← gets id;
          certain (buffers w !! buffer);;
          initializeTypedArrayFromArrayBuffer t obj buffer byteOffset length
      | IterableArgument iterableToList =>
          values ← iterableToList;
          initializeTypedArrayFromList t obj values
      | ArrayLikeArgument length element => initializeTypedArrayFromArrayLike t obj length element
      | _ => mret tt
      end;;
      mret obj
  end.

(** * Copies *)

(** The index that a relative one means. *)
Definition relativeIndex (relative_ len : Z) : Z :=
  if is_inf relative_ && sign_bit relative_ then 0 else relative relative_ len.

(** One byte of [copyWithin] and of [slice]. *)
Definition copy_byte (srcBuffer targetBuffer : nat) (fromByteIndex toByteIndex : Z) : MU World unit :=
  value ← getValueFromBuffer srcBuffer fromByteIndex Uint8 true;
  setValueInBuffer targetBuffer toByteIndex Uint8 (numeric_value value) true.

Definition builtinTypedArrayCopyWithin (target start : MU World Z) (end_ : option (MU World Z)) (this : nat) : MU World nat :=
  '(t, buffer) ← validateTypedArray this true;
  w ← gets id;
  let len := of_Z (arrayLength w this) in
  relativeTarget ← target;
  let targetIndex := relativeIndex relativeTarget len in
  relativeStart ← start;
  let startIndex := relativeIndex relativeStart len in
  relativeEnd ← match end_ with Some f => f | None => mret len end;
  let endIndex := relativeIndex relativeEnd len in
  let count := std_min (fsub endIndex startIndex) (fsub len targetIndex) in
  (if flt 0 count then
     validateTypedArray this true;;
     w ← gets id;
     let len := of_Z (arrayLength w this) in
     let count := std_max 0 (std_min (std_min count (fsub len startIndex)) (fsub len targetIndex)) in
     let elementSize := of_Z (type_elementSize t) in
     let byteOffset := of_Z (view_byteOffset w this) in
     toByteIndex ← certain (cast_size_t (fadd (fmul targetIndex elementSize) byteOffset));
     fromByteIndex ← certain (cast_size_t (fadd (fmul startIndex elementSize) byteOffset));
     countBytes ← certain (cast_size_t (fmul count elementSize));
     if (fromByteIndex <? toByteIndex) && (toByteIndex <? u64 (fromByteIndex + countBytes)) then
       let fromByteIndex := u64 (u64 (fromByteIndex + countBytes) - 1) in
       let toByteIndex := u64 (u64 (toByteIndex + countBytes) - 1) in
       for_from (Z.to_nat countBytes) 0 (fun i => copy_byte buffer buffer (u64 (fromByteIndex - i)) (u64 (toByteIndex - i)))
     else
       for_from (Z.to_nat countBytes) 0 (fun i => copy_byte buffer buffer (u64 (fromByteIndex + i)) (u64 (toByteIndex + i)))
   else mret tt);;
  mret this.

Definition setTypedArrayFromTypedArray (target : nat) (targetOffset : Z) (source : nat) : MU World unit :=
  '(targetType, targetBuffer) ← validateTypedArray target true;
  w ← gets id;
  let targetLength := of_Z (arrayLength w target) in
  '(srcType, srcBuffer) ← validateTypedArray source true;
  let srcLength := of_Z (arrayLength w source) in
  let targetElementSize := of_Z (type_elementSize targetType) in
  throw_if (feq targetOffset INF) ThrownRangeError;;
  throw_if (flt targetLength (fadd srcLength targetOffset)) ThrownRangeError;;
  throw_if (negb (Bool.eqb (isBigIntArray targetType) (isBigIntArray srcType))) ThrownTypeError;;
  '(srcBuffer, srcByteIndex) ←
    (if decide (srcBuffer = targetBuffer) then
       b ← cloneArrayBuffer null_when_empty (mret tt) srcBuffer (view_byteOffset w source) (view_byteLength w source);
       mret (b, 0)
     else mret (srcBuffer, view_byteOffset w source));
  let targetByteIndex := fadd (fmul targetOffset targetElementSize) (of_Z (view_byteOffset w target)) in
  let limit := fadd targetByteIndex (fmul targetElementSize srcLength) in
  w ← gets id;
  if (typeNumber srcType =? typeNumber targetType)%nat then
    index ← certain (cast_size_t targetByteIndex);
    n ← certain (cast_size_t (fsub limit targetByteIndex));
    bytes ← load_bytes (plus (data w srcBuffer) srcByteIndex) n;
    store_bytes (plus (data w targetBuffer) index) bytes
  else
    first ← certain (cast_size_t targetByteIndex);
    last ← certain (cast_size_t limit);
    for_from (Z.to_nat ((last - first) / type_elementSize targetType)) 0 (fun i =>
      value ← getValueFromBuffer srcBuffer (srcByteIndex + i * type_elementSize srcType) srcType true;
      setValueInBuffer targetBuffer (first + i * type_elementSize targetType) targetType (numeric_value value) true).

Definition setTypedArrayFromArrayLike (target : nat) (targetOffset : Z) (length : MU World Z)
  (element : Z -> MU World ElementArg) : MU World unit :=
  validateTypedArray target true;;
  w ← gets id;
  let targetLength := of_Z (arrayLength w target) in
  srcLength ← length;
  throw_if (feq targetOffset INF) ThrownRangeError;;
  throw_if (flt targetLength (fadd (of_Z srcLength) targetOffset)) ThrownRangeError;;
  offset ← certain (cast_size_t targetOffset);
  for_from (Z.to_nat srcLength) 0 (fun k =>
    value ← element k;
    setIndexedProperty target (k + offset) value;;
    mret tt).

Inductive SetSource := SourceTypedArray (source : nat) | SourceArrayLike (length : MU World Z) (element : Z -> MU World ElementArg).
Definition builtinTypedArraySet (offset : MU World Z) (source : SetSource) (this : nat) : MU World unit :=
  validateTypedArray this false;;
  targetOffset ← offset;
  throw_if (flt targetOffset 0) ThrownRangeError;;
  match source with
  | SourceTypedArray source => setTypedArrayFromTypedArray this targetOffset source
  | SourceArrayLike length element => setTypedArrayFromArrayLike this targetOffset length element
  end.

(** [typedArraySpeciesCreate], where [construct] finds the constructor and calls
    it; [length] is the single argument when it is a number. *)
Definition typedArraySpeciesCreate (construct : MU World nat) (length : option Z) : MU World nat :=
  A ← construct;
  validateTypedArray A true;;
  w ← gets id;
  throw_if match length with Some n => flt (of_Z (arrayLength w A)) n | None => false end ThrownTypeError;;
  mret A.

Definition builtinTypedArraySubArray (start : MU World Z) (end_ : option (MU World Z))
  (construct : nat -> Z -> option Z -> MU World nat) (this : nat) : MU World nat :=
  '(t, buffer) ← resolve_typed this;
  w ← gets id;
  let srcLength := of_Z (if wasResetByInvalidByteLength w this then 0 else arrayLength w this) in
  relativeStart ← start;
  let startIndex := relativeIndex relativeStart srcLength in
  w ← gets id;
  let srcByteOffset := of_Z (default 0 (m_originalByteOffset <$> views w !! this)) in
  let beginByteOffset := fadd srcByteOffset (fmul startIndex (of_Z (type_elementSize t))) in
  newLength ←
    match end_ with
    | None =>
        mret (if default false (m_auto <$> views w !! this) then None
              else Some (std_max (fsub (relativeIndex srcLength srcLength) startIndex) 0))
    | Some f =>
        relativeEnd ← f;
        mret (Some (std_max (fsub (relativeIndex relativeEnd srcLength) startIndex) 0))
    end;
  typedArraySpeciesCreate (construct buffer beginByteOffset newLength) None.

Definition builtinTypedArraySlice (start : MU World Z) (end_ : option (MU World Z)) (construct : Z -> MU World nat) (this : nat)
  : MU World nat :=
  '(srcType, srcBuffer) ← validateTypedArray this true;
  w ← gets id;
  let srcArrayLength := of_Z (arrayLength w this) in
  relativeStart ← start;
  let startIndex := relativeIndex relativeStart srcArrayLength in
  relativeEnd ← match end_ with Some f => f | None => mret srcArrayLength end;
  let endIndex := relativeIndex relativeEnd srcArrayLength in
  let countBytes := std_max (fsub endIndex startIndex) 0 in
  A ← typedArraySpeciesCreate (construct countBytes) (Some countBytes);
  (if flt 0 countBytes then
     validateTypedArray this true;;
     w ← gets id;
     let endIndex := std_min endIndex (of_Z (arrayLength w this)) in
     let countBytes := fsub endIndex startIndex in
     let countBytes := if flt countBytes 0 then 0 else countBytes in
     '(targetType, targetBuffer) ← resolve_typed A;
     if (typeNumber srcType =? typeNumber targetType)%nat then
       let elementSize := of_Z (type_elementSize srcType) in
       srcByteIndex ← certain (cast_size_t (fadd (fmul startIndex elementSize) (of_Z (view_byteOffset w this))));
       n ← certain (cast_size_t (fmul countBytes elementSize));
       for_from (Z.to_nat n) 0 (fun i => copy_byte srcBuffer targetBuffer (srcByteIndex + i) (view_byteOffset w A + i))
     else
       first ← certain (cast_size_t startIndex);
       n ← certain (cast_size_t countBytes);
       for_from (Z.to_nat n) 0 (fun i =>
         kValue ← getIndexedPropertyValue this (first + i);
         setIndexedPropertyThrowsException A i
           match kValue with Some x => PrimitiveArg (numeric_value x) | None => PrimitiveArg undefined_value end)
   else mret tt);;
  mret A.

(** * Filling and reversing *)
Definition builtinTypedArrayFill (value : ElementArg) (start : MU World Z) (end_ : option (MU World Z)) (this : nat) : MU World nat :=
  '(t, buffer) ← validateTypedArray this true;
  w ← gets id;
  let len := of_Z (arrayLength w this) in
  x ← to_element t value;
  relativeStart ← start;
  startIndex ← certain (cast_size_t (relativeIndex relativeStart len));
  relativeEnd ← match end_ with Some f => f | None => mret len end;
  endIndex ← certain (cast_size_t (relativeIndex relativeEnd len));
  validateTypedArray this true;;
  for_from (Z.to_nat (endIndex - startIndex)) startIndex (fun k => setIndexedPropertyThrowsException this k (PrimitiveArg x));;
  mret this.

Definition builtinTypedArrayReverse (this : nat) : MU World nat :=
  validateTypedArray this true;;
  w ← gets id;
  let len := arrayLength w this in
  for_from (Z.to_nat (len / 2)) 0 (fun lower =>
    let upper := len - lower - 1 in
    upperValue ← getIndexedPropertyValue this upper;
    lowerValue ← getIndexedPropertyValue this lower;
    let stored (x : option Numeric) :=
      PrimitiveArg match x with Some x => numeric_value x | None => undefined_value end in
    setIndexedPropertyThrowsException this lower (stored upperValue);;
    setIndexedPropertyThrowsException this upper (stored lowerValue));;
  mret this.

(** * Single elements *)
Definition builtinTypedArrayWith (index : MU World Z) (value : ElementArg) (this : nat) : MU World nat :=
  '(t, buffer) ← validateTypedArray this true;
  w ← gets id;
  let len := arrayLength w this in
  relative_ ← index;
  let actualIndex := if flt relative_ 0 then fadd (of_Z len) relative_ else relative_ in
  numericValue ← to_element t value;
  w ← gets id;
  throw_if (is_inf actualIndex || flt actualIndex 0 || fle (of_Z (arrayLength w this)) actualIndex) ThrownRangeError;;
  A ← typedArraySpeciesCreate (builtinTypedArrayConstructor t (mret tt) (NonObject (mret len))) (Some (of_Z len));
  for_from (Z.to_nat len) 0 (fun k =>
    fromValue ←
      (if feq (of_Z k) actualIndex then mret numericValue
       else x ← getIndexedPropertyValue this k; mret match x with Some x => numeric_value x | None => undefined_value end);
    setIndexedProperty A k (PrimitiveArg fromValue);;
    mret tt);;
  mret A.

(** [at] reads the property [length], which is [length]. *)
Definition builtinTypedArrayAt (length : MU World Z) (index : MU World Z) (this : nat) : MU World (option Numeric) :=
  validateTypedArray this true;;
  len ← length;
  relativeStart ← index;
  let relativeStart := if flt relativeStart 0 then fadd (of_Z len) relativeStart else relativeStart in
  if flt relativeStart 0 || fle (of_Z len) relativeStart then mret None
  else match number_value relativeStart with
       | Int32Value i => getIndexedPropertyValue this i
       | _ => get_numeric this relativeStart
       end.

End Builtins.
End Conversions.
End TypedArrays.
