(* ===== verification/TypedArraySafety.v ===== *)
(** Typed arrays and DataViews stay within their memory: the specifications of the
    access to elements, and that each builtin is safe in the sense of
    [BufferBuiltins]. *)
From Stdlib Require Import ZArith Lia Bool.
From stdpp Require Import base numbers list option decidable gmap.
From S2P Require Import Prelude Effects Double Float16 Value ArrayBuffer BufferInvariant BufferSafety BufferBuiltins TypedArray.

(** * Numbers *)
Module ElementFacts.
Import Effects Buffers TypedArrays.

Lemma length_le_bytes n x : length (le_bytes n x) = n.
Proof. revert x. induction n as [|n IH]; intros x; [done|]. cbn. now rewrite IH. Qed.
Lemma le_value_le_bytes n x : le_value (le_bytes n x) = x mod 2 ^ (8 * Z.of_nat n).
Proof.
  revert x. induction n as [|n IH]; intros x; [now rewrite Z.mod_1_r|].
  cbn [le_bytes le_value foldr]. fold (le_value (le_bytes n (x / 256))). rewrite IH.
  replace (8 * Z.of_nat (S n)) with (8 + 8 * Z.of_nat n) by lia. rewrite Z.pow_add_r by lia. change (2 ^ 8) with 256.
  rewrite Z.rem_mul_r by lia. lia.
Qed.
Lemma elementSize_range t : 1 <= type_elementSize t <= 8.
Proof. destruct t; vm_compute; split; discriminate. Qed.

Section Conversions.
Context (cvt toUint64 : Z -> Z).

Lemma lift_cases {A} (r : A + Thrown) w : (exists a, r = inl a /\ lift r w = Some (w, inl a)) \/ exists e, lift r w = Some (w, inr e).
Proof. destruct r as [a|e]; [left; eauto|right; now exists e]. Qed.
(** A conversion has a result or throws, and changes nothing. *)
Definition pure {A} (m : MU World A) : Prop := forall w, (exists a, m w = Some (w, inl a)) \/ exists e, m w = Some (w, inr e).
Lemma pure_ret {A} (a : A) : pure (mret a).
Proof. intros w. left. now exists a. Qed.
Lemma pure_lift {A} (r : A + Thrown) : pure (lift r).
Proof. intros w. destruct r as [a|e]; [left; now exists a|right; now exists e]. Qed.
Lemma pure_bind {A B} (m : MU World A) (k : A -> MU World B) : pure m -> (forall a, pure (k a)) -> pure (m ≫= k).
Proof.
  intros Hm Hk w. unfold mbind, MU_bind. destruct (Hm w) as [[a ->]|[e ->]]; [apply Hk|right; now exists e].
Qed.
Lemma pure_cast {A} (o : option A) : pure (cast o).
Proof. intros w. destruct o as [a|]; [left|right]; eexists; reflexivity. Qed.
Lemma pure_toNative t p : pure (toNative cvt toUint64 t p).
Proof.
  assert (Hi : forall signed w, pure (integral_toNative cvt signed w p)).
  { intros signed w. destruct p; try apply pure_ret; (apply pure_bind; [apply pure_lift|]); intros d; destruct (is_nan d);
      [apply pure_ret|apply pure_cast|apply pure_ret|apply pure_cast]. }
  destruct t; cbn [toNative]; try apply Hi; try (apply pure_bind; [apply pure_lift|intros; apply pure_ret]).
  unfold clamped_toNative. destruct p; try apply pure_ret; (apply pure_bind; [apply pure_lift|intros; apply pure_ret]).
Qed.
Lemma numberToRawBytes_cases t p w :
  (exists bytes, numberToRawBytes cvt toUint64 t p w = Some (w, inl bytes) /\ Z.of_nat (length bytes) = type_elementSize t) \/
  exists e, numberToRawBytes cvt toUint64 t p w = Some (w, inr e).
Proof.
  unfold numberToRawBytes, mbind, MU_bind. destruct (pure_toNative t p w) as [[a ->]|[e ->]]; [left|right; now exists e].
  eexists. split; [reflexivity|]. rewrite length_le_bytes. pose proof (elementSize_range t). lia.
Qed.

End Conversions.
End ElementFacts.

(** * Indexes *)
Module IndexFacts.
Import Effects Buffers TypedArrays Word WordFacts ConversionFacts RelativeFacts.

Section Cast.
Context (cvt : Z -> Z) (cvt_int : forall d, in_s 32 (cvt d)).

(** [isInteger] of a double that was boxed. *)
Lemma isInteger_represents d : in_u 64 d -> isInteger asNumber (Value_double cvt d) = true -> exists z, represents d z.
Proof.
  intros Hd. destruct (Value_double_number cvt cvt_int d Hd) as (Hu & Hn & Ea & Hi). unfold isInteger.
  destruct (isInt32 (Value_double cvt d)) eqn:E32.
  { intros _. destruct (proj1 Hi eq_refl) as (i & Hr & <-). exists i. apply rep_of_Z. now apply int32_small. }
  rewrite (toNumber_number asNumber _ Hu Hn), Ea. destruct (DoubleInvalidBeginning <=? d) eqn:Ei; [done|].
  destruct (is_nan d) eqn:En; [done|]. cbn [orb]. intros H.
  assert (Hf : is_finite d = true).
  { unfold is_finite. apply Z.ltb_lt. unfold is_nan in En. Zbool. destruct (decide (mag d = INF)) as [Em|]; [|lia]. exfalso.
    assert (Hk : key d = INF \/ key d = - INF) by (unfold key; destruct (sign_bit d); lia).
    assert (HN : is_nan d = false) by (unfold is_nan; apply Z.ltb_ge; lia).
    unfold feq in H. rewrite HN in H. change (is_nan INF) with false in H. change (is_nan (neg INF)) with false in H.
    change (key INF) with INF in H. change (key (neg INF)) with (- INF) in H. cbn [negb andb] in H.
    destruct Hk as [Hk|Hk]; rewrite Hk, Z.eqb_refl, ?orb_true_r in H; done. }
  destruct (feq d INF || feq d (neg INF)); [done|].
  pose proof (fabs_facts d) as [Em Es]. pose proof (mag_range d) as Hm.
  assert (Hmf : 0 <= mag d < INF) by (unfold is_finite in Hf; Zbool; lia).
  assert (Hfl : ffloor (fabs d) = of_ratio false (mag_scaled (mag d) / UNIT) 1).
  { unfold ffloor, is_finite. rewrite Em. unfold is_finite in Hf. rewrite Hf, Es.
    f_equal. unfold floor_Z, scaled. rewrite Es, Em. apply Z.abs_eq, Z.div_pos; [|apply UNIT_pos]. apply mag_scaled_nonneg. lia. }
  destruct (of_ratio_int false (mag d) Hmf) as [F S]. rewrite <- Hfl in F, S.
  assert (Ff : is_finite (fabs d) = true) by (unfold is_finite; rewrite Em; exact Hf).
  rewrite feq_scaled in H by done. apply Z.eqb_eq in H. rewrite S in H. unfold scaled in H. rewrite Es, Em in H.
  exists ((if sign_bit d then -1 else 1) * (mag_scaled (mag d) / UNIT)). split; [done|]. unfold scaled. destruct (sign_bit d); lia.
Qed.

Lemma valid_index w v index : in_u 64 index -> invalid_index cvt w v index = false -> arrayLength w v <= 2 ^ 53 -> 0 <= arrayLength w v ->
  exists z, represents index z /\ 0 <= z < arrayLength w v.
Proof.
  intros Hu H Hl1 Hl2. unfold invalid_index in H. Zbool. destruct (isInteger_represents index Hu) as [z Hz]; [done|].
  exists z. split; [done|]. rewrite (rep_flt index 0 z 0 Hz rep_zero) in *.
  rewrite (rep_fle (of_Z (arrayLength w v)) index (arrayLength w v) z (rep_of_Z (arrayLength w v) ltac:(lia)) Hz) in *. Zbool. lia.
Qed.

(** Positions are computed exactly. *)
Lemma position_exact d z size off : represents d z -> 0 <= z -> 1 <= size <= 8 -> 0 <= off -> z * size + off <= 2 ^ 53 ->
  cast_size_t (fadd (fmul d (of_Z size)) (of_Z off)) = Some (z * size + off).
Proof.
  intros Hd Hz Hs Ho Hb. assert (0 <= z * size) by nia. apply rep_cast_size_t; [|lia].
  apply rep_fadd; [apply rep_fmul; [done|apply rep_of_Z; lia|lia]|apply rep_of_Z; lia|lia].
Qed.
End Cast.
End IndexFacts.

(** * Access *)
Module TypedArraySafety.
Import Effects WP Buffers Wiring Notified Invariant Steps RelativeFacts BufferSpecs BufferBuiltins TypedArrays ElementFacts IndexFacts.

(** Only the contents of blocks change. *)
Record same_shape (w w' : World) : Prop := {
  sh_blocks : blocks_kept w w';
  sh_infos : infos w' = infos w;
  sh_stores : stores w' = stores w;
  sh_buffers : buffers w' = buffers w;
  sh_views : views w' = views w
}.
Lemma same_shape_refl w : same_shape w w.
Proof. split; try done. intros a blk E. eauto. Qed.
Lemma same_shape_trans w1 w2 w3 : same_shape w1 w2 -> same_shape w2 w3 -> same_shape w1 w3.
Proof.
  intros [K1 I1 S1 B1 V1] [K2 I2 S2 B2 V2]. split; try congruence.
  intros a blk E. destruct (K1 a blk E) as (blk1 & E1 & F1 & L1), (K2 a blk1 E1) as (blk2 & E2 & F2 & L2). exists blk2. split_and!; congruence.
Qed.
Lemma shape_buffer w w' b : same_shape w w' ->
  byteLength w' b = byteLength w b /\ data w' b = data w b /\ isDetachedBuffer w' b = isDetachedBuffer w b.
Proof.
  intros [_ I S B _]. unfold byteLength, data, isDetachedBuffer, backingStore, the_store. rewrite B, S.
  destruct (buffers w !! b) as [y|]; [|done]. destruct (m_backingStore y) as [s|]; [|done]. destruct (stores w !! s) as [x|]; [|done].
  cbn. unfold store_byteLength, store_data, store_info. rewrite I. done.
Qed.
Lemma shape_view w w' v : same_shape w w' ->
  arrayLength w' v = arrayLength w v /\ view_byteLength w' v = view_byteLength w v /\ view_byteOffset w' v = view_byteOffset w v /\
  rawBuffer w' v = rawBuffer w v.
Proof. intros [_ _ _ _ V]. unfold arrayLength, view_byteLength, view_byteOffset, rawBuffer. now rewrite V. Qed.

Section Host.
Context (host null_when_empty : bool) (cvt toUint64 : Z -> Z) (cvt_int : forall d, in_s 32 (cvt d)).
Let Base := Base host.
Let Good := Good host.
Let Core := Core host.
Let safe {A} := @safe host A.
Let post {A} := @post host A.

Lemma shape_good w w' : Good w -> same_shape w w' -> Good w' /\ evolves w w'.
Proof. intros HG [K I S B V]. now apply (good_kept host). Qed.

(** A range of bytes of a buffer. *)
Definition in_range (w : World) (b : nat) (i n : Z) : Prop :=
  is_Some (buffers w !! b) /\ isDetachedBuffer w b = false /\ 0 <= i /\ 0 < n /\ i + n <= byteLength w b.
Lemma in_range_shape w w' b i n : same_shape w w' -> in_range w b i n -> in_range w' b i n.
Proof.
  intros H (R1 & R2 & R3). destruct (shape_buffer w w' b H) as (E1 & _ & E2). unfold in_range. now rewrite (sh_buffers _ _ H), E1, E2.
Qed.
Lemma in_range_data w b i n : Good w -> in_range w b i n -> holds w (data w b) (i + n).
Proof.
  intros HG (_ & _ & _ & Hn & R). destruct (data_holds host w b) as [Hh _]; [apply HG|]. destruct (data w b) as [a|]; cbn in *; [|lia].
  destruct Hh as (blk & ? & ? & ?). exists blk. split_and!; try done; lia.
Qed.
Lemma check_access_spec w b i n : Good w -> in_range w b i n -> check_access b i n w = Some (w, inl tt).
Proof.
  intros HG R. destruct (data_holds host w b) as [_ HL]; [apply HG|]. unfold maxArrayBufferSize in HL.
  destruct R as ([y Ey] & D & Hi & Hn & Hr). unfold check_access, gets, certain, mbind, MU_bind, require. cbn [id]. rewrite Ey.
  rewrite wrapu_id by (unfold in_u; lia). destruct (isShared y).
  - rewrite (proj2 (Z.ltb_lt 0 _)), (proj2 (Z.leb_le _ _)) by lia. done.
  - rewrite D. unfold throw_if. rewrite (proj2 (Z.ltb_ge _ _)) by lia. done.
Qed.

Lemma getValueFromBuffer_spec w b i t le : Good w -> in_range w b i (type_elementSize t) ->
  exists x, getValueFromBuffer b i t le w = Some (w, inl x).
Proof.
  intros HG R. pose proof (in_range_data w b i _ HG R) as Hh. unfold getValueFromBuffer, mbind, MU_bind.
  rewrite (check_access_spec w b i _ HG R). cbn [gets id]. pose proof (elementSize_range t). unfold gets. cbn.
  destruct (load_bytes_ok w (data w b) i (type_elementSize t) Hh) as (bytes & -> & _); [apply R|lia|]. eauto.
Qed.

Lemma store_shape w a i bytes : holds w a (i + Z.of_nat (length bytes)) -> 0 <= i ->
  exists w', store_bytes (plus a i) bytes w = Some (w', inl tt) /\ same_shape w w'.
Proof.
  intros H Hi. destruct (store_bytes_ok w a i bytes H Hi) as (w' & E & ? & ? & ? & ? & ?). exists w'. now split.
Qed.
(** What writing leaves: the same shape. *)
Definition wrote {A} (w : World) (r : A + Thrown) (w' : World) : Prop := same_shape w w'.
Lemma setValueInBuffer_spec w b i t p le : Good w -> in_range w b i (type_elementSize t) ->
  wp (setValueInBuffer cvt toUint64 b i t p le) (wrote w) w.
Proof.
  intros HG R. pose proof (in_range_data w b i _ HG R) as Hh. unfold setValueInBuffer. apply wp_bind.
  eapply wp_eq; [now apply check_access_spec|]. cbv beta iota. apply wp_bind, wp_gets_id. cbv beta iota. apply wp_bind.
  destruct (numberToRawBytes_cases cvt toUint64 t p w) as [(bytes & E & L)|[e E]]; (eapply wp_eq; [exact E|]); cbv beta iota; [|apply same_shape_refl].
  destruct (store_shape w (data w b) i (ordered le bytes)) as (w' & E' & S); [|apply R|].
  - unfold ordered. destruct le; [|rewrite length_rev]; now rewrite L.
  - eapply wp_eq; [exact E'|exact S].
Qed.

(** A loop of writes. *)
Lemma for_from_writes w0 n k body (lo hi : Z) : lo <= k -> k + Z.of_nat n <= hi ->
  (forall i w, lo <= i < hi -> same_shape w0 w -> wp (body i) (wrote w0) w) ->
  forall w, same_shape w0 w -> wp (for_from n k body) (wrote w0) w.
Proof.
  intros Hlo Hhi Hb. revert k Hlo Hhi. induction n as [|n IH]; intros k Hlo Hhi w Hw; [now apply wp_ret|].
  cbn [for_from]. apply wp_bind. eapply wp_mono; [apply (Hb k w); [lia|done]|]. intros [[]|e] w' Hw'; [|done].
  apply IH; [lia|lia|done].
Qed.
(** A loop whose steps are safe. *)
Lemma safe_for n k body : (forall i, k <= i < k + Z.of_nat n -> safe any (body i)) -> safe any (for_from n k body).
Proof.
  revert k. induction n as [|n IH]; intros k Hb; [now apply (safe_ret host)|].
  cbn [for_from]. apply (safe_seq host any); [apply Hb; lia|]. intros [] _. apply IH. intros i Hi. apply Hb. lia.
Qed.
Lemma wrote_post {A} w0 w (m : MU World A) (P : A -> World -> Prop) : Good w -> evolves w0 w -> wp m (wrote w) w ->
  (forall a w', same_shape w w' -> P a w') -> wp m (post w0 P) w.
Proof.
  intros HG He Hm HP. eapply wp_mono; [exact Hm|]. intros r w' S. destruct (shape_good w w' HG S) as [HG' He'].
  split; [done|]. split; [now apply (buffers_evolve_trans w0 w)|]. destruct r; [now apply HP|done].
Qed.

(** ** Elements of typed arrays *)
Lemma typed_facts w v x b : Good w -> views w !! v = Some x -> m_buffer x = Some b ->
  is_Some (buffers w !! b) /\ view_in (data w b) (byteLength w b) x.
Proof.
  intros [[[C Hv] _] _] Ev Eb. split.
  - destruct (c_wired _ _ C) as [_ W]. destruct (linked_up _ _ W v b) as [l Hl]; [now rewrite (wires_view w v x Ev), Eb|].
    unfold wires in Hl. cbn in Hl. rewrite list_lookup_fmap in Hl. destruct (buffers w !! b); [eauto|done].
  - destruct (Hv v x Ev) as [[_ H] _]. now rewrite Eb in H.
Qed.
Lemma data_not_detached w b a : data w b = Some a -> isDetachedBuffer w b = false.
Proof. unfold data, isDetachedBuffer, backingStore. now destruct (the_store w b). Qed.
(** The bytes of a view that has an address. *)
Lemma view_range w v x b i n : Good w -> views w !! v = Some x -> m_buffer x = Some b ->
  0 <= i -> 0 < n -> i + n <= m_byteLength x ->
  in_range w b (m_byteOffset x + i) n /\ exists a, m_cachedRawBufferAddress x = Some (a, m_byteOffset x) /\ data w b = Some a.
Proof.
  intros HG Ev Eb Hi Hn Hin. destruct (typed_facts w v x b HG Ev Eb) as [Hb [V1 V2 _ _ V4]].
  destruct (m_cachedRawBufferAddress x) as [[a o]|]; [|lia]. destruct V4 as (D & -> & H).
  split; [|eauto]. split_and!; [done|now apply (data_not_detached w b a)|lia|lia|lia].
Qed.
Lemma element_range w v x b t i : Good w -> views w !! v = Some x -> m_buffer x = Some b -> v_kind x = TypedArray t ->
  0 <= i < m_arrayLength x -> i * type_elementSize t + type_elementSize t <= m_byteLength x.
Proof.
  intros HG Ev Eb Ek Hi. destruct (typed_facts w v x b HG Ev Eb) as [_ [_ _ [_ V3] _ _]].
  unfold elementSize in V3. rewrite Ek in V3. pose proof (elementSize_range t). nia.
Qed.
Lemma view_limits w v x b : Good w -> views w !! v = Some x -> m_buffer x = Some b ->
  0 <= m_arrayLength x < maxArrayBufferSize /\ 0 <= m_byteLength x < maxArrayBufferSize /\
  0 <= m_byteOffset x <= 2 ^ 52 /\ (0 < m_byteLength x -> m_byteOffset x + m_byteLength x <= byteLength w b).
Proof.
  intros HG Ev Eb. destruct (typed_facts w v x b HG Ev Eb) as [_ [V1 V2 V3 _ V4]].
  destruct (data_holds host w b) as [_ HL]; [apply HG|].
  assert (Hm : m_byteLength x < maxArrayBufferSize /\ (0 < m_byteLength x -> m_byteOffset x + m_byteLength x <= byteLength w b)).
  { destruct (m_cachedRawBufferAddress x) as [[a o]|]; [destruct V4 as (_ & _ & V4); lia|]. unfold maxArrayBufferSize. lia. }
  pose proof (elementSize_pos x). split_and!; try lia. nia.
Qed.

(** The fields that the operations read. *)
Lemma read_view w v x : views w !! v = Some x ->
  arrayLength w v = m_arrayLength x /\ view_byteLength w v = m_byteLength x /\ view_byteOffset w v = m_byteOffset x /\
  rawBuffer w v = m_cachedRawBufferAddress x /\ view_buffer w v = m_buffer x.
Proof. intros E. unfold arrayLength, view_byteLength, view_byteOffset, rawBuffer, view_buffer. now rewrite E. Qed.

Lemma resolve_typed_spec {A} w0 (k : TypedArrayType * nat -> MU World A) P this w : Good w -> evolves w0 w ->
  (forall t b x, views w !! this = Some x -> v_kind x = TypedArray t -> m_buffer x = Some b -> wp (k (t, b)) (post w0 P) w) ->
  wp (p ← resolve_typed this; k p) (post w0 P) w.
Proof.
  intros HG He H. apply wp_bind. unfold resolve_typed. apply wp_bind, wp_gets_id. cbv beta iota.
  destruct (views w !! this) as [[k0 mb a bl bo al obl obo au re]|] eqn:E; [|now apply wp_throw, (post_throw host)].
  destruct k0 as [t|]; [|now apply wp_throw, (post_throw host)].
  destruct mb as [b|]; [|now apply wp_throw, (post_throw host)]. apply wp_ret. now eapply H.
Qed.
Lemma validate_view_spec {A} w0 (k : TypedArrayType * nat -> MU World A) P this chk w : Good w -> evolves w0 w ->
  (forall t b x, views w !! this = Some x -> v_kind x = TypedArray t -> m_buffer x = Some b ->
     (chk = true -> isDetachedBuffer w b = false) -> wp (k (t, b)) (post w0 P) w) ->
  wp (p ← validateTypedArray this chk; k p) (post w0 P) w.
Proof.
  intros HG He H. apply wp_bind. unfold validateTypedArray.
  eapply wp_mono; [apply (resolve_typed_spec w0 _ (fun p w' => w' = w /\ wp (k p) (post w0 P) w)); [done|done|]|].
  - intros t b x Ev Ek Eb. cbv beta iota.
    destruct chk; [apply (throwTypeErrorIfDetached_spec host); [done|done|]; intros Hd|apply wp_bind, wp_ret; cbv beta iota];
      apply wp_bind, wp_gets_id; cbv beta iota; (apply (throw_if_spec host); [done|done|]; intros _);
      (apply (post_ret host); [done|done|]; split; [done|]; apply (H t b x); done).
  - intros [p|e] w' (HG' & He' & Hp); [destruct Hp as [-> Hp]; exact Hp|now apply (post_throw host)].
Qed.

Lemma wp_require (Q : unit + Thrown -> World -> Prop) c w : c = true -> Q (inl tt) w -> wp (require c) Q w.
Proof. intros -> H. now apply wp_ret. Qed.
Lemma within_bytes x n : 0 < n -> forall i, 0 <= i -> i + n <= x -> (0 <? x) && (i + n <=? x) = true.
Proof. intros Hn i Hi H. rewrite (proj2 (Z.ltb_lt 0 _)), (proj2 (Z.leb_le _ _)) by lia. done. Qed.

Lemma getDirect_spec w v x b t i : Good w -> views w !! v = Some x -> m_buffer x = Some b -> v_kind x = TypedArray t ->
  0 <= i < m_arrayLength x ->
  wp (getDirectValueFromBuffer v t (i * type_elementSize t)) (fun r w' => w' = w /\ exists y, r = inl y) w.
Proof.
  intros HG Ev Eb Ek Hi. pose proof (element_range w v x b t i HG Ev Eb Ek Hi) as Hr. pose proof (elementSize_range t) as Hs.
  destruct (view_range w v x b (i * type_elementSize t) (type_elementSize t) HG Ev Eb) as [Hin (a & Ea & Ed)]; [nia|lia|lia|].
  destruct (read_view w v x Ev) as (_ & R2 & _ & R4 & _).
  unfold getDirectValueFromBuffer. apply wp_bind, wp_gets_id. cbv beta iota. rewrite R2, R4, Ea.
  apply wp_bind, wp_require; [apply within_bytes; nia|]. apply wp_bind, wp_require; [done|]. apply wp_bind.
  pose proof (in_range_data w b _ _ HG Hin) as Hh. rewrite Ed in Hh.
  destruct (load_bytes_ok w (Some a) (m_byteOffset x + i * type_elementSize t) (type_elementSize t)) as (bytes & E & _); [exact Hh|apply Hin|lia|].
  eapply wp_eq; [exact E|]. cbv beta iota. apply wp_ret. eauto.
Qed.
Lemma setDirect_spec w v x b t i p : Good w -> views w !! v = Some x -> m_buffer x = Some b -> v_kind x = TypedArray t ->
  0 <= i < m_arrayLength x ->
  wp (setDirectValueInBuffer cvt toUint64 v t (i * type_elementSize t) p) (wrote w) w.
Proof.
  intros HG Ev Eb Ek Hi. pose proof (element_range w v x b t i HG Ev Eb Ek Hi) as Hr. pose proof (elementSize_range t) as Hs.
  destruct (view_range w v x b (i * type_elementSize t) (type_elementSize t) HG Ev Eb) as [Hin (a & Ea & Ed)]; [nia|lia|lia|].
  destruct (read_view w v x Ev) as (_ & R2 & _ & R4 & _).
  unfold setDirectValueInBuffer. apply wp_bind, wp_gets_id. cbv beta iota. rewrite R2, R4, Ea. apply wp_bind.
  destruct (pure_toNative cvt toUint64 t p w) as [[n E]|[e E]]; (eapply wp_eq; [exact E|]); cbv beta iota; [|apply same_shape_refl].
  apply wp_bind, wp_require; [apply within_bytes; nia|].
  pose proof (in_range_data w b _ _ HG Hin) as Hh. rewrite Ed in Hh.
  destruct (store_shape w (Some a) (m_byteOffset x + i * type_elementSize t) (le_bytes (Z.to_nat (type_elementSize t)) n)) as (w' & E' & S).
  - rewrite length_le_bytes, Z2Nat.id by lia. exact Hh.
  - apply Hin.
  - eapply wp_eq; [exact E'|exact S].
Qed.

(** Elements by a numeric key. *)
Definition arg_ok (value : ElementArg) : Prop :=
  match value with
  | PrimitiveArg _ => True
  | ObjectArg f g => safe any f /\ safe any g
  end.
Lemma element_position w v x b t index : Good w -> views w !! v = Some x -> m_buffer x = Some b -> v_kind x = TypedArray t ->
  in_u 64 index -> invalid_index cvt w v index = false ->
  exists i, indexed_position w v t index = Some i /\ in_range w b i (type_elementSize t).
Proof.
  intros HG Ev Eb Ek Hu Hi. destruct (view_limits w v x b HG Ev Eb) as (L1 & L2 & L3 & L4). unfold maxArrayBufferSize in *.
  destruct (read_view w v x Ev) as (R1 & R2 & R3 & R4 & _).
  destruct (valid_index cvt cvt_int w v index Hu Hi) as (z & Hz & Hr); [lia|lia|]. rewrite R1 in Hr.
  pose proof (element_range w v x b t z HG Ev Eb Ek Hr) as He. pose proof (elementSize_range t) as Hs.
  destruct (view_range w v x b (z * type_elementSize t) (type_elementSize t) HG Ev Eb) as [Hin _]; [nia|lia|lia|].
  destruct (data_holds host w b) as [_ HL]; [apply HG|]. unfold maxArrayBufferSize in HL.
  exists (z * type_elementSize t + m_byteOffset x). unfold indexed_position. rewrite R3. split.
  - apply position_exact; [done|lia|lia|lia|]. nia.
  - now rewrite Z.add_comm.
Qed.

Lemma get_element_spec w0 w v x b t index : Good w -> evolves w0 w -> views w !! v = Some x -> m_buffer x = Some b ->
  v_kind x = TypedArray t -> in_u 64 index -> wp (integerIndexedElementGet cvt v t b index) (post w0 (fun _ _ => True)) w.
Proof.
  intros HG He Ev Eb Ek Hu. unfold integerIndexedElementGet. apply wp_bind, wp_gets_id. cbv beta iota.
  destruct (isDetachedBuffer w b || invalid_index cvt w v index) eqn:E; [now apply (post_ret host)|].
  apply orb_false_iff in E as [_ E]. destruct (element_position w v x b t index HG Ev Eb Ek Hu E) as (i & Ei & Hin).
  apply wp_bind. eapply wp_certain; [exact Ei|]. cbv beta iota. apply wp_bind.
  destruct (getValueFromBuffer_spec w b i t true HG Hin) as [y Ey]. eapply wp_eq; [exact Ey|]. now apply (post_ret host).
Qed.
Lemma kept_view w w' v x b : Good w' -> evolves w w' -> views w !! v = Some x -> m_buffer x = Some b ->
  exists x', views w' !! v = Some x' /\ m_buffer x' = Some b /\ v_kind x' = v_kind x.
Proof.
  intros HG [_ V _ _] Ev Eb. destruct (V v x Ev) as (x' & E & K & H). rewrite Eb in H. exists x'. split_and!; [done|apply H|done].
Qed.
Lemma to_element_spec {A} w0 (k : Primitive -> MU World A) P t value w : arg_ok value -> Good w -> evolves w0 w ->
  (forall p w', Good w' -> evolves w w' -> evolves w0 w' -> wp (k p) (post w0 P) w') ->
  wp (p ← to_element cvt t value; k p) (post w0 P) w.
Proof.
  intros Hv HG He Hk.
  assert (Hnum : safe any (arg_toNumber value) /\ safe any (arg_toBigInt value)).
  { destruct value as [p|f g]; [|exact Hv]. cbn. split.
    - destruct (toNumber p); [now apply (safe_ret host)|apply (safe_throw host)].
    - destruct (toBigInt p); [now apply (safe_ret host)|apply (safe_throw host)]. }
  apply (safe_bind host w0 any); [|done|done|intros; now apply Hk].
  unfold to_element. destruct (isBigIntArray t).
  - apply (safe_seq host any); [apply Hnum|]. intros n _. now apply (safe_ret host).
  - apply (safe_seq host any); [apply Hnum|]. intros d _. now apply (safe_ret host).
Qed.
Lemma set_element_spec w0 w v x b t index value : arg_ok value -> Good w -> evolves w0 w -> views w !! v = Some x -> m_buffer x = Some b ->
  v_kind x = TypedArray t -> in_u 64 index -> wp (integerIndexedElementSet cvt toUint64 v t b index value) (post w0 (fun _ _ => True)) w.
Proof.
  intros Hv HG He Ev Eb Ek Hu. unfold integerIndexedElementSet. apply to_element_spec; [done|done|done|].
  intros p w1 HG1 He1 He01. destruct (kept_view w w1 v x b HG1 He1 Ev Eb) as (x1 & Ev1 & Eb1 & Ek1). rewrite Ek in Ek1.
  apply wp_bind, wp_gets_id. cbv beta iota. destruct (isDetachedBuffer w1 b); [now apply (post_ret host)|].
  destruct (invalid_index cvt w1 v index) eqn:E; [now apply (post_ret host)|].
  destruct (element_position w1 v x1 b t index HG1 Ev1 Eb1 Ek1 Hu E) as (i & Ei & Hin).
  apply wp_bind. eapply wp_certain; [exact Ei|]. cbv beta iota. apply wp_bind.
  eapply wp_mono; [now apply setValueInBuffer_spec|]. intros [[]|e] w2 S; destruct (shape_good w1 w2 HG1 S) as [HG2 He2];
    [apply (post_ret host)|apply (post_throw host)]; try done; now apply (buffers_evolve_trans w0 w1).
Qed.

Lemma safe_get_numeric v index : in_u 64 index -> safe any (get_numeric cvt v index).
Proof.
  intros Hu w HG. apply resolve_typed_spec; [done|apply buffers_evolve_refl|]. intros t b x Ev Ek Eb. cbv beta iota.
  eapply get_element_spec; eauto. apply buffers_evolve_refl.
Qed.
Lemma safe_set_numeric v index value : in_u 64 index -> arg_ok value -> safe any (set_numeric cvt toUint64 v index value).
Proof.
  intros Hu Hv w HG. apply resolve_typed_spec; [done|apply buffers_evolve_refl|]. intros t b x Ev Ek Eb. cbv beta iota. apply wp_bind.
  eapply wp_mono; [eapply set_element_spec; eauto; apply buffers_evolve_refl|]. intros [y|e] w' (HG' & He' & _); [|now apply (post_throw host)].
  now apply (post_ret host).
Qed.

Lemma safe_getIndexedPropertyValue v i : 0 <= i -> safe any (getIndexedPropertyValue cvt v i).
Proof.
  intros Hi w HG. apply resolve_typed_spec; [done|apply buffers_evolve_refl|]. intros t b x Ev Ek Eb. cbv beta iota.
  apply wp_bind, wp_gets_id. cbv beta iota. destruct (read_view w v x Ev) as (R1 & _). rewrite R1.
  destruct (i <? m_arrayLength x) eqn:E; Zbool.
  - destruct (isDetachedBuffer w b); [apply (post_ret host); [done|apply buffers_evolve_refl|done]|]. apply wp_bind.
    eapply wp_mono; [eapply getDirect_spec; eauto|]. intros r w' [-> [y ->]]. apply (post_ret host); [done|apply buffers_evolve_refl|done].
  - eapply get_element_spec; eauto; [apply buffers_evolve_refl|apply of_Z_u64].
Qed.
Lemma safe_setIndexedProperty v i value : 0 <= i -> arg_ok value -> safe any (setIndexedProperty cvt toUint64 v i value).
Proof.
  intros Hi Hv w HG. apply resolve_typed_spec; [done|apply buffers_evolve_refl|]. intros t b x Ev Ek Eb. cbv beta iota.
  apply wp_bind, wp_gets_id. cbv beta iota. destruct (read_view w v x Ev) as (R1 & _). rewrite R1.
  assert (Hslow : wp (integerIndexedElementSet cvt toUint64 v t b (of_Z i) value;; mret true) (post w (fun _ _ => True)) w).
  { apply wp_bind. eapply wp_mono; [eapply set_element_spec; eauto; [apply buffers_evolve_refl|apply of_Z_u64]|].
    intros [y|e] w' (HG' & He' & _); [now apply (post_ret host)|now apply (post_throw host)]. }
  destruct value as [p|f g]; [|exact Hslow]. destruct ((i <? m_arrayLength x) && negb (isDetachedBuffer w b)) eqn:E; [|exact Hslow].
  Zbool. apply wp_bind. eapply wp_mono; [eapply setDirect_spec; eauto|]. intros r w' S. destruct (shape_good w w' HG S) as [HG' He'].
  destruct r as [[]|e]; [now apply (post_ret host)|now apply (post_throw host)].
Qed.
Lemma safe_setThrows v i value : 0 <= i -> arg_ok value -> safe any (setIndexedPropertyThrowsException cvt toUint64 v i value).
Proof.
  intros Hi Hv. apply (safe_seq host any); [now apply safe_setIndexedProperty|]. intros ok _ w HG.
  apply wp_throw_if; intros _; [apply (post_throw host); [done|apply buffers_evolve_refl]|]. split; [done|]. split; [apply buffers_evolve_refl|done].
Qed.

(** ** Getters *)
Lemma safe_typed_getter f v : safe any (typed_getter f v).
Proof.
  intros w HG. apply resolve_typed_spec; [done|apply buffers_evolve_refl|]. intros t b x Ev Ek Eb. cbv beta iota.
  apply wp_observe; [done|apply buffers_evolve_refl|done].
Qed.
Lemma safe_deleteOwnProperty v index : safe any (deleteOwnProperty_numeric cvt v index).
Proof.
  intros w HG. apply resolve_typed_spec; [done|apply buffers_evolve_refl|]. intros t b x Ev Ek Eb. cbv beta iota.
  apply wp_observe; [done|apply buffers_evolve_refl|done].
Qed.
Lemma resolve_DataView_spec {A} w0 (k : nat -> MU World A) P this w : Good w -> evolves w0 w ->
  (forall x, views w !! this = Some x -> v_kind x = DataView -> wp (k this) (post w0 P) w) ->
  wp (v ← resolve_DataView this; k v) (post w0 P) w.
Proof.
  intros HG He H. apply wp_bind. unfold resolve_DataView. apply wp_bind, wp_gets_id. cbv beta iota.
  destruct (views w !! this) as [[[t|] mb a bl bo al obl obo au re]|] eqn:E; [now apply wp_throw, (post_throw host)| |now apply wp_throw, (post_throw host)].
  apply wp_ret. now eapply H.
Qed.
Lemma has_address_spec {A} w0 (k : MU World A) P v w : Good w -> evolves w0 w ->
  (forall x a, views w !! v = Some x -> m_cachedRawBufferAddress x = Some a -> wp k (post w0 P) w) ->
  wp (DataView_throwTypeErrorIfDetached v;; k) (post w0 P) w.
Proof.
  intros HG He H. apply wp_bind. unfold DataView_throwTypeErrorIfDetached. apply wp_bind, wp_gets_id. cbv beta iota.
  apply wp_throw_if; intros E; [now apply (post_throw host)|]. unfold rawBuffer in E.
  destruct (views w !! v) as [x|] eqn:Ev; [|done]. cbn in E. destruct (m_cachedRawBufferAddress x) as [a|] eqn:Ea; [apply (H x a); done|done].
Qed.
Lemma safe_DataView_getter f v : safe any (DataView_getter f v).
Proof.
  intros w HG. apply resolve_DataView_spec; [done|apply buffers_evolve_refl|]. intros x Ev Ek.
  apply wp_bind, wp_gets_id. cbv beta iota. apply (throw_if_spec host); [done|apply buffers_evolve_refl|]. intros _.
  apply has_address_spec; [done|apply buffers_evolve_refl|]. intros x' a Ev' Ea. apply wp_observe; [done|apply buffers_evolve_refl|done].
Qed.

(** ** Accesses of DataViews *)
Lemma address_buffer w v x a : Good w -> views w !! v = Some x -> m_cachedRawBufferAddress x = Some a -> exists b, m_buffer x = Some b.
Proof.
  intros [[[C Hv] _] _] Ev Ea. destruct (Hv v x Ev) as [[_ H] _]. destruct (m_buffer x); [eauto|]. destruct H as (H & _). congruence.
Qed.
Lemma view_access_spec {A} w0 (k : nat * Z -> MU World A) P v x a i t w : Good w -> evolves w0 w -> views w !! v = Some x ->
  m_cachedRawBufferAddress x = Some a -> 0 <= i < 2 ^ 53 ->
  (forall b j, in_range w b j (type_elementSize t) -> wp (k (b, j)) (post w0 P) w) ->
  wp (p ← view_access v i t; k p) (post w0 P) w.
Proof.
  intros HG He Ev Ea Hi Hk. destruct (address_buffer w v x a HG Ev Ea) as [b Eb].
  destruct (view_limits w v x b HG Ev Eb) as (L1 & L2 & L3 & L4). unfold maxArrayBufferSize in *.
  destruct (typed_facts w v x b HG Ev Eb) as [Hbuf [_ _ _ _ V4]]. rewrite Ea in V4. destruct a as [a o]. destruct V4 as (D & -> & HL).
  destruct (data_holds host w b) as [_ HB]; [apply HG|]. unfold maxArrayBufferSize in HB.
  destruct (read_view w v x Ev) as (R1 & R2 & R3 & R4 & R5). pose proof (elementSize_range t) as Hs.
  apply wp_bind. unfold view_access. apply wp_bind, wp_gets_id. cbv beta iota. rewrite R2, R3, R5, Eb.
  apply wp_bind, wp_throw_if; intros Hf; [now apply (post_throw host)|].
  assert (Hin : i + type_elementSize t <= m_byteLength x).
  { eapply sum_bounded; [apply (rep_of_Z i); lia|apply (rep_of_Z (type_elementSize t)); lia|lia|lia|lia|exact Hf]. }
  apply wp_bind. eapply wp_certain.
  { apply (rep_cast_size_t _ (i + m_byteOffset x)); [|lia]. apply rep_fadd; [apply rep_of_Z; lia|apply rep_of_Z; lia|lia]. }
  cbv beta iota. apply wp_bind. eapply wp_certain; [reflexivity|]. cbv beta iota. apply wp_ret. apply Hk.
  destruct (view_range w v x b i (type_elementSize t) HG Ev Eb) as [Hr _]; [lia|lia|lia|]. now rewrite Z.add_comm.
Qed.

Lemma safe_getViewValue v toIndex le t : safe is_index toIndex -> safe any (getViewValue v toIndex le t).
Proof.
  intros Hm w HG. apply resolve_DataView_spec; [done|apply buffers_evolve_refl|]. intros x Ev Ek.
  apply checked_index_spec; [done|done|apply buffers_evolve_refl|]. intros i w1 Hi HG1 He1 _.
  apply has_address_spec; [done|done|]. intros x1 a Ev1 Ea1. eapply view_access_spec; eauto. intros b j Hin. cbv beta iota.
  destruct (getValueFromBuffer_spec w1 b j t le HG1 Hin) as [y E]. eapply wp_eq; [exact E|]. now split.
Qed.
Lemma safe_setViewValue v toIndex toNumeric le t : safe is_index toIndex -> safe any toNumeric ->
  safe any (setViewValue cvt toUint64 v toIndex toNumeric le t).
Proof.
  intros Hm Hn w HG. apply resolve_DataView_spec; [done|apply buffers_evolve_refl|]. intros x Ev Ek.
  apply checked_index_spec; [done|done|apply buffers_evolve_refl|]. intros i w1 Hi HG1 He1 _.
  apply (safe_bind host w any); [done|done|done|]. intros y w2 _ HG2 _ He2.
  apply has_address_spec; [done|done|]. intros x1 a Ev1 Ea1. eapply view_access_spec; eauto. intros b j Hin. cbv beta iota.
  eapply wrote_post; [done|done|now apply setValueInBuffer_spec|done].
Qed.

End Host.
End TypedArraySafety.
