(* ===== verification/TypedArrayCopies.v ===== *)
(** The builtins of typed arrays that make or copy many elements are safe: the
    constructor with all of its arguments, [copyWithin], [set], [subarray],
    [slice], [fill], [reverse], [with] and [at]. *)
From Stdlib Require Import ZArith Lia Bool.
From stdpp Require Import base numbers list option decidable gmap.
From S2P Require Import Prelude Effects Double Float16 Value ArrayBuffer BufferInvariant BufferSafety BufferBuiltins TypedArray.
From S2P Require Import TypedArraySafety.

(** * Indexes as doubles *)
Module IntegerDoubles.
Import Buffers TypedArrays RelativeFacts.

Lemma r_zero : rep 0 0.
Proof. split; [apply rep_zero|done]. Qed.
Lemma r_min a b m n : rep a m -> rep b n -> rep (std_min a b) (Z.min m n).
Proof.
  intros Ha Hb. unfold std_min. rewrite (r_flt b a n m Hb Ha). destruct (n <? m) eqn:E; Zbool.
  - now rewrite Z.min_r by lia.
  - now rewrite Z.min_l by lia.
Qed.
Lemma r_max a b m n : rep a m -> rep b n -> rep (std_max a b) (Z.max m n).
Proof.
  intros Ha Hb. unfold std_max. rewrite (r_flt a b m n Ha Hb). destruct (m <? n) eqn:E; Zbool.
  - now rewrite Z.max_r by lia.
  - now rewrite Z.max_l by lia.
Qed.
Lemma r_cast_size_t a n : rep a n -> 0 <= n < 2 ^ 64 -> cast_size_t a = Some n.
Proof. intros [Ra _]. now apply rep_cast_size_t. Qed.

Lemma std_max_u64 a b : in_u 64 a -> in_u 64 b -> in_u 64 (std_max a b).
Proof. intros. unfold std_max. now destruct (flt a b). Qed.
Lemma std_min_u64 a b : in_u 64 a -> in_u 64 b -> in_u 64 (std_min a b).
Proof. intros. unfold std_min. now destruct (flt b a). Qed.
Lemma relativeIndex_spec r L : integral r -> 0 <= L <= 2 ^ 32 ->
  rep (relativeIndex r (of_Z L)) (relative_index r L) /\ 0 <= relative_index r L <= L.
Proof.
  intros Hr HL. pose proof (r_of_Z L ltac:(lia)) as [RL UL]. destruct (relative_spec r (of_Z L) L Hr RL HL) as [R B].
  split; [|done]. unfold relativeIndex. destruct (is_inf r && sign_bit r) eqn:E.
  - apply andb_true_iff in E as [E1 E2]. unfold relative_index. rewrite E1, E2. apply r_zero.
  - split; [done|]. unfold relative. destruct Hr as [U _].
    destruct (flt r 0); [apply std_max_u64; [now apply fadd_u64|done]|now apply std_min_u64].
Qed.
End IntegerDoubles.

(** * New buffers and clones *)
Module TypedArrayCopies.
Import Effects WP Buffers Wiring Notified Invariant Steps RelativeFacts BufferSpecs BufferBuiltins TypedArrays ElementFacts IndexFacts
  TypedArraySafety IntegerDoubles.

Section Host.
Context (host null_when_empty : bool) (cvt toUint64 : Z -> Z) (cvt_int : forall d, in_s 32 (cvt d)).
Let Base := Base host.
Let Good := Good host.
Let safe {A} := @safe host A.
Let post {A} := @post host A.

(** A buffer of [n] bytes. *)
Definition has_bytes (n : Z) (b : nat) (w : World) : Prop :=
  is_Some (buffers w !! b) /\ isDetachedBuffer w b = false /\ byteLength w b = n.
Lemma has_bytes_range n b w i m : has_bytes n b w -> 0 <= i -> 0 < m -> i + m <= n -> in_range w b i m.
Proof. intros (H1 & H2 & H3). unfold in_range. rewrite H3. auto. Qed.

(** Ranges survive where no memory is changed. *)
Record undisturbed (w w' : World) : Prop := { un_evolves : evolves w w'; un_steady : steady w w' }.
Lemma undisturbed_refl w : undisturbed w w.
Proof. split; [apply buffers_evolve_refl|done]. Qed.
Lemma undisturbed_trans w1 w2 w3 : undisturbed w1 w2 -> undisturbed w2 w3 -> undisturbed w1 w3.
Proof.
  intros [E1 S1] [E2 S2]. split; [now apply (buffers_evolve_trans w1 w2)|]. apply (steady_trans w1 w2 w3); [|done|done].
  intros b [y Ey]. destruct (evolves_buffer w1 w2 b y E1 Ey) as (y' & -> & _). eauto.
Qed.
Lemma undisturbed_range w w' b i n : undisturbed w w' -> in_range w b i n -> in_range w' b i n.
Proof.
  intros [He Hs] (Hb & Hd & Hr). destruct (Hs b Hb) as (_ & E2 & E3). unfold in_range. rewrite E2, E3. split; [|done].
  destruct Hb as [y Ey]. destruct (evolves_buffer w w' b y He Ey) as (y' & -> & _). eauto.
Qed.
Lemma shape_undisturbed w w' : Good w -> same_shape w w' -> undisturbed w w'.
Proof.
  intros HG S. split; [now destruct (shape_good host w w' HG S)|]. intros b _. destruct (shape_buffer w w' b S) as (-> & -> & ->). done.
Qed.

Lemma new_buffer_spec w0 n w : Good w -> evolves w0 w -> 0 <= n ->
  wp (allocateArrayBuffer null_when_empty (mret tt) n None true) (post w0 (fun b w' => has_bytes n b w' /\ undisturbed w w')) w.
Proof.
  intros HG He Hn. unfold allocateArrayBuffer. apply wp_bind, wp_ret. cbv beta iota.
  apply (throw_if_spec host); [done|done|]. intros Hlt. Zbool.
  eapply wp_mono; [apply (allocate_new host w (createDefaultNonSharedBackingStore null_when_empty n) false n HG)|].
  - intros w1 _ HB1. apply createDefaultNonSharedBackingStore_spec; auto; lia.
  - intros [b|e] w1 (HG1 & He1 & H); [|now apply (post_throw host); [|apply (buffers_evolve_trans w0 w)]].
    destruct H as (N1 & N2 & N3 & y & N4 & _ & _ & N5). split; [done|]. split; [now apply (buffers_evolve_trans w0 w)|].
    split; [|now split]. split_and!; [eauto|done|done].
Qed.

(** Cloning a range of a buffer. *)
Lemma clone_spec w0 src i n w : Good w -> evolves w0 w -> 0 <= n -> (0 < n -> in_range w src i n) ->
  wp (cloneArrayBuffer null_when_empty (mret tt) src i n) (post w0 (fun b w' => has_bytes n b w' /\ undisturbed w w')) w.
Proof.
  intros HG He Hn Hr. unfold cloneArrayBuffer. apply wp_bind. eapply wp_mono; [now apply (new_buffer_spec w0 n w)|].
  intros [b|e] w1 (HG1 & He1 & H); [|now apply (post_throw host)]. destruct H as [Hb Hu].
  apply (throwTypeErrorIfDetached_spec host); [done|done|]. intros Hd. apply wp_bind, wp_gets_id. cbv beta iota.
  destruct (decide (n = 0)) as [->|].
  - apply wp_bind, wp_bind. eapply wp_eq; [reflexivity|]. cbv beta iota. apply wp_bind, wp_gets_id. cbv beta iota.
    eapply wp_eq; [reflexivity|]. cbv beta iota. now apply (post_ret host).
  - specialize (Hr ltac:(lia)). pose proof (undisturbed_range w w1 src i n Hu Hr) as Hr1.
    pose proof (in_range_data host w1 src i n HG1 Hr1) as Hh. destruct Hr1 as (_ & _ & Hi & _). pose proof Hb as (B1 & B2 & B3).
    apply wp_bind. eapply wp_mono; [apply (fillData_spec host w0 b (data w1 src) i n w1 HG1 He1 Hh); lia|].
    intros r w2 (HG2 & He2 & He12 & -> & Eb & Es & Ei). cbv beta iota.
    assert (Hm : forall c, data w2 c = data w1 c /\ isDetachedBuffer w2 c = isDetachedBuffer w1 c /\ byteLength w2 c = byteLength w1 c).
    { intros c. unfold data, isDetachedBuffer, byteLength, backingStore, the_store. rewrite Eb, Es. destruct (buffers w1 !! c) as [y|]; [|done].
      destruct (m_backingStore y) as [s|]; [|done]. destruct (stores w1 !! s) as [x|]; [|done]. cbn.
      unfold store_data, store_byteLength, store_info. now rewrite Ei. }
    apply (post_ret host); [done|done|]. split.
    + unfold has_bytes. destruct (Hm b) as (_ & -> & ->). now rewrite Eb.
    + apply (undisturbed_trans w w1); [done|]. split; [done|]. intros c _. apply Hm.
Qed.

(** ** Copies of elements *)
Lemma copy_element_spec w0 w src i st le dst j t : Good w0 -> same_shape w0 w ->
  in_range w0 src i (type_elementSize st) -> in_range w0 dst j (type_elementSize t) ->
  wp (value ← getValueFromBuffer src i st le; setValueInBuffer cvt toUint64 dst j t (numeric_value cvt value) true) (wrote w0) w.
Proof.
  intros HG S Hs Hd. destruct (shape_good host w0 w HG S) as [HGw _]. apply wp_bind.
  destruct (getValueFromBuffer_spec host w src i st le HGw (in_range_shape _ _ _ _ _ S Hs)) as [x E]. eapply wp_eq; [exact E|]. cbv beta iota.
  eapply wp_mono; [apply (setValueInBuffer_spec host cvt toUint64 w dst j t _ true HGw (in_range_shape _ _ _ _ _ S Hd))|].
  intros r w' S'. now apply (same_shape_trans w0 w).
Qed.
Lemma sub_range w b i n j m : in_range w b i n -> i <= j -> 0 < m -> j + m <= i + n -> in_range w b j m.
Proof. intros (H1 & H2 & H3 & H4 & H5) Hj Hm Hn. split_and!; try done; lia. Qed.
(** [n] elements of two ranges. *)
Lemma copy_elements_spec w src i st dst j t n : Good w -> 0 <= n ->
  (0 < n -> in_range w src i (n * type_elementSize st)) -> (0 < n -> in_range w dst j (n * type_elementSize t)) ->
  wp (for_from (Z.to_nat n) 0 (fun k =>
        value ← getValueFromBuffer src (i + k * type_elementSize st) st true;
        setValueInBuffer cvt toUint64 dst (j + k * type_elementSize t) t (numeric_value cvt value) true)) (wrote w) w.
Proof.
  intros HG Hn Hs Hd. apply (for_from_writes w _ 0 _ 0 n); [lia|lia| |apply same_shape_refl].
  intros k u Hk Su. specialize (Hs ltac:(lia)). specialize (Hd ltac:(lia)).
  pose proof (elementSize_range st). pose proof (elementSize_range t).
  apply copy_element_spec; [done|done|eapply sub_range; [exact Hs|..]; nia|eapply sub_range; [exact Hd|..]; nia].
Qed.
Lemma wp_wrote_bind {A} w0 w (m : MU World unit) (k : MU World A) P : Good w -> evolves w0 w -> wp m (wrote w) w ->
  (forall w', same_shape w w' -> Good w' -> evolves w w' -> evolves w0 w' -> wp k (post w0 P) w') ->
  wp (m;; k) (post w0 P) w.
Proof.
  intros HG He Hm Hk. apply wp_bind. eapply wp_mono; [exact Hm|]. intros [[]|e] w' S; destruct (shape_good host w w' HG S) as [HG' He'].
  - apply Hk; [done|done|done|]. now apply (buffers_evolve_trans w0 w).
  - apply (post_throw host); [done|]. now apply (buffers_evolve_trans w0 w).
Qed.

(** ** The constructor *)
Lemma typeNumber_inj t u : (typeNumber t =? typeNumber u)%nat = true -> t = u.
Proof. now destruct t, u. Qed.
(** The bytes of a typed array. *)
Lemma array_range w v x b t n : Good w -> views w !! v = Some x -> m_buffer x = Some b -> v_kind x = TypedArray t ->
  0 < n <= m_arrayLength x -> in_range w b (m_byteOffset x) (n * type_elementSize t).
Proof.
  intros HG Ev Eb Ek Hn. pose proof (elementSize_range t) as Hs.
  pose proof (element_range host w v x b t (n - 1) HG Ev Eb Ek ltac:(lia)) as Hr.
  destruct (view_range host w v x b 0 (n * type_elementSize t) HG Ev Eb) as [H _]; [lia|nia|nia|]. now rewrite Z.add_0_r in H.
Qed.

(** Giving a new view the buffer that was made for it. *)
Lemma connect_made w0 v t data n w : Good w -> evolves w0 w -> views w0 !! v = None -> views w !! v = Some (fresh_view (TypedArray t)) ->
  0 <= n -> has_bytes (n * type_elementSize t) data w ->
  wp (modify (setBuffer v (Some data) 0 (n * type_elementSize t) n false)) (post w0 (fun _ => connected_view t v)) w.
Proof.
  intros HG He Hno Ev Hn ([y Ey] & _ & Hl). apply wp_modify.
  destruct (setBuffer_post host w0 w v (TypedArray t) data y 0 (n * type_elementSize t) n false) as (HG2 & He2 & x & Hx); try done.
  - now apply (fits_new host).
  - split; [done|]. split; [done|]. exists x, data. done.
Qed.
Lemma from_typed_array_spec w0 t v src w : Good w -> evolves w0 w -> views w0 !! v = None ->
  views w !! v = Some (fresh_view (TypedArray t)) ->
  wp (initializeTypedArrayFromTypedArray cvt toUint64 null_when_empty t v src) (post w0 (fun _ => connected_view t v)) w.
Proof.
  intros HG He Hno Ev. unfold initializeTypedArrayFromTypedArray.
  apply (resolve_typed_spec host); [done|done|]. intros st sb x Ex Ek Eb. cbv beta iota.
  apply (throwTypeErrorIfDetached_spec host); [done|done|]. intros Hd.
  apply (validate_view_spec host); [done|done|]. intros st' sb' x' _ _ _ _.
  apply wp_bind, wp_gets_id. cbv beta iota zeta.
  destruct (read_view w src x Ex) as (-> & _ & -> & _). destruct (view_limits host w src x sb HG Ex Eb) as (L1 & _ & L3 & _).
  unfold maxArrayBufferSize in L1. pose proof (elementSize_range t) as Hs. pose proof (elementSize_range st) as Hss.
  rewrite (wrapu_id 64) by (unfold in_u; nia). rewrite (Z.mul_comm (type_elementSize t)).
  assert (Hsrc : 0 < m_arrayLength x -> in_range w sb (m_byteOffset x) (m_arrayLength x * type_elementSize st)).
  { intros H. apply (array_range w src x sb st); try done; lia. }
  apply wp_bind. eapply wp_mono with (Q := post w0 (fun b w' => has_bytes (m_arrayLength x * type_elementSize t) b w' /\ evolves w w')).
  2:{ intros [b|e] w' (HG' & He' & H); [|now apply (post_throw host)]. destruct H as [Hb Hw]. apply connect_made; try done; [|lia].
      now apply (fresh_stays w). }
  destruct ((typeNumber t =? typeNumber st)%nat) eqn:Et.
  - apply typeNumber_inj in Et as <-.
    eapply wp_mono; [apply (clone_spec w0 sb (m_byteOffset x) (m_arrayLength x * type_elementSize t) w HG He); [nia|]|].
    + intros H. apply Hsrc. nia.
    + intros [b|e] w' (HG' & He' & H); [|now apply (post_throw host)]. split; [done|]. split; [done|]. destruct H as [H1 H2]. split; [done|apply H2].
  - apply wp_bind. eapply wp_mono; [apply (new_buffer_spec w0 (m_arrayLength x * type_elementSize t) w HG He); nia|].
    intros [b|e] w1 (HG1 & He1 & H); [|now apply (post_throw host)]. destruct H as [Hb Hu].
    apply (throwTypeErrorIfDetached_spec host); [done|done|]. intros _. apply wp_wrote_bind; [done|done| |].
    + apply (copy_elements_spec w1 sb (m_byteOffset x) st b 0 t); [done|lia| |].
      * intros H. apply (undisturbed_range w); auto.
      * intros H. apply (has_bytes_range (m_arrayLength x * type_elementSize t)); [done|lia|nia|lia].
    + intros w2 S HG2 He12 He2. apply (post_ret host); [done|done|]. split.
      * unfold has_bytes in *. destruct (shape_buffer w1 w2 b S) as (-> & _ & ->). now rewrite (sh_buffers _ _ S).
      * apply (buffers_evolve_trans w w1); [apply Hu|done].
Qed.

(** Elements that are converted one after the other. *)
Definition length_arg (n : Z) : Prop := 0 <= n < 2 ^ 53.
Lemma store_elements_spec v k n (element : Z -> MU World ElementArg) : 0 <= k ->
  (forall i, k <= i -> safe (arg_ok host) (element i)) ->
  safe any (for_from n k (fun i => value ← element i; setIndexedPropertyThrowsException cvt toUint64 v i value)).
Proof.
  intros Hk He. apply (safe_for host). intros i Hi. apply (safe_seq host (arg_ok host)); [apply He; lia|].
  intros value Hv. apply (safe_setThrows host cvt toUint64 cvt_int); [lia|done].
Qed.
Lemma allocate_elements_spec w0 t v n k w : Good w -> evolves w0 w -> views w0 !! v = None -> views w !! v = Some (fresh_view (TypedArray t)) ->
  length_arg n -> safe any k -> wp (allocate_elements null_when_empty t v n;; k) (post w0 (fun (_ : unit) _ => True)) w.
Proof.
  intros HG He Hno Ev Hn Hk. unfold length_arg in Hn. pose proof (elementSize_range t). apply wp_bind. unfold allocate_elements. cbv zeta.
  eapply wp_mono; [apply (connect_new_spec host null_when_empty w0 v t n w HG He Hno Ev); nia|].
  intros [[]|e] w' (HG' & He' & H'); [|now apply (post_throw host)].
  eapply (wp_post_weaken host); [exact He'| |now apply Hk]. done.
Qed.

Definition firstArg_ok (a : FirstArgument) : Prop :=
  match a with
  | NoArgument | TypedArrayArgument _ => True
  | NonObject toIndex => safe is_index toIndex
  | ArrayBufferArgument _ byteOffset length =>
      safe is_index byteOffset /\ match length with Some f => safe is_index f | None => True end
  | IterableArgument f => safe (fun l => Z.of_nat (length l) < 2 ^ 53 /\ forall k x, l !! k = Some x -> arg_ok host x) f
  | ArrayLikeArgument length element => safe length_arg length /\ forall i, 0 <= i -> safe (arg_ok host) (element i)
  end.
(** The object that is given is a buffer. *)
Definition firstArg_is (a : FirstArgument) (w : World) : Prop :=
  match a with ArrayBufferArgument b _ _ => is_Some (buffers w !! b) | _ => True end.

Lemma TypedArrayConstructor_spec t proto firstArg w : safe any proto -> firstArg_ok firstArg -> Good w -> firstArg_is firstArg w ->
  wp (builtinTypedArrayConstructor cvt toUint64 null_when_empty t proto firstArg) (post w (fun _ _ => True)) w.
Proof.
  intros Hp Ha HG Hb. destruct firstArg as [|toIndex|src|b off len|f|len element]; unfold builtinTypedArrayConstructor.
  1: now apply (safe_allocateTypedArray host).
  1: { apply (checked_index_spec host); [done|done|apply buffers_evolve_refl|]. intros n w' Hn HG' He' _.
    eapply (wp_post_weaken host); [exact He'| |now apply (safe_allocateTypedArray host)]. done. }
  all: apply wp_bind; (eapply wp_mono; [apply (allocate_bare_spec host null_when_empty w t proto w Hp HG), buffers_evolve_refl|]);
    intros [v|e] w2 (HG2 & He2 & H); [|now apply (post_throw host)]; destruct H as (w1 & He1 & _ & Hno & He12 & Ev); cbv beta iota;
    apply wp_bind; eapply wp_mono with (Q := post w1 (fun _ _ => True));
      [|intros [u|e] w3 (HG3 & He3 & _); [apply (post_ret host)|apply (post_throw host)]; try done; now apply (buffers_evolve_trans w w1)].
  - eapply (wp_post_weaken host); [apply buffers_evolve_refl| |now apply (from_typed_array_spec w1 t v src w2)]. done.
  - cbn in Hb. destruct Ha as [H1 H2]. destruct Hb as [y Ey]. destruct (evolves_buffer w w2 b y He2 Ey) as (y2 & Ey2 & _).
    apply wp_bind, wp_gets_id. cbv beta iota. apply wp_bind. eapply wp_certain; [exact Ey2|]. cbv beta iota.
    eapply (wp_post_weaken host); [apply buffers_evolve_refl| |apply (over_buffer_spec host w1 t v b off len w2); eauto]. done.
  - apply (safe_bind host w1 (fun l => Z.of_nat (length l) < 2 ^ 53 /\ forall k x, l !! k = Some x -> arg_ok host x)); [done|done|done|].
    intros l w3 [Hl Hx] HG3 He3 He13. unfold initializeTypedArrayFromList.
    apply (allocate_elements_spec w1 t v); [done|done|done|now apply (fresh_stays w2)|unfold length_arg; lia|].
    apply (safe_for host). intros i Hi. destruct (lookup_lt_is_Some_2 l (Z.to_nat i)) as [x Ex]; [lia|].
    apply (safe_seq host (arg_ok host)).
    + intros u HGu. eapply wp_certain; [exact Ex|]. split; [done|]. split; [apply buffers_evolve_refl|now apply (Hx (Z.to_nat i))].
    + intros value Hv. apply (safe_setThrows host cvt toUint64 cvt_int); [lia|done].
  - destruct Ha as [H1 H2]. unfold initializeTypedArrayFromArrayLike.
    apply (safe_bind host w1 length_arg); [done|done|done|]. intros n w3 Hn HG3 He3 He13.
    apply (allocate_elements_spec w1 t v); [done|done|done|now apply (fresh_stays w2)|done|].
    apply store_elements_spec; [done|]. intros i Hi. now apply H2.
Qed.

(** ** Moving bytes *)
Lemma range_bound w b i n : Good w -> in_range w b i n -> 0 <= i /\ 0 < n /\ i + n < maxArrayBufferSize.
Proof. intros HG (_ & _ & H1 & H2 & H3). destruct (data_holds host w b) as [_ HL]; [apply HG|]. lia. Qed.
Lemma copy_byte_spec w0 w src dst i j n m k l : Good w0 -> same_shape w0 w -> in_range w0 src i n -> in_range w0 dst j m ->
  i <= k < i + n -> j <= l < j + m -> wp (copy_byte cvt toUint64 src dst k l) (wrote w0) w.
Proof.
  intros HG S Hs Hd Hk Hl. change (type_elementSize Uint8) with 1 in *.
  apply (copy_element_spec w0 w src k Uint8 true dst l Uint8); [done|done|eapply sub_range; [exact Hs|..]|eapply sub_range; [exact Hd|..]];
    change (type_elementSize Uint8) with 1; lia.
Qed.
Lemma move_bytes_spec w b from to n : Good w -> 0 <= n -> (0 < n -> in_range w b from n) -> (0 < n -> in_range w b to n) ->
  0 <= from < 2 ^ 60 -> 0 <= to < 2 ^ 60 -> n < 2 ^ 60 ->
  wp (if (from <? to) && (to <? u64 (from + n)) then
        for_from (Z.to_nat n) 0 (fun i => copy_byte cvt toUint64 b b (u64 (u64 (u64 (from + n) - 1) - i)) (u64 (u64 (u64 (to + n) - 1) - i)))
      else for_from (Z.to_nat n) 0 (fun i => copy_byte cvt toUint64 b b (u64 (from + i)) (u64 (to + i)))) (wrote w) w.
Proof.
  intros HG Hn Hf Ht Bf Bt Bn.
  assert (Hu : forall z, 0 <= z < 2 ^ 64 -> u64 z = z) by (intros z Hz; now apply wrapu_id).
  apply wp_if; intros _; (apply (for_from_writes w _ 0 _ 0 n); [lia|lia| |apply same_shape_refl]); intros k u Hk Su;
    specialize (Hf ltac:(lia)); specialize (Ht ltac:(lia)); rewrite ?(Hu (from + n)), ?(Hu (to + n)), ?(Hu (from + n - 1)), ?(Hu (to + n - 1)), !Hu by lia;
    apply (copy_byte_spec w u b b from to n n); try done; lia.
Qed.

Lemma relative_bounds L r : 0 <= L < maxArrayBufferSize -> integral r ->
  exists i, rep (relativeIndex r (of_Z L)) i /\ 0 <= i <= L.
Proof.
  unfold maxArrayBufferSize. intros HL Hr. destruct (relativeIndex_spec r L Hr ltac:(lia)). eauto.
Qed.
Lemma safe_end end_ L : Z.abs L <= 2 ^ 53 -> integral_end host end_ -> safe integral match end_ with Some f => f | None => mret (of_Z L) end.
Proof.
  intros HL He. destruct end_ as [m|]; [done|]. apply (safe_ret host). split; [apply of_Z_u64|right]. exists L. now apply rep_of_Z.
Qed.
(** An argument that is an index relative to a length. *)
Lemma relative_arg {A} w0 (k : Z -> MU World A) P L m w : safe integral m -> 0 <= L < maxArrayBufferSize -> Good w -> evolves w0 w ->
  (forall d i w', rep (relativeIndex d (of_Z L)) i -> 0 <= i <= L -> integral d -> Good w' -> evolves w w' -> evolves w0 w' -> wp (k d) (post w0 P) w') ->
  wp (r ← m; k r) (post w0 P) w.
Proof.
  intros Hm HL HG He Hk. apply (safe_bind host w0 integral); [done|done|done|]. intros r w' Hr HG' He' He0.
  destruct (relative_bounds L r HL Hr) as (i & Hi & Bi). now apply (Hk r i).
Qed.

Lemma copyWithin_bytes w0 this t b x T S C dT dS dC w : Good w -> evolves w0 w ->
  views w !! this = Some x -> m_buffer x = Some b -> v_kind x = TypedArray t ->
  rep dT T -> rep dS S -> rep dC C -> 0 <= T < maxArrayBufferSize -> 0 <= S < maxArrayBufferSize -> Z.abs C <= maxArrayBufferSize ->
  wp (p ← validateTypedArray this true;
      w ← gets id;
      let len := of_Z (arrayLength w this) in
      let count := std_max 0 (std_min (std_min dC (fsub len dS)) (fsub len dT)) in
      let elementSize := of_Z (type_elementSize t) in
      let byteOffset := of_Z (view_byteOffset w this) in
      toByteIndex ← certain (cast_size_t (fadd (fmul dT elementSize) byteOffset));
      fromByteIndex ← certain (cast_size_t (fadd (fmul dS elementSize) byteOffset));
      countBytes ← certain (cast_size_t (fmul count elementSize));
      if (fromByteIndex <? toByteIndex) && (toByteIndex <? u64 (fromByteIndex + countBytes)) then
        for_from (Z.to_nat countBytes) 0 (fun i => copy_byte cvt toUint64 b b (u64 (u64 (u64 (fromByteIndex + countBytes) - 1) - i))
          (u64 (u64 (u64 (toByteIndex + countBytes) - 1) - i)))
      else
        for_from (Z.to_nat countBytes) 0 (fun i => copy_byte cvt toUint64 b b (u64 (fromByteIndex + i)) (u64 (toByteIndex + i))))
    (post w0 (fun _ _ => True)) w.
Proof.
  intros HG He Ev Eb Ek HT HS HC BT BS BC. apply (validate_view_spec host); [done|done|]. intros t' b' x' Ev' _ _ _. cbv beta iota.
  assert (x' = x) as -> by congruence. clear Ev'. apply wp_bind, wp_gets_id. cbv beta iota zeta.
  destruct (read_view w this x Ev) as (-> & _ & -> & _). destruct (view_limits host w this x b HG Ev Eb) as (L1 & L2 & L3 & _).
  unfold maxArrayBufferSize in *. pose proof (elementSize_range t) as Hs. set (L := m_arrayLength x) in *. set (off := m_byteOffset x) in *.
  pose proof (r_of_Z L ltac:(lia)) as RL.
  pose proof (r_max _ _ _ _ r_zero (r_min _ _ _ _ (r_min _ _ _ _ HC (r_sub _ _ _ _ RL HS ltac:(lia))) (r_sub _ _ _ _ RL HT ltac:(lia)))) as Rn.
  set (n := Z.max 0 _) in Rn. set (dn := std_max 0 _) in *. clearbody dn.
  apply wp_bind. eapply wp_certain; [apply (position_exact dT T); try apply HT; nia|]. cbv beta iota.
  apply wp_bind. eapply wp_certain; [apply (position_exact dS S); try apply HS; nia|]. cbv beta iota.
  apply wp_bind. eapply wp_certain; [apply (rep_cast_size_t _ (n * type_elementSize t)); [apply rep_fmul; [apply Rn|apply rep_of_Z; lia|nia]|nia]|].
  cbv beta iota.
  assert (Hr : forall i, 0 <= i -> i + n <= L -> 0 < n * type_elementSize t -> in_range w b (i * type_elementSize t + off) (n * type_elementSize t)).
  { intros i Hi Hin Hn. pose proof (array_range w this x b t L HG Ev Eb Ek ltac:(unfold L in *; nia)) as HR.
    eapply sub_range; [exact HR|..]; unfold off; nia. }
  eapply (wrote_post host); [done|done| |done].
  assert (Hlim : n <= 210000000) by lia.
  apply move_bytes_spec; try done; try nia; intros H; apply Hr; try done; try lia; nia.
Qed.

Lemma safe_copyWithin target start end_ this : safe integral target -> safe integral start -> integral_end host end_ ->
  safe any (builtinTypedArrayCopyWithin cvt toUint64 target start end_ this).
Proof.
  intros H1 H2 H3 w HG. unfold builtinTypedArrayCopyWithin. apply (validate_view_spec host); [done|apply buffers_evolve_refl|].
  intros t b x Ev Ek Eb _. cbv beta iota. apply wp_bind, wp_gets_id. cbv beta iota zeta.
  destruct (read_view w this x Ev) as (-> & _). destruct (view_limits host w this x b HG Ev Eb) as (L1 & _).
  apply (relative_arg w _ _ (m_arrayLength x)); [done|done|done|apply buffers_evolve_refl|]. intros rT T w1 RT BT IT HG1 He1 _.
  apply (relative_arg w _ _ (m_arrayLength x)); [done|done|done|done|]. intros rS S w2 RS BS IS HG2 _ He2.
  unfold maxArrayBufferSize in L1.
  apply (relative_arg w _ _ (m_arrayLength x)); [now apply safe_end; [lia|]|done|done|done|]. intros rE E w3 RE BE IE HG3 _ He3.
  pose proof (r_of_Z (m_arrayLength x) ltac:(lia)) as RL.
  pose proof (r_min _ _ _ _ (r_sub _ _ _ _ RE RS ltac:(lia)) (r_sub _ _ _ _ RL RT ltac:(lia))) as RC.
  apply wp_bind. eapply wp_mono with (Q := post w (fun _ _ => True)).
  - apply wp_if; intros _; [|now apply (post_ret host)].
    destruct (kept_view host w w3 this x b HG3 He3 Ev Eb) as (x3 & Ev3 & Eb3 & Ek3).
    eapply copyWithin_bytes; try eassumption; unfold maxArrayBufferSize; try lia. congruence.
  - intros [[]|e] w4 (HG4 & He4 & _); [now apply (post_ret host)|now apply (post_throw host)].
Qed.

(** ** Setting many elements *)
Lemma offset_spec d : integral d -> flt d 0 = false -> feq d INF = false -> exists z, rep d z /\ 0 <= z.
Proof.
  intros [U [Hi|[z Hz]]] H0 H1.
  - exfalso. unfold is_inf in Hi. Zbool. assert (Hn : is_nan d = false) by (unfold is_nan; apply Z.ltb_ge; lia).
    unfold flt in H0. unfold feq in H1. rewrite Hn in H0, H1. change (is_nan 0) with false in H0. change (is_nan INF) with false in H1.
    change (key 0) with 0 in H0. change (key INF) with INF in H1. cbn [negb andb] in H0, H1. Zbool. unfold key in *.
    destruct (sign_bit d); [|congruence]. rewrite Hi in H0. unfold INF in H0. lia.
  - exists z. split; [now split|]. rewrite (rep_flt d 0 z 0 Hz rep_zero) in H0. Zbool. lia.
Qed.

Lemma copy_block_spec w src i dst j n : Good w -> 0 <= n -> (0 < n -> in_range w src i n) -> (0 < n -> in_range w dst j n) ->
  wp (bytes ← load_bytes (plus (data w src) i) n; store_bytes (plus (data w dst) j) bytes) (wrote w) w.
Proof.
  intros HG Hn Hs Hd. destruct (decide (n = 0)) as [->|].
  - apply wp_bind. eapply wp_eq; [reflexivity|]. cbv beta iota. eapply wp_eq; [reflexivity|]. apply same_shape_refl.
  - specialize (Hs ltac:(lia)). specialize (Hd ltac:(lia)). apply wp_bind.
    destruct (load_bytes_ok w (data w src) i n (in_range_data host w src i n HG Hs)) as (bytes & E & L); [apply Hs|lia|].
    eapply wp_eq; [exact E|]. cbv beta iota. pose proof (in_range_data host w dst j n HG Hd) as Hh. rewrite <- L in Hh.
    destruct (store_shape w (data w dst) j bytes Hh) as (w' & E' & S); [apply Hd|]. eapply wp_eq; [exact E'|exact S].
Qed.

(** The source, or a copy of it when it is the target. *)
Definition set_source (srcBuffer targetBuffer : nat) (i n : Z) : MU World (nat * Z) :=
  if decide (srcBuffer = targetBuffer) then b ← cloneArrayBuffer null_when_empty (mret tt) srcBuffer i n; mret (b, 0)
  else mret (srcBuffer, i).
Lemma set_source_spec {A} w0 (k : nat * Z -> MU World A) P src tgt i n m w : Good w -> evolves w0 w -> 0 <= m <= n -> 0 <= i ->
  (0 < n -> in_range w src i n) ->
  (forall b j w', undisturbed w w' -> Good w' -> evolves w0 w' -> 0 <= j <= i -> (0 < m -> in_range w' b j m) -> wp (k (b, j)) (post w0 P) w') ->
  wp (p ← set_source src tgt i n; k p) (post w0 P) w.
Proof.
  intros HG He Hm Hi Hr Hk. unfold set_source. case_decide.
  - apply wp_bind, wp_bind. eapply wp_mono; [apply (clone_spec w0 src i n w HG He ltac:(lia) Hr)|].
    intros [b|e] w' (HG' & He' & H'); [|now apply (post_throw host)]. destruct H' as [Hb Hu]. apply wp_ret.
    apply Hk; [done|done|done|lia|]. intros Hpos. apply (has_bytes_range n); [done|lia|lia|lia].
  - apply wp_bind, wp_ret. apply Hk; [apply undisturbed_refl|done|done|lia|]. intros Hpos. eapply sub_range; [apply Hr|..]; lia.
Qed.

Lemma safe_setTypedArrayFromTypedArray target d source : integral d -> flt d 0 = false ->
  safe any (setTypedArrayFromTypedArray cvt toUint64 null_when_empty target d source).
Proof.
  intros Hd Hd0 w HG. unfold setTypedArrayFromTypedArray.
  apply (validate_view_spec host); [done|apply buffers_evolve_refl|]. intros t tb x Ev Ek Eb _. cbv beta iota. apply wp_bind, wp_gets_id. cbv beta iota zeta.
  apply (validate_view_spec host); [done|apply buffers_evolve_refl|]. intros st sb y Fv Fk Fb _. cbv beta iota.
  destruct (read_view w target x Ev) as (-> & _ & -> & _). destruct (view_limits host w target x tb HG Ev Eb) as (L1 & _ & L3 & _).
  destruct (read_view w source y Fv) as (-> & -> & -> & _). destruct (view_limits host w source y sb HG Fv Fb) as (M1 & M2 & M3 & _).
  destruct (typed_facts host w source y sb HG Fv Fb) as [_ [_ _ [_ My] _ _]]. unfold elementSize in My. rewrite Fk in My.
  unfold maxArrayBufferSize in *. set (L := m_arrayLength x) in *. set (n := m_arrayLength y) in *.
  pose proof (elementSize_range t) as Ht. pose proof (elementSize_range st) as Hst.
  apply (throw_if_spec host); [done|apply buffers_evolve_refl|]. intros Hinf. destruct (offset_spec d Hd Hd0 Hinf) as (O & HO & BO).
  apply (throw_if_spec host); [done|apply buffers_evolve_refl|]. intros Hlen.
  apply (sum_bounded _ _ n O L (rep_of_Z n ltac:(lia)) (proj1 HO)) in Hlen; [|lia..].
  apply (throw_if_spec host); [done|apply buffers_evolve_refl|]. intros _.
  fold (set_source sb tb (m_byteOffset y) (m_byteLength y)).
  apply (set_source_spec w _ _ sb tb (m_byteOffset y) (m_byteLength y) (n * type_elementSize st)); [done|apply buffers_evolve_refl|nia|lia| |].
  { intros Hp. destruct (view_range host w source y sb 0 (m_byteLength y) HG Fv Fb) as [H _]; [lia|lia|lia|]. now rewrite Z.add_0_r in H. }
  intros b j w1 Hu HG1 He1 Hj Hr. cbv beta iota. apply wp_bind, wp_gets_id. cbv beta iota.
  assert (HT : 0 < n -> in_range w1 tb (O * type_elementSize t + m_byteOffset x) (n * type_elementSize t)).
  { intros Hn. apply (undisturbed_range w); [done|]. eapply sub_range; [apply (array_range w target x tb t L); try done; lia|..]; nia. }
  pose proof (r_of_Z (type_elementSize t) ltac:(lia)) as RS.
  assert (RT : rep (fadd (fmul d (of_Z (type_elementSize t))) (of_Z (m_byteOffset x))) (O * type_elementSize t + m_byteOffset x)).
  { apply r_add; [apply r_mul; [done|done|nia]|apply r_of_Z; lia|nia]. }
  pose proof (r_add _ _ _ _ RT (r_mul _ _ _ _ RS (r_of_Z n ltac:(lia)) ltac:(nia)) ltac:(nia)) as RL.
  apply wp_if; intros Et.
  - apply typeNumber_inj in Et as ->. apply wp_bind. eapply wp_certain; [apply (r_cast_size_t _ _ RT); nia|]. cbv beta iota.
    apply wp_bind. eapply wp_certain; [apply (r_cast_size_t _ (n * type_elementSize t)); [|nia]|].
    { replace (n * type_elementSize t) with (O * type_elementSize t + m_byteOffset x + type_elementSize t * n - (O * type_elementSize t + m_byteOffset x)) by lia.
      apply r_sub; [exact RL|exact RT|nia]. }
    cbv beta iota. eapply (wrote_post host); [done|done| |done]. apply copy_block_spec; [done|nia| |]; intros H; [apply Hr|apply HT]; nia.
  - apply wp_bind. eapply wp_certain; [apply (r_cast_size_t _ _ RT); nia|]. cbv beta iota.
    apply wp_bind. eapply wp_certain; [apply (r_cast_size_t _ _ RL); nia|]. cbv beta iota.
    replace (O * type_elementSize t + m_byteOffset x + type_elementSize t * n - (O * type_elementSize t + m_byteOffset x)) with (n * type_elementSize t) by lia.
    rewrite Z.div_mul by lia. eapply (wrote_post host); [done|done| |done].
    apply copy_elements_spec; [done|lia| |]; intros H; [apply Hr|apply HT]; nia.
Qed.

Lemma safe_setTypedArrayFromArrayLike target d length element : integral d -> flt d 0 = false ->
  safe length_arg length -> (forall i, 0 <= i -> safe (arg_ok host) (element i)) ->
  safe any (setTypedArrayFromArrayLike cvt toUint64 target d length element).
Proof.
  intros Hd Hd0 Hl He w HG. unfold setTypedArrayFromArrayLike.
  apply (validate_view_spec host); [done|apply buffers_evolve_refl|]. intros t tb x Ev Ek Eb _. apply wp_bind, wp_gets_id. cbv beta iota zeta.
  destruct (read_view w target x Ev) as (-> & _). destruct (view_limits host w target x tb HG Ev Eb) as (L1 & _). unfold maxArrayBufferSize in L1.
  apply (safe_bind host w length_arg); [done|done|apply buffers_evolve_refl|]. intros n w1 Hn HG1 He1 _. unfold length_arg in Hn.
  apply (throw_if_spec host); [done|done|]. intros Hinf. destruct (offset_spec d Hd Hd0 Hinf) as (O & HO & BO).
  apply (throw_if_spec host); [done|done|]. intros Hlen.
  apply (sum_bounded _ _ n O _ (rep_of_Z n ltac:(lia)) (proj1 HO)) in Hlen; [|lia..].
  apply wp_bind. eapply wp_certain; [apply (r_cast_size_t d O); [done|lia]|]. cbv beta iota.
  eapply (wp_post_weaken host); [exact He1|intros ? ? H; exact H|]. apply (safe_for host); [|done]. intros i Hi.
  apply (safe_seq host (arg_ok host)); [apply He; lia|]. intros value Hv.
  apply (safe_seq host any); [apply (safe_setIndexedProperty host cvt toUint64 cvt_int); [lia|done]|]. intros ? _. now apply (safe_ret host).
Qed.

Definition source_ok (s : SetSource) : Prop :=
  match s with
  | SourceTypedArray _ => True
  | SourceArrayLike length element => safe length_arg length /\ forall i, 0 <= i -> safe (arg_ok host) (element i)
  end.
Lemma safe_Set offset source this : safe integral offset -> source_ok source ->
  safe any (builtinTypedArraySet cvt toUint64 null_when_empty offset source this).
Proof.
  intros Ho Hs w HG. unfold builtinTypedArraySet. apply (validate_view_spec host); [done|apply buffers_evolve_refl|]. intros t b x _ _ _ _.
  apply (safe_bind host w integral); [done|done|apply buffers_evolve_refl|]. intros d w1 Hd HG1 He1 _.
  apply (throw_if_spec host); [done|done|]. intros Hd0.
  eapply (wp_post_weaken host); [exact He1|intros ? ? H; exact H|].
  destruct source as [source|length element]; [now apply safe_setTypedArrayFromTypedArray|].
  destruct Hs. now apply safe_setTypedArrayFromArrayLike.
Qed.

(** ** Arrays of other constructors *)
Lemma species_spec {A} w0 (k : nat -> MU World A) P construct length w : safe any construct -> Good w -> evolves w0 w ->
  (forall a t b x w', Good w' -> evolves w w' -> evolves w0 w' -> views w' !! a = Some x -> v_kind x = TypedArray t -> m_buffer x = Some b ->
     (forall d n, length = Some d -> rep d n -> n <= m_arrayLength x) -> wp (k a) (post w0 P) w') ->
  wp (a ← typedArraySpeciesCreate construct length; k a) (post w0 P) w.
Proof.
  intros Hc HG He Hk. apply wp_bind. unfold typedArraySpeciesCreate.
  apply wp_bind. eapply wp_mono; [now apply Hc|]. intros [a|e] w' (HG' & He' & _).
  2:{ apply (post_throw host); [done|]. now apply (buffers_evolve_trans w0 w). }
  assert (He0 : evolves w0 w') by now apply (buffers_evolve_trans w0 w).
  eapply wp_mono with (Q := post w0 (fun a' u => a' = a /\ wp (k a) (post w0 P) u)).
  - apply (validate_view_spec host); [done|done|]. intros t b x Ev Ek Eb _. apply wp_bind, wp_gets_id. cbv beta iota.
    apply (throw_if_spec host); [done|done|]. intros Hlen. apply (post_ret host); [done|done|]. split; [done|].
    apply (Hk a t b x w'); try done. intros d n -> Hd. destruct (read_view w' a x Ev) as (R & _). rewrite R in Hlen.
    destruct (view_limits host w' a x b HG' Ev Eb) as (L1 & _). unfold maxArrayBufferSize in L1.
    rewrite (r_flt _ _ _ _ (r_of_Z (m_arrayLength x) ltac:(lia)) Hd) in Hlen. Zbool. lia.
  - intros [a'|e] u (HGu & Heu & H); [destruct H as [-> H]; exact H|now apply (post_throw host)].
Qed.

Lemma safe_species construct length : safe any construct -> safe any (typedArraySpeciesCreate construct length).
Proof.
  intros Hc. apply (safe_seq host any); [done|]. intros a _ w HG. apply (validate_view_spec host); [done|apply buffers_evolve_refl|].
  intros t b x Ev Ek Eb _. apply wp_bind, wp_gets_id. cbv beta iota.
  apply (throw_if_spec host); [done|apply buffers_evolve_refl|]. intros _. apply (post_ret host); [done|apply buffers_evolve_refl|done].
Qed.

Lemma safe_subarray start end_ construct this : safe integral start -> integral_end host end_ ->
  (forall b off n, safe any (construct b off n)) -> safe any (builtinTypedArraySubArray start end_ construct this).
Proof.
  intros Hs He Hc w HG. unfold builtinTypedArraySubArray.
  apply (resolve_typed_spec host); [done|apply buffers_evolve_refl|]. intros t b x Ev Ek Eb. cbv beta iota. apply wp_bind, wp_gets_id. cbv beta iota zeta.
  apply (safe_bind host w integral); [done|done|apply buffers_evolve_refl|]. intros r w1 Hr HG1 He1 _. apply wp_bind, wp_gets_id. cbv beta iota zeta.
  apply (safe_bind host w any); [|done|done|].
  - destruct end_ as [f|]; [|now apply (safe_ret host)]. apply (safe_seq host integral); [done|]. intros d _. now apply (safe_ret host).
  - intros n w2 _ HG2 _ He2. eapply (wp_post_weaken host); [exact He2|intros ? ? H; exact H|]. now apply safe_species.
Qed.

(** ** Slices *)
Lemma copy_into_spec w this t b x a u c y S n dS dn : Good w ->
  views w !! this = Some x -> m_buffer x = Some b -> v_kind x = TypedArray t ->
  views w !! a = Some y -> m_buffer y = Some c -> v_kind y = TypedArray u ->
  rep dS S -> rep dn n -> 0 <= S < maxArrayBufferSize -> 0 <= n -> (0 < n -> S + n <= m_arrayLength x) -> n <= m_arrayLength y ->
  wp (if (typeNumber t =? typeNumber u)%nat then
        srcByteIndex ← certain (cast_size_t (fadd (fmul dS (of_Z (type_elementSize t))) (of_Z (view_byteOffset w this))));
        n ← certain (cast_size_t (fmul dn (of_Z (type_elementSize t))));
        for_from (Z.to_nat n) 0 (fun i => copy_byte cvt toUint64 b c (srcByteIndex + i) (view_byteOffset w a + i))
      else
        first ← certain (cast_size_t dS);
        n ← certain (cast_size_t dn);
        for_from (Z.to_nat n) 0 (fun i =>
          kValue ← getIndexedPropertyValue cvt this (first + i);
          setIndexedPropertyThrowsException cvt toUint64 a i
            match kValue with Some x => PrimitiveArg (numeric_value cvt x) | None => PrimitiveArg undefined_value end))
    (post w (fun _ _ => True)) w.
Proof.
  intros HG Ev Eb Ek Fv Fb Fk RS Rn BS Bn Hn Hn'.
  destruct (view_limits host w this x b HG Ev Eb) as (L1 & _ & L3 & _). destruct (view_limits host w a y c HG Fv Fb) as (M1 & _ & M3 & _).
  unfold maxArrayBufferSize in *. pose proof (elementSize_range t) as Hs. pose proof (r_of_Z (type_elementSize t) ltac:(lia)) as Rs.
  apply wp_if; intros Et.
  - apply typeNumber_inj in Et as <-. destruct (read_view w this x Ev) as (_ & _ & -> & _). destruct (read_view w a y Fv) as (_ & _ & -> & _).
    apply wp_bind. eapply wp_certain; [apply (position_exact dS S); try apply RS; nia|]. cbv beta iota.
    apply wp_bind. eapply wp_certain; [apply (r_cast_size_t _ (n * type_elementSize t)); [apply r_mul; [done|done|nia]|nia]|]. cbv beta iota.
    eapply (wrote_post host); [done|apply buffers_evolve_refl| |done].
    apply (for_from_writes w _ 0 _ 0 (n * type_elementSize t)); [lia|lia| |apply same_shape_refl]. intros i v Hi Sv.
    assert (Hpos : 0 < n) by nia. specialize (Hn Hpos).
    pose proof (array_range w this x b t (m_arrayLength x) HG Ev Eb Ek ltac:(lia)) as HR.
    pose proof (array_range w a y c t (m_arrayLength y) HG Fv Fb Fk ltac:(lia)) as HW.
    apply (copy_byte_spec w v b c _ _ _ _ _ _ HG Sv HR HW); nia.
  - apply wp_bind. eapply wp_certain; [apply (r_cast_size_t _ S); [done|lia]|]. cbv beta iota.
    apply wp_bind. eapply wp_certain; [apply (r_cast_size_t _ n); [done|lia]|]. cbv beta iota.
    apply (safe_for host); [|done]. intros i Hi. apply (safe_seq host any); [apply (safe_getIndexedPropertyValue host cvt cvt_int); lia|].
    intros v _. apply (safe_setThrows host cvt toUint64 cvt_int); [lia|]. now destruct v.
Qed.

Lemma safe_typed_slice start end_ construct this : safe integral start -> integral_end host end_ ->
  (forall n, safe any (construct n)) -> safe any (builtinTypedArraySlice cvt toUint64 start end_ construct this).
Proof.
  intros H1 H2 Hc w HG. unfold builtinTypedArraySlice. apply (validate_view_spec host); [done|apply buffers_evolve_refl|].
  intros t b x Ev Ek Eb _. cbv beta iota. apply wp_bind, wp_gets_id. cbv beta iota zeta.
  destruct (read_view w this x Ev) as (-> & _). destruct (view_limits host w this x b HG Ev Eb) as (L1 & _).
  apply (relative_arg w _ _ (m_arrayLength x)); [done|done|done|apply buffers_evolve_refl|]. intros rS S w1 RS BS _ HG1 He1 _.
  unfold maxArrayBufferSize in L1.
  apply (relative_arg w _ _ (m_arrayLength x)); [now apply safe_end; [lia|]|done|done|done|]. intros rE E w2 RE BE _ HG2 _ He2.
  pose proof (r_max _ _ _ _ (r_sub _ _ _ _ RE RS ltac:(lia)) r_zero) as RC.
  apply species_spec; [apply Hc|done|done|]. intros a u c y w3 HG3 _ He3 Fv Fk Fb Hlen. specialize (Hlen _ _ eq_refl RC).
  apply wp_bind. eapply wp_mono with (Q := post w (fun _ _ => True)).
  2:{ intros [[]|e] w4 (HG4 & He4 & _); [now apply (post_ret host)|now apply (post_throw host)]. }
  apply wp_if; intros _; [|now apply (post_ret host)].
  destruct (kept_view host w w3 this x b HG3 He3 Ev Eb) as (x3 & Ev3 & Eb3 & Ek3). rewrite Ek in Ek3.
  apply (validate_view_spec host); [done|done|]. intros t' b' x' _ _ _ _. apply wp_bind, wp_gets_id. cbv beta iota zeta.
  destruct (read_view w3 this x3 Ev3) as (-> & _). destruct (view_limits host w3 this x3 b HG3 Ev3 Eb3) as (L3 & _). unfold maxArrayBufferSize in L3.
  apply (resolve_typed_spec host); [done|done|]. intros u' c' y' Fv' Fk' Fb'. assert (y' = y) as -> by congruence. cbv beta iota zeta.
  pose proof (r_sub _ _ _ _ (r_min _ _ _ _ RE (r_of_Z (m_arrayLength x3) ltac:(lia))) RS ltac:(lia)) as Rd.
  assert (Rn : rep (if flt (fsub (std_min (relativeIndex rE (of_Z (m_arrayLength x))) (of_Z (m_arrayLength x3))) (relativeIndex rS (of_Z (m_arrayLength x)))) 0
      then 0 else fsub (std_min (relativeIndex rE (of_Z (m_arrayLength x))) (of_Z (m_arrayLength x3))) (relativeIndex rS (of_Z (m_arrayLength x))))
     (Z.max 0 (Z.min E (m_arrayLength x3) - S))).
  { rewrite (r_flt _ _ _ _ Rd r_zero). destruct (_ <? 0) eqn:El; Zbool; [rewrite Z.max_l by lia; apply r_zero|now rewrite Z.max_r by lia]. }
  eapply (wp_post_weaken host); [exact He3|intros ? ? H; exact H|].
  eapply (copy_into_spec w3 this t b x3 a u' c' y); try eassumption; unfold maxArrayBufferSize; lia.
Qed.

(** ** Filling and reversing *)
Lemma cast_relative_spec {A} w0 (k : Z -> MU World A) P L m w : safe integral m -> 0 <= L < maxArrayBufferSize -> Good w -> evolves w0 w ->
  (forall i w', 0 <= i <= L -> Good w' -> evolves w w' -> evolves w0 w' -> wp (k i) (post w0 P) w') ->
  wp (r ← m; i ← certain (cast_size_t (relativeIndex r (of_Z L))); k i) (post w0 P) w.
Proof.
  intros Hm HL HG He Hk. apply (relative_arg w0 _ _ L); [done|done|done|done|]. intros d i w' Hi Bi _ HG' He' He0.
  unfold maxArrayBufferSize in HL. apply wp_bind. eapply wp_certain; [apply (r_cast_size_t _ i); [done|lia]|]. cbv beta iota. now apply Hk.
Qed.
Lemma safe_fill value start end_ this : arg_ok host value -> safe integral start -> integral_end host end_ ->
  safe any (builtinTypedArrayFill cvt toUint64 value start end_ this).
Proof.
  intros Hv H1 H2 w HG. unfold builtinTypedArrayFill. apply (validate_view_spec host); [done|apply buffers_evolve_refl|].
  intros t b x Ev Ek Eb _. cbv beta iota. apply wp_bind, wp_gets_id. cbv beta iota zeta.
  destruct (read_view w this x Ev) as (-> & _). destruct (view_limits host w this x b HG Ev Eb) as (L1 & _).
  apply (to_element_spec host cvt w); [done|done|apply buffers_evolve_refl|]. intros p w1 HG1 He1 _.
  apply (cast_relative_spec w _ _ (m_arrayLength x)); [done|done|done|done|]. intros S w2 BS HG2 _ He2.
  apply (cast_relative_spec w _ _ (m_arrayLength x)); [apply safe_end; [unfold maxArrayBufferSize in L1; lia|done]|done|done|done|]. intros E w3 BE HG3 _ He3.
  apply (validate_view_spec host); [done|done|]. intros t' b' x' _ _ _ _.
  apply (safe_bind host w any); [|done|done|].
  - apply (safe_for host). intros i Hi. apply (safe_setThrows host cvt toUint64 cvt_int); [lia|done].
  - intros [] w4 _ HG4 _ He4. now apply (post_ret host).
Qed.
Lemma safe_reverse this : safe any (builtinTypedArrayReverse cvt toUint64 this).
Proof.
  intros w HG. unfold builtinTypedArrayReverse. apply (validate_view_spec host); [done|apply buffers_evolve_refl|].
  intros t b x Ev Ek Eb _. apply wp_bind, wp_gets_id. cbv beta iota zeta. destruct (read_view w this x Ev) as (-> & _).
  apply (safe_bind host w any); [|done|apply buffers_evolve_refl|intros [] w' _ HG' _ He'; now apply (post_ret host)].
  apply (safe_for host). intros i Hi. pose proof (Z.mul_div_le (m_arrayLength x) 2 ltac:(lia)) as Hd.
  apply (safe_seq host any); [apply (safe_getIndexedPropertyValue host cvt cvt_int); lia|]. intros u _.
  apply (safe_seq host any); [apply (safe_getIndexedPropertyValue host cvt cvt_int); lia|]. intros l _. cbv zeta.
  apply (safe_seq host any); [apply (safe_setThrows host cvt toUint64 cvt_int); [lia|done]|]. intros _ _.
  apply (safe_setThrows host cvt toUint64 cvt_int); [lia|done].
Qed.

(** ** Single elements *)
Lemma safe_with index value this : safe integral index -> arg_ok host value ->
  safe any (builtinTypedArrayWith cvt toUint64 null_when_empty index value this).
Proof.
  intros Hi Hv w HG. unfold builtinTypedArrayWith. apply (validate_view_spec host); [done|apply buffers_evolve_refl|].
  intros t b x Ev Ek Eb _. cbv beta iota. apply wp_bind, wp_gets_id. cbv beta iota zeta.
  destruct (read_view w this x Ev) as (-> & _). destruct (view_limits host w this x b HG Ev Eb) as (L1 & _). unfold maxArrayBufferSize in L1.
  apply (safe_bind host w integral); [done|done|apply buffers_evolve_refl|]. intros r w1 _ HG1 He1 _. cbv zeta.
  apply (to_element_spec host cvt w); [done|done|done|]. intros p w2 HG2 _ He2. apply wp_bind, wp_gets_id. cbv beta iota.
  apply (throw_if_spec host); [done|done|]. intros _. apply species_spec; [|done|done|].
  - intros v HGv. apply TypedArrayConstructor_spec; [now apply (safe_ret host)| |done|done]. apply (safe_ret host). left. lia.
  - intros a u c y w3 HG3 _ He3 _ _ _ _. apply (safe_bind host w any); [|done|done|intros [] w' _ HG' _ He'; now apply (post_ret host)].
    apply (safe_for host). intros i Hk. apply (safe_seq host any).
    + destruct (feq _ _); [now apply (safe_ret host)|]. apply (safe_seq host any); [apply (safe_getIndexedPropertyValue host cvt cvt_int); lia|].
      intros v _. now apply (safe_ret host).
    + intros q _. apply (safe_seq host any); [apply (safe_setIndexedProperty host cvt toUint64 cvt_int); [lia|done]|]. intros _ _. now apply (safe_ret host).
Qed.

Lemma safe_at length index this : safe length_arg length -> safe integral index ->
  safe any (builtinTypedArrayAt cvt length index this).
Proof.
  intros Hl Hi w HG. unfold builtinTypedArrayAt. apply (validate_view_spec host); [done|apply buffers_evolve_refl|]. intros t b x Ev Ek Eb _.
  apply (safe_bind host w length_arg); [done|done|apply buffers_evolve_refl|]. intros n w1 Hn HG1 He1 _.
  apply (safe_bind host w integral); [done|done|done|]. intros r w2 [Ur _] HG2 _ He2. cbv zeta.
  assert (Hu : in_u 64 (if flt r 0 then fadd (of_Z n) r else r)) by (destruct (flt r 0); [apply fadd_u64; [apply of_Z_u64|done]|done]).
  revert Hu. generalize (if flt r 0 then fadd (of_Z n) r else r). intros d Hu.
  apply wp_if; intros Hc; [now apply (post_ret host)|]. apply orb_false_iff in Hc as [Hc _].
  eapply (wp_post_weaken host); [exact He2|intros ? ? H; exact H|].
  assert (Hfast : forall i, number_value cvt d = Int32Value i -> 0 <= i).
  { intros i. unfold number_value. pose proof (WordFacts.convertible_spec cvt cvt_int d Hu) as Hs.
    destruct (Word.isInt32ConvertibleDouble cvt d) as [[|] j]; [|done]. destruct Hs as [Hj Ed]. intros [= ->]. rewrite <- Ed in Hc.
    rewrite (r_flt _ _ i 0 (r_of_Z i ltac:(unfold in_s in Hj; lia)) r_zero) in Hc. Zbool. lia. }
  destruct (number_value cvt d) as [i| | |] eqn:En; [|now apply (safe_get_numeric host cvt cvt_int)..].
  apply (safe_getIndexedPropertyValue host cvt cvt_int); [|done]. now apply Hfast.
Qed.

End Host.
End TypedArrayCopies.
