(* ===== verification/TypedArrayLoops.v ===== *)
(** The builtins of typed arrays that search and iterate
    ([builtins/BuiltinTypedArray.cpp]): searching by bytes, loops over the elements
    that call a function of the script, and the hexadecimal and Base64 texts of
    byte arrays; and the operations of Atomics on elements
    ([builtins/BuiltinAtomics.cpp]). *)
From Stdlib Require Import ZArith Lia Bool.
From stdpp Require Import base numbers list option decidable gmap.
From S2P Require Import Prelude Effects Unicode Double Float16 Value ArrayBuffer TypedArray.

Module TypedArrayLoops.
Import Effects Buffers TypedArrays Single Half CharClass(parseDigit).

Section Loops.
Variable cvt : Z -> Z.
Variable toUint64 : Z -> Z.
Variable null_when_empty : bool.

(** What reading an element gives: nothing stands for [undefined]. *)
Definition Element : Type := option Numeric.
Definition element_value (x : Element) : Primitive :=
  match x with Some x => numeric_value cvt x | None => undefined_value end.

(** A loop that counts up until [body] returns a value. *)
Fixpoint search_from {A} (n : nat) (k : Z) (body : Z -> MU World (option A)) : MU World (option A) :=
  match n with
  | O => mret None
  | S n =>
      r ← body k;
      match r with Some a => mret (Some a) | None => search_from n (k + 1) body end
  end.
(** A loop with a variable. *)
Fixpoint fold_from {V} (n : nat) (k : Z) (body : V -> Z -> MU World V) (accumulator : V) : MU World V :=
  match n with
  | O => mret accumulator
  | S n =>
      accumulator ← body accumulator k;
      fold_from n (k + 1) body accumulator
  end.

(** * Loops that call a function *)

(** Validation, the length, and whether the argument can be called. *)
Definition start_loop (callable : bool) (this : nat) : MU World (TypedArrayType * Z) :=
  '(t, _) ← validateTypedArray this true;
  w ← gets id;
  throw_if (negb callable) ThrownTypeError;;
  mret (t, arrayLength w this).
(** [callback kValue k] is the call with the conversion of its result. *)
Definition tested {A} (callback : Element -> Z -> MU World bool) (this : nat) (found : Element -> Z -> A) (k : Z) : MU World (option A) :=
  kValue ← getIndexedPropertyValue cvt this k;
  testResult ← callback kValue k;
  mret (if (testResult : bool) then Some (found kValue k) else None).

Definition builtinTypedArraySome (callable : bool) (callback : Element -> Z -> MU World bool) (this : nat) : MU World bool :=
  '(_, len) ← start_loop callable this;
  r ← search_from (Z.to_nat len) 0 (tested callback this (fun _ _ => true));
  mret (default false r).
Definition builtinTypedArrayEvery (callable : bool) (callback : Element -> Z -> MU World bool) (this : nat) : MU World bool :=
  '(_, len) ← start_loop callable this;
  r ← search_from (Z.to_nat (u32 len)) 0
        (tested (fun x k => testResult ← callback x k; mret (negb testResult)) this (fun _ _ => false));
  mret (default true r).
Definition builtinTypedArrayFind (callable : bool) (callback : Element -> Z -> MU World bool) (this : nat) : MU World Element :=
  '(_, len) ← start_loop callable this;
  r ← search_from (Z.to_nat len) 0 (tested callback this (fun x _ => x));
  mret (default None r).
Definition builtinTypedArrayFindIndex (callable : bool) (callback : Element -> Z -> MU World bool) (this : nat) : MU World Z :=
  '(_, len) ← start_loop callable this;
  r ← search_from (Z.to_nat len) 0 (tested callback this (fun _ k => k));
  mret (default (-1) r).
Definition builtinTypedArrayFindLast (callable : bool) (callback : Element -> Z -> MU World bool) (this : nat) : MU World Element :=
  '(_, len) ← start_loop callable this;
  r ← search_from (Z.to_nat len) 0 (fun i => tested callback this (fun x _ => x) (len - 1 - i));
  mret (default None r).
Definition builtinTypedArrayFindLastIndex (callable : bool) (callback : Element -> Z -> MU World bool) (this : nat) : MU World Z :=
  '(_, len) ← start_loop callable this;
  r ← search_from (Z.to_nat len) 0 (fun i => tested callback this (fun _ k => k) (len - 1 - i));
  mret (default (-1) r).
Definition builtinTypedArrayForEach (callable : bool) (callback : Element -> Z -> MU World unit) (this : nat) : MU World unit :=
  '(_, len) ← start_loop callable this;
  for_from (Z.to_nat len) 0 (fun k =>
    kValue ← getIndexedPropertyValue cvt this k;
    callback kValue k).
Definition builtinTypedArrayMap (callable : bool) (construct : Z -> MU World nat) (callback : Element -> Z -> MU World ElementArg)
  (this : nat) : MU World nat :=
  '(_, len) ← start_loop callable this;
  A ← typedArraySpeciesCreate (construct len) (Some (of_Z len));
  for_from (Z.to_nat len) 0 (fun k =>
    kValue ← getIndexedPropertyValue cvt this k;
    mappedValue ← callback kValue k;
    setIndexedPropertyThrowsException cvt toUint64 A k mappedValue);;
  mret A.
Definition builtinTypedArrayFilter (callable : bool) (construct : Z -> MU World nat) (callback : Element -> Z -> MU World bool)
  (this : nat) : MU World nat :=
  '(_, len) ← start_loop callable this;
  kept ← fold_from (Z.to_nat len) 0 (fun kept k =>
           kValue ← getIndexedPropertyValue cvt this k;
           selected ← callback kValue k;
           mret (if (selected : bool) then kept ++ [kValue] else kept)) [];
  let captured := Z.of_nat (length kept) in
  A ← typedArraySpeciesCreate (construct captured) (Some (of_Z captured));
  for_from (length kept) 0 (fun n =>
    e ← certain (kept !! Z.to_nat n);
    setIndexedPropertyThrowsException cvt toUint64 A n (PrimitiveArg (element_value e)));;
  mret A.

(** The accumulator is a value of the script; an element is one too. *)
Definition builtinTypedArrayReduce {V} (of_element : Element -> V) (callable : bool) (callback : V -> Element -> Z -> MU World V)
  (initial : option V) (this : nat) : MU World V :=
  '(_, len) ← start_loop callable this;
  throw_if ((len =? 0) && match initial with None => true | Some _ => false end) ThrownTypeError;;
  '(accumulator, k) ←
    match initial with
    | Some v => mret (v, 0)
    | None => x ← getIndexedPropertyValue cvt this 0; mret (of_element x, 1)
    end;
  fold_from (Z.to_nat (len - k)) k (fun accumulator k =>
    kValue ← getIndexedPropertyValue cvt this k;
    callback accumulator kValue k) accumulator.
Definition builtinTypedArrayReduceRight {V} (of_element : Element -> V) (callable : bool) (callback : V -> Element -> Z -> MU World V)
  (initial : option V) (this : nat) : MU World V :=
  '(_, len) ← start_loop callable this;
  throw_if ((len =? 0) && match initial with None => true | Some _ => false end) ThrownTypeError;;
  '(accumulator, k) ←
    match initial with
    | Some v => mret (v, len - 1)
    | None => x ← getIndexedPropertyValue cvt this (len - 1); mret (of_element x, len - 2)
    end;
  fold_from (Z.to_nat (k + 1)) 0 (fun accumulator i =>
    kValue ← getIndexedPropertyValue cvt this (k - i);
    callback accumulator kValue (k - i)) accumulator.

Definition builtinTypedArrayToReversed (this : nat) : MU World nat :=
  '(t, length) ← start_loop true this;
  A ← typedArraySpeciesCreate (builtinTypedArrayConstructor cvt toUint64 null_when_empty t (mret tt) (NonObject (mret length)))
        (Some (of_Z length));
  for_from (Z.to_nat length) 0 (fun k =>
    fromValue ← getIndexedPropertyValue cvt this (length - k - 1);
    setIndexedProperty cvt toUint64 A k (PrimitiveArg (element_value fromValue));;
    mret tt);;
  mret A.

(** * Searching *)
Definition isBigIntValue (p : Primitive) : bool := match p with BigIntValue _ => true | _ => false end.
Definition isNumberValue (p : Primitive) : bool := match p with Int32Value _ | DoubleValue _ => true | _ => false end.
Definition valueAsNumber (p : Primitive) : Z := match p with Int32Value i => of_Z i | DoubleValue d => d | _ => NAN end.

(** The test of the bytes of an element; none if no element can be equal. *)
Definition byte_test (type : TypedArrayType) (value : Primitive) : option (list Z -> bool) :=
  let elementSize := Z.to_nat (type_elementSize type) in
  let num := valueAsNumber value in
  let comparing (c : list Z -> Z) := if is_nan num then None else Some (fun bytes => feq (c bytes) num) in
  match type with
  | BigInt64 | BigUint64 =>
      match value with BigIntValue n => Some (fun bytes => le_value bytes =? toUint64 n) | _ => None end
  | Float16 => comparing (fun bytes => convertFloat16ToFloat64 (le_value bytes))
  | Float32 => comparing (fun bytes => widen (le_value bytes))
  | Float64 => comparing le_value
  | _ =>
      match value with
      | DoubleValue d => if feq d (2 ^ 63) then Some (fun bytes => bool_decide (bytes = replicate elementSize 0)) else None
      | Int32Value i => Some (fun bytes => bool_decide (bytes = take elementSize (le_bytes 4 (u32 i))))
      | _ => None
      end
  end.
(** The loop over the bytes, which ends when [byteK] leaves the array. *)
Fixpoint byte_search (fuel : nat) (isForward : bool) (buffer : option Addr) (test : list Z -> bool) (elementSize byteK byteLength : Z)
  : MU World Z :=
  match fuel with
  | O => certain None
  | S fuel =>
      if if isForward then byteK <? byteLength else 0 <=? byteK then
        bytes ← load_bytes (advance buffer byteK) elementSize;
        if (test bytes : bool) then mret (byteK / elementSize)
        else byte_search fuel isForward buffer test elementSize (if isForward then byteK + elementSize else byteK - elementSize) byteLength
      else mret (-1)
  end.
Definition fastTypedArrayIndexSearch (isForward : bool) (arr : nat) (k len : Z) (value : Primitive) : MU World Z :=
  '(type, _) ← resolve_typed arr;
  w ← gets id;
  if if isBigIntArray type then negb (isBigIntValue value)
     else negb (isNumberValue value) || match rawBuffer w arr with None => true | Some _ => false end
  then mret (-1)
  else
    let elementSize := type_elementSize type in
    let byteK := i64 (k * elementSize) in
    let byteLength := i64 (len * elementSize) in
    let byteK := if negb isForward && (byteLength <=? byteK) then byteLength - elementSize else byteK in
    match byte_test type value with
    | None => mret (-1)
    | Some test => byte_search (S (Z.to_nat len)) isForward (rawBuffer w arr) test elementSize byteK byteLength
    end.

Definition builtinTypedArrayIndexOf (value : Primitive) (fromIndex : option (MU World Z)) (this : nat) : MU World Z :=
  validateTypedArray this true;;
  w ← gets id;
  let len := arrayLength w this in
  if len =? 0 then mret (-1)
  else
    n ← match fromIndex with Some f => f | None => mret 0 end;
    if fle (of_Z len) n then mret (-1)
    else
      let doubleK :=
        if fle 0 n then (if feq n 0 then 0 else n)
        else let k := fadd (of_Z len) n in if flt k 0 then 0 else k in
      k ← certain (cast_size_t doubleK);
      w ← gets id;
      fastTypedArrayIndexSearch true this k (Z.min (arrayLength w this) len) value.
Definition builtinTypedArrayLastIndexOf (value : Primitive) (fromIndex : option (MU World Z)) (this : nat) : MU World Z :=
  validateTypedArray this true;;
  w ← gets id;
  let len := arrayLength w this in
  if len =? 0 then mret (-1)
  else
    n ← match fromIndex with Some f => f | None => mret (of_Z (len - 1)) end;
    if is_inf n && sign_bit n then mret (-1)
    else
      let k :=
        if fle 0 n then (if feq n 0 then 0 else std_min n (fsub (of_Z len) (of_Z 1)))
        else fadd (of_Z len) n in
      if flt k 0 then mret (-1)
      else
        k ← certain (cast_integral true 64 k);
        w ← gets id;
        fastTypedArrayIndexSearch false this k (arrayLength w this) value.

(** [equalsToByTheSameValueZeroAlgorithm] of an element and a value, which is
    [None] for [undefined]. *)
Definition sameValueZero (x : Element) (value : option Primitive) : bool :=
  match x, value with
  | None, None => true
  | Some (Number d), Some p => isNumberValue p && (feq d (valueAsNumber p) || is_nan d && is_nan (valueAsNumber p))
  | Some (BigInt n), Some (BigIntValue m) => n =? m
  | _, _ => false
  end.
Definition builtinTypedArrayIncludes (value : option Primitive) (fromIndex : option (MU World Z)) (this : nat) : MU World bool :=
  validateTypedArray this true;;
  w ← gets id;
  let len := arrayLength w this in
  if len =? 0 then mret false
  else
    n ← match fromIndex with Some f => f | None => mret 0 end;
    if fle (of_Z len) n then mret false
    else
      let doubleK := if fle 0 n then n else let k := fadd (of_Z len) n in if flt k 0 then 0 else k in
      k ← certain (cast_size_t doubleK);
      r ← search_from (Z.to_nat (len - k)) k (fun k =>
            elementK ← getIndexedPropertyValue cvt this k;
            mret (if sameValueZero elementK value then Some true else None));
      mret (default false r).

(** * Texts of bytes *)
Definition is_uint8 (t : TypedArrayType) : bool := match t with Uint8 => true | _ => false end.
(** The check of the receiver of the methods of Uint8Array. *)
Definition resolve_Uint8Array (this : nat) : MU World unit :=
  '(t, _) ← resolve_typed this;
  throw_if (negb (is_uint8 t)) ThrownTypeError.

(** [decodeHex]: success, how much was read, how much was written. *)
Fixpoint decodeHex (cursor : list Z) (result : option Addr) (read written resultLength : Z) : MU World (bool * Z * Z) :=
  match cursor with
  | [] => mret (true, read, written)
  | c1 :: cursor =>
      if written =? resultLength then mret (true, read, written)
      else
        let r1 := parseDigit c1 16 in
        if r1 =? -1 then mret (false, read, written)
        else
          match cursor with
          | [] => certain None
          | c2 :: cursor =>
              let r2 := parseDigit c2 16 in
              if r2 =? -1 then mret (false, read, written)
              else
                store_bytes (advance result written) [u8 (r1 * 16 + r2)];;
                decodeHex cursor result (read + 2) (written + 1) resultLength
          end
  end.
Definition builtinUint8ArrayFromHex (string : list Z) : MU World nat :=
  throw_if (Z.of_nat (length string) mod 2 =? 1) ThrownSyntaxError;;
  let resultLength := Z.of_nat (length string) / 2 in
  obj ← create_view (TypedArray Uint8);
  allocate_elements null_when_empty Uint8 obj resultLength;;
  w ← gets id;
  '(ok, _, _) ← decodeHex string (rawBuffer w obj) 0 0 (arrayLength w obj);
  throw_if (negb ok) ThrownSyntaxError;;
  mret obj.
Definition builtinUint8ArraySetFromHex (string : list Z) (this : nat) : MU World (Z * Z) :=
  resolve_Uint8Array this;;
  throw_if (Z.of_nat (length string) mod 2 =? 1) ThrownSyntaxError;;
  validateTypedArray this true;;
  w ← gets id;
  throw_if (arrayLength w this =? 0) ThrownSyntaxError;;
  '(ok, read, written) ← decodeHex string (rawBuffer w this) 0 0 (arrayLength w this);
  throw_if (negb ok) ThrownSyntaxError;;
  mret (read, written).
Definition radixDigits : list Z :=
  [48; 49; 50; 51; 52; 53; 54; 55; 56; 57; 97; 98; 99; 100; 101; 102; 103; 104; 105; 106; 107; 108; 109; 110; 111; 112; 113; 114; 115;
   116; 117; 118; 119; 120; 121; 122].
Definition builtinUint8ArrayToHex (this : nat) : MU World (list Z) :=
  resolve_Uint8Array this;;
  validateTypedArray this true;;
  w ← gets id;
  fold_from (Z.to_nat (arrayLength w this)) 0 (fun builder i =>
    bytes ← load_bytes (advance (rawBuffer w this) i) 1;
    byte ← certain (head bytes);
    let character := u8 byte in
    high ← certain (radixDigits !! Z.to_nat (character / 16));
    low ← certain (radixDigits !! Z.to_nat (character mod 16));
    mret (builder ++ [high; low])) [].

(** * Atomics on elements *)
Inductive AtomicBinaryOps := ADD | AND | EXCH | OR | SUB | XOR.

Definition validateIntegerTypedArray (waitable : bool) (typedArray : nat) : MU World (TypedArrayType * nat) :=
  '(t, buffer) ← validateTypedArray typedArray true;
  throw_if
    (if waitable then match t with Int32 | BigInt64 => false | _ => true end
     else match t with Uint8Clamped | Float16 | Float32 | Float64 => true | _ => false end) ThrownTypeError;;
  mret (t, buffer).
Definition validateAtomicAccess (typedArray : nat) (toIndex : MU World Z) : MU World Z :=
  w ← gets id;
  let length := arrayLength w typedArray in
  accessIndex ← toIndex;
  throw_if ((accessIndex =? Word.InvalidIndexValue) || (length <=? accessIndex)) ThrownRangeError;;
  '(t, _) ← resolve_typed typedArray;
  w ← gets id;
  mret (u64 (u64 (accessIndex * type_elementSize t) + view_byteOffset w typedArray)).
Definition revalidateAtomicAccess (buffer : nat) (indexedPosition elementSize : Z) : MU World unit :=
  w ← gets id;
  throw_if (isDetachedBuffer w buffer) ThrownTypeError;;
  throw_if (byteLength w buffer <? u64 (indexedPosition + elementSize)) ThrownRangeError.

(** [atomicOperation] on the [w] bits of an element. *)
Definition atomicOperation (w old value : Z) (op : AtomicBinaryOps) : Z :=
  match op with
  | ADD => wrapu w (old + value)
  | AND => Z.land old (wrapu w value)
  | EXCH => wrapu w value
  | OR => Z.lor old (wrapu w value)
  | SUB => wrapu w (old - value)
  | XOR => Z.lxor old (wrapu w value)
  end.
(** The 64-bit integer that is passed to it. *)
Definition atomic_operand (type : TypedArrayType) (v : Primitive) : MU World Z :=
  if isBigIntArray type then n ← lift (toBigInt v); mret (toUint64 n)
  else cast (cast_integral true 64 (valueAsNumber v)).
Definition getModifySetValueInBuffer (buffer : nat) (indexedPosition : Z) (type : TypedArrayType) (v2 : Primitive) (op : AtomicBinaryOps)
  : MU World Numeric :=
  let elemSize := type_elementSize type in
  w ← gets id;
  require (indexedPosition + elemSize <=? byteLength w buffer);;
  let rawStart := plus (data w buffer) indexedPosition in
  v ← atomic_operand type v2;
  old ← load_bytes rawStart elemSize;
  store_bytes rawStart (le_bytes (Z.to_nat elemSize) (atomicOperation (8 * elemSize) (le_value old) v op));;
  mret (rawBytesToNumber type old).

(** An argument with its two conversions: [toInteger] and [toBigInt]. *)
Record AtomicArg := mkAtomicArg { to_integer : MU World Z; to_big : MU World Z }.
Definition atomic_value (type : TypedArrayType) (x : AtomicArg) : MU World Primitive :=
  if isBigIntArray type then n ← to_big x; mret (BigIntValue n) else d ← to_integer x; mret (number_value cvt d).

Definition atomicReadModifyWrite (typedArray : nat) (toIndex : MU World Z) (value : AtomicArg) (op : AtomicBinaryOps) : MU World Numeric :=
  '(type, buffer) ← validateIntegerTypedArray false typedArray;
  indexedPosition ← validateAtomicAccess typedArray toIndex;
  v ← atomic_value type value;
  revalidateAtomicAccess buffer indexedPosition (type_elementSize type);;
  getModifySetValueInBuffer buffer indexedPosition type v op.
Definition builtinAtomicsCompareExchange (typedArray : nat) (toIndex : MU World Z) (expected replacement : AtomicArg) : MU World Numeric :=
  '(type, buffer) ← validateIntegerTypedArray false typedArray;
  indexedPosition ← validateAtomicAccess typedArray toIndex;
  expected ← atomic_value type expected;
  replacement ← atomic_value type replacement;
  let elemSize := type_elementSize type in
  revalidateAtomicAccess buffer indexedPosition elemSize;;
  expectedBytes ← numberToRawBytes cvt toUint64 type expected;
  w ← gets id;
  let rawStart := plus (data w buffer) indexedPosition in
  replacementBytes ← numberToRawBytes cvt toUint64 type replacement;
  old ← load_bytes rawStart elemSize;
  (if bool_decide (old = expectedBytes) then store_bytes rawStart replacementBytes else mret tt);;
  mret (rawBytesToNumber type old).
Definition builtinAtomicsLoad (typedArray : nat) (toIndex : MU World Z) : MU World Numeric :=
  '(type, buffer) ← validateIntegerTypedArray false typedArray;
  indexedPosition ← validateAtomicAccess typedArray toIndex;
  revalidateAtomicAccess buffer indexedPosition (type_elementSize type);;
  getValueFromBuffer buffer indexedPosition type true.
Definition builtinAtomicsStore (typedArray : nat) (toIndex : MU World Z) (value : AtomicArg) : MU World Primitive :=
  '(type, buffer) ← validateIntegerTypedArray false typedArray;
  indexedPosition ← validateAtomicAccess typedArray toIndex;
  v ← atomic_value type value;
  revalidateAtomicAccess buffer indexedPosition (type_elementSize type);;
  setValueInBuffer cvt toUint64 buffer indexedPosition type v true;;
  mret v.

End Loops.
End TypedArrayLoops.
