(* ===== verification/TypedArrayLoopSafety.v ===== *)
(** The loops over typed arrays and the operations of Atomics stay within their
    memory, whatever the functions that they call do to it; and what the search
    by bytes returns. *)
From Stdlib Require Import ZArith Lia Bool.
From stdpp Require Import base numbers list option decidable gmap.
From S2P Require Import Prelude Effects Unicode Double Float16 Value ArrayBuffer BufferInvariant BufferSafety BufferBuiltins TypedArray.
From S2P Require Import TypedArraySafety TypedArrayCopies TypedArrayLoops.

(** * Searching bytes *)
Module ByteSearch.
Import Effects Buffers TypedArrays TypedArrayLoops.

(** [r] is the first index from [K] up to [N] that passes the test, or -1. *)
Definition first_index (p : Z -> bool) (K N r : Z) : Prop :=
  (r = -1 /\ forall i, K <= i < N -> p i = false) \/ (K <= r < N /\ p r = true /\ forall i, K <= i < r -> p i = false).
(** The last one from [K] down to 0. *)
Definition last_index (p : Z -> bool) (K r : Z) : Prop :=
  (r = -1 /\ forall i, 0 <= i <= K -> p i = false) \/ (0 <= r <= K /\ p r = true /\ forall i, r < i <= K -> p i = false).

Section Search.
Context (buffer : option Addr) (test : list Z -> bool) (size : Z) (Hsize : 0 < size) (w : World) (N : Z) (bytes : Z -> list Z).
Context (loads : forall i, 0 <= i < N -> load_bytes (advance buffer (i * size)) size w = Some (w, inl (bytes i))).

Lemma byte_search_up fuel K : 0 <= K -> 0 < Z.of_nat fuel -> N - K < Z.of_nat fuel ->
  exists r, byte_search fuel true buffer test size (K * size) (N * size) w = Some (w, inl r) /\ first_index (fun i => test (bytes i)) K N r.
Proof.
  revert K. induction fuel as [|fuel IH]; intros K HK Hp Hf; cbn [byte_search]; [lia|].
  destruct (K * size <? N * size) eqn:E; Zbool.
  - assert (HKN : K < N) by nia. unfold mbind at 1, MU_bind at 1. rewrite (loads K) by lia. destruct (test (bytes K)) eqn:Et.
    + exists K. rewrite Z.div_mul by lia. split; [done|]. right. split; [lia|]. split; [done|]. lia.
    + replace (K * size + size) with ((K + 1) * size) by lia. destruct (IH (K + 1)) as (r & Er & Hr); [lia|lia|lia|].
      exists r. split; [exact Er|]. destruct Hr as [[-> Hr]|(Hr1 & Hr2 & Hr3)]; [left|right; split; [lia|]]; split; try done;
        intros i Hi; (destruct (decide (i = K)) as [->|]; [done|]); [apply Hr|apply Hr3]; lia.
  - exists (-1). split; [done|]. left. split; [done|]. intros i Hi. nia.
Qed.
Lemma byte_search_down fuel K : -1 <= K < N -> K + 1 < Z.of_nat fuel ->
  exists r, byte_search fuel false buffer test size (K * size) (N * size) w = Some (w, inl r) /\ last_index (fun i => test (bytes i)) K r.
Proof.
  revert K. induction fuel as [|fuel IH]; intros K HK Hf; cbn [byte_search]; [lia|].
  destruct (0 <=? K * size) eqn:E; Zbool.
  - assert (H0 : 0 <= K) by nia. unfold mbind at 1, MU_bind at 1. rewrite (loads K) by lia. destruct (test (bytes K)) eqn:Et.
    + exists K. rewrite Z.div_mul by lia. split; [done|]. right. split; [lia|]. split; [done|]. lia.
    + replace (K * size - size) with ((K - 1) * size) by lia. destruct (IH (K - 1)) as (r & Er & Hr); [lia|lia|].
      exists r. split; [exact Er|]. destruct Hr as [[-> Hr]|(Hr1 & Hr2 & Hr3)]; [left|right; split; [lia|]]; split; try done;
        intros i Hi; (destruct (decide (i = K)) as [->|]; [done|]); [apply Hr|apply Hr3]; lia.
  - exists (-1). split; [done|]. left. split; [done|]. intros i Hi. nia.
Qed.
End Search.
End ByteSearch.

(** * The builtins are safe *)
Module TypedArrayLoopSafety.
Import Effects WP Buffers Wiring Notified Invariant Steps RelativeFacts BufferSpecs BufferBuiltins TypedArrays ElementFacts IndexFacts
  TypedArraySafety IntegerDoubles TypedArrayCopies TypedArrayLoops ByteSearch.
Import CharClass(parseDigit).

Section Host.
Context (host null_when_empty : bool) (cvt toUint64 : Z -> Z) (cvt_int : forall d, in_s 32 (cvt d)).
Let Good := Good host.
Let safe {A} := @safe host A.
Let post {A} := @post host A.

Lemma safe_any {A} (P : A -> Prop) (m : MU World A) : safe P m -> safe any m.
Proof. apply (safe_weaken host P). done. Qed.
Lemma safe_search {A} n k (body : Z -> MU World (option A)) : (forall i, k <= i < k + Z.of_nat n -> safe any (body i)) ->
  safe any (search_from n k body).
Proof.
  revert k. induction n as [|n IH]; intros k Hb; cbn [search_from]; [now apply (safe_ret host)|].
  apply (safe_seq host any); [apply Hb; lia|]. intros [a|] _; [now apply (safe_ret host)|]. apply IH. intros i Hi. apply Hb. lia.
Qed.
Lemma safe_fold {V} (P : V -> Prop) n k (body : V -> Z -> MU World V) v : P v ->
  (forall v i, P v -> k <= i < k + Z.of_nat n -> safe P (body v i)) -> safe P (fold_from n k body v).
Proof.
  revert k v. induction n as [|n IH]; intros k v Hv Hb; cbn [fold_from]; [now apply (safe_ret host)|].
  apply (safe_seq host P); [apply Hb; [done|lia]|]. intros v' Hv'. apply IH; [done|]. intros u i Hu Hi. apply Hb; [done|lia].
Qed.
Lemma safe_get v i : 0 <= i -> safe any (getIndexedPropertyValue cvt v i).
Proof. apply (safe_getIndexedPropertyValue host cvt cvt_int). Qed.
Lemma safe_store v i x : 0 <= i -> arg_ok host x -> safe any (setIndexedPropertyThrowsException cvt toUint64 v i x).
Proof. intros Hi Hx. now apply (safe_setThrows host cvt toUint64 cvt_int). Qed.
Lemma element_value_ok x : arg_ok host (PrimitiveArg (element_value cvt x)).
Proof. done. Qed.

(** A loop: it starts with the length of a valid array. *)
Lemma start_loop_safe c this : safe (fun p => 0 <= p.2 < maxArrayBufferSize) (start_loop c this).
Proof.
  intros w HG. unfold start_loop. apply (validate_view_spec host); [done|apply buffers_evolve_refl|].
  intros t b x Ev Ek Eb _. cbv beta iota. apply wp_bind, wp_gets_id. cbv beta iota.
  apply (throw_if_spec host); [done|apply buffers_evolve_refl|]. intros _. apply (post_ret host); [done|apply buffers_evolve_refl|].
  destruct (read_view w this x Ev) as (-> & _). apply (view_limits host w this x b HG Ev Eb).
Qed.
Lemma looping {A} (P : A -> Prop) c this (k : TypedArrayType * Z -> MU World A) :
  (forall t n, 0 <= n < maxArrayBufferSize -> safe P (k (t, n))) -> safe P (p ← start_loop c this; k p).
Proof. intros Hk. apply (safe_seq host (fun p => 0 <= p.2 < maxArrayBufferSize)); [apply start_loop_safe|]. intros [t n] Hn. now apply Hk. Qed.
Lemma safe_tested {A} callback this (found : Element -> Z -> A) k : 0 <= k -> (forall x i, safe any (callback x i)) ->
  safe any (tested cvt callback this found k).
Proof.
  intros Hk Hc. apply (safe_seq host any); [now apply safe_get|]. intros x _.
  apply (safe_seq host any); [apply Hc|]. intros r _. now apply (safe_ret host).
Qed.

Section Callbacks.
Context (callable : bool) (callback : Element -> Z -> MU World bool) (Hc : forall x i, safe any (callback x i)) (this : nat).
Lemma safe_some : safe any (builtinTypedArraySome cvt callable callback this).
Proof.
  apply looping. intros t n Hn. apply (safe_seq host any); [|intros; now apply (safe_ret host)].
  apply safe_search. intros i Hi. apply safe_tested; [lia|done].
Qed.
Lemma safe_every : safe any (builtinTypedArrayEvery cvt callable callback this).
Proof.
  apply looping. intros t n Hn. apply (safe_seq host any); [|intros; now apply (safe_ret host)].
  apply safe_search. intros i Hi. apply safe_tested; [lia|]. intros x k. apply (safe_seq host any); [apply Hc|]. intros; now apply (safe_ret host).
Qed.
Lemma safe_find : safe any (builtinTypedArrayFind cvt callable callback this) /\ safe any (builtinTypedArrayFindIndex cvt callable callback this).
Proof.
  split; apply looping; intros t n Hn; (apply (safe_seq host any); [|intros; now apply (safe_ret host)]);
    apply safe_search; intros i Hi; apply safe_tested; done || lia.
Qed.
Lemma safe_findLast : safe any (builtinTypedArrayFindLast cvt callable callback this) /\ safe any (builtinTypedArrayFindLastIndex cvt callable callback this).
Proof.
  split; apply looping; intros t n Hn; (apply (safe_seq host any); [|intros; now apply (safe_ret host)]);
    apply safe_search; intros i Hi; apply safe_tested; done || lia.
Qed.
Lemma safe_filter construct : (forall n, safe any (construct n)) -> safe any (builtinTypedArrayFilter cvt toUint64 callable construct callback this).
Proof.
  intros Hn. apply looping. intros t n Hlen. apply (safe_seq host any).
  - apply (safe_fold any); [done|]. intros kept i _ Hi. apply (safe_seq host any); [apply safe_get; lia|]. intros x _.
    apply (safe_seq host any); [apply Hc|]. intros; now apply (safe_ret host).
  - intros kept _. cbv zeta. apply (safe_seq host any); [apply (safe_species host), Hn|]. intros A _.
    apply (safe_seq host any); [|intros; now apply (safe_ret host)]. apply (safe_for host). intros i Hi.
    destruct (lookup_lt_is_Some_2 kept (Z.to_nat i)) as [e Ee]; [lia|].
    intros w HG. apply wp_bind. eapply wp_certain; [exact Ee|]. cbv beta iota. apply safe_store; [lia|apply element_value_ok|done].
Qed.
End Callbacks.

Lemma safe_forEach callable callback this : (forall x i, safe any (callback x i)) -> safe any (builtinTypedArrayForEach cvt callable callback this).
Proof.
  intros Hc. apply looping. intros t n Hn. apply (safe_for host). intros i Hi.
  apply (safe_seq host any); [apply safe_get; lia|]. intros x _. apply (safe_any any), Hc.
Qed.
Lemma safe_map callable construct callback this : (forall n, safe any (construct n)) -> (forall x i, safe (arg_ok host) (callback x i)) ->
  safe any (builtinTypedArrayMap cvt toUint64 callable construct callback this).
Proof.
  intros Hn Hc. apply looping. intros t n Hlen. apply (safe_seq host any); [apply (safe_species host), Hn|]. intros A _.
  apply (safe_seq host any); [|intros; now apply (safe_ret host)]. apply (safe_for host). intros i Hi.
  apply (safe_seq host any); [apply safe_get; lia|]. intros x _. apply (safe_seq host (arg_ok host)); [apply Hc|].
  intros y Hy. apply safe_store; [lia|done].
Qed.
Lemma safe_reduce {V} (of_element : Element -> V) callable callback initial this : (forall v x i, safe any (callback v x i)) ->
  safe any (builtinTypedArrayReduce cvt of_element callable callback initial this) /\
  safe any (builtinTypedArrayReduceRight cvt of_element callable callback initial this).
Proof.
  intros Hc. split; apply looping; intros t n Hn; intros w HG; (apply (throw_if_spec host); [done|apply buffers_evolve_refl|]); intros H0;
    revert w HG.
  - enough (H : safe (@any V) (p ← match initial with Some v => mret (v, 0) | None => x ← getIndexedPropertyValue cvt this 0; mret (of_element x, 1) end;
       (fun '(acc, k) => fold_from (Z.to_nat (n - k)) k (fun acc k => kValue ← getIndexedPropertyValue cvt this k; callback acc kValue k) acc) p)).
    { intros w HG. apply (H w HG). }
    apply (safe_seq host (fun p => 0 <= p.2)).
    + destruct initial; [now apply (safe_ret host)|]. apply (safe_seq host any); [now apply safe_get|]. intros; apply (safe_ret host); cbn; lia.
    + intros [acc k] Hk. cbn in Hk. apply (safe_fold any); [done|]. intros v i _ Hi. apply (safe_seq host any); [apply safe_get; lia|]. intros x _. apply Hc.
  - enough (H : safe (@any V) (p ← match initial with Some v => mret (v, n - 1) | None => x ← getIndexedPropertyValue cvt this (n - 1); mret (of_element x, n - 2) end;
       (fun '(acc, k) => fold_from (Z.to_nat (k + 1)) 0 (fun acc i => kValue ← getIndexedPropertyValue cvt this (k - i); callback acc kValue (k - i)) acc) p)).
    { intros w HG. apply (H w HG). }
    apply (safe_seq host any).
    + destruct initial; [now apply (safe_ret host)|]. Zbool. apply (safe_seq host any); [apply safe_get|]. 2: intros; now apply (safe_ret host).
      destruct (n =? 0) eqn:E; Zbool; [done|lia].
    + intros [acc k] _. apply (safe_fold any); [done|]. intros v i _ Hi. apply (safe_seq host any); [apply safe_get; lia|]. intros x _. apply Hc.
Qed.
Lemma safe_toReversed this : safe any (builtinTypedArrayToReversed cvt toUint64 null_when_empty this).
Proof.
  apply looping. intros t n Hn. unfold maxArrayBufferSize in Hn. apply (safe_seq host any).
  - apply (safe_species host). intros w HG. apply (TypedArrayConstructor_spec host null_when_empty cvt toUint64 cvt_int); [now apply (safe_ret host)| |done|done].
    apply (safe_ret host). left. lia.
  - intros A _. apply (safe_seq host any); [|intros; now apply (safe_ret host)]. apply (safe_for host). intros i Hi.
    apply (safe_seq host any); [apply safe_get; lia|]. intros x _.
    apply (safe_seq host any); [apply (safe_setIndexedProperty host cvt toUint64 cvt_int); [lia|apply element_value_ok]|]. intros; now apply (safe_ret host).
Qed.


(** ** Searching *)

(** The bytes of an element. *)
Definition element_bytes (w : World) (v : nat) (t : TypedArrayType) (i : Z) : list Z :=
  match load_bytes (advance (rawBuffer w v) (i * type_elementSize t)) (type_elementSize t) w with Some (_, inl l) => l | _ => [] end.
Lemma element_loads w v x b t i : Good w -> views w !! v = Some x -> m_buffer x = Some b -> v_kind x = TypedArray t ->
  0 <= i < m_arrayLength x ->
  load_bytes (advance (rawBuffer w v) (i * type_elementSize t)) (type_elementSize t) w = Some (w, inl (element_bytes w v t i)) /\
  Z.of_nat (length (element_bytes w v t i)) = type_elementSize t.
Proof.
  intros HG Ev Eb Ek Hi. pose proof (element_range host w v x b t i HG Ev Eb Ek Hi) as Hr. pose proof (elementSize_range t) as Hs.
  destruct (view_range host w v x b (i * type_elementSize t) (type_elementSize t) HG Ev Eb) as [Hin (a & Ea & Ed)]; [nia|lia|lia|].
  destruct (read_view w v x Ev) as (_ & _ & _ & R4 & _). pose proof (in_range_data host w b _ _ HG Hin) as Hh. rewrite Ed in Hh.
  destruct (load_bytes_ok w (Some a) (m_byteOffset x + i * type_elementSize t) (type_elementSize t)) as (bytes & E & El); [exact Hh|apply Hin|lia|].
  unfold element_bytes. rewrite R4, Ea. cbn [advance fmap option_fmap option_map fst snd]. cbn [plus fmap option_fmap option_map] in E. now rewrite E.
Qed.
Lemma unread w v x b : Good w -> views w !! v = Some x -> m_buffer x = Some b -> m_cachedRawBufferAddress x = None -> m_arrayLength x = 0.
Proof.
  intros HG Ev Eb Ea. destruct (view_limits host w v x b HG Ev Eb) as (L1 & L2 & _).
  destruct (decide (m_arrayLength x = 0)); [done|]. exfalso.
  destruct (typed_facts host w v x b HG Ev Eb) as [_ [_ _ [_ V3] _ _]]. pose proof (elementSize_pos x).
  destruct (view_range host w v x b 0 (m_byteLength x) HG Ev Eb) as [_ (a & Ea' & _)]; [lia|nia|lia|congruence].
Qed.
Definition search_result (isForward : bool) (test : option (list Z -> bool)) (bytes : Z -> list Z) (k len r : Z) : Prop :=
  match test with
  | None => r = -1
  | Some test =>
      let p i := test (bytes i) in
      if isForward then first_index p k len r else last_index p (if len <=? k then len - 1 else k) r
  end.
Lemma nothing_found isForward test bytes k : 0 <= k -> search_result isForward test bytes k 0 (-1).
Proof.
  intros Hk. destruct test as [test|]; [|done]. cbn. destruct isForward.
  - left. split; [done|]. lia.
  - left. split; [done|]. rewrite (proj2 (Z.leb_le 0 k)) by lia. lia.
Qed.
Lemma fast_search_spec isForward w v x b t k len value : Good w -> views w !! v = Some x -> m_buffer x = Some b -> v_kind x = TypedArray t ->
  0 <= k < 2 ^ 32 -> 0 <= len <= m_arrayLength x ->
  exists r, fastTypedArrayIndexSearch toUint64 isForward v k len value w = Some (w, inl r) /\
    search_result isForward (byte_test toUint64 t value) (element_bytes w v t) k len r.
Proof.
  intros HG Ev Eb Ek Hk Hlen. destruct (view_limits host w v x b HG Ev Eb) as (L1 & _). unfold maxArrayBufferSize in L1.
  pose proof (elementSize_range t) as Hs. destruct (read_view w v x Ev) as (_ & _ & _ & R4 & _).
  unfold fastTypedArrayIndexSearch. unfold mbind at 1, MU_bind at 1. unfold resolve_typed, mbind at 1, MU_bind at 1, gets, id. rewrite Ev.
  destruct x as [k0 mb a bl bo al obl obo au re]. cbn in Eb, Ek. subst mb k0. cbn [m_arrayLength m_cachedRawBufferAddress] in *.
  cbv beta iota. unfold mret at 1, MU_ret at 1. unfold mbind at 1, MU_bind at 1, gets, id. cbv beta iota. rewrite R4.
  assert (Hnone : (if isBigIntArray t then negb (isBigIntValue value) else negb (isNumberValue value)) = true -> byte_test toUint64 t value = None).
  { destruct t, value; intros H; first [discriminate H | reflexivity]. }
  match goal with |- context [if (if isBigIntArray t then ?a else ?b) then _ else _] => destruct (if isBigIntArray t then a else b) eqn:Eg end.
  { exists (-1). split; [done|]. destruct a as [a|].
    - rewrite Hnone; [done|]. destruct (isBigIntArray t); [done|]. now rewrite orb_false_r in Eg.
    - assert (al = 0) as -> by (apply (unread w v _ b HG Ev); done). assert (len = 0) as -> by lia. apply nothing_found. lia. }
  cbv zeta. rewrite !(wraps_id 64 (_ * _)) by (unfold in_s; nia).
  destruct (byte_test toUint64 t value) as [test|] eqn:Et; [|exists (-1); done]. unfold search_result. cbv zeta.
  assert (HL : forall i, 0 <= i < len -> load_bytes (advance a (i * type_elementSize t)) (type_elementSize t) w = Some (w, inl (element_bytes w v t i))).
  { intros i Hi. destruct (element_loads w v _ b t i HG Ev eq_refl eq_refl) as [E _]; [cbn; lia|]. now rewrite R4 in E. }
  destruct isForward; cbn [negb andb].
  - apply (byte_search_up a test (type_elementSize t) ltac:(lia) w len (element_bytes w v t) HL); lia.
  - assert (E : (len * type_elementSize t <=? k * type_elementSize t) = (len <=? k)).
    { destruct (len <=? k) eqn:E; Zbool; [apply Z.leb_le|apply Z.leb_gt]; nia. }
    rewrite E. destruct (len <=? k) eqn:E2; Zbool.
    + replace (len * type_elementSize t - type_elementSize t) with ((len - 1) * type_elementSize t) by lia.
      apply (byte_search_down a test (type_elementSize t) ltac:(lia) w len (element_bytes w v t) HL); lia.
    + apply (byte_search_down a test (type_elementSize t) ltac:(lia) w len (element_bytes w v t) HL); lia.
Qed.

(** Where a search starts. *)
Definition from_start (len n : Z) : Z :=
  if fle 0 n then (if feq n 0 then 0 else n) else let k := fadd (of_Z len) n in if flt k 0 then 0 else k.
Lemma integral_nan n : integral n -> is_nan n = false.
Proof. intros [_ [Hi|(z & Hz & _)]]; [|now apply is_finite_nan]. unfold is_inf, is_nan in *. Zbool. apply Z.ltb_ge. lia. Qed.
Lemma fle_0 n : is_nan n = false -> fle 0 n = negb (flt n 0).
Proof. intros H. unfold fle, flt. rewrite H. change (is_nan 0) with false. cbn [negb andb]. rewrite Z.leb_antisym. done. Qed.
Lemma from_start_spec n L : integral n -> 0 < L <= 2 ^ 32 -> fle (of_Z L) n = false ->
  rep (from_start L n) (relative_index n L) /\ 0 <= relative_index n L < L.
Proof.
  intros Hn HL Hle. pose proof (r_of_Z L ltac:(lia)) as [RL UL].
  destruct (relative_spec n (of_Z L) L Hn RL ltac:(lia)) as [R B]. unfold from_start. rewrite (fle_0 n (integral_nan n Hn)).
  destruct (flt n 0) eqn:E; cbn [negb].
  - cbv zeta. unfold relative in R. rewrite E in R. split.
    + split; [exact R|]. match goal with |- in_u 64 (if ?b then _ else _) => destruct b end; [apply r_zero|apply fadd_u64; [exact UL|apply Hn]].
    + split; [lia|]. unfold relative_index in *. destruct Hn as [U Hn]. destruct (is_inf n) eqn:Ei; [destruct (sign_bit n) eqn:Es; [lia|]|].
      * exfalso. revert E. unfold flt. rewrite (integral_nan n) by (split; [done|now left]). change (is_nan 0) with false. cbn [negb andb].
        intros E. Zbool. unfold key in E. rewrite Es in E. change (sign_bit 0) with false in E. cbv beta iota in E. pose proof (mag_range n). change (mag 0) with 0 in E. lia.
      * destruct Hn as [?|(z & Hz)]; [done|]. assert (to_Z n = z) as Ez by (apply r_to_Z; now split). rewrite Ez. unfold clamp.
        assert (Hneg : (z <? 0) = true) by now rewrite <- (r_flt n 0 z 0 (conj Hz U) r_zero). rewrite Hneg. Zbool. lia.
  - unfold relative in R. rewrite E in R. unfold std_min in R.
    assert (Hlt : flt (of_Z L) n = false).
    { revert Hle. unfold fle, flt. destruct (negb (is_nan (of_Z L)) && negb (is_nan n)); [|done]. cbn [andb]. intros H. Zbool. apply Z.ltb_ge. lia. }
    rewrite Hlt in R. pose proof (conj R (proj1 Hn)) as Rn. change (rep n (relative_index n L)) in Rn.
    rewrite (r_fle _ _ L (relative_index n L) (r_of_Z L ltac:(lia)) Rn) in Hle. Zbool. split; [|lia].
    rewrite (r_feq n 0 (relative_index n L) 0 Rn r_zero). destruct (relative_index n L =? 0) eqn:E0; Zbool; [rewrite E0; apply r_zero|exact Rn].
Qed.

Lemma safe_indexOf value fromIndex this : integral_end host fromIndex -> safe any (builtinTypedArrayIndexOf toUint64 value fromIndex this).
Proof.
  intros Hf w HG. unfold builtinTypedArrayIndexOf. apply (validate_view_spec host); [done|apply buffers_evolve_refl|].
  intros t b x Ev Ek Eb _. cbv beta iota. apply wp_bind, wp_gets_id. cbv beta iota zeta. destruct (read_view w this x Ev) as (-> & _).
  destruct (view_limits host w this x b HG Ev Eb) as (L1 & _). unfold maxArrayBufferSize in L1.
  apply wp_if; intros H0; [apply (post_ret host); [done|apply buffers_evolve_refl|done]|]. Zbool.
  assert (Hn : safe integral (match fromIndex with Some f => f | None => mret 0 end)).
  { destruct fromIndex; [done|]. apply (safe_ret host). split; [done|]. right. exists 0. apply rep_zero. }
  apply (safe_bind host w integral); [done|done|apply buffers_evolve_refl|]. intros n w1 Hi HG1 He1 _.
  apply wp_if; intros Hle; [now apply (post_ret host)|]. destruct (from_start_spec n (m_arrayLength x) Hi ltac:(lia) Hle) as [Rk Bk].
  apply wp_bind. eapply wp_certain; [apply (r_cast_size_t _ _ Rk); lia|]. cbv beta iota. apply wp_bind, wp_gets_id. cbv beta iota.
  destruct (kept_view host w w1 this x b HG1 He1 Ev Eb) as (x1 & Ev1 & Eb1 & Ek1). rewrite Ek in Ek1. destruct (read_view w1 this x1 Ev1) as (-> & _).
  destruct (view_limits host w1 this x1 b HG1 Ev1 Eb1) as (L2 & _).
  destruct (fast_search_spec true w1 this x1 b t (relative_index n (m_arrayLength x)) (Z.min (m_arrayLength x1) (m_arrayLength x)) value) as (r & E & _);
    try done; [lia|lia|]. eapply wp_eq; [exact E|]. now split.
Qed.
Lemma cast_integral_rep d n : rep d n -> 0 <= n < 2 ^ 63 -> cast_integral true 64 d = Some n.
Proof.
  intros R Hn. unfold cast_integral, holds_int. rewrite (r_finite d n R), (r_to_Z d n R).
  rewrite (proj2 (Z.leb_le _ _)), (proj2 (Z.ltb_lt _ _)) by lia. done.
Qed.
(** Where a search backwards starts. *)
Definition last_start (len n : Z) : Z :=
  if fle 0 n then (if feq n 0 then 0 else std_min n (fsub (of_Z len) (of_Z 1))) else fadd (of_Z len) n.
Lemma equal_zero n : integral n -> feq n 0 = true -> rep n 0.
Proof.
  intros [U [Hinf|(z & Hz)]] E0.
  - exfalso. revert E0. unfold feq, key. change (sign_bit 0) with false. change (mag 0) with 0. cbv beta iota.
    intros E0. apply andb_true_iff in E0 as [_ E0]. unfold is_inf, INF in Hinf. Zbool. destruct (sign_bit n); lia.
  - pose proof (conj Hz U) as Rz. change (rep n z) in Rz. rewrite (r_feq n 0 z 0 Rz r_zero) in E0. Zbool. now subst.
Qed.
Definition last_from (n L : Z) : Z :=
  if is_inf n then if sign_bit n then -1 else L - 1
  else if to_Z n <? 0 then L + to_Z n else Z.min (to_Z n) (L - 1).
Lemma negative_finite n : integral n -> is_inf n && sign_bit n = false -> flt n 0 = true -> exists z, rep n z /\ z < 0 /\ is_inf n = false.
Proof.
  intros [U H] Hi E. destruct (is_inf n) eqn:Einf.
  - exfalso. cbn in Hi. revert E. unfold flt, key. rewrite Hi. change (sign_bit 0) with false. change (mag 0) with 0. cbv beta iota.
    intros E. apply andb_true_iff in E as [_ E]. Zbool. pose proof (mag_range n). lia.
  - destruct H as [?|(z & Hz)]; [done|]. pose proof (conj Hz U) as Rz. change (rep n z) in Rz. exists z. split_and!; [done| |done].
    rewrite (r_flt n 0 z 0 Rz r_zero) in E. now Zbool.
Qed.
Lemma last_start_from n L : integral n -> 0 < L <= 2 ^ 32 -> is_inf n && sign_bit n = false ->
  flt (last_start L n) 0 = true /\ last_from n L < 0 \/ rep (last_start L n) (last_from n L) /\ 0 <= last_from n L < L.
Proof.
  intros Hn HL Hi. pose proof (r_of_Z L ltac:(lia)) as RL. unfold last_start. rewrite (fle_0 n (integral_nan n Hn)).
  pose proof (r_sub _ _ _ _ RL (r_of_Z 1 ltac:(lia)) ltac:(lia)) as RM. destruct (flt n 0) eqn:E; cbn [negb].
  - destruct (negative_finite n Hn Hi E) as (z & Rz & Hz & Ef). unfold last_from. rewrite Ef, (r_to_Z n z Rz), (proj2 (Z.ltb_lt z 0)) by lia.
    destruct (decide (L + z < 0)) as [Hneg|].
    + left. split; [|done]. now apply (fadd_negative (of_Z L) n L z (proj1 RL) (proj1 Rz)).
    + right. split; [|lia]. apply r_add; [done|done|lia].
  - right. destruct (relative_spec n (fsub (of_Z L) (of_Z 1)) (L - 1) Hn (proj1 RM) ltac:(lia)) as [R B].
    unfold relative in R. rewrite E in R.
    assert (Ek : relative_index n (L - 1) = last_from n L).
    { unfold relative_index, last_from, clamp. destruct (is_inf n) eqn:Einf.
      - destruct (sign_bit n); done.
      - destruct Hn as [U [?|(z & Hz)]]; [congruence|]. pose proof (conj Hz U) as Rz. change (rep n z) in Rz.
        rewrite (r_flt n 0 z 0 Rz r_zero) in E. rewrite (r_to_Z n z Rz), E. done. }
    rewrite Ek in *. pose proof (std_min_u64 n _ (proj1 Hn) (proj2 RM)) as U. destruct (feq n 0) eqn:E0; [|split; [now split|lia]].
    pose proof (equal_zero n Hn E0) as R0.
    assert (E1 : last_from n L = 0).
    { unfold last_from. rewrite (r_to_Z n 0 R0). pose proof (r_finite n 0 R0) as F. unfold is_inf, is_finite in *. Zbool.
      destruct (mag n =? INF) eqn:Em; Zbool; [lia|]. change (0 <? 0) with false. cbv iota. lia. }
    rewrite E1. split; [apply r_zero|lia].
Qed.
Lemma safe_lastIndexOf value fromIndex this : integral_end host fromIndex -> safe any (builtinTypedArrayLastIndexOf toUint64 value fromIndex this).
Proof.
  intros Hf w HG. unfold builtinTypedArrayLastIndexOf. apply (validate_view_spec host); [done|apply buffers_evolve_refl|].
  intros t b x Ev Ek Eb _. cbv beta iota. apply wp_bind, wp_gets_id. cbv beta iota zeta. destruct (read_view w this x Ev) as (-> & _).
  destruct (view_limits host w this x b HG Ev Eb) as (L1 & _). unfold maxArrayBufferSize in L1.
  apply wp_if; intros H0; [apply (post_ret host); [done|apply buffers_evolve_refl|done]|]. Zbool.
  assert (Hn : safe integral (match fromIndex with Some f => f | None => mret (of_Z (m_arrayLength x - 1)) end)).
  { destruct fromIndex; [done|]. apply (safe_ret host). destruct (r_of_Z (m_arrayLength x - 1) ltac:(lia)) as [R U]. split; [done|right; eauto]. }
  apply (safe_bind host w integral); [done|done|apply buffers_evolve_refl|]. intros n w1 Hi HG1 He1 _.
  apply wp_if; intros Hinf; [now apply (post_ret host)|]. apply wp_if; intros Hk; [now apply (post_ret host)|].
  destruct (last_start_from n (m_arrayLength x) Hi ltac:(lia) Hinf) as [[Hneg _]|[Rk Bk]]; [unfold last_start in Hneg; congruence|].
  set (k := last_from n (m_arrayLength x)) in *.
  apply wp_bind. eapply wp_certain; [apply (cast_integral_rep _ _ Rk); lia|]. cbv beta iota. apply wp_bind, wp_gets_id. cbv beta iota.
  destruct (kept_view host w w1 this x b HG1 He1 Ev Eb) as (x1 & Ev1 & Eb1 & Ek1). rewrite Ek in Ek1. destruct (read_view w1 this x1 Ev1) as (-> & _).
  destruct (view_limits host w1 this x1 b HG1 Ev1 Eb1) as (L2 & _).
  destruct (fast_search_spec false w1 this x1 b t k (m_arrayLength x1) value) as (r & E & _);
    try done; [lia|lia|]. eapply wp_eq; [exact E|]. now split.
Qed.
(** The start without the replacement of -0. *)
Lemma include_start_spec n L : integral n -> 0 < L <= 2 ^ 32 -> fle (of_Z L) n = false ->
  cast_size_t (if fle 0 n then n else let k := fadd (of_Z L) n in if flt k 0 then 0 else k) = Some (relative_index n L) /\
  0 <= relative_index n L < L.
Proof.
  intros Hi HL Hle. destruct (from_start_spec n L Hi HL Hle) as [Rk Bk]. split; [|done].
  apply r_cast_size_t; [|lia]. revert Rk. unfold from_start. destruct (fle 0 n) eqn:E; [|done].
  destruct (feq n 0) eqn:E0; [|done]. intros R. pose proof (r_to_Z 0 _ R) as E1. rewrite <- E1. now apply equal_zero.
Qed.
Lemma safe_includes value fromIndex this : integral_end host fromIndex -> safe any (builtinTypedArrayIncludes cvt value fromIndex this).
Proof.
  intros Hf w HG. unfold builtinTypedArrayIncludes. apply (validate_view_spec host); [done|apply buffers_evolve_refl|].
  intros t b x Ev Ek Eb _. cbv beta iota. apply wp_bind, wp_gets_id. cbv beta iota zeta. destruct (read_view w this x Ev) as (-> & _).
  destruct (view_limits host w this x b HG Ev Eb) as (L1 & _). unfold maxArrayBufferSize in L1.
  apply wp_if; intros H0; [apply (post_ret host); [done|apply buffers_evolve_refl|done]|]. Zbool.
  assert (Hn : safe integral (match fromIndex with Some f => f | None => mret 0 end)).
  { destruct fromIndex; [done|]. apply (safe_ret host). split; [done|]. right. exists 0. apply rep_zero. }
  apply (safe_bind host w integral); [done|done|apply buffers_evolve_refl|]. intros n w1 Hi HG1 He1 _.
  apply wp_if; intros Hle; [now apply (post_ret host)|]. destruct (from_start_spec n (m_arrayLength x) Hi ltac:(lia) Hle) as [Rk Bk].
  destruct (include_start_spec n (m_arrayLength x) Hi ltac:(lia) Hle) as [Rk' _].
  apply wp_bind. eapply wp_certain; [exact Rk'|]. cbv beta iota.
  apply (safe_bind host w any); [|done|done|intros r w2 _ HG2 _ He2; now apply (post_ret host)].
  apply safe_search. intros i Hk. apply (safe_seq host any); [apply safe_get; lia|]. intros e _. now apply (safe_ret host).
Qed.

(** ** Texts of bytes *)

(** The loop writes within the array. *)
Lemma decodeHex_spec w0 v x b : Good w0 -> views w0 !! v = Some x -> m_buffer x = Some b -> v_kind x = TypedArray Uint8 ->
  forall n cursor w read written, length cursor = (2 * n)%nat -> same_shape w0 w -> 0 <= written <= m_arrayLength x ->
  wp (decodeHex cursor (m_cachedRawBufferAddress x) read written (m_arrayLength x)) (wrote w0) w.
Proof.
  intros HG Ev Eb Ek. induction n as [|n IH]; intros cursor w read written Hl HS Hw.
  { destruct cursor; [|cbn in Hl; lia]. now apply wp_ret. }
  destruct cursor as [|c1 [|c2 cursor]]; [cbn in Hl; lia..|]. cbn [decodeHex].
  apply wp_if; intros E; [now apply wp_ret|]. cbv zeta. apply wp_if; intros E1; [now apply wp_ret|].
  apply wp_if; intros E2; [now apply wp_ret|]. Zbool.
  pose proof (element_range host w0 v x b Uint8 written HG Ev Eb Ek ltac:(lia)) as Hr. cbn in Hr.
  destruct (view_range host w0 v x b written 1 HG Ev Eb) as [Hin (a & Ea & Ed)]; [lia|lia|lia|].
  destruct (shape_good host w0 w HG HS) as [HGw _]. pose proof (in_range_shape w0 w b _ _ HS Hin) as Hin'.
  pose proof (in_range_data host w b _ _ HGw Hin') as Hh. destruct (shape_buffer w0 w b HS) as (_ & Ed' & _). rewrite Ed', Ed in Hh.
  rewrite Ea in *. apply wp_bind. destruct (store_shape w (Some a) (m_byteOffset x + written) [u8 (parseDigit c1 16 * 16 + parseDigit c2 16)] Hh) as (w' & E' & S);
    [apply Hin|]. eapply wp_eq; [exact E'|]. cbv beta iota. apply IH; [cbn in Hl; lia|now apply (same_shape_trans w0 w)|lia].
Qed.
Lemma even_length {A} (l : list A) : (Z.of_nat (length l) mod 2 =? 1) = false -> length l = (2 * (length l / 2))%nat.
Proof.
  intros H. Zbool. pose proof (Nat.div_mod_eq (length l) 2). assert (Z.of_nat (length l mod 2) <> 1) by (rewrite Nat2Z.inj_mod; lia).
  pose proof (Nat.mod_upper_bound (length l) 2). lia.
Qed.
(** Decoding into a view of the invariant, and what follows. *)
Lemma decoded {A} w0 w v x b string (k : bool * Z * Z -> MU World A) : Good w -> evolves w0 w -> views w !! v = Some x -> m_buffer x = Some b ->
  v_kind x = TypedArray Uint8 -> (Z.of_nat (length string) mod 2 =? 1) = false ->
  (forall r w', Good w' -> evolves w0 w' -> wp (k r) (post w0 (fun _ _ => True)) w') ->
  wp (r ← decodeHex string (m_cachedRawBufferAddress x) 0 0 (m_arrayLength x); k r) (post w0 (fun _ _ => True)) w.
Proof.
  intros HG He Ev Eb Ek Hs Hk. destruct (view_limits host w v x b HG Ev Eb) as (L & _).
  apply wp_bind. eapply wp_mono; [apply (decodeHex_spec w v x b HG Ev Eb Ek _ string w 0 0 (even_length _ Hs)); [apply same_shape_refl|lia]|].
  intros [r|e] w' S; destruct (shape_good host w w' HG S) as [HG' He']; [apply Hk|apply (post_throw host)]; try done;
    now apply (buffers_evolve_trans w0 w).
Qed.
Lemma safe_fromHex string : Z.of_nat (length string) < 2 ^ 53 -> safe any (builtinUint8ArrayFromHex null_when_empty string).
Proof.
  intros Hl w HG. unfold builtinUint8ArrayFromHex. apply (throw_if_spec host); [done|apply buffers_evolve_refl|]. intros Hs. cbv zeta.
  destruct (new_view_good host w (TypedArray Uint8) HG) as (HG2 & He2 & Hnone & Hv).
  unfold create_view. apply wp_bind. eapply wp_eq; [reflexivity|]. cbv beta iota. fold (fresh_view (TypedArray Uint8)). fold (with_view (TypedArray Uint8) w).
  assert (Hn : 0 <= Z.of_nat (length string) / 2 < 2 ^ 53) by (split; [apply Z.div_pos; lia|apply Z.div_lt_upper_bound; lia]).
  apply wp_bind. unfold allocate_elements. cbv zeta.
  eapply wp_mono; [apply (connect_new_spec host null_when_empty w _ Uint8 _ _ HG2 He2 Hnone Hv); [lia|cbn; lia]|].
  intros [[]|e] w1 (HG1 & He1 & H1); [|now apply (post_throw host)]. destruct H1 as (x & b & Ev & Ek & Eb).
  apply wp_bind, wp_gets_id. cbv beta iota. destruct (read_view w1 (length (views w)) x Ev) as (-> & _ & _ & -> & _).
  apply (decoded w w1 (length (views w)) x b); try done. intros [[ok r] n] w2 HGw Hew. apply (throw_if_spec host); [done|done|]. intros _.
  now apply (post_ret host).
Qed.
Lemma resolve_Uint8Array_spec {A} w0 (k : MU World A) P this w : Good w -> evolves w0 w ->
  (forall x b, views w !! this = Some x -> v_kind x = TypedArray Uint8 -> m_buffer x = Some b -> wp k (post w0 P) w) ->
  wp (resolve_Uint8Array this;; k) (post w0 P) w.
Proof.
  intros HG He H. apply wp_bind. unfold resolve_Uint8Array.
  eapply wp_mono; [apply (resolve_typed_spec host w0 _ (fun _ w' => w' = w /\ wp k (post w0 P) w)); [done|done|]|].
  - intros t b x Ev Ek Eb. cbv beta iota. eapply wp_mono; [apply (wp_throw_if _ _ (fun r w' => w' = w /\ (r = inl tt -> is_uint8 t = true)))|].
    + done.
    + intros Hb. split; [done|]. now apply negb_false_iff in Hb.
    + intros [[]|e] w' [-> Ht]; [|now apply (post_throw host)]. split; [done|]. split; [done|]. split; [done|].
      apply (H x b); [done| |done]. rewrite Ek. now destruct t; specialize (Ht eq_refl).
  - intros [[]|e] w' (HG' & He' & Hp); [destruct Hp as [-> Hp]; exact Hp|now apply (post_throw host)].
Qed.
Lemma safe_setFromHex string this : safe any (builtinUint8ArraySetFromHex string this).
Proof.
  intros w HG. unfold builtinUint8ArraySetFromHex. apply resolve_Uint8Array_spec; [done|apply buffers_evolve_refl|]. intros x b Ev Ek Eb.
  apply (throw_if_spec host); [done|apply buffers_evolve_refl|]. intros Hs.
  apply (validate_view_spec host); [done|apply buffers_evolve_refl|]. intros t' b' x' _ _ _ _.
  apply wp_bind, wp_gets_id. cbv beta iota. apply (throw_if_spec host); [done|apply buffers_evolve_refl|]. intros _.
  destruct (read_view w this x Ev) as (-> & _ & _ & -> & _).
  apply (decoded w w this x b); try done; [apply buffers_evolve_refl|]. intros [[ok r] n] w2 HGw Hew. apply (throw_if_spec host); [done|done|].
  intros _. now apply (post_ret host).
Qed.

Lemma wp_pure_fold {V} (P : V -> Prop) w n k (body : V -> Z -> MU World V) v : P v ->
  (forall v i, P v -> k <= i < k + Z.of_nat n -> wp (body v i) (fun r w' => w' = w /\ exists u, r = inl u /\ P u) w) ->
  wp (fold_from n k body v) (fun r w' => w' = w /\ exists u, r = inl u /\ P u) w.
Proof.
  revert k v. induction n as [|n IH]; intros k v Hv Hb; cbn [fold_from]; [apply wp_ret; eauto|]. apply wp_bind.
  eapply wp_mono; [apply Hb; [done|lia]|]. intros r w' [-> (u & -> & Hu)]. apply IH; [done|]. intros u' i Hu' Hi. apply Hb; [done|lia].
Qed.
Lemma radix_digit i : 0 <= i < 16 -> exists c, radixDigits !! Z.to_nat i = Some c /\ parseDigit c 16 = i /\ 48 <= c < 128.
Proof.
  intros Hi. assert (H : forallb (fun i => match radixDigits !! i with
    | Some c => (parseDigit c 16 =? Z.of_nat i) && (48 <=? c) && (c <? 128) | None => false end) (seq 0 16) = true) by (vm_compute; reflexivity).
  rewrite forallb_forall in H. specialize (H (Z.to_nat i) ltac:(apply in_seq; lia)). destruct (radixDigits !! Z.to_nat i) as [c|]; [|done].
  exists c. Zbool. split_and!; [done| |lia|lia]. lia.
Qed.
(** The text of a byte. *)
Lemma hex_body w v x b builder i : Good w -> views w !! v = Some x -> m_buffer x = Some b -> v_kind x = TypedArray Uint8 -> 0 <= i < m_arrayLength x ->
  exists byte h l, load_bytes (advance (rawBuffer w v) i) 1 w = Some (w, inl [byte]) /\
    (bytes ← load_bytes (advance (rawBuffer w v) i) 1;
     byte ← certain (head bytes);
     let character := u8 byte in
     high ← certain (radixDigits !! Z.to_nat (character / 16));
     low ← certain (radixDigits !! Z.to_nat (character mod 16));
     mret (builder ++ [high; low])) w = Some (w, inl (builder ++ [h; l])) /\
    parseDigit h 16 = u8 byte / 16 /\ parseDigit l 16 = u8 byte mod 16.
Proof.
  intros HG Ev Eb Ek Hi. destruct (element_loads w v x b Uint8 i HG Ev Eb Ek Hi) as [E L].
  change (type_elementSize Uint8) with 1 in *. rewrite Z.mul_1_r in E. destruct (element_bytes w v Uint8 i) as [|byte [|c l]] eqn:Eq; [done| |cbn in L; lia].
  pose proof (wrapu_range 8 byte ltac:(lia)) as Hb. unfold in_u in Hb.
  destruct (radix_digit (u8 byte / 16)) as (h & Eh & Ph & _); [split; [apply Z.div_pos; lia|apply Z.div_lt_upper_bound; lia]|].
  destruct (radix_digit (u8 byte mod 16)) as (l & El & Pl & _); [apply Z.mod_pos_bound; lia|].
  exists byte, h, l. split_and!; try done. unfold mbind, MU_bind. rewrite E. cbn [certain head]. unfold certain at 1. cbv zeta.
  rewrite Eh. unfold certain at 1. rewrite El. done.
Qed.
Lemma safe_toHex this : safe any (builtinUint8ArrayToHex this).
Proof.
  intros w HG. unfold builtinUint8ArrayToHex. apply resolve_Uint8Array_spec; [done|apply buffers_evolve_refl|]. intros x b Ev Ek Eb.
  apply (validate_view_spec host); [done|apply buffers_evolve_refl|]. intros t' b' x' _ _ _ _.
  apply wp_bind, wp_gets_id. cbv beta iota. destruct (read_view w this x Ev) as (-> & _).
  destruct (view_limits host w this x b HG Ev Eb) as (L & _).
  eapply wp_mono; [apply (wp_pure_fold any w); [done|]|].
  - intros builder i _ Hi. destruct (hex_body w this x b builder i HG Ev Eb Ek ltac:(lia)) as (byte & h & l & _ & E & _).
    eapply wp_eq; [exact E|]. split; [done|]. eexists. split; [reflexivity|done].
  - intros r w' [-> (u & -> & _)]. split; [done|]. split; [apply buffers_evolve_refl|done].
Qed.

(** ** Atomics *)

Definition atomic_ok (x : AtomicArg) : Prop := safe any (to_integer x) /\ safe any (to_big x).
Lemma safe_atomic_value t x : atomic_ok x -> safe any (atomic_value cvt t x).
Proof.
  intros [H1 H2]. unfold atomic_value. destruct (isBigIntArray t).
  - apply (safe_seq host any); [done|]. intros n _. now apply (safe_ret host).
  - apply (safe_seq host any); [done|]. intros d _. now apply (safe_ret host).
Qed.

Lemma integer_array_spec {A} w0 (k : TypedArrayType * nat -> MU World A) P waitable this w : Good w -> evolves w0 w ->
  (forall t b x, views w !! this = Some x -> v_kind x = TypedArray t -> m_buffer x = Some b -> wp (k (t, b)) (post w0 P) w) ->
  wp (p ← validateIntegerTypedArray waitable this; k p) (post w0 P) w.
Proof.
  intros HG He H. apply wp_bind. unfold validateIntegerTypedArray.
  eapply wp_mono; [apply (validate_view_spec host w0 _ (fun p w' => w' = w /\ wp (k p) (post w0 P) w)); [done|done|]|].
  - intros t b x Ev Ek Eb _. cbv beta iota. apply (throw_if_spec host); [done|done|]. intros _. apply (post_ret host); [done|done|].
    split; [done|]. now apply (H t b x).
  - intros [p|e] w' (HG' & He' & Hp); [destruct Hp as [-> Hp]; exact Hp|now apply (post_throw host)].
Qed.
(** The position of an access, and what checking it again gives. *)
Lemma atomic_access_spec {A} w0 (k : Z -> MU World A) P this t b x toIndex w : safe is_index toIndex -> Good w -> evolves w0 w ->
  views w !! this = Some x -> v_kind x = TypedArray t -> m_buffer x = Some b ->
  (forall p w', 0 <= p < 2 ^ 53 -> Good w' -> evolves w w' -> evolves w0 w' -> wp (k p) (post w0 P) w') ->
  wp (p ← validateAtomicAccess this toIndex; k p) (post w0 P) w.
Proof.
  intros Hi HG He Ev Ek Eb Hk. apply wp_bind. eapply wp_mono with (Q := post w (fun p _ => 0 <= p < 2 ^ 53)).
  2:{ intros [p|e] w1 (HG1 & He1 & Hp); [apply Hk|apply (post_throw host)]; try done; now apply (buffers_evolve_trans w0 w). }
  unfold validateAtomicAccess. apply wp_bind, wp_gets_id. cbv beta iota zeta. destruct (read_view w this x Ev) as (-> & _).
  destruct (view_limits host w this x b HG Ev Eb) as (L1 & _). unfold maxArrayBufferSize in L1.
  apply (safe_bind host w is_index); [done|done|apply buffers_evolve_refl|]. intros i w1 Hx HG1 He1 _.
  apply (throw_if_spec host); [done|done|]. intros E. Zbool.
  destruct (kept_view host w w1 this x b HG1 He1 Ev Eb) as (x1 & Ev1 & Eb1 & Ek1). rewrite Ek in Ek1.
  apply (resolve_typed_spec host); [done|done|]. intros t' b' x' Ev' Ek' _. cbv beta iota. assert (t' = t) as -> by congruence.
  apply wp_bind, wp_gets_id. cbv beta iota. destruct (read_view w1 this x1 Ev1) as (_ & _ & -> & _).
  destruct (view_limits host w1 this x1 b HG1 Ev1 Eb1) as (_ & _ & L3 & _). pose proof (elementSize_range t) as Hs.
  assert (0 <= i < 2 ^ 53) by (destruct Hx; [done|congruence]).
  rewrite (wrapu_id 64 (i * _)) by (unfold in_u; nia). rewrite wrapu_id by (unfold in_u; nia).
  apply (post_ret host); [done|done|]. nia.
Qed.
Lemma revalidate_spec {A} w0 (k : MU World A) P b p t w : 0 <= p < 2 ^ 53 -> is_Some (buffers w !! b) -> Good w -> evolves w0 w ->
  (in_range w b p (type_elementSize t) -> wp k (post w0 P) w) ->
  wp (revalidateAtomicAccess b p (type_elementSize t);; k) (post w0 P) w.
Proof.
  intros Hp Hb HG He Hk. pose proof (elementSize_range t) as Hs. apply wp_bind. unfold revalidateAtomicAccess.
  apply wp_bind, wp_gets_id. cbv beta iota. apply wp_bind, wp_throw_if; intros Hd; [now apply (post_throw host)|].
  apply wp_throw_if; intros Hl; [now apply (post_throw host)|]. rewrite wrapu_id in Hl by (unfold in_u; lia). Zbool.
  apply Hk. split_and!; done || lia.
Qed.

(** An element at a position that was checked. *)
Lemma load_at w b p n : Good w -> in_range w b p n -> exists bytes,
  load_bytes (plus (data w b) p) n w = Some (w, inl bytes) /\ Z.of_nat (length bytes) = n.
Proof.
  intros HG R. apply load_bytes_ok; [now apply (in_range_data host)|apply R|]. destruct R as (_ & _ & _ & H & _). lia.
Qed.
Lemma store_at {A} w0 (k : MU World A) P w b p bytes : Good w -> evolves w0 w -> in_range w b p (Z.of_nat (length bytes)) ->
  (forall w', Good w' -> evolves w0 w' -> wp k (post w0 P) w') -> wp (store_bytes (plus (data w b) p) bytes;; k) (post w0 P) w.
Proof.
  intros HG He R Hk. apply (wp_wrote_bind host); [done|done| |intros w' _ HG' _ He'; now apply Hk].
  destruct (store_shape w (data w b) p bytes) as (w' & E & S); [now apply (in_range_data host)|apply R|]. eapply wp_eq; [exact E|exact S].
Qed.
Lemma view_buffer_exists w v x b : Good w -> views w !! v = Some x -> m_buffer x = Some b -> is_Some (buffers w !! b).
Proof. intros HG Ev Eb. apply (typed_facts host w v x b HG Ev Eb). Qed.

Lemma safe_modify w0 w b p t v op : Good w -> evolves w0 w -> in_range w b p (type_elementSize t) ->
  wp (getModifySetValueInBuffer toUint64 b p t v op) (post w0 (fun _ _ => True)) w.
Proof.
  intros HG He R. pose proof (elementSize_range t) as Hs. unfold getModifySetValueInBuffer. cbv zeta.
  apply wp_bind, wp_gets_id. cbv beta iota. apply wp_bind, wp_require; [apply Z.leb_le, R|].
  assert (Hop : forall k, (forall n, wp (k n) (post w0 (fun (_ : Numeric) _ => True)) w) ->
                wp (n ← atomic_operand toUint64 t v; k n) (post w0 (fun _ _ => True)) w).
  { intros k Hk. apply wp_bind. unfold atomic_operand. destruct (isBigIntArray t) eqn:Eb.
    - apply wp_bind. destruct (lift_cases (toBigInt v) w) as [(n & _ & E)|[e E]]; (eapply wp_eq; [exact E|]); [apply wp_ret, Hk|now apply (post_throw host)].
    - unfold cast. destruct (cast_integral _ _ _) as [n|]; [apply wp_ret, Hk|apply wp_throw; now apply (post_throw host)]. }
  apply Hop. intros n. destruct (load_at w b p _ HG R) as (old & E & _). apply wp_bind. eapply wp_eq; [exact E|]. cbv beta iota.
  apply store_at; [done|done| |intros w' HG' He'; now apply (post_ret host)]. rewrite length_le_bytes, Z2Nat.id by lia. exact R.
Qed.
Lemma safe_atomicReadModifyWrite this toIndex value op : safe is_index toIndex -> atomic_ok value ->
  safe any (atomicReadModifyWrite cvt toUint64 this toIndex value op).
Proof.
  intros Hi Hv w HG. unfold atomicReadModifyWrite. apply integer_array_spec; [done|apply buffers_evolve_refl|]. intros t b x Ev Ek Eb. cbv beta iota.
  apply (atomic_access_spec w _ _ this t b x); try done; [apply buffers_evolve_refl|]. intros p w1 Hp HG1 He1 _.
  apply (safe_bind host w any); [now apply safe_atomic_value|done|done|]. intros v w2 _ HG2 _ He2.
  destruct (kept_view host w w2 this x b HG2 He2 Ev Eb) as (x2 & Ev2 & Eb2 & _).
  apply revalidate_spec; [done|now apply (view_buffer_exists w2 this x2)|done|done|]. intros R. now apply safe_modify.
Qed.
Lemma safe_AtomicsCompareExchange this toIndex expected replacement : safe is_index toIndex -> atomic_ok expected -> atomic_ok replacement ->
  safe any (builtinAtomicsCompareExchange cvt toUint64 this toIndex expected replacement).
Proof.
  intros Hi He Hr w HG. unfold builtinAtomicsCompareExchange. apply integer_array_spec; [done|apply buffers_evolve_refl|]. intros t b x Ev Ek Eb. cbv beta iota.
  apply (atomic_access_spec w _ _ this t b x); try done; [apply buffers_evolve_refl|]. intros p w1 Hp HG1 He1 _.
  apply (safe_bind host w any); [now apply safe_atomic_value|done|done|]. intros v w2 _ HG2 He12 He2.
  apply (safe_bind host w any); [now apply safe_atomic_value|done|done|]. intros u w3 _ HG3 _ He3. cbv zeta.
  destruct (kept_view host w w3 this x b HG3 He3 Ev Eb) as (x3 & Ev3 & Eb3 & _).
  apply revalidate_spec; [done|now apply (view_buffer_exists w3 this x3)|done|done|]. intros R.
  apply wp_bind. destruct (numberToRawBytes_cases cvt toUint64 t v w3) as [(eb & E & _)|[e E]]; (eapply wp_eq; [exact E|]);
    [|now apply (post_throw host)]. cbv beta iota. apply wp_bind, wp_gets_id. cbv beta iota.
  apply wp_bind. destruct (numberToRawBytes_cases cvt toUint64 t u w3) as [(rb & E' & Lr)|[e E']]; (eapply wp_eq; [exact E'|]);
    [|now apply (post_throw host)]. cbv beta iota.
  destruct (load_at w3 b p _ HG3 R) as (old & El & _). apply wp_bind. eapply wp_eq; [exact El|]. cbv beta iota.
  destruct (bool_decide (old = eb)); [|now apply wp_bind, wp_ret, (post_ret host)].
  apply store_at; [done|done|now rewrite Lr|]. intros w' HG' He'. now apply (post_ret host).
Qed.
Lemma safe_AtomicsLoad this toIndex : safe is_index toIndex -> safe any (builtinAtomicsLoad this toIndex).
Proof.
  intros Hi w HG. unfold builtinAtomicsLoad. apply integer_array_spec; [done|apply buffers_evolve_refl|]. intros t b x Ev Ek Eb. cbv beta iota.
  apply (atomic_access_spec w _ _ this t b x); try done; [apply buffers_evolve_refl|]. intros p w1 Hp HG1 He1 _.
  destruct (kept_view host w w1 this x b HG1 He1 Ev Eb) as (x1 & Ev1 & Eb1 & _).
  apply revalidate_spec; [done|now apply (view_buffer_exists w1 this x1)|done|done|]. intros R.
  destruct (getValueFromBuffer_spec host w1 b p t true HG1 R) as [y E]. eapply wp_eq; [exact E|]. now split.
Qed.
Lemma safe_AtomicsStore this toIndex value : safe is_index toIndex -> atomic_ok value -> safe any (builtinAtomicsStore cvt toUint64 this toIndex value).
Proof.
  intros Hi Hv w HG. unfold builtinAtomicsStore. apply integer_array_spec; [done|apply buffers_evolve_refl|]. intros t b x Ev Ek Eb. cbv beta iota.
  apply (atomic_access_spec w _ _ this t b x); try done; [apply buffers_evolve_refl|]. intros p w1 Hp HG1 He1 _.
  apply (safe_bind host w any); [now apply safe_atomic_value|done|done|]. intros v w2 _ HG2 _ He2.
  destruct (kept_view host w w2 this x b HG2 He2 Ev Eb) as (x2 & Ev2 & Eb2 & _).
  apply revalidate_spec; [done|now apply (view_buffer_exists w2 this x2)|done|done|]. intros R.
  apply (wp_wrote_bind host); [done|done|now apply (setValueInBuffer_spec host)|]. intros w3 _ HG3 _ He3. now apply (post_ret host).
Qed.

End Host.
End TypedArrayLoopSafety.
