(* ===== verification/BufferScript.v ===== *)
(** What script code can do with array buffers, typed arrays and DataViews: the
    computations that it makes of their builtins, with conversions of arguments
    that are computations again, and with the collector freeing stores in
    between.  Each of them stays within the defined behaviour of C++ and keeps the
    invariant; in a world of the invariant the cached range of each view is memory
    of its buffer, and its lengths are those of ECMA-262. *)
From Stdlib Require Import ZArith Lia Bool.
From stdpp Require Import base numbers list option decidable gmap.
From S2P Require Import Prelude Effects Double Float16 Value ArrayBuffer BufferInvariant BufferSafety BufferBuiltins TypedArray.
From S2P Require Import TypedArraySafety TypedArrayCopies TypedArrayLoops TypedArrayLoopSafety.

(** * Collecting stores *)
Module Collection.
Import Effects WP Buffers Wiring Notified Invariant Steps BufferSpecs BufferBuiltins.

(** The finalizer of a store runs when no buffer refers to it. *)
Definition refers_to (s : nat) (b : ArrayBuffer) : bool := bool_decide (m_backingStore b = Some s).
Definition collect (s : nat) : MU World unit :=
  w ← gets id;
  match stores w !! s with
  | Some _ => if existsb (refers_to s) (buffers w) then mret tt else clearBackingStore s
  | None => mret tt
  end.

Section Host.
Context (host : bool).
Let Base := Base host.
Let Good := Good host.

Lemma unreferred w s : existsb (refers_to s) (buffers w) = false -> forall b, the_store w b <> Some s.
Proof.
  intros H b E. unfold the_store in E. destruct (buffers w !! b) as [y|] eqn:Ey; [|done].
  enough (Ht : existsb (refers_to s) (buffers w) = true) by congruence. apply existsb_exists. exists y. split.
  - apply list_elem_of_In. now apply list_elem_of_lookup_2 with b.
  - now apply bool_decide_eq_true.
Qed.

(** A store that no buffer refers to changes. *)
Lemma unused_changes w w' s : Good w -> Base w' -> (forall b, the_store w b <> Some s) ->
  buffers w' = buffers w -> views w' = views w -> lengths_kept w w' ->
  (forall u, u <> s -> stores w' !! u = stores w !! u) ->
  (forall b u x, the_store w b = Some u -> stores w !! u = Some x -> store_data w' x = store_data w x /\ store_byteLength w' x = store_byteLength w x) ->
  Good w' /\ evolves w w'.
Proof.
  intros [HB Hs] HB' Hun Eb Ev Hl Est Hd.
  assert (Et : forall b, the_store w' b = the_store w b) by (intros b; unfold the_store; now rewrite Eb).
  split; [split; [done|]|split].
  - intros b x. rewrite Eb. intros E. destruct (Hs b x E) as [S1 S2]. split; [done|]. intros u Eu. destruct (S2 u Eu) as (y & Ey & Ky).
    exists y. split; [|done]. rewrite Est; [done|]. intros ->. apply (Hun b). unfold the_store. now rewrite E.
  - rewrite Eb. eauto.
  - now apply views_kept_eq.
  - exact Hl.
  - apply steady_memory. intros b _. unfold data, isDetachedBuffer, byteLength, backingStore. rewrite Et.
    destruct (the_store w b) as [u|] eqn:Eu; [|done]. rewrite Est by (intros ->; now apply (Hun b)).
    destruct (stores w !! u) as [x|] eqn:Ex; [|done]. cbn. now destruct (Hd b u x Eu Ex) as [-> ->].
Qed.

Lemma freed_lengths w a : lengths_kept w (upd_blocks (alter free_block a) w).
Proof.
  intros c blk E. cbn. rewrite lookup_alter_decide, E. case_decide; [|eauto]. now exists (free_block blk).
Qed.
Lemma onFree_spec w d n : holds w d n ->
  onFree d w = Some (match d with Some a => upd_blocks (alter free_block a) w | None => w end, inl tt).
Proof. destruct d as [a|]; [|done]. cbn. intros (blk & -> & -> & _). done. Qed.

Lemma clear_nonshared w s x n : Good w -> stores w !! s = Some x -> kind x = NonShared n -> (forall b, the_store w b <> Some s) ->
  wp (clearBackingStore s) (post host w (fun _ _ => True)) w.
Proof.
  intros HG Es Ek Hun. unfold clearBackingStore. apply wp_bind, wp_gets_id. cbv beta iota. apply wp_bind. eapply wp_certain; [exact Es|].
  cbv beta iota. rewrite Ek. destruct (n_gcDisclaimAlive n) eqn:Ea; [|apply wp_ret; split; [done|]; split; [apply buffers_evolve_refl|done]].
  set (n' := mkNonShared (n_data n) (n_byteLength n) (n_maxByteLength n) (n_isAllocatedByPlatform n) (n_isResizable n) false).
  assert (Hh : exists m, holds w (n_data n) m).
  { pose proof HG as [[[C _] _] _]. destruct (c_live _ _ C s x Es) as [D|L]; rewrite Ek in *; cbn in *; [congruence|].
    destruct L as (_ & _ & L). destruct (n_isResizable n); [|eauto]. destruct L. eauto. }
  destruct Hh as [m Hh]. apply wp_bind. eapply wp_eq; [apply (onFree_spec w _ m Hh)|]. cbv beta iota. apply wp_modify.
  destruct (base_clear_nonshared host w s x n ltac:(apply HG) Es Ek Hun) as [HB1 Hno]. fold n' in HB1, Hno.
  set (w1 := upd_stores (alter (set_kind (NonShared n')) s) w) in *.
  set (wf := match n_data n with Some a => upd_blocks (alter free_block a) w | None => w end).
  enough (H : Good (upd_stores (alter (set_kind (NonShared n')) s) wf) /\ evolves w (upd_stores (alter (set_kind (NonShared n')) s) wf)).
  { destruct H. split; [done|]. now split. }
  apply (unused_changes w _ s HG).
  - unfold wf. destruct (n_data n) as [a|] eqn:Ed; [|exact HB1]. apply (base_free host w1 a HB1). now apply Hno.
  - done.
  - unfold wf. now destruct (n_data n).
  - unfold wf. now destruct (n_data n).
  - unfold wf. destruct (n_data n) as [a|]; [apply (freed_lengths w a)|intros c blk E; eauto].
  - intros u Hu. replace (stores _) with (stores w1) by (unfold wf; now destruct (n_data n)).
    unfold w1. rewrite (set_kind_lookup w s x _ u Es). now case_decide.
  - intros b u z _ _. unfold wf. now destruct (n_data n).
Qed.

Lemma clear_shared w s x i : Good w -> stores w !! s = Some x -> kind x = Shared (Some i) -> (forall b, the_store w b <> Some s) ->
  wp (clearBackingStore s) (post host w (fun _ _ => True)) w.
Proof.
  intros HG Es Ek Hun. pose proof HG as [[[C _] _] _].
  destruct (c_live _ _ C s x Es) as [D|L]; rewrite Ek in *; [done|]. destruct L as (y & Ei & Hpos & Hlen & Hmem).
  unfold clearBackingStore, info_deref. apply wp_bind, wp_gets_id. cbv beta iota. apply wp_bind. eapply wp_certain; [exact Es|].
  cbv beta iota. rewrite Ek. apply wp_bind, wp_bind, wp_gets_id. cbv beta iota. apply wp_bind. eapply wp_certain; [exact Ei|]. cbv beta iota.
  rewrite (proj2 (Z.ltb_lt 0 _)) by lia. apply wp_bind, wp_ret. cbv beta iota. apply wp_bind, wp_modify. cbv beta iota. fold (release i w).
  destruct (base_clear_shared host w s x i y ltac:(apply HG) Es Ek Ei Hun) as [HB1 Hno].
  set (w1 := upd_stores (alter (set_kind (Shared None)) s) (release i w)) in *.
  assert (El : forall u, u <> s -> stores w1 !! u = stores w !! u).
  { intros u Hu. unfold w1. rewrite (set_kind_lookup (release i w) s x _ u Es). now case_decide. }
  assert (EI : forall j, infos w1 !! j = if decide (j = i) then Some (mkInfo (i_data y) (i_byteLength y) (i_refCount y - 1) (i_growable y)) else infos w !! j)
    by (intros; now apply release_lookup).
  destruct (i_refCount y =? 1) eqn:E1; Zbool.
  - assert (Hh : exists m, holds (release i w) (i_data y) m) by (destruct (i_growable y); [destruct Hmem|]; eauto).
    destruct Hh as [m Hh]. apply wp_bind. eapply wp_eq; [apply (onFree_spec _ _ m Hh)|]. cbv beta iota. apply wp_modify. cbv beta iota. apply wp_modify.
    set (wf := match i_data y with Some a => upd_blocks (alter free_block a) (release i w) | None => release i w end).
    set (forget := fun x => mkInfo None 0 (i_refCount x) (i_growable x)).
    enough (H : Good (upd_stores (alter (set_kind (Shared None)) s) (upd_infos (alter forget i) wf)) /\
                evolves w (upd_stores (alter (set_kind (Shared None)) s) (upd_infos (alter forget i) wf))).
    { destruct H. split; [done|]. now split. }
    assert (HB2 : Base (match i_data y with Some a => upd_blocks (alter free_block a) w1 | None => w1 end)).
    { destruct (i_data y) as [a|] eqn:Ed; [|exact HB1]. apply (base_free host w1 a HB1). apply Hno; done || lia. }
    set (w2 := match i_data y with Some a => upd_blocks (alter free_block a) w1 | None => w1 end) in *.
    assert (EI2 : infos w2 = infos w1) by (unfold w2; now destruct (i_data y)).
    apply (unused_changes w _ s HG).
    + assert (E2 : infos w2 !! i = Some (mkInfo (i_data y) (i_byteLength y) (i_refCount y - 1) (i_growable y))) by (rewrite EI2, EI; now case_decide).
      pose proof (base_forget host w2 i _ HB2 E2 ltac:(cbn; lia)) as HB3. revert HB3. unfold w2, wf, forget. now destruct (i_data y).
    + done.
    + unfold wf. now destruct (i_data y).
    + unfold wf. now destruct (i_data y).
    + unfold wf. destruct (i_data y) as [a|]; [apply (freed_lengths w a)|intros c blk E; eauto].
    + intros u Hu. rewrite <- (El u Hu). unfold wf. now destruct (i_data y).
    + intros b u z Eu Ez. assert (Hne : kind z <> Shared (Some i)).
      { intros K. destruct HB1 as [[C1 _] _]. destruct (c_used _ _ C1 b u Eu) as (z' & Ez' & L'). assert (u <> s) by (intros ->; now apply (Hun b)).
        rewrite El in Ez' by done. assert (z' = z) as -> by congruence. rewrite K in L'. destruct L' as (y' & Ey' & P & _).
        rewrite EI, decide_True in Ey' by done. injection Ey' as <-. cbn in P. lia. }
      unfold store_data, store_byteLength, store_info. destruct (kind z) as [|[j|]]; [done| |done].
      replace (infos _ !! j) with (infos w !! j); [done|]. unfold wf. destruct (i_data y); cbn; rewrite !lookup_alter_decide, decide_False by congruence; now rewrite decide_False by congruence.
  - apply wp_ret, wp_modify.
    enough (H : Good w1 /\ evolves w w1) by (destruct H; split; [done|]; now split).
    apply (unused_changes w _ s HG HB1 Hun); try done.
    + intros c blk E. eauto.
    + intros b u z _ _. unfold store_data, store_byteLength, store_info. destruct (kind z) as [|[j|]]; [done| |done].
      rewrite EI. case_decide; [subst j; now rewrite Ei|done].
Qed.

Lemma safe_collect s : safe host any (collect s).
Proof.
  intros w HG. unfold collect. apply wp_bind, wp_gets_id. cbv beta iota. destruct (stores w !! s) as [x|] eqn:Es.
  2: { apply wp_ret. split; [done|]. split; [apply buffers_evolve_refl|done]. }
  destruct (existsb _ _) eqn:Ex; [apply wp_ret; split; [done|]; split; [apply buffers_evolve_refl|done]|].
  pose proof (unreferred w s Ex) as Hun. destruct (kind x) as [n|[i|]] eqn:Ek.
  - now apply (clear_nonshared w s x n).
  - now apply (clear_shared w s x i).
  - unfold clearBackingStore. apply wp_bind, wp_gets_id. cbv beta iota. apply wp_bind. eapply wp_certain; [exact Es|]. cbv beta iota. rewrite Ek.
    apply wp_ret. split; [done|]. split; [apply buffers_evolve_refl|done].
Qed.

End Host.
End Collection.

(** * Scripts *)
Module Scripts.
Import Effects WP Buffers Wiring Notified Invariant Steps RelativeFacts BufferSpecs BufferBuiltins TypedArrays ElementFacts
  TypedArraySafety TypedArrayCopies TypedArrayLoops TypedArrayLoopSafety Collection.

Section Scripts.
Context (null_when_empty : bool) (cvt toUint64 : Z -> Z).

(** The constructor of typed arrays, where what is given as a buffer is one. *)
Definition is_given (a : FirstArgument) (w : World) : bool :=
  match a with ArrayBufferArgument b _ _ => is_buffer w b | _ => true end.
Definition new_typed_array (t : TypedArrayType) (proto : MU World unit) (a : FirstArgument) : MU World nat :=
  w ← gets id;
  throw_if (negb (is_given a w)) ThrownTypeError;;
  builtinTypedArrayConstructor cvt toUint64 null_when_empty t proto a.

(** [script P m]: a script can be [m], and what it returns is in [P].  Scripts see
    what they like of the state, call the builtins with scripts as conversions,
    and the collector runs whenever it likes. *)
Inductive script : forall {A : Type}, (A -> Prop) -> MU World A -> Prop :=
  | s_ret A (P : A -> Prop) a : P a -> script P (mret a)
  | s_throw A (P : A -> Prop) e : script P (throw e)
  | s_gets A (f : World -> A) : script any (gets f)
  | s_bind A B (P : A -> Prop) (Q : B -> Prop) m k : script P m -> (forall a, P a -> script Q (k a)) -> script Q (a ← m; k a)
  | s_weaken A (P Q : A -> Prop) m : (forall a, P a -> Q a) -> script P m -> script Q m
  | s_collect s : script any (collect s)
  (* ArrayBuffer and SharedArrayBuffer *)
  | s_ArrayBuffer toIndex maxOption proto : script is_index toIndex -> script max_ok maxOption -> script any proto ->
      script any (builtinArrayBufferConstructor null_when_empty toIndex maxOption proto)
  | s_SharedArrayBuffer toIndex maxOption proto : script is_index toIndex -> script max_ok maxOption -> script any proto ->
      script any (builtinSharedArrayBufferConstructor null_when_empty toIndex maxOption proto)
  | s_byteLength b : script any (builtinArrayBufferByteLengthGetter b)
  | s_maxByteLength b : script any (builtinArrayBufferMaxByteLengthGetter b)
  | s_resizable b : script any (builtinArrayBufferResizableGetter b)
  | s_detached b : script any (builtinArrayBufferDetachedGetter b)
  | s_shared_byteLength b : script any (builtinSharedArrayBufferByteLengthGetter b)
  | s_shared_maxByteLength b : script any (builtinSharedArrayBufferMaxByteLengthGetter b)
  | s_growable b : script any (builtinSharedArrayBufferGrowableGetter b)
  | s_resize toInteger b : script not_nan toInteger -> script any (builtinArrayBufferResize toInteger b)
  | s_grow toInteger b : script not_nan toInteger -> script any (builtinSharedArrayBufferGrow toInteger b)
  | s_transfer toIndex b : optional is_index toIndex -> script any (builtinArrayBufferTransfer null_when_empty toIndex b)
  | s_transferToFixedLength toIndex b : optional is_index toIndex ->
      script any (builtinArrayBufferTransferToFixedLength null_when_empty toIndex b)
  | s_buffer_slice start stop species b : script integral start -> optional integral stop -> (forall n, 0 <= n -> script any (species n)) ->
      script any (builtinArrayBufferSlice start stop species b)
  | s_shared_slice start stop species b : script integral start -> optional integral stop -> (forall n, 0 <= n -> script any (species n)) ->
      script any (builtinSharedArrayBufferSlice start stop species b)
  (* DataView *)
  | s_DataView b off length proto : optional is_index off -> length_script length -> script any proto ->
      script any (builtinDataViewConstructor b off length proto)
  | s_DataView_byteLength v : script any (builtinDataViewByteLengthGetter v)
  | s_DataView_byteOffset v : script any (builtinDataViewByteOffsetGetter v)
  | s_getViewValue v toIndex le t : script is_index toIndex -> script any (getViewValue v toIndex le t)
  | s_setViewValue v toIndex toNumeric le t : script is_index toIndex -> script any toNumeric ->
      script any (setViewValue cvt toUint64 v toIndex toNumeric le t)
  (* Typed arrays *)
  | s_TypedArray t proto a : script any proto -> first_script a -> script any (new_typed_array t proto a)
  | s_typed_byteLength v : script any (builtinTypedArrayByteLengthGetter v)
  | s_typed_byteOffset v : script any (builtinTypedArrayByteOffsetGetter v)
  | s_typed_length v : script any (builtinTypedArrayLengthGetter v)
  | s_get_index v i : 0 <= i -> script any (getIndexedPropertyValue cvt v i)
  | s_set_index v i value : 0 <= i -> arg_script value -> script any (setIndexedProperty cvt toUint64 v i value)
  | s_set_index_strict v i value : 0 <= i -> arg_script value -> script any (setIndexedPropertyThrowsException cvt toUint64 v i value)
  | s_get_number v d : in_u 64 d -> script any (get_numeric cvt v d)
  | s_set_number v d value : in_u 64 d -> arg_script value -> script any (set_numeric cvt toUint64 v d value)
  | s_delete_number v d : script any (deleteOwnProperty_numeric cvt v d)
  | s_copyWithin target start stop v : script integral target -> script integral start -> optional integral stop ->
      script any (builtinTypedArrayCopyWithin cvt toUint64 target start stop v)
  | s_set offset source v : script integral offset -> source_script source ->
      script any (builtinTypedArraySet cvt toUint64 null_when_empty offset source v)
  | s_subarray start stop construct v : script integral start -> optional integral stop ->
      (forall b off n, script any (construct b off n)) -> script any (builtinTypedArraySubArray start stop construct v)
  | s_slice start stop construct v : script integral start -> optional integral stop -> (forall n, script any (construct n)) ->
      script any (builtinTypedArraySlice cvt toUint64 start stop construct v)
  | s_fill value start stop v : arg_script value -> script integral start -> optional integral stop ->
      script any (builtinTypedArrayFill cvt toUint64 value start stop v)
  | s_reverse v : script any (builtinTypedArrayReverse cvt toUint64 v)
  | s_with index value v : script integral index -> arg_script value ->
      script any (builtinTypedArrayWith cvt toUint64 null_when_empty index value v)
  | s_at length index v : script length_arg length -> script integral index -> script any (builtinTypedArrayAt cvt length index v)
  (* Loops over typed arrays that call functions of the script *)
  | s_some c f v : (forall x i, script any (f x i)) -> script any (builtinTypedArraySome cvt c f v)
  | s_every c f v : (forall x i, script any (f x i)) -> script any (builtinTypedArrayEvery cvt c f v)
  | s_find c f v : (forall x i, script any (f x i)) -> script any (builtinTypedArrayFind cvt c f v)
  | s_findIndex c f v : (forall x i, script any (f x i)) -> script any (builtinTypedArrayFindIndex cvt c f v)
  | s_findLast c f v : (forall x i, script any (f x i)) -> script any (builtinTypedArrayFindLast cvt c f v)
  | s_findLastIndex c f v : (forall x i, script any (f x i)) -> script any (builtinTypedArrayFindLastIndex cvt c f v)
  | s_forEach c f v : (forall x i, script any (f x i)) -> script any (builtinTypedArrayForEach cvt c f v)
  | s_map c construct f v (P : ElementArg -> Prop) : (forall n, script any (construct n)) -> (forall x i, script P (f x i)) ->
      (forall x, P x -> arg_script x) -> script any (builtinTypedArrayMap cvt toUint64 c construct f v)
  | s_filter c construct f v : (forall n, script any (construct n)) -> (forall x i, script any (f x i)) ->
      script any (builtinTypedArrayFilter cvt toUint64 c construct f v)
  | s_reduce V (of_element : Element -> V) c f initial v : (forall u x i, script any (f u x i)) ->
      script any (builtinTypedArrayReduce cvt of_element c f initial v)
  | s_reduceRight V (of_element : Element -> V) c f initial v : (forall u x i, script any (f u x i)) ->
      script any (builtinTypedArrayReduceRight cvt of_element c f initial v)
  | s_toReversed v : script any (builtinTypedArrayToReversed cvt toUint64 null_when_empty v)
  | s_indexOf value from v : optional integral from -> script any (builtinTypedArrayIndexOf toUint64 value from v)
  | s_lastIndexOf value from v : optional integral from -> script any (builtinTypedArrayLastIndexOf toUint64 value from v)
  | s_includes value from v : optional integral from -> script any (builtinTypedArrayIncludes cvt value from v)
  (* Texts of bytes *)
  | s_fromHex string : Z.of_nat (length string) < 2 ^ 53 -> script any (builtinUint8ArrayFromHex null_when_empty string)
  | s_setFromHex string v : script any (builtinUint8ArraySetFromHex string v)
  | s_toHex v : script any (builtinUint8ArrayToHex v)
  (* Atomics *)
  | s_atomic v toIndex value op : script is_index toIndex -> atomic_script value ->
      script any (atomicReadModifyWrite cvt toUint64 v toIndex value op)
  | s_compareExchange v toIndex expected replacement : script is_index toIndex -> atomic_script expected -> atomic_script replacement ->
      script any (builtinAtomicsCompareExchange cvt toUint64 v toIndex expected replacement)
  | s_atomic_load v toIndex : script is_index toIndex -> script any (builtinAtomicsLoad v toIndex)
  | s_atomic_store v toIndex value : script is_index toIndex -> atomic_script value ->
      script any (builtinAtomicsStore cvt toUint64 v toIndex value)
with optional : (Z -> Prop) -> option (MU World Z) -> Prop :=
  | o_none P : optional P None
  | o_some (P : Z -> Prop) m : script P m -> optional P (Some m)
with length_script : LengthArg -> Prop :=
  | l_absent : length_script Absent
  | l_undefined : length_script UndefinedArg
  | l_given f : script is_index f -> length_script (Given f)
(** Values to store. *)
with arg_script : ElementArg -> Prop :=
  | a_primitive p : arg_script (PrimitiveArg p)
  | a_object f g : script any f -> script any g -> arg_script (ObjectArg f g)
with atomic_script : AtomicArg -> Prop :=
  | at_arg f g : script any f -> script any g -> atomic_script (mkAtomicArg f g)
with source_script : SetSource -> Prop :=
  | so_typed v : source_script (SourceTypedArray v)
  | so_like length element (P : ElementArg -> Prop) : script length_arg length -> (forall i, 0 <= i -> script P (element i)) ->
      (forall x, P x -> arg_script x) -> source_script (SourceArrayLike length element)
with first_script : FirstArgument -> Prop :=
  | f_nothing : first_script NoArgument
  | f_number f : script is_index f -> first_script (NonObject f)
  | f_typed v : first_script (TypedArrayArgument v)
  | f_buffer b off length : script is_index off -> optional is_index length -> first_script (ArrayBufferArgument b off length)
  | f_iterable f (P : list ElementArg -> Prop) : script P f ->
      (forall l, P l -> Z.of_nat (length l) < 2 ^ 53) -> (forall l k x, P l -> l !! k = Some x -> arg_script x) -> first_script (IterableArgument f)
  | f_like length element (P : ElementArg -> Prop) : script length_arg length -> (forall i, 0 <= i -> script P (element i)) ->
      (forall x, P x -> arg_script x) -> first_script (ArrayLikeArgument length element).

Scheme script_rect' := Minimality for script Sort Prop
  with optional_rect' := Minimality for optional Sort Prop
  with length_rect' := Minimality for length_script Sort Prop
  with arg_rect' := Minimality for arg_script Sort Prop
  with atomic_rect' := Minimality for atomic_script Sort Prop
  with source_rect' := Minimality for source_script Sort Prop
  with first_rect' := Minimality for first_script Sort Prop.
Combined Scheme script_mutind from script_rect', optional_rect', length_rect', arg_rect', atomic_rect', source_rect', first_rect'.

Context (host : bool) (cvt_int : forall d, in_s 32 (cvt d)).

Lemma safe_new_typed_array t proto a : safe host any proto -> firstArg_ok host a -> safe host any (new_typed_array t proto a).
Proof.
  intros Hp Ha w HG. unfold new_typed_array. apply wp_bind, wp_gets_id. cbv beta iota.
  apply (throw_if_spec host); [done|apply buffers_evolve_refl|]. intros Hg. apply negb_false_iff in Hg.
  apply (TypedArrayConstructor_spec host null_when_empty cvt toUint64 cvt_int); [done|done|done|].
  destruct a as [| | |b off len| |]; try done. cbn in *. unfold is_buffer in Hg. destruct (buffers w !! b); [eauto|done].
Qed.
Definition optional_ok (P : Z -> Prop) (o : option (MU World Z)) : Prop := match o with Some m => safe host P m | None => True end.

Lemma scripts_safe :
  (forall A (P : A -> Prop) m, script P m -> safe host P m) /\
  (forall P o, optional P o -> optional_ok P o) /\
  (forall l, length_script l -> length_ok host l) /\
  (forall x, arg_script x -> arg_ok host x) /\
  (forall x, atomic_script x -> atomic_ok host x) /\
  (forall x, source_script x -> source_ok host x) /\
  (forall a, first_script a -> firstArg_ok host a).
Proof.
  apply script_mutind; intros.
  - now apply (safe_ret host).
  - apply (safe_throw host).
  - now apply (safe_gets host).
  - now apply (safe_seq host P).
  - now apply (safe_weaken host P).
  - apply safe_collect.
  - now apply (safe_ArrayBufferConstructor host).
  - now apply (safe_SharedArrayBufferConstructor host).
  - apply (safe_getters host).
  - apply (safe_getters host).
  - apply (safe_getters host).
  - apply (safe_getters host).
  - apply (safe_getters host).
  - apply (safe_getters host).
  - apply (safe_getters host).
  - now apply (safe_resize host).
  - now apply (safe_grow host).
  - now apply (safe_transfer host).
  - now apply (safe_transferToFixedLength host).
  - now apply (safe_slice host).
  - now apply (safe_shared_slice host).
  - now apply (safe_DataViewConstructor host).
  - apply (safe_DataView_getter host).
  - apply (safe_DataView_getter host).
  - now apply (safe_getViewValue host).
  - now apply (safe_setViewValue host).
  - now apply safe_new_typed_array.
  - apply (safe_typed_getter host).
  - apply (safe_typed_getter host).
  - apply (safe_typed_getter host).
  - now apply (safe_getIndexedPropertyValue host).
  - now apply (safe_setIndexedProperty host).
  - now apply (safe_setThrows host).
  - now apply (safe_get_numeric host).
  - now apply (safe_set_numeric host).
  - apply (safe_deleteOwnProperty host).
  - now apply (safe_copyWithin host).
  - now apply (safe_Set host).
  - now apply (safe_subarray host).
  - now apply (safe_typed_slice host).
  - now apply (safe_fill host).
  - now apply (safe_reverse host).
  - now apply (safe_with host).
  - now apply (safe_at host).
  - now apply (safe_some host).
  - now apply (safe_every host).
  - now apply (safe_find host).
  - now apply (safe_find host).
  - now apply (safe_findLast host).
  - now apply (safe_findLast host).
  - now apply (safe_forEach host).
  - apply (safe_map host); [done|done|]. intros x i. apply (safe_weaken host P); auto.
  - now apply (safe_filter host).
  - now apply (safe_reduce host).
  - now apply (safe_reduce host).
  - now apply (safe_toReversed host).
  - now apply (safe_indexOf host).
  - now apply (safe_lastIndexOf host).
  - now apply (safe_includes host).
  - now apply (safe_fromHex host).
  - apply (safe_setFromHex host).
  - apply (safe_toHex host).
  - now apply (safe_atomicReadModifyWrite host).
  - now apply (safe_AtomicsCompareExchange host).
  - now apply (safe_AtomicsLoad host).
  - now apply (safe_AtomicsStore host).
  - done.
  - done.
  - done.
  - done.
  - done.
  - done.
  - done.
  - done.
  - done.
  - split; [done|]. intros i Hi. apply (safe_weaken host P); auto.
  - done.
  - done.
  - done.
  - now split.
  - apply (safe_weaken host P); [|done]. intros l Hl. split; [auto|]. intros k x Hx. eauto.
  - split; [done|]. intros i Hi. apply (safe_weaken host P); auto.
Qed.

End Scripts.
End Scripts.

(** * The lengths of ECMA-262 *)
Module EcmaViews.
Import Effects WP Buffers Wiring Notified Invariant Steps BufferSpecs BufferBuiltins TypedArrays ElementFacts IndexFacts TypedArraySafety.

(** IsTypedArrayOutOfBounds and IsViewOutOfBounds, TypedArrayLength and
    GetViewByteLength, from the buffer and the slots of a view that never change. *)
Definition outOfBounds (w : World) (b : nat) (x : ArrayBufferView) : bool := isDetachedBuffer w b || out_of_bounds (byteLength w b) x.
Definition ecma_length (w : World) (b : nat) (x : ArrayBufferView) : Z :=
  (if m_auto x then byteLength w b - m_originalByteOffset x else m_originalByteLength x) / elementSize x.
Definition typeError {A} (w : World) : option (World * (A + Thrown)) := Some (w, inr ThrownTypeError).
Definition value {A} (w : World) (a : A) : option (World * (A + Thrown)) := Some (w, inl a).

Section Views.
Context (w : World) (HG : Good false w) (v : nat) (x : ArrayBufferView) (b : nat).
Context (Ev : views w !! v = Some x) (Eb : m_buffer x = Some b).

Lemma view_coherent : coherent w b x.
Proof. pose proof HG as [[[_ Hv] _] _]. now apply (Hv v x Ev). Qed.
Lemma resolve_view t : v_kind x = TypedArray t -> resolve_typed v w = Some (w, inl (t, b)).
Proof.
  intros Ek. unfold resolve_typed, gets, mbind, MU_bind. cbn [id]. rewrite Ev.
  destruct x as [k mb a bl bo al obl obo au re]. cbn in *. now subst.
Qed.
Lemma read_typed_getter t f : v_kind x = TypedArray t -> typed_getter f v w = value w (if isDetachedBuffer w b then 0 else f w v).
Proof. intros Ek. unfold typed_getter. unfold mbind at 1, MU_bind at 1. now rewrite (resolve_view t Ek). Qed.

Lemma typed_lengths t : v_kind x = TypedArray t ->
  builtinTypedArrayLengthGetter v w = value w (if outOfBounds w b x then 0 else ecma_length w b x) /\
  builtinTypedArrayByteOffsetGetter v w = value w (if outOfBounds w b x then 0 else m_originalByteOffset x) /\
  (exists n, builtinTypedArrayByteLengthGetter v w = value w n /\
   if outOfBounds w b x then n = 0
   else n / type_elementSize t = ecma_length w b x /\ (m_auto x = false -> n = ecma_length w b x * type_elementSize t)) /\
  validateTypedArray v true w = if outOfBounds w b x then typeError w else value w (t, b).
Proof.
  intros Ek. pose proof view_coherent as C. destruct (read_view w v x Ev) as (R1 & R2 & R3 & _).
  unfold builtinTypedArrayLengthGetter, builtinTypedArrayByteOffsetGetter, builtinTypedArrayByteLengthGetter. rewrite !(read_typed_getter t) by done.
  rewrite R1, R2, R3. unfold outOfBounds.
  assert (Hval : validateTypedArray v true w = if isDetachedBuffer w b || m_wasResetByInvalidByteLength x then typeError w else value w (t, b)).
  { unfold validateTypedArray, throwTypeErrorIfDetached, wasResetByInvalidByteLength, throw_if, gets, mbind, MU_bind. cbn [id].
    rewrite (resolve_view t Ek). destruct (isDetachedBuffer w b); [done|]. cbn. rewrite Ev. cbn. now destruct (m_wasResetByInvalidByteLength x). }
  rewrite Hval, (co_reset _ _ _ C). destruct (isDetachedBuffer w b); [split_and!; [done|done|now exists 0|done]|]. cbn [orb].
  destruct (out_of_bounds (byteLength w b) x) eqn:Eo.
  - destruct (co_out _ _ _ C Eo) as (-> & -> & -> & _). split_and!; [done|done|now exists 0|done].
  - rewrite (co_offset _ _ _ C Eo). assert (Ht : is_typed x = true) by (unfold is_typed; now rewrite Ek).
    rewrite (co_elements _ _ _ C Ht). pose proof (co_length _ _ _ C Eo) as Hl. unfold ecma_length.
    assert (Es : elementSize x = type_elementSize t) by (unfold elementSize; now rewrite Ek).
    split_and!; [|done| |done].
    + destruct (m_auto x); now rewrite Hl.
    + exists (m_byteLength x). split; [done|]. rewrite <- Es. split; [destruct (m_auto x); now rewrite Hl|]. intros Ha. rewrite Ha in *.
      pose proof (elementSize_pos x) as Hp. pose proof (co_whole _ _ _ C Ha) as Hm.
      rewrite Hl. pose proof (Z_div_mod_eq_full (m_originalByteLength x) (elementSize x)). lia.
Qed.

Lemma view_lengths : v_kind x = DataView ->
  let address := if outOfBounds w b x then None else m_cachedRawBufferAddress x in
  builtinDataViewByteLengthGetter v w = (match address with Some _ => value w (ecma_length w b x) | None => typeError w end) /\
  builtinDataViewByteOffsetGetter v w = (match address with Some _ => value w (m_originalByteOffset x) | None => typeError w end).
Proof.
  intros Ek. pose proof view_coherent as C. destruct (read_view w v x Ev) as (_ & R2 & R3 & R4 & R5).
  assert (Hg : forall f, DataView_getter f v w = match m_cachedRawBufferAddress x with Some _ => value w (f w v) | None => typeError w end).
  { intros f. assert (Hr : resolve_DataView v w = Some (w, inl v)).
    { unfold resolve_DataView, gets, mbind, MU_bind. cbn [id]. rewrite Ev. destruct x as [k mb a bl bo al obl obo au re]. cbn in *. now subst. }
    unfold DataView_getter. unfold mbind at 1, MU_bind at 1. rewrite Hr. unfold gets, mbind, MU_bind. cbn [id]. rewrite R5, Eb. cbn.
    unfold DataView_throwTypeErrorIfDetached, gets, mbind, MU_bind. cbn [id]. rewrite R4. now destruct (m_cachedRawBufferAddress x). }
  unfold builtinDataViewByteLengthGetter, builtinDataViewByteOffsetGetter. rewrite !Hg, R2, R3. unfold outOfBounds.
  destruct (isDetachedBuffer w b) eqn:Ed; [now rewrite (co_detached _ _ _ C Ed)|]. cbn [orb].
  destruct (out_of_bounds (byteLength w b) x) eqn:Eo.
  - destruct (co_out _ _ _ C Eo) as (_ & _ & _ & ->). done.
  - rewrite (co_offset _ _ _ C Eo). pose proof (co_length _ _ _ C Eo) as Hl.
    unfold ecma_length, elementSize in *. rewrite Ek in *. rewrite !Z.div_1_r in *. split; [|done]. destruct (m_auto x); now rewrite Hl.
Qed.
Lemma view_address : if outOfBounds w b x then m_cachedRawBufferAddress x = None
  else 0 < byteLength w b -> exists a, data w b = Some a /\ m_cachedRawBufferAddress x = Some (a, m_originalByteOffset x).
Proof.
  pose proof view_coherent as C. unfold outOfBounds. destruct (isDetachedBuffer w b) eqn:Ed; [exact (co_detached _ _ _ C Ed)|]. cbn [orb].
  destruct (out_of_bounds (byteLength w b) x) eqn:Eo; [now destruct (co_out _ _ _ C Eo) as (_ & _ & _ & ->)|].
  intros HL. destruct (data_holds false w b) as [Hh _]; [apply HG|]. rewrite (co_address _ _ _ C Eo HL).
  destruct (data w b) as [a|]; [|cbn in Hh; lia]. now exists a.
Qed.
End Views.

(** ** Elements *)

(** The bytes of a block. *)
Definition bytes_at (l : list Z) (o n : Z) : list Z := take (Z.to_nat n) (drop (Z.to_nat o) l).
Definition block_cells (w : World) (a : nat) : list Z := default [] (cells <$> blocks w !! a).
Lemma load_read w a o n : accessible w (a, o) n = true -> 0 < n ->
  load_bytes (Some (a, o)) n w = Some (w, inl (bytes_at (block_cells w a) o n)).
Proof. intros Ha Hn. unfold load_bytes. rewrite (proj2 (Z.eqb_neq n 0)) by lia. cbn [fst snd]. now rewrite Ha. Qed.

Section Elements.
Context (host : bool) (cvt : Z -> Z) (cvt_int : forall d, in_s 32 (cvt d)).
Context (w : World) (HG : Good host w) (v : nat) (x : ArrayBufferView) (b : nat) (t : TypedArrayType).
Context (Ev : views w !! v = Some x) (Eb : m_buffer x = Some b) (Ek : v_kind x = TypedArray t).
Context (a : nat) (Ea : m_cachedRawBufferAddress x = Some (a, m_byteOffset x)).

Lemma element_accessible i : 0 <= i < m_arrayLength x ->
  accessible w (a, m_byteOffset x + i * type_elementSize t) (type_elementSize t) = true /\
  isDetachedBuffer w b = false /\ i * type_elementSize t + type_elementSize t <= m_byteLength x.
Proof.
  intros Hi. pose proof (elementSize_range t) as Hs. pose proof (element_range host w v x b t i HG Ev Eb Ek Hi) as He.
  destruct (view_range host w v x b (i * type_elementSize t) (type_elementSize t) HG Ev Eb) as [Hr (a' & Ea' & Ed)]; [nia|lia|lia|].
  assert (a' = a) as -> by congruence. pose proof (in_range_data host w b _ _ HG Hr) as Hh. rewrite Ed in Hh. destruct Hh as (blk & E1 & E2 & E3).
  destruct Hr as (_ & D & H0 & _). split_and!; [|done|done]. unfold accessible. cbn. rewrite E1, E2. cbn.
  rewrite (proj2 (Z.leb_le 0 _)), (proj2 (Z.leb_le _ _)) by lia. done.
Qed.
Lemma bind_some {A B} (m : MU World A) (k : A -> MU World B) u u' y : m u = Some (u', inl y) -> (m ≫= k) u = k y u'.
Proof. intros E. unfold mbind, MU_bind. now rewrite E. Qed.

Lemma get_inside i : 0 <= i < m_arrayLength x ->
  getIndexedPropertyValue cvt v i w =
  value w (Some (rawBytesToNumber t (bytes_at (block_cells w a) (m_byteOffset x + i * type_elementSize t) (type_elementSize t)))).
Proof.
  intros Hi. pose proof (elementSize_range t) as Hs. destruct (element_accessible i Hi) as (Ha & Hd & Hb). destruct (read_view w v x Ev) as (R1 & R2 & _ & R4 & _).
  unfold getIndexedPropertyValue. rewrite (bind_some _ _ _ _ _ (resolve_view w v x b Ev Eb t Ek)). cbv beta iota. rewrite (bind_some (gets id) _ w w w eq_refl).
  rewrite R1, (proj2 (Z.ltb_lt i _)), Hd by lia. unfold getDirectValueFromBuffer.
  erewrite bind_some; [reflexivity|]. rewrite (bind_some (gets id) _ w w w eq_refl), R2, R4, Ea.
  rewrite (within_bytes (m_byteLength x) (type_elementSize t)) by nia. cbn [require]. rewrite !(bind_some (mret tt) _ w w tt eq_refl).
  cbn [advance fmap option_fmap option_map fst snd]. rewrite (bind_some _ _ _ _ _ (load_read w a _ _ Ha ltac:(lia))). reflexivity.
Qed.
Lemma get_outside i : m_arrayLength x <= i < 2 ^ 32 -> getIndexedPropertyValue cvt v i w = value w None.
Proof.
  intros Hi. destruct (read_view w v x Ev) as (R1 & _). destruct (view_limits host w v x b HG Ev Eb) as (L1 & _). unfold maxArrayBufferSize in L1.
  unfold getIndexedPropertyValue. rewrite (bind_some _ _ _ _ _ (resolve_view w v x b Ev Eb t Ek)). cbv beta iota. rewrite (bind_some (gets id) _ w w w eq_refl).
  rewrite R1, (proj2 (Z.ltb_ge i _)) by lia. unfold integerIndexedElementGet. rewrite (bind_some (gets id) _ w w w eq_refl).
  replace (invalid_index cvt w v (of_Z i)) with true; [now rewrite orb_true_r|]. unfold invalid_index. rewrite R1.
  rewrite (rep_fle _ _ (m_arrayLength x) i) by (apply rep_of_Z; lia). rewrite (proj2 (Z.leb_le _ _)) by lia. now rewrite orb_true_r.
Qed.
End Elements.

(** The same bytes through the buffer. *)
Lemma get_buffer host w b o t a : Good host w -> in_range w b o (type_elementSize t) -> data w b = Some a ->
  getValueFromBuffer b o t true w = value w (rawBytesToNumber t (bytes_at (block_cells w a) o (type_elementSize t))).
Proof.
  intros HG Hr Ed. pose proof (in_range_data host w b _ _ HG Hr) as Hh. rewrite Ed in Hh. destruct Hh as (blk & E1 & E2 & E3).
  pose proof (elementSize_range t) as Hs. assert (Ho : 0 <= o) by apply Hr.
  unfold getValueFromBuffer. rewrite (bind_some _ _ _ _ _ (check_access_spec host w b o _ HG Hr)), (bind_some (gets id) _ w w w eq_refl), Ed.
  cbn [plus fmap option_fmap option_map]. rewrite (bind_some _ _ w w (bytes_at (block_cells w a) o (type_elementSize t))); [done|].
  apply load_read; [|lia]. unfold accessible. cbn. rewrite E1, E2. cbn. now rewrite (proj2 (Z.leb_le 0 _)), (proj2 (Z.leb_le _ _)) by lia.
Qed.

(** A view that has elements has an address. *)
Lemma elements_address host w v x b t : Good host w -> views w !! v = Some x -> m_buffer x = Some b -> v_kind x = TypedArray t ->
  0 < m_arrayLength x -> exists a, m_cachedRawBufferAddress x = Some (a, m_byteOffset x) /\ data w b = Some a.
Proof.
  intros HG Ev Eb Ek Hl. pose proof (elementSize_range t). pose proof (element_range host w v x b t 0 HG Ev Eb Ek ltac:(lia)) as He.
  destruct (view_range host w v x b 0 (type_elementSize t) HG Ev Eb) as [_ (a & Ha & Hd)]; [lia|lia|lia|eauto].
Qed.

Lemma array_elements w v x b : Good false w -> views w !! v = Some x -> m_buffer x = Some b -> is_typed x = true ->
  m_arrayLength x = if outOfBounds w b x then 0 else ecma_length w b x.
Proof.
  intros HG Ev Eb Ht. pose proof (view_coherent w HG v x b Ev Eb) as C. rewrite (co_elements _ _ _ C Ht). unfold outOfBounds, ecma_length.
  assert (HL : isDetachedBuffer w b = true -> byteLength w b = 0).
  { unfold isDetachedBuffer, byteLength, backingStore. now destruct (the_store w b). }
  destruct (out_of_bounds (byteLength w b) x) eqn:Eo.
  - rewrite orb_true_r. destruct (co_out _ _ _ C Eo) as (_ & -> & _). apply Z.div_0_l. pose proof (elementSize_pos x). lia.
  - rewrite orb_false_r. pose proof (co_length _ _ _ C Eo) as Hl. pose proof HG as [[[_ Hv] _] _]. pose proof (elementSize_pos x).
    pose proof (proj1 (proj1 (Hv v x Ev))) as [S1 S2].
    destruct (isDetachedBuffer w b); [|destruct (m_auto x); now rewrite Hl]. specialize (HL eq_refl). unfold out_of_bounds in Eo.
    destruct (m_auto x); Zbool; rewrite Hl, ?HL in *.
    + replace (0 - m_originalByteOffset x) with 0 by lia. apply Z.div_0_l. lia.
    + replace (m_originalByteLength x) with 0 by lia. apply Z.div_0_l. lia.
Qed.
Lemma element_reads cvt w v x b t i : (forall d, in_s 32 (cvt d)) -> Good false w -> views w !! v = Some x -> m_buffer x = Some b ->
  v_kind x = TypedArray t -> 0 <= i < 2 ^ 32 ->
  if negb (outOfBounds w b x) && (i <? ecma_length w b x)
  then exists y, getValueFromBuffer b (m_originalByteOffset x + i * type_elementSize t) t true w = value w y /\
    getIndexedPropertyValue cvt v i w = value w (Some y)
  else getIndexedPropertyValue cvt v i w = value w None.
Proof.
  intros Hc HG Ev Eb Ek Hi. assert (Ht : is_typed x = true) by (unfold is_typed; now rewrite Ek).
  pose proof (array_elements w v x b HG Ev Eb Ht) as HL. pose proof (view_coherent w HG v x b Ev Eb) as C.
  destruct (outOfBounds w b x) eqn:Eo; cbn [negb andb]; [apply (get_outside false cvt w HG v x b t Ev Eb Ek); lia|].
  destruct (i <? ecma_length w b x) eqn:E; Zbool; [|apply (get_outside false cvt w HG v x b t Ev Eb Ek); lia].
  destruct (elements_address false w v x b t HG Ev Eb Ek ltac:(lia)) as (a & Ea & Ed).
  unfold outOfBounds in Eo. apply orb_false_iff in Eo as [_ Eo]. pose proof (co_offset _ _ _ C Eo) as Ho.
  pose proof (elementSize_range t) as Hs. pose proof (element_range false w v x b t i HG Ev Eb Ek ltac:(lia)) as He.
  destruct (view_range false w v x b (i * type_elementSize t) (type_elementSize t) HG Ev Eb) as [Hr _]; [nia|lia|lia|].
  eexists. split; [|apply (get_inside false cvt w HG v x b t Ev Eb Ek a Ea); lia].
  rewrite <- Ho. now apply (get_buffer false).
Qed.
End EcmaViews.

(** * What scripts see *)
Module BufferClaims.
Import Effects WP Buffers Wiring Notified Invariant Steps RelativeFacts BufferSpecs BufferBuiltins TypedArrays TypedArraySafety TypedArrayCopies
  Collection Scripts EcmaViews BufferExamples.
Import ValueProps(cvt_x86).

Lemma cvt_x86_int d : in_s 32 (cvt_x86 d).
Proof. unfold in_s, cvt_x86. lia. Qed.
Lemma good_empty host : Good host empty.
Proof.
  assert (Hnil : forall A (l : list A) i x, l = [] -> l !! i = Some x -> False) by (now intros A l i x -> ?).
  split; [split; [split|]|]; try (intros b x E; exfalso; exact (Hnil _ _ _ _ eq_refl E)).
  - assert (Hst : forall b, the_store empty b = None) by done. split; try (intros b x E; exfalso; exact (Hnil _ _ _ _ eq_refl E)).
    + split; split; try done; intros ? ? E; done.
    + intros b s E. now rewrite Hst in E.
    + intros [s|i] o2 a O; destruct O as (z & O); [destruct O as (n & E & _)|destruct O as (E & _)]; exfalso; exact (Hnil _ _ _ _ eq_refl E).
    + intros [s|i] a O; destruct O as (z & O); [destruct O as (n & E & _)|destruct O as (E & _)]; exfalso; exact (Hnil _ _ _ _ eq_refl E).
    + intros _ s1 s2 x1 x2 i E. exfalso. exact (Hnil _ _ _ _ eq_refl E).
  - intros b s x E. done.
Qed.

Section Claims.
Context (null_when_empty : bool) (cvt toUint64 : Z -> Z).

(** The worlds that scripts make of the empty one. *)
Definition reachable (w : World) : Prop :=
  exists A (P : A -> Prop) m r, script null_when_empty cvt toUint64 P m /\ m empty = Some (w, r).
Lemma reachable_good host w : (forall d, in_s 32 (cvt d)) -> reachable w -> Good host w.
Proof.
  intros Hc (A & P & m & r & Hm & E).
  destruct (proj1 (scripts_safe null_when_empty cvt toUint64 host Hc) A P m Hm empty (good_empty host)) as (w' & r' & E' & H & _).
  now replace w with w' by congruence.
Qed.
(** What a view may touch: its cached range is memory of its buffer. *)
Definition within_buffer (w : World) (x : ArrayBufferView) : Prop :=
  forall b, m_buffer x = Some b -> 0 < m_byteLength x ->
  exists a, m_cachedRawBufferAddress x = Some (a, m_byteOffset x) /\ data w b = Some a /\
    m_byteOffset x + m_byteLength x <= byteLength w b /\ accessible w (a, m_byteOffset x) (m_byteLength x) = true.
Lemma good_within host w v x : Good host w -> views w !! v = Some x -> within_buffer w x.
Proof.
  intros HG Ev b Eb Hn. destruct (view_range host w v x b 0 (m_byteLength x) HG Ev Eb) as [Hr (a & Ea & Ed)]; [lia|lia|lia|].
  rewrite Z.add_0_r in Hr. pose proof (in_range_data host w b _ _ HG Hr) as Hh. destruct Hr as (_ & _ & H0 & _ & H1).
  exists a. split_and!; [done|done|done|]. rewrite Ed in Hh. destruct Hh as (blk & E1 & E2 & E3).
  unfold accessible. cbn. rewrite E1, E2. cbn. rewrite (proj2 (Z.leb_le 0 _)), (proj2 (Z.leb_le _ _)) by lia. done.
Qed.


End Claims.

(** A script: a typed array over a resizable buffer, an element whose conversion
    shrinks the buffer, and the collector. *)
Definition shrinking : MU World (option Numeric) :=
  b ← builtinArrayBufferConstructor false (mret 8) (mret (Some 16)) (mret tt);
  v ← new_typed_array false cvt_x86 (fun n => n mod 2 ^ 64) Uint16 (mret tt) (ArrayBufferArgument b (mret 2) None);
  setIndexedProperty cvt_x86 (fun n => n mod 2 ^ 64) v 1 (ObjectArg (builtinArrayBufferResize (mret (of_Z 5)) b;; mret (of_Z 7)) (throw ThrownTypeError));;
  collect 0;;
  setIndexedProperty cvt_x86 (fun n => n mod 2 ^ 64) v 0 (PrimitiveArg (Int32Value 65537));;
  getIndexedPropertyValue cvt_x86 v 0.
Lemma shrinking_script : script false cvt_x86 (fun n => n mod 2 ^ 64) any shrinking.
Proof.
  assert (Hmax : max_ok (Some 16)) by (left; lia).
  apply (s_bind _ _ _ _ _ any); [apply s_ArrayBuffer; apply s_ret; [left; lia|exact Hmax|exact I]|]. intros b _.
  apply (s_bind _ _ _ _ _ any).
  { apply s_TypedArray; [now apply s_ret|]. apply f_buffer; [apply s_ret; left; lia|apply o_none]. }
  intros v _. apply (s_bind _ _ _ _ _ any).
  { apply s_set_index; [lia|]. apply a_object; [|apply s_throw]. apply (s_bind _ _ _ _ _ any); [|intros [] _; now apply s_ret].
    apply s_resize, s_ret. reflexivity. }
  intros ok _. apply (s_bind _ _ _ _ _ any); [apply s_collect|]. intros _ _.
  apply (s_bind _ _ _ _ _ any); [apply s_set_index; [lia|]; apply a_primitive|]. intros ? _. now apply s_get_index.
Qed.
Example shrinking_result :
  match shrinking empty with Some (w, r) => (lengths w, r) | None => ([], inr ThrownTypeError) end = ([(2, 1)], inl (Some (Number (of_Z 1)))).
Proof. vm_compute. reflexivity. Qed.

(** Where scripts end at an undefined cast: the string ['70000'] stored in an
    element of 16 bits, and infinity added to it. *)
Example undefined_casts :
  setIndexedProperty cvt_x86 (fun n => n mod 2 ^ 64) 0 0 (PrimitiveArg (OtherValue (inl (of_Z 70000)) (inl 70000))) (state (shrinking empty))
    = Some (state (shrinking empty), inr UndefinedCast) /\
  TypedArrayLoops.atomicReadModifyWrite cvt_x86 (fun n => n mod 2 ^ 64) 0 (mret 0) (TypedArrayLoops.mkAtomicArg (mret INF) (throw ThrownTypeError)) TypedArrayLoops.ADD (state (shrinking empty))
    = Some (state (shrinking empty), inr UndefinedCast).
Proof. vm_compute. auto. Qed.


Definition shrunk : World := state (shrinking empty).
Definition shrunk_view : ArrayBufferView := default (fresh_view DataView) (views shrunk !! 0%nat).
Lemma shrunk_reachable : reachable false cvt_x86 (fun n => n mod 2 ^ 64) shrunk.
Proof.
  destruct (scripts_safe false cvt_x86 (fun n => n mod 2 ^ 64) false cvt_x86_int) as [Hs _].
  destruct (Hs _ any shrinking shrinking_script empty (good_empty false)) as (w & r & E & _). exists _, any, shrinking, r.
  split; [exact shrinking_script|]. unfold shrunk, state. rewrite E. done.
Qed.
End BufferClaims.
