(* ===== verification/BufferBytes.v ===== *)
(** The cells of blocks are bytes: each builtin writes bytes, so in each world that
    scripts reach a block holds numbers below 256. *)
From Stdlib Require Import ZArith Lia Bool.
From stdpp Require Import base numbers list option decidable gmap.
From S2P Require Import Prelude Effects Double Float16 Value ArrayBuffer BufferInvariant BufferSafety BufferBuiltins TypedArray.
From S2P Require Import TypedArraySafety TypedArrayCopies TypedArrayLoops TypedArrayLoopSafety BufferScript.

Module ByteCells.
Import Effects Buffers Wiring Notified Invariant Steps BufferSpecs BufferBuiltins TypedArrays TypedArrayCopies TypedArrayLoops
  TypedArrayLoopSafety Collection Scripts.

Definition bytes := Forall (in_u 8).
Definition byte_cells (w : World) : Prop := forall a blk, blocks w !! a = Some blk -> bytes (cells blk).
(** Whatever the computation does, blocks hold bytes afterwards if they did before. *)
Definition keeps {A} (R : A -> Prop) (m : MU World A) : Prop := forall w w' r, byte_cells w -> m w = Some (w', r) ->
  byte_cells w' /\ match r with inl a => R a | inr _ => True end.

Lemma keeps_ret {A} (R : A -> Prop) a : R a -> keeps R (mret a).
Proof. intros H w w' r Hw [= <- <-]. now split. Qed.
Lemma keeps_throw {A} (R : A -> Prop) e : keeps R (throw e).
Proof. intros w w' r Hw [= <- <-]. now split. Qed.
Lemma keeps_gets {A} (f : World -> A) : keeps any (gets f).
Proof. intros w w' r Hw [= <- <-]. now split. Qed.
Lemma keeps_certain {A} (o : option A) : keeps any (certain o).
Proof. intros w w' r Hw. unfold certain. destruct o; [intros [= <- <-]; now split|done]. Qed.
Lemma keeps_throw_if b e : keeps any (throw_if b e).
Proof. unfold throw_if. destruct b; [apply keeps_throw|now apply keeps_ret]. Qed.
Lemma keeps_bind {A B} (R : A -> Prop) (Q : B -> Prop) m k : keeps R m -> (forall a, R a -> keeps Q (k a)) -> keeps Q (m ≫= k).
Proof.
  intros Hm Hk w w' r Hw. unfold mbind, MU_bind. destruct (m w) as [[w1 [a|e]]|] eqn:E; [..|done].
  - destruct (Hm w w1 (inl a) Hw E) as [Hw1 Ha]. intros E'. now apply (Hk a Ha w1).
  - intros [= <- <-]. destruct (Hm w w1 (inr e) Hw E) as [Hw1 _]. now split.
Qed.
Lemma keeps_weaken {A} (R Q : A -> Prop) m : (forall a, R a -> Q a) -> keeps R m -> keeps Q m.
Proof. intros HRQ Hm w w' r Hw E. destruct (Hm w w' r Hw E) as [H1 H2]. split; [done|]. destruct r; auto. Qed.
Lemma keeps_modify f : (forall w, blocks (f w) = blocks w) -> keeps any (modify f).
Proof. intros Hf w w' r Hw [= <- <-]. split; [|done]. unfold byte_cells. now rewrite Hf. Qed.
Lemma keeps_change {A} (f : World -> World) (g : World -> A) : (forall w, blocks (f w) = blocks w) -> keeps any (fun w => Some (f w, inl (g w))).
Proof. intros Hf w w' r Hw [= <- <-]. split; [|done]. unfold byte_cells. now rewrite Hf. Qed.

(** ** Memory *)
Lemma bytes_take n l : bytes l -> bytes (take n l).
Proof. apply Forall_take. Qed.
Lemma bytes_drop n l : bytes l -> bytes (drop n l).
Proof. apply Forall_drop. Qed.
Lemma keeps_load a n : keeps bytes (load_bytes a n).
Proof.
  intros w w' r Hw. unfold load_bytes. destruct (n =? 0); [intros [= <- <-]; split; [done|apply Forall_nil_2]|].
  destruct a as [a|]; [|done]. destruct (accessible w a n); [|done]. intros [= <- <-]. split; [done|]. apply bytes_take, bytes_drop.
  destruct (blocks w !! a.1) as [blk|] eqn:E; [apply (Hw _ _ E)|apply Forall_nil_2].
Qed.
Lemma keeps_store a l : bytes l -> keeps any (store_bytes a l).
Proof.
  intros Hl w w' r Hw. unfold store_bytes. destruct l as [|c l]; [intros [= <- <-]; now split|].
  destruct a as [a|]; [|done]. destruct (accessible w a _); [|done]. intros [= <- <-]. split; [|done].
  intros i blk. cbn. rewrite lookup_alter_decide. case_decide; [|apply Hw]. subst i. destruct (blocks w !! a.1) as [old|] eqn:E; [|done].
  intros [= <-]. unfold write_cells. cbn [cells]. specialize (Hw _ _ E).
  apply Forall_app. split; [now apply bytes_take|]. apply Forall_app. split; [done|now apply bytes_drop].
Qed.
Lemma bytes_zero n : bytes (replicate n 0).
Proof. apply Forall_replicate. unfold in_u. lia. Qed.
Lemma keeps_onMalloc h n : keeps any (onMalloc h n).
Proof.
  intros w w' r Hw. unfold onMalloc. destruct ((n =? 0) && h); [intros [= <- <-]; now split|]. intros [= <- <-]. split; [|done].
  intros i blk. cbn. rewrite lookup_snoc_decide. case_decide; [intros [= <-]; apply bytes_zero|apply Hw].
Qed.
Lemma keeps_onFree d : keeps any (onFree d).
Proof.
  intros w w' r Hw. unfold onFree. destruct d as [a|]; [|intros [= <- <-]; now split].
  destruct (blocks w !! a) as [blk|] eqn:E; [|done]. destruct (freed blk); [done|]. intros [= <- <-]. split; [|done].
  intros i blk'. cbn. rewrite lookup_alter_decide. case_decide; [|apply Hw]. subst i. rewrite E. intros [= <-]. apply (Hw _ _ E).
Qed.
Lemma bytes_le n x : bytes (le_bytes n x).
Proof. revert x. induction n as [|n IH]; intros x; constructor; [apply Z.mod_pos_bound; lia|apply IH]. Qed.
Lemma bytes_ordered le l : bytes l -> bytes (ordered le l).
Proof. destruct le; [done|]. unfold bytes, ordered. rewrite !Forall_forall. intros H x Hx. apply H. rewrite list_elem_of_In in *. now apply in_rev. Qed.

(** ** Observers change views only *)
Lemma notify_blocks f l w : (forall v u, blocks (f v u) = blocks u) -> blocks (notify f l w) = blocks w.
Proof. intros Hf. unfold notify. revert w. induction l as [|[v|] l IH]; intros w; cbn; [done|now rewrite IH, Hf|apply IH]. Qed.
Lemma observer_blocks d n b w : blocks (backingStoreObserver d n b w) = blocks w.
Proof. unfold backingStoreObserver. destruct (buffers w !! b); [|done]. now apply notify_blocks. Qed.
Lemma updated_blocks s d n w : blocks (store_bufferUpdated s d n w) = blocks w.
Proof. unfold store_bufferUpdated. destruct (stores w !! s); [|done]. apply notify_blocks. intros; apply observer_blocks. Qed.
Lemma updateBackingStore_blocks b s w : blocks (updateBackingStore b s w) = blocks w.
Proof.
  unfold updateBackingStore. destruct s as [s|]; cbv zeta; cbn; rewrite observer_blocks; cbn; now destruct (the_store w b).
Qed.
Lemma setBuffer_blocks v b o l n a w : blocks (setBuffer v b o l n a w) = blocks w.
Proof. unfold setBuffer. cbv zeta. destruct b; cbn; now destruct (m_buffer <$> views w !! v) as [[|]|]. Qed.

(** The steps of a computation. *)
Create HintDb keeps.
Ltac keeps_primitive :=
  first
    [ apply keeps_throw | apply keeps_gets | apply keeps_certain | apply keeps_throw_if
    | apply keeps_onMalloc | apply keeps_onFree
    | apply keeps_modify; intros ?; first [reflexivity | apply updateBackingStore_blocks | apply updated_blocks | apply setBuffer_blocks]
    | apply keeps_change; intros ?; reflexivity
    | apply keeps_load
    | apply keeps_store; solve [apply bytes_zero | apply bytes_le | apply bytes_ordered; auto | auto]
    | solve [auto with keeps] ].
Ltac keeps_step :=
  lazymatch goal with
  | |- keeps _ (mret _) => apply keeps_ret; try done
  | |- keeps _ (load_bytes _ _ ≫= _) => apply (keeps_bind bytes); [apply keeps_load|intros ? ?]
  | |- keeps _ (numberToRawBytes _ _ _ _ ≫= _) => apply (keeps_bind bytes); [auto with keeps|intros ? ?]
  | |- keeps _ (slice_range _ _ _ ≫= _) => apply (keeps_bind (fun p => 0 <= p.2)); [auto with keeps|intros [? ?] ?; cbn in *]
  | |- keeps _ (_ ≫= _) => apply (keeps_bind any); [|intros ? _]
  | |- keeps _ (if ?b then _ else _) => destruct b
  | |- keeps _ (match ?x with _ => _ end) => destruct x
  | |- keeps _ (let _ := _ in _) => cbv zeta
  | |- keeps _ _ => keeps_primitive
  end.
Ltac keeps := repeat (cbv beta iota zeta; keeps_step).
Lemma keeps_any {A} (R : A -> Prop) (m : MU World A) : keeps R m -> keeps any m.
Proof. now apply keeps_weaken. Qed.
Lemma keeps_for n k body : (forall i, keeps any (body i)) -> keeps any (for_from n k body).
Proof. intros Hb. revert k. induction n as [|n IH]; intros k; cbn [for_from]; [now apply keeps_ret|]. apply (keeps_bind any); [apply Hb|intros ? _; apply IH]. Qed.
Definition okeeps {A} (o : option (MU World A)) : Prop := match o with Some m => keeps any m | None => True end.
#[export] Hint Extern 1 (keeps any _) => match goal with H : okeeps (Some ?m) |- keeps any ?m => exact H end : keeps.
#[export] Hint Extern 1 (keeps any _) => match goal with H : forall _, keeps any _ |- _ => apply H end : keeps.
#[export] Hint Extern 1 (keeps any _) => match goal with H : forall _ _ _, keeps any _ |- _ => apply H end : keeps.
#[export] Hint Extern 2 (keeps any (for_from _ _ _)) => apply keeps_for; intros; keeps : keeps.

(** ** Operations of buffers *)
Section Operations.
Context (h : bool).

Lemma keeps_new_store k : keeps any (new_store k).
Proof. now apply (keeps_change (upd_stores _)). Qed.
Lemma keeps_new_info d n g : keeps any (new_info d n g).
Proof. now apply (keeps_change (upd_infos _)). Qed.
Lemma keeps_new_buffer sh : keeps any (new_buffer sh).
Proof. now apply (keeps_change (upd_buffers _)). Qed.
Lemma keeps_create_view k : keeps any (create_view k).
Proof. now apply (keeps_change (upd_views _)). Qed.
#[local] Hint Resolve keeps_new_store keeps_new_info keeps_new_buffer keeps_create_view : keeps.
Lemma keeps_detached b : keeps any (throwTypeErrorIfDetached b).
Proof. unfold throwTypeErrorIfDetached. keeps. Qed.
Lemma keeps_detach b : keeps any (detachArrayBuffer b).
Proof. unfold detachArrayBuffer. keeps. Qed.
Lemma keeps_resolve_this sh b : keeps any (resolve_this sh b).
Proof. unfold resolve_this. keeps. Qed.
#[local] Hint Resolve keeps_detached keeps_detach keeps_resolve_this : keeps.
Lemma keeps_createShared i : keeps any (createSharedBackingStore i).
Proof. unfold createSharedBackingStore, info_ref. keeps. Qed.
#[local] Hint Resolve keeps_createShared : keeps.
Lemma keeps_stores n max : keeps any (createDefaultNonSharedBackingStore h n) /\ keeps any (createDefaultResizableNonSharedBackingStore h n max) /\
  keeps any (createDefaultSharedBackingStore h n) /\ keeps any (createDefaultGrowableSharedBackingStore h n max).
Proof.
  unfold createDefaultNonSharedBackingStore, createDefaultResizableNonSharedBackingStore, createDefaultSharedBackingStore,
    createDefaultGrowableSharedBackingStore. split_and!; keeps.
Qed.
#[local] Hint Extern 1 (keeps any (createDefaultNonSharedBackingStore _ ?n)) => apply (keeps_stores n n) : keeps.
#[local] Hint Extern 1 (keeps any (createDefaultResizableNonSharedBackingStore _ ?n ?m)) => apply (keeps_stores n m) : keeps.
#[local] Hint Extern 1 (keeps any (createDefaultSharedBackingStore _ ?n)) => apply (keeps_stores n n) : keeps.
#[local] Hint Extern 1 (keeps any (createDefaultGrowableSharedBackingStore _ ?n ?m)) => apply (keeps_stores n m) : keeps.
Lemma keeps_clear s : keeps any (clearBackingStore s).
Proof. unfold clearBackingStore, info_deref. keeps. Qed.
Lemma keeps_store_resize s n : keeps any (resize s n).
Proof. unfold resize. keeps. Qed.
#[local] Hint Resolve keeps_clear keeps_store_resize : keeps.
Lemma keeps_collect s : keeps any (collect s).
Proof. unfold collect. keeps. Qed.
Lemma keeps_allocateBuffers b n max : keeps any (allocateBuffer h b n) /\ keeps any (allocateResizableBuffer h b n max).
Proof. unfold allocateBuffer, allocateResizableBuffer. split; keeps. Qed.
#[local] Hint Extern 1 (keeps any (allocateBuffer _ ?b ?n)) => apply (keeps_allocateBuffers b n n) : keeps.
#[local] Hint Extern 1 (keeps any (allocateResizableBuffer _ ?b ?n ?m)) => apply (keeps_allocateBuffers b n m) : keeps.
Lemma keeps_allocateArrayBuffer proto n max rz : keeps any proto -> keeps any (allocateArrayBuffer h proto n max rz).
Proof. intros. unfold allocateArrayBuffer. keeps. Qed.
Lemma keeps_new_shared n max : keeps any (new_SharedArrayBufferObject h n max).
Proof. unfold new_SharedArrayBufferObject. keeps. Qed.
#[local] Hint Resolve keeps_new_shared keeps_allocateArrayBuffer : keeps.
Lemma keeps_allocateShared proto n max : keeps any proto -> keeps any (allocateSharedArrayBuffer h proto n max).
Proof. intros. unfold allocateSharedArrayBuffer. keeps. Qed.
Lemma keeps_fillData b d n : keeps any (fillData b d n).
Proof. unfold fillData. keeps. Qed.
#[local] Hint Resolve keeps_allocateShared keeps_fillData : keeps.
Lemma keeps_mret {A} (a : A) : keeps any (mret a).
Proof. now apply keeps_ret. Qed.
#[local] Hint Resolve keeps_mret : keeps.
Lemma keeps_clone proto b o n : keeps any proto -> keeps any (cloneArrayBuffer h proto b o n).
Proof. intros. unfold cloneArrayBuffer. keeps. Qed.
#[local] Hint Resolve keeps_clone : keeps.

(** ** Builtins of buffers *)
Lemma keeps_checked_index m : keeps any m -> keeps any (checked_index m).
Proof. intros. unfold checked_index. keeps. Qed.
#[local] Hint Resolve keeps_checked_index : keeps.
Lemma keeps_constructors m max proto : keeps any m -> keeps any max -> keeps any proto ->
  keeps any (builtinArrayBufferConstructor h m max proto) /\ keeps any (builtinSharedArrayBufferConstructor h m max proto).
Proof. intros. unfold builtinArrayBufferConstructor, builtinSharedArrayBufferConstructor. split; keeps. Qed.
Lemma keeps_getters b : keeps any (builtinArrayBufferByteLengthGetter b) /\ keeps any (builtinArrayBufferMaxByteLengthGetter b) /\
  keeps any (builtinArrayBufferResizableGetter b) /\ keeps any (builtinArrayBufferDetachedGetter b) /\
  keeps any (builtinSharedArrayBufferByteLengthGetter b) /\ keeps any (builtinSharedArrayBufferMaxByteLengthGetter b) /\
  keeps any (builtinSharedArrayBufferGrowableGetter b).
Proof.
  unfold builtinArrayBufferByteLengthGetter, builtinArrayBufferMaxByteLengthGetter, builtinArrayBufferResizableGetter,
    builtinArrayBufferDetachedGetter, builtinSharedArrayBufferByteLengthGetter, builtinSharedArrayBufferMaxByteLengthGetter,
    builtinSharedArrayBufferGrowableGetter. split_and!; keeps.
Qed.
Lemma keeps_resizes m b : keeps any m -> keeps any (builtinArrayBufferResize m b) /\ keeps any (builtinSharedArrayBufferGrow m b).
Proof. intros. unfold builtinArrayBufferResize, builtinSharedArrayBufferGrow. split; keeps. Qed.
Lemma keeps_transfer_parts o b c n : okeeps o -> keeps any (transfer_length o b) /\ keeps any (transfer_contents b c n).
Proof. intros. unfold transfer_length, transfer_contents. split; keeps. Qed.
#[local] Hint Extern 1 (keeps any (transfer_length ?o ?b)) => apply (keeps_transfer_parts o b b 0); assumption : keeps.
#[local] Hint Extern 1 (keeps any (transfer_contents ?b ?c ?n)) => apply (keeps_transfer_parts None b c n); exact I : keeps.
Lemma keeps_transfers o b : okeeps o -> keeps any (builtinArrayBufferTransfer h o b) /\ keeps any (builtinArrayBufferTransferToFixedLength h o b).
Proof. intros. unfold builtinArrayBufferTransfer, builtinArrayBufferTransferToFixedLength. split; keeps. Qed.
Lemma keeps_slice_range m o len : keeps any m -> okeeps o -> keeps (fun p => 0 <= p.2) (slice_range m o len).
Proof. intros. unfold slice_range. keeps. cbn. lia. Qed.
#[local] Hint Resolve keeps_slice_range : keeps.
Lemma keeps_slices m o (species : Z -> MU World nat) b : keeps any m -> okeeps o -> (forall n, 0 <= n -> keeps any (species n)) ->
  keeps any (builtinArrayBufferSlice m o species b) /\ keeps any (builtinSharedArrayBufferSlice m o species b).
Proof.
  intros Hm Ho Hs. unfold builtinArrayBufferSlice, builtinSharedArrayBufferSlice. split; keeps.
Qed.
End Operations.
#[export] Hint Resolve keeps_new_store keeps_new_info keeps_new_buffer keeps_create_view : keeps.
#[export] Hint Resolve keeps_detached keeps_detach keeps_resolve_this : keeps.
#[export] Hint Resolve keeps_createShared : keeps.
#[export] Hint Extern 1 (keeps any (createDefaultNonSharedBackingStore _ ?n)) => apply (keeps_stores _ n n) : keeps.
#[export] Hint Extern 1 (keeps any (createDefaultResizableNonSharedBackingStore _ ?n ?m)) => apply (keeps_stores _ n m) : keeps.
#[export] Hint Extern 1 (keeps any (createDefaultSharedBackingStore _ ?n)) => apply (keeps_stores _ n n) : keeps.
#[export] Hint Extern 1 (keeps any (createDefaultGrowableSharedBackingStore _ ?n ?m)) => apply (keeps_stores _ n m) : keeps.
#[export] Hint Resolve keeps_clear keeps_store_resize : keeps.
#[export] Hint Extern 1 (keeps any (allocateBuffer _ ?b ?n)) => apply (keeps_allocateBuffers _ b n n) : keeps.
#[export] Hint Extern 1 (keeps any (allocateResizableBuffer _ ?b ?n ?m)) => apply (keeps_allocateBuffers _ b n m) : keeps.
#[export] Hint Resolve keeps_new_shared keeps_allocateArrayBuffer : keeps.
#[export] Hint Resolve keeps_allocateShared keeps_fillData : keeps.
#[export] Hint Resolve keeps_mret : keeps.
#[export] Hint Resolve keeps_clone : keeps.
#[export] Hint Resolve keeps_checked_index : keeps.
#[export] Hint Extern 1 (keeps any (transfer_length ?o ?b)) => apply (keeps_transfer_parts o b b 0); assumption : keeps.
#[export] Hint Extern 1 (keeps any (transfer_contents ?b ?c ?n)) => apply (keeps_transfer_parts None b c n); exact I : keeps.
#[export] Hint Resolve keeps_slice_range : keeps.

(** ** Views and elements *)
Section Views.
Context (h : bool) (cvt toUint64 : Z -> Z).

Lemma keeps_allocateTypedArray t proto n : keeps any proto -> keeps any (allocateTypedArray h t proto n).
Proof. intros. unfold allocateTypedArray. keeps. Qed.
Lemma keeps_over_buffer t v b m o : keeps any m -> okeeps o -> keeps any (initializeTypedArrayFromArrayBuffer t v b m o).
Proof. intros. unfold initializeTypedArrayFromArrayBuffer. keeps. Qed.
Definition length_keeps (l : LengthArg) : Prop := match l with Given f => keeps any f | _ => True end.
Lemma keeps_DataView b o l proto : okeeps o -> length_keeps l -> keeps any proto -> keeps any (builtinDataViewConstructor b o l proto).
Proof. intros. unfold builtinDataViewConstructor. destruct l; cbn in *; keeps. Qed.
Lemma keeps_lift {A} (r : A + Thrown) : keeps any (lift r).
Proof. unfold lift. keeps. Qed.
Lemma keeps_cast {A} (o : option A) : keeps any (cast o).
Proof. unfold cast. keeps. Qed.
#[local] Hint Resolve keeps_lift keeps_cast keeps_allocateTypedArray keeps_over_buffer : keeps.
Lemma keeps_toNative t p : keeps any (toNative cvt toUint64 t p).
Proof. unfold toNative, integral_toNative, clamped_toNative, float_toNative, bigint_toNative. destruct t; keeps. Qed.
#[local] Hint Resolve keeps_toNative : keeps.
Lemma keeps_numberToRawBytes t p : keeps bytes (numberToRawBytes cvt toUint64 t p).
Proof. unfold numberToRawBytes. keeps. apply bytes_le. Qed.
Lemma keeps_require b : keeps any (require b).
Proof. unfold require. keeps. Qed.
#[local] Hint Resolve keeps_numberToRawBytes keeps_require : keeps.
Lemma keeps_check b i n : keeps any (check_access b i n).
Proof. unfold check_access. keeps. Qed.
#[local] Hint Resolve keeps_check : keeps.
Lemma keeps_getValue b i t le : keeps any (getValueFromBuffer b i t le).
Proof. unfold getValueFromBuffer. keeps. Qed.
Lemma keeps_setValue b i t p le : keeps any (setValueInBuffer cvt toUint64 b i t p le).
Proof. unfold setValueInBuffer. keeps. Qed.
Lemma keeps_resolve_typed v : keeps any (resolve_typed v).
Proof. unfold resolve_typed. keeps. Qed.
#[local] Hint Resolve keeps_getValue keeps_setValue keeps_resolve_typed : keeps.
Lemma keeps_validate v c : keeps any (validateTypedArray v c).
Proof. unfold validateTypedArray. keeps. Qed.
Lemma keeps_getDirect v t i : keeps any (getDirectValueFromBuffer v t i).
Proof. unfold getDirectValueFromBuffer. keeps. Qed.
Lemma keeps_setDirect v t i p : keeps any (setDirectValueInBuffer cvt toUint64 v t i p).
Proof. unfold setDirectValueInBuffer. keeps. Qed.
Lemma keeps_elementGet v t b i : keeps any (integerIndexedElementGet cvt v t b i).
Proof. unfold integerIndexedElementGet. keeps. Qed.
#[local] Hint Resolve keeps_validate keeps_getDirect keeps_setDirect keeps_elementGet : keeps.
Definition arg_keeps (x : ElementArg) : Prop := keeps any (arg_toNumber x) /\ keeps any (arg_toBigInt x).
Lemma arg_keeps_primitive p : arg_keeps (PrimitiveArg p).
Proof. split; apply keeps_lift. Qed.
#[local] Hint Resolve arg_keeps_primitive : keeps.
#[local] Hint Extern 1 (arg_keeps (match ?x with _ => _ end)) => destruct x : keeps.
Lemma keeps_to_element t x : arg_keeps x -> keeps any (to_element cvt t x).
Proof. intros [? ?]. unfold to_element. keeps. Qed.
#[local] Hint Resolve keeps_to_element : keeps.
Lemma keeps_elementSet v t b i x : arg_keeps x -> keeps any (integerIndexedElementSet cvt toUint64 v t b i x).
Proof. intros. unfold integerIndexedElementSet. keeps. Qed.
#[local] Hint Resolve keeps_elementSet : keeps.
Lemma keeps_getIndexed v i : keeps any (getIndexedPropertyValue cvt v i).
Proof. unfold getIndexedPropertyValue. keeps. Qed.
Lemma keeps_setIndexed v i x : arg_keeps x -> keeps any (setIndexedProperty cvt toUint64 v i x).
Proof. intros. unfold setIndexedProperty. keeps. Qed.
#[local] Hint Resolve keeps_getIndexed keeps_setIndexed : keeps.
Lemma keeps_setThrows v i x : arg_keeps x -> keeps any (setIndexedPropertyThrowsException cvt toUint64 v i x).
Proof. intros. unfold setIndexedPropertyThrowsException. keeps. Qed.
Lemma keeps_numeric v i x : arg_keeps x -> keeps any (get_numeric cvt v i) /\ keeps any (set_numeric cvt toUint64 v i x) /\
  keeps any (deleteOwnProperty_numeric cvt v i).
Proof. intros. unfold get_numeric, set_numeric, deleteOwnProperty_numeric. split_and!; keeps. Qed.
Lemma keeps_typed_getter f v : keeps any (typed_getter f v).
Proof. unfold typed_getter. keeps. Qed.
Lemma keeps_resolve_DataView v : keeps any (resolve_DataView v).
Proof. unfold resolve_DataView. keeps. Qed.
Lemma keeps_DataView_detached v : keeps any (DataView_throwTypeErrorIfDetached v).
Proof. unfold DataView_throwTypeErrorIfDetached. keeps. Qed.
Lemma keeps_view_access v i t : keeps any (view_access v i t).
Proof. unfold view_access. keeps. Qed.
#[local] Hint Resolve keeps_setThrows keeps_resolve_DataView keeps_DataView_detached keeps_view_access : keeps.
Lemma keeps_DataView_getter f v : keeps any (DataView_getter f v).
Proof. unfold DataView_getter. keeps. Qed.
Lemma keeps_ViewValue v m le t (x : MU World Numeric) : keeps any m -> keeps any x ->
  keeps any (getViewValue v m le t) /\ keeps any (setViewValue cvt toUint64 v m x le t).
Proof. intros. unfold getViewValue, setViewValue. split; keeps. Qed.

(** ** Typed arrays *)
Lemma keeps_allocate_elements t v n : keeps any (allocate_elements h t v n).
Proof. unfold allocate_elements. keeps. Qed.
Lemma keeps_from_typed t v s : keeps any (initializeTypedArrayFromTypedArray cvt toUint64 h t v s).
Proof. unfold initializeTypedArrayFromTypedArray. keeps. Qed.
#[local] Hint Resolve keeps_allocate_elements keeps_from_typed : keeps.
Lemma keeps_elements v n k (element : Z -> MU World ElementArg) (g : Z -> Z) : 0 <= k -> (forall i, 0 <= i -> keeps arg_keeps (element i)) ->
  keeps any (for_from n k (fun i => x ← element i; setIndexedPropertyThrowsException cvt toUint64 v (g i) x)) /\
  keeps any (for_from n k (fun i => x ← element i; setIndexedProperty cvt toUint64 v (g i) x;; mret tt)).
Proof.
  intros Hk He. revert k Hk. induction n as [|n IH]; intros k Hk; cbn [for_from]; [split; apply keeps_mret|].
  split; (apply (keeps_bind any); [|intros ? _; apply IH; lia]); (apply (keeps_bind arg_keeps); [now apply He|intros x Hx; keeps]).
Qed.
Definition first_keeps (a : FirstArgument) : Prop :=
  match a with
  | NoArgument | TypedArrayArgument _ => True
  | NonObject m => keeps any m
  | ArrayBufferArgument _ off len => keeps any off /\ okeeps len
  | IterableArgument f => keeps (fun l => forall k x, l !! k = Some x -> arg_keeps x) f
  | ArrayLikeArgument length element => keeps any length /\ forall i, 0 <= i -> keeps arg_keeps (element i)
  end.
Lemma keeps_TypedArray t proto a : keeps any proto -> first_keeps a -> keeps any (builtinTypedArrayConstructor cvt toUint64 h t proto a).
Proof.
  intros Hp Ha. unfold builtinTypedArrayConstructor. destruct a as [|m|s|b off len|f|length element]; cbn in Ha; try (keeps; fail).
  1: destruct Ha; keeps.
  - apply (keeps_bind any); [now apply keeps_allocateTypedArray|intros v _]. apply (keeps_bind any); [|intros ? _; apply keeps_mret].
    apply (keeps_bind (fun l => forall k x, l !! k = Some x -> arg_keeps x)); [done|]. intros l Hl. unfold initializeTypedArrayFromList.
    apply (keeps_bind any); [apply keeps_allocate_elements|intros ? _]. apply keeps_for. intros i.
    apply (keeps_bind arg_keeps); [|intros x Hx; keeps]. intros w w' r Hw. unfold certain. destruct (l !! Z.to_nat i) as [x|] eqn:E; [|done].
    intros [= <- <-]. split; [done|]. now apply (Hl (Z.to_nat i)).
  - destruct Ha as [Hn He]. unfold initializeTypedArrayFromArrayLike. apply (keeps_bind any); [now apply keeps_allocateTypedArray|intros v _].
    apply (keeps_bind any); [|intros ? _; apply keeps_mret]. apply (keeps_bind any); [done|intros n _].
    apply (keeps_bind any); [apply keeps_allocate_elements|intros ? _]. now apply (keeps_elements v _ 0 element id).
Qed.
Lemma keeps_copy_byte b c i j : keeps any (copy_byte cvt toUint64 b c i j).
Proof. unfold copy_byte. keeps. Qed.
#[local] Hint Resolve keeps_TypedArray keeps_copy_byte : keeps.
#[local] Hint Extern 1 (first_keeps (NonObject _)) => apply keeps_mret : keeps.
Lemma keeps_copyWithin m1 m2 o v : keeps any m1 -> keeps any m2 -> okeeps o -> keeps any (builtinTypedArrayCopyWithin cvt toUint64 m1 m2 o v).
Proof. intros. unfold builtinTypedArrayCopyWithin. keeps. Qed.
Lemma keeps_set_typed v o s : keeps any (setTypedArrayFromTypedArray cvt toUint64 h v o s).
Proof. unfold setTypedArrayFromTypedArray. keeps. Qed.
Definition source_keeps (s : SetSource) : Prop :=
  match s with
  | SourceTypedArray _ => True
  | SourceArrayLike length element => keeps any length /\ forall i, 0 <= i -> keeps arg_keeps (element i)
  end.
#[local] Hint Resolve keeps_set_typed : keeps.
Lemma keeps_Set m s v : keeps any m -> source_keeps s -> keeps any (builtinTypedArraySet cvt toUint64 h m s v).
Proof.
  intros Hm Hs. unfold builtinTypedArraySet. destruct s as [s|length element]; [keeps|]. destruct Hs as [Hl He].
  unfold setTypedArrayFromArrayLike. keeps. now apply (keeps_elements v _ 0 element (fun i => i + _)).
Qed.
Lemma keeps_species m n : keeps any m -> keeps any (typedArraySpeciesCreate m n).
Proof. intros. unfold typedArraySpeciesCreate. keeps. Qed.
#[local] Hint Resolve keeps_species : keeps.
Lemma keeps_subarray m o c v : keeps any m -> okeeps o -> (forall b i n, keeps any (c b i n)) -> keeps any (builtinTypedArraySubArray m o c v).
Proof. intros. unfold builtinTypedArraySubArray. keeps. Qed.
Lemma keeps_typed_slice m o c v : keeps any m -> okeeps o -> (forall n, keeps any (c n)) -> keeps any (builtinTypedArraySlice cvt toUint64 m o c v).
Proof. intros. unfold builtinTypedArraySlice. keeps. Qed.
Lemma keeps_fill x m o v : arg_keeps x -> keeps any m -> okeeps o -> keeps any (builtinTypedArrayFill cvt toUint64 x m o v).
Proof. intros. unfold builtinTypedArrayFill. keeps. Qed.
Lemma keeps_reverse v : keeps any (builtinTypedArrayReverse cvt toUint64 v).
Proof. unfold builtinTypedArrayReverse. keeps. Qed.
Lemma keeps_with m x v : keeps any m -> arg_keeps x -> keeps any (builtinTypedArrayWith cvt toUint64 h m x v).
Proof. intros. unfold builtinTypedArrayWith. keeps. Qed.
Lemma keeps_at n m v : keeps any n -> keeps any m -> keeps any (builtinTypedArrayAt cvt n m v).
Proof. intros. unfold builtinTypedArrayAt, get_numeric. keeps. Qed.

(** ** Loops, texts and Atomics *)
Lemma keeps_search {A} n k (body : Z -> MU World (option A)) : (forall i, keeps any (body i)) -> keeps any (search_from n k body).
Proof.
  intros Hb. revert k. induction n as [|n IH]; intros k; cbn [search_from]; [apply keeps_mret|].
  apply (keeps_bind any); [apply Hb|]. intros [a|] _; [apply keeps_mret|apply IH].
Qed.
Lemma keeps_fold {V} n k (body : V -> Z -> MU World V) v : (forall v i, keeps any (body v i)) -> keeps any (fold_from n k body v).
Proof.
  intros Hb. revert k v. induction n as [|n IH]; intros k v; cbn [fold_from]; [apply keeps_mret|]. apply (keeps_bind any); [apply Hb|auto].
Qed.
#[local] Hint Extern 2 (keeps any (search_from _ _ _)) => apply keeps_search; intros; keeps : keeps.
#[local] Hint Extern 2 (keeps any (fold_from _ _ _ _)) => apply keeps_fold; intros; keeps : keeps.
Lemma keeps_start c v : keeps any (start_loop c v).
Proof. unfold start_loop. keeps. Qed.
#[local] Hint Resolve keeps_start : keeps.
Section Callbacks.
Context (c : bool) (f : Element -> Z -> MU World bool) (v : nat) (Hf : forall x i, keeps any (f x i)).
Lemma keeps_tested {A} g (found : Element -> Z -> A) k : (forall x i, keeps any (g x i)) -> keeps any (tested cvt g v found k).
Proof. intros Hg. unfold tested. keeps. Qed.
#[local] Hint Extern 2 (keeps any (tested _ _ _ _ _)) => apply keeps_tested; intros; keeps : keeps.
Lemma keeps_searches : keeps any (builtinTypedArraySome cvt c f v) /\ keeps any (builtinTypedArrayEvery cvt c f v) /\
  keeps any (builtinTypedArrayFind cvt c f v) /\ keeps any (builtinTypedArrayFindIndex cvt c f v) /\
  keeps any (builtinTypedArrayFindLast cvt c f v) /\ keeps any (builtinTypedArrayFindLastIndex cvt c f v).
Proof.
  unfold builtinTypedArraySome, builtinTypedArrayEvery, builtinTypedArrayFind, builtinTypedArrayFindIndex, builtinTypedArrayFindLast,
    builtinTypedArrayFindLastIndex. split_and!; keeps.
Qed.
End Callbacks.
Lemma keeps_calls c (f : Element -> Z -> MU World unit) (g : Element -> Z -> MU World bool) (construct : Z -> MU World nat) v :
  (forall x i, keeps any (f x i)) -> (forall x i, keeps any (g x i)) -> (forall n, keeps any (construct n)) ->
  keeps any (builtinTypedArrayForEach cvt c f v) /\ keeps any (builtinTypedArrayFilter cvt toUint64 c construct g v).
Proof. intros. unfold builtinTypedArrayForEach, builtinTypedArrayFilter. split; keeps. Qed.
Lemma keeps_map c construct (f : Element -> Z -> MU World ElementArg) v : (forall n, keeps any (construct n)) -> (forall x i, keeps arg_keeps (f x i)) ->
  keeps any (builtinTypedArrayMap cvt toUint64 c construct f v).
Proof.
  intros Hn Hf. unfold builtinTypedArrayMap. keeps. apply keeps_for. intros i. apply (keeps_bind any); [apply keeps_getIndexed|]. intros x _.
  apply (keeps_bind arg_keeps); [apply Hf|]. intros y Hy. keeps.
Qed.
Lemma keeps_reduce {V} (g : Element -> V) c (f : V -> Element -> Z -> MU World V) initial v : (forall u x i, keeps any (f u x i)) ->
  keeps any (builtinTypedArrayReduce cvt g c f initial v) /\ keeps any (builtinTypedArrayReduceRight cvt g c f initial v).
Proof. intros. unfold builtinTypedArrayReduce, builtinTypedArrayReduceRight. split; keeps. Qed.
Lemma keeps_toReversed v : keeps any (builtinTypedArrayToReversed cvt toUint64 h v).
Proof. unfold builtinTypedArrayToReversed. keeps. Qed.
Lemma keeps_byte_search fuel b a test s i n : keeps any (byte_search fuel b a test s i n).
Proof. revert i. induction fuel as [|fuel IH]; intros i; cbn [byte_search]; keeps. Qed.
#[local] Hint Resolve keeps_byte_search : keeps.
Lemma keeps_fast b v k n value : keeps any (fastTypedArrayIndexSearch toUint64 b v k n value).
Proof. unfold fastTypedArrayIndexSearch. keeps. Qed.
#[local] Hint Resolve keeps_fast : keeps.
Lemma keeps_finding p q o v : okeeps o -> keeps any (builtinTypedArrayIndexOf toUint64 p o v) /\
  keeps any (builtinTypedArrayLastIndexOf toUint64 p o v) /\ keeps any (builtinTypedArrayIncludes cvt q o v).
Proof.
  intros. unfold builtinTypedArrayIndexOf, builtinTypedArrayLastIndexOf, builtinTypedArrayIncludes. split_and!; keeps.
Qed.
Lemma byte_u8 n : bytes [u8 n].
Proof. constructor; [apply wrapu_range; lia|constructor]. Qed.
#[local] Hint Resolve byte_u8 : core.
Lemma keeps_decodeHex s : forall a r n L, keeps any (decodeHex s a r n L).
Proof.
  assert (H : forall k s, (length s <= k)%nat -> forall a r n L, keeps any (decodeHex s a r n L)).
  { intros k. induction k as [|k IH]; intros [|c1 [|c2 cursor]] Hl a r n L; cbn [decodeHex]; cbn in Hl; try lia; keeps. apply IH. lia. }
  now apply (H (length s)).
Qed.
#[local] Hint Resolve keeps_decodeHex : keeps.
Lemma keeps_Uint8Array v : keeps any (resolve_Uint8Array v).
Proof. unfold resolve_Uint8Array. keeps. Qed.
#[local] Hint Resolve keeps_Uint8Array : keeps.
Lemma keeps_hex s v : keeps any (builtinUint8ArrayFromHex h s) /\ keeps any (builtinUint8ArraySetFromHex s v) /\ keeps any (builtinUint8ArrayToHex v).
Proof. unfold builtinUint8ArrayFromHex, builtinUint8ArraySetFromHex, builtinUint8ArrayToHex. split_and!; keeps. Qed.
Lemma keeps_integer_array b v : keeps any (validateIntegerTypedArray b v).
Proof. unfold validateIntegerTypedArray. keeps. Qed.
Lemma keeps_atomic_access v m : keeps any m -> keeps any (validateAtomicAccess v m).
Proof. intros. unfold validateAtomicAccess. keeps. Qed.
Lemma keeps_revalidate b p n : keeps any (revalidateAtomicAccess b p n).
Proof. unfold revalidateAtomicAccess. keeps. Qed.
Lemma keeps_modifySet b p t v op : keeps any (getModifySetValueInBuffer toUint64 b p t v op).
Proof. unfold getModifySetValueInBuffer, atomic_operand. keeps. Qed.
Definition atomic_keeps (x : AtomicArg) : Prop := keeps any (to_integer x) /\ keeps any (to_big x).
Lemma keeps_atomic_value t x : atomic_keeps x -> keeps any (atomic_value cvt t x).
Proof. intros [? ?]. unfold atomic_value. keeps. Qed.
#[local] Hint Resolve keeps_integer_array keeps_atomic_access keeps_revalidate keeps_modifySet keeps_atomic_value : keeps.
Lemma keeps_atomics v m x y op : keeps any m -> atomic_keeps x -> atomic_keeps y ->
  keeps any (atomicReadModifyWrite cvt toUint64 v m x op) /\ keeps any (builtinAtomicsCompareExchange cvt toUint64 v m x y) /\
  keeps any (builtinAtomicsLoad v m) /\ keeps any (builtinAtomicsStore cvt toUint64 v m x).
Proof.
  intros. unfold atomicReadModifyWrite, builtinAtomicsCompareExchange, builtinAtomicsLoad, builtinAtomicsStore. split_and!; keeps.
Qed.

(** ** Scripts *)
Lemma scripts_keep :
  (forall A (P : A -> Prop) m, script h cvt toUint64 P m -> keeps P m) /\
  (forall P o, optional h cvt toUint64 P o -> okeeps o) /\
  (forall l, length_script h cvt toUint64 l -> length_keeps l) /\
  (forall x, arg_script h cvt toUint64 x -> arg_keeps x) /\
  (forall x, atomic_script h cvt toUint64 x -> atomic_keeps x) /\
  (forall x, source_script h cvt toUint64 x -> source_keeps x) /\
  (forall a, first_script h cvt toUint64 a -> first_keeps a).
Proof.
  apply script_mutind; intros; try apply keeps_getters; try apply keeps_typed_getter; try apply keeps_DataView_getter; try done.
  - now apply keeps_ret.
  - apply keeps_throw.
  - apply keeps_gets.
  - now apply (keeps_bind P).
  - now apply (keeps_weaken P).
  - apply keeps_collect.
  - refine (proj1 (keeps_constructors h toIndex maxOption proto _ _ _)); [now apply (keeps_any is_index)|now apply (keeps_any max_ok)|done].
  - refine (proj2 (keeps_constructors h toIndex maxOption proto _ _ _)); [now apply (keeps_any is_index)|now apply (keeps_any max_ok)|done].
  - apply keeps_resizes; eauto using keeps_any.
  - apply keeps_resizes; eauto using keeps_any.
  - now apply keeps_transfers.
  - now apply keeps_transfers.
  - apply keeps_slices; eauto using keeps_any.
  - apply keeps_slices; eauto using keeps_any.
  - now apply keeps_DataView.
  - apply (keeps_ViewValue _ _ _ _ (mret (BigInt 0))); eauto using keeps_any, keeps_mret.
  - apply (keeps_ViewValue _ _ _ _ toNumeric); eauto using keeps_any.
  - unfold new_typed_array. keeps.
  - apply keeps_getIndexed.
  - now apply keeps_setIndexed.
  - now apply keeps_setThrows.
  - apply (keeps_numeric v d (PrimitiveArg undefined_value)). apply arg_keeps_primitive.
  - now apply (keeps_numeric v d value).
  - apply (keeps_numeric v d (PrimitiveArg undefined_value)). apply arg_keeps_primitive.
  - apply keeps_copyWithin; eauto using keeps_any.
  - apply keeps_Set; eauto using keeps_any.
  - apply keeps_subarray; eauto using keeps_any.
  - apply keeps_typed_slice; eauto using keeps_any.
  - apply keeps_fill; eauto using keeps_any.
  - apply keeps_reverse.
  - apply keeps_with; eauto using keeps_any.
  - apply keeps_at; eauto using keeps_any.
  - now apply keeps_searches.
  - now apply keeps_searches.
  - now apply keeps_searches.
  - now apply keeps_searches.
  - now apply keeps_searches.
  - now apply keeps_searches.
  - refine (proj1 (keeps_calls c f (fun _ _ => mret true) (fun _ => mret 0%nat) v _ _ _)); intros; done || apply keeps_mret.
  - apply keeps_map; [done|]. intros x i. apply (keeps_weaken P); auto.
  - refine (proj2 (keeps_calls c (fun _ _ => mret tt) f construct v _ _ _)); intros; done || apply keeps_mret.
  - now apply keeps_reduce.
  - now apply keeps_reduce.
  - apply keeps_toReversed.
  - now apply (keeps_finding value None).
  - now apply (keeps_finding value None).
  - now apply (keeps_finding undefined_value value).
  - apply (keeps_hex string 0).
  - apply (keeps_hex string v).
  - apply (keeps_hex [] v).
  - apply (keeps_atomics v toIndex value value op); eauto using keeps_any.
  - apply (keeps_atomics v toIndex expected replacement ADD); eauto using keeps_any.
  - refine (proj1 (proj2 (proj2 (keeps_atomics v toIndex (mkAtomicArg (mret 0) (mret 0)) (mkAtomicArg (mret 0) (mret 0)) ADD _ _ _))));
      [now apply (keeps_any is_index)|split; apply keeps_mret..].
  - apply (keeps_atomics v toIndex value value ADD); eauto using keeps_any.
  - now apply (keeps_any P).
  - now apply (keeps_any is_index).
  - apply arg_keeps_primitive.
  - split; [now apply (keeps_any length_arg)|]. intros i Hi. apply (keeps_weaken P); auto.
  - now apply (keeps_any is_index).
  - split; [now apply (keeps_any is_index)|done].
  - apply (keeps_weaken P); eauto.
  - split; [now apply (keeps_any length_arg)|]. intros i Hi. apply (keeps_weaken P); auto.
Qed.
End Views.

Lemma reachable_bytes h cvt toUint64 w : BufferClaims.reachable h cvt toUint64 w -> byte_cells w.
Proof.
  intros (A & P & m & r & Hm & E). destruct (proj1 (scripts_keep h cvt toUint64) A P m Hm BufferExamples.empty w r) as [H _]; done.
Qed.
End ByteCells.
