(* ===== verification/TypedArrayElements.v ===== *)
(** What the elements of typed arrays hold: reading an element that was written
    gives the conversion of ECMA-262 and leaves the others, and [copyWithin] moves
    the bytes as if they were copied at once. *)
From Stdlib Require Import ZArith Lia Bool.
From stdpp Require Import base numbers list option decidable gmap.
From S2P Require Import Prelude Effects Double Float16 Value ArrayBuffer BufferInvariant BufferSafety BufferBuiltins TypedArray.
From S2P Require Import TypedArraySafety TypedArrayCopies BufferScript BufferBytes.

(** * The value of an element *)
Module ElementValues.
Import Effects Buffers Word WordFacts ToInt32Facts TypedArrays ElementFacts Formats Single Half.

(** The integer types: whether they are signed, and their bits. *)
Definition integral_type (t : TypedArrayType) : option (bool * Z) :=
  match t with
  | Int8 => Some (true, 8) | Uint8 => Some (false, 8)
  | Int16 => Some (true, 16) | Uint16 => Some (false, 16)
  | Int32 => Some (true, 32) | Uint32 => Some (false, 32)
  | _ => None
  end.
(** The integer that ToInt8, ToUint8 and the others wrap. *)
Definition whole (d : Z) : Z := if is_finite d then to_Z d else 0.
Definition toUint8Clamp (d : Z) : Z :=
  if is_nan d then 0 else if flt d 0 then 0 else if flt (of_Z 255) d then 255 else rne (scaled d) UNIT.
(** NumericToRawBytes and RawBytesToNumeric, one after the other. *)
Definition ecma_element (t : TypedArrayType) (x : Numeric) : option Numeric :=
  match t, x with
  | Uint8Clamped, Number d => Some (Number (of_Z (toUint8Clamp d)))
  | Float16, Number d => Some (number_of_pattern (convertFloat16ToFloat64 (half_round d)))
  | Float32, Number d => Some (number_of_pattern (widen (narrow d)))
  | Float64, Number d => Some (Number d)
  | BigInt64, BigInt n => Some (BigInt (wraps 64 n))
  | BigUint64, BigInt n => Some (BigInt (wrapu 64 n))
  | BigInt64, _ | BigUint64, _ => None
  | _, Number d =>
      match integral_type t with
      | Some (signed, w) => Some (Number (of_Z (wrap signed w (whole d))))
      | None => None
      end
  | _, BigInt _ => None
  end.
(** The doubles that are numbers of the engine. *)
Definition is_numeric (x : Numeric) : Prop := match x with Number d => 0 <= d < DoubleInvalidBeginning | BigInt _ => True end.

Section Values.
Context (cvt toUint64 : Z -> Z) (cvt_int : forall d, in_s 32 (cvt d)) (toUint64_mod : forall n, toUint64 n = wrapu 64 n).

Lemma number_value_cases d : 0 <= d < DoubleInvalidBeginning ->
  (exists i, in_s 32 i /\ of_Z i = d /\ number_value cvt d = Int32Value i) \/ number_value cvt d = DoubleValue d.
Proof.
  intros Hd. assert (Hu : in_u 64 d) by (unfold in_u, DoubleInvalidBeginning in *; lia).
  unfold number_value. pose proof (convertible_spec cvt cvt_int d Hu) as Hc.
  destruct (isInt32ConvertibleDouble cvt d) as [[|] i]; [left; exists i; tauto|right].
  rewrite invalid_beginning by done. now rewrite (proj2 (Z.leb_gt _ d)) by lia.
Qed.
Lemma number_of_valid d : 0 <= d < DoubleInvalidBeginning -> number_of_pattern d = Number d.
Proof.
  intros Hd. assert (Hu : in_u 64 d) by (unfold in_u, DoubleInvalidBeginning in *; lia).
  unfold number_of_pattern. rewrite invalid_beginning by done. now rewrite (proj2 (Z.leb_gt _ d)) by lia.
Qed.

Lemma wrap_i32 signed w z : 0 < w <= 32 -> wrap signed w (i32 z) = wrap signed w z.
Proof.
  intros Hw. assert (E : wrapu w (i32 z) = wrapu w z).
  { unfold wraps, wrapu. pose proof (Z.div_mod (z + 2 ^ (32 - 1)) (2 ^ 32) ltac:(lia)) as D.
    replace ((z + 2 ^ (32 - 1)) mod 2 ^ 32 - 2 ^ (32 - 1)) with (z + (- ((z + 2 ^ (32 - 1)) / 2 ^ 32) * 2 ^ (32 - w)) * 2 ^ w).
    - apply Z.mod_add. lia.
    - rewrite <- Z.mul_assoc, <- Z.pow_add_r by lia. replace (32 - w + w) with 32 by lia. lia. }
  unfold wrap. destruct signed; [|done]. rewrite <- (wraps_wrapu w (i32 z)), E by lia. now apply wraps_wrapu.
Qed.
Lemma whole_of_Z i : in_s 32 i -> whole (of_Z i) = i.
Proof.
  intros Hi. pose proof (rep_of_Z i ltac:(unfold in_s in Hi; lia)) as R. unfold whole. destruct R as [F E].
  rewrite F. apply rep_to_Z. now split.
Qed.
Lemma toNativeFromDouble_spec signed w d : 0 < w <= 32 -> 0 <= d < DoubleInvalidBeginning ->
  toNativeFromDouble cvt signed w d = wrap signed w (whole d).
Proof.
  intros Hw Hd. assert (Hu : in_u 64 d) by (unfold in_u, DoubleInvalidBeginning in *; lia). unfold toNativeFromDouble. cbv zeta.
  assert (Hc : in_s 32 (cast_int32 cvt d)).
  { unfold cast_int32. destruct (_ && _) eqn:E; [|apply cvt_int]. Zbool. unfold in_s. lia. }
  set (i := cast_int32 cvt d) in *. clearbody i.
  destruct (feq (of_Z i) d) eqn:E; cbn [negb].
  - pose proof (rep_of_Z i ltac:(unfold in_s in Hc; lia)) as [F S]. pose proof (feq_finite _ _ F E) as Fd.
    rewrite feq_scaled in E by done. Zbool. unfold whole. rewrite Fd. f_equal. symmetry. apply rep_to_Z. split; [done|congruence].
  - destruct (encode_double d Hd) as (_ & Hv & Hn & I & A).
    assert (En : asNumber (Value_EncodeAsDouble d) = d) by (unfold asNumber; now rewrite I).
    unfold toInt32. rewrite I, (ConversionFacts.toNumber_number asNumber), En, toInt32SlowCase_spec by done. unfold whole. destruct (is_finite d); [now apply wrap_i32|done].
Qed.
Lemma integral_toNative_spec signed w d u : 0 < w <= 32 -> 0 <= d < DoubleInvalidBeginning ->
  integral_toNative cvt signed w (number_value cvt d) u = Some (u, inl (wrap signed w (whole d))).
Proof.
  intros Hw Hd. destruct (number_value_cases d Hd) as [(i & Hi & <- & ->)| ->]; cbn [integral_toNative].
  - now rewrite whole_of_Z.
  - now rewrite toNativeFromDouble_spec.
Qed.

Lemma clamped_int i : in_s 32 i -> clamped_from_int32 i = toUint8Clamp (of_Z i).
Proof.
  intros Hi. pose proof (rep_of_Z i ltac:(unfold in_s in Hi; lia)) as R. unfold clamped_from_int32, toUint8Clamp.
  rewrite (rep_ne_nan _ _ R), (rep_flt _ 0 i 0 R (rep_of_Z 0 ltac:(lia))), (rep_flt _ _ 255 i (rep_of_Z 255 ltac:(lia)) R).
  destruct (i <? 0) eqn:E0; [done|]. destruct (255 <? i) eqn:E1; [done|]. destruct R as [_ ->]. Zbool.
  pose proof UNIT_pos. pose proof (rne_nearest (i * UNIT) UNIT i ltac:(lia)) as Hn. nia.
Qed.
Lemma rne_byte_bound d : is_nan d = false -> flt d 0 = false -> flt (of_Z 255) d = false -> 0 <= rne (scaled d) UNIT <= 255.
Proof.
  intros Hn H0 H1. pose proof UNIT_pos.
  destruct (BufferSpecs.cast_size_t_between d 255 Hn H0 H1 ltac:(lia)) as (n & En & _).
  assert (F : is_finite d = true).
  { unfold cast_size_t in En. destruct (is_finite d); [done|discriminate En]. }
  pose proof (of_Z_finite 255 ltac:(lia)) as F255. rewrite (flt_scaled d 0 F eq_refl) in H0. rewrite (flt_scaled _ d F255 F) in H1. rewrite (proj2 (of_Z_exact 255 ltac:(lia))) in H1.
  change (scaled 0) with 0 in H0. Zbool. split; [apply rne_at_least; lia|].
  pose proof (rne_nearest (scaled d) UNIT 255 ltac:(lia)) as Hr. nia.
Qed.
Lemma clamped_toNative_spec d u : 0 <= d < DoubleInvalidBeginning ->
  clamped_toNative (number_value cvt d) u = Some (u, inl (toUint8Clamp d)).
Proof.
  intros Hd. destruct (number_value_cases d Hd) as [(i & Hi & <- & ->)| ->]; cbn [clamped_toNative].
  - now rewrite clamped_int.
  - enough (clamped_from_double d = toUint8Clamp d) as -> by done. unfold clamped_from_double, toUint8Clamp.
    destruct (is_nan d) eqn:E; [done|]. destruct (flt d 0) eqn:E0; [done|]. destruct (flt (of_Z 255) d) eqn:E1; [done|].
    apply wrapu_id. unfold in_u. pose proof (rne_byte_bound d E E0 E1). lia.
Qed.
Lemma toUint8Clamp_range d : 0 <= toUint8Clamp d <= 255.
Proof.
  unfold toUint8Clamp. destruct (is_nan d) eqn:E; [lia|]. destruct (flt d 0) eqn:E0; [lia|]. destruct (flt (of_Z 255) d) eqn:E1; [lia|].
  now apply rne_byte_bound.
Qed.
Lemma float_toNative_spec f d u : 0 <= d < DoubleInvalidBeginning -> float_toNative f (number_value cvt d) u = Some (u, inl (f d)).
Proof. intros Hd. destruct (number_value_cases d Hd) as [(i & Hi & <- & ->)| ->]; done. Qed.

Lemma half_round_range d : 0 <= half_round d < 2 ^ 16.
Proof.
  unfold half_round. pose proof (round16_range (mag_scaled (mag d)) ltac:(apply mag_scaled_nonneg, mag_range)) as Hr.
  unfold INF16, kFP16qNaN in *. destruct (sign_bit d), (is_nan d); lia.
Qed.
Lemma narrow_range d : 0 <= narrow d < 2 ^ 32.
Proof.
  unfold narrow, signed32. destruct (is_nan d); [unfold NAN32; lia|]. destruct (is_inf d); [unfold INF32; destruct (sign_bit d); lia|].
  assert (Hr : 0 <= round_to 23 INF32 (mag_scaled (mag d)) (2 ^ 925) <= INF32).
  { pose proof (mag_scaled_nonneg (mag d) ltac:(apply mag_range)). unfold round_to. set (k := Z.max 0 _). assert (0 <= k) by lia. assert (0 < 2 ^ k) by lia.
    assert (0 <= rne (mag_scaled (mag d)) (2 ^ 925 * 2 ^ k)) by (apply rne_at_least; lia). unfold INF32. lia. }
  unfold INF32 in *. destruct (sign_bit d); lia.
Qed.

(** The bytes of a native value, read back. *)
Lemma signed_bytes w n : 0 < w -> wraps w (wraps w n mod 2 ^ w) = wraps w n.
Proof. intros Hw. change (wraps w n mod 2 ^ w) with (wrapu w (wraps w n)). rewrite wraps_wrapu by lia. apply wraps_id; [lia|]. now apply wraps_range. Qed.
Lemma unsigned_bytes w n : 0 < w -> wrapu w n mod 2 ^ w = wrapu w n.
Proof. intros Hw. apply Z.mod_mod. lia. Qed.
Definition bits (t : TypedArrayType) : Z := 8 * Z.of_nat (Z.to_nat (type_elementSize t)).
Lemma read_bytes t n : le_value (le_bytes (Z.to_nat (type_elementSize t)) n) = n mod 2 ^ bits t.
Proof. apply le_value_le_bytes. Qed.
Lemma bits_integral t signed w : integral_type t = Some (signed, w) -> bits t = w /\ 0 < w <= 32.
Proof. destruct t; intros [= <- <-]; vm_compute; auto; split; try split; congruence. Qed.
Lemma integral_element t signed w d u : integral_type t = Some (signed, w) -> 0 <= d < DoubleInvalidBeginning ->
  toNative cvt toUint64 t (number_value cvt d) u = Some (u, inl (wrap signed w (whole d))) /\
  rawBytesToNumber t (le_bytes (Z.to_nat (type_elementSize t)) (wrap signed w (whole d))) = Number (of_Z (wrap signed w (whole d))).
Proof.
  intros Et Hd. destruct (bits_integral t signed w Et) as [Eb Hw]. split.
  - rewrite <- (integral_toNative_spec signed w d u Hw Hd). destruct t; try discriminate Et; injection Et as <- <-; reflexivity.
  - unfold rawBytesToNumber. cbv zeta. rewrite read_bytes, Eb. unfold wrap.
    destruct t; try discriminate Et; injection Et as <- <-; now rewrite ?signed_bytes, ?unsigned_bytes by lia.
Qed.

(** What is written, as bytes, is read as the conversion. *)
Lemma element_value t x y u : is_numeric x -> ecma_element t x = Some y ->
  exists n, toNative cvt toUint64 t (numeric_value cvt x) u = Some (u, inl n) /\
    rawBytesToNumber t (le_bytes (Z.to_nat (type_elementSize t)) n) = y.
Proof.
  intros Hx Hy. destruct x as [d|n]; cbn [is_numeric numeric_value] in *.
  - destruct (integral_type t) as [[signed w]|] eqn:Et.
    + assert (y = Number (of_Z (wrap signed w (whole d)))) as ->.
      { destruct t; try discriminate Et; cbn [ecma_element] in Hy; rewrite Et in Hy; now injection Hy. }
      destruct (integral_element t signed w d u Et Hx). eauto.
    + unfold rawBytesToNumber. cbv zeta.
      destruct t; try discriminate Et; cbn [ecma_element] in Hy; try discriminate Hy; injection Hy as <-; cbn [toNative].
      * eexists. split; [now apply clamped_toNative_spec|]. pose proof (toUint8Clamp_range d). rewrite read_bytes. change (bits Uint8Clamped) with 8. rewrite Z.mod_small by lia. done.
      * eexists. split; [now apply float_toNative_spec|]. assert (Hu : in_u 64 d) by (unfold in_u, DoubleInvalidBeginning in *; lia).
        rewrite read_bytes, convertFloat64ToFloat16_round by done. change (bits Float16) with 16. rewrite Z.mod_small by apply half_round_range. done.
      * eexists. split; [now apply float_toNative_spec|]. rewrite read_bytes. change (bits Float32) with 32. rewrite Z.mod_small by apply narrow_range. done.
      * eexists. split; [now apply float_toNative_spec|]. rewrite read_bytes. change (bits Float64) with 64. unfold id.
        rewrite Z.mod_small by (unfold DoubleInvalidBeginning in *; lia). now apply number_of_valid.
  - destruct t; cbn [ecma_element integral_type] in *; try discriminate; injection Hy as <-;
      (eexists; split; [reflexivity|]); unfold rawBytesToNumber; cbv zeta; rewrite read_bytes, toUint64_mod.
    + change (bits BigInt64) with 64. rewrite unsigned_bytes by lia. now rewrite wraps_wrapu by lia.
    + change (bits BigUint64) with 64. now rewrite unsigned_bytes by lia.
Qed.
End Values.
End ElementValues.

(** * Reading what was written *)
Module ElementMemory.
Import Effects WP Buffers Wiring Notified Invariant Steps BufferSpecs BufferBuiltins Word TypedArrays ElementFacts IndexFacts TypedArraySafety
  EcmaViews ElementValues.

(** The world in which some bytes of a block were replaced. *)
Definition write (w : World) (a : nat) (o : Z) (bytes : list Z) : World := upd_blocks (alter (write_cells o bytes) a) w.
Definition spliced (l : list Z) (o : Z) (bytes : list Z) : list Z :=
  take (Z.to_nat o) l ++ bytes ++ drop (Z.to_nat o + length bytes) l.

Lemma bytes_at_lookup l o n k : bytes_at l o n !! k = if decide (k < Z.to_nat n)%nat then l !! (Z.to_nat o + k)%nat else None.
Proof. unfold bytes_at. case_decide; [rewrite lookup_take_lt by done; apply lookup_drop|apply lookup_take_ge; lia]. Qed.
Lemma spliced_lookup l o bytes k : 0 <= o -> o + Z.of_nat (length bytes) <= Z.of_nat (length l) ->
  spliced l o bytes !! k =
  if decide (Z.to_nat o <= k < Z.to_nat o + length bytes)%nat then bytes !! (k - Z.to_nat o)%nat else l !! k.
Proof.
  intros Ho Hl. unfold spliced. assert (Et : length (take (Z.to_nat o) l) = Z.to_nat o) by (rewrite length_take; lia).
  destruct (decide (k < Z.to_nat o)%nat).
  - rewrite lookup_app_l by lia. rewrite lookup_take_lt by done. rewrite decide_False by lia. done.
  - rewrite lookup_app_r by lia. rewrite Et. case_decide as Hk.
    + now rewrite lookup_app_l by lia.
    + rewrite lookup_app_r by lia. rewrite lookup_drop. f_equal. lia.
Qed.
Lemma length_spliced l o bytes : 0 <= o -> o + Z.of_nat (length bytes) <= Z.of_nat (length l) -> length (spliced l o bytes) = length l.
Proof. intros Ho Hl. unfold spliced. rewrite !length_app, length_take, length_drop. lia. Qed.
Lemma bytes_spliced l o bytes : 0 <= o -> o + Z.of_nat (length bytes) <= Z.of_nat (length l) ->
  bytes_at (spliced l o bytes) o (Z.of_nat (length bytes)) = bytes.
Proof.
  intros Ho Hl. apply list_eq. intros k. rewrite bytes_at_lookup, spliced_lookup by done. rewrite Nat2Z.id.
  case_decide; [rewrite decide_True by lia; f_equal; lia|]. symmetry. apply lookup_ge_None_2. lia.
Qed.
Lemma bytes_elsewhere l o bytes o' n : 0 <= o -> o + Z.of_nat (length bytes) <= Z.of_nat (length l) -> 0 <= o' -> 0 <= n ->
  o' + n <= o \/ o + Z.of_nat (length bytes) <= o' -> bytes_at (spliced l o bytes) o' n = bytes_at l o' n.
Proof.
  intros Ho Hl Ho' Hn Hd. apply list_eq. intros k. rewrite !bytes_at_lookup. case_decide; [|done].
  rewrite spliced_lookup by done. now rewrite decide_False by lia.
Qed.

Lemma block_written w a o bytes blk : blocks w !! a = Some blk -> block_cells (write w a o bytes) a = spliced (block_cells w a) o bytes.
Proof. intros E. unfold block_cells. cbn. rewrite list_lookup_alter_eq, E. done. Qed.
Lemma store_write w a o bytes : accessible w (a, o) (Z.of_nat (length bytes)) = true -> bytes <> [] ->
  store_bytes (Some (a, o)) bytes w = Some (write w a o bytes, inl tt).
Proof. intros Ha Hb. unfold store_bytes. destruct bytes; [done|]. cbn [fst snd]. now rewrite Ha. Qed.
Lemma accessible_cells w a o n : accessible w (a, o) n = true ->
  exists blk, blocks w !! a = Some blk /\ 0 <= o /\ o + n <= Z.of_nat (length (block_cells w a)).
Proof.
  unfold accessible, block_cells. cbn. destruct (blocks w !! a) as [blk|]; [|done]. intros H. Zbool. exists blk. cbn. split_and!; done || lia.
Qed.

Section Host.
Context (host : bool) (cvt toUint64 : Z -> Z) (cvt_int : forall d, in_s 32 (cvt d)).
Context (w : World) (HG : Good host w) (v : nat) (x : ArrayBufferView) (b : nat) (t : TypedArrayType).
Context (Ev : views w !! v = Some x) (Eb : m_buffer x = Some b) (Ek : v_kind x = TypedArray t).
Context (a : nat) (Ea : m_cachedRawBufferAddress x = Some (a, m_byteOffset x)).

Lemma set_inside i p n : 0 <= i < m_arrayLength x -> toNative cvt toUint64 t p w = Some (w, inl n) ->
  setIndexedProperty cvt toUint64 v i (PrimitiveArg p) w =
  value (write w a (m_byteOffset x + i * type_elementSize t) (le_bytes (Z.to_nat (type_elementSize t)) n)) true.
Proof.
  intros Hi En. pose proof (elementSize_range t) as Hs. destruct (element_accessible host w HG v x b t Ev Eb Ek a Ea i Hi) as (Ha & Hd & Hb). destruct (read_view w v x Ev) as (R1 & R2 & _ & R4 & _).
  unfold setIndexedProperty. rewrite (bind_some _ _ _ _ _ (resolve_view w v x b Ev Eb t Ek)). cbv beta iota. rewrite (bind_some (gets id) _ w w w eq_refl).
  rewrite R1, (proj2 (Z.ltb_lt i _)), Hd by lia. cbn [andb negb]. unfold setDirectValueInBuffer.
  erewrite bind_some; [reflexivity|]. rewrite (bind_some (gets id) _ w w w eq_refl), (bind_some _ _ _ _ _ En), R2, R4, Ea.
  rewrite (within_bytes (m_byteLength x) (type_elementSize t)) by nia. cbn [require]. rewrite !(bind_some (mret tt) _ w w tt eq_refl).
  apply store_write.
  - rewrite length_le_bytes, Z2Nat.id by lia. exact Ha.
  - intros E. apply (f_equal length) in E. rewrite length_le_bytes in E. cbn in E. lia.
Qed.
End Host.

Lemma write_shape w a o bytes blk : blocks w !! a = Some blk -> 0 <= o -> o + Z.of_nat (length bytes) <= Z.of_nat (length (cells blk)) ->
  same_shape w (write w a o bytes).
Proof.
  intros E Ho Hl. split; try done. intros c blk' E'. cbn. rewrite lookup_alter_decide. case_decide; [|eauto]. subst c.
  assert (blk' = blk) as -> by congruence. rewrite E. cbn. eexists. split; [reflexivity|]. split; [done|]. cbn. now apply length_spliced.
Qed.

(** A byte that is not among those replaced. *)
Lemma write_elsewhere w a o bytes c p : 0 <= o ->
  o + Z.of_nat (length bytes) <= Z.of_nat (length (block_cells w a)) ->
  ~ (c = a /\ o <= Z.of_nat p < o + Z.of_nat (length bytes)) -> block_cells (write w a o bytes) c !! p = block_cells w c !! p.
Proof.
  intros Ho Hl Hne. destruct (decide (c = a)) as [->|Hc].
  - destruct (blocks w !! a) as [blk|] eqn:E.
    + rewrite (block_written w a o bytes blk E), spliced_lookup by done. now rewrite decide_False by lia.
    + unfold block_cells. cbn. now rewrite list_lookup_alter_eq, E.
  - unfold block_cells. cbn. now rewrite list_lookup_alter_ne by done.
Qed.

Lemma set_element_effect cvt toUint64 w v x b t i y z : (forall d, in_s 32 (cvt d)) -> (forall n, toUint64 n = wrapu 64 n) ->
  Good false w -> views w !! v = Some x -> m_buffer x = Some b -> v_kind x = TypedArray t -> 0 <= i < m_arrayLength x ->
  is_numeric y -> ecma_element t y = Some z ->
  let position := m_originalByteOffset x + i * type_elementSize t in
  exists a bytes, data w b = Some a /\ Z.of_nat (length bytes) = type_elementSize t /\
    let w' := write w a position bytes in
    setIndexedProperty cvt toUint64 v i (PrimitiveArg (numeric_value cvt y)) w = value w' true /\
    getIndexedPropertyValue cvt v i w' = value w' (Some z) /\ getValueFromBuffer b position t true w' = value w' z /\
    (forall c p, ~ (c = a /\ position <= Z.of_nat p < position + type_elementSize t) -> block_cells w' c !! p = block_cells w c !! p) /\
    (forall j, 0 <= j < 2 ^ 32 -> j <> i -> exists u,
      getIndexedPropertyValue cvt v j w = value w u /\ getIndexedPropertyValue cvt v j w' = value w' u).
Proof.
  intros Hcvt Hbig HG Ev Eb Ek Hi Hy Hz. destruct (elements_address false w v x b t HG Ev Eb Ek ltac:(lia)) as (a & Ea & Ed).
  destruct (element_value cvt toUint64 Hcvt Hbig t y z w Hy Hz) as (n & En & Er).
  pose proof (elementSize_range t) as Hs. destruct (element_accessible false w HG v x b t Ev Eb Ek a Ea i Hi) as (Hacc & _).
  destruct (accessible_cells _ _ _ _ Hacc) as (blk & Eblk & Ho & Hl).
  assert (Hoff : m_originalByteOffset x = m_byteOffset x).
  { pose proof (view_address w HG v x b Ev Eb) as Ha. pose proof (array_elements w v x b HG Ev Eb ltac:(unfold is_typed; now rewrite Ek)) as HL.
    destruct (outOfBounds w b x) eqn:Eo; [lia|]. symmetry. apply (co_offset w b); [now apply (view_coherent w HG v)|].
    unfold outOfBounds in Eo. now apply orb_false_iff in Eo. }
  cbv zeta. rewrite Hoff. set (o := m_byteOffset x + i * type_elementSize t) in *. set (bytes := le_bytes (Z.to_nat (type_elementSize t)) n).
  assert (Hlen : Z.of_nat (length bytes) = type_elementSize t) by (unfold bytes; rewrite length_le_bytes; lia).
  assert (S : same_shape w (write w a o bytes)).
  { apply (write_shape w a o bytes blk); [done|done|]. rewrite Hlen. unfold block_cells in Hl. now rewrite Eblk in Hl. }
  destruct (shape_good false _ _ HG S) as [HG' _].
  assert (Ev' : views (write w a o bytes) !! v = Some x) by done.
  assert (Hread : rawBytesToNumber t (bytes_at (block_cells (write w a o bytes) a) o (type_elementSize t)) = z).
  { rewrite (block_written w a o bytes blk Eblk). rewrite <- Hlen, bytes_spliced by (rewrite ?Hlen; done). unfold bytes. now rewrite Er. }
  exists a, bytes. split_and!; [done|done| | | | |].
  - now apply (set_inside false cvt toUint64 w HG v x b t Ev Eb Ek a Ea).
  - rewrite (get_inside false cvt _ HG' v x b t Ev' Eb Ek a Ea i Hi). fold o. now rewrite Hread.
  - pose proof (element_range false _ v x b t i HG' Ev' Eb Ek Hi) as He. destruct (view_limits false w v x b HG Ev Eb) as (_ & _ & L & _).
    destruct (view_range false _ v x b (i * type_elementSize t) (type_elementSize t) HG' Ev' Eb) as [Hr (a' & Ea' & Ed')]; [nia|lia|lia|].
    assert (a' = a) as -> by congruence. rewrite (get_buffer false _ b o t a HG' Hr Ed'). now rewrite Hread.
  - intros c p Hne. apply write_elsewhere; rewrite ?Hlen; done.
  - intros j Hj Hne. destruct (decide (j < m_arrayLength x)).
    + eexists. split; [apply (get_inside false cvt w HG v x b t Ev Eb Ek a Ea j); lia|].
      rewrite (get_inside false cvt _ HG' v x b t Ev' Eb Ek a Ea j ltac:(lia)), (block_written w a o bytes blk Eblk).
      rewrite bytes_elsewhere; [done|done|now rewrite Hlen| |lia|unfold o; nia].
      destruct (view_limits false w v x b HG Ev Eb) as (_ & _ & L & _). nia.
    + exists None. split; [apply (get_outside false cvt w HG v x b t Ev Eb Ek j)|apply (get_outside false cvt _ HG' v x b t Ev' Eb Ek j)]; lia.
Qed.
End ElementMemory.

(** * Moving bytes *)
Module CopyWithin.
Import Effects WP Buffers Wiring Notified Invariant Steps RelativeFacts BufferSpecs BufferBuiltins Word TypedArrays ElementFacts IndexFacts
  TypedArraySafety IntegerDoubles TypedArrayCopies EcmaViews ElementValues ElementMemory.

Definition set_cells (w : World) (a : nat) (l : list Z) : World := upd_blocks (alter (fun blk => mkBlock l (freed blk)) a) w.
(** The world after the bytes at [from] were copied to [to], all at once. *)
Definition moved (w : World) (b : nat) (from to n : Z) : World :=
  match data w b with
  | Some a => set_cells w a (spliced (block_cells w a) to (bytes_at (block_cells w a) from n))
  | None => w
  end.
Definition holds_bytes (w : World) (b : nat) : Prop := forall a, data w b = Some a -> Forall (in_u 8) (block_cells w a).

Lemma set_cells_twice w a l1 l2 : set_cells (set_cells w a l1) a l2 = set_cells w a l2.
Proof.
  unfold set_cells, upd_blocks. cbn. f_equal. apply list_eq. intros i. rewrite !lookup_alter_decide. case_decide; [|done].
  now destruct (blocks w !! i).
Qed.
Lemma set_cells_same w a blk : blocks w !! a = Some blk -> set_cells w a (cells blk) = w.
Proof.
  intros E. unfold set_cells, upd_blocks. destruct w as [bl inf st bu vi]. cbn in *. f_equal. apply list_eq. intros i.
  rewrite lookup_alter_decide. case_decide; [subst; rewrite E; now destruct blk|done].
Qed.
Lemma set_cells_block w a blk l : blocks w !! a = Some blk ->
  blocks (set_cells w a l) !! a = Some (mkBlock l (freed blk)) /\ block_cells (set_cells w a l) a = l.
Proof. intros E. unfold block_cells. cbn. rewrite list_lookup_alter_eq, E. done. Qed.
Lemma write_set_cells w a blk o bytes : blocks w !! a = Some blk -> write w a o bytes = set_cells w a (spliced (block_cells w a) o bytes).
Proof.
  intros E. unfold write, set_cells, block_cells, upd_blocks. rewrite E. f_equal. apply list_eq. intros i. rewrite !lookup_alter_decide.
  case_decide; [subst; now rewrite E|done].
Qed.
Lemma set_cells_shape w a blk l : blocks w !! a = Some blk -> length l = length (cells blk) -> same_shape w (set_cells w a l).
Proof.
  intros E Hl. split; try done. intros c blk' E'. cbn. rewrite lookup_alter_decide. case_decide; [|eauto]. subst c.
  assert (blk' = blk) as -> by congruence. rewrite E. cbn. eauto.
Qed.

Lemma for_from_states {n body} (st : Z -> World) : (forall k, 0 <= k < Z.of_nat n -> body k (st k) = Some (st (k + 1), inl tt)) ->
  for_from n 0 body (st 0) = Some (st (Z.of_nat n), inl tt).
Proof.
  assert (H : forall m k, 0 <= k -> k + Z.of_nat m = Z.of_nat n -> (forall k, 0 <= k < Z.of_nat n -> body k (st k) = Some (st (k + 1), inl tt)) ->
    for_from m k body (st k) = Some (st (Z.of_nat n), inl tt)).
  { induction m as [|m IH]; intros k Hk Hm Hb; cbn [for_from]; [unfold mret, MU_ret; do 3 f_equal; lia|].
    rewrite (bind_some _ _ _ _ _ (Hb k ltac:(lia))). apply IH; [lia|lia|done]. }
  intros Hb. apply H; [lia|lia|done].
Qed.

Section Host.
Context (host : bool) (cvt toUint64 : Z -> Z) (cvt_int : forall d, in_s 32 (cvt d)).

(** One byte. *)
Lemma byte_pattern c : in_u 8 c -> 0 <= of_Z c < DoubleInvalidBeginning.
Proof.
  intros Hc. pose proof (of_Z_u64 c) as Hu. pose proof (of_Z_sign c) as Hs. rewrite (proj2 (Z.ltb_ge c 0)) in Hs by (unfold in_u in Hc; lia).
  unfold sign_bit in Hs. Zbool. unfold in_u, DoubleInvalidBeginning in *. lia.
Qed.
Lemma copy_byte_effect w b a blk k l c : Good host w -> data w b = Some a -> blocks w !! a = Some blk ->
  in_range w b k 1 -> in_range w b l 1 -> cells blk !! Z.to_nat k = Some c -> in_u 8 c ->
  copy_byte cvt toUint64 b b k l w = Some (set_cells w a (spliced (cells blk) l [c]), inl tt).
Proof.
  intros HG Ed Eblk Hk Hl Ec Hc. unfold copy_byte, getValueFromBuffer. change (type_elementSize Uint8) with 1.
  assert (Hacc : forall i, in_range w b i 1 -> accessible w (a, i) 1 = true).
  { intros i Hi. pose proof (in_range_data host w b i 1 HG Hi) as Hh. rewrite Ed in Hh. destruct Hh as (blk' & E1 & E2 & E3).
    destruct Hi as (_ & _ & H0 & _). unfold accessible. cbn. rewrite E1, E2. cbn. now rewrite (proj2 (Z.leb_le 0 i)), (proj2 (Z.leb_le _ _)) by lia. }
  assert (Hget : getValueFromBuffer b k Uint8 true w = Some (w, inl (Number (of_Z c)))).
  { unfold getValueFromBuffer. change (type_elementSize Uint8) with 1. rewrite (bind_some _ _ _ _ _ (check_access_spec host w b k 1 HG Hk)).
    rewrite (bind_some (gets id) _ w w w eq_refl), Ed. cbn [plus fmap option_fmap option_map].
    rewrite (bind_some _ _ _ _ _ (load_read w a k 1 (Hacc k Hk) ltac:(lia))).
    assert (bytes_at (block_cells w a) k 1 = [c]) as ->.
    { unfold block_cells. rewrite Eblk. cbn. apply list_eq. intros j. rewrite bytes_at_lookup. change (Z.to_nat 1) with 1%nat.
      destruct j as [|j]; [rewrite decide_True, Nat.add_0_r by lia; exact Ec|rewrite decide_False by lia; done]. }
    unfold mret, MU_ret, rawBytesToNumber. cbn [ordered le_value foldr]. now rewrite Z.mul_0_r, Z.add_0_r. }
  fold (getValueFromBuffer b k Uint8 true). rewrite (bind_some _ _ _ _ _ Hget). unfold setValueInBuffer. change (type_elementSize Uint8) with 1.
  rewrite (bind_some _ _ _ _ _ (check_access_spec host w b l 1 HG Hl)), (bind_some (gets id) _ w w w eq_refl).
  pose proof (byte_pattern c Hc) as Hp. unfold numberToRawBytes. cbn [toNative numeric_value].
  assert (En : integral_toNative cvt false 8 (number_value cvt (of_Z c)) w = Some (w, inl c)).
  { rewrite (integral_toNative_spec cvt cvt_int) by (done || lia). rewrite whole_of_Z by (unfold in_u, in_s in *; lia).
    unfold wrap. now rewrite wrapu_id. }
  erewrite bind_some; [|rewrite (bind_some _ _ _ _ _ En); reflexivity]. change (Z.to_nat (type_elementSize Uint8)) with 1%nat. cbn [le_bytes].
  assert (c mod 256 = c) as -> by (apply Z.mod_small; exact Hc). rewrite Ed. cbn [plus fmap option_fmap option_map ordered].
  rewrite store_write; [|exact (Hacc l Hl)|done]. rewrite (write_set_cells w a blk) by done. unfold block_cells. now rewrite Eblk.
Qed.
End Host.

(** ** The two loops *)
Lemma bytes_at_snoc l o k c : 0 <= o -> 0 <= k -> l !! Z.to_nat (o + k) = Some c -> bytes_at l o (k + 1) = bytes_at l o k ++ [c].
Proof.
  intros Ho Hk E. unfold bytes_at. replace (Z.to_nat (k + 1)) with (S (Z.to_nat k)) by lia. apply take_S_r.
  rewrite lookup_drop. rewrite <- E. f_equal. lia.
Qed.
Lemma bytes_at_cons l o k c : 0 <= o -> 0 <= k -> l !! Z.to_nat o = Some c -> bytes_at l o (k + 1) = c :: bytes_at l (o + 1) k.
Proof.
  intros Ho Hk E. unfold bytes_at. replace (Z.to_nat (k + 1)) with (S (Z.to_nat k)) by lia. rewrite (drop_S _ c) by done.
  cbn. f_equal. f_equal. f_equal. lia.
Qed.
Lemma length_bytes_at l o n : 0 <= o -> 0 <= n -> o + n <= Z.of_nat (length l) -> Z.of_nat (length (bytes_at l o n)) = n.
Proof. intros Ho Hn Hl. unfold bytes_at. rewrite length_take, length_drop. lia. Qed.
Lemma spliced_nil l o : spliced l o [] = l.
Proof. unfold spliced. cbn. rewrite Nat.add_0_r. apply take_drop. Qed.
Lemma spliced_snoc l o bytes c : 0 <= o -> o + Z.of_nat (length bytes) + 1 <= Z.of_nat (length l) ->
  spliced (spliced l o bytes) (o + Z.of_nat (length bytes)) [c] = spliced l o (bytes ++ [c]).
Proof.
  intros Ho Hl. apply list_eq. intros i. pose proof (length_spliced l o bytes Ho ltac:(lia)) as L.
  rewrite spliced_lookup by (rewrite ?L; cbn; lia). rewrite !spliced_lookup by (rewrite ?length_app; cbn; lia). rewrite length_app. cbn [length].
  destruct (decide (i = Z.to_nat o + length bytes)%nat) as [->|Hi].
  - rewrite !decide_True by lia. rewrite lookup_app_r by lia. f_equal. lia.
  - rewrite decide_False by lia. destruct (decide (Z.to_nat o <= i < Z.to_nat o + length bytes)%nat).
    + rewrite decide_True by lia. rewrite lookup_app_l by lia. done.
    + rewrite decide_False by lia. done.
Qed.
Lemma spliced_cons l o bytes c : 0 <= o -> o + 1 + Z.of_nat (length bytes) <= Z.of_nat (length l) ->
  spliced (spliced l (o + 1) bytes) o [c] = spliced l o (c :: bytes).
Proof.
  intros Ho Hl. apply list_eq. intros i. pose proof (length_spliced l (o + 1) bytes ltac:(lia) ltac:(lia)) as L.
  rewrite spliced_lookup by (rewrite ?L; cbn; lia). rewrite !spliced_lookup by (cbn [length]; lia). cbn [length].
  destruct (decide (i = Z.to_nat o)) as [->|Hi].
  - rewrite !decide_True by lia. replace (Z.to_nat o - Z.to_nat o)%nat with 0%nat by lia. done.
  - rewrite decide_False by lia. destruct (decide (Z.to_nat (o + 1) <= i < Z.to_nat (o + 1) + length bytes)%nat).
    + rewrite decide_True by lia. replace (i - Z.to_nat o)%nat with (S (i - Z.to_nat (o + 1)))%nat by lia. done.
    + rewrite decide_False by lia. done.
Qed.

Section Moves.
Context (host : bool) (cvt toUint64 : Z -> Z) (cvt_int : forall d, in_s 32 (cvt d)).
Context (w : World) (HG : Good host w) (b a : nat) (blk : Block).
Context (Ed : data w b = Some a) (Eblk : blocks w !! a = Some blk) (Hbytes : Forall (in_u 8) (cells blk)).
Context (from to n : Z) (Hf : in_range w b from n) (Ht : in_range w b to n).
Let l := cells blk.

Lemma move_bounds : 0 <= from /\ 0 <= to /\ 0 < n /\ from + n <= Z.of_nat (length l) /\ to + n <= Z.of_nat (length l) /\
  from + n < maxArrayBufferSize /\ to + n < maxArrayBufferSize.
Proof.
  destruct (range_bound host w b from n HG Hf) as (F0 & Hn & F1), (range_bound host w b to n HG Ht) as (T0 & _ & T1).
  pose proof (in_range_data host w b from n HG Hf) as H1. pose proof (in_range_data host w b to n HG Ht) as H2. rewrite Ed in H1, H2.
  destruct H1 as (blk1 & E1 & _ & L1), H2 as (blk2 & E2 & _ & L2).
  assert (blk1 = blk) as -> by congruence. assert (blk2 = blk) as -> by congruence. unfold l. split_and!; lia.
Qed.

(** One step, from a world in which [bytes] are at [o]. *)
Lemma move_step o bytes k j c : 0 <= o -> o + Z.of_nat (length bytes) <= Z.of_nat (length l) ->
  from <= k < from + n -> to <= j < to + n -> l !! Z.to_nat k = Some c -> k < o \/ o + Z.of_nat (length bytes) <= k ->
  copy_byte cvt toUint64 b b k j (set_cells w a (spliced l o bytes)) = Some (set_cells w a (spliced (spliced l o bytes) j [c]), inl tt).
Proof.
  intros Ho Hl Hk Hj Ec Hd. set (w1 := set_cells w a (spliced l o bytes)).
  assert (S : same_shape w w1) by (apply (set_cells_shape w a blk); [done|now apply length_spliced]).
  destruct (shape_good host w w1 HG S) as [HG1 _]. destruct (set_cells_block w a blk (spliced l o bytes) Eblk) as [E1 _]. fold w1 in E1.
  destruct (shape_buffer w w1 b S) as (_ & Ed1 & _). pose proof move_bounds as HB.
  rewrite (copy_byte_effect host cvt toUint64 cvt_int w1 b a (mkBlock (spliced l o bytes) (freed blk)) k j c).
  - cbn [cells]. unfold w1. now rewrite set_cells_twice.
  - done.
  - congruence.
  - done.
  - apply (in_range_shape w); [done|]. eapply sub_range; [exact Hf|..]; lia.
  - apply (in_range_shape w); [done|]. eapply sub_range; [exact Ht|..]; lia.
  - cbn [cells]. rewrite spliced_lookup by done. rewrite decide_False by lia. exact Ec.
  - rewrite Forall_lookup in Hbytes. exact (Hbytes _ _ Ec).
Qed.
Lemma source_byte k : from <= k < from + n -> exists c, l !! Z.to_nat k = Some c.
Proof. intros Hk. pose proof move_bounds. destruct (lookup_lt_is_Some_2 l (Z.to_nat k)) as [c Ec]; [lia|eauto]. Qed.

Lemma forward_effect : ~ (from < to < from + n) ->
  for_from (Z.to_nat n) 0 (fun i => copy_byte cvt toUint64 b b (u64 (from + i)) (u64 (to + i))) w =
  Some (set_cells w a (spliced l to (bytes_at l from n)), inl tt).
Proof.
  intros Hno. pose proof move_bounds as (B1 & B2 & B3 & B4 & B5 & B6 & B7). unfold maxArrayBufferSize in *.
  pose (st := fun k => set_cells w a (spliced l to (bytes_at l from k))).
  assert (E0 : st 0 = w) by (unfold st, bytes_at; cbn [Z.to_nat take]; rewrite spliced_nil; now apply set_cells_same).
  rewrite <- E0 at 1. change (set_cells w a (spliced l to (bytes_at l from n))) with (st n).
  assert (E1 : st n = st (Z.of_nat (Z.to_nat n))) by (f_equal; lia). rewrite E1.
  apply (for_from_states st). intros k Hk. unfold st. destruct (source_byte (from + k) ltac:(lia)) as [c Ec].
  rewrite !wrapu_id by (unfold in_u; lia). pose proof (length_bytes_at l from k B1 ltac:(lia) ltac:(lia)) as Hlen.
  rewrite (move_step to (bytes_at l from k) (from + k) (to + k) c) by (try done; lia).
  rewrite (bytes_at_snoc l from k c) by (done || lia). do 3 f_equal. rewrite <- spliced_snoc by lia. f_equal. lia.
Qed.
Lemma backward_effect : from < to ->
  for_from (Z.to_nat n) 0 (fun i => copy_byte cvt toUint64 b b (u64 (u64 (u64 (from + n) - 1) - i)) (u64 (u64 (u64 (to + n) - 1) - i))) w =
  Some (set_cells w a (spliced l to (bytes_at l from n)), inl tt).
Proof.
  intros Hlt. pose proof move_bounds as (B1 & B2 & B3 & B4 & B5 & B6 & B7). unfold maxArrayBufferSize in *.
  assert (Hu : forall z, 0 <= z < 2 ^ 64 -> u64 z = z) by (intros z Hz; now apply wrapu_id).
  pose (st := fun k => set_cells w a (spliced l (to + n - k) (bytes_at l (from + n - k) k))).
  assert (E0 : st 0 = w) by (unfold st, bytes_at; cbn [Z.to_nat take]; rewrite spliced_nil; now apply set_cells_same).
  assert (En : st n = set_cells w a (spliced l to (bytes_at l from n))) by (unfold st; do 3 f_equal; lia).
  assert (E1 : st n = st (Z.of_nat (Z.to_nat n))) by (f_equal; lia). rewrite <- E0 at 1. rewrite <- En, E1.
  apply (for_from_states st). intros k Hk. unfold st. destruct (source_byte (from + n - 1 - k) ltac:(lia)) as [c Ec].
  rewrite (Hu (from + n)), (Hu (to + n)), (Hu (from + n - 1)), (Hu (to + n - 1)), !Hu by lia.
  pose proof (length_bytes_at l (from + n - k) k ltac:(lia) ltac:(lia) ltac:(lia)) as Hlen.
  rewrite (move_step (to + n - k) (bytes_at l (from + n - k) k) (from + n - 1 - k) (to + n - 1 - k) c) by (try done; lia).
  do 2 f_equal. unfold st. f_equal.
  replace (from + n - (k + 1)) with (from + n - 1 - k) by lia. rewrite (bytes_at_cons l (from + n - 1 - k) k c) by (done || lia).
  replace (to + n - (k + 1)) with (to + n - 1 - k) by lia.
  assert (Ef : from + n - 1 - k + 1 = from + n - k) by lia. assert (Et : to + n - 1 - k + 1 = to + n - k) by lia.
  rewrite Ef, <- (spliced_cons l) by lia. now rewrite Et.
Qed.
End Moves.

Lemma move_effect host cvt toUint64 w b from to n : (forall d, in_s 32 (cvt d)) -> Good host w -> holds_bytes w b ->
  0 <= n -> (0 < n -> in_range w b from n) -> (0 < n -> in_range w b to n) -> 0 <= from < 2 ^ 60 -> 0 <= to < 2 ^ 60 -> n < 2 ^ 60 ->
  (if (from <? to) && (to <? u64 (from + n)) then
     for_from (Z.to_nat n) 0 (fun i => copy_byte cvt toUint64 b b (u64 (u64 (u64 (from + n) - 1) - i)) (u64 (u64 (u64 (to + n) - 1) - i)))
   else for_from (Z.to_nat n) 0 (fun i => copy_byte cvt toUint64 b b (u64 (from + i)) (u64 (to + i)))) w =
  Some (moved w b from to n, inl tt).
Proof.
  intros Hc HG Hby Hn Hf Ht Bf Bt Bn.
  assert (Hblk : forall a, data w b = Some a -> exists blk, blocks w !! a = Some blk).
  { intros a Ea. pose proof HG as [[[C _] _] _]. destruct (data_holds host w b C) as [Hh _]. rewrite Ea in Hh. destruct Hh as (blk & ? & _). eauto. }
  destruct (decide (n = 0)) as [->|Hpos].
  - enough (moved w b from to 0 = w) as -> by now destruct (_ && _).
    unfold moved, bytes_at. cbn [Z.to_nat take]. destruct (data w b) as [a|]; [|done]. destruct (Hblk a eq_refl) as [blk E].
    rewrite spliced_nil. unfold block_cells. rewrite E. now apply set_cells_same.
  - specialize (Hf ltac:(lia)). specialize (Ht ltac:(lia)). pose proof (in_range_data host w b from n HG Hf) as Hh.
    destruct (range_bound host w b from n HG Hf) as (F0 & _ & F1). unfold maxArrayBufferSize in F1. unfold moved.
    destruct (data w b) as [a|] eqn:Ea; [|cbn in Hh; lia]. destruct (Hblk a eq_refl) as [blk E].
    assert (Hb : Forall (in_u 8) (cells blk)) by (specialize (Hby a Ea); unfold block_cells in Hby; now rewrite E in Hby).
    assert (block_cells w a = cells blk) as -> by (unfold block_cells; now rewrite E).
    assert (Eu : u64 (from + n) = from + n) by (apply wrapu_id; unfold in_u; lia).
    destruct ((from <? to) && (to <? u64 (from + n))) eqn:Ec; rewrite Eu in Ec.
    + Zbool. now apply (backward_effect host cvt toUint64 Hc w HG b a blk).
    + apply (forward_effect host cvt toUint64 Hc w HG b a blk); try done. intros [H1 H2].
      now rewrite (proj2 (Z.ltb_lt _ _)), (proj2 (Z.ltb_lt _ _)) in Ec by done.
Qed.

(** ** The builtin *)
Definition end_index (dE : option Z) (L : Z) : Z := match dE with Some d => relative_index d L | None => L end.
Definition moved_bytes (size dT dS : Z) (dE : option Z) (L : Z) : Z :=
  Z.max 0 (Z.min (end_index dE L - relative_index dS L) (L - relative_index dT L)) * size.
Lemma relative_index_self L : 0 <= L <= 2 ^ 32 -> relative_index (of_Z L) L = L.
Proof.
  intros HL. pose proof (rep_of_Z L ltac:(lia)) as R. unfold relative_index. rewrite (rep_ne_inf _ _ R), (rep_to_Z _ _ R).
  unfold clamp. rewrite (proj2 (Z.ltb_ge L 0)) by lia. lia.
Qed.

Lemma copyWithin_effect cvt toUint64 w v x b t dT dS dE : (forall d, in_s 32 (cvt d)) -> Good false w ->
  views w !! v = Some x -> m_buffer x = Some b -> v_kind x = TypedArray t -> outOfBounds w b x = false -> holds_bytes w b ->
  integral dT -> integral dS -> match dE with Some d => integral d | None => True end ->
  let L := m_arrayLength x in let size := type_elementSize t in
  builtinTypedArrayCopyWithin cvt toUint64 (mret dT) (mret dS) (mret <$> dE) v w =
  value (moved w b (relative_index dS L * size + m_byteOffset x) (relative_index dT L * size + m_byteOffset x) (moved_bytes size dT dS dE L)) v.
Proof.
  intros Hc HG Ev Eb Ek Hoob Hby IT IS IE L size. destruct (read_view w v x Ev) as (R1 & _ & R3 & _).
  destruct (view_limits false w v x b HG Ev Eb) as (L1 & _ & L3 & _). unfold maxArrayBufferSize in L1. fold L in L1.
  destruct (typed_lengths w HG v x b Ev Eb t Ek) as (_ & _ & _ & Hval). rewrite Hoob in Hval.
  destruct (relativeIndex_spec dT L IT ltac:(lia)) as [RT BT]. destruct (relativeIndex_spec dS L IS ltac:(lia)) as [RS BS].
  assert (RE : exists dE', match mret <$> dE with Some f => f | None => mret (of_Z L) end = (mret dE' : MU World Z) /\
     rep (relativeIndex dE' (of_Z L)) (end_index dE L) /\ 0 <= end_index dE L <= L).
  { destruct dE as [d|]; cbn [fmap option_fmap option_map end_index].
    - exists d. split; [done|]. now apply relativeIndex_spec; [|lia].
    - exists (of_Z L). split; [done|]. destruct (relativeIndex_spec (of_Z L) L) as [R B]; [|lia|].
      + split; [apply of_Z_u64|right]. exists L. apply rep_of_Z. lia.
      + rewrite relative_index_self in R, B by lia. now split. }
  destruct RE as (dE' & Em & RE & BE). pose proof (r_of_Z L ltac:(lia)) as RL.
  pose proof (r_min _ _ _ _ (r_sub _ _ _ _ RE RS ltac:(lia)) (r_sub _ _ _ _ RL RT ltac:(lia))) as RC.
  assert (Hs : 1 <= size <= 8) by apply elementSize_range. unfold moved_bytes.
  set (T := relative_index dT L) in *. set (S := relative_index dS L) in *. set (E := end_index dE L) in *. clearbody T S E.
  assert (Hscale : forall i, 0 <= i <= L -> 0 <= i * size <= 8 * L) by (clear - Hs L1; intros; nia).
  pose proof (Hscale T BT) as HTs. pose proof (Hscale S BS) as HSs.
  unfold builtinTypedArrayCopyWithin. rewrite (bind_some _ _ _ _ _ Hval). cbv beta iota. rewrite (bind_some (gets id) _ w w w eq_refl), R1. cbv zeta. fold L.
  rewrite (bind_some (mret dT) _ w w dT eq_refl), (bind_some (mret dS) _ w w dS eq_refl), Em, (bind_some (mret dE') _ w w dE' eq_refl). cbv zeta.
  fold L. rewrite (r_flt _ _ _ _ r_zero RC). destruct (0 <? Z.min (E - S) (L - T)) eqn:Ec; Zbool.
  - rewrite Z.max_r by lia. set (n := Z.min (E - S) (L - T)) in *. pose proof (Hscale n ltac:(lia)) as Hns.
    assert (Rn : rep (std_max 0 (std_min (std_min (std_min (fsub (relativeIndex dE' (of_Z L)) (relativeIndex dS (of_Z L)))
        (fsub (of_Z L) (relativeIndex dT (of_Z L)))) (fsub (of_Z L) (relativeIndex dS (of_Z L)))) (fsub (of_Z L) (relativeIndex dT (of_Z L))))) n).
    { pose proof (r_max _ _ _ _ r_zero (r_min _ _ _ _ (r_min _ _ _ _ RC (r_sub _ _ _ _ RL RS ltac:(lia))) (r_sub _ _ _ _ RL RT ltac:(lia)))) as R.
      fold n in R. now replace (Z.max 0 (Z.min (Z.min n (L - S)) (L - T))) with n in R by lia. }
    erewrite bind_some; [reflexivity|]. rewrite (bind_some _ _ _ _ _ Hval), (bind_some (gets id) _ w w w eq_refl), R1, R3. cbv zeta. fold L.
    fold size. rewrite (position_exact (relativeIndex dT (of_Z L)) T) by (try apply RT; lia). rewrite (bind_some (certain (Some _)) _ w w _ eq_refl).
    rewrite (position_exact (relativeIndex dS (of_Z L)) S) by (try apply RS; lia). rewrite (bind_some (certain (Some _)) _ w w _ eq_refl).
    rewrite (r_cast_size_t _ (n * size)); [|apply r_mul; [exact Rn|apply r_of_Z; lia|lia]|lia].
    rewrite (bind_some (certain (Some _)) _ w w _ eq_refl). fold size.
    assert (Hr : forall i, 0 <= i -> i + n <= L -> in_range w b (i * size + m_byteOffset x) (n * size)).
    { intros i Hi Hin. pose proof (array_range false w v x b t L HG Ev Eb Ek ltac:(unfold L in *; lia)) as HR. fold size in HR.
      eapply sub_range; [exact HR|..]; nia. }
    apply (move_effect false); try done; try (intros; apply Hr); lia.
  - rewrite Z.max_l by lia. rewrite Z.mul_0_l.
    rewrite (bind_some (mret tt) _ w w tt eq_refl).
    assert (moved w b (S * size + m_byteOffset x) (T * size + m_byteOffset x) 0 = w) as ->; [|done].
    pose proof HG as [[[C _] _] _]. destruct (data_holds false w b C) as [Hh _].
    unfold moved, bytes_at. cbn [Z.to_nat take]. destruct (data w b) as [a|]; [|done]. destruct Hh as (blk & E1 & _).
    rewrite spliced_nil. unfold block_cells. rewrite E1. now apply set_cells_same.
Qed.

End CopyWithin.

(** * Properties *)
Module ElementClaims.
Import Effects Buffers Invariant RelativeFacts BufferSpecs BufferBuiltins TypedArrays ElementFacts TypedArraySafety Collection Scripts EcmaViews BufferExamples
  BufferClaims ElementValues ElementMemory CopyWithin ByteCells.
Import ValueProps(cvt_x86).

Section Claims.
Context (null_when_empty : bool) (cvt toUint64 : Z -> Z).
Let reachable := reachable null_when_empty cvt toUint64.

(** C11: writing a number or a BigInt to an element of a typed array stores bytes of
    which the element is read as the value that ECMA-262's conversions to the bytes
    of the type and back give - integers modulo the width, clamped values rounded
    to even, the nearest half or single precision number - through the array and
    through its buffer at the place of the element.  The bytes of the element are
    replaced and nothing else changes: no other byte of any block, no other state,
    and every other index reads as before.  This holds in each state that scripts
    reach. *)
Theorem typed_array_elements (cvt_int : forall d, in_s 32 (cvt d)) (toUint64_mod : forall n, toUint64 n = wrapu 64 n) w v x b t i y z :
  reachable w -> views w !! v = Some x -> m_buffer x = Some b -> v_kind x = TypedArray t -> 0 <= i < m_arrayLength x ->
  is_numeric y -> ecma_element t y = Some z ->
  let position := m_originalByteOffset x + i * type_elementSize t in
  exists a bytes, data w b = Some a /\ Z.of_nat (length bytes) = type_elementSize t /\
    let w' := write w a position bytes in
    setIndexedProperty cvt toUint64 v i (PrimitiveArg (numeric_value cvt y)) w = value w' true /\
    getIndexedPropertyValue cvt v i w' = value w' (Some z) /\ getValueFromBuffer b position t true w' = value w' z /\
    (forall c p, ~ (c = a /\ position <= Z.of_nat p < position + type_elementSize t) -> block_cells w' c !! p = block_cells w c !! p) /\
    (forall j, 0 <= j < 2 ^ 32 -> j <> i -> exists u,
      getIndexedPropertyValue cvt v j w = value w u /\ getIndexedPropertyValue cvt v j w' = value w' u).
Proof.
  intros Hr Ev Eb Ek Hi Hy Hz. pose proof (reachable_good null_when_empty cvt toUint64 false w cvt_int Hr) as HG.
  now apply (set_element_effect cvt toUint64 w v x b t i y z).
Qed.

(** C12: [copyWithin], which copies byte by byte, upwards or downwards, moves the
    bytes between the clamped indexes of ECMA-262 as if it copied all of them at
    once, also where the ranges overlap; nothing else changes. *)
Theorem copyWithin_moves_bytes (cvt_int : forall d, in_s 32 (cvt d)) w v x b t dT dS dE :
  reachable w -> views w !! v = Some x -> m_buffer x = Some b -> v_kind x = TypedArray t -> outOfBounds w b x = false ->
  integral dT -> integral dS -> match dE with Some d => integral d | None => True end ->
  let L := ecma_length w b x in
  let position i := relative_index i L * type_elementSize t + m_originalByteOffset x in
  builtinTypedArrayCopyWithin cvt toUint64 (mret dT) (mret dS) (mret <$> dE) v w =
  value (moved w b (position dS) (position dT) (moved_bytes (type_elementSize t) dT dS dE L)) v.
Proof.
  intros Hr Ev Eb Ek Ho IT IS IE L position. pose proof (reachable_good null_when_empty cvt toUint64 false w cvt_int Hr) as HG.
  pose proof (view_coherent w HG v x b Ev Eb) as C. unfold outOfBounds in Ho. apply orb_false_iff in Ho as [Hd Ho].
  assert (HL : m_arrayLength x = L).
  { rewrite (co_elements _ _ _ C) by (unfold is_typed; now rewrite Ek). unfold L, ecma_length. pose proof (co_length _ _ _ C Ho) as Hl.
    destruct (m_auto x); now rewrite Hl. }
  unfold position. rewrite <- HL, <- (co_offset _ _ _ C Ho). apply (copyWithin_effect cvt toUint64 w v x b t); try done.
  - unfold outOfBounds. now rewrite Hd, Ho.
  - intros a _. pose proof (reachable_bytes null_when_empty cvt toUint64 w Hr) as Hb. unfold block_cells.
    destruct (blocks w !! a) as [blk|] eqn:E; [apply (Hb a blk E)|apply Forall_nil_2].
Qed.
End Claims.

Lemma typed_array_elements_witness :
  exists a bytes, data shrunk 0 = Some a /\ Z.of_nat (length bytes) = type_elementSize Uint16 /\
    let w' := write shrunk a (m_originalByteOffset shrunk_view + 0 * type_elementSize Uint16) bytes in
    setIndexedProperty cvt_x86 (fun n => n mod 2 ^ 64) 0 0 (PrimitiveArg (numeric_value cvt_x86 (Number (of_Z 70000)))) shrunk = value w' true /\
    getIndexedPropertyValue cvt_x86 0 0 w' = value w' (Some (Number (of_Z 4464))) /\
    getValueFromBuffer 0 (m_originalByteOffset shrunk_view + 0 * type_elementSize Uint16) Uint16 true w' = value w' (Number (of_Z 4464)) /\
    (forall c p, ~ (c = a /\ m_originalByteOffset shrunk_view + 0 * type_elementSize Uint16 <= Z.of_nat p
        < m_originalByteOffset shrunk_view + 0 * type_elementSize Uint16 + type_elementSize Uint16) ->
      block_cells w' c !! p = block_cells shrunk c !! p) /\
    (forall j, 0 <= j < 2 ^ 32 -> j <> 0 -> exists u,
      getIndexedPropertyValue cvt_x86 0 j shrunk = value shrunk u /\ getIndexedPropertyValue cvt_x86 0 j w' = value w' u).
Proof.
  apply (typed_array_elements false cvt_x86 (fun n => n mod 2 ^ 64) cvt_x86_int (fun n => eq_refl) shrunk 0 shrunk_view 0 Uint16 0
    (Number (of_Z 70000)) (Number (of_Z 4464)) shrunk_reachable).
  - vm_compute. reflexivity.
  - vm_compute. reflexivity.
  - vm_compute. reflexivity.
  - vm_compute. split; [discriminate|reflexivity].
  - vm_compute. split; [discriminate|reflexivity].
  - vm_compute. reflexivity.
Defined.

(** Five bytes, of which the first four are moved by one. *)
Definition counting : MU World bool :=
  v ← new_typed_array false cvt_x86 (fun n => n mod 2 ^ 64) Uint8 (mret tt) (NonObject (mret 5));
  setIndexedProperty cvt_x86 (fun n => n mod 2 ^ 64) v 1 (PrimitiveArg (Int32Value 1));;
  setIndexedProperty cvt_x86 (fun n => n mod 2 ^ 64) v 2 (PrimitiveArg (Int32Value 2));;
  setIndexedProperty cvt_x86 (fun n => n mod 2 ^ 64) v 3 (PrimitiveArg (Int32Value 3)).
Lemma counting_script : script false cvt_x86 (fun n => n mod 2 ^ 64) any counting.
Proof.
  assert (Hset : forall v i n, 0 <= i ->
    script false cvt_x86 (fun n => n mod 2 ^ 64) any (setIndexedProperty cvt_x86 (fun n => n mod 2 ^ 64) v i (PrimitiveArg (Int32Value n)))).
  { intros v i n Hi. apply s_set_index; [done|]. apply a_primitive. }
  apply (s_bind _ _ _ _ _ any); [apply s_TypedArray; [now apply s_ret|]; apply f_number, s_ret; left; lia|]. intros v _.
  apply (s_bind _ _ _ _ _ any); [apply Hset; lia|intros ? _]. apply (s_bind _ _ _ _ _ any); [apply Hset; lia|intros ? _]. apply Hset. lia.
Qed.
Definition counted : World := state (counting empty).
Definition counted_view : ArrayBufferView := default (fresh_view DataView) (views counted !! 0%nat).
Lemma counted_reachable : BufferClaims.reachable false cvt_x86 (fun n => n mod 2 ^ 64) counted.
Proof.
  destruct (scripts_safe false cvt_x86 (fun n => n mod 2 ^ 64) false cvt_x86_int) as [Hs _].
  destruct (Hs _ any counting counting_script empty (good_empty false)) as (w & r & E & _). exists _, any, counting, r.
  split; [exact counting_script|]. unfold counted, state. rewrite E. done.
Qed.
Example counted_moved :
  block_cells counted 0 = [0; 1; 2; 3; 0] /\ block_cells (moved counted 0 0 1 4) 0 = [0; 0; 1; 2; 3].
Proof. vm_compute. auto. Qed.
Lemma copyWithin_moves_bytes_witness :
  let L := ecma_length counted 0 counted_view in
  let position i := relative_index i L * type_elementSize Uint8 + m_originalByteOffset counted_view in
  builtinTypedArrayCopyWithin cvt_x86 (fun n => n mod 2 ^ 64) (mret 0x3ff0000000000000) (mret 0) (mret <$> Some 0x4010000000000000) 0 counted =
  value (moved counted 0 (position 0) (position 0x3ff0000000000000) (moved_bytes (type_elementSize Uint8) 0x3ff0000000000000 0 (Some 0x4010000000000000) L)) 0%nat.
Proof.
  assert (Hint : forall d n, in_u 64 d -> is_finite d && (scaled d =? n * UNIT) = true -> integral d).
  { intros d n Hd E. split; [done|right]. exists n. apply andb_true_iff in E as [E1 E2]. Zbool. now split. }
  apply (copyWithin_moves_bytes false cvt_x86 (fun n => n mod 2 ^ 64) cvt_x86_int counted 0 counted_view 0 Uint8
    0x3ff0000000000000 0 (Some 0x4010000000000000) counted_reachable).
  - vm_compute. reflexivity.
  - vm_compute. reflexivity.
  - vm_compute. reflexivity.
  - vm_compute. reflexivity.
  - apply (Hint _ 1); [split; lia|vm_compute; reflexivity].
  - apply (Hint _ 0); [split; lia|vm_compute; reflexivity].
  - apply (Hint _ 4); [split; lia|vm_compute; reflexivity].
Defined.
End ElementClaims.
