(* ===== verification/TypedArraySearch.v ===== *)
(** What the searches of typed arrays find: [indexOf] and [lastIndexOf], which
    compare the bytes of elements, find the first and the last element that is
    strictly equal, and [includes] whether there is one that is the same. *)
From Stdlib Require Import ZArith Lia Bool.
From stdpp Require Import base numbers list option decidable gmap.
From S2P Require Import Prelude Effects Double Float16 Value ArrayBuffer BufferInvariant BufferSafety BufferBuiltins TypedArray.
From S2P Require Import TypedArraySafety TypedArrayCopies TypedArrayLoops TypedArrayLoopSafety BufferScript BufferBytes TypedArrayElements.

(** * Comparing the bytes of an element *)
Module ByteComparison.
Import Effects Buffers Word WordFacts TypedArrays ElementFacts TypedArrayLoops ByteCells ElementValues Single Half.

(** IsStrictlyEqual of an element and a value. *)
Definition strict_equal (x : Numeric) (p : Primitive) : bool :=
  match x, p with
  | Number d, Int32Value i => feq d (of_Z i)
  | Number d, DoubleValue e => feq d e
  | BigInt n, BigIntValue m => n =? m
  | _, _ => false
  end.
(** The values that the comparison of bytes is right for.  In an array of integers
    an int32 must be one that an element can hold, and a double must not be an
    integer from 2^31 on that an element of a Uint32Array can hold; in an array of
    floating point numbers any number will do, and in one of BigInts a BigInt that
    an element can hold.  The pattern of a double is that of no int32, which is
    how the engine represents numbers. *)
Definition searchable (t : TypedArrayType) (p : Primitive) : Prop :=
  match p with
  | Int32Value i => in_s 32 i /\ match t with
      | Uint8Clamped => in_u 8 i
      | _ => match integral_type t with Some (signed, w) => holds_int signed w i = true | None => True end
      end
  | DoubleValue d => in_u 64 d /\ (forall i, in_s 32 i -> of_Z i <> d) /\ (t = Uint32 -> forall i, 2 ^ 31 <= i < 2 ^ 32 -> of_Z i <> d)
  | BigIntValue n => match t with BigInt64 => in_s 64 n | BigUint64 => in_u 64 n | _ => True end
  | OtherValue _ _ => True
  end.

Lemma le_value_bytes l : bytes l -> in_u (8 * Z.of_nat (length l)) (le_value l) /\ le_bytes (length l) (le_value l) = l.
Proof.
  induction 1 as [|c l Hc _ [IH1 IH2]]; [split; [unfold in_u; cbn; lia|done]|].
  cbn [length le_value foldr le_bytes]. fold (le_value l). unfold in_u in *.
  assert (E : 2 ^ (8 * Z.of_nat (S (length l))) = 256 * 2 ^ (8 * Z.of_nat (length l))).
  { rewrite Nat2Z.inj_succ, Z.mul_succ_r, Z.add_comm, Z.pow_add_r by lia. reflexivity. }
  change (2 ^ 8) with 256 in Hc. split; [nia|].
  rewrite (Z.mul_comm 256), Z.mod_add, Z.div_add, (Z.mod_small c), (Z.div_small c) by lia. now rewrite Z.add_0_l, IH2.
Qed.
Lemma le_bytes_inj n x y : le_bytes n x = le_bytes n y <-> x mod 2 ^ (8 * Z.of_nat n) = y mod 2 ^ (8 * Z.of_nat n).
Proof.
  split; [intros E; now rewrite <- !le_value_le_bytes, E|]. revert x y. induction n as [|n IH]; intros x y E; [done|]. cbn [le_bytes].
  assert (P : 2 ^ (8 * Z.of_nat (S n)) = 256 * 2 ^ (8 * Z.of_nat n)).
  { rewrite Nat2Z.inj_succ, Z.mul_succ_r, Z.add_comm, Z.pow_add_r by lia. reflexivity. }
  rewrite P in E. pose proof (Z.pow_pos_nonneg 2 (8 * Z.of_nat n) ltac:(lia) ltac:(lia)) as Hp.
  rewrite !Z.rem_mul_r in E by lia. pose proof (Z.mod_pos_bound x 256 ltac:(lia)). pose proof (Z.mod_pos_bound y 256 ltac:(lia)).
  f_equal; [lia|]. apply IH. lia.
Qed.
Lemma take_le_bytes n m x : (n <= m)%nat -> take n (le_bytes m x) = le_bytes n x.
Proof. revert m x. induction n as [|n IH]; intros [|m] x H; [done|done|lia|]. cbn. now rewrite IH by lia. Qed.
Lemma le_bytes_zero n : le_bytes n 0 = replicate n 0.
Proof. induction n as [|n IH]; [done|]. cbn [le_bytes replicate]. change (0 / 256) with 0. change (0 mod 256) with 0. now rewrite IH. Qed.

(** Equality of bytes and of the integers that they stand for. *)
Lemma bytes_equal l x : bytes l -> bool_decide (l = le_bytes (length l) x) = (le_value l =? x mod 2 ^ (8 * Z.of_nat (length l))).
Proof.
  intros Hl. destruct (le_value_bytes l Hl) as [R E]. unfold in_u in R. apply eq_true_iff_eq. rewrite bool_decide_eq_true, Z.eqb_eq. split.
  - intros Hx. rewrite Hx at 1. apply le_value_le_bytes.
  - intros Hx. rewrite <- E at 1. apply le_bytes_inj. rewrite Hx. now rewrite Z.mod_mod by lia.
Qed.
(** Integers of [w] bits, and the patterns that they have. *)
Definition wrap_of (t : TypedArrayType) (x : Z) : Z := match integral_type t with Some (true, w) => wraps w x | _ => x end.
Definition int_bits (t : TypedArrayType) : Z := 8 * Z.of_nat (Z.to_nat (type_elementSize t)).
Definition is_int (t : TypedArrayType) : bool := match t with Float16 | Float32 | Float64 | BigInt64 | BigUint64 => false | _ => true end.
Lemma int_element t l : is_int t = true -> rawBytesToNumber t l = Number (of_Z (wrap_of t (le_value l))).
Proof. destruct t; try discriminate; intros _; reflexivity. Qed.
Lemma int_bits_cases t : is_int t = true -> (int_bits t = 8 \/ int_bits t = 16 \/ int_bits t = 32).
Proof. destruct t; try discriminate; intros _; vm_compute; auto. Qed.
Lemma wrap_of_range t x : is_int t = true -> in_u (int_bits t) x -> - 2 ^ 31 <= wrap_of t x < 2 ^ 32 /\ (t <> Uint32 -> in_s 32 (wrap_of t x)).
Proof.
  intros Ht Hx. unfold wrap_of. pose proof (wraps_range 8 x ltac:(lia)). pose proof (wraps_range 16 x ltac:(lia)). pose proof (wraps_range 32 x ltac:(lia)).
  unfold in_u, in_s in *. destruct (int_bits_cases t Ht) as [E|[E|E]]; rewrite E in Hx; destruct t; try discriminate Ht; try discriminate E;
    cbn [integral_type]; (split; [lia|intros; try congruence; lia]).
Qed.
Lemma wraps_eq w x i : 0 < w -> in_u w x -> in_s w i -> (x =? i mod 2 ^ w) = (wraps w x =? i).
Proof.
  intros Hw Hx Hi. apply eq_true_iff_eq. rewrite !Z.eqb_eq. split.
  - intros ->. change (i mod 2 ^ w) with (wrapu w i). rewrite wraps_wrapu by lia. apply wraps_id; [lia|done].
  - intros <-. rewrite <- (wrapu_id w x Hx) at 1. change (wraps w x mod 2 ^ w) with (wrapu w (wraps w x)). now rewrite wrapu_wraps by lia.
Qed.
Lemma int_bits_type t signed w : integral_type t = Some (signed, w) -> int_bits t = w /\ 0 < w <= 32.
Proof. destruct t; intros [= <- <-]; vm_compute; auto; split; try split; congruence. Qed.
Lemma int_equal t x i : is_int t = true -> in_u (int_bits t) x -> searchable t (Int32Value i) -> (x =? i mod 2 ^ int_bits t) = (wrap_of t x =? i).
Proof.
  intros Ht Hx [Hi Hs]. destruct (integral_type t) as [[signed w]|] eqn:Et.
  - destruct (int_bits_type t signed w Et) as [Eb Hw]. rewrite Eb in *. unfold wrap_of. rewrite Et.
    assert (Hh : holds_int signed w i = true) by (destruct t; done). unfold holds_int in Hh. destruct signed; Zbool.
    + apply wraps_eq; [lia|done|unfold in_s; lia].
    + now rewrite Z.mod_small by lia.
  - assert (t = Uint8Clamped) as -> by (destruct t; done). unfold in_u in Hs. change (int_bits Uint8Clamped) with 8. rewrite Z.mod_small by lia. reflexivity.
Qed.

(** Doubles that are no int32 are equal to no element. *)
Lemma zero_or_pattern n d : - 2 ^ 31 <= n < 2 ^ 32 -> in_u 64 d -> feq (of_Z n) d = true -> n = 0 \/ d = of_Z n.
Proof.
  intros Hn Hd E. destruct (decide (n = 0)) as [|H0]; [now left|right]. symmetry.
  destruct (r_of_Z n ltac:(lia)) as [[F S] U].
  assert (Hk : key (of_Z n) = key d) by (unfold feq in E; apply andb_true_iff in E as [_ E]; now Zbool).
  apply key_inj; [done|done|done|]. right. intros K.
  assert (Hf : feq (of_Z n) 0 = true).
  { unfold feq. rewrite K. change (key 0) with 0. change (is_nan 0) with false. rewrite is_finite_nan; [done|]. apply (r_of_Z n). lia. }
  rewrite (r_feq _ _ n 0 (r_of_Z n ltac:(lia)) IntegerDoubles.r_zero) in Hf. Zbool. lia.
Qed.

Lemma int_test t l value toUint64 : is_int t = true -> bytes l -> Z.of_nat (length l) = type_elementSize t -> searchable t value ->
  match byte_test toUint64 t value with
  | Some test => test l = strict_equal (rawBytesToNumber t l) value
  | None => strict_equal (rawBytesToNumber t l) value = false
  end.
Proof.
  intros Ht Hl Hlen Hs. rewrite (int_element t l Ht).
  assert (Hx : in_u (int_bits t) (le_value l)) by (unfold int_bits; rewrite <- Hlen, Nat2Z.id; apply le_value_bytes; done).
  pose proof (wrap_of_range t (le_value l) Ht Hx) as [Hw Hw32].
  assert (Esize : Z.to_nat (type_elementSize t) = length l) by lia.
  assert (E : byte_test toUint64 t value =
    match value with
    | DoubleValue d => if feq d (2 ^ 63) then Some (fun bytes => bool_decide (bytes = replicate (length l) 0)) else None
    | Int32Value i => Some (fun bytes => bool_decide (bytes = take (length l) (le_bytes 4 (u32 i))))
    | _ => None
    end) by (unfold byte_test; rewrite Esize; destruct t; done).
  rewrite E. clear E. destruct value as [i|d|n|o]; [| |done|done].
  - cbv beta. rewrite take_le_bytes by (destruct (int_bits_cases t Ht) as [Eb|[Eb|Eb]]; unfold int_bits in Eb; lia).
    rewrite bytes_equal by done. replace (8 * Z.of_nat (length l)) with (int_bits t) by (unfold int_bits; now rewrite Esize).
    cbn [strict_equal]. destruct Hs as [Hi Hs']. rewrite (r_feq _ _ (wrap_of t (le_value l)) i) by (apply r_of_Z; unfold in_s in Hi; lia).
    rewrite <- (int_equal t) by done. f_equal. unfold wrapu.
    destruct (int_bits_cases t Ht) as [Eb|[Eb|Eb]]; rewrite Eb;
      [change (2 ^ 32) with (2 ^ 8 * 2 ^ 24)|change (2 ^ 32) with (2 ^ 16 * 2 ^ 16)|now rewrite Z.mod_mod by lia];
      rewrite Z.rem_mul_r by lia; rewrite Z.add_mod, Z.mul_comm, Z.mod_mul, Z.add_0_r, !Z.mod_mod by lia; done.
  - destruct Hs as (Hd & Hp & Hne). cbn [strict_equal]. destruct (feq d (2 ^ 63)) eqn:E0.
    + cbv beta. rewrite <- le_bytes_zero, bytes_equal by done. rewrite Zmod_0_l.
      assert (Hkd : key d = 0 /\ is_nan d = false).
      { unfold feq in E0. change (key (2 ^ 63)) with 0 in E0. apply andb_true_iff in E0 as [En E0]. apply andb_true_iff in En as [En _].
        apply negb_true_iff in En. now Zbool. }
      transitivity (wrap_of t (le_value l) =? 0).
      * pose proof (int_equal t (le_value l) 0 Ht Hx) as E1. rewrite Zmod_0_l in E1. apply E1. split; [unfold in_s; lia|].
        destruct t; try discriminate Ht; cbn; done || (unfold in_u; lia).
      * rewrite <- (r_feq _ _ _ _ (r_of_Z (wrap_of t (le_value l)) ltac:(lia)) IntegerDoubles.r_zero). unfold feq.
        destruct Hkd as [-> ->]. reflexivity.
    + destruct (feq (of_Z (wrap_of t (le_value l))) d) eqn:E1; [|done]. exfalso.
      destruct (zero_or_pattern _ d Hw Hd E1) as [Ez|Ez].
      * rewrite Ez in E1. revert E0 E1. unfold feq. change (of_Z 0) with 0. change (key (2 ^ 63)) with 0. change (key 0) with 0. change (is_nan 0) with false.
        change (is_nan (2 ^ 63)) with false. cbn [negb andb]. rewrite andb_true_r, Z.eqb_sym. congruence.
      * assert (t = Uint32 \/ t <> Uint32) as [Et|Et] by (destruct t; auto; now right); [|now apply (Hp (wrap_of t (le_value l))); [apply Hw32|]].
        destruct (decide (wrap_of t (le_value l) < 2 ^ 31)); [now apply (Hp (wrap_of t (le_value l))); [unfold in_s; lia|]|].
        now apply (Hne Et (wrap_of t (le_value l))); [lia|].
Qed.

Lemma float_test t l value toUint64 (f : Z -> Z) : bytes l ->
  (forall l, rawBytesToNumber t l = number_of_pattern (f (le_value l))) -> in_u 64 (f (le_value l)) -> searchable t value ->
  byte_test toUint64 t value = (if is_nan (valueAsNumber value) then None else Some (fun bytes => feq (f (le_value bytes)) (valueAsNumber value))) ->
  match byte_test toUint64 t value with
  | Some test => test l = strict_equal (rawBytesToNumber t l) value
  | None => strict_equal (rawBytesToNumber t l) value = false
  end.
Proof.
  intros Hl Hr Hu Hs ->. rewrite Hr. unfold number_of_pattern. rewrite invalid_beginning by done.
  assert (Hn : feq (if DoubleInvalidBeginning <=? f (le_value l) then NAN else f (le_value l)) (valueAsNumber value) = feq (f (le_value l)) (valueAsNumber value)).
  { destruct (DoubleInvalidBeginning <=? f (le_value l)) eqn:E; [|done]. Zbool. unfold feq. now rewrite (invalid_is_nan _ Hu E). }
  destruct (is_nan (valueAsNumber value)) eqn:En.
  - destruct value as [i|d|n|o]; [| |done|done]; cbn in *; unfold feq; rewrite En; apply andb_false_iff; left; apply andb_false_r.
  - cbv beta. destruct value as [i|d|n|o]; [symmetry; exact Hn|symmetry; exact Hn|discriminate En|discriminate En].
Qed.

Lemma searched_bytes t l value toUint64 : (forall n, toUint64 n = wrapu 64 n) -> bytes l -> Z.of_nat (length l) = type_elementSize t -> searchable t value ->
  match byte_test toUint64 t value with
  | Some test => test l = strict_equal (rawBytesToNumber t l) value
  | None => strict_equal (rawBytesToNumber t l) value = false
  end.
Proof.
  intros Hbig Hl Hlen Hs. destruct (is_int t) eqn:Ht; [now apply int_test|].
  pose proof (proj1 (le_value_bytes l Hl)) as Hx. rewrite Hlen in Hx.
  destruct t; try discriminate Ht.
  - apply (float_test Float16 l value toUint64 convertFloat16ToFloat64); try done. apply widen_u64.
  - apply (float_test Float32 l value toUint64 widen); try done. apply widen_u64.
  - apply (float_test Float64 l value toUint64 id); done.
  - destruct value as [i|d|n|o]; cbn; try done. rewrite Hbig. symmetry. rewrite Z.eqb_sym. cbn in Hs.
    rewrite (Z.eqb_sym n). symmetry. now apply wraps_eq.
  - destruct value as [i|d|n|o]; cbn; try done. rewrite Hbig. now rewrite wrapu_id.
Qed.
End ByteComparison.

(** * What the builtins return *)
Module SearchEffects.
Import Effects WP Buffers Invariant RelativeFacts BufferSpecs BufferBuiltins TypedArrays ElementFacts TypedArraySafety IntegerDoubles
  TypedArrayLoops ByteSearch TypedArrayLoopSafety EcmaViews ByteCells ElementMemory ByteComparison.

Lemma first_index_ext p q K N r : (forall i, K <= i < N -> p i = q i) -> first_index p K N r -> first_index q K N r.
Proof.
  intros E [[-> H]|(H1 & H2 & H3)]; [left|right]; split_and?; try lia; intros; rewrite <- E by lia; auto.
Qed.
Lemma last_index_ext p q K r : (forall i, 0 <= i <= K -> p i = q i) -> last_index p K r -> last_index q K r.
Proof.
  intros E [[-> H]|(H1 & H2 & H3)]; [left|right]; split_and?; try lia; intros; rewrite <- E by lia; auto.
Qed.

Section View.
Context (null_when_empty : bool) (cvt toUint64 : Z -> Z) (cvt_int : forall d, in_s 32 (cvt d)) (toUint64_mod : forall n, toUint64 n = wrapu 64 n).
(** The element that a script reads. *)
Definition element (w : World) (v : nat) (i : Z) : option Numeric :=
  match getIndexedPropertyValue cvt v i w with Some (_, inl x) => x | _ => None end.
Definition equal_at (w : World) (v : nat) (value : Primitive) (i : Z) : bool :=
  match element w v i with Some x => strict_equal x value | None => false end.

Context (w : World) (HG : Good false w) (Hbytes : byte_cells w) (v : nat) (x : ArrayBufferView) (b : nat) (t : TypedArrayType).
Context (Ev : views w !! v = Some x) (Eb : m_buffer x = Some b) (Ek : v_kind x = TypedArray t).
Context (Hvalid : validateTypedArray v true w = value w (t, b)).

Lemma element_read i : 0 <= i < m_arrayLength x ->
  getIndexedPropertyValue cvt v i w = value w (Some (rawBytesToNumber t (element_bytes w v t i))) /\ bytes (element_bytes w v t i).
Proof.
  intros Hi. destruct (elements_address false w v x b t HG Ev Eb Ek ltac:(lia)) as (a & Ea & _).
  destruct (element_accessible false w HG v x b t Ev Eb Ek a Ea i Hi) as (Ha & _ & _).
  destruct (element_loads false w v x b t i HG Ev Eb Ek Hi) as [El _]. destruct (read_view w v x Ev) as (_ & _ & _ & R4 & _).
  split.
  - rewrite (get_inside false cvt w HG v x b t Ev Eb Ek a Ea i Hi). repeat f_equal. rewrite R4, Ea in El.
    cbn [advance fmap option_fmap option_map fst snd] in El. pose proof (elementSize_range t) as Hs.
    rewrite (load_read w a _ _ Ha) in El by lia. now injection El.
  - apply (keeps_load _ _ w w (inl (element_bytes w v t i)) Hbytes El).
Qed.
Lemma equal_at_bytes value0 i : searchable t value0 -> 0 <= i < m_arrayLength x ->
  match byte_test toUint64 t value0 with Some test => test (element_bytes w v t i) = equal_at w v value0 i | None => equal_at w v value0 i = false end.
Proof.
  intros Hs Hi. destruct (element_read i Hi) as [E Hb]. destruct (element_loads false w v x b t i HG Ev Eb Ek Hi) as [_ Hl].
  unfold equal_at, element. rewrite E. cbn. now apply searched_bytes.
Qed.
Lemma fast_search_equal isForward k len value0 : searchable t value0 -> 0 <= k < 2 ^ 32 -> 0 <= len <= m_arrayLength x ->
  exists r, fastTypedArrayIndexSearch toUint64 isForward v k len value0 w = value w r /\
    if isForward then first_index (equal_at w v value0) k len r else last_index (equal_at w v value0) (if len <=? k then len - 1 else k) r.
Proof.
  intros Hs Hk Hlen. destruct (fast_search_spec false toUint64 isForward w v x b t k len value0) as (r & E & Hr); try done.
  exists r. split; [exact E|]. unfold search_result in Hr.
  assert (Heq : forall i, 0 <= i < len -> match byte_test toUint64 t value0 with
     | Some test => test (element_bytes w v t i) = equal_at w v value0 i | None => equal_at w v value0 i = false end)
    by (intros i Hi; apply equal_at_bytes; [done|lia]).
  destruct (byte_test toUint64 t value0) as [test|].
  - destruct isForward.
    + eapply first_index_ext; [|exact Hr]. intros i Hi. apply Heq. lia.
    + eapply last_index_ext; [|exact Hr]. intros i Hi. apply Heq. destruct (len <=? k) eqn:El; Zbool; lia.
  - destruct isForward; left; (split; [done|]); intros i Hi; apply Heq; [lia|]. destruct (len <=? k) eqn:El; Zbool; lia.
Qed.

(** An optional argument that is an integer. *)
Definition integral_from (from : option Z) : Prop := match from with Some d => integral d | None => True end.
Lemma integral_default from : integral_from from -> integral (default 0 from).
Proof. destruct from; [done|]. intros _. split; [unfold in_u; cbn; lia|right; exists 0; apply rep_zero]. Qed.
Lemma start_beyond n L : integral n -> 0 <= L <= 2 ^ 32 -> fle (of_Z L) n = true -> relative_index n L = L.
Proof.
  intros [U Hn] HL Ele. unfold relative_index in *. destruct (is_inf n) eqn:Ei.
  - destruct (sign_bit n) eqn:Es; [|done]. exfalso. revert Ele. unfold fle, key. rewrite Es. pose proof (of_Z_finite L ltac:(lia)) as F.
    intros Ele. apply andb_true_iff in Ele as [_ Ele]. Zbool. unfold is_inf, is_finite in *. Zbool.
    pose proof (mag_range (of_Z L)). destruct (sign_bit (of_Z L)); unfold INF in *; lia.
  - destruct Hn as [?|(z & Hz)]; [done|]. rewrite (rep_fle _ _ L z (rep_of_Z L ltac:(lia)) Hz) in Ele. Zbool.
    rewrite (rep_to_Z n z Hz) in *. unfold clamp in *. destruct (z <? 0) eqn:Ez; Zbool; lia.
Qed.
Lemma indexOf_effect value0 from : searchable t value0 -> integral_from from ->
  exists r, builtinTypedArrayIndexOf toUint64 value0 (mret <$> from) v w = value w r /\
    first_index (equal_at w v value0) (relative_index (default 0 from) (m_arrayLength x)) (m_arrayLength x) r.
Proof.
  intros Hs Hf. destruct (view_limits false w v x b HG Ev Eb) as (L1 & _). unfold maxArrayBufferSize in L1.
  destruct (read_view w v x Ev) as (R1 & _). unfold builtinTypedArrayIndexOf. rewrite (bind_some _ _ _ _ _ Hvalid), (bind_some (gets id) _ w w w eq_refl).
  cbv zeta. rewrite R1. set (L := m_arrayLength x) in *. assert (Hn : integral (default 0 from)) by now apply integral_default.
  set (n := default 0 from) in *. assert (Ef : (match mret <$> from with Some f => f | None => mret 0 end : MU World Z) w = value w n) by (unfold n; now destruct from).
  assert (Hrel : 0 <= relative_index n L <= L) by (apply (relative_spec n (of_Z L) L Hn (rep_of_Z L ltac:(lia))); lia).
  destruct (L =? 0) eqn:E0; Zbool; [exists (-1); split; [done|]; left; split; [done|]; intros i Hi; lia|].
  rewrite (bind_some _ _ _ _ _ Ef). destruct (fle (of_Z L) n) eqn:Ele.
  - exists (-1). split; [done|]. left. rewrite (start_beyond n L) by (done || lia). split; [done|]. lia.
  - destruct (from_start_spec n L Hn ltac:(lia) Ele) as [Rk Bk]. rewrite (bind_some (certain _) _ w w (relative_index n L)).
    2:{ unfold certain. pose proof (r_cast_size_t _ _ Rk ltac:(lia)) as Ec. unfold from_start in Ec. cbv zeta in Ec. now rewrite Ec. }
    rewrite (bind_some (gets id) _ w w w eq_refl), R1. fold L. rewrite Z.min_id. apply (fast_search_equal true); [done|lia|lia].
Qed.
Lemma lastIndexOf_effect value0 from : searchable t value0 -> integral_from from ->
  exists r, builtinTypedArrayLastIndexOf toUint64 value0 (mret <$> from) v w = value w r /\
    last_index (equal_at w v value0) (match from with Some n => last_from n (m_arrayLength x) | None => m_arrayLength x - 1 end) r.
Proof.
  intros Hs Hf. destruct (view_limits false w v x b HG Ev Eb) as (L1 & _). unfold maxArrayBufferSize in L1.
  destruct (read_view w v x Ev) as (R1 & _). unfold builtinTypedArrayLastIndexOf.
  rewrite (bind_some _ _ _ _ _ Hvalid), (bind_some (gets id) _ w w w eq_refl). cbv zeta. rewrite R1. set (L := m_arrayLength x) in *.
  set (n := match from with Some n => n | None => of_Z (L - 1) end).
  assert (Ef : (match mret <$> from with Some f => f | None => mret (of_Z (L - 1)) end : MU World Z) w = value w n) by (unfold n; now destruct from).
  destruct (L =? 0) eqn:E0; Zbool.
  { exists (-1). split; [done|]. left. split; [done|]. intros i Hi. exfalso. destruct from as [d|]; [|lia]. unfold last_from in Hi.
    destruct (is_inf d); [destruct (sign_bit d); lia|]. destruct (to_Z d <? 0) eqn:E; Zbool; lia. }
  pose proof (r_of_Z (L - 1) ltac:(lia)) as R. assert (Hn : integral n).
  { unfold n. destruct from; [done|]. destruct R as [R U]. split; [done|right; eauto]. }
  assert (El : (match from with Some n => last_from n L | None => L - 1 end) = last_from n L).
  { unfold n. destruct from as [d|]; [done|]. unfold last_from. rewrite (r_to_Z _ _ R). pose proof (r_finite _ _ R) as F.
    unfold is_inf, is_finite in *. Zbool. destruct (mag (of_Z (L - 1)) =? INF) eqn:Em; Zbool; [lia|]. rewrite (proj2 (Z.ltb_ge _ _)) by lia. lia. }
  rewrite El, (bind_some _ _ _ _ _ Ef). destruct (is_inf n && sign_bit n) eqn:Ei.
  { exists (-1). split; [done|]. left. split; [done|]. intros i Hi. exfalso. unfold last_from in Hi. apply andb_true_iff in Ei as [E1 E2].
    rewrite E1, E2 in Hi. lia. }
  destruct (last_start_from n L Hn ltac:(lia) Ei) as [[Hneg Hlt]|[Rk Bk]].
  - unfold last_start in Hneg. rewrite Hneg. exists (-1). split; [done|]. left. split; [done|]. lia.
  - fold (last_start L n). assert (E : flt (last_start L n) 0 = false) by (rewrite (r_flt _ _ _ _ Rk r_zero); apply Z.ltb_ge; lia).
    rewrite E, (bind_some (certain _) _ w w (last_from n L)) by (unfold certain; now rewrite (cast_integral_rep _ _ Rk) by lia).
    rewrite (bind_some (gets id) _ w w w eq_refl), R1. fold L.
    destruct (fast_search_equal false (last_from n L) L value0 Hs) as (r & Er & Hr); [lia|lia|]. exists r. split; [exact Er|].
    rewrite (proj2 (Z.leb_gt L _)) in Hr by lia. exact Hr.
Qed.
(** SameValueZero of an element and a value. *)
Definition same_zero (x : Numeric) (p : Primitive) : bool :=
  strict_equal x p ||
  match x, p with Number d, DoubleValue e => is_nan d && is_nan e | _, _ => false end.
Lemma same_zero_spec y p : (forall i, p = Int32Value i -> in_s 32 i) -> sameValueZero (Some y) (Some p) = same_zero y p.
Proof.
  intros Hp. destruct y as [d|n], p as [i|e|m|o]; unfold same_zero, sameValueZero, strict_equal; cbn [isNumberValue valueAsNumber andb orb];
    rewrite ?orb_false_r; try done.
  assert (Hn : is_nan (of_Z i) = false) by (apply is_finite_nan, of_Z_finite; specialize (Hp i eq_refl); unfold in_s in Hp; lia).
  now rewrite Hn, andb_false_r, orb_false_r.
Qed.
Definition same_at (value : Primitive) (i : Z) : bool :=
  match element w v i with Some x => same_zero x value | None => false end.

Lemma search_pure n k (body : Z -> MU World (option bool)) (p : Z -> bool) :
  (forall i, k <= i < k + Z.of_nat n -> body i w = value w (if p i then Some true else None)) ->
  exists o, search_from n k body w = value w o /\ (default false o = true <-> exists i, k <= i < k + Z.of_nat n /\ p i = true).
Proof.
  revert k. induction n as [|n IH]; intros k Hb; cbn [search_from].
  - exists None. split; [done|]. split; [done|]. intros (i & Hi & _). lia.
  - rewrite (bind_some _ _ _ _ _ (Hb k ltac:(lia))). destruct (p k) eqn:Ep.
    + exists (Some true). split; [done|]. split; [|done]. intros _. exists k. split; [lia|done].
    + destruct (IH (k + 1)) as (o & E & Ho); [intros i Hi; apply Hb; lia|]. exists o. split; [exact E|]. rewrite Ho.
      split; intros (i & Hi & Hp); exists i; (split; [|done]); [lia|]. destruct (decide (i = k)) as [->|]; [congruence|lia].
Qed.
Lemma includes_effect value0 from : (forall i, value0 = Int32Value i -> in_s 32 i) -> integral_from from ->
  exists r, builtinTypedArrayIncludes cvt (Some value0) (mret <$> from) v w = value w r /\
    (r = true <-> exists i, relative_index (default 0 from) (m_arrayLength x) <= i < m_arrayLength x /\ same_at value0 i = true).
Proof.
  intros Hs Hf. destruct (view_limits false w v x b HG Ev Eb) as (L1 & _). unfold maxArrayBufferSize in L1.
  destruct (read_view w v x Ev) as (R1 & _). unfold builtinTypedArrayIncludes. rewrite (bind_some _ _ _ _ _ Hvalid), (bind_some (gets id) _ w w w eq_refl).
  cbv zeta. rewrite R1. set (L := m_arrayLength x) in *. assert (Hn : integral (default 0 from)) by now apply integral_default.
  set (n := default 0 from) in *. assert (Ef : (match mret <$> from with Some f => f | None => mret 0 end : MU World Z) w = value w n) by (unfold n; now destruct from).
  assert (Hrel : 0 <= relative_index n L <= L) by (apply (relative_spec n (of_Z L) L Hn (rep_of_Z L ltac:(lia))); lia).
  destruct (L =? 0) eqn:E0; Zbool; [exists false; split; [done|]; split; [done|]; intros (i & Hi & _); lia|].
  rewrite (bind_some _ _ _ _ _ Ef). destruct (fle (of_Z L) n) eqn:Ele.
  - exists false. split; [done|]. rewrite (start_beyond n L) by (done || lia). split; [done|]. intros (i & Hi & _). lia.
  - destruct (include_start_spec n L Hn ltac:(lia) Ele) as [Ec Bk]. rewrite (bind_some (certain _) _ w w (relative_index n L)).
    2:{ unfold certain. cbv zeta in Ec. now rewrite Ec. }
    edestruct (search_pure (Z.to_nat (L - relative_index n L)) (relative_index n L)) as (o & E & Ho).
    2:{ rewrite (bind_some _ _ _ _ _ E). exists (default false o). split; [done|]. rewrite Ho. now replace (relative_index n L + _) with L by lia. }
    intros i Hi. destruct (element_read i ltac:(fold L; lia)) as [Er _]. rewrite (bind_some _ _ _ _ _ Er).
    rewrite same_zero_spec by done. unfold same_at, element. rewrite Er. reflexivity.
Qed.
End View.
End SearchEffects.

(** * What scripts get *)
Module SearchClaims.
Import Effects Buffers Invariant RelativeFacts BufferSpecs TypedArrays TypedArrayLoops ByteSearch TypedArrayLoopSafety EcmaViews BufferClaims
  ByteCells ByteComparison SearchEffects.
Import ValueProps(cvt_x86).

Section Claims.
Context (null_when_empty : bool) (cvt toUint64 : Z -> Z).

End Claims.


(** The element there, found; and a value beyond the range of the type that
    [indexOf] finds since its lowest bytes are those of the element. *)
Example searches_shrunk :
  builtinTypedArrayIndexOf (fun n => n mod 2 ^ 64) (Int32Value 1) None 0 shrunk = value shrunk 0 /\
  builtinTypedArrayIndexOf (fun n => n mod 2 ^ 64) (Int32Value 65537) None 0 shrunk = value shrunk 0 /\
  builtinTypedArrayIncludes cvt_x86 (Some (Int32Value 65537)) None 0 shrunk = value shrunk false.
Proof. vm_compute. auto. Qed.
End SearchClaims.
