(* ===== verification/TypedArraySort.v ===== *)
(** What [Sort] relies on of typed arrays holds of the arrays of [TypedArray]: their
    elements, read as values of the engine, are a list that writes change one by
    one, and the default sort puts them in the order of numbers. *)
From Stdlib Require Import ZArith Lia Bool Sorted.
From stdpp Require Import base numbers list option decidable gmap.
From S2P Require Import Prelude Effects Double Value Sort ArrayBuffer BufferInvariant BufferSafety BufferBuiltins TypedArray.
From S2P Require Import TypedArraySafety TypedArrayLoops TypedArrayLoopSafety BufferScript BufferBytes TypedArrayElements TypedArraySearch.

Module SortedArrays.
Import Effects WP Buffers Invariant BufferSpecs BufferBuiltins Word WordFacts TypedArrays ElementFacts TypedArraySafety TypedArrayLoops ByteSearch
  TypedArrayLoopSafety EcmaViews BufferClaims
  ElementValues ElementMemory ByteCells ByteComparison SearchEffects Comparisons Sorting SortingFacts.

Section Words.
Context (cvt toUint64 : Z -> Z) (cvt_int : forall d, in_s 32 (cvt d)) (toUint64_mod : forall n, toUint64 n = wrapu 64 n).

(** The value of an element, and the primitive that a value is. *)
Definition word (x : option Numeric) : Z := match x with Some (Number d) => Value_double cvt d | _ => ValueUndefined end.
Definition primitive (v : Z) : Primitive := if isInt32 v then Int32Value (asInt32 v) else DoubleValue (asDouble v).

Lemma primitive_word d : 0 <= d < DoubleInvalidBeginning -> primitive (word (Some (Number d))) = numeric_value cvt (Number d).
Proof.
  intros Hd. assert (Hu : in_u 64 d) by (unfold in_u, DoubleInvalidBeginning in *; lia).
  unfold primitive, word, numeric_value, number_value, Value_double. pose proof (convertible_spec cvt cvt_int d Hu) as Hc.
  destruct (isInt32ConvertibleDouble cvt d) as [[|] i].
  - now rewrite isInt32_Value_int, asInt32_Value_int by apply Hc.
  - rewrite invalid_beginning, (proj2 (Z.leb_gt _ d)) by (done || lia). destruct (encode_double d Hd) as (_ & _ & _ & -> & ->). done.
Qed.

(** [getIndexedProperty] and [setIndexedProperty] as [Sort] calls them. *)
Definition get_word (self i : Z) : M World Z := fun w =>
  match getIndexedPropertyValue cvt (Z.to_nat self) i w with
  | Some (w, inl x) => (w, inl (word x))
  | Some (w, inr e) => (w, inr e)
  | None => (w, inr UndefinedCast)
  end.
Definition set_word (self i v receiver : Z) : M World bool := fun w =>
  default (w, inr UndefinedCast) (setIndexedProperty cvt toUint64 (Z.to_nat self) i (PrimitiveArg (primitive v)) w).

(** The values that the type of an array can hold, and those of its elements. *)
Definition held (t : TypedArrayType) (v : Z) : Prop :=
  exists d, 0 <= d < DoubleInvalidBeginning /\ ecma_element t (Number d) = Some (Number d) /\ v = word (Some (Number d)).
Definition element_words (v : nat) (x : ArrayBufferView) (w : World) : list Z :=
  (fun i => word (element cvt w v (Z.of_nat i))) <$> seq 0 (Z.to_nat (m_arrayLength x)).

Lemma held_number t v : held t v -> isNumber v = true.
Proof.
  intros (d & Hd & _ & ->). assert (Hu : in_u 64 d) by (unfold in_u, DoubleInvalidBeginning in *; lia).
  apply (Value_double_number cvt cvt_int d Hu).
Qed.
Lemma element_words_lookup v x w k : element_words v x w !! k =
  if decide (Z.of_nat k < m_arrayLength x) then Some (word (element cvt w v (Z.of_nat k))) else None.
Proof.
  unfold element_words. rewrite list_lookup_fmap. case_decide.
  - now rewrite lookup_seq_lt by lia.
  - now rewrite lookup_seq_ge by lia.
Qed.

Section View.
Context (v : nat) (x : ArrayBufferView) (b : nat) (t : TypedArrayType).
Context (Eb : m_buffer x = Some b) (Ek : v_kind x = TypedArray t).

(** The states in which the array is there, with its elements of its type. *)
Definition in_place (w : World) : Prop :=
  Good false w /\ views w !! v = Some x /\ forall i, 0 <= i < m_arrayLength x -> held t (word (element cvt w v i)).

Lemma element_read_here w i : Good false w -> views w !! v = Some x -> 0 <= i < m_arrayLength x ->
  exists y, getIndexedPropertyValue cvt v i w = value w (Some y) /\ element cvt w v i = Some y.
Proof.
  intros HG Ev Hi. destruct (elements_address false w v x b t HG Ev Eb Ek ltac:(lia)) as (a & Ea & _).
  unfold element. rewrite (get_inside false cvt w HG v x b t Ev Eb Ek a Ea i Hi). eexists. now split.
Qed.

#[export] Instance elements_in_place : TypedElements get_word set_word (Z.of_nat v) in_place (held t) (element_words v x).
Proof.
  split.
  - intros w (_ & _ & Hh). unfold element_words. apply Forall_fmap, Forall_seq. intros i Hi. apply Hh. lia.
  - intros w i u (HG & Ev & _) Hu. rewrite element_words_lookup in Hu. case_decide; [|discriminate]. injection Hu as <-.
    destruct (element_read_here w (Z.of_nat i) HG Ev ltac:(lia)) as (y & E & Ey). unfold get_word. now rewrite Nat2Z.id, E, Ey.
  - intros w i u (HG & Ev & Hh) (d & Hd & He & ->) Hi. unfold element_words in Hi. rewrite length_fmap, length_seq in Hi.
    destruct (set_element_effect cvt toUint64 w v x b t (Z.of_nat i) (Number d) (Number d) cvt_int toUint64_mod HG Ev Eb Ek
      ltac:(lia) Hd He) as (a & bytes & _ & _ & Es & Eg & _ & _ & Ej).
    set (w' := write w a _ bytes) in *.
    destruct (safe_setIndexedProperty false cvt toUint64 cvt_int v (Z.of_nat i) (PrimitiveArg (numeric_value cvt (Number d))) ltac:(lia) I w HG)
      as (w'' & r & Es' & HG' & _).
    assert (w'' = w') as -> by (rewrite Es in Es'; unfold value in Es'; congruence).
    assert (Ei : element cvt w' v (Z.of_nat i) = Some (Number d)) by (unfold element; now rewrite Eg).
    destruct (view_limits false w v x b HG Ev Eb) as (L & _). unfold maxArrayBufferSize in L.
    assert (Eo : forall j, 0 <= j < m_arrayLength x -> j <> Z.of_nat i -> element cvt w' v j = element cvt w v j).
    { intros j Hj Hne. destruct (Ej j ltac:(lia) Hne) as (z & E1 & E2). unfold element. now rewrite E1, E2. }
    exists w', true. split; [unfold set_word; rewrite Nat2Z.id, primitive_word by done; now rewrite Es|]. split; [split; [done|split; [done|]]|].
    + intros j Hj. destruct (decide (j = Z.of_nat i)) as [->|Hne]; [rewrite Ei; now exists d|rewrite Eo by done; now apply Hh].
    + apply list_eq. intros k. destruct (decide (k = i)) as [->|Hne].
      * rewrite list_lookup_insert_eq, element_words_lookup, decide_True, Ei by (unfold element_words; rewrite ?length_fmap, ?length_seq; lia). done.
      * rewrite list_lookup_insert_ne, !element_words_lookup by done. case_decide; [|done]. now rewrite Eo by lia.
Qed.

(** The default sort of the array. *)
Lemma sort_in_place call toNumber lessThanEqual cmpfn w : in_place w ->
  exists w', TypedArray_sort get_word set_word (Z.of_nat v) (Z.of_nat (length (element_words v x w)))
      (typed_comparison call toNumber lessThanEqual true cmpfn) w = Some (w', inl tt) /\ in_place w' /\
    element_words v x w' ≡ₚ element_words v x w /\ StronglySorted number_le (element_words v x w').
Proof.
  intros Hw. pose proof Hw as (HG & Ev & _). destruct (view_limits false w v x b HG Ev Eb) as (L & _). unfold maxArrayBufferSize in L.
  apply (TypedArray_sort_by get_word set_word (Z.of_nat v) in_place (held t) (element_words v x) _ lessThanEqual number_le); [exact Hw|now intros| |].
  - intros y z Hy _. apply typed_default_le, (held_number t). pose proof (of_type get_word set_word w Hw) as Ht.
    rewrite Forall_forall in Ht. now apply Ht.
  - unfold element_words. rewrite length_fmap, length_seq. lia.
Qed.
End View.

(** Arrays of integers and of doubles hold only such values. *)
Lemma whole_int n : Z.abs n <= 2 ^ 53 -> whole (of_Z n) = n.
Proof. intros Hn. destruct (rep_of_Z n Hn) as [F E]. unfold whole. rewrite F. apply rep_to_Z. now split. Qed.
Lemma int_valid n : Z.abs n <= 2 ^ 53 -> 0 <= of_Z n < DoubleInvalidBeginning.
Proof.
  intros Hn. pose proof (of_Z_u64 n) as Hu. pose proof (is_finite_nan _ (of_Z_finite n Hn)) as Hf.
  assert (~ DoubleInvalidBeginning <= of_Z n) by (intros E; rewrite (invalid_is_nan _ Hu E) in Hf; discriminate).
  unfold in_u in Hu. lia.
Qed.
Lemma stored_held t l : is_int t = true \/ t = Float64 -> bytes l -> Z.of_nat (length l) = type_elementSize t ->
  held t (word (Some (rawBytesToNumber t l))).
Proof.
  intros Ht Hl Hlen. pose proof (proj1 (le_value_bytes l Hl)) as Hx.
  assert (Hdouble : t = Float64 -> held t (word (Some (rawBytesToNumber t l)))).
  { intros ->. rewrite Hlen in Hx. change (8 * type_elementSize Float64) with 64 in Hx. cbn [rawBytesToNumber]. unfold number_of_pattern.
    rewrite invalid_beginning by done. exists (if DoubleInvalidBeginning <=? le_value l then NAN else le_value l). split; [|now split].
    destruct (DoubleInvalidBeginning <=? le_value l) eqn:E; Zbool; [vm_compute; split; [discriminate|reflexivity]|unfold in_u in Hx; lia]. }
  destruct (is_int t) eqn:Hi; [|destruct Ht; auto; discriminate]. rewrite (int_element t l Hi).
  assert (Hb : in_u (int_bits t) (le_value l)) by (unfold int_bits; rewrite <- Hlen, Nat2Z.id; done).
  destruct (wrap_of_range t (le_value l) Hi Hb) as [Hw _]. exists (of_Z (wrap_of t (le_value l))).
  split; [apply int_valid; lia|]. split; [|done]. revert Hw Hb. set (n := le_value l). clearbody n. intros Hw Hb.
  destruct t; try discriminate Hi; cbn [ecma_element integral_type wrap_of] in *; unfold wrap, in_u in *;
    rewrite ?whole_int by lia; rewrite ?wraps_id by (first [lia|apply wraps_range; lia]); rewrite ?wrapu_id by done; try done.
  change (int_bits Uint8Clamped) with 8 in Hb. rewrite <- clamped_int by (unfold in_s; lia). unfold clamped_from_int32.
  now rewrite (proj2 (Z.ltb_ge n 0)), (proj2 (Z.ltb_ge 255 n)) by lia.
Qed.

Lemma reachable_in_place null_when_empty w v x b t : reachable null_when_empty cvt toUint64 w -> views w !! v = Some x ->
  m_buffer x = Some b -> v_kind x = TypedArray t -> is_int t = true \/ t = Float64 -> in_place v x t w.
Proof.
  intros Hr Ev Eb Ek Ht. pose proof (reachable_good null_when_empty cvt toUint64 false w cvt_int Hr) as HG.
  split; [done|]. split; [done|]. intros i Hi.
  destruct (element_read cvt w HG (reachable_bytes null_when_empty cvt toUint64 w Hr) v x b t Ev Eb Ek i Hi) as [E Hb].
  unfold element. rewrite E. apply stored_held; [done|done|]. now apply (element_loads false w v x b t i HG Ev Eb Ek Hi).
Qed.
(** The default sort of an array of integers or of doubles, in a state that scripts reach. *)
Theorem reachable_arrays_sort null_when_empty call toNumber lessThanEqual cmpfn w v x b t :
  reachable null_when_empty cvt toUint64 w -> views w !! v = Some x -> m_buffer x = Some b -> v_kind x = TypedArray t ->
  is_int t = true \/ t = Float64 ->
  exists w', TypedArray_sort get_word set_word (Z.of_nat v) (m_arrayLength x)
      (typed_comparison call toNumber lessThanEqual true cmpfn) w = Some (w', inl tt) /\
    element_words v x w' ≡ₚ element_words v x w /\ StronglySorted number_le (element_words v x w').
Proof.
  intros Hr Ev Eb Ek Ht. pose proof (reachable_in_place null_when_empty w v x b t Hr Ev Eb Ek Ht) as Hw.
  destruct (sort_in_place v x b t Eb Ek call toNumber lessThanEqual cmpfn w Hw) as (w' & E & _ & Hp & Hs). exists w'.
  destruct (view_limits false w v x b (proj1 Hw) Ev Eb) as (L & _).
  assert (Hl : Z.of_nat (length (element_words v x w)) = m_arrayLength x) by (unfold element_words; rewrite length_fmap, length_seq; lia).
  rewrite <- Hl. auto.
Qed.
End Words.
End SortedArrays.
